(* ===== verification/_CoqProject ===== *)
-Q . S2P
Prelude.v
RustStr.v
Chrono.v
Config.v
Instant.v
Selector.v
BTree.v
Files.v
FileGroup.v
Metadata.v
GroupBuilder.v
View.v
Loader.v
Timeline.v
StorageReader.v
RecordBatches.v
LogFormat.v
Utf8.v
LogReader.v
LogEncoding.v
LogStreaming.v
Scanner.v
OrderingValues.v
RecordMerger.v
ArrowKernels.v
RecordBuffer.v
BaseMerge.v
MergeStream.v
LogMerge.v
LogScan.v
LogFetch.v
LogRead.v
PositionBuffer.v
Float64.v
RowSerde.v
DiskMap.v
SpillMap.v
SpillKeys.v
SpillSpec.v
HFileKey.v
HFileBlock.v
HFileIndex.v
HFileReader.v
HFileSeek.v
HFileWritten.v
Expr.v
ArrowFilter.v
Statistics.v
FilePruner.v
StrReplace.v
KeyGen.v
DatePaths.v
Partition.v
Listing.v
FsView.v
Options.v
ReadOptions.v
TableOptions.v
Admission.v
TimelineUtil.v
Table.v
MetadataTable.v
TableRead.v
ReadContext.v
ReadSchema.v
InputSplit.v
RecordKeys.v
Evolution.v
GroupEngine.v
GroupRead.v
MergeV1.v
GroupReader.v
Narrowing.v
GroupReads.v
PartialColumns.v
Promotion.v
MetadataRecords.v
MetadataMerger.v
MetadataSlice.v
