(* ===== verification/Prelude.v ===== *)
(** * A verification of the core of hudi-rs

    hudi-rs reads Apache Hudi tables.  A table's directory holds a timeline --
    files whose names say which commits were requested, started and completed --
    and file groups: versions of a base file, each with the log files written
    after it.  A read chooses the commits it may see, builds the file groups as
    they were then, and merges the blocks of the log files into the base file.
    This development models that path from the timeline to the merged rows of a
    file group, for the crate under src/crates/core/src, and proves what each
    part owes the next.

    ** The files, from the bottom up

    - [Prelude]: outcomes of fallible code ([res]: a value, an error of the
      crate's [CoreError], or a panic), the [?] operator, loops that stop at an
      error, [partition_point], orders, unstable sorting as a class.
    - [RustStr]: [str] operations on bytes: splitting, prefixes and suffixes,
      order, parsing of integers, char boundaries.  A string is the sequence of
      its bytes.
    - [Chrono]: the calendar as a class ([Chrono], with [ChronoLaws]) and a
      concrete proleptic Gregorian instance ([Civil.civil]).
    - [Config] (config/mod.rs, config/table.rs): the option lookups the timeline
      makes.
    - [Instant] (timeline/instant.rs): actions, states, instants; parsing and
      printing of their file names and timestamps.
    - [Selector] (timeline/selector.rs): [InstantRange], which gates log blocks
      and rows, and [TimelineSelector], which picks commits by request or
      completion time.
    - [BTree]: [BTreeMap] and [BTreeSet] as sorted lists.
    - [Files] (file_group/base_file/mod.rs, file_group/log_file/mod.rs,
      storage/file_metadata.rs, timeline/completion_time.rs): base and log files
      and their names, and the interface [CompletionTimeView].
    - [FileGroup] (file_group/file_slice.rs, file_group/mod.rs): slices, and file
      groups as slices keyed by the time of their base file.
    - [Metadata] (metadata/commit.rs, metadata/replace_commit.rs,
      metadata/table/records.rs): what commits record of the files they write.
    - [GroupBuilder] (file_group/builder.rs): file groups out of that metadata.
    - [View] (timeline/view.rs, reader_v2's [CompletionGate]): which request
      times are committed, and when each completed.
    - [Loader] (timeline/loader.rs, timeline/builder.rs): instants out of
      directory listings.
    - [Timeline] (timeline/mod.rs): the timeline and the queries a table makes.
    - [StorageReader] (storage/reader.rs): positioned reads of an object held
      whole or fetched window by window.
    - [RecordBatches] (file_group/record_batches.rs): batches and their counts.
    - [LogFormat] (file_group/log_file/log_format.rs, log_block.rs, the dispatch
      of content.rs): log blocks and their parts; [ContentDecoder] is the
      interface of the payload decoders.
    - [LogReader] (file_group/log_file/reader.rs): reading blocks, refusing
      damaged ones and scanning for the next.
    - [LogEncoding]: the layout of a well-formed log file as a specification, and
      what the reader makes of such files, whole or damaged.
    - [LogStreaming]: a log file reads the same in windows.
    - [Scanner] (file_group/log_file/scanner.rs): the contents of several log
      files, less what was rolled back.
    - [OrderingValues] (reader_v2/buffered_record.rs): the values that decide
      between versions of a record, and that their comparison is a total order.
    - [RecordMerger] (reader_v2/buffered_record.rs, record_merger.rs,
      update_processor.rs): buffered records and the event-time and commit-time
      mergers.  An [Arc] is an address and what it points to.
    - [ArrowKernels]: the Arrow operations the merge calls, as classes with their
      laws, and a sample instance; [records_to_batch].
    - [RecordBuffer] (reader_v2/record_context.rs, buffer/record_buffer.rs,
      buffer/key_based.rs): the buffer of log records by key, filled from data
      blocks and delete blocks.
    - [BaseMerge] (buffer/key_based.rs): base batches merged with the buffer,
      vectorized and row by row, and the log records left over.
    - [MergeStream] (reader_v2/merge_iterator.rs): the stream of a file group as
      a state machine over base batches and leftover chunks.
    - [LogMerge] (buffer/mod.rs, the composition): blocks of a log, processed in
      order, then merged into the base rows, key by key.
    - [LogScan] (reader_v2/log_record_reader.rs): the two passes over the blocks
      of the log files: what the gates and rollbacks leave, then which instants
      stand for those a log compaction replaced.
    - [LogFetch] (log_record_reader.rs): the walk of the files, the windows that
      content is fetched in, and the whole scan.
    - [LogRead]: the scan composed with the merge, from the bytes of log files to
      the rows of a file group, key by key.
    - [PositionBuffer] (buffer/position_based.rs, record_positions.rs): records by
      the position of their base row, over the buffer by key, and the fallback.
    - [Float64]: the doubles of sizes and ratios, as the standard library specifies
      IEEE 754.
    - [RowSerde] (reader_v2/row_serde.rs): batches as bytes.
    - [DiskMap] and [SpillMap] (buffer/spillable_map.rs): the disk tier, and the map
      of records with its budget, cap and eviction; operations on a state that
      outlives their errors ([st]).
    - [SpillKeys]: the keys the records held by that map carry.
    - [SpillSpec]: that map refines a plain one, and its accounting is exact.
    - [HFileKey] (hfile/key.rs): keys with a length prefix, records, and the bound
      above a prefix.
    - [HFileBlock] (hfile/block.rs, block_type.rs, compression.rs): headers,
      checksums and codecs, data blocks and their iterator, Hadoop's
      variable-length numbers.
    - [HFileIndex] (hfile/reader.rs, base_file/reader.rs): root and leaf indexes,
      the map from separators to blocks, the blocks a key predicate needs, and
      the windows they are read in.
    - [HFileReader] (hfile/reader.rs, trailer.rs, proto.rs, base_file/hfile.rs):
      opening a file whole or in ranges, indexes of any depth, file info, reads by
      window and by predicate.
    - [HFileSeek] (hfile/reader.rs): the cursor, a state monad ([call]): seeks,
      iteration, lookups by key and by prefix.
    - [HFileWritten]: the layout of a well-formed HFile as a specification, that
      such a file opens, and what the reader owes on it.
    - [Utf8]: text of bytes, strict and lossy.
    - [Expr] (expr/mod.rs, expr/filter.rs): operators, filters and their tuple form.
    - [ArrowFilter] (expr/filter.rs): filters cast to a schema, comparisons of
      columns and the row mask.
    - [Statistics] (statistics/mod.rs): minima and maxima of row groups and files.
    - [FilePruner] (table/file_pruner.rs): files left out by their statistics.
    - [StrReplace]: [str::replace], [to_uppercase] and padded numbers.
    - [KeyGen] (keygen/mod.rs, keygen/timestamp_based.rs): partition paths made of
      timestamps, and filters on the timestamps turned into filters on the paths.
    - [DatePaths]: date formats as tokens, when paths are ordered as the timestamps
      are, and that transformed filters keep the matching records.
    - [Partition] (table/partition.rs): partitions left out by their paths.
    - [Listing] (storage/mod.rs, table/listing.rs): directories, partitions and
      the file groups of a partition as storage lists them.
    - [FsView] (table/fs_view.rs, base_file/parquet.rs): the map of file groups all
      queries of a table share, pruning by footers, and the slices of a query.
    - [Options] (config/mod.rs, table.rs, read.rs, plan.rs, internal.rs): the option
      tables; [ConfigParser] is the trait, [TypedParser] what every table promises.
    - [ReadOptions] (config/read_options.rs): the options of one read.
    - [TableOptions] (table/builder.rs, table/validation.rs, config/util.rs): the
      options of a table, resolved from the user, the environment and two files.
    - [Admission] (file_group/admission.rs, util/concurrency.rs, util/collection.rs):
      how many slices are read at once; reads in bounded parallel as a step relation.
    - [TimelineUtil] (timeline/util.rs): timestamps as users write them, and the
      instant just below one.
    - [Table] (table/mod.rs): a table's options, and how a read is prepared: snapshot
      times, incremental windows.
    - [MetadataTable] (metadata/table/mod.rs, routing.rs, v2_reader.rs,
      metadata/rollback.rs): which log blocks of the metadata table are valid, and
      reads of its files partition, shard by shard.
    - [TableRead] (table/mod.rs): slices of snapshot and incremental reads, their rows
      whole or streamed, and statistics, over the interface [MetadataFiles] of what a
      table asks of its metadata table.
    - [ReadContext] (reader_v2/resolver.rs, reader_context.rs, reader_parameters.rs,
      iterator_mode.rs, gaps.rs): how a file group is merged, out of a table's options.
    - [ReadSchema] (reader_v2/delete_context.rs, schema_handler.rs): what marks a
      delete, and the columns a read needs beyond those it was asked for.
    - [InputSplit] (reader_v2/input_split.rs): base file and log files of a read, in
      the order in which they were written.
    - [RecordKeys] (reader_v2/record_context.rs): keys, ordering values and deletes of
      the rows of Arrow batches; [table_record_context] implements the interface
      [RecordContext] of the record buffers.
    - [Evolution] (schema/batch_evolution.rs, reader_v2/output_converter.rs): batches
      read under another schema than they were written with.
    - [GroupEngine] (reader_v2/engine.rs, adapter.rs, merged_log_record_reader.rs,
      buffer/loader.rs): the reader of one file group, which puts the stream of its
      base file, the scan of its log files and a record buffer together.
    - [GroupRead]: what that reader returns, key by key, and when its gates agree.
    - [MergeV1] (merge/ordering.rs, merge/record_merger.rs, record/mod.rs, util/arrow.rs):
      the merge of version one, which sorts all rows of a slice.
    - [GroupReader] (file_group/reader.rs): reads of slices by either version, whole and
      as streams, narrowed to a window, to filters and to a projection.
    - [Narrowing] and [GroupReads]: what narrowing keeps; that reads end, and that a
      stream has the rows of the read as a whole.
    - [PartialColumns] (buffer/key_based.rs, buffer/row_extraction.rs): the columns of
      partial updates, which implement the interface [ColumnOps] of the buffers.
    - [Promotion] (schema/extended_promotion.rs): whether the evolution between two Avro
      schemas needs a rewrite of each record.
    - [MetadataRecords] (metadata/table/records.rs, metadata/merger.rs): records of the
      metadata table's files partition, decoded from Avro values and merged one by one.
    - [MetadataMerger] (reader_v2/metadata_merger.rs): the same merge over Arrow batches,
      as a merger of the record buffer, with that of column statistics.
    - [MetadataSlice] (metadata/table/reader.rs): the first reader of a metadata slice.

    ** Correspondence

    A definition keeps the name of its function, with a prefix where Rocq needs
    one.  Rust's [HashMap] and [HashSet] are [gmap] and [gset] where the code
    cannot see their order, [BTreeMap]s are sorted association lists, a set of
    file groups is a map from the identity that their [Eq] and [Hash] use.
    Integers are [Z], with [checked_add], [saturating_add] and the like written
    out where the code has them; parsing keeps the bounds of its type.  Where a
    sum of [usize] values read from a file may overflow it is a panic
    ([usize_add]), as with overflow checks.  A method
    with [&mut self] returns the new state.  The reader of log files is a state
    monad over [StorageReader] ([rd]).  What [async] code awaits is a call.

    ** Parameters

    [Chrono] (the calendar), [SortUnstable] (the order [sort_unstable] leaves
    equal instants in, instantiated by a merge sort), [Storage] and [LogStorage]
    (listing and fetching of objects), [ObjectStore] (ranged reads of one object;
    [ServesObject] states that ranges come back as they are stored),
    [TimelineCodec] (JSON and Avro decoding of commit files), [ArrowBatch] and
    [ContentDecoder] (Arrow batches, and payload decoders; [BoundedDecoder] states
    that a decoder reads no more than its payload).  In the merge engine:
    [ArrowKernels] with [ArrowLaws] (interleave, take, filter and concat on
    rows), [ColumnOps] (casts, and the columns of partial updates),
    [RecordContext] with its laws (key, ordering value and delete marker of a
    row), [MapOrder] (the order a [HashMap] is drained in) and [ArrowRows].
    [FileGroupRecordBuffer] is the trait of buffers the scan feeds.  [PositionsCodec]
    decodes the positions of a block.  For spilling: [SpillDb] with [SpillDbLaws]
    (RocksDB), [ArrowIpc] with [IpcLaws], [ArrowMemory] (the bytes a batch retains)
    and [HashIter] (the order a map is iterated in).  For HFiles:
    [Gunzip], [HFileProtos] (the protobuf messages of trailer and file info),
    [RangeStore] (several ranges of an object at once) and [HeadStore] (its
    length).  For filters and pruning: [ArrowScalars] with [ScalarLaws] (comparison
    and cast kernels), [KeygenChrono] with its laws (time zones, parsing and fields
    of dates) and [PercentDecode].  For
    tables: [ObjectListing] (one level of a directory), [ParquetFooters],
    [OptionFiles] (hoodie.properties, the global defaults and the environment),
    [TimelineChrono] with its laws (calendar fields, instantiated by
    [CivilCalendar]), [SchemaResolver], [RollbackCodec] (Avro of rollbacks and
    restores), [MetadataReader] (the merged rows of a metadata slice) and
    [SliceReaders].  For reads of file groups: [SortBy] with its laws ([slice::sort_by]
    on a comparator that may not be an order), [Pushdown] (row filters and row group
    selectors of Parquet), [ArrowFields] and [AvroSchemas] (fields and schemas in JSON),
    [SchemaFields] and [ArrowSchemas] (the fields of a schema), [ArrowColumns],
    [ArrowArrays], [ArrayBatches], [ArrowCells] and [BatchViews] with their laws (the
    columns of a batch at the level of keys, of arrays, of cells and of whole batches),
    [FloatText] (printed floats), [AvroRecords] (a schema's fields and their defaults),
    [RowFormat] with its laws (Arrow's comparable rows), [CustomMergers] (the mergers
    that payload classes name), [BaseFileReaders] and [StorageOpens].  For the metadata
    table's records: [AvroDatum] and [AvroSchemaText] (Avro's decoding of values and
    schemas), [AvroEq] with its laws (equality of schemas), and [MetadataArrays] with its
    laws (maps, structs and unions of Arrow).  Each law has an instance, and theorems that use it have a witness at
    one.

    ** Theorems

    - Round trips: instants ([parsed_instant_roundtrip]), base and log file names,
      names of block types, and whole log files ([read_all_blocks_roundtrip]: a
      file of well-formed blocks reads back as the blocks the range admits).
    - Damage: the corruption check is exact ([corruption_check_exact]), recovery
      finds the next magic however it straddles the scan's windows
      ([scan_finds_next_magic]), and a damaged block costs its own span only
      ([damaged_block_costs_its_span]).
    - Refinement: lazily read blocks load what was written, within their residency
      budget; windows are invisible to the log reader; binary search selects what
      a scan would ([select_spec]); the completion gate and the view decide alike
      ([completion_gate_agrees_with_view]).
    - Composition: [scan_written_files] goes from the bytes of several files to
      the contents the scanner returns, or to its error where formats are mixed or a
      rollback has no target; [file_groups_between_spec] from commit
      metadata to the file groups of an incremental window;
      [incremental_windows_partition]: consecutive windows lose and repeat nothing.
    - Merge engine: the mergers pick the winner the merge mode names, in any
      order of arrival for event time; the vectorized kernel and the row-wise
      path give the rows of one specification ([merge_rows_spec]); a stream
      yields the rows of the whole merge, in batches ([stream_agrees_with_row_merge]);
      each key of a file group is read as its versions, folded in log order over
      its base row ([file_group_read_by_key]); merging by position is merging by
      key, where no key stands at two positions ([position_merge_agrees]).
    - Partial updates: laying two narrow records over a row is laying them over each
      other first ([partial_updates_compose]); a record whose missing values were
      filled in passes the guard that looks for them ([filled_record_passes_guard]).
    - File group reads: the reader of a file group returns for each key its versions
      folded over its base row ([group_read_by_key]); the gates on the merge mode agree
      ([merge_mode_gates_agree]); a predicate is pushed to a base file only where it
      sees the values it would see after evolution ([pushed_filter_is_safe],
      [pushed_predicate_reads_stored_values]); positions are merged by only if they are
      read ([position_buffer_has_its_column]).  A slice's read ends ([reads_end]), its
      stream has the same rows ([streamed_read_agrees]), and the window and the
      filters keep exactly their rows ([narrow_keeps_rows]).  The read's schema covers
      what the merge looks at ([required_schema_covers]); log files are in the order
      they were written in ([split_orders_log_files]); composite keys are equal only
      if their parts are ([composite_keys_distinct]).
    - Version one of the merge keeps of each key the latest row, unless a delete is
      later ([overwrite_with_latest_spec]).
    - Spilling: whatever is compacted or spilled, the map of records is a map, of
      which a spilled row comes back with the map's key as its own
      ([spillable_map_is_a_map]), what it tracks is what it retains
      ([retained_bytes_exact]), and a cap is kept or its error returned
      ([peak_cap_kept]).
    - Log scan: what each pass keeps ([forward_scan_pass1_spec],
      [reverse_scan_pass2_spec], [scan_without_compaction]); windows are bounded,
      in order and of one file ([plan_content_windows_spec]) and merge as if
      everything had been loaded ([windows_merge_as_loaded]); the whole scan is the
      merge of the blocks the passes choose ([scan_internal_agrees]); and from the
      bytes of the log files each key reads as its versions folded
      ([log_files_read_by_key]).
    - HFiles: a written file, uncompressed and of one index level, reads back by
      cursor and by windows ([hfile_roundtrip]); opening in ranges is opening whole
      ([ranged_open_agrees]); reads by predicate are filtered scans
      ([predicate_read_is_filtered_scan]); lookups and prefix reads with the
      cursor find what a search of the records would ([lookup_records_spec],
      [collect_records_by_prefix_spec]).
    - Pruning: the row mask is the conjunction of the filters
      ([filters_to_row_mask_spec]); a file or partition that is left out has no row
      that passes them ([pruned_file_has_no_match], [pruned_partition_has_no_match],
      [timestamp_partition_kept]); filters survive their tuple form
      ([filter_tuple_roundtrip]).
    - Tables: the listing of a partition is exactly what readers may see
      ([partition_listing_exact]), from the metadata table as from storage
      ([metadata_listing_agrees]); a snapshot keeps the slice of every matching row
      ([snapshot_keeps_matching_slices]) whatever other queries load at the same time
      ([unpruned_queries_do_not_disturb]); an incremental window resolves to request
      times that cover it ([incremental_window_covers]) and the read plans all that
      the window changed ([incremental_read_complete]).
    - Metadata table: looking keys up shard by shard agrees with the scan of all
      ([lookup_agrees_with_scan]); the valid instants are the completed ones, less
      what is pending, with what rollbacks name ([valid_instants_spec]).
    - Metadata records: a file is listed if the last record that mentions it does not
      delete it ([merged_files_by_last_mention]); both mergers make the same of two
      records ([files_records_merge_alike]), but grouping the records of the logs first
      loses a deletion of what the record before it repeated ([grouping_of_logs]); merged statistics cover what both cover
      ([merged_statistics_cover]); reads of keys are restrictions of whole reads
      ([keyed_slice_read]).  Comparing schemas without the names of records and
      the defaults of fields decides as comparing with them
      ([coarse_equality_decides_alike]).
    - Options: lookups have the type of their key ([typed_lookups]); read options
      take their defaults from the table ([with_defaults_from_spec]); a table's
      options have the documented precedence ([table_options_resolved]).
    - Concurrency: bounded reads end, keep their order and never exceed their bound,
      and the run with the tasks in order is one of theirs ([bounded_reads_complete]); the budget admits no more than it holds
      ([slices_in_flight_bounded]).
    - Invariants: file groups stay well formed under every operation, and log
      files end up in the same slices in any order of insertion.
    - Errors and termination: when timestamp parsing panics, when scans refuse
      mixed formats, and that reading blocks terminates on any content.

    Examples marked as such record behaviours that depart from a comment or from
    another part of the crate.

    ** Bounds and fuel

    The loops over blocks and over scan windows take fuel.  The definitions give
    them one more than the length of the file: a block moves the reader forward
    and starts before the end of the file, and a scan window advances by at least
    one byte, so it never runs out ([read_all_blocks_terminates],
    [scan_loop_spec]).  Theorems on whole files suppose the file shorter than
    2^64 - 6 bytes, which leaves room for the reads past its end.  The row-wise
    read has as fuel the base rows and buffered records left, one of which every
    step consumes; a stream is polled once per base batch and once per chunk of
    [DEFAULT_BATCH_SIZE] records left ([chunks_left]), which for the reads of slices
    [reads_end] shows to be enough.  The iterator of a data
    block has as fuel the length of the block, nine bytes of which a record takes
    at least ([data_block_iter_terminates]); the cursor's scan across blocks one
    more than the blocks of the index; reads of all records with the cursor take
    their fuel as an argument, and one more than the records is enough.

    ** Not modelled

    Value conversion between Avro, Parquet and Arrow, the payload decoders and the
    streams of the Parquet and Lance readers are calls of those libraries; object store
    I/O is a parameter; the query engine and the language bindings are glue.
    The record buffers hold their records in a plain map, which the spillable map
    refines.  The ids of spilled batches do not reach 2^64, and the addresses of
    batches are not reused.  Of HFiles: the Avro decoding of values,
    allocations sized by counts a file states, and the counters of fetches.  The caches a table keeps of
    its estimator and its metadata table are left out: each use makes them anew.
    The LSM history of the timeline (read from Parquet files), the record keys
    written into the columns of HFile batches, and the estimator of file sizes are not
    modelled: they consist of Parquet and Arrow calls whose results the models above take
    as arguments.  Of the Avro schemas that [Promotion] compares, the default of a
    field is its text and custom properties are left out. *)
From stdpp Require Import base gmap sets list strings sorting numbers.

(** * Outcomes of fallible Rust code

    A call under modelling returns [Ok], an error of the crate's [CoreError]
    enum, or panics.  Messages are not kept: every observable decision the
    crate takes on an error is on its variant.  [ConfigError] and
    [StorageError] reach callers wrapped in the variants [EConfig] and
    [EStorage], the errors of the HFile reader in [EHFile]. *)
Inductive HFileError :=
  | InvalidFormat
  | InvalidBlockMagic
  | UnsupportedVersion
  | UnsupportedCompression
  | UnsupportedMvccTimestamp
  | DecompressionError
  | ProtobufError
  | UnexpectedBlockType
  | BackwardSeekNotSupported.

Inductive CoreError :=
  | EHFile (e : HFileError)
  | EConfig
  | ECommitMetadata
  | EFileGroup
  | ELogFormat
  | ELogBlock
  | EReadFileSlice
  | EReadLogFile
  | EStorage
  | ETimeline
  | ETimelineNoCommit
  | ETimestampParsing
  | EUnsupported
  | EUtf8
  | ESchema
  | EArrow
  | EInvalidPartitionPath
  | EMetadataTable
  | EInvalidValue
  | EMemoryLimitExceeded.

Inductive res (A : Type) :=
  | Ok (a : A)
  | Err (e : CoreError)
  | Panic.
Global Arguments Ok {A} a.
Global Arguments Err {A} e.
Global Arguments Panic {A}.

Global Instance HFileError_eq_dec : EqDecision HFileError.
Proof. solve_decision. Defined.

Global Instance CoreError_eq_dec : EqDecision CoreError.
Proof. solve_decision. Defined.

Global Instance res_eq_dec {A} `{EqDecision A} : EqDecision (res A).
Proof. solve_decision. Defined.

(** The [?] operator: an error or a panic ends the enclosing function. *)
Definition res_bind {A B} (r : res A) (k : A -> res B) : res B :=
  match r with
  | Ok a => k a
  | Err e => Err e
  | Panic => Panic
  end.

Declare Scope res_scope.
Delimit Scope res_scope with res.
Notation "'let?' x ':=' r 'in' k" := (res_bind r (fun x => k))
  (at level 10, x pattern, r at level 100, k at level 200,
   format "'[v' 'let?'  x  ':='  r  'in' '/' k ']'") : res_scope.

Definition res_map {A B} (f : A -> B) (r : res A) : res B :=
  res_bind r (fun a => Ok (f a)).

(** [Result::map_err] with a constant variant. *)
Definition map_err {A} (e : CoreError) (r : res A) : res A :=
  match r with
  | Err _ => Err e
  | _ => r
  end.

(** [Option::ok_or]. *)
Definition ok_or {A} (o : option A) (e : CoreError) : res A :=
  match o with
  | Some a => Ok a
  | None => Err e
  end.

(** [Option::map(f).transpose()]. *)
Definition opt_traverse {A B} (f : A -> res B) (o : option A) : res (option B) :=
  match o with
  | Some a => res_map Some (f a)
  | None => Ok None
  end.

Definition is_Ok {A} (r : res A) : bool :=
  match r with
  | Ok _ => true
  | _ => false
  end.

(** [collect::<Result<Vec<_>>>()]: left to right, ending at the first error. *)
Fixpoint res_mapM {A B} (f : A -> res B) (l : list A) : res (list B) :=
  match l with
  | [] => Ok []
  | a :: l' => res_bind (f a) (fun b => res_bind (res_mapM f l') (fun bs => Ok (b :: bs)))
  end.

(** A [for] loop whose body may return early with an error. *)
Fixpoint res_fold {A B} (f : B -> A -> res B) (l : list A) (b : B) : res B :=
  match l with
  | [] => Ok b
  | a :: l' => res_bind (f b a) (res_fold f l')
  end.

Create HintDb hudi.

Lemma res_bind_Ok {A B} (r : res A) (k : A -> res B) b :
  res_bind r k = Ok b <-> exists a, r = Ok a /\ k a = Ok b.
Proof. destruct r; simpl; naive_solver. Qed.

Lemma res_map_Ok {A B} (f : A -> B) (r : res A) b :
  res_map f r = Ok b <-> exists a, r = Ok a /\ b = f a.
Proof. destruct r; unfold res_map; simpl; naive_solver. Qed.

Lemma ok_or_Ok {A} (o : option A) e a : ok_or o e = Ok a <-> o = Some a.
Proof. destruct o; simpl; naive_solver. Qed.

Lemma map_err_Ok {A} e (r : res A) a : map_err e r = Ok a <-> r = Ok a.
Proof. destruct r; simpl; naive_solver. Qed.

Lemma is_Ok_true {A} (r : res A) : is_Ok r = true <-> exists a, r = Ok a.
Proof. destruct r; simpl; naive_solver. Qed.

(** Evaluate a closed call in the virtual machine; [vm_ok] also instantiates
    the result it ends with. *)
Ltac vm_eq := match goal with |- _ = ?b => vm_cast_no_check (eq_refl b) end.

Ltac vm_ok :=
  match goal with
  | |- ?t = Ok ?e =>
      let v := eval vm_compute in t in
      match v with Ok ?x => unify e x; vm_cast_no_check (eq_refl t) end
  end.

(** Split every [let?] chain of a hypothesis that ended in [Ok]. *)
Ltac res_inv H :=
  repeat first
    [ progress simplify_eq/=
    | match type of H with
      | res_bind _ _ = Ok _ =>
          let a := fresh "a" in let E := fresh "E" in
          apply res_bind_Ok in H as (a & E & H)
      | res_map _ _ = Ok _ =>
          let a := fresh "a" in let E := fresh "E" in
          apply res_map_Ok in H as (a & E & H)
      | ok_or _ _ = Ok _ => apply ok_or_Ok in H
      | map_err _ _ = Ok _ => apply map_err_Ok in H
      | (if ?b then _ else _) = Ok _ => let E := fresh "E" in destruct b eqn:E
      | (match ?x with _ => _ end) = Ok _ => let E := fresh "E" in destruct x eqn:E
      end ].

Lemma res_mapM_Ok {A B} (f : A -> res B) l bs :
  res_mapM f l = Ok bs <-> Forall2 (fun a b => f a = Ok b) l bs.
Proof.
  revert bs. induction l as [|a l IH]; intros bs; simpl.
  - split; [intros [= <-]; constructor | by inversion 1].
  - split.
    + intros H. res_inv H. constructor; [done|]. by apply IH.
    + inversion 1 as [|? b ? bs' Hb Hbs]; subst. rewrite Hb. simpl.
      apply IH in Hbs. by rewrite Hbs.
Qed.

Lemma res_fold_app {A B} (f : B -> A -> res B) l1 l2 b :
  res_fold f (l1 ++ l2) b = res_bind (res_fold f l1 b) (res_fold f l2).
Proof.
  revert b. induction l1 as [|a l1 IH]; intros b; simpl; [done|].
  destruct (f b a); simpl; auto.
Qed.

(** An invariant of the loop body is an invariant of the loop. *)
Lemma res_fold_inv {A B} (P : B -> Prop) (f : B -> A -> res B) l b b' :
  (forall b a b', a ∈ l -> P b -> f b a = Ok b' -> P b') ->
  P b -> res_fold f l b = Ok b' -> P b'.
Proof.
  revert b. induction l as [|a l IH]; simpl; intros b Hstep Hb H.
  - by simplify_eq.
  - res_inv H. eapply IH; [| |done].
    + intros ? ? ? ?. apply Hstep. by right.
    + eapply Hstep; [by left|done|done].
Qed.

(** * Lists *)
Lemma filter_all {A} (P : A -> Prop) `{forall a, Decision (P a)} (l : list A) :
  Forall P l -> filter P l = l.
Proof.
  induction 1 as [|a l Ha _ IH]; [done|]. rewrite filter_cons_True by done. by rewrite IH.
Qed.

Lemma filter_none {A} (P : A -> Prop) `{forall a, Decision (P a)} (l : list A) :
  Forall (fun a => ~ P a) l -> filter P l = [].
Proof. induction 1 as [|a l Ha _ IH]; [done|]. by rewrite filter_cons_False. Qed.

Lemma filter_ext_elem {A} (f g : A -> bool) (l : list A) :
  (forall a, a ∈ l -> f a = g a) ->
  filter (fun a => f a = true) l = filter (fun a => g a = true) l.
Proof.
  induction l as [|a l IH]; intros H; [done|].
  rewrite !filter_cons, <- (H a) by left. rewrite IH; [done|]. intros b Hb. apply H. by right.
Qed.

(** In a sorted list, what precedes the last element satisfying [P]. *)
Lemma sorted_filter_before {A} (R : relation A) (P : A -> Prop) `{forall a, Decision (P a)} (m l : list A) (a b : A) :
  StronglySorted R m -> filter P m = l ++ [a] -> b ∈ l -> R b a.
Proof.
  intros Hs. revert l. induction Hs as [|x m Hs IH Hx]; intros l Hl Hb.
  - by destruct l.
  - rewrite filter_cons in Hl. case_decide; [|by eapply IH].
    destruct l as [|y l]; [by inversion Hb|]. injection Hl as <- Hl.
    apply elem_of_cons in Hb as [->|Hb]; [|by eapply IH].
    assert (Ha : a ∈ filter P m) by (rewrite Hl; apply elem_of_app; right; by left).
    apply list_elem_of_filter in Ha as [_ Ha]. rewrite List.Forall_forall in Hx.
    by apply Hx, list_elem_of_In.
Qed.

(** * Slices

    [<[T]>::partition_point] is the standard library's branch-free binary
    search.  [partition_loop] is its [while size > 1] loop: the size strictly
    shrinks, so [length l] steps of fuel are enough. *)
Section partition_point.
Context {A : Type} (p : A -> bool).

Definition test_at (l : list A) (i : nat) : bool :=
  match l !! i with Some a => p a | None => false end.

Fixpoint partition_loop (fuel : nat) (l : list A) (base size : nat) : nat :=
  match fuel with
  | O => base
  | S fuel =>
      if decide (size <= 1) then base
      else
        let half := size / 2 in
        let mid := base + half in
        partition_loop fuel l (if test_at l mid then mid else base) (size - half)
  end.

Definition partition_point (l : list A) : nat :=
  match l with
  | [] => 0
  | _ =>
      let base := partition_loop (length l) l 0 (length l) in
      if test_at l base then S base else base
  end.

(** [l] is partitioned at [k]: true before, false from there on. *)
Definition partitioned (l : list A) (k : nat) : Prop :=
  k <= length l /\
  (forall i a, i < k -> l !! i = Some a -> p a = true) /\
  (forall i a, k <= i -> l !! i = Some a -> p a = false).

Lemma partitioned_test l k i :
  partitioned l k -> i < length l -> test_at l i = bool_decide (i < k).
Proof.
  intros (Hk & Ht & Hf) Hi. unfold test_at.
  destruct (lookup_lt_is_Some_2 l i Hi) as [a Ha]. rewrite Ha.
  case_bool_decide; [eauto|]. eapply Hf; [|done]. lia.
Qed.

Lemma partition_loop_spec fuel l k base size :
  partitioned l k -> size <= fuel -> 1 <= size ->
  base + size <= length l ->
  (base = 0 \/ base < k) -> k <= base + size ->
  let b := partition_loop fuel l base size in
  b < length l /\ (b = 0 \/ b < k) /\ k <= S b.
Proof.
  intros Hp. revert base size.
  induction fuel as [|fuel IH]; intros base size Hf H1 Hle Hlo Hhi;
    cbn [partition_loop]; [lia|].
  case_decide; [split_and!; [lia|lia|lia]|].
  assert (0 < size / 2) by (apply Nat.div_str_pos; lia).
  assert (size / 2 < size) by (apply Nat.div_lt; lia).
  assert (2 * (size / 2) <= size) by (apply Nat.Div0.mul_div_le; lia).
  assert (Hmid : base + size / 2 < length l) by lia.
  rewrite (partitioned_test l k) by done.
  apply IH; try case_bool_decide; lia.
Qed.

Lemma partition_point_spec l k : partitioned l k -> partition_point l = k.
Proof.
  intros Hp. destruct l as [|a l]; [destruct Hp as [? _]; simpl in *; lia|].
  unfold partition_point.
  destruct (partition_loop_spec (length (a :: l)) (a :: l) k 0 (length (a :: l)))
    as (Hb & Hlo & Hhi); try done; simpl length; try lia.
  { destruct Hp as [? _]. simpl in *. lia. }
  simpl length in Hb, Hlo, Hhi.
  rewrite (partitioned_test _ k) by (done || (simpl; lia)).
  case_bool_decide; lia.
Qed.

(** On a list where [p] never turns back on, [partition_point] splits off
    exactly the elements that satisfy it. *)
Lemma partition_point_split l :
  StronglySorted (fun x y => p y = true -> p x = true) l ->
  take (partition_point l) l = filter (fun a => p a = true) l /\
  drop (partition_point l) l = filter (fun a => p a = false) l.
Proof.
  intros Hs.
  assert (exists k, partitioned l k /\
    take k l = filter (fun a => p a = true) l /\
    drop k l = filter (fun a => p a = false) l) as (k & Hp & Ht & Hd).
  { induction Hs as [|a l Hs IH Ha].
    - exists 0. split_and!; try done.
    - destruct IH as (k & (Hk & Hpt & Hpf) & Ht & Hd).
      destruct (p a) eqn:Hpa.
      + exists (S k). rewrite !filter_cons, !Hpa. simpl.
        rewrite Ht, Hd. split_and!; [|done..]. split_and!; [simpl; lia|..].
        * intros [|i] b ? Hb; simplify_eq/=; [done|]. eapply Hpt; [|done]. lia.
        * intros [|i] b ? Hb; simplify_eq/=; [lia|]. eapply Hpf; [|done]. lia.
      + assert (Hall : Forall (fun y => p y = false) (a :: l)).
        { constructor; [done|]. eapply Forall_impl; [|exact Ha].
          simpl. intros y Hy. destruct (p y); naive_solver. }
        exists 0. rewrite (filter_none (fun a => p a = true)), (filter_all (fun a => p a = false)) by
          (eapply Forall_impl; [|exact Hall]; simpl; intros; congruence).
        split_and!; [|done..]. split_and!; [simpl; lia|lia|].
        intros i b _ Hb. by eapply Forall_lookup_1 in Hall. }
  by rewrite (partition_point_spec l k Hp).
Qed.
End partition_point.

(** * Comparisons

    [Ord::cmp] as a function to [comparison], with [Ordering::then]. *)
Definition cmp_then (c d : comparison) : comparison :=
  match c with Eq => d | _ => c end.

Class TotalCmp {A} (cmp : A -> A -> comparison) : Prop := {
  cmp_eq : forall a b, cmp a b = Eq <-> a = b;
  cmp_opp : forall a b, cmp b a = CompOpp (cmp a b);
  cmp_lt_trans : forall a b c, cmp a b = Lt -> cmp b c = Lt -> cmp a c = Lt
}.

Definition prod_cmp {A B} (ca : A -> A -> comparison) (cb : B -> B -> comparison)
    (x y : A * B) : comparison :=
  cmp_then (ca x.1 y.1) (cb x.2 y.2).

#[export] Instance N_total_cmp : TotalCmp N.compare.
Proof.
  split; intros.
  - apply N.compare_eq_iff.
  - apply N.compare_antisym.
  - rewrite N.compare_lt_iff in *. lia.
Qed.

#[export] Instance Z_total_cmp : TotalCmp Z.compare.
Proof.
  split; intros.
  - apply Z.compare_eq_iff.
  - apply Z.compare_antisym.
  - rewrite Z.compare_lt_iff in *. lia.
Qed.

#[export] Instance prod_total_cmp {A B} ca cb :
  TotalCmp ca -> TotalCmp cb -> TotalCmp (@prod_cmp A B ca cb).
Proof.
  intros Ha Hb. unfold prod_cmp. split.
  - intros [a1 b1] [a2 b2]. simpl. pose proof (cmp_eq a1 a2). pose proof (cmp_eq b1 b2).
    destruct (ca a1 a2); simpl; naive_solver.
  - intros [a1 b1] [a2 b2]. simpl. rewrite (cmp_opp (cmp := ca) a1 a2), (cmp_opp (cmp := cb) b1 b2).
    by destruct (ca a1 a2).
  - intros [a1 b1] [a2 b2] [a3 b3]. simpl.
    destruct (ca a1 a2) eqn:E1; simpl; [|intros _|done].
    + apply cmp_eq in E1 as ->. destruct (ca a2 a3); simpl; [|done..]. apply cmp_lt_trans.
    + destruct (ca a2 a3) eqn:E2; simpl; [intros _| |done].
      * apply cmp_eq in E2 as <-. by rewrite E1.
      * intros _. by rewrite (cmp_lt_trans a1 a2 a3).
Qed.

Lemma cmp_refl {A} (cmp : A -> A -> comparison) `{!TotalCmp cmp} a : cmp a a = Eq.
Proof. by apply cmp_eq. Qed.

(** * Unstable sorting

    [sort_unstable] leaves the order of equal elements unspecified: the model
    takes any function that sorts and permutes. *)
Class SortUnstable (A : Type) (R : relation A) := {
  sort_unstable : list A -> list A;
  sort_unstable_perm : forall l, sort_unstable l ≡ₚ l;
  sort_unstable_sorted : forall l, StronglySorted R (sort_unstable l)
}.
Global Arguments sort_unstable {A R _} l.

(** Merge sort is one. *)
Definition merge_sort_unstable {A} (R : relation A)
    `{!RelDecision R, !Transitive R, !Total R} : SortUnstable A R :=
  {| sort_unstable := merge_sort R;
     sort_unstable_perm := merge_sort_Permutation R;
     sort_unstable_sorted := StronglySorted_merge_sort R |}.
