(* ===== verification/RustStr.v ===== *)
(** Rust's [str] on byte strings.

    A Rust [&str] is modelled by the [string] of its UTF-8 bytes: [len] is the
    number of bytes, [Ord] is byte-wise lexicographic order, and slicing panics
    off a character boundary.  The file defines the methods of [str], [char]
    and the integer parsers the modelled code calls, with the lemmas the
    components share. *)
From Stdlib Require Import Ascii.
From stdpp Require Import base gmap sets list strings sorting numbers pretty.
From S2P Require Import Prelude.
Local Open Scope res_scope.

(** * Characters *)
Definition ascii_eqb : ascii -> ascii -> bool := Ascii.eqb.

Lemma ascii_eqb_spec (a b : ascii) : reflect (a = b) (ascii_eqb a b).
Proof. apply Ascii.eqb_spec. Qed.

Definition digit_of (c : ascii) : option N :=
  let n := Ascii.N_of_ascii c in
  if (48 <=? n)%N && (n <=? 57)%N then Some (n - 48)%N else None.

Definition is_ascii_digit (c : ascii) : bool :=
  match digit_of c with Some _ => true | None => false end.

(** A UTF-8 continuation byte is 0x80..0xBF. *)
Definition is_continuation (c : ascii) : bool :=
  let n := Ascii.N_of_ascii c in (128 <=? n)%N && (n <=? 191)%N.

Definition to_ascii_lower (c : ascii) : ascii :=
  let n := Ascii.N_of_ascii c in
  if (65 <=? n)%N && (n <=? 90)%N then Ascii.ascii_of_N (n + 32) else c.

(** * Methods of [str] *)
Fixpoint str_mem (c : ascii) (s : string) : bool :=
  match s with
  | EmptyString => false
  | String a s => ascii_eqb a c || str_mem c s
  end.

Fixpoint str_all (p : ascii -> bool) (s : string) : bool :=
  match s with
  | EmptyString => true
  | String a s => p a && str_all p s
  end.

(** [split_once]: at the first occurrence. *)
Fixpoint split_once (c : ascii) (s : string) : option (string * string) :=
  match s with
  | EmptyString => None
  | String a s =>
      if ascii_eqb a c then Some ("", s)
      else match split_once c s with
           | Some (l, r) => Some (String a l, r)
           | None => None
           end
  end.

(** [rsplit_once]: at the last occurrence. *)
Fixpoint rsplit_once (c : ascii) (s : string) : option (string * string) :=
  match s with
  | EmptyString => None
  | String a s =>
      match rsplit_once c s with
      | Some (l, r) => Some (String a l, r)
      | None => if ascii_eqb a c then Some ("", s) else None
      end
  end.

(** [split(c).collect()]: always at least one part. *)
Fixpoint str_split (c : ascii) (s : string) : list string :=
  match s with
  | EmptyString => [""]
  | String a s =>
      if ascii_eqb a c then "" :: str_split c s
      else match str_split c s with
           | p :: ps => String a p :: ps
           | [] => [String a ""]
           end
  end.

Definition starts_with_char (c : ascii) (s : string) : bool :=
  match s with
  | EmptyString => false
  | String a _ => ascii_eqb a c
  end.

Fixpoint starts_with (p s : string) : bool :=
  match p, s with
  | EmptyString, _ => true
  | String _ _, EmptyString => false
  | String a p, String b s => ascii_eqb a b && starts_with p s
  end.

Fixpoint ends_with (p s : string) : bool :=
  String.eqb p s ||
  match s with
  | EmptyString => false
  | String _ s => ends_with p s
  end.

Fixpoint to_ascii_lowercase (s : string) : string :=
  match s with
  | EmptyString => ""
  | String a s => String (to_ascii_lower a) (to_ascii_lowercase s)
  end.

Fixpoint str_take (n : nat) (s : string) : string :=
  match n, s with
  | S n, String a s => String a (str_take n s)
  | _, _ => ""
  end.

Fixpoint str_drop (n : nat) (s : string) : string :=
  match n, s with
  | O, _ => s
  | S n, String _ s => str_drop n s
  | S _, EmptyString => ""
  end.

(** [char::is_whitespace]: Unicode's White_Space characters, in UTF-8. *)
Definition utf8_whitespace : list string :=
  (fun l => fold_right (fun n s => String (Ascii.ascii_of_N n) s) "" l) <$>
  ([[9]; [10]; [11]; [12]; [13]; [32]; [194; 133]; [194; 160]; [225; 154; 128]] ++
   ((fun n => [226; 128; n]) <$> [128; 129; 130; 131; 132; 133; 134; 135; 136; 137; 138; 168; 169; 175]) ++
   [[226; 129; 159]; [227; 128; 128]])%N.

(** [trim_start]: each round takes one character off, so the length is fuel enough. *)
Fixpoint trim_start_loop (fuel : nat) (s : string) : string :=
  match fuel with
  | O => s
  | S fuel =>
      match find (fun w => starts_with w s) utf8_whitespace with
      | Some w => trim_start_loop fuel (str_drop (String.length w) s)
      | None => s
      end
  end.

Definition trim_start (s : string) : string := trim_start_loop (String.length s) s.

(** [trim_end]: no whitespace begins inside a character, so cutting where the rest
    is whitespace cuts between characters. *)
Fixpoint trim_end (s : string) : string :=
  match s with
  | EmptyString => ""
  | String a r => if decide (trim_start s = "") then "" else String a (trim_end r)
  end.

Definition trim (s : string) : string := trim_end (trim_start s).

(** [is_char_boundary]. *)
Definition is_char_boundary (n : nat) (s : string) : bool :=
  if decide (n = 0 \/ n = String.length s) then true
  else match String.get n s with
       | Some c => negb (is_continuation c)
       | None => false
       end.

(** [&s[..n]] and [&s[n..]] panic off a boundary and out of range. *)
Definition slice_to (s : string) (n : nat) : res string :=
  if is_char_boundary n s then Ok (str_take n s) else Panic.
Definition slice_from (s : string) (n : nat) : res string :=
  if is_char_boundary n s then Ok (str_drop n s) else Panic.

(** Byte-wise order of [str]. *)
Definition str_lt (s t : string) : Prop := (s ?= t)%string = Lt.
Definition str_ltb : string -> string -> bool := String.ltb.
Definition str_leb : string -> string -> bool := String.leb.

(** * Integer parsers

    [u32::from_str], [i64::from_str] and [isize::from_str] (64 bits): an
    optional sign ([+] only when unsigned), at least one digit, an error when
    the value does not fit. *)
Fixpoint parse_digits (acc : N) (s : string) : option N :=
  match s with
  | EmptyString => Some acc
  | String c s =>
      match digit_of c with
      | Some d => parse_digits (10 * acc + d) s
      | None => None
      end
  end.

Definition parse_magnitude (s : string) : option N :=
  match s with
  | EmptyString => None
  | _ => parse_digits 0 s
  end.

Definition u32_max : N := 4294967295.
Definition i64_max : Z := 9223372036854775807.
Definition i64_min : Z := -9223372036854775808.

Definition parse_u32 (s : string) : option N :=
  let digits := match s with
                | String c r => if ascii_eqb c "+" then r else s
                | EmptyString => s
                end in
  match parse_magnitude digits with
  | Some n => if (n <=? u32_max)%N then Some n else None
  | None => None
  end.

(** [u64::from_str], and [usize::from_str] on 64 bits. *)
Definition usize_max : Z := 18446744073709551615.

Definition parse_u64 (s : string) : option Z :=
  let digits := match s with
                | String c r => if ascii_eqb c "+" then r else s
                | EmptyString => s
                end in
  match parse_magnitude digits with
  | Some n => if (Z.of_N n <=? usize_max)%Z then Some (Z.of_N n) else None
  | None => None
  end.

Definition parse_i64 (s : string) : option Z :=
  let '(neg, digits) :=
    match s with
    | String c r =>
        if ascii_eqb c "+" then (false, r)
        else if ascii_eqb c "-" then (true, r)
        else (false, s)
    | EmptyString => (false, s)
    end in
  match parse_magnitude digits with
  | Some n =>
      let z := if neg : bool then (- Z.of_N n)%Z else Z.of_N n in
      if (i64_min <=? z)%Z && (z <=? i64_max)%Z then Some z else None
  | None => None
  end.

(** * Lemmas *)
Lemma str_app_cons a s t : (String a s +:+ t) = String a (s +:+ t).
Proof. done. Qed.

Lemma str_app_nil_l s : ("" +:+ s) = s.
Proof. done. Qed.

Lemma str_app_nil_r s : (s +:+ "") = s.
Proof. induction s as [|a s IH]; [done|]. by rewrite str_app_cons, IH. Qed.

Lemma str_app_assoc s t u : ((s +:+ t) +:+ u) = (s +:+ (t +:+ u)).
Proof. induction s as [|a s IH]; [done|]. by rewrite !str_app_cons, IH. Qed.

Ltac str_norm :=
  repeat first [rewrite str_app_assoc | rewrite str_app_cons | rewrite str_app_nil_l].

Lemma str_length_app s t :
  String.length (s +:+ t) = String.length s + String.length t.
Proof. induction s as [|a s IH]; [done|]. rewrite str_app_cons. simpl. by rewrite IH. Qed.

Lemma str_mem_app c s t : str_mem c (s +:+ t) = str_mem c s || str_mem c t.
Proof.
  induction s as [|a s IH]; [done|]. rewrite str_app_cons. simpl.
  by rewrite IH, orb_assoc.
Qed.

Lemma str_all_app p s t : str_all p (s +:+ t) = str_all p s && str_all p t.
Proof.
  induction s as [|a s IH]; [done|]. rewrite str_app_cons. simpl.
  by rewrite IH, andb_assoc.
Qed.

Lemma split_once_spec c s l r :
  split_once c s = Some (l, r) <-> s = l +:+ String c r /\ str_mem c l = false.
Proof.
  split.
  - revert l. induction s as [|a s IH]; intros l; simpl; [done|].
    destruct (ascii_eqb_spec a c) as [->|Hne]; [naive_solver|].
    destruct (split_once c s) as [[l' r']|]; [|done].
    intros [= <- <-]. destruct (IH l' eq_refl) as [-> Hm]. split; [done|].
    simpl. rewrite Hm, orb_false_r. by destruct (ascii_eqb_spec a c).
  - intros [-> Hl]. induction l as [|a l IH]; simpl in *.
    + by destruct (ascii_eqb_spec c c).
    + apply orb_false_iff in Hl as [Ha Hl].
      by rewrite Ha, IH.
Qed.

Lemma split_once_None c s : split_once c s = None <-> str_mem c s = false.
Proof.
  induction s as [|a s IH]; simpl; [done|].
  destruct (ascii_eqb a c); simpl; [done|].
  destruct (split_once c s) as [[]|]; naive_solver.
Qed.

Lemma rsplit_once_None c s : rsplit_once c s = None <-> str_mem c s = false.
Proof.
  induction s as [|a s IH]; simpl; [done|].
  destruct (rsplit_once c s) as [[]|]; destruct (ascii_eqb a c); naive_solver.
Qed.

Lemma rsplit_once_spec c s l r :
  rsplit_once c s = Some (l, r) <-> s = l +:+ String c r /\ str_mem c r = false.
Proof.
  split.
  - revert l. induction s as [|a s IH]; intros l; simpl; [done|].
    destruct (rsplit_once c s) as [[l' r']|] eqn:E.
    + intros [= <- <-]. by destruct (IH l' eq_refl) as [-> ?].
    + destruct (ascii_eqb_spec a c) as [->|]; [|done]. intros [= <- <-].
      split; [done|]. by apply rsplit_once_None.
  - intros [-> Hr]. induction l as [|a l IH].
    + rewrite str_app_nil_l. simpl.
      apply rsplit_once_None in Hr. rewrite Hr. by destruct (ascii_eqb_spec c c).
    + rewrite str_app_cons. simpl. by rewrite IH.
Qed.

Lemma str_split_not_nil c s : str_split c s <> [].
Proof.
  destruct s as [|a s]; simpl; [done|]. destruct (ascii_eqb a c); [done|].
  by destruct (str_split c s).
Qed.

Lemma str_split_none c s : str_mem c s = false -> str_split c s = [s].
Proof.
  induction s as [|a s IH]; simpl; [done|].
  intros [Ha Hs]%orb_false_iff. by rewrite Ha, IH.
Qed.

Lemma str_split_app c l r :
  str_mem c l = false -> str_split c (l +:+ String c r) = l :: str_split c r.
Proof.
  induction l as [|a l IH]; simpl.
  - intros _. by destruct (ascii_eqb_spec c c).
  - intros [Ha Hl]%orb_false_iff. by rewrite Ha, IH.
Qed.

Lemma str_split_elem c s p : p ∈ str_split c s -> str_mem c p = false.
Proof.
  revert p. induction s as [|a s IH]; cbn [str_split].
  - intros p ->%list_elem_of_singleton. done.
  - destruct (ascii_eqb a c) eqn:Ha.
    + intros p [->|Hp]%elem_of_cons; [done|auto].
    + destruct (str_split c s) as [|q qs] eqn:Hs.
      * intros p ->%list_elem_of_singleton. simpl. by rewrite Ha.
      * intros p [->|Hp]%elem_of_cons.
        -- simpl. rewrite Ha. apply IH. by left.
        -- apply IH. by right.
Qed.

(** [join] undoes [str_split]. *)
Fixpoint str_join (c : ascii) (ps : list string) : string :=
  match ps with
  | [] => ""
  | [p] => p
  | p :: ps => p +:+ String c (str_join c ps)
  end.

Lemma str_join_split c s : str_join c (str_split c s) = s.
Proof.
  induction s as [|a s IH]; simpl; [done|].
  pose proof (str_split_not_nil c s).
  destruct (ascii_eqb_spec a c) as [->|]; simpl;
    destruct (str_split c s) as [|p ps]; try done; simpl in *.
  - rewrite str_app_nil_l. by rewrite IH.
  - destruct ps; simpl in *; [by rewrite IH|]. rewrite str_app_cons. by rewrite IH.
Qed.

(** Digits are ASCII: a string of them can be sliced anywhere. *)
Lemma digit_not_continuation c : is_ascii_digit c = true -> is_continuation c = false.
Proof.
  unfold is_ascii_digit, digit_of, is_continuation. cbv zeta.
  destruct (48 <=? _)%N eqn:E1, (_ <=? 57)%N eqn:E2; simpl; try done.
  intros _. apply andb_false_iff. left. apply N.leb_gt. apply N.leb_le in E2. lia.
Qed.

Lemma str_take_app n s t :
  n = String.length s -> str_take n (s +:+ t) = s.
Proof.
  intros ->. induction s as [|a s IH]; [done|]. rewrite str_app_cons. simpl. by rewrite IH.
Qed.

Lemma str_drop_app n s t :
  n = String.length s -> str_drop n (s +:+ t) = t.
Proof.
  intros ->. induction s as [|a s IH]; [done|]. rewrite str_app_cons. simpl. done.
Qed.

Lemma str_drop_1 a s : str_drop 1 (String a s) = s.
Proof. by destruct s. Qed.

Lemma str_take_drop n s : (str_take n s +:+ str_drop n s) = s.
Proof.
  revert s. induction n as [|n IH]; intros [|a s]; try done. simpl.
  rewrite str_app_cons. by rewrite IH.
Qed.

Lemma str_length_take n s :
  String.length (str_take n s) = n `min` String.length s.
Proof.
  revert s. induction n as [|n IH]; intros [|a s]; simpl; try done. by rewrite IH.
Qed.

Lemma str_length_drop n s : String.length (str_drop n s) = String.length s - n.
Proof. revert s. induction n as [|n IH]; intros [|a s]; simpl; auto. Qed.

Lemma str_drop_drop n m s : str_drop m (str_drop n s) = str_drop (n + m) s.
Proof. revert s. induction n as [|n IH]; intros [|a s]; simpl; auto. by destruct m. Qed.

Lemma str_all_take p n s : str_all p s = true -> str_all p (str_take n s) = true.
Proof.
  revert s. induction n as [|n IH]; intros [|a s]; simpl; try done.
  intros [-> ?]%andb_true_iff. simpl. auto.
Qed.

Lemma str_all_drop p n s : str_all p s = true -> str_all p (str_drop n s) = true.
Proof.
  revert s. induction n as [|n IH]; intros [|a s]; simpl; try done.
  intros [_ ?]%andb_true_iff. auto.
Qed.

Lemma str_get_all p s n c :
  str_all p s = true -> String.get n s = Some c -> p c = true.
Proof.
  revert n. induction s as [|a s IH]; intros n; simpl; [done|].
  intros [Ha Hs]%andb_true_iff. destruct n as [|n]; [naive_solver|]. by apply IH.
Qed.

Lemma str_get_lt s n : n < String.length s -> exists c, String.get n s = Some c.
Proof.
  revert n. induction s as [|a s IH]; intros n; simpl; [lia|].
  destruct n as [|n]; [eauto|]. intros. apply IH. lia.
Qed.

Lemma digits_boundary n s :
  str_all is_ascii_digit s = true -> n <= String.length s -> is_char_boundary n s = true.
Proof.
  intros Hd Hn. unfold is_char_boundary. case_decide; [done|].
  destruct (str_get_lt s n) as [c Hc]; [lia|]. rewrite Hc.
  apply negb_true_iff, digit_not_continuation. by eapply str_get_all.
Qed.

Lemma digits_no_char c s :
  is_ascii_digit c = false -> str_all is_ascii_digit s = true -> str_mem c s = false.
Proof.
  intros Hc. induction s as [|a s IH]; simpl; [done|].
  intros [Ha Hs]%andb_true_iff. rewrite IH by done.
  destruct (ascii_eqb_spec a c); [congruence|done].
Qed.

(** ** Order *)
Lemma str_lt_ltb s t : str_ltb s t = true <-> str_lt s t.
Proof. unfold str_ltb, str_lt, String.ltb. destruct (_ ?= _)%string; naive_solver. Qed.

Lemma str_ltb_false s t : str_ltb s t = false <-> str_leb t s = true.
Proof.
  unfold str_ltb, str_leb, String.ltb, String.leb.
  rewrite (String.compare_antisym t s). by destruct (s ?= t)%string.
Qed.

Lemma str_compare_refl s : (s ?= s)%string = Eq.
Proof.
  induction s as [|a s IH]; [done|]. simpl.
  unfold Ascii.compare. by rewrite N.compare_refl.
Qed.

Lemma str_compare_eq s t : (s ?= t)%string = Eq <-> s = t.
Proof. split; [apply String.compare_eq_iff|intros ->; apply str_compare_refl]. Qed.

Lemma str_leb_le s t : str_leb s t = true <-> String.le s t.
Proof. unfold String.le, str_leb. by rewrite Is_true_true. Qed.

Lemma str_leb_refl s : str_leb s s = true.
Proof. by apply str_leb_le. Qed.

Lemma str_leb_trans s t u :
  str_leb s t = true -> str_leb t u = true -> str_leb s u = true.
Proof. rewrite !str_leb_le. intros. by etrans. Qed.

Lemma str_leb_antisym s t : str_leb s t = true -> str_leb t s = true -> s = t.
Proof. rewrite !str_leb_le. intros. by apply (anti_symm String.le). Qed.

Lemma str_leb_total s t : str_leb s t = true \/ str_leb t s = true.
Proof. rewrite !str_leb_le. apply (total String.le). Qed.

Lemma str_lt_le s t : str_lt s t -> str_leb s t = true.
Proof. unfold str_lt, str_leb, String.leb. by intros ->. Qed.

Lemma str_le_lt_or_eq s t : str_leb s t = true <-> str_lt s t \/ s = t.
Proof.
  rewrite <-(str_compare_eq s t). unfold str_leb, String.leb, str_lt.
  destruct (s ?= t)%string; naive_solver.
Qed.

Lemma str_lt_irrefl s : ~ str_lt s s.
Proof. unfold str_lt. by rewrite str_compare_refl. Qed.

Lemma str_le_lt_trans s t u : str_leb s t = true -> str_lt t u -> str_lt s u.
Proof.
  intros H1 H2. assert (str_leb s u = true) as H3.
  { eapply str_leb_trans; [done|]. by apply str_lt_le. }
  apply str_le_lt_or_eq in H3 as [H3| ->]; [done|].
  assert (t = u) as ->; [|by apply str_lt_irrefl in H2].
  apply str_leb_antisym; [by apply str_lt_le|done].
Qed.

Lemma str_lt_le_trans s t u : str_lt s t -> str_leb t u = true -> str_lt s u.
Proof.
  intros H1 H2. assert (str_leb s u = true) as H3.
  { eapply str_leb_trans; [|done]. by apply str_lt_le. }
  apply str_le_lt_or_eq in H3 as [H3| ->]; [done|].
  assert (t = u) as ->; [|by apply str_lt_irrefl in H1].
  apply str_leb_antisym; [done|by apply str_lt_le].
Qed.

Lemma str_lt_trans s t u : str_lt s t -> str_lt t u -> str_lt s u.
Proof. intros. eapply str_le_lt_trans; [by apply str_lt_le|done]. Qed.

Lemma str_lt_trichotomy s t : str_lt s t \/ s = t \/ str_lt t s.
Proof.
  destruct (str_leb_total s t) as [H|H]; apply str_le_lt_or_eq in H; naive_solver.
Qed.

(** Strings of equal length compare block by block. *)
Lemma str_compare_app s1 s2 t1 t2 :
  String.length s1 = String.length t1 ->
  ((s1 +:+ s2) ?= (t1 +:+ t2))%string =
    match (s1 ?= t1)%string with Eq => (s2 ?= t2)%string | c => c end.
Proof.
  revert t1. induction s1 as [|a s IH]; intros [|b t]; simpl; try done.
  intros [= Hlen]. rewrite IH by done.
  by destruct (Ascii.compare a b).
Qed.

(** ** Decimal round trip *)
Lemma parse_digits_app acc s t :
  parse_digits acc (s +:+ t) =
    match parse_digits acc s with Some n => parse_digits n t | None => None end.
Proof.
  revert acc. induction s as [|a s IH]; intros acc; [done|].
  rewrite str_app_cons. simpl. destruct (digit_of a); [by rewrite IH|done].
Qed.

Lemma digit_of_pretty x : (x < 10)%N -> digit_of (pretty_N_char x) = Some x.
Proof.
  intros. assert (x = 0 \/ x = 1 \/ x = 2 \/ x = 3 \/ x = 4 \/ x = 5 \/ x = 6
    \/ x = 7 \/ x = 8 \/ x = 9)%N as Hx by lia.
  destruct_or! Hx; subst; reflexivity.
Qed.

Lemma pretty_N_go_digits x s :
  exists p, pretty_N_go x s = p +:+ s /\ str_all is_ascii_digit p = true /\
    (forall acc, exists k, parse_digits acc p = Some (acc * 10 ^ k + x)%N) /\
    (x <> 0 -> p <> "")%N.
Proof.
  revert s. induction (N.lt_wf_0 x) as [x _ IH]; intros s.
  destruct (decide (x = 0)%N) as [->|Hx].
  - rewrite pretty_N_go_0. exists "". split_and!; try done.
    intros acc. exists 0%N. simpl. f_equal. lia.
  - rewrite pretty_N_go_step by lia.
    destruct (IH (x / 10)%N) with (s := String (pretty_N_char (x mod 10)) s)
      as (p & Hp & Hd & Hv & _); [apply N.div_lt; lia|].
    assert (x mod 10 < 10)%N as Hm by (apply N.mod_lt; lia).
    exists (p +:+ String (pretty_N_char (x mod 10)) ""). split_and!.
    + by rewrite Hp, str_app_assoc.
    + rewrite str_all_app, Hd. simpl. unfold is_ascii_digit. by rewrite digit_of_pretty.
    + intros acc. destruct (Hv acc) as [k Hk]. exists (k + 1)%N.
      rewrite parse_digits_app, Hk. simpl. rewrite digit_of_pretty by done.
      f_equal. rewrite N.pow_add_r, N.pow_1_r.
      rewrite (N.div_mod x 10) at 3 by lia. lia.
    + intros _. by destruct p.
Qed.

Lemma pretty_N_digits (n : N) : str_all is_ascii_digit (pretty n) = true.
Proof.
  unfold pretty, pretty_N. case_decide; [done|].
  destruct (pretty_N_go_digits n "") as (p & -> & Hd & _).
  by rewrite str_app_nil_r.
Qed.

Lemma parse_magnitude_pretty (n : N) : parse_magnitude (pretty n) = Some n.
Proof.
  unfold pretty, pretty_N. case_decide; [by subst|].
  destruct (pretty_N_go_digits n "") as (p & -> & Hd & Hv & Hne).
  rewrite str_app_nil_r. destruct (Hv 0%N) as [k Hk].
  destruct p; [by destruct Hne|]. unfold parse_magnitude. by rewrite Hk.
Qed.

Lemma pretty_N_not_empty (n : N) : (pretty n : string) <> "".
Proof. intros E. pose proof (parse_magnitude_pretty n) as H. by rewrite E in H. Qed.

Lemma parse_u32_pretty (n : N) : (n <= u32_max)%N -> parse_u32 (pretty n) = Some n.
Proof.
  intros Hn. pose proof (pretty_N_digits n) as Hd.
  pose proof (parse_magnitude_pretty n) as Hp.
  unfold parse_u32. destruct (pretty n) as [|c r] eqn:E; [done|].
  simpl in Hd. apply andb_true_iff in Hd as [Hc _].
  destruct (ascii_eqb_spec c "+") as [->|]; [done|].
  rewrite Hp. by apply N.leb_le in Hn as ->.
Qed.

#[export] Instance string_total_cmp : TotalCmp String.compare.
Proof.
  split.
  - apply str_compare_eq.
  - intros s t. apply String.compare_antisym.
  - apply str_lt_trans.
Qed.

#[global] Arguments str_take : simpl never.
#[global] Arguments str_drop : simpl never.
#[global] Arguments parse_u32 : simpl never.
#[global] Arguments parse_i64 : simpl never.
#[global] Arguments is_char_boundary : simpl never.
