(* ===== verification/Chrono.v ===== *)
(** The [chrono] crate, as the timeline code relies on it.

    [chrono] is a third-party crate, so its types and functions are a
    parameter: [Chrono] lists the calls the source makes and [ChronoLaws] the
    documented behaviour the theorems use.  [Civil] is a concrete proleptic
    Gregorian calendar at UTC that satisfies the laws; witnesses run on it. *)
From stdpp Require Import base gmap sets list strings sorting numbers.
From S2P Require Import Prelude RustStr.
Local Open Scope Z_scope.

Class Chrono := {
  (** [NaiveDateTime] and [DateTime<Utc>] *)
  naive : Type;
  datetime : Type;
  (** [NaiveDateTime::parse_from_str(s, "%Y%m%d%H%M%S")] *)
  naive_parse : string -> option naive;
  (** [naive.with_nanosecond(n)] *)
  with_nanosecond : naive -> Z -> option naive;
  (** [DateTime::from_naive_utc_and_offset(naive, Utc)] *)
  from_naive_utc : naive -> datetime;
  (** [Local.from_local_datetime(&naive).single()] then [to_utc] *)
  local_single : naive -> option datetime;
  (** [DateTime::from_timestamp_millis] and [timestamp_millis] *)
  from_timestamp_millis : Z -> option datetime;
  timestamp_millis : datetime -> Z;
  (** [Ord for DateTime<Utc>] *)
  dt_compare : datetime -> datetime -> comparison
}.

Section order.
Context {C : Chrono}.
Definition dt_lt (a b : datetime) : bool := match dt_compare a b with Lt => true | _ => false end.
Definition dt_le (a b : datetime) : bool := match dt_compare a b with Gt => false | _ => true end.
End order.

(** A [yyyyMMddHHmmss] string whose seconds are not a leap second's 60. *)
Definition plain_seconds (s : string) : Prop :=
  String.length s = 14%nat /\ str_all is_ascii_digit s = true /\
  str_lt (str_drop 12 s) "60".

Class ChronoLaws (C : Chrono) : Prop := {
  dt_compare_refl a : dt_compare a a = Eq;
  dt_compare_antisym a b : dt_compare a b = CompOpp (dt_compare b a);
  dt_compare_lt_trans a b c :
    dt_compare a b = Lt -> dt_compare b c = Lt -> dt_compare a c = Lt;
  (** millisecond timestamps follow the order of instants *)
  millis_mono a b : dt_compare a b <> Gt -> timestamp_millis a <= timestamp_millis b;
  millis_inv z d : from_timestamp_millis z = Some d -> timestamp_millis d = z;
  (** fixed-width calendar strings are ordered as the instants they name *)
  naive_order s t a b m n a' b' :
    plain_seconds s -> plain_seconds t ->
    naive_parse s = Some a -> naive_parse t = Some b ->
    0 <= m < 1000 -> 0 <= n < 1000 ->
    with_nanosecond a (m * 1000000) = Some a' ->
    with_nanosecond b (n * 1000000) = Some b' ->
    dt_compare (from_naive_utc a') (from_naive_utc b') =
      match (s ?= t)%string with Eq => m ?= n | c => c end
}.

(** * The proleptic Gregorian calendar *)
Module Civil.

Definition leap (y : Z) : bool :=
  ((y mod 4 =? 0) && negb (y mod 100 =? 0)) || (y mod 400 =? 0).

(** Leap years before year [y], counting from year 0. *)
Definition leaps_before (y : Z) : Z :=
  (y - 1) / 4 - (y - 1) / 100 + (y - 1) / 400 + 1.

Definition days_in_month (y m : Z) : Z :=
  if m =? 2 then (if leap y then 29 else 28)
  else if (m =? 4) || (m =? 6) || (m =? 9) || (m =? 11) then 30 else 31.

(** Days of the year before month [m]. *)
Definition days_before_month (y m : Z) : Z :=
  let l := if leap y then 1 else 0 in
  match m with
  | 1 => 0 | 2 => 31 | 3 => 59 + l | 4 => 90 + l | 5 => 120 + l | 6 => 151 + l
  | 7 => 181 + l | 8 => 212 + l | 9 => 243 + l | 10 => 273 + l | 11 => 304 + l
  | _ => 334 + l
  end.

(** Days since 0000-01-01; 1970-01-01 is day 719528. *)
Definition day_number (y m d : Z) : Z :=
  365 * y + leaps_before y + days_before_month y m + (d - 1).

Definition valid_date (y m d : Z) : bool :=
  (0 <=? y) && (1 <=? m) && (m <=? 12) && (1 <=? d) && (d <=? days_in_month y m).

Definition valid_time (h mi s : Z) : bool :=
  (h <? 24) && (mi <? 60) && (s <? 60).

Definition field (s : string) (from len : nat) : Z :=
  match parse_digits 0 (str_take len (str_drop from s)) with
  | Some n => Z.of_N n
  | None => 0
  end.

Definition parse (s : string) : option Z :=
  if (Nat.eqb (String.length s) 14 && str_all is_ascii_digit s)%bool then
    let y := field s 0 4 in let m := field s 4 2 in let d := field s 6 2 in
    let h := field s 8 2 in let mi := field s 10 2 in let sec := field s 12 2 in
    if valid_date y m d && valid_time h mi sec then
      Some (1000 * (((24 * (day_number y m d - 719528) + h) * 60 + mi) * 60 + sec))
    else None
  else None.

Definition set_nanosecond (t n : Z) : option Z :=
  if (0 <=? n) && (n <? 2000000000)
  then Some (t - t mod 1000 + n / 1000000) else None.

Definition max_millis : Z := 8210266876799999.

#[global] Instance civil : Chrono := {|
  naive := Z;
  datetime := Z;
  naive_parse := parse;
  with_nanosecond := set_nanosecond;
  from_naive_utc := id;
  local_single := Some;
  from_timestamp_millis z :=
    if (- max_millis <=? z) && (z <=? max_millis) then Some z else None;
  timestamp_millis := id;
  dt_compare := Z.compare
|}.

Example epoch_day : parse "19700101000000" = Some 0.
Proof. reflexivity. Qed.
Example leap_day : parse "20240229235959" = Some 1709251199000.
Proof. reflexivity. Qed.
Example no_month_zero : parse "00000000000001" = None.
Proof. reflexivity. Qed.

(** ** Strict monotonicity of the day number *)
Lemma leaps_step y : leaps_before (y + 1) = leaps_before y + (if leap y then 1 else 0).
Proof.
  unfold leaps_before, leap. rewrite Z.add_simpl_r.
  destruct (Z.eqb_spec (y mod 4) 0), (Z.eqb_spec (y mod 100) 0),
    (Z.eqb_spec (y mod 400) 0); simpl; Z.to_euclidean_division_equations; lia.
Qed.

Lemma leaps_mono y z : y <= z -> leaps_before y - (z - y) <= leaps_before z.
Proof. unfold leaps_before. Z.to_euclidean_division_equations. lia. Qed.

Ltac month_cases m :=
  let H := fresh in
  assert (m = 1 \/ m = 2 \/ m = 3 \/ m = 4 \/ m = 5 \/ m = 6 \/ m = 7 \/ m = 8
    \/ m = 9 \/ m = 10 \/ m = 11 \/ m = 12) as H by lia;
  destruct_or! H; subst m.

Lemma month_in_year y m :
  1 <= m <= 12 ->
  0 <= days_before_month y m /\
  days_before_month y m + days_in_month y m <= 365 + (if leap y then 1 else 0).
Proof.
  intros Hm. month_cases m; unfold days_in_month; simpl; destruct (leap y); lia.
Qed.

Lemma month_mono y m n :
  1 <= m -> m < n <= 12 ->
  days_before_month y m + days_in_month y m <= days_before_month y n.
Proof.
  intros Hm Hn. month_cases m; month_cases n; try lia;
    unfold days_in_month; simpl; destruct (leap y); lia.
Qed.

Lemma valid_date_spec y m d :
  valid_date y m d = true <->
  0 <= y /\ 1 <= m <= 12 /\ 1 <= d <= days_in_month y m.
Proof. unfold valid_date. lia. Qed.

Lemma day_number_mono y1 m1 d1 y2 m2 d2 :
  valid_date y1 m1 d1 = true -> valid_date y2 m2 d2 = true ->
  y1 < y2 \/ y1 = y2 /\ (m1 < m2 \/ m1 = m2 /\ d1 < d2) ->
  day_number y1 m1 d1 < day_number y2 m2 d2.
Proof.
  rewrite !valid_date_spec. unfold day_number. intros (Hy1 & Hm1 & Hd1) (Hy2 & Hm2 & Hd2).
  intros [Hy|[<- [Hm|[<- Hd]]]].
  - pose proof (month_in_year y1 m1 Hm1). pose proof (month_in_year y2 m2 Hm2).
    pose proof (leaps_step y1). pose proof (leaps_mono (y1 + 1) y2). lia.
  - pose proof (month_mono y1 m1 m2). lia.
  - lia.
Qed.

(** ** Fixed-width digit strings *)
Lemma digit_compare a b x y :
  digit_of a = Some x -> digit_of b = Some y -> Ascii.compare a b = (x ?= y)%N.
Proof.
  unfold digit_of, Ascii.compare. cbv zeta.
  destruct ((48 <=? Ascii.N_of_ascii a)%N && _) eqn:E1; [|done].
  destruct ((48 <=? Ascii.N_of_ascii b)%N && _) eqn:E2; [|done].
  intros [= <-] [= <-].
  apply andb_true_iff in E1 as [E1%N.leb_le _]. apply andb_true_iff in E2 as [E2%N.leb_le _].
  destruct (N.compare_spec (Ascii.N_of_ascii a) (Ascii.N_of_ascii b));
    symmetry; [apply N.compare_eq_iff|apply N.compare_lt_iff|apply N.compare_gt_iff]; lia.
Qed.

Lemma digit_of_lt10 c x : digit_of c = Some x -> (x < 10)%N.
Proof.
  unfold digit_of. cbv zeta. destruct (_ && _) eqn:E; [|done]. intros [= <-].
  apply andb_true_iff in E as [_ E%N.leb_le]. lia.
Qed.

(** Digit strings always parse, and their value splits at any point. *)
Lemma parse_digits_total acc s :
  str_all is_ascii_digit s = true ->
  exists v, parse_digits acc s = Some (acc * 10 ^ N.of_nat (String.length s) + v)%N /\
            parse_digits 0 s = Some v /\ (v < 10 ^ N.of_nat (String.length s))%N.
Proof.
  revert acc. induction s as [|c s IH]; intros acc; simpl str_all.
  - intros _. exists 0%N. simpl. split_and!; [f_equal; lia|done|lia].
  - intros [Hc Hs]%andb_true_iff. unfold is_ascii_digit in Hc.
    cbn [parse_digits]. destruct (digit_of c) as [d|] eqn:Ed; [|done].
    pose proof (digit_of_lt10 _ _ Ed) as Hd.
    destruct (IH (10 * acc + d)%N Hs) as (v & Hv & H0 & Hlt).
    destruct (IH (10 * 0 + d)%N Hs) as (v' & Hv' & H0' & _). simplify_eq.
    exists (d * 10 ^ N.of_nat (String.length s) + v)%N.
    rewrite Hv, Hv'. simpl String.length.
    rewrite Nat2N.inj_succ, N.pow_succ_r by lia.
    assert (0 < 10 ^ N.of_nat (String.length s))%N by (apply N.neq_0_lt_0, N.pow_nonzero; lia).
    split_and!; [f_equal; lia|f_equal; lia|nia].
Qed.

Lemma digits_compare s t v w :
  String.length s = String.length t ->
  parse_digits 0 s = Some v -> parse_digits 0 t = Some w ->
  str_all is_ascii_digit s = true -> str_all is_ascii_digit t = true ->
  (s ?= t)%string = (v ?= w)%N.
Proof.
  revert t v w. induction s as [|c s IH]; intros [|b t] v w; simpl String.length; try done.
  - simpl. by intros _ [= <-] [= <-].
  - intros [= Hlen]. cbn [parse_digits str_all]. unfold is_ascii_digit at 1 3.
    destruct (digit_of c) as [d|] eqn:Ed; [|done].
    destruct (digit_of b) as [e|] eqn:Ee; [|done]. simpl andb.
    intros Hv Hw Hs Ht.
    destruct (parse_digits_total (10 * 0 + d) s Hs) as (v' & Hv' & H0 & Hlt).
    destruct (parse_digits_total (10 * 0 + e) t Ht) as (w' & Hw' & H0' & Hlt').
    rewrite Hv' in Hv. rewrite Hw' in Hw. injection Hv as <-. injection Hw as <-.
    simpl. rewrite (digit_compare _ _ _ _ Ed Ee), (IH t v' w') by done.
    rewrite Hlen in *. set (k := (10 ^ N.of_nat (String.length t))%N) in *.
    destruct (N.compare_spec d e) as [->|Hde|Hde].
    + destruct (N.compare_spec v' w'); symmetry;
        [apply N.compare_eq_iff|apply N.compare_lt_iff|apply N.compare_gt_iff]; lia.
    + symmetry. apply N.compare_lt_iff. nia.
    + symmetry. apply N.compare_gt_iff. nia.
Qed.

(** The value of a digit string and the fields read off it. *)
Definition value (s : string) : Z :=
  match parse_digits 0 s with Some n => Z.of_N n | None => 0 end.

Lemma value_app s t :
  str_all is_ascii_digit s = true -> str_all is_ascii_digit t = true ->
  value (s +:+ t) = value s * 10 ^ Z.of_nat (String.length t) + value t /\
  0 <= value t < 10 ^ Z.of_nat (String.length t).
Proof.
  intros Hs Ht. unfold value. rewrite parse_digits_app.
  destruct (parse_digits_total 0 s Hs) as (v & _ & Hv & _). rewrite Hv.
  destruct (parse_digits_total v t Ht) as (w & -> & -> & Hw). lia.
Qed.

Lemma field_split s from len :
  str_all is_ascii_digit s = true -> (from + len <= String.length s)%nat ->
  value (str_drop from s) =
    field s from len * 10 ^ Z.of_nat (String.length s - (from + len))
    + value (str_drop (from + len) s) /\
  0 <= value (str_drop (from + len) s) < 10 ^ Z.of_nat (String.length s - (from + len)).
Proof.
  intros Hs Hle.
  rewrite <-(str_take_drop len (str_drop from s)) at 1. rewrite str_drop_drop.
  destruct (value_app (str_take len (str_drop from s)) (str_drop (from + len) s))
    as [-> Hb]; [by apply str_all_take, str_all_drop|by apply str_all_drop|].
  rewrite str_length_drop in *. done.
Qed.

Lemma parse_fields s t :
  parse s = Some t ->
  exists y m d h mi sec,
    valid_date y m d = true /\ 0 <= h < 24 /\ 0 <= mi < 60 /\ 0 <= sec < 60 /\
    value s = ((((y * 100 + m) * 100 + d) * 100 + h) * 100 + mi) * 100 + sec /\
    t = 1000 * (((24 * (day_number y m d - 719528) + h) * 60 + mi) * 60 + sec).
Proof.
  unfold parse. destruct (_ && _)%bool eqn:E; [|done].
  apply andb_true_iff in E as [Hlen%Nat.eqb_eq Hd].
  destruct (_ && _) eqn:V; [|done]. intros [= <-].
  apply andb_true_iff in V as [Vd Vt]. unfold valid_time in Vt.
  pose proof (field_split s 0 4 Hd) as F0. pose proof (field_split s 4 2 Hd) as F1.
  pose proof (field_split s 6 2 Hd) as F2. pose proof (field_split s 8 2 Hd) as F3.
  pose proof (field_split s 10 2 Hd) as F4. pose proof (field_split s 12 2 Hd) as F5.
  rewrite Hlen in *. simpl Nat.add in *. simpl Nat.sub in *.
  change (str_drop 0 s) with s in *.
  assert (Hnn : forall f l, 0 <= field s f l).
  { intros f l. unfold field. destruct (parse_digits _ _); lia. }
  pose proof (Hnn 8 2)%nat. pose proof (Hnn 10 2)%nat. pose proof (Hnn 12 2)%nat.
  exists (field s 0 4), (field s 4 2), (field s 6 2), (field s 8 2), (field s 10 2), (field s 12 2).
  split; [exact Vd|].
  change (Z.of_nat 10) with 10 in *. change (Z.of_nat 8) with 8 in *.
  change (Z.of_nat 6) with 6 in *. change (Z.of_nat 4) with 4 in *.
  change (Z.of_nat 2) with 2 in *. change (Z.of_nat 0) with 0 in *.
  split_and!; try done; lia.
Qed.

Lemma lex_day_number y1 m1 d1 y2 m2 d2 :
  valid_date y1 m1 d1 = true -> valid_date y2 m2 d2 = true ->
  (y1 * 100 + m1) * 100 + d1 < (y2 * 100 + m2) * 100 + d2 ->
  day_number y1 m1 d1 < day_number y2 m2 d2.
Proof.
  intros V1 V2 H. apply day_number_mono; [done..|].
  apply valid_date_spec in V1 as (? & ? & ?). apply valid_date_spec in V2 as (? & ? & ?).
  assert (days_in_month y1 m1 <= 31 /\ days_in_month y2 m2 <= 31).
  { unfold days_in_month. destruct (leap y1), (leap y2); repeat case_match; lia. }
  lia.
Qed.

Lemma parse_lt s t a b :
  value s < value t -> parse s = Some a -> parse t = Some b -> a + 1000 <= b.
Proof.
  intros Hlt (y1 & m1 & d1 & h1 & i1 & s1 & V1 & ? & ? & ? & Hv1 & ->)%parse_fields
    (y2 & m2 & d2 & h2 & i2 & s2 & V2 & ? & ? & ? & Hv2 & ->)%parse_fields.
  rewrite Hv1, Hv2 in Hlt. clear Hv1 Hv2.
  pose proof (lex_day_number _ _ _ _ _ _ V1 V2) as Hmono.
  set (k1 := (y1 * 100 + m1) * 100 + d1) in *.
  set (k2 := (y2 * 100 + m2) * 100 + d2) in *.
  assert (k1 < k2 \/ k1 = k2) as [Hk|Hk] by lia; [specialize (Hmono Hk); lia|].
  assert (y1 = y2 /\ m1 = m2 /\ d1 = d2) as (-> & -> & ->); [|lia].
  apply valid_date_spec in V1 as (? & ? & ?). apply valid_date_spec in V2 as (? & ? & ?).
  assert (days_in_month y1 m1 <= 31 /\ days_in_month y2 m2 <= 31).
  { unfold days_in_month. destruct (leap y1), (leap y2); repeat case_match; lia. }
  subst k1 k2. lia.
Qed.

Lemma set_nanosecond_millis t m :
  0 <= m < 1000 -> set_nanosecond t (m * 1000000) = Some (t - t mod 1000 + m).
Proof.
  intros Hm. unfold set_nanosecond. rewrite Z.div_mul by lia.
  destruct (_ && _) eqn:E; [done|lia].
Qed.

Lemma parse_whole_second s t : parse s = Some t -> t mod 1000 = 0.
Proof.
  intros (y & m & d & h & mi & sec & _ & _ & _ & _ & _ & ->)%parse_fields.
  rewrite Z.mul_comm. apply Z.mod_mul. lia.
Qed.

Lemma parse_order s t a b m n :
  String.length s = String.length t ->
  str_all is_ascii_digit s = true -> str_all is_ascii_digit t = true ->
  parse s = Some a -> parse t = Some b -> 0 <= m < 1000 -> 0 <= n < 1000 ->
  (a + m ?= b + n) = match (s ?= t)%string with Eq => m ?= n | c => c end.
Proof.
  intros Hlen Hs Ht Ha Hb Hm Hn.
  destruct (parse_digits_total 0 s Hs) as (v & _ & Hv & _).
  destruct (parse_digits_total 0 t Ht) as (w & _ & Hw & _).
  rewrite (digits_compare s t v w) by done.
  assert (value s = Z.of_N v) as Hvs by (unfold value; by rewrite Hv).
  assert (value t = Z.of_N w) as Hvt by (unfold value; by rewrite Hw).
  destruct (N.compare_spec v w) as [->|H|H].
  - assert (s = t) as ->.
    { apply str_compare_eq. rewrite (digits_compare s t w w) by done. by rewrite N.compare_refl. }
    simplify_eq. apply Z.add_compare_mono_l.
  - assert (a + 1000 <= b) by (apply (parse_lt s t); [lia|done..]).
    apply Z.compare_lt_iff. lia.
  - assert (b + 1000 <= a) by (apply (parse_lt t s); [lia|done..]).
    apply Z.compare_gt_iff. lia.
Qed.

#[global] Instance civil_laws : ChronoLaws civil.
Proof.
  split; simpl.
  - apply Z.compare_refl.
  - intros a b. apply Z.compare_antisym.
  - intros a b c. rewrite !Z.compare_lt_iff. lia.
  - intros a b H. unfold id. destruct (Z.compare_spec a b); [lia|lia|done].
  - intros z d. destruct (_ && _); [|done]. by intros [= ->].
  - intros s t a b m n a' b' (Hl1 & Hd1 & _) (Hl2 & Hd2 & _) Ha Hb Hm Hn.
    rewrite !set_nanosecond_millis by done. intros [= <-] [= <-].
    rewrite (parse_whole_second _ _ Ha), (parse_whole_second _ _ Hb), !Z.sub_0_r.
    unfold id. apply parse_order; congruence || done.
Qed.

End Civil.
