(* ===== verification/Config.v ===== *)
(** [HudiConfigs] and the typed table configurations the timeline consults
    (crates/core/src/config/mod.rs, table.rs, internal.rs).

    A configuration is a string map.  A typed getter parses the raw value:
    [get] fails on a missing or malformed value, [try_get] only on a malformed
    one, and [get_or_default] on neither. *)
From Stdlib Require Import Ascii.
From stdpp Require Import base gmap sets list strings sorting numbers.
From S2P Require Import Prelude RustStr.
Local Open Scope res_scope.

Abbreviation HudiConfigs := (gmap string string).

(** The variants of [ConfigError]. *)
Inductive ConfigError := NotFound | ParseInt | ParseBool | InvalidValue | UnsupportedValue | ParseLine.

Inductive TimelineTimezoneValue := UTC | Local.

Global Instance TimelineTimezoneValue_eq_dec : EqDecision TimelineTimezoneValue.
Proof. solve_decision. Defined.

(** [TimelineTimezoneValue::from_str] *)
Definition timezone_from_str (s : string) : TimelineTimezoneValue + ConfigError :=
  let v := to_ascii_lowercase s in
  if decide (v = "utc") then inl UTC
  else if decide (v = "local") then inl Local
  else inr InvalidValue.

Definition timezone_as_ref (v : TimelineTimezoneValue) : string :=
  match v with UTC => "utc" | Local => "local" end.

(** [ConfigParser::resolve_raw_value]: none of these configs has an alias. *)
Definition resolve_raw_value (configs : HudiConfigs) (key : string) : string + ConfigError :=
  match configs !! key with
  | Some v => inl v
  | None => inr NotFound
  end.

Definition parse_value_isize (configs : HudiConfigs) (key : string) : Z + ConfigError :=
  match resolve_raw_value configs key with
  | inl v => match parse_i64 v with Some z => inl z | None => inr ParseInt end
  | inr e => inr e
  end.

Definition parse_value_bool (configs : HudiConfigs) (key : string) : bool + ConfigError :=
  match resolve_raw_value configs key with
  | inl v => if decide (v = "true") then inl true
             else if decide (v = "false") then inl false
             else inr ParseBool
  | inr e => inr e
  end.

Definition TableVersion : string := "hoodie.table.version".
Definition TimelineLayoutVersion : string := "hoodie.timeline.layout.version".
Definition TimelineTimezone : string := "hoodie.table.timeline.timezone".
Definition ArchiveLogFolder : string := "hoodie.archivelog.folder".
Definition TimelinePath : string := "hoodie.timeline.path".
Definition TimelineHistoryPath : string := "hoodie.timeline.history.path".
Definition TimelineArchivedReadEnabled : string := "hoodie.internal.timeline.archived.enabled".

(** [HudiConfigs::get] of an integer config. *)
Definition get_isize (configs : HudiConfigs) (key : string) : option Z :=
  match parse_value_isize configs key with inl z => Some z | inr _ => None end.

(** [HudiConfigs::try_get] of an integer config without a default. *)
Definition try_get_isize (configs : HudiConfigs) (key : string) : res (option Z) :=
  match parse_value_isize configs key with
  | inl z => Ok (Some z)
  | inr NotFound => Ok None
  | inr _ => Err EConfig
  end.

(** [HudiConfigs::get_or_default]: a malformed value falls back as a missing one. *)
Definition get_string_or_default (configs : HudiConfigs) (key default : string) : string :=
  match resolve_raw_value configs key with inl v => v | inr _ => default end.

Definition get_bool_or_default (configs : HudiConfigs) (key : string) (default : bool) : bool :=
  match parse_value_bool configs key with inl b => b | inr _ => default end.

Definition get_timezone_or_default (configs : HudiConfigs) : string :=
  match resolve_raw_value configs TimelineTimezone with
  | inl v => match timezone_from_str v with
             | inl tz => timezone_as_ref tz
             | inr _ => timezone_as_ref UTC
             end
  | inr _ => timezone_as_ref UTC
  end.

(** The timezone read from the configs is always one the parser accepts. *)
Lemma timezone_or_default_valid configs :
  exists tz, timezone_from_str (get_timezone_or_default configs) = inl tz.
Proof.
  unfold get_timezone_or_default. destruct (resolve_raw_value _ _) as [v|]; [|by exists UTC].
  destruct (timezone_from_str v) as [[]|]; by eauto.
Qed.
#[export] Hint Resolve timezone_or_default_valid : hudi.
