(* ===== verification/Instant.v ===== *)
(** Timeline instants: crates/core/src/timeline/instant.rs.

    An instant is one state of one action on the table.  The file models the
    parsing of timeline file names, the datetime parser, the printing of file
    names and the order of instants.  [FromStr]/[AsRef] impls are
    [*_from_str]/[*_as_ref]. *)
From Stdlib Require Import Ascii.
From stdpp Require Import base gmap sets list strings sorting numbers.
From S2P Require Import Prelude RustStr Chrono Config.
Local Open Scope res_scope.

Inductive Action := Commit | DeltaCommit | ReplaceCommit | Rollback | Restore.
Inductive State := Requested | Inflight | Completed.

Global Instance Action_eq_dec : EqDecision Action.
Proof. solve_decision. Defined.
Global Instance State_eq_dec : EqDecision State.
Proof. solve_decision. Defined.

Definition action_from_str (s : string) : res Action :=
  if decide (s = "commit") then Ok Commit
  else if decide (s = "deltacommit") then Ok DeltaCommit
  else if decide (s = "replacecommit") then Ok ReplaceCommit
  else if decide (s = "rollback") then Ok Rollback
  else if decide (s = "restore") then Ok Restore
  else Err ETimeline.

Definition action_as_ref (a : Action) : string :=
  match a with
  | Commit => "commit"
  | DeltaCommit => "deltacommit"
  | ReplaceCommit => "replacecommit"
  | Rollback => "rollback"
  | Restore => "restore"
  end.

Definition is_replacecommit (a : Action) : bool := bool_decide (a = ReplaceCommit).

Definition state_from_str (suffix : string) : res State :=
  if decide (suffix = "requested") then Ok Requested
  else if decide (suffix = "inflight") then Ok Inflight
  else if decide (suffix = "") then Ok Completed
  else Err ETimeline.

Definition state_as_ref (s : State) : string :=
  match s with
  | Requested => "requested"
  | Inflight => "inflight"
  | Completed => ""
  end.

(** The derived order of [State] follows the order of its constructors. *)
Definition state_rank (s : State) : Z :=
  match s with Requested => 0 | Inflight => 1 | Completed => 2 end.

Record Instant := mkInstant {
  timestamp : string;
  completion_timestamp : option string;
  action : Action;
  state : State;
  epoch_millis : Z
}.

Global Instance Instant_eq_dec : EqDecision Instant.
Proof. solve_decision. Defined.

(** [Ord for Instant] *)
Definition instant_cmp (a b : Instant) : comparison :=
  match (epoch_millis a ?= epoch_millis b)%Z with
  | Eq => (state_rank (state a) ?= state_rank (state b))%Z
  | c => c
  end.

Definition instant_le (a b : Instant) : Prop := instant_cmp a b <> Gt.

Global Instance instant_le_dec : RelDecision instant_le.
Proof. intros a b. unfold instant_le. apply _. Defined.

Definition BOOTSTRAP_INSTANT_TIMES : list string :=
  ["00000000000000"; "00000000000001"; "00000000000002"].

Definition validate_timestamp (ts : string) : res unit :=
  if decide (String.length ts = 14 \/ String.length ts = 17) then Ok tt else Err ETimeline.

Definition parse_action_and_state (action_suffix : string) : res (Action * State) :=
  match split_once "." action_suffix with
  | Some (action_str, state_str) =>
      let? a := action_from_str action_str in
      let? s := state_from_str state_str in
      Ok (a, s)
  | None =>
      if decide (action_suffix = "inflight") then Ok (Commit, Inflight)
      else let? a := action_from_str action_suffix in Ok (a, Completed)
  end.

Section parsing.
Context {C : Chrono}.

Definition parse_naive_datetime (ts : string) : res naive :=
  if decide (String.length ts < 14) then Err ETimeline
  else
    let? prefix := slice_to ts 14 in
    let? naive_dt := ok_or (naive_parse prefix) ETimeline in
    if decide (String.length ts = 17) then
      let? suffix := slice_from ts 14 in
      let? millis := ok_or (parse_u32 suffix) ETimeline in
      ok_or (with_nanosecond naive_dt (Z.of_N millis * 1000000)) ETimeline
    else Ok naive_dt.

Definition convert_to_timezone (naive_dt : naive) (timezone : string) : res datetime :=
  match timezone_from_str timezone with
  | inr _ => Err EConfig
  | inl UTC => Ok (from_naive_utc naive_dt)
  | inl Local => ok_or (local_single naive_dt) ETimeline
  end.

Definition parse_datetime (ts timezone : string) : res datetime :=
  match parse_naive_datetime ts with
  | Panic => Panic
  | Ok naive_dt => convert_to_timezone naive_dt timezone
  | Err _ =>
      if (bool_decide (String.length ts = 17) || bool_decide (ts ∈ BOOTSTRAP_INSTANT_TIMES))
         && str_all is_ascii_digit ts
      then
        let? epoch_ms := ok_or (parse_i64 ts) ETimeline in
        ok_or (from_timestamp_millis epoch_ms) ETimeline
      else Err ETimeline
  end.

Definition try_from_file_name_and_timezone (file_name timezone : string) : res Instant :=
  let? (timestamp_part, action_suffix) := ok_or (split_once "." file_name) ETimeline in
  let? (a, s) := parse_action_and_state action_suffix in
  match split_once "_" timestamp_part with
  | Some (requested_ts, completed_ts) =>
      let? _ := validate_timestamp requested_ts in
      let? _ := validate_timestamp completed_ts in
      let? dt := parse_datetime requested_ts timezone in
      if decide (s <> Completed) then Err ETimeline
      else Ok (mkInstant requested_ts (Some completed_ts) a s (timestamp_millis dt))
  | None =>
      let? _ := validate_timestamp timestamp_part in
      let? dt := parse_datetime timestamp_part timezone in
      Ok (mkInstant timestamp_part None a s (timestamp_millis dt))
  end.

(** [FromStr for Instant] *)
Definition instant_from_str (file_name : string) : res Instant :=
  try_from_file_name_and_timezone file_name "UTC".
End parsing.

Definition file_name (i : Instant) : string :=
  match action i, state i with
  | _, Completed =>
      match completion_timestamp i with
      | Some completion_ts =>
          timestamp i +:+ "_" +:+ completion_ts +:+ "." +:+ action_as_ref (action i)
      | None => timestamp i +:+ "." +:+ action_as_ref (action i)
      end
  | Commit, Inflight => timestamp i +:+ "." +:+ state_as_ref (state i)
  | _, _ =>
      timestamp i +:+ "." +:+ action_as_ref (action i) +:+ "." +:+ state_as_ref (state i)
  end.

(** [PathBuf::push] on UTF-8 paths. *)
Definition path_push (base name : string) : string :=
  if starts_with_char "/" name then name
  else if decide (base = "") then name
  else if ends_with "/" base then base +:+ name
  else base +:+ "/" +:+ name.

Definition HUDI_METADATA_DIR : string := ".hoodie".

Definition relative_path_with_base (i : Instant) (base_dir : string) : string :=
  path_push base_dir (file_name i).

Definition relative_path (i : Instant) : string := relative_path_with_base i HUDI_METADATA_DIR.

(** * Actions and states *)
Lemma action_roundtrip a : action_from_str (action_as_ref a) = Ok a.
Proof. by destruct a. Qed.

Lemma state_roundtrip s : state_from_str (state_as_ref s) = Ok s.
Proof. by destruct s. Qed.

(** The suffix [file_name] prints after the first dot. *)
Definition action_suffix (a : Action) (s : State) : string :=
  match a, s with
  | _, Completed => action_as_ref a
  | Commit, Inflight => state_as_ref s
  | _, _ => action_as_ref a +:+ "." +:+ state_as_ref s
  end.

Lemma action_suffix_roundtrip a s : parse_action_and_state (action_suffix a s) = Ok (a, s).
Proof. by destruct a, s. Qed.

Definition time_part (i : Instant) : string :=
  match state i, completion_timestamp i with
  | Completed, Some ct => timestamp i +:+ String "_" ct
  | _, _ => timestamp i
  end.

Lemma file_name_parts i :
  file_name i = time_part i +:+ String "." (action_suffix (action i) (state i)).
Proof.
  unfold file_name, time_part, action_suffix.
  destruct (action i), (state i), (completion_timestamp i); try done;
    by rewrite ?str_app_assoc.
Qed.

(** * Well-formed instants: what a successful parse establishes. *)
Section roundtrip.
Context {C : Chrono}.

Record wf_instant (tz : string) (i : Instant) : Prop := {
  wf_length : validate_timestamp (timestamp i) = Ok tt;
  wf_no_dot : str_mem "." (timestamp i) = false;
  wf_no_underscore : str_mem "_" (timestamp i) = false;
  wf_completion : forall ct, completion_timestamp i = Some ct ->
    state i = Completed /\ validate_timestamp ct = Ok tt /\ str_mem "." ct = false;
  wf_epoch : exists dt, parse_datetime (timestamp i) tz = Ok dt /\
    epoch_millis i = timestamp_millis dt
}.

Lemma try_from_wf f tz i :
  try_from_file_name_and_timezone f tz = Ok i -> wf_instant tz i.
Proof.
  unfold try_from_file_name_and_timezone. intros H.
  apply res_bind_Ok in H as ([tp suffix] & Hs & H). apply ok_or_Ok in Hs.
  apply split_once_spec in Hs as [_ Hdot].
  apply res_bind_Ok in H as ([a s] & _ & H).
  destruct (split_once "_" tp) as [[rq ct]|] eqn:Hu.
  - apply split_once_spec in Hu as [-> Hu].
    rewrite str_mem_app in Hdot. apply orb_false_iff in Hdot as [Hr Hc].
    simpl in Hc.
    apply res_bind_Ok in H as ([] & Hv1 & H). apply res_bind_Ok in H as ([] & Hv2 & H).
    apply res_bind_Ok in H as (dt & Hdt & H).
    case_decide as Hst; simplify_eq. split; simpl; try done; [|eauto].
    intros ct' [= <-]. done.
  - apply split_once_None in Hu.
    apply res_bind_Ok in H as ([] & Hv1 & H).
    apply res_bind_Ok in H as (dt & Hdt & H). simplify_eq.
    split; simpl; try done. eauto.
Qed.

Lemma wf_instant_roundtrip tz i :
  wf_instant tz i -> try_from_file_name_and_timezone (file_name i) tz = Ok i.
Proof.
  intros [Hlen Hdot Hund Hct (dt & Hdt & Hep)].
  assert (Htp : str_mem "." (time_part i) = false).
  { unfold time_part. destruct (state i); try done.
    destruct (completion_timestamp i) as [ct|]; [|done].
    rewrite str_mem_app, Hdot. simpl. by destruct (Hct ct) as (_ & _ & ->). }
  rewrite file_name_parts. unfold try_from_file_name_and_timezone.
  rewrite (proj2 (split_once_spec "." _ _ _) (conj eq_refl Htp)). simpl.
  rewrite action_suffix_roundtrip. simpl. unfold time_part.
  destruct i as [ts [ct|] a s ep]; simpl in *.
  - destruct (Hct ct eq_refl) as (-> & Hv & _).
    rewrite (proj2 (split_once_spec "_" _ ts ct) (conj eq_refl Hund)).
    rewrite Hlen, Hv, Hdt. simpl. by rewrite Hep.
  - apply split_once_None in Hund.
    destruct s; rewrite Hund, Hlen, Hdt; simpl; by rewrite Hep.
Qed.

(** Parsing is a left inverse of printing on every instant the parser
    accepts: the canonical file name of a parsed instant parses back to the
    same instant, for pre-v8 and v8 names and every action and state. *)
Theorem parsed_instant_roundtrip f tz i :
  try_from_file_name_and_timezone f tz = Ok i ->
  try_from_file_name_and_timezone (file_name i) tz = Ok i.
Proof. intros H. eapply wf_instant_roundtrip, try_from_wf, H. Qed.
End roundtrip.

Lemma parsed_instant_roundtrip_witness :
  let i := mkInstant "20240402123035233" (Some "20240402144910683") DeltaCommit Completed
             1712061035233 in
  try_from_file_name_and_timezone
    "20240402123035233_20240402144910683.deltacommit" "UTC" = Ok i /\
  try_from_file_name_and_timezone (file_name i) "UTC" = Ok i.
Proof.
  split; [vm_compute; reflexivity|].
  apply (parsed_instant_roundtrip "20240402123035233_20240402144910683.deltacommit").
  vm_compute; reflexivity.
Defined.

(** * The datetime parser *)
Section datetime.
Context {C : Chrono}.

Lemma parse_naive_datetime_panic ts :
  parse_naive_datetime ts = Panic <->
  14 <= String.length ts /\ is_char_boundary 14 ts = false.
Proof.
  unfold parse_naive_datetime, slice_to, slice_from.
  case_decide; [split; [done|lia]|].
  destruct (is_char_boundary 14 ts); simpl; [|split; [split; [lia|done]|done]].
  destruct (naive_parse _); simpl; [|naive_solver].
  case_decide; [|naive_solver].
  destruct (parse_u32 _); simpl; [|naive_solver].
  destruct (with_nanosecond _ _); naive_solver.
Qed.

(** C40: the datetime parser panics exactly on inputs of at least 14 bytes whose
    byte 14 lies inside a multi-byte character; every other input, however
    short or malformed, gives a datetime or an error. *)
Theorem parse_datetime_panics_iff ts tz :
  parse_datetime ts tz = Panic <->
  14 <= String.length ts /\ is_char_boundary 14 ts = false.
Proof.
  rewrite <-parse_naive_datetime_panic. unfold parse_datetime, convert_to_timezone.
  destruct (parse_naive_datetime ts) as [n|e|]; [split; [|done]..|done].
  - destruct (timezone_from_str tz) as [[]|]; [done| |done]. by destruct (local_single n).
  - destruct (_ && _); [|done]. destruct (parse_i64 ts); simpl; [|done].
    by destruct (from_timestamp_millis _).
Qed.

(** The result depends on the first 14 bytes alone unless the length is 17. *)
Lemma parse_datetime_prefix ts tz n :
  14 <= String.length ts -> String.length ts <> 17 -> is_char_boundary 14 ts = true ->
  naive_parse (str_take 14 ts) = Some n ->
  parse_datetime ts tz = convert_to_timezone n tz.
Proof.
  intros Hlen H17 Hb Hn. unfold parse_datetime, parse_naive_datetime, slice_to.
  rewrite decide_False by lia. rewrite Hb. simpl. rewrite Hn. simpl.
  by rewrite decide_False.
Qed.

(** A date instant: [yyyyMMddHHmmssSSS] naming a calendar second. *)
Record date_instant (ts : string) (d : datetime) : Prop := {
  di_length : String.length ts = 17;
  di_digits : str_all is_ascii_digit ts = true;
  di_seconds : str_lt (str_drop 12 (str_take 14 ts)) "60";
  di_date : exists n n', naive_parse (str_take 14 ts) = Some n /\
    with_nanosecond n (Z.of_N (default 0%N (parse_magnitude (str_drop 14 ts))) * 1000000) = Some n' /\
    d = from_naive_utc n'
}.

Lemma millis_suffix ts :
  String.length ts = 17 -> str_all is_ascii_digit ts = true ->
  exists m, parse_u32 (str_drop 14 ts) = Some m /\
    parse_magnitude (str_drop 14 ts) = Some m /\ (m < 1000)%N /\
    parse_digits 0 (str_drop 14 ts) = Some m.
Proof.
  intros Hlen Hd.
  assert (str_all is_ascii_digit (str_drop 14 ts) = true) as Hd' by by apply str_all_drop.
  assert (String.length (str_drop 14 ts) = 3) as Hl by by rewrite str_length_drop, Hlen.
  destruct (Civil.parse_digits_total 0 _ Hd') as (m & _ & Hm & Hlt). rewrite Hl in Hlt.
  exists m. unfold parse_u32, parse_magnitude.
  destruct (str_drop 14 ts) as [|c r] eqn:E; [done|].
  simpl in Hd'. apply andb_true_iff in Hd' as [Hc _].
  destruct (ascii_eqb_spec c "+") as [->|]; [done|]. rewrite Hm.
  assert ((m <=? u32_max)%N = true) as ->.
  { apply N.leb_le. unfold u32_max. change (10 ^ N.of_nat 3)%N with 1000%N in Hlt. lia. }
  done.
Qed.

Lemma date_instant_parse ts d tz :
  timezone_from_str tz = inl UTC -> date_instant ts d -> parse_datetime ts tz = Ok d.
Proof.
  intros Htz [Hlen Hd _ (n & n' & Hn & Hn' & ->)].
  destruct (millis_suffix ts Hlen Hd) as (m & Hm & Hm' & _). rewrite Hm' in Hn'. simpl in Hn'.
  unfold parse_datetime, parse_naive_datetime, slice_to, slice_from, convert_to_timezone.
  rewrite decide_False by lia. rewrite digits_boundary by (done || lia). simpl.
  rewrite Hn. simpl. rewrite decide_True by done. rewrite Hm. simpl.
  rewrite Hn'. simpl. by rewrite Htz.
Qed.

(** Date instants are ordered as strings exactly as they are in time. *)
Lemma date_instant_order `{!ChronoLaws C} s t a b :
  date_instant s a -> date_instant t b -> dt_compare a b = (s ?= t)%string.
Proof.
  intros [Hl1 Hd1 Hs1 (n1 & n1' & Hn1 & Hm1 & ->)] [Hl2 Hd2 Hs2 (n2 & n2' & Hn2 & Hm2 & ->)].
  destruct (millis_suffix s Hl1 Hd1) as (m1 & _ & Hp1 & Hlt1 & Hv1).
  destruct (millis_suffix t Hl2 Hd2) as (m2 & _ & Hp2 & Hlt2 & Hv2).
  rewrite Hp1 in Hm1. rewrite Hp2 in Hm2. simpl in Hm1, Hm2.
  assert (Hl1' : String.length (str_take 14 s) = 14) by (rewrite str_length_take; lia).
  assert (Hl2' : String.length (str_take 14 t) = 14) by (rewrite str_length_take; lia).
  rewrite <-(str_take_drop 14 s) at 1. rewrite <-(str_take_drop 14 t) at 1.
  rewrite str_compare_app by lia.
  rewrite (Civil.digits_compare (str_drop 14 s) (str_drop 14 t) m1 m2);
    [|rewrite !str_length_drop; lia|done|done|by apply str_all_drop..].
  rewrite (naive_order (str_take 14 s) (str_take 14 t) n1 n2 (Z.of_N m1) (Z.of_N m2) n1' n2');
    try done; try lia; try (split_and!; [done|by apply str_all_take|done]).
  by rewrite N2Z.inj_compare.
Qed.
End datetime.

Lemma parse_datetime_panics_iff_witness :
  parse_datetime "2024031514253é" "UTC" = Panic.
Proof. apply parse_datetime_panics_iff. vm_compute. split; [lia|reflexivity]. Defined.

(** A suffix the format does not allow is ignored. *)
Example parse_datetime_ignores_garbage :
  parse_datetime "20240315142530garbage" "UTC" = parse_datetime "20240315142530" "UTC".
Proof. reflexivity. Qed.

(** * The order of instants *)
Lemma instant_cmp_antisym a b : instant_cmp a b = CompOpp (instant_cmp b a).
Proof.
  unfold instant_cmp. rewrite (Z.compare_antisym (epoch_millis b)).
  destruct (epoch_millis b ?= epoch_millis a)%Z; simpl; try done. apply Z.compare_antisym.
Qed.

Lemma instant_le_spec a b :
  instant_le a b <->
  (epoch_millis a < epoch_millis b \/
   epoch_millis a = epoch_millis b /\ state_rank (state a) <= state_rank (state b))%Z.
Proof.
  unfold instant_le, instant_cmp.
  destruct (Z.compare_spec (epoch_millis a) (epoch_millis b));
    destruct (Z.compare_spec (state_rank (state a)) (state_rank (state b))); naive_solver lia.
Qed.

Global Instance instant_le_trans : Transitive instant_le.
Proof. intros a b c. rewrite !instant_le_spec. lia. Qed.

Global Instance instant_le_total : Total instant_le.
Proof. intros a b. rewrite !instant_le_spec. lia. Qed.
