(* ===== verification/Selector.v ===== *)
(** Instant ranges and timeline selection: crates/core/src/timeline/selector.rs.

    [InstantRange] gates log blocks and rows by instant time; [TimelineSelector]
    decides which timeline files become instants and which loaded instants an
    operation sees.  Fields carry the prefix of their struct. *)
From Stdlib Require Import Ascii.
From stdpp Require Import base gmap sets list strings sorting numbers.
From S2P Require Import Prelude RustStr Chrono Config Instant.
Local Open Scope res_scope.

(** * InstantRange *)
Record InstantRange := mkInstantRange {
  ir_timezone : string;
  ir_start_timestamp : option string;
  ir_end_timestamp : option string;
  ir_start_inclusive : bool;
  ir_end_inclusive : bool;
  ir_explicit_instants : option (gset string)
}.

Definition ir_new (timezone : string) (start_timestamp end_timestamp : option string)
    (start_inclusive end_inclusive : bool) : InstantRange :=
  mkInstantRange timezone start_timestamp end_timestamp start_inclusive end_inclusive None.

Definition exact_match (instants : list string) (timezone : string) : InstantRange :=
  mkInstantRange timezone None None false false (Some (list_to_set instants)).

Definition is_exact_match (r : InstantRange) : bool :=
  match ir_explicit_instants r with Some _ => true | None => false end.

Definition up_to (end_timestamp timezone : string) : InstantRange :=
  ir_new timezone None (Some end_timestamp) false true.

Definition within (start_timestamp end_timestamp timezone : string) : InstantRange :=
  ir_new timezone (Some start_timestamp) (Some end_timestamp) false false.

Definition within_open_closed (start_timestamp end_timestamp timezone : string) : InstantRange :=
  ir_new timezone (Some start_timestamp) (Some end_timestamp) false true.

Definition is_in_range_lexicographic (r : InstantRange) (timestamp : string) : bool :=
  match ir_explicit_instants r with
  | Some allowed => bool_decide (timestamp ∈ allowed)
  | None =>
      let below :=
        match ir_start_timestamp r with
        | Some start =>
            if ir_start_inclusive r then str_ltb timestamp start else str_leb timestamp start
        | None => false
        end in
      let above :=
        match ir_end_timestamp r with
        | Some end_ =>
            if ir_end_inclusive r then str_ltb end_ timestamp else str_leb end_ timestamp
        | None => false
        end in
      if below then false else if above then false else true
  end.

Section range.
Context {C : Chrono}.

Definition ir_start (r : InstantRange) : res (option datetime) :=
  opt_traverse (fun ts => parse_datetime ts (ir_timezone r)) (ir_start_timestamp r).

Definition ir_end (r : InstantRange) : res (option datetime) :=
  opt_traverse (fun ts => parse_datetime ts (ir_timezone r)) (ir_end_timestamp r).

Definition is_in_range (r : InstantRange) (timestamp timezone : string) : res bool :=
  match ir_explicit_instants r with
  | Some allowed => Ok (bool_decide (timestamp ∈ allowed))
  | None =>
      let? t := parse_datetime timestamp timezone in
      let? start := ir_start r in
      let below :=
        match start with
        | Some start => if ir_start_inclusive r then dt_lt t start else dt_le t start
        | None => false
        end in
      if below then Ok false
      else
        let? end_ := ir_end r in
        let above :=
          match end_ with
          | Some end_ => if ir_end_inclusive r then dt_lt end_ t else dt_le end_ t
          | None => false
          end in
        if above then Ok false else Ok true
  end.

Definition not_in_range (r : InstantRange) (timestamp timezone : string) : res bool :=
  let? b := is_in_range r timestamp timezone in Ok (negb b).
End range.

(** * TimelineSelector *)
Section selector.
Context {C : Chrono}.

Record TimelineSelector := mkTimelineSelector {
  sel_timezone : string;
  sel_start_datetime : option datetime;
  sel_end_datetime : option datetime;
  sel_start_timestamp : option string;
  sel_end_timestamp : option string;
  sel_range_on_completion_time : bool;
  sel_states : list State;
  sel_actions : list Action;
  sel_timeline_layout_version : Z
}.

Definition get_timezone_from_configs (configs : HudiConfigs) : string :=
  get_timezone_or_default configs.

Definition get_timeline_layout_version_from_configs (configs : HudiConfigs) : res Z :=
  let? layout := try_get_isize configs TimelineLayoutVersion in
  match layout with
  | Some layout_version => Ok layout_version
  | None =>
      let? version := try_get_isize configs TableVersion in
      let table_version := default 6%Z version in
      Ok (if (8 <=? table_version)%Z then 2%Z else 1%Z)
  end.

Definition sel_parse_datetime (timezone : string) (timestamp : option string)
    : res (option datetime) :=
  opt_traverse (fun e => parse_datetime e timezone) timestamp.

Definition actions_in_range (actions : list Action) (states : list State)
    (configs : HudiConfigs) (start end_ : option string) : res TimelineSelector :=
  let timezone := get_timezone_from_configs configs in
  let? timeline_layout_version := get_timeline_layout_version_from_configs configs in
  let? start_datetime := sel_parse_datetime timezone start in
  let? end_datetime := sel_parse_datetime timezone end_ in
  Ok (mkTimelineSelector timezone start_datetime end_datetime start end_ false
        states actions timeline_layout_version).

Definition completed_actions_in_range (actions : list Action) (configs : HudiConfigs)
    (start end_ : option string) : res TimelineSelector :=
  actions_in_range actions [Completed] configs start end_.

Definition completed_actions_in_completion_time_range (actions : list Action)
    (configs : HudiConfigs) (start end_ : option string) : res TimelineSelector :=
  let? s := actions_in_range actions [Completed] configs start end_ in
  Ok (mkTimelineSelector (sel_timezone s) (sel_start_datetime s) (sel_end_datetime s)
        (sel_start_timestamp s) (sel_end_timestamp s) true
        (sel_states s) (sel_actions s) (sel_timeline_layout_version s)).

Definition completed_commits_in_range := completed_actions_in_range [Commit].
Definition completed_deltacommits_in_range := completed_actions_in_range [DeltaCommit].
Definition completed_replacecommits_in_range := completed_actions_in_range [ReplaceCommit].

Definition has_time_filter (s : TimelineSelector) : bool :=
  bool_decide (is_Some (sel_start_datetime s)) || bool_decide (is_Some (sel_end_datetime s)).

Definition should_include_action (s : TimelineSelector) (a : Action) : bool :=
  bool_decide (sel_actions s = []) || bool_decide (a ∈ sel_actions s).

Definition should_include_state (s : TimelineSelector) (st : State) : bool :=
  bool_decide (sel_states s = []) || bool_decide (st ∈ sel_states s).

Definition valid_length (ts : string) : bool :=
  Nat.eqb (String.length ts) 17 || Nat.eqb (String.length ts) 14.

Definition try_create_instant (s : TimelineSelector) (file_name : string) : res Instant :=
  let? (timestamp_part, suffix) := ok_or (split_once "." file_name) ETimeline in
  let? (a, st) := parse_action_and_state suffix in
  if negb (should_include_action s a) then Err ETimeline
  else if negb (should_include_state s st) then Err ETimeline
  else
    let? (ts, completion) :=
      match split_once "_" timestamp_part with
      | Some (requested_ts, completed_ts) =>
          if (sel_timeline_layout_version s =? 1)%Z && bool_decide (st = Completed)
          then Err ETimeline
          else if negb (valid_length requested_ts) then Err ETimeline
          else if negb (valid_length completed_ts) then Err ETimeline
          else Ok (requested_ts, Some completed_ts)
      | None =>
          if (sel_timeline_layout_version s =? 2)%Z && bool_decide (st = Completed)
          then Err ETimeline
          else Ok (timestamp_part, None)
      end in
    let? dt := parse_datetime ts (sel_timezone s) in
    if match sel_start_datetime s with Some start => dt_lt dt start | None => false end
    then Err ETimeline
    else if match sel_end_datetime s with Some end_ => dt_le end_ dt | None => false end
    then Err ETimeline
    else Ok (mkInstant ts completion a st (timestamp_millis dt)).

Definition select_by_completion_time (s : TimelineSelector) (completed_commits : list Instant)
    : list Instant :=
  filter (fun i =>
    let effective := default (timestamp i) (completion_timestamp i) in
    (if match sel_start_timestamp s with Some start => str_leb effective start | None => false end
     then false
     else if match sel_end_timestamp s with Some end_ => str_ltb end_ effective | None => false end
     then false
     else should_include_action s (action i) && should_include_state s (state i)) = true)
    completed_commits.

Definition select_by_requested_time (s : TimelineSelector) (completed_commits : list Instant)
    : list Instant :=
  let at_or_before (bound : datetime) (i : Instant) :=
    (epoch_millis i <=? timestamp_millis bound)%Z in
  let time_pruned_instants :=
    match sel_start_datetime s with
    | Some start =>
        let from_start :=
          drop (partition_point (at_or_before start) completed_commits) completed_commits in
        match sel_end_datetime s with
        | Some end_ => take (partition_point (at_or_before end_) from_start) from_start
        | None => from_start
        end
    | None =>
        match sel_end_datetime s with
        | Some end_ =>
            take (partition_point (at_or_before end_) completed_commits) completed_commits
        | None => completed_commits
        end
    end in
  filter (fun i =>
    (if negb (should_include_action s (action i)) then false
     else if negb (should_include_state s (state i)) then false
     else true) = true) time_pruned_instants.

Definition select (s : TimelineSelector) (completed_commits : list Instant) : list Instant :=
  if sel_range_on_completion_time s
     && (2 <=? sel_timeline_layout_version s)%Z
     && (bool_decide (is_Some (sel_start_timestamp s))
         || bool_decide (is_Some (sel_end_timestamp s)))
  then select_by_completion_time s completed_commits
  else select_by_requested_time s completed_commits.
End selector.

(** * Ranges *)
Section range_props.
Context {C : Chrono}.

(** An exact-match range is membership and nothing else: it never parses the
    timestamp, so it answers for strings no datetime parser accepts, and its
    lexicographic form agrees. *)
Theorem exact_match_is_membership (instants : list string) (tz ts tz' : string) :
  is_in_range (exact_match instants tz) ts tz' = Ok (bool_decide (ts ∈ instants)) /\
  is_in_range_lexicographic (exact_match instants tz) ts = bool_decide (ts ∈ instants).
Proof.
  unfold is_in_range, is_in_range_lexicographic, exact_match. simpl.
  split; [f_equal|]; apply bool_decide_ext; set_solver.
Qed.

(** The bounds of a window range name calendar instants. *)
Definition date_bound (o : option string) : Prop :=
  match o with Some ts => exists d, date_instant ts d | None => True end.

Lemma dt_lt_str `{!ChronoLaws C} s t a b :
  date_instant s a -> date_instant t b -> dt_lt a b = str_ltb s t.
Proof. intros Ha Hb. unfold dt_lt. by rewrite (date_instant_order s t a b). Qed.

Lemma dt_le_str `{!ChronoLaws C} s t a b :
  date_instant s a -> date_instant t b -> dt_le a b = str_leb s t.
Proof. intros Ha Hb. unfold dt_le. by rewrite (date_instant_order s t a b). Qed.

(** On fixed-width calendar instants in UTC the datetime test and the
    lexicographic test of a range give the same answer, whatever the bounds and
    their inclusivity. *)
Theorem is_in_range_lexicographic_agrees `{!ChronoLaws C} (r : InstantRange) ts d tz :
  timezone_from_str tz = inl UTC -> timezone_from_str (ir_timezone r) = inl UTC ->
  date_instant ts d -> date_bound (ir_start_timestamp r) -> date_bound (ir_end_timestamp r) ->
  is_in_range r ts tz = Ok (is_in_range_lexicographic r ts).
Proof.
  intros Htz Hir Hts Hs He. unfold is_in_range, is_in_range_lexicographic, ir_start, ir_end.
  destruct (ir_explicit_instants r); [done|].
  rewrite (date_instant_parse ts d tz) by done. simpl.
  destruct (ir_start_timestamp r) as [start|]; simpl in Hs |- *;
    [destruct Hs as [ds Hs]; rewrite (date_instant_parse start ds) by done; simpl;
     rewrite (dt_lt_str ts start d ds), (dt_le_str ts start d ds) by done;
     destruct (if ir_start_inclusive r then _ else _); [done|]|];
    (destruct (ir_end_timestamp r) as [end_|]; simpl in He |- *; [|done];
     destruct He as [de He]; rewrite (date_instant_parse end_ de) by done; simpl;
     rewrite (dt_lt_str end_ ts de d), (dt_le_str end_ ts de d) by done;
     by destruct (if ir_end_inclusive r then _ else _)).
Qed.
End range_props.

Lemma date_instant_example :
  date_instant (C := Civil.civil) "20240315142530999" 1710512730999%Z.
Proof.
  split; [reflexivity|reflexivity|reflexivity|].
  exists 1710512730000%Z, 1710512730999%Z. split_and!; vm_compute; reflexivity.
Qed.

Lemma is_in_range_lexicographic_agrees_witness :
  is_in_range (C := Civil.civil) (up_to "20240315142530999" "UTC") "20240315142530999" "UTC" = Ok true.
Proof.
  rewrite (is_in_range_lexicographic_agrees (C := Civil.civil) _ _ 1710512730999%Z);
    [vm_compute; reflexivity|reflexivity|reflexivity|apply date_instant_example|exact I|].
  eexists. apply date_instant_example.
Defined.

(** * Selection *)
Section selection.
Context {C : Chrono}.

(** The window [(start, end]] over requested times, in milliseconds. *)
Definition requested_window (s : TimelineSelector) (i : Instant) : bool :=
  match sel_start_datetime s with
  | Some start => (timestamp_millis start <? epoch_millis i)%Z
  | None => true
  end &&
  match sel_end_datetime s with
  | Some end_ => (epoch_millis i <=? timestamp_millis end_)%Z
  | None => true
  end.

(** The window [(start, end]] over completion times, compared as strings; an
    instant without one is placed by its requested time. *)
Definition completion_window (s : TimelineSelector) (i : Instant) : bool :=
  let effective := default (timestamp i) (completion_timestamp i) in
  match sel_start_timestamp s with Some start => str_ltb start effective | None => true end &&
  match sel_end_timestamp s with Some end_ => str_leb effective end_ | None => true end.

Definition ranges_on_completion (s : TimelineSelector) : bool :=
  sel_range_on_completion_time s && (2 <=? sel_timeline_layout_version s)%Z &&
  (bool_decide (is_Some (sel_start_timestamp s)) || bool_decide (is_Some (sel_end_timestamp s))).

(** What [select] promises: the instants of the window with an admitted action
    and state, in the order of the timeline. *)
Definition selected (s : TimelineSelector) (i : Instant) : bool :=
  (if ranges_on_completion s then completion_window s i else requested_window s i) &&
  should_include_action s (action i) && should_include_state s (state i).

Lemma str_ltb_negb x y : str_ltb x y = negb (str_leb y x).
Proof.
  unfold str_ltb, str_leb, String.ltb, String.leb.
  rewrite (String.compare_antisym y x). by destruct (x ?= y)%string.
Qed.

Lemma filter_ext_bool {A} (f g : A -> bool) (l : list A) :
  (forall a, f a = g a) ->
  filter (fun a => f a = true) l = filter (fun a => g a = true) l.
Proof. intros H. apply list_filter_iff. intros a. by rewrite H. Qed.

Lemma filter_filter_bool {A} (f g : A -> bool) (l : list A) :
  filter (fun a => f a = true) (filter (fun a => g a = true) l) =
  filter (fun a => f a && g a = true) l.
Proof. rewrite list_filter_filter. apply list_filter_iff. intros a. by rewrite andb_true_iff. Qed.

Lemma at_or_before_sorted (b : Z) (l : list Instant) :
  StronglySorted instant_le l ->
  StronglySorted (fun x y => (epoch_millis y <=? b)%Z = true -> (epoch_millis x <=? b)%Z = true) l.
Proof.
  induction 1 as [|a l Hs IH Ha]; constructor; [done|].
  eapply Forall_impl; [|exact Ha]. intros y [H|[H _]]%instant_le_spec; simpl; lia.
Qed.

Lemma partition_take (b : Z) (l : list Instant) :
  StronglySorted instant_le l ->
  take (partition_point (fun i => epoch_millis i <=? b)%Z l) l =
    filter (fun i => (epoch_millis i <=? b)%Z = true) l.
Proof. intros Hs. by apply partition_point_split, at_or_before_sorted. Qed.

Lemma partition_drop (b : Z) (l : list Instant) :
  StronglySorted instant_le l ->
  drop (partition_point (fun i => epoch_millis i <=? b)%Z l) l =
    filter (fun i => (b <? epoch_millis i)%Z = true) l.
Proof.
  intros Hs.
  destruct (partition_point_split (fun i => epoch_millis i <=? b)%Z l) as [_ ->];
    [by apply at_or_before_sorted|].
  apply list_filter_iff. intros i. rewrite Z.leb_gt, Z.ltb_lt. done.
Qed.

Lemma filter_strongly_sorted {A} (R : relation A) (P : A -> Prop) `{forall a, Decision (P a)} l :
  StronglySorted R l -> StronglySorted R (filter P l).
Proof.
  induction 1 as [|a l Hs IH Ha]; [constructor|].
  rewrite filter_cons. case_decide; [|done]. constructor; [done|].
  rewrite Forall_forall in Ha |- *. intros x Hx.
  apply list_elem_of_In, list_elem_of_filter in Hx as [_ Hx]. by apply Ha, list_elem_of_In.
Qed.

Lemma select_by_requested_time_spec s l :
  StronglySorted instant_le l ->
  select_by_requested_time s l =
    filter (fun i => requested_window s i && should_include_action s (action i)
                       && should_include_state s (state i) = true) l.
Proof.
  intros Hs. unfold select_by_requested_time, requested_window.
  destruct (sel_start_datetime s) as [st|], (sel_end_datetime s) as [en|];
    rewrite ?partition_drop by done;
    rewrite ?partition_take by (done || by apply filter_strongly_sorted);
    rewrite ?filter_filter_bool; apply filter_ext_bool; intros i;
    destruct (should_include_action s (action i)), (should_include_state s (state i)); simpl;
    rewrite ?andb_true_r, ?andb_false_r; try done; by rewrite andb_comm.
Qed.

Lemma select_by_completion_time_spec s l :
  select_by_completion_time s l =
    filter (fun i => completion_window s i && should_include_action s (action i)
                       && should_include_state s (state i) = true) l.
Proof.
  unfold select_by_completion_time, completion_window. apply filter_ext_bool. intros i.
  cbv zeta. destruct (sel_start_timestamp s), (sel_end_timestamp s); simpl;
    rewrite ?str_ltb_negb; repeat destruct (str_leb _ _); simpl; done.
Qed.

(** On a timeline sorted by requested time, selection by binary search
    returns exactly the instants of the half-open window [(start, end]] with an
    admitted action and state, in timeline order. *)
Theorem select_spec s l :
  StronglySorted instant_le l ->
  select s l = filter (fun i => selected s i = true) l.
Proof.
  intros Hs. unfold select, selected, ranges_on_completion.
  destruct (sel_range_on_completion_time s && _ && _);
    [apply select_by_completion_time_spec|by apply select_by_requested_time_spec].
Qed.
End selection.

Definition sample_commits : list Instant := [
  mkInstant "20240101000000000" (Some "20240101000500000") Commit Completed 1704067200000;
  mkInstant "20240102000000000" (Some "20240105000000000") DeltaCommit Completed 1704153600000;
  mkInstant "20240103000000000" (Some "20240103000100000") ReplaceCommit Completed 1704240000000 ].

Lemma sample_commits_sorted : StronglySorted instant_le sample_commits.
Proof.
  unfold sample_commits.
  repeat first [apply SSorted_nil | apply SSorted_cons | apply List.Forall_nil | apply List.Forall_cons];
    unfold instant_le; vm_compute; discriminate.
Qed.

Definition layout2_configs : HudiConfigs := <[TimelineLayoutVersion := "2"]> ∅.

Lemma select_spec_witness :
  exists s, completed_actions_in_range (C := Civil.civil) [Commit; ReplaceCommit] layout2_configs
      (Some "20240101000000000") (Some "20240103000000000") = Ok s /\
    map timestamp (select s sample_commits) = ["20240103000000000"].
Proof.
  eexists. split; [vm_ok|].
  rewrite select_spec by apply sample_commits_sorted. vm_eq.
Defined.

(** * Incremental windows *)
Section incremental.
Context {C : Chrono}.

Lemma filter_partition {A} (f g h : A -> bool) (l : list A) :
  (forall a, h a = xorb (f a) (g a)) -> (forall a, f a && g a = false) ->
  filter (fun a => h a = true) l ≡ₚ
    filter (fun a => f a = true) l ++ filter (fun a => g a = true) l.
Proof.
  intros Hh Hfg. induction l as [|a l IH]; [done|].
  specialize (Hh a). specialize (Hfg a). rewrite !filter_cons, Hh.
  destruct (f a), (g a); try discriminate; simpl; rewrite IH; [done| |done].
  by rewrite Permutation_middle.
Qed.

(** The selector an incremental window [(start, end]] of a layout-v2 table builds. *)
Lemma completion_range_selector acts configs a b s :
  get_timeline_layout_version_from_configs configs = Ok 2%Z ->
  completed_actions_in_completion_time_range acts configs (Some a) (Some b) = Ok s ->
  sel_start_timestamp s = Some a /\ sel_end_timestamp s = Some b /\
  ranges_on_completion s = true /\ sel_actions s = acts /\ sel_states s = [Completed].
Proof.
  unfold completed_actions_in_completion_time_range, actions_in_range. intros Hl H.
  rewrite Hl in H. simpl in H.
  destruct (parse_datetime a _); simpl in H; [|done..].
  destruct (parse_datetime b _); simpl in H; [|done..].
  injection H as <-. simpl. split_and!; try done.
Qed.

(** A consumer that reads [(a, b]] and then [(b, c]] sees every commit of
    [(a, c]] exactly once, and no other: consecutive incremental windows on
    completion time lose nothing and repeat nothing, in whatever order the
    commits were requested. *)
Theorem incremental_windows_partition acts configs a b c s1 s2 s (l : list Instant) :
  get_timeline_layout_version_from_configs configs = Ok 2%Z ->
  completed_actions_in_completion_time_range acts configs (Some a) (Some b) = Ok s1 ->
  completed_actions_in_completion_time_range acts configs (Some b) (Some c) = Ok s2 ->
  completed_actions_in_completion_time_range acts configs (Some a) (Some c) = Ok s ->
  str_leb a b = true -> str_leb b c = true ->
  select s l ≡ₚ select s1 l ++ select s2 l.
Proof.
  intros Hl H1 H2 H Hab Hbc.
  destruct (completion_range_selector _ _ _ _ _ Hl H1) as (Ha1 & Hb1 & R1 & A1 & S1).
  destruct (completion_range_selector _ _ _ _ _ Hl H2) as (Ha2 & Hb2 & R2 & A2 & S2).
  destruct (completion_range_selector _ _ _ _ _ Hl H) as (Ha & Hb & R & A0 & S0).
  unfold select. unfold ranges_on_completion in R1, R2, R. rewrite R1, R2, R.
  rewrite !select_by_completion_time_spec.
  unfold completion_window, should_include_action, should_include_state.
  rewrite Ha1, Hb1, Ha2, Hb2, Ha, Hb, A1, S1, A2, S2, A0, S0.
  apply filter_partition; intros i; cbv zeta; rewrite !str_ltb_negb;
    set (e := default (timestamp i) (completion_timestamp i));
    set (p := bool_decide (acts = []) || bool_decide (action i ∈ acts));
    set (q := bool_decide ([Completed] = []) || bool_decide (state i ∈ [Completed]));
    clearbody p q;
    pose proof (fun E => str_leb_trans e a b E Hab) as Eab;
    pose proof (fun E => str_leb_trans e b c E Hbc) as Ebc;
    destruct (str_leb e a), (str_leb e b), (str_leb e c);
    try discriminate (Eab eq_refl); try discriminate (Ebc eq_refl); simpl;
    by destruct p, q.
Qed.
End incremental.

Lemma incremental_windows_partition_witness :
  exists s1 s2 s,
    completed_actions_in_completion_time_range (C := Civil.civil) [Commit; DeltaCommit]
      layout2_configs (Some "20240101000000000") (Some "20240104000000000") = Ok s1 /\
    completed_actions_in_completion_time_range (C := Civil.civil) [Commit; DeltaCommit]
      layout2_configs (Some "20240104000000000") (Some "20240106000000000") = Ok s2 /\
    select s sample_commits ≡ₚ select s1 sample_commits ++ select s2 sample_commits /\
    map timestamp (select s2 sample_commits) = ["20240102000000000"].
Proof.
  do 3 eexists. split; [vm_ok|]. split; [vm_ok|].
  split; [|vm_eq].
  apply (incremental_windows_partition (C := Civil.civil) [Commit; DeltaCommit] layout2_configs
    "20240101000000000" "20240104000000000" "20240106000000000"); first [vm_ok | vm_eq].
Defined.

(** * Timeline files *)
Section files.
Context {C : Chrono}.

(** The file name formats each timeline layout admits for a completed instant. *)
Definition layout_admits (layout : Z) (i : Instant) : Prop :=
  state i = Completed ->
  (layout = 1%Z -> completion_timestamp i = None) /\
  (layout = 2%Z -> is_Some (completion_timestamp i)).

(** Loading bounds are [[start, end)]. *)
Definition in_load_range (s : TimelineSelector) (dt : datetime) : bool :=
  match sel_start_datetime s with Some start => negb (dt_lt dt start) | None => true end &&
  match sel_end_datetime s with Some end_ => negb (dt_le end_ dt) | None => true end.

(** The instants both file-name parsers can describe: fixed-width times, and a
    completion time only on a completed instant. *)
Definition canonical (i : Instant) : Prop :=
  validate_timestamp (timestamp i) = Ok tt /\
  (state i = Completed \/ completion_timestamp i = None).

Lemma valid_length_validate ts : valid_length ts = true <-> validate_timestamp ts = Ok tt.
Proof.
  unfold valid_length, validate_timestamp. rewrite orb_true_iff, !Nat.eqb_eq.
  case_decide; split; try done; tauto.
Qed.

Lemma range_guard s dt (k : res Instant) :
  (if match sel_start_datetime s with Some start => dt_lt dt start | None => false end
   then Err ETimeline
   else if match sel_end_datetime s with Some end_ => dt_le end_ dt | None => false end
   then Err ETimeline else k) = if in_load_range s dt then k else Err ETimeline.
Proof.
  unfold in_load_range. destruct (sel_start_datetime s) as [st|]; [destruct (dt_lt dt st)|];
    (destruct (sel_end_datetime s) as [en|]; [destruct (dt_le en dt)|]); done.
Qed.

(** On canonical instants the selector creates an instant from a timeline
    file exactly when the file-name parser reads that instant, its action and
    state are selected, its name has the format of the table's timeline layout
    and its time lies in the selector's loading bounds. *)
Theorem try_create_instant_iff s f i :
  canonical i ->
  try_create_instant s f = Ok i <->
  try_from_file_name_and_timezone f (sel_timezone s) = Ok i /\
  should_include_action s (action i) = true /\ should_include_state s (state i) = true /\
  layout_admits (sel_timeline_layout_version s) i /\
  exists dt, parse_datetime (timestamp i) (sel_timezone s) = Ok dt /\ in_load_range s dt = true.
Proof.
  intros [Hval Hcan]. unfold try_create_instant, try_from_file_name_and_timezone.
  destruct (split_once "." f) as [[tp suffix]|]; simpl; [|naive_solver].
  destruct (parse_action_and_state suffix) as [[a st]| |]; simpl; [|naive_solver..].
  unfold layout_admits.
  set (sa := should_include_action s a). set (ss := should_include_state s st).
  split.
  - destruct sa eqn:Ea; [|done]. destruct ss eqn:Es; [|done]. simpl.
    destruct (split_once "_" tp) as [[rq ct]|] eqn:Hu.
    + destruct (_ && _) eqn:El; [done|].
      destruct (valid_length rq) eqn:V1; [|done]. destruct (valid_length ct) eqn:V2; [|done].
      simpl. destruct (parse_datetime rq _) as [dt| |] eqn:Hdt; simpl; [|done..].
      rewrite range_guard. destruct (in_load_range s dt) eqn:Hr; [|done].
      intros [= <-]. simpl in *. destruct Hcan as [->|]; [|done].
      apply valid_length_validate in V1 as ->. apply valid_length_validate in V2 as ->.
      simpl. rewrite Hdt. simpl. rewrite bool_decide_true in El by done.
      split_and!; try done; [|by eauto]. intros _. split; [|by eauto]. lia.
    + destruct (_ && _) eqn:El; [done|]. simpl.
      destruct (parse_datetime tp _) as [dt| |] eqn:Hdt; simpl; [|done..].
      rewrite range_guard. destruct (in_load_range s dt) eqn:Hr; [|done].
      intros [= <-]. simpl in *. rewrite Hval. simpl. rewrite Hdt. simpl.
      split_and!; try done; [|by eauto]. intros ->.
      rewrite bool_decide_true in El by done. split; [done|]. lia.
  - intros (H & Ea & Es & Hl & dt & Hdt & Hr).
    destruct (split_once "_" tp) as [[rq ct]|] eqn:Hu.
    + apply res_bind_Ok in H as ([] & V1 & H). apply res_bind_Ok in H as ([] & V2 & H).
      apply res_bind_Ok in H as (dt' & Hdt' & H). case_decide; [done|].
      injection H as <-. simpl in *. subst sa ss. rewrite Ea, Es. simpl.
      apply valid_length_validate in V1 as ->. apply valid_length_validate in V2 as ->.
      assert (st = Completed) as -> by (destruct (decide (st = Completed)); tauto).
      destruct (Hl eq_refl) as [Hl1 _].
      destruct (Z.eqb_spec (sel_timeline_layout_version s) 1) as [E1|]; [by apply Hl1 in E1|].
      simpl. rewrite Hdt. simpl. rewrite range_guard, Hr. rewrite Hdt in Hdt'. by injection Hdt' as ->.
    + apply res_bind_Ok in H as ([] & V1 & H). apply res_bind_Ok in H as (dt' & Hdt' & H).
      injection H as <-. simpl in *. subst sa ss. rewrite Ea, Es. simpl.
      destruct (_ && _) eqn:El.
      * apply andb_true_iff in El as [E1%Z.eqb_eq ->%bool_decide_eq_true].
        destruct (Hl eq_refl) as [_ Hl2]. specialize (Hl2 E1). simpl in Hl2. by destruct Hl2 as [? [=]].
      * simpl. rewrite Hdt. simpl. rewrite range_guard, Hr. rewrite Hdt in Hdt'. by injection Hdt' as ->.
Qed.
End files.

Lemma try_create_instant_iff_witness :
  exists s i,
    completed_commits_in_range (C := Civil.civil) layout2_configs None None = Ok s /\
    try_create_instant s "20240101000000000_20240101000500000.commit" = Ok i /\
    try_from_file_name_and_timezone (C := Civil.civil)
      "20240101000000000_20240101000500000.commit" (sel_timezone s) = Ok i.
Proof.
  do 2 eexists. split; [vm_ok|]. split; [vm_ok|].
  eapply try_create_instant_iff; [split; [vm_eq|left; reflexivity]|].
  vm_eq.
Defined.

(** The selector does not validate the length of an unsuffixed timestamp, and
    takes the completion-time format on pending instants. *)
Example selector_accepts_unvalidated_length :
  exists s, actions_in_range (C := Civil.civil) [Commit] [Completed] ∅ None None = Ok s /\
    is_Ok (try_create_instant s "20240101000000999999999.commit") = true /\
    is_Ok (try_from_file_name_and_timezone (C := Civil.civil)
             "20240101000000999999999.commit" "utc") = false.
Proof. eexists. split; [vm_ok|]. split; vm_eq. Qed.
