(* ===== verification/BTree.v ===== *)
(** The standard library's ordered collections.

    [BTreeMap<String, V>] is the list of its entries in key order, and
    [BTreeSet<T>] the list of its elements in the order of [T]'s [Ord].  The
    operations are the ones the crate calls: [get], [insert], [get_mut],
    [range(..=k).next_back()] on maps and [insert]/[extend] on sets. *)
From Stdlib Require Import Ascii.
From stdpp Require Import base gmap sets list strings sorting numbers.
From S2P Require Import Prelude RustStr.

(** * Maps keyed by strings *)
Section map.
Context {V : Type}.
Implicit Types (m : list (string * V)) (k : string) (v : V).

Fixpoint bt_get (k : string) (m : list (string * V)) : option V :=
  match m with
  | [] => None
  | (k', v) :: m' => if decide (k = k') then Some v else bt_get k m'
  end.

(** [BTreeMap::insert]: the value of a present key is replaced. *)
Fixpoint bt_insert (k : string) (v : V) (m : list (string * V)) : list (string * V) :=
  match m with
  | [] => [(k, v)]
  | (k', v') :: m' =>
      match String.compare k k' with
      | Lt => (k, v) :: m
      | Eq => (k, v) :: m'
      | Gt => (k', v') :: bt_insert k v m'
      end
  end.

(** Assignment through [get_mut] or [range_mut]. *)
Fixpoint bt_alter (f : V -> V) (k : string) (m : list (string * V)) : list (string * V) :=
  match m with
  | [] => []
  | (k', v') :: m' => if decide (k = k') then (k', f v') :: m' else (k', v') :: bt_alter f k m'
  end.

(** [range(..=k).next_back()] *)
Definition bt_last_le (k : string) (m : list (string * V)) : option (string * V) :=
  list.last (filter (fun e => str_leb e.1 k = true) m).

Definition bt_sorted (m : list (string * V)) : Prop :=
  StronglySorted (fun a b => str_lt a.1 b.1) m.

Lemma bt_sorted_cons k v m :
  bt_sorted ((k, v) :: m) <-> bt_sorted m /\ (forall k' v', (k', v') ∈ m -> str_lt k k').
Proof.
  unfold bt_sorted. split.
  - inversion 1 as [|? ? Hs Hall]; subst. split; [done|]. intros k' v' Hin.
    rewrite List.Forall_forall in Hall. apply list_elem_of_In in Hin. by apply Hall in Hin.
  - intros [Hs Hall]. constructor; [done|]. apply List.Forall_forall. intros [k' v'] Hin.
    apply list_elem_of_In in Hin. simpl. by eapply Hall.
Qed.

Lemma bt_get_elem k v m : bt_sorted m -> bt_get k m = Some v <-> (k, v) ∈ m.
Proof.
  induction m as [|[k' v'] m IH]; intros Hs; simpl.
  - split; [done|]. by inversion 1.
  - apply bt_sorted_cons in Hs as [Hs Hlt]. case_decide as Hk; subst.
    + split; [intros [= ->]; by left|]. inversion 1; subst; [done|].
      destruct (str_lt_irrefl k'). by eapply Hlt.
    + rewrite IH by done. split; [by right|]. inversion 1; subst; done.
Qed.

Lemma bt_get_lt_None k m : (forall k' v', (k', v') ∈ m -> str_lt k k') -> bt_get k m = None.
Proof.
  induction m as [|[k' v'] m IH]; intros Hlt; simpl; [done|].
  rewrite decide_False.
  - apply IH. intros. eapply Hlt. by right.
  - intros ->. destruct (str_lt_irrefl k'). eapply Hlt. by left.
Qed.

Lemma bt_elem_insert k v m k' v' :
  (k', v') ∈ bt_insert k v m -> (k' = k /\ v' = v) \/ (k', v') ∈ m.
Proof.
  induction m as [|[k1 v1] m IH]; simpl.
  - intros Hin%list_elem_of_singleton. simplify_eq. by left.
  - destruct (String.compare k k1) eqn:Hc; rewrite !elem_of_cons; intros Hin;
      destruct_or?; simplify_eq; auto.
    destruct IH; auto.
Qed.

Lemma bt_insert_sorted k v m : bt_sorted m -> bt_sorted (bt_insert k v m).
Proof.
  induction m as [|[k1 v1] m IH]; intros Hs; simpl.
  - apply bt_sorted_cons. split; [constructor|]. intros ? ?. by inversion 1.
  - pose proof Hs as Hs'. apply bt_sorted_cons in Hs as [Hs Hlt].
    destruct (String.compare k k1) eqn:Hc.
    + apply str_compare_eq in Hc as ->. by apply bt_sorted_cons.
    + apply bt_sorted_cons. split; [done|]. intros k' v' Hin. inversion Hin; subst; [done|].
      eapply str_lt_trans; [exact Hc|]. by eapply Hlt.
    + apply bt_sorted_cons. split; [by apply IH|]. intros k' v' Hin.
      apply bt_elem_insert in Hin as [[-> ->]|Hin]; [|by eapply Hlt].
      unfold str_lt. rewrite String.compare_antisym, Hc. done.
Qed.

Lemma bt_get_insert k v m k' :
  bt_get k' (bt_insert k v m) = if decide (k' = k) then Some v else bt_get k' m.
Proof.
  induction m as [|[k1 v1] m IH]; simpl; [done|].
  destruct (String.compare k k1) eqn:Hc; simpl.
  - apply str_compare_eq in Hc as ->. by repeat case_decide.
  - by repeat case_decide.
  - rewrite IH. repeat case_decide; subst; try done.
    by rewrite str_compare_refl in Hc.
Qed.

Lemma bt_elem_alter f k m k' v' :
  (k', v') ∈ bt_alter f k m -> exists v, (k', v) ∈ m /\ (v' = v \/ k' = k /\ v' = f v).
Proof.
  induction m as [|[k1 v1] m IH]; simpl; [by inversion 1|].
  setoid_rewrite elem_of_cons. case_decide; subst; rewrite elem_of_cons;
    intros [Hin|Hin]; simplify_eq; naive_solver.
Qed.

Lemma bt_alter_sorted f k m : bt_sorted m -> bt_sorted (bt_alter f k m).
Proof.
  induction m as [|[k1 v1] m IH]; intros Hs; simpl; [done|].
  apply bt_sorted_cons in Hs as [Hs Hlt]. case_decide; apply bt_sorted_cons; [done|].
  split; [by apply IH|]. intros k' v' (v & Hin & _)%bt_elem_alter. by eapply Hlt.
Qed.

Lemma bt_get_alter f k m k' :
  bt_get k' (bt_alter f k m) = if decide (k' = k) then f <$> bt_get k' m else bt_get k' m.
Proof.
  induction m as [|[k1 v1] m IH]; simpl; [by case_decide|].
  destruct (decide (k = k1)) as [->|]; simpl; [by repeat case_decide|].
  rewrite IH. repeat case_decide; by subst.
Qed.

Lemma bt_keys_alter f k m : (bt_alter f k m).*1 = m.*1.
Proof.
  induction m as [|[k1 v1] m IH]; [done|]. cbn [bt_alter].
  case_decide; rewrite !fmap_cons; [done|]. by rewrite IH.
Qed.

(** The entry [range(..=k).next_back()] finds is the one with the greatest key
    not above [k]. *)
Lemma bt_last_le_Some k m k' v :
  bt_sorted m ->
  bt_last_le k m = Some (k', v) <->
  bt_get k' m = Some v /\ str_leb k' k = true /\
  (forall k'' v'', bt_get k'' m = Some v'' -> str_leb k'' k = true -> str_leb k'' k' = true).
Proof.
  intros Hs. unfold bt_last_le. split.
  - intros Hl. apply list.last_Some in Hl as [l Hl].
    assert (Hin : (k', v) ∈ filter (fun e => str_leb e.1 k = true) m).
    { rewrite Hl. apply elem_of_app. right. by left. }
    apply list_elem_of_filter in Hin as [Hle Hin]. split_and!; [by apply bt_get_elem|done|].
    intros k'' v'' Hg%bt_get_elem Hle''; [|done].
    assert (Hin'' : (k'', v'') ∈ filter (fun e => str_leb e.1 k = true) m) by
      by apply list_elem_of_filter.
    rewrite Hl in Hin''. apply elem_of_app in Hin'' as [Hin''|Hin''].
    + apply str_lt_le. by apply (sorted_filter_before _ _ m l (k', v) (k'', v'') Hs Hl).
    + apply list_elem_of_singleton in Hin''. simplify_eq. apply str_leb_refl.
  - intros (Hg & Hle & Hmax). destruct (list.last _) as [[k1 v1]|] eqn:Hl.
    + apply list.last_Some in Hl as [l Hl].
      assert (Hin : (k1, v1) ∈ filter (fun e => str_leb e.1 k = true) m).
      { rewrite Hl. apply elem_of_app. right. by left. }
      apply list_elem_of_filter in Hin as [Hle1 Hin]. simpl in Hle1.
      assert (H1 : str_leb k1 k' = true) by by eapply Hmax; [apply bt_get_elem|].
      assert (Hin' : (k', v) ∈ l ++ [(k1, v1)]).
      { rewrite <- Hl. apply list_elem_of_filter. split; [done|]. by apply bt_get_elem. }
      apply elem_of_app in Hin' as [Hin'|Hin']; [|by apply list_elem_of_singleton in Hin'; simplify_eq].
      exfalso.
      pose proof (sorted_filter_before _ _ m l (k1, v1) (k', v) Hs Hl Hin') as Hlt.
      destruct (str_lt_irrefl k'). by apply (str_lt_le_trans k' k1 k').
    + apply list.last_None in Hl. apply bt_get_elem in Hg; [|done].
      assert (Hin : (k', v) ∈ filter (fun e => str_leb e.1 k = true) m) by
        by apply list_elem_of_filter.
      rewrite Hl in Hin. by inversion Hin.
Qed.

Lemma bt_last_le_None k m :
  bt_sorted m ->
  bt_last_le k m = None <-> forall k' v', bt_get k' m = Some v' -> str_lt k k'.
Proof.
  intros Hs. unfold bt_last_le. rewrite list.last_None. split.
  - intros Hf k' v' Hg%bt_get_elem; [|done]. destruct (str_ltb k k') eqn:Hlt; [by apply str_lt_ltb|].
    apply str_ltb_false in Hlt.
    assert (Hin : (k', v') ∈ filter (fun e => str_leb e.1 k = true) m) by
      by apply list_elem_of_filter.
    rewrite Hf in Hin. by inversion Hin.
  - intros Hlt. apply filter_none. apply List.Forall_forall. intros [k' v'] Hin Hle. simpl in Hle.
    apply list_elem_of_In, bt_get_elem in Hin; [|done]. apply Hlt in Hin.
    destruct (str_lt_irrefl k'). by apply (str_le_lt_trans k' k k').
Qed.
End map.

#[export] Hint Resolve bt_insert_sorted bt_alter_sorted : hudi.

(** * Sets *)
Section set.
Context {A : Type} (cmp : A -> A -> comparison).

(** [BTreeSet::insert]: an element already present is kept, not replaced. *)
Fixpoint bs_insert (x : A) (s : list A) : list A :=
  match s with
  | [] => [x]
  | y :: s' =>
      match cmp x y with
      | Lt => x :: s
      | Eq => s
      | Gt => y :: bs_insert x s'
      end
  end.

(** [BTreeSet::extend] *)
Definition bs_extend (s xs : list A) : list A := fold_left (fun s x => bs_insert x s) xs s.

Definition bs_sorted (s : list A) : Prop := StronglySorted (fun a b => cmp a b = Lt) s.

Lemma bs_elem_insert x s y : y ∈ bs_insert x s -> y = x \/ y ∈ s.
Proof.
  induction s as [|z s IH]; simpl.
  - intros ->%list_elem_of_singleton. by left.
  - destruct (cmp x z); intros Hin; [by right|inversion Hin; subst; [by left|by right]|].
    inversion Hin; subst; [right; by left|].
    destruct IH as [->|?]; [done|by left|]. right. by right.
Qed.

Lemma bs_elem_insert_old x s y : y ∈ s -> y ∈ bs_insert x s.
Proof.
  induction s as [|z s IH]; simpl; [by inversion 1|].
  destruct (cmp x z); intros Hin; [done|by right|].
  inversion Hin; subst; [by left|]. right. auto.
Qed.

Lemma bs_elem_insert_new x s : (forall y, y ∈ s -> cmp x y <> Eq) -> x ∈ bs_insert x s.
Proof.
  induction s as [|z s IH]; intros Hne; simpl; [by left|].
  pose proof (Hne z ltac:(by left)). destruct (cmp x z); [done|by left|].
  right. apply IH. intros y Hy. apply Hne. by right.
Qed.

(** An insertion never loses the element's place: something equal to it is in
    the set afterwards. *)
Lemma bs_elem_insert_eq x s : (forall y, cmp y y = Eq) -> exists y, y ∈ bs_insert x s /\ cmp x y = Eq.
Proof.
  intros Hr. induction s as [|z s IH]; simpl.
  - exists x. split; [by left|done].
  - destruct (cmp x z) eqn:Hc.
    + exists z. split; [by left|done].
    + exists x. split; [by left|done].
    + destruct IH as (y & ? & ?). exists y. split; [by right|done].
Qed.

Lemma bs_insert_sorted x s :
  (forall a b c, cmp a b = Lt -> cmp b c = Lt -> cmp a c = Lt) ->
  (forall a b, cmp b a = CompOpp (cmp a b)) ->
  bs_sorted s -> bs_sorted (bs_insert x s).
Proof.
  intros Htr Hopp. unfold bs_sorted. induction 1 as [|z s Hs IH Hz]; simpl; [by repeat constructor|].
  destruct (cmp x z) eqn:Hc.
  - by constructor.
  - constructor; [by constructor|]. constructor; [done|].
    rewrite List.Forall_forall in *. intros y Hy. eapply Htr; [done|by apply Hz].
  - constructor; [done|]. rewrite List.Forall_forall in *.
    intros y Hy%list_elem_of_In. apply bs_elem_insert in Hy as [->|Hy].
    + rewrite Hopp, Hc. done.
    + by apply Hz, list_elem_of_In.
Qed.
End set.
