(* ===== verification/Files.v ===== *)
(** Data and log files of a file group: crates/core/src/file_group/base_file/mod.rs,
    file_group/log_file/mod.rs, storage/file_metadata.rs, and the interface
    timeline/completion_time.rs through which they learn completion times. *)
From Stdlib Require Import Ascii.
From stdpp Require Import base gmap sets list strings sorting numbers pretty.
From S2P Require Import Prelude RustStr.
Local Open Scope res_scope.

(** [size] is a [u64], [byte_size] and [num_records] are [i64]s. *)
Record FileMetadata := mkFileMetadata {
  name : string;
  size : Z;
  byte_size : Z;
  num_records : Z
}.

Definition file_metadata_new (name : string) (size : Z) : FileMetadata :=
  mkFileMetadata name size 0 0.

Global Instance FileMetadata_eq_dec : EqDecision FileMetadata.
Proof. solve_decision. Defined.

(** * The [CompletionTimeView] interface *)
Class CompletionTimeView := {
  get_completion_time : string -> option string;
  is_committed : string -> bool
}.

(** What the file system view relies on: a commit whose completion time is
    known is committed. *)
Class CompletionTimeViewLaws (V : CompletionTimeView) : Prop := {
  completed_is_committed : forall ts ct,
    get_completion_time ts = Some ct -> is_committed ts = true
}.

(** [Path::new(path).file_name()] as UTF-8: the last normal component. *)
Definition path_file_name (path : string) : option string :=
  match list.last (filter (fun c => c <> "" /\ c <> ".") (str_split "/" path)) with
  | Some c => if decide (c = "..") then None else Some c
  | None => None
  end.

Module BaseFile.
Record t := mk {
  file_id : string;
  write_token : string;
  commit_timestamp : string;
  completion_timestamp : option string;
  extension : string;
  file_metadata : option FileMetadata
}.

Global Instance t_eq_dec : EqDecision t.
Proof. solve_decision. Defined.

Definition parse_file_name (file_name : string) : res (string * string * string * string) :=
  let? (stem, extension) := ok_or (rsplit_once "." file_name) EFileGroup in
  let parts := str_split "_" stem in
  let? file_id := ok_or (parts !! 0) EFileGroup in
  let? write_token := ok_or (parts !! 1) EFileGroup in
  let? commit_timestamp := ok_or (parts !! 2) EFileGroup in
  Ok (file_id, write_token, commit_timestamp, extension).

Definition file_name (b : t) : string :=
  file_id b +:+ "_" +:+ write_token b +:+ "_" +:+ commit_timestamp b +:+ "." +:+ extension b.

(** [PartialEq for BaseFile] compares file names only. *)
Definition eqb (a b : t) : bool := bool_decide (file_name a = file_name b).

Definition set_completion_time `{CompletionTimeView} (b : t) : t :=
  mk (file_id b) (write_token b) (commit_timestamp b)
     (get_completion_time (commit_timestamp b)) (extension b) (file_metadata b).

Definition set_file_metadata (b : t) (m : option FileMetadata) : t :=
  mk (file_id b) (write_token b) (commit_timestamp b) (completion_timestamp b) (extension b) m.

Definition from_str (file_name : string) : res t :=
  let? (file_id, write_token, commit_timestamp, extension) := parse_file_name file_name in
  Ok (mk file_id write_token commit_timestamp None extension None).

(** [TryFrom<FileMetadata>] *)
Definition try_from (metadata : FileMetadata) : res t :=
  let? (file_id, write_token, commit_timestamp, extension) := parse_file_name (name metadata) in
  Ok (mk file_id write_token commit_timestamp None extension (Some metadata)).
End BaseFile.

Module LogFile.
Record t := mk {
  file_id : string;
  timestamp : string;
  completion_timestamp : option string;
  extension : string;
  version : N;
  write_token : string;
  file_metadata : option FileMetadata
}.

Global Instance t_eq_dec : EqDecision t.
Proof. solve_decision. Defined.

Definition LOG_FILE_PREFIX : ascii := ".".

Definition is_log_file_name (file_name : string) : bool :=
  starts_with_char LOG_FILE_PREFIX file_name.

Definition parse_file_name (file_name : string)
    : res (string * string * string * N * string) :=
  if negb (starts_with_char LOG_FILE_PREFIX file_name) then Err EFileGroup
  else
    let? file_name := slice_from file_name 1 in
    let? (file_id, rest) := ok_or (split_once "_" file_name) EFileGroup in
    let? (middle, file_write_token) := ok_or (rsplit_once "_" rest) EFileGroup in
    match str_split "." middle with
    | [timestamp; log_file_extension; log_file_version_str] =>
        if bool_decide (file_id = "") || bool_decide (timestamp = "")
           || bool_decide (log_file_extension = "") || bool_decide (log_file_version_str = "")
           || bool_decide (file_write_token = "")
        then Err EFileGroup
        else
          let? log_file_version := ok_or (parse_u32 log_file_version_str) EFileGroup in
          Ok (file_id, timestamp, log_file_extension, log_file_version, file_write_token)
    | _ => Err EFileGroup
    end.

Definition file_name (l : t) : string :=
  String LOG_FILE_PREFIX (file_id l +:+ "_" +:+ timestamp l +:+ "." +:+ extension l +:+ "."
    +:+ pretty (version l) +:+ "_" +:+ write_token l).

Definition is_completed (l : t) : bool := bool_decide (is_Some (completion_timestamp l)).

Definition set_completion_time `{CompletionTimeView} (l : t) : t :=
  mk (file_id l) (timestamp l) (get_completion_time (timestamp l)) (extension l)
     (version l) (write_token l) (file_metadata l).

Definition set_file_metadata (l : t) (m : option FileMetadata) : t :=
  mk (file_id l) (timestamp l) (completion_timestamp l) (extension l) (version l)
     (write_token l) m.

Definition from_str (file_name : string) : res t :=
  let? (file_id, timestamp, extension, version, write_token) := parse_file_name file_name in
  Ok (mk file_id timestamp None extension version write_token None).

(** [TryFrom<FileMetadata>] *)
Definition try_from (metadata : FileMetadata) : res t :=
  let? (file_id, timestamp, extension, version, write_token) := parse_file_name (name metadata) in
  Ok (mk file_id timestamp None extension version write_token (Some metadata)).

(** [PartialEq for LogFile] compares file names only. *)
Definition eqb (a b : t) : bool := bool_decide (file_name a = file_name b).

(** [Ord for LogFile] *)
Definition cmp (a b : t) : comparison :=
  match completion_timestamp a, completion_timestamp b with
  | Some ct1, Some ct2 =>
      cmp_then (cmp_then (String.compare ct1 ct2) (N.compare (version a) (version b)))
        (String.compare (write_token a) (write_token b))
  | Some _, None => Lt
  | None, Some _ => Gt
  | None, None =>
      cmp_then (cmp_then (String.compare (timestamp a) (timestamp b))
                  (N.compare (version a) (version b)))
        (String.compare (write_token a) (write_token b))
  end.

Definition le (a b : t) : Prop := cmp a b <> Gt.

Global Instance le_dec : RelDecision le.
Proof. intros a b. unfold le. apply _. Defined.
End LogFile.

(** * Names of base files *)
Lemma base_parse_spec f id tok ts ext :
  BaseFile.parse_file_name f = Ok (id, tok, ts, ext) ->
  str_mem "_" id = false /\ str_mem "_" tok = false /\ str_mem "_" ts = false /\
  str_mem "." ext = false.
Proof.
  unfold BaseFile.parse_file_name. intros H.
  apply res_bind_Ok in H as ([stem e] & Hr & H). apply ok_or_Ok in Hr.
  apply res_bind_Ok in H as (p0 & H0 & H). apply ok_or_Ok in H0.
  apply res_bind_Ok in H as (p1 & H1 & H). apply ok_or_Ok in H1.
  apply res_bind_Ok in H as (p2 & H2 & H). apply ok_or_Ok in H2. simplify_eq.
  apply rsplit_once_spec in Hr as [_ He].
  split_and!; [by eapply (str_split_elem "_" stem), list_elem_of_lookup_2..|done].
Qed.

Lemma base_parse_print id tok ts ext :
  str_mem "_" id = false -> str_mem "_" tok = false -> str_mem "_" ts = false ->
  str_mem "." ext = false ->
  BaseFile.parse_file_name (id +:+ "_" +:+ tok +:+ "_" +:+ ts +:+ "." +:+ ext)
  = Ok (id, tok, ts, ext).
Proof.
  intros Hid Htok Hts Hext. unfold BaseFile.parse_file_name.
  assert (rsplit_once "." (id +:+ "_" +:+ tok +:+ "_" +:+ ts +:+ "." +:+ ext)
    = Some (id +:+ String "_" (tok +:+ String "_" ts), ext)) as ->.
  { apply rsplit_once_spec. split; [|done]. by str_norm. }
  simpl. rewrite !str_split_app by done. by rewrite str_split_none.
Qed.

(** Whatever file name a base file was parsed from, the name the crate
    prints for it parses to the same base file; and the printed name is the
    parsed one whenever that has exactly the three documented parts. *)
Theorem base_file_name_roundtrip f b :
  BaseFile.from_str f = Ok b ->
  BaseFile.from_str (BaseFile.file_name b) = Ok b /\
  (forall stem ext, rsplit_once "." f = Some (stem, ext) -> length (str_split "_" stem) = 3 ->
    BaseFile.file_name b = f).
Proof.
  unfold BaseFile.from_str. intros H.
  apply res_bind_Ok in H as ([[[id tok] ts] ext] & Hp & [= <-]).
  destruct (base_parse_spec _ _ _ _ _ Hp) as (H1 & H2 & H3 & H4).
  unfold BaseFile.file_name. cbn [BaseFile.file_id BaseFile.write_token
    BaseFile.commit_timestamp BaseFile.extension].
  split; [by rewrite base_parse_print|].
  intros stem ext' Hr Hlen. unfold BaseFile.parse_file_name in Hp. rewrite Hr in Hp. simpl in Hp.
  pose proof (str_join_split "_" stem) as Hj.
  destruct (str_split "_" stem) as [|p0 [|p1 [|p2 [|]]]]; try done.
  simpl in Hp. simplify_eq. apply rsplit_once_spec in Hr as [-> _]. simpl.
  by str_norm.
Qed.

Lemma base_file_name_roundtrip_witness :
  exists b, BaseFile.from_str "a079bdb3-731c-4894-b855-abfcd6921007-0_0-182-253_20240418173551906.parquet" = Ok b /\
    BaseFile.from_str (BaseFile.file_name b) = Ok b.
Proof.
  eexists. split; [vm_ok|].
  apply (base_file_name_roundtrip
    "a079bdb3-731c-4894-b855-abfcd6921007-0_0-182-253_20240418173551906.parquet"). vm_ok.
Defined.

(** * Names of log files *)
Record wf_log_parts (id ts ext : string) (ver : N) (tok : string) : Prop := {
  wf_id : id <> "" /\ str_mem "_" id = false;
  wf_id_start : is_char_boundary 1 (String "." id) = true;
  wf_ts : ts <> "" /\ str_mem "." ts = false;
  wf_ext : ext <> "" /\ str_mem "." ext = false;
  wf_version : (ver <= u32_max)%N;
  wf_token : tok <> "" /\ str_mem "_" tok = false
}.

Lemma parse_u32_bound s n : parse_u32 s = Some n -> (n <= u32_max)%N.
Proof.
  unfold parse_u32. destruct (parse_magnitude _) as [m|]; [|done].
  destruct (N.leb_spec m u32_max); intros ?; by simplify_eq.
Qed.

Lemma boundary_1_app c id r :
  id <> "" -> is_char_boundary 1 (String c (id +:+ r)) = is_char_boundary 1 (String c id).
Proof.
  destruct id as [|a id]; [done|]. intros _. unfold is_char_boundary.
  rewrite str_app_cons. simpl. repeat case_decide; try done; lia.
Qed.

Lemma log_parse_wf f id ts ext ver tok :
  LogFile.parse_file_name f = Ok (id, ts, ext, ver, tok) -> wf_log_parts id ts ext ver tok.
Proof.
  unfold LogFile.parse_file_name. destruct (starts_with_char _ f) eqn:Hst; simpl; [|done].
  destruct f as [|c f]; [done|]. simpl in Hst.
  destruct (ascii_eqb_spec c LogFile.LOG_FILE_PREFIX) as [->|]; [|done].
  unfold slice_from. destruct (is_char_boundary 1 _) eqn:Hb; simpl; [|done]. intros H.
  apply res_bind_Ok in H as ([id' rest] & Hs & H). apply ok_or_Ok, split_once_spec in Hs as [Hf Hid].
  rewrite str_drop_1 in Hf. subst f.
  apply res_bind_Ok in H as ([mid tok'] & Hr & H). apply ok_or_Ok, rsplit_once_spec in Hr as [-> Htok].
  pose proof (fun p => str_split_elem "." mid p) as Hdot.
  destruct (str_split "." mid) as [|p0 [|p1 [|p2 [|]]]]; try done.
  destruct (_ || _) eqn:He; [done|]. rewrite !orb_false_iff, !bool_decide_eq_false in He.
  destruct_and!.
  apply res_bind_Ok in H as (v & Hv & H). apply ok_or_Ok, parse_u32_bound in Hv. simplify_eq.
  split; try done.
  - by rewrite boundary_1_app in Hb.
  - split; [done|]. apply Hdot. by left.
  - split; [done|]. apply Hdot. right. by left.
Qed.

Lemma log_parse_print id ts ext ver tok :
  wf_log_parts id ts ext ver tok ->
  LogFile.parse_file_name (String "." (id +:+ "_" +:+ ts +:+ "." +:+ ext +:+ "." +:+ pretty ver
    +:+ "_" +:+ tok)) = Ok (id, ts, ext, ver, tok).
Proof.
  intros [[Hid Hid'] Hb [Hts Hts'] [Hext Hext'] Hver [Htok Htok']].
  unfold LogFile.parse_file_name. cbn [starts_with_char]. simpl negb.
  unfold slice_from. rewrite str_drop_1, boundary_1_app, Hb by done.
  cbn [res_bind].
  assert (split_once "_" (id +:+ "_" +:+ ts +:+ "." +:+ ext +:+ "." +:+ pretty ver +:+ "_" +:+ tok)
    = Some (id, ts +:+ String "." (ext +:+ String "." (pretty ver +:+ String "_" tok)))) as ->.
  { apply split_once_spec. split; [|done]. by str_norm. }
  cbn [res_bind ok_or].
  assert (rsplit_once "_" (ts +:+ String "." (ext +:+ String "." (pretty ver +:+ String "_" tok)))
    = Some (ts +:+ String "." (ext +:+ String "." (pretty ver)), tok)) as ->.
  { apply rsplit_once_spec. split; [|done]. by str_norm. }
  cbn [res_bind ok_or].
  rewrite !str_split_app by done.
  rewrite str_split_none by (apply digits_no_char; [done|apply pretty_N_digits]).
  rewrite !bool_decide_false by (done || apply pretty_N_not_empty). simpl.
  by rewrite parse_u32_pretty.
Qed.

(** Printing a parsed log file gives a name that parses to the same log
    file, and that is told apart from a base file's by its prefix. *)
Theorem log_file_name_roundtrip f l :
  LogFile.from_str f = Ok l ->
  LogFile.from_str (LogFile.file_name l) = Ok l /\
  LogFile.is_log_file_name f = true /\ LogFile.is_log_file_name (LogFile.file_name l) = true.
Proof.
  unfold LogFile.from_str. intros H.
  apply res_bind_Ok in H as ([[[[id ts] ext] ver] tok] & Hp & [= <-]).
  split_and!; [|..|done].
  - unfold LogFile.file_name. cbn [LogFile.file_id LogFile.timestamp LogFile.extension
      LogFile.version LogFile.write_token]. unfold LogFile.LOG_FILE_PREFIX.
    rewrite log_parse_print; [done|]. by eapply log_parse_wf.
  - unfold LogFile.parse_file_name in Hp. unfold LogFile.is_log_file_name.
    by destruct (starts_with_char _ f).
Qed.

Lemma log_file_name_roundtrip_witness :
  exists l, LogFile.from_str ".54e9a5e9-ee5d-4ed2-acee-720b5810d380-0_20250109233025121.log.1_0-51-115" = Ok l /\
    LogFile.from_str (LogFile.file_name l) = Ok l.
Proof.
  eexists. split; [vm_ok|].
  apply (log_file_name_roundtrip
    ".54e9a5e9-ee5d-4ed2-acee-720b5810d380-0_20250109233025121.log.1_0-51-115"). vm_ok.
Defined.

(** The version is parsed by [u32::from_str], so a name need not be the printed
    one. *)
Example log_version_not_canonical :
  exists l, LogFile.from_str ".f_1.log.+01_0" = Ok l /\ LogFile.file_name l = ".f_1.log.1_0".
Proof. eexists. split; [vm_ok|vm_eq]. Qed.

(** * The order of log files

    [cmp] is the lexicographic order of this key: completed files first, by
    completion time, then the others by request time. *)
Definition log_key (l : LogFile.t) : N * (string * (N * string)) :=
  match LogFile.completion_timestamp l with
  | Some ct => (0%N, (ct, (LogFile.version l, LogFile.write_token l)))
  | None => (1%N, (LogFile.timestamp l, (LogFile.version l, LogFile.write_token l)))
  end.

Definition key_cmp : N * (string * (N * string)) -> N * (string * (N * string)) -> comparison :=
  prod_cmp N.compare (prod_cmp String.compare (prod_cmp N.compare String.compare)).

#[export] Instance key_total_cmp : TotalCmp key_cmp := _.

Lemma cmp_key a b : LogFile.cmp a b = key_cmp (log_key a) (log_key b).
Proof.
  unfold LogFile.cmp, key_cmp, prod_cmp, log_key.
  destruct (LogFile.completion_timestamp a), (LogFile.completion_timestamp b); simpl; try done;
    match goal with |- context [String.compare ?x ?y] => destruct (String.compare x y) end; done.
Qed.

Lemma log_cmp_refl a : LogFile.cmp a a = Eq.
Proof. rewrite cmp_key. by apply cmp_eq. Qed.

Lemma log_cmp_opp a b : LogFile.cmp b a = CompOpp (LogFile.cmp a b).
Proof. rewrite !cmp_key. apply cmp_opp. Qed.

Lemma log_cmp_lt_trans a b c :
  LogFile.cmp a b = Lt -> LogFile.cmp b c = Lt -> LogFile.cmp a c = Lt.
Proof. rewrite !cmp_key. apply cmp_lt_trans. Qed.

Lemma log_cmp_eq a b : LogFile.cmp a b = Eq <-> log_key a = log_key b.
Proof. rewrite cmp_key. apply cmp_eq. Qed.

#[export] Hint Resolve log_cmp_refl log_cmp_opp log_cmp_lt_trans : hudi.

Global Instance log_le_trans : Transitive LogFile.le.
Proof.
  intros a b c Hab Hbc Hac. unfold LogFile.le in *.
  destruct (LogFile.cmp a b) eqn:E1; [|..|done].
  - apply log_cmp_eq in E1. rewrite cmp_key, E1, <- cmp_key in Hac. done.
  - destruct (LogFile.cmp b c) eqn:E2; [|..|done].
    + apply log_cmp_eq in E2. rewrite cmp_key, <- E2, <- cmp_key in Hac. by rewrite E1 in Hac.
    + by rewrite (log_cmp_lt_trans a b c) in Hac.
Qed.

Global Instance log_le_total : Total LogFile.le.
Proof.
  intros a b. unfold LogFile.le. rewrite (log_cmp_opp a b).
  destruct (LogFile.cmp a b); [by left|by left|by right].
Qed.

Lemma log_le_antisym a b : LogFile.le a b -> LogFile.le b a -> log_key a = log_key b.
Proof.
  unfold LogFile.le. rewrite (log_cmp_opp a b), <- log_cmp_eq.
  by destruct (LogFile.cmp a b).
Qed.

(** Distinct log files, with distinct names, may be equal for the order: a
    [BTreeSet<LogFile>] keeps only the first of them. *)
Example log_order_coarser_than_names :
  let a := LogFile.mk "f" "1" (Some "9") "log" 1 "0-0-0" None in
  let b := LogFile.mk "f" "2" (Some "9") "log" 1 "0-0-0" None in
  LogFile.cmp a b = Eq /\ LogFile.eqb a b = false.
Proof. split; vm_eq. Qed.
