(* ===== verification/FileGroup.v ===== *)
(** File slices and file groups: crates/core/src/file_group/file_slice.rs and
    file_group/mod.rs.

    A method on [&mut self] returns the new value; when it ends in an error the
    caller drops the receiver (every caller propagates the error with [?]).
    The slice's [base_file_column_stats], which only the Parquet footer pruning
    writes, is left out.  [u64] sums wrap as in a release build. *)
From Stdlib Require Import Ascii.
From stdpp Require Import base gmap sets list strings sorting numbers.
From S2P Require Import Prelude RustStr BTree Files Chrono Config Instant.
Local Open Scope res_scope.

Definition u64_modulus : Z := 18446744073709551616.
Definition u64_wrap (z : Z) : Z := (z mod u64_modulus)%Z.

Module FileSlice.
Record t := mk {
  base_file : option BaseFile.t;
  file_id : string;
  creation_instant_time : string;
  log_files : list LogFile.t;
  partition_path : string
}.

Global Instance t_eq_dec : EqDecision t.
Proof. solve_decision. Defined.

(** [Option<BaseFile>] equality, through [PartialEq for BaseFile]. *)
Definition base_file_eqb (a b : option BaseFile.t) : bool :=
  match a, b with
  | Some a, Some b => BaseFile.eqb a b
  | None, None => true
  | _, _ => false
  end.

(** [PartialEq for FileSlice]: log files are not compared. *)
Definition eqb (a b : t) : bool :=
  base_file_eqb (base_file a) (base_file b) &&
  bool_decide (partition_path a = partition_path b) &&
  bool_decide (file_id a = file_id b) &&
  bool_decide (creation_instant_time a = creation_instant_time b).

Definition new (base_file : BaseFile.t) (partition_path : string) : t :=
  mk (Some base_file) (BaseFile.file_id base_file) (BaseFile.commit_timestamp base_file) []
     partition_path.

Definition new_log_only (file_id creation_instant_time partition_path : string) : t :=
  mk None file_id creation_instant_time [] partition_path.

Definition has_log_file (s : t) : bool := negb (bool_decide (log_files s = [])).

Definition set_log_files (s : t) (ls : list LogFile.t) : t :=
  mk (base_file s) (file_id s) (creation_instant_time s) ls (partition_path s).

(** [file_slice.log_files.insert(log_file)] *)
Definition insert_log_file (l : LogFile.t) (s : t) : t :=
  set_log_files s (bs_insert LogFile.cmp l (log_files s)).

Definition merge (self other : t) : res t :=
  if negb (eqb self other) then Err EFileGroup
  else Ok (set_log_files self (bs_extend LogFile.cmp (log_files self) (log_files other))).

Definition relative_path_for_file (s : t) (file_name : string) : string :=
  path_push (partition_path s) file_name.

Definition base_file_relative_path (s : t) : option string :=
  (fun b => relative_path_for_file s (BaseFile.file_name b)) <$> base_file s.

Definition log_file_relative_path (s : t) (l : LogFile.t) : string :=
  relative_path_for_file s (LogFile.file_name l).

Definition total_size_bytes (s : t) : Z :=
  let base := match base_file s with
              | Some f => match BaseFile.file_metadata f with Some m => size m | None => 0%Z end
              | None => 0%Z
              end in
  let logs := foldl (fun acc m => u64_wrap (acc + size m)) 0%Z
                (omap LogFile.file_metadata (log_files s)) in
  u64_wrap (base + logs).

Definition log_size_bytes (s : t) : option Z :=
  foldl (fun acc lf =>
           match acc, LogFile.file_metadata lf with
           | Some acc, Some m => Some (u64_wrap (acc + size m))
           | _, _ => None
           end) (Some 0%Z) (log_files s).
End FileSlice.

Module FileGroup.
Record t := mk {
  file_id : string;
  partition_path : string;
  file_slices : list (string * FileSlice.t)
}.

Global Instance t_eq_dec : EqDecision t.
Proof. solve_decision. Defined.

(** [PartialEq]/[Hash for FileGroup]: the identity of a file group. *)
Definition identity (g : t) : string * string := (file_id g, partition_path g).

Definition eqb (a b : t) : bool := bool_decide (identity a = identity b).

Definition new (file_id partition_path : string) : t := mk file_id partition_path [].

Definition set_file_slices (g : t) (m : list (string * FileSlice.t)) : t :=
  mk (file_id g) (partition_path g) m.

(** One iteration of the loop of [merge]. *)
Definition merge_slice (m : list (string * FileSlice.t)) (e : string * FileSlice.t)
    : res (list (string * FileSlice.t)) :=
  match bt_get e.1 m with
  | Some existing_file_slice =>
      let? merged := FileSlice.merge existing_file_slice e.2 in
      Ok (bt_alter (fun _ => merged) e.1 m)
  | None => Ok (bt_insert e.1 e.2 m)
  end.

Definition merge (self other : t) : res t :=
  if negb (eqb self other) then Err EFileGroup
  else
    let? m := res_fold merge_slice (file_slices other) (file_slices self) in
    Ok (set_file_slices self m).

Definition add_base_file (g : t) (base_file : BaseFile.t) : res t :=
  if decide (BaseFile.file_id base_file <> file_id g) then Err EFileGroup
  else
    let key := BaseFile.commit_timestamp base_file in
    match bt_get key (file_slices g) with
    | Some _ => Err EFileGroup
    | None =>
        Ok (set_file_slices g
              (bt_insert key (FileSlice.new base_file (partition_path g)) (file_slices g)))
    end.

Definition add_base_files (g : t) (base_files : list BaseFile.t) : res t :=
  res_fold add_base_file base_files g.

Definition add_base_file_from_name (g : t) (file_name : string) : res t :=
  let? base_file := BaseFile.from_str file_name in add_base_file g base_file.

Definition new_with_base_file_name (file_name partition_path : string) : res t :=
  let? base_file := BaseFile.from_str file_name in
  add_base_file (new (BaseFile.file_id base_file) partition_path) base_file.

Definition add_log_file (g : t) (log_file : LogFile.t) : res t :=
  if decide (LogFile.file_id log_file <> file_id g) then Err EFileGroup
  else
    match LogFile.completion_timestamp log_file with
    | Some log_completion_time =>
        match bt_last_le log_completion_time (file_slices g) with
        | Some (k, _) =>
            Ok (set_file_slices g
                  (bt_alter (FileSlice.insert_log_file log_file) k (file_slices g)))
        | None =>
            let key := LogFile.timestamp log_file in
            let m := match bt_get key (file_slices g) with
                     | Some _ => file_slices g
                     | None => bt_insert key
                                 (FileSlice.new_log_only (file_id g) key (partition_path g))
                                 (file_slices g)
                     end in
            Ok (set_file_slices g (bt_alter (FileSlice.insert_log_file log_file) key m))
        end
    | None =>
        let log_timestamp := LogFile.timestamp log_file in
        match bt_last_le log_timestamp (file_slices g) with
        | Some (k, _) =>
            Ok (set_file_slices g
                  (bt_alter (FileSlice.insert_log_file log_file) k (file_slices g)))
        | None =>
            let m := bt_insert log_timestamp
                       (FileSlice.new_log_only (file_id g) log_timestamp (partition_path g))
                       (file_slices g) in
            Ok (set_file_slices g (bt_alter (FileSlice.insert_log_file log_file) log_timestamp m))
        end
    end.

Definition add_log_file_from_name (g : t) (file_name : string) : res t :=
  let? log_file := LogFile.from_str file_name in add_log_file g log_file.

(** [Vec::sort] is a stable merge sort by [Ord for LogFile]. *)
Definition add_log_files (g : t) (log_files : list LogFile.t) : res t :=
  res_fold add_log_file (merge_sort LogFile.le log_files) g.

Definition add_log_files_from_names (g : t) (log_file_names : list string) : res t :=
  let? log_files := res_mapM LogFile.from_str log_file_names in
  add_log_files g log_files.

Definition get_file_slice_as_of (g : t) (timestamp : string) : option FileSlice.t :=
  snd <$> bt_last_le timestamp (file_slices g).

(** The slice [get_file_slice_mut_as_of] lends, updated by [f]. *)
Definition update_file_slice_as_of (g : t) (timestamp : string)
    (f : FileSlice.t -> FileSlice.t) : t :=
  match bt_last_le timestamp (file_slices g) with
  | Some (k, _) => set_file_slices g (bt_alter f k (file_slices g))
  | None => g
  end.
End FileGroup.

(** * Well-formed file groups *)
Record wf_slice (fid part key : string) (s : FileSlice.t) : Prop := {
  wf_slice_id : FileSlice.file_id s = fid;
  wf_slice_partition : FileSlice.partition_path s = part;
  wf_slice_key : FileSlice.creation_instant_time s = key;
  wf_slice_base : forall b, FileSlice.base_file s = Some b ->
    BaseFile.file_id b = fid /\ BaseFile.commit_timestamp b = key;
  wf_slice_logs : bs_sorted LogFile.cmp (FileSlice.log_files s);
  wf_slice_log_ids : forall l, l ∈ FileSlice.log_files s -> LogFile.file_id l = fid
}.

Record wf_group (g : FileGroup.t) : Prop := {
  wf_sorted : bt_sorted (FileGroup.file_slices g);
  wf_slices : forall k s, bt_get k (FileGroup.file_slices g) = Some s ->
    wf_slice (FileGroup.file_id g) (FileGroup.partition_path g) k s
}.

Lemma wf_new fid part : wf_group (FileGroup.new fid part).
Proof. split; [constructor|done]. Qed.

Lemma wf_slice_new b part :
  wf_slice (BaseFile.file_id b) part (BaseFile.commit_timestamp b) (FileSlice.new b part).
Proof. split; simpl; try done; [naive_solver|constructor|by inversion 1]. Qed.

Lemma wf_slice_new_log_only fid part key :
  wf_slice fid part key (FileSlice.new_log_only fid key part).
Proof. split; simpl; try done; [constructor|by inversion 1]. Qed.

Lemma log_set_insert_sorted l s :
  bs_sorted LogFile.cmp s -> bs_sorted LogFile.cmp (bs_insert LogFile.cmp l s).
Proof. apply bs_insert_sorted; [apply log_cmp_lt_trans|apply log_cmp_opp]. Qed.

Lemma wf_slice_insert fid part key l s :
  LogFile.file_id l = fid -> wf_slice fid part key s ->
  wf_slice fid part key (FileSlice.insert_log_file l s).
Proof.
  intros Hl [? ? ? ? Hs Hids]. split; simpl; try done.
  - by apply log_set_insert_sorted.
  - intros l' [->|?]%bs_elem_insert; auto.
Qed.

Lemma wf_slice_extend fid part key ls s :
  (forall l, l ∈ ls -> LogFile.file_id l = fid) -> wf_slice fid part key s ->
  wf_slice fid part key
    (FileSlice.set_log_files s (bs_extend LogFile.cmp (FileSlice.log_files s) ls)).
Proof.
  unfold bs_extend. revert s. induction ls as [|l ls IH]; intros s Hls Hs; simpl.
  - by destruct s.
  - apply (IH (FileSlice.insert_log_file l s)).
    + intros l' Hl'. apply Hls. by right.
    + apply wf_slice_insert; [|done]. apply Hls. by left.
Qed.

#[export] Hint Resolve wf_new wf_slice_new wf_slice_new_log_only wf_slice_insert : hudi.

(** Updating the slices of a group keeps it well formed. *)
Lemma wf_insert g k s :
  wf_group g -> wf_slice (FileGroup.file_id g) (FileGroup.partition_path g) k s ->
  wf_group (FileGroup.set_file_slices g (bt_insert k s (FileGroup.file_slices g))).
Proof.
  intros [Hs Hw] Hk. split; simpl; [by apply bt_insert_sorted|].
  intros k' s'. rewrite bt_get_insert. case_decide; naive_solver.
Qed.

Lemma wf_alter g f k :
  wf_group g ->
  (forall s, bt_get k (FileGroup.file_slices g) = Some s ->
    wf_slice (FileGroup.file_id g) (FileGroup.partition_path g) k (f s)) ->
  wf_group (FileGroup.set_file_slices g (bt_alter f k (FileGroup.file_slices g))).
Proof.
  intros [Hs Hw] Hf. split; simpl; [by apply bt_alter_sorted|].
  intros k' s'. rewrite bt_get_alter. case_decide; [|by apply Hw].
  subst. intros (s & Hg & ->)%fmap_Some. by apply Hf.
Qed.

Lemma set_set_slices g m1 m2 :
  FileGroup.set_file_slices (FileGroup.set_file_slices g m1) m2 = FileGroup.set_file_slices g m2.
Proof. done. Qed.

Lemma wf_add_base_file g b g' :
  wf_group g -> FileGroup.add_base_file g b = Ok g' -> wf_group g'.
Proof.
  unfold FileGroup.add_base_file. intros Hw. case_decide as Hid; [done|].
  destruct (bt_get _ _) eqn:Hg; [done|]. intros [= <-]. apply wf_insert; [done|].
  assert (BaseFile.file_id b = FileGroup.file_id g) as <-; [|apply wf_slice_new].
  by destruct (decide (BaseFile.file_id b = FileGroup.file_id g)).
Qed.

(** The key of the slice a log file is placed in. *)
Definition placement_time (l : LogFile.t) : string :=
  default (LogFile.timestamp l) (LogFile.completion_timestamp l).

Definition placement_key (g : FileGroup.t) (l : LogFile.t) : string :=
  match bt_last_le (placement_time l) (FileGroup.file_slices g) with
  | Some (k, _) => k
  | None => LogFile.timestamp l
  end.

(** The slices among which the log file finds its own: a group without a slice
    for it gets a log-only one. *)
Definition with_placement_slice (g : FileGroup.t) (l : LogFile.t) : FileGroup.t :=
  match bt_get (placement_key g l) (FileGroup.file_slices g) with
  | Some _ => g
  | None =>
      FileGroup.set_file_slices g
        (bt_insert (placement_key g l)
           (FileSlice.new_log_only (FileGroup.file_id g) (placement_key g l)
              (FileGroup.partition_path g))
           (FileGroup.file_slices g))
  end.

Lemma last_le_get k g k' s :
  wf_group g -> bt_last_le k (FileGroup.file_slices g) = Some (k', s) ->
  bt_get k' (FileGroup.file_slices g) = Some s.
Proof. intros [Hs _] H. by apply bt_last_le_Some in H as [? _]. Qed.

(** [add_log_file] is: find the placement key, make sure a slice is there, add
    the log file to its set. *)
Lemma add_log_file_eq g l :
  wf_group g -> LogFile.file_id l = FileGroup.file_id g ->
  FileGroup.add_log_file g l =
    Ok (let g1 := with_placement_slice g l in
        FileGroup.set_file_slices g1
          (bt_alter (FileSlice.insert_log_file l) (placement_key g l)
             (FileGroup.file_slices g1))).
Proof.
  intros Hw Hid. unfold FileGroup.add_log_file, with_placement_slice, placement_key, placement_time.
  rewrite decide_False by (intros H; by apply H).
  destruct (LogFile.completion_timestamp l) as [ct|]; simpl.
  - destruct (bt_last_le ct _) as [[k s]|] eqn:Hl.
    + by rewrite (last_le_get _ _ _ _ Hw Hl).
    + destruct (bt_get _ _); by simpl.
  - destruct (bt_last_le _ _) as [[k s]|] eqn:Hl.
    + by rewrite (last_le_get _ _ _ _ Hw Hl).
    + destruct (bt_get _ _) eqn:Hg; [|done]. exfalso.
      eapply (proj1 (bt_last_le_None _ _ (wf_sorted _ Hw)) Hl) in Hg.
      by apply str_lt_irrefl in Hg.
Qed.

Lemma wf_with_placement_slice g l : wf_group g -> wf_group (with_placement_slice g l).
Proof.
  intros Hw. unfold with_placement_slice. destruct (bt_get _ _); [done|].
  apply wf_insert; [done|apply wf_slice_new_log_only].
Qed.

Lemma with_placement_identity g l :
  FileGroup.file_id (with_placement_slice g l) = FileGroup.file_id g /\
  FileGroup.partition_path (with_placement_slice g l) = FileGroup.partition_path g.
Proof. unfold with_placement_slice. by destruct (bt_get _ _). Qed.

Lemma wf_add_log_file g l g' :
  wf_group g -> FileGroup.add_log_file g l = Ok g' -> wf_group g'.
Proof.
  intros Hw H. destruct (decide (LogFile.file_id l = FileGroup.file_id g)) as [Hid|Hid].
  2: { unfold FileGroup.add_log_file in H. by rewrite decide_True in H. }
  rewrite add_log_file_eq in H by done. injection H as <-.
  pose proof (wf_with_placement_slice g l Hw) as Hw1.
  destruct (with_placement_identity g l) as [E1 E2].
  apply wf_alter; [done|]. intros s Hs. apply wf_slice_insert; [by rewrite E1|].
  by apply Hw1.
Qed.

Lemma add_log_file_identity g l g' :
  FileGroup.add_log_file g l = Ok g' -> FileGroup.identity g' = FileGroup.identity g.
Proof.
  unfold FileGroup.add_log_file. case_decide; [done|].
  destruct (LogFile.completion_timestamp l); destruct (bt_last_le _ _) as [[? ?]|];
    intros [= <-]; done.
Qed.

Lemma wf_merge_slices g m es m' :
  wf_group (FileGroup.set_file_slices g m) ->
  (forall k s, (k, s) ∈ es -> wf_slice (FileGroup.file_id g) (FileGroup.partition_path g) k s) ->
  res_fold FileGroup.merge_slice es m = Ok m' ->
  wf_group (FileGroup.set_file_slices g m').
Proof.
  intros Hw Hes H.
  revert H. apply (res_fold_inv (fun m => wf_group (FileGroup.set_file_slices g m))); [|done].
  intros m1 [k s] m2 Hin Hm1 H. unfold FileGroup.merge_slice in H. simpl in H.
  destruct (bt_get k m1) as [s1|] eqn:Hg.
  - apply res_bind_Ok in H as (s2 & Hs2 & [= <-]).
    unfold FileSlice.merge in Hs2. destruct (FileSlice.eqb s1 s); [|done].
    injection Hs2 as <-. apply (wf_alter (FileGroup.set_file_slices g m1)); [done|].
    intros s0 Hs0. apply wf_slice_extend.
    + intros l. by apply (wf_slice_log_ids _ _ _ _ (Hes k s Hin)).
    + by apply (wf_slices _ Hm1).
  - injection H as <-. apply (wf_insert (FileGroup.set_file_slices g m1)); [done|]. by apply Hes.
Qed.

Lemma wf_add_base_files g bs g' :
  wf_group g -> FileGroup.add_base_files g bs = Ok g' -> wf_group g'.
Proof. intros Hw. apply res_fold_inv; [|done]. intros g1 b g2 _. apply wf_add_base_file. Qed.

Lemma wf_add_log_files g ls g' :
  wf_group g -> FileGroup.add_log_files g ls = Ok g' -> wf_group g'.
Proof. intros Hw. apply res_fold_inv; [|done]. intros g1 b g2 _. apply wf_add_log_file. Qed.

Lemma wf_merge g o g' :
  wf_group g -> wf_group o -> FileGroup.merge g o = Ok g' -> wf_group g'.
Proof.
  intros Hw Ho H. unfold FileGroup.merge in H.
  destruct (FileGroup.eqb g o) eqn:He; [|done]. simpl in H.
  apply bool_decide_eq_true in He. unfold FileGroup.identity in He. injection He as E1 E2.
  apply res_bind_Ok in H as (m & Hm & [= <-]).
  eapply wf_merge_slices; [|..|exact Hm].
  - by destruct g.
  - intros k s Hin. rewrite E1, E2. apply Ho, bt_get_elem; [apply Ho|done].
Qed.

#[export] Hint Resolve wf_add_base_file wf_add_base_files wf_add_log_file wf_add_log_files wf_merge : hudi.

(** C39: every operation that changes a file group keeps it well formed: slices
    are keyed by their creation instant, carry the group's id and partition,
    and hold only the group's own log files, in order. *)
Theorem file_group_operations_preserve_wf g :
  wf_group g ->
  (forall b g', FileGroup.add_base_file g b = Ok g' -> wf_group g') /\
  (forall bs g', FileGroup.add_base_files g bs = Ok g' -> wf_group g') /\
  (forall l g', FileGroup.add_log_file g l = Ok g' -> wf_group g') /\
  (forall ls g', FileGroup.add_log_files g ls = Ok g' -> wf_group g') /\
  (forall o g', wf_group o -> FileGroup.merge g o = Ok g' -> wf_group g').
Proof.
  intros Hw. split_and!; eauto with hudi.
Qed.

(** A base file and its group, for the witnesses. *)
Definition sample_base (ts : string) : BaseFile.t :=
  BaseFile.mk "fg1" "0-1-0" ts None "parquet" None.
Definition sample_log (ts : string) (ct : option string) (v : N) : LogFile.t :=
  LogFile.mk "fg1" ts ct "log" v "0-2-0" None.
Definition sample_group : FileGroup.t :=
  FileGroup.mk "fg1" "p=1"
    [("10", FileSlice.new (sample_base "10") "p=1"); ("20", FileSlice.new (sample_base "20") "p=1")].

Lemma sample_group_built :
  FileGroup.add_base_files (FileGroup.new "fg1" "p=1") [sample_base "20"; sample_base "10"]
  = Ok sample_group.
Proof. reflexivity. Qed.

Lemma sample_group_wf : wf_group sample_group.
Proof. eapply (wf_add_base_files _ _ _ (wf_new "fg1" "p=1")), sample_group_built. Qed.

Lemma file_group_operations_preserve_wf_witness :
  exists g, FileGroup.add_log_files sample_group
      [sample_log "21" (Some "25") 1; sample_log "11" (Some "12") 1] = Ok g /\ wf_group g.
Proof.
  eexists. split; [vm_ok|].
  destruct (file_group_operations_preserve_wf sample_group sample_group_wf) as (_ & _ & _ & H & _).
  apply (H [sample_log "21" (Some "25") 1; sample_log "11" (Some "12") 1]). vm_ok.
Defined.

(** * Where a log file goes *)

(** A log file of the group is placed in the slice with the greatest base
    instant at or before its completion time (its request time when completion
    is not tracked); only when there is none does it go to the slice of its own
    request time, created without a base file if it is missing.  It is in that
    slice's log files afterwards, or a log file equal to it in the order of log
    files is; the slice keeps its base file, and every other slice is
    untouched. *)
Theorem add_log_file_placement g l :
  wf_group g -> LogFile.file_id l = FileGroup.file_id g ->
  exists g' s',
    FileGroup.add_log_file g l = Ok g' /\
    bt_get (placement_key g l) (FileGroup.file_slices g') = Some s' /\
    (exists l', l' ∈ FileSlice.log_files s' /\ LogFile.cmp l l' = Eq) /\
    FileSlice.base_file s' =
      match bt_get (placement_key g l) (FileGroup.file_slices g) with
      | Some s => FileSlice.base_file s
      | None => None
      end /\
    (forall k, k <> placement_key g l ->
      bt_get k (FileGroup.file_slices g') = bt_get k (FileGroup.file_slices g)) /\
    ((exists k s, bt_get k (FileGroup.file_slices g) = Some s /\
        str_leb k (placement_time l) = true) ->
      str_leb (placement_key g l) (placement_time l) = true /\
      (forall k s, bt_get k (FileGroup.file_slices g) = Some s ->
        str_leb k (placement_time l) = true -> str_leb k (placement_key g l) = true)) /\
    ((forall k s, bt_get k (FileGroup.file_slices g) = Some s -> str_lt (placement_time l) k) ->
      placement_key g l = LogFile.timestamp l).
Proof.
  intros Hw Hid. rewrite add_log_file_eq by done. set (k := placement_key g l).
  assert (exists s, bt_get k (FileGroup.file_slices (with_placement_slice g l)) = Some s /\
    FileSlice.base_file s = match bt_get k (FileGroup.file_slices g) with
                            | Some s => FileSlice.base_file s | None => None end) as (s & Hs & Hb).
  { unfold with_placement_slice. fold k. destruct (bt_get k (FileGroup.file_slices g)) eqn:Hg.
    - by eexists.
    - eexists. simpl. rewrite bt_get_insert, decide_True by done. by split. }
  eexists _, (FileSlice.insert_log_file l s). split; [done|]. simpl.
  split; [|split; [|split; [done|split; [|split]]]].
  - rewrite bt_get_alter, decide_True by done. by rewrite Hs.
  - apply bs_elem_insert_eq, log_cmp_refl.
  - intros k' Hk. rewrite bt_get_alter, decide_False by done.
    unfold with_placement_slice. fold k. destruct (bt_get k (FileGroup.file_slices g)); [done|].
    simpl. by rewrite bt_get_insert, decide_False.
  - intros (k0 & s0 & Hk0 & Hle0). subst k. unfold placement_key.
    destruct (bt_last_le _ _) as [[k1 s1]|] eqn:Hl.
    + apply bt_last_le_Some in Hl as (_ & ? & ?); [done|apply Hw].
    + eapply (proj1 (bt_last_le_None _ _ (wf_sorted _ Hw)) Hl) in Hk0.
      destruct (str_lt_irrefl k0). by eapply str_le_lt_trans.
  - intros Hlt. subst k. unfold placement_key.
    by rewrite (proj2 (bt_last_le_None _ _ (wf_sorted _ Hw)) Hlt).
Qed.

(** A late log file of an early request joins the slice that is current when it
    completes. *)
Lemma add_log_file_placement_witness :
  placement_key sample_group (sample_log "11" (Some "25") 1) = "20" /\
  exists g' s', FileGroup.add_log_file sample_group (sample_log "11" (Some "25") 1) = Ok g' /\
    bt_get "20" (FileGroup.file_slices g') = Some s'.
Proof.
  split; [vm_eq|].
  destruct (add_log_file_placement sample_group (sample_log "11" (Some "25") 1) sample_group_wf)
    as (g' & s' & H1 & H2 & _); [vm_eq|]. by exists g', s'.
Defined.

(** Files are listed in arbitrary order, and [add_log_files] gives the same
    group whatever the order, provided no two log files are equal in the order
    of log files. *)
Theorem add_log_files_order_independent g ls1 ls2 :
  ls1 ≡ₚ ls2 ->
  (forall a b, a ∈ ls1 -> b ∈ ls1 -> LogFile.cmp a b = Eq -> a = b) ->
  FileGroup.add_log_files g ls1 = FileGroup.add_log_files g ls2.
Proof.
  intros Hp Hd. unfold FileGroup.add_log_files. f_equal.
  apply (StronglySorted_unique_strong LogFile.le).
  - intros a b Ha Hb Hab Hba. rewrite (merge_sort_Permutation LogFile.le) in Ha, Hb.
    rewrite <- Hp in Hb. apply (Hd a b Ha Hb), log_cmp_eq, log_le_antisym; done.
  - by apply (StronglySorted_merge_sort LogFile.le).
  - by apply (StronglySorted_merge_sort LogFile.le).
  - by rewrite !(merge_sort_Permutation LogFile.le).
Qed.

Lemma add_log_files_order_independent_witness :
  FileGroup.add_log_files sample_group [sample_log "21" (Some "25") 1; sample_log "11" (Some "12") 1]
  = FileGroup.add_log_files sample_group [sample_log "11" (Some "12") 1; sample_log "21" (Some "25") 1].
Proof.
  apply add_log_files_order_independent; [apply Permutation_swap|].
  intros a b Ha Hb.
  repeat match goal with H : _ ∈ _ |- _ => apply elem_of_cons in H as [->|H] end;
    try (by inversion Ha); try (by inversion Hb); try reflexivity;
    vm_compute; discriminate.
Defined.

(** The slice read "as of" an instant is the one with the greatest base
    instant at or before it, and there is one as soon as some slice is that
    old. *)
Theorem file_slice_as_of_spec g ts :
  wf_group g ->
  (forall s, FileGroup.get_file_slice_as_of g ts = Some s <->
    exists k, bt_get k (FileGroup.file_slices g) = Some s /\
      FileSlice.creation_instant_time s = k /\ str_leb k ts = true /\
      forall k' s', bt_get k' (FileGroup.file_slices g) = Some s' ->
        str_leb k' ts = true -> str_leb k' k = true) /\
  (FileGroup.get_file_slice_as_of g ts = None <->
    forall k s, bt_get k (FileGroup.file_slices g) = Some s -> str_lt ts k).
Proof.
  intros [Hs Hw]. unfold FileGroup.get_file_slice_as_of. split.
  - intros s. rewrite fmap_Some. split.
    + intros ([k s'] & Hl & ->). apply bt_last_le_Some in Hl as (Hg & ? & ?); [|done].
      exists k. split_and!; try done. by apply Hw in Hg as [].
    + intros (k & Hg & _ & Hle & Hmax). exists (k, s). split; [|done].
      by apply bt_last_le_Some.
  - rewrite fmap_None. by apply bt_last_le_None.
Qed.

Lemma file_slice_as_of_spec_witness :
  exists s, FileGroup.get_file_slice_as_of sample_group "15" = Some s /\
    FileSlice.creation_instant_time s = "10".
Proof.
  exists (FileSlice.new (sample_base "10") "p=1"). split; [|reflexivity].
  apply (file_slice_as_of_spec sample_group "15" sample_group_wf).
  exists "10". split_and!; try vm_eq. intros k s. simpl.
  repeat case_decide; subst; try done; intros _ H; try discriminate H; done.
Defined.

(** * Log-only file groups *)
Lemma add_log_file_single fid part k s l :
  LogFile.file_id l = fid -> str_leb k (placement_time l) = true ->
  FileGroup.add_log_file (FileGroup.mk fid part [(k, s)]) l =
    Ok (FileGroup.mk fid part [(k, FileSlice.insert_log_file l s)]).
Proof.
  intros Hid Hle. unfold FileGroup.add_log_file. rewrite decide_False by (intros H; by apply H).
  assert (Hl : bt_last_le (placement_time l) [(k, s)] = Some (k, s)).
  { unfold bt_last_le. by rewrite filter_cons_True. }
  unfold placement_time in Hl. simpl.
  destruct (LogFile.completion_timestamp l) as [ct|]; simpl in Hl; rewrite Hl; simpl;
    unfold FileGroup.set_file_slices; simpl; by rewrite decide_True.
Qed.

Lemma add_logs_single fid part k s ls :
  Forall (fun l => LogFile.file_id l = fid /\ str_leb k (placement_time l) = true) ls ->
  res_fold FileGroup.add_log_file ls (FileGroup.mk fid part [(k, s)]) =
    Ok (FileGroup.mk fid part [(k, foldl (fun s l => FileSlice.insert_log_file l s) s ls)]).
Proof.
  intros Hls. revert s. induction Hls as [|l ls [Hid Hle] _ IH]; intros s; [done|].
  cbn [res_fold foldl]. rewrite add_log_file_single by done. simpl. apply IH.
Qed.

(** Completed and uncompleted log files do not mix in a listing: a table either
    tracks completion times or does not. *)
Definition same_layout (ls : list LogFile.t) : Prop :=
  (forall l, l ∈ ls -> is_Some (LogFile.completion_timestamp l)) \/
  (forall l, l ∈ ls -> LogFile.completion_timestamp l = None).

Lemma le_placement_time a b :
  (is_Some (LogFile.completion_timestamp a) <-> is_Some (LogFile.completion_timestamp b)) ->
  LogFile.le a b -> str_leb (placement_time a) (placement_time b) = true.
Proof.
  unfold LogFile.le, LogFile.cmp, placement_time.
  destruct (LogFile.completion_timestamp a) as [ca|], (LogFile.completion_timestamp b) as [cb|];
    simpl; intros Hiff Hle.
  - apply str_leb_le. unfold String.le, String.leb. by destruct (String.compare ca cb).
  - destruct (proj1 Hiff); by eauto.
  - destruct (proj2 Hiff); by eauto.
  - apply str_leb_le. unfold String.le, String.leb.
    by destruct (String.compare (LogFile.timestamp a) (LogFile.timestamp b)).
Qed.

Lemma foldl_insert_elem ls s l :
  (l ∈ ls \/ exists l', l' ∈ FileSlice.log_files s /\ LogFile.cmp l l' = Eq) ->
  exists l', l' ∈ FileSlice.log_files (foldl (fun s l => FileSlice.insert_log_file l s) s ls) /\
    LogFile.cmp l l' = Eq.
Proof.
  revert s. induction ls as [|x ls IH]; intros s H; simpl.
  - destruct H as [H|H]; [by inversion H|done].
  - apply IH. destruct H as [[->|H]%elem_of_cons|(l' & H & ?)].
    + right. apply bs_elem_insert_eq, log_cmp_refl.
    + by left.
    + right. exists l'. split; [|done]. by apply bs_elem_insert_old.
Qed.

Lemma foldl_insert_base ls s :
  FileSlice.base_file (foldl (fun s l => FileSlice.insert_log_file l s) s ls) =
  FileSlice.base_file s.
Proof. revert s. induction ls as [|x ls IH]; intros s; simpl; [done|]. by rewrite IH. Qed.

(** The log files of a group whose records were never compacted, listed in
    any order, make one slice without a base file, keyed by the request time of
    one of them, and none of them is lost from it. *)
Theorem log_only_group_is_one_slice fid part ls :
  ls <> [] -> same_layout ls ->
  (forall l, l ∈ ls -> LogFile.file_id l = fid) ->
  (forall l, l ∈ ls -> str_leb (LogFile.timestamp l) (placement_time l) = true) ->
  exists k s,
    FileGroup.add_log_files (FileGroup.new fid part) ls = Ok (FileGroup.mk fid part [(k, s)]) /\
    FileSlice.base_file s = None /\
    (exists l, l ∈ ls /\ LogFile.timestamp l = k /\
      forall l', l' ∈ ls -> str_leb (placement_time l) (placement_time l') = true) /\
    (forall l, l ∈ ls -> exists l', l' ∈ FileSlice.log_files s /\ LogFile.cmp l l' = Eq).
Proof.
  intros Hne Hsame Hid Hts. unfold FileGroup.add_log_files.
  pose proof (merge_sort_Permutation LogFile.le ls) as Hp.
  pose proof (StronglySorted_merge_sort LogFile.le ls) as Hs.
  destruct (merge_sort LogFile.le ls) as [|l0 ls0].
  { by apply Permutation_nil in Hp. }
  assert (Hin : forall l, l ∈ l0 :: ls0 <-> l ∈ ls) by (intros l; by rewrite Hp).
  inversion_clear Hs as [|? ? _ Hall]. rewrite List.Forall_forall in Hall.
  assert (H0 : l0 ∈ ls) by (apply Hin; by left).
  assert (Hmin : forall l, l ∈ ls0 -> str_leb (placement_time l0) (placement_time l) = true).
  { intros l Hl. assert (l ∈ ls) by (apply Hin; by right).
    apply le_placement_time; [|by apply Hall, list_elem_of_In].
    destruct Hsame as [Hsame|Hsame]; [by split; intros _; apply Hsame|].
    by rewrite !Hsame. }
  cbn [res_fold]. rewrite (add_log_file_eq (FileGroup.new fid part) l0) by (apply wf_new || by apply Hid).
  cbn [res_bind]. unfold with_placement_slice, placement_key. simpl.
  unfold FileGroup.set_file_slices. simpl. rewrite decide_True by done.
  rewrite add_logs_single.
  2: { apply List.Forall_forall. intros l Hl%list_elem_of_In. split; [by apply Hid, Hin; right|].
       eapply str_leb_trans; [by apply Hts|by apply Hmin]. }
  do 2 eexists. split; [done|]. rewrite foldl_insert_base. split; [done|]. split.
  - exists l0. split_and!; try done. intros l' [->|Hl]%Hin%elem_of_cons; [apply str_leb_refl|by apply Hmin].
  - intros l [->|Hl]%Hin%elem_of_cons; apply foldl_insert_elem; [|by left].
    right. apply bs_elem_insert_eq, log_cmp_refl.
Qed.

Lemma log_only_group_is_one_slice_witness :
  let ls := [sample_log "30" (Some "45") 1; sample_log "40" (Some "44") 1] in
  exists k s, FileGroup.add_log_files (FileGroup.new "fg1" "p=1") ls
      = Ok (FileGroup.mk "fg1" "p=1" [(k, s)]) /\ FileSlice.base_file s = None.
Proof.
  intros ls. destruct (log_only_group_is_one_slice "fg1" "p=1" ls) as (k & s & H & Hb & _).
  - discriminate.
  - left. intros l [->|[->|H]%elem_of_cons]%elem_of_cons; [by eexists..|by inversion H].
  - intros l [->|[->|H]%elem_of_cons]%elem_of_cons; [done..|by inversion H].
  - intros l [->|[->|H]%elem_of_cons]%elem_of_cons; [vm_eq..|by inversion H].
  - by exists k, s.
Defined.

(** * Merging *)
Lemma foldl_extend ls s :
  FileSlice.set_log_files s (bs_extend LogFile.cmp (FileSlice.log_files s) ls) =
  foldl (fun s l => FileSlice.insert_log_file l s) s ls.
Proof.
  unfold bs_extend. revert s. induction ls as [|l ls IH]; intros s; simpl; [by destruct s|].
  by rewrite <- IH.
Qed.

(** What [merge] promises for the slice of a key. *)
Definition merged_slice (a b : option FileSlice.t) : option FileSlice.t :=
  match a, b with
  | Some x, Some y =>
      Some (FileSlice.set_log_files x
              (bs_extend LogFile.cmp (FileSlice.log_files x) (FileSlice.log_files y)))
  | Some x, None => Some x
  | None, y => y
  end.

Definition mergeable (a b : option FileSlice.t) : Prop :=
  match a, b with Some x, Some y => FileSlice.eqb x y = true | _, _ => True end.

(** [merge_slice] where it does not fail. *)
Definition merge_entry (m : list (string * FileSlice.t)) (e : string * FileSlice.t)
    : list (string * FileSlice.t) :=
  match bt_get e.1 m with
  | Some x => bt_alter (fun _ => FileSlice.set_log_files x
      (bs_extend LogFile.cmp (FileSlice.log_files x) (FileSlice.log_files e.2))) e.1 m
  | None => bt_insert e.1 e.2 m
  end.

Lemma merge_entries_get es m k :
  bt_sorted es ->
  bt_get k (foldl merge_entry m es) = merged_slice (bt_get k m) (bt_get k es).
Proof.
  revert m. induction es as [|[k' s] es IH]; intros m Hs; simpl; [by destruct (bt_get k m)|].
  apply bt_sorted_cons in Hs as [Hs Hlt]. rewrite IH by done.
  pose proof (bt_get_lt_None k' es Hlt) as Hk. unfold merge_entry. simpl.
  destruct (bt_get k' m) as [x|] eqn:Hg; rewrite ?bt_get_alter, ?bt_get_insert;
    case_decide; subst; try done; by rewrite Hk, Hg.
Qed.

Lemma merge_slices_spec es m m' :
  bt_sorted es ->
  res_fold FileGroup.merge_slice es m = Ok m' <->
  (forall k, mergeable (bt_get k m) (bt_get k es)) /\ m' = foldl merge_entry m es.
Proof.
  revert m. induction es as [|[k s] es IH]; intros m Hs; simpl.
  - split; [|naive_solver]. intros [= ->]. split; [|done]. intros k. by destruct (bt_get k m').
  - apply bt_sorted_cons in Hs as [Hs Hlt].
    assert (Hk : bt_get k es = None) by by apply bt_get_lt_None.
    assert (Hmono : forall m1, (forall k', k' <> k -> bt_get k' m1 = bt_get k' m) ->
      (forall k', mergeable (bt_get k' m1) (bt_get k' es)) <->
      (forall k', k' <> k -> mergeable (bt_get k' m) (bt_get k' es))).
    { intros m1 Heq. split; intros H k'; [intros Hne; rewrite <- Heq by done; apply H|].
      destruct (decide (k' = k)) as [->|Hne]; [rewrite Hk; by destruct (bt_get k m1)|].
      rewrite Heq by done. by apply H. }
    assert (Hhead : (forall k', mergeable (bt_get k' m) (if decide (k' = k) then Some s else bt_get k' es)) <->
      mergeable (bt_get k m) (Some s) /\ forall k', k' <> k -> mergeable (bt_get k' m) (bt_get k' es)).
    { split.
      - intros H. split; [by specialize (H k); rewrite decide_True in H|].
        intros k' Hne. specialize (H k'). by rewrite decide_False in H.
      - intros [H1 H2] k'. case_decide; subst; auto. }
    rewrite Hhead. unfold FileGroup.merge_slice at 1. unfold merge_entry at 2. simpl.
    destruct (bt_get k m) as [x|] eqn:Hg; simpl.
    + unfold FileSlice.merge. destruct (FileSlice.eqb x s) eqn:He; simpl.
      * rewrite IH by done. rewrite Hmono; [naive_solver|].
        intros k' Hne. by rewrite bt_get_alter, decide_False.
      * naive_solver.
    + rewrite IH by done. rewrite Hmono; [naive_solver|].
      intros k' Hne. by rewrite bt_get_insert, decide_False.
Qed.

Lemma merge_get a b c :
  wf_group b -> FileGroup.merge a b = Ok c ->
  FileGroup.identity c = FileGroup.identity a /\
  forall k, bt_get k (FileGroup.file_slices c) =
    merged_slice (bt_get k (FileGroup.file_slices a)) (bt_get k (FileGroup.file_slices b)).
Proof.
  intros Hb H. unfold FileGroup.merge in H. destruct (FileGroup.eqb a b); [|done]. simpl in H.
  apply res_bind_Ok in H as (m & Hmm & [= <-]). apply merge_slices_spec in Hmm as [_ ->]; [|apply Hb].
  split; [done|]. intros k. apply merge_entries_get, Hb.
Qed.

(** Merging two listings of a file group succeeds exactly when they are
    listings of the same group and agree on the slices they share, and then
    every slice of either is in the result, with the log files of both. *)
Theorem file_group_merge_spec a b :
  wf_group a -> wf_group b ->
  ((exists c, FileGroup.merge a b = Ok c) <->
    FileGroup.identity a = FileGroup.identity b /\
    forall k, mergeable (bt_get k (FileGroup.file_slices a)) (bt_get k (FileGroup.file_slices b))) /\
  (forall c, FileGroup.merge a b = Ok c ->
    FileGroup.identity c = FileGroup.identity a /\
    forall k, bt_get k (FileGroup.file_slices c) =
      merged_slice (bt_get k (FileGroup.file_slices a)) (bt_get k (FileGroup.file_slices b))).
Proof.
  intros Ha Hb. split; [|intros c; by apply merge_get]. unfold FileGroup.merge.
  destruct (FileGroup.eqb a b) eqn:He; simpl.
  2: { apply bool_decide_eq_false in He. split; [naive_solver|]. by intros [? _]. }
  apply bool_decide_eq_true in He.
  pose proof (fun m => merge_slices_spec (FileGroup.file_slices b) (FileGroup.file_slices a) m
    (wf_sorted _ Hb)) as Hm. split.
  - intros (c & (m & Hmm & _)%res_bind_Ok). by apply Hm in Hmm as [? _].
  - intros [_ Hc]. eexists. by rewrite (proj2 (Hm _) (conj Hc eq_refl)).
Qed.

Lemma file_group_merge_spec_witness :
  exists c, FileGroup.merge sample_group sample_group = Ok c /\
    forall k, bt_get k (FileGroup.file_slices c) =
      merged_slice (bt_get k (FileGroup.file_slices sample_group))
        (bt_get k (FileGroup.file_slices sample_group)).
Proof.
  eexists. split; [vm_ok|].
  apply (file_group_merge_spec sample_group sample_group sample_group_wf sample_group_wf). vm_ok.
Defined.

(** * Sizes *)
Definition known_sizes (s : FileSlice.t) : list Z :=
  size <$> omap LogFile.file_metadata (FileSlice.log_files s).

Definition sum_list_Z (l : list Z) : Z := foldr Z.add 0%Z l.

Definition base_size (s : FileSlice.t) : Z :=
  match FileSlice.base_file s with
  | Some f => match BaseFile.file_metadata f with Some m => size m | None => 0%Z end
  | None => 0%Z
  end.

Lemma sum_list_nonneg l : Forall (fun z => 0 <= z)%Z l -> (0 <= sum_list_Z l)%Z.
Proof. induction 1; simpl; lia. Qed.

Lemma foldl_wrap_sum (ms : list FileMetadata) acc :
  (0 <= acc)%Z -> Forall (fun z => 0 <= z)%Z (size <$> ms) ->
  (acc + sum_list_Z (size <$> ms) < u64_modulus)%Z ->
  foldl (fun acc m => u64_wrap (acc + size m)) acc ms = (acc + sum_list_Z (size <$> ms))%Z.
Proof.
  revert acc. induction ms as [|m ms IH]; intros acc Hacc Hall Hlt; [simpl; lia|].
  rewrite fmap_cons in *. cbn [foldl sum_list_Z foldr] in *. fold (sum_list_Z (size <$> ms)) in *.
  inversion_clear Hall as [|? ? Hm Hms]. pose proof (sum_list_nonneg _ Hms).
  assert (u64_wrap (acc + size m) = (acc + size m)%Z) as -> by
    (unfold u64_wrap; apply Z.mod_small; lia).
  rewrite IH; [lia|lia|done|lia].
Qed.

Lemma foldl_log_size ls acc :
  (forall l, l ∈ ls -> is_Some (LogFile.file_metadata l)) ->
  foldl (fun acc lf => match acc, LogFile.file_metadata lf with
    | Some acc, Some m => Some (u64_wrap (acc + size m)) | _, _ => None end) (Some acc) ls =
  Some (foldl (fun acc m => u64_wrap (acc + size m)) acc (omap LogFile.file_metadata ls)).
Proof.
  revert acc. induction ls as [|l ls IH]; intros acc H; [done|].
  destruct (H l ltac:(by left)) as [m Hm]. cbn [foldl]. cbn. rewrite Hm. cbn.
  apply IH. intros l' Hl'. apply H. by right.
Qed.

Lemma foldl_log_size_None ls :
  foldl (fun acc lf => match acc, LogFile.file_metadata lf with
    | Some acc, Some m => Some (u64_wrap (acc + size m)) | _, _ => None end) None ls = None.
Proof. by induction ls. Qed.

Lemma foldl_log_size_missing ls l acc :
  l ∈ ls -> LogFile.file_metadata l = None ->
  foldl (fun acc lf => match acc, LogFile.file_metadata lf with
    | Some acc, Some m => Some (u64_wrap (acc + size m)) | _, _ => None end) acc ls = None.
Proof.
  intros Hin Hl. revert acc. induction Hin as [|x y ls Hin IH]; intros acc; simpl; [|by apply IH].
  rewrite Hl. destruct acc; apply foldl_log_size_None.
Qed.

(** While the sizes add up to a [u64], [total_size_bytes] is the sum of the
    known sizes, and [log_size_bytes] is the sum of the log files' sizes when
    every one is known and nothing otherwise: an unmeasured log never counts as
    free. *)
Theorem slice_sizes s :
  Forall (fun z => 0 <= z)%Z (base_size s :: known_sizes s) ->
  (base_size s + sum_list_Z (known_sizes s) < u64_modulus)%Z ->
  FileSlice.total_size_bytes s = (base_size s + sum_list_Z (known_sizes s))%Z /\
  ((forall l, l ∈ FileSlice.log_files s -> is_Some (LogFile.file_metadata l)) ->
    FileSlice.log_size_bytes s = Some (sum_list_Z (known_sizes s))) /\
  (forall l, l ∈ FileSlice.log_files s -> LogFile.file_metadata l = None ->
    FileSlice.log_size_bytes s = None).
Proof.
  intros Hall Hlt. inversion_clear Hall as [|? ? Hb Hk]. pose proof (sum_list_nonneg _ Hk).
  unfold known_sizes in *. split; [|split].
  - unfold FileSlice.total_size_bytes. rewrite foldl_wrap_sum by (done || lia).
    cbv zeta. fold (base_size s). unfold u64_wrap. rewrite Z.mod_small; lia.
  - intros Hm. unfold FileSlice.log_size_bytes. rewrite foldl_log_size by done.
    rewrite foldl_wrap_sum by (done || lia). done.
  - intros l Hl Hn. by eapply foldl_log_size_missing.
Qed.

Lemma slice_sizes_witness :
  let l := LogFile.set_file_metadata (sample_log "11" None 1) (Some (file_metadata_new "l" 7)) in
  let s := FileSlice.insert_log_file l (FileSlice.new_log_only "fg1" "11" "p=1") in
  FileSlice.total_size_bytes s = 7%Z /\ FileSlice.log_size_bytes s = Some 7%Z.
Proof.
  intros l s. destruct (slice_sizes s) as (H1 & H2 & _).
  - apply List.Forall_cons; [vm_compute; discriminate|].
    apply List.Forall_cons; [vm_compute; discriminate|apply List.Forall_nil].
  - vm_compute. reflexivity.
  - split; [exact H1|]. apply H2. intros l' Hl. apply list_elem_of_singleton in Hl as ->. by eexists.
Defined.
