(* ===== verification/Metadata.v ===== *)
(** Commit metadata and the records of the metadata table's files partition:
    crates/core/src/metadata/commit.rs, metadata/replace_commit.rs and the data
    model of metadata/table/records.rs.

    Decoding JSON and Avro is serde's and apache_avro's: [CommitMetadataCodec]
    takes the two decoders as parameters.  A [HashMap] is the list of its
    entries in iteration order, which is arbitrary: the theorems hold for every
    list. *)
From Stdlib Require Import Ascii.
From stdpp Require Import base gmap sets list strings sorting numbers.
From S2P Require Import Prelude RustStr.
Local Open Scope res_scope.

Record HoodieWriteStat := mkWriteStat {
  file_id : option string;
  path : option string;
  base_file : option string;
  log_files : option (list string);
  prev_commit : option string;
  num_writes : option Z;
  num_deletes : option Z;
  num_update_writes : option Z;
  num_inserts : option Z;
  total_write_bytes : option Z;
  total_write_errors : option Z;
  stat_partition_path : option string;
  total_log_records : option Z;
  total_log_files : option Z;
  total_updated_records_compacted : option Z;
  total_log_blocks : option Z;
  total_corrupt_log_block : option Z;
  total_rollback_blocks : option Z;
  file_size_in_bytes : option Z;
  log_version : option Z;
  log_offset : option Z;
  prev_base_file : option string;
  min_event_time : option Z;
  max_event_time : option Z;
  total_log_files_compacted : option Z;
  total_log_read_time_ms : option Z;
  total_log_size_compacted : option Z;
  temp_path : option string;
  num_updates : option Z
}.

(** A write stat with every field but these at its [Default]. *)
Definition write_stat (file_id path base_file : option string) (log_files : option (list string))
    (file_size_in_bytes : option Z) : HoodieWriteStat :=
  mkWriteStat file_id path base_file log_files None None None None None None None None None None
    None None None None file_size_in_bytes None None None None None None None None None None.

Record HoodieCommitMetadata := mkCommitMetadata {
  commit_version : option Z;
  operation_type : option string;
  partition_to_write_stats : option (list (string * list HoodieWriteStat));
  partition_to_replace_file_ids : option (list (string * list string));
  compacted : option bool;
  extra_metadata : option (list (string * string))
}.

Record HoodieReplaceCommitMetadata := mkReplaceCommitMetadata {
  rc_version : option Z;
  rc_operation_type : option string;
  rc_partition_to_write_stats : option (list (string * list HoodieWriteStat));
  rc_compacted : option bool;
  rc_extra_metadata : option (list (string * string));
  rc_partition_to_replace_file_ids : option (list (string * list string))
}.

(** [HashMap::get] on the list of a map's entries. *)
Fixpoint hm_get {V} (k : string) (m : list (string * V)) : option V :=
  match m with
  | [] => None
  | (k', v) :: m' => if decide (k = k') then Some v else hm_get k m'
  end.

Definition get_partition_write_stats (c : HoodieCommitMetadata) (partition : string)
    : option (list HoodieWriteStat) :=
  match partition_to_write_stats c with Some m => hm_get partition m | None => None end.

Definition get_partitions_with_writes (c : HoodieCommitMetadata) : list string :=
  (default [] (partition_to_write_stats c)).*1.

Definition get_partition_replace_file_ids (c : HoodieCommitMetadata) (partition : string)
    : option (list string) :=
  match partition_to_replace_file_ids c with Some m => hm_get partition m | None => None end.

Definition get_partitions_with_replacements (c : HoodieCommitMetadata) : list string :=
  (default [] (partition_to_replace_file_ids c)).*1.

(** The entries of a map of lists, flattened. *)
Definition flat_entries {V} (m : option (list (string * list V))) : list (string * V) :=
  e ← default [] m; v ← e.2; [(e.1, v)].

Definition iter_write_stats (c : HoodieCommitMetadata) : list (string * HoodieWriteStat) :=
  flat_entries (partition_to_write_stats c).

Definition iter_replace_file_ids (c : HoodieReplaceCommitMetadata) : list (string * string) :=
  flat_entries (rc_partition_to_replace_file_ids c).

Definition commit_iter_replace_file_ids (c : HoodieCommitMetadata) : list (string * string) :=
  flat_entries (partition_to_replace_file_ids c).

Definition non_empty (o : option string) : option string :=
  match o with Some s => if decide (s = "") then None else Some s | None => None end.

Definition base_file_path (e : string * HoodieWriteStat) : option string :=
  match non_empty (base_file e.2) with
  | Some base_file => if decide (e.1 = "") then Some base_file
                      else Some (e.1 +:+ "/" +:+ base_file)
  | None =>
      match log_files e.2 with
      | Some _ => None
      | None => non_empty (path e.2)
      end
  end.

Definition iter_base_file_paths (c : HoodieCommitMetadata) : list string :=
  omap base_file_path (iter_write_stats c).

(** What the crate takes from serde and apache_avro. *)
Class CommitMetadataCodec := {
  (** [serde_json::Map<String, Value>] *)
  json_map : Type;
  commit_from_json_map : json_map -> option HoodieCommitMetadata;
  replace_from_json_map : json_map -> option HoodieReplaceCommitMetadata;
  (** [map.get("operationType").and_then(Value::as_str)] *)
  json_operation_type : json_map -> option string
}.

Section decoding.
Context `{CommitMetadataCodec}.

(** [HoodieCommitMetadata::from_json_map] *)
Definition from_json_map (m : json_map) : res HoodieCommitMetadata :=
  ok_or (commit_from_json_map m) ECommitMetadata.

(** [HoodieReplaceCommitMetadata::from_json_map] *)
Definition replace_commit_from_json_map (m : json_map) : res HoodieReplaceCommitMetadata :=
  ok_or (replace_from_json_map m) ECommitMetadata.
End decoding.

Lemma elem_of_flat_entries {V} (m : option (list (string * list V))) p v :
  (p, v) ∈ flat_entries m <-> exists l vs, m = Some l /\ (p, vs) ∈ l /\ v ∈ vs.
Proof.
  unfold flat_entries. destruct m as [l|]; simpl.
  - rewrite list_elem_of_bind. split.
    + intros ([p' vs] & Hin & Hl). apply list_elem_of_bind in Hin as (v' & Hin & Hv).
      apply list_elem_of_singleton in Hin. simplify_eq/=. eauto.
    + intros (l' & vs & [= <-] & Hl & Hv). exists (p, vs). split; [|done].
      apply list_elem_of_bind. exists v. split; [by apply list_elem_of_singleton|done].
  - split; [by inversion 1|naive_solver].
Qed.

(** * The files partition of the metadata table *)
Inductive MetadataRecordType :=
  | AllPartitions | Files | ColumnStats | BloomFilters | RecordIndex | PartitionStats
  | SecondaryIndex | Unknown.

Global Instance MetadataRecordType_eq_dec : EqDecision MetadataRecordType.
Proof. solve_decision. Defined.

(** [From<i32> for MetadataRecordType] *)
Definition record_type_from_i32 (value : Z) : MetadataRecordType :=
  match value with
  | 1 => AllPartitions
  | 2 => Files
  | 3 => ColumnStats
  | 4 => BloomFilters
  | 5 => RecordIndex
  | 6 => PartitionStats
  | 7 => SecondaryIndex
  | _ => Unknown
  end%Z.

(** The discriminants of the [repr(i32)] enum. *)
Definition record_type_as_i32 (t : MetadataRecordType) : Z :=
  match t with
  | AllPartitions => 1
  | Files => 2
  | ColumnStats => 3
  | BloomFilters => 4
  | RecordIndex => 5
  | PartitionStats => 6
  | SecondaryIndex => 7
  | Unknown => -1
  end%Z.

Lemma record_type_roundtrip t : record_type_from_i32 (record_type_as_i32 t) = t.
Proof. by destruct t. Qed.

Record HoodieMetadataFileInfo := mkFileInfo {
  info_name : string;
  info_size : Z;
  is_deleted : bool
}.

Record FilesPartitionRecord := mkFilesPartitionRecord {
  key : string;
  record_type : MetadataRecordType;
  files : list (string * HoodieMetadataFileInfo)
}.

Definition is_all_partitions (r : FilesPartitionRecord) : bool :=
  bool_decide (record_type r = AllPartitions).

Definition str_le (a b : string) : Prop := str_leb a b = true.

Global Instance str_le_dec : RelDecision str_le.
Proof. intros a b. unfold str_le. apply _. Defined.

Definition partition_names (r : FilesPartitionRecord) : list string :=
  if is_all_partitions r then merge_sort str_le (files r).*1 else [].

(** [files.values().filter(|f| !f.is_deleted)] *)
Definition active_files (r : FilesPartitionRecord) : list HoodieMetadataFileInfo :=
  filter (fun f => is_deleted f = false) (files r).*2.

Definition active_file_names (r : FilesPartitionRecord) : list string :=
  info_name <$> active_files r.

Definition active_files_with_sizes (r : FilesPartitionRecord) : list (string * Z) :=
  (fun f => (info_name f, Z.max (info_size f) 0)) <$> active_files r.

Definition all_file_names (r : FilesPartitionRecord) : list string := (files r).*1.

Definition has_active_file (r : FilesPartitionRecord) (name : string) : bool :=
  match hm_get name (files r) with Some f => negb (is_deleted f) | None => false end.

(** [files.values().filter(..).map(|info| info.size).sum()] in [i64]. *)
Definition i64_wrap (z : Z) : Z := ((z + 9223372036854775808) mod 18446744073709551616 - 9223372036854775808)%Z.

Definition total_size (r : FilesPartitionRecord) : Z :=
  foldl (fun acc f => i64_wrap (acc + info_size f)) 0%Z (active_files r).

Lemma hm_get_elem {V} k v (m : list (string * V)) :
  NoDup m.*1 -> hm_get k m = Some v <-> (k, v) ∈ m.
Proof.
  induction m as [|[k' v'] m IH]; intros Hn; simpl.
  - split; [done|by inversion 1].
  - apply list.NoDup_cons in Hn as [Hk' Hn]. case_decide; subst.
    + split; [intros [= ->]; by left|]. intros [[= ->]|Hin]%elem_of_cons; [done|].
      destruct Hk'. apply list_elem_of_fmap. by exists (k', v).
    + rewrite IH by done. rewrite elem_of_cons. naive_solver.
Qed.

(** A record of the files partition whose entries are named by their keys, as
    the decoder builds them. *)
Record wf_record (r : FilesPartitionRecord) : Prop := {
  wf_record_keys : NoDup (files r).*1;
  wf_record_names : forall k f, (k, f) ∈ files r -> info_name f = k
}.

(** The three views of a files-partition record agree: a file is listed,
    with a non-negative size, exactly when looking it up says it is active. *)
Theorem active_files_agree r name :
  wf_record r ->
  (has_active_file r name = true <-> name ∈ active_file_names r) /\
  (forall sz, (name, sz) ∈ active_files_with_sizes r -> (0 <= sz)%Z /\ has_active_file r name = true) /\
  (has_active_file r name = true -> exists sz, (name, sz) ∈ active_files_with_sizes r).
Proof.
  intros [Hn Hnames]. unfold has_active_file, active_file_names, active_files_with_sizes.
  assert (Ha : forall f, f ∈ active_files r -> info_name f = name ->
    hm_get name (files r) = Some f /\ is_deleted f = false).
  { intros f [Hd Hin]%list_elem_of_filter <-. split; [|done].
    apply list_elem_of_fmap in Hin as ([k f'] & -> & Hin). simpl.
    rewrite (Hnames _ _ Hin). by apply hm_get_elem. }
  assert (Hb : forall f, hm_get name (files r) = Some f -> is_deleted f = false ->
    f ∈ active_files r /\ info_name f = name).
  { intros f Hf%hm_get_elem Hd; [|done]. split; [|by eapply Hnames].
    apply list_elem_of_filter. split; [done|]. apply list_elem_of_fmap. by exists (name, f). }
  split; [|split].
  - rewrite list_elem_of_fmap. split.
    + destruct (hm_get _ _) as [f|] eqn:Hf; [|done]. intros Hd%negb_true_iff.
      destruct (Hb f eq_refl Hd) as [? ?]. by exists f.
    + intros (f & -> & Hin). destruct (Ha f Hin eq_refl) as [-> ->]. done.
  - intros sz (f & [= -> ->] & Hin)%list_elem_of_fmap. split; [lia|].
    destruct (Ha f Hin eq_refl) as [-> ->]. done.
  - destruct (hm_get _ _) as [f|] eqn:Hf; [|done]. intros Hd%negb_true_iff.
    destruct (Hb f eq_refl Hd) as [? ?]. exists (Z.max (info_size f) 0).
    apply list_elem_of_fmap. exists f. by subst.
Qed.

Definition sample_record : FilesPartitionRecord :=
  mkFilesPartitionRecord "p=1" Files
    [("a_1_10.parquet", mkFileInfo "a_1_10.parquet" 100 false);
     (".a_10.log.1_0", mkFileInfo ".a_10.log.1_0" (-1) false);
     ("b_1_10.parquet", mkFileInfo "b_1_10.parquet" 100 true)].

Lemma sample_record_wf : wf_record sample_record.
Proof.
  split.
  - repeat (apply list.NoDup_cons; split; [rewrite ?elem_of_cons; intros H;
      destruct_or?; try discriminate; by inversion H|]). apply base.NoDup_nil_2.
  - intros k f H. unfold sample_record in H. simpl in H. rewrite !elem_of_cons in H.
    destruct_or?; simplify_eq; try done. by inversion H.
Qed.

Lemma active_files_agree_witness :
  has_active_file sample_record "a_1_10.parquet" = true <->
  "a_1_10.parquet" ∈ active_file_names sample_record.
Proof. apply (active_files_agree sample_record "a_1_10.parquet" sample_record_wf). Defined.

(** A log-only write stat that names its log file only in [path] passes for a
    base file. *)
Example base_file_paths_list_a_log_file :
  iter_base_file_paths (mkCommitMetadata None None
    (Some [("p", [write_stat (Some "f") (Some "p/.f_1.log.1_0-0-0") (Some "") None None])])
    None None None) = ["p/.f_1.log.1_0-0-0"].
Proof. reflexivity. Qed.
