(* ===== verification/GroupBuilder.v ===== *)
(** Building file groups from commit metadata and from the metadata table's
    files partition: crates/core/src/file_group/builder.rs, with
    [BaseFileFormatValue] of config/table.rs.

    A [HashSet<FileGroup>] holds one group per identity: it is a finite map
    from identities to groups.  The [FileStatsEstimator], floating-point
    arithmetic over a Parquet footer, is a parameter. *)
From Stdlib Require Import Ascii.
From stdpp Require Import base gmap sets list strings sorting numbers fin_maps.
From S2P Require Import Prelude RustStr BTree Files Chrono Config Instant FileGroup Metadata.
Local Open Scope res_scope.

(** * Sets of file groups *)
Abbreviation FileGroupSet := (gmap (string * string) FileGroup.t).

(** [HashSet::insert]: a group already present is kept. *)
Definition hs_insert (g : FileGroup.t) (s : FileGroupSet) : FileGroupSet :=
  match s !! FileGroup.identity g with
  | Some _ => s
  | None => <[FileGroup.identity g := g]> s
  end.

Definition hs_contains (s : FileGroupSet) (g : FileGroup.t) : bool :=
  bool_decide (is_Some (s !! FileGroup.identity g)).

Definition hs_extend (s : FileGroupSet) (gs : list FileGroup.t) : FileGroupSet :=
  foldl (fun s g => hs_insert g s) s gs.

(** [self.difference(&other)] *)
Definition hs_difference (s other : FileGroupSet) : FileGroupSet :=
  filter (fun e => other !! e.1 = None) s.

(** One iteration of [FileGroupMerger::merge]: [take], merge, [insert]. *)
Definition merge_one (s : FileGroupSet) (file_group : FileGroup.t) : res FileGroupSet :=
  match s !! FileGroup.identity file_group with
  | Some existing =>
      let? merged := FileGroup.merge existing file_group in
      Ok (hs_insert merged (delete (FileGroup.identity file_group) s))
  | None => Ok (hs_insert file_group s)
  end.

(** [FileGroupMerger for HashSet<FileGroup>] *)
Definition hs_merge (s : FileGroupSet) (file_groups : list FileGroup.t) : res FileGroupSet :=
  res_fold merge_one file_groups s.

(** * Base file formats *)
Inductive BaseFileFormatValue := Parquet | HFile | Lance.

Definition str_eq_ignore_ascii_case (a b : string) : bool :=
  bool_decide (to_ascii_lowercase a = to_ascii_lowercase b).

Definition ends_with_ignore_ascii_case (s suffix : string) : bool :=
  Nat.leb (String.length suffix) (String.length s) &&
  str_eq_ignore_ascii_case (str_drop (String.length s - String.length suffix) s) suffix.

Definition from_extension (path : string) : option BaseFileFormatValue :=
  if ends_with_ignore_ascii_case path ".parquet" then Some Parquet
  else if ends_with_ignore_ascii_case path ".hfile" then Some HFile
  else if ends_with_ignore_ascii_case path ".lance" then Some Lance
  else None.

Definition matches_extension (format : BaseFileFormatValue) (path : string) : bool :=
  ends_with_ignore_ascii_case path
    (match format with Parquet => ".parquet" | HFile => ".hfile" | Lance => ".lance" end).

(** * From commit metadata *)
Record UnattachedLogFile := mkUnattached {
  unattached_partition : string;
  unattached_file_id : string
}.

Record CommitFileGroups := mkCommitFileGroups {
  file_groups : FileGroupSet;
  unattached_log_files : list UnattachedLogFile
}.

Definition stat_path_file_name (stat : HoodieWriteStat) : option string :=
  match path stat with Some p => path_file_name p | None => None end.

Definition log_file_names_in (stat : HoodieWriteStat) : list string :=
  match log_files stat with
  | Some (n :: names) => n :: names
  | _ =>
      match stat_path_file_name stat with
      | Some name => if LogFile.is_log_file_name name then [name] else []
      | None => []
      end
  end.

(** The base file name a write stat carries; [None] for a log-only stat. *)
Definition base_file_name_of (stat : HoodieWriteStat) : res (option string) :=
  match non_empty (base_file stat) with
  | Some name => Ok (Some name)
  | None =>
      let? path := ok_or (path stat) ECommitMetadata in
      let? name := ok_or (path_file_name path) ECommitMetadata in
      Ok (if LogFile.is_log_file_name name then None else Some name)
  end.

(** The files of a partition by file id: base files and log files. *)
Abbreviation files_by_id :=
  (gmap string (list BaseFile.t) * gmap string (list LogFile.t))%type.

Section from_commit.
Context `{CommitMetadataCodec} {V : CompletionTimeView}.
Variable estimator : option (Z -> Z * Z).

Definition estimate (size : Z) : Z * Z :=
  match estimator with Some e => e size | None => (0, 0)%Z end.

(** The file metadata of a base file: only when the stat's size is the base
    file's own. *)
Definition write_stat_metadata (stat : HoodieWriteStat) (base_file_name : string)
    : option FileMetadata :=
  match file_size_in_bytes stat with
  | Some s =>
      if bool_decide (stat_path_file_name stat = Some base_file_name) && (0 <? s)%Z then
        let '(byte_size, num_records) := estimate s in
        Some (mkFileMetadata base_file_name s byte_size num_records)
      else None
  | None => None
  end.

Definition add_named_log_file (g : FileGroup.t) (log_file_name : string) : res FileGroup.t :=
  let? log_file := LogFile.from_str log_file_name in
  FileGroup.add_log_file g (LogFile.set_completion_time log_file).

(** One iteration of the loop over the write stats. *)
Definition commit_file_groups_step (acc : CommitFileGroups) (e : string * HoodieWriteStat)
    : res CommitFileGroups :=
  let '(partition, stat) := e in
  let? fid := ok_or (file_id stat) ECommitMetadata in
  let? base_name := base_file_name_of stat in
  match base_name with
  | None =>
      let? unattached :=
        res_mapM (fun n => let? _ := LogFile.from_str n in Ok (mkUnattached partition fid))
          (log_file_names_in stat) in
      Ok (mkCommitFileGroups (file_groups acc) (unattached_log_files acc ++ unattached))
  | Some base_file_name =>
      let? b := BaseFile.from_str base_file_name in
      let b := BaseFile.set_completion_time b in
      let b := match write_stat_metadata stat base_file_name with
               | Some m => BaseFile.set_file_metadata b (Some m)
               | None => b
               end in
      let? g := FileGroup.add_base_file (FileGroup.new fid partition) b in
      let? g := match log_files stat with
                | Some names => res_fold add_named_log_file names g
                | None => Ok g
                end in
      Ok (mkCommitFileGroups (hs_insert g (file_groups acc)) (unattached_log_files acc))
  end.

Definition file_groups_from_commit_metadata_with_estimator (commit_metadata : json_map)
    : res CommitFileGroups :=
  let? metadata := from_json_map commit_metadata in
  res_fold commit_file_groups_step (iter_write_stats metadata) (mkCommitFileGroups ∅ []).

Definition replaced_file_groups_from_replace_commit (commit_metadata : json_map)
    : res FileGroupSet :=
  let? metadata := replace_commit_from_json_map commit_metadata in
  Ok (foldl (fun s e => hs_insert (FileGroup.new e.2 e.1) s) ∅ (iter_replace_file_ids metadata)).

(** * From the files partition *)
Definition is_base_file_name (configured_base_file_format : option BaseFileFormatValue)
    (file_name : string) : bool :=
  match configured_base_file_format with
  | None => bool_decide (is_Some (from_extension file_name))
  | Some format => matches_extension format file_name
  end.

(** [entry(k).or_default().push(x)] *)
Definition push_entry {A} (k : string) (x : A) (m : gmap string (list A)) : gmap string (list A) :=
  <[k := default [] (m !! k) ++ [x]]> m.

(** One iteration of the loop over a partition's active files. *)
Definition collect_file (configured_base_file_format : option BaseFileFormatValue)
    (acc : files_by_id) (e : string * Z) : res files_by_id :=
  let '(file_name, file_size) := e in
  if starts_with_char "." file_name then
    let? l := map_err EFileGroup (LogFile.from_str file_name) in
    let l := LogFile.set_completion_time l in
    if negb (is_committed (LogFile.timestamp l)) then Ok acc
    else
      let l := if (0 <? file_size)%Z
               then LogFile.set_file_metadata l (Some (file_metadata_new file_name file_size))
               else l in
      Ok (acc.1, push_entry (LogFile.file_id l) l acc.2)
  else if is_base_file_name configured_base_file_format file_name then
    let? b := map_err EFileGroup (BaseFile.from_str file_name) in
    let b := BaseFile.set_completion_time b in
    if negb (is_committed (BaseFile.commit_timestamp b)) then Ok acc
    else
      let b := if (0 <? file_size)%Z
               then let '(byte_size, num_records) := estimate file_size in
                    BaseFile.set_file_metadata b
                      (Some (mkFileMetadata file_name file_size byte_size num_records))
               else b in
      Ok (push_entry (BaseFile.file_id b) b acc.1, acc.2)
  else Ok acc.

(** The file group of one file id. *)
Definition build_group (partition_path : string) (logs : gmap string (list LogFile.t))
    (e : string * list BaseFile.t) : res FileGroup.t :=
  let? fg := FileGroup.add_base_files (FileGroup.new e.1 partition_path) e.2 in
  match logs !! e.1 with
  | Some log_files => FileGroup.add_log_files fg log_files
  | None => Ok fg
  end.

(** One iteration of the loop over the records; the groups of a partition come
    in the iteration order of a [HashMap], here [map_to_list]'s. *)
Definition files_partition_step (configured_base_file_format : option BaseFileFormatValue)
    (acc : gmap string (list FileGroup.t)) (e : string * FilesPartitionRecord)
    : res (gmap string (list FileGroup.t)) :=
  let '(partition_path, record) := e in
  if is_all_partitions record then Ok acc
  else
    let? (bases, logs) :=
      res_fold (collect_file configured_base_file_format) (active_files_with_sizes record) (∅, ∅) in
    let? file_groups := res_mapM (build_group partition_path logs) (map_to_list bases) in
    match file_groups with
    | [] => Ok acc
    | _ => Ok (<[partition_path := file_groups]> acc)
    end.

Definition file_groups_from_files_partition_records
    (records : list (string * FilesPartitionRecord))
    (configured_base_file_format : option BaseFileFormatValue)
    : res (gmap string (list FileGroup.t)) :=
  res_fold (files_partition_step configured_base_file_format) records ∅.
End from_commit.

(** * Groups built from lists of files *)
Lemma add_base_files_slices g bs g' :
  FileGroup.add_base_files g bs = Ok g' ->
  FileGroup.identity g' = FileGroup.identity g /\
  (forall b, b ∈ bs -> BaseFile.file_id b = FileGroup.file_id g /\
    bt_get (BaseFile.commit_timestamp b) (FileGroup.file_slices g') =
      Some (FileSlice.new b (FileGroup.partition_path g))) /\
  (forall k s, bt_get k (FileGroup.file_slices g) = Some s ->
    bt_get k (FileGroup.file_slices g') = Some s) /\
  (forall k s, bt_get k (FileGroup.file_slices g') = Some s ->
    bt_get k (FileGroup.file_slices g) = Some s \/
    exists b, b ∈ bs /\ s = FileSlice.new b (FileGroup.partition_path g)).
Proof.
  revert g. induction bs as [|b bs IH]; intros g H; unfold FileGroup.add_base_files in H; simpl in H.
  - injection H as <-. split_and!; try done; [by inversion 1|by left].
  - apply res_bind_Ok in H as (g1 & Hg1 & H). destruct (IH _ H) as (Hi & Hin & Hold & Hnew).
    unfold FileGroup.add_base_file in Hg1. case_decide as Hid; [done|].
    destruct (bt_get _ (FileGroup.file_slices g)) eqn:Hg; [done|]. injection Hg1 as <-.
    simpl in *. split_and!; [done|..].
    + intros b' [->|Hb]%elem_of_cons; [|by apply Hin]. split; [by destruct (decide (BaseFile.file_id b = FileGroup.file_id g))|].
      apply Hold. by rewrite bt_get_insert, decide_True.
    + intros k s Hk. apply Hold. rewrite bt_get_insert. case_decide; [congruence|done].
    + intros k s [Hk|(b' & Hb & ->)]%Hnew.
      * rewrite bt_get_insert in Hk. case_decide; [|by left]. right. exists b.
        split; [by left|congruence].
      * right. exists b'. split; [by right|done].
Qed.

Lemma add_log_file_slices g l g' :
  wf_group g -> FileGroup.add_log_file g l = Ok g' ->
  (forall k s, bt_get k (FileGroup.file_slices g) = Some s ->
    exists s', bt_get k (FileGroup.file_slices g') = Some s' /\
      FileSlice.base_file s' = FileSlice.base_file s) /\
  (forall k s', bt_get k (FileGroup.file_slices g') = Some s' ->
    (forall b, FileSlice.base_file s' = Some b ->
      exists s, bt_get k (FileGroup.file_slices g) = Some s /\ FileSlice.base_file s = Some b) /\
    (forall l', l' ∈ FileSlice.log_files s' -> l' = l \/
      exists s, bt_get k (FileGroup.file_slices g) = Some s /\ l' ∈ FileSlice.log_files s)).
Proof.
  intros Hw H. destruct (decide (LogFile.file_id l = FileGroup.file_id g)) as [Hid|Hid].
  2: { unfold FileGroup.add_log_file in H. by rewrite decide_True in H. }
  rewrite add_log_file_eq in H by done. injection H as <-. simpl.
  unfold with_placement_slice. set (k0 := placement_key g l).
  destruct (bt_get k0 (FileGroup.file_slices g)) as [s0|] eqn:Hg; simpl; split; intros k s.
  - intros Hk. rewrite bt_get_alter. case_decide; [|by eauto]. rewrite Hk. eexists. by split.
  - rewrite bt_get_alter. case_decide; [subst k; rewrite Hg; intros [= <-]|naive_solver].
    split; [by eauto|]. intros l' [->|?]%bs_elem_insert; eauto.
  - intros Hk. rewrite bt_get_alter, bt_get_insert. case_decide; [congruence|]. naive_solver.
  - rewrite bt_get_alter, bt_get_insert. case_decide; [intros [= <-]|naive_solver].
    split; [done|]. intros l' [->|Hl]%bs_elem_insert; [by left|by inversion Hl].
Qed.

Lemma add_log_files_slices g ls g' :
  wf_group g -> FileGroup.add_log_files g ls = Ok g' ->
  (forall k s, bt_get k (FileGroup.file_slices g) = Some s ->
    exists s', bt_get k (FileGroup.file_slices g') = Some s' /\
      FileSlice.base_file s' = FileSlice.base_file s) /\
  (forall k s', bt_get k (FileGroup.file_slices g') = Some s' ->
    (forall b, FileSlice.base_file s' = Some b ->
      exists s, bt_get k (FileGroup.file_slices g) = Some s /\ FileSlice.base_file s = Some b) /\
    (forall l', l' ∈ FileSlice.log_files s' -> l' ∈ ls \/
      exists s, bt_get k (FileGroup.file_slices g) = Some s /\ l' ∈ FileSlice.log_files s)).
Proof.
  intros Hw H. unfold FileGroup.add_log_files in H.
  set (P := fun g1 => wf_group g1 /\
    (forall k s, bt_get k (FileGroup.file_slices g) = Some s ->
      exists s', bt_get k (FileGroup.file_slices g1) = Some s' /\
        FileSlice.base_file s' = FileSlice.base_file s) /\
    (forall k s', bt_get k (FileGroup.file_slices g1) = Some s' ->
      (forall b, FileSlice.base_file s' = Some b ->
        exists s, bt_get k (FileGroup.file_slices g) = Some s /\ FileSlice.base_file s = Some b) /\
      (forall l', l' ∈ FileSlice.log_files s' -> l' ∈ ls \/
        exists s, bt_get k (FileGroup.file_slices g) = Some s /\ l' ∈ FileSlice.log_files s))).
  enough (P g') as (_ & ? & ?) by done.
  revert H. apply (res_fold_inv P); [|split; [done|split; naive_solver]].
  intros g1 l g2 Hl (Hw1 & Ha & Hb) H. rewrite (merge_sort_Permutation LogFile.le) in Hl.
  destruct (add_log_file_slices _ _ _ Hw1 H) as [Ha2 Hb2].
  split; [by eapply wf_add_log_file|split].
  - intros k s (s1 & Hs1 & <-)%Ha. by apply Ha2.
  - intros k s2 [Hbase Hlogs]%Hb2. split.
    + intros b (s1 & Hs1 & Hbs)%Hbase. by eapply Hb in Hbs.
    + intros l' [->|(s1 & Hs1 & Hin)]%Hlogs; [by left|]. by eapply Hb in Hin.
Qed.

(** * Sets of groups *)
Definition set_wf (s : FileGroupSet) : Prop :=
  forall id g, s !! id = Some g -> FileGroup.identity g = id /\ wf_group g.

Lemma set_wf_empty : set_wf ∅.
Proof. intros id g H. by rewrite lookup_empty in H. Qed.

Lemma set_wf_insert g s : set_wf s -> wf_group g -> set_wf (hs_insert g s).
Proof.
  intros Hs Hg id g'. unfold hs_insert. destruct (s !! FileGroup.identity g); [by apply Hs|].
  rewrite lookup_insert. case_decide; [intros [= <-]; by subst|apply Hs].
Qed.

Lemma hs_insert_lookup g s id :
  hs_insert g s !! id =
    match s !! id with
    | Some g' => Some g'
    | None => if decide (id = FileGroup.identity g) then Some g else None
    end.
Proof.
  unfold hs_insert. destruct (s !! FileGroup.identity g) eqn:Hg.
  - destruct (s !! id) eqn:Hid; [done|]. case_decide; congruence.
  - rewrite lookup_insert. case_decide as Hd; subst.
    + rewrite Hg. by rewrite decide_True.
    + rewrite decide_False by congruence. by destruct (s !! id).
Qed.

Lemma hs_insert_keys g s id :
  is_Some (hs_insert g s !! id) <-> is_Some (s !! id) \/ id = FileGroup.identity g.
Proof.
  rewrite hs_insert_lookup. destruct (s !! id); [naive_solver|].
  case_decide; split; naive_solver.
Qed.

(** The slices of a group of the set. *)
Definition has_slice (s : FileGroupSet) (id : string * string) (k : string) : Prop :=
  exists g, s !! id = Some g /\ is_Some (bt_get k (FileGroup.file_slices g)).

Lemma merge_one_spec s g s' :
  set_wf s -> wf_group g -> merge_one s g = Ok s' ->
  set_wf s' /\
  (forall id, is_Some (s' !! id) <-> is_Some (s !! id) \/ id = FileGroup.identity g) /\
  (forall id k, has_slice s' id k <->
    has_slice s id k \/
    id = FileGroup.identity g /\ is_Some (bt_get k (FileGroup.file_slices g))).
Proof.
  intros Hs Hg H. unfold merge_one in H. destruct (s !! FileGroup.identity g) as [e|] eqn:He.
  - apply res_bind_Ok in H as (m & Hm & [= <-]). destruct (Hs _ _ He) as [Hid Hwe].
    destruct (merge_get e g m Hg Hm) as [Hmid Hget]. rewrite Hid in Hmid.
    assert (Hl : forall id, hs_insert m (delete (FileGroup.identity g) s) !! id =
      if decide (id = FileGroup.identity g) then Some m else s !! id).
    { intros id. rewrite hs_insert_lookup, Hmid. case_decide as Hd.
      - subst. by rewrite lookup_delete_eq.
      - rewrite lookup_delete_ne by done. by destruct (s !! id). }
    split; [|split].
    + intros id g'. rewrite Hl. case_decide; [|apply Hs]. intros [= <-]. subst.
      split; [done|]. by eapply (wf_merge e g).
    + intros id. rewrite Hl. case_decide; [|naive_solver]. subst. rewrite He. naive_solver.
    + intros id k. unfold has_slice. setoid_rewrite Hl. case_decide as Hd; [subst|naive_solver].
      rewrite He. split.
      * intros (? & [= <-] & [x Hx]). rewrite Hget in Hx.
        destruct (bt_get k (FileGroup.file_slices e)) eqn:E1; [left; by eauto|right].
        split; [done|]. simpl in Hx. by eauto.
      * intros HH. exists m. split; [done|]. rewrite Hget.
        destruct HH as [(? & [= <-] & [x ->])|[_ [x ->]]];
          [|destruct (bt_get k (FileGroup.file_slices e))];
          simpl; [destruct (bt_get k (FileGroup.file_slices g))|..]; by eauto.
  - injection H as <-. split; [by apply set_wf_insert|]. split; [intros id; apply hs_insert_keys|].
    intros id k. unfold has_slice. setoid_rewrite hs_insert_lookup. split.
    + intros (g' & Hg' & Hk). destruct (s !! id) eqn:E; [simplify_eq; by eauto|].
      case_decide; simplify_eq. by right.
    + intros [(g' & Hg' & Hk)|[-> Hk]]; [rewrite Hg'; by eauto|].
      rewrite He, decide_True by done. by eauto.
Qed.

(** Merging file groups into a set keeps one well-formed group per
    identity, adds exactly the identities of the merged groups, and a group's
    slices afterwards are exactly those it had and those merged into it. *)
Lemma hs_merge_spec s gs s' :
  set_wf s -> Forall wf_group gs -> hs_merge s gs = Ok s' ->
  set_wf s' /\
  (forall id, is_Some (s' !! id) <->
    is_Some (s !! id) \/ exists g, g ∈ gs /\ id = FileGroup.identity g) /\
  (forall id k, has_slice s' id k <-> has_slice s id k \/
    exists g, g ∈ gs /\ id = FileGroup.identity g /\ is_Some (bt_get k (FileGroup.file_slices g))).
Proof.
  intros Hs Hgs. unfold hs_merge. revert s Hs. induction Hgs as [|g gs Hg _ IH]; intros s Hs H.
  - simpl in H. simplify_eq. split; [done|]. split; intros; split; try (by left);
      intros [?|(g & Hin & _)]; try done; by inversion Hin.
  - cbn [res_fold] in H. apply res_bind_Ok in H as (s1 & H1 & H).
    destruct (merge_one_spec _ _ _ Hs Hg H1) as (Hs1 & Hk1 & Hsl1).
    destruct (IH _ Hs1 H) as (Hs' & Hk & Hsl). split; [done|]. split.
    + intros id. rewrite Hk, Hk1. setoid_rewrite elem_of_cons. naive_solver.
    + intros id k. rewrite Hsl, Hsl1. setoid_rewrite elem_of_cons. naive_solver.
Qed.

(** * What the files partition lists *)
Section listing.
Context {V : CompletionTimeView}.
Variable estimator : option (Z -> Z * Z).
Variable fmt : option BaseFileFormatValue.

Definition same_base_name (b b0 : BaseFile.t) : Prop :=
  BaseFile.file_id b = BaseFile.file_id b0 /\ BaseFile.write_token b = BaseFile.write_token b0 /\
  BaseFile.commit_timestamp b = BaseFile.commit_timestamp b0 /\
  BaseFile.extension b = BaseFile.extension b0 /\
  BaseFile.completion_timestamp b = get_completion_time (BaseFile.commit_timestamp b0).

Definition same_log_name (l l0 : LogFile.t) : Prop :=
  LogFile.file_id l = LogFile.file_id l0 /\ LogFile.timestamp l = LogFile.timestamp l0 /\
  LogFile.extension l = LogFile.extension l0 /\ LogFile.version l = LogFile.version l0 /\
  LogFile.write_token l = LogFile.write_token l0 /\
  LogFile.completion_timestamp l = get_completion_time (LogFile.timestamp l0).

(** [f] is a file of the record that names the base file [b0], by a committed
    write. *)
Definition committed_base (files : list (string * Z)) (b0 : BaseFile.t) : Prop :=
  exists f sz, (f, sz) ∈ files /\ starts_with_char "." f = false /\
    is_base_file_name fmt f = true /\ BaseFile.from_str f = Ok b0 /\
    is_committed (BaseFile.commit_timestamp b0) = true.

Definition committed_log (files : list (string * Z)) (l0 : LogFile.t) : Prop :=
  exists f sz, (f, sz) ∈ files /\ starts_with_char "." f = true /\ LogFile.from_str f = Ok l0 /\
    is_committed (LogFile.timestamp l0) = true.

(** The files collected so far are the committed ones of the prefix read. *)
Record collected (files : list (string * Z)) (acc : files_by_id) : Prop := {
  collected_base : forall id bs b, acc.1 !! id = Some bs -> b ∈ bs ->
    BaseFile.file_id b = id /\ exists b0, same_base_name b b0 /\ committed_base files b0;
  collected_log : forall id ls l, acc.2 !! id = Some ls -> l ∈ ls ->
    exists l0, same_log_name l l0 /\ committed_log files l0;
  collected_all : forall b0, committed_base files b0 ->
    exists bs b, acc.1 !! BaseFile.file_id b0 = Some bs /\ b ∈ bs /\ same_base_name b b0
}.

Lemma committed_base_snoc files e b0 :
  committed_base (files ++ [e]) b0 <-> committed_base files b0 \/ committed_base [e] b0.
Proof.
  unfold committed_base. setoid_rewrite elem_of_app. naive_solver.
Qed.

Lemma committed_log_snoc files e l0 :
  committed_log files l0 \/ committed_log [e] l0 -> committed_log (files ++ [e]) l0.
Proof. unfold committed_log. setoid_rewrite elem_of_app. naive_solver. Qed.

Lemma push_entry_lookup {A} k (x : A) m k' xs y :
  push_entry k x m !! k' = Some xs -> y ∈ xs ->
  (k' = k /\ y = x) \/ (exists ys, m !! k' = Some ys /\ y ∈ ys).
Proof.
  unfold push_entry. rewrite lookup_insert. case_decide as Hk; [|by eauto].
  subst. intros [= <-] [Hy|Hy%list_elem_of_singleton]%elem_of_app; [|by left].
  destruct (m !! k') as [ys|]; [right; by eauto|by inversion Hy].
Qed.

Lemma push_entry_old {A} k (x : A) m k' ys :
  m !! k' = Some ys -> exists xs, push_entry k x m !! k' = Some xs /\ forall y, y ∈ ys -> y ∈ xs.
Proof.
  intros Hm. unfold push_entry. rewrite lookup_insert. case_decide as Hk; [|by eauto].
  subst. rewrite Hm. eexists. split; [done|]. intros y Hy. apply elem_of_app. by left.
Qed.

Lemma push_entry_new {A} k (x : A) m :
  exists xs, push_entry k x m !! k = Some xs /\ x ∈ xs.
Proof.
  unfold push_entry. rewrite lookup_insert_eq. eexists. split; [done|].
  apply elem_of_app. right. by left.
Qed.

Lemma collected_weaken files e acc :
  collected files acc -> (forall b0, ~ committed_base [e] b0) -> collected (files ++ [e]) acc.
Proof.
  intros [Hb Hl Hall] Hno. split.
  - intros id bs b Hbs Hin. destruct (Hb _ _ _ Hbs Hin) as (? & b0 & ? & ?).
    split; [done|]. exists b0. split; [done|]. apply committed_base_snoc. by left.
  - intros id ls l Hls Hin. destruct (Hl _ _ _ Hls Hin) as (l0 & ? & ?).
    exists l0. split; [done|]. apply committed_log_snoc. by left.
  - intros b0 [H|H]%committed_base_snoc; [by apply Hall|]. by destruct (Hno b0).
Qed.

Lemma collected_push_log files e acc l l0 :
  collected files acc -> same_log_name l l0 -> committed_log [e] l0 ->
  (forall b0, ~ committed_base [e] b0) ->
  collected (files ++ [e]) (acc.1, push_entry (LogFile.file_id l) l acc.2).
Proof.
  intros Hc Hsame Hl0 Hno. destruct (collected_weaken files e acc Hc Hno) as [Hb Hl Hall].
  split; simpl; [done| |done].
  intros id ls l' Hls [[-> ->]|(ys & Hys & Hin)]%(push_entry_lookup _ _ _ _ _ _ Hls).
  - exists l0. split; [done|]. apply committed_log_snoc. by right.
  - by eapply Hl.
Qed.

Lemma collected_push_base files e acc b b0 :
  collected files acc -> same_base_name b b0 -> committed_base [e] b0 ->
  (forall b1, committed_base [e] b1 -> b1 = b0) ->
  collected (files ++ [e]) (push_entry (BaseFile.file_id b) b acc.1, acc.2).
Proof.
  intros [Hb Hl Hall] Hsame Hb0 Huniq. split; simpl.
  - intros id bs b' Hbs [[-> ->]|(ys & Hys & Hin)]%(push_entry_lookup _ _ _ _ _ _ Hbs).
    + split; [done|]. exists b0. split; [done|]. apply committed_base_snoc. by right.
    + destruct (Hb _ _ _ Hys Hin) as (? & b1 & ? & ?). split; [done|]. exists b1.
      split; [done|]. apply committed_base_snoc. by left.
  - intros id ls l Hls Hin. destruct (Hl _ _ _ Hls Hin) as (l0 & ? & ?).
    exists l0. split; [done|]. apply committed_log_snoc. by left.
  - intros b1 [H|H]%committed_base_snoc.
    + destruct (Hall _ H) as (ys & b' & Hys & Hin & Hs).
      destruct (push_entry_old (BaseFile.file_id b) b _ _ _ Hys) as (xs & Hxs & Hsub).
      exists xs, b'. split_and!; auto.
    + rewrite (Huniq _ H). destruct (push_entry_new (BaseFile.file_id b) b acc.1) as (xs & Hxs & Hin).
      exists xs, b. split_and!; [|done|done]. by destruct Hsame as [<- _].
Qed.

Lemma collect_file_collected files acc e acc' :
  collected files acc -> collect_file estimator fmt acc e = Ok acc' ->
  collected (files ++ [e]) acc'.
Proof.
  intros Hc H. destruct e as [f sz]. unfold collect_file in H.
  destruct (starts_with_char "." f) eqn:Hdot.
  - assert (Hno : forall b0, ~ committed_base [(f, sz)] b0).
    { intros b0 (f' & sz' & Hin & Hd & _). apply list_elem_of_singleton in Hin. congruence. }
    apply res_bind_Ok in H as (l0 & Hl0%map_err_Ok & H).
    destruct (is_committed _) eqn:Hcm; simpl in H, Hcm; simplify_eq;
      [|by apply collected_weaken].
    assert (Hcl : committed_log [(f, sz)] l0).
    { exists f, sz. split_and!; try done. by apply list_elem_of_singleton. }
    destruct (0 <? sz)%Z; by apply (collected_push_log _ _ _ _ l0).
  - destruct (is_base_file_name fmt f) eqn:Hfmt; simplify_eq.
    2: { apply collected_weaken; [done|]. intros b0 (f' & sz' & Hin & _ & Hf & _).
         apply list_elem_of_singleton in Hin. congruence. }
    apply res_bind_Ok in H as (b0 & Hb0%map_err_Ok & H).
    destruct (is_committed _) eqn:Hcm; simpl in H, Hcm; simplify_eq.
    2: { apply collected_weaken; [done|]. intros b1 (f' & sz' & Hin & _ & _ & Hp & Hc1).
         apply list_elem_of_singleton in Hin. simplify_eq. congruence. }
    assert (Hcb : committed_base [(f, sz)] b0).
    { exists f, sz. split_and!; try done. by apply list_elem_of_singleton. }
    assert (Hu : forall b1, committed_base [(f, sz)] b1 -> b1 = b0).
    { intros b1 (f' & sz' & Hin & _ & _ & Hp & _). apply list_elem_of_singleton in Hin.
      simplify_eq. congruence. }
    destruct (0 <? sz)%Z; [destruct (estimate _ _)|]; by apply (collected_push_base _ _ _ _ b0).
Qed.

Lemma collect_files_collected files acc :
  res_fold (collect_file estimator fmt) files (∅, ∅) = Ok acc -> collected files acc.
Proof.
  intros H.
  enough (forall prefix acc0, collected prefix acc0 ->
    res_fold (collect_file estimator fmt) files acc0 = Ok acc -> collected (prefix ++ files) acc) as Hgen.
  { apply (Hgen [] (∅, ∅)); [|done]. split; simpl.
    1,2: intros id xs x Hx; by rewrite lookup_empty in Hx.
    intros b0 (f & sz & Hin & _). by inversion Hin. }
  clear H. induction files as [|e files IH]; intros dn acc0 Hc H; simpl in H.
  - simplify_eq. by rewrite app_nil_r.
  - apply res_bind_Ok in H as (acc1 & H1 & H). rewrite cons_middle, app_assoc.
    eapply IH; [|done]. by eapply collect_file_collected.
Qed.

Lemma add_log_files_identity g ls g' :
  FileGroup.add_log_files g ls = Ok g' -> FileGroup.identity g' = FileGroup.identity g.
Proof.
  apply (res_fold_inv (fun g1 => FileGroup.identity g1 = FileGroup.identity g)); [|done].
  intros g1 l g2 _ <-. apply add_log_file_identity.
Qed.

Lemma build_group_spec p logs id bs g :
  build_group p logs (id, bs) = Ok g ->
  FileGroup.identity g = (id, p) /\ wf_group g /\
  (forall b, b ∈ bs -> exists s,
    bt_get (BaseFile.commit_timestamp b) (FileGroup.file_slices g) = Some s /\
    FileSlice.base_file s = Some b) /\
  (forall k s, bt_get k (FileGroup.file_slices g) = Some s ->
    (forall b, FileSlice.base_file s = Some b -> b ∈ bs) /\
    (forall l, l ∈ FileSlice.log_files s -> exists ls, logs !! id = Some ls /\ l ∈ ls)).
Proof.
  unfold build_group. simpl. intros (g0 & Hg0 & H)%res_bind_Ok.
  pose proof (wf_add_base_files _ _ _ (wf_new id p) Hg0) as Hw0.
  destruct (add_base_files_slices _ _ _ Hg0) as (Hi & Hin & _ & Hnew).
  assert (Hslices : forall k s, bt_get k (FileGroup.file_slices g0) = Some s ->
    exists b, b ∈ bs /\ s = FileSlice.new b p) by (intros k s [?|?]%Hnew; done).
  destruct (logs !! id) as [ls|] eqn:Hls.
  - destruct (add_log_files_slices _ _ _ Hw0 H) as [Hold Hsl]. split_and!.
    + by rewrite (add_log_files_identity _ _ _ H).
    + by eapply wf_add_log_files.
    + intros b Hb. destruct (Hin b Hb) as [_ Hs]. by apply Hold in Hs as (s' & ? & ?); eauto.
    + intros k s [Hb Hl]%Hsl. split.
      * intros b (s0 & (b' & ? & ->)%Hslices & [= <-])%Hb. done.
      * intros l [Hl'|(s0 & (b' & ? & ->)%Hslices & Hin')]%Hl; [by eauto|by inversion Hin'].
  - injection H as <-. split_and!; [done|done|..].
    + intros b Hb. destruct (Hin b Hb) as [_ Hs]. eauto.
    + intros k s (b' & ? & ->)%Hslices. split; [by intros b [= <-]|]. intros l Hl. by inversion Hl.
Qed.

(** What the listing of a partition promises. *)
Record partition_listing (p : string) (r : FilesPartitionRecord) (gs : list FileGroup.t) : Prop := {
  listing_sound : forall g, g ∈ gs -> wf_group g /\ FileGroup.partition_path g = p /\
    forall k s, bt_get k (FileGroup.file_slices g) = Some s ->
      (forall b, FileSlice.base_file s = Some b -> exists b0,
        same_base_name b b0 /\ committed_base (active_files_with_sizes r) b0) /\
      (forall l, l ∈ FileSlice.log_files s -> exists l0,
        same_log_name l l0 /\ committed_log (active_files_with_sizes r) l0);
  listing_complete : forall b0, committed_base (active_files_with_sizes r) b0 ->
    exists g s b, g ∈ gs /\ FileGroup.file_id g = BaseFile.file_id b0 /\
      bt_get (BaseFile.commit_timestamp b0) (FileGroup.file_slices g) = Some s /\
      FileSlice.base_file s = Some b /\ same_base_name b b0
}.

Lemma partition_groups_listing p r bases logs gs :
  collected (active_files_with_sizes r) (bases, logs) ->
  res_mapM (build_group p logs) (map_to_list bases) = Ok gs ->
  partition_listing p r gs.
Proof.
  intros [Hb Hl Hall] Hm. apply res_mapM_Ok in Hm. split.
  - intros g Hg. apply list_elem_of_lookup in Hg as [i Hi].
    destruct (Forall2_lookup_r _ _ _ _ _ Hm Hi) as ([id bs] & Hib & Hbuild).
    apply list_elem_of_lookup_2, elem_of_map_to_list in Hib.
    destruct (build_group_spec _ _ _ _ _ Hbuild) as (Hid & Hw & _ & Hs).
    split; [done|]. split; [by injection Hid|]. intros k s [Hsb Hsl]%Hs. split.
    + intros b Hbb%Hsb. by destruct (Hb _ _ _ Hib Hbb) as [_ ?].
    + intros l (ls & Hls & Hin)%Hsl. by apply (Hl _ _ _ Hls Hin).
  - intros b0 (bs & b & Hbs & Hin & Hsame)%Hall. simpl in Hbs.
    apply elem_of_map_to_list, list_elem_of_lookup in Hbs as [i Hi].
    destruct (Forall2_lookup_l _ _ _ _ _ Hm Hi) as (g & Hg & Hbuild).
    destruct (build_group_spec _ _ _ _ _ Hbuild) as (Hid & _ & Hbase & _).
    destruct (Hbase b Hin) as (s & Hs & Hsb). exists g, s, b.
    assert (BaseFile.commit_timestamp b = BaseFile.commit_timestamp b0) as <- by apply Hsame.
    split_and!; try done; [by eapply list_elem_of_lookup_2|by injection Hid].
Qed.

Record listing (records : list (string * FilesPartitionRecord))
    (m : gmap string (list FileGroup.t)) : Prop := {
  listed_sound : forall p gs, m !! p = Some gs -> exists r, (p, r) ∈ records /\
    is_all_partitions r = false /\ partition_listing p r gs;
  listed_complete : forall p r b0, (p, r) ∈ records -> is_all_partitions r = false ->
    committed_base (active_files_with_sizes r) b0 ->
    exists gs, m !! p = Some gs /\ partition_listing p r gs
}.

Lemma listing_skip prefix m p r :
  listing prefix m -> is_all_partitions r = true -> listing (prefix ++ [(p, r)]) m.
Proof.
  intros [Hs Hc] Hr. split.
  - intros p' gs (r' & ? & ?)%Hs. exists r'. split; [|done]. apply elem_of_app. by left.
  - intros p' r' b0 [Hin|[= -> ->]%list_elem_of_singleton]%elem_of_app; [by eapply Hc|congruence].
Qed.

Lemma listing_add prefix m p r gs :
  listing prefix m -> m !! p = None -> is_all_partitions r = false -> partition_listing p r gs ->
  listing (prefix ++ [(p, r)]) (match gs with [] => m | _ => <[p := gs]> m end).
Proof.
  intros [Hs Hc] Hp Hr Hlist.
  assert (Hne : forall p', p' <> p -> (match gs with [] => m | _ => <[p := gs]> m end) !! p' = m !! p').
  { intros p' Hp'. destruct gs; [done|]. by rewrite lookup_insert_ne. }
  assert (Heq : forall gs', (match gs with [] => m | _ => <[p := gs]> m end) !! p = Some gs' -> gs' = gs).
  { intros gs'. destruct gs; [congruence|]. rewrite lookup_insert_eq. congruence. }
  split.
  - intros p' gs' Hgs'. destruct (decide (p' = p)) as [->|Hp'].
    + apply Heq in Hgs' as ->. exists r. split; [|done]. apply elem_of_app. right. by left.
    + rewrite Hne in Hgs' by done. apply Hs in Hgs' as (r' & ? & ?). exists r'.
      split; [|done]. apply elem_of_app. by left.
  - intros p' r' b0 [Hin|[= -> ->]%list_elem_of_singleton]%elem_of_app Hr' Hb0.
    + destruct (Hc _ _ _ Hin Hr' Hb0) as (gs' & Hgs' & ?). exists gs'. split; [|done].
      rewrite Hne; [done|]. congruence.
    + exists gs. split; [|done]. destruct (listing_complete _ _ _ Hlist b0 Hb0) as (g & ? & ? & Hg & _).
      destruct gs; [by inversion Hg|]. by rewrite lookup_insert_eq.
Qed.

Lemma files_partition_step_listing prefix m0 p r m1 :
  listing prefix m0 -> m0 !! p = None -> files_partition_step estimator fmt m0 (p, r) = Ok m1 ->
  listing (prefix ++ [(p, r)]) m1 /\ forall p', p' <> p -> m1 !! p' = m0 !! p'.
Proof.
  intros Hl Hp H. unfold files_partition_step in H. destruct (is_all_partitions r) eqn:Hr.
  - injection H as <-. split; [by apply listing_skip|done].
  - apply res_bind_Ok in H as ([bases logs] & Hcol%collect_files_collected & H).
    apply res_bind_Ok in H as (gs & Hgs & H).
    pose proof (partition_groups_listing _ _ _ _ _ Hcol Hgs) as Hlist.
    assert (m1 = match gs with [] => m0 | _ => <[p := gs]> m0 end) as -> by (destruct gs; congruence).
    split; [by apply listing_add|]. intros p' Hp'. destruct gs; [done|]. by rewrite lookup_insert_ne.
Qed.

(** The listing of a table from its metadata table is exactly what readers
    may see: every base and log file in it is an active file of its partition's
    record whose writing commit is committed, placed in a well-formed group of
    that partition, and every active base file of a committed write is in the
    slice of its commit. *)
Theorem files_partition_listing_exact records m :
  NoDup records.*1 ->
  file_groups_from_files_partition_records estimator records fmt = Ok m -> listing records m.
Proof.
  intros Hnd H.
  enough (forall prefix m0, (forall p, p ∈ records.*1 -> m0 !! p = None) -> listing prefix m0 ->
    res_fold (files_partition_step estimator fmt) records m0 = Ok m ->
    listing (prefix ++ records) m) as Hgen.
  { apply (Hgen [] ∅); [by intros; apply lookup_empty| |exact H].
    split; [intros p gs Hp; by rewrite lookup_empty in Hp|]. intros p r b0 Hp. by inversion Hp. }
  clear H. revert Hnd. induction records as [|[p r] records IH]; intros Hnd prefix m0 Hfresh Hl H.
  { simpl in H. simplify_eq. by rewrite app_nil_r. }
  rewrite fmap_cons in Hnd. apply list.NoDup_cons in Hnd as [Hp Hnd]. cbn [res_fold] in H.
  apply res_bind_Ok in H as (m1 & Hm1 & H). rewrite cons_middle, app_assoc.
  destruct (files_partition_step_listing _ _ _ _ _ Hl (Hfresh p ltac:(by left)) Hm1) as [Hl1 Hne].
  apply (IH Hnd _ m1); [|done|done].
  intros p' Hp'. rewrite Hne; [apply Hfresh; by right|]. by intros ->.
Qed.
End listing.

(** A view in which every commit but "30" is committed. *)
Definition sample_view : CompletionTimeView := {|
  get_completion_time := fun _ => None;
  is_committed := fun ts => negb (bool_decide (ts = "30"))
|}.

Definition sample_records : list (string * FilesPartitionRecord) :=
  [("p=1", mkFilesPartitionRecord "p=1" Files
      [("a_1_10.parquet", mkFileInfo "a_1_10.parquet" 100 false);
       (".a_10.log.1_0", mkFileInfo ".a_10.log.1_0" 7 false);
       ("a_1_30.parquet", mkFileInfo "a_1_30.parquet" 100 false);
       ("b_1_10.parquet", mkFileInfo "b_1_10.parquet" 100 true)])].

Lemma files_partition_listing_exact_witness :
  exists m, file_groups_from_files_partition_records (V := sample_view) None sample_records
      (Some Parquet) = Ok m /\
    listing (V := sample_view) (Some Parquet) sample_records m /\
    (length <$> m !! "p=1") = Some 1.
Proof.
  eexists. split; [vm_ok|]. split; [|vm_eq].
  apply (files_partition_listing_exact (V := sample_view) None); [|vm_ok].
  apply list.NoDup_cons. split; [by inversion 1|apply base.NoDup_nil_2].
Defined.

(** * What a commit's metadata contributes *)
Section contribution.
Context `{CommitMetadataCodec} {V : CompletionTimeView}.
Variable estimator : option (Z -> Z * Z).

(** The write stats of [stats] that name a base file of group [id]. *)
Definition writes_base (stats : list (string * HoodieWriteStat)) (id : string * string) : Prop :=
  exists stat n, (id.2, stat) ∈ stats /\ file_id stat = Some id.1 /\
    base_file_name_of stat = Ok (Some n).

(** The log files of log-only write stats of group [id]. *)
Definition appends_log (stats : list (string * HoodieWriteStat)) (id : string * string) : Prop :=
  exists stat, (id.2, stat) ∈ stats /\ file_id stat = Some id.1 /\
    base_file_name_of stat = Ok None /\ log_file_names_in stat <> [].

Record contribution (stats : list (string * HoodieWriteStat)) (c : CommitFileGroups) : Prop := {
  contribution_wf : set_wf (file_groups c);
  contribution_base : forall id, is_Some (file_groups c !! id) <-> writes_base stats id;
  contribution_logs : forall id,
    mkUnattached id.2 id.1 ∈ unattached_log_files c <-> appends_log stats id
}.

Lemma writes_base_snoc stats e id :
  writes_base (stats ++ [e]) id <-> writes_base stats id \/ writes_base [e] id.
Proof. unfold writes_base. setoid_rewrite elem_of_app. naive_solver. Qed.

Lemma appends_log_snoc stats e id :
  appends_log (stats ++ [e]) id <-> appends_log stats id \/ appends_log [e] id.
Proof. unfold appends_log. setoid_rewrite elem_of_app. naive_solver. Qed.

Lemma unattached_names p fid names us u :
  res_mapM (fun n => let? _ := LogFile.from_str n in Ok (mkUnattached p fid)) names = Ok us ->
  u ∈ us <-> u = mkUnattached p fid /\ names <> [].
Proof.
  intros Hm. apply res_mapM_Ok in Hm. induction Hm as [|n u' names us Hn _ IH].
  - split; [by inversion 1|]. by intros [_ ?].
  - apply res_bind_Ok in Hn as (? & _ & [= <-]). rewrite elem_of_cons, IH. naive_solver.
Qed.

Lemma add_named_log_files_wf names g g' :
  wf_group g -> res_fold add_named_log_file names g = Ok g' ->
  wf_group g' /\ FileGroup.identity g' = FileGroup.identity g.
Proof.
  intros Hw.
  apply (res_fold_inv (fun g1 => wf_group g1 /\ FileGroup.identity g1 = FileGroup.identity g));
    [|done].
  intros g1 n g2 _ [Hw1 <-] Hn. apply res_bind_Ok in Hn as (l & _ & Hn).
  split; [by eapply wf_add_log_file|by eapply add_log_file_identity].
Qed.

Lemma commit_step_contribution stats c e c' :
  contribution stats c -> commit_file_groups_step estimator c e = Ok c' ->
  contribution (stats ++ [e]) c'.
Proof.
  intros [Hw Hb Hl] Hstep. destruct e as [p stat]. unfold commit_file_groups_step in Hstep.
  apply res_bind_Ok in Hstep as (fid & Hfid%ok_or_Ok & Hstep).
  apply res_bind_Ok in Hstep as ([n|] & Hname & Hstep).
  - apply res_bind_Ok in Hstep as (b & _ & Hstep). cbv zeta in Hstep.
    apply res_bind_Ok in Hstep as (g0 & Hg0 & Hstep).
    apply res_bind_Ok in Hstep as (g & Hg & [= <-]).
    assert (wf_group g /\ FileGroup.identity g = (fid, p)) as [Hwg Hid].
    { pose proof (wf_add_base_file _ _ _ (wf_new fid p) Hg0) as H0.
      assert (Hid0 : FileGroup.identity g0 = (fid, p)).
      { unfold FileGroup.add_base_file in Hg0. case_decide; [done|].
        destruct (bt_get _ _); [done|]. injection Hg0 as <-. done. }
      destruct (log_files stat) as [names|]; [|by injection Hg as <-].
      apply add_named_log_files_wf in Hg as [? ->]; done. }
    split; simpl.
    + by apply set_wf_insert.
    + intros id. rewrite hs_insert_keys, Hb, writes_base_snoc, Hid. f_equiv. split.
      * intros ->. exists stat, n. split_and!; try done. by apply list_elem_of_singleton.
      * intros (stat' & n' & Hin%list_elem_of_singleton & Hf & _). simplify_eq.
        destruct id; simpl in *; congruence.
    + intros id. rewrite Hl, appends_log_snoc. split; [by left|].
      intros [?|(stat' & Hin%list_elem_of_singleton & _ & Hn & _)]; [done|]. simplify_eq. congruence.
  - apply res_bind_Ok in Hstep as (us & Hus & [= <-]). split; simpl; [done|..].
    + intros id. rewrite Hb, writes_base_snoc. split; [by left|].
      intros [?|(stat' & n' & Hin%list_elem_of_singleton & _ & Hn)]; [done|]. simplify_eq. congruence.
    + intros id. rewrite elem_of_app, Hl, (unattached_names _ _ _ _ _ Hus), appends_log_snoc.
      f_equiv. split.
      * intros [[= H1 H2] Hne]. exists stat. split_and!; try done.
        -- rewrite H1. by apply list_elem_of_singleton.
        -- congruence.
      * intros (stat' & Hin%list_elem_of_singleton & Hf & _ & Hne). simplify_eq.
        split; [|done]. f_equal; congruence.
Qed.

(** The file groups a commit's metadata contributes are exactly those its
    write stats touch: a group with slices for each stat that names a base
    file, well formed, and an entry for each log-only stat. *)
Lemma commit_file_groups_contribution m c :
  file_groups_from_commit_metadata_with_estimator estimator m = Ok c ->
  exists md, from_json_map m = Ok md /\ contribution (iter_write_stats md) c.
Proof.
  intros (md & Hmd & Hc)%res_bind_Ok. exists md. split; [done|].
  enough (forall prefix c0, contribution prefix c0 ->
    res_fold (commit_file_groups_step estimator) (iter_write_stats md) c0 = Ok c ->
    contribution (prefix ++ iter_write_stats md) c) as Hgen.
  { apply (Hgen [] (mkCommitFileGroups ∅ [])); [|done].
    split; simpl; [apply set_wf_empty|..]; intros id.
    - rewrite lookup_empty. split; [by intros [? ?]|]. intros (? & ? & Hin & _). by inversion Hin.
    - split; [by inversion 1|]. intros (? & Hin & _). by inversion Hin. }
  clear Hc. induction (iter_write_stats md) as [|e stats IH]; intros prefix c0 H0 Hc.
  - simpl in Hc. simplify_eq. by rewrite app_nil_r.
  - cbn [res_fold] in Hc. apply res_bind_Ok in Hc as (c1 & H1 & Hc).
    rewrite cons_middle, app_assoc. eapply IH; [|done]. by eapply commit_step_contribution.
Qed.

Lemma replaced_groups_keys m s :
  replaced_file_groups_from_replace_commit m = Ok s ->
  exists md, replace_commit_from_json_map m = Ok md /\ set_wf s /\
    forall id, is_Some (s !! id) <-> (id.2, id.1) ∈ iter_replace_file_ids md.
Proof.
  intros (md & Hmd & [= <-])%res_bind_Ok. exists md. split; [done|].
  enough (forall l s, set_wf s ->
    let s' := foldl (fun s e => hs_insert (FileGroup.new e.2 e.1) s) s l in
    set_wf s' /\ forall id, is_Some (s' !! id) <-> is_Some (s !! id) \/ (id.2, id.1) ∈ l) as Hgen.
  { destruct (Hgen (iter_replace_file_ids md) ∅ set_wf_empty) as [Hw Hk].
    split; [done|]. intros id. rewrite Hk, lookup_empty. split; [|by right]. by intros [[? ?]|?]. }
  clear. induction l as [|[p f] l IH]; intros s Hs; simpl.
  - split; [done|]. intros id. split; [by left|]. intros [?|Hin]; [done|by inversion Hin].
  - destruct (IH (hs_insert (FileGroup.new f p) s)) as [Hw Hk];
      [apply set_wf_insert; [done|apply wf_new]|]. split; [done|]. intros id.
    rewrite Hk, hs_insert_keys, elem_of_cons. destruct id as [a b]. unfold FileGroup.identity. simpl.
    naive_solver.
Qed.

Lemma hs_extend_keys s gs id :
  is_Some (hs_extend s gs !! id) <-> is_Some (s !! id) \/ exists g, g ∈ gs /\ id = FileGroup.identity g.
Proof.
  unfold hs_extend. revert s. induction gs as [|g gs IH]; intros s; simpl.
  - split; [by left|]. intros [?|(g & Hin & _)]; [done|by inversion Hin].
  - rewrite IH, hs_insert_keys. setoid_rewrite elem_of_cons. naive_solver.
Qed.

Lemma set_values_keys (s : FileGroupSet) id :
  set_wf s ->
  (exists g, g ∈ (map_to_list s).*2 /\ id = FileGroup.identity g) <-> is_Some (s !! id).
Proof.
  intros Hs. split.
  - intros (g & ([k g'] & -> & Hin%elem_of_map_to_list)%list_elem_of_fmap & ->).
    destruct (Hs _ _ Hin) as [<- _]. by eexists.
  - intros [g Hg]. exists g. destruct (Hs _ _ Hg) as [Hid _]. split; [|done].
    apply list_elem_of_fmap. exists (id, g). split; [done|]. by apply elem_of_map_to_list.
Qed.

Lemma set_values_wf (s : FileGroupSet) : set_wf s -> Forall wf_group (map_to_list s).*2.
Proof.
  intros Hs. apply List.Forall_forall. intros g Hg%list_elem_of_In.
  apply list_elem_of_fmap in Hg as ([k g'] & -> & Hin%elem_of_map_to_list). by apply (Hs k).
Qed.
End contribution.

(** Metadata that is already decoded, for the witnesses. *)
Definition decoded : CommitMetadataCodec := {|
  json_map := HoodieCommitMetadata;
  commit_from_json_map := Some;
  replace_from_json_map m := Some (mkReplaceCommitMetadata (commit_version m) (operation_type m)
    (partition_to_write_stats m) (compacted m) (extra_metadata m) (partition_to_replace_file_ids m));
  json_operation_type := operation_type
|}.

Definition sample_commit : HoodieCommitMetadata :=
  mkCommitMetadata (Some 1%Z) (Some "UPSERT")
    (Some [("p=1", [write_stat (Some "a") (Some "p=1/a_1_10.parquet") None None (Some 100%Z);
                    write_stat (Some "b") (Some "p=1/.b_5.log.1_0") (Some "") None None])])
    None None None.

Lemma sample_contribution :
  exists c, file_groups_from_commit_metadata_with_estimator
      (H := decoded) (V := sample_view) None sample_commit = Ok c /\
    is_Some (file_groups c !! ("a", "p=1")) /\ unattached_log_files c = [mkUnattached "p=1" "b"].
Proof. eexists. split; [vm_ok|]. split; [by vm_compute; eauto|reflexivity]. Qed.

(** A second write stat of the same commit for the same group is dropped with
    the log files it names. *)
Example second_stat_of_a_group_is_dropped :
  let c := file_groups_from_commit_metadata_with_estimator (H := decoded) (V := sample_view) None
    (mkCommitMetadata None None
      (Some [("p", [write_stat (Some "a") None (Some "a_1_10.parquet") (Some [".a_10.log.1_0"]) None;
                    write_stat (Some "a") None (Some "a_1_10.parquet") (Some [".a_10.log.2_0"]) None])])
      None None None) in
  res_map (fun c => fmap (fun g => fmap (fun e => length (FileSlice.log_files e.2))
    (FileGroup.file_slices g)) (file_groups c !! ("a", "p"))) c = Ok (Some [1]).
Proof. vm_compute. reflexivity. Qed.
