(* ===== verification/View.v ===== *)
(** Timeline views and the log scan's completion gate:
    crates/core/src/timeline/view.rs, and [CompletionGateInputs] and
    [CompletionGate] of file_group/reader_v2/reader_context.rs and
    log_record_reader.rs.

    Both answer "did this commit complete?", from the completed instants of the
    active timeline and the archival boundary. *)
From Stdlib Require Import Ascii.
From stdpp Require Import base gmap sets list strings sorting numbers fin_sets.
From S2P Require Import Prelude RustStr BTree Files Chrono Config Instant FileGroup Metadata GroupBuilder.
Local Open Scope res_scope.

Record TimelineView := mkTimelineView {
  as_of_timestamp : string;
  start_timestamp : option string;
  excluding_file_groups : FileGroupSet;
  request_to_completion : gmap string string;
  completed_requests : gset string;
  earliest_active_instant : option string
}.

(** One iteration of the loop over the completed commits. *)
Definition view_step (is_timeline_layout_v2 : bool)
    (acc : gmap string string * gset string) (i : Instant) : gmap string string * gset string :=
  let '(request_to_completion, completed_requests) := acc in
  let completed_requests := {[ timestamp i ]} ∪ completed_requests in
  if is_timeline_layout_v2 then
    match completion_timestamp i with
    | Some completion_ts =>
        (<[timestamp i := completion_ts]> request_to_completion, completed_requests)
    | None => (request_to_completion, completed_requests)
    end
  else (request_to_completion, completed_requests).

Definition new_with_archival_boundary (as_of : string) (start : option string)
    (completed_commits : list Instant) (excluding : FileGroupSet) (hudi_configs : HudiConfigs)
    (earliest : option string) : TimelineView :=
  let timeline_layout_version := default 0%Z (get_isize hudi_configs TimelineLayoutVersion) in
  let '(request_to_completion, completed_requests) :=
    foldl (view_step (2 <=? timeline_layout_version)%Z) (∅, ∅) completed_commits in
  mkTimelineView as_of start excluding request_to_completion completed_requests earliest.

Definition new (as_of : string) (start : option string) (completed_commits : list Instant)
    (excluding : FileGroupSet) (hudi_configs : HudiConfigs) : TimelineView :=
  new_with_archival_boundary as_of start completed_commits excluding hudi_configs None.

Definition view_get_completion_time (v : TimelineView) (request_timestamp : string)
    : option string :=
  request_to_completion v !! request_timestamp.

Definition view_is_committed (v : TimelineView) (request_timestamp : string) : bool :=
  if bool_decide (request_timestamp ∈ completed_requests v) then true
  else match earliest_active_instant v with
       | Some boundary => str_ltb request_timestamp boundary
       | None => false
       end.

(** [CompletionTimeView for TimelineView] *)
#[export] Instance timeline_view (v : TimelineView) : CompletionTimeView := {
  get_completion_time := view_get_completion_time v;
  is_committed := view_is_committed v
}.

(** * The completion gate *)
Record CompletionGateInputs := mkGateInputs {
  completed_instants : gset string;
  inflight_instants : gset string;
  archived_boundary : option string
}.

Definition is_unpopulated (g : CompletionGateInputs) : bool :=
  bool_decide (completed_instants g = ∅) && bool_decide (archived_boundary g = None).

Definition admits (g : CompletionGateInputs) (instant_time : string) : bool :=
  if is_unpopulated g then true
  else
    (bool_decide (instant_time ∈ completed_instants g) ||
     match archived_boundary g with
     | Some boundary => str_ltb instant_time boundary
     | None => false
     end) &&
    negb (bool_decide (instant_time ∈ inflight_instants g)).

(** * What a view knows *)
Lemma view_fold_requests v2 l m s :
  (foldl (view_step v2) (m, s) l).2 = s ∪ list_to_set (timestamp <$> l).
Proof.
  revert m s. induction l as [|i l IH]; intros m s; [set_solver|].
  cbn [foldl]. unfold view_step at 2.
  destruct v2; [destruct (completion_timestamp i)|]; rewrite IH, fmap_cons, list_to_set_cons;
    set_solver.
Qed.

Lemma view_fold_v1 l m s : (foldl (view_step false) (m, s) l).1 = m.
Proof. revert s. induction l as [|i l IH]; intros s; [done|]. cbn [foldl]. apply IH. Qed.

Lemma view_fold_dom l m s ts :
  (foldl (view_step true) (m, s) l).1 !! ts =
  match list.last (omap completion_timestamp (filter (fun i => timestamp i = ts) l)) with
  | Some ct => Some ct
  | None => m !! ts
  end.
Proof.
  revert m s. induction l as [|i l IH]; intros m s; [done|]. cbn [foldl]. unfold view_step at 2.
  rewrite filter_cons. destruct (completion_timestamp i) as [ct|] eqn:Hct.
  - rewrite IH. case_decide as Ht.
    + subst ts. cbn [omap list_omap]. rewrite Hct, last_cons.
      destruct (list.last _); [done|]. by rewrite lookup_insert_eq.
    + rewrite lookup_insert_ne by done. done.
  - rewrite IH. case_decide; [|done]. cbn [omap list_omap]. by rewrite Hct.
Qed.

Lemma view_requests as_of start l ex configs e :
  completed_requests (new_with_archival_boundary as_of start l ex configs e) =
  list_to_set (timestamp <$> l).
Proof.
  unfold new_with_archival_boundary.
  pose proof (view_fold_requests (2 <=? default 0 (get_isize configs TimelineLayoutVersion))%Z l ∅ ∅)
    as H. destruct (foldl _ _ _) as [m s]. simpl in *. rewrite H. set_solver.
Qed.

Lemma view_boundary as_of start l ex configs e :
  earliest_active_instant (new_with_archival_boundary as_of start l ex configs e) = e.
Proof. unfold new_with_archival_boundary. by destruct (foldl _ _ _). Qed.

Lemma view_is_committed_iff as_of start l ex configs e ts :
  view_is_committed (new_with_archival_boundary as_of start l ex configs e) ts = true <->
  (exists i, i ∈ l /\ timestamp i = ts) \/ exists b, e = Some b /\ str_lt ts b.
Proof.
  unfold view_is_committed. rewrite view_requests, view_boundary.
  case_bool_decide as Hin.
  - split; [intros _; left|done]. apply elem_of_list_to_set, list_elem_of_fmap in Hin. naive_solver.
  - assert (~ exists i, i ∈ l /\ timestamp i = ts).
    { intros (i & Hi & <-). apply Hin, elem_of_list_to_set, list_elem_of_fmap. by exists i. }
    setoid_rewrite <- str_lt_ltb. destruct e; naive_solver.
Qed.

Lemma view_completion_eq as_of start l ex configs e ts :
  view_get_completion_time (new_with_archival_boundary as_of start l ex configs e) ts =
    (if (2 <=? default 0 (get_isize configs TimelineLayoutVersion))%Z
     then list.last (omap completion_timestamp (filter (fun i => timestamp i = ts) l))
     else None).
Proof.
  unfold view_get_completion_time, new_with_archival_boundary. destruct (2 <=? _)%Z.
  - pose proof (view_fold_dom l ∅ ∅ ts) as H. destruct (foldl _ _ _) as [m s]. simpl in *.
    rewrite H. destruct (list.last _); [done|]. apply lookup_empty.
  - pose proof (view_fold_v1 l ∅ ∅) as H. destruct (foldl _ _ _) as [m s]. simpl in *.
    rewrite H. apply lookup_empty.
Qed.

(** The interface's law holds of every view built from a timeline. *)
Lemma timeline_view_laws as_of start l ex configs e :
  CompletionTimeViewLaws (timeline_view (new_with_archival_boundary as_of start l ex configs e)).
Proof.
  split. simpl. intros ts ct Hct. apply view_is_committed_iff. left.
  rewrite view_completion_eq in Hct. destruct (2 <=? _)%Z; [|done].
  apply last_Some_elem_of in Hct.
  apply list_elem_of_omap in Hct as (i & [Hts Hi]%list_elem_of_filter & _). by exists i.
Qed.

(** A view reports a commit as committed exactly when it is one of the
    completed commits it was built from or lies below the archival boundary;
    it knows completion times only on timeline layout 2, where it reports the
    one recorded last for the request time, and then the commit is committed. *)
Theorem timeline_view_spec as_of start l ex configs e ts :
  let v := new_with_archival_boundary as_of start l ex configs e in
  (is_committed (CompletionTimeView := timeline_view v) ts = true <->
    (exists i, i ∈ l /\ timestamp i = ts) \/ exists b, e = Some b /\ str_lt ts b) /\
  get_completion_time (CompletionTimeView := timeline_view v) ts =
    (if (2 <=? default 0 (get_isize configs TimelineLayoutVersion))%Z
     then list.last (omap completion_timestamp (filter (fun i => timestamp i = ts) l))
     else None) /\
  (forall ct, get_completion_time (CompletionTimeView := timeline_view v) ts = Some ct ->
    is_committed (CompletionTimeView := timeline_view v) ts = true).
Proof.
  intros v. split; [apply view_is_committed_iff|]. split; [apply view_completion_eq|].
  apply (completed_is_committed (CompletionTimeViewLaws := timeline_view_laws as_of start l ex configs e)).
Qed.
