(* ===== verification/Loader.v ===== *)
(** Loading instants from storage: crates/core/src/timeline/loader.rs and
    timeline/builder.rs.

    The object store and the decoders of commit metadata are parameters
    ([Storage], [TimelineCodec]); [sort_unstable] is any sorting permutation. *)
From Stdlib Require Import Ascii.
From stdpp Require Import base gmap sets list strings sorting numbers fin_sets.
From S2P Require Import Prelude RustStr BTree Files Chrono Config Instant Selector Metadata.
Local Open Scope res_scope.

(** [Storage]: listing a directory and reading a file, by relative path. *)
Class Storage := {
  bytes : Type;
  list_files : string -> res (list FileMetadata);
  get_file_data : string -> res bytes
}.

(** serde_json and apache_avro, on the contents of instant files. *)
Class TimelineCodec `{Storage} `{CommitMetadataCodec} := {
  json_from_slice : bytes -> option json_map;
  commit_from_avro : bytes -> option HoodieCommitMetadata;
  commit_to_json_map : HoodieCommitMetadata -> option json_map;
  utf8_from_bytes : bytes -> option string;
  commit_to_json_string : HoodieCommitMetadata -> option string
}.

Inductive TimelineLayout := V1Active | V1Archived | V2Active | V2Archived.

Global Instance TimelineLayout_eq_dec : EqDecision TimelineLayout.
Proof. solve_decision. Defined.

Record TimelineLoader := mkLoader {
  loader_configs : HudiConfigs;
  layout : TimelineLayout
}.

Definition new_layout_one_active (c : HudiConfigs) : TimelineLoader := mkLoader c V1Active.
Definition new_layout_one_archived (c : HudiConfigs) : TimelineLoader := mkLoader c V1Archived.
Definition new_layout_two_active (c : HudiConfigs) : TimelineLoader := mkLoader c V2Active.
Definition new_layout_two_archived (c : HudiConfigs) : TimelineLoader := mkLoader c V2Archived.

Definition timeline_path (c : HudiConfigs) : string :=
  get_string_or_default c TimelinePath "timeline".
Definition history_path (c : HudiConfigs) : string :=
  get_string_or_default c TimelineHistoryPath "history".
Definition archive_log_folder (c : HudiConfigs) : string :=
  get_string_or_default c ArchiveLogFolder ".hoodie/archived".

Definition get_active_timeline_dir (l : TimelineLoader) : string :=
  match layout l with
  | V1Active | V1Archived => HUDI_METADATA_DIR
  | V2Active | V2Archived => HUDI_METADATA_DIR +:+ "/" +:+ timeline_path (loader_configs l)
  end.

Definition get_archived_timeline_dir (l : TimelineLoader) : string :=
  match layout l with
  | V1Active | V1Archived => archive_log_folder (loader_configs l)
  | V2Active | V2Archived =>
      HUDI_METADATA_DIR +:+ "/" +:+ timeline_path (loader_configs l) +:+ "/" +:+
        history_path (loader_configs l)
  end.

Definition get_timeline_dir (l : TimelineLoader) : string :=
  match layout l with
  | V1Active | V2Active => get_active_timeline_dir l
  | V1Archived | V2Archived => get_archived_timeline_dir l
  end.

(** [name.starts_with("history/") || name.ends_with(".crc")] *)
Definition skipped_name (name : string) : bool :=
  starts_with "history/" name || ends_with ".crc" name.

(** The request time a timeline file name starts with, and its state suffix. *)
Definition timeline_name_parts (name : string) : option (string * string) :=
  match split_once "." name with
  | Some (timestamp_part, suffix) =>
      let ts := match split_once "_" timestamp_part with
                | Some (requested, _) => requested
                | None => timestamp_part
                end in
      if decide (ts = "") then None
      else Some (ts, match rsplit_once "." suffix with Some (_, state) => state | None => suffix end)
  | None => None
  end.

Definition pending_suffix (suffix : string) : bool :=
  bool_decide (suffix = "requested") || bool_decide (suffix = "inflight").

(** One iteration of the loop of [list_pending_instant_times]. *)
Definition pending_step (acc : gset string * gset string) (name : string)
    : gset string * gset string :=
  let '(pending, completed) := acc in
  if skipped_name name then acc
  else match timeline_name_parts name with
       | None => acc
       | Some (ts, suffix) =>
           if pending_suffix suffix then ({[ ts ]} ∪ pending, completed)
           else (pending, {[ ts ]} ∪ completed)
       end.

Section loading.
Context `{Storage} {C : Chrono} {SU : SortUnstable Instant instant_le}.

Definition list_pending_instant_times (l : TimelineLoader) : res (gset string) :=
  let? dir := match layout l with
              | V1Active => Ok HUDI_METADATA_DIR
              | V2Active => Ok (get_timeline_dir l)
              | _ => Err EUnsupported
              end in
  let? files := list_files dir in
  let '(pending, completed) := foldl pending_step (∅, ∅) (name <$> files) in
  Ok (pending ∖ completed).

(** The instants a selector creates from a listing: a name it rejects is
    skipped. *)
Fixpoint create_instants (selector : TimelineSelector) (names : list string) : res (list Instant) :=
  match names with
  | [] => Ok []
  | n :: names =>
      match try_create_instant selector n with
      | Ok i => let? rest := create_instants selector names in Ok (i :: rest)
      | Err _ => create_instants selector names
      | Panic => Panic
      end
  end.

Definition order_instants (desc : bool) (l : list Instant) : list Instant :=
  if desc then rev (sort_unstable l) else sort_unstable l.

Definition load_instants (l : TimelineLoader) (selector : TimelineSelector) (desc : bool)
    : res (list Instant) :=
  match layout l with
  | V1Active =>
      let? files := list_files HUDI_METADATA_DIR in
      let? instants := create_instants selector (name <$> files) in
      Ok (order_instants desc instants)
  | V2Active =>
      let? files := list_files (get_timeline_dir l) in
      let? instants :=
        create_instants selector (filter (fun n => skipped_name n = false) (name <$> files)) in
      Ok (order_instants desc instants)
  | _ => Err EUnsupported
  end.

Definition load_archived_instants (l : TimelineLoader) (selector : TimelineSelector) (desc : bool)
    : res (list Instant) :=
  match layout l with
  | V1Active | V2Active => Ok []
  | V1Archived =>
      let? files := list_files (archive_log_folder (loader_configs l)) in
      let? instants := create_instants selector (name <$> files) in
      Ok (order_instants desc instants)
  | V2Archived => Ok []
  end.

Definition load_instant_bytes (l : TimelineLoader) (i : Instant) : res bytes :=
  get_file_data (relative_path_with_base i (get_timeline_dir l)).
End loading.

Section metadata.
Context `{TimelineCodec}.

Definition load_instant_metadata (l : TimelineLoader) (i : Instant) : res json_map :=
  let? bytes := get_file_data (relative_path_with_base i (get_timeline_dir l)) in
  match layout l with
  | V1Active | V1Archived => ok_or (json_from_slice bytes) ETimeline
  | V2Active | V2Archived =>
      let? metadata := ok_or (commit_from_avro bytes) ECommitMetadata in
      ok_or (commit_to_json_map metadata) ECommitMetadata
  end.

Definition load_instant_metadata_as_json (l : TimelineLoader) (i : Instant) : res string :=
  let? bytes := get_file_data (relative_path_with_base i (get_timeline_dir l)) in
  match layout l with
  | V1Active | V1Archived => ok_or (utf8_from_bytes bytes) ETimeline
  | V2Active | V2Archived =>
      let? metadata := ok_or (commit_from_avro bytes) ECommitMetadata in
      ok_or (commit_to_json_string metadata) ETimeline
  end.
End metadata.

(** * TimelineBuilder *)
Definition resolve_loader_config (hudi_configs : HudiConfigs)
    : res (TimelineLoader * option TimelineLoader) :=
  let archived_enabled := get_bool_or_default hudi_configs TimelineArchivedReadEnabled false in
  match get_isize hudi_configs TableVersion with
  | None =>
      Ok (new_layout_one_active hudi_configs,
          if archived_enabled then Some (new_layout_one_archived hudi_configs) else None)
  | Some table_version =>
      let? v := try_get_isize hudi_configs TimelineLayoutVersion in
      let layout_version :=
        default (if (8 <=? table_version)%Z then 2%Z else 1%Z) v in
      if decide (layout_version = 1%Z) then
        if negb ((6 <=? table_version) && (table_version <=? 8))%Z then Err EUnsupported
        else Ok (new_layout_one_active hudi_configs,
                 if archived_enabled then Some (new_layout_one_archived hudi_configs) else None)
      else if decide (layout_version = 2%Z) then
        if (table_version <? 8)%Z then Err EUnsupported
        else Ok (new_layout_two_active hudi_configs,
                 if archived_enabled then Some (new_layout_two_archived hudi_configs) else None)
      else Err EUnsupported
  end.

(** * Pending instants *)
(** The request time a file gives a state, and whether the state is a pending one. *)
Definition state_file (n : string) : option (string * bool) :=
  if skipped_name n then None
  else match timeline_name_parts n with
       | Some (ts, suffix) => Some (ts, pending_suffix suffix)
       | None => None
       end.

Lemma pending_step_eq p c n :
  pending_step (p, c) n =
    match state_file n with
    | Some (t, true) => ({[ t ]} ∪ p, c)
    | Some (t, false) => (p, {[ t ]} ∪ c)
    | None => (p, c)
    end.
Proof.
  unfold pending_step, state_file. destruct (skipped_name n); [done|].
  destruct (timeline_name_parts n) as [[t suffix]|]; [|done]. by destruct (pending_suffix suffix).
Qed.

Lemma pending_fold names p c ts :
  (ts ∈ (foldl pending_step (p, c) names).1 <->
    ts ∈ p \/ exists n, n ∈ names /\ state_file n = Some (ts, true)) /\
  (ts ∈ (foldl pending_step (p, c) names).2 <->
    ts ∈ c \/ exists n, n ∈ names /\ state_file n = Some (ts, false)).
Proof.
  revert p c. induction names as [|n names IH]; intros p c; cbn [foldl].
  - split; split; try by left. all: intros [?|(? & Hin & _)]; [done|by inversion Hin].
  - setoid_rewrite elem_of_cons. rewrite pending_step_eq.
    destruct (state_file n) as [[t []]|] eqn:Hs;
      destruct (IH (match state_file n with Some (t, true) => {[ t ]} ∪ p | _ => p end)
        (match state_file n with Some (t, false) => {[ t ]} ∪ c | _ => c end)) as [H1 H2];
      rewrite Hs in H1, H2; rewrite H1, H2, ?elem_of_union, ?elem_of_singleton;
      (split; (split; [intros [?|(m & ? & ?)]|intros [?|(m & [->|?] & ?)]]));
      destruct_or?; subst; simplify_eq; eauto 10.
Qed.

(** An instant time some file of the timeline directory gives a state. *)
Definition has_state_file (files : list FileMetadata) (ts : string) (pending : bool) : Prop :=
  exists n, n ∈ name <$> files /\ state_file n = Some (ts, pending).

(** An instant is listed as pending exactly when, in the directory of an
    active timeline, it has a requested or inflight file and no completed one,
    whatever its action. *)
Theorem list_pending_spec `{Storage} l s :
  list_pending_instant_times l = Ok s ->
  (layout l = V1Active \/ layout l = V2Active) /\
  exists files, list_files (get_active_timeline_dir l) = Ok files /\
    forall ts, ts ∈ s <-> has_state_file files ts true /\ ~ has_state_file files ts false.
Proof.
  unfold list_pending_instant_times. intros Hok.
  assert (Hl : (layout l = V1Active \/ layout l = V2Active) /\
    match layout l with V1Active => Ok HUDI_METADATA_DIR | V2Active => Ok (get_timeline_dir l)
      | _ => Err EUnsupported end = Ok (get_active_timeline_dir l)).
  { unfold get_active_timeline_dir, get_timeline_dir, get_active_timeline_dir.
    destruct (layout l); simpl in *; try done; split; auto. }
  destruct Hl as [Hl Hdir]. split; [done|]. rewrite Hdir in Hok. simpl in Hok.
  apply res_bind_Ok in Hok as (files & Hf & Hok). exists files. split; [done|]. intros ts.
  pose proof (pending_fold (name <$> files) ∅ ∅ ts) as Hr.
  destruct (foldl pending_step _ _) as [p c]. injection Hok as <-. simpl in Hr.
  destruct Hr as [Hp Hc]. rewrite elem_of_difference, Hp, Hc. unfold has_state_file. set_solver.
Qed.

(** A store with one timeline directory, for the witnesses. *)
Definition sample_store (dir : string) (names : list string) : Storage := {|
  bytes := HoodieCommitMetadata;
  list_files d := if decide (d = dir) then Ok ((fun n => file_metadata_new n 0) <$> names)
                  else Err EStorage;
  get_file_data _ := Err EStorage
|}.

Definition sample_names : list string :=
  ["20240101000000000_20240101000500000.commit"; "20240101000000000.commit.requested";
   "20240101000000000.inflight"; "20240102000000000.deltacommit.inflight";
   "20240103000000000.clean.requested"; "20240103000000000.clean.requested.crc";
   "history/20230101000000000.parquet"].

Definition sample_pending : gset string :=
  match list_pending_instant_times (H := sample_store ".hoodie/timeline" sample_names)
          (mkLoader ∅ V2Active) with
  | Ok s => s
  | _ => ∅
  end.

Lemma list_pending_spec_witness :
  merge_sort str_le (elements sample_pending) = ["20240102000000000"; "20240103000000000"] /\
  exists files, list_files (Storage := sample_store ".hoodie/timeline" sample_names)
      (get_active_timeline_dir (mkLoader ∅ V2Active)) = Ok files /\
    forall ts, ts ∈ sample_pending <-> has_state_file files ts true /\ ~ has_state_file files ts false.
Proof.
  split; [vm_eq|].
  apply (list_pending_spec (H := sample_store ".hoodie/timeline" sample_names)
    (mkLoader ∅ V2Active) sample_pending). vm_eq.
Defined.

(** * Loading *)
Section loaded.
Context `{Storage} {C : Chrono} {SU : SortUnstable Instant instant_le}.

Lemma create_instants_elem selector names l i :
  create_instants selector names = Ok l ->
  i ∈ l <-> exists n, n ∈ names /\ try_create_instant selector n = Ok i.
Proof.
  revert l. induction names as [|n names IH]; intros l Hl; simpl in Hl.
  - simplify_eq. split; [by inversion 1|]. intros (n & Hin & _). by inversion Hin.
  - destruct (try_create_instant selector n) as [i'|e|] eqn:Hn; [|..|done].
    + apply res_bind_Ok in Hl as (rest & Hr & [= <-]). rewrite elem_of_cons, (IH _ Hr). split.
      * intros [->|(m & ? & ?)]; [exists n|exists m]; (split; [|done]); [by left|by right].
      * intros (m & [->|Hm]%elem_of_cons & Hi); [left; congruence|right; by exists m].
    + rewrite (IH _ Hl). split.
      * intros (m & ? & ?). exists m. split; [by right|done].
      * intros (m & [->|Hm]%elem_of_cons & Hi); [congruence|by exists m].
Qed.

Lemma order_instants_perm desc l : order_instants desc l ≡ₚ l.
Proof.
  unfold order_instants. destruct desc; [rewrite <- Permutation_rev|]; apply sort_unstable_perm.
Qed.

Lemma order_instants_asc l : StronglySorted instant_le (order_instants false l).
Proof. apply sort_unstable_sorted. Qed.

(** The names an active loader lists. *)
Definition active_names (l : TimelineLoader) (names : list string) : list string :=
  match layout l with
  | V2Active => filter (fun n => skipped_name n = false) names
  | _ => names
  end.

Lemma load_instants_eq l selector desc is_ :
  load_instants l selector desc = Ok is_ ->
  (layout l = V1Active \/ layout l = V2Active) /\
  exists files instants, list_files (get_active_timeline_dir l) = Ok files /\
    create_instants selector (active_names l (name <$> files)) = Ok instants /\
    is_ = order_instants desc instants.
Proof.
  unfold load_instants, active_names, get_timeline_dir, get_active_timeline_dir. intros Hl.
  destruct (layout l); try done; split; auto;
    apply res_bind_Ok in Hl as (files & Hf & Hl); apply res_bind_Ok in Hl as (ins & Hi & [= <-]);
    by exists files, ins.
Qed.

(** A loaded timeline is sorted, and holds an instant exactly when some
    file of the timeline directory is one the selector admits (checksum and
    history files aside on layout 2). *)
Theorem load_instants_spec l selector is_ :
  load_instants l selector false = Ok is_ ->
  StronglySorted instant_le is_ /\
  exists files, list_files (get_active_timeline_dir l) = Ok files /\
    forall i, i ∈ is_ <->
      exists n, n ∈ active_names l (name <$> files) /\ try_create_instant selector n = Ok i.
Proof.
  intros (_ & files & ins & Hf & Hi & ->)%load_instants_eq.
  split; [apply order_instants_asc|]. exists files. split; [done|]. intros i.
  rewrite order_instants_perm. by apply create_instants_elem.
Qed.
End loaded.

Definition sample_selector : TimelineSelector :=
  mkTimelineSelector (C := Civil.civil) "utc" None None None None false [] [] 2%Z.

Lemma load_instants_spec_witness :
  exists is_, load_instants (C := Civil.civil) (H := sample_store ".hoodie/timeline" sample_names)
      (SU := merge_sort_unstable instant_le) (mkLoader ∅ V2Active) sample_selector false = Ok is_ /\
    StronglySorted instant_le is_ /\ length is_ = 4.
Proof.
  eexists. split; [vm_ok|]. split; [|vm_eq].
  eapply (load_instants_spec (C := Civil.civil) (H := sample_store ".hoodie/timeline" sample_names)
    (SU := merge_sort_unstable instant_le) (mkLoader ∅ V2Active) sample_selector). vm_ok.
Defined.

(** * Which loader a table gets *)

(** The layout version a table with a readable version runs on. *)
Definition effective_layout (configs : HudiConfigs) (table_version : Z) : res Z :=
  let? v := try_get_isize configs TimelineLayoutVersion in
  Ok (default (if (8 <=? table_version)%Z then 2%Z else 1%Z) v).

(** The builder opens a timeline exactly for the supported combinations of
    table version and timeline layout (layout 1 for versions 6 to 8, layout 2
    from version 8 on, layout 1 when no table version is readable), and the
    archived loader, present only when enabled, always has the layout of the
    active one. *)
Theorem resolve_loader_config_spec configs a ar :
  resolve_loader_config configs = Ok (a, ar) <->
  loader_configs a = configs /\
  (ar = if get_bool_or_default configs TimelineArchivedReadEnabled false
        then Some (mkLoader configs (match layout a with V2Active => V2Archived | _ => V1Archived end))
        else None) /\
  match get_isize configs TableVersion with
  | None => layout a = V1Active
  | Some tv =>
      (effective_layout configs tv = Ok 1%Z /\ (6 <= tv <= 8)%Z /\ layout a = V1Active) \/
      (effective_layout configs tv = Ok 2%Z /\ (8 <= tv)%Z /\ layout a = V2Active)
  end.
Proof.
  unfold resolve_loader_config, effective_layout. destruct a as [ca la].
  unfold new_layout_one_active, new_layout_one_archived, new_layout_two_active,
    new_layout_two_archived.
  destruct (get_isize configs TableVersion) as [tv|].
  2: { split; [by intros [= <- <- <-]|]. simpl. by intros (-> & -> & ->). }
  destruct (try_get_isize configs TimelineLayoutVersion) as [v| |]; simpl; [|naive_solver..].
  generalize (default (if (8 <=? tv)%Z then 2%Z else 1%Z) v) as lv. intros lv.
  destruct (decide (lv = 1%Z)) as [->|H1].
  - destruct (Z.leb_spec 6 tv), (Z.leb_spec tv 8); simpl; try (split; naive_solver lia).
  - destruct (decide (lv = 2%Z)) as [->|H2]; [|split; [done|naive_solver]].
    destruct (Z.ltb_spec tv 8); [split; [done|naive_solver lia]|].
    split; [intros [= <- <- <-]; split_and!; [done..|right; split_and!; [done|lia|done]]|].
    by intros (-> & -> & [([=] & _)|(_ & _ & ->)]).
Qed.
