(* ===== verification/Timeline.v ===== *)
(** The timeline: crates/core/src/timeline/mod.rs.

    [new_from_storage] lists the active timeline once and derives from it the
    completed commits, the pending instants and the archival boundary; the
    other operations answer queries from that state, reading instant metadata
    when they need it.  The schema accessors, which hand the latest commit's
    metadata to arrow and avro, are not modelled. *)
From Stdlib Require Import Ascii.
From stdpp Require Import base gmap sets list strings sorting numbers fin_sets.
From S2P Require Import Prelude RustStr BTree Files Chrono Config Instant Selector FileGroup Metadata GroupBuilder View Loader.
Local Open Scope res_scope.

Record Timeline := mkTimeline {
  hudi_configs : HudiConfigs;
  active_loader : TimelineLoader;
  archived_loader : option TimelineLoader;
  completed_commits : list Instant;
  tl_earliest_active_instant : option string;
  pending_instants : gset string
}.

Definition DEFAULT_LOADING_ACTIONS : list Action := [Commit; DeltaCommit; ReplaceCommit].

Definition timeline_new (c : HudiConfigs) (active : TimelineLoader)
    (archived : option TimelineLoader) : Timeline :=
  mkTimeline c active archived [] None ∅.

(** [TimelineBuilder::build] *)
Definition build (c : HudiConfigs) : res Timeline :=
  let? (active, archived) := resolve_loader_config c in
  Ok (timeline_new c active archived).

(** [Iterator::min] and [Iterator::max] on strings. *)
Definition str_min (l : list string) : option string :=
  match l with
  | [] => None
  | x :: l => Some (foldl (fun m y => if str_ltb y m then y else m) x l)
  end.

Definition str_max (l : list string) : option string :=
  match l with
  | [] => None
  | x :: l => Some (foldl (fun m y => if str_ltb y m then m else y) x l)
  end.

Definition is_completed (i : Instant) : bool := bool_decide (state i = Completed).

Section timeline.
Context `{Storage} {C : Chrono} {SU : SortUnstable Instant instant_le}.

(** [load_instants]: archived instants only with a time filter. *)
Definition timeline_load_instants (t : Timeline) (selector : TimelineSelector) (desc : bool)
    : res (list Instant) :=
  if has_time_filter selector then
    let? instants := load_instants (active_loader t) selector desc in
    match archived_loader t with
    | Some archived_loader =>
        let? archived := load_archived_instants archived_loader selector desc in
        if bool_decide (archived = []) then Ok instants
        else
          let instants := sort_unstable (instants ++ archived) in
          Ok (if desc then rev instants else instants)
    | None => Ok instants
    end
  else load_instants (active_loader t) selector desc.

Definition load_instants_inner (t : Timeline) (selector : TimelineSelector) (desc : bool)
    : res (list Instant) :=
  load_instants (active_loader t) selector desc.

(** The state [new_from_storage] derives from the instants listed. *)
Definition timeline_of_listing (t : Timeline) (all_active : list Instant) : Timeline :=
  let completed := filter (fun i => is_completed i = true) all_active in
  let pending := filter (fun i => is_completed i = false) all_active in
  let completed_times : gset string := list_to_set (timestamp <$> completed) in
  mkTimeline (hudi_configs t) (active_loader t) (archived_loader t) completed
    (str_min (timestamp <$> all_active))
    (list_to_set (filter (fun ts => ts ∉ completed_times) (timestamp <$> pending))).

Definition new_from_storage (c : HudiConfigs) : res Timeline :=
  let? timeline := build c in
  let? selector := actions_in_range DEFAULT_LOADING_ACTIONS [Requested; Inflight; Completed]
                     (hudi_configs timeline) None None in
  let? all_active := timeline_load_instants timeline selector false in
  Ok (timeline_of_listing timeline all_active).

Definition completion_gate_inputs (t : Timeline) : CompletionGateInputs :=
  mkGateInputs (list_to_set (timestamp <$> completed_commits t)) (pending_instants t)
    (tl_earliest_active_instant t).

Definition all_pending_instant_times (t : Timeline) : res (gset string) :=
  list_pending_instant_times (active_loader t).

Definition get_completed_commits (t : Timeline) (desc : bool) : res (list Instant) :=
  let? selector := completed_commits_in_range (hudi_configs t) None None in
  load_instants_inner t selector desc.

Definition get_completed_deltacommits (t : Timeline) (desc : bool) : res (list Instant) :=
  let? selector := completed_deltacommits_in_range (hudi_configs t) None None in
  load_instants_inner t selector desc.

Definition get_completed_replacecommits (t : Timeline) (desc : bool) : res (list Instant) :=
  let? selector := completed_replacecommits_in_range (hudi_configs t) None None in
  load_instants_inner t selector desc.

Definition get_latest_commit_timestamp_as_option (t : Timeline) : option string :=
  timestamp <$> list.last (completed_commits t).

Definition get_latest_completion_timestamp_as_option (t : Timeline) : option string :=
  match str_max (omap completion_timestamp (completed_commits t)) with
  | Some ct => Some ct
  | None => get_latest_commit_timestamp_as_option t
  end.

Definition get_latest_commit_timestamp (t : Timeline) : res string :=
  ok_or (get_latest_commit_timestamp_as_option t) ETimelineNoCommit.

(** Completed instants at or before a request time. *)
Definition get_completed_instants_at_or_before (t : Timeline) (ts : string) : res (list Instant) :=
  let? selector := completed_actions_in_range DEFAULT_LOADING_ACTIONS (hudi_configs t) None (Some ts) in
  Ok (select selector (completed_commits t)).

Definition get_completed_commits_in_range (t : Timeline) (start end_ : option string)
    : res (list Instant) :=
  let? selector := completed_actions_in_completion_time_range DEFAULT_LOADING_ACTIONS
                     (hudi_configs t) start end_ in
  Ok (select selector (completed_commits t)).
End timeline.

Section metadata.
Context `{TimelineCodec} {C : Chrono} {SU : SortUnstable Instant instant_le}.

Definition get_instant_metadata (t : Timeline) (i : Instant) : res json_map :=
  load_instant_metadata (active_loader t) i.

Definition get_latest_commit_metadata (t : Timeline) : res json_map :=
  match list.last (completed_commits t) with
  | Some i => get_instant_metadata t i
  | None => Err ETimelineNoCommit
  end.

(** One iteration of the loop of [get_completed_clustering_commits]. *)
Definition clustering_step (t : Timeline) (acc : list Instant) (i : Instant) : res (list Instant) :=
  let? metadata := get_instant_metadata t i in
  let? op_type := ok_or (json_operation_type metadata) ECommitMetadata in
  Ok (if decide (op_type = "cluster") then acc ++ [i] else acc).

Definition get_completed_clustering_commits (t : Timeline) (desc : bool) : res (list Instant) :=
  let? selector := completed_replacecommits_in_range (hudi_configs t) None None in
  let? instants := load_instants_inner t selector desc in
  res_fold (clustering_step t) instants [].

(** One iteration of the loop of [get_replaced_file_groups_as_of]. *)
Definition replaced_step (t : Timeline) (acc : FileGroupSet) (i : Instant) : res FileGroupSet :=
  let? commit_metadata := get_instant_metadata t i in
  let? replaced := replaced_file_groups_from_replace_commit commit_metadata in
  Ok (hs_extend acc (map_to_list replaced).*2).

Definition get_replaced_file_groups_as_of (t : Timeline) (ts : string) : res FileGroupSet :=
  let? selector := completed_replacecommits_in_range (hudi_configs t) None (Some ts) in
  res_fold (replaced_step t) (select selector (completed_commits t)) ∅.

Definition create_view_as_of (t : Timeline) (ts : string) : res TimelineView :=
  let? excludes := get_replaced_file_groups_as_of t ts in
  Ok (new_with_archival_boundary ts None (completed_commits t) excludes (hudi_configs t)
        (tl_earliest_active_instant t)).

(** One iteration of the loop of [get_file_groups_between]: the groups touched
    and the groups replaced so far. *)
Definition between_step (t : Timeline) (view : TimelineView) (estimator : option (Z -> Z * Z))
    (acc : FileGroupSet * FileGroupSet) (commit : Instant) : res (FileGroupSet * FileGroupSet) :=
  let '(groups, replaced_file_groups) := acc in
  let? commit_metadata := get_instant_metadata t commit in
  let? contribution := file_groups_from_commit_metadata_with_estimator (V := timeline_view view)
                         estimator commit_metadata in
  let? groups := hs_merge groups (map_to_list (file_groups contribution)).*2 in
  let groups := foldl (fun s u => hs_insert
                         (FileGroup.new (unattached_file_id u) (unattached_partition u)) s)
                  groups (unattached_log_files contribution) in
  if is_replacecommit (action commit) then
    let? replaced := replaced_file_groups_from_replace_commit commit_metadata in
    Ok (groups, hs_extend replaced_file_groups (map_to_list replaced).*2)
  else Ok (groups, replaced_file_groups).

Definition get_file_groups_between (t : Timeline) (start end_ : option string)
    (estimator : option (Z -> Z * Z)) : res FileGroupSet :=
  let? selector := completed_actions_in_range DEFAULT_LOADING_ACTIONS (hudi_configs t) start end_ in
  let commits := select selector (completed_commits t) in
  match list.head commits, list.last commits with
  | Some first, Some lst =>
      let completion_time_view :=
        View.new (timestamp lst) (Some (timestamp first)) commits ∅ (hudi_configs t) in
      let? (groups, replaced) :=
        res_fold (between_step t completion_time_view estimator) commits (∅, ∅) in
      Ok (hs_difference groups replaced)
  | _, _ => Ok ∅
  end.
End metadata.

(** * Minima and maxima *)
Lemma str_min_fold l x :
  let m := foldl (fun m y => if str_ltb y m then y else m) x l in
  (m = x \/ m ∈ l) /\ str_leb m x = true /\ forall y, y ∈ l -> str_leb m y = true.
Proof.
  cbv zeta. revert x. induction l as [|y l IH]; intros x; cbn [foldl].
  - split_and!; [by left|apply str_leb_refl|by inversion 1].
  - destruct (IH (if str_ltb y x then y else x)) as (Hin & Hle & Hall).
    destruct (str_ltb y x) eqn:Hlt.
    + apply str_lt_ltb, str_lt_le in Hlt. split_and!.
      * destruct Hin as [->|?]; right; [by left|by right].
      * by eapply str_leb_trans.
      * intros z [->|?]%elem_of_cons; auto.
    + apply str_ltb_false in Hlt. split_and!; [|done|].
      * destruct Hin as [->|?]; [by left|by right; right].
      * intros z [->|?]%elem_of_cons; [by eapply str_leb_trans|auto].
Qed.

Lemma str_min_spec l :
  match str_min l with
  | Some m => m ∈ l /\ forall y, y ∈ l -> str_leb m y = true
  | None => l = []
  end.
Proof.
  destruct l as [|x l]; [done|]. simpl. destruct (str_min_fold l x) as (Hin & Hle & Hall). split.
  - destruct Hin as [->|?]; [by left|by right].
  - intros y [->|?]%elem_of_cons; auto.
Qed.

Lemma str_max_fold l x :
  let m := foldl (fun m y => if str_ltb y m then m else y) x l in
  (m = x \/ m ∈ l) /\ str_leb x m = true /\ forall y, y ∈ l -> str_leb y m = true.
Proof.
  cbv zeta. revert x. induction l as [|y l IH]; intros x; cbn [foldl].
  - split_and!; [by left|apply str_leb_refl|by inversion 1].
  - destruct (IH (if str_ltb y x then x else y)) as (Hin & Hle & Hall).
    destruct (str_ltb y x) eqn:Hlt.
    + apply str_lt_ltb, str_lt_le in Hlt. split_and!; [|done|].
      * destruct Hin as [->|?]; [by left|by right; right].
      * intros z [->|?]%elem_of_cons; [by eapply str_leb_trans|auto].
    + apply str_ltb_false in Hlt. split_and!.
      * destruct Hin as [->|?]; right; [by left|by right].
      * by eapply str_leb_trans.
      * intros z [->|?]%elem_of_cons; auto.
Qed.

Lemma str_max_spec l :
  match str_max l with
  | Some m => m ∈ l /\ forall y, y ∈ l -> str_leb y m = true
  | None => l = []
  end.
Proof.
  destruct l as [|x l]; [done|]. simpl. destruct (str_max_fold l x) as (Hin & Hle & Hall). split.
  - destruct Hin as [->|?]; [by left|by right].
  - intros y [->|?]%elem_of_cons; auto.
Qed.

(** * A timeline read from storage *)
Section from_storage.
Context `{Storage} {C : Chrono} {SU : SortUnstable Instant instant_le}.

(** What [new_from_storage] derives its state from. *)
Lemma new_from_storage_listing c t :
  new_from_storage c = Ok t ->
  exists a ar selector l,
    resolve_loader_config c = Ok (a, ar) /\
    actions_in_range DEFAULT_LOADING_ACTIONS [Requested; Inflight; Completed] c None None
      = Ok selector /\
    load_instants a selector false = Ok l /\ t = timeline_of_listing (timeline_new c a ar) l.
Proof.
  unfold new_from_storage, build. intros (t0 & Hb & H1)%res_bind_Ok.
  apply res_bind_Ok in Hb as ([a ar] & Hr & [= <-]). simpl in H1.
  apply res_bind_Ok in H1 as (selector & Hsel & H1). apply res_bind_Ok in H1 as (l & Hl & [= <-]).
  exists a, ar, selector, l. split_and!; try done.
  unfold timeline_load_instants in Hl. simpl in Hl.
  replace (has_time_filter selector) with false in Hl; [done|].
  unfold actions_in_range in Hsel. apply res_bind_Ok in Hsel as (v & _ & Hsel).
  simpl in Hsel. by injection Hsel as <-.
Qed.

Lemma try_create_action selector n i :
  try_create_instant selector n = Ok i -> should_include_action selector (action i) = true.
Proof.
  unfold try_create_instant. intros Hi.
  apply res_bind_Ok in Hi as ([tp suffix] & _ & Hi). apply res_bind_Ok in Hi as ([a st] & _ & Hi).
  destruct (should_include_action selector a) eqn:Ha; [|done].
  destruct (should_include_state selector st); [|done]. simpl in Hi.
  apply res_bind_Ok in Hi as ([ts ct] & _ & Hi). apply res_bind_Ok in Hi as (dt & _ & Hi).
  destruct (match sel_start_datetime selector with Some s => dt_lt dt s | None => false end); [done|].
  destruct (match sel_end_datetime selector with Some s => dt_le s dt | None => false end); [done|].
  by injection Hi as <-.
Qed.

Lemma elem_completed (l : list Instant) i :
  i ∈ filter (fun i => is_completed i = true) l <-> i ∈ l /\ state i = Completed.
Proof. rewrite list_elem_of_filter. unfold is_completed. rewrite bool_decide_eq_true. tauto. Qed.

Lemma elem_pending (l : list Instant) ts :
  ts ∈ (pending_instants (timeline_of_listing (timeline_new ∅ (mkLoader ∅ V1Active) None) l)) <->
  (exists i, i ∈ l /\ timestamp i = ts /\ state i <> Completed) /\
  ~ (exists i, i ∈ l /\ timestamp i = ts /\ state i = Completed).
Proof.
  simpl. rewrite elem_of_list_to_set, list_elem_of_filter, elem_of_list_to_set, !list_elem_of_fmap.
  setoid_rewrite list_elem_of_filter. unfold is_completed.
  setoid_rewrite bool_decide_eq_true. setoid_rewrite bool_decide_eq_false. naive_solver.
Qed.

(** The state of a timeline, from the instants [l] of its active directory. *)
Record timeline_state (l : list Instant) (t : Timeline) : Prop := {
  state_completed : forall i, i ∈ completed_commits t <-> i ∈ l /\ state i = Completed;
  state_sorted : StronglySorted instant_le (completed_commits t);
  state_actions : forall i, i ∈ completed_commits t -> action i ∈ DEFAULT_LOADING_ACTIONS;
  state_pending : forall ts, ts ∈ pending_instants t <->
    (exists i, i ∈ l /\ timestamp i = ts /\ state i <> Completed) /\
    ~ (exists i, i ∈ l /\ timestamp i = ts /\ state i = Completed);
  state_boundary : match tl_earliest_active_instant t with
    | Some b => (exists i, i ∈ l /\ timestamp i = b) /\
                forall i, i ∈ l -> str_leb b (timestamp i) = true
    | None => l = []
    end
}.

Lemma new_from_storage_state c t :
  new_from_storage c = Ok t ->
  hudi_configs t = c /\
  exists selector l, actions_in_range DEFAULT_LOADING_ACTIONS [Requested; Inflight; Completed] c
      None None = Ok selector /\
    load_instants (active_loader t) selector false = Ok l /\ timeline_state l t.
Proof.
  intros (a & ar & selector & l & _ & Hsel & Hl & ->)%new_from_storage_listing.
  split; [done|]. exists selector, l. split; [done|]. split; [done|].
  destruct (load_instants_eq _ _ _ _ Hl) as (_ & files & ins & _ & Hins & ->).
  split.
  - intros i. apply elem_completed.
  - simpl. apply filter_strongly_sorted, order_instants_asc.
  - intros i [Hi _]%elem_completed. rewrite order_instants_perm in Hi.
    apply (create_instants_elem _ _ _ _ Hins) in Hi as (n & _ & Ha%try_create_action).
    unfold actions_in_range in Hsel. apply res_bind_Ok in Hsel as (v & _ & Hsel).
    simpl in Hsel. injection Hsel as <-. unfold should_include_action in Ha. simpl in Ha.
    by apply bool_decide_eq_true in Ha.
  - intros ts. apply elem_pending.
  - simpl. pose proof (str_min_spec (timestamp <$> order_instants false ins)) as Hm.
    destruct (str_min _) as [b|]; [|by apply fmap_nil_inv in Hm].
    destruct Hm as [Hin Hmin]. split.
    + apply list_elem_of_fmap in Hin as (i & -> & Hi). by exists i.
    + intros i Hi. apply Hmin, list_elem_of_fmap. by exists i.
Qed.

(** Reading a timeline from storage separates the active instants: the
    completed commits are exactly the completed ones, in timeline order; an
    instant is pending exactly when it is listed and never completed; and the
    archival boundary is the earliest request time of all of them, so it never
    lies above a pending instant. *)
Theorem new_from_storage_spec c t :
  new_from_storage c = Ok t ->
  exists selector l, load_instants (active_loader t) selector false = Ok l /\ timeline_state l t /\
    (forall ts, ts ∈ pending_instants t ->
      (forall i, i ∈ completed_commits t -> timestamp i <> ts) /\
      exists b, tl_earliest_active_instant t = Some b /\ str_leb b ts = true).
Proof.
  intros (_ & selector & l & _ & Hl & Hs)%new_from_storage_state.
  exists selector, l. split; [done|]. split; [done|]. destruct Hs as [Hc _ _ Hp Hb].
  intros ts [(i & Hi & <- & _) Hno]%Hp. split.
  - intros j [Hj Hst]%Hc Hts. apply Hno. by exists j.
  - destruct (tl_earliest_active_instant t) as [b|]; [|by subst; inversion Hi].
    exists b. split; [done|]. by apply Hb.
Qed.

(** C38: a pending commit is never taken for a committed one, a completed commit
    always is committed, and the log scan's completion gate decides exactly as
    the view does whenever the active timeline is not empty: the gate's
    separate exclusion of inflight instants changes nothing. *)
Theorem completion_gate_agrees_with_view c t as_of start ex ts :
  new_from_storage c = Ok t ->
  let v := new_with_archival_boundary as_of start (completed_commits t) ex (hudi_configs t)
             (tl_earliest_active_instant t) in
  (ts ∈ pending_instants t -> view_is_committed v ts = false) /\
  (forall i, i ∈ completed_commits t -> view_is_committed v (timestamp i) = true) /\
  (tl_earliest_active_instant t <> None ->
    admits (completion_gate_inputs t) ts = view_is_committed v ts).
Proof.
  intros (_ & selector & l & _ & _ & [Hc _ _ Hp Hb])%new_from_storage_state v.
  assert (Hpend : ts ∈ pending_instants t -> view_is_committed v ts = false).
  { intros [(i & Hi & <- & _) Hno]%Hp. apply not_true_is_false.
    intros [(j & [Hj Hst]%Hc & Hts)|(b & Hbe & Hlt)]%view_is_committed_iff.
    - apply Hno. by exists j.
    - rewrite Hbe in Hb. destruct Hb as [_ Hb]. apply Hb in Hi.
      destruct (str_lt_irrefl b). by eapply str_le_lt_trans. }
  split; [done|]. split.
  - intros i Hi. apply view_is_committed_iff. left. by exists i.
  - intros Hne. unfold admits, is_unpopulated. simpl.
    rewrite (bool_decide_false (tl_earliest_active_instant t = None)) by done. rewrite andb_false_r.
    replace (bool_decide _ || _) with (view_is_committed v ts).
    + case_bool_decide as Hin; [|by rewrite andb_true_r]. by rewrite (Hpend Hin).
    + subst v. unfold view_is_committed. rewrite view_requests, view_boundary.
      by case_bool_decide.
Qed.
End from_storage.

(** * Queries *)
Section queries.
Context `{Storage} {C : Chrono} {SU : SortUnstable Instant instant_le}.

Lemma should_include_all (s : TimelineSelector) i :
  sel_actions s = DEFAULT_LOADING_ACTIONS -> sel_states s = [Completed] ->
  action i ∈ DEFAULT_LOADING_ACTIONS -> state i = Completed ->
  should_include_action s (action i) && should_include_state s (state i) = true.
Proof.
  intros Ha Hs Hi Hst. unfold should_include_action, should_include_state.
  rewrite Ha, Hs, Hst. apply andb_true_iff. split; apply orb_true_iff; right;
    apply bool_decide_eq_true; [done|by left].
Qed.

(** The commits "at or before" an instant are the completed commits whose
    request time is not after it, in timeline order, with nothing else lost. *)
Theorem completed_instants_at_or_before_spec c t ts l :
  new_from_storage c = Ok t ->
  get_completed_instants_at_or_before t ts = Ok l ->
  exists dt, parse_datetime ts (get_timezone_from_configs c) = Ok dt /\
    l = filter (fun i => (epoch_millis i <=? timestamp_millis dt)%Z = true) (completed_commits t).
Proof.
  intros (<- & selector & l0 & _ & _ & [Hc Hsort Hact _ _])%new_from_storage_state Hl.
  unfold get_completed_instants_at_or_before in Hl.
  apply res_bind_Ok in Hl as (s & Hs & [= <-]).
  unfold completed_actions_in_range, actions_in_range in Hs.
  apply res_bind_Ok in Hs as (v & _ & Hs). simpl in Hs.
  apply res_bind_Ok in Hs as (o & (dt & Hdt & ->)%res_map_Ok & [= <-]).
  exists dt. split; [done|]. unfold select. simpl.
  rewrite select_by_requested_time_spec by done. apply filter_ext_elem.
  intros i Hi. unfold requested_window. simpl.
  rewrite <- andb_assoc, (should_include_all _ i); [|done|done|by apply Hact|by apply Hc].
  by rewrite andb_true_r.
Qed.

(** The latest commit is one with the greatest request time, there is none
    only when no commit completed, and the latest completion time is the
    greatest of those recorded, whatever the order of requests. *)
Theorem latest_commit_spec c t :
  new_from_storage c = Ok t ->
  (forall ts, get_latest_commit_timestamp t = Ok ts -> exists i, i ∈ completed_commits t /\
    timestamp i = ts /\ forall j, j ∈ completed_commits t -> (epoch_millis j <= epoch_millis i)%Z) /\
  (get_latest_commit_timestamp t = Err ETimelineNoCommit <-> completed_commits t = []) /\
  (forall j ct, j ∈ completed_commits t -> completion_timestamp j = Some ct ->
    exists m, get_latest_completion_timestamp_as_option t = Some m /\ str_leb ct m = true /\
      exists i, i ∈ completed_commits t /\ completion_timestamp i = Some m).
Proof.
  intros (_ & selector & l0 & _ & _ & [Hc Hsort _ _ _])%new_from_storage_state. split; [|split].
  - unfold get_latest_commit_timestamp, get_latest_commit_timestamp_as_option.
    intros ts (i & Hlast & ->)%ok_or_Ok%fmap_Some.
    apply list.last_Some in Hlast as [l Hl]. rewrite Hl in *. exists i.
    split; [apply elem_of_app; right; by left|]. split; [done|].
    intros j [Hj| ->%list_elem_of_singleton]%elem_of_app; [|lia].
    assert (Hle : instant_le j i) by (apply (StronglySorted_app_1_elem_of _ _ _ _ _ Hsort Hj); by left).
    apply instant_le_spec in Hle. lia.
  - unfold get_latest_commit_timestamp, get_latest_commit_timestamp_as_option.
    rewrite <- list.last_None. destruct (list.last (completed_commits t)); simpl; split; done.
  - intros j ct Hj Hct. unfold get_latest_completion_timestamp_as_option.
    pose proof (str_max_spec (omap completion_timestamp (completed_commits t))) as Hm.
    assert (Hin : ct ∈ omap completion_timestamp (completed_commits t)) by
      (apply list_elem_of_omap; by exists j).
    destruct (str_max _) as [m|]; [|rewrite Hm in Hin; by inversion Hin].
    destruct Hm as [Hmin Hmax]. exists m. split; [done|]. split; [by apply Hmax|].
    by apply list_elem_of_omap in Hmin.
Qed.
End queries.

(** * Incremental file groups *)
Section between.
Context `{TimelineCodec} {C : Chrono} {SU : SortUnstable Instant instant_le}.

(** The file groups a commit's metadata says it wrote to, and replaced. *)
Definition touches (t : Timeline) (commit : Instant) (id : string * string) : Prop :=
  exists m md, get_instant_metadata t commit = Ok m /\ from_json_map m = Ok md /\
    (writes_base (iter_write_stats md) id \/ appends_log (iter_write_stats md) id).

Definition replaces (t : Timeline) (commit : Instant) (id : string * string) : Prop :=
  action commit = ReplaceCommit /\
  exists m md, get_instant_metadata t commit = Ok m /\ replace_commit_from_json_map m = Ok md /\
    (id.2, id.1) ∈ iter_replace_file_ids md.

Lemma unattached_keys us s id :
  is_Some (foldl (fun s u => hs_insert
      (FileGroup.new (unattached_file_id u) (unattached_partition u)) s) s us !! id) <->
  is_Some (s !! id) \/ mkUnattached id.2 id.1 ∈ us.
Proof.
  revert s. induction us as [|[p f] us IH]; intros s; simpl.
  - split; [by left|]. intros [?|Hin]; [done|by inversion Hin].
  - rewrite IH, hs_insert_keys, elem_of_cons. destruct id as [a b].
    unfold FileGroup.identity. simpl. naive_solver.
Qed.

Lemma unattached_wf us s :
  set_wf s -> set_wf (foldl (fun s u => hs_insert
      (FileGroup.new (unattached_file_id u) (unattached_partition u)) s) s us).
Proof.
  revert s. induction us as [|u us IH]; intros s Hs; simpl; [done|].
  apply IH, set_wf_insert; [done|apply wf_new].
Qed.

Lemma between_step_spec t view est groups replaced commit groups' replaced' :
  set_wf groups -> between_step t view est (groups, replaced) commit = Ok (groups', replaced') ->
  set_wf groups' /\
  (forall id, is_Some (groups' !! id) <-> is_Some (groups !! id) \/ touches t commit id) /\
  (forall id, is_Some (replaced' !! id) <-> is_Some (replaced !! id) \/ replaces t commit id).
Proof.
  intros Hg Hstep. unfold between_step in Hstep.
  apply res_bind_Ok in Hstep as (m & Hm & Hstep).
  apply res_bind_Ok in Hstep as (c & Hc & Hstep).
  apply res_bind_Ok in Hstep as (g1 & Hg1 & Hstep).
  destruct (commit_file_groups_contribution (V := timeline_view view) _ _ _ Hc)
    as (md & Hmd & [Hcw Hcb Hcl]).
  destruct (hs_merge_spec _ _ _ Hg (set_values_wf _ Hcw) Hg1) as (Hw1 & Hk1 & _).
  set (g2 := foldl _ g1 _) in Hstep.
  assert (Hk2 : forall id, is_Some (g2 !! id) <-> is_Some (groups !! id) \/ touches t commit id).
  { intros id. subst g2. rewrite unattached_keys, Hk1, (set_values_keys _ _ Hcw), Hcb, Hcl.
    split.
    - intros [[?|?]|?]; [by left|right; exists m, md; by auto..].
    - intros [?|(m' & md' & Hm' & Hmd' & Hor)]; [by left; left|].
      assert (m' = m) as -> by congruence. assert (md' = md) as -> by congruence.
      destruct Hor; [by left; right|by right]. }
  assert (Hw2 : set_wf g2) by by apply unattached_wf.
  unfold is_replacecommit in Hstep. case_bool_decide as Ha.
  - apply res_bind_Ok in Hstep as (r & Hr & [= <- <-]). split_and!; [done|done|].
    intros id. destruct (replaced_groups_keys _ _ Hr) as (rmd & Hrmd & Hrw & Hrk).
    rewrite hs_extend_keys, (set_values_keys _ _ Hrw), Hrk. f_equiv. unfold replaces. split.
    + intros Hin. split; [done|]. by exists m, rmd.
    + intros (_ & m' & md' & Hm' & Hmd' & Hin). assert (m' = m) as -> by congruence.
      by assert (md' = rmd) as -> by congruence.
  - injection Hstep as <- <-. split_and!; [done|done|]. intros id. split; [by left|].
    by intros [?|[? _]].
Qed.

Lemma between_loop_spec t view est commits groups replaced groups' replaced' :
  set_wf groups -> res_fold (between_step t view est) commits (groups, replaced) = Ok (groups', replaced') ->
  set_wf groups' /\
  (forall id, is_Some (groups' !! id) <->
    is_Some (groups !! id) \/ exists c, c ∈ commits /\ touches t c id) /\
  (forall id, is_Some (replaced' !! id) <->
    is_Some (replaced !! id) \/ exists c, c ∈ commits /\ replaces t c id).
Proof.
  revert groups replaced. induction commits as [|c commits IH]; intros groups replaced Hg Hl.
  - simpl in Hl. simplify_eq. split; [done|]. split; intros id; split; try (by left);
      intros [?|(c & Hin & _)]; try done; by inversion Hin.
  - cbn [res_fold] in Hl. apply res_bind_Ok in Hl as ([g1 r1] & Hs1 & Hl).
    destruct (between_step_spec _ _ _ _ _ _ _ _ Hg Hs1) as (Hw1 & Hg1 & Hr1).
    destruct (IH _ _ Hw1 Hl) as (Hw & Hk & Hr). split; [done|]. split; intros id.
    + rewrite Hk, Hg1. setoid_rewrite elem_of_cons. naive_solver.
    + rewrite Hr, Hr1. setoid_rewrite elem_of_cons. naive_solver.
Qed.

(** An incremental read over a window sees exactly the file groups some
    commit of the window wrote to, base file or log file, less those a replace
    commit of the window replaced. *)
Theorem file_groups_between_spec t start end_ est s :
  get_file_groups_between t start end_ est = Ok s ->
  exists selector,
    completed_actions_in_range DEFAULT_LOADING_ACTIONS (hudi_configs t) start end_ = Ok selector /\
    let commits := select selector (completed_commits t) in
    set_wf s /\
    forall id, is_Some (s !! id) <->
      (exists c, c ∈ commits /\ touches t c id) /\ ~ (exists c, c ∈ commits /\ replaces t c id).
Proof.
  unfold get_file_groups_between. intros (selector & Hsel & Hs)%res_bind_Ok.
  exists selector. split; [done|]. cbv zeta.
  destruct (select selector (completed_commits t)) as [|first rest] eqn:Hc.
  { simpl in Hs. simplify_eq. split; [apply set_wf_empty|]. intros id. rewrite lookup_empty.
    split; [by intros [? ?]|]. intros [(c & Hin & _) _]. by inversion Hin. }
  cbn [list.head head] in Hs.
  destruct (list.last (first :: rest)) as [lst|] eqn:Hl; [|by apply list.last_None in Hl].
  apply res_bind_Ok in Hs as ([groups replaced] & Hfold & [= <-]).
  destruct (between_loop_spec _ _ _ _ _ _ _ _ set_wf_empty Hfold) as (Hw & Hg & Hr).
  setoid_rewrite lookup_empty in Hg. setoid_rewrite lookup_empty in Hr.
  assert (Hd : forall id g, hs_difference groups replaced !! id = Some g <->
    groups !! id = Some g /\ replaced !! id = None).
  { intros id g. unfold hs_difference. by rewrite map_lookup_filter_Some. }
  split.
  - intros id g [Hid _]%Hd. by apply Hw.
  - intros id.
    assert (is_Some (hs_difference groups replaced !! id) <->
      is_Some (groups !! id) /\ ~ is_Some (replaced !! id)) as ->.
    { rewrite <- eq_None_not_Some. unfold is_Some at 1 2. setoid_rewrite Hd. naive_solver. }
    rewrite Hg, Hr. split; intros [Ht Hn]; split.
    + by destruct Ht as [[? ?]|?].
    + intros ?. apply Hn. by right.
    + by right.
    + intros [[? ?]|?]; [done|by apply Hn].
Qed.
End between.

(** * A small table *)
Definition table_files : list string :=
  ["20240101000000000.commit.requested"; "20240101000000000.inflight";
   "20240101000000000_20240101000500000.commit";
   "20240102000000000_20240105000000000.deltacommit";
   "20240103000000000_20240103000100000.replacecommit";
   "20240104000000000.deltacommit.inflight"].

Definition table_metadata (path : string) : res HoodieCommitMetadata :=
  if decide (path = ".hoodie/timeline/20240101000000000_20240101000500000.commit") then
    Ok (mkCommitMetadata None None
      (Some [("p", [write_stat (Some "a") (Some "p/a_1_20240101000000000.parquet") None None (Some 10%Z);
                    write_stat (Some "b") (Some "p/b_1_20240101000000000.parquet") None None (Some 10%Z)])])
      None None None)
  else if decide (path = ".hoodie/timeline/20240102000000000_20240105000000000.deltacommit") then
    Ok (mkCommitMetadata None None
      (Some [("p", [write_stat (Some "b") (Some "p/.b_20240102000000000.log.1_0") (Some "") None None])])
      None None None)
  else if decide (path = ".hoodie/timeline/20240103000000000_20240103000100000.replacecommit") then
    Ok (mkCommitMetadata None None
      (Some [("p", [write_stat (Some "c") (Some "p/c_1_20240103000000000.parquet") None None (Some 10%Z)])])
      (Some [("p", ["a"])]) None None)
  else Err EStorage.

Definition table_store : Storage := {|
  bytes := HoodieCommitMetadata;
  list_files d := if decide (d = ".hoodie/timeline")
                  then Ok ((fun n => file_metadata_new n 0) <$> table_files) else Err EStorage;
  get_file_data := table_metadata
|}.

Definition table_codec : @TimelineCodec table_store decoded :=
  Build_TimelineCodec table_store decoded Some Some Some (fun _ => None) (fun _ => None).

Definition table_configs : HudiConfigs :=
  <[TableVersion := "8"]> (<[TimelineLayoutVersion := "2"]> ∅).

Definition opened : res Timeline :=
  new_from_storage (H := table_store) (C := Civil.civil) (SU := merge_sort_unstable instant_le)
    table_configs.

Definition table_timeline : Timeline :=
  match opened with
  | Ok t => t
  | _ => timeline_new ∅ (mkLoader ∅ V1Active) None
  end.

Lemma table_opens :
  new_from_storage (H := table_store) (C := Civil.civil) (SU := merge_sort_unstable instant_le)
    table_configs = Ok table_timeline.
Proof. vm_eq. Qed.

Lemma new_from_storage_spec_witness :
  timestamp <$> completed_commits table_timeline =
    ["20240101000000000"; "20240102000000000"; "20240103000000000"] /\
  exists selector l, load_instants (H := table_store) (C := Civil.civil)
      (SU := merge_sort_unstable instant_le) (active_loader table_timeline) selector false = Ok l /\
    timeline_state l table_timeline.
Proof.
  split; [vm_eq|].
  destruct (new_from_storage_spec _ _ table_opens) as (selector & l & Hl & Hs & _).
  by exists selector, l.
Defined.

Lemma completion_gate_agrees_with_view_witness :
  admits (completion_gate_inputs table_timeline) "20240104000000000" = false /\
  admits (completion_gate_inputs table_timeline) "20240104000000000" =
    view_is_committed (new_with_archival_boundary "x" None (completed_commits table_timeline) ∅
      (hudi_configs table_timeline) (tl_earliest_active_instant table_timeline)) "20240104000000000".
Proof.
  split; [vm_eq|].
  apply (completion_gate_agrees_with_view _ _ "x" None ∅ "20240104000000000" table_opens).
  intros Hn. assert (Hb : bool_decide (tl_earliest_active_instant table_timeline = None) = false) by vm_eq.
  by apply bool_decide_eq_false in Hb.
Defined.

Definition at_or_before : list Instant :=
  match get_completed_instants_at_or_before (C := Civil.civil) table_timeline "20240102000000000" with
  | Ok l => l
  | _ => []
  end.

Lemma completed_instants_at_or_before_spec_witness :
  length at_or_before = 2 /\
  exists dt, parse_datetime (C := Civil.civil) "20240102000000000"
      (get_timezone_from_configs table_configs) = Ok dt /\
    at_or_before = filter (fun i => (epoch_millis i <=? timestamp_millis (Chrono := Civil.civil) dt)%Z = true)
      (completed_commits table_timeline).
Proof.
  split; [vm_eq|].
  apply (completed_instants_at_or_before_spec _ _ _ _ table_opens). vm_eq.
Defined.

Lemma latest_commit_spec_witness :
  get_latest_commit_timestamp table_timeline = Ok "20240103000000000" /\
  get_latest_completion_timestamp_as_option table_timeline = Some "20240105000000000" /\
  (get_latest_commit_timestamp table_timeline = Err ETimelineNoCommit <->
    completed_commits table_timeline = []).
Proof.
  split; [vm_eq|]. split; [vm_eq|]. apply (latest_commit_spec _ _ table_opens).
Defined.

Definition groups_between : res FileGroupSet :=
  get_file_groups_between (H1 := table_codec) (C := Civil.civil) table_timeline
    (Some "20240101000000000") (Some "20240104000000000") None.

Definition window_groups : FileGroupSet := match groups_between with Ok s => s | _ => ∅ end.

Definition window_groups_from_start : res FileGroupSet :=
  get_file_groups_between (H1 := table_codec) (C := Civil.civil) table_timeline
    None (Some "20240104000000000") None.

(** The window excludes the first commit, so group "a" is not in it; read from
    the start, "a" is touched and then replaced. *)
Lemma file_groups_between_spec_witness :
  merge_sort str_le ((map_to_list window_groups).*1).*1 = ["b"; "c"] /\
  res_map (fun s : FileGroupSet => merge_sort str_le ((map_to_list s).*1).*1) window_groups_from_start
    = Ok ["b"; "c"] /\
  exists selector, completed_actions_in_range (C := Civil.civil) DEFAULT_LOADING_ACTIONS
      (hudi_configs table_timeline) (Some "20240101000000000") (Some "20240104000000000") = Ok selector /\
    set_wf window_groups.
Proof.
  split; [vm_eq|]. split; [vm_eq|].
  destruct (file_groups_between_spec (H1 := table_codec) (C := Civil.civil) table_timeline
    (Some "20240101000000000") (Some "20240104000000000") None window_groups)
    as (selector & Hsel & Hw & _); [vm_eq|]. by exists selector.
Defined.
