(* ===== verification/StorageReader.v ===== *)
(** Positioned reads over an object: [StorageReader] of
    crates/core/src/storage/reader.rs.

    A reader holds the whole object, or fetches bounded windows of it.  The
    object store is a parameter ([ObjectStore]); offsets are [u64]s in [Z].
    The main result is that the two kinds of reader cannot be told apart by
    their reads. *)
From Stdlib Require Import Ascii.
From stdpp Require Import base gmap sets list strings sorting numbers.
From S2P Require Import Prelude.
Local Open Scope Z_scope.

Abbreviation bytes := (list ascii).

Definition u64_max : Z := 18446744073709551615.

Definition checked_add (a b : Z) : option Z :=
  if a + b <=? u64_max then Some (a + b) else None.
Definition checked_sub (a b : Z) : option Z :=
  if b <=? a then Some (a - b) else None.
Definition saturating_add (a b : Z) : Z := Z.min (a + b) u64_max.

(** The outcomes of [std::io::Result] the crate tells apart. *)
Inductive io (A : Type) :=
  | IoOk (a : A)
  | IoEof
  | IoErr.
Global Arguments IoOk {A} a.
Global Arguments IoEof {A}.
Global Arguments IoErr {A}.

(** [ObjectStore::get_range] on the reader's object, by start and end. *)
Class ObjectStore := object_get_range : Z -> Z -> option bytes.

Definition blen (b : bytes) : Z := Z.of_nat (length b).

(** [b[from..to]] *)
Definition slice (b : bytes) (from to : Z) : bytes :=
  take (Z.to_nat (to - from)) (drop (Z.to_nat from) b).

Record StorageReader := mkReader {
  file_len : Z;
  pos : Z;
  whole : option bytes;
  window : bytes;
  window_start : Z;
  window_size : Z
}.

(** [StorageReader::new] on the bytes the store returned. *)
Definition reader_new (object : bytes) : StorageReader :=
  mkReader (blen object) 0 (Some object) [] 0 16777216.

Definition new_streaming (size window_size : Z) : StorageReader :=
  mkReader size 0 None [] 0 window_size.

Definition seek_to (r : StorageReader) (p : Z) : StorageReader :=
  mkReader (file_len r) p (whole r) (window r) (window_start r) (window_size r).

Definition window_covers (r : StorageReader) (start end_ : Z) : bool :=
  (window_start r <=? start) && (end_ <=? window_start r + blen (window r)).

Definition has_resident (r : StorageReader) (start end_ : Z) : bool :=
  match whole r with
  | Some _ => end_ <=? file_len r
  | None => window_covers r start end_
  end.

Section reads.
Context {OS : ObjectStore}.

Definition get_range (offset length : Z) : io bytes :=
  match checked_add offset length with
  | Some end_ => match object_get_range offset end_ with Some b => IoOk b | None => IoErr end
  | None => IoErr
  end.

Definition fill_window (r : StorageReader) : io unit * StorageReader :=
  let end_ := Z.min (saturating_add (pos r) (window_size r)) (file_len r) in
  match get_range (pos r) (end_ - pos r) with
  | IoOk w => (IoOk tt, mkReader (file_len r) (pos r) (whole r) w (pos r) (window_size r))
  | IoEof => (IoEof, r)
  | IoErr => (IoErr, r)
  end.

Definition read_bytes (r : StorageReader) (len : Z) : io bytes * StorageReader :=
  if len =? 0 then (IoOk [], r)
  else match checked_add (pos r) len with
  | None => (IoErr, r)
  | Some end_ =>
    if file_len r <? end_ then (IoEof, r)
    else match whole r with
    | Some w => (IoOk (slice w (pos r) end_), seek_to r end_)
    | None =>
      if window_size r <? len then
        match get_range (pos r) len with
        | IoOk b => (IoOk b, seek_to r end_)
        | IoEof => (IoEof, r)
        | IoErr => (IoErr, r)
        end
      else
        let '(filled, r) :=
          if negb (window_covers r (pos r) end_) then fill_window r else (IoOk tt, r) in
        match filled with
        | IoEof => (IoEof, r)
        | IoErr => (IoErr, r)
        | IoOk _ =>
          let off := pos r - window_start r in
          if blen (window r) - off <? len then (IoEof, r)
          else (IoOk (slice (window r) off (off + len)), seek_to r end_)
        end
    end
  end.
End reads.

(** * A streaming reader reads what a whole reader reads *)

(** The store serves the object: a range inside it comes back as it is. *)
Class ServesObject (OS : ObjectStore) (object : bytes) : Prop := serves :
  forall from to, 0 <= from <= to -> to <= blen object ->
    object_get_range from to = Some (slice object from to).

Lemma blen_app a b : blen (a ++ b) = blen a + blen b.
Proof. unfold blen. rewrite length_app. lia. Qed.

Lemma blen_nonneg b : 0 <= blen b.
Proof. unfold blen. lia. Qed.

Lemma slice_app_here a b c : slice (a ++ b ++ c) (blen a) (blen a + blen b) = b.
Proof.
  unfold slice, blen. replace (Z.of_nat (length a) + Z.of_nat (length b) - Z.of_nat (length a))
    with (Z.of_nat (length b)) by lia. rewrite !Nat2Z.id.
  by rewrite drop_app_length, take_app_length.
Qed.

Lemma blen_slice b from to : 0 <= from <= to -> to <= blen b -> blen (slice b from to) = to - from.
Proof. unfold blen, slice. rewrite length_take, length_drop. lia. Qed.

Lemma slice_slice b f t f' t' :
  0 <= f -> 0 <= f' <= t' -> t' <= t - f ->
  slice (slice b f t) f' t' = slice b (f + f') (f + t').
Proof.
  intros Hf Hf' Ht. unfold slice. rewrite skipn_firstn_comm, take_take, drop_drop.
  f_equal; [lia|]. f_equal. lia.
Qed.

(** The states of two readers of the same object, one whole, one streaming. *)
Record same_reads (object : bytes) (w s : StorageReader) : Prop := {
  same_pos : pos w = pos s;
  same_pos_nonneg : 0 <= pos s <= u64_max;
  same_len_w : file_len w = blen object;
  same_len_s : file_len s = blen object;
  same_whole : whole w = Some object;
  same_stream : whole s = None;
  same_window_size : 0 < window_size s;
  same_start : 0 <= window_start s;
  same_window_end : window s = [] \/ window_start s + blen (window s) <= blen object;
  same_window : window s = slice object (window_start s) (window_start s + blen (window s))
}.

Lemma same_reads_seek object w s p :
  0 <= p <= u64_max -> same_reads object w s -> same_reads object (seek_to w p) (seek_to s p).
Proof. intros Hp []. by split. Qed.

Lemma fill_window_spec `{!ServesObject OS object} w s len :
  blen object <= u64_max -> same_reads object w s -> 0 < len <= window_size s ->
  pos s + len <= blen object ->
  exists s', fill_window s = (IoOk tt, s') /\ same_reads object w s' /\
    window_start s' = pos s /\ len <= blen (window s') /\ window_size s' = window_size s.
Proof.
  intros Hu [] Hlen Hend. unfold fill_window, saturating_add.
  set (e := Z.min _ _). assert (He : pos s + len <= e <= blen object) by (subst e; lia).
  unfold get_range, checked_add. replace (pos s + (e - pos s)) with e by lia.
  destruct (Z.leb_spec e u64_max); [|lia]. rewrite serves by lia.
  eexists. split; [done|]. cbn [window_start window window_size].
  rewrite blen_slice by lia. split_and!; [|done|lia|done].
  split; cbn; try done; try lia.
  - right. rewrite blen_slice by lia. lia.
  - rewrite blen_slice by lia. f_equal. lia.
Qed.

(** Over a store that serves the object, a streaming reader and a reader of the
    whole object answer every read alike, ends of file included, and stay in
    step. *)
Lemma streaming_reads_agree `{!ServesObject OS object} w s len :
  blen object <= u64_max -> 0 <= len <= u64_max -> same_reads object w s ->
  let '(a, w') := read_bytes w len in
  let '(b, s') := read_bytes s len in
  a = b /\ same_reads object w' s'.
Proof.
  intros Hu Hlen Hs. pose proof Hs as [Hp Hpn Hlw Hls Hw Hst Hws Hstart Hwe Hwin].
  unfold read_bytes. rewrite <- Hp. destruct (Z.eqb_spec len 0); [done|].
  destruct (checked_add (pos w) len) as [e|] eqn:He; [|done].
  unfold checked_add in He. destruct (Z.leb_spec (pos w + len) u64_max); [|done].
  injection He as <-.
  rewrite Hlw, Hls, Hw, Hst. destruct (Z.ltb_spec (blen object) (pos w + len)); [done|].
  destruct (Z.ltb_spec (window_size s) len).
  { unfold get_range, checked_add. destruct (Z.leb_spec (pos w + len) u64_max); [|lia].
    rewrite serves by lia. split; [done|]. apply same_reads_seek; [lia|done]. }
  assert (exists s1, (if negb (window_covers s (pos w) (pos w + len)) then fill_window s
      else (IoOk tt, s)) = (IoOk tt, s1) /\ same_reads object w s1 /\
      window_start s1 <= pos w /\ pos w + len <= window_start s1 + blen (window s1))
    as (s1 & -> & Hs1 & Hst1 & Hend1).
  { destruct (window_covers s (pos w) (pos w + len)) eqn:Hc; cbn [negb].
    - exists s. unfold window_covers in Hc. split_and!; try done; lia.
    - destruct (fill_window_spec w s len Hu Hs) as (s1 & -> & Hs1 & Hst1 & Hl1 & _); [lia..|].
      exists s1. split_and!; try done; lia. }
  pose proof Hs1 as [Hp1 _ _ _ _ _ _ Hstart1 Hwe1 Hwin1]. rewrite <- Hp1.
  destruct (Z.ltb_spec (blen (window s1) - (pos w - window_start s1)) len); [lia|].
  split; [|apply same_reads_seek; [lia|done]].
  f_equal. rewrite Hwin1, slice_slice by lia. f_equal; lia.
Qed.

(** The two constructors start in step. *)
Lemma same_reads_new object size :
  blen object <= u64_max -> 0 < size ->
  same_reads object (reader_new object) (new_streaming (blen object) size).
Proof. intros Hu Hs. split; cbn; try done; try (unfold blen; lia). by left. Qed.

(** A store that serves exactly one object. *)
Definition store_of (object : bytes) : ObjectStore := fun from to => Some (slice object from to).

#[export] Instance store_of_serves object : ServesObject (store_of object) object.
Proof. by intros from to _ _. Qed.
