(* ===== verification/RecordBatches.v ===== *)
(** What log blocks decode to: the batches of
    crates/core/src/file_group/record_batches.rs and the records of
    crates/core/src/hfile/record.rs.

    An Arrow batch is a parameter; the crate counts its rows. *)
From Stdlib Require Import Ascii.
From stdpp Require Import base gmap sets list strings sorting numbers.
From S2P Require Import Prelude StorageReader.
Local Open Scope Z_scope.

Class ArrowBatch := {
  RecordBatch : Type;
  num_rows : RecordBatch -> Z
}.

Record HFileRecord := mkHFileRecord { hf_key : bytes; hf_value : bytes }.

Section batches.
Context {AB : ArrowBatch}.

Record RecordBatches := mkBatches {
  data_batches : list RecordBatch;
  delete_batches : list (RecordBatch * string);
  num_data_rows : Z;
  num_delete_rows : Z
}.

(** [new]; [new_with_capacity] only reserves space. *)
Definition batches_new : RecordBatches := mkBatches [] [] 0 0.

Definition num_data_batches (b : RecordBatches) : nat := length (data_batches b).
Definition num_delete_batches (b : RecordBatches) : nat := length (delete_batches b).

Definition push_data_batch (b : RecordBatches) (batch : RecordBatch) : RecordBatches :=
  mkBatches (data_batches b ++ [batch]) (delete_batches b)
    (num_data_rows b + num_rows batch) (num_delete_rows b).

Definition push_delete_batch (b : RecordBatches) (batch : RecordBatch) (instant_time : string)
    : RecordBatches :=
  mkBatches (data_batches b) (delete_batches b ++ [(batch, instant_time)])
    (num_data_rows b) (num_delete_rows b + num_rows batch).

Definition extend (b other : RecordBatches) : RecordBatches :=
  mkBatches (data_batches b ++ data_batches other) (delete_batches b ++ delete_batches other)
    (num_data_rows b + num_data_rows other) (num_delete_rows b + num_delete_rows other).

Definition new_with_data_batches (batches : list RecordBatch) : RecordBatches :=
  foldl push_data_batch batches_new batches.

(** * The counts are those of the batches *)
Definition rows (l : list RecordBatch) : Z := foldr (fun b n => num_rows b + n) 0 l.

Record counted (b : RecordBatches) : Prop := {
  counted_data : num_data_rows b = rows (data_batches b);
  counted_delete : num_delete_rows b = rows ((delete_batches b).*1)
}.

Lemma rows_app l l' : rows (l ++ l') = rows l + rows l'.
Proof. unfold rows. induction l as [|b l IH]; cbn in *; lia. Qed.

Lemma counted_new : counted batches_new.
Proof. done. Qed.

Lemma counted_push_data b x : counted b -> counted (push_data_batch b x).
Proof. intros []. split; cbn; [|done]. rewrite rows_app. cbn. lia. Qed.

Lemma counted_push_delete b x i : counted b -> counted (push_delete_batch b x i).
Proof. intros []. split; cbn; [done|]. rewrite fmap_app, rows_app. cbn. lia. Qed.

Lemma counted_extend b c : counted b -> counted c -> counted (extend b c).
Proof. intros [] []. split; cbn; rewrite ?fmap_app, rows_app; lia. Qed.

Lemma extend_new_l b : extend batches_new b = b.
Proof. by destruct b. Qed.

Lemma extend_new_r b : extend b batches_new = b.
Proof. destruct b. unfold extend. cbn. by rewrite !app_nil_r, !Z.add_0_r. Qed.

Lemma extend_assoc a b c : extend (extend a b) c = extend a (extend b c).
Proof. unfold extend. cbn. f_equal; rewrite ?(assoc_L (++)); try done; lia. Qed.

(** All batches of several, in order, with all their rows. *)
Definition gathered (l : list RecordBatches) : RecordBatches :=
  mkBatches (concat (data_batches <$> l)) (concat (delete_batches <$> l))
    (foldr (fun b n => num_data_rows b + n) 0 l) (foldr (fun b n => num_delete_rows b + n) 0 l).

Lemma gathered_cons b l : gathered (b :: l) = extend b (gathered l).
Proof. done. Qed.

Lemma counted_gathered l : List.Forall counted l -> counted (gathered l).
Proof.
  induction 1 as [|b l Hb Hl IH]; [apply counted_new|]. rewrite gathered_cons.
  by apply counted_extend.
Qed.
End batches.

#[export] Hint Resolve counted_new counted_push_data counted_push_delete counted_extend : hudi.
