(* ===== verification/LogFormat.v ===== *)
(** The log file format: crates/core/src/file_group/log_file/log_format.rs and
    log_block.rs, and the dispatch of content.rs.

    A byte is an [ascii].  Arrow batches and HFile records, and the decoding of
    a block's payload into them, are parameters ([ContentDecoder]). *)
From Stdlib Require Import Ascii.
From stdpp Require Import base gmap sets list strings sorting numbers.
From S2P Require Import Prelude RustStr StorageReader RecordBatches.
Local Open Scope res_scope.
Local Open Scope Z_scope.

(** * Integers in big-endian bytes *)
Definition byte_value (b : ascii) : Z := Z.of_N (N_of_ascii b).

Definition from_be_bytes (b : bytes) : Z := foldl (fun acc c => acc * 256 + byte_value c) 0 b.

(** The [n] low bytes of a value, most significant first. *)
Fixpoint to_be_bytes (n : nat) (v : Z) : bytes :=
  match n with
  | O => []
  | S n => to_be_bytes n (v / 256) ++ [ascii_of_N (Z.to_N (v mod 256))]
  end.

Definition MAGIC : bytes := String.list_ascii_of_string "#HUDI#".

Inductive LogFormatVersion := FormatV0 | FormatV1.

(** [TryFrom<u32>] and, on four bytes, [TryFrom<[u8; 4]>]. *)
Definition format_version_from_u32 (value : Z) : res LogFormatVersion :=
  if value =? 0 then Ok FormatV0
  else if value =? 1 then Ok FormatV1
  else Err ELogFormat.

Definition format_version_try_from (b : bytes) : res LogFormatVersion :=
  format_version_from_u32 (from_be_bytes b).

Definition has_block_type (v : LogFormatVersion) : bool :=
  match v with FormatV0 => false | _ => true end.
Definition has_header (v : LogFormatVersion) : bool :=
  match v with FormatV0 => false | _ => true end.
Definition has_content_length (v : LogFormatVersion) : bool :=
  match v with FormatV0 => false | _ => true end.
Definition has_footer (v : LogFormatVersion) : bool :=
  match v with FormatV1 => true | _ => false end.
Definition has_total_log_block_length (v : LogFormatVersion) : bool :=
  match v with FormatV1 => true | _ => false end.

(** * Blocks *)
Inductive LogBlockVersion := BlockV0 | BlockV1 | BlockV2 | BlockV3.

Definition block_version_try_from (value : Z) : res LogBlockVersion :=
  match value with
  | 0 => Ok BlockV0
  | 1 => Ok BlockV1
  | 2 => Ok BlockV2
  | 3 => Ok BlockV3
  | _ => Err ELogBlock
  end.

Inductive BlockType :=
  | Command | Delete | Corrupted | AvroData | HfileData | ParquetData | CdcData.

Global Instance BlockType_eq_dec : EqDecision BlockType.
Proof. solve_decision. Defined.

Definition block_type_as_ref (t : BlockType) : string :=
  match t with
  | Command => ":command"
  | Delete => ":delete"
  | Corrupted => ":corrupted"
  | AvroData => "avro"
  | HfileData => "hfile"
  | ParquetData => "parquet"
  | CdcData => "cdc"
  end.

Definition block_type_from_str (s : string) : res BlockType :=
  if decide (s = ":command") then Ok Command
  else if decide (s = ":delete") then Ok Delete
  else if decide (s = ":corrupted") then Ok Corrupted
  else if decide (s = "avro_data") then Ok AvroData
  else if decide (s = "hfile") then Ok HfileData
  else if decide (s = "parquet") then Ok ParquetData
  else if decide (s = "cdc") then Ok CdcData
  else Err ELogFormat.

Definition block_type_ordinal (t : BlockType) : Z :=
  match t with
  | Command => 0
  | Delete => 1
  | Corrupted => 2
  | AvroData => 3
  | HfileData => 4
  | ParquetData => 5
  | CdcData => 6
  end.

Definition block_type_try_from (b : bytes) : res BlockType :=
  match from_be_bytes b with
  | 0 => Ok Command
  | 1 => Ok Delete
  | 2 => Ok Corrupted
  | 3 => Ok AvroData
  | 4 => Ok HfileData
  | 5 => Ok ParquetData
  | 6 => Ok CdcData
  | _ => Err ELogFormat
  end.

Inductive BlockMetadataType := Header | Footer.

Inductive BlockMetadataKey :=
  | InstantTime | TargetInstantTime | Schema | CommandBlockType | CompactedBlockTimes
  | RecordPositions | BlockIdentifier | IsPartial | BaseFileInstantTimeOfRecordPositions.

Global Instance BlockMetadataKey_eq_dec : EqDecision BlockMetadataKey.
Proof. solve_decision. Defined.

Definition metadata_key_ordinal (k : BlockMetadataKey) : Z :=
  match k with
  | InstantTime => 0
  | TargetInstantTime => 1
  | Schema => 2
  | CommandBlockType => 3
  | CompactedBlockTimes => 4
  | RecordPositions => 5
  | BlockIdentifier => 6
  | IsPartial => 7
  | BaseFileInstantTimeOfRecordPositions => 8
  end.

Definition metadata_key_of_ordinal (v : Z) : option BlockMetadataKey :=
  match v with
  | 0 => Some InstantTime
  | 1 => Some TargetInstantTime
  | 2 => Some Schema
  | 3 => Some CommandBlockType
  | 4 => Some CompactedBlockTimes
  | 5 => Some RecordPositions
  | 6 => Some BlockIdentifier
  | 7 => Some IsPartial
  | 8 => Some BaseFileInstantTimeOfRecordPositions
  | _ => None
  end.

Definition metadata_key_try_from (b : bytes) : res BlockMetadataKey :=
  ok_or (metadata_key_of_ordinal (from_be_bytes b)) ELogFormat.

Lemma metadata_key_of_ordinal_ordinal k :
  metadata_key_of_ordinal (metadata_key_ordinal k) = Some k.
Proof. by destruct k. Qed.

Global Instance BlockMetadataKey_countable : Countable BlockMetadataKey :=
  inj_countable metadata_key_ordinal metadata_key_of_ordinal metadata_key_of_ordinal_ordinal.

Abbreviation metadata_map := (gmap BlockMetadataKey string).

Inductive CommandBlock := Rollback.

Definition command_block_from_str (s : string) : res CommandBlock :=
  match parse_u32 s with
  | Some 0%N => Ok Rollback
  | Some _ => Err ELogFormat
  | None => Err ELogFormat
  end.

(** The decoders of the four kinds of payload ([decode_avro_record_content] and
    its siblings in content.rs); each returns what it decoded and how many of the
    payload's bytes it read.  An HFile block decodes to records or to batches,
    as the decoder is configured. *)
Class ContentDecoder {AB : ArrowBatch} := {
  decode_avro_record_content : bytes -> metadata_map -> res (RecordBatches * Z);
  decode_parquet_record_content : bytes -> res (RecordBatches * Z);
  decode_delete_record_content : bytes -> metadata_map -> res (RecordBatches * Z);
  decode_hfile_content : bytes -> metadata_map -> res ((list HFileRecord + RecordBatches) * Z)
}.

Section blocks.
Context {AB : ArrowBatch} {D : ContentDecoder}.

Inductive LogBlockContent :=
  | Records (batches : RecordBatches)
  | HFileRecords (records : list HFileRecord)
  | Empty.

Definition is_empty (c : LogBlockContent) : bool := match c with Empty => true | _ => false end.
Definition as_records (c : LogBlockContent) : option RecordBatches :=
  match c with Records b => Some b | _ => None end.
Definition as_hfile_records (c : LogBlockContent) : option (list HFileRecord) :=
  match c with HFileRecords r => Some r | _ => None end.

Record LogBlockContentLocation := mkLocation {
  content_position : Z;
  content_length : Z
}.

(** [DeferredContent] is its location: the fetcher reads the same object. *)
Record LogBlock := mkBlock {
  format_version : LogFormatVersion;
  block_type : BlockType;
  header : metadata_map;
  content : LogBlockContent;
  footer : metadata_map;
  deferred_content : option LogBlockContentLocation;
  resident_content : option bytes;
  skipped : bool
}.

Definition block_new (v : LogFormatVersion) (t : BlockType) (h : metadata_map)
    (c : LogBlockContent) (f : metadata_map) : LogBlock :=
  mkBlock v t h c f None None false.

Definition new_skipped (v : LogFormatVersion) (t : BlockType) (h : metadata_map) : LogBlock :=
  mkBlock v t h Empty ∅ None None true.

Definition instant_time (b : LogBlock) : res string := ok_or (header b !! InstantTime) ELogBlock.

Definition target_instant_time (b : LogBlock) : res string :=
  if decide (block_type b <> Command) then Err ELogBlock
  else ok_or (header b !! TargetInstantTime) ELogBlock.

Definition schema (b : LogBlock) : res string := ok_or (header b !! Schema) ELogBlock.

Definition command_block_type (b : LogBlock) : res CommandBlock :=
  if decide (block_type b <> Command) then Err ELogBlock
  else
    let? v := ok_or (header b !! CommandBlockType) ELogBlock in
    command_block_from_str v.

Definition record_positions_header (b : LogBlock) : option string := header b !! RecordPositions.

Definition base_file_instant_time_of_positions (b : LogBlock) : option string :=
  header b !! BaseFileInstantTimeOfRecordPositions.

Definition is_data_block (b : LogBlock) : bool :=
  match block_type b with
  | AvroData | HfileData | ParquetData | CdcData => true
  | _ => false
  end.

Definition is_delete_block (b : LogBlock) : bool := bool_decide (block_type b = Delete).

Definition is_rollback_block (b : LogBlock) : bool :=
  match command_block_type b with Ok Rollback => true | _ => false end.

(** [Decoder::decode_content] on a cursor over [input]: the content, and the
    cursor's position afterwards. *)
Definition decode_content (input : bytes) (log_format_version : LogFormatVersion)
    (fallback_length : Z) (t : BlockType) (h : metadata_map) : res (LogBlockContent * Z) :=
  let? (length, start) :=
    if has_content_length log_format_version then
      if blen input <? 8 then Err EReadLogFile
      else Ok (from_be_bytes (slice input 0 8), 8)
    else Ok (fallback_length, 0) in
  let payload := slice input start (Z.min (start + length) (blen input)) in
  let? (c, used) :=
    match t with
    | AvroData => let? (r, n) := decode_avro_record_content payload h in Ok (Records r, n)
    | ParquetData => let? (r, n) := decode_parquet_record_content payload in Ok (Records r, n)
    | Delete => let? (r, n) := decode_delete_record_content payload h in Ok (Records r, n)
    | HfileData =>
        let? (r, n) := decode_hfile_content payload h in
        Ok (match r with inl r => HFileRecords r | inr r => Records r end, n)
    | Command => Ok (Empty, 0)
    | _ => Err ELogBlock
    end in
  Ok (c, start + used).

(** [LogBlock::decode_fetched] *)
Definition decode_fetched (b : LogBlock) (fetched : bytes) : res LogBlock :=
  if negb (is_empty (content b)) then Ok b
  else match deferred_content b with
  | None => Err ELogBlock
  | Some location =>
      if negb (blen fetched =? content_length location) then Err ELogBlock
      else
        let? (c, _) := decode_content fetched (format_version b) (content_length location)
                         (block_type b) (header b) in
        Ok (mkBlock (format_version b) (block_type b) (header b) c (footer b)
              (if is_empty c then deferred_content b else None) (resident_content b) (skipped b))
  end.

(** [LogBlock::load_content]; [fetch] is the block's fetcher. *)
Definition load_content (fetch : Z -> Z -> io bytes) (b : LogBlock) : res LogBlock :=
  if negb (is_empty (content b)) then Ok b
  else match resident_content b with
  | Some bytes =>
      decode_fetched (mkBlock (format_version b) (block_type b) (header b) (content b) (footer b)
        (deferred_content b) None (skipped b)) bytes
  | None =>
      match deferred_content b with
      | None => Err ELogBlock
      | Some location =>
          match fetch (content_position location) (content_length location) with
          | IoOk bytes => decode_fetched b bytes
          | _ => Err EReadLogFile
          end
      end
  end.
End blocks.

(** * UTF-8

    [String::from_utf8] accepts exactly the well-formed sequences of the
    Unicode standard's table 3-7. *)
Definition in_range (lo hi : Z) (c : ascii) : bool := (lo <=? byte_value c) && (byte_value c <=? hi).

Fixpoint valid_utf8 (b : bytes) : bool :=
  match b with
  | [] => true
  | c1 :: b1 =>
      if in_range 0 127 c1 then valid_utf8 b1
      else match b1 with
      | [] => false
      | c2 :: b2 =>
          if in_range 194 223 c1 then in_range 128 191 c2 && valid_utf8 b2
          else match b2 with
          | [] => false
          | c3 :: b3 =>
              if in_range 224 239 c1 then
                in_range (if byte_value c1 =? 224 then 160 else 128)
                         (if byte_value c1 =? 237 then 159 else 191) c2 &&
                in_range 128 191 c3 && valid_utf8 b3
              else match b3 with
              | [] => false
              | c4 :: b4 =>
                  in_range 240 244 c1 &&
                  in_range (if byte_value c1 =? 240 then 144 else 128)
                           (if byte_value c1 =? 244 then 143 else 191) c2 &&
                  in_range 128 191 c3 && in_range 128 191 c4 && valid_utf8 b4
              end
          end
      end
  end.

Definition from_utf8 (b : bytes) : res string :=
  if valid_utf8 b then Ok (String.string_of_list_ascii b) else Err EUtf8.

(** * Encoding of integers *)
Lemma byte_value_range c : 0 <= byte_value c < 256.
Proof. unfold byte_value. pose proof (N_ascii_bounded c). lia. Qed.

Lemma byte_value_of_N n : 0 <= n < 256 -> byte_value (ascii_of_N (Z.to_N n)) = n.
Proof. intros. unfold byte_value. rewrite N_ascii_embedding by lia. lia. Qed.

Lemma from_be_bytes_snoc b c : from_be_bytes (b ++ [c]) = from_be_bytes b * 256 + byte_value c.
Proof. unfold from_be_bytes. by rewrite foldl_app. Qed.

Lemma from_be_bytes_nonneg b : 0 <= from_be_bytes b.
Proof.
  induction b as [|c b IH] using rev_ind; [done|]. rewrite from_be_bytes_snoc.
  pose proof (byte_value_range c). lia.
Qed.

Lemma length_to_be_bytes n v : length (to_be_bytes n v) = n.
Proof. revert v. induction n as [|n IH]; intros v; simpl; [done|]. rewrite length_app, IH. simpl. lia. Qed.

Lemma blen_to_be_bytes n v : blen (to_be_bytes n v) = Z.of_nat n.
Proof. unfold blen. by rewrite length_to_be_bytes. Qed.

Lemma from_to_be_bytes n v : 0 <= v < 256 ^ Z.of_nat n -> from_be_bytes (to_be_bytes n v) = v.
Proof.
  revert v. induction n as [|n IH]; intros v Hv; [simpl in Hv; cbn; lia|].
  cbn [to_be_bytes]. rewrite from_be_bytes_snoc.
  rewrite byte_value_of_N by (apply Z.mod_pos_bound; lia).
  rewrite Nat2Z.inj_succ, Z.pow_succ_r in Hv by lia.
  rewrite IH; [pose proof (Z.div_mod v 256); lia|].
  split; [apply Z.div_pos; lia|]. apply Z.div_lt_upper_bound; lia.
Qed.

Lemma block_type_ordinal_roundtrip t :
  block_type_try_from (to_be_bytes 4 (block_type_ordinal t)) = Ok t.
Proof. unfold block_type_try_from. by destruct t. Qed.

Lemma metadata_key_roundtrip k :
  metadata_key_try_from (to_be_bytes 4 (metadata_key_ordinal k)) = Ok k.
Proof. unfold metadata_key_try_from. by destruct k. Qed.

(** The names of block types parse back to the block type, except that an
    Avro data block prints as "avro" and only "avro_data" parses. *)
Theorem block_type_name_roundtrip t :
  block_type_from_str (block_type_as_ref t) = Ok t <-> t <> AvroData.
Proof. destruct t; vm_compute; split; intros H; done || discriminate. Qed.
