(* ===== verification/Utf8.v ===== *)
(** Bytes as text: [String::from_utf8_lossy]. *)
From Stdlib Require Import Ascii.
From stdpp Require Import base gmap sets list strings sorting numbers.
From S2P Require Import Prelude RustStr StorageReader RecordBatches LogFormat.
Local Open Scope Z_scope.

Definition str_of (b : bytes) : string := String.string_of_list_ascii b.

(** [String::from_utf8_lossy]: each longest ill-formed part becomes U+FFFD. *)
Definition replacement : bytes := map ascii_of_N [239; 191; 189]%N.

Definition continuation (c : ascii) : bool := in_range 128 191 c.

Definition second_of_three (c1 c2 : ascii) : bool :=
  in_range (if byte_value c1 =? 224 then 160 else 128) (if byte_value c1 =? 237 then 159 else 191) c2.

Definition second_of_four (c1 c2 : ascii) : bool :=
  in_range (if byte_value c1 =? 240 then 144 else 128) (if byte_value c1 =? 244 then 143 else 191) c2.

Fixpoint utf8_lossy (b : bytes) : bytes :=
  match b with
  | [] => []
  | c1 :: b1 =>
      if in_range 0 127 c1 then c1 :: utf8_lossy b1
      else match b1 with
      | [] => replacement
      | c2 :: b2 =>
          if in_range 194 223 c1 then
            if continuation c2 then c1 :: c2 :: utf8_lossy b2 else replacement ++ utf8_lossy b1
          else if in_range 224 239 c1 then
            if second_of_three c1 c2 then
              match b2 with
              | [] => replacement
              | c3 :: b3 =>
                  if continuation c3 then c1 :: c2 :: c3 :: utf8_lossy b3 else replacement ++ utf8_lossy b2
              end
            else replacement ++ utf8_lossy b1
          else if in_range 240 244 c1 then
            if second_of_four c1 c2 then
              match b2 with
              | [] => replacement
              | c3 :: b3 =>
                  if continuation c3 then
                    match b3 with
                    | [] => replacement
                    | c4 :: b4 =>
                        if continuation c4 then c1 :: c2 :: c3 :: c4 :: utf8_lossy b4
                        else replacement ++ utf8_lossy b3
                    end
                  else replacement ++ utf8_lossy b2
              end
            else replacement ++ utf8_lossy b1
          else replacement ++ utf8_lossy b1
      end
  end.

Definition from_utf8_lossy (b : bytes) : string := str_of (utf8_lossy b).
