(* ===== verification/LogReader.v ===== *)
(** Reading the blocks of a log file:
    crates/core/src/file_group/log_file/reader.rs.

    An operation on the reader takes the [StorageReader] and returns its result
    with the reader's new state.  The loop over blocks and the scan for the
    next magic take fuel; [read_all_blocks] and [scan_for_next_block_offset]
    give them the length of the file, which the theorems show is enough. *)
From Stdlib Require Import Ascii.
From stdpp Require Import base gmap sets list strings sorting numbers.
From S2P Require Import Prelude RustStr Chrono Config Instant Selector StorageReader RecordBatches LogFormat.
Local Open Scope Z_scope.

(** * Reader operations *)
Definition rd (A : Type) : Type := StorageReader -> res A * StorageReader.

Definition rd_ret {A} (a : A) : rd A := fun r => (Ok a, r).
Definition rd_fail {A} (e : CoreError) : rd A := fun r => (Err e, r).
Definition rd_lift {A} (x : res A) : rd A := fun r => (x, r).
Definition rd_bind {A B} (m : rd A) (k : A -> rd B) : rd B := fun r =>
  match m r with
  | (Ok a, r') => k a r'
  | (Err e, r') => (Err e, r')
  | (Panic, r') => (Panic, r')
  end.

Declare Scope rd_scope.
Delimit Scope rd_scope with rd.
Notation "'let!' x ':=' m 'in' k" := (rd_bind m (fun x => k))
  (at level 10, x pattern, m at level 100, k at level 200,
   format "'[v' 'let!'  x  ':='  m  'in' '/' k ']'") : rd_scope.
Local Open Scope rd_scope.

Definition position : rd Z := fun r => (Ok (pos r), r).
Definition stream_len : rd Z := fun r => (Ok (file_len r), r).
Definition seek (p : Z) : rd unit := fun r => (Ok tt, seek_to r p).

(** [for _ in 0..n], each iteration threading a state. *)
Fixpoint pos_iter {S} (n : positive) (f : S -> rd S) (s : S) : rd S :=
  match n with
  | xH => f s
  | xO n => let! s := pos_iter n f s in pos_iter n f s
  | xI n => let! s := f s in let! s := pos_iter n f s in pos_iter n f s
  end.

Definition for_range {S} (n : Z) (f : S -> rd S) (s : S) : rd S :=
  match n with
  | Zpos p => pos_iter p f s
  | _ => rd_ret s
  end.

(** First offset of [needle] within [haystack]. *)
Fixpoint find_from (n : nat) (haystack needle : bytes) : option nat :=
  if bool_decide (take (length needle) haystack = needle) then Some n
  else match haystack with
       | [] => None
       | _ :: haystack => find_from (S n) haystack needle
       end.

Definition find_subslice (haystack needle : bytes) : option nat :=
  if decide (needle = [] \/ (length haystack < length needle)%nat) then None
  else find_from 0 haystack needle.

Definition BLOCK_SCAN_READ_BUFFER_SIZE : Z := 1048576.

Definition MAGIC_LEN : Z := 6.

Section reading.
Context {C : Chrono} {AB : ArrowBatch} {D : ContentDecoder} {OS : ObjectStore}.

(** A read whose error is propagated as [ReadLogFileError]. *)
Definition read_exact (n : Z) : rd bytes := fun r =>
  match read_bytes r n with
  | (IoOk b, r') => (Ok b, r')
  | (_, r') => (Err EReadLogFile, r')
  end.

Definition read_magic : rd bool := fun r =>
  match read_bytes r MAGIC_LEN with
  | (IoOk b, r') => (if bool_decide (b = MAGIC) then Ok true else Err ELogFormat, r')
  | (IoEof, r') => (Ok false, r')
  | (IoErr, r') => (Err EReadLogFile, r')
  end.

Definition read_block_length : rd Z :=
  let! b := read_exact 8 in rd_ret (from_be_bytes b).

Definition next_is_magic_or_eof : rd bool := fun r =>
  match read_bytes r MAGIC_LEN with
  | (IoOk b, r') => (Ok (bool_decide (b = MAGIC)), r')
  | (IoEof, r') => (Ok true, r')
  | (IoErr, r') => (Err EReadLogFile, r')
  end.

Definition bind_opt {A B} (o : option A) (f : A -> option B) : option B :=
  match o with Some a => f a | None => None end.

Definition is_block_corrupted (magic_pos block_length : Z) : rd bool :=
  match bind_opt (checked_add magic_pos MAGIC_LEN) (fun v => checked_add v 8) with
  | None => rd_ret true
  | Some after_length =>
    match bind_opt (checked_add after_length block_length) (fun v => checked_sub v 8) with
    | None => rd_ret true
    | Some trailing_pos =>
      let! stream_len := stream_len in
      if match checked_add trailing_pos 8 with Some e => stream_len <? e | None => true end then
        let! _ := seek after_length in rd_ret true
      else
        let! _ := seek trailing_pos in
        let! b := read_exact 8 in
        let trailing := from_be_bytes b in
        let corrupt := match checked_sub trailing MAGIC_LEN with
                       | Some size_from_footer => negb (size_from_footer =? block_length)
                       | None => true
                       end in
        let! block_end := rd_lift (ok_or (checked_add after_length block_length) ELogFormat) in
        let! result :=
          if corrupt then rd_ret true
          else
            let! _ := seek block_end in
            let! found := next_is_magic_or_eof in
            rd_ret (negb found) in
        let! _ := seek after_length in
        rd_ret result
    end
  end.

(** The scanning loop, over windows of [window_size] bytes. *)
Fixpoint scan_loop (fuel : nat) (window_size pos : Z) : rd (option Z) :=
  match fuel with
  | O => rd_ret None
  | S fuel =>
      let! stream_len := stream_len in
      match checked_sub stream_len pos with
      | None => rd_ret (Some stream_len)
      | Some remaining =>
          let window := Z.min remaining window_size in
          if window =? 0 then rd_ret (Some stream_len)
          else
            let! _ := seek pos in
            let! buf := read_exact window in
            match find_subslice buf MAGIC with
            | Some idx => rd_ret (Some (pos + Z.of_nat idx))
            | None =>
                if window <? window_size then rd_ret (Some stream_len)
                else scan_loop fuel window_size (pos + (window - (MAGIC_LEN - 1)))
            end
      end
  end.

Definition scan_for_next_block_offset (from_pos : Z) : rd Z := fun r =>
  (let! o := scan_loop (S (Z.to_nat (file_len r))) BLOCK_SCAN_READ_BUFFER_SIZE
               (saturating_add from_pos MAGIC_LEN) in
   rd_lift (ok_or o ELogFormat)) r.

Definition create_corrupted_block (magic_pos : Z) : rd LogBlock :=
  let! next_offset := scan_for_next_block_offset magic_pos in
  let! _ := seek next_offset in
  rd_ret (block_new FormatV1 Corrupted ∅ Empty ∅).

Definition read_log_format_version : rd LogFormatVersion :=
  let! b := read_exact 4 in rd_lift (format_version_try_from b).

Definition read_block_type (format_version : LogFormatVersion) : rd BlockType :=
  if negb (has_block_type format_version) then rd_fail ELogFormat
  else let! b := read_exact 4 in rd_lift (block_type_try_from b).

(** One entry of a header or footer. *)
Definition read_metadata_entry (metadata : metadata_map) : rd metadata_map :=
  let! key_buf := read_exact 4 in
  let! key := rd_lift (metadata_key_try_from key_buf) in
  let! value_len_buf := read_exact 4 in
  let! value_buf := read_exact (from_be_bytes value_len_buf) in
  let! value := rd_lift (from_utf8 value_buf) in
  rd_ret (<[key := value]> metadata).

Definition read_block_metadata (metadata_type : BlockMetadataType)
    (format_version : LogFormatVersion) : rd metadata_map :=
  if match metadata_type with
     | Header => negb (has_header format_version)
     | Footer => negb (has_footer format_version)
     end
  then rd_ret ∅
  else
    let! num_entries_buf := read_exact 4 in
    for_range (from_be_bytes num_entries_buf) read_metadata_entry ∅.

Definition read_total_block_length (format_version : LogFormatVersion) : rd (option Z) :=
  if negb (has_total_log_block_length format_version) then rd_ret None
  else let! b := read_exact 8 in rd_ret (Some (from_be_bytes b)).

Definition should_skip_block (timezone : string) (header : metadata_map)
    (instant_range : InstantRange) : res bool :=
  res_bind (ok_or (header !! InstantTime) ELogFormat)
    (fun instant_time => not_in_range instant_range instant_time timezone).

Definition block_end (magic_pos block_length : Z) : res Z :=
  ok_or (bind_opt (bind_opt (checked_add magic_pos MAGIC_LEN) (fun v => checked_add v 8))
           (fun v => checked_add v block_length)) ELogFormat.

(** [read_next_block_metadata_only]: the block, and what is left of the
    residency budget. *)
Definition read_next_block_metadata_only (resident_budget : Z) : rd (option LogBlock * Z) :=
  let! magic_pos := position in
  let! more := read_magic in
  if negb more then rd_ret (None, resident_budget)
  else
    let! block_length := read_block_length in
    let! corrupted := is_block_corrupted magic_pos block_length in
    if (corrupted : bool) then
      let! b := create_corrupted_block magic_pos in rd_ret (Some b, resident_budget)
    else
      let! format_version := read_log_format_version in
      let! block_type := read_block_type format_version in
      let! header := read_block_metadata Header format_version in
      let! content_position := position in
      let! payload_length :=
        if has_content_length format_version then read_block_length else rd_ret block_length in
      let! content_length :=
        if has_content_length format_version
        then rd_lift (ok_or (checked_add payload_length 8) ELogFormat)
        else rd_ret payload_length in
      let! after_content := rd_lift (ok_or (checked_add content_position content_length) ELogFormat) in
      let! (resident, budget) := fun r =>
        if (content_length <=? resident_budget) && has_resident r content_position after_content then
          (let! _ := seek content_position in
           let! window_slice := read_exact content_length in
           rd_ret (Some window_slice, resident_budget - content_length)) r
        else (Ok (None, resident_budget), r) in
      let! _ := seek after_content in
      let! footer := read_block_metadata Footer format_version in
      let! _ := read_total_block_length format_version in
      rd_ret (Some (mkBlock format_version block_type header Empty footer
                      (Some (mkLocation content_position content_length)) resident false), budget).

Definition read_next_block (timezone : string) (instant_range : InstantRange)
    : rd (option LogBlock) :=
  let! magic_pos := position in
  let! more := read_magic in
  if negb more then rd_ret None
  else
    let! block_length := read_block_length in
    let! corrupted := is_block_corrupted magic_pos block_length in
    if (corrupted : bool) then let! b := create_corrupted_block magic_pos in rd_ret (Some b)
    else
      let! block_end := rd_lift (block_end magic_pos block_length) in
      let! format_version := read_log_format_version in
      let! block_type := read_block_type format_version in
      let! header := read_block_metadata Header format_version in
      let! skip := rd_lift (should_skip_block timezone header instant_range) in
      if (skip : bool) then
        let! _ := seek block_end in
        rd_ret (Some (new_skipped format_version block_type header))
      else
        let! content_start := position in
        let! remaining := rd_lift (ok_or (checked_sub block_end content_start) ELogFormat) in
        let! content_bytes := read_exact remaining in
        let! (content, used) :=
          rd_lift (decode_content content_bytes format_version block_length block_type header) in
        let! _ := seek (content_start + used) in
        let! footer := read_block_metadata Footer format_version in
        let! _ := read_total_block_length format_version in
        rd_ret (Some (block_new format_version block_type header content footer)).

(** The [while let] loops. *)
Fixpoint read_all_loop (fuel : nat) (timezone : string) (instant_range : InstantRange)
    : rd (option (list LogBlock)) :=
  match fuel with
  | O => rd_ret None
  | S fuel =>
      let! next := read_next_block timezone instant_range in
      match next with
      | None => rd_ret (Some [])
      | Some block =>
          let! rest := read_all_loop fuel timezone instant_range in
          rd_ret ((fun bs => if skipped block then bs else block :: bs) <$> rest)
      end
  end.

Definition read_all_blocks (timezone : string) (instant_range : InstantRange)
    : rd (list LogBlock) := fun r =>
  (let! o := read_all_loop (S (Z.to_nat (file_len r))) timezone instant_range in
   rd_lift (ok_or o ELogFormat)) r.

Fixpoint read_all_metadata_loop (fuel : nat) (resident_budget : Z)
    : rd (option (list LogBlock * Z)) :=
  match fuel with
  | O => rd_ret None
  | S fuel =>
      let! (next, budget) := read_next_block_metadata_only resident_budget in
      match next with
      | None => rd_ret (Some ([], budget))
      | Some block =>
          let! rest := read_all_metadata_loop fuel budget in
          rd_ret ((fun '(bs, budget) => (block :: bs, budget)) <$> rest)
      end
  end.

Definition read_all_blocks_metadata_only (resident_budget : Z) : rd (list LogBlock * Z) := fun r =>
  (let! o := read_all_metadata_loop (S (Z.to_nat (file_len r))) resident_budget in
   rd_lift (ok_or o ELogFormat)) r.

Definition read_all_blocks_metadata_only_unbounded : rd (list LogBlock) :=
  let! (blocks, _) := read_all_blocks_metadata_only u64_max in
  rd_ret blocks.
End reading.

(** * Reads of a whole object *)

(** A reader of [object] at offset [p]. *)
Definition at_ (object : bytes) (p : Z) : StorageReader := seek_to (reader_new object) p.

(** [b] is found at offset [p] of the object. *)
Definition here (object : bytes) (p : Z) (b : bytes) : Prop :=
  0 <= p /\ p + blen b <= blen object /\ slice object p (p + blen b) = b.

(** A block's magic is found at offset [p]. *)
Definition magic_at (object : bytes) (p : Z) : Prop := here object p MAGIC.

(** The first magic from [from] on, or the end of the object. *)
Definition next_block_offset (object : bytes) (from r : Z) : Prop :=
  (r = blen object \/ from <= r /\ magic_at object r) /\
  forall q, from <= q < r -> ~ magic_at object q.

(** What makes a block acceptable: it fits in the object, its trailing length
    agrees with its leading one, and a magic or the end of the object follows. *)
Definition well_delimited (object : bytes) (magic_pos block_length : Z) : Prop :=
  let block_end := magic_pos + 14 + block_length in
  block_end <= blen object /\
  from_be_bytes (slice object (block_end - 8) block_end) = block_length + 6 /\
  (magic_at object block_end \/ blen object < block_end + 6).

Lemma rd_bind_assoc {A B E} (m : rd A) (k : A -> rd B) (k' : B -> rd E) r :
  rd_bind (rd_bind m k) k' r = rd_bind m (fun x => rd_bind (k x) k') r.
Proof. unfold rd_bind. by destruct (m r) as [[] ?]. Qed.

Lemma slice_here object p n :
  0 <= p -> 0 <= n -> p + n <= blen object -> here object p (slice object p (p + n)).
Proof.
  intros. unfold here. rewrite blen_slice by lia. replace (p + n - p) with n by lia.
  by split_and!; [lia..|].
Qed.

Lemma here_app object p a b :
  here object p (a ++ b) <-> here object p a /\ here object (p + blen a) b.
Proof.
  unfold here, slice. rewrite blen_app. pose proof (blen_nonneg a). pose proof (blen_nonneg b).
  assert (Ha : forall n, Z.to_nat (p + blen a + n - (p + blen a)) = Z.to_nat n) by (intros; f_equal; lia).
  replace (p + (blen a + blen b) - p) with (blen a + blen b) by lia.
  replace (p + blen a - p) with (blen a) by lia. rewrite Ha. split.
  - intros (Hp & Hl & He).
    assert (Hd : drop (Z.to_nat p) object = (a ++ b) ++ drop (Z.to_nat (blen a + blen b)) (drop (Z.to_nat p) object)).
    { rewrite <- He at 1. by rewrite take_drop. }
    split_and!; try lia; rewrite ?Z2Nat.inj_add, <-?drop_drop by lia; rewrite Hd;
      unfold blen; rewrite !Nat2Z.id, <- app_assoc.
    + by rewrite take_app_length.
    + rewrite drop_app_length, take_app_length. reflexivity.
  - intros [(Hp & Hl & He) (Hp' & Hl' & He')]. split_and!; try lia.
    rewrite Z2Nat.inj_add by lia. rewrite <- take_take_drop, He. f_equal.
    rewrite drop_drop, <- Z2Nat.inj_add by lia. done.
Qed.

Lemma here_end object b : here object (blen object) b -> b = [].
Proof. intros (? & ? & _). apply length_zero_iff_nil. unfold blen in *. lia. Qed.

Lemma here_whole object : here object 0 object.
Proof.
  unfold here, slice, blen. split_and!; try lia.
  rewrite drop_0, firstn_all2; [done|lia].
Qed.

Lemma magic_at_slice object p :
  magic_at object p <-> 0 <= p /\ p + 6 <= blen object /\ slice object p (p + 6) = MAGIC.
Proof. done. Qed.

Section whole.
Context {C : Chrono} {AB : ArrowBatch} {D : ContentDecoder} {OS : ObjectStore}.
Context (object : bytes) (Hobject : blen object <= u64_max).

Lemma at_seek p q : seek_to (at_ object p) q = at_ object q.
Proof. done. Qed.

Lemma read_bytes_at p n : 0 <= p -> 0 <= n -> p + n <= blen object ->
  read_bytes (at_ object p) n = (IoOk (slice object p (p + n)), at_ object (p + n)).
Proof using Hobject.
  intros Hp Hn Hl. unfold read_bytes. destruct (Z.eqb_spec n 0) as [->|Hn0].
  { rewrite Z.add_0_r. unfold slice. by rewrite Z.sub_diag. }
  unfold checked_add. cbn [pos at_ seek_to]. destruct (Z.leb_spec (p + n) u64_max); [|lia].
  cbn [file_len whole at_ seek_to reader_new]. destruct (Z.ltb_spec (blen object) (p + n)); [lia|done].
Qed.

Lemma read_bytes_short p n : 0 < n -> blen object < p + n <= u64_max ->
  read_bytes (at_ object p) n = (IoEof, at_ object p).
Proof.
  intros Hn Hl. unfold read_bytes. destruct (Z.eqb_spec n 0); [lia|].
  unfold checked_add. cbn [pos at_ seek_to]. destruct (Z.leb_spec (p + n) u64_max); [|lia].
  cbn [file_len whole at_ seek_to reader_new]. destruct (Z.ltb_spec (blen object) (p + n)); [done|lia].
Qed.

Lemma read_exact_at p n : 0 <= p -> 0 <= n -> p + n <= blen object ->
  read_exact n (at_ object p) = (Ok (slice object p (p + n)), at_ object (p + n)).
Proof using Hobject. intros. unfold read_exact. by rewrite read_bytes_at. Qed.

Lemma read_exact_here p b n : here object p b -> n = blen b ->
  read_exact n (at_ object p) = (Ok b, at_ object (p + n)).
Proof using Hobject.
  intros (Hp & Hl & He) ->. rewrite read_exact_at by (pose proof (blen_nonneg b); lia).
  by rewrite He.
Qed.

Lemma read_magic_here p : magic_at object p ->
  read_magic (at_ object p) = (Ok true, at_ object (p + 6)).
Proof using Hobject.
  intros (Hp & Hl & He). unfold read_magic, MAGIC_LEN.
  change (blen MAGIC) with 6 in *. rewrite read_bytes_at by lia.
  rewrite He, bool_decide_true by done. done.
Qed.

Lemma read_magic_end p : blen object < p + 6 <= u64_max ->
  read_magic (at_ object p) = (Ok false, at_ object p).
Proof. intros. unfold read_magic, MAGIC_LEN. by rewrite read_bytes_short by lia. Qed.
End whole.

(** * Recovery: the scan for the next block *)
Lemma find_from_spec needle haystack n : needle <> [] ->
  match find_from n haystack needle with
  | Some k => exists j, k = (n + j)%nat /\ take (length needle) (drop j haystack) = needle /\
      forall i, (i < j)%nat -> take (length needle) (drop i haystack) <> needle
  | None => forall i, take (length needle) (drop i haystack) <> needle
  end.
Proof.
  intros Hn. revert n. induction haystack as [|c h IH]; intros n; cbn [find_from];
    case_bool_decide as Hb.
  - rewrite firstn_nil in Hb. congruence.
  - intros i. rewrite drop_nil, firstn_nil. congruence.
  - exists 0%nat. split_and!; [lia|done|lia].
  - specialize (IH (S n)). destruct (find_from (S n) h needle).
    + destruct IH as (j & -> & Hj & Hlt). exists (S j). split_and!; [lia|done|].
      intros [|i] Hi; [done|]. apply Hlt. lia.
    + intros [|i]; [done|apply IH].
Qed.

Lemma magic_at_take buf q : 0 <= q ->
  magic_at buf q <-> take (length MAGIC) (drop (Z.to_nat q) buf) = MAGIC.
Proof.
  intros Hq. rewrite magic_at_slice. unfold slice.
  replace (q + 6 - q) with 6 by lia. change (Z.to_nat 6) with (length MAGIC).
  split; [by intros (_ & _ & ?)|]. intros He. split_and!; [done| |done].
  apply (f_equal (@length _)) in He. rewrite length_take, length_drop in He.
  change (length MAGIC) with 6%nat in He. unfold blen. lia.
Qed.

Lemma find_magic_spec buf :
  match find_subslice buf MAGIC with
  | Some k => magic_at buf (Z.of_nat k) /\ forall q, q < Z.of_nat k -> ~ magic_at buf q
  | None => forall q, ~ magic_at buf q
  end.
Proof.
  unfold find_subslice. destruct (decide _) as [[Hd|Hd]|Hd]; [done| |].
  - intros q (Hq & Hl & _). unfold blen in *. change (length MAGIC) with 6%nat in *. lia.
  - pose proof (find_from_spec MAGIC buf 0 ltac:(done)) as Hf.
    destruct (find_from 0 buf MAGIC).
    + destruct Hf as (j & -> & Hj & Hlt). simpl. split.
      { apply magic_at_take; [lia|]. by rewrite Nat2Z.id. }
      intros q Hq Hm. assert (0 <= q) by apply Hm. apply magic_at_take in Hm; [|done].
      by apply (Hlt (Z.to_nat q)); [lia|].
    + intros q Hm. assert (0 <= q) by apply Hm. apply magic_at_take in Hm; [|done].
      by apply (Hf (Z.to_nat q)).
Qed.

Lemma magic_at_window object p w q : 0 <= p -> 0 <= w -> p + w <= blen object ->
  magic_at (slice object p (p + w)) q <-> 0 <= q /\ q + 6 <= w /\ magic_at object (p + q).
Proof.
  intros Hp Hw Hl. rewrite !magic_at_slice, blen_slice by lia.
  replace (p + w - p) with w by lia.
  destruct (decide (0 <= q /\ q + 6 <= w)) as [[Hq Hq']|]; [|naive_solver lia].
  rewrite slice_slice by lia. rewrite Z.add_assoc. naive_solver lia.
Qed.

Lemma no_magic_past_end object q : blen object < q + 6 -> ~ magic_at object q.
Proof. intros Hq (_ & Hl & _). change (blen MAGIC) with 6 in Hl. lia. Qed.

Section scan.
Context {C : Chrono} {AB : ArrowBatch} {D : ContentDecoder} {OS : ObjectStore}.
Context (object : bytes) (Hobject : blen object <= u64_max).

Lemma next_block_offset_end from :
  blen object < from + 6 -> next_block_offset object from (blen object).
Proof. intros Hf. split; [by left|]. intros q Hq. apply no_magic_past_end. lia. Qed.

(** Windows overlap by one byte less than a magic: any window size above that
    finds every magic, and [fuel] above the number of bytes left is enough. *)
Lemma scan_loop_spec window_size fuel from p :
  5 < window_size -> 0 <= from -> (Z.to_nat (blen object - from) < fuel)%nat ->
  exists r p', scan_loop fuel window_size from (at_ object p) = (Ok (Some r), at_ object p') /\
    next_block_offset object from r.
Proof using Hobject.
  intros Hw. revert from p. induction fuel as [|fuel IH]; intros from p Hf Hfuel; [lia|].
  cbn [scan_loop]. unfold rd_bind at 1, stream_len. cbn [at_ seek_to file_len reader_new].
  unfold checked_sub. destruct (Z.leb_spec from (blen object)).
  2: { exists (blen object), p. split; [done|]. apply next_block_offset_end. lia. }
  set (w := Z.min _ _). destruct (Z.eqb_spec w 0).
  { exists (blen object), p. split; [done|]. apply next_block_offset_end. lia. }
  unfold rd_bind at 1, seek. rewrite at_seek. unfold rd_bind at 1.
  rewrite read_exact_at by (done || lia).
  pose proof (find_magic_spec (slice object from (from + w))) as Hm.
  destruct (find_subslice _ _) as [k|].
  - destruct Hm as [Hk Hlt]. apply magic_at_window in Hk; [|lia..].
    eexists _, _. split; [done|]. split; [right; split; [lia|apply Hk]|].
    intros q Hq Hmq. apply (Hlt (q - from)); [lia|].
    apply magic_at_window; [lia..|]. split_and!; [lia..|]. by rewrite Zplus_minus.
  - assert (Hnone : forall q, from <= q -> q + 6 <= from + w -> ~ magic_at object q).
    { intros q Hq Hq' Hmq. apply (Hm (q - from)).
      apply magic_at_window; [lia..|]. split_and!; [lia..|]. by rewrite Zplus_minus. }
    destruct (Z.ltb_spec w window_size).
    + eexists _, _. split; [done|]. split; [by left|]. intros q Hq.
      destruct (decide (q + 6 <= from + w)); [apply Hnone; lia|].
      apply no_magic_past_end. lia.
    + unfold MAGIC_LEN. destruct (IH (from + (w - (6 - 1))) (from + w)) as (r & p' & -> & Hr & Hlt); [lia..|].
      exists r, p'. split; [done|]. split.
      { destruct Hr as [|[? ?]]; [by left|right; split; [lia|done]]. }
      intros q Hq. destruct (decide (q + 6 <= from + w)); [apply Hnone; lia|].
      apply Hlt. lia.
Qed.

Lemma scan_for_next_block_offset_at from p : 0 <= from ->
  exists r p', scan_for_next_block_offset from (at_ object p) = (Ok r, at_ object p') /\
    next_block_offset object (from + 6) r.
Proof using Hobject.
  intros Hf. unfold scan_for_next_block_offset.
  change (file_len (at_ object p)) with (blen object).
  unfold saturating_add, MAGIC_LEN.
  destruct (scan_loop_spec BLOCK_SCAN_READ_BUFFER_SIZE (S (Z.to_nat (blen object)))
    (Z.min (from + 6) u64_max) p) as (r & p' & He & Hr); [by vm_compute|unfold u64_max; lia|lia|].
  exists r, p'. unfold rd_bind. rewrite He. split; [done|].
  destruct (decide (from + 6 <= u64_max)) as [|]; [by rewrite Z.min_l in Hr|].
  rewrite Z.min_r in Hr by lia. destruct Hr as [[->|[? Hm]] _].
  - apply next_block_offset_end. lia.
  - exfalso. revert Hm. apply no_magic_past_end. lia.
Qed.

Lemma create_corrupted_block_at magic_pos p : 0 <= magic_pos ->
  exists r, create_corrupted_block magic_pos (at_ object p)
      = (Ok (block_new FormatV1 Corrupted ∅ Empty ∅), at_ object r) /\
    next_block_offset object (magic_pos + 6) r.
Proof using Hobject.
  intros Hp. destruct (scan_for_next_block_offset_at magic_pos p Hp) as (r & p' & He & Hr).
  exists r. split; [|done]. unfold create_corrupted_block, rd_bind. by rewrite He.
Qed.
End scan.

(** * The corruption check *)
Section corruption.
Context {C : Chrono} {AB : ArrowBatch} {D : ContentDecoder} {OS : ObjectStore}.
Context (object : bytes) (Hobject : blen object + 6 <= u64_max).

Lemma next_is_magic_or_eof_at p : 0 <= p <= blen object ->
  exists b p', next_is_magic_or_eof (at_ object p) = (Ok b, at_ object p') /\
    (b = true <-> magic_at object p \/ blen object < p + 6).
Proof using Hobject.
  intros Hp. unfold next_is_magic_or_eof, MAGIC_LEN.
  destruct (decide (p + 6 <= blen object)).
  - rewrite read_bytes_at by lia. eexists _, _. split; [done|].
    rewrite bool_decide_eq_true, magic_at_slice. naive_solver lia.
  - rewrite read_bytes_short by lia. eexists _, _. split; [done|]. naive_solver lia.
Qed.

(** A block is accepted exactly when it is well delimited, whatever its length
    field holds; the reader is left after that field. *)
Lemma is_block_corrupted_at magic_pos block_length :
  0 <= magic_pos -> magic_pos + 14 <= blen object -> 0 <= block_length ->
  exists b, is_block_corrupted magic_pos block_length (at_ object (magic_pos + 14))
      = (Ok b, at_ object (magic_pos + 14)) /\
    (b = false <-> well_delimited object magic_pos block_length).
Proof using Hobject.
  intros Hp Hl Hb. unfold is_block_corrupted, checked_add, checked_sub, MAGIC_LEN, well_delimited.
  destruct (Z.leb_spec (magic_pos + 6) u64_max); [|lia]. cbn [bind_opt].
  destruct (Z.leb_spec (magic_pos + 6 + 8) u64_max); [|lia].
  replace (magic_pos + 6 + 8) with (magic_pos + 14) by lia.
  destruct (Z.leb_spec (magic_pos + 14 + block_length) u64_max); cbn [bind_opt].
  2: { exists true. split; [done|]. split; [done|lia]. }
  destruct (Z.leb_spec 8 (magic_pos + 14 + block_length)); [|lia].
  unfold rd_bind at 1, stream_len. change (file_len (at_ _ _)) with (blen object).
  replace (magic_pos + 14 + block_length - 8 + 8) with (magic_pos + 14 + block_length) by lia.
  destruct (Z.leb_spec (magic_pos + 14 + block_length) u64_max); [|lia].
  destruct (Z.ltb_spec (blen object) (magic_pos + 14 + block_length)).
  { exists true. split; [done|]. split; [done|lia]. }
  unfold rd_bind at 1, seek. rewrite at_seek. unfold rd_bind at 1.
  rewrite read_exact_at by lia.
  replace (magic_pos + 14 + block_length - 8 + 8) with (magic_pos + 14 + block_length) by lia.
  set (trailing := from_be_bytes _). unfold rd_bind at 1, rd_lift. cbn [ok_or].
  assert (Hc : forall c, match (if 6 <=? trailing then Some (trailing - 6) else None) with
      | Some s => negb (s =? block_length) | None => true end = c ->
    c = false <-> trailing = block_length + 6).
  { intros c <-. destruct (Z.leb_spec 6 trailing); [|split; [done|lia]].
    rewrite negb_false_iff. lia. }
  specialize (Hc _ eq_refl). destruct (match _ with Some _ => _ | None => _ end).
  - exists true. split; [done|]. split; [done|]. intros (_ & Ht & _). by apply Hc in Ht.
  - rewrite !rd_bind_assoc. unfold rd_bind at 1. rewrite at_seek, rd_bind_assoc.
    destruct (next_is_magic_or_eof_at (magic_pos + 14 + block_length)) as (b & p' & Hn & Hb');
      [lia|].
    unfold rd_bind at 1. rewrite Hn. exists (negb b). split; [done|].
    rewrite negb_false_iff, Hb'. split; [|by intros (_ & _ & ?)].
    intros Hm. split_and!; [lia|by apply Hc|done].
Qed.
End corruption.

(** * Progress and termination *)
Lemma rd_bind_Ok {A B} (m : rd A) (k : A -> rd B) b r r' :
  rd_bind m k r = (Ok b, r') <-> exists a r1, m r = (Ok a, r1) /\ k a r1 = (Ok b, r').
Proof.
  unfold rd_bind. destruct (m r) as [[a|e|] r1]; [naive_solver| |];
    (split; [done|by intros (? & ? & ? & _)]).
Qed.

(** What an operation does to the reader when it succeeds. *)
Definition forward (n : Z) (r r' : StorageReader) : Prop :=
  file_len r' = file_len r /\ pos r + n <= pos r'.

Definition advances {A} (m : rd A) : Prop :=
  forall r a r', m r = (Ok a, r') -> forward 0 r r'.

Section progress.
Context {C : Chrono} {AB : ArrowBatch} {D : ContentDecoder} {OS : ObjectStore}.

Lemma forward_refl r : forward 0 r r.
Proof. unfold forward. lia. Qed.

Lemma forward_trans n m r1 r2 r3 : forward n r1 r2 -> forward m r2 r3 -> forward (n + m) r1 r3.
Proof. unfold forward. intuition lia. Qed.

Lemma advances_const {A} (f : StorageReader -> res A) : advances (fun r => (f r, r)).
Proof. intros r a r' He. injection He as _ <-. apply forward_refl. Qed.

Lemma advances_bind {A B} (m : rd A) (k : A -> rd B) :
  advances m -> (forall r a r', m r = (Ok a, r') -> advances (k a)) -> advances (rd_bind m k).
Proof.
  intros Hm Hk r b r' (a & r1 & H1 & H2)%rd_bind_Ok.
  exact (forward_trans 0 0 _ _ _ (Hm _ _ _ H1) (Hk _ _ _ H1 _ _ _ H2)).
Qed.

Lemma fill_window_fields r x r' : fill_window r = (x, r') -> file_len r' = file_len r /\ pos r' = pos r.
Proof. unfold fill_window. destruct (get_range _ _); by injection 1 as <- <-. Qed.

Lemma read_bytes_ok r n b r' : read_bytes r n = (IoOk b, r') ->
  file_len r' = file_len r /\ pos r' = pos r + n /\ (0 < n -> pos r + n <= file_len r).
Proof.
  unfold read_bytes. destruct (Z.eqb_spec n 0) as [->|].
  { injection 1 as _ <-. lia. }
  unfold checked_add. destruct (Z.leb_spec (pos r + n) u64_max); [|done].
  destruct (Z.ltb_spec (file_len r) (pos r + n)); [done|].
  destruct (whole r). { injection 1 as _ <-. cbn. lia. }
  destruct (window_size r <? n).
  { destruct (get_range _ _); try done. injection 1 as _ <-. cbn. lia. }
  destruct (if negb _ then _ else _) as [[[]| |] r1] eqn:Hf; try done.
  assert (file_len r1 = file_len r /\ pos r1 = pos r) as [Hfl Hps].
  { destruct (negb _); [by eapply fill_window_fields|by injection Hf as <-]. }
  destruct (_ <? n); [done|]. injection 1 as _ <-. cbn. lia.
Qed.

Lemma read_bytes_eof r n r' : read_bytes r n = (IoEof, r') ->
  file_len r' = file_len r /\ pos r' = pos r.
Proof.
  unfold read_bytes. destruct (n =? 0); [done|]. destruct (checked_add _ _); [|done].
  destruct (_ <? _); [by injection 1 as <-|]. destruct (whole r); [done|].
  destruct (_ <? _). { destruct (get_range _ _); try done. by injection 1 as <-. }
  destruct (if negb _ then _ else _) as [x r2] eqn:Hf.
  assert (file_len r2 = file_len r /\ pos r2 = pos r).
  { destruct (negb _); [by eapply fill_window_fields|by injection Hf as _ <-]. }
  destruct x; [destruct (_ <? _)|..]; try done; by injection 1 as <-.
Qed.

Lemma read_exact_ok n r b r' : read_exact n r = (Ok b, r') ->
  file_len r' = file_len r /\ pos r' = pos r + n.
Proof.
  unfold read_exact. destruct (read_bytes r n) as [[x| |] r1] eqn:Hr; try done.
  injection 1 as <- <-. by apply read_bytes_ok in Hr as (? & ? & _).
Qed.

Lemma advances_read_exact n : 0 <= n -> advances (read_exact n).
Proof. intros Hn r b r' Hr. apply read_exact_ok in Hr. unfold forward. lia. Qed.

Lemma advances_pos_iter {S} n (f : S -> rd S) :
  (forall s, advances (f s)) -> forall s, advances (pos_iter n f s).
Proof.
  intros Hf. induction n as [n IH|n IH|]; intros s; cbn [pos_iter]; [| |apply Hf];
    repeat (apply advances_bind; [auto|intros _ ? _ _]); auto.
Qed.

Lemma advances_for_range {S} n (f : S -> rd S) s :
  (forall s, advances (f s)) -> advances (for_range n f s).
Proof.
  intros Hf. destruct n; cbn [for_range]; try apply (advances_const (fun _ => Ok s)).
  by apply advances_pos_iter.
Qed.

Lemma read_magic_ok r r' : read_magic r = (Ok true, r') ->
  file_len r' = file_len r /\ pos r' = pos r + 6 /\ pos r + 6 <= file_len r.
Proof.
  unfold read_magic, MAGIC_LEN. destruct (read_bytes r 6) as [[x| |] r1] eqn:Hr; try done.
  apply read_bytes_ok in Hr. case_bool_decide; [|done]. injection 1 as <-. intuition lia.
Qed.

Lemma is_block_corrupted_ok m len r b r' : is_block_corrupted m len r = (Ok b, r') ->
  file_len r' = file_len r /\ (pos r' = pos r \/ pos r' = m + 14).
Proof.
  unfold is_block_corrupted, checked_add at 1 2, MAGIC_LEN.
  destruct (Z.leb_spec (m + 6) u64_max); cbn [bind_opt]; [|injection 1 as _ <-; lia].
  destruct (_ <=? _); cbn [bind_opt]; [|injection 1 as _ <-; lia].
  destruct (bind_opt _ _); [|injection 1 as _ <-; lia].
  intros (sl & r1 & Hr1 & Hr)%rd_bind_Ok. injection Hr1 as <- <-.
  destruct (match checked_add _ _ with Some _ => _ | None => _ end).
  { injection Hr as _ <-. cbn. lia. }
  apply rd_bind_Ok in Hr as ([] & r1 & Hr1 & Hr). injection Hr1 as <-.
  apply rd_bind_Ok in Hr as (x & r2 & Hr2 & Hr). apply read_exact_ok in Hr2 as [Hf2 _].
  apply rd_bind_Ok in Hr as (e & r3 & Hr3 & Hr). unfold rd_lift in Hr3. injection Hr3 as _ <-.
  apply rd_bind_Ok in Hr as (y & r4 & Hr4 & Hr).
  apply rd_bind_Ok in Hr as ([] & r5 & Hr5 & Hr). injection Hr5 as <-. injection Hr as _ <-.
  cbn. split; [|lia]. cbn in Hf2. rewrite <- Hf2. revert Hr4.
  destruct (match checked_sub _ _ with Some _ => _ | None => _ end).
  { by injection 1 as _ <-. }
  intros ([] & r6 & Hr6 & Hr)%rd_bind_Ok. injection Hr6 as <-.
  apply rd_bind_Ok in Hr as (found & r7 & Hr7 & Hr). injection Hr as _ <-. revert Hr7.
  unfold next_is_magic_or_eof. destruct (read_bytes _ _) as [[bz| |] r8] eqn:Hz; try done.
  - apply read_bytes_ok in Hz. injection 1 as _ <-. apply Hz.
  - injection 1 as _ <-. by apply read_bytes_eof in Hz as [].
Qed.
End progress.

(** Decoders report how many of their payload's bytes they have read. *)
Class BoundedDecoder {AB : ArrowBatch} (D : ContentDecoder) : Prop := {
  avro_used p h r n : decode_avro_record_content p h = Ok (r, n) -> 0 <= n <= blen p;
  parquet_used p r n : decode_parquet_record_content p = Ok (r, n) -> 0 <= n <= blen p;
  delete_used p h r n : decode_delete_record_content p h = Ok (r, n) -> 0 <= n <= blen p;
  hfile_used p h r n : decode_hfile_content p h = Ok (r, n) -> 0 <= n <= blen p
}.

Lemma decode_content_used {AB : ArrowBatch} {D : ContentDecoder} `{!BoundedDecoder D} input v len t h c n :
  decode_content input v len t h = Ok (c, n) -> 0 <= n <= blen input.
Proof.
  unfold decode_content. intros ([l start] & Hl & Hc)%res_bind_Ok.
  assert (0 <= start <= blen input).
  { pose proof (blen_nonneg input). destruct (has_content_length v); [|injection Hl as _ <-; lia].
    destruct (Z.ltb_spec (blen input) 8); [done|]. injection Hl as _ <-. lia. }
  set (payload := slice _ _ _) in Hc.
  assert (blen payload <= blen input - start).
  { subst payload. unfold blen, slice. rewrite length_take, length_drop. unfold blen in *. lia. }
  apply res_bind_Ok in Hc as ([c' used] & Hu & Hc). injection Hc as _ <-.
  pose proof (blen_nonneg payload).
  assert (0 <= used <= blen payload); [|lia].
  destruct t; try done; try (injection Hu as _ <-; lia);
    apply res_bind_Ok in Hu as ([x m] & Hd & Hu); injection Hu as _ <-;
    eauto using avro_used, parquet_used, delete_used, hfile_used.
Qed.

Section termination.
Context {C : Chrono} {AB : ArrowBatch} {D : ContentDecoder} {OS : ObjectStore}.

Lemma scan_loop_ok window_size fuel from r x r' :
  5 < window_size -> scan_loop fuel window_size from r = (Ok (Some x), r') ->
  file_len r' = file_len r /\ Z.min from (file_len r) <= x.
Proof.
  intros Hw. revert from r. induction fuel as [|fuel IH]; intros from r; [done|].
  cbn [scan_loop]. intros (sl & r1 & Hr1 & Hr)%rd_bind_Ok. injection Hr1 as <- <-. revert Hr.
  unfold checked_sub. destruct (Z.leb_spec from (file_len r)); [|injection 1 as <- <-; lia].
  destruct (_ =? 0); [injection 1 as <- <-; lia|].
  intros ([] & r1 & Hr1 & Hr)%rd_bind_Ok. injection Hr1 as <-.
  apply rd_bind_Ok in Hr as (b & r2 & Hr2 & Hr). apply read_exact_ok in Hr2 as [Hf _].
  cbn in Hf. destruct (find_subslice _ _); [injection Hr as <- <-; lia|].
  revert Hr. destruct (Z.ltb_spec (Z.min (file_len r - from) window_size) window_size) as [|Hmin];
    [injection 1 as <- <-; lia|].
  intros [Hf' Hx]%IH. unfold MAGIC_LEN in Hx. lia.
Qed.

Lemma create_corrupted_block_ok magic_pos r b r' :
  create_corrupted_block magic_pos r = (Ok b, r') ->
  file_len r' = file_len r /\ Z.min (magic_pos + 6) (Z.min u64_max (file_len r)) <= pos r'.
Proof.
  unfold create_corrupted_block. intros (x & r1 & Hs & Hr)%rd_bind_Ok.
  injection Hr as _ <-. cbn. unfold scan_for_next_block_offset in Hs.
  apply rd_bind_Ok in Hs as (o & r2 & Hs & Ho). injection Ho as Ho <-.
  apply ok_or_Ok in Ho as ->. apply scan_loop_ok in Hs; [|by vm_compute].
  unfold saturating_add, MAGIC_LEN in Hs. lia.
Qed.

Lemma read_block_metadata_advances t v : advances (read_block_metadata t v).
Proof.
  unfold read_block_metadata. destruct (match t with Header => _ | Footer => _ end);
    [apply (advances_const (fun _ => Ok ∅))|].
  apply advances_bind; [by apply advances_read_exact|]. intros _ b _ _.
  apply advances_for_range. intros s. unfold read_metadata_entry.
  repeat (apply advances_bind; [|intros _ ? _ _]);
    try apply (advances_const (fun _ => _)); apply advances_read_exact; try done.
  apply from_be_bytes_nonneg.
Qed.

Lemma advances_seq {A B} (m : rd A) (k : A -> rd B) :
  advances m -> (forall a, advances (k a)) -> advances (rd_bind m k).
Proof. intros Hm Hk. apply advances_bind; auto. Qed.

Lemma read_log_format_version_advances : advances read_log_format_version.
Proof.
  apply advances_seq; [by apply advances_read_exact|]. intros b.
  apply (advances_const (fun _ => _)).
Qed.

Lemma read_block_type_advances v : advances (read_block_type v).
Proof.
  unfold read_block_type. destruct (negb _); [by intros r a r'|].
  apply advances_seq; [by apply advances_read_exact|]. intros b.
  apply (advances_const (fun _ => _)).
Qed.

Lemma read_total_block_length_advances v : advances (read_total_block_length v).
Proof.
  unfold read_total_block_length. destruct (negb _); [apply (advances_const (fun _ => _))|].
  apply advances_seq; [by apply advances_read_exact|]. intros b.
  apply (advances_const (fun _ => _)).
Qed.

(** The footer, the trailing length and the block made of them. *)
Lemma footer_advances {A} v (f : metadata_map -> A) :
  advances (let! footer := read_block_metadata Footer v in
            let! _ := read_total_block_length v in rd_ret (f footer)).
Proof.
  apply advances_seq; [apply read_block_metadata_advances|]. intros m.
  apply advances_seq; [apply read_total_block_length_advances|]. intros o.
  apply (advances_const (fun _ => _)).
Qed.

Definition progress (r r' : StorageReader) : Prop :=
  file_len r' = file_len r /\ pos r < pos r' /\ pos r < file_len r.

Lemma read_block_length_ok r n r' : read_block_length r = (Ok n, r') ->
  file_len r' = file_len r /\ pos r' = pos r + 8 /\ 0 <= n.
Proof.
  intros (b & r1 & Hr1 & Hr)%rd_bind_Ok. apply read_exact_ok in Hr1. injection Hr as <- <-.
  pose proof (from_be_bytes_nonneg b). intuition lia.
Qed.

(** What both readers of a block do first. *)
Lemma block_prefix_ok r r1 r2 r3 len c :
  read_magic r = (Ok true, r1) -> read_block_length r1 = (Ok len, r2) ->
  is_block_corrupted (pos r) len r2 = (Ok c, r3) ->
  file_len r3 = file_len r /\ pos r3 = pos r + 14 /\ 0 <= len /\ pos r + 6 <= file_len r.
Proof.
  intros (Hf & Hp & Hl)%read_magic_ok (Hf2 & Hp2 & Hn)%read_block_length_ok
    [Hf3 Hp3]%is_block_corrupted_ok. intuition lia.
Qed.

Lemma corrupted_progress r r3 b r' :
  file_len r <= u64_max -> file_len r3 = file_len r -> pos r + 6 <= file_len r ->
  create_corrupted_block (pos r) r3 = (Ok b, r') -> progress r r'.
Proof. intros Hu Hf Hl [Hf' Hp]%create_corrupted_block_ok. unfold progress. lia. Qed.

Lemma block_end_ok m len e : block_end m len = Ok e -> e = m + 14 + len.
Proof.
  unfold block_end, checked_add, MAGIC_LEN. intros He%ok_or_Ok. revert He.
  repeat (destruct (_ <=? _); cbn [bind_opt]; [|done]). intros [= <-]. lia.
Qed.

Lemma read_next_block_progress `{!BoundedDecoder D} tz range r b r' :
  file_len r <= u64_max -> read_next_block tz range r = (Ok (Some b), r') -> progress r r'.
Proof.
  intros Hu. unfold read_next_block. intros (mp & r0 & Hr0 & H)%rd_bind_Ok.
  injection Hr0 as <- <-. apply rd_bind_Ok in H as ([] & r1 & Hm & H); [|done]. cbn [negb] in H.
  apply rd_bind_Ok in H as (len & r2 & Hl & H). apply rd_bind_Ok in H as (c & r3 & Hc & H).
  pose proof (block_prefix_ok _ _ _ _ _ _ Hm Hl Hc) as (Hf3 & Hp3 & Hlen & Hfl).
  destruct c.
  { apply rd_bind_Ok in H as (b' & r4 & Hb & H). injection H as _ <-.
    by eapply corrupted_progress. }
  apply rd_bind_Ok in H as (e & r4 & He & H). injection He as He <-. apply block_end_ok in He as ->.
  apply rd_bind_Ok in H as (v & r5 & Hv & H). apply read_log_format_version_advances in Hv as [Hf5 Hp5].
  apply rd_bind_Ok in H as (t & r6 & Ht & H). apply read_block_type_advances in Ht as [Hf6 Hp6].
  apply rd_bind_Ok in H as (h & r7 & Hh & H). apply read_block_metadata_advances in Hh as [Hf7 Hp7].
  apply rd_bind_Ok in H as (skip & r8 & Hs & H). injection Hs as _ <-. unfold progress. destruct skip.
  { apply rd_bind_Ok in H as ([] & r9 & Hsk & H). injection Hsk as <-. injection H as _ <-. cbn. lia. }
  apply rd_bind_Ok in H as (cs & r9 & Hcs & H). injection Hcs as <- <-.
  apply rd_bind_Ok in H as (rem & r9 & Hrem & H). injection Hrem as Hrem <-.
  apply rd_bind_Ok in H as (input & r10 & Hin & H). apply read_exact_ok in Hin as [Hf10 _].
  apply rd_bind_Ok in H as ([content used] & r11 & Hdec & H). injection Hdec as Hdec <-.
  apply decode_content_used in Hdec as [Hused _].
  apply rd_bind_Ok in H as ([] & r12 & Hsk & H). injection Hsk as <-.
  apply (footer_advances v) in H as [Hf Hp]. cbn in Hf, Hp. lia.
Qed.

(** A footer is read after the end of the content, so the content is in the file. *)
Lemma footer_in_file {A} v (f : metadata_map -> A) r x r' : has_block_type v = true ->
  (let! footer := read_block_metadata Footer v in
   let! _ := read_total_block_length v in rd_ret (f footer)) r = (Ok x, r') -> pos r <= file_len r.
Proof.
  destruct v; [done|]. intros _ (m & r1 & Hm & _)%rd_bind_Ok. unfold read_block_metadata in Hm.
  cbn [has_footer negb] in Hm. apply rd_bind_Ok in Hm as (c & r2 & Hc & _). unfold read_exact in Hc.
  destruct (read_bytes r 4) as [[y| |] r3] eqn:Hr; try done. apply read_bytes_ok in Hr as (_ & _ & Hr). lia.
Qed.

Lemma read_block_type_has v r t r' : read_block_type v r = (Ok t, r') -> has_block_type v = true.
Proof. unfold read_block_type. by destruct (has_block_type v). Qed.

(** A block read without its content says where in the file it lies. *)
Definition content_in_file (file_len : Z) (b : LogBlock) : Prop :=
  content b = Empty /\
  forall loc, deferred_content b = Some loc ->
    0 <= content_position loc /\ 0 <= content_length loc /\
    content_position loc + content_length loc <= file_len.

Lemma checked_add_inv a b c : checked_add a b = Some c -> c = a + b.
Proof. unfold checked_add. destruct (_ <=? _); [by injection 1 as <-|done]. Qed.

(** The optional copy of the content leaves the file as it is. *)
Lemma resident_read_ok budget cp cl ac r res bud r' :
  (if (cl <=? budget) && has_resident r cp ac then
     (let! _ := seek cp in
      let! window_slice := read_exact cl in
      rd_ret (Some window_slice, budget - cl)) r
   else (Ok (None, budget), r)) = (Ok (res, bud), r') -> file_len r' = file_len r.
Proof.
  destruct (_ && _); [|by injection 1 as _ _ <-].
  intros ([] & r11 & Hsk & Hx)%rd_bind_Ok. injection Hsk as <-.
  apply rd_bind_Ok in Hx as (w & r12 & Hw & Hx). injection Hx as _ _ <-.
  apply read_exact_ok in Hw as [Hw _]. cbn in Hw. lia.
Qed.

Lemma read_next_block_metadata_only_ok budget r b budget' r' :
  file_len r <= u64_max -> 0 <= pos r ->
  read_next_block_metadata_only budget r = (Ok (Some b, budget'), r') ->
  progress r r' /\ content_in_file (file_len r) b.
Proof.
  intros Hu H0. unfold read_next_block_metadata_only. intros (mp & r0 & Hr0 & H)%rd_bind_Ok.
  injection Hr0 as <- <-. apply rd_bind_Ok in H as ([] & r1 & Hm & H); [|done]. cbn [negb] in H.
  apply rd_bind_Ok in H as (len & r2 & Hl & H). apply rd_bind_Ok in H as (c & r3 & Hc & H).
  pose proof (block_prefix_ok _ _ _ _ _ _ Hm Hl Hc) as (Hf3 & Hp3 & Hlen & Hfl).
  destruct c.
  { apply rd_bind_Ok in H as (b' & r4 & Hb & H). injection H as <- _ <-.
    split; [by eapply corrupted_progress|]. unfold create_corrupted_block in Hb.
    apply rd_bind_Ok in Hb as (x & r5 & _ & Hb). by injection Hb as <- _. }
  apply rd_bind_Ok in H as (v & r5 & Hv & H). apply read_log_format_version_advances in Hv as [Hf5 Hp5].
  apply rd_bind_Ok in H as (t & r6 & Ht & H). pose proof (read_block_type_has _ _ _ _ Ht) as Hhas.
  apply read_block_type_advances in Ht as [Hf6 Hp6].
  apply rd_bind_Ok in H as (h & r7 & Hh & H). apply read_block_metadata_advances in Hh as [Hf7 Hp7].
  apply rd_bind_Ok in H as (cp & r8 & Hcp & H). injection Hcp as <- <-.
  apply rd_bind_Ok in H as (pl & r8 & Hpl & H).
  assert (file_len r8 = file_len r /\ pos r7 <= pos r8 /\ 0 <= pl) as (Hf8 & Hp8 & Hpl0).
  { destruct (has_content_length v); [apply read_block_length_ok in Hpl; lia|].
    injection Hpl as <- <-. lia. }
  apply rd_bind_Ok in H as (cl & r9 & Hcl & H).
  assert (r9 = r8 /\ 0 <= cl) as [-> Hcl0].
  { destruct (has_content_length v); injection Hcl as Hcl <-; (split; [done|]); [|lia].
    apply ok_or_Ok, checked_add_inv in Hcl. lia. }
  apply rd_bind_Ok in H as (ac & r9 & Hac & H). injection Hac as Hac <-.
  apply ok_or_Ok, checked_add_inv in Hac as ->.
  apply rd_bind_Ok in H as ([res bud] & r10 & Hres%resident_read_ok & H).
  apply rd_bind_Ok in H as ([] & r12 & Hsk & H). injection Hsk as <-.
  pose proof (footer_in_file v _ _ _ _ Hhas H) as Hin.
  assert (Hb : content_in_file (file_len r) b).
  { apply rd_bind_Ok in H as (m & r13 & _ & H). apply rd_bind_Ok in H as (o & r14 & _ & H).
    injection H as <- _ _. split; [done|]. intros loc [= <-]. cbn in Hin |- *. lia. }
  apply (footer_advances v) in H as [Hf Hp]. cbn in Hf, Hp. unfold progress. split; [lia|done].
Qed.

Lemma read_all_metadata_in_file fuel : forall budget r bs budget' r',
  file_len r <= u64_max -> 0 <= pos r ->
  read_all_metadata_loop fuel budget r = (Ok (Some (bs, budget')), r') ->
  Forall (content_in_file (file_len r)) bs.
Proof.
  induction fuel as [|fuel IH]; intros budget r bs budget' r' Hu H0; cbn [read_all_metadata_loop]; [done|].
  intros ([[b|] bu] & r1 & Hn & H)%rd_bind_Ok; [|by injection H as <- _ _].
  apply read_next_block_metadata_only_ok in Hn as [(Hf & Hp & _) Hb]; [|done..].
  apply rd_bind_Ok in H as ([[rest bu']|] & r2 & Hl & H); [|done]. injection H as <- _ _.
  constructor; [done|]. rewrite <- Hf. eapply (IH bu r1); [lia|lia|done].
Qed.

Lemma read_all_loop_fuel `{!BoundedDecoder D} tz range fuel r :
  file_len r <= u64_max -> (Z.to_nat (file_len r - pos r) < fuel)%nat ->
  (read_all_loop fuel tz range r).1 <> Ok None.
Proof.
  revert r. induction fuel as [|fuel IH]; intros r Hu Hfuel; [lia|].
  cbn [read_all_loop]. unfold rd_bind at 1.
  destruct (read_next_block tz range r) as [[[b|]| |] r1] eqn:Hn; try done.
  apply read_next_block_progress in Hn as (Hf & Hp & Hl); [|done].
  specialize (IH r1 ltac:(lia) ltac:(lia)). unfold rd_bind.
  destruct (read_all_loop fuel tz range r1) as [[[]| |] ?]; done.
Qed.

Lemma read_all_metadata_loop_fuel fuel budget r :
  file_len r <= u64_max -> 0 <= pos r -> (Z.to_nat (file_len r - pos r) < fuel)%nat ->
  (read_all_metadata_loop fuel budget r).1 <> Ok None.
Proof.
  revert r budget. induction fuel as [|fuel IH]; intros r budget Hu H0 Hfuel; [lia|].
  cbn [read_all_metadata_loop]. unfold rd_bind at 1.
  destruct (read_next_block_metadata_only budget r) as [[[[b|] bu]| |] r1] eqn:Hn; try done.
  apply read_next_block_metadata_only_ok in Hn as [(Hf & Hp & Hl) _]; [|done..].
  specialize (IH r1 bu ltac:(lia) ltac:(lia) ltac:(lia)). unfold rd_bind.
  destruct (read_all_metadata_loop fuel bu r1) as [[[[]|]| |] ?]; done.
Qed.
End termination.

Lemma read_all_loop_S {C : Chrono} {AB : ArrowBatch} {D : ContentDecoder} {OS : ObjectStore} tz range fuel r :
  read_all_loop (S fuel) tz range r =
  match read_next_block tz range r with
  | (Ok None, r1) => (Ok (Some []), r1)
  | (Ok (Some b), r1) =>
      match read_all_loop fuel tz range r1 with
      | (Ok rest, r2) => (Ok ((fun bs => if skipped b then bs else b :: bs) <$> rest), r2)
      | other => other
      end
  | (Err e, r1) => (Err e, r1)
  | (Panic, r1) => (Panic, r1)
  end.
Proof.
  cbn [read_all_loop]. unfold rd_bind at 1.
  by destruct (read_next_block tz range r) as [[[b|]| |] r1].
Qed.

(** More fuel changes nothing. *)
Lemma read_all_loop_more_fuel {C : Chrono} {AB : ArrowBatch} {D : ContentDecoder} {OS : ObjectStore} tz range fuel r x r' :
  read_all_loop fuel tz range r = (x, r') -> x <> Ok None ->
  read_all_loop (S fuel) tz range r = (x, r').
Proof.
  revert r x r'. induction fuel as [|fuel IH]; intros r x r' Hx Hn; [by injection Hx as <- <-|].
  rewrite <- Hx, (read_all_loop_S tz range (S fuel)), (read_all_loop_S tz range fuel).
  rewrite read_all_loop_S in Hx.
  destruct (read_next_block tz range r) as [[[b|]| |] r1]; try done.
  destruct (read_all_loop fuel tz range r1) as [y r2] eqn:Hy.
  rewrite (IH _ _ _ Hy); [done|]. intros ->. apply Hn. by injection Hx as <- _.
Qed.

(** * Properties *)
Section properties.
Context {C : Chrono} {AB : ArrowBatch} {D : ContentDecoder} {OS : ObjectStore}.

(** The scan for the next block returns the offset of the first magic at
    least six bytes after the damaged block's own, straddling the scan's windows
    or not, and the end of the file when there is none; it always returns. *)
Theorem scan_finds_next_magic object from p :
  blen object <= u64_max -> 0 <= from ->
  exists r p', scan_for_next_block_offset from (at_ object p) = (Ok r, at_ object p') /\
    (r = blen object \/ from + 6 <= r /\ magic_at object r) /\
    forall q, from + 6 <= q < r -> ~ magic_at object q.
Proof. intros Hu Hf. by apply scan_for_next_block_offset_at. Qed.

(** The corruption check never fails, leaves the reader after the length
    field, and accepts exactly the blocks that end inside the file, whose two
    lengths agree and that are followed by a magic or by the end of the file --
    for every value of the length field, wrapped additions included. *)
Theorem corruption_check_exact object magic_pos block_length :
  blen object + 6 <= u64_max -> 0 <= magic_pos -> magic_pos + 14 <= blen object ->
  0 <= block_length ->
  exists b, is_block_corrupted magic_pos block_length (at_ object (magic_pos + 14))
      = (Ok b, at_ object (magic_pos + 14)) /\
    (b = false <-> well_delimited object magic_pos block_length).
Proof. intros. by apply is_block_corrupted_at. Qed.

(** Reading all blocks terminates on every reader and every content, eagerly
    or from headers only: each block moves the reader forward, so the loop ends
    within as many blocks as the file has bytes, and further fuel changes
    nothing. *)
Theorem read_all_blocks_terminates `{!BoundedDecoder D} tz range budget r :
  file_len r <= u64_max -> 0 <= pos r ->
  let enough := S (Z.to_nat (file_len r)) in
  (read_all_loop enough tz range r).1 <> Ok None /\
  (read_all_metadata_loop enough budget r).1 <> Ok None /\
  forall fuel, (enough <= fuel)%nat -> read_all_loop fuel tz range r = read_all_loop enough tz range r.
Proof.
  intros Hu Hp enough. subst enough.
  assert (Hn : (read_all_loop (S (Z.to_nat (file_len r))) tz range r).1 <> Ok None)
    by (apply read_all_loop_fuel; lia).
  split_and!; [done|apply read_all_metadata_loop_fuel; lia|].
  intros fuel Hf. induction Hf as [|fuel Hf IH]; [done|].
  rewrite <- IH in Hn |- *. destruct (read_all_loop fuel tz range r) as [x r'] eqn:Hx.
  by apply read_all_loop_more_fuel.
Qed.
End properties.

(** A decoder that keeps each payload as it is, one batch of as many rows as
    bytes. *)
Definition raw_batch : ArrowBatch := {| RecordBatch := bytes; num_rows := blen |}.

Definition raw_data (p : bytes) : RecordBatches (AB := raw_batch) :=
  push_data_batch (AB := raw_batch) batches_new p.
Definition raw_delete (p : bytes) : RecordBatches (AB := raw_batch) :=
  push_delete_batch (AB := raw_batch) batches_new p EmptyString.

Definition raw_decoder : ContentDecoder (AB := raw_batch) := {|
  decode_avro_record_content p _ := Ok (raw_data p, blen p);
  decode_parquet_record_content p := Ok (raw_data p, blen p);
  decode_delete_record_content p _ := Ok (raw_delete p, blen p);
  decode_hfile_content p _ := Ok (inl [mkHFileRecord [] p], blen p)
|}.

#[export] Instance raw_decoder_bounded : BoundedDecoder raw_decoder.
Proof. split; cbn; intros; simplify_eq; (split; [apply blen_nonneg|done]). Qed.

(** A damaged block (its length field says 2^64-1) before another magic. *)
Definition damaged_sample : bytes :=
  String.list_ascii_of_string "#HUDI#" ++ to_be_bytes 8 u64_max ++
  String.list_ascii_of_string "#HUD#HUDI#".

Lemma scan_finds_next_magic_witness :
  blen damaged_sample <= u64_max /\
  exists r, next_block_offset damaged_sample 6 r /\ r = 18.
Proof.
  assert (Hu : blen damaged_sample <= u64_max) by (vm_compute; discriminate).
  split; [exact Hu|].
  destruct (scan_finds_next_magic (OS := store_of damaged_sample) damaged_sample 0 14 Hu
    ltac:(lia)) as (r & p' & He & Hr & Hn).
  assert (Hv : (scan_for_next_block_offset (OS := store_of damaged_sample) 0
    (at_ damaged_sample 14)).1 = Ok 18) by vm_eq.
  rewrite He in Hv. injection Hv as ->. exists 18. split; [split; [exact Hr|exact Hn]|reflexivity].
Defined.

Lemma corruption_check_exact_witness :
  blen damaged_sample + 6 <= u64_max /\
  (is_block_corrupted (OS := store_of damaged_sample) 0 u64_max (at_ damaged_sample 14)).1 = Ok true /\
  ~ well_delimited damaged_sample 0 u64_max.
Proof.
  assert (Hu : blen damaged_sample + 6 <= u64_max) by (vm_compute; discriminate).
  split; [exact Hu|].
  destruct (corruption_check_exact (OS := store_of damaged_sample) damaged_sample 0 u64_max Hu
    ltac:(lia) ltac:(vm_compute; discriminate) ltac:(vm_compute; discriminate)) as (b & He & Hb).
  assert (Hv : (is_block_corrupted (OS := store_of damaged_sample) 0 u64_max
    (at_ damaged_sample 14)).1 = Ok true) by vm_eq.
  split; [exact Hv|]. change (0 + 14) with 14 in He. rewrite He in Hv. injection Hv as ->.
  intros Hw. apply Hb in Hw. discriminate.
Defined.

Lemma read_all_blocks_terminates_witness :
  let r := new_streaming (blen damaged_sample) 7 in
  file_len r <= u64_max /\
  (read_all_loop (C := Civil.civil) (D := raw_decoder) (OS := store_of damaged_sample)
     (S (Z.to_nat (file_len r))) "UTC" (up_to "20240402000000" "UTC") r).1 <> Ok None.
Proof.
  assert (Hu : file_len (new_streaming (blen damaged_sample) 7) <= u64_max)
    by (vm_compute; discriminate).
  split; [exact Hu|].
  apply (read_all_blocks_terminates (C := Civil.civil) (D := raw_decoder)
    (OS := store_of damaged_sample) "UTC" (up_to "20240402000000" "UTC") 0
    (new_streaming (blen damaged_sample) 7)); [exact Hu|vm_compute; discriminate].
Defined.
