(* ===== verification/LogEncoding.v ===== *)
(** The bytes of a well-formed log file, and what reader.rs makes of them.

    The crate reads log files that Hudi's writers produce; [encode_block] is the
    layout its reader documents, written out as a specification: magic, length,
    format version 1, block type, header, content length and content, footer,
    total length. *)
From Stdlib Require Import Ascii.
From stdpp Require Import base gmap sets list strings sorting numbers.
From S2P Require Import Prelude RustStr Chrono Config Instant Selector StorageReader RecordBatches LogFormat LogReader.
Local Open Scope Z_scope.
Local Open Scope rd_scope.

(** * The layout *)
Definition string_bytes (s : string) : bytes := String.list_ascii_of_string s.

Definition encode_entry (e : BlockMetadataKey * string) : bytes :=
  to_be_bytes 4 (metadata_key_ordinal e.1) ++ to_be_bytes 4 (blen (string_bytes e.2)) ++
  string_bytes e.2.

Definition encode_metadata (m : metadata_map) : bytes :=
  to_be_bytes 4 (Z.of_nat (length (map_to_list m))) ++
  concat (encode_entry <$> map_to_list m).

Section encoding.
Context {C : Chrono} {AB : ArrowBatch} {D : ContentDecoder} {OS : ObjectStore}.

(** A block as its writer has it: the payload and what it decodes to. *)
Record WrittenBlock := mkWritten {
  wb_type : BlockType;
  wb_header : metadata_map;
  wb_payload : bytes;
  wb_content : LogBlockContent;
  wb_footer : metadata_map
}.

Definition encode_body (b : WrittenBlock) : bytes :=
  to_be_bytes 4 1 ++ to_be_bytes 4 (block_type_ordinal (wb_type b)) ++
  encode_metadata (wb_header b) ++
  to_be_bytes 8 (blen (wb_payload b)) ++ wb_payload b ++
  encode_metadata (wb_footer b).

Definition encoded_length (b : WrittenBlock) : Z := blen (encode_body b) + 8.

Definition encode_block (b : WrittenBlock) : bytes :=
  MAGIC ++ to_be_bytes 8 (encoded_length b) ++ encode_body b ++
  to_be_bytes 8 (encoded_length b + 6).

(** The payload decodes to the content, all of it read. *)
Definition decodes (b : WrittenBlock) : Prop :=
  let p := wb_payload b in
  match wb_type b with
  | AvroData => exists r, decode_avro_record_content p (wb_header b) = Ok (r, blen p) /\
      wb_content b = Records r
  | ParquetData => exists r, decode_parquet_record_content p = Ok (r, blen p) /\
      wb_content b = Records r
  | Delete => exists r, decode_delete_record_content p (wb_header b) = Ok (r, blen p) /\
      wb_content b = Records r
  | HfileData => exists r, decode_hfile_content p (wb_header b) = Ok (r, blen p) /\
      wb_content b = match r with inl r => HFileRecords r | inr r => Records r end
  | Command => p = [] /\ wb_content b = Empty
  | Corrupted | CdcData => False
  end.

Definition metadata_fits (m : metadata_map) : Prop :=
  map_Forall (fun _ v => valid_utf8 (string_bytes v) = true /\ blen (string_bytes v) < 2 ^ 32) m.

Record wf_written (b : WrittenBlock) : Prop := {
  wf_header : metadata_fits (wb_header b);
  wf_footer : metadata_fits (wb_footer b);
  wf_decodes : decodes b
}.

(** What the eager reader makes of the block. *)
Definition block_of (b : WrittenBlock) : LogBlock :=
  block_new FormatV1 (wb_type b) (wb_header b) (wb_content b) (wb_footer b).

Definition read_as (tz : string) (range : InstantRange) (b : WrittenBlock) : LogBlock :=
  match should_skip_block tz (wb_header b) range with
  | Ok true => new_skipped FormatV1 (wb_type b) (wb_header b)
  | _ => block_of b
  end.

(** The blocks a range admits. *)
Definition admitted (tz : string) (range : InstantRange) (bs : list WrittenBlock) : list LogBlock :=
  block_of <$> filter (fun b => should_skip_block tz (wb_header b) range = Ok false) bs.

(** The instant of each block can be compared with the range. *)
Definition comparable (tz : string) (range : InstantRange) (b : WrittenBlock) : Prop :=
  is_Ok (should_skip_block tz (wb_header b) range) = true.

(** What the lazy walk knows of the block: all but its content, which loads. *)
Definition loads_as (fetch : Z -> Z -> io bytes) (b : WrittenBlock) (lazy : LogBlock) : Prop :=
  content lazy = Empty /\ skipped lazy = false /\
  exists loaded, load_content fetch lazy = Ok loaded /\
    format_version loaded = FormatV1 /\ block_type loaded = wb_type b /\
    header loaded = wb_header b /\ content loaded = wb_content b /\
    footer loaded = wb_footer b.

Definition resident_bytes (bs : list LogBlock) : Z :=
  foldr (fun b n => match resident_content b with Some c => blen c | None => 0 end + n) 0 bs.
End encoding.

(** * Header and footer entries *)
Lemma ascii_roundtrip s : String.string_of_list_ascii (string_bytes s) = s.
Proof. apply String.string_of_list_ascii_of_string. Qed.

Lemma from_utf8_string s : valid_utf8 (string_bytes s) = true -> from_utf8 (string_bytes s) = Ok s.
Proof. intros Hv. unfold from_utf8. by rewrite Hv, ascii_roundtrip. Qed.

Lemma metadata_size (m : metadata_map) : (length (map_to_list m) <= 9)%nat.
Proof.
  set (keys := [InstantTime; TargetInstantTime; Schema; CommandBlockType; CompactedBlockTimes;
    RecordPositions; BlockIdentifier; IsPartial; BaseFileInstantTimeOfRecordPositions]).
  change 9%nat with (length keys). rewrite <- (length_fmap fst (map_to_list m)).
  apply submseteq_length, NoDup_submseteq; [apply NoDup_fst_map_to_list|].
  intros k _. subst keys. destruct k; set_solver.
Qed.

(** The counted loop as an iteration over [nat]. *)
Fixpoint nat_iter {S} (n : nat) (f : S -> rd S) (s : S) : rd S :=
  match n with
  | O => rd_ret s
  | Datatypes.S n => let! s := f s in nat_iter n f s
  end.

Lemma nat_iter_add {S} n m (f : S -> rd S) s r :
  nat_iter (n + m) f s r = rd_bind (nat_iter n f s) (nat_iter m f) r.
Proof.
  revert s r. induction n as [|n IH]; intros s r; [done|]. cbn [nat_iter Nat.add].
  rewrite rd_bind_assoc. unfold rd_bind at 1 2. destruct (f s r) as [[] ?]; [apply IH|done..].
Qed.

Lemma rd_bind_ext {A B} (m m' : rd A) (k k' : A -> rd B) r :
  m r = m' r -> (forall a r, k a r = k' a r) -> rd_bind m k r = rd_bind m' k' r.
Proof. intros Hm Hk. unfold rd_bind. rewrite Hm. destruct (m' r) as [[] ?]; auto. Qed.

Lemma pos_iter_nat {S} n (f : S -> rd S) s r : pos_iter n f s r = nat_iter (Pos.to_nat n) f s r.
Proof.
  revert s r. induction n as [n IH|n IH|]; intros s r; cbn [pos_iter].
  - replace (Pos.to_nat n~1) with (1 + (Pos.to_nat n + Pos.to_nat n))%nat by lia.
    cbn [nat_iter Nat.add]. apply rd_bind_ext; [done|]. intros a r'. rewrite nat_iter_add.
    by apply rd_bind_ext.
  - replace (Pos.to_nat n~0) with (Pos.to_nat n + Pos.to_nat n)%nat by lia.
    rewrite nat_iter_add. by apply rd_bind_ext.
  - change (Pos.to_nat 1) with 1%nat. cbn [nat_iter]. unfold rd_bind, rd_ret.
    by destruct (f s r) as [[] ?].
Qed.

Lemma for_range_nat {S} n (f : S -> rd S) s r : for_range (Z.of_nat n) f s r = nat_iter n f s r.
Proof.
  destruct n as [|n]; [done|].
  change (pos_iter (Pos.of_succ_nat n) f s r = nat_iter (Datatypes.S n) f s r).
  by rewrite pos_iter_nat, SuccNat2Pos.id_succ.
Qed.

Section reading.
Context {C : Chrono} {AB : ArrowBatch} {D : ContentDecoder} {OS : ObjectStore}.
Context (object : bytes) (Hobject : blen object + 6 <= u64_max).

Lemma read_u_here k v p : here object p (to_be_bytes k v) ->
  read_exact (Z.of_nat k) (at_ object p) = (Ok (to_be_bytes k v), at_ object (p + Z.of_nat k)).
Proof using Hobject.
  intros Hh. apply read_exact_here; [lia|done|]. by rewrite blen_to_be_bytes.
Qed.

Lemma metadata_key_ordinal_range k : 0 <= metadata_key_ordinal k <= 8.
Proof. destruct k; cbn; lia. Qed.

Lemma read_entry_here e p m :
  here object p (encode_entry e) -> valid_utf8 (string_bytes e.2) = true ->
  blen (string_bytes e.2) < 2 ^ 32 ->
  read_metadata_entry m (at_ object p)
  = (Ok (<[e.1 := e.2]> m), at_ object (p + blen (encode_entry e))).
Proof using Hobject.
  intros Hh Hv Hl. unfold encode_entry in *. rewrite !blen_app, !blen_to_be_bytes.
  apply here_app in Hh as [Hk Hh]. apply here_app in Hh as [Hn Hh].
  rewrite !blen_to_be_bytes in Hh, Hn. unfold read_metadata_entry.
  unfold rd_bind at 1. change 4 with (Z.of_nat 4). rewrite (read_u_here _ _ _ Hk).
  unfold rd_bind at 1, rd_lift at 1. rewrite metadata_key_roundtrip.
  unfold rd_bind at 1. rewrite (read_u_here _ _ _ Hn).
  pose proof (blen_nonneg (string_bytes e.2)). unfold rd_bind at 1.
  rewrite from_to_be_bytes by (cbn; lia).
  rewrite (read_exact_here object ltac:(lia) _ _ _ Hh) by done.
  unfold rd_bind, rd_lift. rewrite from_utf8_string by done. unfold rd_ret. do 2 f_equal.
  rewrite blen_to_be_bytes. lia.
Qed.

Lemma read_entries_here l p m :
  here object p (concat (encode_entry <$> l)) ->
  List.Forall (fun e => valid_utf8 (string_bytes e.2) = true /\ blen (string_bytes e.2) < 2 ^ 32) l ->
  nat_iter (length l) read_metadata_entry m (at_ object p)
  = (Ok (foldl (fun m e => <[e.1 := e.2]> m) m l),
     at_ object (p + blen (concat (encode_entry <$> l)))).
Proof using Hobject.
  revert p m. induction l as [|e l IH]; intros p m Hh Hl.
  - cbn. change (blen []) with 0. by rewrite Z.add_0_r.
  - rewrite fmap_cons in *. cbn [concat nat_iter length foldl] in *.
    apply here_app in Hh as [He Hh]. apply List.Forall_cons_iff in Hl as [[Hv Hn] Hl].
    unfold rd_bind. rewrite (read_entry_here e p m He Hv Hn), IH by done.
    rewrite blen_app. do 2 f_equal. lia.
Qed.

Lemma foldl_insert_list (l : list (BlockMetadataKey * string)) (m : metadata_map) :
  NoDup l.*1 -> foldl (fun m e => <[e.1 := e.2]> m) m l = (list_to_map l : metadata_map) ∪ m.
Proof.
  revert m. induction l as [|[k v] l IH]; intros m Hd; cbn [foldl].
  { by rewrite list_to_map_nil, (left_id_L ∅ (∪)). }
  rewrite fmap_cons in Hd. apply list.NoDup_cons in Hd as [Hk Hd].
  rewrite IH by done. apply not_elem_of_list_to_map_1 in Hk.
  rewrite list_to_map_cons, <- insert_union_r by done. by rewrite insert_union_l.
Qed.

Lemma read_block_metadata_here t m p :
  here object p (encode_metadata m) -> metadata_fits m ->
  read_block_metadata t FormatV1 (at_ object p) = (Ok m, at_ object (p + blen (encode_metadata m))).
Proof using Hobject.
  intros Hh Hm. unfold encode_metadata in *. apply here_app in Hh as [Hn Hh].
  rewrite blen_to_be_bytes in Hh. unfold read_block_metadata.
  assert (Hv : match t with Header => negb (has_header FormatV1)
    | Footer => negb (has_footer FormatV1) end = false) by by destruct t. rewrite Hv.
  unfold rd_bind. change 4 with (Z.of_nat 4) at 1. rewrite (read_u_here _ _ _ Hn).
  pose proof (metadata_size m).
  rewrite from_to_be_bytes by (cbn; lia). rewrite for_range_nat, read_entries_here; [|done|].
  - rewrite foldl_insert_list by apply NoDup_fst_map_to_list.
    rewrite (right_id_L ∅ (∪)), list_to_map_to_list, blen_app, blen_to_be_bytes.
    do 2 f_equal. lia.
  - apply List.Forall_forall. intros [k v] Hin. apply list_elem_of_In, elem_of_map_to_list in Hin.
    apply (Hm k v Hin).
Qed.
End reading.

(** * One block *)
Section block.
Context {C : Chrono} {AB : ArrowBatch} {D : ContentDecoder} {OS : ObjectStore}.
Context (object : bytes) (Hobject : blen object + 6 <= u64_max).

(** Where the parts of an encoded block are. *)
Record laid_out (p : Z) (b : WrittenBlock) (hl pl fl : Z) : Prop := {
  lo_hl : hl = blen (encode_metadata (wb_header b));
  lo_pl : pl = blen (wb_payload b);
  lo_fl : fl = blen (encode_metadata (wb_footer b));
  lo_nonneg : 0 <= p /\ 0 <= hl /\ 0 <= pl /\ 0 <= fl;
  lo_total : encoded_length b = 24 + hl + pl + fl;
  lo_end : p + 14 + encoded_length b <= blen object;
  lo_magic : magic_at object p;
  lo_length : here object (p + 6) (to_be_bytes 8 (encoded_length b));
  lo_version : here object (p + 14) (to_be_bytes 4 1);
  lo_type : here object (p + 18) (to_be_bytes 4 (block_type_ordinal (wb_type b)));
  lo_header : here object (p + 22) (encode_metadata (wb_header b));
  lo_content : here object (p + 22 + hl) (to_be_bytes 8 pl ++ wb_payload b ++
    encode_metadata (wb_footer b) ++ to_be_bytes 8 (encoded_length b + 6));
  lo_footer : here object (p + 30 + hl + pl) (encode_metadata (wb_footer b));
  lo_trailing : here object (p + 30 + hl + pl + fl) (to_be_bytes 8 (encoded_length b + 6))
}.

Lemma blen_MAGIC : blen MAGIC = 6.
Proof. done. Qed.

Lemma blen_encode_block (b : WrittenBlock) : blen (encode_block b) = 14 + encoded_length b.
Proof.
  unfold encode_block, encoded_length. rewrite !blen_app, !blen_to_be_bytes, blen_MAGIC. lia.
Qed.

Lemma here_add p q b : here object p b -> p = q -> here object q b.
Proof. by intros ? <-. Qed.

Lemma encoded_layout p b : here object p (encode_block b) ->
  exists hl pl fl, laid_out p b hl pl fl.
Proof.
  intros Hh. pose proof Hh as (Hp & He & _). rewrite blen_encode_block in He.
  exists (blen (encode_metadata (wb_header b))), (blen (wb_payload b)),
    (blen (encode_metadata (wb_footer b))).
  pose proof (blen_nonneg (encode_metadata (wb_header b))).
  pose proof (blen_nonneg (encode_metadata (wb_footer b))). pose proof (blen_nonneg (wb_payload b)).
  unfold encode_block, encode_body in Hh. rewrite <- !app_assoc in Hh.
  apply here_app in Hh as [Hmagic Hh]. apply here_app in Hh as [Hlen Hh].
  apply here_app in Hh as [Hver Hh]. apply here_app in Hh as [Hty Hh].
  apply here_app in Hh as [Hhdr Hcon]. pose proof Hcon as Hh.
  apply here_app in Hh as [_ Hh]. apply here_app in Hh as [_ Hh].
  apply here_app in Hh as [Hftr Htr].
  rewrite ?blen_to_be_bytes, ?blen_MAGIC in *.
  assert (Ht : encoded_length b = 24 + blen (encode_metadata (wb_header b)) +
    blen (wb_payload b) + blen (encode_metadata (wb_footer b))).
  { unfold encoded_length, encode_body. rewrite !blen_app, !blen_to_be_bytes. lia. }
  split; try done; try lia; eapply here_add; try eassumption; lia.
Qed.

Lemma read_u64_here p v : here object p (to_be_bytes 8 v) -> 0 <= v <= u64_max ->
  read_block_length (at_ object p) = (Ok v, at_ object (p + 8)).
Proof using Hobject.
  intros Hh Hv. unfold read_block_length, rd_bind. change 8 with (Z.of_nat 8) at 1.
  rewrite (read_u_here object Hobject _ _ _ Hh), from_to_be_bytes; [done|]. unfold u64_max in Hv. cbn. lia.
Qed.

(** A block followed by another one, or by the end of the file. *)
Definition delimited_at (q : Z) : Prop := magic_at object q \/ blen object < q + 6.

Lemma encoded_well_delimited p b hl pl fl :
  laid_out p b hl pl fl -> delimited_at (p + 14 + encoded_length b) ->
  well_delimited object p (encoded_length b).
Proof using Hobject.
  intros [] Hd. unfold well_delimited. split_and!; [done| |done].
  destruct lo_trailing0 as (_ & _ & Ht). rewrite blen_to_be_bytes in Ht.
  replace (p + 14 + encoded_length b - 8) with (p + 30 + hl + pl + fl) by lia.
  replace (p + 14 + encoded_length b) with (p + 30 + hl + pl + fl + Z.of_nat 8) by lia.
  rewrite Ht. apply from_to_be_bytes. unfold u64_max in *. cbn. lia.
Qed.

(** Up to the header, which both readers of a block begin with. *)
Lemma read_prefix_here p b hl pl fl :
  laid_out p b hl pl fl -> wf_written b -> delimited_at (p + 14 + encoded_length b) ->
  read_magic (at_ object p) = (Ok true, at_ object (p + 6)) /\
  read_block_length (at_ object (p + 6)) = (Ok (encoded_length b), at_ object (p + 14)) /\
  is_block_corrupted p (encoded_length b) (at_ object (p + 14)) = (Ok false, at_ object (p + 14)) /\
  read_log_format_version (at_ object (p + 14)) = (Ok FormatV1, at_ object (p + 18)) /\
  read_block_type FormatV1 (at_ object (p + 18)) = (Ok (wb_type b), at_ object (p + 22)) /\
  read_block_metadata Header FormatV1 (at_ object (p + 22))
    = (Ok (wb_header b), at_ object (p + 22 + hl)) /\
  read_block_metadata Footer FormatV1 (at_ object (p + 30 + hl + pl))
    = (Ok (wb_footer b), at_ object (p + 30 + hl + pl + fl)) /\
  read_total_block_length FormatV1 (at_ object (p + 30 + hl + pl + fl))
    = (Ok (Some (encoded_length b + 6)), at_ object (p + 14 + encoded_length b)).
Proof using Hobject.
  intros Hlo Hwf Hd. pose proof (encoded_well_delimited _ _ _ _ _ Hlo Hd) as Hwd.
  destruct Hlo. destruct Hwf. split_and!.
  - by apply read_magic_here; [lia|].
  - replace (p + 14) with (p + 6 + 8) by lia. apply read_u64_here; [done|lia].
  - destruct (is_block_corrupted_at object Hobject p (encoded_length b)) as (c & Hc & Hiff); try lia.
    rewrite Hc. by apply Hiff in Hwd as ->.
  - unfold read_log_format_version, rd_bind. change 4 with (Z.of_nat 4) at 1.
    rewrite (read_u_here object Hobject _ _ _ lo_version0). unfold rd_lift. do 2 f_equal. lia.
  - unfold read_block_type, rd_bind. cbn [negb has_block_type]. change 4 with (Z.of_nat 4) at 1.
    rewrite (read_u_here object Hobject _ _ _ lo_type0). unfold rd_lift.
    rewrite block_type_ordinal_roundtrip. do 2 f_equal. lia.
  - subst hl. by apply read_block_metadata_here.
  - subst fl. by apply read_block_metadata_here.
  - unfold read_total_block_length. cbn [negb has_total_log_block_length].
    unfold rd_bind. change 8 with (Z.of_nat 8) at 1.
    rewrite (read_u_here object Hobject _ _ _ lo_trailing0), from_to_be_bytes
      by (unfold u64_max in *; cbn; lia).
    unfold rd_ret. do 2 f_equal. lia.
Qed.
End block.

Section read_block.
Context {C : Chrono} {AB : ArrowBatch} {D : ContentDecoder} {OS : ObjectStore}.
Context (object : bytes) (Hobject : blen object + 6 <= u64_max).

Lemma decode_content_encoded b rest fallback :
  decodes b -> blen (wb_payload b) <= u64_max ->
  decode_content (to_be_bytes 8 (blen (wb_payload b)) ++ wb_payload b ++ rest) FormatV1 fallback
    (wb_type b) (wb_header b) = Ok (wb_content b, 8 + blen (wb_payload b)).
Proof.
  intros Hd Hl. unfold decode_content. cbn [has_content_length].
  pose proof (blen_nonneg (wb_payload b)). pose proof (blen_nonneg rest).
  rewrite !blen_app, blen_to_be_bytes.
  destruct (Z.ltb_spec (Z.of_nat 8 + (blen (wb_payload b) + blen rest)) 8); [lia|].
  assert (Hlen : slice (to_be_bytes 8 (blen (wb_payload b)) ++ wb_payload b ++ rest) 0 8
    = to_be_bytes 8 (blen (wb_payload b))).
  { unfold slice. change (Z.to_nat (8 - 0)) with 8%nat. change (Z.to_nat 0) with 0%nat.
    rewrite drop_0. apply take_app_length'. by rewrite length_to_be_bytes. }
  rewrite Hlen, from_to_be_bytes by (unfold u64_max in *; cbn; lia). cbn [res_bind].
  rewrite Z.min_l by lia.
  assert (Hp : slice (to_be_bytes 8 (blen (wb_payload b)) ++ wb_payload b ++ rest) 8
    (8 + blen (wb_payload b)) = wb_payload b).
  { replace 8 with (blen (to_be_bytes 8 (blen (wb_payload b)))) at 2 3 by apply blen_to_be_bytes.
    apply slice_app_here. }
  rewrite Hp. unfold decodes in Hd.
  destruct (wb_type b); try done;
    try (destruct Hd as (x & Hx & ->); rewrite Hx; done).
  destruct Hd as [-> ->]. done.
Qed.

Lemma read_next_block_here tz range p b :
  here object p (encode_block b) -> wf_written b -> comparable tz range b ->
  delimited_at object (p + blen (encode_block b)) ->
  read_next_block tz range (at_ object p)
  = (Ok (Some (read_as tz range b)), at_ object (p + blen (encode_block b))).
Proof using Hobject.
  intros Hh Hwf Hcmp. rewrite blen_encode_block, Z.add_assoc. intros Hd.
  destruct (encoded_layout object p b Hh) as (hl & pl & fl & Hlo).
  destruct (read_prefix_here object Hobject p b hl pl fl Hlo Hwf Hd)
    as (Hm & Hl & Hc & Hv & Ht & Hhd & Hft & Htot).
  destruct Hlo. unfold read_next_block. unfold rd_bind at 1, position. change (pos (at_ object p)) with p.
  unfold rd_bind at 1. rewrite Hm. cbn [negb]. unfold rd_bind at 1. rewrite Hl.
  unfold rd_bind at 1. rewrite Hc. unfold rd_bind at 1, rd_lift at 1.
  assert (block_end p (encoded_length b) = Ok (p + 14 + encoded_length b)) as ->.
  { unfold block_end, checked_add, MAGIC_LEN. destruct (Z.leb_spec (p + 6) u64_max); [|lia].
    cbn [bind_opt]. destruct (Z.leb_spec (p + 6 + 8) u64_max); [|lia]. cbn [bind_opt].
    destruct (Z.leb_spec (p + 6 + 8 + encoded_length b) u64_max); [|lia]. cbn [ok_or]. f_equal. lia. }
  unfold rd_bind at 1. rewrite Hv. unfold rd_bind at 1. rewrite Ht.
  unfold rd_bind at 1. rewrite Hhd. unfold rd_bind at 1, rd_lift at 1, read_as.
  unfold comparable in Hcmp. apply is_Ok_true in Hcmp as [skip Hskip]. rewrite Hskip. destruct skip.
  { unfold rd_bind, seek. by rewrite at_seek. }
  unfold rd_bind at 1. change (pos (at_ object (p + 22 + hl))) with (p + 22 + hl).
  unfold rd_bind at 1, rd_lift at 1, checked_sub.
  destruct (Z.leb_spec (p + 22 + hl) (p + 14 + encoded_length b)); [|lia]. cbn [ok_or].
  unfold rd_bind at 1. rewrite (read_exact_here object ltac:(lia) _ _ _ lo_content0).
  2: { rewrite !blen_app, !blen_to_be_bytes. lia. }
  unfold rd_bind at 1, rd_lift at 1. subst pl.
  rewrite decode_content_encoded by (apply Hwf || lia).
  unfold rd_bind at 1, seek. rewrite at_seek.
  replace (p + 22 + hl + (8 + blen (wb_payload b))) with (p + 30 + hl + blen (wb_payload b)) by lia.
  unfold rd_bind at 1. rewrite Hft. unfold rd_bind. rewrite Htot. done.
Qed.

(** A damaged block: its magic and length are there, and the check refuses it. *)
Definition damaged (p : Z) : Prop :=
  magic_at object p /\ p + 14 <= blen object /\
  ~ well_delimited object p (from_be_bytes (slice object (p + 6) (p + 14))).

Definition corrupted_block : LogBlock := block_new FormatV1 Corrupted ∅ Empty ∅.

Lemma next_block_offset_unique from r r' :
  from <= blen object -> next_block_offset object from r -> next_block_offset object from r' -> r = r'.
Proof.
  assert (Hend : forall q, magic_at object q -> q < blen object).
  { intros q (? & Hq & _). rewrite blen_MAGIC in Hq. lia. }
  intros Hf [Hr Hn] [Hr' Hn']. destruct (Z.lt_trichotomy r r') as [Hlt|[?|Hlt]]; [|done|]; exfalso.
  - destruct Hr as [->|[? Hm]]; [|by apply (Hn' r); [lia|]].
    destruct Hr' as [->|[? Hm]]; [lia|]. apply Hend in Hm. lia.
  - destruct Hr' as [->|[? Hm]]; [|by apply (Hn r'); [lia|]].
    destruct Hr as [->|[? Hm]]; [lia|]. apply Hend in Hm. lia.
Qed.

Lemma read_next_block_damaged tz range p next :
  damaged p -> next_block_offset object (p + 6) next ->
  read_next_block tz range (at_ object p) = (Ok (Some corrupted_block), at_ object next).
Proof using Hobject.
  intros (Hm & Hl & Hw) Hnext. pose proof Hm as (Hp & _ & _).
  unfold read_next_block. unfold rd_bind at 1, position. change (pos (at_ object p)) with p.
  unfold rd_bind at 1. rewrite read_magic_here by (done || lia). cbn [negb].
  unfold rd_bind at 1, read_block_length at 1. unfold rd_bind at 1.
  rewrite read_exact_at by lia. replace (p + 6 + 8) with (p + 14) by lia. unfold rd_ret at 1.
  destruct (is_block_corrupted_at object Hobject p (from_be_bytes (slice object (p + 6) (p + 14))) Hp Hl
    (from_be_bytes_nonneg _)) as (c & Hc & Hiff).
  unfold rd_bind at 1. rewrite Hc. destruct c; [|exfalso; by apply Hw, Hiff].
  destruct (create_corrupted_block_at object ltac:(lia) p (p + 14) Hp) as (r & Hr & Hnr).
  unfold rd_bind. rewrite Hr. unfold rd_ret. do 2 f_equal.
  eapply next_block_offset_unique; [|done..]. lia.
Qed.
End read_block.

(** * Whole files *)
Section file.
Context {C : Chrono} {AB : ArrowBatch} {D : ContentDecoder} {OS : ObjectStore}.
Context (object : bytes) (Hobject : blen object + 6 <= u64_max).

Definition encode_blocks (bs : list WrittenBlock) : bytes := concat (encode_block <$> bs).

Lemma encode_blocks_cons b bs : encode_blocks (b :: bs) = encode_block b ++ encode_blocks bs.
Proof. done. Qed.

Lemma encode_block_size b : 14 <= blen (encode_block b).
Proof. rewrite blen_encode_block. unfold encoded_length. pose proof (blen_nonneg (encode_body b)). lia. Qed.

Lemma encode_blocks_size bs : Z.of_nat (length bs) * 14 <= blen (encode_blocks bs).
Proof.
  induction bs as [|b bs IH]; [done|]. rewrite encode_blocks_cons, blen_app. cbn [length].
  pose proof (encode_block_size b). lia.
Qed.

(** Whatever follows encoded blocks, each of them is delimited. *)
Lemma delimited_next p bs :
  here object p (encode_blocks bs) -> delimited_at object (p + blen (encode_blocks bs)) ->
  delimited_at object p.
Proof.
  destruct bs as [|b bs]; intros Hh Hd; [by rewrite Z.add_0_r in Hd|].
  rewrite encode_blocks_cons in Hh. apply here_app in Hh as [Hh _].
  unfold encode_block in Hh. apply here_app in Hh as [Hh _]. by left.
Qed.

Lemma admitted_cons tz range b bs :
  comparable tz range b ->
  admitted tz range (b :: bs)
  = if skipped (read_as tz range b) then admitted tz range bs
    else read_as tz range b :: admitted tz range bs.
Proof.
  unfold comparable, admitted, read_as. intros [x Hx]%is_Ok_true. rewrite filter_cons, Hx.
  destruct x; case_decide; done.
Qed.

Lemma read_all_loop_encoded tz range fuel p bs :
  here object p (encode_blocks bs) -> delimited_at object (p + blen (encode_blocks bs)) ->
  List.Forall wf_written bs -> List.Forall (comparable tz range) bs ->
  read_all_loop (length bs + fuel) tz range (at_ object p) =
  match read_all_loop fuel tz range (at_ object (p + blen (encode_blocks bs))) with
  | (Ok rest, r) => (Ok (app (admitted tz range bs) <$> rest), r)
  | other => other
  end.
Proof using Hobject.
  revert p. induction bs as [|b bs IH]; intros p Hh Hd Hwf Hcmp.
  - change (encode_blocks []) with (@nil Ascii.ascii). change (blen []) with 0.
    rewrite Z.add_0_r. cbn [length Nat.add].
    destruct (read_all_loop fuel tz range (at_ object p)) as [[[]| |] ?]; done.
  - rewrite encode_blocks_cons in *. rewrite blen_app, Z.add_assoc in *.
    apply here_app in Hh as [Hb Hh]. apply List.Forall_cons_iff in Hwf as [Hwb Hwf].
    apply List.Forall_cons_iff in Hcmp as [Hcb Hcmp].
    cbn [length Nat.add]. rewrite read_all_loop_S, (read_next_block_here object Hobject tz range p b Hb Hwb Hcb).
    2: by eapply delimited_next.
    rewrite IH by done. rewrite admitted_cons by done.
    destruct (read_all_loop fuel tz range _) as [[[rest|]| |] r]; try done.
    by destruct (skipped (read_as tz range b)).
Qed.

Lemma read_all_loop_end tz range fuel p :
  blen object < p + 6 <= u64_max ->
  read_all_loop (S fuel) tz range (at_ object p) = (Ok (Some []), at_ object p).
Proof.
  intros Hp. rewrite read_all_loop_S. unfold read_next_block.
  unfold rd_bind at 1, position. change (pos (at_ object p)) with p.
  unfold rd_bind at 1. by rewrite read_magic_end.
Qed.

Context `{!ServesObject OS object}.

Lemma get_range_serves p b : here object p b -> get_range p (blen b) = IoOk b.
Proof using Hobject ServesObject0.
  intros (Hp & Hl & Hs). pose proof (blen_nonneg b). unfold get_range, checked_add.
  destruct (Z.leb_spec (p + blen b) u64_max); [|lia]. by rewrite serves, Hs by lia.
Qed.

Lemma has_resident_at p from to : has_resident (at_ object p) from to = (to <=? blen object).
Proof. done. Qed.

(** The block's content, at its length field. *)
Definition content_bytes (b : WrittenBlock) : bytes :=
  to_be_bytes 8 (blen (wb_payload b)) ++ wb_payload b.

Lemma loads_as_location p b resident :
  here object p (content_bytes b) -> decodes b ->
  (forall c, resident = Some c -> c = content_bytes b) ->
  loads_as get_range b (mkBlock FormatV1 (wb_type b) (wb_header b) Empty (wb_footer b)
    (Some (mkLocation p (blen (content_bytes b)))) resident false).
Proof using Hobject ServesObject0.
  intros Hh Hd Hres. split; [done|]. split; [done|].
  assert (Hdec : decode_content (content_bytes b) FormatV1 (blen (content_bytes b)) (wb_type b)
    (wb_header b) = Ok (wb_content b, 8 + blen (wb_payload b))).
  { unfold content_bytes at 1. rewrite <- (app_nil_r (wb_payload b)) at 2.
    apply decode_content_encoded; [done|]. destruct Hh as (? & Hl & _).
    unfold content_bytes in Hl. rewrite blen_app in Hl. rewrite blen_to_be_bytes in Hl. lia. }
  unfold load_content. cbn [content is_empty negb resident_content deferred_content].
  assert (Hf : forall l, exists loaded,
    decode_fetched (mkBlock FormatV1 (wb_type b) (wb_header b) Empty (wb_footer b)
      (Some (mkLocation p (blen (content_bytes b)))) l false) (content_bytes b) = Ok loaded /\
    format_version loaded = FormatV1 /\ block_type loaded = wb_type b /\
    header loaded = wb_header b /\ content loaded = wb_content b /\ footer loaded = wb_footer b).
  { intros l. unfold decode_fetched.
    cbn [content is_empty negb deferred_content content_length format_version block_type header].
    rewrite Z.eqb_refl. cbn [negb]. rewrite Hdec. by eexists. }
  destruct resident as [c|]; [rewrite (Hres c eq_refl); apply Hf|].
  cbn [content_position content_length]. rewrite (get_range_serves _ _ Hh). apply Hf.
Qed.

Lemma read_metadata_only_here budget p b :
  0 <= budget -> here object p (encode_block b) -> wf_written b ->
  delimited_at object (p + blen (encode_block b)) ->
  exists lazy budget', read_next_block_metadata_only budget (at_ object p)
    = (Ok (Some lazy, budget'), at_ object (p + blen (encode_block b))) /\
    loads_as get_range b lazy /\
    resident_bytes [lazy] + budget' = budget /\ 0 <= budget'.
Proof using Hobject ServesObject0.
  intros Hbud Hh Hwf. rewrite blen_encode_block, Z.add_assoc. intros Hd.
  destruct (encoded_layout object p b Hh) as (hl & pl & fl & Hlo).
  destruct (read_prefix_here object Hobject p b hl pl fl Hlo Hwf Hd)
    as (Hm & Hl & Hc & Hv & Ht & Hhd & Hft & Htot).
  destruct Hlo. unfold read_next_block_metadata_only.
  unfold rd_bind at 1, position at 1. change (pos (at_ object p)) with p.
  unfold rd_bind at 1. rewrite Hm. cbn [negb]. unfold rd_bind at 1. rewrite Hl.
  unfold rd_bind at 1. rewrite Hc. unfold rd_bind at 1. rewrite Hv.
  unfold rd_bind at 1. rewrite Ht. unfold rd_bind at 1. rewrite Hhd.
  unfold rd_bind at 1, position. change (pos (at_ object (p + 22 + hl))) with (p + 22 + hl).
  cbn [has_content_length]. rewrite app_assoc in lo_content0.
  apply here_app in lo_content0 as [Hcon _]. subst pl.
  pose proof Hcon as Hlen. apply here_app in Hlen as [Hlen _].
  unfold rd_bind at 1. rewrite (read_u64_here object Hobject _ _ Hlen) by lia.
  unfold rd_bind at 1, rd_lift at 1, checked_add at 1.
  destruct (Z.leb_spec (blen (wb_payload b) + 8) u64_max); [|lia]. cbn [ok_or].
  unfold rd_bind at 1, rd_lift at 1, checked_add at 1.
  destruct (Z.leb_spec (p + 22 + hl + (blen (wb_payload b) + 8)) u64_max); [|lia]. cbn [ok_or].
  assert (Hcb : blen (content_bytes b) = blen (wb_payload b) + 8).
  { unfold content_bytes. rewrite blen_app, blen_to_be_bytes. lia. }
  fold (content_bytes b) in Hcon. rewrite <- Hcb.
  unfold rd_bind at 1. rewrite has_resident_at.
  replace (p + 22 + hl + blen (content_bytes b)) with (p + 30 + hl + blen (wb_payload b)) by lia.
  pose proof (blen_nonneg (content_bytes b)).
  destruct (Z.leb_spec (blen (content_bytes b)) budget) as [Hle|]; cbn [andb].
  1: destruct (Z.leb_spec (p + 30 + hl + blen (wb_payload b)) (blen object)); [|lia].
  1: unfold rd_bind at 1 2, seek at 1; rewrite at_seek, (read_exact_here object ltac:(lia) _ _ _ Hcon) by done.
  all: unfold rd_ret at 1 || idtac; unfold rd_bind at 1, seek; rewrite at_seek;
    unfold rd_bind at 1; rewrite Hft; unfold rd_bind at 1; rewrite Htot.
  all: eexists _, _; split; [done|]; split; [apply loads_as_location; [done|apply Hwf|]|].
  - by intros c [= <-].
  - unfold resident_bytes. cbn [foldr resident_content]. lia.
  - done.
  - unfold resident_bytes. cbn [foldr resident_content]. lia.
Qed.
End file.

Section whole_file.
Context {C : Chrono} {AB : ArrowBatch} {D : ContentDecoder} {OS : ObjectStore}.

Lemma reader_new_at object : reader_new object = at_ object 0.
Proof. done. Qed.

Lemma read_all_blocks_of_loop tz range r bs r' :
  read_all_loop (S (Z.to_nat (file_len r))) tz range r = (Ok (Some bs), r') ->
  (read_all_blocks tz range r).1 = Ok bs.
Proof. intros He. unfold read_all_blocks, rd_bind. by rewrite He. Qed.

Lemma read_all_metadata_loop_S fuel budget r :
  read_all_metadata_loop (S fuel) budget r =
  match read_next_block_metadata_only budget r with
  | (Ok (None, b), r1) => (Ok (Some ([], b)), r1)
  | (Ok (Some lb, b), r1) =>
      match read_all_metadata_loop fuel b r1 with
      | (Ok rest, r2) => (Ok ((fun '(bs, b) => (lb :: bs, b)) <$> rest), r2)
      | other => other
      end
  | (Err e, r1) => (Err e, r1)
  | (Panic, r1) => (Panic, r1)
  end.
Proof.
  cbn [read_all_metadata_loop]. unfold rd_bind at 1.
  by destruct (read_next_block_metadata_only budget r) as [[[[b|] bu]| |] r1].
Qed.

Lemma read_all_metadata_encoded object `{!ServesObject OS object} fuel budget p bs :
  blen object + 6 <= u64_max -> 0 <= budget ->
  here object p (encode_blocks bs) -> blen object = p + blen (encode_blocks bs) ->
  List.Forall wf_written bs -> (length bs < fuel)%nat ->
  exists lazies budget' r, read_all_metadata_loop fuel budget (at_ object p)
    = (Ok (Some (lazies, budget')), r) /\
    Forall2 (loads_as get_range) bs lazies /\
    resident_bytes lazies + budget' = budget /\ 0 <= budget'.
Proof.
  intros Hu. revert p budget fuel. induction bs as [|b bs IH]; intros p budget fuel Hb Hh He Hwf Hf;
    (destruct fuel as [|fuel]; [lia|]); rewrite read_all_metadata_loop_S.
  - exists [], budget, (at_ object p). change (blen (encode_blocks [])) with 0 in He.
    unfold read_next_block_metadata_only. unfold rd_bind at 1, position at 1.
    change (pos (at_ object p)) with p. unfold rd_bind at 1. rewrite read_magic_end by lia.
    cbn. split_and!; [done|constructor|lia..].
  - rewrite encode_blocks_cons in *. rewrite blen_app in He. apply here_app in Hh as [Hhb Hh].
    apply List.Forall_cons_iff in Hwf as [Hwb Hwf]. cbn [length] in Hf.
    assert (Hd : delimited_at object (p + blen (encode_block b))).
    { eapply delimited_next; [exact Hh|]. right. lia. }
    destruct (read_metadata_only_here object Hu budget p b Hb Hhb Hwb Hd)
      as (lazy & bu & -> & Hl & Hr & Hbu).
    destruct (IH (p + blen (encode_block b)) bu fuel Hbu Hh ltac:(lia) Hwf ltac:(lia))
      as (lazies & bu' & r & -> & Hls & Hrs & Hbu').
    exists (lazy :: lazies), bu', r. unfold resident_bytes in *. cbn [foldr] in *. split_and!; [done|by constructor|lia|done].
Qed.

Lemma read_all_blocks_encoded tz range bs :
  blen (encode_blocks bs) + 6 <= u64_max ->
  List.Forall wf_written bs -> List.Forall (comparable tz range) bs ->
  (read_all_blocks tz range (reader_new (encode_blocks bs))).1 = Ok (admitted tz range bs).
Proof.
  intros Hu Hwf Hcmp. set (object := encode_blocks bs) in *.
  assert (Hh : here object 0 (encode_blocks bs)) by apply here_whole.
  pose proof (encode_blocks_size bs). fold object in H.
  pose proof (read_all_loop_encoded object Hu tz range (S (Z.to_nat (blen object) - length bs)) 0 bs Hh)
    as Hloop. fold object in Hloop.
  rewrite read_all_loop_end in Hloop by lia.
  eapply read_all_blocks_of_loop. change (file_len _) with (blen object).
  replace (S (Z.to_nat (blen object))) with (length bs + S (Z.to_nat (blen object) - length bs))%nat by lia.
  rewrite reader_new_at, Hloop; [|right; lia|done..]. cbn. by rewrite app_nil_r.
Qed.

(** C33: reading a file of well-formed blocks returns exactly the blocks whose
    instant the range admits, in file order, each with its type, header, decoded
    content and footer. *)
Theorem read_all_blocks_roundtrip tz range bs :
  blen (encode_blocks bs) + 6 <= u64_max ->
  List.Forall wf_written bs -> List.Forall (comparable tz range) bs ->
  (read_all_blocks tz range (reader_new (encode_blocks bs))).1 = Ok (admitted tz range bs).
Proof. apply read_all_blocks_encoded. Qed.

(** C35: a damaged block costs its own span and nothing else: the blocks before
    it and, from the next magic on, the blocks after it are all read, with one
    corrupted block in its place.  A file cut anywhere inside its last block's
    body is the case with nothing after. *)
Theorem damaged_block_costs_its_span tz range before garbage after :
  let object := encode_blocks before ++ garbage ++ encode_blocks after in
  let p := blen (encode_blocks before) in
  blen object + 6 <= u64_max ->
  damaged object p -> next_block_offset object (p + 6) (p + blen garbage) ->
  List.Forall wf_written (before ++ after) -> List.Forall (comparable tz range) (before ++ after) ->
  (read_all_blocks tz range (reader_new object)).1
  = Ok (admitted tz range before ++ corrupted_block :: admitted tz range after).
Proof.
  intros object p Hu Hdam Hnext [Hw1 Hw2]%List.Forall_app [Hc1 Hc2]%List.Forall_app.
  assert (Hh : here object 0 object) by apply here_whole.
  unfold object at 2 in Hh. apply here_app in Hh as [Hb Hh]. apply here_app in Hh as [_ Ha].
  rewrite Z.add_0_l in Ha. fold p in Ha.
  pose proof (encode_blocks_size before) as Hs1. pose proof (encode_blocks_size after) as Hs2.
  assert (Hlen : blen object = p + blen garbage + blen (encode_blocks after))
    by (unfold object, p; rewrite !blen_app; lia).
  assert (Hg : 0 < blen garbage).
  { destruct Hnext as [[Hn|[Hn _]] _]; [|lia]. destruct Hdam as (_ & Hd & _).
    destruct (decide (blen garbage = 0)) as [Hz|]; [|pose proof (blen_nonneg garbage); lia]. lia. }
  set (k := (Z.to_nat (blen object) - length before - S (length after))%nat).
  pose proof (read_all_loop_encoded object Hu tz range (S (length after + S k)) 0 before Hb) as L1.
  rewrite Z.add_0_l in L1. fold p in L1.
  pose proof (read_all_loop_encoded object Hu tz range (S k) (p + blen garbage) after Ha) as L2.
  rewrite read_all_loop_end in L2 by lia.
  rewrite read_all_loop_S, (read_next_block_damaged object Hu tz range p _ Hdam Hnext) in L1.
  rewrite L2 in L1; [|right; lia|done..]. 
  eapply read_all_blocks_of_loop. change (file_len _) with (blen object).
  replace (S (Z.to_nat (blen object))) with (length before + S (length after + S k))%nat by lia.
  rewrite reader_new_at, L1; [|left; apply Hdam|done..]. cbn. by rewrite app_nil_r.
Qed.

(** C36: the walk that reads headers only finds the blocks of the file, and each
    one it returns, loaded later -- from the bytes it kept or by fetching its
    location -- is the block that was written; what it keeps stays within the
    residency budget it was given, to the byte. *)
Theorem lazy_blocks_load_what_was_written bs budget
    `{!ServesObject OS (encode_blocks bs)} :
  blen (encode_blocks bs) + 6 <= u64_max -> 0 <= budget ->
  List.Forall wf_written bs ->
  exists lazies budget',
    (read_all_blocks_metadata_only budget (reader_new (encode_blocks bs))).1
      = Ok (lazies, budget') /\
    Forall2 (loads_as get_range) bs lazies /\
    resident_bytes lazies + budget' = budget /\ 0 <= budget'.
Proof.
  intros Hu Hb Hwf. set (object := encode_blocks bs) in *.
  pose proof (encode_blocks_size bs) as Hsize. fold object in Hsize.
  destruct (read_all_metadata_encoded object (S (Z.to_nat (blen object))) budget 0 bs)
    as (lazies & bu & r & Hl & Hall & Hsum & Hbu); try done.
  { apply here_whole. } { lia. }
  exists lazies, bu. split_and!; try done.
  unfold read_all_blocks_metadata_only, rd_bind. change (file_len _) with (blen object).
  rewrite reader_new_at, Hl. done.
Qed.
End whole_file.

(** * Concrete files *)
Definition sample_header (instant : string) : metadata_map :=
  <[InstantTime := instant]> (<[Schema := "{}"%string]> ∅).

Definition data_sample : WrittenBlock (AB := raw_batch) :=
  mkWritten (AB := raw_batch) AvroData (sample_header "20240401000000") (string_bytes "rows")
    (Records (raw_data (string_bytes "rows"))) ∅.

Definition late_sample : WrittenBlock (AB := raw_batch) :=
  mkWritten (AB := raw_batch) Delete (sample_header "20240403000000") (string_bytes "keys #HUDI#")
    (Records (raw_delete (string_bytes "keys #HUDI#"))) (sample_header "x").

Definition range_sample : InstantRange := up_to "20240402000000" "UTC".

Lemma metadata_fits_sample instant :
  valid_utf8 (string_bytes instant) = true -> blen (string_bytes instant) < 2 ^ 32 ->
  metadata_fits (sample_header instant).
Proof.
  intros Hv Hl. apply map_Forall_insert_2; [done|].
  apply map_Forall_insert_2; [done|]. apply map_Forall_empty.
Qed.

Lemma wf_data_sample : wf_written (D := raw_decoder) data_sample.
Proof.
  split; [by apply metadata_fits_sample|apply map_Forall_empty|]. by eexists.
Qed.

Lemma wf_late_sample : wf_written (D := raw_decoder) late_sample.
Proof. split; [by apply metadata_fits_sample..|]. by eexists. Qed.

Lemma samples_wf : List.Forall (wf_written (D := raw_decoder)) [data_sample; late_sample].
Proof. constructor; [apply wf_data_sample|]. constructor; [apply wf_late_sample|constructor]. Qed.

Lemma samples_comparable :
  List.Forall (comparable (C := Civil.civil) "UTC" range_sample) [data_sample; late_sample].
Proof. constructor; [unfold comparable; vm_eq|]. constructor; [unfold comparable; vm_eq|constructor]. Qed.

Definition file_sample : bytes := encode_blocks [data_sample; late_sample].

Lemma read_all_blocks_roundtrip_witness :
  (read_all_blocks (C := Civil.civil) (D := raw_decoder) (OS := store_of file_sample) "UTC" range_sample
     (reader_new file_sample)).1
  = Ok (admitted (C := Civil.civil) "UTC" range_sample [data_sample; late_sample]) /\
  (fun b => content b) <$> admitted (C := Civil.civil) "UTC" range_sample [data_sample; late_sample]
  = [Records (raw_data (string_bytes "rows"))].
Proof.
  split; [|vm_eq].
  apply (read_all_blocks_roundtrip (C := Civil.civil) (D := raw_decoder) (OS := store_of file_sample) "UTC" range_sample
    [data_sample; late_sample]); [vm_compute; discriminate|exact samples_wf|exact samples_comparable].
Defined.

Lemma lazy_blocks_load_what_was_written_witness :
  exists lazies budget',
    (read_all_blocks_metadata_only (AB := raw_batch) (OS := store_of file_sample) 20 (reader_new file_sample)).1
      = Ok (lazies, budget') /\
    Forall2 (loads_as (D := raw_decoder) (get_range (OS := store_of file_sample))) [data_sample; late_sample] lazies /\
    resident_bytes lazies = 12 /\ budget' = 8.
Proof.
  destruct (lazy_blocks_load_what_was_written (D := raw_decoder) (OS := store_of file_sample)
    [data_sample; late_sample] 20 ltac:(vm_compute; discriminate) ltac:(lia) samples_wf)
    as (lazies & bu & He & Hall & Hsum & _).
  exists lazies, bu. split; [exact He|]. split; [exact Hall|].
  assert (Hb : match (read_all_blocks_metadata_only (AB := raw_batch) (OS := store_of file_sample) 20
    (reader_new (encode_blocks [data_sample; late_sample]))).1 with Ok (_, b) => b | _ => 0 end = 8)
    by vm_eq.
  rewrite He in Hb. split; lia.
Defined.

(** The same file with a block torn between its two. *)
Definition torn_sample : bytes := MAGIC ++ to_be_bytes 8 90 ++ string_bytes "torn #HUD".

Definition torn_file : bytes :=
  encode_blocks [data_sample] ++ torn_sample ++ encode_blocks [late_sample].

Definition torn_at : Z := 82.

Lemma torn_here : here torn_file torn_at (torn_sample ++ encode_blocks [late_sample]).
Proof.
  pose proof (here_whole torn_file) as Hh. apply here_app in Hh as [_ Hh].
  assert (Hp : 0 + blen (encode_blocks [data_sample]) = torn_at) by vm_eq. by rewrite Hp in Hh.
Qed.

Lemma torn_damaged : damaged torn_file torn_at.
Proof.
  pose proof torn_here as Hh. apply here_app in Hh as [Hh _]. unfold torn_sample in Hh.
  apply here_app in Hh as [Hm _]. split; [exact Hm|].
  assert (Hl : torn_at + 14 <= blen torn_file) by (vm_compute; discriminate). split; [exact Hl|].
  set (len := from_be_bytes _).
  destruct (is_block_corrupted_at (OS := store_of torn_file) torn_file
    ltac:(vm_compute; discriminate) torn_at len ltac:(vm_compute; discriminate) Hl
    (from_be_bytes_nonneg _)) as (c & Hc & Hiff).
  assert (Hv : (is_block_corrupted (OS := store_of torn_file) torn_at len
    (at_ torn_file (torn_at + 14))).1 = Ok true) by vm_eq.
  rewrite Hc in Hv. injection Hv as ->. intros Hw. by apply Hiff in Hw.
Qed.

Lemma torn_next : next_block_offset torn_file (torn_at + 6) (torn_at + blen torn_sample).
Proof.
  destruct (scan_for_next_block_offset_at (OS := store_of torn_file) torn_file
    ltac:(vm_compute; discriminate) torn_at 0 ltac:(vm_compute; discriminate)) as (r & p' & He & Hr).
  assert (Hv : (scan_for_next_block_offset (OS := store_of torn_file) torn_at (at_ torn_file 0)).1
    = Ok (torn_at + blen torn_sample)) by vm_eq.
  rewrite He in Hv. injection Hv as ->. exact Hr.
Qed.

Lemma damaged_block_costs_its_span_witness :
  (read_all_blocks (C := Civil.civil) (D := raw_decoder) (OS := store_of torn_file) "UTC"
     (up_to "20240404000000" "UTC") (reader_new torn_file)).1
  = Ok [block_of data_sample; corrupted_block; block_of late_sample].
Proof.
  assert (Hcmp : List.Forall (comparable (C := Civil.civil) "UTC" (up_to "20240404000000" "UTC"))
    ([data_sample] ++ [late_sample])) by (constructor; [unfold comparable; vm_eq|constructor; [unfold comparable; vm_eq|constructor]]).
  refine (eq_trans (damaged_block_costs_its_span (C := Civil.civil) (D := raw_decoder) (OS := store_of torn_file) "UTC"
    (up_to "20240404000000" "UTC") [data_sample] torn_sample [late_sample]
    ltac:(vm_compute; discriminate) torn_damaged torn_next samples_wf Hcmp) _).
  vm_eq.
Defined.

(** The eager reader looks for the footer where the content decoder stopped.
    The one for command blocks reads nothing, so a command block with a
    non-empty content makes the eager reader take content for a footer, while
    the headers-only walk goes by the content length and reads the file. *)
Definition command_with_content : bytes :=
  encode_block (AB := raw_batch) (mkWritten (AB := raw_batch) Command
    (sample_header "20240401000000") (string_bytes "abcd") (Empty (AB := raw_batch)) ∅).

Example command_content_breaks_the_eager_reader :
  (read_all_blocks (C := Civil.civil) (D := raw_decoder) (OS := store_of command_with_content) "UTC"
     range_sample (reader_new command_with_content)).1 = Err ELogFormat.
Proof. vm_eq. Qed.

Example command_content_is_skipped_by_the_walk :
  is_Ok (read_all_blocks_metadata_only (AB := raw_batch) (OS := store_of command_with_content) 0
     (reader_new command_with_content)).1 = true.
Proof. vm_eq. Qed.

(** A file cut inside a length field: the reader reports an error for the whole
    file, where a cut one byte later is a corrupted block. *)
Example cut_in_length_field_is_an_error :
  (read_all_blocks (C := Civil.civil) (D := raw_decoder) (OS := store_of (take 13 torn_sample)) "UTC"
     range_sample (reader_new (take 13 torn_sample))).1 = Err EReadLogFile.
Proof. vm_eq. Qed.

Example cut_after_length_field_is_a_corrupted_block :
  (read_all_blocks (C := Civil.civil) (D := raw_decoder) (OS := store_of (take 14 torn_sample)) "UTC"
     range_sample (reader_new (take 14 torn_sample))).1 = Ok [corrupted_block].
Proof. vm_eq. Qed.
