(* ===== verification/LogStreaming.v ===== *)
(** A log file reads the same whether its reader holds the whole object
    ([StorageReader::new]) or fetches windows of it ([new_streaming]): the
    relation [agree] between the two, closed under the operations
    reader.rs is built from. *)
From Stdlib Require Import Ascii.
From stdpp Require Import base gmap sets list strings sorting numbers.
From S2P Require Import Prelude RustStr Chrono Config Instant Selector StorageReader RecordBatches LogFormat LogReader LogEncoding.
Local Open Scope Z_scope.
Local Open Scope rd_scope.

Lemma from_be_bytes_bound b : from_be_bytes b < 256 ^ blen b.
Proof.
  unfold blen. induction b as [|c b IH] using rev_ind; [by vm_compute|].
  rewrite from_be_bytes_snoc, length_app, Nat2Z.inj_add. cbn [length].
  change (Z.of_nat 1) with 1. rewrite Z.pow_add_r by lia. pose proof (byte_value_range c). lia.
Qed.

Lemma from_be_bytes_u64 b : blen b <= 8 -> 0 <= from_be_bytes b <= u64_max.
Proof.
  intros Hb. pose proof (from_be_bytes_nonneg b). pose proof (from_be_bytes_bound b).
  pose proof (Z.pow_le_mono_r 256 (blen b) 8 ltac:(lia) Hb).
  change (256 ^ 8) with (u64_max + 1) in *. lia.
Qed.

Lemma checked_add_ok a b c : checked_add a b = Some c -> c = a + b /\ c <= u64_max.
Proof. unfold checked_add. destruct (Z.leb_spec (a + b) u64_max); [intros [= <-]; lia|done]. Qed.

(** The two readers give the same outcome, stay in step, and a value they
    return satisfies [P]. *)
Definition agree {A} (object : bytes) (m : rd A) (P : A -> Prop) : Prop :=
  forall w s, same_reads object w s ->
    exists x w' s', m w = (x, w') /\ m s = (x, s') /\ same_reads object w' s' /\
      forall a, x = Ok a -> P a.

Section agree.
Context {C : Chrono} {AB : ArrowBatch} {D : ContentDecoder} {OS : ObjectStore}.
Context (object : bytes) `{!ServesObject OS object} (Hobject : blen object <= u64_max).

Lemma agree_weaken {A} (m : rd A) (P Q : A -> Prop) :
  agree object m P -> (forall a, P a -> Q a) -> agree object m Q.
Proof.
  intros Hm HPQ w s Hs. destruct (Hm w s Hs) as (x & w' & s' & ? & ? & ? & ?).
  exists x, w', s'. eauto 10.
Qed.

Lemma agree_lift {A} (x : res A) (P : A -> Prop) :
  (forall a, x = Ok a -> P a) -> agree object (rd_lift x) P.
Proof. intros Hx w s Hs. by exists x, w, s. Qed.

Lemma agree_ret {A} (a : A) (P : A -> Prop) : P a -> agree object (rd_ret a) P.
Proof. intros Ha. apply (agree_lift (Ok a)). by intros ? [= <-]. Qed.

Lemma agree_fail {A} e (P : A -> Prop) : agree object (rd_fail e) P.
Proof. by apply (agree_lift (Err e)). Qed.

Lemma agree_bind {A B} (m : rd A) (k : A -> rd B) P Q :
  agree object m P -> (forall a, P a -> agree object (k a) Q) -> agree object (rd_bind m k) Q.
Proof.
  intros Hm Hk w s Hs. destruct (Hm w s Hs) as (x & w' & s' & Hw & Hs' & Hsame & HP).
  unfold rd_bind. rewrite Hw, Hs'. destruct x as [a|e|].
  - by apply Hk; [apply HP|].
  - by exists (Err e), w', s'.
  - by exists Panic, w', s'.
Qed.

Lemma agree_seek p (P : unit -> Prop) : 0 <= p <= u64_max -> P tt -> agree object (seek p) P.
Proof.
  intros Hp HP w s Hs. exists (Ok tt), (seek_to w p), (seek_to s p).
  split_and!; [done..|by apply same_reads_seek|by intros []].
Qed.

Lemma agree_position : agree object position (fun p => 0 <= p <= u64_max).
Proof.
  intros w s Hs. exists (Ok (pos w)), w, s. unfold position.
  rewrite (same_pos _ _ _ Hs). split_and!; [done..|]. intros ? [= <-].
  apply (same_pos_nonneg _ _ _ Hs).
Qed.

Lemma agree_stream_len : agree object stream_len (fun n => n = blen object).
Proof.
  intros w s Hs. exists (Ok (blen object)), w, s. unfold stream_len.
  rewrite (same_len_w _ _ _ Hs), (same_len_s _ _ _ Hs). split_and!; [done..|]. by intros ? [= <-].
Qed.

Lemma agree_read_bytes {A} (f : io bytes -> res A) n (P : A -> Prop) :
  0 <= n <= u64_max ->
  (forall b a, blen b <= n -> f (IoOk b) = Ok a -> P a) ->
  (forall a, f IoEof = Ok a -> P a) -> (forall a, f IoErr = Ok a -> P a) ->
  agree object (fun r => let '(x, r') := read_bytes r n in (f x, r')) P.
Proof using ServesObject0 Hobject.
  intros Hn Hok Heof Herr w s Hs. pose proof (streaming_reads_agree w s n Hobject Hn Hs) as Hr.
  destruct (read_bytes w n) as [x w'] eqn:Hw. destruct (read_bytes s n) as [y s'].
  destruct Hr as [<- Hsame]. exists (f x), w', s'. split_and!; [done..|].
  intros a Ha. destruct x as [b| |]; [|eauto..]. apply (Hok b); [|done]. revert Hw.
  unfold read_bytes. destruct (Z.eqb_spec n 0) as [->|]; [by injection 1 as <- _|].
  destruct (checked_add (pos w) n) as [e|] eqn:He; [|done]. apply checked_add_ok in He as [-> _].
  destruct (_ <? _); [done|]. rewrite (same_whole _ _ _ Hs). injection 1 as <- _.
  unfold blen, slice. rewrite length_take. lia.
Qed.

Lemma agree_ext {A} (m m' : rd A) P : (forall r, m' r = m r) -> agree object m P -> agree object m' P.
Proof. intros He Hm w s Hs. rewrite !He. by apply Hm. Qed.

Lemma agree_read_exact n : 0 <= n <= u64_max -> agree object (read_exact n) (fun b => blen b <= n).
Proof using ServesObject0 Hobject.
  intros Hn. eapply agree_ext; [|apply (agree_read_bytes
    (fun x => match x with IoOk b => Ok b | _ => Err EReadLogFile end) n); [done| |done..]].
  - intros r. unfold read_exact. by destruct (read_bytes r n) as [[] ?].
  - by intros b a Hb [= <-].
Qed.

Lemma agree_read_u64 : agree object read_block_length (fun n => 0 <= n <= u64_max).
Proof using ServesObject0 Hobject.
  eapply agree_bind; [by apply agree_read_exact|]. intros b Hb. apply agree_ret.
  by apply from_be_bytes_u64.
Qed.

Lemma agree_pos_iter {S} n (f : S -> rd S) :
  (forall s, agree object (f s) (fun _ => True)) ->
  forall s, agree object (pos_iter n f s) (fun _ => True).
Proof.
  intros Hf. induction n as [n IH|n IH|]; intros s; cbn [pos_iter]; [| |apply Hf];
    repeat (eapply agree_bind; [auto|intros ? _]); auto.
Qed.

Lemma agree_for_range {S} n (f : S -> rd S) s :
  (forall s, agree object (f s) (fun _ => True)) -> agree object (for_range n f s) (fun _ => True).
Proof. intros Hf. destruct n; cbn [for_range]; [by apply agree_ret|by apply agree_pos_iter|by apply agree_ret]. Qed.

Lemma agree_read_magic : agree object read_magic (fun _ => True).
Proof using ServesObject0 Hobject.
  eapply agree_ext; [|apply (agree_read_bytes (fun x => match x with
      | IoOk b => if bool_decide (b = MAGIC) then Ok true else Err ELogFormat
      | IoEof => Ok false | IoErr => Err EReadLogFile end) MAGIC_LEN); done].
  intros r. unfold read_magic. by destruct (read_bytes r _) as [[] ?].
Qed.

Lemma agree_next_is_magic_or_eof : agree object next_is_magic_or_eof (fun _ => True).
Proof using ServesObject0 Hobject.
  eapply agree_ext; [|apply (agree_read_bytes (fun x => match x with
      | IoOk b => Ok (bool_decide (b = MAGIC))
      | IoEof => Ok true | IoErr => Err EReadLogFile end) MAGIC_LEN); done].
  intros r. unfold next_is_magic_or_eof. by destruct (read_bytes r _) as [[] ?].
Qed.
End agree.

Section blocks.
Context {C : Chrono} {AB : ArrowBatch} {D : ContentDecoder} {OS : ObjectStore}.
Context (object : bytes) `{!ServesObject OS object} (Hobject : blen object <= u64_max).

(** A bound value that nothing more is known of. *)
Lemma agree_then {A B} (m : rd A) (k : A -> rd B) P Q :
  agree object m P -> (forall a, agree object (k a) Q) -> agree object (rd_bind m k) Q.
Proof. intros Hm Hk. eapply agree_bind; [done|auto]. Qed.

Lemma agree_any {A} (m : rd A) P : agree object m P -> agree object m (fun _ => True).
Proof. intros Hm. by eapply agree_weaken. Qed.

Lemma agree_is_block_corrupted magic_pos block_length :
  0 <= magic_pos <= u64_max -> 0 <= block_length <= u64_max ->
  agree object (is_block_corrupted magic_pos block_length) (fun _ => True).
Proof using ServesObject0 Hobject.
  intros Hp Hb. unfold is_block_corrupted, MAGIC_LEN.
  destruct (checked_add magic_pos 6) as [m6|] eqn:H6; cbn [bind_opt]; [|by apply agree_ret].
  destruct (checked_add m6 8) as [m14|] eqn:H14; [|by apply agree_ret].
  apply checked_add_ok in H6 as [-> ?], H14 as [-> ?].
  destruct (checked_add _ block_length) as [e|] eqn:He; cbn [bind_opt]; [|by apply agree_ret].
  apply checked_add_ok in He as [-> ?]. unfold checked_sub at 1.
  destruct (Z.leb_spec 8 (magic_pos + 6 + 8 + block_length)); [|lia].
  eapply agree_bind; [apply agree_stream_len|]. intros len ->.
  destruct (match checked_add _ _ with Some _ => _ | None => _ end).
  { eapply agree_then; [apply (agree_seek _ _ (fun _ => True)); [lia|done]|].
    intros _. by apply agree_ret. }
  eapply agree_then; [apply (agree_seek _ _ (fun _ => True)); [lia|done]|]. intros _.
  eapply agree_then; [by apply agree_read_exact|]. intros b.
  eapply agree_bind; [apply (agree_lift _ _ (fun e => e = magic_pos + 6 + 8 + block_length))|].
  { intros e He. cbn in He. by injection He as <-. }
  intros e ->. eapply agree_then.
  - destruct (match checked_sub _ _ with Some _ => _ | None => _ end);
      [by apply (agree_ret _ _ (fun _ => True))|].
    eapply agree_then; [apply (agree_seek _ _ (fun _ => True)); [lia|done]|]. intros _.
    eapply agree_then; [by apply agree_next_is_magic_or_eof|]. intros b'. by apply agree_ret.
  - intros c. eapply agree_then; [apply (agree_seek _ _ (fun _ => True)); [lia|done]|].
    intros _. by apply agree_ret.
Qed.

Lemma agree_scan_loop fuel window_size from :
  5 < window_size <= u64_max -> 0 <= from ->
  agree object (scan_loop fuel window_size from)
    (fun o => match o with Some r => 0 <= r <= u64_max | None => True end).
Proof using ServesObject0 Hobject.
  intros Hw. revert from. induction fuel as [|fuel IH]; intros from Hf; cbn [scan_loop];
    [by apply agree_ret|].
  pose proof (blen_nonneg object).
  eapply agree_bind; [apply agree_stream_len|]. intros len ->.
  unfold checked_sub. destruct (Z.leb_spec from (blen object)); [|by apply agree_ret].
  destruct (_ =? 0); [by apply agree_ret|].
  eapply agree_then; [apply (agree_seek _ _ (fun _ => True)); [lia|done]|]. intros _.
  intros w s Hs.
  destruct (agree_read_exact object Hobject (Z.min (blen object - from) window_size) ltac:(lia) w s Hs)
    as (x & w' & s' & Hx & Hs' & Hsame & Hlen).
  unfold rd_bind. rewrite Hx, Hs'. destruct x as [b|e|]; [|by exists (Err e), w', s'|by exists Panic, w', s'].
  specialize (Hlen _ eq_refl). pose proof (find_magic_spec b) as Hm.
  destruct (find_subslice b MAGIC) as [k|].
  - destruct Hm as [(_ & Hk & _) _]. change (blen MAGIC) with 6 in Hk.
    by apply agree_ret; [lia|].
  - destruct (Z.ltb_spec (Z.min (blen object - from) window_size) window_size) as [|Hmin];
      [by apply agree_ret|].
    apply IH; [|done]. unfold MAGIC_LEN. lia.
Qed.

Lemma agree_create_corrupted_block magic_pos : 0 <= magic_pos ->
  agree object (create_corrupted_block magic_pos) (fun _ => True).
Proof using ServesObject0 Hobject.
  intros Hp. eapply (agree_bind _ _ _ (fun r => 0 <= r <= u64_max)).
  - intros w s Hs. unfold scan_for_next_block_offset.
    rewrite (same_len_w _ _ _ Hs), (same_len_s _ _ _ Hs). revert w s Hs.
    eapply agree_bind; [apply agree_scan_loop; [by vm_compute|unfold saturating_add, MAGIC_LEN, u64_max; lia]|].
    intros o Ho. apply agree_lift. by intros r ->%ok_or_Ok.
  - intros r Hr. eapply agree_then; [by apply (agree_seek _ _ (fun _ => True))|].
    intros _. by apply agree_ret.
Qed.

Lemma agree_read_block_metadata t v : agree object (read_block_metadata t v) (fun _ => True).
Proof using ServesObject0 Hobject.
  unfold read_block_metadata. destruct (match t with Header => _ | Footer => _ end);
    [by apply agree_ret|].
  eapply agree_then; [by apply agree_read_exact|]. intros b.
  apply agree_for_range. intros m. unfold read_metadata_entry.
  eapply agree_then; [by apply agree_read_exact|]. intros kb.
  eapply agree_then; [by apply (agree_lift _ _ (fun _ => True))|]. intros k.
  eapply agree_bind; [by apply agree_read_exact|]. intros lb Hl.
  eapply agree_then; [apply (agree_read_exact object Hobject), from_be_bytes_u64; etrans; [exact Hl|done]|]. intros vb.
  eapply agree_then; [by apply (agree_lift _ _ (fun _ => True))|]. intros x. by apply agree_ret.
Qed.

Lemma agree_read_log_format_version : agree object read_log_format_version (fun _ => True).
Proof using ServesObject0 Hobject.
  eapply agree_then; [by apply agree_read_exact|]. intros b. by apply agree_lift.
Qed.

Lemma agree_read_block_type v : agree object (read_block_type v) (fun _ => True).
Proof using ServesObject0 Hobject.
  unfold read_block_type. destruct (negb _); [apply agree_fail|].
  eapply agree_then; [by apply agree_read_exact|]. intros b. by apply agree_lift.
Qed.

Lemma agree_read_total_block_length v : agree object (read_total_block_length v) (fun _ => True).
Proof using ServesObject0 Hobject.
  unfold read_total_block_length. destruct (negb _); [by apply agree_ret|].
  eapply agree_then; [by apply agree_read_exact|]. intros b. by apply agree_ret.
Qed.

Lemma agree_read_next_block `{!BoundedDecoder D} tz range :
  agree object (read_next_block tz range) (fun _ => True).
Proof using ServesObject0 Hobject.
  unfold read_next_block. eapply agree_bind; [apply agree_position|]. intros p Hp. cbn beta in Hp.
  eapply agree_then; [by apply agree_read_magic|]. intros []; cbn [negb]; [|by apply agree_ret].
  eapply agree_bind; [by apply agree_read_u64|]. intros len Hlen. cbn beta in Hlen.
  eapply agree_then; [by apply agree_is_block_corrupted|]. intros [].
  { eapply agree_then; [apply agree_create_corrupted_block; lia|]. intros b. by apply agree_ret. }
  eapply agree_bind; [apply (agree_lift _ _ (fun e => 0 <= e <= u64_max))|].
  { intros e He. pose proof (block_end_ok _ _ _ He) as ->. split; [lia|].
    revert He. unfold block_end, MAGIC_LEN. intros He%ok_or_Ok.
    destruct (checked_add p 6) as [p6|] eqn:H6; [|done]. cbn [bind_opt] in He.
    destruct (checked_add p6 8) as [p14|]; [|done]. cbn [bind_opt] in He.
    by apply checked_add_ok in He as [_ ?]. }
  intros e He. cbn beta in He. eapply agree_then; [by apply agree_read_log_format_version|]. intros v.
  eapply agree_then; [by apply agree_read_block_type|]. intros t.
  eapply agree_then; [by apply agree_read_block_metadata|]. intros h.
  eapply agree_then; [by apply (agree_lift _ _ (fun _ => True))|]. intros [].
  { eapply agree_then; [by apply (agree_seek _ _ (fun _ => True))|]. intros _. by apply agree_ret. }
  eapply agree_bind; [apply agree_position|]. intros cs Hcs. cbn beta in Hcs, He.
  eapply agree_bind; [apply (agree_lift _ _ (fun n => 0 <= n <= u64_max /\ cs + n = e))|].
  { intros n Hn%ok_or_Ok. unfold checked_sub in Hn. destruct (Z.leb_spec cs e); [|done].
    injection Hn as <-. lia. }
  intros n [Hn Hcn]. eapply agree_bind; [by apply agree_read_exact|]. intros input Hin.
  eapply agree_bind; [apply (agree_lift _ _ (fun '(_, used) => 0 <= used <= blen input))|].
  { intros [c used] Hd. by apply decode_content_used in Hd. }
  intros [c used] Hused. cbn beta in *.
  eapply agree_then; [apply (agree_seek _ _ (fun _ => True)); [lia|done]|]. intros _.
  eapply agree_then; [by apply agree_read_block_metadata|]. intros f.
  eapply agree_then; [by apply agree_read_total_block_length|]. intros o. by apply agree_ret.
Qed.

Lemma agree_read_all_loop `{!BoundedDecoder D} fuel tz range :
  agree object (read_all_loop fuel tz range) (fun _ => True).
Proof using ServesObject0 Hobject.
  induction fuel as [|fuel IH]; cbn [read_all_loop]; [by apply agree_ret|].
  eapply agree_then; [by apply agree_read_next_block|]. intros [b|]; [|by apply agree_ret].
  eapply agree_then; [apply IH|]. intros rest. by apply agree_ret.
Qed.
End blocks.

Lemma agree_read_all_blocks {C : Chrono} {AB : ArrowBatch} {D : ContentDecoder} {OS : ObjectStore}
    `{!BoundedDecoder D} object `{!ServesObject OS object} tz range :
  blen object <= u64_max -> agree object (read_all_blocks tz range) (fun _ => True).
Proof.
  intros Hu w s Hs. unfold read_all_blocks.
  rewrite (same_len_w _ _ _ Hs), (same_len_s _ _ _ Hs). revert w s Hs.
  eapply agree_then; [by apply agree_read_all_loop|]. intros o. by apply agree_lift.
Qed.

(** Over a store that serves the object, a log file gives the same blocks,
    or the same error, whether its reader holds the whole object or fetches
    windows of any size -- from its beginning, or from wherever the two readers
    are in step: neither headers, payloads, the corruption check nor the recovery
    scan can tell them apart. *)
Theorem streaming_log_reads_agree {C : Chrono} {AB : ArrowBatch} {D : ContentDecoder} {OS : ObjectStore}
    `{!BoundedDecoder D} object `{!ServesObject OS object} window tz range :
  blen object <= u64_max -> 0 < window ->
  (read_all_blocks tz range (new_streaming (blen object) window)).1 =
  (read_all_blocks tz range (reader_new object)).1 /\
  agree object (read_all_blocks tz range) (fun _ => True).
Proof.
  intros Hu Hw. pose proof (agree_read_all_blocks object tz range Hu) as Ha. split; [|exact Ha].
  destruct (Ha _ _ (same_reads_new object window Hu Hw)) as (x & w' & s' & -> & -> & _). done.
Qed.

Lemma streaming_log_reads_agree_witness :
  (read_all_blocks (C := Civil.civil) (D := raw_decoder) (OS := store_of torn_file) "UTC" range_sample
     (new_streaming (blen torn_file) 40)).1
  = Ok [block_of data_sample; corrupted_block].
Proof.
  refine (eq_trans (proj1 (streaming_log_reads_agree (C := Civil.civil) (D := raw_decoder)
    (OS := store_of torn_file) torn_file 40 "UTC" range_sample
    ltac:(vm_compute; discriminate) ltac:(lia))) _).
  vm_eq.
Defined.
