(* ===== verification/Scanner.v ===== *)
(** Scanning the log files of a file slice:
    crates/core/src/file_group/log_file/scanner.rs.

    The scanner reads every file, collects the instants its rollback blocks
    name, and returns the contents of the blocks that survive. *)
From Stdlib Require Import Ascii.
From stdpp Require Import base gmap sets list strings sorting numbers.
From S2P Require Import Prelude RustStr Chrono Config Instant Selector StorageReader RecordBatches LogFormat LogReader LogEncoding.
Local Open Scope res_scope.
Local Open Scope Z_scope.

(** [Storage::get_storage_reader]: an object read whole, and the store that
    holds it. *)
Class LogStorage := {
  log_object : string -> res bytes;
  log_store : string -> ObjectStore
}.

Inductive ContentType := ContentRecords | ContentHFile | ContentEmpty.

Section scanner.
Context {C : Chrono} {AB : ArrowBatch} {D : ContentDecoder} {LS : LogStorage}.

Inductive ScanResult :=
  | ScanRecordBatches (batches : RecordBatches)
  | ScanHFileRecords (records : list HFileRecord)
  | ScanEmpty.

Definition is_record_batches (r : ScanResult) : bool :=
  match r with ScanRecordBatches _ => true | _ => false end.
Definition is_hfile_records (r : ScanResult) : bool :=
  match r with ScanHFileRecords _ => true | _ => false end.
Definition scan_is_empty (r : ScanResult) : bool :=
  match r with ScanEmpty => true | _ => false end.
Definition unwrap_record_batches (r : ScanResult) : res RecordBatches :=
  match r with ScanRecordBatches b => Ok b | _ => Panic end.
Definition unwrap_hfile_records (r : ScanResult) : res (list HFileRecord) :=
  match r with ScanHFileRecords l => Ok l | _ => Panic end.

Record CollectedBlocks := mkCollected {
  all_blocks : list (list LogBlock);
  rollback_targets : gset string
}.

Definition block_is_valid (rollback_targets : gset string) (b : LogBlock) : bool :=
  if is_rollback_block b then false
  else match instant_time b with
  | Ok instant => negb (bool_decide (instant ∈ rollback_targets))
  | _ => true
  end.

Definition iter_valid_blocks (c : CollectedBlocks) : list LogBlock :=
  filter (fun b => block_is_valid (rollback_targets c) b = true) (concat (all_blocks c)).

(** One block of the loop that collects rollback targets. *)
Definition collect_target (targets : gset string) (b : LogBlock) : res (gset string) :=
  if is_rollback_block b then
    let? t := target_instant_time b in
    Ok ({[t]} ∪ targets)
  else Ok targets.

(** [LogFileReader::new] and [read_all_blocks] on one file. *)
Definition read_file (timezone : string) (instant_range : InstantRange) (path : string)
    : res (list LogBlock) :=
  let? object := log_object path in
  (read_all_blocks (OS := log_store path) timezone instant_range (reader_new object)).1.

Definition collect_file (timezone : string) (instant_range : InstantRange)
    (c : CollectedBlocks) (path : string) : res CollectedBlocks :=
  let? blocks := read_file timezone instant_range path in
  let? targets := res_fold collect_target blocks (rollback_targets c) in
  Ok (mkCollected (all_blocks c ++ [blocks]) targets).

Definition collect_blocks (timezone : string) (relative_paths : list string)
    (instant_range : InstantRange) : res CollectedBlocks :=
  res_fold (collect_file timezone instant_range) relative_paths (mkCollected [] ∅).

(** The flags of [detect_content_type]: record, HFile and delete blocks seen. *)
Definition detect_step (flags : bool * bool * bool) (b : LogBlock) : res (bool * bool * bool) :=
  let '(has_record, has_hfile, has_delete) := flags in
  let '(has_record, has_hfile, has_delete) :=
    match block_type b with
    | AvroData | ParquetData | CdcData => (true, has_hfile, has_delete)
    | HfileData => (has_record, true, has_delete)
    | Delete => (has_record, has_hfile, true)
    | Command | Corrupted => (has_record, has_hfile, has_delete)
    end in
  if has_record && has_hfile then Err ELogBlock else Ok (has_record, has_hfile, has_delete).

Definition detect_content_type (c : CollectedBlocks) : res ContentType :=
  let? (has_record, has_hfile, has_delete) :=
    res_fold (fun flags blocks => res_fold detect_step blocks flags) (all_blocks c) (false, false, false) in
  if has_hfile : bool then Ok ContentHFile
  else if (has_record || has_delete)%bool then Ok ContentRecords
  else Ok ContentEmpty.

Definition extend_block (batches : RecordBatches) (b : LogBlock) : RecordBatches :=
  match content b with Records records => extend batches records | _ => batches end.

(** The pre-counts of the source only reserve capacity. *)
Definition collect_record_batches (c : CollectedBlocks) : ScanResult :=
  ScanRecordBatches (foldl extend_block batches_new (iter_valid_blocks c)).

Definition extend_records (records : list HFileRecord) (b : LogBlock) : list HFileRecord :=
  match content b with HFileRecords r => records ++ r | _ => records end.

Definition collect_hfile_records (c : CollectedBlocks) : ScanResult :=
  ScanHFileRecords (foldl extend_records [] (iter_valid_blocks c)).

Definition scan (timezone : string) (relative_paths : list string)
    (instant_range : InstantRange) : res ScanResult :=
  let? collected := collect_blocks timezone relative_paths instant_range in
  let? content_type := detect_content_type collected in
  match content_type with
  | ContentRecords => Ok (collect_record_batches collected)
  | ContentHFile => Ok (collect_hfile_records collected)
  | ContentEmpty => Ok ScanEmpty
  end.
End scanner.

(** * What the scanner returns *)
Section spec.
Context {C : Chrono} {AB : ArrowBatch} {D : ContentDecoder} {LS : LogStorage}.

(** A rollback block among [bs] names the instant. *)
Definition rolled_back (bs : list LogBlock) (instant : string) : Prop :=
  Exists (fun b => is_rollback_block b = true /\ target_instant_time b = Ok instant) bs.

(** A block without an instant cannot be rolled back. *)
Definition survives (bs : list LogBlock) (b : LogBlock) : Prop :=
  is_rollback_block b = false /\
  match instant_time b with Ok instant => ~ rolled_back bs instant | _ => True end.

#[export] Instance survives_dec bs b : Decision (survives bs b).
Proof. unfold survives, rolled_back. destruct (instant_time b); apply _. Defined.

(** The blocks of one format among those read. *)
Definition has_type (ts : list BlockType) (bs : list LogBlock) : Prop :=
  exists b, b ∈ bs /\ block_type b ∈ ts.

Definition record_types : list BlockType := [AvroData; ParquetData; CdcData].

Lemma collect_target_fold bs targets targets' :
  res_fold collect_target bs targets = Ok targets' <->
  (forall b, b ∈ bs -> is_rollback_block b = true -> is_Ok (target_instant_time b) = true) /\
  targets' = list_to_set (omap (fun b => if is_rollback_block b then
    match target_instant_time b with Ok t => Some t | _ => None end else None) bs) ∪ targets.
Proof.
  revert targets targets'. induction bs as [|b bs IH]; intros targets targets'; cbn [res_fold omap list_omap].
  - cbn. rewrite (left_id_L ∅ (∪)). split; [|by intros [_ ->]]. intros [= ->]. split; [|done].
    intros b Hb. by apply not_elem_of_nil in Hb.
  - rewrite res_bind_Ok. unfold collect_target at 1. destruct (is_rollback_block b) eqn:Hr.
    + split.
      * intros (t1 & Ht1 & Hf). apply res_bind_Ok in Ht1 as (t & Ht & [= <-]).
        apply IH in Hf as [Hall ->]. split.
        { intros b' [->|Hb']%elem_of_cons Hrb; [by rewrite Ht|by apply Hall]. }
        rewrite Ht. cbn. set_solver.
      * intros [Hall ->]. assert (Hb := Hall b ltac:(left) Hr). apply is_Ok_true in Hb as [t Ht].
        rewrite Ht. eexists. split; [done|]. apply IH. split; [|cbn; set_solver].
        intros b' Hb'. apply Hall. by right.
    + split.
      * intros (t1 & [= <-] & Hf). apply IH in Hf as [Hall ->]. split; [|done].
        intros b' [->|Hb']%elem_of_cons Hrb; [congruence|by apply Hall].
      * intros [Hall ->]. eexists. split; [done|]. apply IH. split; [|done].
        intros b' Hb'. apply Hall. by right.
Qed.

Lemma elem_of_targets bs instant :
  instant ∈ (list_to_set (omap (fun b => if is_rollback_block b then
    match target_instant_time b with Ok t => Some t | _ => None end else None) bs) : gset string)
  <-> rolled_back bs instant.
Proof.
  rewrite elem_of_list_to_set, list_elem_of_omap. unfold rolled_back. rewrite list.Exists_exists. split.
  - intros (b & Hb & Hi). exists b. destruct (is_rollback_block b); [|done].
    destruct (target_instant_time b); try done. by injection Hi as ->.
  - intros (b & Hb & Hr & Ht). exists b. by rewrite Hr, Ht.
Qed.

(** What collecting from a list of files adds to what was collected. *)
Lemma collect_blocks_from tz range paths c c' :
  res_fold (collect_file tz range) paths c = Ok c' <->
  exists files, res_mapM (read_file tz range) paths = Ok files /\
    all_blocks c' = all_blocks c ++ files /\
    res_fold collect_target (concat files) (rollback_targets c) = Ok (rollback_targets c').
Proof.
  revert c. induction paths as [|path paths IH]; intros c; cbn [res_fold res_mapM].
  - split.
    + intros [= ->]. exists []. by rewrite app_nil_r.
    + intros (files & [= <-] & Ha & [= Ht]). rewrite app_nil_r in Ha.
      destruct c, c'; cbn in *. by subst.
  - rewrite res_bind_Ok. split.
    + intros (c1 & H1 & Hf). unfold collect_file in H1.
      apply res_bind_Ok in H1 as (bs & Hbs & H1). apply res_bind_Ok in H1 as (ts & Hts & [= <-]).
      apply IH in Hf as (files & Hfiles & Ha & Ht). cbn in Ha, Ht.
      exists (bs :: files). rewrite Hbs. cbn [res_bind]. rewrite Hfiles. cbn [res_bind concat].
      split_and!; [done|by rewrite Ha, <- app_assoc|]. by rewrite res_fold_app, Hts.
    + intros (files & Hm & Ha & Ht). apply res_bind_Ok in Hm as (bs & Hbs & Hm).
      apply res_bind_Ok in Hm as (files' & Hfiles & [= <-]). cbn [concat] in Ht.
      rewrite res_fold_app in Ht. apply res_bind_Ok in Ht as (ts & Hts & Ht).
      exists (mkCollected (all_blocks c ++ [bs]) ts). unfold collect_file at 1. rewrite Hbs.
      cbn [res_bind]. rewrite Hts. split; [done|]. apply IH. exists files'. cbn.
      split_and!; [done|by rewrite Ha, <- app_assoc|done].
Qed.

Lemma collect_blocks_spec tz range paths c :
  collect_blocks tz paths range = Ok c ->
  res_mapM (read_file tz range) paths = Ok (all_blocks c) /\
  forall instant, instant ∈ rollback_targets c <-> rolled_back (concat (all_blocks c)) instant.
Proof.
  intros (files & Hm & Ha & Ht)%collect_blocks_from. cbn in Ha, Ht. rewrite Ha.
  split; [done|]. intros instant. apply collect_target_fold in Ht as [_ ->].
  rewrite (right_id_L ∅ (∪)). apply elem_of_targets.
Qed.

Lemma iter_valid_blocks_spec c :
  (forall instant, instant ∈ rollback_targets c <-> rolled_back (concat (all_blocks c)) instant) ->
  forall b, block_is_valid (rollback_targets c) b = true <-> survives (concat (all_blocks c)) b.
Proof.
  intros Hc b. unfold block_is_valid, survives. destruct (is_rollback_block b).
  { split; [done|by intros [? _]]. }
  destruct (instant_time b) as [i|e|].
  - rewrite negb_true_iff, bool_decide_eq_false, Hc. split; [by split|by intros [_ ?]].
  - by split.
  - by split.
Qed.

Lemma detect_fold bs r h d :
  res_fold detect_step bs (r, h, d) =
  (let r' := r || existsb (fun b => bool_decide (block_type b ∈ record_types)) bs in
   let h' := h || existsb (fun b => bool_decide (block_type b = HfileData)) bs in
   let d' := d || existsb (fun b => bool_decide (block_type b = Delete)) bs in
   if negb (bool_decide (bs = [])) && r' && h' then Err ELogBlock else Ok (r', h', d'))%bool.
Proof.
  revert r h d. induction bs as [|b bs IH]; intros r h d; cbn [res_fold existsb].
  { by rewrite !orb_false_r. }
  unfold detect_step at 1.
  destruct (block_type b), r, h; cbn; rewrite ?IH; cbn; rewrite ?orb_true_r, ?orb_false_r; try done;
    destruct (bool_decide (bs = [])) eqn:Hn; cbn; try done;
    apply bool_decide_eq_true in Hn as ->; done.
Qed.

Lemma detect_concat bss flags :
  res_fold (fun flags blocks => res_fold detect_step blocks flags) bss flags
  = res_fold detect_step (concat bss) flags.
Proof.
  revert flags. induction bss as [|bs bss IH]; intros flags; [done|]. cbn [res_fold concat].
  rewrite res_fold_app. destruct (res_fold detect_step bs flags); [apply IH|done..].
Qed.

Lemma has_type_existsb ts bs :
  has_type ts bs <-> existsb (fun b => bool_decide (block_type b ∈ ts)) bs = true.
Proof.
  rewrite existsb_exists. unfold has_type. split; intros (b & Hb & Ht); exists b.
  - split; [by apply list_elem_of_In|by apply bool_decide_eq_true_2].
  - split; [by apply list_elem_of_In|by eapply bool_decide_eq_true_1].
Qed.

Lemma existsb_type t bs :
  existsb (fun b => bool_decide (block_type b = t)) bs
  = existsb (fun b => bool_decide (block_type b ∈ [t])) bs.
Proof.
  induction bs as [|b bs IH]; [done|]. cbn [existsb]. rewrite IH. f_equal.
  apply bool_decide_ext. by rewrite list_elem_of_singleton.
Qed.

Global Instance has_type_dec ts bs : Decision (has_type ts bs).
Proof.
  destruct (existsb (fun b => bool_decide (block_type b ∈ ts)) bs) eqn:He.
  - left. by apply has_type_existsb.
  - right. rewrite has_type_existsb, He. done.
Defined.

Lemma detect_content_type_eq c :
  let bs := concat (all_blocks c) in
  detect_content_type c =
  if decide (has_type [HfileData] bs) then
    if decide (has_type record_types bs) then Err ELogBlock else Ok ContentHFile
  else if decide (has_type record_types bs \/ has_type [Delete] bs) then Ok ContentRecords
  else Ok ContentEmpty.
Proof.
  intros bs. unfold detect_content_type. rewrite detect_concat, detect_fold. cbn [orb].
  fold bs. rewrite !existsb_type.
  pose proof (has_type_existsb record_types bs) as Hr.
  pose proof (has_type_existsb [HfileData] bs) as Hh.
  pose proof (has_type_existsb [Delete] bs) as Hd.
  assert (Hn : bs = [] -> ~ has_type [HfileData] bs).
  { intros -> (b & Hb & _). by apply not_elem_of_nil in Hb. }
  assert (Hb : bool_decide (bs = []) = true -> bs = []) by apply bool_decide_eq_true_1.
  destruct (existsb (fun b => bool_decide (block_type b ∈ record_types)) bs),
    (existsb (fun b => bool_decide (block_type b ∈ [HfileData])) bs),
    (existsb (fun b => bool_decide (block_type b ∈ [Delete])) bs), (bool_decide (bs = []));
    repeat case_decide; cbn; try done; exfalso; intuition congruence.
Qed.

(** The batches of several blocks, in order. *)
Lemma extend_blocks_gathered bs batches :
  foldl extend_block batches bs
  = extend batches (gathered (omap (fun b => as_records (content b)) bs)).
Proof.
  revert batches. induction bs as [|b bs IH]; intros batches; cbn [foldl omap list_omap].
  { symmetry. apply extend_new_r. }
  rewrite IH. unfold extend_block. destruct (content b); cbn [as_records]; try done.
  by rewrite gathered_cons, extend_assoc.
Qed.

Lemma extend_records_concat bs records :
  foldl extend_records records bs
  = records ++ concat (omap (fun b => as_hfile_records (content b)) bs).
Proof.
  revert records. induction bs as [|b bs IH]; intros records; cbn [foldl omap list_omap].
  { by rewrite app_nil_r. }
  rewrite IH. unfold extend_records. destruct (content b); cbn [as_hfile_records concat]; try done.
  by rewrite app_assoc.
Qed.

(** What the blocks read should come to. *)
Definition scan_result (bs : list LogBlock) : ScanResult :=
  let kept := filter (survives bs) bs in
  if decide (has_type [HfileData] bs) then
    ScanHFileRecords (concat (omap (fun b => as_hfile_records (content b)) kept))
  else if decide (has_type record_types bs \/ has_type [Delete] bs) then
    ScanRecordBatches (gathered (omap (fun b => as_records (content b)) kept))
  else ScanEmpty.

Definition scannable (bs : list LogBlock) : Prop :=
  (forall b, b ∈ bs -> is_rollback_block b = true -> is_Ok (target_instant_time b) = true) /\
  ~ (has_type [HfileData] bs /\ has_type record_types bs).

#[export] Instance scannable_dec bs : Decision (scannable bs).
Proof.
  unfold scannable. apply and_dec; [|apply _].
  destruct (decide (List.Forall (fun b => is_rollback_block b = true -> is_Ok (target_instant_time b) = true) bs)) as [H|H];
    rewrite List.Forall_forall in H; [left|right; intros Hall; apply H].
  - intros b Hb. by apply H, list_elem_of_In.
  - intros b Hb. by apply Hall, list_elem_of_In.
Defined.

(** The targets collected from files that read, or the error of a rollback block without one. *)
Lemma collect_read tz range paths files : res_mapM (read_file tz range) paths = Ok files -> forall c,
  res_fold (collect_file tz range) paths c =
    let? ts := res_fold collect_target (concat files) (rollback_targets c) in Ok (mkCollected (all_blocks c ++ files) ts).
Proof.
  revert files. induction paths as [|path paths IH]; intros files Hm c; cbn [res_fold res_mapM] in *.
  - injection Hm as <-. cbn. rewrite app_nil_r. by destruct c.
  - apply res_bind_Ok in Hm as (bs & Hbs & Hm). apply res_bind_Ok in Hm as (files' & Hfiles & [= <-]).
    unfold collect_file at 1. rewrite Hbs. cbn [res_bind concat]. rewrite res_fold_app.
    destruct (res_fold collect_target bs (rollback_targets c)); cbn [res_bind]; [|done..].
    rewrite (IH files' Hfiles). cbn. destruct (res_fold collect_target (concat files') _); cbn; [|done..]. by rewrite <- app_assoc.
Qed.

Lemma collect_target_error bs targets : is_Ok (res_fold collect_target bs targets) = false -> res_fold collect_target bs targets = Err ELogBlock.
Proof.
  revert targets. induction bs as [|b bs IH]; intros targets; cbn [res_fold]; [done|]. unfold collect_target at 1 3.
  destruct (is_rollback_block b); [|apply IH]. unfold target_instant_time. case_decide; [done|].
  destruct (header b !! TargetInstantTime); cbn; [apply IH|done].
Qed.

Lemma scan_collected c :
  (forall instant, instant ∈ rollback_targets c <-> rolled_back (concat (all_blocks c)) instant) ->
  res_bind (detect_content_type c) (fun t => match t with
    | ContentRecords => Ok (collect_record_batches c)
    | ContentHFile => Ok (collect_hfile_records c)
    | ContentEmpty => Ok ScanEmpty end)
  = if decide (has_type [HfileData] (concat (all_blocks c)) /\ has_type record_types (concat (all_blocks c)))
    then Err ELogBlock else Ok (scan_result (concat (all_blocks c))).
Proof.
  intros Hc. rewrite detect_content_type_eq. unfold scan_result.
  assert (Hk : iter_valid_blocks c = filter (survives (concat (all_blocks c))) (concat (all_blocks c))).
  { unfold iter_valid_blocks. apply list_filter_iff. by apply iter_valid_blocks_spec. }
  unfold collect_record_batches, collect_hfile_records. rewrite Hk.
  rewrite extend_blocks_gathered, extend_records_concat, extend_new_l.
  repeat case_decide; cbn; try done; exfalso; tauto.
Qed.

Lemma scan_eq tz paths range r :
  scan tz paths range = Ok r <->
  exists files, res_mapM (read_file tz range) paths = Ok files /\
    scannable (concat files) /\ r = scan_result (concat files).
Proof.
  unfold scan. rewrite res_bind_Ok. split.
  - intros (c & Hc & Hr). pose proof (collect_blocks_spec _ _ _ _ Hc) as [Hm Ht].
    exists (all_blocks c). split; [done|]. rewrite scan_collected in Hr by done.
    case_decide as Hmix; [done|]. injection Hr as <-. split; [|done]. split; [|done].
    apply collect_blocks_from in Hc as (files & Hm' & Ha & Hf). cbn in Ha, Hf. rewrite Ha.
    by apply collect_target_fold in Hf as [Hall _].
  - intros (files & Hm & [Hall Hmix] & ->).
    assert (Hc : exists c, collect_blocks tz paths range = Ok c /\ all_blocks c = files).
    { eexists (mkCollected files _). split; [|done]. apply collect_blocks_from. exists files.
      cbn. split_and!; [done..|]. apply collect_target_fold. by split. }
    destruct Hc as (c & Hc & <-). exists c. split; [done|].
    rewrite scan_collected by (by apply collect_blocks_spec in Hc as [_ ?]). by case_decide.
Qed.

(** Blocks that cannot be scanned together are the error of a log block. *)
Lemma scan_refused tz paths range files : res_mapM (read_file tz range) paths = Ok files -> ~ scannable (concat files) ->
  scan tz paths range = Err ELogBlock.
Proof.
  intros Hm Hn. unfold scan, collect_blocks. rewrite (collect_read _ _ _ _ Hm). cbn [rollback_targets all_blocks app].
  destruct (res_fold collect_target (concat files) ∅) as [ts|e|] eqn:E;
    [|by rewrite <- E, (collect_target_error (concat files) ∅) by (by rewrite E)..].
  assert (Hc : collect_blocks tz paths range = Ok (mkCollected files ts)).
  { unfold collect_blocks. rewrite (collect_read _ _ _ _ Hm). cbn [rollback_targets]. by rewrite E. }
  apply collect_blocks_spec in Hc as [_ Ht]. cbn [res_bind]. rewrite scan_collected by done. cbn [all_blocks] in *.
  rewrite decide_True; [done|]. apply dec_stable. intros Hmix. apply Hn. split; [|done].
  by apply collect_target_fold in E as [Hall _].
Qed.
End spec.

(** * Properties *)
Section properties.
Context {C : Chrono} {AB : ArrowBatch} {D : ContentDecoder} {LS : LogStorage}.

(** A scan succeeds exactly when every file reads, every rollback block
    names its target, and HFile blocks are not mixed with record blocks.  It then
    returns, in the order of the files and of the blocks in them, the contents of
    the blocks that are not rollbacks and whose instant no rollback block of any
    of the files names -- wherever the rollback stands. *)
Theorem scan_spec tz paths range r :
  scan tz paths range = Ok r <->
  exists files, res_mapM (read_file tz range) paths = Ok files /\
    (forall b, b ∈ concat files -> is_rollback_block b = true -> is_Ok (target_instant_time b) = true) /\
    ~ (has_type [HfileData] (concat files) /\ has_type record_types (concat files)) /\
    r = scan_result (concat files).
Proof.
  rewrite scan_eq. unfold scannable. split; intros (files & Hm & Hs); exists files; tauto.
Qed.

(** The content type is that of the blocks read, rolled back or not: delete
    blocks go with either format, command and corrupted blocks with any, and
    only record blocks beside HFile blocks are refused. *)
Theorem detect_content_type_spec c :
  let has ts := has_type ts (concat (all_blocks c)) in
  (detect_content_type c = Err ELogBlock <-> has record_types /\ has [HfileData]) /\
  (detect_content_type c = Ok ContentHFile <-> has [HfileData] /\ ~ has record_types) /\
  (detect_content_type c = Ok ContentRecords
     <-> (has record_types \/ has [Delete]) /\ ~ has [HfileData]) /\
  (detect_content_type c = Ok ContentEmpty
     <-> ~ has record_types /\ ~ has [HfileData] /\ ~ has [Delete]).
Proof.
  intros has. rewrite detect_content_type_eq. fold (has [HfileData]) (has record_types) (has [Delete]).
  repeat case_decide; split_and!; split; intros; try done; tauto.
Qed.

(** A path and the well-formed blocks in the file it names. *)
Definition holds_written (tz : string) (range : InstantRange) (path : string)
    (bs : list WrittenBlock) : Prop :=
  log_object path = Ok (encode_blocks bs) /\ blen (encode_blocks bs) + 6 <= u64_max /\
  List.Forall wf_written bs /\ List.Forall (comparable tz range) bs.

(** C34: from bytes to rows: scanning files of whole, decodable blocks whose instants
    can be compared with the range ends with what the blocks the range admits come to,
    less those that the admitted rollback blocks hide; or, just where the admitted
    blocks mix HFile blocks with blocks of records, or one of them is a rollback that
    names no target, with the error of a log block. *)
Theorem scan_written_files tz range paths files :
  Forall2 (holds_written tz range) paths files ->
  scan tz paths range =
    if decide (scannable (concat (admitted tz range <$> files)))
    then Ok (scan_result (concat (admitted tz range <$> files))) else Err ELogBlock.
Proof.
  intros Hf. assert (Hm : res_mapM (read_file tz range) paths = Ok (admitted tz range <$> files)).
  { apply res_mapM_Ok. induction Hf as [|path bs paths files (Ho & Hu & Hw & Hc) _ IH];
      [constructor|]. rewrite fmap_cons. constructor; [|done].
    unfold read_file. rewrite Ho. cbn [res_bind]. by apply read_all_blocks_encoded. }
  case_decide as Hs; [apply scan_eq; by exists (admitted tz range <$> files)|by eapply scan_refused].
Qed.
End properties.

(** A file with a data block and a delete block, and a later file that rolls
    the data block back. *)
Definition rollback_sample : WrittenBlock (AB := raw_batch) :=
  mkWritten (AB := raw_batch) Command
    (<[TargetInstantTime := "20240401000000"%string]>
      (<[CommandBlockType := "0"%string]> (sample_header "20240403000001"))) []
    (Empty (AB := raw_batch)) ∅.

Definition storage_sample : LogStorage := {|
  log_object path := if decide (path = "a"%string) then Ok file_sample
    else Ok (encode_blocks [rollback_sample]);
  log_store path := store_of []
|}.

Definition wide_sample : InstantRange := up_to "20240404000000" "UTC".

Lemma wf_rollback_sample : wf_written (D := raw_decoder) rollback_sample.
Proof.
  split; [|apply map_Forall_empty|done].
  apply map_Forall_insert_2; [done|]. apply map_Forall_insert_2; [done|].
  by apply metadata_fits_sample.
Qed.

Lemma samples_hold :
  Forall2 (holds_written (C := Civil.civil) (D := raw_decoder) (LS := storage_sample) "UTC" wide_sample)
    ["a"; "b"]%string [[data_sample; late_sample]; [rollback_sample]].
Proof.
  constructor; [|constructor; [|constructor]]; (split; [done|]);
    (split; [vm_compute; discriminate|]); (split; [|repeat (constructor; [unfold comparable; vm_eq|]); constructor]).
  - exact samples_wf.
  - constructor; [exact wf_rollback_sample|constructor].
Qed.

Lemma scan_written_files_witness :
  scan (C := Civil.civil) (D := raw_decoder) (LS := storage_sample) "UTC" ["a"; "b"]%string wide_sample
  = Ok (ScanRecordBatches (raw_delete (string_bytes "keys #HUDI#"))).
Proof.
  refine (eq_trans (scan_written_files (C := Civil.civil) (D := raw_decoder) (LS := storage_sample)
    "UTC" wide_sample ["a"; "b"]%string [[data_sample; late_sample]; [rollback_sample]] samples_hold) _).
  vm_eq.
Defined.
