(* ===== verification/OrderingValues.v ===== *)
(** Ordering values, by which records of the same key are told apart:
    [OrderingValue] of
    crates/core/src/file_group/reader_v2/buffered_record.rs.

    A [f64] is its 64 bits; 128- and 256-bit integers keep their width where the
    code wraps. *)
From Stdlib Require Import ZArith.
From stdpp Require Import base gmap sets list strings sorting numbers.
From S2P Require Import Prelude RustStr.
Local Open Scope Z_scope.

Inductive OrderingValue :=
  | OLong (v : Z)
  | ODouble (bits : Z)
  | ODecimal (unscaled scale : Z)
  | OString (s : string)
  | ODefault
  | OComposite (l : list OrderingValue).

(** [f64::total_cmp] compares, as [i64]s, the bits of both values with those of
    negative numbers flipped below the sign. *)
Definition total_cmp_key (bits : Z) : Z :=
  if bits <? 2 ^ 63 then bits else 2 ^ 63 - 1 - bits.

Definition wrap_i256 (z : Z) : Z := (z + 2 ^ 255) mod 2 ^ 256 - 2 ^ 255.

Definition wrapping_mul (a b : Z) : Z := wrap_i256 (a * b).

Fixpoint pow10_i256 (exp : nat) : Z :=
  match exp with
  | O => 1
  | S exp => wrapping_mul (pow10_i256 exp) 10
  end.

Definition cmp_decimal (a_unscaled a_scale b_unscaled b_scale : Z) : comparison :=
  if a_scale =? b_scale then a_unscaled ?= b_unscaled
  else
    let '(a256, b256) :=
      if a_scale <? b_scale then
        (wrapping_mul a_unscaled (pow10_i256 (Z.to_nat (b_scale - a_scale))), b_unscaled)
      else
        (a_unscaled, wrapping_mul b_unscaled (pow10_i256 (Z.to_nat (a_scale - b_scale)))) in
    a256 ?= b256.

Definition variant_rank (v : OrderingValue) : Z :=
  match v with
  | OLong _ => 0
  | OString _ => 1
  | OComposite _ => 2
  | ODouble _ => 3
  | ODecimal _ _ => 4
  | ODefault => 0
  end.

Definition is_default (v : OrderingValue) : bool :=
  match v with ODefault => true | _ => false end.

(** [std::mem::discriminant] *)
Definition discriminant (v : OrderingValue) : Z :=
  match v with
  | OLong _ => 0
  | ODouble _ => 1
  | ODecimal _ _ => 2
  | OString _ => 3
  | ODefault => 4
  | OComposite _ => 5
  end.

Definition is_same_class (a b : OrderingValue) : bool :=
  match a, b with
  | ODefault, ODefault | ODefault, OLong _ | OLong _, ODefault => true
  | _, _ => discriminant a =? discriminant b
  end.

(** Lexicographic comparison of slices: a prefix comes first. *)
Fixpoint list_cmp {A} (cmp : A -> A -> comparison) (l l' : list A) : comparison :=
  match l, l' with
  | [], [] => Eq
  | [], _ :: _ => Lt
  | _ :: _, [] => Gt
  | a :: l, b :: l' => match cmp a b with Eq => list_cmp cmp l l' | c => c end
  end.

Fixpoint ov_cmp (a b : OrderingValue) {struct a} : comparison :=
  match a, b with
  | OLong a, OLong b => a ?= b
  | ODouble a, ODouble b => total_cmp_key a ?= total_cmp_key b
  | OString a, OString b => (a ?= b)%string
  | ODecimal a a_scale, ODecimal b b_scale => cmp_decimal a a_scale b b_scale
  | OComposite a, OComposite b =>
      (fix go (l l' : list OrderingValue) : comparison :=
         match l, l' with
         | [], [] => Eq
         | [], _ :: _ => Lt
         | _ :: _, [] => Gt
         | a :: l, b :: l' => match ov_cmp a b with Eq => go l l' | c => c end
         end) a b
  | ODefault, ODefault => Eq
  | ODefault, OLong b => 0 ?= b
  | OLong a, ODefault => a ?= 0
  | _, _ => variant_rank a ?= variant_rank b
  end.

Definition ov_eq (a b : OrderingValue) : bool :=
  match ov_cmp a b with Eq => true | _ => false end.

Definition ov_lt (a b : OrderingValue) : bool :=
  match ov_cmp a b with Lt => true | _ => false end.

Definition ov_le (a b : OrderingValue) : bool :=
  match ov_cmp a b with Gt => false | _ => true end.

(** * Decimals compare by value *)

(** The domain of Arrow's [Decimal128]. *)
Definition decimal_in_domain (unscaled scale : Z) : Prop :=
  - 2 ^ 127 <= unscaled < 2 ^ 127 /\ 0 <= scale <= 38.

Lemma wrap_i256_id z : - 2 ^ 255 <= z < 2 ^ 255 -> wrap_i256 z = z.
Proof. intros Hz. unfold wrap_i256. rewrite Z.mod_small; lia. Qed.

Lemma pow10_exact n : (n <= 38)%nat -> pow10_i256 n = 10 ^ Z.of_nat n.
Proof.
  induction n as [|n IH]; intros Hn; [done|]. cbn [pow10_i256]. rewrite IH by lia.
  unfold wrapping_mul. rewrite Nat2Z.inj_succ, Z.pow_succ_r by lia.
  rewrite wrap_i256_id; [lia|].
  assert (10 ^ Z.of_nat n <= 10 ^ 38) by (apply Z.pow_le_mono_r; lia).
  assert (0 < 10 ^ Z.of_nat n) by (apply Z.pow_pos_nonneg; lia).
  change (10 ^ 38) with 100000000000000000000000000000000000000 in *. lia.
Qed.

Lemma rescale_exact u n : - 2 ^ 127 <= u < 2 ^ 127 -> (n <= 38)%nat ->
  wrapping_mul u (pow10_i256 n) = u * 10 ^ Z.of_nat n.
Proof.
  intros Hu Hn. rewrite pow10_exact by done. unfold wrapping_mul. apply wrap_i256_id.
  assert (10 ^ Z.of_nat n <= 10 ^ 38) by (apply Z.pow_le_mono_r; lia).
  assert (0 < 10 ^ Z.of_nat n) by (apply Z.pow_pos_nonneg; lia).
  change (10 ^ 38) with 100000000000000000000000000000000000000 in *. nia.
Qed.

(** [a / 10^s] against [b / 10^t], both multiplied by [10^38]. *)
Definition decimal_value (unscaled scale : Z) : Z := unscaled * 10 ^ (38 - scale).

Lemma cmp_decimal_by_value a s b t :
  decimal_in_domain a s -> decimal_in_domain b t ->
  cmp_decimal a s b t = (decimal_value a s ?= decimal_value b t).
Proof.
  intros [Ha Hs] [Hb Ht]. unfold cmp_decimal, decimal_value.
  assert (Hpos : forall n, 0 <= n -> 0 < 10 ^ n) by (intros; apply Z.pow_pos_nonneg; lia).
  destruct (Z.eqb_spec s t) as [->|Hst].
  { rewrite <- Zmult_compare_compat_r; [done|]. specialize (Hpos (38 - t)). lia. }
  destruct (Z.ltb_spec s t).
  - rewrite rescale_exact by lia. rewrite Z2Nat.id by lia.
    rewrite (Zmult_compare_compat_r _ _ (10 ^ (38 - t))) by (specialize (Hpos (38 - t)); lia).
    rewrite <- Z.mul_assoc, <- Z.pow_add_r by lia. do 3 f_equal. lia.
  - rewrite rescale_exact by lia. rewrite Z2Nat.id by lia.
    rewrite (Zmult_compare_compat_r _ _ (10 ^ (38 - s))) by (specialize (Hpos (38 - s)); lia).
    rewrite <- Z.mul_assoc, <- Z.pow_add_r by lia. do 3 f_equal. lia.
Qed.

(** * The order is total *)

(** Decimals in their domain, at any depth. *)
Fixpoint ov_supported (v : OrderingValue) : Prop :=
  match v with
  | ODecimal u s => decimal_in_domain u s
  | OComposite l =>
      (fix go (l : list OrderingValue) : Prop :=
         match l with [] => True | a :: l => ov_supported a /\ go l end) l
  | _ => True
  end.

Lemma ov_supported_composite l : ov_supported (OComposite l) <-> List.Forall ov_supported l.
Proof.
  cbn. induction l as [|a l IH]; [split; [constructor|done]|]. rewrite List.Forall_cons_iff, <- IH.
  done.
Qed.

Lemma ov_cmp_composite l l' : ov_cmp (OComposite l) (OComposite l') = list_cmp ov_cmp l l'.
Proof.
  cbn. revert l'. induction l as [|a l IH]; intros [|b l']; cbn; try done.
  by destruct (ov_cmp a b).
Qed.

(** A key of the domain's values in a totally ordered type, element by element. *)
Definition scalar_key (v : OrderingValue) : Z * (Z * string) :=
  match v with
  | OLong v => (0, (v, EmptyString))
  | OString s => (1, (0, s))
  | OComposite _ => (2, (0, EmptyString))
  | ODouble bits => (3, (total_cmp_key bits, EmptyString))
  | ODecimal u s => (4, (decimal_value u s, EmptyString))
  | ODefault => (0, (0, EmptyString))
  end.

#[export] Instance string_total_cmp : TotalCmp String.compare.
Proof.
  split.
  - apply str_compare_eq.
  - intros a b. apply String.compare_antisym.
  - intros a b c Ha Hb. exact (str_lt_trans a b c Ha Hb).
Qed.

Definition scalar_cmp := prod_cmp Z.compare (prod_cmp Z.compare String.compare).

Lemma ov_cmp_scalar a b :
  ov_supported a -> ov_supported b ->
  (forall l l', ~ (a = OComposite l /\ b = OComposite l')) ->
  ov_cmp a b = scalar_cmp (scalar_key a) (scalar_key b).
Proof.
  intros Ha Hb Hn. unfold scalar_cmp, prod_cmp, cmp_then.
  destruct a, b; cbn -[Z.compare decimal_value total_cmp_key cmp_decimal] in *; try done;
    try (by destruct (_ ?= _)); try by destruct (Hn l l0).
  rewrite cmp_decimal_by_value by done. by destruct (_ ?= _).
Qed.

Section induction.
Context (P : OrderingValue -> Prop).
Context (HL : forall v, P (OLong v)) (HD : forall b, P (ODouble b))
  (HM : forall u s, P (ODecimal u s)) (HS : forall s, P (OString s)) (HN : P ODefault)
  (HC : forall l, List.Forall P l -> P (OComposite l)).

Fixpoint ov_induction (v : OrderingValue) : P v :=
  match v with
  | OLong v => HL v
  | ODouble b => HD b
  | ODecimal u s => HM u s
  | OString s => HS s
  | ODefault => HN
  | OComposite l =>
      HC l ((fix go (l : list OrderingValue) : List.Forall P l :=
        match l with
        | [] => @List.Forall_nil _ P
        | a :: l => @List.Forall_cons _ P a l (ov_induction a) (go l)
        end) l)
  end.
End induction.

Lemma scalar_cmp_opp x y : scalar_cmp y x = CompOpp (scalar_cmp x y).
Proof. apply (cmp_opp (cmp := scalar_cmp)). Qed.

Lemma scalar_cmp_le_trans x y z :
  scalar_cmp x y <> Gt -> scalar_cmp y z <> Gt -> scalar_cmp x z <> Gt.
Proof.
  intros Hxy Hyz Hxz. pose proof (cmp_opp (cmp := scalar_cmp) x z) as Ho. rewrite Hxz in Ho. cbn in Ho.
  destruct (scalar_cmp x y) eqn:E; [| |done].
  - apply (cmp_eq (cmp := scalar_cmp)) in E as ->. done.
  - pose proof (cmp_lt_trans (cmp := scalar_cmp) _ _ _ Ho E) as Hzy.
    pose proof (cmp_opp (cmp := scalar_cmp) z y) as Ho'. rewrite Hzy in Ho'. by cbn in Ho'.
Qed.

Definition is_composite (v : OrderingValue) : bool :=
  match v with OComposite _ => true | _ => false end.

Lemma ov_cmp_key a b :
  ov_supported a -> ov_supported b -> is_composite a && is_composite b = false ->
  ov_cmp a b = scalar_cmp (scalar_key a) (scalar_key b).
Proof. intros Ha Hb Hc. apply ov_cmp_scalar; [done..|]. by intros l l' [-> ->]. Qed.

Lemma composite_key a b : is_composite a = true -> is_composite b = true -> scalar_key a = scalar_key b.
Proof. by destruct a, b. Qed.

Lemma composite_rank a b :
  is_composite a = true -> is_composite b = false -> scalar_cmp (scalar_key a) (scalar_key b) <> Eq.
Proof.
  intros Ha Hb He. apply (cmp_eq (cmp := scalar_cmp)) in He. by destruct a, b.
Qed.

Lemma list_cmp_opp {A} (cmp : A -> A -> comparison) l l' :
  List.Forall (fun a => forall b, In b l' -> cmp b a = CompOpp (cmp a b)) l ->
  list_cmp cmp l' l = CompOpp (list_cmp cmp l l').
Proof.
  revert l'. induction l as [|a l IH]; intros [|b l'] Hf; cbn; try done.
  apply List.Forall_cons_iff in Hf as [Ha Hf]. rewrite (Ha b) by by left.
  destruct (cmp a b); cbn; try done. apply IH. eapply List.Forall_impl; [|exact Hf].
  cbn. intros x Hx y Hy. apply Hx. by right.
Qed.

Lemma ov_cmp_opp a b : ov_supported a -> ov_supported b -> ov_cmp b a = CompOpp (ov_cmp a b).
Proof.
  revert b. induction a as [v|bits|u s|s| |l IH] using ov_induction; intros b Ha Hb;
    try (rewrite !ov_cmp_key by (done || by destruct b); apply scalar_cmp_opp).
  destruct (is_composite b) eqn:Hc.
  - destruct b as [| | | | |l']; try done. rewrite !ov_cmp_composite. apply list_cmp_opp.
    apply ov_supported_composite in Ha, Hb. rewrite List.Forall_forall in *.
    intros a Hin b Hin'. apply IH; auto.
  - rewrite !ov_cmp_key by (done || rewrite Hc; done). apply scalar_cmp_opp.
Qed.

(** * Transitivity *)
Section transitive.
Context {A : Type} (cmp : A -> A -> comparison) (S : A -> Prop).
Context (Hopp : forall x y, S x -> S y -> cmp y x = CompOpp (cmp x y)).
Context (Htr : forall x y z, S x -> S y -> S z -> cmp x y <> Gt -> cmp y z <> Gt -> cmp x z <> Gt).

Lemma cmp_squeeze x y z : S x -> S y -> S z -> cmp x y <> Gt -> cmp y z <> Gt -> cmp x z = Eq ->
  cmp x y = Eq /\ cmp y z = Eq.
Proof using Hopp Htr.
  intros Hx Hy Hz Hxy Hyz Hxz.
  assert (Hzx : cmp z x <> Gt) by (rewrite (Hopp x z), Hxz by done; done).
  assert (Hyx : cmp y x <> Gt) by (apply (Htr y z x); done).
  assert (Hzy : cmp z y <> Gt) by (apply (Htr z x y); done).
  rewrite (Hopp x y) in Hyx by done. rewrite (Hopp y z) in Hzy by done.
  by destruct (cmp x y), (cmp y z).
Qed.

Lemma cmp_eq_le x y z : S x -> S y -> S z -> cmp x y = Eq -> cmp y z = Eq -> cmp x z = Eq.
Proof using Hopp Htr.
  intros Hx Hy Hz Hxy Hyz.
  assert (cmp x z <> Gt) by (apply (Htr x y z); try done; by rewrite ?Hxy, ?Hyz).
  assert (Hzx : cmp z x <> Gt).
  { apply (Htr z y x); try done; [rewrite (Hopp y z)|rewrite (Hopp x y)]; try done;
      by rewrite ?Hxy, ?Hyz. }
  rewrite (Hopp x z) in Hzx by done. by destruct (cmp x z).
Qed.

Lemma list_cmp_le_trans l1 l2 l3 :
  List.Forall S l1 -> List.Forall S l2 -> List.Forall S l3 ->
  list_cmp cmp l1 l2 <> Gt -> list_cmp cmp l2 l3 <> Gt -> list_cmp cmp l1 l3 <> Gt.
Proof using Hopp Htr.
  revert l2 l3. induction l1 as [|x l1 IH]; intros [|y l2] [|z l3] H1 H2 H3; cbn; try done.
  apply List.Forall_cons_iff in H1 as [Hx H1], H2 as [Hy H2], H3 as [Hz H3].
  intros Hxy Hyz.
  assert (Lxy : cmp x y <> Gt) by by destruct (cmp x y).
  assert (Lyz : cmp y z <> Gt) by by destruct (cmp y z).
  pose proof (Htr _ _ _ Hx Hy Hz Lxy Lyz) as Lxz.
  destruct (cmp x z) eqn:E; [|done|done].
  destruct (cmp_squeeze _ _ _ Hx Hy Hz Lxy Lyz E) as [E1 E2]. rewrite E1 in Hxy. rewrite E2 in Hyz.
  by apply (IH l2 l3).
Qed.
End transitive.

Fixpoint ov_size (v : OrderingValue) : nat :=
  match v with
  | OComposite l => S (list_sum (ov_size <$> l))
  | _ => O
  end.

Lemma ov_size_elem a l : In a l -> (ov_size a < ov_size (OComposite l))%nat.
Proof.
  intros Ha. change (ov_size (OComposite l)) with (S (list_sum (ov_size <$> l))).
  induction l as [|b l IH]; [done|]. rewrite fmap_cons. cbn [list_sum foldr] in *.
  change (foldr Nat.add 0%nat (ov_size <$> l)) with (list_sum (ov_size <$> l)) in *.
  destruct Ha as [->|Ha]; [lia|]. specialize (IH Ha). lia.
Qed.

Lemma ov_cmp_le_trans_size n a b c :
  (ov_size a <= n)%nat -> (ov_size b <= n)%nat -> (ov_size c <= n)%nat ->
  ov_supported a -> ov_supported b -> ov_supported c ->
  ov_cmp a b <> Gt -> ov_cmp b c <> Gt -> ov_cmp a c <> Gt.
Proof.
  revert a b c. induction n as [n IH] using lt_wf_ind. intros a b c Na Nb Nc Ha Hb Hc.
  destruct (is_composite a) eqn:Ca, (is_composite b) eqn:Cb, (is_composite c) eqn:Cc.
  - destruct a as [| | | | |la], b as [| | | | |lb], c as [| | | | |lc]; try done.
    rewrite !ov_cmp_composite. destruct n as [|n]; [cbn in Na; lia|].
    apply ov_supported_composite in Ha, Hb, Hc.
    assert (Hall : forall l, (ov_size (OComposite l) <= S n)%nat -> List.Forall ov_supported l ->
      List.Forall (fun v => (ov_size v <= n)%nat /\ ov_supported v) l).
    { intros l Hl Hs. rewrite List.Forall_forall in *. intros v Hv. split; [|auto].
      pose proof (ov_size_elem v l Hv). lia. }
    apply (list_cmp_le_trans ov_cmp (fun v => (ov_size v <= n)%nat /\ ov_supported v)); auto.
    + intros x y [_ Hx] [_ Hy]. by apply ov_cmp_opp.
    + intros x y z [Nx Hx] [Ny Hy] [Nz Hz]. by apply (IH n); [lia|..].
  - rewrite (ov_cmp_key b c), (ov_cmp_key a c) by (done || by rewrite ?Ca, ?Cb, ?Cc).
    by rewrite (composite_key a b).
  - rewrite (ov_cmp_key a b), (ov_cmp_key b c) by (done || by rewrite ?Ca, ?Cb, ?Cc).
    rewrite (composite_key a c) by done. intros Hcb Hbc.
    rewrite scalar_cmp_opp in Hcb. pose proof (composite_rank c b Cc Cb) as Hne.
    rewrite scalar_cmp_opp in Hne. by destruct (scalar_cmp (scalar_key b) (scalar_key c)).
  - rewrite !ov_cmp_key by (done || by rewrite ?Ca, ?Cb, ?Cc). apply scalar_cmp_le_trans.
  - rewrite (ov_cmp_key a b), (ov_cmp_key a c) by (done || by rewrite ?Ca, ?Cb, ?Cc).
    by rewrite (composite_key b c).
  - rewrite !ov_cmp_key by (done || by rewrite ?Ca, ?Cb, ?Cc). apply scalar_cmp_le_trans.
  - rewrite !ov_cmp_key by (done || by rewrite ?Ca, ?Cb, ?Cc). apply scalar_cmp_le_trans.
  - rewrite !ov_cmp_key by (done || by rewrite ?Ca, ?Cb, ?Cc). apply scalar_cmp_le_trans.
Qed.

Lemma ov_cmp_le_trans a b c :
  ov_supported a -> ov_supported b -> ov_supported c ->
  ov_cmp a b <> Gt -> ov_cmp b c <> Gt -> ov_cmp a c <> Gt.
Proof. apply (ov_cmp_le_trans_size (ov_size a + ov_size b + ov_size c)%nat); lia. Qed.

Lemma ov_cmp_refl a : ov_supported a -> ov_cmp a a = Eq.
Proof. intros Ha. pose proof (ov_cmp_opp a a Ha Ha). by destruct (ov_cmp a a). Qed.

(** C37: on values whose decimals are in the domain of [Decimal128], at any depth
    of composite values, the comparison is a total order up to its equality:
    every two values compare, both ways alike, and transitively; and decimals
    compare by value whatever their scales. *)
Theorem ordering_values_totally_ordered a b c :
  ov_supported a -> ov_supported b -> ov_supported c ->
  ov_cmp a a = Eq /\
  ov_cmp b a = CompOpp (ov_cmp a b) /\
  (ov_le a b = true -> ov_le b c = true -> ov_le a c = true) /\
  (ov_eq a b = true -> ov_cmp a c = ov_cmp b c) /\
  (forall u s u' s', a = ODecimal u s -> b = ODecimal u' s' ->
     ov_cmp a b = (u * 10 ^ (38 - s) ?= u' * 10 ^ (38 - s'))).
Proof.
  intros Ha Hb Hc. unfold ov_le, ov_eq.
  pose proof (ov_cmp_opp a b Ha Hb) as Hab. pose proof (ov_cmp_opp b c Hb Hc) as Hbc.
  pose proof (ov_cmp_opp a c Ha Hc) as Hac.
  split_and!; [by apply ov_cmp_refl|done| | |].
  - intros Lab Lbc. pose proof (ov_cmp_le_trans a b c Ha Hb Hc) as Ht.
    destruct (ov_cmp a b), (ov_cmp b c), (ov_cmp a c); try done; exfalso; by apply Ht.
  - intros Eab. destruct (ov_cmp a b) eqn:E; [|done|done]. cbn in Hab.
    pose proof (ov_cmp_le_trans a b c Ha Hb Hc) as T1. pose proof (ov_cmp_le_trans b a c Hb Ha Hc) as T2.
    pose proof (ov_cmp_le_trans c a b Hc Ha Hb) as T3. pose proof (ov_cmp_le_trans c b a Hc Hb Ha) as T4.
    rewrite E, Hab, Hac, Hbc in *.
    destruct (ov_cmp a c), (ov_cmp b c); cbn in *; try done; exfalso; intuition congruence.
  - intros u s u' s' -> ->. cbn -[cmp_decimal]. by apply cmp_decimal_by_value.
Qed.

Lemma ordering_values_totally_ordered_witness :
  ov_supported (OComposite [ODecimal 10 1; OLong 5]) /\
  ov_cmp (OComposite [ODecimal 10 1; OLong 5]) (OComposite [ODecimal 100 2; ODefault]) = Gt /\
  ov_cmp (OComposite [ODecimal 100 2; ODefault]) (OComposite [ODecimal 10 1; OLong 5]) = Lt.
Proof.
  assert (Ha : ov_supported (OComposite [ODecimal 10 1; OLong 5])) by (cbn; unfold decimal_in_domain; lia).
  assert (Hb : ov_supported (OComposite [ODecimal 100 2; ODefault])) by (cbn; unfold decimal_in_domain; lia).
  split; [exact Ha|]. split; [vm_eq|].
  destruct (ordering_values_totally_ordered _ _ _ Ha Hb Ha) as (_ & -> & _). vm_eq.
Defined.

(** Composite values are of the same class whatever their elements are: elements
    of different types are told apart by the rank of their variants. *)
Example composite_elements_compare_by_rank :
  is_same_class (OComposite [OLong 9]) (OComposite [OString "1"]) = true /\
  is_same_class (OLong 9) (OString "1") = false /\
  ov_lt (OComposite [OLong 9]) (OComposite [OString "1"]) = true.
Proof. by split_and!. Qed.

(** Outside the domain of [Decimal128] the rescaling wraps: 10^77 is taken for a
    negative number. *)
Example decimal_wraps_out_of_domain : ov_cmp (ODecimal 1 (-39)) (ODecimal 0 38) = Lt.
Proof. vm_eq. Qed.
