(* ===== verification/RecordMerger.v ===== *)
(** Records of the log and how two with the same key merge:
    crates/core/src/file_group/reader_v2/buffered_record.rs, record_merger.rs,
    update_processor.rs, and [pick_winner] of buffer/key_based.rs.

    Rows live in Arrow batches; a row of a batch ([RecordBatch::slice]) is a
    parameter ([ArrowRows]). *)
From Stdlib Require Import ZArith.
From stdpp Require Import base gmap sets list strings sorting numbers.
From S2P Require Import Prelude RustStr StorageReader RecordBatches OrderingValues.
Local Open Scope res_scope.
Local Open Scope Z_scope.

Class ArrowRows {AB : ArrowBatch} := slice_row : RecordBatch -> nat -> RecordBatch.

(** [>=] and [>] of [OrderingValue]. *)
Definition ov_ge (a b : OrderingValue) : bool :=
  match ov_cmp a b with Lt => false | _ => true end.
Definition ov_gt (a b : OrderingValue) : bool :=
  match ov_cmp a b with Gt => true | _ => false end.

Section records.
Context {AB : ArrowBatch} {AR : ArrowRows}.

(** A shared batch: [Arc<RecordBatch>]. The code compares pointers
    ([Arc::as_ptr]), so an [Arc] is its address with the batch it points to. *)
Record Arc := mkArc { as_ptr : nat; pointee : RecordBatch }.

Inductive RecordPayload :=
  | BatchRef (batch : Arc) (row_idx : nat)
  | Owned (batch : RecordBatch)
  | Deleted.

Definition payload_get_record (p : RecordPayload) : option RecordBatch :=
  match p with
  | BatchRef batch row_idx => Some (slice_row (pointee batch) row_idx)
  | Owned batch => Some batch
  | Deleted => None
  end.

Definition payload_is_delete (p : RecordPayload) : bool :=
  match p with Deleted => true | _ => false end.

Record BufferedRecord := mkBuffered {
  record_key : string;
  payload : RecordPayload;
  ordering_value : option OrderingValue
}.

Definition new_batch_ref (record_key : string) (batch : Arc) (row_idx : nat)
    (ordering_value : option OrderingValue) : BufferedRecord :=
  mkBuffered record_key (BatchRef batch row_idx) ordering_value.

Definition new_data (record_key : string) (data : RecordBatch)
    (ordering_value : option OrderingValue) : BufferedRecord :=
  mkBuffered record_key (Owned data) ordering_value.

Definition new_delete (record_key : string) (ordering_value : option OrderingValue)
    : BufferedRecord :=
  mkBuffered record_key Deleted ordering_value.

Definition is_delete (r : BufferedRecord) : bool := payload_is_delete (payload r).

Definition get_record (r : BufferedRecord) : option RecordBatch := payload_get_record (payload r).

Record DeleteRecord := mkDelete {
  del_record_key : string;
  del_ordering_value : option OrderingValue
}.

Definition from_delete_record (d : DeleteRecord) : BufferedRecord :=
  new_delete (del_record_key d) (del_ordering_value d).

(** * Merging *)
Definition is_default_ordering (ordering_value : option OrderingValue) : bool :=
  match ordering_value with None | Some ODefault => true | _ => false end.

Definition is_commit_time_ordering_delete (r : BufferedRecord) : bool :=
  is_delete r && is_default_ordering (ordering_value r).

Class BufferedRecordMerger := {
  delta_merge : BufferedRecord -> option BufferedRecord -> res (option BufferedRecord);
  delta_merge_delete : DeleteRecord -> option BufferedRecord -> res (option DeleteRecord);
  final_merge : BufferedRecord -> BufferedRecord -> res BufferedRecord
}.

Definition should_keep_newer_record (old_record new_record : BufferedRecord) : bool :=
  if is_commit_time_ordering_delete new_record || is_commit_time_ordering_delete old_record
  then true
  else match ordering_value new_record, ordering_value old_record with
       | Some new_val, Some old_val => negb (is_same_class new_val old_val) || ov_ge new_val old_val
       | _, _ => true
       end.

Definition event_time_delta_merge (new_record : BufferedRecord)
    (existing_record : option BufferedRecord) : res (option BufferedRecord) :=
  match existing_record with
  | None => Ok (Some new_record)
  | Some existing =>
      if should_keep_newer_record existing new_record then Ok (Some new_record)
      else Ok (Some existing)
  end.

Definition event_time_delta_merge_delete (delete_record : DeleteRecord)
    (existing_record : option BufferedRecord) : res (option DeleteRecord) :=
  match existing_record with
  | None => Ok (Some delete_record)
  | Some existing =>
      if is_commit_time_ordering_delete existing then Ok None
      else
        let choose_existing :=
          negb (is_default_ordering (del_ordering_value delete_record)) &&
          match del_ordering_value delete_record, ordering_value existing with
          | Some del_val, Some existing_val =>
              is_same_class del_val existing_val && ov_gt existing_val del_val
          | _, _ => false
          end in
        if choose_existing then Ok None else Ok (Some delete_record)
  end.

Definition event_time_final_merge (older_record newer_record : BufferedRecord)
    : res BufferedRecord :=
  if should_keep_newer_record older_record newer_record then Ok newer_record else Ok older_record.

Definition EventTimeRecordMerger : BufferedRecordMerger := {|
  delta_merge := event_time_delta_merge;
  delta_merge_delete := event_time_delta_merge_delete;
  final_merge := event_time_final_merge
|}.

Definition CommitTimeRecordMerger : BufferedRecordMerger := {|
  delta_merge new_record _ := Ok (Some new_record);
  delta_merge_delete delete_record _ := Ok (Some delete_record);
  final_merge _ newer_record := Ok newer_record
|}.

Definition eq_ignore_ascii_case (a b : string) : bool :=
  bool_decide (to_ascii_lowercase a = to_ascii_lowercase b).

(** [BufferedRecordMergerFactory::create_with]; [custom] is what
    [resolve_custom_merger] finds in the table's configuration. *)
Definition create_with (custom : option BufferedRecordMerger) (merge_mode : string)
    : res BufferedRecordMerger :=
  if decide (merge_mode = "COMMIT_TIME_ORDERING") then Ok CommitTimeRecordMerger
  else if decide (merge_mode = "EVENT_TIME_ORDERING") then Ok EventTimeRecordMerger
  else if eq_ignore_ascii_case merge_mode "CUSTOM" then ok_or custom EReadFileSlice
  else Err EReadFileSlice.

(** * Winners of base-versus-log conflicts *)
Inductive Winner := WinnerBase | WinnerLogData | WinnerLogDelete.

Definition pick_winner_decides (merge_mode : string) : bool :=
  bool_decide (merge_mode = "COMMIT_TIME_ORDERING") ||
  bool_decide (merge_mode = "EVENT_TIME_ORDERING").

Definition pick_winner (merge_mode : string) (log : BufferedRecord)
    (base_ordering : option OrderingValue) : Winner :=
  if is_delete log then
    let delete_obsolete :=
      negb (bool_decide (merge_mode = "COMMIT_TIME_ORDERING")) &&
      match ordering_value log, base_ordering with
      | Some d, Some b => negb (is_default d) && is_same_class d b && ov_gt b d
      | _, _ => false
      end in
    if delete_obsolete then WinnerBase else WinnerLogDelete
  else
    let log_wins :=
      if bool_decide (merge_mode = "COMMIT_TIME_ORDERING") then true
      else match ordering_value log, base_ordering with
           | Some l, Some b => negb (is_same_class l b) || ov_ge l b
           | _, _ => true
           end in
    if log_wins then WinnerLogData else WinnerBase.

(** * Counting updates *)
Definition fetch_add_1 (n : Z) : Z := (n + 1) mod (u64_max + 1).

Record UpdateStats := mkUpdateStats { num_inserts : Z; num_updates : Z; num_deletes : Z }.

(** [StandardUpdateProcessor::process_update]: what is emitted, and the counts. *)
Definition process_update (stats : UpdateStats) (previous_record : option BufferedRecord)
    (merged_record : BufferedRecord) (deleted : bool) : option BufferedRecord * UpdateStats :=
  if deleted then
    (None, mkUpdateStats (num_inserts stats) (num_updates stats) (fetch_add_1 (num_deletes stats)))
  else match previous_record with
  | Some _ =>
      (Some merged_record,
       mkUpdateStats (num_inserts stats) (fetch_add_1 (num_updates stats)) (num_deletes stats))
  | None =>
      (Some merged_record,
       mkUpdateStats (fetch_add_1 (num_inserts stats)) (num_updates stats) (num_deletes stats))
  end.

(** * Sequences of log records of one key *)
Inductive LogOp :=
  | PutOp (r : BufferedRecord)
  | DelOp (d : DeleteRecord).

Definition op_record (o : LogOp) : BufferedRecord :=
  match o with PutOp r => r | DelOp d => from_delete_record d end.

(** What [merge_in_place] leaves in the slot of the key: a merger that returns
    nothing leaves it as it was. *)
Definition apply_op {M : BufferedRecordMerger} (slot : option BufferedRecord) (o : LogOp)
    : res (option BufferedRecord) :=
  match o with
  | PutOp r =>
      let? merged := delta_merge r slot in
      Ok (match merged with Some m => Some m | None => slot end)
  | DelOp d =>
      let? merged := delta_merge_delete d slot in
      Ok (match merged with Some m => Some (from_delete_record m) | None => slot end)
  end.

Definition replay {M : BufferedRecordMerger} (ops : list LogOp) (slot : option BufferedRecord)
    : res (option BufferedRecord) :=
  res_fold apply_op ops slot.
End records.

(** * Event-time ordering *)
Section event_time.
Context {AB : ArrowBatch} {AR : ArrowRows}.

Lemma ov_ge_le a b : ov_supported a -> ov_supported b -> ov_ge a b = ov_le b a.
Proof. intros Ha Hb. unfold ov_ge, ov_le. rewrite (ov_cmp_opp a b) by done. by destruct (ov_cmp a b). Qed.

Lemma ov_gt_lt a b : ov_supported a -> ov_supported b -> ov_gt a b = ov_lt b a.
Proof. intros Ha Hb. unfold ov_gt, ov_lt. rewrite (ov_cmp_opp a b) by done. by destruct (ov_cmp a b). Qed.

Lemma ov_ge_gt a b : ov_supported a -> ov_supported b -> ov_ge a b = negb (ov_gt b a).
Proof. intros Ha Hb. unfold ov_ge, ov_gt. rewrite (ov_cmp_opp a b) by done. by destruct (ov_cmp a b). Qed.

Lemma ov_le_trans a b c : ov_supported a -> ov_supported b -> ov_supported c ->
  ov_le a b = true -> ov_le b c = true -> ov_le a c = true.
Proof.
  unfold ov_le. intros Ha Hb Hc. pose proof (ov_cmp_le_trans a b c Ha Hb Hc) as Ht.
  destruct (ov_cmp a b), (ov_cmp b c), (ov_cmp a c); try done; intros; exfalso; by apply Ht.
Qed.

Lemma ov_le_negb a b : ov_supported a -> ov_supported b -> ov_le a b = negb (ov_lt b a).
Proof. intros Ha Hb. unfold ov_le, ov_lt. rewrite (ov_cmp_opp a b) by done. by destruct (ov_cmp a b). Qed.

Lemma ov_lt_le_trans a b c : ov_supported a -> ov_supported b -> ov_supported c ->
  ov_lt a b = true -> ov_le b c = true -> ov_lt a c = true.
Proof.
  intros Ha Hb Hc Hab Hbc. destruct (ov_lt a c) eqn:Hac; [done|].
  assert (Hca : ov_le c a = true) by (by rewrite ov_le_negb, Hac).
  pose proof (ov_le_trans b c a Hb Hc Ha Hbc Hca) as Hba.
  by rewrite ov_le_negb, Hab in Hba.
Qed.

Lemma ov_same_class_refl a : is_same_class a a = true.
Proof. by destruct a. Qed.

Lemma is_same_class_sym a b : is_same_class a b = is_same_class b a.
Proof. destruct a, b; reflexivity. Qed.

(** The ordering value of an operation. *)
Definition op_value (o : LogOp) : option OrderingValue := ordering_value (op_record o).

Definition op_is_delete (o : LogOp) : bool := is_delete (op_record o).

(** Operations with a value each, of one class and in the domain of the order;
    deletes carry a genuine value. *)
Record comparable_ops (ops : list LogOp) : Prop := {
  ops_valued : forall o, o ∈ ops -> exists v, op_value o = Some v /\ ov_supported v /\
    (op_is_delete o = true -> is_default v = false);
  ops_same_class : forall o o' v v', o ∈ ops -> o' ∈ ops ->
    op_value o = Some v -> op_value o' = Some v' -> is_same_class v v' = true
}.

Lemma comparable_ops_app ops ops' : comparable_ops (ops ++ ops') -> comparable_ops ops.
Proof.
  intros [Hv Hc]. split.
  - intros o Ho. apply Hv, elem_of_app. by left.
  - intros o o' v v' Ho Ho'. apply Hc; apply elem_of_app; by left.
Qed.

(** The order on operations by their values. *)
Definition op_le (o o' : LogOp) : Prop :=
  exists v v', op_value o = Some v /\ op_value o' = Some v' /\ ov_le v v' = true.
Definition op_lt (o o' : LogOp) : Prop :=
  exists v v', op_value o = Some v /\ op_value o' = Some v' /\ ov_lt v v' = true.

(** The last of the operations with the greatest value. *)
Definition last_maximum (ops : list LogOp) (m : LogOp) : Prop :=
  exists before after, ops = before ++ m :: after /\
    (forall o, o ∈ before -> op_le o m) /\ (forall o, o ∈ after -> op_lt o m).

Lemma commit_time_delete_value r v :
  ordering_value r = Some v -> (is_delete r = true -> is_default v = false) ->
  is_commit_time_ordering_delete r = false.
Proof.
  intros Hv Hd. unfold is_commit_time_ordering_delete. rewrite Hv.
  destruct (is_delete r); [|done]. specialize (Hd eq_refl). by destruct v.
Qed.

(** One more operation on a slot that holds an operation's record. *)
Lemma event_time_step m o v w :
  op_value m = Some v -> ov_supported v -> (op_is_delete m = true -> is_default v = false) ->
  op_value o = Some w -> ov_supported w -> (op_is_delete o = true -> is_default w = false) ->
  is_same_class w v = true ->
  apply_op (M := EventTimeRecordMerger) (Some (op_record m)) o
  = Ok (Some (op_record (if ov_le v w then o else m))).
Proof.
  intros Hv Sv Dv Hw Sw Dw Hc. unfold op_value, op_is_delete in *.
  pose proof (commit_time_delete_value _ _ Hv Dv) as Cm.
  pose proof (commit_time_delete_value _ _ Hw Dw) as Co.
  destruct o as [r|d]; cbn [apply_op op_record] in *.
  - cbn [delta_merge EventTimeRecordMerger]. unfold event_time_delta_merge, should_keep_newer_record.
    rewrite Cm, Co, Hv, Hw, Hc. cbn [orb negb]. rewrite ov_ge_le by done.
    by destruct (ov_le v w).
  - cbn [delta_merge_delete EventTimeRecordMerger]. unfold event_time_delta_merge_delete.
    cbn [from_delete_record new_delete ordering_value is_delete payload payload_is_delete] in Hw, Dw.
    rewrite Cm, Hw, Hv, Hc, ov_gt_lt by done. specialize (Dw eq_refl).
    assert (is_default_ordering (Some w) = false) as -> by by destruct w.
    rewrite ov_le_negb by done. by destruct (ov_lt w v).
Qed.

Lemma event_time_replay ops : comparable_ops ops -> ops <> [] ->
  exists m, last_maximum ops m /\
    replay (M := EventTimeRecordMerger) ops None = Ok (Some (op_record m)).
Proof.
  induction ops as [|o ops IH] using rev_ind; intros Hops Hne; [done|]. unfold replay.
  rewrite res_fold_app. destruct (decide (ops = [])) as [->|Hn].
  { exists o. split; [|by destruct o].
    exists [], []. split; [done|]. split; intros x Hx; by apply not_elem_of_nil in Hx. }
  destruct (IH (comparable_ops_app _ _ Hops) Hn) as (m & (before & after & Heq & Hle & Hlt) & Hr).
  unfold replay in Hr. rewrite Hr. cbn [res_bind res_fold].
  assert (Hm : m ∈ ops ++ [o]) by (rewrite Heq; set_solver).
  assert (Ho : o ∈ ops ++ [o]) by set_solver.
  destruct (ops_valued _ Hops m Hm) as (v & Hv & Sv & Dv).
  destruct (ops_valued _ Hops o Ho) as (w & Hw & Sw & Dw).
  pose proof (ops_same_class _ Hops o m w v Ho Hm Hw Hv) as Hc.
  rewrite (event_time_step m o v w) by done. cbn [res_bind].
  destruct (ov_le v w) eqn:Hvw.
  - exists o. split; [|done]. exists ops, []. split; [done|].
    split; [|intros x Hx; by apply not_elem_of_nil in Hx].
    assert (Hmo : forall x u, op_value x = Some u -> ov_supported u -> ov_le u v = true -> op_le x o).
    { intros x u Hu Su Huv. exists u, w. split_and!; [done..|]. by apply (ov_le_trans u v w). }
    intros x Hx. assert (Hx' : x ∈ ops ++ [o]) by set_solver.
    destruct (ops_valued _ Hops x Hx') as (u & Hu & Su & _). apply (Hmo x u Hu Su).
    rewrite Heq in Hx. apply elem_of_app in Hx as [Hx|[->|Hx]%elem_of_cons].
    + destruct (Hle x Hx) as (u' & v' & Hu' & Hv' & ?). congruence.
    + rewrite Hv in Hu. injection Hu as ->. unfold ov_le. by rewrite ov_cmp_refl.
    + destruct (Hlt x Hx) as (u' & v' & Hu' & Hv' & Hl).
      rewrite Hv in Hv'. injection Hv' as <-. rewrite Hu in Hu'. injection Hu' as <-.
      unfold ov_le, ov_lt in *. by destruct (ov_cmp u v).
  - exists m. split; [|done]. exists before, (after ++ [o]). split; [by rewrite Heq, <- app_assoc|].
    split; [done|]. intros x [Hx| ->%list_elem_of_singleton]%elem_of_app; [by apply Hlt|].
    exists w, v. split_and!; [done..|]. rewrite ov_le_negb in Hvw by done. by destruct (ov_lt w v).
Qed.
End event_time.

Section merge_lemmas.
Context {AB : ArrowBatch} {AR : ArrowRows}.

(** The order is defined on the record's ordering value. *)
Definition value_supported (r : BufferedRecord) : Prop :=
  forall v, ordering_value r = Some v -> ov_supported v.

Lemma create_with_decides custom mode M :
  create_with custom mode = Ok M -> pick_winner_decides mode = true ->
  (mode = "COMMIT_TIME_ORDERING"%string /\ M = CommitTimeRecordMerger) \/
  (mode = "EVENT_TIME_ORDERING"%string /\ M = EventTimeRecordMerger).
Proof.
  unfold create_with, pick_winner_decides. intros Hc Hd.
  destruct (decide (mode = "COMMIT_TIME_ORDERING"%string)) as [E|N].
  { left. injection Hc as <-. split; [exact E|reflexivity]. }
  destruct (decide (mode = "EVENT_TIME_ORDERING"%string)) as [E|N'].
  { right. injection Hc as <-. split; [exact E|reflexivity]. }
  by rewrite !bool_decide_false in Hd.
Qed.

Lemma pick_winner_final_merge custom mode M base log :
  create_with custom mode = Ok M -> pick_winner_decides mode = true ->
  is_delete base = false -> value_supported base -> value_supported log ->
  final_merge (BufferedRecordMerger := M) base log
  = Ok (match pick_winner mode log (ordering_value base) with WinnerBase => base | _ => log end) /\
  match pick_winner mode log (ordering_value base) with
  | WinnerBase => True
  | WinnerLogData => is_delete log = false
  | WinnerLogDelete => is_delete log = true
  end.
Proof.
  intros Hc Hd Hb Sb Sl. unfold pick_winner.
  destruct (create_with_decides _ _ _ Hc Hd) as [[-> ->]|[-> ->]].
  { rewrite bool_decide_true by done. cbn [negb andb final_merge CommitTimeRecordMerger].
    by destruct (is_delete log). }
  rewrite bool_decide_false by done. cbn [negb andb final_merge EventTimeRecordMerger].
  unfold event_time_final_merge, should_keep_newer_record, is_commit_time_ordering_delete.
  rewrite Hb. cbn [andb]. rewrite orb_false_r.
  destruct (ordering_value log) as [l|] eqn:El, (ordering_value base) as [b|] eqn:Eb;
    destruct (is_delete log) eqn:Dl; cbn [andb is_default_ordering]; try done.
  - rewrite (ov_ge_gt l b) by auto. destruct l; cbn [is_default is_default_ordering negb andb]; try done;
      destruct (is_same_class _ b); cbn; try done; by destruct (ov_gt b _).
  - by destruct (negb (is_same_class l b) || ov_ge l b).
  - by destruct l.
Qed.

Lemma default_delete_slot d slot :
  is_default_ordering (del_ordering_value d) = true ->
  exists r, apply_op (M := EventTimeRecordMerger) slot (DelOp d) = Ok (Some r) /\
    is_commit_time_ordering_delete r = true.
Proof.
  intros Hd. cbn [apply_op delta_merge_delete EventTimeRecordMerger].
  unfold event_time_delta_merge_delete. destruct slot as [existing|].
  - destruct (is_commit_time_ordering_delete existing) eqn:He; [by exists existing|].
    rewrite Hd. cbn. by eexists.
  - by eexists.
Qed.

Lemma event_time_total ops slot :
  exists slot', replay (M := EventTimeRecordMerger) ops slot = Ok slot'.
Proof.
  revert slot. induction ops as [|o ops IH]; intros slot; [by exists slot|].
  unfold replay. cbn [res_fold].
  assert (exists s, apply_op (M := EventTimeRecordMerger) slot o = Ok s) as [s ->]; [|apply IH].
  destruct o as [r|d]; cbn [apply_op delta_merge delta_merge_delete EventTimeRecordMerger].
  - unfold event_time_delta_merge. destruct slot; [|by eexists]. case_match; by eexists.
  - unfold event_time_delta_merge_delete. destruct slot; [|by eexists].
    case_match; [by eexists|]. cbv zeta. case_match; by eexists.
Qed.

Lemma replay_app {M : BufferedRecordMerger} ops ops' slot :
  replay (ops ++ ops') slot = res_bind (replay ops slot) (replay ops').
Proof. apply res_fold_app. Qed.

Lemma last_maximum_elem ops m : last_maximum ops m -> m ∈ ops.
Proof. intros (b & a & -> & _). set_solver. Qed.

Lemma op_le_maximum ops m o : comparable_ops ops -> last_maximum ops m -> o ∈ ops -> op_le o m.
Proof.
  intros Hops (b & a & -> & Hle & Hlt) [Ho|[->|Ho]%elem_of_cons]%elem_of_app; [by apply Hle| |].
  - destruct (ops_valued _ Hops m) as (v & Hv & Sv & _); [set_solver|].
    exists v, v. split_and!; [done..|]. unfold ov_le. by rewrite ov_cmp_refl.
  - destruct (Hlt o Ho) as (u & v & Hu & Hv & Hl). exists u, v. split_and!; [done..|].
    unfold ov_le, ov_lt in *. by destruct (ov_cmp u v).
Qed.

Lemma comparable_ops_perm ops ops' : ops ≡ₚ ops' -> comparable_ops ops -> comparable_ops ops'.
Proof.
  intros Hp [Hv Hc]. split.
  - intros o Ho. apply Hv. by rewrite Hp.
  - intros o o' v v' Ho Ho'. apply Hc; by rewrite Hp.
Qed.
End merge_lemmas.

(** * Properties *)
Section properties.
Context {AB : ArrowBatch} {AR : ArrowRows}.

(** Under event-time ordering, what is left of a key's log records -- data
    and deletes, in the order they were read -- is the last of those with the
    greatest ordering value; records of equal ordering yield to the one written
    later. *)
Theorem event_time_keeps_last_maximum ops :
  comparable_ops ops -> ops <> [] ->
  exists m, last_maximum ops m /\
    replay (M := EventTimeRecordMerger) ops None = Ok (Some (op_record m)).
Proof. apply event_time_replay. Qed.

(** When no two of a key's log records share an ordering value, the outcome
    of event-time merging does not depend on the order they are read in. *)
Theorem event_time_order_independent ops ops' :
  comparable_ops ops -> ops ≡ₚ ops' ->
  (forall o o', o ∈ ops -> o' ∈ ops -> op_le o o' -> op_le o' o -> o = o') ->
  replay (M := EventTimeRecordMerger) ops None = replay (M := EventTimeRecordMerger) ops' None.
Proof.
  intros Hops Hp Hd. destruct (decide (ops = [])) as [->|Hn].
  { by apply Permutation_nil_l in Hp as ->. }
  assert (Hn' : ops' <> []) by (intros ->; by apply Permutation_nil_r in Hp).
  pose proof (comparable_ops_perm _ _ Hp Hops) as Hops'.
  destruct (event_time_replay ops Hops Hn) as (m & Hm & ->).
  destruct (event_time_replay ops' Hops' Hn') as (m' & Hm' & ->).
  assert (Im : m ∈ ops) by by apply last_maximum_elem.
  assert (Im' : m' ∈ ops) by (rewrite Hp; by apply last_maximum_elem).
  rewrite (Hd m m'); [done..| |].
  - apply (op_le_maximum ops'); [done..|]. by rewrite <- Hp.
  - by apply (op_le_maximum ops).
Qed.

(** A delete with the default ordering value wipes the slate: whatever was
    read before it -- of any ordering value, comparable or not -- has no bearing
    on a key written again after it. *)
Theorem default_delete_resets before d r after :
  is_default_ordering (del_ordering_value d) = true ->
  replay (M := EventTimeRecordMerger) (before ++ DelOp d :: PutOp r :: after) None
  = replay (M := EventTimeRecordMerger) (PutOp r :: after) None.
Proof.
  intros Hd. rewrite replay_app. destruct (event_time_total before None) as [slot ->].
  cbn [res_bind]. unfold replay. cbn [res_fold].
  destruct (default_delete_slot d slot Hd) as (t & -> & Ht). cbn [res_bind].
  cbn [apply_op delta_merge EventTimeRecordMerger event_time_delta_merge].
  unfold should_keep_newer_record. by rewrite Ht, orb_true_r.
Qed.

(** The vectorized merge picks winners as the row-wise merger does: in both
    ordering modes [pick_winner] returns the record that [final_merge] keeps, and
    says it is a delete exactly when it is; ties, deletes with the default
    ordering and values of different classes included. *)
Theorem pick_winner_agrees_with_final_merge custom mode M base log :
  create_with custom mode = Ok M -> pick_winner_decides mode = true ->
  is_delete base = false -> value_supported base -> value_supported log ->
  final_merge (BufferedRecordMerger := M) base log
  = Ok (match pick_winner mode log (ordering_value base) with WinnerBase => base | _ => log end) /\
  match pick_winner mode log (ordering_value base) with
  | WinnerBase => True
  | WinnerLogData => is_delete log = false
  | WinnerLogDelete => is_delete log = true
  end.
Proof. apply pick_winner_final_merge. Qed.
End properties.

(** * Instances *)

(** Batches of one's own: a row of a batch is a batch. *)
#[local] Instance raw_rows_batch : ArrowBatch := {| RecordBatch := list Z; num_rows b := Z.of_nat (length b) |}.
#[local] Instance raw_rows : ArrowRows (AB := raw_rows_batch) := fun b i => take 1 (drop i b).

Section samples.
Let put (v : OrderingValue) (row : Z) : LogOp (AB := raw_rows_batch) :=
  PutOp (mkBuffered "k" (Owned ([row] : RecordBatch (ArrowBatch := raw_rows_batch))) (Some v)).
Let del (v : OrderingValue) : LogOp (AB := raw_rows_batch) := DelOp (mkDelete "k" (Some v)).

(** Two puts and a delete of lower ordering, then a put of equal ordering. *)
Definition sample_ops : list (LogOp (AB := raw_rows_batch)) :=
  [put (OLong 5) 1; del (OLong 3); put (OLong 5) 2; put (OLong 4) 3].

Definition distinct_ops : list (LogOp (AB := raw_rows_batch)) :=
  [put (OLong 5) 1; del (OLong 7); put (OLong 6) 2].
End samples.

Ltac in_cases H :=
  repeat (apply elem_of_cons in H as [->|H]); [..|by apply not_elem_of_nil in H].

Lemma sample_comparable : comparable_ops sample_ops.
Proof.
  split.
  - intros o Ho. in_cases Ho; eexists; (split_and!; [reflexivity|exact I|done]).
  - intros o o' v v' Ho Ho' Hv Hv'. in_cases Ho; in_cases Ho';
      injection Hv as <-; injection Hv' as <-; reflexivity.
Qed.

Lemma distinct_comparable : comparable_ops distinct_ops.
Proof.
  split.
  - intros o Ho. in_cases Ho; eexists; (split_and!; [reflexivity|exact I|done]).
  - intros o o' v v' Ho Ho' Hv Hv'. in_cases Ho; in_cases Ho';
      injection Hv as <-; injection Hv' as <-; reflexivity.
Qed.

(** The later of the two puts of ordering 5 is left. *)
Example sample_replay :
  replay (M := EventTimeRecordMerger) sample_ops None
  = Ok (Some (mkBuffered "k" (Owned ([2] : RecordBatch (ArrowBatch := raw_rows_batch))) (Some (OLong 5)))).
Proof. reflexivity. Qed.

Lemma event_time_keeps_last_maximum_witness :
  comparable_ops sample_ops /\
  exists m, last_maximum sample_ops m /\
    replay (M := EventTimeRecordMerger) sample_ops None = Ok (Some (op_record m)).
Proof.
  split; [exact sample_comparable|].
  apply (event_time_keeps_last_maximum sample_ops sample_comparable). discriminate.
Defined.

Lemma event_time_order_independent_witness :
  replay (M := EventTimeRecordMerger) distinct_ops None
  = replay (M := EventTimeRecordMerger) (reverse distinct_ops) None.
Proof.
  apply (event_time_order_independent distinct_ops (reverse distinct_ops) distinct_comparable).
  - symmetry. apply reverse_Permutation.
  - intros o o' Ho Ho' (v & v' & Hv & Hv' & H1) (w & w' & Hw & Hw' & H2).
    in_cases Ho; in_cases Ho'; try reflexivity;
      injection Hv as <-; injection Hv' as <-; injection Hw as <-; injection Hw' as <-; discriminate.
Defined.

Lemma default_delete_resets_witness :
  is_default_ordering None = true /\
  replay (M := EventTimeRecordMerger)
    (sample_ops ++ [DelOp (mkDelete "k" None);
       PutOp (mkBuffered "k" (Owned ([9] : RecordBatch (ArrowBatch := raw_rows_batch))) (Some (OLong 1)))]) None
  = Ok (Some (mkBuffered "k" (Owned ([9] : RecordBatch (ArrowBatch := raw_rows_batch))) (Some (OLong 1)))).
Proof.
  split; [reflexivity|].
  refine (eq_trans (default_delete_resets sample_ops (mkDelete "k" None)
    (mkBuffered "k" (Owned ([9] : RecordBatch (ArrowBatch := raw_rows_batch))) (Some (OLong 1))) [] _) _);
    reflexivity.
Defined.

Lemma pick_winner_agrees_with_final_merge_witness :
  final_merge (BufferedRecordMerger := EventTimeRecordMerger (AB := raw_rows_batch))
    (mkBuffered "k" (Owned ([1] : RecordBatch (ArrowBatch := raw_rows_batch))) (Some (OLong 5)))
    (mkBuffered "k" Deleted (Some (OLong 4)))
  = Ok (mkBuffered "k" (Owned ([1] : RecordBatch (ArrowBatch := raw_rows_batch))) (Some (OLong 5))).
Proof.
  refine (eq_trans (proj1 (pick_winner_agrees_with_final_merge None "EVENT_TIME_ORDERING" _ _ _ _ _ _ _ _)) _).
  - reflexivity.
  - reflexivity.
  - reflexivity.
  - intros v [=<-]. exact I.
  - intros v [=<-]. exact I.
  - vm_eq.
Defined.
