(* ===== verification/ArrowKernels.v ===== *)
(** The Arrow kernels the merge calls, and
    [records_to_batch] of
    crates/core/src/file_group/reader_v2/buffer/row_extraction.rs.

    Arrow is not under src/: a batch, its schema and the kernels on it are the
    operations of [ArrowKernels], what they do to a batch's rows the laws of
    [ArrowLaws]. The functions of the crate that work on the columns of a batch
    are the parameters of [ColumnOps]. *)
From Stdlib Require Import ZArith.
From stdpp Require Import base gmap sets list strings sorting numbers.
From S2P Require Import Prelude RustStr StorageReader RecordBatches OrderingValues RecordMerger.
Local Open Scope res_scope.
Local Open Scope Z_scope.

Class ArrowKernels {AB : ArrowBatch} {AR : ArrowRows} := {
  Schema : Type;
  schema_eq_dec :: EqDecision Schema;
  field_names : Schema -> list string;
  schema : RecordBatch -> Schema;
  new_empty : Schema -> RecordBatch;
  filter_record_batch : RecordBatch -> list bool -> res RecordBatch;
  concat_batches : Schema -> list RecordBatch -> res RecordBatch;
  interleave_record_batch : list RecordBatch -> list (nat * nat) -> res RecordBatch
}.

(** The rows a mask keeps. *)
Fixpoint mask_rows {A} (mask : list bool) (l : list A) : list A :=
  match mask, l with
  | b :: mask, a :: l => if b then a :: mask_rows mask l else mask_rows mask l
  | _, _ => []
  end.

(** What the kernels do to the rows of batches: Arrow's documentation. *)
Class ArrowLaws {AB : ArrowBatch} {AR : ArrowRows} {AK : ArrowKernels} := {
  Row : Type;
  batch_rows : RecordBatch -> list Row;
  num_rows_length b : num_rows b = Z.of_nat (length (batch_rows b));
  slice_row_rows b i r : batch_rows b !! i = Some r -> batch_rows (slice_row b i) = [r];
  slice_row_schema b i : schema (slice_row b i) = schema b;
  new_empty_schema s : schema (new_empty s) = s;
  new_empty_rows s : batch_rows (new_empty s) = [];
  filter_rows b mask : length mask = length (batch_rows b) ->
    exists b', filter_record_batch b mask = Ok b' /\ schema b' = schema b /\
      batch_rows b' = mask_rows mask (batch_rows b);
  concat_rows s l : (forall b, b ∈ l -> schema b = s) ->
    exists b', concat_batches s l = Ok b' /\ schema b' = s /\
      batch_rows b' = concat (batch_rows <$> l);
  interleave_rows s srcs idx rs : srcs <> [] -> (forall b, b ∈ srcs -> schema b = s) ->
    Forall2 (fun ij r => exists b, srcs !! ij.1 = Some b /\ batch_rows b !! ij.2 = Some r) idx rs ->
    exists b', interleave_record_batch srcs idx = Ok b' /\ schema b' = s /\ batch_rows b' = rs
}.

(** Functions of the crate on the columns of batches and records. *)
Class ColumnOps {AB : ArrowBatch} {AR : ArrowRows} {AK : ArrowKernels} := {
  reconcile_batch_to_schema : RecordBatch -> Schema -> res RecordBatch;
  union_schema : Schema -> Schema -> Schema;
  overlay_partial_over_prior : RecordBatch -> RecordBatch -> Schema -> res RecordBatch;
  pad_partial_to_target : RecordBatch -> Schema -> res RecordBatch;
  fill_unavailable_from_base : BufferedRecord -> RecordBatch -> nat -> string -> res (BufferedRecord * bool);
  reconcile_defaults_from_prior : BufferedRecord -> RecordBatch -> nat -> res (BufferedRecord * bool);
  guard_no_unavailable_sentinel : RecordBatch -> string -> res unit
}.

Section records_to_batch.
Context {AB : ArrowBatch} {AR : ArrowRows} {AK : ArrowKernels} {CO : ColumnOps}.

Definition reconcile_to_schema (batch : RecordBatch) (s : Schema) : res RecordBatch :=
  if decide (schema batch = s) then Ok batch else reconcile_batch_to_schema batch s.

(** The distinct batches of the records, the slot each pointer has among them,
    and where each record's row is. *)
Record Gather := mkGather {
  sources : list RecordBatch;
  slot_of_ptr : gmap nat nat;
  indices : list (nat * nat)
}.

Definition gather_record (s : Schema) (g : Gather) (record : BufferedRecord) : res Gather :=
  match payload record with
  | Deleted => Ok g
  | BatchRef batch row_idx =>
      match slot_of_ptr g !! as_ptr batch with
      | Some slot => Ok (mkGather (sources g) (slot_of_ptr g) (indices g ++ [(slot, row_idx)]))
      | None =>
          let? reconciled := reconcile_to_schema (pointee batch) s in
          let slot := length (sources g) in
          Ok (mkGather (sources g ++ [reconciled]) (<[as_ptr batch := slot]> (slot_of_ptr g))
                (indices g ++ [(slot, row_idx)]))
      end
  | Owned batch =>
      let? reconciled := reconcile_to_schema batch s in
      let slot := length (sources g) in
      Ok (mkGather (sources g ++ [reconciled]) (slot_of_ptr g) (indices g ++ [(slot, 0%nat)]))
  end.

Definition records_to_batch (records : list BufferedRecord) (s : Schema) : res RecordBatch :=
  let? g := res_fold (gather_record s) records (mkGather [] ∅ []) in
  match indices g with
  | [] => Ok (new_empty s)
  | _ => interleave_record_batch (sources g) (indices g)
  end.
End records_to_batch.

(** * The rows of records *)
Section rows.
Context {AB : ArrowBatch} {AR : ArrowRows} {AK : ArrowKernels} {AL : ArrowLaws} {CO : ColumnOps}.

(** The row of a record; a delete has none. *)
Definition record_rows (r : BufferedRecord) : list Row :=
  match payload r with
  | BatchRef batch row_idx => match batch_rows (pointee batch) !! row_idx with Some r => [r] | None => [] end
  | Owned batch => match batch_rows batch !! 0%nat with Some r => [r] | None => [] end
  | Deleted => []
  end.

(** A record of schema [s] whose shared batch is the one [heap] holds at its
    address: all records that share an address share the batch. *)
Definition record_wf (heap : list RecordBatch) (s : Schema) (r : BufferedRecord) : Prop :=
  match payload r with
  | BatchRef batch row_idx =>
      heap !! as_ptr batch = Some (pointee batch) /\ schema (pointee batch) = s /\
      (row_idx < length (batch_rows (pointee batch)))%nat
  | Owned batch => schema batch = s /\ length (batch_rows batch) = 1%nat
  | Deleted => True
  end.

Definition records_rows (rs : list BufferedRecord) : list Row := concat (record_rows <$> rs).

Lemma records_rows_app rs rs' : records_rows (rs ++ rs') = records_rows rs ++ records_rows rs'.
Proof. unfold records_rows. by rewrite fmap_app, concat_app. Qed.

Lemma records_rows_one r : records_rows [r] = record_rows r.
Proof. unfold records_rows. cbn. apply app_nil_r. Qed.

Lemma record_rows_data heap s r : record_wf heap s r -> is_delete r = false ->
  exists row, record_rows r = [row].
Proof.
  unfold record_wf, record_rows, is_delete. destruct (payload r) as [a i|b|]; [| |done].
  - intros (_ & _ & Hi) _. apply lookup_lt_is_Some in Hi as [row ->]. by exists row.
  - intros [_ Hl] _. destruct (batch_rows b) as [|row [|]]; try done. by exists row.
Qed.

Lemma record_rows_delete r : is_delete r = true -> record_rows r = [].
Proof. unfold record_rows, is_delete. by destruct (payload r). Qed.

Lemma record_wf_app heap ext s r : record_wf heap s r -> record_wf (heap ++ ext) s r.
Proof.
  unfold record_wf. destruct (payload r) as [a i|b|]; [|done|done].
  intros (Hh & Hs & Hi). split_and!; [|done..]. by apply lookup_app_l_Some.
Qed.

Lemma mask_rows_length {A} mask (l : list A) :
  length mask = length l -> (length (mask_rows mask l) <= length l)%nat.
Proof.
  revert l. induction mask as [|b mask IH]; intros [|a l] Hl; cbn in *; try lia.
  specialize (IH l ltac:(lia)). destruct b; cbn; lia.
Qed.

(** What [gather_record] keeps: the rows found at the indices are those of the
    records, and a pointer's slot holds the batch it points to. *)
Record gathered_wf (heap : list RecordBatch) (s : Schema) (g : Gather) (rs : list Row) : Prop := {
  gathered_schema : forall b, b ∈ sources g -> schema b = s;
  gathered_slots : forall p slot, slot_of_ptr g !! p = Some slot ->
    exists b, heap !! p = Some b /\ sources g !! slot = Some b;
  gathered_rows : Forall2 (fun ij r => exists b,
    sources g !! ij.1 = Some b /\ batch_rows b !! ij.2 = Some r) (indices g) rs
}.

Lemma reconcile_same b s : schema b = s -> reconcile_to_schema b s = Ok b.
Proof. intros Hs. unfold reconcile_to_schema. by rewrite decide_True. Qed.

Lemma gathered_extend heap s g rs b m i row :
  gathered_wf heap s g rs -> schema b = s -> batch_rows b !! i = Some row ->
  (forall p slot, m !! p = Some slot ->
     slot_of_ptr g !! p = Some slot \/ (heap !! p = Some b /\ slot = length (sources g))) ->
  gathered_wf heap s (mkGather (sources g ++ [b]) m (indices g ++ [(length (sources g), i)])) (rs ++ [row]).
Proof.
  intros [Hs Hp Hr] Hb Hi Hm. split; cbn [sources slot_of_ptr indices].
  - intros x [Hx| ->%list_elem_of_singleton]%elem_of_app; [by apply Hs|done].
  - intros p slot [Hg|[Hg ->]]%Hm.
    + destruct (Hp p slot Hg) as (c & ? & Hc). exists c. split; [done|]. by apply lookup_app_l_Some.
    + exists b. split; [done|]. rewrite lookup_app_r, Nat.sub_diag; done.
  - apply Forall2_app; [|constructor; [|constructor]; exists b].
    + eapply Forall2_impl; [|exact Hr]. intros [x j] r (c & Hc & ?). exists c. split; [|done].
      cbn in *. by apply lookup_app_l_Some.
    + cbn. rewrite lookup_app_r, Nat.sub_diag; done.
Qed.

Lemma gather_record_wf heap s g rs r :
  gathered_wf heap s g rs -> record_wf heap s r ->
  exists g', gather_record s g r = Ok g' /\ gathered_wf heap s g' (rs ++ record_rows r).
Proof.
  intros Hg Hr. unfold gather_record, record_wf, record_rows in *.
  destruct (payload r) as [a i|b|].
  - destruct Hr as (Hh & Hs & [row Hi]%lookup_lt_is_Some). rewrite Hi.
    destruct (slot_of_ptr g !! as_ptr a) as [slot|] eqn:Ep.
    + eexists. split; [done|]. destruct Hg as [Gs Gp Gr]. split; cbn; [done|done|].
      apply Forall2_app; [done|]. constructor; [|constructor].
      destruct (Gp _ _ Ep) as (b & Hb & Hsl). exists b. split; [done|]. cbn. congruence.
    + rewrite reconcile_same by done. cbn [res_bind]. eexists. split; [done|].
      apply gathered_extend; [done|done|done|].
      intros p slot [[<- <-]|[? ?]]%lookup_insert_Some; [by right|by left].
  - destruct Hr as [Hs Hl]. rewrite reconcile_same by done. cbn [res_bind].
    eexists. split; [done|]. destruct (batch_rows b !! 0%nat) as [row|] eqn:E.
    + apply gathered_extend; [done|done|done|]. intros; by left.
    + apply lookup_ge_None in E. lia.
  - exists g. rewrite app_nil_r. done.
Qed.

Lemma gather_records_wf heap s records : forall g rs,
  gathered_wf heap s g rs -> (forall r, r ∈ records -> record_wf heap s r) ->
  exists g', res_fold (gather_record s) records g = Ok g' /\
    gathered_wf heap s g' (rs ++ records_rows records).
Proof.
  induction records as [|r records IH]; intros g rs Hg Hr.
  { exists g. split; [done|]. unfold records_rows. cbn. by rewrite app_nil_r. }
  destruct (gather_record_wf heap s g rs r Hg) as (g1 & E1 & H1); [apply Hr; by left|].
  cbn [res_fold]. rewrite E1. cbn [res_bind].
  destruct (IH g1 _ H1) as (g2 & E2 & H2); [intros x Hx; apply Hr; by right|].
  exists g2. split; [done|]. unfold records_rows. rewrite fmap_cons. cbn [concat].
  by rewrite app_assoc.
Qed.

Lemma records_to_batch_rows heap s records :
  (forall r, r ∈ records -> record_wf heap s r) ->
  exists b, records_to_batch records s = Ok b /\ schema b = s /\ batch_rows b = records_rows records.
Proof.
  intros Hr. unfold records_to_batch.
  destruct (gather_records_wf heap s records (mkGather [] ∅ []) []) as (g & -> & [Gs Gp Gr]); [|done|].
  { split; cbn; [|done|constructor]. intros b Hb. by apply not_elem_of_nil in Hb. }
  cbn [res_bind app] in *. destruct (indices g) as [|ij idx] eqn:Ei.
  - inversion Gr as [H|]. exists (new_empty s). split_and!; [done|apply new_empty_schema|].
    by rewrite new_empty_rows.
  - rewrite <- Ei in *. apply interleave_rows; [|done|done].
    rewrite Ei in Gr. inversion Gr as [|? ? ? ? (b & Hb & _)]. by intros E; rewrite E in Hb.
Qed.
End rows.

(** * Properties *)
Section properties.
Context {AB : ArrowBatch} {AR : ArrowRows} {AK : ArrowKernels} {AL : ArrowLaws} {CO : ColumnOps}.

(** Reassembling records gathers exactly their rows, in order, whether they
    own their row or share a batch -- provided records with the same pointer
    share the batch, which is why grouping by address is sound. *)
Theorem records_to_batch_gathers_rows heap s records :
  (forall r, r ∈ records -> record_wf heap s r) ->
  exists b, records_to_batch records s = Ok b /\ schema b = s /\ batch_rows b = records_rows records.
Proof. apply records_to_batch_rows. Qed.
End properties.

(** * Instances *)

(** Batches of rows with a key, an ordering value and a value; their schema is
    the names of the fields. *)
Module Sample.
Definition row : Type := string * option OrderingValue * Z.

Record batch := mk { fields : list string; data : list row }.

#[export] Instance sample_batch : ArrowBatch :=
  {| RecordBatch := batch; num_rows b := Z.of_nat (length (data b)) |}.

#[export] Instance sample_rows : ArrowRows :=
  fun b i => mk (fields b) (take 1 (drop i (data b))).

Definition interleave (srcs : list batch) (idx : list (nat * nat)) : res batch :=
  match mapM (fun ij => b ← srcs !! fst ij; data b !! snd ij) idx, srcs with
  | Some rows, b :: _ => Ok (mk (fields b) rows)
  | _, _ => Err EReadFileSlice
  end.

#[export] Instance sample_kernels : ArrowKernels := {|
  Schema := list string;
  schema_eq_dec := _;
  field_names s := s;
  schema := fields : RecordBatch -> list string;
  new_empty s := mk s [] : RecordBatch;
  filter_record_batch b mask := Ok (mk (fields b) (mask_rows mask (data b)) : RecordBatch);
  concat_batches s l := Ok (mk s (concat (data <$> (l : list batch))) : RecordBatch);
  interleave_record_batch := interleave
|}.

#[export] Instance sample_columns : ColumnOps := {|
  reconcile_batch_to_schema b s := Err EReadFileSlice;
  union_schema s s' := s;
  overlay_partial_over_prior b p s := Ok b;
  pad_partial_to_target b s := Ok b;
  fill_unavailable_from_base r b i v := Ok (r, false);
  reconcile_defaults_from_prior r b i := Ok (r, false);
  guard_no_unavailable_sentinel b v := Ok tt
|}.

Lemma interleave_ok s (srcs : list batch) (idx : list (nat * nat)) (rs : list row) :
  srcs <> [] -> (forall b, b ∈ srcs -> fields b = s) ->
  Forall2 (fun ij r => exists b, srcs !! ij.1 = Some b /\ data b !! ij.2 = Some r) idx rs ->
  exists b', interleave srcs idx = Ok b' /\ fields b' = s /\ data b' = rs.
Proof.
  intros Hn Hs Hr. unfold interleave.
  assert (mapM (fun ij => b ← srcs !! fst ij; data b !! snd ij) idx = Some rs) as ->.
  { apply mapM_Some. eapply Forall2_impl; [|exact Hr]. by intros ij r (b & -> & ?). }
  destruct srcs as [|b srcs]; [done|]. exists (mk (fields b) rs). split_and!; [done| |done].
  cbn. apply Hs. by left.
Qed.

#[export] Instance sample_laws : ArrowLaws.
Proof.
  refine {| Row := row; batch_rows := data : RecordBatch -> list row |}.
  - done.
  - intros b i r Hr. cbn. rewrite (drop_S _ r) by done. done.
  - done.
  - done.
  - done.
  - intros b mask _. by eexists.
  - intros s l _. by eexists.
  - apply interleave_ok.
Defined.
End Sample.

Import Sample.

(** Two records that share a batch and one that owns its row. *)
Definition sample_shared : batch :=
  mk ["k"; "ts"; "v"] [("a", Some (OLong 1), 10); ("b", Some (OLong 2), 20)].

Definition sample_heap : list RecordBatch := [sample_shared].

Definition sample_records : list BufferedRecord :=
  [new_batch_ref "b" (mkArc 0 (sample_shared : RecordBatch)) 1 (Some (OLong 2));
   new_delete "d" None;
   new_data "c" (mk ["k"; "ts"; "v"] [("c", None, 30)] : RecordBatch) None;
   new_batch_ref "a" (mkArc 0 (sample_shared : RecordBatch)) 0 (Some (OLong 1))].

Lemma records_to_batch_gathers_rows_witness :
  exists b, records_to_batch sample_records ["k"; "ts"; "v"] = Ok b /\
    batch_rows b = [("b", Some (OLong 2), 20); ("c", None, 30); ("a", Some (OLong 1), 10)].
Proof.
  destruct (records_to_batch_gathers_rows (AL := sample_laws) (CO := sample_columns) sample_heap ["k"; "ts"; "v"] sample_records)
    as (b & E & _ & R).
  - intros r Hr. in_cases Hr; cbn; (split_and!; [reflexivity..|cbn; lia]) || (split; reflexivity) || exact I.
  - exists b. split; [exact E|]. rewrite R. reflexivity.
Defined.
