(* ===== verification/RecordBuffer.v ===== *)
(** The key-based record buffer:
    crates/core/src/file_group/reader_v2/buffer/{key_based,record_buffer}.rs,
    the conversion of a batch to records of record_context.rs, and the in-memory
    tier of buffer/spillable_map.rs.

    The map of records is the in-memory tier of [SpillableRecordMap] (no disk
    tier: the budget is not exceeded); the order its values are drained in is a
    parameter ([MapOrder]). What a [RecordContext] reads from the columns of a
    batch -- keys, ordering values, delete markers, positions -- is a parameter. *)
From Stdlib Require Import ZArith.
From stdpp Require Import base gmap sets list strings sorting numbers pretty.
From S2P Require Import Prelude RustStr StorageReader RecordBatches LogFormat OrderingValues RecordMerger ArrowKernels.
Local Open Scope res_scope.
Local Open Scope Z_scope.

Class RecordContext {AB : ArrowBatch} := {
  get_record_keys : RecordBatch -> res (list string);
  get_ordering_values : RecordBatch -> res (option (list (option OrderingValue)));
  ordering_accessor : RecordBatch -> res (nat -> option OrderingValue);
  is_delete_record : RecordBatch -> nat -> bool;
  delete_batch_to_keys_with_ordering : RecordBatch -> res (list (string * option OrderingValue));
  base_row_position_array : RecordBatch -> res (list Z)
}.

(** The order of [HashMap::into_values]. *)
Class MapOrder {AB : ArrowBatch} := into_values : gmap string BufferedRecord -> list BufferedRecord.

Inductive BaseMatch := RecordKey | Position.

Section buffer.
Context {AB : ArrowBatch} {AR : ArrowRows} {AK : ArrowKernels} {CO : ColumnOps} {RC : RecordContext}
  {MO : MapOrder}.

(** A [RecordBatchReader]: its schema and the batches still to come. *)
Record BatchSource := mkSource { source_schema : Schema; source_batches : list (res RecordBatch) }.

(** [next_addr] is the address of the next [Arc] allocated. *)
Record Buffer := mkBuffer {
  records : gmap string BufferedRecord;
  reader_schema : option Schema;
  record_merge_mode : string;
  buffered_record_merger : BufferedRecordMerger;
  update_processor : UpdateStats;
  base_file_source : option BatchSource;
  current_base_batch : option Arc;
  base_row_idx : nat;
  total_log_records : Z;
  next_record : option BufferedRecord;
  log_record_iter : option (list BufferedRecord);
  log_drain_iter : option (list BufferedRecord);
  merge_map_peak_entries : Z;
  unavailable_value : option string;
  ignore_defaults : bool;
  next_addr : nat
}.

Definition set_records (m : gmap string BufferedRecord) (b : Buffer) : Buffer :=
  mkBuffer m (reader_schema b) (record_merge_mode b) (buffered_record_merger b) (update_processor b)
    (base_file_source b) (current_base_batch b) (base_row_idx b) (total_log_records b) (next_record b)
    (log_record_iter b) (log_drain_iter b) (merge_map_peak_entries b) (unavailable_value b)
    (ignore_defaults b) (next_addr b).

Definition set_stats (u : UpdateStats) (b : Buffer) : Buffer :=
  mkBuffer (records b) (reader_schema b) (record_merge_mode b) (buffered_record_merger b) u
    (base_file_source b) (current_base_batch b) (base_row_idx b) (total_log_records b) (next_record b)
    (log_record_iter b) (log_drain_iter b) (merge_map_peak_entries b) (unavailable_value b)
    (ignore_defaults b) (next_addr b).

Definition set_base (src : option BatchSource) (cur : option Arc) (idx addr : nat) (b : Buffer) : Buffer :=
  mkBuffer (records b) (reader_schema b) (record_merge_mode b) (buffered_record_merger b)
    (update_processor b) src cur idx (total_log_records b) (next_record b)
    (log_record_iter b) (log_drain_iter b) (merge_map_peak_entries b) (unavailable_value b)
    (ignore_defaults b) addr.

Definition set_next (r : option BufferedRecord) (b : Buffer) : Buffer :=
  mkBuffer (records b) (reader_schema b) (record_merge_mode b) (buffered_record_merger b)
    (update_processor b) (base_file_source b) (current_base_batch b) (base_row_idx b)
    (total_log_records b) r (log_record_iter b) (log_drain_iter b) (merge_map_peak_entries b)
    (unavailable_value b) (ignore_defaults b) (next_addr b).

Definition set_log_iter (l : option (list BufferedRecord)) (b : Buffer) : Buffer :=
  mkBuffer (records b) (reader_schema b) (record_merge_mode b) (buffered_record_merger b)
    (update_processor b) (base_file_source b) (current_base_batch b) (base_row_idx b)
    (total_log_records b) (next_record b) l (log_drain_iter b) (merge_map_peak_entries b)
    (unavailable_value b) (ignore_defaults b) (next_addr b).

Definition set_drain (l : option (list BufferedRecord)) (b : Buffer) : Buffer :=
  mkBuffer (records b) (reader_schema b) (record_merge_mode b) (buffered_record_merger b)
    (update_processor b) (base_file_source b) (current_base_batch b) (base_row_idx b)
    (total_log_records b) (next_record b) (log_record_iter b) l (merge_map_peak_entries b)
    (unavailable_value b) (ignore_defaults b) (next_addr b).

Definition set_counts (total peak : Z) (b : Buffer) : Buffer :=
  mkBuffer (records b) (reader_schema b) (record_merge_mode b) (buffered_record_merger b)
    (update_processor b) (base_file_source b) (current_base_batch b) (base_row_idx b)
    total (next_record b) (log_record_iter b) (log_drain_iter b) peak
    (unavailable_value b) (ignore_defaults b) (next_addr b).

(** [set_base_file_source] *)
Definition set_base_file_source (src : BatchSource) (b : Buffer) : Buffer :=
  set_base (Some src) None 0 (next_addr b) b.

(** [Arc::new] *)
Definition arc_new (batch : RecordBatch) (b : Buffer) : Arc * Buffer :=
  (mkArc (next_addr b) batch,
   set_base (base_file_source b) (current_base_batch b) (base_row_idx b) (S (next_addr b)) b).

(** * Log records into the map *)

(** [SpillableRecordMap::merge_in_place] without a disk tier. *)
Definition merge_in_place (m : gmap string BufferedRecord) (key : string)
    (f : option BufferedRecord -> res (option BufferedRecord)) : res (gmap string BufferedRecord) :=
  let? new := f (m !! key) in
  Ok (match new with Some new => <[key := new]> m | None => m end).

Definition schema_is_partial (record_schema target_schema : Schema) : bool :=
  existsb (fun f => negb (bool_decide (f ∈ field_names record_schema))) (field_names target_schema).

Definition fill_partial (b : Buffer) (target : BufferedRecord) (source : RecordBatch) (source_idx : nat)
    : res (BufferedRecord * bool) :=
  if ignore_defaults b then reconcile_defaults_from_prior target source source_idx
  else match unavailable_value b with
       | Some sentinel => fill_unavailable_from_base target source source_idx sentinel
       | None => Ok (target, false)
       end.

(** A narrow record folded with the one buffered under its key. *)
Definition fold_partial (b : Buffer) (record : BufferedRecord) (existing : option BufferedRecord)
    : res (option BufferedRecord) :=
  let merger := buffered_record_merger b in
  match existing with
  | Some prior =>
      match get_record prior, get_record record with
      | Some prior_batch, Some ib =>
          let union := union_schema (schema ib) (schema prior_batch) in
          let new_wins := bool_decide (record_merge_mode b = "COMMIT_TIME_ORDERING")
                          || should_keep_newer_record prior record in
          let '(winner, loser, ordering) :=
            if new_wins then (ib, prior_batch, ordering_value record)
            else (prior_batch, ib, ordering_value prior) in
          let? merged := overlay_partial_over_prior winner loser union in
          Ok (Some (new_data (record_key record) merged ordering))
      | _, _ => delta_merge record existing
      end
  | None => delta_merge record existing
  end.

(** A full record blended with the one buffered under its key, in a table with
    partial updates. *)
Definition blend_full (b : Buffer) (record : BufferedRecord) (existing : option BufferedRecord)
    : res BufferedRecord :=
  match existing with
  | None => Ok record
  | Some prior =>
      let new_wins := bool_decide (record_merge_mode b = "COMMIT_TIME_ORDERING")
                      || should_keep_newer_record prior record in
      if new_wins then
        match get_record prior with
        | Some prior_batch => res_map fst (fill_partial b record prior_batch 0)
        | None => Ok record
        end
      else
        match get_record record with
        | Some incoming_batch => res_map fst (fill_partial b prior incoming_batch 0)
        | None => Ok prior
        end
  end.

Definition is_Some_b {A} (o : option A) : bool := match o with Some _ => true | None => false end.

Definition process_next_data_record (record : BufferedRecord) (key : string) (b : Buffer) : res Buffer :=
  let total := fetch_add_1 (total_log_records b) in
  let inc_is_partial :=
    match get_record record, reader_schema b with
    | Some ib, Some target => schema_is_partial (schema ib) target
    | _, _ => false
    end in
  let? m :=
    if inc_is_partial then merge_in_place (records b) key (fold_partial b record)
    else if ignore_defaults b || is_Some_b (unavailable_value b) then
      let? stored := blend_full b record (records b !! key) in
      Ok (<[key := stored]> (records b))
    else merge_in_place (records b) key
           (delta_merge (BufferedRecordMerger := buffered_record_merger b) record) in
  let len := Z.of_nat (size m) in
  Ok (set_counts total (Z.max len (merge_map_peak_entries b)) (set_records m b)).

Definition process_next_deleted_record (delete_record : DeleteRecord) (key : string) (b : Buffer)
    : res Buffer :=
  let total := fetch_add_1 (total_log_records b) in
  let? m := merge_in_place (records b) key (fun existing =>
      let? surviving := delta_merge_delete (BufferedRecordMerger := buffered_record_merger b)
                          delete_record existing in
      Ok (from_delete_record <$> surviving)) in
  Ok (set_counts total (merge_map_peak_entries b) (set_records m b)).

(** [RecordContext::batch_to_buffered_records] *)
Definition batch_to_buffered_records (batch : Arc) : res (list (string * BufferedRecord)) :=
  if num_rows (pointee batch) =? 0 then Ok []
  else
    let? keys := get_record_keys (pointee batch) in
    let? ordering_values := get_ordering_values (pointee batch) in
    Ok (imap (fun row_idx key =>
      let ordering_value := o ← ordering_values; v ← o !! row_idx; v in
      (key, if is_delete_record (pointee batch) row_idx then new_delete key ordering_value
            else new_batch_ref key batch row_idx ordering_value)) keys).

(** [process_data_block]: the block's content is taken, whatever it is. *)
Definition process_data_batch (b : Buffer) (batch : RecordBatch) : res Buffer :=
  let '(arc, b) := arc_new batch b in
  let? recs := batch_to_buffered_records arc in
  res_fold (fun b '(key, record) => process_next_data_record record key b) recs b.

Definition process_data_block (b : Buffer) (content : LogBlockContent) : res (Buffer * LogBlockContent) :=
  match content with
  | Records record_batches =>
      let? b := res_fold process_data_batch (data_batches record_batches) b in Ok (b, Empty)
  | _ => Ok (b, Empty)
  end.

Definition process_delete_batch (b : Buffer) (batch : RecordBatch * string) : res Buffer :=
  let? delete_entries := delete_batch_to_keys_with_ordering batch.1 in
  res_fold (fun b '(key, ordering_value) =>
      process_next_deleted_record (mkDelete key ordering_value) key b) delete_entries b.

Definition process_delete_block (b : Buffer) (content : LogBlockContent) : res (Buffer * LogBlockContent) :=
  match content with
  | Records record_batches =>
      let? b := res_fold process_delete_batch (delete_batches record_batches) b in Ok (b, Empty)
  | _ => Ok (b, Empty)
  end.
End buffer.

(** Records of all the target's columns are not partial. *)
Section full.
Context {AB : ArrowBatch} {AR : ArrowRows} {AK : ArrowKernels} {AL : ArrowLaws}.

Lemma schema_is_partial_same s : schema_is_partial s s = false.
Proof.
  unfold schema_is_partial. destruct (existsb _ _) eqn:E; [|done].
  apply existsb_exists in E as (f & Hf & Hn). apply negb_true_iff, bool_decide_eq_false in Hn.
  by destruct Hn; apply list_elem_of_In.
Qed.

Lemma record_wf_full heap s r batch : record_wf heap s r -> get_record r = Some batch ->
  schema_is_partial (schema batch) s = false.
Proof.
  unfold record_wf, get_record, payload_get_record. intros Hr Hg.
  destruct (payload r) as [a i|o|]; [| |done]; injection Hg as <-.
  - destruct Hr as (_ & <- & _). rewrite slice_row_schema. apply schema_is_partial_same.
  - destruct Hr as [<- _]. apply schema_is_partial_same.
Qed.
End full.
