(* ===== verification/BaseMerge.v ===== *)
(** Base rows against the buffered log records, a batch at a time and a row at a
    time: [merge_one_base_batch_kernel], [drain_log_only_inserts],
    [has_next_base_record_at], [do_has_next_matched] and
    [merge_and_collect_with_stats] of
    crates/core/src/file_group/reader_v2/buffer/key_based.rs and
    [has_next_base_record], [has_next_log_record], [next_base_row] of
    buffer/record_buffer.rs. *)
From Stdlib Require Import ZArith.
From stdpp Require Import base gmap sets list strings sorting numbers pretty.
From S2P Require Import Prelude RustStr StorageReader RecordBatches OrderingValues RecordMerger ArrowKernels RecordBuffer.
Local Open Scope res_scope.
Local Open Scope Z_scope.

(** [DEFAULT_BATCH_SIZE] of merge_iterator.rs *)
Definition DEFAULT_BATCH_SIZE : nat := Z.to_nat 4096.

Section merge.
Context {AB : ArrowBatch} {AR : ArrowRows} {AK : ArrowKernels} {CO : ColumnOps} {RC : RecordContext}
  {MO : MapOrder}.

(** The keys the rows of a base batch are looked up by. *)
Definition lookup_keys (base_match : BaseMatch) (base : RecordBatch) : res (list string) :=
  match base_match with
  | RecordKey => get_record_keys base
  | Position => res_map (fmap pretty) (base_row_position_array base)
  end.

(** * The vectorized kernel *)
Record Kernel := mkKernel {
  k_records : gmap string BufferedRecord;
  k_stats : UpdateStats;
  keep : list bool;
  replacements : list BufferedRecord;
  any_dropped : bool
}.

(** The base row is kept as it is, or dropped for at most one record. *)
Definition keep_row (k : Kernel) : Kernel :=
  mkKernel (k_records k) (k_stats k) (keep k ++ [true]) (replacements k) (any_dropped k).

Definition drop_row (by_record : option BufferedRecord) (k : Kernel) : Kernel :=
  mkKernel (k_records k) (k_stats k) (keep k ++ [false])
    (replacements k ++ match by_record with Some r => [r] | None => [] end) true.

Definition count_row (previous : option BufferedRecord) (merged : BufferedRecord) (deleted : bool)
    (k : Kernel) : Kernel :=
  mkKernel (k_records k) (process_update (k_stats k) previous merged deleted).2
    (keep k) (replacements k) (any_dropped k).

(** A winning base row, filled from the losing log record. *)
Definition filled_base_row (b : Buffer) (base : RecordBatch) (idx : nat) (key : string)
    (base_ordering : option OrderingValue) (log_rec : BufferedRecord) : res (option BufferedRecord) :=
  match get_record log_rec with
  | Some loser =>
      if ignore_defaults b || is_Some_b (unavailable_value b) then
        let base_rec := new_data key (slice_row base idx) base_ordering in
        let? (rec, changed) := fill_partial b base_rec loser 0 in
        Ok (if changed : bool then Some rec else None)
      else Ok None
  | None => Ok None
  end.

(** A winning log record, over the base row. *)
Definition winning_log_record (b : Buffer) (base : RecordBatch) (idx : nat) (target_schema : Schema)
    (log_rec : BufferedRecord) : res BufferedRecord :=
  match get_record log_rec with
  | Some lb =>
      if schema_is_partial (schema lb) target_schema then
        let? merged := overlay_partial_over_prior lb (slice_row base idx) target_schema in
        Ok (new_data (record_key log_rec) merged (ordering_value log_rec))
      else res_map fst (fill_partial b log_rec base idx)
  | None => res_map fst (fill_partial b log_rec base idx)
  end.

Definition merge_conflict (b : Buffer) (base : RecordBatch) (target_schema : Schema) (idx : nat)
    (key : string) (base_ordering : option OrderingValue) (log_rec : BufferedRecord) (k : Kernel)
    : res Kernel :=
  if negb (pick_winner_decides (record_merge_mode b)) then
    let base_rec := new_data key (slice_row base idx) base_ordering in
    let? merged := final_merge (BufferedRecordMerger := buffered_record_merger b) base_rec log_rec in
    let k := count_row (Some base_rec) merged (is_delete merged) k in
    Ok (drop_row (if is_delete merged then None else Some merged) k)
  else
    let winner := pick_winner (record_merge_mode b) log_rec base_ordering in
    let k := count_row (Some log_rec) log_rec
               (match winner with WinnerLogDelete => true | _ => false end) k in
    match winner with
    | WinnerBase =>
        let? filled := filled_base_row b base idx key base_ordering log_rec in
        Ok (match filled with Some rec => drop_row (Some rec) k | None => keep_row k end)
    | WinnerLogDelete => Ok (drop_row None k)
    | WinnerLogData =>
        let? rec := winning_log_record b base idx target_schema log_rec in
        Ok (drop_row (Some rec) k)
    end.

Definition merge_row (b : Buffer) (base : RecordBatch) (target_schema : Schema)
    (orderings : nat -> option OrderingValue) (k : Kernel) (row : nat * string) : res Kernel :=
  let '(idx, key) := row in
  match k_records k !! key with
  | None => Ok (keep_row k)
  | Some log_rec =>
      let k := mkKernel (delete key (k_records k)) (k_stats k) (keep k) (replacements k) (any_dropped k) in
      merge_conflict b base target_schema idx key (orderings idx) log_rec k
  end.

(** The kept rows of the batch and the replacements, in one batch. *)
Definition kernel_output (base : RecordBatch) (target_schema : Schema) (k : Kernel)
    : res (option RecordBatch) :=
  match any_dropped k, replacements k with
  | false, [] => res_map Some (reconcile_to_schema base target_schema)
  | _, _ =>
      let? kept := map_err EReadFileSlice (filter_record_batch base (keep k)) in
      let? kept := reconcile_to_schema kept target_schema in
      match replacements k with
      | [] => Ok (Some kept)
      | _ =>
          let? repl_batch := records_to_batch (replacements k) target_schema in
          if num_rows repl_batch =? 0 then Ok (Some kept)
          else map_err EReadFileSlice (res_map Some (concat_batches target_schema [kept; repl_batch]))
      end
  end.

Definition merge_one_base_batch_kernel (b : Buffer) (base : RecordBatch) (target_schema : Schema)
    (base_match : BaseMatch) : res (Buffer * option RecordBatch) :=
  if num_rows base =? 0 then Ok (b, None)
  else
    let? keys := lookup_keys base_match base in
    let? orderings := ordering_accessor base in
    let k0 := mkKernel (records b) (update_processor b) [] [] false in
    let? k := res_fold (merge_row b base target_schema orderings)
                (zip (seq 0 (Z.to_nat (num_rows base))) keys) k0 in
    let? out := kernel_output base target_schema k in
    Ok (set_stats (k_stats k) (set_records (k_records k) b), out).

(** * Log records no base row matched *)

(** A record of the drain; one of few columns is padded with nulls. *)
Definition padded_record (target_schema : Schema) (r : BufferedRecord) : res BufferedRecord :=
  match get_record r with
  | Some lb =>
      if schema_is_partial (schema lb) target_schema then
        let? padded := pad_partial_to_target lb target_schema in
        Ok (new_data (record_key r) padded (ordering_value r))
      else Ok r
  | None => Ok r
  end.

(** The next [room] records of the drain that are not deletes, and what is left
    of it; nothing when it is over. *)
Fixpoint drain_chunk (target_schema : Schema) (room : nat) (l : list BufferedRecord)
    (stats : UpdateStats) {struct l}
    : res (list BufferedRecord * UpdateStats * option (list BufferedRecord)) :=
  match room with
  | O => Ok ([], stats, Some l)
  | S room' =>
      match l with
      | [] => Ok ([], stats, None)
      | r :: l =>
          let stats := (process_update stats None r (is_delete r)).2 in
          if is_delete r then drain_chunk target_schema room l stats
          else
            let? r := padded_record target_schema r in
            let? (rs, stats, rest) := drain_chunk target_schema room' l stats in
            Ok (r :: rs, stats, rest)
      end
  end.

Definition start_drain (b : Buffer) : option (list BufferedRecord * Buffer) :=
  match log_drain_iter b with
  | Some it => Some (it, b)
  | None => if bool_decide (records b = ∅) then None
            else Some (into_values (records b), set_records ∅ b)
  end.

Definition drain_log_only_inserts (b : Buffer) (target_schema : Schema)
    : res (Buffer * option RecordBatch) :=
  match start_drain b with
  | None => Ok (b, None)
  | Some (it, b) =>
      let? (rs, stats, rest) := drain_chunk target_schema DEFAULT_BATCH_SIZE it (update_processor b) in
      let b := set_drain rest (set_stats stats b) in
      match rs with
      | [] => Ok (b, None)
      | _ =>
          let? batch := records_to_batch rs target_schema in
          let? _ := match unavailable_value b with
                    | Some sentinel => guard_no_unavailable_sentinel batch sentinel
                    | None => Ok tt
                    end in
          Ok (b, if num_rows batch =? 0 then None else Some batch)
      end
  end.

(** * Row by row *)
Definition row_in (cur : option Arc) (idx : nat) : option (Arc * nat) :=
  match cur with
  | Some a => if Z.of_nat idx <? num_rows (pointee a) then Some (a, idx) else None
  | None => None
  end.

Fixpoint next_base_row_go (s : Schema) (src : list (res RecordBatch)) (cur : option Arc) (idx addr : nat)
    (b : Buffer) : res (option (Arc * nat) * Buffer) :=
  match row_in cur idx with
  | Some row => Ok (Some row, set_base (Some (mkSource s src)) cur (S idx) addr b)
  | None =>
      match src with
      | [] => Ok (None, set_base None None idx addr b)
      | Ok batch :: src => next_base_row_go s src (Some (mkArc addr batch)) 0 (S addr) b
      | Err _ :: _ => Err EReadFileSlice
      | Panic :: _ => Panic
      end
  end.

Definition next_base_row (b : Buffer) : res (option (Arc * nat) * Buffer) :=
  match base_file_source b with
  | Some src =>
      next_base_row_go (source_schema src) (source_batches src) (current_base_batch b) (base_row_idx b)
        (next_addr b) b
  | None =>
      match row_in (current_base_batch b) (base_row_idx b) with
      | Some row => Ok (Some row, set_base None (current_base_batch b) (S (base_row_idx b)) (next_addr b) b)
      | None => Ok (None, b)
      end
  end.

Definition has_next_base_record (base_record : BufferedRecord) (log_record_info : option BufferedRecord)
    (b : Buffer) : res (bool * Buffer) :=
  match log_record_info with
  | Some log_record =>
      let? merge_result := final_merge (BufferedRecordMerger := buffered_record_merger b)
                             base_record log_record in
      let '(processed, stats) := process_update (update_processor b) (Some base_record) merge_result
                                   (is_delete merge_result) in
      Ok (is_Some_b processed, set_next processed (set_stats stats b))
  | None => Ok (true, set_next (Some base_record) b)
  end.

Definition has_next_base_record_at (base_batch : Arc) (row_idx : nat) (base_match : BaseMatch)
    (b : Buffer) : res (bool * Buffer) :=
  let row := slice_row (pointee base_batch) row_idx in
  let? keys := get_record_keys row in
  match keys with
  | [] => Panic
  | record_key :: _ =>
      let? lookup_key :=
        match base_match with
        | RecordKey => Ok record_key
        | Position =>
            let? positions := base_row_position_array (pointee base_batch) in
            match positions !! row_idx with Some p => Ok (pretty p) | None => Panic end
        end in
      let log_record := records b !! lookup_key in
      let b := set_records (delete lookup_key (records b)) b in
      let? values := get_ordering_values row in
      let base_ordering := v ← values; o ← head v; o in
      has_next_base_record (new_batch_ref record_key base_batch row_idx base_ordering) log_record b
  end.

(** The next record that is not a delete, the records after it, the counts. *)
Fixpoint emit_next (iter : list BufferedRecord) (stats : UpdateStats)
    : option BufferedRecord * list BufferedRecord * UpdateStats :=
  match iter with
  | [] => (None, [], stats)
  | record :: rest =>
      let '(processed, stats) := process_update stats None record (is_delete record) in
      match processed with
      | Some r => (Some r, rest, stats)
      | None => emit_next rest stats
      end
  end.

Definition has_next_log_record (b : Buffer) : bool * Buffer :=
  let '(iter, b) := match log_record_iter b with
                    | Some it => (it, b)
                    | None => (into_values (records b), set_records ∅ b)
                    end in
  let '(processed, rest, stats) := emit_next iter (update_processor b) in
  let b := set_log_iter (Some rest) (set_stats stats b) in
  match processed with
  | Some r => (true, set_next (Some r) b)
  | None => (false, b)
  end.

Fixpoint do_has_next_matched (fuel : nat) (base_match : BaseMatch) (b : Buffer)
    : res (option (bool * Buffer)) :=
  match fuel with
  | O => Ok None
  | S fuel =>
      let? (row, b) := next_base_row b in
      match row with
      | Some (base_batch, row_idx) =>
          let? (has, b) := has_next_base_record_at base_batch row_idx base_match b in
          if has : bool then Ok (Some (true, b)) else do_has_next_matched fuel base_match b
      | None => Ok (Some (has_next_log_record b))
      end
  end.

(** The base rows not read yet. *)
Definition batch_len (r : res RecordBatch) : nat :=
  match r with Ok b => Z.to_nat (num_rows b) | _ => O end.
Definition rows_left (b : Buffer) : nat :=
  match current_base_batch b with Some a => Z.to_nat (num_rows (pointee a)) - base_row_idx b | None => O end +
  match base_file_source b with Some src => list_sum (batch_len <$> source_batches src) | None => O end.

Definition has_next (base_match : BaseMatch) (b : Buffer) : res (option (bool * Buffer)) :=
  match next_record b with
  | Some _ => Ok (Some (true, b))
  | None => do_has_next_matched (S (rows_left b)) base_match b
  end.

(** [while self.has_next()? { if let Some(r) = self.next() { out.push(r) } }] *)
Fixpoint collect (fuel : nat) (base_match : BaseMatch) (b : Buffer) (out : list BufferedRecord)
    : res (option (list BufferedRecord * Buffer)) :=
  match fuel with
  | O => Ok None
  | S fuel =>
      let? r := has_next base_match b in
      match r with
      | None => Ok None
      | Some (false, b) => Ok (Some (out, b))
      | Some (true, b) =>
          collect fuel base_match (set_next None b)
            (out ++ match next_record b with Some r => [r] | None => [] end)
      end
  end.

Definition records_left (b : Buffer) : nat :=
  size (records b) + match log_record_iter b with Some l => length l | None => O end.

Definition output_schema (b : Buffer) : res Schema :=
  match reader_schema b with
  | Some s => Ok s
  | None =>
      match base_file_source b with
      | Some src => Ok (source_schema src)
      | None =>
          match omap get_record (into_values (records b)) with
          | batch :: _ => Ok (schema batch)
          | [] => Err EReadFileSlice
          end
      end
  end.

Definition merge_and_collect_with_stats (base_match : BaseMatch) (b : Buffer)
    : res (option (RecordBatch * UpdateStats)) :=
  let? s := output_schema b in
  let? r := collect (S (rows_left b + records_left b)) base_match b [] in
  match r with
  | None => Ok None
  | Some (output_records, b) =>
      let? batch := records_to_batch output_records s in
      Ok (Some (batch, update_processor b))
  end.
End merge.

(** * What the merge is for *)

(** What a record context reads from a batch is read row by row, from a slice as
    from the whole batch, lazily ([ordering_accessor]) as eagerly
    ([get_ordering_values]). *)
Class RecordContextLaws {AB : ArrowBatch} {AR : ArrowRows} {AK : ArrowKernels} {AL : ArrowLaws}
    {RC : RecordContext} (target : Schema) (base_match : BaseMatch) := {
  row_key : Row -> string;
  row_lookup : Row -> string;
  row_ordering : Row -> option OrderingValue;
  keys_of b : schema b = target -> get_record_keys b = Ok (row_key <$> batch_rows b);
  lookups_of b : schema b = target -> lookup_keys base_match b = Ok (row_lookup <$> batch_rows b);
  accessor_of b : schema b = target -> exists f, ordering_accessor b = Ok f /\
    forall i r, batch_rows b !! i = Some r -> f i = row_ordering r;
  values_of b : schema b = target -> exists v, get_ordering_values b = Ok v /\
    forall i r, batch_rows b !! i = Some r -> (o ← v; x ← o !! i; x) = row_ordering r;
  row_ordering_supported r v : row_ordering r = Some v -> ov_supported v
}.

Section spec.
Context {AB : ArrowBatch} {AR : ArrowRows} {AK : ArrowKernels} {AL : ArrowLaws} {CO : ColumnOps}
  {RC : RecordContext} {MO : MapOrder}.
Context (target : Schema) (base_match : BaseMatch) {RL : RecordContextLaws target base_match}.

(** The map, the counts and the rows after some base rows. *)
Record Merged := mkMerged {
  m_records : gmap string BufferedRecord;
  m_stats : UpdateStats;
  m_rows : list Row
}.

Definition count_update (u : UpdateStats) : UpdateStats :=
  mkUpdateStats (num_inserts u) (fetch_add_1 (num_updates u)) (num_deletes u).
Definition count_delete (u : UpdateStats) : UpdateStats :=
  mkUpdateStats (num_inserts u) (num_updates u) (fetch_add_1 (num_deletes u)).

(** A base row meets the log record of its key, which is consumed: the winner's
    row is left, or none. *)
Definition merge_row_spec (mode : string) (s : Merged) (r : Row) : Merged :=
  match m_records s !! row_lookup r with
  | None => mkMerged (m_records s) (m_stats s) (m_rows s ++ [r])
  | Some log =>
      let m := delete (row_lookup r) (m_records s) in
      match pick_winner mode log (row_ordering r) with
      | WinnerBase => mkMerged m (count_update (m_stats s)) (m_rows s ++ [r])
      | WinnerLogData => mkMerged m (count_update (m_stats s)) (m_rows s ++ record_rows log)
      | WinnerLogDelete => mkMerged m (count_delete (m_stats s)) (m_rows s)
      end
  end.

Definition merge_rows_spec (mode : string) (m : gmap string BufferedRecord) (u : UpdateStats)
    (l : list Row) : Merged :=
  foldl (merge_row_spec mode) (mkMerged m u []) l.

Lemma merge_row_rows mode s r rows :
  merge_row_spec mode (mkMerged (m_records s) (m_stats s) (rows ++ m_rows s)) r
  = let s' := merge_row_spec mode s r in mkMerged (m_records s') (m_stats s') (rows ++ m_rows s').
Proof.
  unfold merge_row_spec. cbn [m_records m_stats m_rows].
  destruct (m_records s !! row_lookup r) as [log|]; [|cbn; by rewrite app_assoc].
  destruct (pick_winner mode log (row_ordering r)); cbn; by rewrite ?app_assoc.
Qed.

Lemma merge_fold_rows mode l : forall s rows,
  foldl (merge_row_spec mode) (mkMerged (m_records s) (m_stats s) (rows ++ m_rows s)) l
  = let s' := foldl (merge_row_spec mode) s l in mkMerged (m_records s') (m_stats s') (rows ++ m_rows s').
Proof.
  induction l as [|r l IH]; intros s rows; [done|]. cbn [foldl]. rewrite merge_row_rows. cbv zeta.
  apply IH.
Qed.

(** The rows of more base rows are those of the first, then those of the rest. *)
Lemma merge_rows_app mode m u l l' :
  let s := merge_rows_spec mode m u l in
  let s' := merge_rows_spec mode (m_records s) (m_stats s) l' in
  merge_rows_spec mode m u (l ++ l') = mkMerged (m_records s') (m_stats s') (m_rows s ++ m_rows s').
Proof.
  cbv zeta. unfold merge_rows_spec at 1. rewrite foldl_app.
  change (foldl (merge_row_spec mode) (mkMerged m u []) l) with (merge_rows_spec mode m u l).
  set (s := merge_rows_spec mode m u l).
  pose proof (merge_fold_rows mode l' (mkMerged (m_records s) (m_stats s) []) (m_rows s)) as H.
  cbn [m_records m_stats m_rows] in H. rewrite app_nil_r in H. destruct s. exact H.
Qed.

(** The records left are among those there were. *)
Lemma merge_rows_records mode l : forall m u k r,
  m_records (merge_rows_spec mode m u l) !! k = Some r -> m !! k = Some r.
Proof.
  intros m u k r. unfold merge_rows_spec.
  assert (Hg : forall s, m_records (foldl (merge_row_spec mode) s l) !! k = Some r ->
    m_records s !! k = Some r); [|apply (Hg (mkMerged m u []))].
  induction l as [|x l IH]; intros s; [done|]. cbn [foldl]. intros H%IH. revert H.
  unfold merge_row_spec. destruct (m_records s !! row_lookup x) as [log|]; [|done].
  destruct (pick_winner mode log (row_ordering x)); cbn; by intros [_ ?]%lookup_delete_Some.
Qed.

(** A table without partial updates, in one of the two ordering modes, whose
    buffered records are of the target schema; [heap] is what their pointers
    point to. *)
Record plain_buffer (heap : list RecordBatch) (b : Buffer) : Prop := {
  plain_unavailable : unavailable_value b = None;
  plain_defaults : ignore_defaults b = false;
  plain_mode : pick_winner_decides (record_merge_mode b) = true;
  plain_merger : exists custom, create_with custom (record_merge_mode b) = Ok (buffered_record_merger b);
  plain_records : forall k r, records b !! k = Some r -> record_wf heap target r /\ value_supported r
}.

(** * One row of the kernel *)
Section plain.
Context (heap : list RecordBatch) (b : Buffer) (Hb : plain_buffer heap b).

Lemma plain_fill r src i : fill_partial b r src i = Ok (r, false).
Proof. unfold fill_partial. by rewrite (plain_defaults _ _ Hb), (plain_unavailable _ _ Hb). Qed.

Lemma plain_base_row base idx key o log : filled_base_row b base idx key o log = Ok None.
Proof.
  unfold filled_base_row. rewrite (plain_defaults _ _ Hb), (plain_unavailable _ _ Hb).
  by destruct (get_record log).
Qed.

Lemma plain_log_record base idx log : record_wf heap target log ->
  winning_log_record b base idx target log = Ok log.
Proof.
  intros Hl. unfold winning_log_record. rewrite plain_fill. cbn.
  destruct (get_record log) as [batch|] eqn:E; [|done].
  by rewrite (record_wf_full heap target log batch).
Qed.

(** A row is kept, or replaced by at most one record. *)
Record row_done (k k' : Kernel) (s s' : Merged) (r : Row) (kept : bool) (reps : list BufferedRecord) : Prop := {
  done_records : k_records k' = m_records s';
  done_stats : k_stats k' = m_stats s';
  done_keep : keep k' = keep k ++ [kept];
  done_replacements : replacements k' = replacements k ++ reps;
  done_dropped : any_dropped k' = any_dropped k || negb kept;
  done_rows : m_rows s' = m_rows s ++ (if kept then [r] else []) ++ records_rows reps;
  done_wf : forall x, x ∈ reps -> record_wf heap target x;
  done_kept : kept = true -> reps = []
}.

Lemma merge_row_step base orderings k s idx r :
  k_records k = m_records s -> k_stats k = m_stats s ->
  (forall key x, m_records s !! key = Some x -> records b !! key = Some x) ->
  orderings idx = row_ordering r ->
  exists k' kept reps, merge_row b base target orderings k (idx, row_lookup r) = Ok k' /\
    row_done k k' s (merge_row_spec (record_merge_mode b) s r) r kept reps.
Proof.
  intros Hk Hs Hm Ho. unfold merge_row, merge_row_spec. rewrite Hk.
  destruct (m_records s !! row_lookup r) as [log|] eqn:El.
  2:{ exists (keep_row k), true, []. split; [done|].
      split; cbn; rewrite ?app_nil_r, ?orb_false_r; try done. by intros x ?%not_elem_of_nil. }
  destruct (plain_records _ _ Hb _ _ (Hm _ _ El)) as [Hl _].
  unfold merge_conflict. rewrite (plain_mode _ _ Hb), Ho. cbn [negb].
  destruct (pick_winner (record_merge_mode b) log (row_ordering r)) eqn:Ew; cbn [res_bind].
  - rewrite plain_base_row. cbn [res_bind]. eexists _, true, []. split; [done|].
    split; cbn; rewrite ?app_nil_r, ?orb_false_r, ?Hs; try done. by intros x ?%not_elem_of_nil.
  - rewrite plain_log_record by done. cbn [res_bind]. eexists _, false, [log]. split; [done|].
    split; cbn; rewrite ?app_nil_r, ?orb_true_r, ?Hs; try done.
    by intros x ->%list_elem_of_singleton.
  - eexists _, false, []. split; [done|].
    split; cbn; rewrite ?app_nil_r, ?orb_true_r, ?Hs; try done. by intros x ?%not_elem_of_nil.
Qed.

(** * The whole batch *)
Lemma mask_rows_app {A} m1 m2 (l1 l2 : list A) : length m1 = length l1 ->
  mask_rows (m1 ++ m2) (l1 ++ l2) = mask_rows m1 l1 ++ mask_rows m2 l2.
Proof.
  revert l1. induction m1 as [|x m1 IH]; intros [|a l1] Hl; cbn in *; try done.
  rewrite IH by lia. by destruct x.
Qed.

Lemma mask_rows_all {A} m (l : list A) : length m = length l -> (forall x, x ∈ m -> x = true) ->
  mask_rows m l = l.
Proof.
  revert l. induction m as [|x m IH]; intros [|a l] Hl Hm; cbn in *; try done.
  rewrite (Hm x) by by left. f_equal. apply IH; [lia|]. intros y Hy. apply Hm. by right.
Qed.

(** The kernel after the rows [pre] of the batch. *)
Record kernel_after (pre : list Row) (k : Kernel) (s : Merged) : Prop := {
  after_records : k_records k = m_records s;
  after_stats : k_stats k = m_stats s;
  after_sub : forall key x, m_records s !! key = Some x -> records b !! key = Some x;
  after_keep : length (keep k) = length pre;
  after_rows : mask_rows (keep k) pre ++ records_rows (replacements k) ≡ₚ m_rows s;
  after_wf : forall x, x ∈ replacements k -> record_wf heap target x;
  after_all : any_dropped k = false -> replacements k = [] /\ forall x, x ∈ keep k -> x = true
}.

Lemma merge_row_spec_sub mode s r key x :
  m_records (merge_row_spec mode s r) !! key = Some x -> m_records s !! key = Some x.
Proof.
  unfold merge_row_spec. destruct (m_records s !! row_lookup r) as [log|]; [|done].
  destruct (pick_winner mode log (row_ordering r)); cbn; by intros [_ ?]%lookup_delete_Some.
Qed.

Lemma kernel_after_step pre k k' s r kept reps :
  kernel_after pre k s ->
  row_done k k' s (merge_row_spec (record_merge_mode b) s r) r kept reps ->
  kernel_after (pre ++ [r]) k' (merge_row_spec (record_merge_mode b) s r).
Proof.
  intros [] []. split.
  - done.
  - done.
  - intros key x Hx%merge_row_spec_sub. auto.
  - rewrite done_keep0, !length_app. cbn. lia.
  - rewrite done_keep0, done_replacements0, done_rows0, records_rows_app, mask_rows_app by done.
    rewrite <- after_rows0. cbn [mask_rows]. destruct kept; solve_Permutation.
  - rewrite done_replacements0. intros x [Hx|Hx]%elem_of_app; auto.
  - rewrite done_dropped0. intros [Hd Hk]%orb_false_iff. apply negb_false_iff in Hk as ->.
    destruct (after_all0 Hd) as [Hr Ha]. rewrite done_replacements0, done_keep0, Hr, done_kept0 by done.
    split; [done|]. intros x [Hx| ->%list_elem_of_singleton]%elem_of_app; auto.
Qed.

Lemma kernel_fold base orderings l : forall pre k s,
  batch_rows base = pre ++ l ->
  (forall i r, batch_rows base !! i = Some r -> orderings i = row_ordering r) ->
  kernel_after pre k s ->
  exists k', res_fold (merge_row b base target orderings)
      (zip (seq (length pre) (length l)) (row_lookup <$> l)) k = Ok k' /\
    kernel_after (pre ++ l) k' (foldl (merge_row_spec (record_merge_mode b)) s l).
Proof.
  induction l as [|r l IH]; intros pre k s Hb' Ho Hk.
  { exists k. split; [done|]. by rewrite app_nil_r. }
  cbn [length seq fmap list_fmap zip zip_with res_fold foldl].
  destruct (merge_row_step base orderings k s (length pre) r) as (k1 & kept & reps & E & Hd); [by destruct Hk..| |].
  { apply Ho. rewrite Hb', lookup_app_r, Nat.sub_diag; done. }
  change (list_fmap Row string row_lookup l) with (row_lookup <$> l).
  rewrite E. cbn [res_bind].
  destruct (IH (pre ++ [r]) k1 (merge_row_spec (record_merge_mode b) s r)) as (k2 & E2 & H2).
  - by rewrite <- app_assoc.
  - done.
  - by apply (kernel_after_step pre k k1 s r kept reps).
  - rewrite length_app in E2. cbn in E2. rewrite Nat.add_1_r in E2.
    exists k2. split; [done|]. by rewrite <- app_assoc in H2.
Qed.

Lemma kernel_output_rows base k s :
  schema base = target -> kernel_after (batch_rows base) k s ->
  exists out, kernel_output base target k = Ok (Some out) /\ schema out = target /\
    batch_rows out ≡ₚ m_rows s.
Proof.
  intros Hs [_ _ _ Hlen Hrows Hwf Hall]. unfold kernel_output.
  destruct (any_dropped k) eqn:Ed.
  - destruct (filter_rows base (keep k) Hlen) as (kept & -> & Ks & Kr). cbn [map_err res_bind].
    rewrite reconcile_same by congruence. cbn [res_bind].
    destruct (replacements k) as [|rep reps] eqn:Er.
    { exists kept. split_and!; [done|congruence|]. rewrite Kr, <- Hrows. by rewrite app_nil_r. }
    rewrite <- Er in *. destruct (records_to_batch_rows heap target (replacements k) Hwf) as (rb & -> & Rs & Rr).
    cbn [res_bind]. rewrite num_rows_length, Rr. destruct (_ =? 0) eqn:E0.
    + exists kept. split_and!; [done|congruence|]. rewrite Kr, <- Hrows.
      apply Z.eqb_eq in E0. destruct (records_rows (replacements k)); [|cbn in E0; lia].
      by rewrite app_nil_r.
    + destruct (concat_rows target [kept; rb]) as (out & -> & Os & Or).
      { intros x Hx. in_cases Hx; congruence. }
      exists out. split_and!; [done|done|]. rewrite Or. cbn. rewrite app_nil_r, Kr, Rr. done.
  - destruct (Hall eq_refl) as [Hr Hk]. rewrite Hr in *. rewrite reconcile_same by done.
    exists base. split_and!; [done|done|]. rewrite <- Hrows, mask_rows_all by done.
    by rewrite app_nil_r.
Qed.

Lemma kernel_spec base :
  schema base = target -> batch_rows base <> [] ->
  let s := merge_rows_spec (record_merge_mode b) (records b) (update_processor b) (batch_rows base) in
  exists out, merge_one_base_batch_kernel b base target base_match
      = Ok (set_stats (m_stats s) (set_records (m_records s) b), Some out) /\
    schema out = target /\ batch_rows out ≡ₚ m_rows s.
Proof.
  intros Hs Hn. cbv zeta. unfold merge_one_base_batch_kernel. rewrite num_rows_length.
  destruct (Z.eqb_spec (Z.of_nat (length (batch_rows base))) 0) as [E|_].
  { destruct (batch_rows base); [done|cbn in E; lia]. }
  rewrite (lookups_of base Hs). cbn [res_bind].
  destruct (accessor_of base Hs) as (f & -> & Hf). cbn [res_bind]. rewrite Nat2Z.id.
  destruct (kernel_fold base f (batch_rows base) []
    (mkKernel (records b) (update_processor b) [] [] false)
    (mkMerged (records b) (update_processor b) [])) as (k & E & Hk); [done|done| |].
  { split; cbn; try done; [by intros x ?%not_elem_of_nil|].
    intros _. split; [done|]. by intros x ?%not_elem_of_nil. }
  cbn [length app] in E, Hk. rewrite E. cbn [res_bind].
  destruct (kernel_output_rows base k _ Hs Hk) as (out & -> & Os & Or). cbn [res_bind].
  exists out. destruct Hk as [-> -> _ _ _ _ _]. done.
Qed.
End plain.
End spec.

(** * Row by row, the same *)
Section row_path.
Context {AB : ArrowBatch} {AR : ArrowRows} {AK : ArrowKernels} {AL : ArrowLaws} {CO : ColumnOps}
  {RC : RecordContext} {MO : MapOrder}.
Context (target : Schema) (base_match : BaseMatch) {RL : RecordContextLaws target base_match}.
Context (heap : list RecordBatch).

(** The rows of a batch from the [idx]-th on. *)
Definition rows_from (a : Arc) (idx : nat) : list (Arc * nat) :=
  (fun i => (a, i)) <$> seq idx (length (batch_rows (pointee a)) - idx).

Fixpoint source_rows (addr : nat) (src : list RecordBatch) : list (Arc * nat) :=
  match src with
  | [] => []
  | b :: src => rows_from (mkArc addr b) 0 ++ source_rows (S addr) src
  end.

Definition cur_rows (cur : option Arc) (idx : nat) : list (Arc * nat) :=
  match cur with Some a => rows_from a idx | None => [] end.

(** The base rows still to be read, each with the batch it is in. *)
Inductive base_pending (b : Buffer) : list (Arc * nat) -> Prop :=
  | pending_none : base_file_source b = None ->
      base_pending b (cur_rows (current_base_batch b) (base_row_idx b))
  | pending_some s src : base_file_source b = Some (mkSource s (Ok <$> src)) ->
      base_pending b (cur_rows (current_base_batch b) (base_row_idx b) ++ source_rows (next_addr b) src).

Lemma row_in_rows cur idx :
  match row_in cur idx with
  | Some (a, i) => cur = Some a /\ i = idx /\ cur_rows cur idx = (a, idx) :: rows_from a (S idx)
  | None => cur_rows cur idx = []
  end.
Proof.
  unfold row_in, cur_rows, rows_from. destruct cur as [a|]; [|done]. rewrite num_rows_length.
  destruct (Z.ltb_spec (Z.of_nat idx) (Z.of_nat (length (batch_rows (pointee a))))).
  - split_and!; [done..|].
    replace (length (batch_rows (pointee a)) - idx)%nat
      with (S (length (batch_rows (pointee a)) - S idx))%nat by lia. done.
  - by replace (length (batch_rows (pointee a)) - idx)%nat with 0%nat by lia.
Qed.

Lemma next_base_row_go_spec s src b : forall cur idx addr,
  match cur_rows cur idx ++ source_rows addr src with
  | [] => exists addr', next_base_row_go s (Ok <$> src) cur idx addr b
            = Ok (None, set_base None None (match src with [] => idx | _ => 0%nat end) addr' b)
  | (a, i) :: rest => exists src' cur' idx' addr',
      next_base_row_go s (Ok <$> src) cur idx addr b
      = Ok (Some (a, i), set_base (Some (mkSource s (Ok <$> src'))) cur' idx' addr' b) /\
      rest = cur_rows cur' idx' ++ source_rows addr' src'
  end.
Proof.
  induction src as [|x src IH]; intros cur idx addr; pose proof (row_in_rows cur idx) as Hr;
    rewrite ?fmap_cons, ?fmap_nil; cbn [next_base_row_go]; destruct (row_in cur idx) as [[a i]|].
  - destruct Hr as (-> & -> & ->). exists [], (Some a), (S idx), addr. done.
  - rewrite Hr. cbn. by exists addr.
  - destruct Hr as (-> & -> & ->). exists (x :: src), (Some a), (S idx), addr. done.
  - rewrite Hr. cbn [app source_rows]. specialize (IH (Some (mkArc addr x)) 0%nat (S addr)).
    cbn [cur_rows] in IH. destruct (rows_from (mkArc addr x) 0 ++ source_rows (S addr) src) as [|[a i] rest].
    + destruct IH as (addr' & IH). exists addr'. rewrite IH. by destruct src.
    + exact IH.
Qed.

(** The buffer but for where it is in the base file. *)
Definition same_but_base (b b' : Buffer) : Prop := exists src cur idx addr, b' = set_base src cur idx addr b.

Lemma next_base_row_spec b pend : base_pending b pend ->
  match pend with
  | [] => exists b', next_base_row b = Ok (None, b') /\ same_but_base b b' /\ base_pending b' []
  | row :: rest => exists b', next_base_row b = Ok (Some row, b') /\ same_but_base b b' /\ base_pending b' rest
  end.
Proof.
  intros [Hn|s src Hs]; unfold next_base_row.
  - rewrite Hn. pose proof (row_in_rows (current_base_batch b) (base_row_idx b)) as Hr.
    destruct (row_in _ _) as [[a i]|].
    + destruct Hr as (Hc & -> & ->). rewrite Hc. eexists. split; [done|]. split; [by do 4 eexists|].
      by apply (pending_none (set_base None (Some a) (S (base_row_idx b)) (next_addr b) b)).
    + rewrite Hr. exists b. split; [done|]. split.
      * exists (base_file_source b), (current_base_batch b), (base_row_idx b), (next_addr b). by destruct b.
      * rewrite <- Hr. by apply pending_none.
  - rewrite Hs. cbn [source_schema source_batches].
    pose proof (next_base_row_go_spec s src b (current_base_batch b) (base_row_idx b) (next_addr b)) as H.
    destruct (cur_rows _ _ ++ source_rows _ _) as [|[a i] rest].
    + destruct H as (addr & ->). eexists. split; [done|]. split; [by do 4 eexists|].
      match goal with |- base_pending ?x [] => apply (pending_none x) end. done.
    + destruct H as (src' & cur' & idx' & addr' & -> & ->). eexists. split; [done|].
      split; [by do 4 eexists|].
      match goal with |- base_pending ?x _ => apply (pending_some x s src') end. done.
Qed.

Lemma rows_from_length a idx : length (rows_from a idx) = (Z.to_nat (num_rows (pointee a)) - idx)%nat.
Proof. unfold rows_from. by rewrite length_fmap, length_seq, num_rows_length, Nat2Z.id. Qed.

Lemma source_rows_length src : forall addr,
  length (source_rows addr src) = list_sum (batch_len <$> (Ok <$> src)).
Proof.
  induction src as [|b src IH]; intros addr; [done|]. cbn [source_rows]. rewrite length_app, rows_from_length, IH.
  rewrite !fmap_cons. cbn [list_sum foldr batch_len pointee].
  change (foldr Nat.add 0%nat) with list_sum. lia.
Qed.

Lemma pending_length b pend : base_pending b pend -> length pend = rows_left b.
Proof.
  intros [Hn|s src Hs]; unfold rows_left; rewrite ?Hn, ?Hs; cbn [source_batches];
    rewrite ?length_app, ?source_rows_length; unfold cur_rows;
    destruct (current_base_batch b) as [a|]; rewrite ?rows_from_length; cbn [length]; lia.
Qed.

(** Rows whose batch is where its pointer says, and of the target schema. *)
Definition valid_row (row : Arc * nat) : Prop :=
  heap !! as_ptr row.1 = Some (pointee row.1) /\ schema (pointee row.1) = target /\
  exists r, batch_rows (pointee row.1) !! row.2 = Some r.

Definition row_of (row : Arc * nat) : list Row :=
  match batch_rows (pointee row.1) !! row.2 with Some r => [r] | None => [] end.

Lemma lookup_at bm (lk : Row -> string) a i r k :
  batch_rows a !! i = Some r ->
  lookup_keys bm a = Ok (lk <$> batch_rows a) -> lookup_keys bm (slice_row a i) = Ok [lk r] ->
  get_record_keys (slice_row a i) = Ok [k] ->
  match bm with
  | RecordKey => Ok k
  | Position =>
      let? positions := base_row_position_array a in
      match positions !! i with Some p => Ok (pretty p) | None => Panic end
  end = Ok (lk r).
Proof.
  intros Hi Ha Hsl Hk. destruct bm; cbn [lookup_keys] in *.
  - rewrite Hk in Hsl. by injection Hsl as ->.
  - apply res_map_Ok in Ha as (ps & -> & Hps). cbn [res_bind].
    assert (He : (pretty <$> ps) !! i = Some (lk r)) by (rewrite <- Hps, list_lookup_fmap, Hi; done).
    rewrite list_lookup_fmap in He. destruct (ps !! i) as [p|]; [|done]. cbn in He. by injection He as ->.
Qed.

Lemma set_stats_records_same b : set_stats (update_processor b) (set_records (records b) b) = b.
Proof. by destruct b. Qed.

(** One row: the record emitted, if any, and what is left. *)
Lemma has_next_base_record_at_spec b a i r :
  plain_buffer target heap b -> valid_row (a, i) -> batch_rows (pointee a) !! i = Some r ->
  let s := merge_row_spec target base_match (record_merge_mode b)
             (mkMerged (records b) (update_processor b) []) r in
  exists emitted, has_next_base_record_at a i base_match b
    = Ok (is_Some_b emitted, set_next emitted (set_stats (m_stats s) (set_records (m_records s) b))) /\
    m_rows s = records_rows (option_list emitted) /\
    (forall e, emitted = Some e -> record_wf heap target e).
Proof.
  intros Hb (Hh & Hs & _) Hr. cbn [fst snd] in Hh, Hs. cbv zeta. unfold has_next_base_record_at.
  pose proof (slice_row_rows _ _ _ Hr) as Hsl.
  assert (Ss : schema (slice_row (pointee a) i) = target) by by rewrite slice_row_schema.
  pose proof (keys_of (RecordContextLaws := RL) _ Ss) as Hk. rewrite Hsl in Hk. cbn in Hk.
  pose proof (lookups_of (RecordContextLaws := RL) _ Ss) as Hl. rewrite Hsl in Hl. cbn in Hl.
  rewrite Hk. cbn [res_bind].
  rewrite (lookup_at base_match row_lookup (pointee a) i r (row_key r) Hr
    (lookups_of (RecordContextLaws := RL) _ Hs) Hl Hk). cbn [res_bind].
  destruct (values_of (RecordContextLaws := RL) _ Ss) as (v & -> & Hv). cbn [res_bind].
  specialize (Hv 0%nat r). rewrite Hsl in Hv. specialize (Hv eq_refl).
  assert ((o ← v; x ← head o; x) = row_ordering r) as ->.
  { rewrite <- Hv. destruct v as [[|x v]|]; done. }
  set (base_record := new_batch_ref (row_key r) a i (row_ordering r)).
  assert (Wb : record_wf heap target base_record).
  { split_and!; [done|done|]. by apply lookup_lt_Some in Hr. }
  assert (Rb : record_rows base_record = [r]) by (unfold record_rows; cbn; by rewrite Hr).
  unfold merge_row_spec. cbn [m_records m_stats m_rows has_next_base_record].
  destruct (records b !! row_lookup r) as [log|] eqn:El; cbn [has_next_base_record].
  2:{ exists (Some base_record). rewrite delete_id by done. cbn [m_records m_stats m_rows]. rewrite set_stats_records_same.
      assert (set_records (records b) b = b) as -> by by destruct b.
      split_and!; [done| |by intros e [= <-]]. change (option_list (Some base_record)) with [base_record]. by rewrite records_rows_one, Rb. }
  destruct (plain_records _ _ _ Hb _ _ El) as [Wl Sl].
  destruct (plain_merger _ _ _ Hb) as [custom Hc].
  destruct (pick_winner_final_merge custom (record_merge_mode b) (buffered_record_merger b) base_record log)
    as [Hf Hw]; [done|apply Hb|done| |done|].
  { intros x Hx. exact (row_ordering_supported (RecordContextLaws := RL) r x Hx). }
  cbn [buffered_record_merger set_records update_processor]. rewrite Hf. cbn [res_bind].
  change (ordering_value base_record) with (row_ordering r) in *.
  destruct (pick_winner (record_merge_mode b) log (row_ordering r)).
  - exists (Some base_record). split_and!; [done| |by intros e [= <-]]. change (option_list (Some base_record)) with [base_record]. by rewrite records_rows_one, Rb.
  - rewrite Hw. exists (Some log). split_and!; [done| |by intros e [= <-]].
    change (option_list (Some log)) with [log]. by rewrite records_rows_one.
  - rewrite Hw. exists None. done.
Qed.

(** * The rows of the whole base file *)
Lemma plain_buffer_fields b b' :
  unavailable_value b' = unavailable_value b -> ignore_defaults b' = ignore_defaults b ->
  record_merge_mode b' = record_merge_mode b -> buffered_record_merger b' = buffered_record_merger b ->
  (forall k r, records b' !! k = Some r -> records b !! k = Some r) ->
  plain_buffer target heap b -> plain_buffer target heap b'.
Proof.
  intros E1 E2 E3 E4 Hr []. split; rewrite ?E1, ?E2, ?E3, ?E4; [done..|]. intros k r Hk. eauto.
Qed.

(** A buffer about to read the base rows [pend]. *)
Record row_state (b : Buffer) (pend : list (Arc * nat)) : Prop := {
  rs_plain : plain_buffer target heap b;
  rs_pending : base_pending b pend;
  rs_valid : forall row, row ∈ pend -> valid_row row;
  rs_next : next_record b = None;
  rs_iter : log_record_iter b = None
}.

Lemma base_pending_fields b b' pend :
  base_file_source b' = base_file_source b -> current_base_batch b' = current_base_batch b ->
  base_row_idx b' = base_row_idx b -> next_addr b' = next_addr b ->
  base_pending b pend -> base_pending b' pend.
Proof.
  intros E1 E2 E3 E4 [Hn|s src Hs]; rewrite <- E2, <- E3, <- ?E4.
  - apply pending_none. by rewrite E1.
  - apply (pending_some b' s src). by rewrite E1.
Qed.

Definition rows_of (pend : list (Arc * nat)) : list Row := concat (row_of <$> pend).

Lemma row_state_step b row rest : row_state b (row :: rest) ->
  let s := merge_rows_spec target base_match (record_merge_mode b) (records b) (update_processor b) (row_of row) in
  exists b' emitted, row_state b' rest /\
    record_merge_mode b' = record_merge_mode b /\ reader_schema b' = reader_schema b /\
    records b' = m_records s /\ update_processor b' = m_stats s /\
    m_rows s = records_rows (option_list emitted) /\
    (forall e, emitted = Some e -> record_wf heap target e) /\
    (forall fuel, do_has_next_matched (S fuel) base_match b
      = match emitted with
        | Some e => Ok (Some (true, set_next (Some e) b'))
        | None => do_has_next_matched fuel base_match b'
        end).
Proof.
  intros [Hp Hpend Hv Hn Hi]. cbv zeta. destruct row as [a i].
  pose proof (Hv (a, i) ltac:(by left)) as Hrow. pose proof Hrow as (_ & _ & r & Hr). cbn [fst snd] in Hr.
  assert (row_of (a, i) = [r]) as -> by (unfold row_of; cbn [fst snd]; by rewrite Hr).
  destruct (next_base_row_spec b _ Hpend) as (b1 & E1 & (src & cur & idx & addr & ->) & P1).
  set (b1 := set_base src cur idx addr b) in *.
  assert (H1 : plain_buffer target heap b1) by by apply (plain_buffer_fields b).
  destruct (has_next_base_record_at_spec b1 a i r H1 Hrow Hr) as (emitted & E2 & Hm & Hw).
  change (record_merge_mode b1) with (record_merge_mode b) in *.
  change (records b1) with (records b) in *. change (update_processor b1) with (update_processor b) in *.
  unfold merge_rows_spec. cbn [foldl].
  set (s := merge_row_spec target base_match (record_merge_mode b) (mkMerged (records b) (update_processor b) []) r) in *.
  exists (set_next None (set_stats (m_stats s) (set_records (m_records s) b1))), emitted.
  split_and!; try done.
  - split; try done.
    + apply (plain_buffer_fields b1); try done. intros k x Hx. by eapply merge_row_spec_sub in Hx.
    + by apply (base_pending_fields b1).
    + intros x Hx. apply Hv. by right.
  - intros fuel. cbn [do_has_next_matched]. rewrite E1. cbn [res_bind]. rewrite E2. cbn [res_bind].
    by destruct emitted.
Qed.

Lemma set_next_none b : next_record b = None -> set_next None b = b.
Proof. destruct b. cbn. by intros ->. Qed.

Lemma has_next_row b pend : row_state b pend ->
  has_next base_match b = do_has_next_matched (S (length pend)) base_match b.
Proof. intros H. unfold has_next. by rewrite (rs_next _ _ H), (pending_length b pend (rs_pending _ _ H)). Qed.

Lemma collect_rows pend : forall b, row_state b pend ->
  let s := merge_rows_spec target base_match (record_merge_mode b) (records b) (update_processor b) (rows_of pend) in
  exists b' outs, row_state b' [] /\ records b' = m_records s /\ update_processor b' = m_stats s /\
    m_rows s = records_rows outs /\ (forall e, e ∈ outs -> record_wf heap target e) /\
    (length outs <= length pend)%nat /\
    (forall fuel out, collect (length outs + fuel) base_match b out = collect fuel base_match b' (out ++ outs)).
Proof.
  induction pend as [|row rest IH]; intros b Hb; cbv zeta.
  { exists b, []. split_and!; try done; [by intros e ?%not_elem_of_nil|].
    intros fuel out. by rewrite app_nil_r. }
  destruct (row_state_step b row rest Hb) as (b1 & emitted & H1 & Em & _ & Er & Eu & Hm & Hw & Hd).
  destruct (IH b1 H1) as (b2 & outs & H2 & R2 & U2 & M2 & W2 & L2 & C2).
  unfold rows_of in *. rewrite fmap_cons. cbn [concat]. rewrite merge_rows_app. cbv zeta.
  rewrite Em, Er, Eu in *. cbn [m_records m_stats m_rows].
  exists b2, (option_list emitted ++ outs). split_and!; try done.
  - by rewrite records_rows_app, Hm, M2.
  - intros e [He|He]%elem_of_app; [|auto]. destruct emitted as [x|]; [|by apply not_elem_of_nil in He].
    apply list_elem_of_singleton in He as ->. auto.
  - rewrite length_app. destruct emitted; cbn; lia.
  - intros fuel out. destruct emitted as [e|].
    + change (length (option_list (Some e) ++ outs) + fuel)%nat with (S (length outs + fuel)).
      change (option_list (Some e) ++ outs) with (e :: outs). cbn [collect]. rewrite (has_next_row b _ Hb), Hd. cbn [res_bind next_record set_next].
      change (set_next None (set_next (Some e) b1)) with (set_next None b1).
      rewrite (set_next_none b1) by apply H1. rewrite C2. by rewrite <- app_assoc.
    + change (option_list None ++ outs) with outs. rewrite <- C2. destruct (length outs + fuel)%nat as [|n]; [done|]. cbn [collect].
      by rewrite (has_next_row b _ Hb), (has_next_row b1 _ H1), Hd.
Qed.

(** * The records no base row matched *)
Definition drain_stats (u : UpdateStats) (l : list BufferedRecord) : UpdateStats :=
  foldl (fun u r => (process_update u None r (is_delete r)).2) u l.

Definition live_records (l : list BufferedRecord) : list BufferedRecord :=
  filter (fun r => is_delete r = false) l.

Lemma live_records_rows l : records_rows (live_records l) = records_rows l.
Proof.
  unfold records_rows, live_records. induction l as [|r l IH]; [done|].
  rewrite filter_cons. destruct (decide (is_delete r = false)) as [E|E].
  - rewrite !fmap_cons. cbn [concat]. by rewrite IH.
  - rewrite fmap_cons. cbn [concat]. rewrite (record_rows_delete r) by by destruct (is_delete r). done.
Qed.

Lemma emit_next_spec l : forall u,
  match emit_next l u with
  | (Some r, rest, u') => live_records l = r :: live_records rest /\
      drain_stats u l = drain_stats u' rest /\ (length rest < length l)%nat
  | (None, rest, u') => rest = [] /\ live_records l = [] /\ u' = drain_stats u l
  end.
Proof.
  induction l as [|r l IH]; intros u; [done|]. cbn [emit_next]. unfold live_records in *. rewrite filter_cons.
  unfold process_update at 1. destruct (is_delete r) eqn:E.
  - rewrite decide_False by done. specialize (IH (process_update u None r true).2).
    cbn [process_update snd] in IH. unfold drain_stats in *. cbn [foldl]. rewrite E. cbn [process_update snd].
    destruct (emit_next l _) as [[[x|] rest] u']; [|done]. destruct IH as (? & ? & ?). split_and!; [done..|].
    cbn. lia.
  - rewrite decide_True by done. split_and!; [done| |cbn; lia]. unfold drain_stats. cbn [foldl].
    by rewrite E.
Qed.

Record drain_state (b : Buffer) (it : list BufferedRecord) : Prop := {
  ds_pending : base_pending b [];
  ds_next : next_record b = None;
  ds_iter : log_record_iter b = Some it \/ (log_record_iter b = None /\ it = into_values (records b))
}.

Lemma drain_has_next b it : drain_state b it ->
  exists b', drain_state b' (emit_next it (update_processor b)).1.2 /\
    update_processor b' = (emit_next it (update_processor b)).2 /\
    has_next base_match b
    = Ok (Some (match (emit_next it (update_processor b)).1.1 with
                | Some r => (true, set_next (Some r) b')
                | None => (false, b')
                end)).
Proof.
  intros [Hp Hn Hi]. unfold has_next. rewrite Hn. cbn [do_has_next_matched].
  destruct (next_base_row_spec b [] Hp) as (b1 & -> & (src & cur & idx & addr & ->) & P1). cbn [res_bind].
  unfold has_next_log_record. cbn [log_record_iter set_base records update_processor].
  destruct Hi as [Hi|[Hi ->]]; rewrite Hi; cbn [update_processor set_base set_records];
    destruct (emit_next _ _) as [[processed rest] u'] eqn:E; cbn [fst snd];
    match goal with |- context [set_log_iter ?l ?x] => exists (set_log_iter l x) end;
    (split; [split; [|done|by left]|]); try (by apply (base_pending_fields (set_base src cur idx addr b)));
    by destruct processed.
Qed.

Lemma collect_drain n : forall it b fuel out, (length it <= n)%nat -> (length it < fuel)%nat -> drain_state b it ->
  exists b', collect fuel base_match b out = Ok (Some (out ++ live_records it, b')) /\
    update_processor b' = drain_stats (update_processor b) it.
Proof.
  induction n as [n IH] using lt_wf_ind. intros it b fuel out Hn Hf Hb.
  destruct fuel as [|fuel]; [lia|]. cbn [collect].
  destruct (drain_has_next b it Hb) as (b1 & H1 & U1 & E). rewrite E. cbn [res_bind].
  pose proof (emit_next_spec it (update_processor b)) as Hs.
  destruct (emit_next it (update_processor b)) as [[[r|] rest] u']; cbn [fst snd] in *.
  - destruct Hs as (-> & -> & Hl). cbn [next_record set_next].
    change (set_next None (set_next (Some r) b1)) with (set_next None b1).
    rewrite (set_next_none b1) by apply H1. rewrite <- U1.
    destruct (IH (length rest) ltac:(lia) rest b1 fuel (out ++ [r])) as (b2 & -> & ?); [lia|lia|done|].
    exists b2. split; [|done]. by rewrite <- app_assoc.
  - destruct Hs as (-> & -> & ->). exists b1. by rewrite app_nil_r.
Qed.
End row_path.
