(* ===== verification/MergeStream.v ===== *)
(** The stream of a file group's merged rows:
    crates/core/src/file_group/reader_v2/merge_iterator.rs, over the record
    buffer of [BaseMerge].

    A source is the list of what it yields; timings are not modelled. *)
From Stdlib Require Import ZArith.
From stdpp Require Import base gmap sets list strings sorting numbers pretty.
From S2P Require Import Prelude RustStr StorageReader RecordBatches OrderingValues RecordMerger ArrowKernels RecordBuffer BaseMerge.
Local Open Scope res_scope.
Local Open Scope Z_scope.

Section stream.
Context {AB : ArrowBatch} {AR : ArrowRows} {AK : ArrowKernels} {CO : ColumnOps} {RC : RecordContext}
  {MO : MapOrder}.

Inductive BufferedState := BaseScanning | DrainingLogInserts.

Inductive MergeSource :=
  | Eager (source : list (res RecordBatch))
  | Buffered (buffer : Buffer) (base_source : option (list (res RecordBatch))) (merge_schema : Schema)
      (state : BufferedState).

Record FileGroupMergeStream := mkStream {
  source : MergeSource;
  output_schema : Schema;
  output_converter : option (RecordBatch -> res RecordBatch);
  done : bool;
  stream_stats : UpdateStats
}.

Definition new_eager (src : list (res RecordBatch)) (s : Schema)
    (converter : option (RecordBatch -> res RecordBatch)) : FileGroupMergeStream :=
  mkStream (Eager src) s converter false (mkUpdateStats 0 0 0).

Definition new_buffered (buffer : Buffer) (src : list (res RecordBatch)) (merge_schema s : Schema)
    (converter : option (RecordBatch -> res RecordBatch)) : FileGroupMergeStream :=
  mkStream (Buffered buffer (Some src) merge_schema BaseScanning) s converter false (mkUpdateStats 0 0 0).

(** What one turn produces: a chunk, the end, or a failure. *)
Inductive Produced :=
  | Chunk (batch : RecordBatch) (next : MergeSource)
  | Finished (next : MergeSource)
  | Failed (e : res RecordBatch).

(** [Err] and [Panic] of any type. *)
Definition failure {A} (r : res A) : res RecordBatch :=
  match r with Err e => Err e | _ => Panic end.

Definition drain_turn (buffer : Buffer) (base_source : option (list (res RecordBatch)))
    (merge_schema : Schema) : Produced :=
  match drain_log_only_inserts buffer merge_schema with
  | Ok (buffer, drained) =>
      let next := Buffered buffer base_source merge_schema DrainingLogInserts in
      match drained with
      | Some b => if 0 <? num_rows b then Chunk b next else Finished next
      | None => Finished next
      end
  | r => Failed (failure r)
  end.

Fixpoint scan_turn (buffer : Buffer) (src : list (res RecordBatch)) (merge_schema : Schema) : Produced :=
  match src with
  | [] => drain_turn buffer None merge_schema
  | Ok base :: src =>
      if num_rows base =? 0 then scan_turn buffer src merge_schema
      else
        match merge_one_base_batch_kernel buffer base merge_schema RecordKey with
        | Ok (buffer, Some b) =>
            if num_rows b =? 0 then scan_turn buffer src merge_schema
            else Chunk b (Buffered buffer (Some src) merge_schema BaseScanning)
        | Ok (buffer, None) => scan_turn buffer src merge_schema
        | r => Failed (failure r)
        end
  | Err _ :: _ => Failed (Err EReadFileSlice)
  | Panic :: _ => Failed Panic
  end.

Definition turn (src : MergeSource) : Produced :=
  match src with
  | Eager [] => Finished (Eager [])
  | Eager (Ok batch :: rest) => Chunk batch (Eager rest)
  | Eager (r :: rest) => Failed r
  | Buffered buffer base_source merge_schema BaseScanning =>
      match base_source with
      | Some src => scan_turn buffer src merge_schema
      | None => drain_turn buffer None merge_schema
      end
  | Buffered buffer base_source merge_schema DrainingLogInserts =>
      drain_turn buffer base_source merge_schema
  end.

Definition finish_chunk (s : FileGroupMergeStream) (batch : RecordBatch) : res RecordBatch :=
  match output_converter s with Some apply => apply batch | None => Ok batch end.

Definition snapshot (src : MergeSource) (stats : UpdateStats) : UpdateStats :=
  match src with Buffered buffer _ _ _ => update_processor buffer | Eager _ => stats end.

Definition next_chunk (s : FileGroupMergeStream) : option (res RecordBatch) * FileGroupMergeStream :=
  if done s then (None, s)
  else
    match turn (source s) with
    | Chunk batch next =>
        let out := finish_chunk s batch in
        (Some out, mkStream next (output_schema s) (output_converter s) (negb (is_Ok out)) (stream_stats s))
    | Finished next =>
        (None, mkStream next (output_schema s) (output_converter s) true (snapshot next (stream_stats s)))
    | Failed e =>
        (Some e, mkStream (source s) (output_schema s) (output_converter s) true (stream_stats s))
    end.

(** [while let Some(next) = self.next_chunk().await { chunks.push(next?); }] *)
Fixpoint collect_chunks (fuel : nat) (s : FileGroupMergeStream) (chunks : list RecordBatch)
    : res (option (list RecordBatch * FileGroupMergeStream)) :=
  match fuel with
  | O => Ok None
  | S fuel =>
      match next_chunk s with
      | (None, s) => Ok (Some (chunks, s))
      | (Some next, s) => let? batch := next in collect_chunks fuel s (chunks ++ [batch])
      end
  end.

(** The chunks a stream can still give, the end counted. *)
Definition chunks_left (s : FileGroupMergeStream) : nat :=
  match source s with
  | Eager src => S (length src)
  | Buffered buffer base_source _ _ =>
      S (match base_source with Some src => length src | None => O end +
         size (records buffer) +
         match log_drain_iter buffer with Some l => length l | None => O end)
  end.

Definition collect_into_one_batch (s : FileGroupMergeStream) : res (option RecordBatch) :=
  let? r := collect_chunks (chunks_left s) s [] in
  match r with
  | None => Ok None
  | Some (chunks, _) =>
      match chunks with
      | [] => Ok (Some (new_empty (output_schema s)))
      | [chunk] => Ok (Some chunk)
      | _ => map_err EReadFileSlice (res_map Some (concat_batches (output_schema s) chunks))
      end
  end.
End stream.

(** What [HashMap::into_values] is known to give: the values, in some order. *)
Class MapOrderLaws {AB : ArrowBatch} {MO : MapOrder} :=
  into_values_perm m : into_values m ≡ₚ (map_to_list m).*2.

Section drain.
Context {AB : ArrowBatch} {AR : ArrowRows} {AK : ArrowKernels} {AL : ArrowLaws} {CO : ColumnOps}
  {RC : RecordContext} {MO : MapOrder} {ML : MapOrderLaws}.
Context (target : Schema) (heap : list RecordBatch).

Lemma into_values_elem m r : r ∈ into_values m <-> exists k, m !! k = Some r.
Proof.
  rewrite into_values_perm, list_elem_of_fmap. split.
  - intros ([k x] & -> & H%elem_of_map_to_list). by exists k.
  - intros [k H]. exists (k, r). split; [done|]. by apply elem_of_map_to_list.
Qed.

Lemma into_values_length m : length (into_values m) = size m.
Proof. by rewrite into_values_perm, length_fmap, length_map_to_list. Qed.

Lemma into_values_empty : into_values ∅ = [].
Proof. apply nil_length_inv. by rewrite into_values_length, map_size_empty. Qed.

(** The log records still to be drained. *)
Definition log_pending (b : Buffer) : list BufferedRecord :=
  match log_drain_iter b with Some l => l | None => into_values (records b) end.

Lemma padded_record_full r : record_wf heap target r -> padded_record target r = Ok r.
Proof.
  intros Hr. unfold padded_record. destruct (get_record r) as [batch|] eqn:E; [|done].
  by rewrite (record_wf_full heap target r batch).
Qed.

Lemma drain_chunk_spec l : forall room u, (forall r, r ∈ l -> record_wf heap target r) ->
  exists rs u' rest, drain_chunk target room l u = Ok (rs, u', rest) /\
    let left := match rest with Some l => l | None => [] end in
    live_records l = rs ++ live_records left /\ drain_stats u l = drain_stats u' left /\
    (length rs <= room)%nat /\ (rest <> None -> length rs = room) /\
    (length rs + length left <= length l)%nat /\
    (forall r, r ∈ rs -> r ∈ l /\ is_delete r = false) /\ (forall r, r ∈ left -> r ∈ l).
Proof.
  induction l as [|r l IH]; intros room u Hl.
  { destruct room; [exists [], u, (Some [])|exists [], u, None];
      cbn; split_and!; try done; try (by intros r ?%not_elem_of_nil); lia. }
  destruct room as [|room].
  { exists [], u, (Some (r :: l)). cbv zeta. split_and!; try done; try (cbn; lia). by intros x Hx; apply not_elem_of_nil in Hx. }
  cbn [drain_chunk]. unfold live_records, drain_stats. rewrite filter_cons. cbn [foldl].
  assert (Hl' : forall x, x ∈ l -> record_wf heap target x) by (intros x Hx; apply Hl; by right).
  destruct (is_delete r) eqn:E.
  - rewrite decide_False by done. destruct (IH (S room) (process_update u None r true).2 Hl')
      as (rs & u' & rest & -> & H1 & H2 & H3 & H4 & H5 & H6 & H7).
    exists rs, u', rest. cbv zeta. split_and!; try done; try (cbn; lia).
    + intros x Hx. destruct (H6 x Hx). split; [by right|done].
    + intros x Hx. right. auto.
  - rewrite decide_True by done. rewrite padded_record_full by (apply Hl; by left). cbn [res_bind].
    destruct (IH room (process_update u None r false).2 Hl')
      as (rs & u' & rest & -> & H1 & H2 & H3 & H4 & H5 & H6 & H7). cbn [res_bind].
    exists (r :: rs), u', rest. cbv zeta. split_and!; try done.
    + cbn [app]. f_equal. exact H1.
    + cbn. lia.
    + intros Hr. cbn. by rewrite H4.
    + cbn. lia.
    + intros x [->|Hx]%elem_of_cons; [split; [by left|done]|]. destruct (H6 x Hx). split; [by right|done].
    + intros x Hx. right. auto.
Qed.

Lemma DEFAULT_BATCH_SIZE_pos : (0 < DEFAULT_BATCH_SIZE)%nat.
Proof. unfold DEFAULT_BATCH_SIZE. lia. Qed.

(** One call: the next chunk of live records, if there is one left. *)
Lemma drain_call b :
  unavailable_value b = None -> (forall r, r ∈ log_pending b -> record_wf heap target r) ->
  (log_drain_iter b <> None -> records b = ∅) ->
  exists b' out rs, drain_log_only_inserts b target = Ok (b', out) /\
    unavailable_value b' = None /\ (log_drain_iter b' <> None -> records b' = ∅) /\
    live_records (log_pending b) = rs ++ live_records (log_pending b') /\
    drain_stats (update_processor b) (log_pending b) = drain_stats (update_processor b') (log_pending b') /\
    (forall r, r ∈ log_pending b' -> r ∈ log_pending b) /\
    match out with
    | None => rs = [] /\ log_pending b' = []
    | Some batch => schema batch = target /\ batch_rows batch = records_rows rs /\
        batch_rows batch <> [] /\ (length (batch_rows batch) <= DEFAULT_BATCH_SIZE)%nat /\
        (length (log_pending b') < length (log_pending b))%nat
    end.
Proof.
  intros Hu Hwf He. unfold drain_log_only_inserts, start_drain.
  assert (Hstart : exists b0, match log_drain_iter b with
      | Some it => Some (it, b)
      | None => if bool_decide (records b = ∅) then None else Some (into_values (records b), set_records ∅ b)
      end = (if decide (log_drain_iter b = None /\ records b = ∅) then None else Some (log_pending b, b0)) /\
      unavailable_value b0 = None /\ update_processor b0 = update_processor b /\ records b0 = ∅).
  { unfold log_pending. destruct (log_drain_iter b) as [it|] eqn:Ei.
    - exists b. rewrite decide_False by naive_solver. split_and!; auto.
    - exists (set_records ∅ b). destruct (decide (records b = ∅)) as [E|E].
      + by rewrite bool_decide_true, decide_True by done.
      + rewrite bool_decide_false, decide_False by naive_solver. done. }
  destruct Hstart as (b0 & -> & U0 & P0 & R0). destruct (decide _) as [[Ei Er]|_].
  { exists b, None, []. assert (Hp : log_pending b = []).
    { unfold log_pending. by rewrite Ei, Er, into_values_empty. }
    rewrite Hp. split_and!; done. }
  destruct (drain_chunk_spec (log_pending b) DEFAULT_BATCH_SIZE (update_processor b0) Hwf)
    as (rs & u' & rest & -> & H1 & H2 & H3 & H4 & H5 & H6 & H7). cbn [res_bind].
  set (b1 := set_drain rest (set_stats u' b0)).
  assert (Hp : log_pending b1 = match rest with Some l => l | None => [] end).
  { unfold log_pending, b1. cbn [log_drain_iter set_drain records set_stats]. destruct rest; [done|].
    by rewrite R0, into_values_empty. }
  rewrite P0 in *. destruct rs as [|r0 rs0] eqn:Ers.
  - exists b1, None, []. rewrite Hp. split_and!; try done. destruct rest as [l|]; [|done].
    pose proof DEFAULT_BATCH_SIZE_pos. specialize (H4 ltac:(done)). cbn in H4. lia.
  - rewrite <- Ers in *. destruct (records_to_batch_rows heap target rs) as (batch & -> & Bs & Br).
    { intros x Hx. apply Hwf. by apply H6. }
    cbn [res_bind]. change (unavailable_value b1) with (unavailable_value b0). rewrite U0. cbn [res_bind].
    assert (Hlen : length (records_rows rs) = length rs).
    { assert (Hall : forall x, x ∈ rs -> exists row, record_rows x = [row]).
      { intros x Hx. destruct (H6 x Hx) as [Hx1 Hx2]. apply (record_rows_data heap target x); auto. }
      clear -Hall AL. unfold records_rows. induction rs as [|x rs' IH]; [done|]. rewrite fmap_cons. cbn [concat].
      destruct (Hall x) as [row ->]; [by left|]. cbn. f_equal. apply IH. intros y Hy. apply Hall. by right. }
    rewrite num_rows_length, Br, Hlen. destruct (Z.eqb_spec (Z.of_nat (length rs)) 0) as [E|E].
    { rewrite Ers in E. cbn in E. lia. }
    exists b1, (Some batch), rs. rewrite Hp. split_and!; try done.
    + rewrite Br. intros E'. rewrite E' in Hlen. rewrite <- Hlen in E. cbn in E. lia.
    + rewrite Br, Hlen. done.
    + assert (0 < length rs)%nat by (rewrite Ers; cbn; lia). lia.
Qed.

(** The stream while it drains. *)
Definition draining (b : Buffer) (src : option (list (res RecordBatch))) (s : Schema) (u : UpdateStats)
    : FileGroupMergeStream :=
  mkStream (Buffered b src target DrainingLogInserts) s None false u.

Lemma drained_chunks n : forall b src s u fuel chunks,
  (length (log_pending b) <= n)%nat -> (length (log_pending b) < fuel)%nat ->
  unavailable_value b = None -> (forall r, r ∈ log_pending b -> record_wf heap target r) ->
  (log_drain_iter b <> None -> records b = ∅) ->
  exists rest st, collect_chunks fuel (draining b src s u) chunks = Ok (Some (chunks ++ rest, st)) /\
    concat (batch_rows <$> rest) = records_rows (log_pending b) /\
    (forall c, c ∈ rest -> schema c = target /\ batch_rows c <> []) /\
    stream_stats st = drain_stats (update_processor b) (log_pending b).
Proof.
  induction n as [n IH] using lt_wf_ind. intros b src s u fuel chunks Hn Hf Hu Hwf He.
  destruct fuel as [|fuel]; [lia|]. cbn [collect_chunks]. unfold next_chunk, draining.
  cbn [done source turn]. unfold drain_turn.
  destruct (drain_call b Hu Hwf He) as (b' & out & rs & -> & Hu' & He' & Hlive & Hst & Hsub & Hout).
  destruct out as [batch|].
  - destruct Hout as (Bs & Br & Bn & Bl & Hlt).
    assert (Hlen : (0 <? num_rows batch) = true).
    { rewrite num_rows_length. apply Z.ltb_lt. destruct (batch_rows batch); [done|cbn; lia]. }
    rewrite Hlen. cbn [finish_chunk output_converter is_Ok negb output_schema stream_stats res_bind].
    destruct (IH (length (log_pending b')) ltac:(lia) b' src s u fuel (chunks ++ [batch]))
      as (rest & st & E & Hr & Hc & Hs); [lia|lia|done|by auto|done|].
    exists (batch :: rest), st. unfold draining in E. rewrite E. split_and!.
    + by rewrite <- app_assoc.
    + rewrite fmap_cons. cbn [concat]. rewrite Hr, Br.
      rewrite <- (live_records_rows (log_pending b)), Hlive, records_rows_app, live_records_rows. done.
    + intros c [->|Hx]%elem_of_cons; [done|auto].
    + by rewrite Hs, Hst.
  - destruct Hout as [-> Hp]. cbn [snapshot stream_stats output_schema output_converter source].
    eexists [], _. rewrite app_nil_r. split; [done|]. split_and!.
    + rewrite <- live_records_rows, Hlive, Hp. done.
    + intros c Hx. by apply not_elem_of_nil in Hx.
    + cbn. by rewrite Hst, Hp.
Qed.
End drain.

(** * The stream and the row-wise read *)
Section equivalence.
Context {AB : ArrowBatch} {AR : ArrowRows} {AK : ArrowKernels} {AL : ArrowLaws} {CO : ColumnOps}
  {RC : RecordContext} {MO : MapOrder} {ML : MapOrderLaws}.
Context (target : Schema) {RL : RecordContextLaws target RecordKey} (heap : list RecordBatch).

(** A plain buffer that has not begun to be drained. *)
Record fresh_buffer (b : Buffer) : Prop := {
  fresh_plain : plain_buffer target heap b;
  fresh_drain : log_drain_iter b = None;
  fresh_iter : log_record_iter b = None;
  fresh_next : next_record b = None
}.

Lemma fresh_merged b base :
  let s := merge_rows_spec target RecordKey (record_merge_mode b) (records b) (update_processor b) base in
  fresh_buffer b -> fresh_buffer (set_stats (m_stats s) (set_records (m_records s) b)).
Proof.
  cbv zeta. intros []. split; try done. apply (plain_buffer_fields target heap b); try done.
  intros k r. cbn. apply merge_rows_records.
Qed.

(** What a merge leaves: the rows of the base, then the log records left. *)
Definition merged_rows (b : Buffer) (base : list Row) : list Row :=
  let s := merge_rows_spec target RecordKey (record_merge_mode b) (records b) (update_processor b) base in
  m_rows s ++ records_rows (into_values (m_records s)).

Definition merged_stats (b : Buffer) (base : list Row) : UpdateStats :=
  let s := merge_rows_spec target RecordKey (record_merge_mode b) (records b) (update_processor b) base in
  drain_stats (m_stats s) (into_values (m_records s)).

Lemma merged_rows_app b x base :
  let s := merge_rows_spec target RecordKey (record_merge_mode b) (records b) (update_processor b) x in
  let b' := set_stats (m_stats s) (set_records (m_records s) b) in
  merged_rows b (x ++ base) = m_rows s ++ merged_rows b' base /\
  merged_stats b (x ++ base) = merged_stats b' base.
Proof.
  cbv zeta. unfold merged_rows, merged_stats. rewrite merge_rows_app. cbn [m_rows m_records m_stats].
  by rewrite app_assoc.
Qed.

Definition scanning (b : Buffer) (src : list RecordBatch) (s : Schema) (u : UpdateStats)
    : FileGroupMergeStream :=
  mkStream (Buffered b (Some (Ok <$> src)) target BaseScanning) s None false u.

Lemma merge_rows_size mode (m : gmap string BufferedRecord) u base :
  (size (m_records (merge_rows_spec target RecordKey mode m u base)) <= size m)%nat.
Proof.
  apply map_subseteq_size. apply map_subseteq_spec. intros k x. apply merge_rows_records.
Qed.

(** The buffer after some base rows. *)
Definition after_rows_of (b : Buffer) (base : list Row) : Buffer :=
  let s := merge_rows_spec target RecordKey (record_merge_mode b) (records b) (update_processor b) base in
  set_stats (m_stats s) (set_records (m_records s) b).

Lemma after_rows_app b x y : after_rows_of (after_rows_of b x) y = after_rows_of b (x ++ y).
Proof. unfold after_rows_of. rewrite merge_rows_app. done. Qed.

Lemma after_rows_nil b : after_rows_of b [] = b.
Proof. unfold after_rows_of. apply set_stats_records_same. Qed.

Definition rows_in (src : list RecordBatch) : list Row := concat (batch_rows <$> src).

Lemma rows_in_cons x src : rows_in (x :: src) = batch_rows x ++ rows_in src.
Proof. done. Qed.

(** One turn of scanning: a chunk of merged rows, or the drain begins. *)
Lemma scan_turn_spec src : forall b, fresh_buffer b -> (forall x, x ∈ src -> schema x = target) ->
  (exists pre src' batch, src = pre ++ src' /\ pre <> [] /\
     scan_turn b (Ok <$> src) target
     = Chunk batch (Buffered (after_rows_of b (rows_in pre)) (Some (Ok <$> src')) target BaseScanning) /\
     schema batch = target /\ batch_rows batch <> [] /\
     batch_rows batch ≡ₚ
       m_rows (merge_rows_spec target RecordKey (record_merge_mode b) (records b) (update_processor b) (rows_in pre))) \/
  (scan_turn b (Ok <$> src) target = drain_turn (after_rows_of b (rows_in src)) None target /\
   m_rows (merge_rows_spec target RecordKey (record_merge_mode b) (records b) (update_processor b) (rows_in src)) = []).
Proof.
  induction src as [|x src IH]; intros b Hb Hs.
  { right. split; [|done]. cbn. change (rows_in []) with (@nil Row). by rewrite after_rows_nil. }
  assert (Hsrc : forall y, y ∈ src -> schema y = target) by (intros y Hy; apply Hs; by right).
  rewrite fmap_cons. cbn [scan_turn]. rewrite num_rows_length.
  destruct (Z.eqb_spec (Z.of_nat (length (batch_rows x))) 0) as [E|E].
  { assert (Ex : batch_rows x = []) by (destruct (batch_rows x); [done|cbn in E; lia]).
    destruct (IH b Hb Hsrc) as [(pre & src' & batch & -> & Hp & Ht & ? & ? & Hr)|[Ht Hr]];
      [left|right]; [exists (x :: pre), src', batch|]; rewrite ?rows_in_cons, Ex; done. }
  destruct (kernel_spec target RecordKey heap b (fresh_plain _ Hb) x) as (out & -> & Os & Or).
  { apply Hs. by left. }
  { intros Ex. by rewrite Ex in E. }
  change (set_stats _ (set_records _ b)) with (after_rows_of b (batch_rows x)).
  rewrite num_rows_length. destruct (Z.eqb_spec (Z.of_nat (length (batch_rows out))) 0) as [E'|E'].
  - assert (Eo : batch_rows out = []) by (destruct (batch_rows out); [done|cbn in E'; lia]).
    rewrite Eo in Or. apply Permutation_nil_l in Or as Er.
    destruct (IH (after_rows_of b (batch_rows x))) as [(pre & src' & batch & -> & Hp & Ht & ? & ? & Hr)|[Ht Hr]];
      [by apply fresh_merged|done|left|right].
    + exists (x :: pre), src', batch. rewrite Ht, after_rows_app, rows_in_cons. split_and!; try done.
      rewrite merge_rows_app. cbn [m_rows]. by rewrite <- Er.
    + rewrite Ht, after_rows_app, rows_in_cons. split; [done|].
      rewrite merge_rows_app. cbn [m_rows]. by rewrite <- Er.
  - left. exists [x], src, out. change (rows_in [x]) with (batch_rows x ++ []). rewrite app_nil_r.
    split_and!; try done. intros Eo. by rewrite Eo in E'.
Qed.

Lemma fresh_after b base : fresh_buffer b -> fresh_buffer (after_rows_of b base).
Proof. apply fresh_merged. Qed.

Lemma after_merged b x base :
  merged_rows b (x ++ base)
  = m_rows (merge_rows_spec target RecordKey (record_merge_mode b) (records b) (update_processor b) x) ++
    merged_rows (after_rows_of b x) base /\
  merged_stats b (x ++ base) = merged_stats (after_rows_of b x) base.
Proof. apply merged_rows_app. Qed.

Lemma scanned_chunks n : forall b src s u fuel chunks,
  (length src <= n)%nat -> (length src + size (records b) < fuel)%nat ->
  fresh_buffer b -> (forall x, x ∈ src -> schema x = target) ->
  exists rest st, collect_chunks fuel (scanning b src s u) chunks = Ok (Some (chunks ++ rest, st)) /\
    concat (batch_rows <$> rest) ≡ₚ merged_rows b (rows_in src) /\
    (forall c, c ∈ rest -> schema c = target /\ batch_rows c <> []) /\
    stream_stats st = merged_stats b (rows_in src).
Proof.
  induction n as [n IH] using lt_wf_ind. intros b src s u fuel chunks Hn Hf Hb Hs.
  destruct fuel as [|fuel]; [lia|].
  destruct (scan_turn_spec src b Hb Hs)
    as [(pre & src' & batch & -> & Hp & Ht & Bs & Bn & Hr)|[Ht Hr]].
  - cbn [collect_chunks]. unfold next_chunk, scanning. cbn [done source turn]. rewrite Ht.
    cbn [finish_chunk output_converter output_schema stream_stats is_Ok negb res_bind].
    assert (0 < length pre)%nat by (destruct pre; [done|cbn; lia]). rewrite length_app in *.
    destruct (IH (length src') ltac:(lia) (after_rows_of b (rows_in pre)) src' s u fuel (chunks ++ [batch]))
      as (rest & st & E & Hrest & Hc & Hst); [lia| |by apply fresh_after| |].
    { pose proof (merge_rows_size (record_merge_mode b) (records b) (update_processor b) (rows_in pre)).
      cbn. lia. }
    { intros y Hy. apply Hs, elem_of_app. by right. }
    exists (batch :: rest), st. unfold scanning in E. rewrite E.
    assert (rows_in (pre ++ src') = rows_in pre ++ rows_in src') as ->
      by (unfold rows_in; by rewrite fmap_app, concat_app).
    destruct (after_merged b (rows_in pre) (rows_in src')) as [-> ->]. split_and!.
    + by rewrite <- app_assoc.
    + rewrite fmap_cons. cbn [concat]. by rewrite Hrest, Hr.
    + intros c [->|Hx]%elem_of_cons; [done|auto].
    + done.
  - pose proof (fresh_after b (rows_in src) Hb) as Hb'.
    set (b' := after_rows_of b (rows_in src)) in *.
    assert (Hpend : log_pending b' = into_values (records b')) by (unfold log_pending; by rewrite (fresh_drain _ Hb')).
    assert (Hsize : (length (log_pending b') <= size (records b))%nat).
    { rewrite Hpend, into_values_length. apply merge_rows_size. }
    assert (E : collect_chunks (Datatypes.S fuel) (scanning b src s u) chunks
      = collect_chunks (Datatypes.S fuel) (draining target b' None s u) chunks).
    { cbn [collect_chunks]. unfold next_chunk, scanning, draining. cbn [done source turn]. rewrite Ht.
      unfold drain_turn. destruct (drain_log_only_inserts b' target) as [[b2 [x|]]|e|]; try done.
      by destruct (0 <? num_rows x). }
    destruct (drained_chunks target heap _ b' None s u (Datatypes.S fuel) chunks (le_n _))
      as (rest & st & E2 & Hrest & Hc & Hst); [lia|by apply Hb'| |by rewrite (fresh_drain _ Hb')|].
    { intros r Hx. rewrite Hpend in Hx. apply into_values_elem in Hx as [k Hk].
      exact (proj1 (plain_records _ _ _ (fresh_plain _ Hb') k r Hk)). }
    exists rest, st. rewrite E, E2. split_and!; try done.
    + rewrite Hrest, Hpend. unfold merged_rows. rewrite Hr. done.
    + rewrite Hst, Hpend. done.
Qed.

(** * The row-wise read of the same base file *)

(** The batches of the base file are what [heap] holds at the addresses they will
    be given. *)
Definition base_interned (addr : nat) (src : list RecordBatch) : Prop :=
  forall j x, src !! j = Some x -> heap !! (addr + j)%nat = Some x.

Lemma rows_from_rows a : rows_of (rows_from a 0) = batch_rows (pointee a).
Proof.
  unfold rows_of, rows_from. rewrite Nat.sub_0_r.
  assert (H : forall l pre, batch_rows (pointee a) = pre ++ l ->
    concat (row_of <$> ((fun i => (a, i)) <$> seq (length pre) (length l))) = l); [|by apply (H _ [])].
  induction l as [|r l IH]; intros pre E; [done|]. cbn [length seq]. rewrite !fmap_cons. cbn [concat].
  assert (row_of (a, length pre) = [r]) as ->.
  { unfold row_of. cbn [fst snd]. rewrite E, lookup_app_r, Nat.sub_diag by done. done. }
  cbn [app]. f_equal. specialize (IH (pre ++ [r])). rewrite length_app in IH. cbn [length] in IH.
  rewrite Nat.add_1_r in IH. apply IH. by rewrite <- app_assoc.
Qed.

Lemma source_rows_rows src : forall addr, rows_of (source_rows addr src) = rows_in src.
Proof.
  induction src as [|x src IH]; intros addr; [done|]. cbn [source_rows]. unfold rows_of in *.
  rewrite fmap_app, concat_app, IH. pose proof (rows_from_rows (mkArc addr x)) as H. unfold rows_of in H.
  by rewrite H.
Qed.

Lemma source_rows_valid src : forall addr, base_interned addr src -> (forall x, x ∈ src -> schema x = target) ->
  forall row, row ∈ source_rows addr src -> valid_row target heap row.
Proof.
  induction src as [|x src IH]; intros addr Hi Hs row; cbn [source_rows]; [by intros ?%not_elem_of_nil|].
  intros [Hr|Hr]%elem_of_app.
  - unfold rows_from in Hr. apply list_elem_of_fmap in Hr as (i & -> & Hr%elem_of_seq).
    split_and!; cbn [fst snd as_ptr pointee] in *.
    + specialize (Hi 0%nat x eq_refl). by rewrite Nat.add_0_r in Hi.
    + apply Hs. by left.
    + apply lookup_lt_is_Some. lia.
  - apply (IH (S addr)); [|intros y Hy; apply Hs; by right|done].
    intros j y Hj. specialize (Hi (S j) y Hj). by rewrite Nat.add_succ_r in Hi.
Qed.

Lemma row_wise_rows b s0 src :
  fresh_buffer b -> reader_schema b = Some target -> (forall x, x ∈ src -> schema x = target) ->
  base_interned (next_addr b) src ->
  exists batch, merge_and_collect_with_stats RecordKey (set_base_file_source (mkSource s0 (Ok <$> src)) b)
      = Ok (Some (batch, merged_stats b (rows_in src))) /\
    schema batch = target /\ batch_rows batch = merged_rows b (rows_in src).
Proof.
  intros Hb Hschema Hs Hi. set (b0 := set_base_file_source (mkSource s0 (Ok <$> src)) b).
  assert (Hp0 : base_pending b0 (source_rows (next_addr b) src)) by by apply (pending_some b0 s0 src).
  assert (H0 : row_state target heap b0 (source_rows (next_addr b) src)).
  { split; try by apply Hb.
    - by apply (plain_buffer_fields target heap b); [..|apply Hb].
    - done.
    - intros row. by apply source_rows_valid. }
  destruct (collect_rows target RecordKey heap _ b0 H0) as (b1 & outs & H1 & R1 & U1 & M1 & W1 & L1 & C1).
  rewrite source_rows_rows in *. change (record_merge_mode b0) with (record_merge_mode b) in *.
  change (records b0) with (records b) in *. change (update_processor b0) with (update_processor b) in *.
  set (s := merge_rows_spec target RecordKey (record_merge_mode b) (records b) (update_processor b) (rows_in src)) in *.
  assert (Eb : BaseMerge.output_schema b0 = Ok target) by (unfold BaseMerge.output_schema, b0; cbn; by rewrite Hschema).
  unfold merge_and_collect_with_stats. rewrite Eb. cbn [res_bind].
  assert (Hsize : (size (m_records s) <= size (records b))%nat) by apply merge_rows_size.
  rewrite <- (pending_length b0 _ Hp0).
  unfold records_left. change (log_record_iter b0) with (log_record_iter b). rewrite (fresh_iter _ Hb).
  change (records b0) with (records b).
  replace (S (length (source_rows (next_addr b) src) + (size (records b) + 0)))%nat
    with (length outs + (S (length (source_rows (next_addr b) src) - length outs + size (records b))))%nat by lia.
  rewrite C1.
  destruct (collect_drain RecordKey _ (into_values (m_records s)) b1
    (S (length (source_rows (next_addr b) src) - length outs + size (records b))) ([] ++ outs) (le_n _))
    as (b2 & -> & U2).
  { rewrite into_values_length. lia. }
  { split; [apply H1|apply H1|]. right. split; [apply H1|by rewrite R1]. }
  cbn [res_bind].
  destruct (records_to_batch_rows heap target (([] ++ outs) ++ live_records (into_values (m_records s))))
    as (batch & -> & Bs & Br).
  { intros r [Hr|Hr]%elem_of_app; [by apply W1|]. apply list_elem_of_filter in Hr as [_ Hr].
    rewrite <- R1 in Hr. apply into_values_elem in Hr as [k Hk].
    exact (proj1 (plain_records _ _ _ (rs_plain _ _ _ _ H1) k r Hk)). }
  cbn [res_bind]. exists batch. unfold merged_stats, merged_rows. fold s. rewrite U2, U1. split_and!; [done..|].
  rewrite Br, records_rows_app, live_records_rows, M1. done.
Qed.
End equivalence.

(** * Properties *)
Section properties.
Context {AB : ArrowBatch} {AR : ArrowRows} {AK : ArrowKernels} {AL : ArrowLaws} {CO : ColumnOps}
  {RC : RecordContext} {MO : MapOrder} {ML : MapOrderLaws}.
Context (target : Schema) {RL : RecordContextLaws target RecordKey}.

(** C30: the streaming read -- a vectorized merge of each base batch, then the log
    records left in chunks -- terminates, and gives the rows of the row-wise read up to
    their order within the output, with the same counts of inserts, updates and
    deletes; no chunk it gives is empty. That is for a buffer not begun to be read, of
    the event time or commit time mode and with neither partial updates nor a sentinel
    to fill, whose records and base batches are of the whole schema of the reader: a
    partial record without a base row is padded by the stream and refused by the
    row-wise read. *)
Theorem stream_agrees_with_row_merge heap b s0 src out_schema :
  fresh_buffer target heap b -> reader_schema b = Some target ->
  (forall x, x ∈ src -> schema x = target) -> base_interned heap (next_addr b) src ->
  exists chunks st batch stats,
    collect_chunks (chunks_left (new_buffered b (Ok <$> src) target out_schema None))
      (new_buffered b (Ok <$> src) target out_schema None) [] = Ok (Some (chunks, st)) /\
    merge_and_collect_with_stats RecordKey (set_base_file_source (mkSource s0 (Ok <$> src)) b)
      = Ok (Some (batch, stats)) /\
    concat (batch_rows <$> chunks) ≡ₚ batch_rows batch /\ stream_stats st = stats /\
    (forall c, c ∈ chunks -> schema c = target /\ batch_rows c <> []).
Proof.
  intros Hb Hr Hs Hi.
  destruct (row_wise_rows target heap b s0 src Hb Hr Hs Hi) as (batch & Eb & _ & Rb).
  destruct (scanned_chunks target heap (length src) b src out_schema (mkUpdateStats 0 0 0)
    (chunks_left (new_buffered b (Ok <$> src) target out_schema None)) [] (le_n _))
    as (chunks & st & Ec & Rc & Hc & Sc).
  { cbn. rewrite length_fmap, (fresh_drain _ _ _ Hb). lia. }
  { done. } { done. }
  exists chunks, st, batch, (merged_stats target b (rows_in src)). split_and!; try done. by rewrite Rb.
Qed.
End properties.

(** * Instances *)
Module SampleContext.
Import ArrowKernels.Sample.

(** The ordering values of the sample rows: integers. *)
Definition row_value (r : row) : option OrderingValue :=
  match r.1.2 with Some (OLong v) => Some (OLong v) | _ => None end.

(** A row of value 0 is a delete. *)
#[export] Instance sample_context : RecordContext := {|
  get_record_keys b := Ok ((fun r : row => r.1.1) <$> data b);
  get_ordering_values b := Ok (Some (row_value <$> data b));
  ordering_accessor b := Ok (fun i => r ← data b !! i; row_value r);
  is_delete_record b i := match data b !! i with Some r => r.2 =? 0 | None => false end;
  delete_batch_to_keys_with_ordering b := Ok ((fun r : row => (r.1.1, row_value r)) <$> data b);
  base_row_position_array b := Ok (imap (fun i _ => Z.of_nat i) (data b))
|}.

#[export] Instance sample_order : MapOrder := fun m => (map_to_list m).*2.

#[export] Instance sample_order_laws : MapOrderLaws.
Proof. intros m. reflexivity. Defined.

#[export] Instance sample_context_laws s : RecordContextLaws s RecordKey.
Proof.
  refine {| row_key := (fun r : Row => r.1.1 : string); row_lookup := (fun r : Row => r.1.1 : string);
    row_ordering := row_value : Row -> option OrderingValue |}.
  - done.
  - done.
  - intros b _. eexists. split; [done|]. intros i r Hr. exact (f_equal (fun o => o ≫= row_value) Hr).
  - intros b _. eexists. split; [done|]. intros i r Hr.
    refine (eq_trans (f_equal (fun o => o ≫= id) (list_lookup_fmap row_value (data b) i)) _).
    exact (f_equal (fun o => (row_value <$> o) ≫= id) Hr).
  - intros r v. unfold row_value. by destruct r.1.2 as [[]|]; intros [= <-].
Defined.

Definition names : Schema := ["k"; "ts"; "v"].
Definition rows_batch (l : list row) : RecordBatch := mk names l.

(** A buffer with an update, a late update, a delete and an insert. *)
Definition log_batch : RecordBatch :=
  rows_batch [("a", Some (OLong 5), 51); ("b", Some (OLong 1), 21); ("d", Some (OLong 9), 91)].

Definition sample_buffer (m : gmap string BufferedRecord) (addr : nat) : Buffer :=
  mkBuffer m (Some names) "EVENT_TIME_ORDERING" EventTimeRecordMerger (mkUpdateStats 0 0 0)
    None None 0 0 None None None 0 None false addr.

Definition buffered : gmap string BufferedRecord := list_to_map [
  ("a", new_batch_ref "a" (mkArc 0 log_batch) 0 (Some (OLong 5)));
  ("b", new_batch_ref "b" (mkArc 0 log_batch) 1 (Some (OLong 1)));
  ("c", new_delete "c" (Some (OLong 8)));
  ("d", new_batch_ref "d" (mkArc 0 log_batch) 2 (Some (OLong 9)))].

Definition base_batches : list RecordBatch :=
  [rows_batch [("a", Some (OLong 2), 20); ("b", Some (OLong 4), 40)]; rows_batch [];
   rows_batch [("c", Some (OLong 8), 80); ("e", None, 1)]].

Lemma sample_fresh : fresh_buffer names (log_batch :: base_batches) (sample_buffer buffered 1).
Proof.
  split; [|reflexivity..]. split; [reflexivity..| |].
  - by exists None.
  - intros k r Hr. change (buffered !! k = Some r) in Hr. unfold buffered in Hr.
    apply elem_of_list_to_map_2 in Hr.
    repeat (apply elem_of_cons in Hr as [[= -> ->]|Hr]); [..|by apply not_elem_of_nil in Hr]; split;
      first [exact I|split_and!; [reflexivity..|cbn; lia]|by intros v [= <-]].
Qed.

Lemma stream_agrees_with_row_merge_witness :
  exists chunks st batch,
    collect_chunks (chunks_left (new_buffered (sample_buffer buffered 1) (Ok <$> base_batches) names names None))
      (new_buffered (sample_buffer buffered 1) (Ok <$> base_batches) names names None) [] = Ok (Some (chunks, st)) /\
    concat (batch_rows <$> chunks) ≡ₚ batch_rows batch /\
    batch_rows batch = [("a", Some (OLong 5), 51); ("b", Some (OLong 4), 40); ("e", None, 1); ("d", Some (OLong 9), 91)] /\
    stream_stats st = mkUpdateStats 1 2 1.
Proof.
  destruct (stream_agrees_with_row_merge names (log_batch :: base_batches) (sample_buffer buffered 1) names
    base_batches names sample_fresh) as (chunks & st & batch & stats & E1 & E2 & Hp & Hs & _).
  - reflexivity.
  - intros x Hx. in_cases Hx; reflexivity.
  - intros j x Hx. exact Hx.
  - exists chunks, st, batch. split; [exact E1|]. split; [exact Hp|].
    assert (E3 : merge_and_collect_with_stats RecordKey
      (set_base_file_source (mkSource names (Ok <$> base_batches)) (sample_buffer buffered 1))
      = Ok (Some (rows_batch [("a", Some (OLong 5), 51); ("b", Some (OLong 4), 40); ("e", None, 1); ("d", Some (OLong 9), 91)],
          mkUpdateStats 1 2 1))) by vm_eq.
    rewrite E3 in E2. injection E2 as <- <-. split; [reflexivity|exact Hs].
Defined.
End SampleContext.
