(* ===== verification/LogMerge.v ===== *)
(** Log blocks into the record buffer, and what a file group's read amounts to.

    The buffer's operations are those of [RecordBuffer]; here their effect is
    stated per record key, and composed with the merge of the base file
    ([MergeStream]). *)
From Stdlib Require Import ZArith.
From stdpp Require Import base gmap sets list strings sorting numbers pretty.
From S2P Require Import Prelude RustStr StorageReader RecordBatches LogFormat OrderingValues RecordMerger ArrowKernels RecordBuffer BaseMerge MergeStream.
Local Open Scope res_scope.
Local Open Scope Z_scope.

Section ingest.
Context {AB : ArrowBatch} {AR : ArrowRows} {AK : ArrowKernels} {AL : ArrowLaws} {CO : ColumnOps}
  {RC : RecordContext} {MO : MapOrder}.

(** The dispatch of [merge_blocks] of log_record_reader.rs, on a decoded block. *)
Definition process_block (b : Buffer) (block : BlockType * LogBlockContent) : res Buffer :=
  match block.1 with
  | AvroData | ParquetData | HfileData => res_map fst (process_data_block b block.2)
  | Delete => res_map fst (process_delete_block b block.2)
  | _ => Ok b
  end.

(** * The operations of blocks, key by key *)
Definition Entry : Type := string * LogOp.

Definition apply_entry (b : Buffer) (e : Entry) : res Buffer :=
  match e.2 with
  | PutOp r => process_next_data_record r e.1 b
  | DelOp d => process_next_deleted_record d e.1 b
  end.

(** The operations of one key, in order. *)
Definition ops_at (key : string) (es : list Entry) : list LogOp := (filter (fun e => e.1 = key) es).*2.

Lemma ops_at_app key es es' : ops_at key (es ++ es') = ops_at key es ++ ops_at key es'.
Proof. unfold ops_at. by rewrite filter_app, fmap_app. Qed.

Definition data_entries (addr : nat) (batch : RecordBatch) : res (list Entry) :=
  let? recs := batch_to_buffered_records (mkArc addr batch) in
  Ok ((fun kr => (kr.1, PutOp kr.2)) <$> recs).

Definition delete_entries (batch : RecordBatch) : res (list Entry) :=
  let? es := delete_batch_to_keys_with_ordering batch in
  Ok ((fun kv => (kv.1, DelOp (mkDelete kv.1 kv.2))) <$> es).

Lemma res_fold_map {A B C} (f : C -> B -> res C) (g : A -> B) l : forall c,
  res_fold f (g <$> l) c = res_fold (fun c a => f c (g a)) l c.
Proof.
  induction l as [|a l IH]; intros c; [done|]. rewrite fmap_cons. cbn [res_fold].
  destruct (f c (g a)); cbn [res_bind]; [apply IH|done|done].
Qed.

Lemma res_fold_ext {A C} (f g : C -> A -> res C) l : (forall c a, f c a = g c a) ->
  forall c, res_fold f l c = res_fold g l c.
Proof.
  intros H. induction l as [|a l IH]; intros c; [done|]. cbn [res_fold]. rewrite H.
  destruct (g c a); cbn [res_bind]; [apply IH|done|done].
Qed.

Lemma process_data_batch_entries b batch :
  process_data_batch b batch
  = res_bind (data_entries (next_addr b) batch) (fun es => res_fold apply_entry es (arc_new batch b).2).
Proof.
  unfold process_data_batch, data_entries. cbn [arc_new snd].
  destruct (batch_to_buffered_records _) as [recs| |]; cbn [res_bind]; try done.
  rewrite res_fold_map. apply res_fold_ext. by intros c [k r].
Qed.

Lemma process_delete_batch_entries b batch :
  process_delete_batch b batch
  = res_bind (delete_entries batch.1) (fun es => res_fold apply_entry es b).
Proof.
  unfold process_delete_batch, delete_entries.
  destruct (delete_batch_to_keys_with_ordering _) as [es| |]; cbn [res_bind]; try done.
  rewrite res_fold_map. apply res_fold_ext. by intros c [k v].
Qed.

Section plain.
Context (target : ArrowKernels.Schema) (heap : list RecordBatch).

(** A table without partial updates, read with the target schema. *)
Record ingesting (b : Buffer) : Prop := {
  ing_plain : plain_buffer target heap b;
  ing_schema : reader_schema b = Some target
}.

(** An operation whose record is of the target schema, with a value the order is
    defined on. *)
Definition entry_wf (e : Entry) : Prop :=
  record_wf heap target (op_record e.2) /\ value_supported (op_record e.2).

Lemma create_with_total custom mode M :
  create_with custom mode = Ok M -> pick_winner_decides mode = true ->
  forall slot (o : LogOp), exists slot', apply_op (M := M) slot o = Ok slot'.
Proof.
  intros Hc Hd slot o. destruct (create_with_decides _ _ _ Hc Hd) as [[_ ->]|[_ ->]].
  - destruct o; by eexists.
  - destruct (event_time_total [o] slot) as [s Hs]. unfold replay in Hs. cbn [res_fold] in Hs.
    apply res_bind_Ok in Hs as (s' & -> & _). by eexists.
Qed.

(** What an operation leaves comes from it or was there. *)
Lemma apply_op_from custom mode M slot (o : LogOp) r :
  create_with custom mode = Ok M -> pick_winner_decides mode = true ->
  apply_op (M := M) slot o = Ok (Some r) -> r = op_record o \/ slot = Some r.
Proof.
  intros Hc Hd. destruct (create_with_decides _ _ _ Hc Hd) as [[_ ->]|[_ ->]], o as [p|d];
    cbn [apply_op delta_merge delta_merge_delete EventTimeRecordMerger CommitTimeRecordMerger res_bind].
  - intros [= <-]. by left.
  - intros [= <-]. by left.
  - unfold event_time_delta_merge. destruct slot as [x|]; [|intros [= <-]; by left].
    destruct (should_keep_newer_record x p); intros [= <-]; [by left|by right].
  - unfold event_time_delta_merge_delete. destruct slot as [x|]; [|intros [= <-]; by left].
    destruct (is_commit_time_ordering_delete x); [intros [= <-]; by right|]. cbv zeta.
    destruct (negb _ && _); intros [= <-]; [by right|by left].
Qed.

Lemma merge_in_place_op b key (o : LogOp) slot' :
  apply_op (M := buffered_record_merger b) (records b !! key) o = Ok slot' ->
  exists m, match o with
    | PutOp r => merge_in_place (records b) key (delta_merge (BufferedRecordMerger := buffered_record_merger b) r)
    | DelOp d => merge_in_place (records b) key (fun existing =>
        let? surviving := delta_merge_delete (BufferedRecordMerger := buffered_record_merger b) d existing in
        Ok (from_delete_record <$> surviving))
    end = Ok m /\ m !! key = slot' /\ (forall k, k <> key -> m !! k = records b !! k).
Proof.
  unfold merge_in_place. destruct o as [r|d]; cbn [apply_op]; intros E;
    apply res_bind_Ok in E as (new & -> & E); injection E as <-; cbn [res_bind].
  - destruct new as [x|]; eexists; (split; [done|]); split; [apply lookup_insert_eq|..]; try done.
    intros k Hk. by apply lookup_insert_ne.
  - destruct new as [x|]; eexists; (split; [done|]); split; [apply lookup_insert_eq|..]; try done.
    intros k Hk. by apply lookup_insert_ne.
Qed.

(** The buffer but for the map, the counts and the addresses given out. *)
Record same_config (b b' : Buffer) : Prop := {
  same_merger : buffered_record_merger b' = buffered_record_merger b;
  same_mode : record_merge_mode b' = record_merge_mode b;
  same_schema : reader_schema b' = reader_schema b;
  same_stats : update_processor b' = update_processor b;
  same_drain : log_drain_iter b' = log_drain_iter b;
  same_iter : log_record_iter b' = log_record_iter b;
  same_next : next_record b' = next_record b
}.

Lemma same_config_refl b : same_config b b.
Proof. done. Qed.

Lemma same_config_trans b c d : same_config b c -> same_config c d -> same_config b d.
Proof. intros [] []. split; congruence. Qed.

Lemma apply_entry_spec b e : ingesting b -> entry_wf e ->
  exists b', apply_entry b e = Ok b' /\ ingesting b' /\ same_config b b' /\ next_addr b' = next_addr b /\
    forall k, replay (M := buffered_record_merger b) (ops_at k [e]) (records b !! k) = Ok (records b' !! k).
Proof.
  intros [Hp Hs] [We Se]. destruct e as [key o]. cbn [snd fst] in *.
  destruct (plain_merger _ _ _ Hp) as [custom Hc]. pose proof (plain_mode _ _ _ Hp) as Hm.
  destruct (create_with_total _ _ _ Hc Hm (records b !! key) o) as [slot' Ho].
  destruct (merge_in_place_op b key o slot' Ho) as (m & Em & Hkey & Hother).
  assert (Hex : exists total peak, apply_entry b (key, o) = Ok (set_counts total peak (set_records m b))).
  { unfold apply_entry. destruct o as [r|d]; cbn [snd fst].
    - unfold process_next_data_record. rewrite Hs, (plain_defaults _ _ _ Hp), (plain_unavailable _ _ _ Hp).
      assert ((match get_record r with Some ib => schema_is_partial (schema ib) target | None => false end) = false) as E.
      { destruct (get_record r) as [ib|] eqn:Er; [|done]. by rewrite (record_wf_full heap target r ib). }
      destruct (get_record r) as [ib|]; rewrite ?E; cbn [orb is_Some_b]; rewrite Em; cbn [res_bind]; by do 2 eexists.
    - unfold process_next_deleted_record. rewrite Em. cbn [res_bind]. by do 2 eexists. }
  destruct Hex as (total & peak & Ee). eexists. split; [exact Ee|]. split_and!.
  - split; [|done]. destruct Hp as [P1 P2 P3 P4 P5]. split; try done. cbn. intros k r Hr.
    destruct (decide (k = key)) as [->|Hk].
    + rewrite <- Hkey, Hr in Ho. destruct (apply_op_from _ _ _ _ _ _ Hc Hm Ho) as [->|Hslot]; [done|].
      by apply (P5 key).
    + rewrite Hother in Hr by done. by apply (P5 k).
  - done.
  - done.
  - intros k. change (records (set_counts total peak (set_records m b))) with m.
    unfold ops_at, replay. rewrite filter_cons, filter_nil. cbn [fst].
    destruct (decide (key = k)) as [->|Hk]; rewrite ?fmap_cons, fmap_nil; cbn [res_fold snd].
    + by rewrite Ho, Hkey.
    + by rewrite Hother.
Qed.

Lemma apply_entries_spec es : forall b, ingesting b -> (forall e, e ∈ es -> entry_wf e) ->
  exists b', res_fold apply_entry es b = Ok b' /\ ingesting b' /\ same_config b b' /\ next_addr b' = next_addr b /\
    forall k, replay (M := buffered_record_merger b) (ops_at k es) (records b !! k) = Ok (records b' !! k).
Proof.
  induction es as [|e es IH]; intros b Hb He; cbn [res_fold].
  { exists b. split_and!; done. }
  destruct (apply_entry_spec b e Hb) as (b1 & -> & H1 & C1 & A1 & R1); [apply He; by left|]. cbn [res_bind].
  destruct (IH b1 H1) as (b2 & -> & H2 & C2 & A2 & R2); [intros x Hx; apply He; by right|].
  exists b2. split_and!; [done|done|by apply (same_config_trans b b1)|congruence|].
  intros k. change (e :: es) with ([e] ++ es). rewrite ops_at_app, replay_app, R1. cbn [res_bind].
  rewrite <- (same_merger _ _ C1). apply R2.
Qed.

(** * The operations of decoded blocks *)
Context {RL : RecordContextLaws target RecordKey}.

Definition put_entry (addr : nat) (batch : RecordBatch) (i : nat) (r : Row) : Entry :=
  (row_key r, PutOp (if is_delete_record batch i then new_delete (row_key r) (row_ordering r)
                     else new_batch_ref (row_key r) (mkArc addr batch) i (row_ordering r))).

Definition put_entries (addr : nat) (batch : RecordBatch) : list Entry :=
  imap (put_entry addr batch) (batch_rows batch).

Definition delete_entry (kv : string * option OrderingValue) : Entry := (kv.1, DelOp (mkDelete kv.1 kv.2)).

Definition del_entries (batch : RecordBatch) : list Entry :=
  match delete_batch_to_keys_with_ordering batch with Ok es => delete_entry <$> es | _ => [] end.

(** The data batches of a block, the delete batches of a block. *)
Definition block_data (block : BlockType * LogBlockContent) : list RecordBatch :=
  match block.1, block.2 with
  | (AvroData | ParquetData | HfileData), Records rb => data_batches rb
  | _, _ => []
  end.

Definition block_deletes (block : BlockType * LogBlockContent) : list RecordBatch :=
  match block.1, block.2 with
  | Delete, Records rb => (delete_batches rb).*1
  | _, _ => []
  end.

Fixpoint batches_entries (addr : nat) (l : list RecordBatch) : list Entry :=
  match l with
  | [] => []
  | x :: l => put_entries addr x ++ batches_entries (S addr) l
  end.

Fixpoint blocks_entries (addr : nat) (blocks : list (BlockType * LogBlockContent)) : list Entry :=
  match blocks with
  | [] => []
  | block :: blocks =>
      batches_entries addr (block_data block) ++ concat (del_entries <$> block_deletes block) ++
      blocks_entries (addr + length (block_data block)) blocks
  end.

(** Data of the target schema; deletes that decode, with values the order is
    defined on. *)
Record block_ok (block : BlockType * LogBlockContent) : Prop := {
  block_data_ok : forall x, x ∈ block_data block -> schema x = target;
  block_deletes_ok : forall x, x ∈ block_deletes block ->
    exists es, delete_batch_to_keys_with_ordering x = Ok es /\
      forall k v, (k, Some v) ∈ es -> ov_supported v
}.

Lemma data_entries_of addr batch : schema batch = target ->
  data_entries addr batch = Ok (put_entries addr batch).
Proof.
  intros Hs. unfold data_entries, batch_to_buffered_records, put_entries. cbn [pointee].
  rewrite num_rows_length. destruct (Z.eqb_spec (Z.of_nat (length (batch_rows batch))) 0) as [E|_].
  { destruct (batch_rows batch); [done|cbn in E; lia]. }
  rewrite (keys_of (RecordContextLaws := RL) batch Hs). cbn [res_bind].
  destruct (values_of (RecordContextLaws := RL) batch Hs) as (v & -> & Hv). cbn [res_bind]. f_equal.
  apply list_eq. intros i. rewrite list_lookup_fmap, !list_lookup_imap, list_lookup_fmap.
  destruct (batch_rows batch !! i) as [r|] eqn:Er; [|done]. cbn. unfold put_entry. by rewrite (Hv i r Er).
Qed.

Lemma put_entries_wf addr batch e : schema batch = target -> heap !! addr = Some batch ->
  e ∈ put_entries addr batch -> entry_wf e.
Proof.
  intros Hs Hh (i & He)%list_elem_of_lookup. unfold put_entries in He. rewrite list_lookup_imap in He.
  destruct (batch_rows batch !! i) as [r|] eqn:Er; [|done]. injection He as <-. unfold put_entry, entry_wf.
  cbn [snd op_record]. destruct (is_delete_record batch i); cbn.
  - split; [done|]. intros v Hv. exact (row_ordering_supported (RecordContextLaws := RL) r v Hv).
  - split.
    + split_and!; [done|done|]. by apply lookup_lt_Some in Er.
    + intros v Hv. exact (row_ordering_supported (RecordContextLaws := RL) r v Hv).
Qed.

Lemma ingesting_addr b src cur idx addr : ingesting b -> ingesting (set_base src cur idx addr b).
Proof. intros [Hp Hs]. split; [|done]. by apply (plain_buffer_fields target heap b). Qed.

Lemma process_data_batches_spec l : forall b, ingesting b ->
  (forall x, x ∈ l -> schema x = target) -> base_interned heap (next_addr b) l ->
  exists b', res_fold process_data_batch l b = Ok b' /\ ingesting b' /\ same_config b b' /\
    next_addr b' = (next_addr b + length l)%nat /\
    forall k, replay (M := buffered_record_merger b) (ops_at k (batches_entries (next_addr b) l)) (records b !! k)
      = Ok (records b' !! k).
Proof.
  induction l as [|x l IH]; intros b Hb Hs Hi; cbn [res_fold].
  { exists b. split_and!; try done; cbn; lia. }
  rewrite process_data_batch_entries, data_entries_of by (apply Hs; by left). cbn [res_bind arc_new snd].
  set (b0 := set_base (base_file_source b) (current_base_batch b) (base_row_idx b) (S (next_addr b)) b).
  assert (Hx : heap !! next_addr b = Some x) by (specialize (Hi 0%nat x eq_refl); by rewrite Nat.add_0_r in Hi).
  destruct (apply_entries_spec (put_entries (next_addr b) x) b0) as (b1 & -> & H1 & C1 & A1 & R1).
  { by apply ingesting_addr. }
  { intros e. apply put_entries_wf; [apply Hs; by left|done]. }
  cbn [res_bind]. change (next_addr b0) with (S (next_addr b)) in A1.
  destruct (IH b1 H1) as (b2 & -> & H2 & C2 & A2 & R2).
  { intros y Hy. apply Hs. by right. }
  { intros j y Hj. rewrite A1. specialize (Hi (S j) y Hj). by rewrite Nat.add_succ_r in Hi. }
  exists b2. split_and!; [done|done|apply (same_config_trans b b1); [by destruct C1|done]|cbn; lia|].
  intros k. cbn [batches_entries]. rewrite ops_at_app, replay_app. rewrite <- A1.
  pose proof (R1 k) as R1k. change (buffered_record_merger b0) with (buffered_record_merger b) in R1k.
  change (records b0) with (records b) in R1k. rewrite R1k. cbn [res_bind].
  pose proof (same_merger _ _ C1) as M1. change (buffered_record_merger b0) with (buffered_record_merger b) in M1.
  rewrite <- M1. apply R2.
Qed.

Lemma process_delete_batches_spec l : forall b, ingesting b ->
  (forall x, x ∈ l.*1 -> exists es, delete_batch_to_keys_with_ordering x = Ok es /\
      forall k v, (k, Some v) ∈ es -> ov_supported v) ->
  exists b', res_fold process_delete_batch l b = Ok b' /\ ingesting b' /\ same_config b b' /\
    next_addr b' = next_addr b /\
    forall k, replay (M := buffered_record_merger b) (ops_at k (concat (del_entries <$> l.*1))) (records b !! k)
      = Ok (records b' !! k).
Proof.
  induction l as [|[x t] l IH]; intros b Hb Hl; cbn [res_fold].
  { exists b. split_and!; done. }
  rewrite process_delete_batch_entries. cbn [fst]. destruct (Hl x) as (es & Ees & Hes); [by left|].
  assert (Ed : delete_entries x = Ok (del_entries x)) by (unfold delete_entries, del_entries; by rewrite Ees).
  rewrite Ed. cbn [res_bind].
  destruct (apply_entries_spec (del_entries x) b Hb) as (b1 & -> & H1 & C1 & A1 & R1).
  { unfold del_entries. rewrite Ees. intros e ([k v] & -> & He)%list_elem_of_fmap. split; [done|].
    intros w Hw. apply (Hes k w). cbn in Hw. by subst v. }
  cbn [res_bind]. destruct (IH b1 H1) as (b2 & -> & H2 & C2 & A2 & R2); [intros y Hy; apply Hl; by right|].
  exists b2. split_and!; [done|done|by apply (same_config_trans b b1)|congruence|].
  intros k. rewrite !fmap_cons. cbn [fst concat]. rewrite ops_at_app, replay_app, R1. cbn [res_bind].
  rewrite <- (same_merger _ _ C1). apply R2.
Qed.

Lemma process_block_spec b block : ingesting b -> block_ok block ->
  base_interned heap (next_addr b) (block_data block) ->
  exists b', process_block b block = Ok b' /\ ingesting b' /\ same_config b b' /\
    next_addr b' = (next_addr b + length (block_data block))%nat /\
    forall k, replay (M := buffered_record_merger b)
        (ops_at k (batches_entries (next_addr b) (block_data block) ++ concat (del_entries <$> block_deletes block)))
        (records b !! k)
      = Ok (records b' !! k).
Proof.
  intros Hb [Hd Hx] Hi. destruct block as [t c]. unfold process_block, block_data, block_deletes in *. cbn [fst snd] in *.
  assert (Hnone : exists b', Ok b = Ok b' /\ ingesting b' /\ same_config b b' /\
    next_addr b' = (next_addr b + 0)%nat /\ forall k, replay (M := buffered_record_merger b) (ops_at k []) (records b !! k)
      = Ok (records b' !! k)) by (exists b; split_and!; try done; lia).
  destruct t; try exact Hnone; destruct c as [rb| |]; try exact Hnone;
    unfold process_data_block, process_delete_block.
  2-4: rewrite app_nil_r; destruct (process_data_batches_spec (data_batches rb) b Hb Hd Hi)
         as (b' & -> & ? & ? & ? & ?); by exists b'.
  destruct (process_delete_batches_spec (delete_batches rb) b Hb Hx) as (b' & -> & ? & ? & ? & ?).
  exists b'. split_and!; try done. cbn. lia.
Qed.

Lemma process_blocks_spec blocks : forall b, ingesting b -> (forall x, x ∈ blocks -> block_ok x) ->
  base_interned heap (next_addr b) (concat (block_data <$> blocks)) ->
  exists b', res_fold process_block blocks b = Ok b' /\ ingesting b' /\ same_config b b' /\
    next_addr b' = (next_addr b + length (concat (block_data <$> blocks)))%nat /\
    forall k, replay (M := buffered_record_merger b) (ops_at k (blocks_entries (next_addr b) blocks)) (records b !! k)
      = Ok (records b' !! k).
Proof.
  induction blocks as [|x blocks IH]; intros b Hb Hok Hi; cbn [res_fold].
  { exists b. split_and!; try done; cbn; lia. }
  rewrite fmap_cons in *. cbn [concat] in *.
  destruct (process_block_spec b x Hb) as (b1 & -> & H1 & C1 & A1 & R1); [apply Hok; by left| |].
  { intros j y Hj. apply Hi. by apply lookup_app_l_Some. }
  cbn [res_bind]. destruct (IH b1 H1) as (b2 & -> & H2 & C2 & A2 & R2).
  { intros y Hy. apply Hok. by right. }
  { intros j y Hj. rewrite A1, <- Nat.add_assoc. apply Hi. rewrite lookup_app_r by lia.
    rewrite <- Hj. f_equal. lia. }
  exists b2. split_and!; [done|done|by apply (same_config_trans b b1)|rewrite length_app; lia|].
  intros k. cbn [blocks_entries]. rewrite app_assoc, ops_at_app, replay_app, R1. cbn [res_bind].
  rewrite <- (same_merger _ _ C1), <- A1. apply R2.
Qed.

(** * The merge, key by key *)

(** What is left of a base row, given what the log left of its key. *)
Definition survivor (mode : string) (log : option BufferedRecord) (r : Row) : list Row :=
  match log with
  | None => [r]
  | Some log =>
      match pick_winner mode log (row_ordering r) with
      | WinnerBase => [r]
      | WinnerLogData => record_rows log
      | WinnerLogDelete => []
      end
  end.

(** What the log left of the keys that no base row has. *)
Definition log_only_rows (keys : list string) (m : gmap string BufferedRecord) : list Row :=
  records_rows (map_to_list (filter (fun kv => kv.1 ∉ keys) m)).*2.

Lemma log_only_perm keys (m m' : gmap string BufferedRecord) l :
  l ≡ₚ (map_to_list m').*2 -> m' = filter (fun kv => kv.1 ∉ keys) m ->
  records_rows l ≡ₚ log_only_rows keys m.
Proof.
  intros Hl ->. unfold log_only_rows, records_rows. by rewrite Hl.
Qed.

Lemma merge_by_key mode l : forall m u, NoDup (row_lookup <$> l) ->
  let s := merge_rows_spec target RecordKey mode m u l in
  m_rows s = concat ((fun r => survivor mode (m !! row_lookup r) r) <$> l) /\
  m_records s = filter (fun kv => kv.1 ∉ row_lookup <$> l) m.
Proof.
  induction l as [|r l IH] using rev_ind; intros m u Hn; cbv zeta.
  { split; [done|]. cbn. symmetry. apply map_filter_id. intros k x _ H. by apply not_elem_of_nil in H. }
  rewrite fmap_app in Hn. apply list.NoDup_app in Hn as (Hn & Hd & _).
  destruct (IH m u Hn) as [Hr Hm]. unfold merge_rows_spec in *. rewrite foldl_app. cbn [foldl].
  set (s := foldl (merge_row_spec target RecordKey mode) (mkMerged m u []) l) in *.
  assert (Hlook : m_records s !! row_lookup r = m !! row_lookup r).
  { rewrite Hm. destruct (m !! row_lookup r) as [x|] eqn:E.
    - apply map_lookup_filter_Some. split; [done|]. cbn. intros H. apply (Hd _ H). by left.
    - apply map_lookup_filter_None. by left. }
  assert (Hf : filter (fun kv => kv.1 ∉ (row_lookup <$> l) ++ (row_lookup <$> [r])) m = delete (row_lookup r) (m_records s)).
  { rewrite Hm. apply map_eq. intros k. destruct (decide (k = row_lookup r)) as [->|Hk].
    - rewrite lookup_delete_eq. apply map_lookup_filter_None. right. intros x _. cbn. intros H. apply H.
      apply elem_of_app. right. by left.
    - rewrite lookup_delete_ne by done. apply option_eq. intros x. rewrite !map_lookup_filter_Some. cbn.
      rewrite elem_of_app, list_elem_of_singleton. naive_solver. }
  rewrite !fmap_app, Hf, concat_app. cbn [fmap list_fmap concat]. rewrite app_nil_r. unfold merge_row_spec, survivor.
  rewrite Hlook. destruct (m !! row_lookup r) as [log|] eqn:E.
  - destruct (pick_winner mode log (row_ordering r)); cbn; rewrite ?app_nil_r, ?Hr; done.
  - cbn. rewrite Hr, delete_id by done. done.
Qed.
End plain.
End ingest.

(** * Properties *)
Section properties.
Context {AB : ArrowBatch} {AR : ArrowRows} {AK : ArrowKernels} {AL : ArrowLaws} {CO : ColumnOps}
  {RC : RecordContext} {MO : MapOrder} {ML : MapOrderLaws}.
Context (target : ArrowKernels.Schema) {RL : RecordContextLaws target RecordKey}.

(** Blocks and base rows, read together. *)
Lemma read_by_key heap b blocks src out_schema :
  fresh_buffer target heap b -> reader_schema b = Some target -> records b = ∅ ->
  (forall x, x ∈ blocks -> block_ok target x) ->
  base_interned heap (next_addr b) (concat (block_data <$> blocks)) ->
  (forall x, x ∈ src -> schema x = target) -> NoDup (row_lookup <$> rows_in src) ->
  exists b' chunks st m,
    res_fold process_block blocks b = Ok b' /\
    collect_chunks (chunks_left (new_buffered b' (Ok <$> src) target out_schema None))
      (new_buffered b' (Ok <$> src) target out_schema None) [] = Ok (Some (chunks, st)) /\
    (forall k, replay (M := buffered_record_merger b)
       (ops_at k (blocks_entries target (next_addr b) blocks)) None = Ok (m !! k)) /\
    concat (batch_rows <$> chunks) ≡ₚ
      concat ((fun r => survivor target (record_merge_mode b) (m !! row_lookup r) r) <$> rows_in src) ++
      log_only_rows (row_lookup <$> rows_in src) m /\
    (forall c, c ∈ chunks -> schema c = target).
Proof.
  intros Hb Hr Hm Hok Hi Hs Hn.
  destruct (process_blocks_spec target heap blocks b) as (b' & E & [Hp Hr'] & C & _ & Hrep);
    [split; [apply Hb|done]|done|done|].
  assert (Hb' : fresh_buffer target heap b').
  { split; [done|rewrite (same_drain _ _ C)|rewrite (same_iter _ _ C)|rewrite (same_next _ _ C)]; apply Hb. }
  destruct (scanned_chunks target heap (length src) b' src out_schema (mkUpdateStats 0 0 0)
    (chunks_left (new_buffered b' (Ok <$> src) target out_schema None)) [] (le_n _))
    as (chunks & st & Ec & Rc & Hsch & _); [|done|done|].
  { cbn. rewrite length_fmap, (fresh_drain _ _ _ Hb'). lia. }
  exists b', chunks, st, (records b'). split_and!; [done|exact Ec| | |by intros c [? _]%Hsch].
  - intros k. specialize (Hrep k). rewrite Hm, lookup_empty in Hrep. exact Hrep.
  - rewrite Rc. unfold merged_rows. rewrite (same_mode _ _ C).
    destruct (merge_by_key target (record_merge_mode b) (rows_in src) (records b') (update_processor b') Hn)
      as [-> Hrec].
    apply Permutation_app_head. eapply log_only_perm; [apply into_values_perm|exact Hrec].
Qed.

(** What a file group's read amounts to: the log's blocks leave for each key
    the outcome of replaying that key's operations, in the order of the blocks
    and of the rows in them; the stream then gives, for each base row, the base
    row or what the log left of its key, whichever wins, and the rows the log
    left of keys no base row has -- nothing else, and nothing twice. *)
Theorem file_group_read_by_key heap b blocks src out_schema :
  fresh_buffer target heap b -> reader_schema b = Some target -> records b = ∅ ->
  (forall x, x ∈ blocks -> block_ok target x) ->
  base_interned heap (next_addr b) (concat (block_data <$> blocks)) ->
  (forall x, x ∈ src -> schema x = target) -> NoDup (row_lookup <$> rows_in src) ->
  exists b' chunks st m,
    res_fold process_block blocks b = Ok b' /\
    collect_chunks (chunks_left (new_buffered b' (Ok <$> src) target out_schema None))
      (new_buffered b' (Ok <$> src) target out_schema None) [] = Ok (Some (chunks, st)) /\
    (forall k, replay (M := buffered_record_merger b)
       (ops_at k (blocks_entries target (next_addr b) blocks)) None = Ok (m !! k)) /\
    concat (batch_rows <$> chunks) ≡ₚ
      concat ((fun r => survivor target (record_merge_mode b) (m !! row_lookup r) r) <$> rows_in src) ++
      log_only_rows (row_lookup <$> rows_in src) m.
Proof.
  intros Hb Hr Hm Hok Hi Hs Hn. destruct (read_by_key heap b blocks src out_schema Hb Hr Hm Hok Hi Hs Hn) as (b' & chunks & st & m & H1 & H2 & H3 & H4 & _).
  exists b', chunks, st, m. done.
Qed.
End properties.

Module SampleRead.
Import ArrowKernels.Sample MergeStream.SampleContext.

(** Two data blocks about a delete block: "a" updated, "b" updated too late, "c"
    deleted, "d" inserted, "f" inserted and deleted. *)
Definition sample_blocks : list (BlockType * LogBlockContent) := [
  (AvroData, Records (mkBatches [rows_batch [("a", Some (OLong 3), 31); ("f", Some (OLong 1), 11)]] [] 2 0));
  (Delete, Records (mkBatches [] [(rows_batch [("c", Some (OLong 8), 1); ("f", None, 1)], "t2")] 0 2));
  (ParquetData, Records (mkBatches [log_batch] [] 3 0))].

Definition sample_heap : list RecordBatch :=
  [rows_batch [("a", Some (OLong 3), 31); ("f", Some (OLong 1), 11)]; log_batch].

Lemma sample_empty_fresh : fresh_buffer names sample_heap (sample_buffer ∅ 0).
Proof. split; [|reflexivity..]. split; [reflexivity..|by exists None|done]. Qed.

Lemma sample_blocks_ok x : x ∈ sample_blocks -> block_ok names x.
Proof.
  intros Hx. in_cases Hx; (split; [intros y Hy|intros y Hy]); cbn in Hy;
    in_cases Hy; try reflexivity; eexists; (split; [reflexivity|]); intros k v Hv; cbn in Hv;
    repeat (apply elem_of_cons in Hv as [[= -> ->]|Hv]); (exact I || by apply not_elem_of_nil in Hv).
Qed.

Lemma file_group_read_by_key_witness :
  exists b' chunks st m,
    res_fold process_block sample_blocks (sample_buffer ∅ 0) = Ok b' /\
    collect_chunks (chunks_left (new_buffered b' (Ok <$> base_batches) names names None))
      (new_buffered b' (Ok <$> base_batches) names names None) [] = Ok (Some (chunks, st)) /\
    concat (batch_rows <$> chunks) ≡ₚ
      [("a", Some (OLong 5), 51); ("b", Some (OLong 4), 40); ("e", None, 1)] ++
      log_only_rows ["a"; "b"; "c"; "e"] m.
Proof.
  destruct (file_group_read_by_key names sample_heap (sample_buffer ∅ 0) sample_blocks base_batches names
    sample_empty_fresh) as (b' & chunks & st & m & E1 & E2 & Hm & Hp).
  - reflexivity.
  - reflexivity.
  - exact sample_blocks_ok.
  - intros j x Hx. exact Hx.
  - intros x Hx. in_cases Hx; reflexivity.
  - apply (bool_decide_unpack _). vm_compute. exact I.
  - exists b', chunks, st, m. split; [exact E1|]. split; [exact E2|]. rewrite Hp.
    apply Permutation_app_tail.
    assert (Ha : Ok (Some (new_batch_ref "a" (mkArc 1 log_batch) 0 (Some (OLong 5)))) = Ok (m !! "a")) by exact (Hm "a").
    assert (Hb : Ok (Some (new_batch_ref "b" (mkArc 1 log_batch) 1 (Some (OLong 1)))) = Ok (m !! "b")) by exact (Hm "b").
    assert (Hc : Ok (Some (new_delete "c" (Some (OLong 8)))) = Ok (m !! "c")) by exact (Hm "c").
    assert (He : Ok None = Ok (m !! "e")) by exact (Hm "e").
    injection Ha as Ha. injection Hb as Hb. injection Hc as Hc. injection He as He.
    cbn. rewrite <- Ha, <- Hb, <- Hc, <- He. reflexivity.
Defined.
End SampleRead.
