(* ===== verification/LogScan.v ===== *)
(** The two scans of the log record reader: [forward_scan_pass1] and
    [reverse_scan_pass2] of
    crates/core/src/file_group/reader_v2/log_record_reader.rs.

    The first pass admits blocks and groups them by instant; the second resolves
    log compaction, so that the blocks an instant was compacted into stand where
    it stood.  The fetcher of a block's content reads the file the block is in,
    so a block comes here with the path of its file. *)
From Stdlib Require Import Ascii.
From stdpp Require Import base gmap sets list strings sorting numbers relations.
From S2P Require Import Prelude RustStr Chrono Config Instant Selector StorageReader RecordBatches LogFormat View.
Local Open Scope res_scope.
Local Open Scope Z_scope.

Abbreviation FileBlock := (string * LogBlock)%type.

Section passes.
Context {C : Chrono} {AB : ArrowBatch}.

Record Pass1Result := mkPass1 {
  ordered_instants_list : list string;
  instant_to_blocks_map : gmap string (list FileBlock);
  total_log_blocks : Z;
  total_corrupt_blocks : Z;
  total_rollbacks : Z
}.

(** The block types Pass 3 decodes. *)
Definition queued_type (t : BlockType) : bool :=
  match t with AvroData | ParquetData | Delete | HfileData => true | _ => false end.

Definition count_block (st : Pass1Result) : Pass1Result :=
  mkPass1 (ordered_instants_list st) (instant_to_blocks_map st) (total_log_blocks st + 1)
    (total_corrupt_blocks st) (total_rollbacks st).
Definition count_corrupt (st : Pass1Result) : Pass1Result :=
  mkPass1 (ordered_instants_list st) (instant_to_blocks_map st) (total_log_blocks st)
    (total_corrupt_blocks st + 1) (total_rollbacks st).
Definition count_rollback (st : Pass1Result) : Pass1Result :=
  mkPass1 (ordered_instants_list st) (instant_to_blocks_map st) (total_log_blocks st)
    (total_corrupt_blocks st) (total_rollbacks st + 1).

(** [entry(instant).or_default()], the push on the list, and on the order when
    the list was empty. *)
Definition enqueue (instant : string) (b : FileBlock) (st : Pass1Result) : Pass1Result :=
  let blocks_list := default [] (instant_to_blocks_map st !! instant) in
  mkPass1
    (match blocks_list with
     | [] => ordered_instants_list st ++ [instant]
     | _ => ordered_instants_list st
     end)
    (<[instant := blocks_list ++ [b]]> (instant_to_blocks_map st))
    (total_log_blocks st) (total_corrupt_blocks st) (total_rollbacks st).

Definition remove_instant (target : string) (st : Pass1Result) : Pass1Result :=
  mkPass1 (filter (fun t => t <> target) (ordered_instants_list st))
    (delete target (instant_to_blocks_map st))
    (total_log_blocks st) (total_corrupt_blocks st) (total_rollbacks st).

Section gates.
Context (latest_instant_time : string) (instant_range : option InstantRange) (timezone : string)
  (completion_gate : option CompletionGateInputs).

Definition gate_excludes (instant : string) : bool :=
  match completion_gate with Some gate => negb (admits gate instant) | None => false end.

Definition range_excludes (instant : string) : res bool :=
  match instant_range with Some range => not_in_range range instant timezone | None => Ok false end.

(** One iteration of the loop.  The set of rolled back instants it also fills is
    never read. *)
Definition pass1_step (st : Pass1Result) (b : FileBlock) : res Pass1Result :=
  let st := count_block st in
  if decide (block_type b.2 = Corrupted) then Ok (count_corrupt st)
  else match instant_time b.2 with
  | Ok instant =>
      let command := bool_decide (block_type b.2 = Command) in
      if negb command && str_ltb latest_instant_time instant then Ok st
      else if negb command && gate_excludes instant then Ok st
      else
        let? out := if command then Ok false else range_excludes instant in
        if out : bool then Ok st
        else if queued_type (block_type b.2) then Ok (enqueue instant b st)
        else if command && is_rollback_block b.2 then
          let st := count_rollback st in
          match target_instant_time b.2 with
          | Ok target => Ok (remove_instant target st)
          | _ => Ok st
          end
        else Ok st
  | _ => Ok st
  end.

Definition forward_scan_pass1 (all_blocks : list FileBlock) : res Pass1Result :=
  res_fold pass1_step all_blocks (mkPass1 [] ∅ 0 0 0).
End gates.

(** * Pass 2 *)
Record Pass2Result := mkPass2 {
  current_instant_log_blocks : list FileBlock;
  instant_times_included : gset string;
  valid_block_instants : list string
}.

(** The result so far, and the map from compacted instants to those they were
    compacted into. *)
Record Pass2State := mkPass2State {
  p2_result : Pass2Result;
  block_time_to_compaction_block_time_map : gmap string string
}.

(** An instant named by a compacted block of [instant_time]. *)
Definition register_compacted (instant_time : string) (m : gmap string string) (original : string)
    : gmap string string :=
  <[trim original := default instant_time (m !! instant_time)]> m.

(** The blocks of an instant, last first, at the back of the deque. *)
Definition push_instant (blocks : list FileBlock) (instant : string) (r : Pass2Result) : Pass2Result :=
  mkPass2 (current_instant_log_blocks r ++ reverse blocks)
    ({[instant]} ∪ instant_times_included r) (valid_block_instants r ++ [instant]).

Definition pass2_step (blocks_map : gmap string (list FileBlock)) (st : Pass2State) (instant_time : string)
    : Pass2State :=
  match blocks_map !! instant_time with
  | Some ((first_block :: _) as blocks) =>
      match header first_block.2 !! CompactedBlockTimes with
      | Some compacted_times =>
          mkPass2State (p2_result st)
            (foldl (register_compacted instant_time) (block_time_to_compaction_block_time_map st)
              (str_split "," compacted_times))
      | None =>
          match block_time_to_compaction_block_time_map st !! instant_time with
          | Some final_instant =>
              if decide (final_instant ∈ instant_times_included (p2_result st)) then st
              else
                mkPass2State
                  (push_instant (default [] (blocks_map !! final_instant)) final_instant (p2_result st))
                  (block_time_to_compaction_block_time_map st)
          | None =>
              mkPass2State (push_instant blocks instant_time (p2_result st))
                (block_time_to_compaction_block_time_map st)
          end
      end
  | _ => st
  end.

Definition reverse_scan_pass2 (pass1 : Pass1Result) : Pass2Result :=
  p2_result
    (foldl (pass2_step (instant_to_blocks_map pass1)) (mkPass2State (mkPass2 [] ∅ []) ∅)
      (reverse (ordered_instants_list pass1))).

(** [while let Some(block) = deque.pop_back()] *)
Definition ordered_blocks (pass2 : Pass2Result) : list FileBlock :=
  reverse (current_instant_log_blocks pass2).
End passes.

(** * First occurrences *)
Definition see (acc : list string) (t : string) : list string :=
  if decide (t ∈ acc) then acc else acc ++ [t].

Definition first_seen (l : list string) : list string := foldl see [] l.

Lemma first_seen_snoc l t : first_seen (l ++ [t]) = see (first_seen l) t.
Proof. unfold first_seen. by rewrite foldl_app. Qed.

Lemma elem_of_see acc t u : u ∈ see acc t <-> u ∈ acc \/ u = t.
Proof. unfold see. case_decide; set_solver. Qed.

Lemma elem_of_first_seen l t : t ∈ first_seen l <-> t ∈ l.
Proof.
  induction l as [|u l IH] using rev_ind; [done|]. rewrite first_seen_snoc, elem_of_see, IH. set_solver.
Qed.

Lemma NoDup_first_seen l : NoDup (first_seen l).
Proof.
  induction l as [|u l IH] using rev_ind; [constructor|]. rewrite first_seen_snoc. unfold see.
  case_decide; [done|]. apply list.NoDup_app. split_and!; [done| |apply NoDup_singleton]. set_solver.
Qed.

Lemma first_seen_filter (P : string -> Prop) `{forall t, Decision (P t)} l :
  first_seen (filter P l) = filter P (first_seen l).
Proof.
  induction l as [|u l IH] using rev_ind; [done|].
  rewrite filter_app, first_seen_snoc. unfold see. rewrite filter_cons. case_decide as Hu.
  - rewrite first_seen_snoc, IH. unfold see. case_decide as H1; case_decide as H2; try done.
    + by apply list_elem_of_filter in H1 as [_ ?].
    + contradict H1. by apply list_elem_of_filter.
    + rewrite filter_app, filter_cons. by rewrite decide_True.
  - rewrite app_nil_r, IH. case_decide; [done|].
    rewrite filter_app, filter_cons, decide_False by done. by rewrite app_nil_r.
Qed.

(** * What Pass 1 keeps *)
Section pass1.
Context {C : Chrono} {AB : ArrowBatch}.
Context (latest : string) (range : option InstantRange) (tz : string) (gate : option CompletionGateInputs).

(** The instant the gates let a block in under. *)
Definition admitted_instant (b : FileBlock) : option string :=
  match instant_time b.2 with
  | Ok t =>
      if queued_type (block_type b.2) && negb (str_ltb latest t) && negb (gate_excludes gate t) &&
         bool_decide (range_excludes range tz t = Ok false)
      then Some t else None
  | _ => None
  end.

(** The instant a rollback block takes back. *)
Definition rolled_back_instant (b : FileBlock) : option string :=
  if is_Ok (instant_time b.2) && is_rollback_block b.2 then
    match target_instant_time b.2 with Ok t => Some t | _ => None end
  else None.

(** The admitted blocks no later block takes back, under their instants. *)
Fixpoint live_blocks (bs : list FileBlock) : list (string * FileBlock) :=
  match bs with
  | [] => []
  | b :: r =>
      match admitted_instant b with
      | Some t =>
          if existsb (fun c => bool_decide (rolled_back_instant c = Some t)) r then live_blocks r
          else (t, b) :: live_blocks r
      | None => live_blocks r
      end
  end.

Definition blocks_of (t : string) (live : list (string * FileBlock)) : list FileBlock :=
  (filter (fun x => x.1 = t) live).*2.

(** The instant of the block can be compared with the range. *)
Definition comparable_block (b : FileBlock) : Prop :=
  forall t, instant_time b.2 = Ok t -> exists out, range_excludes range tz t = Ok out.

(** The check the gate makes, as a test. *)
Lemma comparable_check b :
  match instant_time b.2 with Ok t => is_Ok (range_excludes range tz t) | _ => true end = true <-> comparable_block b.
Proof.
  unfold comparable_block. destruct (instant_time b.2) as [t|e|]; [rewrite is_Ok_true|done..].
  split; [by intros ? ? [= <-]|eauto].
Qed.

Lemma rollback_is_command (b : LogBlock) : is_rollback_block b = true -> block_type b = Command.
Proof.
  unfold is_rollback_block, command_block_type.
  destruct (decide (block_type b = Command)) as [|H]; [done|]. by rewrite decide_True.
Qed.

Lemma admitted_not_rollback b t : admitted_instant b = Some t -> rolled_back_instant b = None.
Proof.
  unfold admitted_instant, rolled_back_instant. destruct (instant_time b.2); try done. cbn [is_Ok andb].
  destruct (is_rollback_block b.2) eqn:Hr; [|done]. apply rollback_is_command in Hr. by rewrite Hr.
Qed.

Lemma live_blocks_snoc bs b :
  live_blocks (bs ++ [b]) =
  match rolled_back_instant b with
  | Some t => filter (fun x => x.1 <> t) (live_blocks bs)
  | None => live_blocks bs ++ match admitted_instant b with Some t => [(t, b)] | None => [] end
  end.
Proof.
  induction bs as [|c bs IH]; cbn [live_blocks app].
  - destruct (admitted_instant b) as [t|] eqn:Ha.
    + by rewrite (admitted_not_rollback _ _ Ha).
    + by destruct (rolled_back_instant b).
  - destruct (admitted_instant c) as [t|] eqn:Ha; [|done]. rewrite existsb_app. cbn [existsb].
    rewrite orb_false_r. destruct (existsb _ bs) eqn:He; [by rewrite IH|]. cbn [orb].
    destruct (rolled_back_instant b) as [u|] eqn:Hr.
    + rewrite filter_cons. cbn [fst]. case_bool_decide as E.
      * injection E as ->. rewrite IH. by rewrite decide_False by (intros []; done).
      * rewrite IH, decide_True by congruence. done.
    + by rewrite IH.
Qed.

Definition pass1_agrees (st : Pass1Result) (bs : list FileBlock) : Prop :=
  ordered_instants_list st = first_seen (live_blocks bs).*1 /\
  (forall t, instant_to_blocks_map st !! t =
    match blocks_of t (live_blocks bs) with [] => None | l => Some l end) /\
  total_log_blocks st = Z.of_nat (length bs) /\
  total_corrupt_blocks st = Z.of_nat (length (filter (fun b => block_type b.2 = Corrupted) bs)) /\
  total_rollbacks st = Z.of_nat (length (filter (fun b => is_Ok (instant_time b.2) = true /\ is_rollback_block b.2 = true) bs)).

Lemma blocks_of_app t l l' : blocks_of t (l ++ l') = blocks_of t l ++ blocks_of t l'.
Proof. unfold blocks_of. by rewrite filter_app, fmap_app. Qed.

Lemma blocks_of_nil t l : blocks_of t l = [] <-> t ∉ l.*1.
Proof.
  unfold blocks_of. split.
  - intros H (x & -> & Hx)%list_elem_of_fmap. apply fmap_nil_inv in H.
    assert (Hf : x ∈ filter (fun y => y.1 = x.1) l) by by apply list_elem_of_filter.
    rewrite H in Hf. by apply not_elem_of_nil in Hf.
  - intros H. rewrite filter_none; [done|]. apply Forall_forall. intros x Hx <-.
    apply H, list_elem_of_fmap. by exists x.
Qed.

Lemma blocks_of_filter_ne t u l :
  blocks_of t (filter (fun x => x.1 <> u) l) = if decide (t = u) then [] else blocks_of t l.
Proof.
  destruct (decide (t = u)) as [H|H].
  - apply blocks_of_nil. intros (x & -> & [Hx _]%list_elem_of_filter)%list_elem_of_fmap. by subst.
  - unfold blocks_of. rewrite list_filter_filter. f_equal. apply list_filter_iff. naive_solver.
Qed.

Lemma fmap_filter_fst (u : string) (l : list (string * FileBlock)) :
  (filter (fun x => x.1 <> u) l).*1 = filter (fun t => t <> u) l.*1.
Proof.
  induction l as [|x l IH]; [done|]. rewrite fmap_cons, !filter_cons. case_decide; cbn [fmap list_fmap]; by rewrite IH.
Qed.

Lemma live_blocks_elem bs x : x ∈ live_blocks bs -> x.2 ∈ bs.
Proof.
  induction bs as [|b bs IH]; cbn [live_blocks]; [by intros ?%elem_of_nil|].
  destruct (admitted_instant b); [destruct (existsb _ _)|]; intros H; try (right; by apply IH).
  apply elem_of_cons in H as [->|H]; [by left|right; by apply IH].
Qed.

Lemma agrees_counted st bs b (live' : list (string * FileBlock)) :
  pass1_agrees st bs -> live_blocks (bs ++ [b]) = live' ->
  block_type b.2 <> Corrupted ->
  (is_Ok (instant_time b.2) = true /\ is_rollback_block b.2 = true -> False) ->
  forall st', ordered_instants_list st' = first_seen live'.*1 ->
  (forall t, instant_to_blocks_map st' !! t = match blocks_of t live' with [] => None | l => Some l end) ->
  total_log_blocks st' = total_log_blocks st + 1 ->
  total_corrupt_blocks st' = total_corrupt_blocks st -> total_rollbacks st' = total_rollbacks st ->
  pass1_agrees st' (bs ++ [b]).
Proof.
  intros (Ho & Hm & H1 & H2 & H3) Hl Hc Hr st' Ho' Hm' E1 E2 E3. unfold pass1_agrees. rewrite Hl.
  rewrite E1, E2, E3, H1, H2, H3, !filter_app, !length_app, !filter_cons.
  rewrite decide_False by done. rewrite decide_False by (intros Hx; exact (Hr Hx)).
  cbn. split_and!; [done|done|lia|lia|lia].
Qed.

(** A block the gates stop leaves all but the count of blocks. *)
Lemma pass1_step_skip st bs b :
  pass1_agrees st bs -> block_type b.2 <> Corrupted -> admitted_instant b = None ->
  (is_Ok (instant_time b.2) = true /\ is_rollback_block b.2 = true -> False) ->
  pass1_agrees (count_block st) (bs ++ [b]).
Proof.
  intros Hst Hc Ha Hr. pose proof Hst as (Ho & Hm & _).
  assert (Hn : rolled_back_instant b = None).
  { unfold rolled_back_instant. destruct (is_Ok _), (is_rollback_block _); try done. by destruct Hr. }
  refine (agrees_counted st bs b (live_blocks bs) Hst _ Hc Hr (count_block st) Ho Hm eq_refl eq_refl eq_refl).
  rewrite live_blocks_snoc, Hn, Ha. by rewrite app_nil_r.
Qed.

Lemma pass1_step_enqueue st bs b t :
  pass1_agrees st bs -> block_type b.2 <> Corrupted -> admitted_instant b = Some t ->
  (is_Ok (instant_time b.2) = true /\ is_rollback_block b.2 = true -> False) ->
  pass1_agrees (enqueue t b (count_block st)) (bs ++ [b]).
Proof.
  intros Hst Hc Ha Hr. pose proof Hst as (Ho & Hm & _). 
  refine (agrees_counted st bs b (live_blocks bs ++ [(t, b)]) Hst _ Hc Hr (enqueue t b (count_block st)) _ _ eq_refl eq_refl eq_refl).
  - by rewrite live_blocks_snoc, (admitted_not_rollback _ _ Ha), Ha.
  - rewrite fmap_app. change ([(t, b)].*1) with [t]. rewrite first_seen_snoc. cbn [enqueue count_block ordered_instants_list instant_to_blocks_map].
    rewrite Hm, Ho. unfold see. destruct (decide (t ∈ first_seen (live_blocks bs).*1)) as [Hi|Hi].
    + rewrite elem_of_first_seen in Hi. destruct (blocks_of t (live_blocks bs)) eqn:E; [|done].
      apply (proj1 (blocks_of_nil _ _)) in E. contradiction.
    + rewrite elem_of_first_seen in Hi. apply blocks_of_nil in Hi. by rewrite Hi.
  - intros u. cbn [enqueue count_block instant_to_blocks_map]. rewrite blocks_of_app.
    destruct (decide (t = u)) as [<-|Hu].
    + rewrite lookup_insert_eq, Hm.
      replace (blocks_of t [(t, b)]) with [b]; [by destruct (blocks_of t _)|].
      unfold blocks_of. rewrite filter_cons. cbn [fst]. by rewrite decide_True.
    + rewrite lookup_insert_ne, Hm by done.
      replace (blocks_of u [(t, b)]) with (@nil FileBlock); [by rewrite app_nil_r|].
      unfold blocks_of. rewrite filter_cons. cbn [fst]. by rewrite decide_False.
Qed.

Lemma pass1_step_rollback st bs b t :
  pass1_agrees st bs -> block_type b.2 = Command -> is_Ok (instant_time b.2) = true ->
  is_rollback_block b.2 = true ->
  rolled_back_instant b = t ->
  pass1_agrees (match t with Some t => remove_instant t | None => id end (count_rollback (count_block st)))
    (bs ++ [b]).
Proof.
  intros (Ho & Hm & H1 & H2 & H3) Hc Hi Hr Ht. unfold pass1_agrees.
  rewrite live_blocks_snoc, Ht, !filter_app, !length_app, !filter_cons.
  rewrite decide_False by (rewrite Hc; done). rewrite decide_True by done.
  assert (Ha : admitted_instant b = None).
  { destruct (admitted_instant b) as [u|] eqn:Ha; [|done].
    unfold admitted_instant in Ha. rewrite Hc in Ha. by destruct (instant_time b.2). }
  rewrite Ha, app_nil_r. destruct t as [t|]; cbn.
  - rewrite Ho, H1, H2, H3. split_and!; [by rewrite fmap_filter_fst, first_seen_filter| |lia|lia|lia].
    intros u. rewrite blocks_of_filter_ne. destruct (decide (u = t)) as [->|Hu].
    + by rewrite lookup_delete_eq.
    + by rewrite lookup_delete_ne, Hm.
  - rewrite H1, H2, H3. split_and!; [done|done|lia|lia|lia].
Qed.

Lemma pass1_step_spec st bs b : comparable_block b -> pass1_agrees st bs ->
  exists st', pass1_step latest range tz gate st b = Ok st' /\ pass1_agrees st' (bs ++ [b]).
Proof.
  intros Hcmp Hst. unfold pass1_step. destruct (decide (block_type b.2 = Corrupted)) as [Hc|Hc].
  { eexists. split; [done|]. destruct Hst as (Ho & Hm & H1 & H2 & H3). unfold pass1_agrees.
    assert (Hq : is_rollback_block b.2 = false).
    { destruct (is_rollback_block b.2) eqn:E; [|done]. apply rollback_is_command in E. congruence. }
    assert (Ha : admitted_instant b = None).
    { unfold admitted_instant. rewrite Hc. by destruct (instant_time b.2). }
    assert (Hn : rolled_back_instant b = None).
    { unfold rolled_back_instant. by rewrite Hq, andb_false_r. }
    rewrite live_blocks_snoc, Hn, Ha, app_nil_r, !filter_app, !length_app, !filter_cons.
    rewrite decide_True by done. rewrite decide_False by (rewrite Hq; by intros []).
    cbn. rewrite Ho, H1, H2, H3. split_and!; [done|done|lia|lia|lia]. }
  destruct (instant_time b.2) as [t|e|] eqn:Ht.
  2,3: eexists; split; [reflexivity|]; apply pass1_step_skip; try done;
    [unfold admitted_instant; by rewrite Ht|rewrite Ht; by intros []].
  destruct (decide (block_type b.2 = Command)) as [Hcom|Hcom].
  - rewrite bool_decide_true by done. cbn [negb andb res_bind]. rewrite Hcom. cbn [queued_type].
    destruct (is_rollback_block b.2) eqn:Hr.
    + assert (Hrb : rolled_back_instant b = match target_instant_time b.2 with Ok t => Some t | _ => None end)
        by (unfold rolled_back_instant; by rewrite Ht, Hr).
      pose proof (pass1_step_rollback st bs b _ Hst Hcom ltac:(by rewrite Ht) Hr Hrb) as Hp.
      destruct (target_instant_time b.2) as [u|e|]; eexists; (split; [reflexivity|exact Hp]).
    + eexists. split; [done|]. apply pass1_step_skip; try done; [|rewrite Hr; by intros []].
      unfold admitted_instant. by rewrite Ht, Hcom.
  - rewrite bool_decide_false by done. cbn [negb andb].
    assert (Hr : is_Ok (instant_time b.2) = true /\ is_rollback_block b.2 = true -> False).
    { intros [_ Hr%rollback_is_command]. done. }
    assert (Hadm : admitted_instant b =
      if queued_type (block_type b.2) && negb (str_ltb latest t) && negb (gate_excludes gate t) &&
         bool_decide (range_excludes range tz t = Ok false) then Some t else None)
      by (unfold admitted_instant; by rewrite Ht).
    destruct (str_ltb latest t), (gate_excludes gate t); cbn [negb andb] in Hadm |- *;
      rewrite ?andb_false_r in Hadm; try by (eexists; split; [done|]; apply pass1_step_skip).
    destruct (Hcmp t Ht) as [out Hout]. rewrite Hout in Hadm |- *. cbn [res_bind].
    destruct out; [rewrite andb_false_r in Hadm; eexists; split; [done|]; by apply pass1_step_skip|].
    destruct (queued_type (block_type b.2)) eqn:Hq; cbn in Hadm; eexists; (split; [done|]).
    + by apply pass1_step_enqueue.
    + by apply pass1_step_skip.
Qed.

Lemma forward_scan_agrees bs : (forall b, b ∈ bs -> comparable_block b) ->
  exists p, forward_scan_pass1 latest range tz gate bs = Ok p /\ pass1_agrees p bs.
Proof.
  unfold forward_scan_pass1. induction bs as [|b bs IH] using rev_ind; intros Hb.
  - by eexists.
  - destruct IH as (p & E & Hp); [set_solver|].
    destruct (pass1_step_spec p bs b ltac:(set_solver) Hp) as (p' & E' & Hp').
    exists p'. rewrite res_fold_app, E. cbn [res_bind res_fold]. rewrite E'. by split.
Qed.

Lemma agrees_blocks p bs t : pass1_agrees p bs ->
  default [] (instant_to_blocks_map p !! t) = blocks_of t (live_blocks bs).
Proof. intros (_ & Hm & _). rewrite Hm. by destruct (blocks_of t _). Qed.
End pass1.

(** * What Pass 2 resolves *)
Section pass2.
Context {C : Chrono} {AB : ArrowBatch}.
Context (m : gmap string (list FileBlock)).

(** The compaction header of an instant: that of its first block. *)
Definition compacted_times (t : string) : option string :=
  match m !! t with Some (b :: _) => header b.2 !! CompactedBlockTimes | _ => None end.

(** The blocks of [c] replace those of [t]. *)
Definition compacted_into (t c : string) : Prop :=
  exists times, compacted_times c = Some times /\ t ∈ trim <$> str_split "," times.

(** An instant that wrote its blocks itself. *)
Definition plain_instant (t : string) : Prop :=
  (exists b bs, m !! t = Some (b :: bs)) /\ compacted_times t = None.

Definition instant_blocks (t : string) : list FileBlock := default [] (m !! t).

Lemma register_keys c l : forall n o,
  is_Some (n !! o) \/ o ∈ trim <$> l <-> is_Some (foldl (register_compacted c) n l !! o).
Proof.
  induction l as [|a l IH]; intros n o; cbn [foldl]; [set_solver|].
  rewrite <- IH. unfold register_compacted at 1. rewrite lookup_insert_is_Some, fmap_cons, elem_of_cons.
  destruct (decide (trim a = o)); naive_solver.
Qed.

Lemma register_values c l : forall n o f,
  foldl (register_compacted c) n l !! o = Some f ->
  n !! o = Some f \/ (o ∈ trim <$> l /\ (f = c \/ n !! c = Some f)).
Proof.
  induction l as [|a l IH]; intros n o f; cbn [foldl]; [by left|].
  rewrite fmap_cons. unfold register_compacted at 2.
  assert (Hd : forall x, default c (n !! c) = x -> x = c \/ n !! c = Some x)
    by (intros x <-; destruct (n !! c); naive_solver).
  intros [H|[Ho Hf]]%IH.
  - apply lookup_insert_Some in H as [[<- H]|[_ H]]; [|by left]. right. split; [by left|by apply Hd].
  - right. split; [by right|]. destruct Hf as [->|H]; [by left|].
    apply lookup_insert_Some in H as [[_ H]|[_ H]]; [by apply Hd|by right].
Qed.

Record pass2_inv (v : list string) (st : Pass2State) : Prop := {
  p2_included : instant_times_included (p2_result st) = list_to_set (valid_block_instants (p2_result st));
  p2_deque : current_instant_log_blocks (p2_result st) =
    concat ((fun t => reverse (instant_blocks t)) <$> valid_block_instants (p2_result st));
  p2_nodup : NoDup (valid_block_instants (p2_result st));
  p2_valid t : t ∈ valid_block_instants (p2_result st) ->
    t ∈ v /\ exists u, u ∈ v /\ plain_instant u /\ rtc compacted_into u t;
  p2_map t c : block_time_to_compaction_block_time_map st !! t = Some c ->
    c ∈ v /\ is_Some (compacted_times c) /\ rtc compacted_into t c;
  p2_named t c : c ∈ v -> compacted_into t c -> is_Some (block_time_to_compaction_block_time_map st !! t);
  p2_kept t : t ∈ v -> plain_instant t ->
    exists c, c ∈ valid_block_instants (p2_result st) /\ rtc compacted_into t c
}.

Lemma push_inv v st t c blocks :
  pass2_inv v st -> t ∉ v -> plain_instant t -> c ∈ v ++ [t] -> c ∉ valid_block_instants (p2_result st) ->
  blocks = instant_blocks c -> rtc compacted_into t c ->
  pass2_inv (v ++ [t]) (mkPass2State (push_instant blocks c (p2_result st))
    (block_time_to_compaction_block_time_map st)).
Proof.
  intros [] Ht Hp Hc Hn -> Hr.
  split; cbn [p2_result push_instant instant_times_included valid_block_instants
    current_instant_log_blocks block_time_to_compaction_block_time_map].
  - rewrite p2_included0. set_solver.
  - rewrite p2_deque0, fmap_app, concat_app. cbn. by rewrite app_nil_r.
  - apply list.NoDup_app. split_and!; [done|set_solver|apply NoDup_singleton].
  - intros u [Hu| ->%list_elem_of_singleton]%elem_of_app.
    + destruct (p2_valid0 u Hu) as (? & w & ? & ? & ?). split; [set_solver|]. exists w. set_solver.
    + split; [done|]. exists t. set_solver.
  - intros u d Hd. destruct (p2_map0 u d Hd) as (? & ? & ?). set_solver.
  - intros u d [Hd| ->%list_elem_of_singleton]%elem_of_app; [by apply p2_named0|].
    intros (times & Ht' & _). destruct Hp as [_ Hp]. congruence.
  - intros u [Hu| ->%list_elem_of_singleton]%elem_of_app Hpu; [|exists c; set_solver].
    destruct (p2_kept0 u Hu Hpu) as (d & ? & ?). exists d. set_solver.
Qed.

(** What holds after a visit that queues nothing. *)
Lemma skip_inv v st t : pass2_inv v st -> compacted_times t = None ->
  (plain_instant t -> exists c, c ∈ valid_block_instants (p2_result st) /\ rtc compacted_into t c) ->
  pass2_inv (v ++ [t]) st.
Proof.
  intros [] Hc Ht. split; try done.
  - intros u Hu. destruct (p2_valid0 u Hu) as (? & w & ? & ? & ?). split; [set_solver|]. exists w. set_solver.
  - intros u d Hd. destruct (p2_map0 u d Hd) as (? & ? & ?). set_solver.
  - intros u d [Hd| ->%list_elem_of_singleton]%elem_of_app; [by apply p2_named0|].
    intros (times & Ht' & _). congruence.
  - intros u [Hu| ->%list_elem_of_singleton]%elem_of_app; [by apply p2_kept0|done].
Qed.

Lemma register_inv v st t times : pass2_inv v st -> compacted_times t = Some times ->
  pass2_inv (v ++ [t]) (mkPass2State (p2_result st)
    (foldl (register_compacted t) (block_time_to_compaction_block_time_map st) (str_split "," times))).
Proof.
  intros [] Hc. split; cbn [p2_result block_time_to_compaction_block_time_map]; try done.
  - intros u Hu. destruct (p2_valid0 u Hu) as (? & w & ? & ? & ?). split; [set_solver|]. exists w. set_solver.
  - intros u d [Hd|[Hu Hd]]%register_values.
    + destruct (p2_map0 u d Hd) as (? & ? & ?). set_solver.
    + assert (Hi : compacted_into u t) by by exists times.
      destruct Hd as [->|Hd]; [split_and!; [set_solver|by eexists|by apply rtc_once]|].
      destruct (p2_map0 t d Hd) as (? & ? & ?). split_and!; [set_solver|done|by eapply rtc_l].
  - intros u d [Hd| ->%list_elem_of_singleton]%elem_of_app Hi; apply register_keys.
    + left. by eapply p2_named0.
    + right. destruct Hi as (times' & Hc' & Hu). by simplify_eq.
  - intros u [Hu| ->%list_elem_of_singleton]%elem_of_app Hpu; [by apply p2_kept0|].
    destruct Hpu as [_ Hpu]. congruence.
Qed.

Lemma pass2_step_inv v st t : pass2_inv v st -> t ∉ v -> pass2_inv (v ++ [t]) (pass2_step m st t).
Proof.
  intros Hi Ht. unfold pass2_step.
  assert (Hct : compacted_times t = match m !! t with Some (b :: _) => header b.2 !! CompactedBlockTimes | _ => None end)
    by done.
  destruct (m !! t) as [[|b bs]|] eqn:Hm.
  1,3: apply skip_inv; [done..|]; intros [(b & bs & ?) _]; congruence.
  destruct (header b.2 !! CompactedBlockTimes) as [times|] eqn:Hh; [by apply register_inv|].
  assert (Hp : plain_instant t) by (split; [by eauto|done]).
  destruct (block_time_to_compaction_block_time_map st !! t) as [c|] eqn:Hc.
  - pose proof Hi as []. destruct (p2_map0 t c Hc) as (Hcv & Hcc & Hr). case_decide as Hin.
    + apply skip_inv; [done..|]. intros _. exists c. split; [|done].
      rewrite p2_included0 in Hin. by apply elem_of_list_to_set in Hin.
    + apply push_inv; try done; [set_solver|].
      rewrite p2_included0, elem_of_list_to_set in Hin. done.
  - apply push_inv; try done; [set_solver| |by unfold instant_blocks; rewrite Hm].
    intros Hv. by apply Hi in Hv as [? _].
Qed.

Lemma pass2_fold_inv l : forall v st, pass2_inv v st -> NoDup (v ++ l) ->
  pass2_inv (v ++ l) (foldl (pass2_step m) st l).
Proof.
  induction l as [|t l IH]; intros v st Hi Hn; cbn [foldl]; [by rewrite app_nil_r|].
  replace (v ++ t :: l) with ((v ++ [t]) ++ l) in * by by rewrite <- app_assoc.
  apply IH; [|done]. apply pass2_step_inv; [done|].
  apply list.NoDup_app in Hn as [Hn _]. apply list.NoDup_app in Hn as (_ & Hn & _). set_solver.
Qed.

Lemma pass2_init_inv : pass2_inv [] (mkPass2State (mkPass2 [] ∅ []) ∅).
Proof.
  split; cbn; [done|done|constructor|set_solver| |set_solver|set_solver].
  intros t c Hc. by rewrite lookup_empty in Hc.
Qed.

Lemma fold_keeps_valid l : forall st t, plain_instant t -> t ∉ l ->
  (forall o c, block_time_to_compaction_block_time_map st !! o = Some c -> is_Some (compacted_times c)) ->
  t ∉ valid_block_instants (p2_result st) ->
  t ∉ valid_block_instants (p2_result (foldl (pass2_step m) st l)).
Proof.
  induction l as [|u l IH]; intros st t Ht Hl Hmap Hv; cbn [foldl]; [done|].
  apply not_elem_of_cons in Hl as [Hu Hl]. unfold pass2_step at 2.
  destruct (m !! u) as [[|b bs]|] eqn:Hm; try by apply IH.
  assert (Hct : compacted_times u = header b.2 !! CompactedBlockTimes)
    by (unfold compacted_times; by rewrite Hm).
  destruct (header b.2 !! CompactedBlockTimes) as [times|] eqn:Hh.
  - apply IH; try done. cbn. intros o c [Ho|[_ [->|Ho]]]%register_values; eauto.
  - destruct (block_time_to_compaction_block_time_map st !! u) as [c|] eqn:Hc.
    + case_decide; [by apply IH|]. apply IH; try done. cbn. destruct Ht as [_ Ht].
      intros [?|Ht'%list_elem_of_singleton]%elem_of_app; [done|]. subst c. apply Hmap in Hc.
      rewrite Ht in Hc. by destruct Hc.
    + apply IH; try done. cbn. set_solver.
Qed.

(** An instant that a newer one's blocks replace is not queued. *)
Lemma replaced_not_valid v1 v2 t c :
  NoDup (v1 ++ t :: v2) -> plain_instant t -> c ∈ v1 -> compacted_into t c ->
  t ∉ valid_block_instants
        (p2_result (foldl (pass2_step m) (mkPass2State (mkPass2 [] ∅ []) ∅) (v1 ++ t :: v2))).
Proof.
  intros Hn Ht Hc Hi. apply list.NoDup_app in Hn as (Hn1 & Hd & [Htv2 Hn2]%NoDup_cons).
  rewrite foldl_app. set (st := foldl _ _ v1).
  assert (Hst : pass2_inv v1 st) by (apply (pass2_fold_inv v1 []); [apply pass2_init_inv|done]).
  assert (Htv1 : t ∉ v1) by (intros Hx; apply (Hd t Hx); by left).
  cbn [foldl]. apply fold_keeps_valid; [done|done|..].
  - intros o d Ho. pose proof (pass2_step_inv v1 st t Hst Htv1) as Hs.
    by destruct (p2_map _ _ Hs o d Ho) as (_ & ? & _).
  - assert (Hv : t ∉ valid_block_instants (p2_result st)) by (intros Hx; by apply Hst in Hx as [? _]).
    destruct (p2_named _ _ Hst t c Hc Hi) as [f Hf]. pose proof Ht as [(b & bs & Hm) Hp].
    unfold pass2_step. rewrite Hm. unfold compacted_times in Hp. rewrite Hm in Hp. rewrite Hp, Hf.
    case_decide; [done|]. cbn. destruct (p2_map _ _ Hst t f Hf) as (Hfv & _). set_solver.
Qed.

(** Without compaction the scan queues every instant it visits. *)
Lemma pass2_plain l : forall st, (forall t, t ∈ l -> plain_instant t) ->
  block_time_to_compaction_block_time_map st = ∅ ->
  p2_result (foldl (pass2_step m) st l) =
    foldl (fun r t => push_instant (instant_blocks t) t r) (p2_result st) l.
Proof.
  induction l as [|t l IH]; intros st Hl Hm; cbn [foldl]; [done|].
  destruct (Hl t ltac:(by left)) as [(b & bs & Hb) Hp].
  assert (Hs : pass2_step m st t = mkPass2State (push_instant (instant_blocks t) t (p2_result st)) ∅).
  { unfold pass2_step, instant_blocks. unfold compacted_times in Hp. rewrite Hb in Hp |- *.
    by rewrite Hp, Hm, lookup_empty. }
  rewrite Hs, IH; [done|set_solver|done].
Qed.

Lemma push_all l : forall r,
  foldl (fun r t => push_instant (instant_blocks t) t r) r l =
  mkPass2 (current_instant_log_blocks r ++ concat ((fun t => reverse (instant_blocks t)) <$> l))
    (list_to_set l ∪ instant_times_included r) (valid_block_instants r ++ l).
Proof.
  induction l as [|t l IH]; intros [q i v]; cbn [foldl].
  - cbn. rewrite !app_nil_r. f_equal. set_solver.
  - rewrite IH. cbn. rewrite <- !app_assoc. f_equal. set_solver.
Qed.
End pass2.

Lemma reverse_concat {A B} (f : A -> list B) l :
  reverse (concat ((fun t => reverse (f t)) <$> l)) = concat (f <$> reverse l).
Proof.
  induction l as [|a l IH]; [done|]. rewrite fmap_cons, concat_cons, reverse_app, reverse_involutive, IH.
  rewrite reverse_cons, fmap_app, concat_app. cbn. by rewrite app_nil_r.
Qed.

Section scan_properties.
Context {C : Chrono} {AB : ArrowBatch}.

(** Pass 1 keeps, of the blocks it is given, those the gates admit and no
    later rollback block takes back: under their instants, the instants in the
    order they were first seen in and once each, the blocks of an instant in the
    order of the files.  It counts every block, the corrupt ones and the
    rollbacks. *)
Theorem forward_scan_pass1_spec latest range tz gate bs :
  (forall b, b ∈ bs -> comparable_block range tz b) ->
  exists p, forward_scan_pass1 latest range tz gate bs = Ok p /\
    let live := live_blocks latest range tz gate bs in
    ordered_instants_list p = first_seen live.*1 /\
    (forall t, default [] (instant_to_blocks_map p !! t) = blocks_of t live) /\
    (forall t, is_Some (instant_to_blocks_map p !! t) <-> t ∈ ordered_instants_list p) /\
    total_log_blocks p = Z.of_nat (length bs) /\
    total_corrupt_blocks p = Z.of_nat (length (filter (fun b => block_type b.2 = Corrupted) bs)).
Proof.
  intros Hb. destruct (forward_scan_agrees latest range tz gate bs Hb) as (p & E & Hp).
  exists p. split; [done|]. intros live. pose proof Hp as (Ho & Hm & H1 & H2 & _).
  split_and!; [done|by intros t; eapply agrees_blocks| |done|done].
  intros t. rewrite Ho, elem_of_first_seen, Hm. fold live.
  pose proof (blocks_of_nil t live). destruct (blocks_of t live) as [|x l]; split.
  - by intros [? [=]].
  - intros Ht. by destruct (proj1 H eq_refl).
  - intros _. destruct (decide (t ∈ live.*1)); [done|]. by apply H in n.
  - by eexists.
Qed.

(** Pass 2 queues each valid instant once, its blocks together, and draining
    the queue from the back gives the instants in the reverse of the order they
    were found valid in, their blocks in the order of the files.  Nothing is lost
    and nothing made up: every instant that wrote its own blocks is valid or was
    compacted, in some number of steps, into a valid one, and every valid instant
    is such an instant or one it was compacted into.  An instant a later one
    replaces does not contribute its own blocks. *)
Theorem reverse_scan_pass2_spec p :
  NoDup (ordered_instants_list p) ->
  let m := instant_to_blocks_map p in
  let r := reverse_scan_pass2 p in
  NoDup (valid_block_instants r) /\
  instant_times_included r = list_to_set (valid_block_instants r) /\
  ordered_blocks r = concat (instant_blocks m <$> reverse (valid_block_instants r)) /\
  (forall t, t ∈ ordered_instants_list p -> plain_instant m t ->
     exists c, c ∈ valid_block_instants r /\ rtc (compacted_into m) t c) /\
  (forall c, c ∈ valid_block_instants r -> c ∈ ordered_instants_list p /\
     exists t, t ∈ ordered_instants_list p /\ plain_instant m t /\ rtc (compacted_into m) t c) /\
  (forall l1 t l2 c, ordered_instants_list p = l1 ++ t :: l2 -> c ∈ l2 ->
     plain_instant m t -> compacted_into m t c -> t ∉ valid_block_instants r).
Proof.
  intros Hn m r. assert (Hn' : NoDup (reverse (ordered_instants_list p))) by by rewrite reverse_Permutation.
  subst r. unfold reverse_scan_pass2. fold m. set (st := foldl _ _ _).
  pose proof (pass2_fold_inv m _ [] _ (pass2_init_inv m) Hn' : pass2_inv m (reverse (ordered_instants_list p)) st) as [].
  split_and!; try done.
  - unfold ordered_blocks. rewrite p2_deque0. apply reverse_concat.
  - intros t Ht. apply p2_kept0. by apply elem_of_reverse.
  - intros c (Hc & u & Hu & Hp & Hr)%p2_valid0. apply (proj1 (elem_of_reverse _ _)) in Hc, Hu. eauto.
  - intros l1 t l2 c Hl Hc Hp Hi. unfold st. rewrite Hl in Hn' |- *.
    rewrite reverse_app, reverse_cons, <- app_assoc in Hn' |- *. cbn [app] in Hn' |- *.
    eapply replaced_not_valid; try done. by apply elem_of_reverse.
Qed.

(** Both passes, on logs without compacted blocks: the blocks to merge are
    the live ones, grouped by instant, the groups in the order their instants
    were first seen in. *)
Theorem scan_without_compaction latest range tz gate bs :
  (forall b, b ∈ bs -> comparable_block range tz b /\ header b.2 !! CompactedBlockTimes = None) ->
  exists p, forward_scan_pass1 latest range tz gate bs = Ok p /\
    let live := live_blocks latest range tz gate bs in
    ordered_blocks (reverse_scan_pass2 p) =
      concat ((fun t => blocks_of t live) <$> first_seen live.*1) /\
    valid_block_instants (reverse_scan_pass2 p) = reverse (first_seen live.*1).
Proof.
  intros Hb. destruct (forward_scan_agrees latest range tz gate bs) as (p & E & Hp); [naive_solver|].
  exists p. split; [done|]. intros live. pose proof Hp as (Ho & Hm & _).
  assert (Hpl : forall t, t ∈ reverse (ordered_instants_list p) -> plain_instant (instant_to_blocks_map p) t).
  { intros t. rewrite elem_of_reverse, Ho, elem_of_first_seen. intros Ht.
    unfold plain_instant, compacted_times. rewrite Hm. fold live.
    destruct (blocks_of t live) as [|b l] eqn:El; [by apply blocks_of_nil in El|].
    split; [by eauto|]. assert (Hin : b ∈ blocks_of t live) by (rewrite El; left).
    apply list_elem_of_fmap in Hin as (x & -> & [_ Hx]%list_elem_of_filter). apply Hb.
    by eapply live_blocks_elem. }
  unfold ordered_blocks, reverse_scan_pass2. rewrite pass2_plain by done. rewrite push_all. cbn [p2_result
    current_instant_log_blocks valid_block_instants app]. rewrite reverse_concat, reverse_involutive, Ho.
  split; [|done]. f_equal. apply list_fmap_ext. intros _ t _. by eapply agrees_blocks.
Qed.
End scan_properties.

(** * Samples *)
Module SampleScan.
Definition text_batch : ArrowBatch := {| RecordBatch := string; num_rows := fun s => Z.of_nat (String.length s) |}.
#[export] Existing Instance text_batch.

Definition block_at (t : BlockType) (h : metadata_map) : FileBlock :=
  ("f.log", block_new FormatV1 t h Empty ∅).

Definition data_at (instant : string) : FileBlock := block_at AvroData {[ InstantTime := instant ]}.

Definition rollback_of (instant target : string) : FileBlock :=
  block_at Command (<[ InstantTime := instant ]> (<[ TargetInstantTime := target ]> {[ CommandBlockType := "0" ]})).

(** A block that replaces those of earlier instants. *)
Definition compacted_at (instant times : string) : FileBlock :=
  block_at ParquetData (<[ InstantTime := instant ]> {[ CompactedBlockTimes := times ]}).

(** Two blocks of one instant, one rolled back and written again, one of the
    future and a corrupt one. *)
Definition sample_log : list FileBlock :=
  [data_at "20240401000000"; data_at "20240402000000"; block_at Corrupted ∅; data_at "20240401000000";
   rollback_of "20240403000000" "20240402000000"; data_at "20240403000000"; data_at "20240402000000";
   data_at "20240409000000"].

Lemma sample_log_comparable b : b ∈ sample_log ->
  comparable_block (C := Civil.civil) (Some (up_to "20240405000000" "UTC")) "UTC" b /\
  header b.2 !! CompactedBlockTimes = None.
Proof.
  intros Hb. rewrite <- (comparable_check (C := Civil.civil)).
  revert b Hb. apply Forall_forall. repeat constructor; vm_compute; reflexivity.
Qed.

Lemma forward_scan_pass1_spec_witness :
  exists p, forward_scan_pass1 (C := Civil.civil) "20240408000000" (Some (up_to "20240405000000" "UTC")) "UTC" None
      sample_log = Ok p /\
    ordered_instants_list p = ["20240401000000"; "20240403000000"; "20240402000000"] /\
    default [] (instant_to_blocks_map p !! "20240401000000") = [data_at "20240401000000"; data_at "20240401000000"] /\
    total_log_blocks p = 8 /\ total_corrupt_blocks p = 1.
Proof.
  destruct (forward_scan_pass1_spec (C := Civil.civil) "20240408000000" (Some (up_to "20240405000000" "UTC")) "UTC" None
    sample_log) as (p & E & Ho & Hb & _ & H1 & H2); [by intros b Hb; apply sample_log_comparable|].
  exists p. split; [exact E|]. rewrite Ho, Hb, H1, H2. split_and!; vm_compute; reflexivity.
Defined.

Lemma scan_without_compaction_witness :
  exists p, forward_scan_pass1 (C := Civil.civil) "20240408000000" (Some (up_to "20240405000000" "UTC")) "UTC" None
      sample_log = Ok p /\
    ordered_blocks (reverse_scan_pass2 p) =
      [data_at "20240401000000"; data_at "20240401000000"; data_at "20240403000000"; data_at "20240402000000"].
Proof.
  destruct (scan_without_compaction (C := Civil.civil) "20240408000000" (Some (up_to "20240405000000" "UTC")) "UTC" None
    sample_log) as (p & E & Ho & _); [exact sample_log_comparable|].
  exists p. split; [exact E|]. rewrite Ho. vm_compute. reflexivity.
Defined.

(** "c" replaces "a" and "b", and "e" replaces "c" and "d". *)
Definition compacted_sample : Pass1Result :=
  mkPass1 ["a"; "b"; "c"; "d"; "x"; "e"]
    (<["a" := [data_at "a"]]> (<["b" := [data_at "b"; data_at "b"]]> (<["c" := [compacted_at "c" "a, b"]]>
      (<["d" := [data_at "d"]]> (<["x" := [data_at "x"; data_at "x"]]> {["e" := [compacted_at "e" "c,d"]]})))))
    8 0 0.

Lemma reverse_scan_pass2_spec_witness :
  NoDup (valid_block_instants (reverse_scan_pass2 compacted_sample)) /\
  ordered_blocks (reverse_scan_pass2 compacted_sample) =
    [compacted_at "e" "c,d"; data_at "x"; data_at "x"] /\
  "b" ∉ valid_block_instants (reverse_scan_pass2 compacted_sample).
Proof.
  assert (Hn : NoDup (ordered_instants_list compacted_sample))
    by (apply (bool_decide_unpack _); vm_compute; exact I).
  destruct (reverse_scan_pass2_spec compacted_sample Hn) as (H1 & _ & H2 & _ & _ & H3).
  split; [exact H1|]. split; [rewrite H2; vm_compute; reflexivity|].
  apply (H3 ["a"] "b" ["c"; "d"; "x"; "e"] "c"); [reflexivity|by left|..].
  - split; [by eexists _, _|reflexivity].
  - exists "a, b". split; [reflexivity|]. vm_compute. by right; left.
Defined.
End SampleScan.
