(* ===== verification/LogFetch.v ===== *)
(** The third pass of the log record reader: fetching the admitted blocks' content
    in windows and merging them in order, and [scan_internal] over the three
    passes (crates/core/src/file_group/reader_v2/log_record_reader.rs).

    The record buffer is an interface ([FileGroupRecordBuffer]), as the source has
    it; the ranged reads of an object store are a parameter. *)
From Stdlib Require Import Ascii.
From stdpp Require Import base gmap sets list strings sorting numbers relations.
From S2P Require Import Prelude RustStr Chrono Config Instant Selector StorageReader RecordBatches LogFormat LogReader LogEncoding Scanner View LogScan.
Local Open Scope res_scope.
Local Open Scope Z_scope.

(** What the log reader asks of [HoodieFileGroupRecordBuffer]: both operations
    give back what is left of the block's content. *)
Class FileGroupRecordBuffer {AB : ArrowBatch} (S : Type) := {
  buffer_process_data_block : S -> LogBlock -> res (S * LogBlockContent);
  buffer_process_delete_block : S -> LogBlock -> res (S * LogBlockContent);
  buffer_total_log_records : S -> Z
}.

(** [ObjectStore::get_ranges] of the store of a path. *)
Class RangeStore := object_get_ranges : string -> list (Z * Z) -> option (list bytes).

(** [stream_window_size] *)
Definition CONFIG_DFS_BUFFER_MAX_SIZE : string := "hoodie.memory.dfs.buffer.max.size".
Definition DEFAULT_STREAM_WINDOW_SIZE : Z := 16 * 1024 * 1024.

Definition stream_window_size (configs : HudiConfigs) : option Z :=
  match configs !! CONFIG_DFS_BUFFER_MAX_SIZE with
  | None => Some DEFAULT_STREAM_WINDOW_SIZE
  | Some raw =>
      match parse_u64 (trim raw) with
      | Some 0 | None => None
      | Some size => Some size
      end
  end.

Section windows.
Context {AB : ArrowBatch}.

(** * Planning the windows *)
Record PlanState := mkPlan {
  windows : list (list nat);
  current : list nat;
  current_file : option string;
  current_bytes : Z
}.

Definition non_empty {A} (l : list A) : bool := match l with [] => false | _ => true end.

Definition flush (st : PlanState) : PlanState := mkPlan (windows st ++ [current st]) [] None 0.

Definition plan_add (idx : nat) (file : string) (len : Z) (st : PlanState) : PlanState :=
  mkPlan (windows st) (current st ++ [idx])
    (if non_empty (current st) then current_file st else Some file)
    (saturating_add (current_bytes st) len).

Definition plan_step (budget : Z) (st : PlanState) (idx : nat) (b : FileBlock) : PlanState :=
  if negb (queued_type (block_type b.2)) then st
  else match resident_content b.2, deferred_content b.2 with
  | None, Some location =>
      let len := content_length location in
      let spans_files := match current_file st with Some f => negb (bool_decide (f = b.1)) | None => false end in
      let over_budget := non_empty (current st) && (budget <? saturating_add (current_bytes st) len) in
      plan_add idx b.1 len (if spans_files || over_budget then flush st else st)
  | _, _ => st
  end.

(** The loop over the blocks from index [i]. *)
Fixpoint plan_from (budget : Z) (i : nat) (blocks : list FileBlock) (st : PlanState) : PlanState :=
  match blocks with
  | [] => st
  | b :: rest => plan_from budget (S i) rest (plan_step budget st i b)
  end.

Definition plan_content_windows (blocks : list FileBlock) (budget : Z) : list (list nat) :=
  let st := plan_from budget 0 blocks (mkPlan [] [] None 0) in
  if non_empty (current st) then windows st ++ [current st] else windows st.

(** * Fetching a window *)
Context {RS : RangeStore}.

(** [start..start + length]; the sum is checked, as in a build with overflow
    checks. *)
Definition content_range (blocks : list FileBlock) (idx : nat) : res (Z * Z) :=
  match blocks !! idx with
  | Some (_, block) =>
      match deferred_content block with
      | Some loc =>
          match checked_add (content_position loc) (content_length loc) with
          | Some end_ => Ok (content_position loc, end_)
          | None => Panic
          end
      | None => Panic
      end
  | None => Panic
  end.

Fixpoint insert_all (out : gmap nat bytes) (kvs : list (nat * bytes)) : gmap nat bytes :=
  match kvs with
  | [] => out
  | (k, v) :: kvs => insert_all (<[k := v]> out) kvs
  end.

Definition fetch_window (blocks : list FileBlock) (batch : list nat) (out : gmap nat bytes)
    : res (gmap nat bytes) :=
  match batch with
  | [] => Panic
  | first :: _ =>
      match blocks !! first with
      | None => Panic
      | Some (file, block) =>
          match deferred_content block with
          | None => Ok out
          | Some _ =>
              let? ranges := res_mapM (content_range blocks) batch in
              let? contents := ok_or (object_get_ranges file ranges) EReadLogFile in
              Ok (insert_all out (zip batch contents))
          end
      end
  end.
End windows.

Definition clear_resident {AB : ArrowBatch} (b : LogBlock) : LogBlock :=
  mkBlock (format_version b) (block_type b) (header b) (content b) (footer b) (deferred_content b)
    None (skipped b).

Definition with_content {AB : ArrowBatch} (c : LogBlockContent) (b : LogBlock) : LogBlock :=
  mkBlock (format_version b) (block_type b) (header b) c (footer b) (deferred_content b)
    (resident_content b) (skipped b).

(** * Merging the queued blocks *)
Section merge_blocks.
Context {AB : ArrowBatch} {D : ContentDecoder} {RS : RangeStore}.
Context {S : Type} {FB : FileGroupRecordBuffer S}.

(** The bytes to decode, and the block without the bytes it held. *)
Definition queued_block_content (block : LogBlock) (fetched : option bytes)
    : res (option bytes * LogBlock) :=
  match resident_content block with
  | Some b => Ok (Some b, clear_resident block)
  | None =>
      match fetched with
      | Some b => Ok (Some b, block)
      | None => if is_empty (content block) then Err ELogBlock else Ok (None, block)
      end
  end.

Record MergeState := mkMerge {
  record_buffer : S;
  ordered : list FileBlock;
  fetched : gmap nat bytes;
  block_num : Z
}.

(** The second [match] of [merge_blocks]. *)
Definition dispatch_block (buffer : S) (block : LogBlock) : res (S * LogBlock) :=
  match block_type block with
  | AvroData | ParquetData | HfileData =>
      let? (buffer, c) := buffer_process_data_block buffer block in Ok (buffer, with_content c block)
  | Delete =>
      let? (buffer, c) := buffer_process_delete_block buffer block in Ok (buffer, with_content c block)
  | _ => Ok (buffer, block)
  end.

Definition merge_step (st : MergeState) (idx : nat) : res MergeState :=
  match ordered st !! idx with
  | None => Panic
  | Some (file, block) =>
      let? (block, fetched) :=
        if queued_type (block_type block) then
          let? (content, block) := queued_block_content block (fetched st !! idx) in
          let? block := match content with Some b => decode_fetched block b | None => Ok block end in
          Ok (block, delete idx (fetched st))
        else Ok (clear_resident block, fetched st) in
      let? (buffer, block) := dispatch_block (record_buffer st) block in
      Ok (mkMerge buffer (<[idx := (file, block)]> (ordered st)) fetched (block_num st + 1))
  end.

(** [merge_blocks] over [from..=through]. *)
Definition merge_blocks (st : MergeState) (from through : nat) : res MergeState :=
  res_fold merge_step (seq from (Datatypes.S through - from)) st.

Definition merge_window (acc : MergeState * nat) (window : list nat) : res (MergeState * nat) :=
  let '(st, cursor) := acc in
  let? fetched := fetch_window (ordered st) window ∅ in
  match last window with
  | None => Panic
  | Some through =>
      let? st := merge_blocks (mkMerge (record_buffer st) (ordered st) fetched (block_num st)) cursor through in
      Ok (st, Datatypes.S through)
  end.

Definition fetch_and_merge_windows (configs : HudiConfigs) (buffer : S) (blocks : list FileBlock)
    : res MergeState :=
  let? budget := ok_or (stream_window_size configs) EReadLogFile in
  let? (st, cursor) :=
    res_fold merge_window (plan_content_windows blocks budget) (mkMerge buffer blocks ∅ 0, 0%nat) in
  if decide (cursor < length (ordered st))%nat then
    merge_blocks (mkMerge (record_buffer st) (ordered st) ∅ (block_num st)) cursor
      (length (ordered st) - 1)
  else Ok st.
End merge_blocks.

(** * What the plan is *)
Section plan.
Context {AB : ArrowBatch}.

(** Where the content of a block that has to be fetched lies. *)
Definition fetchable (b : FileBlock) : option LogBlockContentLocation :=
  if queued_type (block_type b.2) then
    match resident_content b.2 with Some _ => None | None => deferred_content b.2 end
  else None.

Fixpoint fetchable_from (i : nat) (blocks : list FileBlock) : list nat :=
  match blocks with
  | [] => []
  | b :: rest => match fetchable b with Some _ => i :: fetchable_from (S i) rest | None => fetchable_from (S i) rest end
  end.

Context (all : list FileBlock) (budget : Z).

Definition file_at (i : nat) : option string := fst <$> all !! i.

Definition length_at (i : nat) : Z :=
  match all !! i with
  | Some (_, b) => match deferred_content b with Some loc => content_length loc | None => 0 end
  | None => 0
  end.

Definition total_length (w : list nat) : Z := foldr (fun i n => length_at i + n) 0 w.

(** A window is not empty, reads one file, and stays within the budget unless it
    is one block. *)
Definition window_ok (w : list nat) : Prop :=
  w <> [] /\ (exists f, forall i, i ∈ w -> file_at i = Some f) /\
  (total_length w <= budget \/ length w = 1%nat).

(** Neighbouring windows could not have been one. *)
Definition windows_split (ws : list (list nat)) : Prop :=
  forall l1 w w' l2, ws = l1 ++ w :: w' :: l2 ->
  exists i j, i ∈ w /\ head w' = Some j /\
    (file_at i <> file_at j \/ budget < total_length w + length_at j).

(** Content lengths are [u64]s. *)
Definition lengths_ok : Prop := forall i, 0 <= length_at i <= u64_max.

Lemma total_length_app w w' : total_length (w ++ w') = total_length w + total_length w'.
Proof. induction w as [|i w IH]; cbn; [done|]. fold (total_length (w ++ w')). rewrite IH. unfold total_length. lia. Qed.

Definition with_current (ws : list (list nat)) (w : list nat) : list (list nat) :=
  if non_empty w then ws ++ [w] else ws.

Record plan_inv (st : PlanState) : Prop := {
  pi_windows : Forall window_ok (windows st);
  pi_current :
    (windows st = [] /\ current st = [] /\ current_file st = None /\ current_bytes st = 0) \/
    (window_ok (current st) /\ current_bytes st = total_length (current st) /\
     exists f, current_file st = Some f /\ forall i, i ∈ current st -> file_at i = Some f);
  pi_split : windows_split (with_current (windows st) (current st))
}.

Lemma split_snoc ws w w' :
  windows_split (ws ++ [w]) ->
  (exists i j, i ∈ w /\ head w' = Some j /\ (file_at i <> file_at j \/ budget < total_length w + length_at j)) ->
  windows_split (ws ++ [w; w']).
Proof.
  intros Hs Hw l1 x y l2 E. destruct l2 as [|z l2 _] using rev_ind.
  - change (ws ++ [w; w']) with (ws ++ [w] ++ [w']) in E.
    replace (l1 ++ [x; y]) with ((l1 ++ [x]) ++ [y]) in E by by rewrite <- app_assoc.
    rewrite app_assoc in E. apply app_inj_tail in E as [E ->]. by apply app_inj_tail in E as [_ ->].
  - change (ws ++ [w; w']) with (ws ++ [w] ++ [w']) in E.
    replace (l1 ++ x :: y :: l2 ++ [z]) with ((l1 ++ x :: y :: l2) ++ [z]) in E by by rewrite <- app_assoc.
    rewrite app_assoc in E. apply app_inj_tail in E as [E _]. by eapply Hs.
Qed.

(** Replacing the last window by one with the same head keeps the splits. *)
Lemma split_grow ws w w' : w <> [] -> head w = head w' -> windows_split (ws ++ [w]) -> windows_split (ws ++ [w']).
Proof.
  intros Hne Hh Hs l1 x y l2 E. destruct l2 as [|z l2 _] using rev_ind.
  - replace (l1 ++ [x; y]) with ((l1 ++ [x]) ++ [y]) in E by by rewrite <- app_assoc.
    apply app_inj_tail in E as [-> ->].
    destruct (Hs l1 x w []) as (i & j & Hi & Hj & H); [by rewrite <- app_assoc|].
    exists i, j. split_and!; try done. congruence.
  - replace (l1 ++ x :: y :: l2 ++ [z]) with ((l1 ++ x :: y :: l2) ++ [z]) in E by by rewrite <- app_assoc.
    apply app_inj_tail in E as [-> _]. eapply (Hs l1 x y (l2 ++ [w])). by rewrite <- app_assoc.
Qed.

Lemma plan_step_inv st i b :
  0 <= budget < u64_max -> lengths_ok -> all !! i = Some b -> plan_inv st ->
  plan_inv (plan_step budget st i b) /\
  concat (windows (plan_step budget st i b)) ++ current (plan_step budget st i b) =
    (concat (windows st) ++ current st) ++ match fetchable b with Some _ => [i] | None => [] end.
Proof.
  intros Hb Hl Hi [Hw Hc Hs]. unfold plan_step, fetchable.
  destruct (queued_type (block_type b.2)); cbn [negb]; [|by rewrite app_nil_r].
  destruct (resident_content b.2); [by rewrite app_nil_r|].
  destruct (deferred_content b.2) as [loc|] eqn:Hd; [|by rewrite app_nil_r].
  assert (Hfi : file_at i = Some b.1) by (unfold file_at; by rewrite Hi).
  assert (Hli : length_at i = content_length loc).
  { unfold length_at. rewrite Hi. destruct b as [f b]. cbn in Hd |- *. by rewrite Hd. }
  assert (Hone : window_ok [i]).
  { split_and!; [done| |by right]. exists b.1. by intros j ->%list_elem_of_singleton. }
  pose proof (Hl i) as Hlen. rewrite Hli in Hlen.
  assert (Hsat : saturating_add 0 (content_length loc) = total_length [i])
    by (unfold saturating_add; cbn; lia).
  destruct st as [ws cur cf cb]. cbn [windows current current_file current_bytes] in *.
  destruct Hc as [(-> & -> & -> & ->)|((Hne & Hf & Hbd) & -> & f & -> & Hcf)].
  - cbn. split; [|done]. split; [done| |].
    + right. split; [done|]. split; [exact Hsat|]. exists b.1. split; [done|].
      by intros j ->%list_elem_of_singleton.
    + by intros [|? [|]] w w' l2 E.
  - assert (Hcur : non_empty cur = true) by by destruct cur. rewrite Hcur. cbn [andb].
    assert (Hti : total_length (cur ++ [i]) = total_length cur + content_length loc)
      by (rewrite total_length_app; cbn; rewrite Hli; lia).
    assert (Hnn : forall w, 0 <= total_length w)
      by (intros w; induction w as [|j w IH]; cbn; [done|]; pose proof (Hl j); unfold total_length in IH; lia).
    destruct (negb (bool_decide (f = b.1)) || (budget <? saturating_add (total_length cur) (content_length loc)))
      eqn:Hfl.
    + split; [|cbn; by rewrite concat_app, <- app_assoc; cbn; rewrite app_nil_r, app_assoc].
      split; cbn [flush plan_add windows current current_file current_bytes app non_empty].
      * apply Forall_app. split; [done|]. by apply Forall_singleton.
      * right. split; [done|]. split; [exact Hsat|]. exists b.1. split; [done|].
        by intros j ->%list_elem_of_singleton.
      * unfold with_current in Hs |- *. rewrite Hcur in Hs. cbn [non_empty]. rewrite <- app_assoc.
        apply split_snoc; [done|]. destruct cur as [|j cur]; [done|].
        exists j, i. split_and!; [left|done|]. rewrite (Hcf j) by left. rewrite Hfi, Hli.
        apply orb_true_iff in Hfl as [Hfl|Hfl].
        -- left. apply negb_true_iff, bool_decide_eq_false in Hfl. congruence.
        -- right. unfold saturating_add in Hfl. specialize (Hnn (j :: cur)). lia.
    + apply orb_false_iff in Hfl as [Hfile Hfl]. apply negb_false_iff, bool_decide_eq_true in Hfile as ->.
      unfold saturating_add in Hfl.
      split; [|cbn; by rewrite app_assoc].
      assert (Hall : forall j, j ∈ cur ++ [i] -> file_at j = Some b.1).
      { by intros j [Hj| ->%list_elem_of_singleton]%elem_of_app; [apply Hcf|]. }
      split; cbn [plan_add windows current current_file current_bytes]; [done| |].
      * right. rewrite Hcur. split; [split_and!|split].
        -- by intros [_ ?]%app_eq_nil.
        -- by exists b.1.
        -- left. rewrite Hti. lia.
        -- rewrite Hti. unfold saturating_add. lia.
        -- by exists b.1.
      * unfold with_current in Hs |- *. rewrite Hcur in Hs. replace (non_empty (cur ++ [i])) with true by by destruct cur.
        eapply split_grow; [exact Hne| |done]. by destruct cur.
Qed.

Lemma plan_from_inv rest : forall i st,
  0 <= budget < u64_max -> lengths_ok -> drop i all = rest -> plan_inv st ->
  plan_inv (plan_from budget i rest st) /\
  concat (windows (plan_from budget i rest st)) ++ current (plan_from budget i rest st) =
    (concat (windows st) ++ current st) ++ fetchable_from i rest.
Proof.
  induction rest as [|b rest IH]; intros i st Hb Hl Hd Hst; cbn [plan_from fetchable_from];
    [by rewrite app_nil_r|].
  assert (Hi : all !! i = Some b) by (rewrite <- (Nat.add_0_r i), <- lookup_drop, Hd; done).
  destruct (plan_step_inv st i b Hb Hl Hi Hst) as [Hst' E].
  destruct (IH (S i) (plan_step budget st i b) Hb Hl) as [Hst'' E'']; [|done|].
  { rewrite <- Nat.add_1_r, <- drop_drop, Hd. done. }
  split; [done|]. rewrite E'', E, <- !app_assoc. f_equal. f_equal. by destruct (fetchable b).
Qed.

Lemma plan_ok : 0 <= budget < u64_max -> lengths_ok ->
  concat (plan_content_windows all budget) = fetchable_from 0 all /\
  Forall window_ok (plan_content_windows all budget) /\
  windows_split (plan_content_windows all budget).
Proof.
  intros Hb Hl. unfold plan_content_windows.
  destruct (plan_from_inv all 0 (mkPlan [] [] None 0) Hb Hl eq_refl) as [[Hw Hc Hs] E].
  { split; [done|by left|]. by intros [|? []] w w' l2 Hx. }
  cbn in E. set (st := plan_from _ _ _ _) in *. fold (with_current (windows st) (current st)).
  split_and!; [|unfold with_current; destruct (non_empty (current st)) eqn:Hn|done].
  - rewrite <- E. unfold with_current. destruct (current st); cbn; [by rewrite app_nil_r|].
    by rewrite concat_app; cbn; rewrite app_nil_r.
  - apply Forall_app. split; [done|]. apply Forall_singleton.
    destruct Hc as [(_ & Hc & _)|[Hc _]]; [by rewrite Hc in Hn|done].
  - done.
Qed.

Lemma elem_of_fetchable rest : forall i j, j ∈ fetchable_from i rest <->
  (i <= j)%nat /\ exists b, rest !! (j - i)%nat = Some b /\ is_Some (fetchable b).
Proof.
  induction rest as [|b rest IH]; intros i j; cbn [fetchable_from].
  - rewrite elem_of_nil. split; [done|]. by intros (_ & b & Hb & _).
  - assert (Hrec : j ∈ fetchable_from (S i) rest <->
      (i < j)%nat /\ exists c, (b :: rest) !! (j - i)%nat = Some c /\ is_Some (fetchable c)).
    { rewrite IH. split; intros (Hij & c & Hc & Hf).
      - split; [lia|]. exists c. split; [|done]. by replace (j - i)%nat with (S (j - S i)) by lia.
      - split; [lia|]. exists c. split; [|done]. by replace (j - i)%nat with (S (j - S i)) in Hc by lia. }
    assert (Hj : (i <= j)%nat <-> j = i \/ (i < j)%nat) by lia.
    destruct (fetchable b) as [loc|] eqn:Hb; [rewrite elem_of_cons|]; rewrite Hrec; clear Hrec; split.
    + intros [->|[? H]]; [|split; [lia|done]]. split; [lia|]. exists b. rewrite Nat.sub_diag. by rewrite Hb.
    + intros [[->|H']%Hj H]; [by left|by right].
    + intros [? H]. split; [lia|done].
    + intros [[->|H']%Hj (c & Hc & Hf)]; [|eauto]. rewrite Nat.sub_diag in Hc. injection Hc as <-.
      rewrite Hb in Hf. by destruct Hf.
Qed.

Lemma fetchable_sorted rest : forall i, StronglySorted lt (fetchable_from i rest).
Proof.
  induction rest as [|b rest IH]; intros i; cbn [fetchable_from]; [constructor|].
  destruct (fetchable b); [|done]. constructor; [done|]. apply Forall_forall.
  intros j [Hj _]%elem_of_fetchable. lia.
Qed.
End plan.

(** * Windows are invisible to the merge *)

(** Two fallible computations that fail alike, or give related results. *)
Definition res_agree {A B} (R : A -> B -> Prop) (x : res A) (y : res B) : Prop :=
  match x, y with
  | Ok a, Ok b => R a b
  | Err e, Err e' => e = e'
  | Panic, Panic => True
  | _, _ => False
  end.

Lemma res_agree_bind {A B A' B'} (R : A -> A' -> Prop) (R' : B -> B' -> Prop) x x' f f' :
  res_agree R x x' -> (forall a a', R a a' -> res_agree R' (f a) (f' a')) ->
  res_agree R' (res_bind x f) (res_bind x' f').
Proof. destruct x, x'; cbn; intros H Hf; try done. by apply Hf. Qed.

Section invisible.
Context {AB : ArrowBatch} {D : ContentDecoder} {RS : RangeStore} {LS : LogStorage}.
Context {S : Type} {FB : FileGroupRecordBuffer S}.

(** The reference: each block in turn loads its own content and is merged. *)
Definition load_and_merge (buffer : S) (fb : FileBlock) : res S :=
  let? block :=
    if queued_type (block_type fb.2)
    then load_content (get_range (OS := log_store fb.1)) fb.2 else Ok fb.2 in
  res_map fst (dispatch_block buffer block).

(** The object of a path can be read, by ranges too. *)
Record path_served (path : string) (object : bytes) : Prop := {
  ps_size : blen object <= u64_max;
  ps_one : ServesObject (log_store path) object;
  ps_many : forall ranges, Forall (fun r => 0 <= r.1 <= r.2 /\ r.2 <= blen object) ranges ->
    object_get_ranges path ranges = Some ((fun r => slice object r.1 r.2) <$> ranges)
}.

Context (objects : string -> bytes).

(** A block as the walk leaves it: what it holds or where to find it, not both its
    content decoded and its bytes; what is to be fetched lies in its file. *)
Definition located (fb : FileBlock) : Prop :=
  (resident_content fb.2 <> None -> content fb.2 = Empty) /\
  (forall loc, deferred_content fb.2 = Some loc -> path_served fb.1 (objects fb.1) /\
    0 <= content_position loc /\ 0 <= content_length loc /\
    content_position loc + content_length loc <= blen (objects fb.1)).

(** The bytes a fetch brings for a block. *)
Definition bytes_of (fb : FileBlock) : option bytes :=
  match fetchable fb with
  | Some loc =>
      match get_range (OS := log_store fb.1) (content_position loc) (content_length loc) with
      | IoOk b => Some b
      | _ => None
      end
  | None => None
  end.

Lemma get_range_located (fb : FileBlock) loc object : path_served fb.1 object ->
  0 <= content_position loc -> 0 <= content_length loc ->
  content_position loc + content_length loc <= blen object ->
  get_range (OS := log_store fb.1) (content_position loc) (content_length loc) =
    IoOk (slice object (content_position loc) (content_position loc + content_length loc)).
Proof.
  intros [Hs H1 _] Hp Hl He. unfold get_range, checked_add.
  destruct (Z.leb_spec (content_position loc + content_length loc) u64_max); [|lia].
  by rewrite (H1 _ _) by lia.
Qed.

Lemma decode_fetched_resident b bytes b' : decode_fetched b bytes = Ok b' -> resident_content b' = resident_content b.
Proof.
  unfold decode_fetched. destruct (negb _); [by intros [= <-]|].
  destruct (deferred_content b); [|done]. destruct (negb _); [done|].
  intros H. by res_inv H.
Qed.

Definition released (file : string) (ofb : option FileBlock) : Prop :=
  exists b, ofb = Some (file, b) /\ resident_content b = None.

(** One step, on a block not visited yet. *)
Definition stepped (st : MergeState (S:=S)) (idx : nat) (file : string) (st' : MergeState (S:=S)) (buffer' : S) : Prop :=
  record_buffer st' = buffer' /\ length (ordered st') = length (ordered st) /\
  (forall j, j <> idx -> ordered st' !! j = ordered st !! j /\ fetched st' !! j = fetched st !! j) /\
  released file (ordered st' !! idx).

(** What [merge_step] makes of a block is what the block is loaded as. *)
Lemma queued_load_agree (fb : FileBlock) fetched :
  located fb -> queued_type (block_type fb.2) = true -> fetched = bytes_of fb ->
  res_agree (fun b b' => b = b' /\ resident_content b = None)
    (let? (content, block) := queued_block_content fb.2 fetched in
     match content with Some b => decode_fetched block b | None => Ok block end)
    (load_content (get_range (OS := log_store fb.1)) fb.2).
Proof.
  intros [Hex Hloc] Hq ->. unfold queued_block_content, bytes_of, fetchable, load_content. rewrite Hq.
  assert (Hdec : forall b bytes, resident_content b = None ->
    res_agree (fun b b' => b = b' /\ resident_content b = None) (decode_fetched b bytes) (decode_fetched b bytes)).
  { intros b bytes Hb. destruct (decode_fetched b bytes) eqn:E; cbn; [|done|done].
    split; [done|]. by rewrite (decode_fetched_resident _ _ _ E). }
  destruct (resident_content fb.2) as [bytes|] eqn:Hr.
  - unfold clear_resident. rewrite Hex by done. cbn [is_empty negb res_bind]. by apply Hdec.
  - destruct (deferred_content fb.2) as [loc|] eqn:Hd.
    + destruct (Hloc loc eq_refl) as (Hs & H1 & H2 & H3).
      rewrite (get_range_located fb loc (objects fb.1)) by done. cbn [res_bind].
      destruct (is_empty (content fb.2)) eqn:He; cbn [negb]; [by apply Hdec|].
      unfold decode_fetched. rewrite He. by cbn.
    + destruct (is_empty (content fb.2)) eqn:He; by cbn.
Qed.

Lemma dispatch_resident buffer b buffer' b' :
  dispatch_block buffer b = Ok (buffer', b') -> resident_content b' = resident_content b.
Proof. unfold dispatch_block. intros H. by destruct (block_type b); res_inv H. Qed.

Lemma merge_step_agree st idx (fb : FileBlock) :
  ordered st !! idx = Some fb -> located fb -> fetched st !! idx = bytes_of fb ->
  res_agree (stepped st idx fb.1) (merge_step st idx) (load_and_merge (record_buffer st) fb).
Proof.
  intros Hi Hl Hf. unfold merge_step, load_and_merge. rewrite Hi.
  destruct fb as [file block]. cbn [fst snd].
  assert (Hafter : forall b b' m, resident_content b = None ->
    (forall j, j <> idx -> m !! j = fetched st !! j) ->
    res_agree (fun x y => x.1 = y.1) (dispatch_block (record_buffer st) b) (dispatch_block (record_buffer st) b') ->
    res_agree (stepped st idx file)
      (let? (buffer, block) := dispatch_block (record_buffer st) b in
       Ok (mkMerge buffer (<[idx := (file, block)]> (ordered st)) m (block_num st + 1)))
      (res_map fst (dispatch_block (record_buffer st) b'))).
  { intros b b' m Hb Hm Hd. destruct (dispatch_block (record_buffer st) b) as [[buffer c]| |] eqn:E,
      (dispatch_block (record_buffer st) b') as [[buffer' c']| |]; cbn in Hd |- *; try done. subst buffer'.
    split_and!; cbn; [done|by rewrite length_insert| |].
    - intros j Hj. split; [by apply list_lookup_insert_ne|by apply Hm].
    - exists c. rewrite list_lookup_insert_eq by by eapply lookup_lt_Some. split; [done|].
      rewrite (dispatch_resident _ _ _ _ E). done. }
  destruct (queued_type (block_type block)) eqn:Hq.
  - pose proof (queued_load_agree (file, block) (fetched st !! idx) Hl Hq Hf) as Ha. cbn [fst snd] in Ha.
    destruct (queued_block_content block (fetched st !! idx)) as [[c b]|e|]; cbn [res_bind] in Ha |- *;
      [|by destruct (load_content _ _)..].
    destruct (match c with Some b0 => _ | None => _ end) as [b1|e|], (load_content _ _) as [b2|e'|];
      cbn [res_agree res_bind] in Ha |- *; try done; try (by subst).
    destruct Ha as [<- Hb]. apply Hafter; [done| |by destruct (dispatch_block _ b1)].
    intros j Hj. by apply lookup_delete_ne.
  - cbn [res_bind]. apply Hafter; [done|done|]. unfold dispatch_block. cbn [clear_resident block_type].
    by destruct (block_type block).
Qed.

(** A run of steps over the [n] blocks from [a] on. *)
Definition ran (st : MergeState (S:=S)) (a n : nat) (st' : MergeState (S:=S)) (buffer' : S) : Prop :=
  record_buffer st' = buffer' /\ length (ordered st') = length (ordered st) /\
  (forall j, (j < a \/ a + n <= j)%nat -> ordered st' !! j = ordered st !! j) /\
  (forall j, (a <= j < a + n)%nat -> exists file, released file (ordered st' !! j)).

Lemma merge_range_agree l : forall a st,
  (forall k fb, l !! k = Some fb ->
     ordered st !! (a + k)%nat = Some fb /\ located fb /\ fetched st !! (a + k)%nat = bytes_of fb) ->
  res_agree (ran st a (length l)) (res_fold merge_step (seq a (length l)) st)
    (res_fold load_and_merge l (record_buffer st)).
Proof.
  induction l as [|fb l IH]; intros a st Hl.
  - cbn. split_and!; [done|done|done|lia].
  - cbn [length seq res_fold]. destruct (Hl 0%nat fb eq_refl) as (Ho & Hloc & Hf). rewrite Nat.add_0_r in Ho, Hf.
    eapply res_agree_bind; [by apply merge_step_agree|].
    intros st1 buffer1 (<- & Hlen & Hother & Hrel).
    assert (Hrest : forall k fb, l !! k = Some fb ->
      ordered st1 !! (Datatypes.S a + k)%nat = Some fb /\ located fb /\ fetched st1 !! (Datatypes.S a + k)%nat = bytes_of fb).
    { intros k b Hk. destruct (Hl (Datatypes.S k) b Hk) as (Ho1 & Hl1 & Hf1).
      destruct (Hother (Datatypes.S a + k)%nat ltac:(lia)) as [-> ->].
      replace (Datatypes.S a + k)%nat with (a + Datatypes.S k)%nat by lia. done. }
    specialize (IH (Datatypes.S a) st1 Hrest). revert IH.
    destruct (res_fold merge_step _ st1) as [st2| |], (res_fold load_and_merge l _) as [b2| |]; cbn; try done.
    intros (<- & Hlen2 & Hout & Hin). split_and!; [done|congruence| |].
    + intros j Hj. rewrite Hout by lia. apply Hother. lia.
    + intros j Hj. destruct (decide (j = a)) as [->|]; [rewrite Hout by lia; by eexists|apply Hin; lia].
Qed.

Lemma insert_all_lookup keys : forall (vals : list bytes) m, NoDup keys -> length vals = length keys ->
  (forall k i, keys !! k = Some i -> insert_all m (zip keys vals) !! i = vals !! k) /\
  (forall i, i ∉ keys -> insert_all m (zip keys vals) !! i = m !! i).
Proof.
  induction keys as [|x keys IH]; intros [|v vals] m Hn Hlen; try done.
  apply NoDup_cons in Hn as [Hx Hn]. cbn [zip_with insert_all].
  destruct (IH vals (<[x := v]> m) Hn ltac:(by injection Hlen)) as [IH1 IH2]. split.
  - intros [|k] i Hi; cbn in Hi |- *; [|by apply IH1].
    injection Hi as <-. by rewrite IH2, lookup_insert_eq.
  - intros i [Hi Hk]%not_elem_of_cons. by rewrite IH2, lookup_insert_ne.
Qed.

Lemma fetch_window_ok blocks w f :
  w <> [] -> NoDup w ->
  (forall i, i ∈ w -> exists b, blocks !! i = Some (f, b) /\ located (f, b) /\ is_Some (fetchable (f, b))) ->
  exists m, fetch_window blocks w ∅ = Ok m /\
    (forall i b, i ∈ w -> blocks !! i = Some (f, b) -> m !! i = bytes_of (f, b)) /\
    (forall i, i ∉ w -> m !! i = None).
Proof.
  intros Hne Hn Hw.
  assert (Hd : forall b, is_Some (fetchable (f, b)) -> fetchable (f, b) = deferred_content b).
  { intros b. unfold fetchable. cbn [fst snd]. destruct (queued_type _), (resident_content b); cbn; by intros [? [=]]. }
  assert (Hobj : forall i, i ∈ w -> exists b loc,
    blocks !! i = Some (f, b) /\ fetchable (f, b) = Some loc /\ deferred_content b = Some loc /\
    path_served f (objects f) /\ 0 <= content_position loc /\ 0 <= content_length loc /\
    content_position loc + content_length loc <= blen (objects f)).
  { intros i Hi. destruct (Hw i Hi) as (b & Hb & [_ Hloc] & [loc Hf]).
    exists b, loc. pose proof (Hd b (ltac:(by eexists))) as Hdb. rewrite Hf in Hdb.
    split; [done|]. split; [done|]. split; [done|]. by apply (Hloc loc). }
  set (range_of i := match blocks !! i with
    | Some (_, b) => match deferred_content b with
        | Some loc => (content_position loc, content_position loc + content_length loc) | None => (0, 0) end
    | None => (0, 0) end).
  assert (Hr : res_mapM (content_range blocks) w = Ok (range_of <$> w)).
  { apply res_mapM_Ok, Forall2_fmap_r, Forall_Forall2_diag, Forall_forall. intros i Hi.
    destruct (Hobj i Hi) as (b & loc & Hb & _ & Hdc & [Hs _ _] & Hb1 & Hb2 & Hb3).
    unfold content_range, range_of. rewrite Hb, Hdc. unfold checked_add.
    destruct (Z.leb_spec (content_position loc + content_length loc) u64_max); [|lia]. cbn. by rewrite Hb, Hdc. }
  destruct w as [|i0 w0]; [done|]. destruct (Hobj i0 ltac:(by left)) as (b0 & loc0 & Hb0 & _ & Hd0 & Hserved & _).
  cbn [fetch_window]. rewrite Hb0, Hd0, Hr. cbn [res_bind].
  rewrite (ps_many _ _ Hserved).
  2:{ apply Forall_fmap, Forall_forall. intros i Hi. destruct (Hobj i Hi) as (b & loc & Hb & _ & Hdc & _ & H1 & H2 & H3).
      cbn. unfold range_of. rewrite Hb, Hdc. cbn. lia. }
  cbn [ok_or res_bind]. eexists. split; [done|].
  destruct (insert_all_lookup (i0 :: w0) ((fun r => slice (objects f) r.1 r.2) <$> (range_of <$> i0 :: w0)) ∅ Hn)
    as [Hin Hout]; [by rewrite !length_fmap|]. split; [|intros i Hi; rewrite Hout by done; apply lookup_empty].
  intros i b Hi Hb. destruct (Hobj i Hi) as (b' & loc & Hb' & Hf & Hdc & _ & H1 & H2 & H3). simplify_eq.
  apply list_elem_of_lookup in Hi as [k Hk]. rewrite (Hin k i Hk), !list_lookup_fmap, Hk. cbn.
  unfold bytes_of. rewrite Hf. rewrite (get_range_located (f, b) loc (objects f)) by done.
  unfold range_of. by rewrite Hb, Hdc.
Qed.

(** A list is cut at a bound in one way. *)
Lemma cut_unique (t : nat) (l1 l2 k1 k2 : list nat) :
  l1 ++ l2 = k1 ++ k2 -> (forall i, i ∈ l1 -> (i < t)%nat) -> (forall i, i ∈ l2 -> (t <= i)%nat) ->
  (forall i, i ∈ k1 -> (i < t)%nat) -> (forall i, i ∈ k2 -> (t <= i)%nat) -> l1 = k1 /\ l2 = k2.
Proof.
  intros E H1 H2 H3 H4.
  assert (Hf : forall a b, (forall i, i ∈ a -> (i < t)%nat) -> (forall i, i ∈ b -> (t <= i)%nat) ->
    filter (fun i => (i < t)%nat) (a ++ b) = a).
  { intros a b Ha Hb. rewrite filter_app, filter_all, filter_none, app_nil_r; [done|..]; apply Forall_forall;
      intros i Hi; [specialize (Hb i Hi); lia|by apply Ha]. }
  assert (E1 : l1 = k1) by (rewrite <- (Hf l1 l2), E, Hf by done; done).
  split; [done|]. subst. by apply app_inv_head in E.
Qed.

Lemma fetchable_from_app l1 : forall i l2,
  fetchable_from i (l1 ++ l2) = fetchable_from i l1 ++ fetchable_from (i + length l1) l2.
Proof.
  induction l1 as [|b l1 IH]; intros i l2; cbn [app fetchable_from length]; [by rewrite Nat.add_0_r|].
  rewrite IH. replace (i + Datatypes.S (length l1))%nat with (Datatypes.S i + length l1)%nat by lia.
  by destruct (fetchable b).
Qed.

Lemma sorted_last (w : list nat) t : StronglySorted lt w -> last w = Some t -> forall i, i ∈ w -> (i <= t)%nat.
Proof.
  induction w as [|a w IH]; intros Hs Hl i Hi; [by apply elem_of_nil in Hi|].
  apply StronglySorted_cons in Hs as [Ha Hs]. destruct w as [|b w].
  - injection Hl as <-. by apply list_elem_of_singleton in Hi as ->.
  - rewrite last_cons_cons in Hl. specialize (IH Hs Hl).
    apply elem_of_cons in Hi as [->|Hi]; [|by apply IH].
    rewrite Forall_forall in Ha. specialize (Ha b ltac:(left)). specialize (IH b ltac:(left)). lia.
Qed.

(** The first of the windows that cover what is left: its blocks are those to be
    fetched up to its last. *)
Lemma first_window c (rest : list FileBlock) w r t :
  fetchable_from c rest = w ++ r -> last w = Some t ->
  let n := (Datatypes.S t - c)%nat in
  (c <= t)%nat /\ (n <= length rest)%nat /\
  w = fetchable_from c (take n rest) /\ r = fetchable_from (Datatypes.S t) (drop n rest).
Proof.
  intros E Ht n. pose proof (fetchable_sorted rest c) as Hs. rewrite E in Hs.
  assert (Htw : t ∈ w) by by apply last_Some_elem_of.
  assert (Htf : t ∈ fetchable_from c rest) by (rewrite E; set_solver).
  apply elem_of_fetchable in Htf as (Hct & b & Hb & _). apply lookup_lt_Some in Hb.
  assert (Hn : (n <= length rest)%nat) by lia. split; [done|]. split; [done|].
  rewrite <- (take_drop n rest), fetchable_from_app, length_take_le in E by done.
  replace (c + n)%nat with (Datatypes.S t) in E by lia.
  assert (Hsw : StronglySorted lt w) by by apply StronglySorted_app_1_l in Hs.
  symmetry in E. apply (cut_unique (Datatypes.S t)) in E; [naive_solver|..].
  - intros i Hi. pose proof (sorted_last w t Hsw Ht i Hi). lia.
  - intros i Hi. assert (t < i)%nat by (by eapply (StronglySorted_app_1_elem_of lt)). lia.
  - intros i (Hci & x & Hx & _)%elem_of_fetchable. apply lookup_lt_Some in Hx. rewrite length_take in Hx. lia.
  - by intros i [Hi _]%elem_of_fetchable.
Qed.

(** What a run over the windows from block [c] on keeps. *)
Record at_cursor (all : list FileBlock) (c : nat) (st : MergeState (S:=S)) : Prop := {
  ac_length : length (ordered st) = length all;
  ac_rest : forall j, (c <= j)%nat -> ordered st !! j = all !! j;
  ac_released : forall j, (j < c)%nat -> (j < length all)%nat -> exists file, released file (ordered st !! j)
}.

Lemma ran_at_cursor all c st n st' buffer' f :
  at_cursor all c st -> ran (mkMerge (record_buffer st) (ordered st) f (block_num st)) c n st' buffer' ->
  at_cursor all (c + n) st' /\ record_buffer st' = buffer'.
Proof.
  intros [Hl Hr Hd] (Hb & Hlen & Hout & Hin). cbn in *. split; [|done]. split.
  - congruence.
  - intros j Hj. rewrite Hout by lia. apply Hr. lia.
  - intros j Hj Hja. destruct (decide (c <= j)%nat); [apply Hin; lia|]. rewrite Hout by lia. apply Hd; lia.
Qed.

Definition merge_rest (acc : MergeState * nat) : res (MergeState (S:=S)) :=
  let '(st, cursor) := acc in
  if decide (cursor < length (ordered st))%nat then
    merge_blocks (mkMerge (record_buffer st) (ordered st) ∅ (block_num st)) cursor (length (ordered st) - 1)
  else Ok st.

Definition all_merged (all : list FileBlock) (st : MergeState (S:=S)) (buffer' : S) : Prop :=
  record_buffer st = buffer' /\
  forall j, (j < length all)%nat -> exists file, released file (ordered st !! j).

(** Merging the [n] blocks from [c] on with what was fetched for them. *)
Lemma merge_part_agree all c n st m :
  at_cursor all c st -> (c + n <= length all)%nat -> (forall fb, fb ∈ all -> located fb) ->
  (forall i fb, (c <= i < c + n)%nat -> all !! i = Some fb -> m !! i = bytes_of fb) ->
  res_agree (fun st' b' => at_cursor all (c + n) st' /\ record_buffer st' = b')
    (res_fold merge_step (seq c n) (mkMerge (record_buffer st) (ordered st) m (block_num st)))
    (res_fold load_and_merge (take n (drop c all)) (record_buffer st)).
Proof.
  intros Hac Hn Hloc Hm.
  assert (Hlen : length (take n (drop c all)) = n) by (rewrite length_take, length_drop; lia).
  pose proof (merge_range_agree (take n (drop c all)) c
    (mkMerge (record_buffer st) (ordered st) m (block_num st))) as Hrun.
  rewrite Hlen in Hrun. specialize (Hrun ltac:(
    intros k fb [Hk Hkn]%lookup_take_Some; rewrite lookup_drop in Hk; cbn;
    rewrite (ac_rest _ _ _ Hac) by lia; split_and!;
      [done|apply Hloc; by eapply list_elem_of_lookup_2|apply Hm; [lia|done]])).
  revert Hrun. destruct (res_fold merge_step _ _), (res_fold load_and_merge _ _); cbn; try done.
  intros H. by eapply ran_at_cursor.
Qed.

Lemma sorted_NoDup (w : list nat) : StronglySorted lt w -> NoDup w.
Proof.
  induction w as [|a w IH]; [constructor|]. intros [Ha Hs]%StronglySorted_cons. constructor; [|by apply IH].
  rewrite Forall_forall in Ha. intros Hi. specialize (Ha a Hi). lia.
Qed.

(** What is fetched for the next window is what the blocks up to its last need. *)
Lemma next_window budget all c st w r t :
  at_cursor all c st -> (forall fb, fb ∈ all -> located fb) ->
  w ++ r = fetchable_from c (drop c all) -> window_ok all budget w -> last w = Some t ->
  let n := (Datatypes.S t - c)%nat in
  (c + n = Datatypes.S t)%nat /\ (c + n <= length all)%nat /\
  r = fetchable_from (Datatypes.S t) (drop (Datatypes.S t) all) /\
  exists m, fetch_window (ordered st) w ∅ = Ok m /\
    forall i fb, (c <= i < c + n)%nat -> all !! i = Some fb -> m !! i = bytes_of fb.
Proof.
  intros Hac Hloc E (Hne & (f & Hf) & _) Ht n.
  destruct (first_window c (drop c all) w r t (eq_sym E) Ht) as (Hct & Hn & Hwin & Hrest).
  fold n in Hn, Hwin, Hrest. rewrite length_drop in Hn. rewrite drop_drop in Hrest.
  assert (Ecn : (c + n)%nat = Datatypes.S t) by lia.
  rewrite Ecn in Hrest |- *. split; [done|]. split; [lia|]. split; [done|].
  assert (Hmem : forall i, i ∈ w <-> (c <= i < c + n)%nat /\ exists fb, all !! i = Some fb /\ is_Some (fetchable fb)).
  { intros i. rewrite Hwin, elem_of_fetchable. setoid_rewrite lookup_take_Some. setoid_rewrite lookup_drop. split.
    - intros (Hi & fb & [Hl Hlt] & Hfe). replace (c + (i - c))%nat with i in Hl by lia. split; [lia|]. by exists fb.
    - intros (Hi & fb & Hl & Hfe). split; [lia|]. exists fb.
      replace (c + (i - c))%nat with i by lia. split; [split; [done|lia]|done]. }
  destruct (fetch_window_ok (ordered st) w f Hne) as (m & Hfetch & Hin & Hout).
  - apply sorted_NoDup. rewrite Hwin. apply fetchable_sorted.
  - intros i Hi. pose proof (Hf i Hi) as Hfi. apply Hmem in Hi as (Hi & [f' b] & Hl & Hfe).
    unfold file_at in Hfi. rewrite Hl in Hfi. injection Hfi as ->. exists b.
    rewrite (ac_rest _ _ _ Hac) by lia. split; [done|]. split; [|done].
    apply Hloc. by eapply list_elem_of_lookup_2.
  - exists m. split; [done|]. intros i [f' b] Hi Hl. destruct (decide (i ∈ w)) as [Hw|Hw].
    + pose proof (Hf i Hw) as Hfi. unfold file_at in Hfi. rewrite Hl in Hfi. injection Hfi as ->.
      apply Hin; [done|]. by rewrite (ac_rest _ _ _ Hac) by lia.
    + rewrite Hout by done. unfold bytes_of. destruct (fetchable (f', b)) eqn:Ef; [|done].
      contradict Hw. apply Hmem. split; [lia|]. exists (f', b). by rewrite Ef.
Qed.

Lemma no_window all c st :
  at_cursor all c st -> (forall fb, fb ∈ all -> located fb) ->
  fetchable_from c (drop c all) = [] ->
  res_agree (all_merged all) (merge_rest (st, c)) (res_fold load_and_merge (drop c all) (record_buffer st)).
Proof.
  intros Hac Hloc E. cbn [merge_rest]. rewrite (ac_length _ _ _ Hac). case_decide as Hc.
  - pose proof (merge_part_agree all c (length all - c) st ∅ Hac ltac:(lia) Hloc) as Hp.
    rewrite take_ge in Hp by (rewrite length_drop; lia). unfold merge_blocks.
    replace (Datatypes.S (length all - 1) - c)%nat with (length all - c)%nat by lia.
    assert (Hm : forall i fb, (c <= i < c + (length all - c))%nat -> all !! i = Some fb -> (∅ : gmap nat bytes) !! i = bytes_of fb).
    { intros i fb Hi Hfb. rewrite lookup_empty. unfold bytes_of. destruct (fetchable fb) eqn:Ef; [|done].
      assert (Hin : i ∈ fetchable_from c (drop c all)).
      { apply elem_of_fetchable. split; [lia|]. exists fb. rewrite lookup_drop, Ef.
        by replace (c + (i - c))%nat with i by lia. }
      rewrite E in Hin. by apply elem_of_nil in Hin. }
    specialize (Hp Hm). revert Hp. destruct (res_fold merge_step _ _), (res_fold load_and_merge _ _); cbn; try done.
    intros [[_ _ Hd] Hb]. split; [done|]. intros j Hj. apply Hd; lia.
  - rewrite drop_ge by lia. cbn. split; [done|]. intros j Hj. apply Hac; lia.
Qed.

Lemma windows_agree budget ws all : forall c st,
  at_cursor all c st -> (forall fb, fb ∈ all -> located fb) ->
  concat ws = fetchable_from c (drop c all) -> Forall (window_ok all budget) ws ->
  res_agree (all_merged all) (res_bind (res_fold merge_window ws (st, c)) merge_rest)
    (res_fold load_and_merge (drop c all) (record_buffer st)).
Proof.
  induction ws as [|w ws IH]; intros c st Hac Hloc E Hws; [by apply no_window|].
  apply Forall_cons in Hws as [Hw Hws]. cbn [concat] in E.
  destruct (last w) as [t|] eqn:Ht; [|apply last_None in Ht; by destruct Hw as [? _]].
  destruct (next_window budget all c st w (concat ws) t Hac Hloc E Hw Ht) as (En & Hn & Hrest & m & Hfetch & Hm).
  cbn [res_fold]. unfold merge_window at 1. rewrite Hfetch. cbn [res_bind]. rewrite Ht.
  rewrite <- (take_drop (Datatypes.S t - c) (drop c all)), res_fold_app. unfold merge_blocks.
  pose proof (merge_part_agree all c _ st m Hac Hn Hloc Hm) as Hp. revert Hp.
  destruct (res_fold merge_step _ _) as [st1| |], (res_fold load_and_merge (take _ _) _) as [b1| |];
    cbn [res_agree res_bind]; try done.
  intros [Hac1 <-]. rewrite drop_drop. rewrite En in Hac1 |- *. by apply IH.
Qed.
End invisible.

(** * The reader *)
Section reader.
Context {C : Chrono} {AB : ArrowBatch} {D : ContentDecoder} {RS : RangeStore} {LS : LogStorage}.
Context {S : Type} {FB : FileGroupRecordBuffer S}.

(** [BaseHoodieLogRecordReader]: what the scan reads, and what it leaves.  The
    table's configurations give the budget, the storage's the window of a walk. *)
Record LogRecordReader := mkLogRecordReader {
  table_config : HudiConfigs;
  storage_config : HudiConfigs;
  reader_timezone : string;
  log_file_paths : list string;
  latest_instant_time : string;
  instant_range : option InstantRange;
  completion_gate_inputs : option CompletionGateInputs;
  reader_buffer : S;
  reader_valid_block_instants : list string;
  total_log_files : Z;
  reader_total_log_blocks : Z;
  total_log_records : Z;
  reader_total_corrupt_blocks : Z;
  reader_total_rollbacks : Z
}.

(** [LogFileReader::new_streaming] on one file, and its blocks without content. *)
Definition walk_file (r : LogRecordReader) (acc : list FileBlock * Z) (path : string)
    : res (list FileBlock * Z) :=
  let '(all_blocks, resident_budget) := acc in
  let? object := log_object path in
  let? window := ok_or (stream_window_size (storage_config r)) EStorage in
  let? (blocks, resident_budget) :=
    (read_all_blocks_metadata_only (OS := log_store path) resident_budget
       (new_streaming (blen object) window)).1 in
  Ok (all_blocks ++ (pair path <$> blocks), resident_budget).

Definition walk_files (r : LogRecordReader) : res (list FileBlock) :=
  let resident_budget := default 0 (stream_window_size (table_config r)) in
  res_map fst (res_fold (walk_file r) (log_file_paths r) ([], resident_budget)).

Definition scan_internal (skip_processing_blocks : bool) (r : LogRecordReader) : res LogRecordReader :=
  let? all_blocks := walk_files r in
  let? pass1 := forward_scan_pass1 (latest_instant_time r) (instant_range r) (reader_timezone r)
                  (completion_gate_inputs r) all_blocks in
  let pass2 := reverse_scan_pass2 pass1 in
  let? buffer :=
    if non_empty (current_instant_log_blocks pass2) && negb skip_processing_blocks then
      res_map record_buffer (fetch_and_merge_windows (table_config r) (reader_buffer r) (ordered_blocks pass2))
    else Ok (reader_buffer r) in
  Ok (mkLogRecordReader (table_config r) (storage_config r) (reader_timezone r) (log_file_paths r)
        (latest_instant_time r) (instant_range r) (completion_gate_inputs r) buffer
        (valid_block_instants pass2) (Z.of_nat (length (log_file_paths r))) (total_log_blocks pass1)
        (buffer_total_log_records buffer) (total_corrupt_blocks pass1) (total_rollbacks pass1)).
End reader.

(** * The blocks a scan queues are those it walked *)
Section queued_blocks.
Context {C : Chrono} {AB : ArrowBatch}.

Definition map_within (bs : list FileBlock) (p : Pass1Result) : Prop :=
  forall t l b, instant_to_blocks_map p !! t = Some l -> b ∈ l -> b ∈ bs.

Lemma pass1_within latest range tz gate bs p :
  forward_scan_pass1 latest range tz gate bs = Ok p -> map_within bs p.
Proof.
  unfold forward_scan_pass1. apply (res_fold_inv (map_within bs)).
  2: { intros t l b Hl. cbn in Hl. by rewrite lookup_empty in Hl. }
  intros st b st' Hb Hst. unfold pass1_step. case_decide; [by intros [= <-]|].
  destruct (instant_time b.2) as [t|e|]; [|by intros [= <-]..].
  destruct (negb _ && _); [by intros [= <-]|]. destruct (negb _ && _); [by intros [= <-]|].
  intros (out & _ & Hs)%res_bind_Ok. destruct out; [by injection Hs as <-|].
  destruct (queued_type _).
  { injection Hs as <-. intros u l c. cbn. intros [[<- <-]|[_ Hl]]%lookup_insert_Some Hc; [|by eapply Hst].
    apply elem_of_app in Hc as [Hc| ->%list_elem_of_singleton]; [|done].
    destruct (instant_to_blocks_map st !! t) as [l|] eqn:El; cbn in Hc; [by eapply Hst|by apply elem_of_nil in Hc]. }
  destruct (_ && _); [|by injection Hs as <-].
  destruct (target_instant_time b.2) as [u| |]; injection Hs as <-; [|done..].
  intros v l c. cbn. intros [_ Hl]%lookup_delete_Some. by eapply Hst.
Qed.

Lemma pass2_within bs p : map_within bs p -> forall b, b ∈ ordered_blocks (reverse_scan_pass2 p) -> b ∈ bs.
Proof.
  intros Hp b. unfold ordered_blocks, reverse_scan_pass2. rewrite elem_of_reverse.
  assert (Hfold : forall l st,
    (forall c, c ∈ current_instant_log_blocks (p2_result st) -> c ∈ bs) ->
    forall c, c ∈ current_instant_log_blocks (p2_result (foldl (pass2_step (instant_to_blocks_map p)) st l)) -> c ∈ bs).
  { induction l as [|t l IH]; intros st Hst; [done|]. cbn [foldl]. apply IH. unfold pass2_step.
    destruct (instant_to_blocks_map p !! t) as [[|x xs]|] eqn:Et; [done| |done].
    destruct (header x.2 !! CompactedBlockTimes); [done|].
    destruct (block_time_to_compaction_block_time_map st !! t) as [f|].
    - case_decide; [done|]. cbn [p2_result push_instant current_instant_log_blocks]. intros c [Hc|Hc]%elem_of_app; [by apply Hst|]. apply (proj1 (elem_of_reverse _ _)) in Hc.
      destruct (instant_to_blocks_map p !! f) as [l'|] eqn:Ef; [|by apply elem_of_nil in Hc]. by eapply Hp.
    - cbn [p2_result push_instant current_instant_log_blocks]. intros c [Hc|Hc]%elem_of_app; [by apply Hst|]. apply (proj1 (elem_of_reverse _ _)) in Hc. by eapply Hp. }
  apply Hfold. intros c Hc. by apply elem_of_nil in Hc.
Qed.
End queued_blocks.

(** * The walk of the files *)
Section walk.
Context {C : Chrono} {AB : ArrowBatch} {D : ContentDecoder} {RS : RangeStore} {LS : LogStorage}.
Context {S : Type}.

(** The bytes of a path. *)
Definition object_at (path : string) : bytes :=
  match log_object path with Ok object => object | _ => [] end.

Definition files_served (paths : list string) : Prop :=
  forall path object, path ∈ paths -> log_object path = Ok object -> path_served path object.

Lemma walk_file_located (r : LogRecordReader (S:=S)) acc path acc' :
  (forall object, log_object path = Ok object -> path_served path object) ->
  (forall fb, fb ∈ acc.1 -> located object_at fb) ->
  walk_file r acc path = Ok acc' -> forall fb, fb ∈ acc'.1 -> located object_at fb.
Proof.
  intros Hserved Hacc. destruct acc as [all budget]. unfold walk_file.
  intros (object & Ho & H)%res_bind_Ok. apply res_bind_Ok in H as (window & _ & H).
  apply res_bind_Ok in H as ([bs bu] & Hread & H). injection H as <-. cbn [fst].
  intros fb [Hfb|Hfb]%elem_of_app; [by apply Hacc|]. apply list_elem_of_fmap in Hfb as (b & -> & Hb).
  pose proof (Hserved object Ho) as Hs. pose proof (ps_size _ _ Hs) as Hu.
  destruct (read_all_blocks_metadata_only _ _) as [o r'] eqn:Er. cbn in Hread. subst o.
  unfold read_all_blocks_metadata_only in Er. apply rd_bind_Ok in Er as (o & r2 & Hloop & Ho').
  injection Ho' as Ho' _. apply ok_or_Ok in Ho' as ->.
  apply read_all_metadata_in_file in Hloop; [|done|cbn; lia]. rewrite Forall_forall in Hloop.
  destruct (Hloop b Hb) as [He Hl]. split; [done|]. cbn [fst snd]. intros loc Hd.
  unfold object_at. rewrite Ho. split; [done|]. exact (Hl loc Hd).
Qed.

Lemma walk_files_located (r : LogRecordReader (S:=S)) bs :
  files_served (log_file_paths r) -> walk_files r = Ok bs -> forall fb, fb ∈ bs -> located object_at fb.
Proof.
  intros Hs. unfold walk_files. intros (acc & Hf & ->)%res_map_Ok.
  revert Hf. apply (res_fold_inv (fun acc => forall fb, fb ∈ acc.1 -> located object_at fb)).
  - intros a path a' Hp Ha Hw. eapply walk_file_located; [|exact Ha|exact Hw]. intros object. by apply Hs.
  - intros fb Hfb. by apply elem_of_nil in Hfb.
Qed.

Lemma located_lengths objects bs : (forall fb, fb ∈ bs -> located objects fb) -> lengths_ok bs.
Proof.
  intros Hl i. unfold length_at. destruct (bs !! i) as [[f b]|] eqn:E; [|by vm_compute].
  apply list_elem_of_lookup_2 in E. destruct (Hl _ E) as [_ Hloc].
  destruct (deferred_content b) as [loc|] eqn:Ed; [|by vm_compute].
  destruct (Hloc loc Ed) as ([Hs _ _] & H1 & H2 & H3). cbn [fst] in *. lia.
Qed.
End walk.

Section fetch_properties.
Context {AB : ArrowBatch} {D : ContentDecoder} {RS : RangeStore} {LS : LogStorage}.
Context {S : Type} {FB : FileGroupRecordBuffer S}.

(** The windows the content of the admitted blocks is fetched in: together
    they hold each block that has something to fetch once, in the order the
    blocks are merged; none is empty, none spans files, none holds more bytes
    than the budget unless it is a single block; and no two neighbours could have
    been one window. *)
Theorem plan_content_windows_spec (blocks : list FileBlock) budget :
  0 <= budget < u64_max -> lengths_ok blocks ->
  let ws := plan_content_windows blocks budget in
  concat ws = fetchable_from 0 blocks /\ Forall (window_ok blocks budget) ws /\
  windows_split blocks budget ws.
Proof. apply plan_ok. Qed.

(** Fetching in windows cannot be told from loading each block's content as
    it is merged: the same buffer, or the same error of the same block, whatever
    the budget -- and once the last block is merged none of them holds the bytes
    it was fetched with. *)
Theorem windows_merge_as_loaded (objects : string -> bytes) configs budget (buffer : S) blocks :
  stream_window_size configs = Some budget -> 0 <= budget < u64_max -> lengths_ok blocks ->
  (forall fb, fb ∈ blocks -> located objects fb) ->
  res_agree (fun st buffer' => record_buffer st = buffer' /\
      forall j, (j < length blocks)%nat -> exists file b,
        ordered st !! j = Some (file, b) /\ resident_content b = None)
    (fetch_and_merge_windows configs buffer blocks)
    (res_fold load_and_merge blocks buffer).
Proof.
  intros Hc Hb Hl Hloc. unfold fetch_and_merge_windows. rewrite Hc. cbn [ok_or res_bind].
  destruct (plan_ok blocks budget Hb Hl) as (E & Hw & _).
  apply (windows_agree objects budget (plan_content_windows blocks budget) blocks 0
    (mkMerge buffer blocks ∅ 0)); [|done|done|done].
  split; [done|done|lia].
Qed.

(** What a scan amounts to: the blocks of the files, through both passes, each
    loaded and merged in its turn. *)
Definition scan_reference {C : Chrono} (r : LogRecordReader (S:=S)) : res S :=
  let? all_blocks := walk_files r in
  let? pass1 := forward_scan_pass1 (latest_instant_time r) (instant_range r) (reader_timezone r)
                  (completion_gate_inputs r) all_blocks in
  res_fold load_and_merge (ordered_blocks (reverse_scan_pass2 pass1)) (reader_buffer r).

Lemma scan_agrees {C : Chrono} (r : LogRecordReader (S:=S)) budget :
  files_served (log_file_paths r) ->
  stream_window_size (table_config r) = Some budget -> 0 <= budget < u64_max ->
  res_agree (fun r' buffer' => reader_buffer r' = buffer' /\
      total_log_records r' = buffer_total_log_records buffer' /\
      total_log_files r' = Z.of_nat (length (log_file_paths r)))
    (scan_internal false r) (scan_reference r).
Proof.
  intros Hserved Hc Hb. unfold scan_internal, scan_reference.
  destruct (walk_files r) as [bs| |] eqn:Ew; cbn [res_bind res_agree]; [|done..].
  destruct (forward_scan_pass1 _ _ _ _ _) as [p| |] eqn:Ep; cbn [res_bind res_agree]; [|done..].
  cbv zeta. rewrite andb_true_r. pose proof (pass2_within _ _ (pass1_within _ _ _ _ _ _ Ep)) as Hin.
  destruct (non_empty (current_instant_log_blocks (reverse_scan_pass2 p))) eqn:Hne.
  - assert (Hloc : forall fb, fb ∈ ordered_blocks (reverse_scan_pass2 p) -> located object_at fb)
      by (intros fb Hfb; eapply walk_files_located; [done|done|by apply Hin]).
    unfold fetch_and_merge_windows. rewrite Hc. cbn [ok_or res_bind].
    set (blocks := ordered_blocks _) in *. pose proof (located_lengths _ _ Hloc) as Hlen.
    destruct (plan_ok blocks budget Hb Hlen) as (E & Hw & _).
    pose proof (windows_agree object_at budget (plan_content_windows blocks budget) blocks 0
      (mkMerge (reader_buffer r) blocks ∅ 0)) as H.
    specialize (H ltac:(split; [done|done|lia]) Hloc E Hw). revert H. unfold merge_rest. change (drop 0 blocks) with blocks.
    change (record_buffer (mkMerge (reader_buffer r) blocks ∅ 0)) with (reader_buffer r).
    destruct (res_bind _ _), (res_fold load_and_merge blocks _); cbn; try done. by intros [<- _].
  - unfold ordered_blocks. destruct (current_instant_log_blocks _); [|done]. by cbn.
Qed.

(** C14: a scan of log files reads headers only, fetches what is admitted in
    windows and merges it: it leaves the buffer of the reference scan, which
    loads each block as it is merged, or fails as the reference does -- for any
    files, damaged ones included, and any budget. *)
Theorem scan_internal_agrees {C : Chrono} (r : LogRecordReader (S:=S)) budget :
  files_served (log_file_paths r) ->
  stream_window_size (table_config r) = Some budget -> 0 <= budget < u64_max ->
  res_agree (fun r' buffer' => reader_buffer r' = buffer' /\
      total_log_records r' = buffer_total_log_records buffer' /\
      total_log_files r' = Z.of_nat (length (log_file_paths r)))
    (scan_internal false r) (scan_reference r).
Proof. apply scan_agrees. Qed.
End fetch_properties.

(** * A sample: two files, a buffer that keeps what it is given *)
Module SampleFetch.
#[export] Existing Instance raw_batch.
#[export] Existing Instance raw_decoder.

Definition sample_object (path : string) : res bytes :=
  if decide (path = "a.log") then Ok (encode_blocks [data_sample; late_sample; data_sample])
  else if decide (path = "b.log") then Ok (encode_blocks [data_sample])
  else Err EStorage.

#[export] Instance sample_storage : LogStorage := {|
  log_object := sample_object;
  log_store path := store_of (match sample_object path with Ok object => object | _ => [] end)
|}.

#[export] Instance sample_ranges : RangeStore := fun path ranges =>
  Some ((fun r => slice (match sample_object path with Ok object => object | _ => [] end) r.1 r.2) <$> ranges).

#[export] Instance keeping_buffer : FileGroupRecordBuffer (list (BlockType * LogBlockContent)) := {|
  buffer_process_data_block s b := Ok (s ++ [(block_type b, content b)], Empty);
  buffer_process_delete_block s b := Ok (s ++ [(block_type b, content b)], Empty);
  buffer_total_log_records s := Z.of_nat (length s)
|}.

(** A budget no two blocks fit in, and a window smaller than a file. *)
Definition sample_reader : LogRecordReader (S := list (BlockType * LogBlockContent)) :=
  mkLogRecordReader {[CONFIG_DFS_BUFFER_MAX_SIZE := " 20 "]} {[CONFIG_DFS_BUFFER_MAX_SIZE := "64"]} "UTC"
    ["a.log"; "b.log"] "20240408000000" None None [] [] 0 0 0 0 0.

Lemma sample_path_served path object :
  sample_object path = Ok object -> blen object <= u64_max -> path_served path object.
Proof.
  intros Ho Hu. assert (Hs : log_store path = store_of object) by (cbn; by rewrite Ho).
  split; [done|rewrite Hs; apply store_of_serves|].
  intros ranges _. unfold object_get_ranges, sample_ranges. by rewrite Ho.
Qed.

Lemma sample_files_served : files_served (log_file_paths sample_reader).
Proof.
  intros path object Hp Ho. apply sample_path_served; [exact Ho|]. cbn in Hp, Ho.
  apply elem_of_cons in Hp as [->|Hp]; [|apply list_elem_of_singleton in Hp as ->];
    injection Ho as <-; vm_compute; discriminate.
Qed.

(** The walk keeps the first block's bytes and defers the others. *)
Lemma scan_internal_agrees_witness :
  res_agree (fun r' buffer' => reader_buffer r' = buffer' /\
      total_log_records r' = buffer_total_log_records buffer' /\ total_log_files r' = 2)
    (scan_internal (C := Civil.civil) false sample_reader) (scan_reference (C := Civil.civil) sample_reader) /\
  scan_reference (C := Civil.civil) sample_reader =
    Ok [(AvroData, Records (raw_data (string_bytes "rows"))); (AvroData, Records (raw_data (string_bytes "rows")));
        (AvroData, Records (raw_data (string_bytes "rows"))); (Delete, Records (raw_delete (string_bytes "keys #HUDI#")))].
Proof.
  split; [|vm_eq].
  apply (scan_internal_agrees (C := Civil.civil) sample_reader 20 sample_files_served);
    [reflexivity|unfold u64_max; lia].
Defined.

Definition walked : list FileBlock :=
  match walk_files sample_reader with Ok bs => bs | _ => [] end.

Lemma walked_located fb : fb ∈ walked -> located object_at fb.
Proof.
  apply (walk_files_located sample_reader walked sample_files_served). vm_eq.
Qed.

Lemma plan_content_windows_spec_witness :
  concat (plan_content_windows walked 20) = [1; 2; 3]%nat /\
  Forall (window_ok walked 20) (plan_content_windows walked 20) /\
  windows_split walked 20 (plan_content_windows walked 20).
Proof.
  destruct (plan_content_windows_spec walked 20 ltac:(unfold u64_max; lia) (located_lengths _ _ walked_located))
    as (H1 & H2 & H3).
  split; [rewrite H1; vm_eq|]. by split.
Defined.

Lemma windows_merge_as_loaded_witness :
  exists st, fetch_and_merge_windows (table_config sample_reader) [] walked = Ok st /\
    res_fold load_and_merge walked [] = Ok (record_buffer st) /\ length (record_buffer st) = 4%nat.
Proof.
  pose proof (windows_merge_as_loaded object_at (table_config sample_reader) 20 [] walked eq_refl
    ltac:(unfold u64_max; lia) (located_lengths _ _ walked_located) walked_located) as H.
  destruct (fetch_and_merge_windows _ _ _) as [st| |] eqn:E; [|exfalso; revert E; vm_compute; discriminate..].
  exists st. split; [done|]. revert H. cbn [res_agree].
  destruct (res_fold load_and_merge walked []) as [s| |] eqn:Es; [|intros []..]. intros [-> _]. split; [reflexivity|].
  assert (Hl : match res_fold load_and_merge walked [] with Ok s => length s | _ => 0%nat end = 4%nat) by vm_eq.
  by rewrite Es in Hl.
Defined.
End SampleFetch.
