(* ===== verification/LogRead.v ===== *)
(** A file group read from its log files: the scan of [LogFetch] fills the record
    buffer of [RecordBuffer], and the merge stream gives the rows, as
    file_group/reader_v2 composes log_record_reader.rs, buffer/key_based.rs and
    merge_iterator.rs. *)
From Stdlib Require Import ZArith.
From stdpp Require Import base gmap sets list strings sorting numbers pretty.
From S2P Require Import Prelude RustStr Chrono Config Instant Selector StorageReader RecordBatches LogFormat LogReader LogEncoding Scanner View LogScan LogFetch OrderingValues RecordMerger ArrowKernels RecordBuffer BaseMerge MergeStream LogMerge.
Local Open Scope res_scope.
Local Open Scope Z_scope.

Section scan_then_merge.
Context {AB : ArrowBatch} {AR : ArrowRows} {AK : ArrowKernels} {AL : ArrowLaws} {CO : ColumnOps}
  {RC : RecordContext} {MO : MapOrder}.

(** [KeyBasedFileGroupRecordBuffer] is a record buffer. *)
#[export] Instance key_based_buffer : FileGroupRecordBuffer Buffer := {|
  buffer_process_data_block b block := process_data_block b (content block);
  buffer_process_delete_block b block := process_delete_block b (content block);
  buffer_total_log_records := RecordBuffer.total_log_records
|}.

Context {D : ContentDecoder} {LS : LogStorage}.

(** A queued block with its content. *)
Definition load_queued (fb : FileBlock) : res LogBlock :=
  if queued_type (block_type fb.2) then load_content (get_range (OS := log_store fb.1)) fb.2 else Ok fb.2.

Definition typed_content (b : LogBlock) : BlockType * LogBlockContent := (block_type b, content b).

Lemma decode_fetched_type b bytes b' : decode_fetched b bytes = Ok b' -> block_type b' = block_type b.
Proof.
  unfold decode_fetched. destruct (negb _); [by intros [= <-]|].
  destruct (deferred_content b); [|done]. destruct (negb _); [done|]. intros H. by res_inv H.
Qed.

Lemma dispatch_process (b : Buffer) block :
  res_map fst (dispatch_block b block) = process_block b (typed_content block).
Proof.
  unfold dispatch_block, process_block, typed_content. cbn [fst snd].
  by destruct (block_type block); cbn [buffer_process_data_block buffer_process_delete_block key_based_buffer];
    try destruct (process_data_block _ _) as [[]| |]; try destruct (process_delete_block _ _) as [[]| |].
Qed.

(** Loading and merging block by block is merging the loaded contents. *)
Lemma load_and_merge_all blocks : forall (b : Buffer) loaded,
  res_mapM load_queued blocks = Ok loaded ->
  res_fold load_and_merge blocks b = res_fold process_block (typed_content <$> loaded) b.
Proof.
  induction blocks as [|fb blocks IH]; intros b loaded H; cbn [res_mapM] in H; [by injection H as <-|].
  apply res_bind_Ok in H as (x & Hx & H). apply res_bind_Ok in H as (xs & Hxs & H). injection H as <-.
  rewrite fmap_cons. cbn [res_fold]. unfold load_and_merge at 1. unfold load_queued in Hx. rewrite Hx.
  cbn [res_bind]. rewrite dispatch_process. destruct (process_block b (typed_content x)); cbn [res_bind]; [|done..].
  by apply IH.
Qed.
End scan_then_merge.

Section properties.
Context {C : Chrono} {AB : ArrowBatch} {AR : ArrowRows} {AK : ArrowKernels} {AL : ArrowLaws} {CO : ColumnOps}
  {RC : RecordContext} {MO : MapOrder} {ML : MapOrderLaws}.
Context {D : ContentDecoder} {RS : RangeStore} {LS : LogStorage}.
Context (target : ArrowKernels.Schema) {RL : RecordContextLaws target RecordKey}.

(** A merge-on-read file group, from the bytes of its log files to its rows.
    The scan admits blocks by their headers, fetches them in windows and merges
    them; the stream then merges the base rows.  If every admitted block decodes,
    the read succeeds and gives, for each base row, the row or what the admitted
    blocks, in the order the two passes put them, left of its key, and the rows
    left of keys the base does not have. *)
Theorem log_files_read_by_key (r : LogRecordReader (S:=Buffer)) budget heap all p loaded src out_schema :
  files_served (log_file_paths r) ->
  stream_window_size (table_config r) = Some budget -> 0 <= budget < u64_max ->
  fresh_buffer target heap (reader_buffer r) -> reader_schema (reader_buffer r) = Some target ->
  records (reader_buffer r) = ∅ ->
  walk_files r = Ok all ->
  forward_scan_pass1 (latest_instant_time r) (LogFetch.instant_range r) (reader_timezone r)
    (completion_gate_inputs r) all = Ok p ->
  res_mapM load_queued (ordered_blocks (reverse_scan_pass2 p)) = Ok loaded ->
  let contents := typed_content <$> loaded in
  (forall x, x ∈ contents -> block_ok target x) ->
  base_interned heap (next_addr (reader_buffer r)) (concat (block_data <$> contents)) ->
  (forall x, x ∈ src -> ArrowKernels.schema x = target) -> NoDup (row_lookup <$> rows_in src) ->
  exists r' chunks st m,
    scan_internal false r = Ok r' /\
    collect_chunks (chunks_left (new_buffered (reader_buffer r') (Ok <$> src) target out_schema None))
      (new_buffered (reader_buffer r') (Ok <$> src) target out_schema None) [] = Ok (Some (chunks, st)) /\
    (forall k, replay (M := buffered_record_merger (reader_buffer r))
       (ops_at k (blocks_entries target (next_addr (reader_buffer r)) contents)) None = Ok (m !! k)) /\
    concat (batch_rows <$> chunks) ≡ₚ
      concat ((fun x => survivor target (record_merge_mode (reader_buffer r)) (m !! row_lookup x) x) <$> rows_in src) ++
      log_only_rows (row_lookup <$> rows_in src) m.
Proof.
  intros Hserved Hc Hb Hf Hr Hm Hw Hp Hl contents Hok Hi Hs Hn.
  destruct (read_by_key target heap (reader_buffer r) contents src out_schema Hf Hr Hm Hok Hi Hs Hn)
    as (b' & chunks & st & m & E & Hch & Hrep & Hrows & _).
  pose proof (scan_agrees r budget Hserved Hc Hb) as Hscan. unfold scan_reference in Hscan.
  rewrite Hw in Hscan. cbn [res_bind] in Hscan. rewrite Hp in Hscan. cbn [res_bind] in Hscan.
  rewrite (load_and_merge_all _ _ _ Hl) in Hscan. fold contents in Hscan. rewrite E in Hscan.
  destruct (scan_internal false r) as [r'| |]; cbn in Hscan; [|done..]. destruct Hscan as [<- _].
  exists r', chunks, st, m. done.
Qed.
End properties.

Module SampleLogRead.
Import ArrowKernels.Sample MergeStream.SampleContext LogMerge.SampleRead.

(** Payloads name the sample blocks. *)
Definition sample_content (p : bytes) : res (RecordBatches * Z) :=
  match sample_blocks !! Z.to_nat (from_be_bytes p - 48) with
  | Some (_, Records r) => Ok (r, blen p)
  | _ => Err ELogBlock
  end.

#[export] Instance sample_decoder : ContentDecoder := {|
  decode_avro_record_content p _ := sample_content p;
  decode_parquet_record_content p := sample_content p;
  decode_delete_record_content p _ := sample_content p;
  decode_hfile_content p _ := Err ELogBlock
|}.

Definition written (t : BlockType) (instant payload : string) : WrittenBlock :=
  mkWritten t {[ InstantTime := instant ]} (string_bytes payload) Empty ∅.

(** The sample blocks in two files; between them one that is rolled back. *)
Definition first_file : bytes :=
  encode_blocks [written AvroData "20240401000000" "0"; written AvroData "20240402000000" "2"].
Definition second_file : bytes :=
  encode_blocks [mkWritten Command (<[ InstantTime := "20240403000000" ]> (<[ TargetInstantTime := "20240402000000" ]>
      {[ CommandBlockType := "0" ]})) [] Empty ∅;
    written Delete "20240403000000" "1"; written ParquetData "20240404000000" "2"].

Definition sample_object (path : string) : res bytes :=
  if decide (path = "a.log") then Ok first_file
  else if decide (path = "b.log") then Ok second_file
  else Err EStorage.

#[export] Instance sample_storage : LogStorage := {|
  log_object := sample_object;
  log_store path := store_of (match sample_object path with Ok object => object | _ => [] end)
|}.

#[export] Instance sample_ranges : RangeStore := fun path ranges =>
  Some ((fun r => slice (match sample_object path with Ok object => object | _ => [] end) r.1 r.2) <$> ranges).

Definition sample_reader : LogRecordReader (S:=Buffer) :=
  mkLogRecordReader {[CONFIG_DFS_BUFFER_MAX_SIZE := "10"]} ∅ "UTC" ["a.log"; "b.log"] "20240408000000"
    None None (sample_buffer ∅ 0) [] 0 0 0 0 0.

Lemma sample_log_files_served : files_served (log_file_paths sample_reader).
Proof.
  intros path object Hp Ho.
  assert (Hs : log_store path = store_of object) by (cbn in Ho |- *; by rewrite Ho).
  split; [|rewrite Hs; apply store_of_serves|].
  - cbn in Hp, Ho. apply elem_of_cons in Hp as [->|Hp]; [|apply list_elem_of_singleton in Hp as ->];
      injection Ho as <-; vm_compute; discriminate.
  - intros ranges _. unfold object_get_ranges, sample_ranges. cbn in Ho. by rewrite Ho.
Qed.

Definition sample_all : list FileBlock := match walk_files sample_reader with Ok bs => bs | _ => [] end.

Definition sample_pass1 : Pass1Result :=
  match forward_scan_pass1 (C := Civil.civil) "20240408000000" None "UTC" None sample_all with
  | Ok p => p
  | _ => mkPass1 [] ∅ 0 0 0
  end.

Definition sample_loaded : list LogBlock :=
  match res_mapM load_queued (ordered_blocks (reverse_scan_pass2 sample_pass1)) with Ok l => l | _ => [] end.

Lemma log_files_read_by_key_witness :
  exists r' chunks st m,
    scan_internal (C := Civil.civil) false sample_reader = Ok r' /\
    collect_chunks (chunks_left (new_buffered (reader_buffer r') (Ok <$> base_batches) names names None))
      (new_buffered (reader_buffer r') (Ok <$> base_batches) names names None) [] = Ok (Some (chunks, st)) /\
    concat (batch_rows <$> chunks) ≡ₚ
      [("a", Some (OLong 5), 51); ("b", Some (OLong 4), 40); ("e", None, 1)] ++
      log_only_rows ["a"; "b"; "c"; "e"] m.
Proof.
  assert (Hl : typed_content <$> sample_loaded = sample_blocks) by vm_eq.
  destruct (log_files_read_by_key (C := Civil.civil) names sample_reader 10 sample_heap sample_all sample_pass1
    sample_loaded base_batches names sample_log_files_served) as (r' & chunks & st & m & E1 & E2 & Hm & Hp).
  - reflexivity.
  - unfold u64_max. lia.
  - exact sample_empty_fresh.
  - reflexivity.
  - reflexivity.
  - vm_eq.
  - vm_eq.
  - vm_eq.
  - rewrite Hl. exact sample_blocks_ok.
  - rewrite Hl. intros j x Hx. exact Hx.
  - clear Hl. intros x Hx. in_cases Hx; reflexivity.
  - apply (bool_decide_unpack _). vm_compute. exact I.
  - exists r', chunks, st, m. split; [exact E1|]. split; [exact E2|]. rewrite Hp.
    apply Permutation_app_tail. rewrite Hl in Hm.
    assert (Ha : Ok (Some (new_batch_ref "a" (mkArc 1 log_batch) 0 (Some (OLong 5)))) = Ok (m !! "a")) by exact (Hm "a").
    assert (Hb : Ok (Some (new_batch_ref "b" (mkArc 1 log_batch) 1 (Some (OLong 1)))) = Ok (m !! "b")) by exact (Hm "b").
    assert (Hc : Ok (Some (new_delete "c" (Some (OLong 8)))) = Ok (m !! "c")) by exact (Hm "c").
    assert (He : Ok None = Ok (m !! "e")) by exact (Hm "e").
    injection Ha as Ha. injection Hb as Hb. injection Hc as Hc. injection He as He.
    cbn. rewrite <- Ha, <- Hb, <- Hc, <- He. reflexivity.
Defined.
End SampleLogRead.
