(* ===== verification/PositionBuffer.v ===== *)
(** The position-based record buffer:
    crates/core/src/file_group/reader_v2/buffer/{position_based,record_positions}.rs.

    Log records are kept by the position of their row in the base file, which a block's
    header names, and base rows find them by position.  The buffer wraps the key-based
    one; a block without usable positions makes it fall back: the buffered records are
    keyed anew, and from then on keys decide.  The theorems say that what the position
    buffer holds, and what a base file merges to, is what the key-based buffer has. *)
From Stdlib Require Import ZArith Ascii.
From stdpp Require Import base gmap sets list strings sorting numbers pretty fin_maps.
From S2P Require Import Prelude RustStr StorageReader RecordBatches LogFormat OrderingValues RecordMerger ArrowKernels RecordBuffer BaseMerge MergeStream LogMerge LogFetch LogRead.
Local Open Scope res_scope.
Local Open Scope Z_scope.

(** [decode_record_positions]: the positions of a header, ascending; Base64 and Roaring
    bitmaps are those libraries' own. *)
Class PositionsCodec := { decode_record_positions : string -> res (list Z) }.

Section positions.
Context {AB : ArrowBatch} {AR : ArrowRows} {AK : ArrowKernels} {CO : ColumnOps} {RC : RecordContext}
  {MO : MapOrder} {PC : PositionsCodec}.

Record PositionBuffer := mkPosition {
  inner : Buffer;
  base_file_instant_time : string;
  should_use_position : bool;
  needs_hybrid_strategy : bool;
  hybrid_deletes : gmap Z BufferedRecord
}.

(** [PositionBasedFileGroupRecordBuffer::new], given the key-based buffer. *)
Definition position_new (inner : Buffer) (base_file_instant_time : string) : PositionBuffer :=
  mkPosition inner base_file_instant_time true false ∅.

Definition set_inner (i : Buffer) (b : PositionBuffer) : PositionBuffer :=
  mkPosition i (base_file_instant_time b) (should_use_position b) (needs_hybrid_strategy b) (hybrid_deletes b).

Definition set_record_key (key : string) (r : BufferedRecord) : BufferedRecord := mkBuffered key (payload r) (ordering_value r).

Definition position_key (position : Z) : string := pretty position.

(** [extract_positions] *)
Definition extract_positions (base_instant : string) (block : LogBlock) : res (option (list Z)) :=
  if match base_file_instant_time_of_positions block with
     | Some t => negb (bool_decide (t = "")) && bool_decide (t = base_instant)
     | None => false
     end then
    match record_positions_header block with
    | Some encoded =>
        if bool_decide (encoded = "") then Ok None
        else
          let? positions := decode_record_positions encoded in
          Ok (if bool_decide (positions = []) then None else Some positions)
    | None => Ok None
    end
  else Ok None.

(** [reinsert_rekeyed] *)
Definition reinsert_rekeyed (key : string) (record : BufferedRecord) (m : gmap string BufferedRecord)
    : res (gmap string BufferedRecord) :=
  if bool_decide (is_Some (m !! key)) then Err EReadFileSlice else Ok (<[key := record]> m).

(** One record of the loop of the fallback; a data record's key is read from its row. *)
Definition rekey (m : gmap string BufferedRecord) (record : BufferedRecord) : res (gmap string BufferedRecord) :=
  match get_record record with
  | Some row =>
      let? keys := get_record_keys row in
      match keys with
      | [] => Panic
      | key :: _ => reinsert_rekeyed key (set_record_key key record) m
      end
  | None =>
      if bool_decide (record_key record <> "") then reinsert_rekeyed (record_key record) record m
      else if is_delete record then Err EUnsupported
      else Ok m
  end.

(** [fallback_to_key_based] *)
Definition fallback_to_key_based (b : PositionBuffer) : res PositionBuffer :=
  if negb (should_use_position b) then Ok b
  else
    let? m := res_fold rekey (into_values (records (inner b))) ∅ in
    Ok (mkPosition (set_records m (inner b)) (base_file_instant_time b) false (needs_hybrid_strategy b) (hybrid_deletes b)).

(** A record of a block at the next of the block's positions. *)
Definition at_position {A} (positions : list Z) (f : string -> A -> Buffer -> res Buffer) (st : Buffer * nat) (a : A)
    : res (Buffer * nat) :=
  match positions !! st.2 with
  | Some position => let? b := f (position_key position) a st.1 in Ok (b, S st.2)
  | None => Err ELogBlock
  end.

Definition put_record (key : string) (kr : string * BufferedRecord) : Buffer -> res Buffer :=
  process_next_data_record kr.2 key.

Definition put_delete (key : string) (kv : string * option OrderingValue) : Buffer -> res Buffer :=
  process_next_deleted_record (mkDelete kv.1 kv.2) key.

Definition position_data_batch (positions : list Z) (st : Buffer * nat) (batch : RecordBatch) : res (Buffer * nat) :=
  let '(arc, b) := arc_new batch st.1 in
  let? recs := batch_to_buffered_records arc in
  res_fold (at_position positions put_record) recs (b, st.2).

Definition position_delete_batch (positions : list Z) (st : Buffer * nat) (batch : RecordBatch * string)
    : res (Buffer * nat) :=
  let? delete_entries := delete_batch_to_keys_with_ordering batch.1 in
  res_fold (at_position positions put_delete) delete_entries st.

(** All records were given a position, and no position is left. *)
Definition all_positions_used (positions : list Z) (st : Buffer * nat) : res Buffer :=
  if bool_decide (st.2 = length positions) then Ok st.1 else Err ELogBlock.

Definition position_process_data_block (b : PositionBuffer) (block : LogBlock) : res (PositionBuffer * LogBlockContent) :=
  let by_key b := let? (i, c) := process_data_block (inner b) (content block) in Ok (set_inner i b, c) in
  if negb (should_use_position b) then by_key b
  else
    let? positions := extract_positions (base_file_instant_time b) block in
    match positions with
    | None => let? b := fallback_to_key_based b in by_key b
    | Some positions =>
        match content block with
        | Records record_batches =>
            let? st := res_fold (position_data_batch positions) (data_batches record_batches) (inner b, O) in
            let? i := all_positions_used positions st in
            Ok (set_inner i b, Empty)
        | _ => Ok (b, Empty)
        end
    end.

Definition position_process_delete_block (b : PositionBuffer) (block : LogBlock) : res (PositionBuffer * LogBlockContent) :=
  let by_key b := let? (i, c) := process_delete_block (inner b) (content block) in Ok (set_inner i b, c) in
  if negb (should_use_position b) then by_key b
  else
    let? positions := extract_positions (base_file_instant_time b) block in
    match positions with
    | None => let? b := fallback_to_key_based b in by_key b
    | Some positions =>
        match content block with
        | Records record_batches =>
            let? st := res_fold (position_delete_batch positions) (delete_batches record_batches) (inner b, O) in
            let? i := all_positions_used positions st in
            Ok (set_inner i b, Empty)
        | _ => Ok (b, Empty)
        end
    end.

#[export] Instance position_based_buffer : FileGroupRecordBuffer PositionBuffer := {|
  buffer_process_data_block := position_process_data_block;
  buffer_process_delete_block := position_process_delete_block;
  buffer_total_log_records b := RecordBuffer.total_log_records (inner b)
|}.

(** * The base file *)

Definition base_match_of (b : PositionBuffer) : BaseMatch := if should_use_position b then Position else RecordKey.

(** [contains_log_record] *)
Definition contains_log_record (b : PositionBuffer) (key : string) : bool :=
  if negb (should_use_position b) then is_Some_b (records (inner b) !! key)
  else existsb (fun r => negb (is_delete r) && bool_decide (record_key r = key)) (into_values (records (inner b))).

(** [position_at] *)
Definition position_at (base_batch : RecordBatch) (row_idx : nat) : res Z :=
  let? positions := base_row_position_array base_batch in
  match positions !! row_idx with
  | None => Panic
  | Some raw => if raw <? 0 then Err EReadFileSlice else Ok raw
  end.

(** [apply_hybrid_delete] *)
Definition apply_hybrid_delete (base_batch : RecordBatch) (row_idx : nat) (b : PositionBuffer) : res (bool * PositionBuffer) :=
  let? pos := position_at base_batch row_idx in
  match hybrid_deletes b !! pos with
  | None => Ok (false, b)
  | Some _ =>
      let? keys := get_record_keys (slice_row base_batch row_idx) in
      match keys with
      | [] => Panic
      | key :: _ =>
          Ok (true, mkPosition (set_records (delete key (records (inner b))) (inner b)) (base_file_instant_time b)
                      (should_use_position b) (needs_hybrid_strategy b) (delete pos (hybrid_deletes b)))
      end
  end.

(** [do_has_next_position] *)
Fixpoint do_has_next_position (fuel : nat) (b : PositionBuffer) : res (option (bool * PositionBuffer)) :=
  match fuel with
  | O => Ok None
  | S fuel =>
      let? (row, i) := next_base_row (inner b) in
      let b := set_inner i b in
      match row with
      | None => let '(has, i) := has_next_log_record (inner b) in Ok (Some (has, set_inner i b))
      | Some (base_batch, row_idx) =>
          let? (dropped, b) :=
            if needs_hybrid_strategy b then apply_hybrid_delete (pointee base_batch) row_idx b else Ok (false, b) in
          if dropped : bool then do_has_next_position fuel b
          else
            let? (has, i) := has_next_base_record_at base_batch row_idx (base_match_of b) (inner b) in
            if has : bool then Ok (Some (true, set_inner i b)) else do_has_next_position fuel (set_inner i b)
      end
  end.

Definition position_has_next (b : PositionBuffer) : res (option (bool * PositionBuffer)) :=
  match next_record (inner b) with
  | Some _ => Ok (Some (true, b))
  | None => do_has_next_position (S (rows_left (inner b))) b
  end.

Fixpoint position_collect (fuel : nat) (b : PositionBuffer) (out : list BufferedRecord)
    : res (option (list BufferedRecord * PositionBuffer)) :=
  match fuel with
  | O => Ok None
  | S fuel =>
      let? r := position_has_next b in
      match r with
      | None => Ok None
      | Some (false, b) => Ok (Some (out, b))
      | Some (true, b) =>
          position_collect fuel (set_inner (set_next None (inner b)) b)
            (out ++ match next_record (inner b) with Some r => [r] | None => [] end)
      end
  end.

(** [merge_and_collect_with_stats] *)
Definition position_merge_and_collect (b : PositionBuffer) : res (option (RecordBatch * UpdateStats)) :=
  let? s := BaseMerge.output_schema (inner b) in
  let? r := position_collect (S (rows_left (inner b) + records_left (inner b))) b [] in
  match r with
  | None => Ok None
  | Some (output_records, b) =>
      let? batch := records_to_batch output_records s in
      Ok (Some (batch, update_processor (inner b)))
  end.

(** [pull_and_merge_next_base_batch]: batches without rows are skipped. *)
Fixpoint pull_and_merge (s : ArrowKernels.Schema) (src : list (res RecordBatch)) (target_schema : ArrowKernels.Schema)
    (base_match : BaseMatch) (b : Buffer) : res (Buffer * option RecordBatch) :=
  match src with
  | [] => Ok (set_base None (current_base_batch b) (base_row_idx b) (next_addr b) b, None)
  | Ok base_batch :: src =>
      if num_rows base_batch =? 0 then pull_and_merge s src target_schema base_match b
      else
        merge_one_base_batch_kernel
          (set_base (Some (mkSource s src)) (current_base_batch b) (base_row_idx b) (next_addr b) b)
          base_batch target_schema base_match
  | Err _ :: _ => Err EReadFileSlice
  | Panic :: _ => Panic
  end.

Definition pull_and_merge_next_base_batch (b : Buffer) (target_schema : ArrowKernels.Schema) (base_match : BaseMatch)
    : res (Buffer * option RecordBatch) :=
  match base_file_source b with
  | None => Ok (b, None)
  | Some src => pull_and_merge (source_schema src) (source_batches src) target_schema base_match b
  end.

(** [next_hybrid_base_batch]: the records of its loop, then their batch. *)
Fixpoint hybrid_records (fuel room : nat) (b : PositionBuffer) (out : list BufferedRecord)
    : res (option (list BufferedRecord * PositionBuffer)) :=
  match fuel, room with
  | O, _ => Ok None
  | _, O => Ok (Some (out, b))
  | S fuel, S room' =>
      let? (row, i) := next_base_row (inner b) in
      let b := set_inner i b in
      match row with
      | None => Ok (Some (out, b))
      | Some (base_batch, row_idx) =>
          let? (dropped, b) := apply_hybrid_delete (pointee base_batch) row_idx b in
          if dropped : bool then hybrid_records fuel room b out
          else
            let? (has, i) := has_next_base_record_at base_batch row_idx RecordKey (inner b) in
            match has, next_record i with
            | true, Some r => hybrid_records fuel room' (set_inner (set_next None i) b) (out ++ [r])
            | _, _ => hybrid_records fuel room (set_inner i b) out
            end
      end
  end.

Definition next_hybrid_base_batch (b : PositionBuffer) (target_schema : ArrowKernels.Schema)
    : res (option (PositionBuffer * option RecordBatch)) :=
  let? r := hybrid_records (S (rows_left (inner b))) DEFAULT_BATCH_SIZE b [] in
  match r with
  | None => Ok None
  | Some ([], b) => Ok (Some (b, None))
  | Some (records, b) =>
      let? batch := records_to_batch records target_schema in
      Ok (Some (b, if num_rows batch =? 0 then None else Some batch))
  end.

(** [next_merged_base_batch] *)
Definition position_next_merged_base_batch (b : PositionBuffer) (target_schema : ArrowKernels.Schema)
    : res (option (PositionBuffer * option RecordBatch)) :=
  if needs_hybrid_strategy b then next_hybrid_base_batch b target_schema
  else
    let? (i, out) := pull_and_merge_next_base_batch (inner b) target_schema (base_match_of b) in
    Ok (Some (set_inner i b, out)).

(** [merge_base_batch] *)
Definition merge_base_batch (b : PositionBuffer) (base : RecordBatch) (target_schema : ArrowKernels.Schema)
    : res (PositionBuffer * option RecordBatch) :=
  if needs_hybrid_strategy b then Err EUnsupported
  else
    let? (i, out) := merge_one_base_batch_kernel (inner b) base target_schema (base_match_of b) in
    Ok (set_inner i b, out).

Definition position_drain_log_only_inserts (b : PositionBuffer) (target_schema : ArrowKernels.Schema)
    : res (PositionBuffer * option RecordBatch) :=
  let? (i, out) := drain_log_only_inserts (inner b) target_schema in Ok (set_inner i b, out).
End positions.

(** * One operation on the map *)
Section slots.
Context {AB : ArrowBatch} {AR : ArrowRows} {AK : ArrowKernels} {CO : ColumnOps}.

(** What an operation puts in the slot of its key, given what is there. *)
Definition slot_result (b : Buffer) (o : LogOp) (slot : option BufferedRecord) : res (option BufferedRecord) :=
  match o with
  | PutOp record =>
      if match get_record record, reader_schema b with
         | Some ib, Some target => schema_is_partial (ArrowKernels.schema ib) target
         | _, _ => false
         end then fold_partial b record slot
      else if ignore_defaults b || is_Some_b (unavailable_value b) then res_map Some (blend_full b record slot)
      else delta_merge (BufferedRecordMerger := buffered_record_merger b) record slot
  | DelOp d => res_map (fmap from_delete_record) (delta_merge_delete (BufferedRecordMerger := buffered_record_merger b) d slot)
  end.

Definition stored (key : string) (o : LogOp) (new : option BufferedRecord) (b : Buffer) : Buffer :=
  let m := match new with Some r => <[key := r]> (records b) | None => records b end in
  set_counts (fetch_add_1 (RecordBuffer.total_log_records b))
    (match o with PutOp _ => Z.max (Z.of_nat (size m)) (merge_map_peak_entries b) | DelOp _ => merge_map_peak_entries b end)
    (set_records m b).

Lemma apply_entry_slot b key (o : LogOp) :
  apply_entry b (key, o) = res_map (fun new => stored key o new b) (slot_result b o (records b !! key)).
Proof.
  unfold apply_entry, slot_result. destruct o as [r|d]; cbn [fst snd].
  - unfold process_next_data_record, merge_in_place. cbv zeta.
    destruct (match get_record r with Some _ => _ | None => _ end); [by destruct (fold_partial _ _ _)|].
    destruct (ignore_defaults b || _); [by destruct (blend_full _ _ _)|]. by destruct (delta_merge _ _).
  - unfold process_next_deleted_record, merge_in_place. by destruct (delta_merge_delete _ _).
Qed.

Lemma size_kmap {A} (f : Z -> string) `{!Inj (=) (=) f} (m : gmap Z A) : size (kmap f m : gmap string A) = size m.
Proof. rewrite <- !length_map_to_list. rewrite (map_to_list_kmap f m). by rewrite length_fmap. Qed.

(** The same map, keyed by positions on one side and by keys on the other. *)
Lemma stored_kmap (f g : Z -> string) `{!Inj (=) (=) f, !Inj (=) (=) g} p o new b (mz : gmap Z BufferedRecord) :
  records b = kmap f mz ->
  exists mz', records (stored (f p) o new b) = kmap f mz' /\
    stored (g p) o new (set_records (kmap g mz) b) = set_records (kmap g mz') (stored (f p) o new b) /\
    forall q r, mz' !! q = Some r -> mz !! q = Some r \/ new = Some r /\ q = p.
Proof.
  intros Hr. exists (match new with Some r => <[p := r]> mz | None => mz end). unfold stored. cbn [records set_records set_counts].
  rewrite Hr. destruct new as [r|].
  - rewrite <- (kmap_insert f), <- (kmap_insert g), !size_kmap by done. split; [done|]. split; [done|].
    intros q x. rewrite lookup_insert_Some. naive_solver.
  - rewrite !size_kmap by done. split; [done|]. split; [done|]. by left.
Qed.
End slots.

(** * Both buffers hold the same *)
Section agreement.
Context {AB : ArrowBatch} {AR : ArrowRows} {AK : ArrowKernels} {AL : ArrowLaws} {CO : ColumnOps}
  {RC : RecordContext} {MO : MapOrder} {ML : MapOrderLaws} {PC : PositionsCodec}.
Context (target : ArrowKernels.Schema) (heap : list RecordBatch) {RL : RecordContextLaws target RecordKey}.

(** The key of the row at each position of the base file. *)
Context (key_at : Z -> string) {key_at_inj : Inj (=) (=) key_at}.

(** A record that can be keyed anew: it carries its key, which is not empty, and so does
    its row. *)
Definition addressed (key : string) (r : BufferedRecord) : Prop :=
  record_key r = key /\ key <> "" /\
  forall row, get_record r = Some row -> exists keys, get_record_keys row = Ok (key :: keys).

(** The position buffer and the key-based one, about the same base file. *)
Record agree (pb : PositionBuffer) (kb : Buffer) : Prop := {
  agree_inner : inner pb = set_records (records (inner pb)) kb;
  agree_hybrid : needs_hybrid_strategy pb = false;
  agree_records :
    if should_use_position pb
    then exists mz : gmap Z BufferedRecord, records (inner pb) = kmap position_key mz /\ records kb = kmap key_at mz
    else records (inner pb) = records kb;
  agree_addressed : forall k r, records kb !! k = Some r -> addressed k r
}.

Instance position_key_inj : Inj (=) (=) position_key.
Proof. intros p q. apply pretty_Z_inj. Qed.

Lemma set_records_same (b : Buffer) : set_records (records b) b = b.
Proof. by destruct b. Qed.

(** ** The fallback *)
Lemma rekey_addressed m k r : addressed k r -> m !! k = None -> rekey m r = Ok (<[k := r]> m).
Proof.
  intros (Hk & Hne & Hrow) Hm. unfold rekey, reinsert_rekeyed. subst k.
  assert (bool_decide (is_Some (m !! record_key r)) = false) as E.
  { apply bool_decide_eq_false. rewrite Hm. by intros [? ?]. }
  destruct (get_record r) as [row|] eqn:Er.
  - destruct (Hrow row eq_refl) as [keys ->]. cbn [res_bind]. rewrite E. by destruct r.
  - by rewrite bool_decide_eq_true_2, E by done.
Qed.

Lemma rekey_all l : forall m, NoDup (record_key <$> l) -> (forall r, r ∈ l -> addressed (record_key r) r) ->
  (forall r, r ∈ l -> m !! record_key r = None) ->
  res_fold rekey l m = Ok (list_to_map ((fun r => (record_key r, r)) <$> l) ∪ m).
Proof.
  induction l as [|r l IH]; intros m Hn Ha Hm; cbn [res_fold].
  { by rewrite fmap_nil, list_to_map_nil, map_empty_union. }
  rewrite fmap_cons in Hn. apply NoDup_cons in Hn as [Hr Hn].
  rewrite (rekey_addressed m (record_key r) r) by (apply Ha || apply Hm; by left). cbn [res_bind].
  rewrite IH; [|done|intros x Hx; apply Ha; by right|].
  - f_equal. rewrite fmap_cons, list_to_map_cons, <- insert_union_r, insert_union_l; [done|].
    apply not_elem_of_list_to_map. rewrite <- list_fmap_compose. exact Hr.
  - intros x Hx. rewrite lookup_insert_ne; [apply Hm; by right|]. intros E. apply Hr. rewrite E. by apply list_elem_of_fmap_2.
Qed.

Lemma fallback_agree pb kb : agree pb kb ->
  exists pb', fallback_to_key_based pb = Ok pb' /\ agree pb' kb /\ should_use_position pb' = false /\
    base_file_instant_time pb' = base_file_instant_time pb.
Proof.
  intros [Hi Hh Hr Ha]. unfold fallback_to_key_based. destruct (should_use_position pb) eqn:E; cbn [negb].
  2:{ exists pb. split_and!; try done. split; [done|done|by rewrite E|done]. }
  destruct Hr as (mz & Hp & Hk).
  pose proof (into_values_perm (records (inner pb))) as Hperm. rewrite Hp in Hperm at 2.
  rewrite (map_to_list_kmap position_key mz), <- list_fmap_compose in Hperm.
  set (l := into_values (records (inner pb))) in *.
  assert (Hrk : forall q r, mz !! q = Some r -> record_key r = key_at q).
  { intros q r Hq. apply (Ha (key_at q) r). by rewrite Hk, lookup_kmap. }
  assert (Hl : (fun r => (record_key r, r)) <$> l ≡ₚ map_to_list (records kb)).
  { rewrite Hperm, Hk, (map_to_list_kmap key_at mz), <- list_fmap_compose.
    apply Permutation_refl', list_fmap_ext. intros i [q r] Hq%list_elem_of_lookup_2. cbn.
    apply elem_of_map_to_list in Hq. by rewrite (Hrk q r Hq). }
  assert (Hn : NoDup (record_key <$> l)).
  { replace (record_key <$> l) with ((fun r => (record_key r, r)) <$> l).*1 by by rewrite <- list_fmap_compose.
    rewrite Hl. apply NoDup_fst_map_to_list. }
  rewrite rekey_all; [|done| |by intros; apply lookup_empty].
  - cbn [res_bind]. rewrite map_union_empty.
    assert (list_to_map ((fun r => (record_key r, r)) <$> l) = records kb) as ->.
    { rewrite <- (list_to_map_to_list (records kb)). apply list_to_map_proper; [|done].
      by rewrite <- list_fmap_compose. }
    eexists. split; [reflexivity|]. split; [|done]. split; cbn; [|done|done|done].
    rewrite Hi. by destruct kb.
  - intros r Hr. assert (Hin : (record_key r, r) ∈ map_to_list (records kb)).
    { rewrite <- Hl. by apply (list_elem_of_fmap_2 (fun r => (record_key r, r))). }
    apply elem_of_map_to_list in Hin. by apply Ha.
Qed.

(** ** Records at positions *)
Definition entry_at (key : string) (e : Entry) (b : Buffer) : res Buffer := apply_entry b (key, e.2).

Lemma entry_agree kb (mz : gmap Z BufferedRecord) p o : records kb = kmap key_at mz -> ingesting target heap kb ->
  entry_wf target heap (key_at p, o) ->
  exists kb' mz', apply_entry kb (key_at p, o) = Ok kb' /\
    apply_entry (set_records (kmap position_key mz) kb) (position_key p, o) = Ok (set_records (kmap position_key mz') kb') /\
    records kb' = kmap key_at mz' /\ ingesting target heap kb' /\ next_addr kb' = next_addr kb.
Proof.
  intros Hr Hb Hw. destruct (apply_entry_spec target heap kb _ Hb Hw) as (kb' & Hkb & Hb' & _ & Haddr & _).
  pose proof Hkb as Hkb'. rewrite apply_entry_slot in Hkb'. apply res_map_Ok in Hkb' as (new & Hnew & ->).
  destruct (stored_kmap key_at position_key p o new kb mz Hr) as (mz' & H1 & H2 & _).
  exists (stored (key_at p) o new kb), mz'. split_and!; [exact Hkb| |exact H1|exact Hb'|exact Haddr].
  rewrite apply_entry_slot. change (records (set_records (kmap position_key mz) kb)) with (kmap position_key mz : gmap string BufferedRecord).
  rewrite lookup_kmap by apply _. rewrite Hr, lookup_kmap in Hnew by done.
  change (slot_result (set_records (kmap position_key mz) kb) o) with (slot_result kb o). rewrite Hnew. cbn [res_map res_bind].
  by rewrite H2.
Qed.

Lemma entries_agree ps es : forall kb (mz : gmap Z BufferedRecord) i, records kb = kmap key_at mz -> ingesting target heap kb ->
  (forall e, e ∈ es -> entry_wf target heap e) ->
  (forall j e, es !! j = Some e -> exists p, ps !! (i + j)%nat = Some p /\ e.1 = key_at p) ->
  exists kb' mz', res_fold apply_entry es kb = Ok kb' /\
    res_fold (at_position ps entry_at) es (set_records (kmap position_key mz) kb, i) =
      Ok (set_records (kmap position_key mz') kb', (i + length es)%nat) /\
    records kb' = kmap key_at mz' /\ ingesting target heap kb' /\ next_addr kb' = next_addr kb.
Proof.
  induction es as [|[k o] es IH]; intros kb mz i Hr Hb Hw Hp; cbn [res_fold].
  { exists kb, mz. rewrite Nat.add_0_r. split_and!; done. }
  destruct (Hp 0%nat _ eq_refl) as (p & Hpp & Hk). cbn in Hk. subst k. rewrite Nat.add_0_r in Hpp.
  destruct (entry_agree kb mz p o Hr Hb) as (kb1 & mz1 & H1 & H2 & Hr1 & Hb1 & Ha1); [apply Hw; by left|].
  rewrite H1. cbn [res_bind]. unfold at_position at 1, entry_at at 1. cbn [fst snd]. rewrite Hpp, H2. cbn [res_bind].
  destruct (IH kb1 mz1 (S i) Hr1 Hb1) as (kb2 & mz2 & H3 & H4 & Hr2 & Hb2 & Ha2).
  - intros e He. apply Hw. by right.
  - intros j e Hj. destruct (Hp (S j) e Hj) as (q & Hq & E). exists q. split; [|done]. rewrite <- Hq. f_equal. lia.
  - exists kb2, mz2. split_and!; [done| |done|done|congruence]. rewrite H4. do 2 f_equal. cbn. lia.
Qed.

Lemma put_entries_keys addr x : (put_entries target addr x).*1 = row_key <$> batch_rows x.
Proof.
  unfold put_entries. apply list_eq. intros i. rewrite !list_lookup_fmap, list_lookup_imap. by destruct (batch_rows x !! i).
Qed.

Lemma batches_entries_keys l : forall addr, (batches_entries target addr l).*1 = row_key <$> concat (batch_rows <$> l).
Proof.
  induction l as [|x l IH]; intros addr; cbn; [done|]. by rewrite !fmap_app, put_entries_keys, IH.
Qed.

Lemma data_batches_agree ps l : forall kb (mz : gmap Z BufferedRecord) i, records kb = kmap key_at mz -> ingesting target heap kb ->
  (forall x, x ∈ l -> ArrowKernels.schema x = target) -> base_interned heap (next_addr kb) l ->
  (forall j k, (row_key <$> concat (batch_rows <$> l)) !! j = Some k -> exists p, ps !! (i + j)%nat = Some p /\ k = key_at p) ->
  exists kb' mz', res_fold process_data_batch l kb = Ok kb' /\
    res_fold (position_data_batch ps) l (set_records (kmap position_key mz) kb, i) =
      Ok (set_records (kmap position_key mz') kb', (i + length (concat (batch_rows <$> l)))%nat) /\
    records kb' = kmap key_at mz'.
Proof.
  induction l as [|x l IH]; intros kb mz i Hr Hb Hs Hi Hp; cbn [res_fold].
  { exists kb, mz. cbn. rewrite Nat.add_0_r. split_and!; done. }
  rewrite process_data_batch_entries, (data_entries_of target) by (apply Hs; by left). cbn [res_bind arc_new snd].
  set (b0 := set_base (base_file_source kb) (current_base_batch kb) (base_row_idx kb) (S (next_addr kb)) kb).
  assert (Hx : heap !! next_addr kb = Some x) by (specialize (Hi 0%nat x eq_refl); by rewrite Nat.add_0_r in Hi).
  rewrite fmap_cons in Hp. cbn [concat] in Hp.
  destruct (entries_agree ps (put_entries target (next_addr kb) x) b0 mz i) as (kb1 & mz1 & H1 & H2 & Hr1 & Hb1 & Ha1).
  - exact Hr.
  - by apply ingesting_addr.
  - intros e. apply put_entries_wf; [apply Hs; by left|done].
  - intros j e Hj. destruct (Hp j e.1) as (p & Hpp & E); [|by exists p].
    rewrite fmap_app. apply lookup_app_l_Some. rewrite <- (put_entries_keys (next_addr kb)). rewrite list_lookup_fmap. exact (f_equal (fmap fst) Hj).
  - rewrite H1. cbn [res_bind]. unfold position_data_batch at 1. cbn [fst snd].
    pose proof (data_entries_of target (next_addr kb) x (Hs x ltac:(by left))) as Hd. unfold data_entries in Hd.
    change (arc_new x (set_records (kmap position_key mz) kb)) with
      (mkArc (next_addr kb) x, set_records (kmap position_key mz) b0). cbn iota beta.
    apply res_bind_Ok in Hd as (recs & -> & [= Hd]). cbn [res_bind]. rewrite <- Hd, res_fold_map in H2.
    rewrite (res_fold_ext _ (fun c a => at_position ps entry_at c (a.1, PutOp a.2))) by by intros c [k r].
    rewrite H2. cbn [res_bind].
    assert (Hlen : length recs = length (batch_rows x)) by (erewrite <- (length_fmap _ recs), Hd; apply length_imap).
    rewrite length_fmap, Hlen.
    destruct (IH kb1 mz1 (i + length (batch_rows x))%nat Hr1 Hb1) as (kb2 & mz2 & H3 & H4 & Hr2).
    + intros y Hy. apply Hs. by right.
    + intros j y Hj. rewrite Ha1. cbn. specialize (Hi (S j) y Hj). by rewrite Nat.add_succ_r in Hi.
    + intros j k Hj. destruct (Hp (length (batch_rows x) + j)%nat k) as (p & Hpp & E).
      * rewrite fmap_app, lookup_app_r by (rewrite length_fmap; lia). rewrite <- Hj. f_equal. rewrite length_fmap. lia.
      * exists p. split; [|done]. rewrite <- Hpp. f_equal. lia.
    + exists kb2, mz2. split_and!; [done| |done]. rewrite H4. do 2 f_equal. cbn. rewrite length_app. lia.
Qed.

Lemma delete_batches_agree ps l : forall kb (mz : gmap Z BufferedRecord) i, records kb = kmap key_at mz -> ingesting target heap kb ->
  (forall x, x ∈ l.*1 -> exists es, delete_batch_to_keys_with_ordering x = Ok es /\ forall k v, (k, Some v) ∈ es -> ov_supported v) ->
  (forall j k, (concat (del_entries <$> l.*1)).*1 !! j = Some k -> exists p, ps !! (i + j)%nat = Some p /\ k = key_at p) ->
  exists kb' mz', res_fold process_delete_batch l kb = Ok kb' /\
    res_fold (position_delete_batch ps) l (set_records (kmap position_key mz) kb, i) =
      Ok (set_records (kmap position_key mz') kb', (i + length (concat (del_entries <$> l.*1)))%nat) /\
    records kb' = kmap key_at mz'.
Proof.
  induction l as [|[x t] l IH]; intros kb mz i Hr Hb Hl Hp; cbn [res_fold].
  { exists kb, mz. cbn. rewrite Nat.add_0_r. split_and!; done. }
  rewrite process_delete_batch_entries. cbn [fst]. destruct (Hl x) as (es & Ees & Hes); [by left|].
  rewrite !fmap_cons in Hp. cbn [fst concat] in Hp. unfold position_delete_batch at 1. cbn [fst]. rewrite Ees. cbn [res_bind].
  assert (Ed : delete_entries x = Ok (del_entries x)) by (unfold delete_entries, del_entries; by rewrite Ees).
  rewrite Ed. cbn [res_bind].
  destruct (entries_agree ps (del_entries x) kb mz i Hr Hb) as (kb1 & mz1 & H1 & H2 & Hr1 & Hb1 & Ha1).
  - unfold del_entries. rewrite Ees. intros e ([k v] & -> & He)%list_elem_of_fmap. split; [done|].
    intros w Hw. apply (Hes k w). cbn in Hw. by subst v.
  - intros j e Hj. destruct (Hp j e.1) as (p & Hpp & E); [|by exists p].
    rewrite fmap_app. apply lookup_app_l_Some. rewrite list_lookup_fmap. exact (f_equal (fmap fst) Hj).
  - rewrite H1. cbn [res_bind]. assert (Hd : del_entries x = delete_entry <$> es) by (unfold del_entries; by rewrite Ees).
    rewrite Hd, res_fold_map in H2.
    rewrite (res_fold_ext _ (fun c a => at_position ps entry_at c (delete_entry a))) by by intros c [k v].
    rewrite H2. cbn [res_bind].
    destruct (IH kb1 mz1 (i + length (del_entries x))%nat Hr1 Hb1) as (kb2 & mz2 & H3 & H4 & Hr2).
    + intros y Hy. apply Hl. by right.
    + intros j k Hj. destruct (Hp (length (del_entries x) + j)%nat k) as (p & Hpp & E).
      * rewrite fmap_app, lookup_app_r by (rewrite length_fmap; unfold Entry in *; lia). rewrite <- Hj. f_equal. rewrite length_fmap. unfold Entry in *. lia.
      * exists p. split; [|done]. rewrite <- Hpp. f_equal. lia.
    + exists kb2, mz2. rewrite <- Hd. split_and!; [done| |done]. rewrite H4. do 2 f_equal. rewrite !fmap_cons. cbn [fst concat]. rewrite length_app. symmetry. apply Nat.add_assoc.
Qed.

(** ** Blocks *)

(** The keys of a block's records, in order. *)
Definition block_keys (block : BlockType * LogBlockContent) : list string :=
  (row_key <$> concat (batch_rows <$> block_data block)) ++ (concat (del_entries <$> block_deletes block)).*1.

(** A block whose positions, if they can be used, are those of the rows with its keys. *)
Record positioned (base_instant : string) (block : LogBlock) : Prop := {
  positions_named : exists o, extract_positions base_instant block = Ok o /\
    forall ps, o = Some ps -> block_keys (typed_content block) = key_at <$> ps;
  keys_present : forall k, k ∈ block_keys (typed_content block) -> k <> ""
}.

Lemma replay_from custom mode M l : create_with custom mode = Ok M -> pick_winner_decides mode = true ->
  forall slot r, replay (M := M) l slot = Ok (Some r) -> (exists o, o ∈ l /\ r = op_record o) \/ slot = Some r.
Proof.
  intros Hc Hd. induction l as [|o l IH]; intros slot r; unfold replay in *; cbn [res_fold].
  { intros [= ->]. by right. }
  intros (slot' & Ho & Hr)%res_bind_Ok. apply IH in Hr as [(x & Hx & ->)|E]; [left; exists x; split; [by right|done]|].
  subst slot'. destruct (apply_op_from _ _ _ _ _ _ Hc Hd Ho) as [->|?]; [left; exists o; split; [by left|done]|by right].
Qed.

Lemma put_entry_addressed addr x e : ArrowKernels.schema x = target -> e ∈ put_entries target addr x -> e.1 <> "" ->
  addressed e.1 (op_record e.2).
Proof.
  intros Hs (i & He)%list_elem_of_lookup Hne. unfold put_entries in He. rewrite list_lookup_imap in He.
  destruct (batch_rows x !! i) as [r|] eqn:Er; [|done]. injection He as <-. unfold put_entry. cbn [fst snd op_record] in *.
  destruct (is_delete_record x i); (split; [done|]; split; [exact Hne|]); [done|].
  cbn. intros row [= <-]. exists []. rewrite (keys_of (RecordContextLaws := RL)) by by rewrite slice_row_schema.
  by rewrite (slice_row_rows x i r Er).
Qed.

Lemma batches_entries_addressed l : forall addr, (forall x, x ∈ l -> ArrowKernels.schema x = target) ->
  forall e, e ∈ batches_entries target addr l -> e.1 <> "" -> addressed e.1 (op_record e.2).
Proof.
  induction l as [|x l IH]; intros addr Hs e; cbn [batches_entries]; [by intros ?%not_elem_of_nil|].
  intros [He|He]%elem_of_app Hne.
  - apply (put_entry_addressed addr x); [apply Hs; by left|done|done].
  - apply (IH (S addr)); [intros y Hy; apply Hs; by right|done|done].
Qed.

Lemma del_entries_addressed l e : e ∈ concat (del_entries <$> l) -> e.1 <> "" -> addressed e.1 (op_record e.2).
Proof.
  intros He Hne. apply list_elem_of_In, in_concat in He as (es & Hes%list_elem_of_In & He%list_elem_of_In).
  apply list_elem_of_fmap in Hes as (x & -> & _). unfold del_entries in He.
  destruct (delete_batch_to_keys_with_ordering x); [|by apply not_elem_of_nil in He..].
  apply list_elem_of_fmap in He as ([k v] & -> & _). split; [done|]. split; [exact Hne|]. done.
Qed.

Lemma block_entries_addressed addr block e : block_ok target block ->
  (forall k, k ∈ block_keys block -> k <> "") ->
  e ∈ batches_entries target addr (block_data block) ++ concat (del_entries <$> block_deletes block) ->
  addressed e.1 (op_record e.2).
Proof.
  intros [Hd _] Hne He. assert (He1 : e.1 <> "").
  { apply Hne. unfold block_keys. rewrite <- (batches_entries_keys _ addr), <- fmap_app. by apply list_elem_of_fmap_2. }
  apply elem_of_app in He as [He|He]; [by apply (batches_entries_addressed _ addr Hd)|by eapply del_entries_addressed].
Qed.

(** What a block leaves in the key-based buffer. *)
Lemma key_step kb block : ingesting target heap kb -> block_ok target (typed_content block) ->
  base_interned heap (next_addr kb) (block_data (typed_content block)) ->
  (forall k, k ∈ block_keys (typed_content block) -> k <> "") -> (forall k r, records kb !! k = Some r -> addressed k r) ->
  exists kb', process_block kb (typed_content block) = Ok kb' /\ ingesting target heap kb' /\ same_config kb kb' /\
    next_addr kb' = (next_addr kb + length (block_data (typed_content block)))%nat /\
    forall k r, records kb' !! k = Some r -> addressed k r.
Proof.
  intros Hb Hok Hi Hne Ha. destruct (process_block_spec target heap kb _ Hb Hok Hi) as (kb' & H1 & H2 & H3 & H4 & H5).
  exists kb'. split_and!; try done. intros k r Hr. specialize (H5 k). rewrite Hr in H5.
  destruct Hb as [Hp _]. destruct (plain_merger _ _ _ Hp) as [custom Hc].
  destruct (replay_from _ _ _ _ Hc (plain_mode _ _ _ Hp) _ _ H5) as [(o & Ho & ->)|Hs]; [|by apply Ha].
  unfold ops_at in Ho. apply list_elem_of_fmap in Ho as (e & -> & [<- He]%list_elem_of_filter).
  by apply (block_entries_addressed (next_addr kb) (typed_content block)).
Qed.

Lemma dispatch_by_key pb block : should_use_position pb = false ->
  res_map fst (dispatch_block pb block) = res_map (fun i => set_inner i pb) (process_block (inner pb) (typed_content block)).
Proof.
  intros E. unfold dispatch_block, process_block, typed_content. cbn [fst snd].
  destruct (block_type block); cbn [buffer_process_data_block buffer_process_delete_block position_based_buffer];
    unfold position_process_data_block, position_process_delete_block; rewrite ?E; cbn [negb];
    try (by destruct pb); first [by destruct (process_data_block _ _) as [[? ?]| |]|by destruct (process_delete_block _ _) as [[? ?]| |]].
Qed.

(** The types of blocks a buffer is given. *)
Definition merges (t : BlockType) : bool := match t with AvroData | ParquetData | HfileData | Delete => true | _ => false end.

Lemma dispatch_other {S : Type} {FB : FileGroupRecordBuffer S} (st : S) block : merges (block_type block) = false ->
  res_map fst (dispatch_block st block) = Ok st.
Proof. unfold dispatch_block. by destruct (block_type block). Qed.

Lemma process_other kb block : merges (block_type block) = false -> process_block kb (typed_content block) = Ok kb.
Proof. unfold process_block, typed_content. cbn [fst snd]. by destruct (block_type block). Qed.

Lemma dispatch_fallback pb pb' block : merges (block_type block) = true ->
  should_use_position pb = true -> should_use_position pb' = false ->
  extract_positions (base_file_instant_time pb) block = Ok None -> fallback_to_key_based pb = Ok pb' ->
  dispatch_block pb block = dispatch_block pb' block.
Proof.
  intros Hm E E' Hx Hf. unfold dispatch_block.
  destruct (block_type block); try done;
    cbn [buffer_process_data_block buffer_process_delete_block position_based_buffer];
    unfold position_process_data_block, position_process_delete_block; by rewrite E, E', Hx, Hf.
Qed.

(** A block with positions, in both buffers. *)
Lemma dispatch_at_positions pb kb (mz : gmap Z BufferedRecord) block ps :
  should_use_position pb = true -> inner pb = set_records (kmap position_key mz) kb -> records kb = kmap key_at mz ->
  ingesting target heap kb -> block_ok target (typed_content block) ->
  base_interned heap (next_addr kb) (block_data (typed_content block)) ->
  extract_positions (base_file_instant_time pb) block = Ok (Some ps) -> block_keys (typed_content block) = key_at <$> ps ->
  exists kb' mz', process_block kb (typed_content block) = Ok kb' /\
    res_map fst (dispatch_block pb block) = Ok (set_inner (set_records (kmap position_key mz') kb') pb) /\
    records kb' = kmap key_at mz'.
Proof.
  intros E Hin Hr Hb [Hd Hx] Hi Hps Hk.
  assert (Hsame : exists kb' mz', Ok kb = Ok kb' /\ Ok pb = Ok (set_inner (set_records (kmap position_key mz') kb') pb) /\
    records kb' = kmap key_at mz') by (exists kb, mz; rewrite <- Hin; by destruct pb).
  assert (Hkeys : forall j k, block_keys (typed_content block) !! j = Some k -> exists p, ps !! (0 + j)%nat = Some p /\ k = key_at p).
  { intros j k. rewrite Hk, list_lookup_fmap. destruct (ps !! j) as [p|] eqn:Ep; [|done]. intros [= <-]. by exists p. }
  apply (f_equal length) in Hk. rewrite length_fmap in Hk.
  destruct (merges (block_type block)) eqn:Em; [|by rewrite process_other, dispatch_other by done].
  unfold process_block, dispatch_block, block_keys, block_data, block_deletes, typed_content in *. cbn [fst snd] in *.
  destruct (block_type block); try done;
    cbn [buffer_process_data_block buffer_process_delete_block position_based_buffer];
    unfold position_process_data_block, position_process_delete_block; rewrite E, Hps, Hin; cbn [negb res_bind];
    destruct (content block) as [rb| |]; try exact Hsame; cbn [process_data_block process_delete_block].
  2-4: assert (Hlen : length (concat (batch_rows <$> data_batches rb)) = length ps)
      by (rewrite <- Hk, length_app, length_fmap; cbn; lia);
    destruct (data_batches_agree ps (data_batches rb) kb mz 0 Hr Hb Hd Hi) as (kb' & mz' & -> & -> & H3);
    [intros j k Hj; apply Hkeys; by apply lookup_app_l_Some|];
    exists kb', mz'; cbn [res_bind]; unfold all_positions_used; cbn [snd fst];
    rewrite bool_decide_eq_true_2 by exact Hlen; done.
  assert (Hlen : length (concat (del_entries <$> (delete_batches rb).*1)) = length ps).
  { rewrite <- Hk. symmetry. apply (length_fmap fst). }
  destruct (delete_batches_agree ps (delete_batches rb) kb mz 0 Hr Hb Hx Hkeys) as (kb' & mz' & -> & -> & H3).
  exists kb', mz'. cbn [res_bind]. unfold all_positions_used. cbn [snd fst].
  rewrite bool_decide_eq_true_2 by exact Hlen. done.
Qed.

Lemma block_agree pb kb block : agree pb kb -> ingesting target heap kb -> block_ok target (typed_content block) ->
  base_interned heap (next_addr kb) (block_data (typed_content block)) -> positioned (base_file_instant_time pb) block ->
  exists pb' kb', res_map fst (dispatch_block pb block) = Ok pb' /\ process_block kb (typed_content block) = Ok kb' /\
    agree pb' kb' /\ ingesting target heap kb' /\ same_config kb kb' /\
    next_addr kb' = (next_addr kb + length (block_data (typed_content block)))%nat /\
    base_file_instant_time pb' = base_file_instant_time pb.
Proof.
  intros Hag Hb Hok Hi [(o & Hx & Hps) Hne]. pose proof Hag as [Hin Hh Hr Ha].
  destruct (key_step kb block Hb Hok Hi Hne Ha) as (kb' & Hk & Hb' & Hc & Hn & Ha').
  assert (Hkey : forall pb1, agree pb1 kb -> should_use_position pb1 = false ->
    base_file_instant_time pb1 = base_file_instant_time pb ->
    exists pb', res_map fst (dispatch_block pb1 block) = Ok pb' /\ agree pb' kb' /\
      base_file_instant_time pb' = base_file_instant_time pb).
  { intros pb1 [Hi1 Hh1 Hr1 _] E1 Ht. rewrite E1 in Hr1. rewrite Hr1, set_records_same in Hi1.
    rewrite dispatch_by_key, Hi1, Hk by done. exists (set_inner kb' pb1). split; [done|]. split; [|done].
    split; cbn; rewrite ?E1; [by rewrite set_records_same|done|done|done]. }
  destruct (should_use_position pb) eqn:E.
  2:{ destruct (Hkey pb) as (pb' & H1 & H2 & H3); try done. exists pb', kb'. by split_and!. }
  destruct o as [ps|].
  - destruct Hr as (mz & Hp & Hr). rewrite Hp in Hin.
    destruct (dispatch_at_positions pb kb mz block ps E Hin Hr Hb Hok Hi Hx (Hps ps eq_refl)) as (kb1 & mz' & H1 & H2 & H3).
    assert (kb1 = kb') as -> by congruence.
    exists (set_inner (set_records (kmap position_key mz') kb') pb), kb'. split_and!; try done.
    split; cbn; [done|done| |done]. rewrite E. by exists mz'.
  - destruct (merges (block_type block)) eqn:Em.
    + destruct (fallback_agree pb kb Hag) as (pb1 & Hf & Hag1 & E1 & Ht1).
      rewrite (dispatch_fallback pb pb1 block Em E E1 Hx Hf).
      destruct (Hkey pb1) as (pb' & H1 & H2 & H3); try done. exists pb', kb'. by split_and!.
    + rewrite process_other in Hk |- * by done. injection Hk as <-. rewrite dispatch_other by done. exists pb, kb. by split_and!.
Qed.

Definition process_at_position (pb : PositionBuffer) (block : LogBlock) : res PositionBuffer := res_map fst (dispatch_block pb block).

Lemma blocks_agree blocks : forall pb kb, agree pb kb -> ingesting target heap kb ->
  (forall x, x ∈ blocks -> block_ok target (typed_content x) /\ positioned (base_file_instant_time pb) x) ->
  base_interned heap (next_addr kb) (concat (block_data <$> (typed_content <$> blocks))) ->
  exists pb' kb', res_fold process_at_position blocks pb = Ok pb' /\
    res_fold process_block (typed_content <$> blocks) kb = Ok kb' /\ agree pb' kb' /\ ingesting target heap kb' /\ same_config kb kb'.
Proof.
  induction blocks as [|x blocks IH]; intros pb kb Hag Hb Hok Hi; cbn [res_fold].
  { exists pb, kb. by split_and!. }
  rewrite !fmap_cons in *. cbn [concat] in Hi.
  destruct (block_agree pb kb x Hag Hb) as (pb1 & kb1 & H1 & H2 & H3 & H4 & C1 & A1 & T1); [apply Hok; by left| |apply Hok; by left|].
  { intros j y Hj. apply Hi. by apply lookup_app_l_Some. }
  unfold process_at_position at 1. rewrite H1. cbn [res_fold]. rewrite H2. cbn [res_bind].
  destruct (IH pb1 kb1 H3 H4) as (pb2 & kb2 & H5 & H6 & H7 & H8 & C2).
  { intros y Hy. rewrite T1. apply Hok. by right. }
  { intros j y Hj. rewrite A1, <- Nat.add_assoc. apply Hi. rewrite lookup_app_r by lia. rewrite <- Hj. f_equal. lia. }
  exists pb2, kb2. split_and!; [done..|by apply (same_config_trans kb kb1)].
Qed.

(** ** Base rows *)

(** A table without partial updates, in a merge mode of its own. *)
Definition decided (b : Buffer) : Prop :=
  unavailable_value b = None /\ ignore_defaults b = false /\ pick_winner_decides (record_merge_mode b) = true.

Definition with_records (m : gmap string BufferedRecord) (k : Kernel) : Kernel :=
  mkKernel m (k_stats k) (keep k) (replacements k) (any_dropped k).

(** The key a row was found by decides nothing. *)
Lemma merge_conflict_key b base tgt idx key key' ord log k k' m m' : decided b ->
  merge_conflict b base tgt idx key ord log k = Ok k' ->
  k_records k' = k_records k /\
  merge_conflict (set_records m b) base tgt idx key' ord log (with_records m' k) = Ok (with_records m' k').
Proof.
  intros (Hu & Hi & Hm). unfold merge_conflict. cbn [record_merge_mode set_records]. rewrite Hm. cbn [negb].
  assert (Hf : forall c y, filled_base_row (set_records c b) base idx y ord log = Ok None).
  { intros c y. unfold filled_base_row. cbn [ignore_defaults unavailable_value set_records]. rewrite Hu, Hi. by destruct (get_record log). }
  replace (filled_base_row b base idx key ord log) with (@Ok (option BufferedRecord) None)
    by (rewrite <- (set_records_same b) at 1; by rewrite Hf).
  rewrite Hf. destruct (pick_winner _ _ _); cbn [res_bind].
  - by intros [= <-].
  - change (winning_log_record (set_records m b)) with (winning_log_record b).
    destruct (winning_log_record b base idx tgt log); cbn [res_bind]; [by intros [= <-]|done..].
  - by intros [= <-].
Qed.

Lemma merge_row_agree b m base tgt ords idx p k k' (mz : gmap Z BufferedRecord) : decided b -> k_records k = kmap key_at mz ->
  merge_row b base tgt ords k (idx, key_at p) = Ok k' ->
  exists mz', k_records k' = kmap key_at mz' /\ mz' ⊆ mz /\
    merge_row (set_records m b) base tgt ords (with_records (kmap position_key mz) k) (idx, position_key p) =
      Ok (with_records (kmap position_key mz') k').
Proof.
  intros Hd Hk. unfold merge_row. cbn [k_records with_records]. rewrite Hk, !lookup_kmap by apply _.
  destruct (mz !! p) as [log|] eqn:E; [|intros [= <-]; by exists mz].
  rewrite <- (kmap_delete key_at), <- (kmap_delete position_key). intros Hc.
  destruct (merge_conflict_key _ _ _ _ _ (position_key p) _ _ _ _ m (kmap position_key (delete p mz)) Hd Hc) as [H1 H2].
  exists (delete p mz). split; [exact H1|]. split; [apply delete_subseteq|]. exact H2.
Qed.

Lemma merge_rows_agree b m base tgt ords rows : forall k k' (mz : gmap Z BufferedRecord), decided b -> k_records k = kmap key_at mz ->
  res_fold (merge_row b base tgt ords) ((fun '(i, p) => (i, key_at p)) <$> rows) k = Ok k' ->
  exists mz', k_records k' = kmap key_at mz' /\ mz' ⊆ mz /\
    res_fold (merge_row (set_records m b) base tgt ords) ((fun '(i, p) => (i, position_key p)) <$> rows)
      (with_records (kmap position_key mz) k) = Ok (with_records (kmap position_key mz') k').
Proof.
  induction rows as [|[i p] rows IH]; intros k k' mz Hd Hk; rewrite ?fmap_cons, ?fmap_nil; cbn [res_fold].
  { intros [= <-]. by exists mz. }
  intros (k1 & H1 & H2)%res_bind_Ok. destruct (merge_row_agree b m base tgt ords i p k k1 mz Hd Hk H1) as (mz1 & Hk1 & Hs1 & ->).
  cbn [res_bind]. destruct (IH k1 k' mz1 Hd Hk1 H2) as (mz2 & Hk2 & Hs2 & H3).
  exists mz2. split_and!; [done|by etrans|done].
Qed.

(** A base batch with the positions of its rows. *)
Definition base_positioned (base : RecordBatch) : Prop :=
  exists ps, base_row_position_array base = Ok ps /\ get_record_keys base = Ok (key_at <$> ps).

Lemma zip_fmap_rows {A B C} (f : B -> C) (l : list A) (k : list B) : zip l (f <$> k) = (fun '(i, p) => (i, f p)) <$> zip l k.
Proof. revert k. induction l as [|a l IH]; intros [|b k]; cbn; [done..|]. by f_equal. Qed.

Lemma kernel_agree pb kb base tgt kb' out : agree pb kb -> decided kb -> base_positioned base ->
  merge_one_base_batch_kernel kb base tgt RecordKey = Ok (kb', out) ->
  exists pb', merge_base_batch pb base tgt = Ok (pb', out) /\ agree pb' kb' /\ decided kb'.
Proof.
  intros [Hin Hh Hr Ha] Hd (ps & Hps & Hkeys). unfold merge_base_batch, base_match_of. rewrite Hh.
  destruct (should_use_position pb) eqn:E.
  2:{ rewrite Hr, set_records_same in Hin. rewrite Hin. intros Hk. rewrite Hk. cbn [res_bind].
      exists (set_inner kb' pb). split; [done|]. unfold merge_one_base_batch_kernel in Hk.
      destruct (num_rows base =? 0); [injection Hk as <- <-; split; [|done]; split; cbn; rewrite ?E; try done; by rewrite set_records_same|].
      cbn [lookup_keys] in Hk. rewrite Hkeys in Hk. cbn [res_bind] in Hk.
      apply res_bind_Ok in Hk as (ords & _ & Hk). apply res_bind_Ok in Hk as (k & Hf & Hk).
      apply res_bind_Ok in Hk as (o & _ & [= <- <-]). split; [|done].
      split; cbn; rewrite ?E; [done|done|done|]. intros q r Hq. apply Ha. revert q r Hq.
      revert Hf. apply (res_fold_inv (fun k => forall q r, k_records k !! q = Some r -> records kb !! q = Some r)); [|done].
      intros k1 [i y] k2 _ H1 H2. unfold merge_row in H2. destruct (k_records k1 !! y); [|injection H2 as <-; exact H1].
      apply (merge_conflict_key _ _ _ _ _ y _ _ _ _ ∅ ∅ Hd) in H2 as [H2 _]. rewrite H2. cbn. intros q r [_ Hq]%lookup_delete_Some. by apply H1. }
  destruct Hr as (mz & Hp & Hr). rewrite Hin, Hp. unfold merge_one_base_batch_kernel. cbn [lookup_keys].
  destruct (num_rows base =? 0).
  { intros [= <- <-]. cbn [res_bind]. exists (set_inner (set_records (kmap position_key mz) kb) pb). split; [done|]. split; [|done].
    split; cbn; rewrite ?E; try done. by exists mz. }
  rewrite Hps, Hkeys. cbn [res_map res_bind].
  change (fmap (pretty : Z -> string) ps) with (fmap position_key ps). rewrite !zip_fmap_rows.
  intros (ords & -> & H2)%res_bind_Ok. apply res_bind_Ok in H2 as (k & Hf & H2). apply res_bind_Ok in H2 as (o & Ho & [= <- <-]).
  cbn [res_bind]. destruct (merge_rows_agree kb (kmap position_key mz) base tgt ords _ (mkKernel (records kb) (update_processor kb) [] [] false) k mz Hd Hr Hf) as (mz' & H3 & Hs & H4).
  change (mkKernel (records (set_records (kmap position_key mz) kb)) (update_processor (set_records (kmap position_key mz) kb)) [] [] false)
    with (with_records (kmap position_key mz) (mkKernel (records kb) (update_processor kb) [] [] false)).
  rewrite H4. cbn [res_bind]. change (kernel_output base tgt (with_records (kmap position_key mz') k)) with (kernel_output base tgt k).
  rewrite Ho. cbn [res_bind]. eexists. split; [reflexivity|]. split; [|done].
  split; cbn; rewrite ?E; [done|done|by exists mz'|].
  intros q r Hq. apply Ha. rewrite H3 in Hq. rewrite Hr. apply lookup_kmap_Some in Hq as (z & -> & Hz); [|done].
  apply lookup_kmap_Some; [done|]. exists z. split; [done|]. by eapply lookup_weaken.
Qed.

Lemma kernel_total kb base : plain_buffer target heap kb -> ArrowKernels.schema base = target ->
  exists kb' out, merge_one_base_batch_kernel kb base target RecordKey = Ok (kb', out) /\ plain_buffer target heap kb'.
Proof.
  intros Hp Hs. destruct (batch_rows base) as [|r rows] eqn:E.
  - exists kb, None. split; [|done]. unfold merge_one_base_batch_kernel. by rewrite num_rows_length, E.
  - destruct (kernel_spec target RecordKey heap kb Hp base Hs) as (out & H1 & _); [by rewrite E|].
    eexists _, _. split; [exact H1|]. apply (plain_buffer_fields target heap kb); try done.
    cbn [records set_stats set_records]. unfold merge_rows_spec. rewrite E. generalize (r :: rows).
    intros l. induction l as [|y l IH] using rev_ind; intros k x; [done|]. rewrite foldl_app. cbn [foldl].
    intros Hx%merge_row_spec_sub. by apply IH.
Qed.

(** Base batches one after another, with what each merges to. *)
Fixpoint merge_batches {S} (step : S -> RecordBatch -> res (S * option RecordBatch)) (src : list RecordBatch) (s : S)
    : res (S * list (option RecordBatch)) :=
  match src with
  | [] => Ok (s, [])
  | x :: src =>
      let? (s, out) := step s x in
      let? (s, outs) := merge_batches step src s in
      Ok (s, out :: outs)
  end.

Lemma merge_batches_agree src : forall pb kb, agree pb kb -> plain_buffer target heap kb ->
  (forall x, x ∈ src -> ArrowKernels.schema x = target /\ base_positioned x) ->
  exists pb' kb' outs,
    merge_batches (fun b x => merge_one_base_batch_kernel b x target RecordKey) src kb = Ok (kb', outs) /\
    merge_batches (fun b x => merge_base_batch b x target) src pb = Ok (pb', outs) /\ agree pb' kb'.
Proof.
  induction src as [|x src IH]; intros pb kb Hag Hp Hs; cbn [merge_batches].
  { by exists pb, kb, []. }
  destruct (Hs x) as [Hx Hpos]; [by left|]. destruct (kernel_total kb x Hp Hx) as (kb1 & out & H1 & Hp1).
  assert (Hd : decided kb) by (split_and!; [apply Hp|apply Hp|apply Hp]).
  destruct (kernel_agree pb kb x target kb1 out Hag Hd Hpos H1) as (pb1 & H2 & Hag1 & _).
  rewrite H1, H2. cbn [res_bind]. destruct (IH pb1 kb1 Hag1 Hp1) as (pb2 & kb2 & outs & H3 & H4 & H5).
  { intros y Hy. apply Hs. by right. }
  rewrite H3, H4. cbn [res_bind]. by exists pb2, kb2, (out :: outs).
Qed.

(** What is left is the same, in some order. *)
Lemma agree_left pb kb : agree pb kb -> into_values (records (inner pb)) ≡ₚ into_values (records kb).
Proof.
  intros [_ _ Hr _]. destruct (should_use_position pb).
  - destruct Hr as (mz & -> & ->). rewrite !into_values_perm, (map_to_list_kmap position_key mz), (map_to_list_kmap key_at mz).
    by rewrite <- !list_fmap_compose.
  - by rewrite Hr.
Qed.

Lemma agree_new b t : records b = ∅ -> agree (position_new b t) b.
Proof.
  intros Hr. split; cbn; [by rewrite set_records_same|done| |].
  - exists ∅. by rewrite Hr, !kmap_empty.
  - intros k r. by rewrite Hr, lookup_empty.
Qed.
End agreement.

(** C18: merging by position is merging by key. A buffer that has merged nothing yet,
    of the event time or commit time mode and with neither partial updates nor a
    sentinel to fill, is given blocks and then base batches, all of the whole target
    schema and without empty record keys. Where no key stands at two positions of the
    base file -- a fallback that would make one record of two is refused -- and the
    positions a block names, if it names usable ones, are those of the base rows with
    its records' keys, the position buffer takes any blocks the key-based buffer takes
    -- falling back at the first one without usable positions -- and then every base
    batch merges to the same rows, in the same order, with the same counts; the records
    left for keys without a base row are the same ones. *)
Theorem position_merge_agrees {AB : ArrowBatch} {AR : ArrowRows} {AK : ArrowKernels} {AL : ArrowLaws} {CO : ColumnOps}
    {RC : RecordContext} {MO : MapOrder} {ML : MapOrderLaws} {PC : PositionsCodec} target {RL : RecordContextLaws target RecordKey}
    heap (key_at : Z -> string) base_instant b blocks src :
  Inj (=) (=) key_at -> ingesting target heap b -> records b = ∅ ->
  (forall x, x ∈ blocks -> block_ok target (typed_content x) /\ positioned target key_at base_instant x) ->
  base_interned heap (next_addr b) (concat (block_data <$> (typed_content <$> blocks))) ->
  (forall x, x ∈ src -> ArrowKernels.schema x = target /\ base_positioned key_at x) ->
  exists pb kb pb' kb' outs,
    res_fold process_at_position blocks (position_new b base_instant) = Ok pb /\
    res_fold process_block (typed_content <$> blocks) b = Ok kb /\
    merge_batches (fun b x => merge_one_base_batch_kernel b x target RecordKey) src kb = Ok (kb', outs) /\
    merge_batches (fun b x => merge_base_batch b x target) src pb = Ok (pb', outs) /\
    update_processor (inner pb') = update_processor kb' /\
    into_values (records (inner pb')) ≡ₚ into_values (records kb').
Proof.
  intros Hinj Hb Hr Hok Hi Hs.
  destruct (blocks_agree target heap key_at blocks _ _ (agree_new key_at b base_instant Hr) Hb Hok Hi)
    as (pb & kb & H1 & H2 & H3 & H4 & _).
  destruct (merge_batches_agree target heap key_at src pb kb H3 (ing_plain _ _ _ H4) Hs) as (pb' & kb' & outs & H5 & H6 & H7).
  exists pb, kb, pb', kb', outs. split_and!; try done; [|by apply (agree_left key_at)].
  by rewrite (agree_inner _ _ _ H7).
Qed.

(** * A small file group *)
Module SamplePositions.
Import ArrowKernels.Sample MergeStream.SampleContext.

(** Positions as their list. *)
#[local] Instance listed_positions : PositionsCodec := {|
  decode_record_positions s := res_mapM (fun x => ok_or (parse_u64 x) ELogBlock) (str_split "," s)
|}.

Definition key_at (p : Z) : string := "k" +:+ pretty p.

#[local] Instance key_at_inj : Inj (=) (=) key_at.
Proof. intros p q [= H]. by apply pretty_Z_inj. Qed.

Definition base_file : RecordBatch :=
  rows_batch [("k0", Some (OLong 2), 20); ("k1", Some (OLong 4), 40); ("k2", Some (OLong 8), 80); ("k3", None, 1)].

Definition headers (positions : string) : metadata_map :=
  <[LogFormat.RecordPositions := positions]> (<[BaseFileInstantTimeOfRecordPositions := "001"]> ∅).

Definition updates : RecordBatch := rows_batch [("k0", Some (OLong 5), 51); ("k1", Some (OLong 1), 21)].
Definition more_updates : RecordBatch := rows_batch [("k3", Some (OLong 9), 91); ("k7", Some (OLong 9), 97)].

(** An update, a late update, and a delete, by position. *)
Definition by_position : list LogBlock :=
  [block_new FormatV1 AvroData (headers "0,1") (Records (mkBatches [updates] [] 2 0)) ∅;
   block_new FormatV1 Delete (headers "2") (Records (mkBatches [] [(rows_batch [("k2", Some (OLong 8), 1)], "t")] 0 1)) ∅].

(** A block without positions: another update, and an insert. *)
Definition without_positions : LogBlock := block_new FormatV1 AvroData ∅ (Records (mkBatches [more_updates] [] 2 0)) ∅.

Definition sample_blocks : list LogBlock := by_position ++ [without_positions].

Definition merged (blocks : list LogBlock) : res (bool * list (option RecordBatch) * nat) :=
  let? pb := res_fold process_at_position blocks (position_new (sample_buffer ∅ 0) "001") in
  let? (pb', outs) := merge_batches (fun b x => merge_base_batch b x names) [base_file] pb in
  Ok (should_use_position pb', outs, size (records (inner pb'))).

Example sample_merges :
  merged by_position = Ok (true, [Some (rows_batch [("k1", Some (OLong 4), 40); ("k3", None, 1); ("k0", Some (OLong 5), 51)])], 0%nat) /\
  merged sample_blocks =
    Ok (false, [Some (rows_batch [("k1", Some (OLong 4), 40); ("k0", Some (OLong 5), 51); ("k3", Some (OLong 9), 91)])], 1%nat).
Proof. split; vm_compute; reflexivity. Qed.

Definition sample_heap : list RecordBatch := [updates; more_updates].

Lemma sample_empty : ingesting names sample_heap (sample_buffer ∅ 0).
Proof. split; [|done]. split; [reflexivity..|by exists None|done]. Qed.

Lemma sample_data_blocks_ok x : x ∈ sample_blocks ->
  block_ok names (typed_content x) /\ positioned names key_at "001" x.
Proof.
  intros Hx. unfold sample_blocks, by_position in Hx. cbn [app] in Hx. in_cases Hx.
  - split; [split; intros y Hy; [in_cases Hy; reflexivity|by apply not_elem_of_nil in Hy]|].
    split; [exists (Some [0; 1]); split; [vm_compute; reflexivity|by intros ps [= <-]]|].
    intros k Hk. change (k ∈ ["k0"; "k1"]) in Hk. by in_cases Hk.
  - split; [split; intros y Hy; [by apply not_elem_of_nil in Hy|]|].
    + in_cases Hy. eexists. split; [reflexivity|]. intros k v Hv. cbn in Hv.
      apply elem_of_cons in Hv as [[= -> ->]|Hv]; [exact I|by apply not_elem_of_nil in Hv].
    + split; [exists (Some [2]); split; [vm_compute; reflexivity|by intros ps [= <-]]|].
      intros k Hk. change (k ∈ ["k2"]) in Hk. by in_cases Hk.
  - split; [split; intros y Hy; [in_cases Hy; reflexivity|by apply not_elem_of_nil in Hy]|].
    split; [exists None; split; [vm_compute; reflexivity|done]|].
    intros k Hk. change (k ∈ ["k3"; "k7"]) in Hk. by in_cases Hk.
Qed.

Lemma position_merge_agrees_witness :
  exists pb kb pb' kb' outs,
    res_fold process_at_position sample_blocks (position_new (sample_buffer ∅ 0) "001") = Ok pb /\
    res_fold process_block (typed_content <$> sample_blocks) (sample_buffer ∅ 0) = Ok kb /\
    merge_batches (fun b x => merge_one_base_batch_kernel b x names RecordKey) [base_file] kb = Ok (kb', outs) /\
    merge_batches (fun b x => merge_base_batch b x names) [base_file] pb = Ok (pb', outs).
Proof.
  destruct (position_merge_agrees names sample_heap key_at "001" (sample_buffer ∅ 0) sample_blocks [base_file])
    as (pb & kb & pb' & kb' & outs & H1 & H2 & H3 & H4 & _).
  - exact key_at_inj.
  - exact sample_empty.
  - reflexivity.
  - exact sample_data_blocks_ok.
  - intros j x Hx. exact Hx.
  - intros x Hx. in_cases Hx. split; [reflexivity|]. exists [0; 1; 2; 3]. split; vm_compute; reflexivity.
  - exists pb, kb, pb', kb', outs. exact (conj H1 (conj H2 (conj H3 H4))).
Defined.
End SamplePositions.
