(* ===== verification/Float64.v ===== *)
(** The double precision arithmetic the code does on sizes.

    A [f64] is the standard library's specification of IEEE 754 with the parameters of
    doubles; [as] rounds an integer to the nearest double, and truncates and saturates
    a double to an integer. *)
From Stdlib Require Import ZArith SpecFloat.
From stdpp Require Import base numbers.
From S2P Require Import Prelude StorageReader.
Local Open Scope Z_scope.

Definition f64 : Type := spec_float.

Definition f64_mul : f64 -> f64 -> f64 := SFmul 53 1024.
Definition f64_div : f64 -> f64 -> f64 := SFdiv 53 1024.
Definition f64_lt : f64 -> f64 -> bool := SFltb.
Definition f64_ge (a b : f64) : bool := SFleb b a.

(** [n as f64] of a [u64] or [usize]. *)
Definition u64_as_f64 (n : Z) : f64 := binary_normalize 53 1024 n 0 false.

(** [x as u64] *)
Definition f64_as_u64 (x : f64) : Z :=
  match x with
  | S754_finite false m e =>
      Z.min (if 0 <=? e then Z.pos m * 2 ^ e else Z.pos m / 2 ^ (- e)) u64_max
  | S754_infinity false => u64_max
  | _ => 0
  end.

(** The literals [0.8], [0.5] and [1.0]. *)
Definition f64_0_8 : f64 := S754_finite false 7205759403792794 (-53).
Definition f64_0_5 : f64 := S754_finite false 4503599627370496 (-53).
Definition f64_1_0 : f64 := S754_finite false 4503599627370496 (-52).

Example four_fifths :
  f64_as_u64 (f64_mul (u64_as_f64 1073741824) f64_0_8) = 858993459 /\
  f64_as_u64 (f64_mul (u64_as_f64 10) f64_0_8) = 8 /\
  f64_as_u64 (f64_mul (u64_as_f64 u64_max) f64_0_8) = 14757395258967642112 /\
  f64_as_u64 (f64_mul (u64_as_f64 0) f64_0_8) = 0.
Proof. by vm_compute. Qed.

Example ratios :
  f64_lt (f64_div (u64_as_f64 1) (u64_as_f64 2)) f64_0_5 = false /\
  f64_lt (f64_div (u64_as_f64 499) (u64_as_f64 1000)) f64_0_5 = true /\
  f64_ge (f64_div (u64_as_f64 3) (u64_as_f64 3)) f64_1_0 = true.
Proof. by vm_compute. Qed.

Lemma f64_as_u64_bounds x : 0 <= f64_as_u64 x <= u64_max.
Proof.
  unfold f64_as_u64, u64_max. destruct x as [|[]| |[] m e]; try lia.
  destruct (Z.leb_spec 0 e).
  - assert (0 <= 2 ^ e) by (apply Z.pow_nonneg; lia). nia.
  - assert (0 < 2 ^ (- e)) by (apply Z.pow_pos_nonneg; lia).
    assert (0 <= Z.pos m / 2 ^ (- e)) by (apply Z.div_pos; lia). lia.
Qed.
