(* ===== verification/RowSerde.v ===== *)
(** Spilled rows as bytes: crates/core/src/file_group/reader_v2/row_serde.rs.

    The Arrow IPC format is a library's: its encoder, readers and flat buffers are the
    operations of [ArrowIpc], what they give back the laws of [IpcLaws]. *)
From Stdlib Require Import ZArith Ascii.
From stdpp Require Import base list strings numbers.
From S2P Require Import Prelude StorageReader RecordBatches LogFormat OrderingValues RecordMerger ArrowKernels.
Local Open Scope res_scope.
Local Open Scope Z_scope.

(** * Integers in little-endian bytes *)
Definition to_le_bytes (n : nat) (v : Z) : bytes := rev (to_be_bytes n v).
Definition from_le_bytes (b : bytes) : Z := from_be_bytes (rev b).

(** An encoded batch: whether it carries dictionaries, its message and its data. *)
Class ArrowIpc {AB : ArrowBatch} {AR : ArrowRows} {AK : ArrowKernels} := {
  ipc_encode : RecordBatch -> option (bool * bytes * bytes);
  stream_write : Schema -> list RecordBatch -> option bytes;
  IpcMessage : Type;
  IpcHeader : Type;
  root_as_message : bytes -> option IpcMessage;
  header_as_record_batch : IpcMessage -> option IpcHeader;
  read_record_batch : bytes -> IpcHeader -> Schema -> option RecordBatch;
  stream_read : bytes -> option (list (option RecordBatch))
}.

Section serde.
Context {AB : ArrowBatch} {AR : ArrowRows} {AK : ArrowKernels} {AI : ArrowIpc}.

(** [to_binary_row]; the encoder is expected not to fail. *)
Definition to_binary_row (record : RecordBatch) : res bytes :=
  match stream_write (schema record) [record] with Some b => Ok b | None => Panic end.

Definition to_binary_row_body (record : RecordBatch) : option bytes :=
  match ipc_encode record with
  | None => None
  | Some (true, _, _) => None
  | Some (false, ipc_message, arrow_data) =>
      Some (to_le_bytes 4 (blen ipc_message mod 2 ^ 32) ++ ipc_message ++ arrow_data)
  end.

Definition from_binary_body (b : bytes) (s : Schema) : res RecordBatch :=
  if blen b <? 4 then Err EReadFileSlice
  else
    let msg_len := from_le_bytes (slice b 0 4) in
    let msg_end := 4 + msg_len in
    if blen b <? msg_end then Err EReadFileSlice
    else
      let? message := ok_or (root_as_message (slice b 4 msg_end)) EReadFileSlice in
      let? record_batch := ok_or (header_as_record_batch message) EReadFileSlice in
      ok_or (read_record_batch (slice b msg_end (blen b)) record_batch s) EReadFileSlice.

Definition from_binary (b : bytes) : res RecordBatch :=
  let? batches := ok_or (stream_read b) EReadFileSlice in
  match batches with
  | Some batch :: _ => Ok batch
  | _ => Err EReadFileSlice
  end.
End serde.

(** Reading gives back the rows written; a message is a flat buffer, below 2^31 bytes. *)
Class IpcLaws {AB : ArrowBatch} {AR : ArrowRows} {AK : ArrowKernels} {AL : ArrowLaws} {AI : ArrowIpc} := {
  ipc_read_back b m d : ipc_encode b = Some (false, m, d) ->
    blen m < 2 ^ 31 /\ exists msg hdr b', root_as_message m = Some msg /\ header_as_record_batch msg = Some hdr /\
      read_record_batch d hdr (schema b) = Some b' /\ schema b' = schema b /\ batch_rows b' = batch_rows b;
  stream_read_back b : exists x b', stream_write (schema b) [b] = Some x /\
    stream_read x = Some [Some b'] /\ schema b' = schema b /\ batch_rows b' = batch_rows b
}.

Section laws.
Context {AB : ArrowBatch} {AR : ArrowRows} {AK : ArrowKernels} {AL : ArrowLaws} {AI : ArrowIpc} {IL : IpcLaws}.

Lemma length_to_le_bytes n v : length (to_le_bytes n v) = n.
Proof. unfold to_le_bytes. rewrite length_rev. apply LogFormat.length_to_be_bytes. Qed.

Lemma from_to_le_bytes n v : 0 <= v < 256 ^ Z.of_nat n -> from_le_bytes (to_le_bytes n v) = v.
Proof. intros Hv. unfold from_le_bytes, to_le_bytes. rewrite rev_involutive. by apply from_to_be_bytes. Qed.

Lemma binary_body_roundtrip b x : to_binary_row_body b = Some x ->
  exists b', from_binary_body x (schema b) = Ok b' /\ schema b' = schema b /\ batch_rows b' = batch_rows b.
Proof.
  unfold to_binary_row_body. destruct (ipc_encode b) as [[[[] m] d]|] eqn:E; [done| |done]. intros Hx. apply (inj Some) in Hx as <-.
  destruct (ipc_read_back b m d E) as (Hm & msg & hdr & b' & H1 & H2 & H3 & H4 & H5).
  exists b'. split; [|done]. pose proof (eq_refl : 2 ^ 31 + 2 ^ 31 = 2 ^ 32) as Hp.
  unfold blen in *. rewrite (Z.mod_small (Z.of_nat (length m))) by lia.
  assert (Hl : blen (to_le_bytes 4 (Z.of_nat (length m)) ++ m ++ d) = 4 + Z.of_nat (length m) + Z.of_nat (length d)).
  { unfold blen. rewrite !length_app, length_to_le_bytes. lia. }
  unfold from_binary_body. cbv zeta. rewrite Hl. destruct (Z.ltb_spec (4 + Z.of_nat (length m) + Z.of_nat (length d)) 4); [lia|].
  assert (slice (to_le_bytes 4 (Z.of_nat (length m)) ++ m ++ d) 0 4 = to_le_bytes 4 (Z.of_nat (length m))) as ->.
  { unfold slice. cbn [Z.to_nat]. rewrite drop_0. apply take_app_length'. rewrite length_to_le_bytes. lia. }
  rewrite from_to_le_bytes by lia.
  destruct (Z.ltb_spec (4 + Z.of_nat (length m) + Z.of_nat (length d)) (4 + Z.of_nat (length m))); [lia|].
  unfold slice at 1. rewrite drop_app_length' by (rewrite length_to_le_bytes; lia).
  rewrite take_app_length' by lia. rewrite H1. cbn [ok_or res_bind]. rewrite H2. cbn [ok_or res_bind].
  unfold slice. rewrite (app_assoc _ m d), drop_app_length' by (rewrite length_app, length_to_le_bytes; lia).
  rewrite take_ge by lia. by rewrite H3.
Qed.

Lemma binary_roundtrip b : exists x b', to_binary_row b = Ok x /\ from_binary x = Ok b' /\
  schema b' = schema b /\ batch_rows b' = batch_rows b.
Proof.
  destruct (stream_read_back b) as (x & b' & H1 & H2 & H3 & H4). exists x, b'.
  unfold to_binary_row, from_binary. by rewrite H1, H2.
Qed.
End laws.
