(* ===== verification/DiskMap.v ===== *)
(** The disk tier of the spillable map: [RocksDbDiskMap] of
    crates/core/src/file_group/reader_v2/buffer/spillable_map.rs.

    Records are staged, packed into batches and written under batch ids; an index says
    where each key's row is, or that the key is deleted.  The state of the map outlives
    an error, so operations return the state with a result.  RocksDB is a parameter
    ([SpillDb]), as is the order a hash map is iterated in ([HashIter]).  The theorems
    of the section on views say that the tier is a map from keys to what can be seen of
    their records. *)
From Stdlib Require Import ZArith Ascii.
From stdpp Require Import base gmap sets list strings sorting numbers fin_maps fin_map_dom.
From S2P Require Import Prelude RustStr StorageReader RecordBatches LogFormat OrderingValues RecordMerger ArrowKernels RowSerde.
Local Open Scope res_scope.
Local Open Scope Z_scope.

(** * Operations on a state that outlives their errors *)
Definition st (S A : Type) : Type := S -> res A * S.

Definition st_ret {S A} (a : A) : st S A := fun s => (Ok a, s).
Definition st_lift {S A} (r : res A) : st S A := fun s => (r, s).
Definition st_get {S} : st S S := fun s => (Ok s, s).
Definition st_modify {S} (f : S -> S) : st S unit := fun s => (Ok tt, f s).
Definition st_bind {S A B} (m : st S A) (k : A -> st S B) : st S B := fun s =>
  match m s with
  | (Ok a, s) => k a s
  | (Err e, s) => (Err e, s)
  | (Panic, s) => (Panic, s)
  end.

Declare Scope st_scope.
Delimit Scope st_scope with st.
Notation "'let*' x ':=' m 'in' k" := (st_bind m (fun x => k))
  (at level 10, x pattern, m at level 100, k at level 200,
   format "'[v' 'let*'  x  ':='  m  'in' '/' k ']'") : st_scope.
Local Open Scope st_scope.

Fixpoint st_iter {S A} (f : A -> st S unit) (l : list A) : st S unit :=
  match l with
  | [] => st_ret tt
  | a :: l => let* _ := f a in st_iter f l
  end.

Fixpoint st_fold {S A B} (f : B -> A -> st S B) (l : list A) (b : B) : st S B :=
  match l with
  | [] => st_ret b
  | a :: l => let* b := f b a in st_fold f l b
  end.

Lemma st_bind_ok {S A B} (m : st S A) (k : A -> st S B) s a s' :
  m s = (Ok a, s') -> st_bind m k s = k a s'.
Proof. unfold st_bind. by intros ->. Qed.

(** The order a [HashMap] is iterated in: the entries, in some order. *)
Class HashIter := hash_iter : forall K {E : EqDecision K} {C : Countable K} A, gmap K A -> list (K * A).
Global Arguments hash_iter {HI K E C A} m : rename.
Class HashIterLaws {HI : HashIter} := hash_iter_perm K {E : EqDecision K} {C : Countable K} A (m : gmap K A) : hash_iter m ≡ₚ map_to_list m.

(** RocksDB: an open database, and values under the ids of batches.  [spill_rocksdb] is
    the build feature of that name. *)
Class SpillDb := {
  SpillHandle : Type;
  spill_rocksdb : bool;
  db_open : string -> option SpillHandle;
  db_put : SpillHandle -> Z -> bytes -> option SpillHandle;
  db_get : SpillHandle -> Z -> option (option bytes)
}.

Class SpillDbLaws {SD : SpillDb} := {
  spill_enabled : spill_rocksdb = true;
  db_open_ok path : exists h, db_open path = Some h;
  db_put_ok h id v : exists h', db_put h id v = Some h' /\
    db_get h' id = Some (Some v) /\ forall id', id' <> id -> db_get h' id' = db_get h id'
}.

(** [SPILL_BATCH_ROWS], [SPILL_BATCH_CACHE] and the tags of batches. *)
Definition SPILL_BATCH_ROWS : Z := 1024.
Definition SPILL_BATCH_CACHE : Z := 8.
Definition SPILL_BATCH_TAG_BODY : ascii := "001"%char.
Definition SPILL_BATCH_TAG_FULL : ascii := "002"%char.

Section disk.
Context {AB : ArrowBatch} {AR : ArrowRows} {AK : ArrowKernels} {AI : ArrowIpc} {HI : HashIter} {SD : SpillDb}.

Inductive DiskLoc :=
  | LocData (batch_id row_idx : Z)
  | LocDelete (record_key : string).

Record DiskEntry := mkEntry { entry_ordering : option OrderingValue; loc : DiskLoc }.

Record DiskMap := mkDisk {
  db : SpillHandle;
  disk_len : Z;
  schemas : list Schema;
  staging : gmap string BufferedRecord;
  index : gmap string DiskEntry;
  next_batch_id : Z;
  cache : list (Z * RecordBatch)
}.

Definition set_staging (m : gmap string BufferedRecord) (d : DiskMap) : DiskMap :=
  mkDisk (db d) (disk_len d) (schemas d) m (index d) (next_batch_id d) (cache d).
Definition set_index (m : gmap string DiskEntry) (d : DiskMap) : DiskMap :=
  mkDisk (db d) (disk_len d) (schemas d) (staging d) m (next_batch_id d) (cache d).
Definition set_disk_len (n : Z) (d : DiskMap) : DiskMap :=
  mkDisk (db d) n (schemas d) (staging d) (index d) (next_batch_id d) (cache d).
Definition set_schemas (l : list Schema) (d : DiskMap) : DiskMap :=
  mkDisk (db d) (disk_len d) l (staging d) (index d) (next_batch_id d) (cache d).
Definition set_cache (c : list (Z * RecordBatch)) (d : DiskMap) : DiskMap :=
  mkDisk (db d) (disk_len d) (schemas d) (staging d) (index d) (next_batch_id d) c.

(** [RocksDbDiskMap::create] *)
Definition disk_create (parent : string) : res DiskMap :=
  match db_open parent with
  | Some db => Ok (mkDisk db 0 [] ∅ ∅ 0 [])
  | None => Err EReadFileSlice
  end.

(** [intern_schema]: an id is a [u32]. *)
Definition intern_schema (s : Schema) : st DiskMap Z := fun d =>
  match list_find (eq s) (schemas d) with
  | Some (i, _) => (Ok (Z.of_nat i mod 2 ^ 32), d)
  | None => (Ok (Z.of_nat (length (schemas d)) mod 2 ^ 32), set_schemas (schemas d ++ [s]) d)
  end.

(** Rows of one schema, with the keys and ordering values of their records. *)
Definition Group : Type := Z * list RecordBatch * list (string * option OrderingValue).

Fixpoint push_row (sid : Z) (batch : RecordBatch) (key : string * option OrderingValue) (groups : list Group) : list Group :=
  match groups with
  | [] => [(sid, [batch], [key])]
  | (g, rows, keys) :: groups =>
      if g =? sid then (g, rows ++ [batch], keys ++ [key]) :: groups
      else (g, rows, keys) :: push_row sid batch key groups
  end.

Definition group_record (groups : list Group) (kr : string * BufferedRecord) : st DiskMap (list Group) :=
  let* batch := st_lift (ok_or (get_record kr.2) EReadFileSlice) in
  let* sid := intern_schema (schema batch) in
  st_ret (push_row sid batch (kr.1, ordering_value kr.2) groups).

Definition group_blob (sid : Z) (batch : RecordBatch) : res bytes :=
  match to_binary_row_body batch with
  | Some body => Ok (SPILL_BATCH_TAG_BODY :: to_le_bytes 4 sid ++ body)
  | None => let? full := to_binary_row batch in Ok (SPILL_BATCH_TAG_FULL :: full)
  end.

(** The index of a batch's rows. *)
Definition index_rows (id : Z) (keys : list (string * option OrderingValue)) (m : gmap string DiskEntry) : gmap string DiskEntry :=
  foldl (fun m ik => <[(snd ik).1 := mkEntry (snd ik).2 (LocData id (Z.of_nat (fst ik) mod 2 ^ 32))]> m) m
    (zip (seq 0 (length keys)) keys).

Definition write_group (g : Group) : st DiskMap unit :=
  let '(sid, rows, keys) := g in
  match rows with
  | [] => st_lift Panic
  | row :: _ =>
      let* batch := st_lift (map_err EReadFileSlice (concat_batches (schema row) rows)) in
      let* blob := st_lift (group_blob sid batch) in
      fun d =>
        let id := next_batch_id d in
        match db_put (db d) id blob with
        | Some h => (Ok tt, mkDisk h (disk_len d) (schemas d) (staging d) (index_rows id keys (index d)) (id + 1) (cache d))
        | None => (Err EReadFileSlice, mkDisk (db d) (disk_len d) (schemas d) (staging d) (index d) (id + 1) (cache d))
        end
  end.

Definition flush : st DiskMap unit := fun d =>
  if decide (staging d = ∅) then (Ok tt, d)
  else
    (let* groups := st_fold group_record (hash_iter (staging d)) [] in
     st_iter write_group groups) (set_staging ∅ d).

Definition disk_contains_key (key : string) (d : DiskMap) : bool :=
  bool_decide (is_Some (staging d !! key)) || bool_decide (is_Some (index d !! key)).

Definition disk_put (key : string) (value : BufferedRecord) : st DiskMap unit := fun d =>
  let was_present := disk_contains_key key d in
  let d1 :=
    if is_delete value then
      set_index (<[key := mkEntry (ordering_value value) (LocDelete (record_key value))]> (index d)) (set_staging (delete key (staging d)) d)
    else set_staging (<[key := value]> (staging d)) d in
  let d2 := if was_present then d1 else set_disk_len (disk_len d1 + 1) d1 in
  if SPILL_BATCH_ROWS <=? Z.of_nat (size (staging d2)) then flush d2 else (Ok tt, d2).

(** [decode_batch] *)
Definition decode_batch (ss : list Schema) (raw : bytes) : res RecordBatch :=
  match raw with
  | [] => Err EReadFileSlice
  | tag :: body =>
      if decide (tag = SPILL_BATCH_TAG_BODY) then
        if blen body <? 4 then Err EReadFileSlice
        else
          let? s := ok_or (ss !! Z.to_nat (from_le_bytes (take 4 body))) EReadFileSlice in
          from_binary_body (drop 4 body) s
      else if decide (tag = SPILL_BATCH_TAG_FULL) then from_binary body
      else Err EReadFileSlice
  end.

Definition load_batch (batch_id : Z) : st DiskMap RecordBatch := fun d =>
  match find (fun ib => (fst ib) =? batch_id) (cache d) with
  | Some (_, b) => (Ok b, d)
  | None =>
      match
        let? raw := ok_or (db_get (db d) batch_id) EReadFileSlice in
        let? raw := ok_or raw EReadFileSlice in
        decode_batch (schemas d) raw
      with
      | Ok batch =>
          let c := cache d ++ [(batch_id, batch)] in
          (Ok batch, set_cache (if SPILL_BATCH_CACHE <? Z.of_nat (length c) then tail c else c) d)
      | Err e => (Err e, d)
      | Panic => (Panic, d)
      end
  end.

Definition record_from_entry (key : string) (e : DiskEntry) : st DiskMap BufferedRecord :=
  match loc e with
  | LocDelete record_key => st_ret (new_delete record_key (entry_ordering e))
  | LocData batch_id row_idx =>
      let* batch := load_batch batch_id in
      if row_idx + 1 <=? num_rows batch then
        st_ret (new_data key (slice_row batch (Z.to_nat row_idx)) (entry_ordering e))
      else st_lift Panic
  end.

Definition disk_get (key : string) : st DiskMap (option BufferedRecord) := fun d =>
  match staging d !! key with
  | Some r => (Ok (Some r), d)
  | None =>
      match index d !! key with
      | Some e => (let* r := record_from_entry key e in st_ret (Some r)) d
      | None => (Ok None, d)
      end
  end.

Definition disk_remove (key : string) : st DiskMap (option BufferedRecord) :=
  let* existing := disk_get key in
  match existing with
  | Some _ =>
      let* _ := st_modify (fun d => set_disk_len (disk_len d - 1)
                             (set_index (delete key (index d)) (set_staging (delete key (staging d)) d))) in
      st_ret existing
  | None => st_ret None
  end.

(** [into_drain_iter] and what the iterator yields. *)
Definition entry_position (e : DiskEntry) : Z * Z :=
  match loc e with LocData id i => (id, i) | LocDelete _ => (u64_max, 0) end.

Definition position_le (a b : string * DiskEntry) : Prop :=
  let '(i, j) := entry_position a.2 in let '(i', j') := entry_position b.2 in i < i' \/ i = i' /\ j <= j'.

#[export] Instance position_le_dec a b : Decision (position_le a b).
Proof. unfold position_le. destruct (entry_position a.2), (entry_position b.2). apply _. Defined.

Fixpoint drain_entries (l : list (string * DiskEntry)) (d : DiskMap) : list (res BufferedRecord) :=
  match l with
  | [] => []
  | (k, e) :: l => let '(r, d) := record_from_entry k e d in r :: drain_entries l d
  end.

Definition disk_drain (d : DiskMap) : list (res BufferedRecord) :=
  let '(r, d) := flush d in
  let items := drain_entries (merge_sort position_le (hash_iter (index d))) (set_index ∅ d) in
  match r with
  | Ok _ => items
  | Err e => Err e :: items
  | Panic => [Panic]
  end.
End disk.

(** * What can be seen of a record

    The tier gives back a record's row, schema and ordering value, and the key of a
    delete; the key of a data record is its key in the map. *)
Section views.
Context {AB : ArrowBatch} {AR : ArrowRows} {AK : ArrowKernels} {AL : ArrowLaws} {AI : ArrowIpc} {IL : IpcLaws}
  {HI : HashIter} {HL : HashIterLaws} {SD : SpillDb} {SL : SpillDbLaws}.

Inductive View :=
  | ViewData (s : Schema) (row : Row) (ordering : option OrderingValue)
  | ViewDelete (key : string) (ordering : option OrderingValue).

Definition batch_view (b : RecordBatch) (o : option OrderingValue) : option View :=
  match batch_rows b with [row] => Some (ViewData (schema b) row o) | _ => None end.

Definition record_view (r : BufferedRecord) : option View :=
  match payload r with
  | Deleted => Some (ViewDelete (record_key r) (ordering_value r))
  | BatchRef a i =>
      match batch_rows (pointee a) !! i with
      | Some row => Some (ViewData (schema (pointee a)) row (ordering_value r))
      | None => None
      end
  | Owned b => batch_view b (ordering_value r)
  end.

Definition view_schema (v : View) : option Schema := match v with ViewData s _ _ => Some s | ViewDelete _ _ => None end.

Lemma record_view_data r s row o : record_view r = Some (ViewData s row o) ->
  is_delete r = false /\ ordering_value r = o /\ exists b, get_record r = Some b /\ schema b = s /\ batch_rows b = [row].
Proof.
  unfold record_view, is_delete, get_record, batch_view. destruct (payload r) as [a i|b|]; cbn.
  - destruct (batch_rows _ !! i) as [row'|] eqn:E; intros [= <- <- <-]. split_and!; [done..|].
    eexists. split_and!; [done| |by apply slice_row_rows]. apply slice_row_schema.
  - destruct (batch_rows b) as [|row' [|]] eqn:E; intros [= <- <- <-]. split_and!; [done..|]. by exists b.
  - done.
Qed.

Lemma record_view_delete r k o : record_view r = Some (ViewDelete k o) ->
  is_delete r = true /\ record_key r = k /\ ordering_value r = o.
Proof.
  unfold record_view, is_delete, batch_view. destruct (payload r) as [a i|b|]; cbn.
  - by destruct (_ !! i).
  - by destruct (batch_rows b) as [|? [|]].
  - by intros [= <- <-].
Qed.

Lemma single_view r b s row : get_record r = Some b -> schema b = s -> batch_rows b = [row] ->
  batch_view b (ordering_value r) = Some (ViewData s row (ordering_value r)).
Proof. unfold batch_view. by intros _ <- ->. Qed.

(** The schemas the records have. *)
Context (universe : list Schema) (Huniverse : Z.of_nat (length universe) <= 2 ^ 32).

Definition stored (d : DiskMap) (id : Z) : option RecordBatch :=
  match db_get (db d) id with
  | Some (Some blob) => match decode_batch (schemas d) blob with Ok b => Some b | _ => None end
  | _ => None
  end.

Definition entry_view (d : DiskMap) (e : DiskEntry) : option View :=
  match loc e with
  | LocDelete k => Some (ViewDelete k (entry_ordering e))
  | LocData id i =>
      b ← stored d id; row ← batch_rows b !! Z.to_nat i; Some (ViewData (schema b) row (entry_ordering e))
  end.

Definition index_view (d : DiskMap) (k : string) : option View := index d !! k ≫= entry_view d.

Definition disk_view (d : DiskMap) (k : string) : option View :=
  match staging d !! k with Some r => record_view r | None => index_view d k end.

Definition entry_ok (d : DiskMap) (e : DiskEntry) : Prop :=
  match loc e with LocDelete _ => True | LocData id i => id < next_batch_id d /\ 0 <= i end /\ is_Some (entry_view d e).

Definition staged_ok (r : BufferedRecord) : Prop :=
  exists s row o, record_view r = Some (ViewData s row o) /\ s ∈ universe.

Record disk_wf (d : DiskMap) : Prop := {
  ok_len : disk_len d = Z.of_nat (size (dom (staging d) ∪ dom (index d) : gset string));
  ok_schemas : NoDup (schemas d) /\ schemas d ⊆ universe;
  ok_staging : map_Forall (fun _ r => staged_ok r) (staging d);
  ok_index : map_Forall (fun _ e => entry_ok d e) (index d);
  ok_cache : forall id b, (id, b) ∈ cache d -> id < next_batch_id d /\ stored d id = Some b
}.

(** Between operations a batch's worth of rows is not yet staged. *)
Definition disk_ok (d : DiskMap) : Prop := disk_wf d /\ Z.of_nat (size (staging d)) < SPILL_BATCH_ROWS.

(** What was stored stays. *)
Record extends (d d' : DiskMap) : Prop := {
  ext_next : next_batch_id d <= next_batch_id d';
  ext_stored : forall id b, id < next_batch_id d -> stored d id = Some b -> stored d' id = Some b
}.

#[local] Instance extends_preorder : PreOrder extends.
Proof.
  split.
  - intros d. by split.
  - intros d1 d2 d3 [H1 H2] [H3 H4]. split; [lia|]. intros id b Hi Hb. apply H4; [lia|]. by apply H2.
Qed.

Lemma entry_extends d d' e : extends d d' -> entry_ok d e -> entry_ok d' e /\ entry_view d' e = entry_view d e.
Proof.
  intros [Hn Hs] [Hl Hv]. unfold entry_ok. assert (entry_view d' e = entry_view d e) as ->; [|split; [|done]].
  - unfold entry_view in *. destruct (loc e) as [id i|]; [|done]. destruct Hl as [Hi _].
    destruct (stored d id) as [b|] eqn:E; [|by destruct Hv]. by rewrite (Hs id b Hi E).
  - split; [|done]. destruct (loc e); [|done]. lia.
Qed.

Lemma decode_more ss l raw b : decode_batch ss raw = Ok b -> decode_batch (ss ++ l) raw = Ok b.
Proof.
  unfold decode_batch. destruct raw as [|tag body]; [done|]. destruct (decide _); [|done]. destruct (blen body <? 4); [done|].
  intros (s & E & H)%res_bind_Ok. apply ok_or_Ok in E. by rewrite (lookup_app_l_Some _ _ _ _ E).
Qed.

Lemma set_schemas_extends l d : extends d (set_schemas (schemas d ++ l) d).
Proof.
  split; [done|]. intros id b _. unfold stored. cbn. destruct (db_get _ _) as [[raw|]|]; [|done..].
  destruct (decode_batch (schemas d) raw) eqn:E; [|done..]. intros [= <-]. by rewrite (decode_more _ _ _ _ E).
Qed.

(** * Grouping *)
Lemma intern_schema_spec s d : NoDup (schemas d) /\ schemas d ⊆ universe -> s ∈ universe ->
  exists sid l, intern_schema s d = (Ok sid, set_schemas (schemas d ++ l) d) /\
    (NoDup (schemas d ++ l) /\ schemas d ++ l ⊆ universe) /\
    0 <= sid < 2 ^ 32 /\ (schemas d ++ l) !! Z.to_nat sid = Some s.
Proof.
  intros [Hn Hu] Hs. unfold intern_schema.
  assert (Hle : forall l, NoDup l -> l ⊆ universe -> Z.of_nat (length l) <= 2 ^ 32).
  { intros l H1 H2. pose proof (NoDup_submseteq _ _ H1 H2) as H3%submseteq_length. lia. }
  destruct (list_find (eq s) (schemas d)) as [[i x]|] eqn:E.
  - apply list_find_Some in E as (Hi & <- & _). pose proof (Hle _ Hn Hu). pose proof (lookup_lt_Some _ _ _ Hi).
    exists (Z.of_nat i), []. rewrite app_nil_r. rewrite Z.mod_small by lia. split_and!; try done; try lia.
    + by destruct d.
    + by rewrite Nat2Z.id.
  - apply list_find_None in E. rewrite list.Forall_forall in E.
    assert (Hn' : NoDup (schemas d ++ [s])).
    { apply list.NoDup_app. split_and!; [done| |apply list.NoDup_singleton]. intros x Hx ->%list_elem_of_singleton. by apply (E s). }
    assert (Hu' : schemas d ++ [s] ⊆ universe).
    { intros x [?| ->%list_elem_of_singleton]%elem_of_app; [by apply Hu|done]. }
    pose proof (Hle _ Hn' Hu') as Hl. rewrite length_app in Hl. change (length [s]) with 1%nat in Hl.
    exists (Z.of_nat (length (schemas d))), [s]. rewrite Z.mod_small by lia. split_and!; try done; try lia.
    rewrite Nat2Z.id, lookup_app_r, Nat.sub_diag by lia. done.
Qed.

Definition group_ok (ss : list Schema) (g : Group) : Prop :=
  let '(sid, rows, keys) := g in
  0 <= sid < 2 ^ 32 /\ rows <> [] /\ length rows = length keys /\
  exists s, ss !! Z.to_nat sid = Some s /\ forall b, b ∈ rows -> schema b = s /\ exists row, batch_rows b = [row].

Definition row_views (rows : list RecordBatch) (keys : list (string * option OrderingValue)) : list (string * option View) :=
  zip_with (fun b ko => (fst ko, batch_view b (snd ko))) rows keys.

Definition group_views (g : Group) : list (string * option View) := let '(_, rows, keys) := g in row_views rows keys.

Definition groups_views (gs : list Group) : list (string * option View) := concat (group_views <$> gs).

Lemma group_ok_more ss l g : group_ok ss g -> group_ok (ss ++ l) g.
Proof.
  destruct g as [[sid rows] keys]. intros (H1 & H2 & H3 & s & H4 & H5). split_and!; try done; try lia.
  exists s. split; [|done]. by apply lookup_app_l_Some.
Qed.

Lemma push_row_spec ss sid b k o row : 0 <= sid < 2 ^ 32 -> ss !! Z.to_nat sid = Some (schema b) -> batch_rows b = [row] ->
  forall gs, (forall g, g ∈ gs -> group_ok ss g) ->
  (forall g, g ∈ push_row sid b (k, o) gs -> group_ok ss g) /\
  groups_views (push_row sid b (k, o) gs) ≡ₚ groups_views gs ++ [(k, batch_view b o)].
Proof.
  intros Hsid Hs Hb. induction gs as [|[[g rows] keys] gs IH]; intros Hgs; cbn [push_row].
  - split; [|done]. intros g ->%list_elem_of_singleton. split_and!; try done; try lia. exists (schema b).
    split; [done|]. intros x ->%list_elem_of_singleton. split; [done|by exists row].
  - destruct (Z.eqb_spec g sid) as [->|].
    + destruct (Hgs (sid, rows, keys)) as (H1 & H2 & H3 & s & H4 & H5); [by left|]. rewrite Hs in H4. injection H4 as <-.
      split.
      * intros x [-> |Hx]%elem_of_cons; [|apply Hgs; by right]. split_and!; try lia.
        -- by destruct rows.
        -- rewrite !length_app. cbn. lia.
        -- exists (schema b). split; [done|]. intros y [Hy| ->%list_elem_of_singleton]%elem_of_app; [by apply H5|].
           split; [done|by exists row].
      * unfold groups_views. rewrite !fmap_cons. cbn [concat group_views]. unfold row_views.
        rewrite zip_with_app by done. cbn. by rewrite <- app_assoc, <- app_assoc, (Permutation_app_comm _ [_]).
    + destruct IH as [H1 H2]; [intros x Hx; apply Hgs; by right|]. split.
      * intros x [-> |Hx]%elem_of_cons; [apply Hgs; by left|by apply H1].
      * unfold groups_views in *. rewrite !fmap_cons. cbn [concat]. rewrite H2. by rewrite app_assoc.
Qed.

Lemma group_records_spec l : forall gs d, NoDup (schemas d) /\ schemas d ⊆ universe ->
  (forall kr, kr ∈ l -> staged_ok kr.2) -> (forall g, g ∈ gs -> group_ok (schemas d) g) ->
  exists gs' m, st_fold group_record l gs d = (Ok gs', set_schemas (schemas d ++ m) d) /\
    (NoDup (schemas d ++ m) /\ schemas d ++ m ⊆ universe) /\
    (forall g, g ∈ gs' -> group_ok (schemas d ++ m) g) /\
    groups_views gs' ≡ₚ groups_views gs ++ ((fun kr => (fst kr, record_view (snd kr))) <$> l).
Proof.
  induction l as [|[k r] l IH]; intros gs d Hss Hl Hgs; cbn [st_fold].
  { exists gs, []. rewrite !app_nil_r. split_and!; try done; try apply Hss. by destruct d. }
  destruct (Hl (k, r)) as (s & row & o & Hv & Hs); [by left|]. cbn [snd] in Hv.
  destruct (record_view_data _ _ _ _ Hv) as (_ & Ho & b & Hb & Hbs & Hrow).
  destruct (intern_schema_spec s d Hss Hs) as (sid & m & H1 & H2 & H3 & H4).
  assert (Hgr : group_record gs (k, r) d = (Ok (push_row sid b (k, ordering_value r) gs), set_schemas (schemas d ++ m) d)).
  { unfold group_record, st_bind, st_lift, st_ret. cbn [fst snd]. rewrite Hb. cbn [ok_or]. by rewrite Hbs, H1. }
  rewrite (st_bind_ok _ _ _ _ _ Hgr).
  destruct (push_row_spec (schemas d ++ m) sid b k (ordering_value r) row H3 ltac:(by rewrite Hbs) Hrow gs) as [H5 H6].
  { intros g Hg. by apply group_ok_more, Hgs. }
  destruct (IH (push_row sid b (k, ordering_value r) gs) (set_schemas (schemas d ++ m) d)) as (gs' & m' & H7 & H8 & H9 & H10); [done| |done|].
  { intros kr Hkr. apply Hl. by right. }
  cbn [schemas set_schemas] in *. rewrite <- !app_assoc in *. exists gs', (m ++ m'). split_and!; try done; try apply H8.
  rewrite H10, H6, <- app_assoc, fmap_cons. cbn. unfold batch_view. by rewrite Hrow, Hbs, Hv, Ho.
Qed.

(** * Writing *)
Lemma index_rows_lookup id keys m k : NoDup (fst <$> keys) -> Z.of_nat (length keys) <= 2 ^ 32 ->
  index_rows id keys m !! k =
    match list_find (fun ko => fst ko = k) keys with
    | Some (i, (_, o)) => Some (mkEntry o (LocData id (Z.of_nat i)))
    | None => m !! k
    end.
Proof.
  intros Hn Hl. unfold index_rows.
  assert (forall (j : nat) (m : gmap string DiskEntry), Z.of_nat (j + length keys) <= 2 ^ 32 ->
    foldl (fun m ik => <[(snd ik).1 := mkEntry (snd ik).2 (LocData id (Z.of_nat (fst ik) mod 2 ^ 32))]> m) m
      (zip (seq j (length keys)) keys) !! k =
    match list_find (fun ko => fst ko = k) keys with
    | Some (i, (_, o)) => Some (mkEntry o (LocData id (Z.of_nat (j + i))))
    | None => m !! k
    end) as H; [|by rewrite (H 0%nat)]. clear Hl m.
  induction keys as [|[k' o] keys IH]; intros j m Hj; [done|]. rewrite fmap_cons in Hn. apply list.NoDup_cons in Hn as [Hk Hn].
  cbn [length seq zip zip_with foldl fst snd] in *. rewrite (IH Hn) by lia. rewrite (Z.mod_small (Z.of_nat j)) by lia.
  cbn [list_find fst]. destruct (decide (k' = k)) as [->|Hne].
  - destruct (list_find _ keys) as [[i [k2 o2]]|] eqn:E.
    + apply list_find_Some in E as (Hi & Hk2 & _). cbn in Hk2. subst. exfalso. apply Hk.
      apply list_elem_of_fmap. exists (k, o2). split; [done|]. by apply list_elem_of_lookup_2 in Hi.
    + rewrite lookup_insert_eq. by rewrite Nat.add_0_r.
  - destruct (list_find _ keys) as [[i [k2 o2]]|]; cbn; [by rewrite <- Nat.add_succ_r|]. by rewrite lookup_insert_ne.
Qed.

Lemma group_blob_decodes sid ss b : 0 <= sid < 2 ^ 32 -> ss !! Z.to_nat sid = Some (schema b) ->
  exists blob b', group_blob sid b = Ok blob /\ decode_batch ss blob = Ok b' /\ schema b' = schema b /\ batch_rows b' = batch_rows b.
Proof.
  intros Hsid Hs. unfold group_blob. destruct (to_binary_row_body b) as [body|] eqn:E.
  - destruct (binary_body_roundtrip b body E) as (b' & H1 & H2 & H3). eexists _, b'. split; [reflexivity|].
    split; [|done]. cbn [decode_batch]. rewrite decide_True by done. unfold blen. rewrite length_app, length_to_le_bytes.
    destruct (Z.ltb_spec (Z.of_nat (4 + length body)) 4); [lia|].
    rewrite take_app_length' by (by rewrite length_to_le_bytes). rewrite drop_app_length' by (by rewrite length_to_le_bytes).
    rewrite from_to_le_bytes by (change (256 ^ Z.of_nat 4) with (2 ^ 32); lia). by rewrite Hs.
  - destruct (binary_roundtrip b) as (full & b' & H1 & H2 & H3 & H4). rewrite H1. eexists _, b'. split; [reflexivity|].
    split; [|done]. cbn [decode_batch]. by rewrite decide_False, decide_True.
Qed.

(** What writing a group, or several, does to the index. *)
Record wrote (d d' : DiskMap) (vs : list (string * option View)) : Prop := {
  wr_extends : extends d d';
  wr_staging : staging d' = staging d;
  wr_schemas : schemas d' = schemas d;
  wr_len : disk_len d' = disk_len d;
  wr_cache : cache d' = cache d;
  wr_new : forall k v, (k, v) ∈ vs -> exists e, index d' !! k = Some e /\ entry_ok d' e /\ entry_view d' e = v;
  wr_other : forall k, k ∉ fst <$> vs -> index d' !! k = index d !! k
}.

Lemma row_views_keys rows keys : length rows = length keys -> fst <$> row_views rows keys = fst <$> keys.
Proof.
  revert keys. induction rows as [|b rows IH]; intros [|k keys] Hl; try done. cbn. f_equal. apply IH. by injection Hl.
Qed.

Lemma concat_single rows s : (forall b, b ∈ rows -> schema b = s /\ exists row, batch_rows b = [row]) ->
  length (concat (batch_rows <$> rows)) = length rows /\
  forall i b, rows !! i = Some b -> exists row, batch_rows b = [row] /\ concat (batch_rows <$> rows) !! i = Some row.
Proof.
  induction rows as [|b rows IH]; intros H; [done|]. rewrite fmap_cons. cbn [concat].
  destruct (H b) as (_ & row & Hrow); [by left|]. destruct IH as [H1 H2]; [intros x Hx; apply H; by right|].
  rewrite Hrow. split; [cbn; by rewrite H1|]. intros [|i] x; cbn; [|apply H2]. intros [= <-]. by exists row.
Qed.

Lemma write_group_spec d g : group_ok (schemas d) g -> NoDup (fst <$> group_views g) -> Z.of_nat (length (group_views g)) <= 2 ^ 32 ->
  exists d', write_group g d = (Ok tt, d') /\ wrote d d' (group_views g).
Proof.
  destruct g as [[sid rows] keys]. intros (Hsid & Hne & Hl & s & Hs & Hrows) Hn Hlen. cbn [group_views] in *.
  rewrite row_views_keys in Hn by done. unfold row_views in Hlen. rewrite length_zip_with, Hl, Nat.min_id in Hlen.
  destruct (concat_rows s rows) as (batch & Hb & Hbs & Hbr); [intros b Hin; by apply Hrows|].
  destruct (group_blob_decodes sid (schemas d) batch Hsid ltac:(by rewrite Hbs)) as (blob & batch' & H1 & H2 & H3 & H4).
  destruct (db_put_ok (db d) (next_batch_id d) blob) as (h & H5 & H6 & H7).
  destruct rows as [|row rows]; [done|]. unfold write_group. assert (schema row = s) as -> by (apply Hrows; by left).
  unfold st_bind, st_lift. rewrite Hb. cbn [map_err]. rewrite H1, H5. eexists. split; [reflexivity|].
  remember (row :: rows) as rs eqn:Ers. clear Ers. destruct (concat_single rs s Hrows) as [Hcl Hci].
  split; cbn; try done.
  - split; cbn; [lia|]. intros id b Hid. unfold stored. cbn. by rewrite H7 by lia.
  - intros k v Hkv. apply list_elem_of_lookup_1 in Hkv as [i Hi]. unfold row_views in Hi.
    apply lookup_zip_with_Some in Hi as (b & [k' o] & [= -> ->] & Hbi & Hki). cbn [fst snd] in *.
    exists (mkEntry o (LocData (next_batch_id d) (Z.of_nat i))). rewrite index_rows_lookup by done. split; [|split].
    + destruct (list_find (fun ko => ko.1 = k') keys) as [[j [k2 o2]]|] eqn:E.
      * apply list_find_Some in E as (Hj & Hk2 & _). cbn in Hk2. subst k2.
        assert (j = i) as ->; [|congruence]. apply (NoDup_lookup _ j i k' Hn); by rewrite list_lookup_fmap, ?Hj, ?Hki.
      * apply list_find_None in E. rewrite list.Forall_forall in E. by destruct (E (k', o)); [apply list_elem_of_lookup_2 in Hki|].
    + destruct (Hci i b Hbi) as (r & Hr & Hcr). split; [split; cbn; lia|].
      unfold entry_view. cbn. unfold stored. cbn. rewrite H6, H2. cbn. rewrite Nat2Z.id, H4, Hbr, Hcr. by eexists.
    + destruct (Hci i b Hbi) as (r & Hr & Hcr). unfold entry_view. cbn. unfold stored. cbn. rewrite H6, H2. cbn.
      rewrite Nat2Z.id, H4, Hbr, Hcr. cbn. unfold batch_view. rewrite Hr, H3, Hbs.
      destruct (Hrows b) as [-> _]; [by apply list_elem_of_lookup_2 in Hbi|done].
  - intros k Hk. rewrite row_views_keys in Hk by done. rewrite index_rows_lookup by done.
    destruct (list_find _ keys) as [[j [k2 o2]]|] eqn:E; [|done]. apply list_find_Some in E as (Hj & Hk2 & _). cbn in Hk2. subst.
    exfalso. apply Hk. apply list_elem_of_fmap. exists (k, o2). split; [done|]. by apply list_elem_of_lookup_2 in Hj.
Qed.

Lemma wrote_trans d1 d2 d3 vs vs' : NoDup (fst <$> vs ++ vs') -> wrote d1 d2 vs -> wrote d2 d3 vs' -> wrote d1 d3 (vs ++ vs').
Proof.
  intros Hn [A1 A2 A3 A4 A5 A6 A7] [B1 B2 B3 B4 B5 B6 B7]. rewrite fmap_app in Hn. apply list.NoDup_app in Hn as (_ & Hd & _).
  split; try congruence; [by etrans| |].
  - intros k v [H|H]%elem_of_app; [|by apply B6]. destruct (A6 k v H) as (e & H1 & H2 & H3). exists e.
    rewrite B7; [|apply Hd; apply list_elem_of_fmap; by exists (k, v)]. destruct (entry_extends _ _ e B1 H2) as [H4 H5].
    by rewrite H5.
  - intros k Hk. rewrite fmap_app, elem_of_app in Hk. rewrite B7, A7; naive_solver.
Qed.

Lemma write_groups_spec gs : forall d, (forall g, g ∈ gs -> group_ok (schemas d) g) ->
  NoDup (fst <$> groups_views gs) -> Z.of_nat (length (groups_views gs)) <= 2 ^ 32 ->
  exists d', st_iter write_group gs d = (Ok tt, d') /\ wrote d d' (groups_views gs).
Proof.
  unfold groups_views. induction gs as [|g gs IH]; intros d Hok Hn Hl; cbn [st_iter].
  { exists d. split; [done|]. split; try done. intros k v Hkv. by apply not_elem_of_nil in Hkv. }
  rewrite fmap_cons in *. cbn [concat] in *. rewrite length_app in Hl. assert (Hn' := Hn). rewrite fmap_app in Hn'.
  apply list.NoDup_app in Hn' as (Hn1 & _ & Hn2).
  destruct (write_group_spec d g) as (d1 & H1 & W1); [apply Hok; by left|done|lia|].
  rewrite (st_bind_ok _ _ _ _ _ H1). destruct (IH d1) as (d2 & H2 & W2); [|done|lia|].
  { intros x Hx. rewrite (wr_schemas _ _ _ W1). apply Hok. by right. }
  exists d2. split; [done|]. by eapply wrote_trans.
Qed.

(** * Operations *)
Lemma hash_iter_elem {K} `{Countable K} {A} (m : gmap K A) k a : (k, a) ∈ hash_iter m <-> m !! k = Some a.
Proof. rewrite hash_iter_perm. apply elem_of_map_to_list. Qed.

Lemma hash_iter_keys {K} `{Countable K} {A} (m : gmap K A) : NoDup (fst <$> hash_iter m).
Proof. rewrite hash_iter_perm. apply NoDup_fst_map_to_list. Qed.

Lemma hash_iter_length {K} `{Countable K} {A} (m : gmap K A) : length (hash_iter m) = size m.
Proof. rewrite hash_iter_perm. apply length_map_to_list. Qed.

Lemma set_staging_extends m d : extends d (set_staging m d).
Proof. by split. Qed.

Lemma flush_spec d : disk_wf d -> Z.of_nat (size (staging d)) <= 2 ^ 32 ->
  exists d', flush d = (Ok tt, d') /\ disk_wf d' /\ staging d' = ∅ /\ forall k, disk_view d' k = disk_view d k.
Proof.
  intros [Hlen Hss Hst Hix Hca] Hsz. unfold flush. destruct (decide (staging d = ∅)) as [E|_]; [by exists d|].
  destruct (group_records_spec (hash_iter (staging d)) [] (set_staging ∅ d)) as (gs & m & H1 & H2 & H3 & H4);
    [done| |intros g Hg; by apply not_elem_of_nil in Hg|].
  { intros [k r] Hkr%hash_iter_elem. by apply (Hst k r). }
  rewrite (st_bind_ok _ _ _ _ _ H1). cbn [groups_views] in H4. change (groups_views []) with (@nil (string * option View)) in H4. cbn [app] in H4.
  assert (Hk : fst <$> groups_views gs ≡ₚ fst <$> hash_iter (staging d)) by (rewrite H4, <- list_fmap_compose; done).
  set (d1 := set_schemas _ _) in *.
  destruct (write_groups_spec gs d1) as (d' & H5 & W); [done|rewrite Hk; apply hash_iter_keys|rewrite H4, length_fmap, hash_iter_length; done|].
  rewrite H5. exists d'. split; [done|].
  assert (Hext : extends d d') 
    by (transitivity (set_staging ∅ d); [apply set_staging_extends|transitivity d1; [exact (set_schemas_extends m (set_staging ∅ d))|apply W]]).
  assert (Hnew : forall k r, staging d !! k = Some r -> exists e, index d' !! k = Some e /\ entry_ok d' e /\ entry_view d' e = record_view r).
  { intros k r Hr. apply (wr_new _ _ _ W). rewrite H4. apply list_elem_of_fmap. exists (k, r). split; [done|]. by apply hash_iter_elem. }
  assert (Hold : forall k, staging d !! k = None -> index d' !! k = index d !! k).
  { intros k Hr. rewrite (wr_other _ _ _ W); [done|]. rewrite Hk. intros ([k' r] & -> & Hkr)%list_elem_of_fmap.
    apply hash_iter_elem in Hkr. cbn in *. congruence. }
  assert (Hs' : staging d' = ∅) by exact (wr_staging _ _ _ W).
  split; [|split; [done|]].
  - split.
    + rewrite (wr_len _ _ _ W). change (disk_len d1) with (disk_len d). rewrite Hlen, Hs'. f_equal. f_equal.
      apply set_eq. intros k. rewrite !elem_of_union, !elem_of_dom, lookup_empty. destruct (staging d !! k) as [r|] eqn:E.
      * destruct (Hnew k r E) as (e & -> & _). naive_solver.
      * rewrite (Hold k E). naive_solver.
    + rewrite (wr_schemas _ _ _ W). exact H2.
    + by rewrite Hs'.
    + intros k e He. destruct (staging d !! k) as [r|] eqn:E.
      * destruct (Hnew k r E) as (e' & He' & Ho & _). by simplify_eq.
      * rewrite (Hold k E) in He. by apply (entry_extends d d' e Hext), (Hix k e).
    + rewrite (wr_cache _ _ _ W). intros id b Hb. destruct (Hca id b Hb) as [H6 H7]. destruct Hext as [H8 H9].
      split; [lia|]. by apply H9.
  - intros k. unfold disk_view at 1. rewrite Hs', lookup_empty. unfold disk_view. destruct (staging d !! k) as [r|] eqn:E.
    + destruct (Hnew k r E) as (e & He & _ & Hv). unfold index_view. rewrite He. exact Hv.
    + unfold index_view. rewrite (Hold k E). destruct (index d !! k) as [e|] eqn:Ee; [|done]. cbn.
      by apply (entry_extends d d' e Hext), (Hix k e).
Qed.

Lemma set_index_extends m d : extends d (set_index m d).
Proof. by split. Qed.

Lemma disk_put_spec key r v d : disk_ok d -> record_view r = Some v -> (forall s, view_schema v = Some s -> s ∈ universe) ->
  exists d', disk_put key r d = (Ok tt, d') /\ disk_ok d' /\
    forall k, disk_view d' k = if decide (k = key) then Some v else disk_view d k.
Proof.
  intros [[Hlen Hss Hst Hix Hca] Hroom] Hv Hu. unfold disk_put.
  set (d1 := if is_delete r then _ else _). cbv zeta.
  set (d2 := if disk_contains_key key d then d1 else set_disk_len (disk_len d1 + 1) d1).
  assert (Hd1 : disk_len d1 = disk_len d /\ schemas d1 = schemas d /\ cache d1 = cache d /\ extends d d1 /\
      dom (staging d1) ∪ dom (index d1) = {[key]} ∪ (dom (staging d) ∪ dom (index d)) :> gset string /\
      map_Forall (fun _ r => staged_ok r) (staging d1) /\ map_Forall (fun _ e => entry_ok d1 e) (index d1) /\
      Z.of_nat (size (staging d1)) <= Z.of_nat (size (staging d)) + 1 /\
      forall k, disk_view d1 k = if decide (k = key) then Some v else disk_view d k).
  { subst d1. destruct v as [s row o|k0 o].
    - destruct (record_view_data _ _ _ _ Hv) as (-> & Ho & _). split_and!; try done; cbn.
      + rewrite dom_insert_L. set_solver.
      + apply map_Forall_insert_2; [|done]. exists s, row, o. split; [done|]. by apply Hu.
      + rewrite map_size_insert. destruct (_ !! _); cbn; lia.
      + intros k. unfold disk_view. cbn. destruct (decide (k = key)) as [->|]; [by rewrite lookup_insert_eq|].
        rewrite lookup_insert_ne by done. done.
    - destruct (record_view_delete _ _ _ Hv) as (-> & Hk & Ho). split_and!; try done; cbn.
      + apply set_eq. intros k. rewrite elem_of_union, elem_of_union, elem_of_singleton, elem_of_union, !elem_of_dom.
        destruct (decide (k = key)) as [->|]; [rewrite lookup_insert_eq; naive_solver|].
        rewrite lookup_insert_ne, lookup_delete_ne by done. naive_solver.
      + by apply map_Forall_delete.
      + apply map_Forall_insert_2; [|done]. split; [done|]. by eexists.
      + rewrite map_size_delete. destruct (_ !! _); cbn; lia.
      + intros k. unfold disk_view. cbn. destruct (decide (k = key)) as [->|].
        * rewrite lookup_delete_eq. unfold index_view. cbn. rewrite lookup_insert_eq. cbn. unfold entry_view. cbn. by rewrite Hk, Ho.
        * rewrite lookup_delete_ne by done. unfold index_view. cbn. by rewrite lookup_insert_ne. }
  destruct Hd1 as (H1 & H2 & H3 & H4 & H5 & H6 & H7 & H8 & H9).
  assert (Hd2 : staging d2 = staging d1 /\ index d2 = index d1 /\ disk_wf d2 /\ forall k, disk_view d2 k = disk_view d1 k).
  { assert (Hwf : forall n, n = Z.of_nat (size (dom (staging d1) ∪ dom (index d1) : gset string)) -> disk_wf (set_disk_len n d1)).
    { intros n Hn. split; cbn; [done|by rewrite H2|done|done|]. rewrite H3. intros id b Hb. destruct (Hca id b Hb) as [H10 H11].
      destruct H4 as [H12 H13]. split; [lia|]. by apply (H13 id b). }
    subst d2. unfold disk_contains_key. rewrite H1, Hlen in *. rewrite H5 in Hwf.
    destruct (bool_decide_reflect (is_Some (staging d !! key))) as [Hs|Hs]; cbn [orb].
    - split_and!; try done. destruct d1; cbn in H1. subst. apply Hwf. do 2 f_equal.
      apply elem_of_dom in Hs. set_solver.
    - destruct (bool_decide_reflect (is_Some (index d !! key))) as [Hi|Hi].
      + split_and!; try done. destruct d1; cbn in H1. subst. apply Hwf. do 2 f_equal. apply elem_of_dom in Hi. set_solver.
      + split_and!; try done. apply Hwf.
        assert (key ∉ (dom (staging d) : gset string)) by (by rewrite elem_of_dom).
        assert (key ∉ (dom (index d) : gset string)) by (by rewrite elem_of_dom).
        rewrite (size_union {[key]}), size_singleton by set_solver. lia. }
  destruct Hd2 as (H10 & H11 & H12 & H13).
  unfold SPILL_BATCH_ROWS in *. rewrite H10. destruct (Z.leb_spec 1024 (Z.of_nat (size (staging d1)))).
  - destruct (flush_spec d2) as (d' & H14 & H15 & H16 & H17); [done|rewrite H10; lia|].
    exists d'. split; [done|]. split; [split; [done|by rewrite H16, map_size_empty]|]. intros k. by rewrite H17, H13, H9.
  - exists d2. split; [done|]. split; [split; [done|by rewrite H10]|]. intros k. by rewrite H13, H9.
Qed.

(** A record, or none, of a view, or none. *)
Definition shows (o : option BufferedRecord) (w : option View) : Prop :=
  match o with Some r => record_view r = w /\ is_Some w | None => w = None end.

Definition cache_ok (d : DiskMap) : Prop :=
  forall id b, (id, b) ∈ cache d -> id < next_batch_id d /\ stored d id = Some b.

Lemma load_batch_spec d id b : cache_ok d -> id < next_batch_id d -> stored d id = Some b ->
  exists c, load_batch id d = (Ok b, set_cache c d) /\ cache_ok (set_cache c d).
Proof.
  intros Hc Hid Hs. unfold load_batch. destruct (find _ (cache d)) as [[id' b']|] eqn:E.
  - apply find_some in E as [H1 H2%Z.eqb_eq]. cbn in H2. subst id'. apply list_elem_of_In in H1.
    destruct (Hc id b' H1) as [_ H3]. assert (b' = b) as -> by congruence. exists (cache d). by destruct d.
  - assert (Hs' := Hs). unfold stored in Hs'. destruct (db_get _ _) as [[raw|]|]; [|done..]. cbn [ok_or res_bind].
    destruct (decode_batch _ _) as [b'| |]; [|done..]. injection Hs' as ->. eexists. split; [reflexivity|].
    intros i x. cbn. intros Hx.
    assert ((i, x) ∈ cache d ++ [(id, b)]) as [H| [= -> ->]%list_elem_of_singleton]%elem_of_app.
    { destruct (_ <? _); [|done]. destruct (cache d ++ [(id, b)]); [done|]. by right. }
    + by apply Hc.
    + done.
Qed.

Lemma record_from_entry_spec key d e : cache_ok d -> entry_ok d e ->
  exists r c, record_from_entry key e d = (Ok r, set_cache c d) /\ cache_ok (set_cache c d) /\
    record_view r = entry_view d e /\ (is_delete r = false -> record_key r = key).
Proof.
  intros Hc [Hl Hv]. unfold record_from_entry, entry_view in *. destruct (loc e) as [id i|k].
  - destruct (stored d id) as [b|] eqn:E; [|by destruct Hv]. cbn in *.
    destruct (batch_rows b !! Z.to_nat i) as [row|] eqn:Er; [|by destruct Hv]. cbn.
    destruct (load_batch_spec d id b Hc) as (c & H1 & H2); [lia|done|]. rewrite (st_bind_ok _ _ _ _ _ H1).
    assert (i + 1 <= num_rows b) as Hi%Z.leb_le by (rewrite num_rows_length; apply lookup_lt_Some in Er; lia).
    rewrite Hi. eexists _, c. split; [reflexivity|]. split; [done|]. split; [|done].
    unfold record_view, batch_view. cbn. by rewrite (slice_row_rows _ _ _ Er), slice_row_schema.
  - eexists _, (cache d). destruct d. split; [reflexivity|]. done.
Qed.

Lemma set_cache_ok c d : disk_ok d -> cache_ok (set_cache c d) -> disk_ok (set_cache c d).
Proof. intros [[] ?] Hc. split; [by split|done]. Qed.

Lemma disk_view_contains d key : disk_wf d -> is_Some (disk_view d key) <-> key ∈ (dom (staging d) ∪ dom (index d) : gset string).
Proof.
  intros [_ _ Hst Hix _]. rewrite elem_of_union, !elem_of_dom. unfold disk_view, index_view.
  destruct (staging d !! key) as [r|] eqn:E.
  - destruct (Hst key r E) as (s & row & o & -> & _). naive_solver.
  - destruct (index d !! key) as [e|] eqn:Ee; cbn; [|by split; [intros [? [=]]|intros [[? [=]]|[? [=]]]]].
    destruct (Hix key e Ee) as [_ ?]. naive_solver.
Qed.

Lemma disk_contains_key_spec d key : disk_ok d -> disk_contains_key key d = bool_decide (is_Some (disk_view d key)).
Proof.
  intros [Hwf _]. unfold disk_contains_key. rewrite (bool_decide_ext _ _ (disk_view_contains d key Hwf)).
  rewrite <- bool_decide_or. apply bool_decide_ext. by rewrite elem_of_union, !elem_of_dom.
Qed.

Lemma disk_len_spec d : disk_ok d ->
  exists X : gset string, disk_len d = Z.of_nat (size X) /\ forall k, k ∈ X <-> is_Some (disk_view d k).
Proof. intros [Hwf _]. eexists. split; [by apply ok_len|]. intros k. symmetry. by apply disk_view_contains. Qed.

Lemma disk_get_spec key d : disk_ok d ->
  exists o c, disk_get key d = (Ok o, set_cache c d) /\ disk_ok (set_cache c d) /\ shows o (disk_view d key).
Proof.
  intros Hd. assert (Hd' := Hd). destruct Hd' as [[Hlen Hss Hst Hix Hca] _]. unfold disk_get, disk_view, index_view.
  destruct (staging d !! key) as [r|] eqn:E.
  - exists (Some r), (cache d). split_and!; try done; [by destruct d|by destruct d|]. split; [done|].
    destruct (Hst key r E) as (s & row & o & -> & _). by eexists.
  - destruct (index d !! key) as [e|] eqn:Ee.
    + destruct (record_from_entry_spec key d e Hca (Hix key e Ee)) as (r & c & H1 & H2 & H3 & _).
      rewrite (st_bind_ok _ _ _ _ _ H1). exists (Some r), c. split; [done|]. split; [by apply set_cache_ok|].
      split; [done|]. by destruct (Hix key e Ee).
    + exists None, (cache d). split_and!; try done; by destruct d.
Qed.

Lemma disk_remove_spec key d : disk_ok d ->
  exists o d', disk_remove key d = (Ok o, d') /\ disk_ok d' /\ shows o (disk_view d key) /\
    forall k, disk_view d' k = if decide (k = key) then None else disk_view d k.
Proof.
  intros Hd. destruct (disk_get_spec key d Hd) as (o & c & H1 & H2 & H3). unfold disk_remove.
  rewrite (st_bind_ok _ _ _ _ _ H1). destruct o as [r|].
  - unfold st_modify, st_bind, st_ret. eexists _, _. split; [reflexivity|]. destruct H3 as [Hv Hs].
    assert (Hd' := Hd). destruct Hd' as [Hwf Hroom]. apply (disk_view_contains d key Hwf) in Hs as Hin.
    destruct H2 as [[Hlen Hss Hst Hix Hca] _]. split; [|split; [done|]].
    + split; [split|]; cbn in *; try done.
      * rewrite Hlen. rewrite !dom_delete_L.
        assert (dom (staging d) ∖ {[key]} ∪ dom (index d) ∖ {[key]} = (dom (staging d) ∪ dom (index d)) ∖ {[key]} :> gset string) as -> by set_solver.
        rewrite (size_difference (dom (staging d) ∪ dom (index d))) by set_solver. rewrite size_singleton.
        assert (size (dom (staging d) ∪ dom (index d) : gset string) <> 0%nat); [|lia].
        intros Hz%size_empty_inv. set_solver.
      * by apply map_Forall_delete.
      * by apply map_Forall_delete.
      * rewrite map_size_delete. destruct (_ !! _); cbn; lia.
    + intros k. unfold disk_view, index_view. cbn. destruct (decide (k = key)) as [->|].
      * by rewrite !lookup_delete_eq.
      * by rewrite !lookup_delete_ne.
  - exists None, (set_cache c d). split; [done|]. split; [done|]. split; [done|].
    intros k. change (disk_view (set_cache c d) k) with (disk_view d k). destruct (decide (k = key)) as [->|]; done.
Qed.

(** The records drained: one for each key, with its view; and more that is said of the key
    and the record. *)
Definition drained_as (Q : string -> BufferedRecord -> Prop) (w : string -> option View) (l : list BufferedRecord) : Prop :=
  exists kvs : list (string * View), NoDup (fst <$> kvs) /\ (forall k v, (k, v) ∈ kvs <-> w k = Some v) /\
    Forall2 (fun kv r => record_view r = Some (snd kv) /\ Q (fst kv) r) kvs l.

Definition drained : (string -> option View) -> list BufferedRecord -> Prop := drained_as (fun _ _ => True).

Lemma drained_as_mono (Q Q' : string -> BufferedRecord -> Prop) w w' l : (forall k, w k = w' k) ->
  (forall k r v, w k = Some v -> record_view r = Some v -> Q k r -> Q' k r) -> drained_as Q w l -> drained_as Q' w' l.
Proof.
  intros Hw HQ (kvs & Hn & Hin & Hf). exists kvs. split; [done|]. split; [intros k v; by rewrite Hin, Hw|].
  assert (Hall : forall kv, kv ∈ kvs -> w kv.1 = Some kv.2) by (intros [k v]; apply Hin). clear Hn Hin.
  induction Hf as [|kv r kvs l [Hv Hq] _ IH]; constructor; [|apply IH; intros x Hx; apply Hall; by right].
  split; [done|]. apply HQ with kv.2; try done. apply Hall. by left.
Qed.

(** Records from the disk tier have the key they are asked by. *)
Definition named_by_key (k : string) (r : BufferedRecord) : Prop := is_delete r = false -> record_key r = k.

Lemma drain_entries_spec l : forall d, cache_ok d -> (forall ke, ke ∈ l -> entry_ok d ke.2) ->
  exists rs, drain_entries l d = Ok <$> rs /\ Forall2 (fun ke r => record_view r = entry_view d ke.2 /\ named_by_key ke.1 r) l rs.
Proof.
  induction l as [|[k e] l IH]; intros d Hc Hl; cbn [drain_entries]; [by exists []|].
  destruct (record_from_entry_spec k d e Hc) as (r & c & H1 & H2 & H3 & Hkey); [apply (Hl (k, e)); by left|].
  rewrite H1. destruct (IH (set_cache c d) H2) as (rs & H4 & H5); [intros ke Hke; apply (Hl ke); by right|].
  exists (r :: rs). rewrite H4. split; [done|]. by constructor.
Qed.

Lemma disk_drain_spec d : disk_ok d -> exists rs, disk_drain d = Ok <$> rs /\ drained_as named_by_key (disk_view d) rs.
Proof.
  intros [Hwf Hroom]. destruct (flush_spec d Hwf) as (d1 & H1 & [Hlen Hss Hst Hix Hca] & H3 & H4); [unfold SPILL_BATCH_ROWS in *; lia|].
  unfold disk_drain. rewrite H1. set (l := merge_sort _ _).
  assert (Hl : l ≡ₚ map_to_list (index d1)) by (unfold l; rewrite merge_sort_Permutation; apply hash_iter_perm).
  assert (Hin : forall k e, (k, e) ∈ l <-> index d1 !! k = Some e) by (intros k e; rewrite Hl; apply elem_of_map_to_list).
  destruct (drain_entries_spec l (set_index ∅ d1)) as (rs & H5 & H6); [done|intros [k e] Hke%Hin; exact (Hix k e Hke)|].
  exists rs. split; [done|].
  assert (Hview : forall k e, (k, e) ∈ l -> exists v, entry_view d1 e = Some v /\ disk_view d k = Some v).
  { intros k e Hke%Hin. destruct (Hix k e Hke) as [_ [v Hv]]. exists v. split; [done|]. rewrite <- H4. unfold disk_view, index_view.
    rewrite H3, lookup_empty, Hke. exact Hv. }
  assert (exists kvs : list (string * View), Forall2 (fun ke kv => fst ke = fst kv /\ entry_view d1 (snd ke) = Some (snd kv)) l kvs) as [kvs Hkvs].
  { assert (Hv : forall ke, ke ∈ l -> exists v, entry_view d1 ke.2 = Some v) by (intros [k e] Hke; destruct (Hview k e Hke) as (v & ? & _); by exists v).
    clear -Hv. induction l as [|[k e] l IH]; [by exists []|]. destruct (Hv (k, e)) as [v Hkv]; [by left|].
    destruct IH as [kvs H]; [intros x Hx; apply Hv; by right|]. exists ((k, v) :: kvs). by constructor. }
  exists kvs. split; [|split].
  - assert (fst <$> kvs = fst <$> l) as ->; [|rewrite Hl; apply NoDup_fst_map_to_list].
    clear -Hkvs. induction Hkvs as [|? ? ? ? [H _] _ IH]; [done|]. rewrite !fmap_cons. by rewrite H, IH.
  - intros k v. split.
    + intros Hkv. apply list_elem_of_lookup_1 in Hkv as [i Hi].
      destruct (Forall2_lookup_r _ _ _ _ _ Hkvs Hi) as ([k' e] & Hke & Hk & Hv). cbn in *. subst k'.
      apply list_elem_of_lookup_2 in Hke. destruct (Hview k e Hke) as (v' & H7 & H8). congruence.
    + intros Hv. rewrite <- H4 in Hv. unfold disk_view, index_view in Hv. rewrite H3, lookup_empty in Hv.
      destruct (index d1 !! k) as [e|] eqn:E; [|done]. cbn in Hv. apply Hin in E. apply list_elem_of_lookup_1 in E as [i Hi].
      destruct (Forall2_lookup_l _ _ _ _ _ Hkvs Hi) as ([k' v'] & Hkv & Hk & Hv'). cbn in *. subst k'.
      apply list_elem_of_lookup_2 in Hkv. congruence.
  - clear -Hkvs H6. revert rs H6. induction Hkvs as [|ke kv l kvs [Hk Hv] _ IH]; intros rs H6; inversion H6 as [|? ? ? ? [H1 H2]]; subst; constructor.
    + split; [by rewrite <- Hv|by rewrite <- Hk].
    + by apply IH.
Qed.
End views.
