(* ===== verification/SpillMap.v ===== *)
(** The spillable map of records:
    crates/core/src/file_group/reader_v2/buffer/spillable_map.rs.

    Records are held in memory until what they retain reaches a budget; then whole
    source batches are compacted or spilled, and new records without a source batch go
    to the disk tier.  The memory accounting, the two limits and the eviction are
    modelled as written, on the doubles of [Float64]; the memory an Arrow batch retains
    is a parameter.  A source batch is identified by the address of its [Arc]:
    [heap] lists the batches allocated so far, an address is an index of it. *)
From Stdlib Require Import ZArith Ascii.
From stdpp Require Import base gmap sets list strings sorting numbers fin_maps.
From S2P Require Import Prelude RustStr StorageReader RecordBatches LogFormat OrderingValues RecordMerger ArrowKernels RowSerde Float64 DiskMap.
Local Open Scope res_scope.
Local Open Scope st_scope.
Local Open Scope Z_scope.

(** [get_array_memory_size], a [usize]. *)
Class ArrowMemory {AB : ArrowBatch} := array_memory_size : RecordBatch -> Z.

Definition DEFAULT_MERGE_MAX_SIZE_BYTES : Z := 1024 * 1024 * 1024.
Definition ENTRY_OVERHEAD_BYTES : Z := 64.
Definition ROCKSDB_RESERVED_BYTES : Z := 16 * 1024 * 1024 * 2 + 8 * 1024 * 1024.
Definition CONFIG_MERGE_MAX_SIZE : string := "hoodie.memory.merge.max.size".
Definition CONFIG_MAX_PEAK_MEMORY : string := "hoodie.memory.merge.max.peak.size".
Definition CONFIG_SPILLABLE_MAP_PATH : string := "hoodie.memory.spillable.map.path".
Definition CONFIG_DISKMAP_TYPE : string := "hoodie.common.spillable.diskmap.type".
Definition DEFAULT_SPILL_PATH : string := "/tmp".

Definition saturating_sub (a b : Z) : Z := Z.max (a - b) 0.

(** * Configuration *)
Inductive DiskMapType := RocksDb.

Definition diskmap_type_parse (raw : option string) : res DiskMapType :=
  match raw with
  | None => Ok RocksDb
  | Some v =>
      if eq_ignore_ascii_case v "ROCKS_DB" then Ok RocksDb
      else if eq_ignore_ascii_case v "BITCASK" then Ok RocksDb
      else Err EUnsupported
  end.

Record SpillConfig := mkSpillConfig {
  cfg_max_in_memory_size : Z;
  cfg_spill_path : string;
  cfg_diskmap_type : DiskMapType;
  cfg_max_peak_in_memory_size : option Z
}.

Definition spill_config_from_parts (merge_max_size : Z) (spill_path : string) (diskmap_type : DiskMapType) : res SpillConfig :=
  Ok (mkSpillConfig (f64_as_u64 (f64_mul (u64_as_f64 merge_max_size) f64_0_8)) spill_path diskmap_type None).

Definition parse_bytes (v : string) : res Z := ok_or (parse_u64 (trim v)) EInvalidValue.

Definition spill_config_from_config (config : gmap string string) : res SpillConfig :=
  let? merge_max_size :=
    match config !! CONFIG_MERGE_MAX_SIZE with None => Ok DEFAULT_MERGE_MAX_SIZE_BYTES | Some v => parse_bytes v end in
  let? max_peak :=
    match config !! CONFIG_MAX_PEAK_MEMORY with None => Ok None | Some v => res_map Some (parse_bytes v) end in
  let? t := diskmap_type_parse (config !! CONFIG_DISKMAP_TYPE) in
  let? c := spill_config_from_parts merge_max_size (default DEFAULT_SPILL_PATH (config !! CONFIG_SPILLABLE_MAP_PATH)) t in
  Ok (mkSpillConfig (cfg_max_in_memory_size c) (cfg_spill_path c) (cfg_diskmap_type c) max_peak).

Section map.
Context {AB : ArrowBatch} {AR : ArrowRows} {AK : ArrowKernels} {AM : ArrowMemory} {AI : ArrowIpc} {HI : HashIter} {SD : SpillDb}.

(** * The batches pinned by entries *)
Record PinnedBatch := mkPin { batch_bytes : Z; live_refs : Z }.

Record PinnedBatches := mkPins { by_ptr : gmap nat PinnedBatch; pins_total_bytes : Z }.

Definition add_ref (batch : Arc) (p : PinnedBatches) : PinnedBatches :=
  match by_ptr p !! as_ptr batch with
  | Some pin => mkPins (<[as_ptr batch := mkPin (batch_bytes pin) (live_refs pin + 1)]> (by_ptr p)) (pins_total_bytes p)
  | None =>
      let bytes := array_memory_size (pointee batch) in
      mkPins (<[as_ptr batch := mkPin bytes 1]> (by_ptr p)) (saturating_add (pins_total_bytes p) bytes)
  end.

Definition remove_ref (ptr : nat) (p : PinnedBatches) : PinnedBatches :=
  match by_ptr p !! ptr with
  | Some pin =>
      if live_refs pin - 1 =? 0 then mkPins (delete ptr (by_ptr p)) (saturating_sub (pins_total_bytes p) (batch_bytes pin))
      else mkPins (<[ptr := mkPin (batch_bytes pin) (live_refs pin - 1)]> (by_ptr p)) (pins_total_bytes p)
  | None => p
  end.

Definition remove_ref_to (batch : Arc) : PinnedBatches -> PinnedBatches := remove_ref (as_ptr batch).

(** * The map *)
Record SpillMap := mkSpill {
  in_memory : gmap string BufferedRecord;
  disk : option DiskMap;
  pinned : PinnedBatches;
  owned_and_overhead : Z;
  max_in_memory_size : Z;
  max_peak_in_memory_size : option Z;
  spill_path : string;
  diskmap_type : DiskMapType;
  spill_fired : bool;
  peak_in_memory_size : Z;
  heap : list RecordBatch
}.

Definition spill_with_config (config : SpillConfig) : SpillMap :=
  mkSpill ∅ None (mkPins ∅ 0) 0 (cfg_max_in_memory_size config) (cfg_max_peak_in_memory_size config)
    (cfg_spill_path config) (cfg_diskmap_type config) false 0 [].

(** [SpillableRecordMap::new]; its configuration is expected to be valid. *)
Definition spill_new : res SpillMap :=
  match spill_config_from_parts DEFAULT_MERGE_MAX_SIZE_BYTES DEFAULT_SPILL_PATH RocksDb with
  | Ok c => Ok (spill_with_config c)
  | _ => Panic
  end.

Definition set_in_memory (m : gmap string BufferedRecord) (s : SpillMap) : SpillMap :=
  mkSpill m (disk s) (pinned s) (owned_and_overhead s) (max_in_memory_size s) (max_peak_in_memory_size s)
    (spill_path s) (diskmap_type s) (spill_fired s) (peak_in_memory_size s) (heap s).
Definition set_disk (d : option DiskMap) (fired : bool) (s : SpillMap) : SpillMap :=
  mkSpill (in_memory s) d (pinned s) (owned_and_overhead s) (max_in_memory_size s) (max_peak_in_memory_size s)
    (spill_path s) (diskmap_type s) fired (peak_in_memory_size s) (heap s).
Definition set_account (p : PinnedBatches) (n : Z) (s : SpillMap) : SpillMap :=
  mkSpill (in_memory s) (disk s) p n (max_in_memory_size s) (max_peak_in_memory_size s)
    (spill_path s) (diskmap_type s) (spill_fired s) (peak_in_memory_size s) (heap s).
Definition set_peak (n : Z) (s : SpillMap) : SpillMap :=
  mkSpill (in_memory s) (disk s) (pinned s) (owned_and_overhead s) (max_in_memory_size s) (max_peak_in_memory_size s)
    (spill_path s) (diskmap_type s) (spill_fired s) n (heap s).
Definition set_heap (h : list RecordBatch) (s : SpillMap) : SpillMap :=
  mkSpill (in_memory s) (disk s) (pinned s) (owned_and_overhead s) (max_in_memory_size s) (max_peak_in_memory_size s)
    (spill_path s) (diskmap_type s) (spill_fired s) (peak_in_memory_size s) h.

(** [Arc::new] *)
Definition spill_alloc (batch : RecordBatch) (s : SpillMap) : Arc * SpillMap :=
  (mkArc (length (heap s)) batch, set_heap (heap s ++ [batch]) s).

Definition entry_key_overhead_bytes (key : string) : Z := Z.of_nat (String.length key) + ENTRY_OVERHEAD_BYTES.

Definition owned_payload_bytes (r : BufferedRecord) : Z :=
  match payload r with
  | Owned batch => array_memory_size batch
  | BatchRef _ _ | Deleted => 0
  end.

Definition true_retained_bytes (s : SpillMap) : Z := saturating_add (pins_total_bytes (pinned s)) (owned_and_overhead s).

Definition current_in_memory_bytes (s : SpillMap) : Z := true_retained_bytes s.

Definition in_memory_allowance (s : SpillMap) : Z :=
  match disk s with
  | Some _ => saturating_sub (max_in_memory_size s) ROCKSDB_RESERVED_BYTES
  | None => max_in_memory_size s
  end.

Definition over_budget (s : SpillMap) : bool := in_memory_allowance s <=? true_retained_bytes s.

Definition account_added (key : string) (r : BufferedRecord) (s : SpillMap) : SpillMap :=
  set_account
    (match payload r with BatchRef batch _ => add_ref batch (pinned s) | _ => pinned s end)
    (saturating_add (saturating_add (owned_and_overhead s) (entry_key_overhead_bytes key)) (owned_payload_bytes r)) s.

Definition account_removed (key : string) (r : BufferedRecord) (s : SpillMap) : SpillMap :=
  set_account
    (match payload r with BatchRef batch _ => remove_ref_to batch (pinned s) | _ => pinned s end)
    (saturating_sub (saturating_sub (owned_and_overhead s) (entry_key_overhead_bytes key)) (owned_payload_bytes r)) s.

Definition track_peak (s : SpillMap) : SpillMap :=
  let cur := true_retained_bytes s in
  if peak_in_memory_size s <? cur then set_peak cur s else s.

(** A call on the disk tier. *)
Definition on_disk {A} (m : st DiskMap A) : st SpillMap A := fun s =>
  match disk s with
  | Some d => let '(r, d) := m d in (r, set_disk (Some d) (spill_fired s) s)
  | None => (Panic, s)
  end.

Definition ensure_disk : st SpillMap unit := fun s =>
  if negb spill_rocksdb then (Err EUnsupported, s)
  else
    match disk s with
    | Some _ => (Ok tt, s)
    | None =>
        match disk_create (spill_path s) with
        | Ok d => (Ok tt, set_disk (Some d) true s)
        | Err e => (Err e, s)
        | Panic => (Panic, s)
        end
    end.

(** * Eviction *)
Record Victim := mkVictim { v_batch : Arc; v_bytes : Z; v_keys : list string; v_rows : list nat }.

Definition victim_of (vs : gmap nat Victim) (kr : string * BufferedRecord) : gmap nat Victim :=
  match payload kr.2 with
  | BatchRef batch row_idx =>
      let v := default (mkVictim batch (array_memory_size (pointee batch)) [] []) (vs !! as_ptr batch) in
      <[as_ptr batch := mkVictim (v_batch v) (v_bytes v) (v_keys v ++ [kr.1]) (v_rows v ++ [row_idx])]> vs
  | _ => vs
  end.

Definition victims (s : SpillMap) : gmap nat Victim := foldl victim_of ∅ (hash_iter (in_memory s)).

(** Largest first, then by address. *)
Definition victim_le (a b : nat * Victim) : Prop :=
  v_bytes b.2 < v_bytes a.2 \/ v_bytes a.2 = v_bytes b.2 /\ (a.1 <= b.1)%nat.

#[export] Instance victim_le_dec a b : Decision (victim_le a b).
Proof. unfold victim_le. apply _. Defined.

(** One entry of a compacted batch. *)
Definition repoint (victim compact : Arc) (s : SpillMap) (ik : nat * string) : SpillMap :=
  match in_memory s !! ik.2 with
  | Some r =>
      let s := set_in_memory (<[ik.2 := mkBuffered (record_key r) (BatchRef compact ik.1) (ordering_value r)]> (in_memory s)) s in
      set_account (add_ref compact (remove_ref_to victim (pinned s))) (owned_and_overhead s) s
  | None => s
  end.

Definition compact_victim_batch (victim : Arc) (keys : list string) (rows : list nat) : st SpillMap unit := fun s =>
  match map_err EReadFileSlice (interleave_record_batch [pointee victim] ((fun r => (O, r)) <$> rows)) with
  | Ok batch =>
      let '(compact, s) := spill_alloc batch s in
      (Ok tt, foldl (repoint victim compact) s (zip (seq 0 (length keys)) keys))
  | Err e => (Err e, s)
  | Panic => (Panic, s)
  end.

Definition take_spilled (st : list (string * BufferedRecord) * SpillMap) (key : string) : list (string * BufferedRecord) * SpillMap :=
  let '(spilled, s) := st in
  match in_memory s !! key with
  | Some r => (spilled ++ [(key, r)], account_removed key r (set_in_memory (delete key (in_memory s)) s))
  | None => (spilled, s)
  end.

Definition spill_victim_batch (keys : list string) : st SpillMap unit := fun s =>
  let '(spilled, s) := foldl take_spilled ([], s) keys in
  (let* _ := ensure_disk in
   let* _ := st_iter (fun kr => on_disk (disk_put kr.1 kr.2)) spilled in
   on_disk flush) s.

Definition evict_victim (v : Victim) : st SpillMap unit :=
  let num := num_rows (pointee (v_batch v)) in
  let live := Z.of_nat (length (v_keys v)) in
  let live_ratio := if num =? 0 then f64_1_0 else f64_div (u64_as_f64 live) (u64_as_f64 num) in
  if f64_lt live_ratio f64_0_5 then compact_victim_batch (v_batch v) (v_keys v) (v_rows v)
  else spill_victim_batch (v_keys v).

Fixpoint evict_loop (target : Z) (ordered : list (nat * Victim)) : st SpillMap unit :=
  match ordered with
  | [] => st_ret tt
  | (_, v) :: ordered => fun s =>
      if true_retained_bytes s <=? target then (Ok tt, s)
      else (let* _ := evict_victim v in evict_loop target ordered) s
  end.

Definition evict_source_batches_until (target : Z) : st SpillMap unit := fun s =>
  (let* _ := evict_loop target (merge_sort victim_le (map_to_list (victims s))) in st_modify track_peak) s.

Definition low_water (n : Z) : Z := f64_as_u64 (f64_mul (u64_as_f64 n) f64_0_8).

Definition enforce_peak_cap : st SpillMap unit := fun s =>
  match max_peak_in_memory_size s with
  | None => (Ok tt, s)
  | Some cap =>
      if true_retained_bytes s <=? cap then (Ok tt, s)
      else
        (let* _ := evict_source_batches_until (low_water cap) in
         let* s := st_get in
         if cap <? true_retained_bytes s then st_lift (Err EMemoryLimitExceeded) else st_ret tt) s
  end.

Definition enforce_memory_limits : st SpillMap unit := fun s =>
  (let* _ := if over_budget s then evict_source_batches_until (low_water (in_memory_allowance s)) else st_ret tt in
   enforce_peak_cap) s.

(** * Operations *)
Definition is_batch_ref (r : BufferedRecord) : bool := match payload r with BatchRef _ _ => true | _ => false end.

Definition grown (key : string) (value : BufferedRecord) : st SpillMap unit := fun s =>
  enforce_memory_limits (track_peak (set_in_memory (<[key := value]> (in_memory s)) (account_added key value s))).

(** [insert] *)
Definition spill_insert (key : string) (value : BufferedRecord) : st SpillMap unit := fun s =>
  match in_memory s !! key with
  | Some existing => grown key value (account_removed key existing s)
  | None =>
      if match disk s with Some d => disk_contains_key key d | None => false end then on_disk (disk_put key value) s
      else if negb (is_batch_ref value) && over_budget s then
        (let* _ := ensure_disk in on_disk (disk_put key value)) s
      else grown key value s
  end.

(** [get] *)
Definition spill_get (key : string) : st SpillMap (option BufferedRecord) := fun s =>
  match in_memory s !! key with
  | Some r => (Ok (Some r), s)
  | None => match disk s with Some _ => on_disk (disk_get key) s | None => (Ok None, s) end
  end.

(** The record in a slot of the in-memory tier replaced. *)
Definition replace_slot (key : string) (slot new : BufferedRecord) (s : SpillMap) : SpillMap :=
  let p := match payload slot with BatchRef batch _ => remove_ref_to batch (pinned s) | _ => pinned s end in
  let removed := saturating_add (entry_key_overhead_bytes key) (owned_payload_bytes slot) in
  let p := match payload new with BatchRef batch _ => add_ref batch p | _ => p end in
  let added := saturating_add (entry_key_overhead_bytes key) (owned_payload_bytes new) in
  set_in_memory (<[key := new]> (in_memory s))
    (set_account p (saturating_add (saturating_sub (owned_and_overhead s) removed) added) s).

(** [merge_in_place] *)
Definition spill_merge_in_place (key : string) (f : option BufferedRecord -> res (option BufferedRecord)) : st SpillMap bool := fun s =>
  match disk s with
  | None =>
      match in_memory s !! key with
      | Some slot =>
          (let* new := st_lift (f (Some slot)) in
           let* _ := st_modify (fun s => match new with Some new => replace_slot key slot new s | None => s end) in
           let* _ := st_modify track_peak in
           let* _ := enforce_memory_limits in
           st_ret true) s
      | None =>
          (let* new := st_lift (f None) in
           let* _ := match new with Some new => spill_insert key new | None => st_ret tt end in
           st_ret false) s
      end
  | Some _ =>
      (let* existing := spill_get key in
       let* new := st_lift (f existing) in
       let* _ := match new with Some new => spill_insert key new | None => st_ret tt end in
       st_ret (bool_decide (is_Some existing))) s
  end.

(** [remove] *)
Definition spill_remove (key : string) : st SpillMap (option BufferedRecord) := fun s =>
  match in_memory s !! key with
  | Some r => (Ok (Some r), account_removed key r (set_in_memory (delete key (in_memory s)) s))
  | None => match disk s with Some _ => on_disk (disk_remove key) s | None => (Ok None, s) end
  end.

(** [contains_key] *)
Definition spill_contains_key (key : string) (s : SpillMap) : bool :=
  bool_decide (is_Some (in_memory s !! key)) || match disk s with Some d => disk_contains_key key d | None => false end.

(** [len] and [is_empty] *)
Definition spill_len (s : SpillMap) : Z :=
  Z.of_nat (size (in_memory s)) + match disk s with Some d => disk_len d | None => 0 end.
Definition spill_is_empty (s : SpillMap) : bool := spill_len s =? 0.

(** [drain_iter]: what the iterator yields. *)
Definition spill_drain (s : SpillMap) : list (res BufferedRecord) :=
  (Ok ∘ snd <$> hash_iter (in_memory s)) ++ match disk s with Some d => disk_drain d | None => [] end.

(** [compact_sparse_batches] *)
Definition compact_group (live_ratio_threshold : f64) (g : nat * Victim) : st SpillMap unit :=
  let v := g.2 in
  let num := num_rows (pointee (v_batch v)) in
  if num =? 0 then st_ret tt
  else
    let ratio := f64_div (u64_as_f64 (Z.of_nat (length (v_keys v)))) (u64_as_f64 num) in
    if f64_ge ratio live_ratio_threshold then st_ret tt
    else compact_victim_batch (v_batch v) (v_keys v) (v_rows v).

Definition compact_sparse_batches (live_ratio_threshold : f64) : st SpillMap unit := fun s =>
  (let* _ := st_iter (compact_group live_ratio_threshold) (hash_iter (victims s)) in st_modify track_peak) s.
End map.
