(* ===== verification/SpillKeys.v ===== *)
(** The keys of the records of a spillable map.

    A record has a key of its own besides the key it is held under.  The disk tier writes
    only the latter for a row, so that a record read back from it has the key of the map
    (record_from_entry of spillable_map.rs), while records in memory, those staged for a
    batch and deletes have the key they came with.  Whatever relation [P] holds between
    the keys records are held under and their own, the operations of [SpillMap] keep. *)
From Stdlib Require Import ZArith Ascii.
From stdpp Require Import base gmap sets list strings sorting numbers fin_maps.
From S2P Require Import Prelude RustStr StorageReader RecordBatches LogFormat OrderingValues RecordMerger ArrowKernels RowSerde Float64 DiskMap SpillMap.
Local Open Scope st_scope.
Local Open Scope Z_scope.

(** * Invariants of stateful calls *)
Section kept.
Context {S : Type} (I : S -> Prop).

Definition kept {A} (m : st S A) : Prop := forall s, I s -> I (m s).2.

Lemma kept_ret {A} (a : A) : kept (st_ret a).
Proof. by intros s. Qed.

Lemma kept_lift {A} (r : res A) : kept (st_lift r).
Proof. by intros s. Qed.

Lemma kept_get : kept (st_get (S := S)).
Proof. by intros s. Qed.

Lemma kept_modify f : (forall s, I s -> I (f s)) -> kept (st_modify f).
Proof. intros H s. apply H. Qed.

Lemma kept_bind {A B} (m : st S A) (k : A -> st S B) : kept m -> (forall a, kept (k a)) -> kept (st_bind m k).
Proof.
  intros Hm Hk s Hs. specialize (Hm s Hs). unfold st_bind. destruct (m s) as [[a| |] s']; [|done..]. by apply Hk.
Qed.

Lemma kept_fold {A B} (f : B -> A -> st S B) l : (forall b a, kept (f b a)) -> forall b, kept (st_fold f l b).
Proof. intros Hf. induction l as [|a l IH]; intros b; cbn; [apply kept_ret|]. by apply kept_bind. Qed.

Lemma kept_iter {A} (f : A -> st S unit) l : (forall a, a ∈ l -> kept (f a)) -> kept (st_iter f l).
Proof.
  induction l as [|a l IH]; intros Hf; cbn; [apply kept_ret|]. apply kept_bind; [apply Hf; by left|].
  intros _. apply IH. intros x Hx. apply Hf. by right.
Qed.
End kept.

Create HintDb kept.
#[export] Hint Resolve kept_ret kept_lift kept_get kept_bind kept_fold kept_iter : kept.

(** * The keys of held records *)
Section keys.
Context {AB : ArrowBatch} {AR : ArrowRows} {AK : ArrowKernels} {AM : ArrowMemory} {AI : ArrowIpc} {HI : HashIter} {SD : SpillDb}.
Context (P : string -> string -> Prop).

Definition named (k : string) (r : BufferedRecord) : Prop := P k (record_key r).

Definition disk_named (d : DiskMap) : Prop := map_Forall named (staging d).

Definition spill_named (s : SpillMap) : Prop :=
  map_Forall named (in_memory s) /\ forall d, disk s = Some d -> disk_named d.

(** ** The disk tier *)
Lemma staging_kept {A} (m : st DiskMap A) : (forall d, staging (m d).2 = staging d) -> kept disk_named m.
Proof. intros H d. unfold disk_named. by rewrite H. Qed.

Lemma intern_schema_kept s : kept disk_named (intern_schema s).
Proof. apply staging_kept. intros d. unfold intern_schema. by destruct (list_find _ _) as [[]|]. Qed.

Lemma group_record_kept gs kr : kept disk_named (group_record gs kr).
Proof. unfold group_record. auto 10 using intern_schema_kept with kept. Qed.

Lemma write_group_kept g : kept disk_named (write_group g).
Proof.
  destruct g as [[sid rows] keys]. destruct rows as [|row rows]; cbn; [apply kept_lift|].
  apply kept_bind; [apply kept_lift|intros batch]. apply kept_bind; [apply kept_lift|intros blob].
  apply staging_kept. intros d. by destruct (db_put _ _ _).
Qed.

Lemma flush_kept : kept disk_named flush.
Proof.
  intros d Hd. unfold flush. destruct (decide _); [done|].
  apply kept_bind; [|intros gs; apply kept_iter; intros g _; apply write_group_kept|done].
  apply kept_fold. apply group_record_kept.
Qed.

Lemma load_batch_kept id : kept disk_named (load_batch id).
Proof.
  apply staging_kept. intros d. unfold load_batch. destruct (find _ _) as [[]|]; [done|]. by destruct (res_bind _ _).
Qed.

Lemma record_from_entry_kept k e : kept disk_named (record_from_entry k e).
Proof.
  unfold record_from_entry. destruct (loc e); [|apply kept_ret]. apply kept_bind; [apply load_batch_kept|].
  intros b. destruct (_ <=? _); auto with kept.
Qed.

Lemma disk_get_kept key : kept disk_named (disk_get key).
Proof.
  intros d Hd. unfold disk_get. destruct (staging d !! key); [done|]. destruct (index d !! key) as [e|]; [|done].
  by apply kept_bind; [apply record_from_entry_kept|intros; apply kept_ret|].
Qed.

(** A record read is held as it is read, or under its key by the disk tier. *)
Lemma record_from_entry_named k e d r d' : P k k -> record_from_entry k e d = (Ok r, d') -> is_delete r = false -> named k r.
Proof.
  intros Hk. unfold record_from_entry, st_bind, st_ret, st_lift. destruct (loc e); [|by intros [= <- <-]].
  destruct (load_batch _ d) as [[b| |] d1]; [|done..]. destruct (_ <=? _); [|done]. unfold named. by intros [= <- <-].
Qed.

Lemma disk_get_named key d r d' : P key key -> disk_named d -> disk_get key d = (Ok (Some r), d') -> is_delete r = false -> named key r.
Proof.
  intros Hk Hd. unfold disk_get. destruct (staging d !! key) as [r0|] eqn:E; [intros [= <- <-] _; by apply Hd|].
  destruct (index d !! key) as [e|]; [|done]. unfold st_bind, st_ret.
  destruct (record_from_entry key e d) as [[r1| |] d1] eqn:Er; [|done..]. intros [= <- <-].
  by apply (record_from_entry_named key e d r1 d1).
Qed.

(** What is staged under other keys. *)
Definition staged_but (key : string) (d : DiskMap) : Prop := forall k r, k <> key -> staging d !! k = Some r -> named k r.

Lemma disk_put_named key r d : staged_but key d -> named key r -> disk_named (disk_put key r d).2.
Proof.
  intros Hd Hr. unfold disk_put. set (d1 := if is_delete r then _ else _). cbv zeta.
  set (d2 := if disk_contains_key key d then _ else _).
  assert (H2 : disk_named d2).
  { assert (staging d2 = staging d1) as H by (subst d2; by destruct (disk_contains_key key d)).
    unfold disk_named. rewrite H. subst d1. destruct (is_delete r); cbn; intros k r' Hk.
    - apply lookup_delete_Some in Hk as [Hne Hk]. by apply Hd.
    - destruct (decide (k = key)) as [->|Hne]; [rewrite lookup_insert_eq in Hk; by simplify_eq|].
      rewrite lookup_insert_ne in Hk by done. by apply Hd. }
  destruct (_ <=? _); [by apply flush_kept|done].
Qed.

Lemma disk_remove_named key d : staged_but key d -> disk_named (disk_remove key d).2.
Proof.
  intros Hd. unfold disk_remove, st_bind. destruct (disk_get key d) as [x d1] eqn:E.
  assert (H1 : staging d1 = staging d).
  { revert E. unfold disk_get. destruct (staging d !! key); [by intros [= <- <-]|].
    destruct (index d !! key) as [e|]; [|by intros [= <- <-]]. unfold record_from_entry, load_batch, st_bind, st_ret, st_lift.
    destruct (loc e); [|by intros [= <- <-]]. destruct (find _ _) as [[]|]; [by destruct (_ <=? _); intros [= <- <-]|].
    destruct (res_bind _ _); [destruct (_ <=? _)|..]; by intros [= <- <-]. }
  assert (Hnone : staging d !! key = None -> disk_named d1).
  { intros Hk k r. rewrite H1. intros Hr. apply Hd; [congruence|done]. }
  assert (Hsome : forall r, staging d !! key = Some r -> x = Ok (Some r)).
  { intros r Hr. revert E. unfold disk_get. rewrite Hr. by intros [= <- <-]. }
  assert (Hx : (exists r, x = Ok (Some r)) \/ disk_named d1).
  { destruct (staging d !! key) as [r|] eqn:Er; [left; exists r; by apply Hsome|right; by apply Hnone]. }
  destruct x as [[r|]|e|]; cbn; [|by destruct Hx as [[? [=]]|]..].
  intros k r' Hk. cbn in Hk. apply lookup_delete_Some in Hk as [Hne Hk]. rewrite H1 in Hk. by apply Hd.
Qed.

(** ** The map *)
Lemma on_disk_kept {A} (m : st DiskMap A) : kept disk_named m -> kept spill_named (on_disk m).
Proof.
  intros Hm s [H1 H2]. unfold on_disk. destruct (disk s) as [d|] eqn:E; [|by split; [|intros ? ?; cbn in *; congruence]].
  specialize (Hm d (H2 d eq_refl)). destruct (m d) as [x d']. by split; [|intros ? [= <-]].
Qed.

Lemma ensure_disk_kept : kept spill_named ensure_disk.
Proof.
  intros s [H1 H2]. unfold ensure_disk. destruct (negb _); [done|]. destruct (disk s) as [d|] eqn:E; [by split; [|intros ? ?; apply H2; cbn in *; congruence]|].
  unfold disk_create. destruct (db_open _); cbn; [|by split; [|intros ? ?; cbn in *; congruence]]. by split; [|intros ? [= <-]].
Qed.

Lemma repoint_named victim compact s ik : spill_named s -> spill_named (repoint victim compact s ik).
Proof.
  intros [H1 H2]. unfold repoint. destruct (in_memory s !! ik.2) as [r|] eqn:E; [|done]. split; [|done]. cbn.
  apply map_Forall_insert_2; [|done]. by apply (H1 ik.2 r).
Qed.

Lemma compact_kept victim keys rows : kept spill_named (compact_victim_batch victim keys rows).
Proof.
  intros s Hs. unfold compact_victim_batch. destruct (map_err _ _) as [b| |]; [|done..]. cbn.
  assert (H : spill_named (set_heap (heap s ++ [b]) s)) by done. revert H. generalize (set_heap (heap s ++ [b]) s).
  induction (zip _ keys) as [|ik l IH]; intros s' H; [done|]. cbn. by apply IH, repoint_named.
Qed.

Lemma take_spilled_named keys : forall acc s, (forall kr, kr ∈ acc -> named kr.1 kr.2) -> spill_named s ->
  let '(sp, s') := foldl take_spilled (acc, s) keys in (forall kr, kr ∈ sp -> named kr.1 kr.2) /\ spill_named s'.
Proof.
  induction keys as [|k keys IH]; intros acc s Ha Hs; [done|]. cbn [foldl take_spilled].
  destruct (in_memory s !! k) as [r|] eqn:E; [|by apply IH]. destruct Hs as [H1 H2]. apply IH.
  - intros kr [Hkr| ->%list_elem_of_singleton]%elem_of_app; [by apply Ha|by apply H1].
  - split; [|done]. by apply map_Forall_delete.
Qed.

Lemma spill_victim_kept keys : kept spill_named (spill_victim_batch keys).
Proof.
  intros s Hs. unfold spill_victim_batch. pose proof (take_spilled_named keys [] s) as H.
  destruct (foldl take_spilled ([], s) keys) as [sp s']. destruct H as [Hsp Hs']; [by intros kr ?%not_elem_of_nil|done|].
  apply kept_bind; [apply ensure_disk_kept|intros _|done]. apply kept_bind; [|intros _; apply on_disk_kept, flush_kept].
  apply kept_iter. intros kr Hkr. apply on_disk_kept. intros d Hd. apply disk_put_named; [|by apply Hsp].
  intros k r _. apply Hd.
Qed.

Lemma evict_loop_kept target l : kept spill_named (evict_loop target l).
Proof.
  induction l as [|[ptr v] l IH]; cbn; [apply kept_ret|]. intros s Hs. destruct (_ <=? target); [done|].
  apply kept_bind; [|intros _; apply IH|done]. unfold evict_victim.
  destruct (f64_lt _ _); [apply compact_kept|apply spill_victim_kept].
Qed.

Lemma track_peak_kept : kept spill_named (st_modify track_peak).
Proof. apply kept_modify. intros s Hs. unfold track_peak. by destruct (_ <? _). Qed.

Lemma evict_kept target : kept spill_named (evict_source_batches_until target).
Proof. intros s Hs. apply (kept_bind spill_named); [apply evict_loop_kept|intros _; apply track_peak_kept|done]. Qed.

Lemma enforce_kept : kept spill_named enforce_memory_limits.
Proof.
  intros s Hs. unfold enforce_memory_limits. apply kept_bind; [|intros _|done].
  - destruct (over_budget s); [apply evict_kept|apply kept_ret].
  - intros s' Hs'. unfold enforce_peak_cap. destruct (max_peak_in_memory_size s') as [cap|]; [|done]. destruct (_ <=? cap); [done|].
    apply kept_bind; [apply evict_kept|intros _|done]. apply kept_bind; [apply kept_get|intros s1]. destruct (_ <? _); auto with kept.
Qed.

Lemma compact_sparse_kept t : kept spill_named (compact_sparse_batches t).
Proof.
  intros s Hs. apply (kept_bind spill_named); [|intros _; apply track_peak_kept|done]. apply kept_iter. intros g _. unfold compact_group.
  destruct (_ =? 0); [apply kept_ret|]. destruct (f64_ge _ _); [apply kept_ret|apply compact_kept].
Qed.

Lemma spill_get_kept key : kept spill_named (spill_get key).
Proof.
  intros s Hs. unfold spill_get. destruct (in_memory s !! key); [done|]. destruct (disk s); [|done].
  by apply (on_disk_kept _ (disk_get_kept key)).
Qed.

Lemma spill_get_named key s r s' : P key key -> spill_named s -> spill_get key s = (Ok (Some r), s') -> is_delete r = false -> named key r.
Proof.
  intros Hk [H1 H2]. unfold spill_get. destruct (in_memory s !! key) as [r0|] eqn:E; [intros [= <- <-] _; by apply H1|].
  destruct (disk s) as [d|] eqn:Ed; [|done]. unfold on_disk. rewrite Ed. destruct (disk_get key d) as [x d'] eqn:Eg.
  intros [= -> <-]. apply (disk_get_named key d r d' Hk (H2 d eq_refl) Eg).
Qed.

(** ** Operations that change the entry of a key *)

(** What is held under other keys; of the key itself nothing is staged that memory holds. *)
Record named_but (key : string) (s : SpillMap) : Prop := {
  nb_memory k r : k <> key -> in_memory s !! k = Some r -> named k r;
  nb_staged d : disk s = Some d -> staged_but key d;
  nb_once d : disk s = Some d -> is_Some (in_memory s !! key) -> staging d !! key = None
}.

Lemma staged_all key d : staged_but key d -> staging d !! key = None -> disk_named d.
Proof. intros Hd Hk k r Hr. apply Hd; [congruence|done]. Qed.

Lemma grown_named key r s : named_but key s -> named key r -> (forall d, disk s = Some d -> staging d !! key = None) ->
  spill_named (grown key r s).2.
Proof.
  intros [H1 H2 H3] Hr Hd. unfold grown. apply enforce_kept, (track_peak_kept (set_in_memory _ _)). split; cbn.
  - intros k r' Hk. destruct (decide (k = key)) as [->|Hne]; [rewrite lookup_insert_eq in Hk; by simplify_eq|].
    rewrite lookup_insert_ne in Hk by done. by apply H1.
  - intros d E. eapply staged_all; [by apply H2|by apply Hd].
Qed.

Lemma spill_insert_named key r s : named_but key s -> named key r -> spill_named (spill_insert key r s).2.
Proof.
  intros Hs Hr. pose proof Hs as [H1 H2 H3]. unfold spill_insert. destruct (in_memory s !! key) as [r0|] eqn:E.
  { apply grown_named; [by destruct Hs|done|]. cbn. intros d Hd. apply H3; [done|by eexists]. }
  assert (Hmem : map_Forall named (in_memory s)) by (intros k r' Hk; apply H1; [congruence|done]).
  assert (Hput : forall s0, in_memory s0 = in_memory s -> (forall d, disk s0 = Some d -> staged_but key d) ->
    spill_named (on_disk (disk_put key r) s0).2).
  { intros s0 Hm Hd. unfold on_disk. destruct (disk s0) as [d|] eqn:Ed; [|split; [cbn; by rewrite Hm|intros ? ?; cbn in *; congruence]].
    pose proof (disk_put_named key r d (Hd d eq_refl) Hr) as Hp. destruct (disk_put key r d) as [x d']. split; cbn; [by rewrite Hm|].
    by intros ? [= <-]. }
  destruct (match disk s with Some d => disk_contains_key key d | None => false end) eqn:Ec; [by apply Hput|].
  destruct (_ && _).
  - unfold st_bind, ensure_disk. destruct (negb _); [split; [done|]|].
    { intros d Hd. cbn in Hd. rewrite Hd in Ec. eapply staged_all; [by apply H2|]. unfold disk_contains_key in Ec.
      apply orb_false_iff in Ec as [Ec _]. apply bool_decide_eq_false in Ec. by apply eq_None_not_Some. }
    destruct (disk s) as [d|] eqn:Ed; [apply Hput; [done|by rewrite Ed]|]. unfold disk_create. destruct (db_open _); cbv beta iota.
    + apply (Hput (set_disk _ _ s)); [done|]. intros ? [= <-]. by intros k r' _ ?.
    + split; [done|intros ? ?; cbn in *; congruence].
  - apply grown_named; [done|done|]. intros d Hd. rewrite Hd in Ec. unfold disk_contains_key in Ec.
    apply orb_false_iff in Ec as [Ec _]. apply bool_decide_eq_false in Ec. by apply eq_None_not_Some.
Qed.

Lemma spill_remove_named key s : named_but key s -> spill_named (spill_remove key s).2.
Proof.
  intros [H1 H2 H3]. unfold spill_remove. destruct (in_memory s !! key) as [r|] eqn:E.
  - split; cbn.
    + intros k r' [Hne Hk]%lookup_delete_Some. by apply H1.
    + intros d Hd. eapply staged_all; [by apply H2|by apply H3].
  - assert (Hmem : map_Forall named (in_memory s)) by (intros k r' Hk; apply H1; [congruence|done]).
    destruct (disk s) as [d|] eqn:Ed; [|by split; [|intros ? ?; cbn in *; congruence]]. unfold on_disk. rewrite Ed.
    pose proof (disk_remove_named key d (H2 d eq_refl)) as Hd. destruct (disk_remove key d) as [x d'].
    by split; [|intros ? [= <-]].
Qed.
End keys.
