(* ===== verification/SpillSpec.v ===== *)
(** The spillable map is a map, and its accounting is exact.

    On a working disk tier, whatever is compacted or spilled, the operations of
    [SpillMap] do what they do on a plain map from keys to records, up to the batch a
    row is held in and, once spilled, its record's key ([spillable_map_is_a_map]); the bytes it tracks are those its
    entries retain ([retained_bytes_exact]); and a peak cap is kept or its error
    returned ([peak_cap_kept]). *)
From Stdlib Require Import ZArith Ascii.
From stdpp Require Import base gmap sets list strings sorting numbers fin_maps fin_map_dom.
From S2P Require Import Prelude RustStr StorageReader RecordBatches LogFormat OrderingValues RecordMerger ArrowKernels RowSerde Float64 DiskMap SpillMap SpillKeys.
Local Open Scope st_scope.
Local Open Scope Z_scope.

(** * Accounting *)
Section accounting.
Context {AB : ArrowBatch} {AR : ArrowRows} {AK : ArrowKernels} {AM : ArrowMemory}.

Abbreviation Item := (string * BufferedRecord)%type.

Definition item_ptr (kr : Item) : option nat := match payload kr.2 with BatchRef a _ => Some (as_ptr a) | _ => None end.

Definition ref_count (ptr : nat) (l : list Item) : Z := Z.of_nat (length (filter (fun kr => item_ptr kr = Some ptr) l)).

Definition ptr_bytes (heap : list RecordBatch) (ptr : nat) : Z := default 0 (array_memory_size <$> heap !! ptr).

Definition item_bytes (kr : Item) : Z := entry_key_overhead_bytes kr.1 + owned_payload_bytes kr.2.

Definition items_bytes (l : list Item) : Z := foldr (fun kr n => item_bytes kr + n) 0 l.

Definition pins_bytes (m : gmap nat PinnedBatch) : Z := map_fold (fun _ pin n => batch_bytes pin + n) 0 m.

(** What the entries retain: every batch they refer to once, and what they own. *)
Definition retained_by (heap : list RecordBatch) (m : gmap string BufferedRecord) : Z :=
  let l := map_to_list m in
  foldr (fun ptr n => ptr_bytes heap ptr + n) 0 (remove_dups (omap item_ptr l)) + items_bytes l.

Record pins_ok (heap : list RecordBatch) (l : list Item) (p : PinnedBatches) : Prop := {
  pk_refs ptr : by_ptr p !! ptr = if ref_count ptr l =? 0 then None else Some (mkPin (ptr_bytes heap ptr) (ref_count ptr l));
  pk_total : pins_total_bytes p = pins_bytes (by_ptr p)
}.

(** Sizes small enough for the sums to fit. *)
Record sizes (S N : Z) : Prop := {
  sz_batch b : 0 <= array_memory_size b <= S;
  sz_fit : N * (3 * S + ENTRY_OVERHEAD_BYTES) <= u64_max
}.

Lemma ref_count_nonneg ptr l : 0 <= ref_count ptr l.
Proof. unfold ref_count. lia. Qed.

Lemma ref_count_cons ptr kr l :
  ref_count ptr (kr :: l) = (if decide (item_ptr kr = Some ptr) then 1 else 0) + ref_count ptr l.
Proof. unfold ref_count. rewrite filter_cons. destruct (decide _); cbn [length]; lia. Qed.

Lemma ref_count_zero ptr l : ref_count ptr l = 0 <-> ptr ∉ omap item_ptr l.
Proof.
  induction l as [|kr l IH]; [split; [intros _; apply not_elem_of_nil|done]|]. rewrite ref_count_cons. cbn [omap list_omap].
  pose proof (ref_count_nonneg ptr l). destruct (decide (item_ptr kr = Some ptr)) as [->|Hne].
  - split; [lia|]. intros []. by left.
  - destruct (item_ptr kr) as [q|]; [|done]. rewrite not_elem_of_cons. naive_solver lia.
Qed.

#[export] Instance ref_count_perm ptr : Proper ((≡ₚ) ==> eq) (ref_count ptr).
Proof. intros l l' H. unfold ref_count. by rewrite H. Qed.

#[export] Instance items_bytes_perm : Proper ((≡ₚ) ==> eq) items_bytes.
Proof. intros l l' H. unfold items_bytes. induction H; cbn; lia. Qed.

#[export] Instance pins_ok_perm heap : Proper ((≡ₚ) ==> eq ==> iff) (pins_ok heap).
Proof. intros l l' H p _ <-. split; intros [H1 H2]; (split; [|done]); intros ptr; rewrite H1, (ref_count_perm ptr _ _ H); reflexivity. Qed.

Lemma pins_bytes_insert ptr pin m : m !! ptr = None -> pins_bytes (<[ptr := pin]> m) = batch_bytes pin + pins_bytes m.
Proof. intros H. unfold pins_bytes. rewrite map_fold_insert_L; [done|intros; lia|done]. Qed.

Lemma pins_bytes_delete ptr pin m : m !! ptr = Some pin -> pins_bytes m = batch_bytes pin + pins_bytes (delete ptr m).
Proof. intros H. unfold pins_bytes. rewrite (map_fold_delete_L _ _ ptr pin m); [done|intros; lia|done]. Qed.

Lemma pins_bytes_nonneg (m : gmap nat PinnedBatch) : (forall ptr pin, m !! ptr = Some pin -> 0 <= batch_bytes pin) -> 0 <= pins_bytes m.
Proof.
  induction m as [|ptr pin m Hp IH] using map_ind; intros H; [done|]. rewrite pins_bytes_insert by done.
  assert (0 <= batch_bytes pin) by (apply (H ptr); apply lookup_insert_eq).
  assert (0 <= pins_bytes m); [|lia]. apply IH. intros q x Hq. apply (H q). rewrite lookup_insert_ne; [done|congruence].
Qed.

(** The pins of entries are those of the distinct batches, in any order. *)
Lemma pins_bytes_ptrs heap (ptrs : list nat) : forall m : gmap nat PinnedBatch, NoDup ptrs ->
  (forall ptr, ptr ∈ ptrs <-> is_Some (m !! ptr)) ->
  (forall ptr pin, m !! ptr = Some pin -> batch_bytes pin = ptr_bytes heap ptr) ->
  pins_bytes m = foldr (fun ptr n => ptr_bytes heap ptr + n) 0 ptrs.
Proof.
  induction ptrs as [|ptr ptrs IH]; intros m Hn Hin Hb.
  - assert (m = ∅) as ->; [|done]. apply map_empty. intros ptr. apply eq_None_not_Some. rewrite <- Hin. apply not_elem_of_nil.
  - apply list.NoDup_cons in Hn as [Hp Hn]. destruct (proj1 (Hin ptr)) as [pin Hpin]; [by left|].
    rewrite (pins_bytes_delete ptr pin m Hpin), (Hb ptr pin Hpin). cbn [foldr]. f_equal. apply IH; [done| |].
    + intros q. destruct (decide (q = ptr)) as [->|]; [rewrite lookup_delete_eq; split; [done|by intros []]|].
      rewrite lookup_delete_ne, <- Hin by done. rewrite elem_of_cons. naive_solver.
    + intros q x [_ Hq]%lookup_delete_Some. by apply Hb.
Qed.

Lemma pins_ok_ptrs heap l p : pins_ok heap l p ->
  pins_total_bytes p = foldr (fun ptr n => ptr_bytes heap ptr + n) 0 (remove_dups (omap item_ptr l)).
Proof.
  intros [H1 ->]. apply pins_bytes_ptrs; [apply NoDup_remove_dups| |].
  - intros ptr. rewrite elem_of_remove_dups, H1. pose proof (ref_count_zero ptr l).
    destruct (Z.eqb_spec (ref_count ptr l) 0); [split; [naive_solver|by intros []]|].
    split; [by eexists|]. intros _. destruct (decide (ptr ∈ omap item_ptr l)); naive_solver.
  - intros ptr pin. rewrite H1. destruct (_ =? _); [done|]. by intros [= <-].
Qed.

Lemma remove_dups_length {A} `{EqDecision A} (l : list A) : (length (remove_dups l) <= length l)%nat.
Proof. induction l as [|a l IH]; cbn; [done|]. case_decide; cbn; lia. Qed.

Lemma sizes_nonneg S N : sizes S N -> RecordBatch -> 0 <= S.
Proof. intros H b. pose proof (sz_batch _ _ H b). lia. Qed.

Lemma ptr_bytes_bound S N heap ptr : sizes S N -> 0 <= S -> 0 <= ptr_bytes heap ptr <= S.
Proof. intros H HS. unfold ptr_bytes. destruct (heap !! ptr); cbn; [apply H|lia]. Qed.

Lemma pins_total_bound S N heap l p : sizes S N -> 0 <= S -> pins_ok heap l p ->
  0 <= pins_total_bytes p <= Z.of_nat (length l) * S.
Proof.
  intros H HS Hp. rewrite (pins_ok_ptrs _ _ _ Hp).
  assert (length (remove_dups (omap item_ptr l)) <= length l)%nat.
  { etrans; [apply remove_dups_length|]. clear. induction l as [|kr l IH]; cbn; [done|]. destruct (item_ptr kr); cbn; lia. }
  revert H0. generalize (remove_dups (omap item_ptr l)). intros ptrs Hl.
  assert (0 <= foldr (fun ptr n => ptr_bytes heap ptr + n) 0 ptrs <= Z.of_nat (length ptrs) * S); [|nia].
  clear Hl. induction ptrs as [|ptr ptrs IH]; cbn [foldr length]; [lia|]. pose proof (ptr_bytes_bound S N heap ptr H HS). nia.
Qed.

Lemma pins_add_ref heap l p (a : Arc) kr S N : sizes S N -> 0 <= S -> pins_ok heap l p ->
  heap !! as_ptr a = Some (pointee a) -> item_ptr kr = Some (as_ptr a) -> Z.of_nat (length l) + 1 <= N ->
  pins_ok heap (kr :: l) (add_ref a p).
Proof.
  intros HS H0 Hp Ha Hkr Hl. pose proof (pins_total_bound S N heap l p HS H0 Hp) as Hb. destruct Hp as [H1 H2].
  pose proof (sz_fit _ _ HS). unfold ENTRY_OVERHEAD_BYTES in *. pose proof (ref_count_nonneg (as_ptr a) l).
  assert (Hpt : ptr_bytes heap (as_ptr a) = array_memory_size (pointee a)) by (unfold ptr_bytes; by rewrite Ha).
  pose proof (sz_batch _ _ HS (pointee a)).
  unfold add_ref. assert (Hx := H1 (as_ptr a)). destruct (Z.eqb_spec (ref_count (as_ptr a) l) 0) as [E|E]; rewrite Hx; split; cbn.
  - intros ptr. rewrite ref_count_cons, Hkr. destruct (decide (ptr = as_ptr a)) as [->|Hne].
    + rewrite lookup_insert_eq, decide_True, E, Hpt by done. done.
    + rewrite lookup_insert_ne by done. rewrite H1. rewrite decide_False by congruence. done.
  - rewrite pins_bytes_insert by done. cbn. unfold saturating_add. rewrite <- H2. nia.
  - intros ptr. rewrite ref_count_cons, Hkr. destruct (decide (ptr = as_ptr a)) as [->|Hne].
    + rewrite lookup_insert_eq, decide_True by done. destruct (Z.eqb_spec (1 + ref_count (as_ptr a) l) 0); [lia|]. do 2 f_equal. lia.
    + rewrite lookup_insert_ne by done. rewrite H1. rewrite decide_False by congruence. done.
  - rewrite H2. symmetry. rewrite <- insert_delete_eq, pins_bytes_insert by apply lookup_delete_eq. cbn.
    by rewrite (pins_bytes_delete _ _ _ Hx).
Qed.

Lemma pins_remove_ref heap l p ptr kr S N : sizes S N -> 0 <= S -> pins_ok heap (kr :: l) p -> item_ptr kr = Some ptr ->
  pins_ok heap l (remove_ref ptr p).
Proof.
  intros HS H0 [H1 H2] Hkr. assert (Hx := H1 ptr). rewrite ref_count_cons, decide_True in Hx by done.
  pose proof (ref_count_nonneg ptr l). destruct (Z.eqb_spec (1 + ref_count ptr l) 0) as [|_]; [lia|].
  unfold remove_ref. rewrite Hx. cbn [live_refs batch_bytes]. replace (1 + ref_count ptr l - 1) with (ref_count ptr l) by lia.
  destruct (Z.eqb_spec (ref_count ptr l) 0) as [E|E]; split; cbn.
  - intros q. destruct (decide (q = ptr)) as [->|]; [by rewrite lookup_delete_eq, E|].
    rewrite lookup_delete_ne, H1, ref_count_cons, Hkr, decide_False by congruence. done.
  - rewrite H2, (pins_bytes_delete _ _ _ Hx). cbn. unfold saturating_sub.
    assert (0 <= pins_bytes (delete ptr (by_ptr p))); [|lia].
    apply pins_bytes_nonneg. intros q x [_ Hq]%lookup_delete_Some. rewrite H1 in Hq. destruct (_ =? _); [done|].
    injection Hq as <-. cbn. by apply (ptr_bytes_bound S N).
  - intros q. destruct (decide (q = ptr)) as [->|].
    + rewrite lookup_insert_eq. destruct (Z.eqb_spec (ref_count ptr l) 0); [done|]. do 2 f_equal.
    + rewrite lookup_insert_ne, H1, ref_count_cons, Hkr, decide_False by congruence. done.
  - rewrite H2. symmetry. rewrite <- insert_delete_eq, pins_bytes_insert by apply lookup_delete_eq. cbn.
    by rewrite (pins_bytes_delete _ _ _ Hx).
Qed.

Lemma pins_other heap l p kr : item_ptr kr = None -> pins_ok heap (kr :: l) p <-> pins_ok heap l p.
Proof.
  intros Hkr. split; intros [H1 H2]; (split; [|done]); intros ptr; specialize (H1 ptr);
    rewrite ref_count_cons, Hkr, decide_False in *; done.
Qed.

Definition arc_in (heap : list RecordBatch) (r : BufferedRecord) : Prop :=
  match payload r with BatchRef a _ => heap !! as_ptr a = Some (pointee a) | _ => True end.

(** An entry added, and an entry removed. *)
Lemma pins_add heap l p k r S N : sizes S N -> 0 <= S -> pins_ok heap l p -> arc_in heap r -> Z.of_nat (length l) + 1 <= N ->
  pins_ok heap ((k, r) :: l) (match payload r with BatchRef a _ => add_ref a p | _ => p end).
Proof.
  intros HS H0 Hp Ha Hl. unfold arc_in in Ha. destruct (payload r) as [a i|b|] eqn:E.
  - eapply pins_add_ref; try done. unfold item_ptr. cbn. by rewrite E.
  - apply pins_other; [|done]. unfold item_ptr. cbn. by rewrite E.
  - apply pins_other; [|done]. unfold item_ptr. cbn. by rewrite E.
Qed.

Lemma pins_remove heap l p k r S N : sizes S N -> 0 <= S -> pins_ok heap ((k, r) :: l) p ->
  pins_ok heap l (match payload r with BatchRef a _ => remove_ref_to a p | _ => p end).
Proof.
  intros HS H0 Hp. destruct (payload r) as [a i|b|] eqn:E.
  - eapply pins_remove_ref; try done. unfold item_ptr. cbn. by rewrite E.
  - apply pins_other in Hp; [done|]. unfold item_ptr. cbn. by rewrite E.
  - apply pins_other in Hp; [done|]. unfold item_ptr. cbn. by rewrite E.
Qed.

Lemma pins_heap heap heap' l p : heap `prefix_of` heap' -> (forall kr, kr ∈ l -> arc_in heap kr.2) ->
  pins_ok heap l p -> pins_ok heap' l p.
Proof.
  intros [h ->] Hl [H1 H2]. split; [|done]. intros ptr. rewrite H1. pose proof (ref_count_zero ptr l) as Hz.
  destruct (Z.eqb_spec (ref_count ptr l) 0); [done|]. do 2 f_equal. unfold ptr_bytes.
  destruct (decide (ptr ∈ omap item_ptr l)) as [Hin|]; [|naive_solver].
  apply list_elem_of_omap in Hin as ([k r] & Hkr & Hp). specialize (Hl _ Hkr). unfold arc_in, item_ptr in *. cbn in *.
  destruct (payload r) as [a i| |]; [|done..]. injection Hp as <-. by rewrite (lookup_app_l_Some _ _ _ _ Hl), Hl.
Qed.

Lemma items_bytes_cons kr l : items_bytes (kr :: l) = item_bytes kr + items_bytes l.
Proof. done. Qed.

Definition short_key (S : Z) (k : string) : Prop := Z.of_nat (String.length k) <= S.

Lemma item_bytes_bound S N kr : sizes S N -> 0 <= S -> short_key S kr.1 -> 0 <= item_bytes kr <= 2 * S + ENTRY_OVERHEAD_BYTES.
Proof.
  intros HS H0 Hk. unfold item_bytes, entry_key_overhead_bytes, owned_payload_bytes, short_key, ENTRY_OVERHEAD_BYTES in *.
  destruct (payload kr.2) as [a i|b|]; [lia| |lia]. pose proof (sz_batch _ _ HS b). lia.
Qed.

Lemma items_bytes_bound S N l : sizes S N -> 0 <= S -> (forall kr, kr ∈ l -> short_key S kr.1) ->
  0 <= items_bytes l <= Z.of_nat (length l) * (2 * S + ENTRY_OVERHEAD_BYTES).
Proof.
  intros HS H0. induction l as [|kr l IH]; intros Hl; [done|]. rewrite items_bytes_cons. cbn [length].
  pose proof (item_bytes_bound S N kr HS H0 (Hl kr ltac:(by left))). destruct IH; [intros x Hx; apply Hl; by right|]. nia.
Qed.
End accounting.

(** * The invariant *)
Section spec.
Context {AB : ArrowBatch} {AR : ArrowRows} {AK : ArrowKernels} {AL : ArrowLaws} {AM : ArrowMemory} {AI : ArrowIpc} {IL : IpcLaws}
  {HI : HashIter} {HL : HashIterLaws} {SD : SpillDb} {SL : SpillDbLaws}.

(** The schemas of the records; and, where accounting is looked at, the bounds on sizes. *)
Context (universe : list Schema) (Huniverse : Z.of_nat (length universe) <= 2 ^ 32).
Context (fits : Prop) (S N : Z) (HS : fits -> sizes S N /\ 0 <= S).

Definition record_ok (heap : list RecordBatch) (k : string) (r : BufferedRecord) : Prop :=
  (exists v, record_view r = Some v /\ forall s, view_schema v = Some s -> s ∈ universe) /\ arc_in heap r /\ (fits -> short_key S k).

Definition account_ok (heap : list RecordBatch) (m : gmap string BufferedRecord) (p : PinnedBatches) (n : Z) : Prop :=
  pins_ok heap (map_to_list m) p /\ n = items_bytes (map_to_list m).

Record spill_ok (s : SpillMap) : Prop := {
  so_mem : map_Forall (record_ok (heap s)) (in_memory s);
  so_disk d : disk s = Some d -> disk_ok universe d /\ forall k, is_Some (in_memory s !! k) -> disk_view d k = None;
  so_account : fits -> account_ok (heap s) (in_memory s) (pinned s) (owned_and_overhead s);
  so_size : fits -> Z.of_nat (size (in_memory s)) <= N
}.

Definition spill_view (s : SpillMap) (k : string) : option View :=
  match in_memory s !! k with
  | Some r => record_view r
  | None => match disk s with Some d => disk_view d k | None => None end
  end.

(** A step inside an operation: nothing is seen of it. *)
Record moved (s s' : SpillMap) : Prop := {
  mv_ok : spill_ok s';
  mv_view k : spill_view s' k = spill_view s k;
  mv_cap : max_peak_in_memory_size s' = max_peak_in_memory_size s;
  mv_heap : heap s `prefix_of` heap s';
  mv_size : (size (in_memory s') <= size (in_memory s))%nat
}.

Lemma moved_refl s : spill_ok s -> moved s s.
Proof. by split. Qed.

Lemma moved_trans s1 s2 s3 : moved s1 s2 -> moved s2 s3 -> moved s1 s3.
Proof.
  intros [A1 A2 A3 A4 A5] [B1 B2 B3 B4 B5]. split; [done|intros k; by rewrite B2|congruence|by etrans|lia].
Qed.

Definition pins_plus (r : BufferedRecord) (p : PinnedBatches) : PinnedBatches := match payload r with BatchRef a _ => add_ref a p | _ => p end.
Definition pins_minus (r : BufferedRecord) (p : PinnedBatches) : PinnedBatches := match payload r with BatchRef a _ => remove_ref_to a p | _ => p end.

Lemma map_to_list_split {A} (m : gmap string A) k r : m !! k = Some r -> map_to_list m ≡ₚ (k, r) :: map_to_list (delete k m).
Proof. intros H. by rewrite map_to_list_delete. Qed.

Lemma map_to_list_replace {A} (m : gmap string A) k r : map_to_list (<[k := r]> m) ≡ₚ (k, r) :: map_to_list (delete k m).
Proof. rewrite <- insert_delete_eq. apply map_to_list_insert, lookup_delete_eq. Qed.

Lemma mem_items h m : map_Forall (record_ok h) m ->
  (forall kr, kr ∈ map_to_list m -> arc_in h kr.2) /\ (fits -> forall kr, kr ∈ map_to_list m -> short_key S kr.1).
Proof. intros H. split; [intros [k r] Hk%elem_of_map_to_list|intros Hf [k r] Hk%elem_of_map_to_list]; by apply (H k r). Qed.

Lemma account_insert h m p n k r : fits -> map_Forall (record_ok h) m -> account_ok h m p n -> m !! k = None -> record_ok h k r ->
  Z.of_nat (size m) + 1 <= N ->
  account_ok h (<[k := r]> m) (pins_plus r p) (saturating_add (saturating_add n (entry_key_overhead_bytes k)) (owned_payload_bytes r)).
Proof.
  intros Hf Hm [Hp ->] Hk (_ & Ha & Hsh) Hl. destruct (HS Hf) as [Hs H0]. destruct (mem_items h m Hm) as [_ Hkeys].
  specialize (Hkeys Hf). specialize (Hsh Hf). assert (map_to_list (<[k := r]> m) ≡ₚ (k, r) :: map_to_list m) as He by by apply map_to_list_insert.
  rewrite <- (length_map_to_list m) in Hl. split.
  - rewrite He. by eapply pins_add.
  - rewrite He, items_bytes_cons. pose proof (items_bytes_bound S N _ Hs H0 Hkeys) as Hb.
    pose proof (item_bytes_bound S N (k, r) Hs H0 Hsh) as Hi. pose proof (sz_fit _ _ Hs) as Hfit.
    assert (0 <= entry_key_overhead_bytes k) by (unfold entry_key_overhead_bytes, ENTRY_OVERHEAD_BYTES; lia).
    assert (0 <= owned_payload_bytes r) by (unfold owned_payload_bytes; destruct (payload r); [lia|apply Hs|lia]).
    unfold item_bytes, saturating_add in *. cbn [fst snd] in *.
    assert ((Z.of_nat (length (map_to_list m)) + 1) * (2 * S + ENTRY_OVERHEAD_BYTES) <= N * (3 * S + ENTRY_OVERHEAD_BYTES));
      [unfold ENTRY_OVERHEAD_BYTES in *; nia|]. lia.
Qed.

Lemma account_delete h m p n k r : fits -> map_Forall (record_ok h) m -> account_ok h m p n -> m !! k = Some r ->
  account_ok h (delete k m) (pins_minus r p) (saturating_sub (saturating_sub n (entry_key_overhead_bytes k)) (owned_payload_bytes r)).
Proof.
  intros Hf Hm [Hp ->] Hk. destruct (HS Hf) as [Hs H0]. pose proof (map_to_list_split m k r Hk) as He.
  assert (Hm' : map_Forall (record_ok h) (delete k m)) by by apply map_Forall_delete.
  destruct (mem_items h _ Hm') as [_ Hkeys]. specialize (Hkeys Hf). split.
  - rewrite He in Hp. by eapply pins_remove.
  - rewrite He, items_bytes_cons. pose proof (items_bytes_bound S N _ Hs H0 Hkeys) as Hb. unfold item_bytes, saturating_sub. cbn [fst snd].
    assert (0 <= owned_payload_bytes r) by (unfold owned_payload_bytes; destruct (payload r); [lia|apply Hs|lia]). lia.
Qed.

(** * Adding and removing entries of the in-memory tier *)
Lemma record_ok_heap h h' k r : h `prefix_of` h' -> record_ok h k r -> record_ok h' k r.
Proof.
  intros [l ->] (Hv & Ha & Hs). split; [done|]. split; [|done]. unfold arc_in in *. destruct (payload r); [|done..].
  by apply lookup_app_l_Some.
Qed.

Lemma add_entry_ok s k r : spill_ok s -> in_memory s !! k = None -> record_ok (heap s) k r ->
  (forall d, disk s = Some d -> disk_view d k = None) -> (fits -> Z.of_nat (size (in_memory s)) + 1 <= N) ->
  spill_ok (set_in_memory (<[k := r]> (in_memory s)) (account_added k r s)).
Proof.
  intros [H1 H2 H3 H4] Hk Hr Hd Hl. split; cbn.
  - by apply map_Forall_insert_2.
  - intros d Hsd. destruct (H2 d Hsd) as [H5 H6]. split; [done|]. intros k' Hk'.
    destruct (decide (k' = k)) as [->|]; [by apply Hd|]. rewrite lookup_insert_ne in Hk' by done. by apply H6.
  - intros Hf. apply account_insert; try done; by apply H3 || by apply Hl.
  - intros Hf. rewrite map_size_insert_None by done. specialize (Hl Hf). lia.
Qed.

Lemma remove_entry_ok s k r : spill_ok s -> in_memory s !! k = Some r ->
  spill_ok (account_removed k r (set_in_memory (delete k (in_memory s)) s)).
Proof.
  intros [H1 H2 H3 H4] Hk. split; cbn.
  - by apply map_Forall_delete.
  - intros d Hd. destruct (H2 d Hd) as [H5 H6]. split; [done|]. intros k' [r' [_ Hk']%lookup_delete_Some]. apply H6. by eexists.
  - intros Hf. apply account_delete; [done..|by apply H3|done].
  - intros Hf. specialize (H4 Hf). rewrite map_size_delete. destruct (_ !! k); cbn; lia.
Qed.

(** An entry in the place of another. *)
Lemma replace_entry_ok s k r r' p n : spill_ok s -> in_memory s !! k = Some r -> record_ok (heap s) k r' ->
  (fits -> p = pins_plus r' (pins_minus r (pinned s))) ->
  (fits -> n = owned_and_overhead s - item_bytes (k, r) + item_bytes (k, r')) ->
  spill_ok (set_in_memory (<[k := r']> (in_memory s)) (set_account p n s)).
Proof.
  intros [H1 H2 H3 H4] Hk Hr Hp Hn. split; cbn.
  - by apply map_Forall_insert_2.
  - intros d Hd. destruct (H2 d Hd) as [H5 H6]. split; [done|]. intros k' Hk'. apply H6.
    destruct (decide (k' = k)) as [->|]; [by eexists|]. by rewrite lookup_insert_ne in Hk' by done.
  - intros Hf. specialize (Hp Hf). specialize (Hn Hf). subst p. specialize (H3 Hf).
    pose proof (account_delete _ _ _ _ _ _ Hf H1 H3 Hk) as H5.
    assert (Hsz : Z.of_nat (size (delete k (in_memory s))) + 1 <= N).
    { specialize (H4 Hf). rewrite map_size_delete, Hk. assert (size (in_memory s) <> 0%nat); [|lia].
      intros Hz%map_size_empty_inv. by rewrite Hz in Hk. }
    destruct (account_insert _ _ _ _ k r' Hf (map_Forall_delete _ _ _ H1) H5 (lookup_delete_eq _ _) Hr Hsz) as [H6 _].
    rewrite insert_delete_eq in H6. split; [done|]. destruct H3 as [_ H3].
    rewrite Hn, H3, map_to_list_replace, (map_to_list_split _ _ _ Hk), !items_bytes_cons. lia.
  - intros Hf. specialize (H4 Hf). rewrite map_size_insert_Some by (by eexists). lia.
Qed.

(** * Eviction *)

(** The entries of a source batch: their keys and rows. *)
Definition victim_in (s : SpillMap) (a : Arc) (keys : list string) (rows : list nat) : Prop :=
  NoDup keys /\ Forall2 (fun k i => exists r, in_memory s !! k = Some r /\ payload r = BatchRef a i) keys rows.

Lemma record_view_ref r a i v : payload r = BatchRef a i -> record_view r = Some v ->
  exists row, batch_rows (pointee a) !! i = Some row /\ v = ViewData (schema (pointee a)) row (ordering_value r).
Proof. unfold record_view. intros ->. destruct (_ !! i) as [row|]; [|done]. intros [= <-]. by exists row. Qed.

Lemma item_bytes_ref k r a i : payload r = BatchRef a i -> item_bytes (k, r) = entry_key_overhead_bytes k.
Proof. unfold item_bytes, owned_payload_bytes. cbn. intros ->. lia. Qed.

Lemma repoint_moved s a c k i j r : spill_ok s -> in_memory s !! k = Some r -> payload r = BatchRef a i ->
  heap s !! as_ptr c = Some (pointee c) -> schema (pointee c) = schema (pointee a) ->
  batch_rows (pointee c) !! j = batch_rows (pointee a) !! i ->
  moved s (repoint a c s (j, k)) /\ forall k', k' <> k -> in_memory (repoint a c s (j, k)) !! k' = in_memory s !! k'.
Proof.
  intros Hs Hk Hr Hc Hsch Hrow. assert (Hok := so_mem s Hs k r Hk). destruct Hok as ((v & Hv & Hu) & Ha & Hsh).
  destruct (record_view_ref r a i v Hr Hv) as (row & Hi & ->).
  unfold repoint. cbn [fst snd]. rewrite Hk. cbn zeta. set (r' := mkBuffered _ _ _).
  assert (Hv' : record_view r' = record_view r) by (unfold record_view, r'; cbn; by rewrite Hr, Hrow, Hi, Hsch).
  split; [|intros k' Hne; cbn; by rewrite lookup_insert_ne]. split.
  - apply (replace_entry_ok s k r r' (add_ref c (remove_ref_to a (pinned s))) (owned_and_overhead s)); try done.
    + split; [|split; [done|done]]. rewrite Hv'. eexists. by split.
    + intros _. unfold pins_plus, pins_minus. by rewrite Hr.
    + intros _. rewrite (item_bytes_ref k r a i Hr), (item_bytes_ref k r' c j) by done. lia.
  - intros k'. unfold spill_view. cbn. destruct (decide (k' = k)) as [->|]; [by rewrite lookup_insert_eq, Hk|].
    by rewrite lookup_insert_ne.
  - done.
  - done.
  - cbn. rewrite map_size_insert_Some; [done|by eexists].
Qed.

Lemma repoints_moved a c keys : forall j rows s, spill_ok s -> victim_in s a keys rows ->
  heap s !! as_ptr c = Some (pointee c) -> schema (pointee c) = schema (pointee a) ->
  (forall i r, rows !! i = Some r -> batch_rows (pointee c) !! (j + i)%nat = batch_rows (pointee a) !! r) ->
  moved s (foldl (repoint a c) s (zip (seq j (length keys)) keys)) /\
  forall k', k' ∉ keys -> in_memory (foldl (repoint a c) s (zip (seq j (length keys)) keys)) !! k' = in_memory s !! k'.
Proof.
  induction keys as [|k keys IH]; intros j rows s Hs [Hn Hf] Hc Hsch Hrows; [split; [by apply moved_refl|done]|].
  apply list.NoDup_cons in Hn as [Hk Hn]. inversion Hf as [|? i ? rows' (r & Hr & Hp) Hf']; subst.
  cbn [length seq zip zip_with foldl]. assert (Hij := Hrows 0%nat i eq_refl). rewrite Nat.add_0_r in Hij.
  destruct (repoint_moved s a c k i j r Hs Hr Hp Hc Hsch Hij) as [M1 Hother]. set (s1 := repoint a c s (j, k)) in *.
  destruct (IH (Datatypes.S j) rows' s1) as [M2 Hother2]; [apply M1| | |done| |].
  - split; [done|]. clear -Hf' Hk Hother. induction Hf' as [|k' i' keys rows (r & Hr & Hp) _ IH]; constructor.
    + rewrite Hother by (intros ->; apply Hk; by left). by exists r.
    + apply IH. intros Hin. apply Hk. by right.
  - destruct (mv_heap _ _ M1) as [l ->]. by apply lookup_app_l_Some.
  - intros i' r' Hi'. rewrite Nat.add_succ_comm. by apply (Hrows (Datatypes.S i')).
  - split; [by eapply moved_trans|]. intros k' [Hne Hni]%not_elem_of_cons. rewrite Hother2 by done. by apply Hother.
Qed.

Lemma alloc_moved b s : spill_ok s -> moved s (set_heap (heap s ++ [b]) s).
Proof.
  intros [H1 H2 H3 H4]. split; cbn; try done; [|by apply prefix_app_r].
  split; cbn; try done.
  - intros k r Hk. eapply record_ok_heap; [|by apply H1]. by apply prefix_app_r.
  - intros Hf. destruct (H3 Hf) as [H5 H6]. split; [|done]. eapply pins_heap; [|apply (mem_items _ _ H1)|done]. by apply prefix_app_r.
Qed.

Lemma compact_moved a keys rows s : spill_ok s -> victim_in s a keys rows ->
  exists s', compact_victim_batch a keys rows s = (Ok tt, s') /\ moved s s' /\ forall k, k ∉ keys -> in_memory s' !! k = in_memory s !! k.
Proof.
  intros Hs [Hn Hf]. unfold compact_victim_batch.
  assert (exists rs, Forall2 (fun i row => batch_rows (pointee a) !! i = Some row) rows rs) as [rs Hrs].
  { clear Hn. induction Hf as [|k i keys rows (r & Hr & Hp) _ IH]; [by exists []|]. destruct IH as [rs IH].
    destruct (so_mem s Hs k r Hr) as ((v & Hv & _) & _). destruct (record_view_ref r a i v Hp Hv) as (row & Hi & _).
    exists (row :: rs). by constructor. }
  destruct (interleave_rows (schema (pointee a)) [pointee a] ((fun r => (O, r)) <$> rows) rs) as (b & -> & Hsch & Hb);
    [done|by intros x ->%list_elem_of_singleton| |].
  { apply Forall2_fmap_l. eapply Forall2_impl; [exact Hrs|]. intros i row Hi. by exists (pointee a). }
  cbn [map_err spill_alloc]. set (c := mkArc _ b). set (s1 := set_heap _ s).
  destruct (repoints_moved a c keys 0 rows s1) as [M Hother]; [apply alloc_moved, Hs|done| |done| |].
  - cbn. by apply list_lookup_middle.
  - intros i r Hi. cbn. rewrite Hb. destruct (Forall2_lookup_l _ _ _ _ _ Hrs Hi) as (row & -> & ->). done.
  - eexists. split; [reflexivity|]. split; [|done]. eapply moved_trans; [apply alloc_moved, Hs|exact M].
Qed.

Lemma take_spilled_spec a keys : forall rows s acc, spill_ok s -> victim_in s a keys rows ->
  exists sp s', foldl take_spilled (acc, s) keys = (acc ++ sp, s') /\ spill_ok s' /\ fst <$> sp = keys /\
    (forall k r, (k, r) ∈ sp -> in_memory s !! k = Some r) /\
    (forall k, in_memory s' !! k = if decide (k ∈ keys) then None else in_memory s !! k) /\
    disk s' = disk s /\ heap s' = heap s /\ max_peak_in_memory_size s' = max_peak_in_memory_size s /\
    (size (in_memory s') <= size (in_memory s))%nat.
Proof.
  induction keys as [|k keys IH]; intros rows s acc Hs [Hn Hf].
  { exists [], s. rewrite app_nil_r. split_and!; try done. intros k r Hk. by apply not_elem_of_nil in Hk. }
  apply list.NoDup_cons in Hn as [Hk Hn]. inversion Hf as [|? i ? rows' (r & Hr & Hp) Hf']; subst.
  cbn [foldl take_spilled]. rewrite Hr. set (s1 := account_removed _ _ _).
  destruct (IH rows' s1 (acc ++ [(k, r)])) as (sp & s' & E & H1 & H2 & H3 & H4 & H5 & H6 & H7 & H8).
  - by apply remove_entry_ok.
  - split; [done|]. clear -Hf' Hk. induction Hf' as [|k' i' keys rows (r' & Hr' & Hp') _ IH]; constructor.
    + exists r'. split; [|done]. cbn. rewrite lookup_delete_ne; [done|]. intros ->. apply Hk. by left.
    + apply IH. intros Hin. apply Hk. by right.
  - exists ((k, r) :: sp), s'. rewrite E, <- app_assoc. split; [done|]. split; [done|]. split; [by rewrite fmap_cons, H2|].
    split; [|split; [|split_and!; try done]].
    + intros k' r' [[= -> ->]|Hin]%elem_of_cons; [done|]. specialize (H3 k' r' Hin). cbn in H3. by apply lookup_delete_Some in H3 as [_ H3].
    + intros k'. rewrite H4. cbn. destruct (decide (k' = k)) as [->|Hne].
      * rewrite decide_False by done. rewrite lookup_delete_eq. rewrite decide_True; [done|by left].
      * rewrite lookup_delete_ne by done. destruct (decide (k' ∈ keys)) as [Hin|Hni].
        -- rewrite decide_True; [done|by right].
        -- rewrite decide_False; [done|]. by intros [?|?]%elem_of_cons.
    + etrans; [exact H8|]. cbn. rewrite map_size_delete. destruct (_ !! k); cbn; lia.
Qed.

Lemma disk_puts_spec sp : forall s d, disk s = Some d -> disk_ok universe d -> NoDup (fst <$> sp) ->
  (forall k r, (k, r) ∈ sp -> record_ok (heap s) k r) ->
  exists d', st_iter (fun kr => on_disk (disk_put kr.1 kr.2)) sp s = (Ok tt, set_disk (Some d') (spill_fired s) s) /\ disk_ok universe d' /\
    (forall k r, (k, r) ∈ sp -> disk_view d' k = record_view r) /\ (forall k, k ∉ fst <$> sp -> disk_view d' k = disk_view d k).
Proof.
  induction sp as [|[k r] sp IH]; intros s d Hd Hok Hn Hsp; cbn [st_iter].
  { exists d. split_and!; try done; [destruct s; cbn in *; by subst|]. intros k r Hk. by apply not_elem_of_nil in Hk. }
  rewrite fmap_cons in Hn. apply list.NoDup_cons in Hn as [Hk Hn].
  destruct (Hsp k r) as ((v & Hv & Hu) & _); [by left|].
  destruct (disk_put_spec universe Huniverse k r v d Hok Hv Hu) as (d1 & H1 & H2 & H3).
  assert (Hp : on_disk (disk_put k r) s = (Ok tt, set_disk (Some d1) (spill_fired s) s)) by (unfold on_disk; by rewrite Hd, H1).
  rewrite (st_bind_ok _ _ _ _ _ Hp). destruct (IH (set_disk (Some d1) (spill_fired s) s) d1) as (d' & H4 & H5 & H6 & H7); [done..| |].
  { intros k' r' Hin. apply Hsp. by right. }
  exists d'. split; [exact H4|]. split; [done|]. split.
  - intros k' r' [[= -> ->]|Hin]%elem_of_cons; [|by apply H6]. rewrite H7 by done. by rewrite H3, decide_True.
  - intros k' [Hne Hni]%not_elem_of_cons. rewrite H7, H3 by done. by rewrite decide_False.
Qed.

(** A disk tier there is after [ensure_disk], which shows nothing it did not. *)
Lemma ensure_disk_spec s : spill_ok s ->
  exists d fired, ensure_disk s = (Ok tt, set_disk (Some d) fired s) /\ disk_ok universe d /\
    forall k, disk_view d k = match disk s with Some d => disk_view d k | None => None end.
Proof.
  intros Hs. unfold ensure_disk. rewrite spill_enabled. cbn [negb]. destruct (disk s) as [d|] eqn:E.
  - destruct (so_disk s Hs d E) as [Hd _]. exists d, (spill_fired s). split_and!; try done. destruct s; cbn in *. by subst.
  - unfold disk_create. destruct (db_open_ok (spill_path s)) as [h ->]. eexists _, true. split; [reflexivity|].
    split; [|done]. split; [|done]. split; cbn; try done.
    + split; [constructor|]. intros x Hx. by apply not_elem_of_nil in Hx.
    + intros id b Hx. by apply not_elem_of_nil in Hx.
Qed.

Lemma spill_victim_moved a keys rows s : spill_ok s -> victim_in s a keys rows ->
  exists s', spill_victim_batch keys s = (Ok tt, s') /\ moved s s' /\ forall k, k ∉ keys -> in_memory s' !! k = in_memory s !! k.
Proof.
  intros Hs Hv. unfold spill_victim_batch.
  destruct (take_spilled_spec a keys rows s [] Hs Hv) as (sp & s1 & -> & H1 & H2 & H3 & H4 & H5 & H6 & H7 & H8).
  cbn [app]. destruct (ensure_disk_spec s1 H1) as (d & fired & He & Hd & Hdv). rewrite (st_bind_ok _ _ _ _ _ He).
  destruct (disk_puts_spec sp (set_disk (Some d) fired s1) d) as (d1 & Hp & Hd1 & Hnew & Hold); [done|done| | |].
  { rewrite H2. apply Hv. }
  { intros k r Hkr. cbn. rewrite H6. apply (so_mem s Hs). by apply H3. }
  rewrite (st_bind_ok _ _ _ _ _ Hp).
  destruct (flush_spec universe Huniverse d1) as (d2 & Hf & Hwf & Hst & Hview); [apply Hd1|destruct Hd1 as [_ Hr]; unfold SPILL_BATCH_ROWS in Hr; lia|].
  unfold on_disk. cbn. rewrite Hf. eexists. split; [reflexivity|]. split.
  2:{ intros k Hk. cbn. rewrite H4, decide_False by done. done. }
  assert (Hd2 : forall k, disk_view d2 k = if decide (k ∈ keys) then in_memory s !! k ≫= record_view
      else match disk s with Some d => disk_view d k | None => None end).
  { intros k. rewrite Hview. destruct (decide (k ∈ keys)) as [Hin|Hni].
    - rewrite <- H2 in Hin. apply list_elem_of_fmap in Hin as ([k' r] & -> & Hin). cbn. rewrite (Hnew _ _ Hin). by rewrite (H3 _ _ Hin).
    - rewrite Hold by (by rewrite H2). by rewrite Hdv, H5. }
  split; cbn; try done.
  - destruct H1 as [A1 A2 A3 A4]. split; cbn; try done. intros d0 [= <-]. split.
    + split; [done|]. by rewrite Hst, map_size_empty.
    + intros k Hk. rewrite H4 in Hk. rewrite Hd2. destruct (decide (k ∈ keys)); [by destruct Hk|].
      destruct (disk s) as [d0|] eqn:E; [|done]. by apply (so_disk s Hs d0 E).
  - intros k. unfold spill_view. cbn. rewrite H4, Hd2. destruct (decide (k ∈ keys)) as [Hin|]; [|done].
    rewrite <- H2 in Hin. apply list_elem_of_fmap in Hin as ([k' r] & -> & Hin). cbn. by rewrite (H3 _ _ Hin).
  - by rewrite H6.
Qed.

Lemma same_arc h (r r' : BufferedRecord) a i a' i' : arc_in h r -> arc_in h r' -> payload r = BatchRef a i -> payload r' = BatchRef a' i' ->
  as_ptr a = as_ptr a' -> a = a'.
Proof.
  unfold arc_in. intros H1 H2 Hr Hr' Hp. rewrite Hr in H1. rewrite Hr' in H2. destruct a, a'. cbn in *. subst. congruence.
Qed.

(** Victims are disjoint sets of entries. *)
Definition victims_in (s : SpillMap) (l : list (nat * Victim)) : Prop :=
  NoDup (fst <$> l) /\ forall pv, pv ∈ l -> as_ptr (v_batch pv.2) = pv.1 /\ victim_in s (v_batch pv.2) (v_keys pv.2) (v_rows pv.2).

Lemma victims_fold s l : spill_ok s -> NoDup (fst <$> l) -> (forall k r, (k, r) ∈ l -> in_memory s !! k = Some r) ->
  forall ptr v, foldl victim_of ∅ l !! ptr = Some v ->
    as_ptr (v_batch v) = ptr /\ victim_in s (v_batch v) (v_keys v) (v_rows v) /\ (forall k, k ∈ v_keys v -> k ∈ fst <$> l).
Proof.
  intros Hs. induction l as [|[k r] l IH] using rev_ind; intros Hn Hl ptr v; [done|]. rewrite foldl_app. cbn [foldl].
  rewrite fmap_app in Hn. apply list.NoDup_app in Hn as (Hn & Hd & _).
  assert (Hk : k ∉ fst <$> l) by (intros Hin; apply (Hd k Hin); by left).
  specialize (IH Hn). assert (IH' := IH (fun k r Hin => Hl k r ltac:(rewrite elem_of_app; by left))). clear IH.
  assert (Hr : in_memory s !! k = Some r) by (apply Hl; rewrite elem_of_app; right; by left).
  assert (Hgrow : forall ptr v, foldl victim_of ∅ l !! ptr = Some v ->
    as_ptr (v_batch v) = ptr /\ victim_in s (v_batch v) (v_keys v) (v_rows v) /\ (forall k', k' ∈ v_keys v -> k' ∈ fst <$> l ++ [(k, r)])).
  { intros p x Hx. destruct (IH' p x Hx) as (H1 & H2 & H3). split_and!; try done; [apply H2..|].
    intros k' Hk'. rewrite fmap_app, elem_of_app. left. by apply H3. }
  unfold victim_of at 1. cbn [snd fst]. destruct (payload r) as [a i|b|] eqn:Hp; [|by apply Hgrow..].
  destruct (decide (ptr = as_ptr a)) as [->|Hne]; [|rewrite lookup_insert_ne by done; by apply Hgrow].
  rewrite lookup_insert_eq. intros [= <-]. cbn [v_batch v_keys v_rows].
  destruct (foldl victim_of ∅ l !! as_ptr a) as [v0|] eqn:E; cbn [default from_option id v_batch v_keys v_rows].
  - destruct (IH' _ _ E) as (H1 & [H2 H3] & H4).
    assert (v_batch v0 = a \/ v_keys v0 = []) as Ha.
    { destruct (v_keys v0) as [|k0 ks] eqn:Ek; [by right|left]. inversion H3 as [|? i0 ? ? (r0 & Hr0 & Hp0) _]; subst.
      eapply same_arc; [by apply (so_mem s Hs k0 r0)|by apply (so_mem s Hs k r)|done..]. }
    split; [done|]. split; [split|].
    + apply list.NoDup_app. split_and!; [done| |apply list.NoDup_singleton]. intros x Hx ->%list_elem_of_singleton. by apply Hk, H4.
    + apply Forall2_app; [done|]. constructor; [|done]. exists r. split; [done|]. destruct Ha as [->|Ha]; [done|].
      (* a victim without keys is not in the map *)
      exfalso. revert E Ha. clear. induction l as [|[k1 r1] l IH] using rev_ind; [done|]. rewrite foldl_app. cbn [foldl].
      unfold victim_of at 1. cbn [snd fst]. destruct (payload r1) as [a1 i1|b1|]; [|done..].
      destruct (decide (as_ptr a = as_ptr a1)) as [->|Hne]; [|by rewrite lookup_insert_ne].
      rewrite lookup_insert_eq. intros [= <-]. cbn. by destruct (v_keys _).
    + intros x [Hx| ->%list_elem_of_singleton]%elem_of_app; rewrite fmap_app, elem_of_app; [left; by apply H4|right; by left].
  - cbn. split; [done|]. split; [split|].
    + apply list.NoDup_singleton.
    + constructor; [|done]. by exists r.
    + intros x ->%list_elem_of_singleton. rewrite fmap_app, elem_of_app. right. by left.
Qed.

Lemma victims_spec s l : spill_ok s -> l ≡ₚ map_to_list (victims s) -> victims_in s l.
Proof.
  intros Hs Hl. split; [rewrite Hl; apply NoDup_fst_map_to_list|]. intros [ptr v] Hv. rewrite Hl in Hv. apply elem_of_map_to_list in Hv.
  destruct (victims_fold s (hash_iter (in_memory s)) Hs (hash_iter_keys _)) with (ptr := ptr) (v := v) as (H1 & H2 & _); [|done|done].
  intros k r. apply hash_iter_elem.
Qed.

(** Evicting one victim leaves the others. *)
Lemma victims_rest s s' ptr v l : victims_in s ((ptr, v) :: l) ->
  (forall k, k ∉ v_keys v -> in_memory s' !! k = in_memory s !! k) -> victims_in s' l.
Proof.
  intros [Hn Hv] Hk. rewrite fmap_cons in Hn. apply list.NoDup_cons in Hn as [Hp Hn]. split; [done|].
  intros [ptr' v'] Hin. cbn [fst snd]. destruct (Hv (ptr', v')) as [H1 [H2 H3]]; [by right|]. destruct (Hv (ptr, v)) as [H4 [_ H5]]; [by left|].
  cbn [fst snd] in *. split; [done|]. split; [done|]. eapply Forall2_impl; [exact H3|]. intros k i (r & Hr & Hpr). exists r. split; [|done].
  rewrite Hk; [done|]. intros Hkin. apply list_elem_of_lookup_1 in Hkin as [j Hj].
  destruct (Forall2_lookup_l _ _ _ _ _ H5 Hj) as (i' & _ & r' & Hr' & Hpr'). rewrite Hr in Hr'. injection Hr' as <-. rewrite Hpr in Hpr'.
  injection Hpr' as Ha _. apply Hp. apply list_elem_of_fmap. exists (ptr', v'). split; [|done]. cbn. by rewrite <- H1, <- H4, Ha.
Qed.

Lemma evict_victim_moved s v : spill_ok s -> victim_in s (v_batch v) (v_keys v) (v_rows v) ->
  exists s', evict_victim v s = (Ok tt, s') /\ moved s s' /\ forall k, k ∉ v_keys v -> in_memory s' !! k = in_memory s !! k.
Proof.
  intros Hs Hv. unfold evict_victim. destruct (f64_lt _ _); [by apply compact_moved|by eapply spill_victim_moved].
Qed.

Lemma evict_loop_moved target l : forall s, spill_ok s -> victims_in s l ->
  exists s', evict_loop target l s = (Ok tt, s') /\ moved s s'.
Proof.
  induction l as [|[ptr v] l IH]; intros s Hs Hv; cbn [evict_loop]; [exists s; split; [done|by apply moved_refl]|].
  destruct (_ <=? target); [exists s; split; [done|by apply moved_refl]|].
  destruct (evict_victim_moved s v Hs) as (s1 & H1 & M1 & Hk); [apply (proj2 Hv (ptr, v)); by left|].
  rewrite (st_bind_ok _ _ _ _ _ H1). destruct (IH s1) as (s2 & H2 & M2); [apply M1|by eapply victims_rest|].
  exists s2. split; [done|]. by eapply moved_trans.
Qed.

Lemma compact_groups_moved t l : forall s, spill_ok s -> victims_in s l ->
  exists s', st_iter (compact_group t) l s = (Ok tt, s') /\ moved s s'.
Proof.
  induction l as [|[ptr v] l IH]; intros s Hs Hv; cbn [st_iter]; [exists s; split; [done|by apply moved_refl]|].
  assert (exists s1, compact_group t (ptr, v) s = (Ok tt, s1) /\ moved s s1 /\ forall k, k ∉ v_keys v -> in_memory s1 !! k = in_memory s !! k)
    as (s1 & H1 & M1 & Hk).
  { unfold compact_group. cbn [snd]. destruct (_ =? 0); [exists s; split_and!; try done; by apply moved_refl|].
    destruct (f64_ge _ _); [exists s; split_and!; try done; by apply moved_refl|].
    apply compact_moved; [done|]. apply (proj2 Hv (ptr, v)). by left. }
  rewrite (st_bind_ok _ _ _ _ _ H1). destruct (IH s1) as (s2 & H2 & M2); [apply M1|by eapply victims_rest|].
  exists s2. split; [done|]. by eapply moved_trans.
Qed.

(** The peak covers what is retained. *)
Definition peak_ok (s : SpillMap) : Prop := true_retained_bytes s <= peak_in_memory_size s.

Lemma track_peak_moved s : spill_ok s -> moved s (track_peak s) /\ peak_ok (track_peak s) /\ true_retained_bytes (track_peak s) = true_retained_bytes s.
Proof.
  intros Hs. unfold track_peak, peak_ok. destruct (Z.ltb_spec (peak_in_memory_size s) (true_retained_bytes s)).
  - split; [|split; [cbn|]; try done; change (true_retained_bytes (set_peak (true_retained_bytes s) s)) with (true_retained_bytes s); lia].
    destruct Hs. by split.
  - split; [by apply moved_refl|done].
Qed.

Lemma evict_moved target s : spill_ok s ->
  exists s', evict_source_batches_until target s = (Ok tt, s') /\ moved s s' /\ peak_ok s'.
Proof.
  intros Hs. unfold evict_source_batches_until.
  destruct (evict_loop_moved target (merge_sort victim_le (map_to_list (victims s))) s Hs) as (s1 & H1 & M1).
  { apply victims_spec; [done|]. by rewrite merge_sort_Permutation. }
  rewrite (st_bind_ok _ _ _ _ _ H1). unfold st_modify. destruct (track_peak_moved s1) as (M2 & Hp & _); [apply M1|].
  eexists. split; [reflexivity|]. split; [by eapply moved_trans|done].
Qed.

(** How an operation that may grow the map ends: within its cap if it was, or with the
    error of a cap exceeded. *)
Definition ended {A} (r : res A) (a : A) (s s' : SpillMap) : Prop :=
  (r = Ok a /\ (fits -> forall cap, max_peak_in_memory_size s = Some cap -> true_retained_bytes s <= cap -> true_retained_bytes s' <= cap)) \/
  (r = Err EMemoryLimitExceeded /\ exists cap, max_peak_in_memory_size s = Some cap /\ cap < true_retained_bytes s').

(** An operation at whose end [w] is seen. *)
Record moves_to (s s' : SpillMap) (w : string -> option View) : Prop := {
  mt_ok : spill_ok s';
  mt_view k : spill_view s' k = w k;
  mt_cap : max_peak_in_memory_size s' = max_peak_in_memory_size s;
  mt_heap : heap s `prefix_of` heap s';
  mt_size : (size (in_memory s') <= Datatypes.S (size (in_memory s)))%nat;
  mt_peak : fits -> peak_ok s'
}.

Lemma enforce_memory_limits_spec s : spill_ok s -> peak_ok s ->
  exists r s', enforce_memory_limits s = (r, s') /\ moved s s' /\ peak_ok s' /\
    ((r = Ok tt /\ forall cap, max_peak_in_memory_size s = Some cap -> true_retained_bytes s' <= cap) \/
     (r = Err EMemoryLimitExceeded /\ exists cap, max_peak_in_memory_size s = Some cap /\ cap < true_retained_bytes s')).
Proof.
  intros Hs Hp. unfold enforce_memory_limits.
  assert (exists s1, (if over_budget s then evict_source_batches_until (low_water (in_memory_allowance s)) else st_ret tt) s = (Ok tt, s1) /\
    moved s s1 /\ peak_ok s1) as (s1 & H1 & M1 & Hp1).
  { destruct (over_budget s); [by apply evict_moved|]. exists s. split; [done|]. split; [by apply moved_refl|done]. }
  rewrite (st_bind_ok _ _ _ _ _ H1). unfold enforce_peak_cap. rewrite (mv_cap _ _ M1).
  destruct (max_peak_in_memory_size s) as [cap|].
  2:{ exists (Ok tt), s1. split_and!; try done. by left. }
  destruct (Z.leb_spec (true_retained_bytes s1) cap).
  { exists (Ok tt), s1. split_and!; try done. left. split; [done|]. by intros ? [= <-]. }
  destruct (evict_moved (low_water cap) s1) as (s2 & H2 & M2 & Hp2); [apply M1|]. rewrite (st_bind_ok _ _ _ _ _ H2).
  unfold st_get, st_lift, st_ret, st_bind. assert (moved s s2) by (by eapply moved_trans).
  destruct (Z.ltb_spec cap (true_retained_bytes s2)).
  - exists (Err EMemoryLimitExceeded), s2. split_and!; try done. right. split; [done|]. by exists cap.
  - exists (Ok tt), s2. split_and!; try done. left. split; [done|]. by intros ? [= <-].
Qed.

(** * Operations *)
Definition view_ok (r : BufferedRecord) : Prop := exists v, record_view r = Some v /\ forall s, view_schema v = Some s -> s ∈ universe.

Definition with_key (key : string) (v : option View) (w : string -> option View) (k : string) : option View := if decide (k = key) then v else w k.

(** The entry of [key] alone changed, before limits are looked at. *)
Record changed (s s1 : SpillMap) (key : string) (v : option View) : Prop := {
  ch_ok : spill_ok s1;
  ch_view k : spill_view s1 k = with_key key v (spill_view s) k;
  ch_cap : max_peak_in_memory_size s1 = max_peak_in_memory_size s;
  ch_heap : heap s1 = heap s;
  ch_size : (size (in_memory s1) <= Datatypes.S (size (in_memory s)))%nat
}.

Lemma changed_settles s s1 key v : changed s s1 key v ->
  exists x s', enforce_memory_limits (track_peak s1) = (x, s') /\ moves_to s s' (with_key key v (spill_view s)) /\ ended x tt s s'.
Proof.
  intros [H1 H2 H3 H4 H5]. destruct (track_peak_moved s1 H1) as (M1 & Hp1 & _).
  destruct (enforce_memory_limits_spec (track_peak s1)) as (x & s' & He & M2 & Hp2 & Hx); [apply M1|done|].
  pose proof (moved_trans _ _ _ M1 M2) as M. exists x, s'. split; [done|]. split.
  - split; [apply M| |by rewrite (mv_cap _ _ M)|by rewrite <- H4; apply M|etrans; [apply M|done]|done].
    intros k. by rewrite (mv_view _ _ M), H2.
  - rewrite (mv_cap _ _ M1), H3 in Hx. destruct Hx as [[-> Hx]|Hx]; [left|by right]. split; [done|]. intros _ cap Hcap _. by apply Hx.
Qed.

Lemma grown_spec key r s : spill_ok s -> in_memory s !! key = None -> (forall d, disk s = Some d -> disk_view d key = None) ->
  record_ok (heap s) key r -> (fits -> Z.of_nat (size (in_memory s)) + 1 <= N) ->
  exists x s', grown key r s = (x, s') /\ moves_to s s' (with_key key (record_view r) (spill_view s)) /\ ended x tt s s'.
Proof.
  intros Hs Hk Hd Hr Hl. apply changed_settles. split; try done.
  - by apply add_entry_ok.
  - intros k. unfold spill_view, with_key. cbn. destruct (decide (k = key)) as [->|]; [by rewrite lookup_insert_eq|]. by rewrite lookup_insert_ne.
  - cbn. by rewrite map_size_insert_None.
Qed.

Lemma pins_minus_le h m p k r : fits -> map_Forall (record_ok h) m -> pins_ok h (map_to_list m) p -> m !! k = Some r ->
  pins_total_bytes (pins_minus r p) <= pins_total_bytes p.
Proof.
  intros Hf Hm Hp Hk. destruct (HS Hf) as [Hs H0]. assert (Hb := pins_total_bound S N _ _ _ Hs H0 Hp).
  unfold pins_minus. destruct (payload r) as [a i|b|]; [|done..]. unfold remove_ref_to, remove_ref.
  destruct (by_ptr p !! as_ptr a) as [pin|] eqn:E; [|done]. destruct (_ =? 0); [|done]. cbn. unfold saturating_sub.
  rewrite (pk_refs _ _ _ Hp) in E. destruct (_ =? 0); [done|]. injection E as <-. cbn. pose proof (ptr_bytes_bound S N h (as_ptr a) Hs H0). lia.
Qed.

Lemma removed_spec key r s : spill_ok s -> in_memory s !! key = Some r ->
  let s' := account_removed key r (set_in_memory (delete key (in_memory s)) s) in
  changed s s' key None /\ (fits -> true_retained_bytes s' <= true_retained_bytes s) /\ (size (in_memory s') < size (in_memory s))%nat /\
  (forall d, disk s = Some d -> disk_view d key = None).
Proof.
  intros Hs Hk s'. assert (Hd : forall d, disk s = Some d -> disk_view d key = None).
  { intros d E. apply (so_disk s Hs d E). by eexists. }
  assert (Hsz : (size (in_memory s') < size (in_memory s))%nat).
  { cbn. rewrite map_size_delete, Hk. assert (size (in_memory s) <> 0%nat); [|lia]. intros Hz%map_size_empty_inv. by rewrite Hz in Hk. }
  split_and!; [|intros Hf|done..].
  - split; [by apply remove_entry_ok| |done..|lia]. intros k. unfold spill_view, with_key. cbn. destruct (decide (k = key)) as [->|].
    + rewrite lookup_delete_eq. destruct (disk s) as [d|]; [by apply Hd|done].
    + by rewrite lookup_delete_ne.
  - destruct (so_account s Hs Hf) as [Hp Hn]. pose proof (pins_minus_le _ _ _ _ _ Hf (so_mem s Hs) Hp Hk) as Hle.
    destruct (HS Hf) as [Hsz' H0]. destruct (mem_items _ _ (so_mem s Hs)) as [_ Hkeys]. specialize (Hkeys Hf).
    pose proof (items_bytes_bound S N _ Hsz' H0 Hkeys). unfold true_retained_bytes, s', account_removed, saturating_add, saturating_sub. cbn.
    fold (pins_minus r (pinned s)). assert (0 <= entry_key_overhead_bytes key) by (unfold entry_key_overhead_bytes, ENTRY_OVERHEAD_BYTES; lia).
    assert (0 <= owned_payload_bytes r) by (unfold owned_payload_bytes; destruct (payload r); [lia|apply Hsz'|lia]). lia.
Qed.

Lemma grown_again key r r0 s :
  grown key r (account_removed key r0 s) = grown key r (account_removed key r0 (set_in_memory (delete key (in_memory s)) s)).
Proof. unfold grown, account_added, account_removed, set_account, set_in_memory. cbn. by rewrite insert_delete_eq. Qed.

Lemma on_disk_changes s d d' key v : spill_ok s -> disk s = Some d -> disk_ok universe d' -> in_memory s !! key = None ->
  (forall k, disk_view d' k = with_key key v (disk_view d) k) -> (fits -> peak_ok s) ->
  moves_to s (set_disk (Some d') (spill_fired s) s) (with_key key v (spill_view s)).
Proof.
  intros Hs Hd Hd' Hk Hv Hp. split; [| |done|done|cbn; lia|done].
  - destruct Hs as [A1 A2 A3 A4]. split; cbn; try done. intros ? [= <-]. split; [done|]. intros k Hin. rewrite Hv. unfold with_key.
    destruct (decide (k = key)) as [->|]; [by rewrite Hk in Hin; destruct Hin|]. by apply (A2 d Hd).
  - intros k. unfold spill_view, with_key in *. cbn. destruct (decide (k = key)) as [->|Hne].
    + by rewrite Hk, Hv, decide_True.
    + destruct (in_memory s !! k); [done|]. by rewrite Hv, Hd, decide_False.
Qed.

Lemma ended_same {A} (a : A) s s' : true_retained_bytes s' = true_retained_bytes s -> ended (Ok a) a s s'.
Proof. intros H. left. split; [done|]. intros _ cap _. by rewrite H. Qed.

Lemma spill_insert_spec key r s : spill_ok s -> (fits -> peak_ok s) -> view_ok r -> (fits -> short_key S key) ->
  ((forall d, disk s = Some d -> disk_view d key = None) -> arc_in (heap s) r) -> (fits -> Z.of_nat (size (in_memory s)) + 1 <= N) ->
  exists x s', spill_insert key r s = (x, s') /\ moves_to s s' (with_key key (record_view r) (spill_view s)) /\ ended x tt s s'.
Proof.
  intros Hs Hp Hv Hsh Ha Hl. unfold spill_insert. assert (Hv' := Hv). destruct Hv' as (v & Hrv & Hu).
  destruct (in_memory s !! key) as [r0|] eqn:Ek.
  - rewrite grown_again. destruct (removed_spec key r0 s Hs Ek) as ([C1 C2 C3 C4 C5] & Hle & Hsz & Hd).
    set (s0 := account_removed _ _ _) in *.
    destruct (grown_spec key r s0) as (x & s' & H1 & M & Hx); [done| |exact Hd|split; [done|split; [rewrite C4; by apply Ha|done]]| |].
    { cbn. apply lookup_delete_eq. }
    { intros Hf. specialize (Hl Hf). lia. }
    exists x, s'. split; [done|]. split.
    + destruct M as [M1 M2 M3 M4 M5 M6]. split; [done| |congruence|by rewrite <- C4|lia|done].
      intros k. rewrite M2. unfold with_key. destruct (decide (k = key)); [done|]. rewrite C2. unfold with_key. by rewrite decide_False.
    + unfold ended in *. rewrite C3 in Hx. destruct Hx as [[-> Hx]|Hx]; [left|by right]. split; [done|]. intros Hf cap Hcap Hr.
      apply (Hx Hf); [done|]. specialize (Hle Hf). lia.
  - assert (Hput : forall d s1, disk s1 = Some d -> disk_ok universe d -> in_memory s1 !! key = None -> spill_ok s1 -> (fits -> peak_ok s1) ->
      exists s', on_disk (disk_put key r) s1 = (Ok tt, s') /\ moves_to s1 s' (with_key key (record_view r) (spill_view s1)) /\
        true_retained_bytes s' = true_retained_bytes s1).
    { intros d s1 E Hd Hk Hs1 Hp1. destruct (disk_put_spec universe Huniverse key r v d Hd Hrv Hu) as (d' & H1 & H2 & H3).
      unfold on_disk. rewrite E, H1. eexists. split; [reflexivity|]. split; [|done]. eapply on_disk_changes; try done. by rewrite Hrv. }
    destruct (match disk s with Some d => disk_contains_key key d | None => false end) eqn:Ec.
    + destruct (disk s) as [d|] eqn:Ed; [|done]. destruct (so_disk s Hs d Ed) as [Hd _].
      destruct (Hput d s) as (s' & H1 & H2 & H3); [done..|]. exists (Ok tt), s'. split; [done|]. split; [done|]. by apply ended_same.
    + assert (Hnd : forall d, disk s = Some d -> disk_view d key = None).
      { intros d Ed. rewrite Ed in Ec. destruct (so_disk s Hs d Ed) as [Hd _]. rewrite (disk_contains_key_spec _ d key Hd) in Ec.
        apply bool_decide_eq_false in Ec. by apply eq_None_not_Some. }
      destruct (negb (is_batch_ref r) && over_budget s).
      * destruct (ensure_disk_spec s Hs) as (d & fired & He & Hd & Hdv). rewrite (st_bind_ok _ _ _ _ _ He).
        assert (Hview : forall k, spill_view (set_disk (Some d) fired s) k = spill_view s k).
        { intros k. unfold spill_view. cbn. destruct (in_memory s !! k); [done|]. by rewrite Hdv. }
        destruct (Hput d (set_disk (Some d) fired s)) as (s' & H1 & M & H3); [done..| |done|].
        { destruct Hs as [A1 A2 A3 A4]. split; cbn; try done. intros ? [= <-]. split; [done|]. intros k Hk. rewrite Hdv.
          destruct (disk s) as [d0|]; [|done]. by apply (A2 d0 eq_refl). }
        exists (Ok tt), s'. split; [done|]. split; [|by apply ended_same]. destruct M as [M1 M2 M3 M4 M5 M6]. split; try done.
        intros k. rewrite M2. unfold with_key. destruct (decide (k = key)); [done|apply Hview].
      * apply grown_spec; try done. split; [done|]. split; [by apply Ha|done].
Qed.

Lemma moves_to_moved s s' : moved s s' -> (fits -> peak_ok s') -> moves_to s s' (spill_view s).
Proof. intros [M1 M2 M3 M4 M5] Hp. split; try done. lia. Qed.

Lemma set_cache_moved s d c : spill_ok s -> disk s = Some d -> disk_ok universe (set_cache c d) ->
  moved s (set_disk (Some (set_cache c d)) (spill_fired s) s).
Proof.
  intros Hs Hd Hc. split; cbn; try done.
  - destruct Hs as [A1 A2 A3 A4]. split; cbn; try done. intros ? [= <-]. split; [done|]. apply (A2 d Hd).
  - intros k. unfold spill_view. cbn. by rewrite Hd.
Qed.

Lemma spill_get_spec key s : spill_ok s -> exists o s', spill_get key s = (Ok o, s') /\ moved s s' /\ shows o (spill_view s key) /\
  true_retained_bytes s' = true_retained_bytes s /\ peak_in_memory_size s' = peak_in_memory_size s /\ in_memory s' = in_memory s /\
  ((forall d, disk s' = Some d -> disk_view d key = None) -> forall r, o = Some r -> arc_in (heap s') r).
Proof.
  intros Hs. unfold spill_get, spill_view. destruct (in_memory s !! key) as [r|] eqn:E.
  - exists (Some r), s. destruct (so_mem s Hs key r E) as ((v & Hv & _) & Ha & _). split; [done|]. split; [by apply moved_refl|].
    split; [by split; [|eexists]|]. split_and!; try done. by intros _ ? [= <-].
  - destruct (disk s) as [d|] eqn:Ed.
    + destruct (so_disk s Hs d Ed) as [Hd _]. destruct (disk_get_spec _ key d Hd) as (o & c & H1 & H2 & H3).
      unfold on_disk. rewrite Ed, H1. eexists o, _. split; [reflexivity|]. split; [by apply set_cache_moved|]. split_and!; try done.
      cbn. intros Hn r ->. destruct H3 as [_ H3]. specialize (Hn _ eq_refl). change (disk_view (set_cache c d) key) with (disk_view d key) in Hn.
      rewrite Hn in H3. by destruct H3.
    + exists None, s. by split_and!; try done.
Qed.

Lemma spill_remove_spec key s : spill_ok s -> (fits -> peak_ok s) ->
  exists o s', spill_remove key s = (Ok o, s') /\ moves_to s s' (with_key key None (spill_view s)) /\ shows o (spill_view s key) /\
    (fits -> true_retained_bytes s' <= true_retained_bytes s).
Proof.
  intros Hs Hp. unfold spill_remove. destruct (in_memory s !! key) as [r|] eqn:E.
  - destruct (removed_spec key r s Hs E) as ([C1 C2 C3 C4 C5] & Hle & Hsz & Hd). eexists _, _. split; [reflexivity|].
    split; [|split; [|done]].
    + split; try done. intros Hf. specialize (Hle Hf). specialize (Hp Hf). unfold peak_ok in *. etrans; [exact Hle|exact Hp].
    + unfold spill_view. rewrite E. destruct (so_mem s Hs key r E) as ((v & Hv & _) & _). split; [done|by eexists].
  - unfold spill_view at 2. rewrite E. destruct (disk s) as [d|] eqn:Ed.
    + destruct (so_disk s Hs d Ed) as [Hd _]. destruct (disk_remove_spec universe Huniverse key d Hd) as (o & d' & H1 & H2 & H3 & H4).
      unfold on_disk. rewrite Ed, H1. eexists o, _. split_and!; try done. by eapply on_disk_changes.
    + exists None, s. split; [done|]. split; [|done]. split; try done; [|lia]. intros k. unfold with_key. destruct (decide (k = key)) as [->|]; [|done].
      unfold spill_view. by rewrite E, Ed.
Qed.

Lemma spill_contains_key_spec key s : spill_ok s -> spill_contains_key key s = bool_decide (is_Some (spill_view s key)).
Proof.
  intros Hs. unfold spill_contains_key, spill_view. destruct (in_memory s !! key) as [r|] eqn:E.
  - destruct (so_mem s Hs key r E) as ((v & -> & _) & _). by rewrite !bool_decide_true by (by eexists).
  - rewrite (bool_decide_false (is_Some None)) by (by intros []). cbn [orb]. destruct (disk s) as [d|] eqn:Ed.
    + apply disk_contains_key_spec with universe. by apply (so_disk s Hs d Ed).
    + by rewrite (bool_decide_false (is_Some None)) by (by intros []).
Qed.

Lemma spill_len_spec s : spill_ok s -> exists X : gset string, spill_len s = Z.of_nat (size X) /\ forall k, k ∈ X <-> is_Some (spill_view s k).
Proof.
  intros Hs. unfold spill_len, spill_view.
  assert (Hm : forall k, k ∈ (dom (in_memory s) : gset string) <-> is_Some (in_memory s !! k)) by (intros k; apply elem_of_dom).
  assert (Hv : forall k r, in_memory s !! k = Some r -> is_Some (record_view r)).
  { intros k r E. destruct (so_mem s Hs k r E) as ((v & -> & _) & _). by eexists. }
  destruct (disk s) as [d|] eqn:Ed.
  - destruct (so_disk s Hs d Ed) as [Hd Hdis]. destruct (disk_len_spec _ d Hd) as (X & HX & HinX). exists (dom (in_memory s) ∪ X). split.
    + rewrite size_union, size_dom; [lia|]. intros k H1%Hm H2%HinX. rewrite (Hdis k H1) in H2. by destruct H2.
    + intros k. rewrite elem_of_union, Hm, HinX. destruct (in_memory s !! k) as [r|] eqn:E; [|naive_solver].
      split; [intros _; by eapply Hv|intros _; left; by eexists].
  - exists (dom (in_memory s)). split; [rewrite size_dom; lia|]. intros k. rewrite Hm. destruct (in_memory s !! k) as [r|] eqn:E.
    + split; [intros _; by eapply Hv|by eexists].
    + split; by intros [].
Qed.

(** A data record drained has a key of [P], or that of the map. *)
Definition read_named (P : string -> string -> Prop) (k : string) (r : BufferedRecord) : Prop :=
  is_delete r = false -> record_key r = k \/ P k (record_key r).

Lemma spill_drain_spec P s : spill_ok s -> spill_named P s ->
  exists rs, spill_drain s = Ok <$> rs /\ drained_as (read_named P) (spill_view s) rs.
Proof.
  intros Hs [HPm _]. unfold spill_drain.
  assert (Hmem : exists kvs : list (string * View), NoDup (fst <$> kvs) /\
      (forall k v, (k, v) ∈ kvs <-> exists r, in_memory s !! k = Some r /\ record_view r = Some v) /\
      Forall2 (fun kv r => record_view r = Some (snd kv) /\ read_named P (fst kv) r) kvs (snd <$> hash_iter (in_memory s))).
  { assert (Hin : forall k r, (k, r) ∈ hash_iter (in_memory s) <-> in_memory s !! k = Some r) by (intros k r; apply hash_iter_elem).
    assert (exists kvs, Forall2 (fun (kr : string * BufferedRecord) (kv : string * View) => fst kr = fst kv /\ record_view (snd kr) = Some (snd kv)) (hash_iter (in_memory s)) kvs) as [kvs Hk].
    { assert (Hv : forall kr, kr ∈ hash_iter (in_memory s) -> exists v, record_view kr.2 = Some v).
      { intros [k r] E%Hin. destruct (so_mem s Hs k r E) as ((v & Hv & _) & _). by exists v. }
      clear -Hv. induction (hash_iter (in_memory s)) as [|[k r] l IH]; [by exists []|]. destruct (Hv (k, r)) as [v Hkv]; [by left|].
      destruct IH as [kvs H]; [intros x Hx; apply Hv; by right|]. exists ((k, v) :: kvs). by constructor. }
    exists kvs. split; [|split].
    - assert (fst <$> kvs = fst <$> hash_iter (in_memory s)) as ->; [|apply hash_iter_keys].
      clear -Hk. induction Hk as [|? ? ? ? [H _] _ IH]; [done|]. rewrite !fmap_cons. by rewrite H, IH.
    - intros k v. split.
      + intros Hkv. apply list_elem_of_lookup_1 in Hkv as [i Hi]. destruct (Forall2_lookup_r _ _ _ _ _ Hk Hi) as ([k' r] & Hkr & H1 & H2).
        cbn in *. subst k'. exists r. split; [|done]. apply Hin. by apply list_elem_of_lookup_2 in Hkr.
      + intros (r & E & Hv). apply Hin in E. apply list_elem_of_lookup_1 in E as [i Hi].
        destruct (Forall2_lookup_l _ _ _ _ _ Hk Hi) as ([k' v'] & Hkv & H1 & H2). cbn in *. subst k'. apply list_elem_of_lookup_2 in Hkv. congruence.
    - assert (HP : forall kr, kr ∈ hash_iter (in_memory s) -> read_named P kr.1 kr.2).
      { intros [k r] E%Hin _. right. by apply HPm. }
      clear -Hk HP. induction Hk as [|? ? ? ? [Hkey H] _ IH]; [constructor|]. rewrite fmap_cons. constructor.
      + split; [done|]. rewrite <- Hkey. apply HP. by left.
      + apply IH. intros kr Hkr. apply HP. by right. }
  destruct Hmem as (kvs & Hn & Hin & Hf).
  assert (Hdisk : exists rs, match disk s with Some d => disk_drain d | None => [] end = Ok <$> rs /\
      drained_as (read_named P) (fun k => match disk s with Some d => disk_view d k | None => None end) rs).
  { destruct (disk s) as [d|] eqn:Ed.
    { destruct (disk_drain_spec universe Huniverse d) as (rs & Hrs & Hd); [by apply (so_disk s Hs d Ed)|].
      exists rs. split; [done|]. apply (drained_as_mono named_by_key _ (disk_view d)); [done| |done]. intros k r v _ _ H Hr. left. by apply H. }
    exists []. split; [done|]. exists []. split_and!; try done; [constructor|]. intros k v. split; [by intros ?%not_elem_of_nil|done]. }
  destruct Hdisk as (rs & -> & kvs' & Hn' & Hin' & Hf').
  exists ((snd <$> hash_iter (in_memory s)) ++ rs). split; [by rewrite fmap_app, <- list_fmap_compose|].
  exists (kvs ++ kvs'). split; [|split; [|by apply Forall2_app]].
  - rewrite fmap_app. apply list.NoDup_app. split_and!; try done. intros k ([k1 v] & -> & H1)%list_elem_of_fmap ([k2 v'] & Hk & H2)%list_elem_of_fmap.
    cbn in Hk. subst k2. apply Hin in H1 as (r & E & _). apply Hin' in H2. cbn in *. destruct (disk s) as [d|] eqn:Ed; [|done].
    rewrite (proj2 (so_disk s Hs d Ed) k1) in H2; [done|by eexists].
  - intros k v. rewrite elem_of_app, Hin, Hin'. unfold spill_view. destruct (in_memory s !! k) as [r|] eqn:E; [|naive_solver].
    split; [|intros Hv; left; by exists r]. intros [(? & [= <-] & ?)|H]; [done|]. destruct (disk s) as [d|] eqn:Ed; [|done].
    rewrite (proj2 (so_disk s Hs d Ed) k) in H; [done|by eexists].
Qed.

(** * Merging in place *)

(** A merge that goes by what is seen of the record there is, and gives records that can
    be stored; [heap0] are the batches of the records merged in. *)
Definition same_result (x x' : res (option BufferedRecord)) : Prop :=
  match x, x' with
  | Ok (Some r), Ok (Some r') => record_view r = record_view r'
  | Ok None, Ok None => True
  | Err e, Err e' => e = e'
  | Panic, Panic => True
  | _, _ => False
  end.

Record merge_ok (heap0 : list RecordBatch) (f : option BufferedRecord -> res (option BufferedRecord)) : Prop := {
  mo_view o o' w : shows o w -> shows o' w -> same_result (f o) (f o');
  mo_ok o r : (forall r0, o = Some r0 -> view_ok r0) -> f o = Ok (Some r) -> view_ok r;
  mo_arc h o r : heap0 `prefix_of` h -> (forall r0, o = Some r0 -> arc_in h r0) -> f o = Ok (Some r) -> arc_in h r
}.

Lemma replace_slot_changed s key slot new : spill_ok s -> in_memory s !! key = Some slot -> record_ok (heap s) key new ->
  changed s (replace_slot key slot new s) key (record_view new).
Proof.
  intros Hs Hk Hr. split; try done.
  - unfold replace_slot. apply (replace_entry_ok s key slot new); try done. intros Hf. destruct (HS Hf) as [Hsz H0].
    destruct (so_account s Hs Hf) as [_ Hn]. destruct (mem_items _ _ (so_mem s Hs)) as [_ Hkeys]. specialize (Hkeys Hf).
    rewrite (map_to_list_split _ _ _ Hk), items_bytes_cons in Hn.
    assert (Hkeys' : forall kr, kr ∈ map_to_list (delete key (in_memory s)) -> short_key S kr.1).
    { intros kr Hin. apply Hkeys. rewrite (map_to_list_split _ _ _ Hk). by right. }
    pose proof (items_bytes_bound S N _ Hsz H0 Hkeys') as Hb. destruct Hr as (_ & _ & Hsh). specialize (Hsh Hf).
    pose proof (item_bytes_bound S N (key, new) Hsz H0 Hsh) as Hi. pose proof (sz_fit _ _ Hsz) as Hfit. pose proof (so_size s Hs Hf) as Hsize.
    pose proof (item_bytes_bound S N (key, slot) Hsz H0 Hsh) as Hi2.
    assert (Hlen : Z.of_nat (length (map_to_list (delete key (in_memory s)))) + 1 <= N).
    { rewrite <- length_map_to_list in Hsize. rewrite (map_to_list_split _ _ _ Hk) in Hsize. cbn [length] in Hsize. lia. }
    assert ((Z.of_nat (length (map_to_list (delete key (in_memory s)))) + 1) * (2 * S + ENTRY_OVERHEAD_BYTES) <= N * (3 * S + ENTRY_OVERHEAD_BYTES));
      [unfold ENTRY_OVERHEAD_BYTES in *; nia|].
    unfold item_bytes, saturating_add, saturating_sub in *. cbn [fst snd] in *. lia.
  - intros k. unfold spill_view, with_key. cbn. destruct (decide (k = key)) as [->|]; [by rewrite lookup_insert_eq|]. by rewrite lookup_insert_ne.
  - cbn. rewrite map_size_insert_Some; [lia|by eexists].
Qed.

Lemma with_key_same key s k : with_key key (spill_view s key) (spill_view s) k = spill_view s k.
Proof. unfold with_key. by destruct (decide (k = key)) as [->|]. Qed.

Definition merged_view (key : string) (new : option BufferedRecord) (s : SpillMap) : string -> option View :=
  match new with Some r => with_key key (record_view r) (spill_view s) | None => spill_view s end.

Lemma moves_to_ext s s' w w' : (forall k, w k = w' k) -> moves_to s s' w -> moves_to s s' w'.
Proof. intros Hw [M1 M2 M3 M4 M5 M6]. split; try done. intros k. by rewrite M2. Qed.

Lemma ended_bind {A B} (x : res A) (a : A) (b : B) s s' (m : st SpillMap A) s0 : m s0 = (x, s') -> ended x a s s' ->
  exists y, st_bind m (fun _ => st_ret b) s0 = (y, s') /\ ended y b s s'.
Proof.
  intros Hm [[-> He]|[-> He]]; unfold st_bind; rewrite Hm; [exists (Ok b)|exists (Err EMemoryLimitExceeded)]; split; try done; [left|right]; done.
Qed.

Lemma insert_or_not key new b s : spill_ok s -> (fits -> peak_ok s) -> (forall r, new = Some r -> view_ok r) -> (fits -> short_key S key) ->
  (forall r, new = Some r -> (forall d, disk s = Some d -> disk_view d key = None) -> arc_in (heap s) r) -> (fits -> Z.of_nat (size (in_memory s)) + 1 <= N) ->
  exists x s', (let* _ := match new with Some r => spill_insert key r | None => st_ret tt end in st_ret b) s = (x, s') /\
    moves_to s s' (merged_view key new s) /\ ended x (b : bool) s s'.
Proof.
  intros Hs Hp Hv Hsh Ha Hl. destruct new as [r|].
  - destruct (spill_insert_spec key r s Hs Hp (Hv r eq_refl) Hsh (Ha r eq_refl) Hl) as (x & s' & H1 & M & Hx).
    destruct (ended_bind x tt b s s' (spill_insert key r) s H1 Hx) as (y & Hy & Hend). by exists y, s'.
  - exists (Ok b), s. split; [done|]. split; [|by apply ended_same]. split; try done. lia.
Qed.

Lemma spill_merge_spec heap0 key f o s : spill_ok s -> (fits -> peak_ok s) -> merge_ok heap0 f -> heap0 `prefix_of` heap s ->
  shows o (spill_view s key) -> (forall r, o = Some r -> view_ok r) -> (fits -> short_key S key) -> (fits -> Z.of_nat (size (in_memory s)) + 1 <= N) ->
  match f o with
  | Ok new => exists x s', spill_merge_in_place key f s = (x, s') /\ moves_to s s' (merged_view key new s) /\ ended x (bool_decide (is_Some o)) s s'
  | Err e => exists s', spill_merge_in_place key f s = (Err e, s') /\ moves_to s s' (spill_view s)
  | Panic => exists s', spill_merge_in_place key f s = (Panic, s') /\ moves_to s s' (spill_view s)
  end.
Proof.
  intros Hs Hp Hf Hh Ho Hov Hsh Hl.
  assert (Hsame : forall o', shows o' (spill_view s key) -> same_result (f o) (f o') /\ bool_decide (is_Some o') = bool_decide (is_Some o)).
  { intros o' Ho'. split; [by eapply mo_view|]. destruct o as [r|], o' as [r'|]; cbn in *; try done.
    - destruct Ho as [_ H]. rewrite Ho' in H. by destruct H.
    - destruct Ho' as [_ H]. rewrite Ho in H. by destruct H. }
  assert (Hnew : forall o' r', shows o' (spill_view s key) -> f o' = Ok (Some r') -> exists r, f o = Ok (Some r) /\ record_view r = record_view r' /\ view_ok r').
  { intros o' r' Ho' Hr'. destruct (Hsame o' Ho') as [Hx _]. rewrite Hr' in Hx. destruct (f o) as [[r|]| |] eqn:E; try done.
    exists r. split; [done|]. split; [done|]. destruct (mo_ok _ _ Hf o r Hov E) as (v & Hv & Hu). exists v. split; [|done].
    cbn in Hx. congruence. }
  assert (Hrefl : moves_to s s (spill_view s)) by (split; try done; lia).
  unfold spill_merge_in_place. destruct (disk s) as [d|] eqn:Ed.
  - destruct (spill_get_spec key s Hs) as (o' & s1 & H1 & M1 & Ho' & Hr1 & Hpk & Hm1 & Harc). rewrite (st_bind_ok _ _ _ _ _ H1).
    destruct (Hsame o' Ho') as [Hx Hb]. unfold st_lift. unfold st_bind at 1.
    assert (Hp1 : fits -> peak_ok s1) by (intros Hfi; unfold peak_ok; rewrite Hr1, Hpk; by apply Hp).
    assert (Hs1 : moves_to s s1 (spill_view s)) by (apply moves_to_moved; done).
    destruct (f o) as [new|e|] eqn:E; destruct (f o') as [new'|e'|] eqn:E'; try done; try by destruct new.
    + destruct (insert_or_not key new' (bool_decide (is_Some o')) s1) as (x & s' & H2 & M2 & Hend).
      * apply M1. * done. * intros r ->. by destruct (Hnew o' r Ho' E') as (_ & _ & _ & ?). * done.
      * intros r -> Hn. eapply mo_arc; [done| |by apply Harc|exact E']. etrans; [exact Hh|apply M1].
      * intros Hfi. rewrite Hm1. by apply Hl.
      * exists x, s'. split; [exact H2|]. split.
        -- destruct M2 as [N1 N2 N3 N4 N5 N6]. split; [done| |rewrite N3; apply M1|etrans; [apply M1|done]|by rewrite <- Hm1|done].
           intros k. rewrite N2. unfold merged_view. destruct new as [r|], new' as [r'|]; try done; unfold with_key; rewrite (mv_view _ _ M1); [|done].
           destruct (decide (k = key)); [|done]. by cbn in Hx.
        -- rewrite Hb in Hend. unfold ended in *. by rewrite Hr1, (mv_cap _ _ M1) in Hend.
    + assert (e' = e) as -> by (symmetry; exact Hx). by exists s1.
    + by exists s1.
  - destruct (in_memory s !! key) as [slot|] eqn:Ek.
    + destruct (so_mem s Hs key slot Ek) as ((v & Hv & Hu) & Ha & Hsk).
      assert (Ho' : shows (Some slot) (spill_view s key)) by (unfold spill_view; rewrite Ek; split; [done|by eexists]).
      destruct (Hsame _ Ho') as [Hx Hb]. unfold st_lift at 1. unfold st_bind at 1. unfold st_modify, st_bind at 1 2.
      destruct (f o) as [new|e|] eqn:E; destruct (f (Some slot)) as [new'|e'|] eqn:E'; try done; try by destruct new.
      * set (s1 := match new' with Some new => _ | None => _ end).
        assert (Hch : changed s s1 key (match new' with Some r => record_view r | None => spill_view s key end)).
        { subst s1. destruct new' as [r'|]; [|split; try done; [intros k; by rewrite with_key_same|lia]].
          apply replace_slot_changed; try done. destruct (Hnew _ r' Ho' E') as (_ & _ & _ & Hvr). split; [done|]. split; [|done].
          eapply mo_arc; [done|done| |exact E']. by intros ? [= <-]. }
        destruct (changed_settles _ _ _ _ Hch) as (x & s' & H2 & M2 & Hend).
        destruct (ended_bind x tt true s s' enforce_memory_limits (track_peak s1) H2 Hend) as (y & Hy & Hend').
        exists y, s'. split; [exact Hy|]. split.
        -- eapply moves_to_ext; [|exact M2]. intros k. cbn beta. unfold merged_view. destruct new as [r|], new' as [r'|]; try done; [by cbn in Hx; rewrite Hx|].
           apply with_key_same.
        -- rewrite <- Hb. done.
      * assert (e' = e) as -> by (symmetry; exact Hx). by exists s.
      * by exists s.
    + assert (Ho' : shows None (spill_view s key)) by (unfold spill_view; by rewrite Ek, Ed).
      destruct (Hsame _ Ho') as [Hx Hb]. unfold st_lift. unfold st_bind at 1.
      destruct (f o) as [new|e|] eqn:E; destruct (f None) as [new'|e'|] eqn:E'; try done; try by destruct new.
      * destruct (insert_or_not key new' false s) as (x & s' & H2 & M2 & Hend); try done.
        -- intros r ->. by destruct (Hnew _ r Ho' E') as (_ & _ & _ & ?).
        -- intros r -> _. eapply mo_arc; [done|done| |exact E']. done.
        -- exists x, s'. split; [exact H2|]. split.
           ++ eapply moves_to_ext; [|exact M2]. intros k. unfold merged_view. destruct new as [r|], new' as [r'|]; try done. by cbn in Hx; rewrite Hx.
           ++ rewrite <- Hb. done.
      * assert (e' = e) as -> by (symmetry; exact Hx). by exists s.
      * by exists s.
Qed.
End spec.

(** * Runs *)
Section runs.
Context {AB : ArrowBatch} {AR : ArrowRows} {AK : ArrowKernels} {AL : ArrowLaws} {AM : ArrowMemory} {AI : ArrowIpc} {HI : HashIter} {SD : SpillDb}.

(** The operations of the map, and what their callers see. *)
Inductive MapOp :=
  | OpInsert (key : string) (r : BufferedRecord)
  | OpMerge (key : string) (f : option BufferedRecord -> res (option BufferedRecord))
  | OpRemove (key : string)
  | OpGet (key : string)
  | OpContains (key : string)
  | OpLen
  | OpCompact (live_ratio_threshold : f64).

Inductive Seen :=
  | SeenNothing
  | SeenRecord (v : option View)
  | SeenBool (b : bool)
  | SeenLen (n : Z).

Definition spill_step (op : MapOp) : st SpillMap Seen :=
  match op with
  | OpInsert key r => let* _ := spill_insert key r in st_ret SeenNothing
  | OpMerge key f => let* b := spill_merge_in_place key f in st_ret (SeenBool b)
  | OpRemove key => let* o := spill_remove key in st_ret (SeenRecord (o ≫= record_view))
  | OpGet key => let* o := spill_get key in st_ret (SeenRecord (o ≫= record_view))
  | OpContains key => let* s := st_get in st_ret (SeenBool (spill_contains_key key s))
  | OpLen => let* s := st_get in st_ret (SeenLen (spill_len s))
  | OpCompact t => let* _ := compact_sparse_batches t in st_ret SeenNothing
  end.

(** The same on a plain map. *)
Definition plain_step (op : MapOp) : st (gmap string BufferedRecord) Seen := fun m =>
  match op with
  | OpInsert key r => (Ok SeenNothing, <[key := r]> m)
  | OpMerge key f =>
      match f (m !! key) with
      | Ok new => (Ok (SeenBool (bool_decide (is_Some (m !! key)))), match new with Some r => <[key := r]> m | None => m end)
      | Err e => (Err e, m)
      | Panic => (Panic, m)
      end
  | OpRemove key => (Ok (SeenRecord (m !! key ≫= record_view)), delete key m)
  | OpGet key => (Ok (SeenRecord (m !! key ≫= record_view)), m)
  | OpContains key => (Ok (SeenBool (bool_decide (is_Some (m !! key)))), m)
  | OpLen => (Ok (SeenLen (Z.of_nat (size m))), m)
  | OpCompact _ => (Ok SeenNothing, m)
  end.

Fixpoint run {M} (step : MapOp -> st M Seen) (ops : list MapOp) : st M (list Seen) :=
  match ops with
  | [] => st_ret []
  | op :: ops => let* x := step op in let* xs := run step ops in st_ret (x :: xs)
  end.

Definition is_compaction (op : MapOp) : bool := match op with OpCompact _ => true | _ => false end.

(** Records that can be stored, of the batches [heap0]. *)
Definition op_ok (universe : list Schema) (heap0 : list RecordBatch) (op : MapOp) : Prop :=
  match op with
  | OpInsert _ r => view_ok universe r /\ arc_in heap0 r
  | OpMerge _ f => merge_ok universe heap0 f
  | _ => True
  end.

(** What the key of a record read may be: that of the record the plain map has, or, of a
    record that is no delete, the key it is held under. *)
Definition key_near (k : string) (r0 r : BufferedRecord) : Prop :=
  record_key r = record_key r0 \/ is_delete r = false /\ record_key r = k.

Definition has_key_of (m : gmap string BufferedRecord) (k : string) (r : BufferedRecord) : Prop :=
  exists r0, m !! k = Some r0 /\ key_near k r0 r.

(** A merge whose result has the key of the record there is, of the map, or one of its own. *)
Definition merge_names (key : string) (f : option BufferedRecord -> res (option BufferedRecord)) : Prop :=
  forall o o' w r r', shows o w -> shows o' w -> (forall r0 r0', o = Some r0 -> o' = Some r0' -> key_near key r0 r0') ->
    f o = Ok (Some r) -> f o' = Ok (Some r') -> key_near key r r'.

Definition op_names (op : MapOp) : Prop := match op with OpMerge key f => merge_names key f | _ => True end.

Definition op_key_short (S : Z) (op : MapOp) : Prop :=
  match op with OpInsert key _ | OpMerge key _ => short_key S key | _ => True end.
End runs.

Section theorems.
Context {AB : ArrowBatch} {AR : ArrowRows} {AK : ArrowKernels} {AL : ArrowLaws} {AM : ArrowMemory} {AI : ArrowIpc} {IL : IpcLaws}
  {HI : HashIter} {HL : HashIterLaws} {SD : SpillDb} {SL : SpillDbLaws}.
Context (universe : list Schema) (Huniverse : Z.of_nat (length universe) <= 2 ^ 32).
Context (fits : Prop) (S N : Z) (HS : fits -> sizes S N /\ 0 <= S) (heap0 : list RecordBatch).

Definition related (w : string -> option View) (m : gmap string BufferedRecord) : Prop :=
  forall k, shows (m !! k) (w k) /\ forall r, m !! k = Some r -> view_ok universe r.

Lemma shows_view o w : shows o w -> o ≫= record_view = w.
Proof. destruct o as [r|]; [by intros [? _]|done]. Qed.

Lemma shows_some o w : shows o w -> is_Some o <-> is_Some w.
Proof. destruct o as [r|]; cbn; [|intros ->]; naive_solver. Qed.

Lemma related_insert w w' m key r : related w m -> view_ok universe r -> (forall k, w' k = with_key key (record_view r) w k) ->
  related w' (<[key := r]> m).
Proof.
  intros Hr Hv Hw k. rewrite Hw. unfold with_key. destruct (decide (k = key)) as [->|]; [|rewrite lookup_insert_ne by done; apply Hr].
  rewrite lookup_insert_eq. split; [|by intros ? [= <-]]. split; [done|]. destruct Hv as (v & -> & _). by eexists.
Qed.

Lemma related_delete w w' m key : related w m -> (forall k, w' k = with_key key None w k) -> related w' (delete key m).
Proof.
  intros Hr Hw k. rewrite Hw. unfold with_key. destruct (decide (k = key)) as [->|]; [|rewrite lookup_delete_ne by done; apply Hr].
  by rewrite lookup_delete_eq.
Qed.

Lemma related_ext w w' m : related w m -> (forall k, w' k = w k) -> related w' m.
Proof. intros Hr Hw k. rewrite Hw. apply Hr. Qed.

(** ** The keys of the records held *)

Definition keys_of (m : gmap string BufferedRecord) (k rk : string) : Prop := rk = k \/ exists r, m !! k = Some r /\ rk = record_key r.

Lemma keys_of_near m k r0 r w : m !! k = Some r0 -> shows (Some r0) w -> shows (Some r) w ->
  (is_delete r = false -> keys_of m k (record_key r)) -> key_near k r0 r.
Proof.
  intros Hm [H0 [v ->]] [H1 _] Hr. unfold key_near. destruct (is_delete r) eqn:E.
  - left. destruct v as [s row o|k' o]; [apply record_view_data in H1 as [H1 _]; congruence|].
    apply record_view_delete in H0 as (_ & H0 & _), H1 as (_ & H1 & _). congruence.
  - destruct (Hr eq_refl) as [->|(r1 & Hr1 & ->)]; [by right|]. left. congruence.
Qed.

Lemma near_keys_of m key r r' : key_near key r r' -> keys_of (<[key := r]> m) key (record_key r').
Proof. intros [->|[_ ->]]; [right; exists r; by rewrite lookup_insert_eq|by left]. Qed.

Lemma keys_of_insert m key r k rk : k <> key -> keys_of m k rk -> keys_of (<[key := r]> m) k rk.
Proof. intros Hne. unfold keys_of. by rewrite lookup_insert_ne. Qed.

Lemma keys_of_delete m key k rk : k <> key -> keys_of m k rk -> keys_of (delete key m) k rk.
Proof. intros Hne. unfold keys_of. by rewrite lookup_delete_ne. Qed.

Lemma held_once s d key : spill_ok universe fits S N s -> disk s = Some d -> is_Some (in_memory s !! key) -> staging d !! key = None.
Proof.
  intros Hs Hd Hk. destruct (so_disk _ _ _ _ s Hs d Hd) as [[[_ _ Hst _ _] _] Hv]. specialize (Hv key Hk). unfold disk_view in Hv.
  destruct (staging d !! key) as [r|] eqn:E; [|done]. destruct (Hst key r E) as (x & row & o & H & _). congruence.
Qed.

Lemma named_but_other P P' key s : spill_ok universe fits S N s -> (forall k rk, k <> key -> P k rk -> P' k rk) ->
  spill_named P s -> named_but P' key s.
Proof.
  intros Hs HP [H1 H2]. split.
  - intros k r Hne Hk. by apply HP, H1.
  - intros d Hd k r Hne Hk. apply HP, (H2 d Hd k r); done.
  - intros d Hd. by apply held_once.
Qed.

Lemma spill_get_near key s s' m r0 r : spill_ok universe fits S N s -> related (spill_view s) m -> spill_named (keys_of m) s ->
  m !! key = Some r0 -> spill_get key s = (Ok (Some r), s') -> key_near key r0 r.
Proof.
  intros Hs Hrel Hn Hm Hg. destruct (spill_get_spec universe fits S N key s Hs) as (o & s1 & H1 & _ & Ho & _).
  rewrite Hg in H1. injection H1 as <- <-. destruct (Hrel key) as [H0 _]. rewrite Hm in H0.
  eapply keys_of_near; [done|exact H0|exact Ho|]. apply (spill_get_named (keys_of m) key s r s'); [by left|done..].
Qed.

Lemma has_key_of_view w m k r v : related w m -> w k = Some v -> record_view r = Some v -> read_named (keys_of m) k r -> has_key_of m k r.
Proof.
  intros Hrel Hw Hr Hk. destruct (Hrel k) as [H0 _]. destruct (m !! k) as [r0|] eqn:Em; [|cbn in H0; congruence].
  exists r0. split; [done|]. eapply (keys_of_near m k r0 r (w k)); [done|done|split; [by rewrite Hw|by eexists]|].
  intros Hd. destruct (Hk Hd) as [->|H]; [by left|done].
Qed.

(** Taking a record out reads it. *)
Lemma spill_remove_reads key s : (spill_remove key s).1 = (spill_get key s).1.
Proof.
  unfold spill_remove, spill_get. destruct (in_memory s !! key); [done|]. destruct (disk s) as [d|] eqn:E; [|done].
  unfold on_disk. rewrite E. unfold disk_remove, st_bind, st_ret, st_modify. destruct (disk_get key d) as [[[r|]| |] d1]; done.
Qed.

Lemma merge_named key f s m new : spill_ok universe fits S N s -> related (spill_view s) m -> spill_named (keys_of m) s ->
  merge_ok universe heap0 f -> merge_names key f -> f (m !! key) = Ok new ->
  spill_named (keys_of (match new with Some r => <[key := r]> m | None => m end)) (spill_merge_in_place key f s).2.
Proof.
  intros Hs Hrel Hn Hf Hk Hnew. destruct (Hrel key) as [Hsh _]. set (m' := match new with Some r => _ | None => _ end).
  assert (Hres : forall o' x, shows o' (spill_view s key) -> (forall r0 r0', m !! key = Some r0 -> o' = Some r0' -> key_near key r0 r0') ->
    f o' = x -> match x with
      | Ok (Some r') => (forall k rk, k <> key -> keys_of m k rk -> keys_of m' k rk) /\ named (keys_of m') key r'
      | _ => m' = m end).
  { intros o' x Ho' Hnear <-. pose proof (mo_view _ _ _ Hf _ _ _ Hsh Ho') as Hx. rewrite Hnew in Hx.
    destruct new as [r|], (f o') as [[r'|]| |] eqn:E; try done. split; [intros k rk; apply keys_of_insert|].
    apply near_keys_of. by apply (Hk _ _ _ _ _ Hsh Ho' Hnear Hnew E). }
  unfold spill_merge_in_place. destruct (disk s) as [d|] eqn:Ed.
  - destruct (spill_get_spec universe fits S N key s Hs) as (o' & s1 & H1 & M1 & Ho' & _). rewrite (st_bind_ok _ _ _ _ _ H1).
    pose proof (spill_get_kept (keys_of m) key s Hn) as Hn1. rewrite H1 in Hn1. cbn [snd] in Hn1.
    assert (Hx := Hres o' (f o') Ho'). unfold st_bind, st_lift.
    destruct (f o') as [[r'|]| |] eqn:E; cbn.
    + destruct Hx as [Hother Hr']; [|done|].
      { intros r0 r0' Hm ->. by apply (spill_get_near key s s1 m). }
      pose proof (spill_insert_named (keys_of m') key r' s1 (named_but_other _ _ _ _ (mv_ok _ _ _ _ _ _ M1) Hother Hn1) Hr') as H.
      unfold st_ret. destruct (spill_insert key r' s1) as [[]]; done.
    + rewrite Hx; [done| |done]. intros r0 r0' Hm ->. by apply (spill_get_near key s s1 m).
    + rewrite Hx; [done| |done]. intros r0 r0' Hm ->. by apply (spill_get_near key s s1 m).
    + rewrite Hx; [done| |done]. intros r0 r0' Hm ->. by apply (spill_get_near key s s1 m).
  - destruct (in_memory s !! key) as [slot|] eqn:Ek.
    + assert (Ho' : shows (Some slot) (spill_view s key)).
      { unfold spill_view. rewrite Ek. split; [done|]. destruct (so_mem _ _ _ _ s Hs key slot Ek) as ((v & -> & _) & _). by eexists. }
      assert (Hx := Hres (Some slot) (f (Some slot)) Ho').
      assert (Hnear : forall r0 r0', m !! key = Some r0 -> Some slot = Some r0' -> key_near key r0 r0').
      { intros r0 r0' Hm [= <-]. apply (spill_get_near key s s m); try done. unfold spill_get. by rewrite Ek. }
      specialize (Hx Hnear eq_refl). unfold st_bind at 1, st_lift. destruct (f (Some slot)) as [new'| |]; [|by rewrite Hx..].
      set (s1 := match new' with Some new => replace_slot key slot new s | None => s end).
      assert (Hs1 : spill_named (keys_of m') s1).
      { subst s1. destruct new' as [r'|]; [|by rewrite Hx]. destruct Hx as [Hother Hr'].
        destruct (named_but_other _ _ _ _ Hs Hother Hn) as [B1 B2 B3]. split; cbn; [|intros d Hd; congruence].
        intros k r0 Hk0. destruct (decide (k = key)) as [->|Hne]; [rewrite lookup_insert_eq in Hk0; by simplify_eq|].
        rewrite lookup_insert_ne in Hk0 by done. by apply B1. }
      change (spill_named (keys_of m') ((let* _ := st_modify track_peak in let* _ := enforce_memory_limits in st_ret true) s1).2).
      apply (kept_bind (spill_named (keys_of m'))); [apply track_peak_kept|intros _|done].
      apply (kept_bind (spill_named (keys_of m'))); [apply enforce_kept|intros _; apply kept_ret].
    + assert (Ho' : shows None (spill_view s key)) by (unfold spill_view; by rewrite Ek, Ed).
      assert (Hx := Hres None (f None) Ho' ltac:(done) eq_refl). unfold st_bind at 1, st_lift.
      destruct (f None) as [[r'|]| |]; [|by rewrite Hx..]. destruct Hx as [Hother Hr'].
      pose proof (spill_insert_named (keys_of m') key r' s (named_but_other _ _ _ _ Hs Hother Hn) Hr') as H.
      unfold st_bind, st_ret. destruct (spill_insert key r' s) as [[]]; done.
Qed.

(** A merge that fails leaves what is held. *)
Lemma merge_failed_named P key f s w : spill_ok universe fits S N s -> merge_ok universe heap0 f -> shows w (spill_view s key) ->
  (forall x, f w <> Ok x) -> spill_named P s -> spill_named P (spill_merge_in_place key f s).2.
Proof.
  intros Hs Hf Hw Hx Hn.
  assert (Hfail : forall o', shows o' (spill_view s key) -> match f o' with Ok _ => False | _ => True end).
  { intros o' Ho'. pose proof (mo_view _ _ _ Hf _ _ _ Hw Ho') as H. destruct (f w) as [x| |]; [by destruct (Hx x)|by destruct (f o')..]. }
  unfold spill_merge_in_place. destruct (disk s) as [d|] eqn:Ed.
  - destruct (spill_get_spec universe fits S N key s Hs) as (o' & s1 & H1 & _ & Ho' & _). rewrite (st_bind_ok _ _ _ _ _ H1).
    pose proof (spill_get_kept P key s Hn) as Hn1. rewrite H1 in Hn1. cbn [snd] in Hn1. specialize (Hfail o' Ho').
    unfold st_bind, st_lift. by destruct (f o').
  - destruct (in_memory s !! key) as [slot|] eqn:Ek; unfold st_bind, st_lift.
    + specialize (Hfail (Some slot)). destruct (f (Some slot)); [|done..]. destruct Hfail. unfold spill_view. rewrite Ek.
      split; [done|]. destruct (so_mem _ _ _ _ s Hs key slot Ek) as ((v & -> & _) & _). by eexists.
    + specialize (Hfail None). destruct (f None); [|done..]. destruct Hfail. unfold spill_view. by rewrite Ek, Ed.
Qed.

(** The state of a run. *)
Record running (s : SpillMap) (n : nat) : Prop := {
  rn_ok : spill_ok universe fits S N s;
  rn_peak : fits -> peak_ok s;
  rn_heap : heap0 `prefix_of` heap s;
  rn_size : (size (in_memory s) <= n)%nat
}.

Lemma running_moves s s' n w : running s n -> moves_to universe fits S N s s' w -> running s' (Datatypes.S n).
Proof. intros [R1 R2 R3 R4] [M1 M2 M3 M4 M5 M6]. split; try done; [by etrans|lia]. Qed.

Lemma step_spec op s n m : running s n -> related (spill_view s) m -> op_ok universe heap0 op -> (fits -> op_key_short S op) ->
  (fits -> Z.of_nat n + 1 <= N) ->
  exists x s', spill_step op s = (x, s') /\ running s' (Datatypes.S n) /\ max_peak_in_memory_size s' = max_peak_in_memory_size s /\
    ((exists m', plain_step op m = (x, m') /\ related (spill_view s') m' /\
        (fits -> is_compaction op = false -> forall y, x = Ok y -> forall cap, max_peak_in_memory_size s = Some cap -> true_retained_bytes s <= cap -> true_retained_bytes s' <= cap)) \/
     (x = Err EMemoryLimitExceeded /\ exists cap, max_peak_in_memory_size s = Some cap /\ cap < true_retained_bytes s')).
Proof.
  intros Hrun Hrel Hop Hsh Hn. assert (Hrun' := Hrun). destruct Hrun' as [R1 R2 R3 R4].
  assert (Hsz : fits -> Z.of_nat (size (in_memory s)) + 1 <= N) by (intros Hf; specialize (Hn Hf); lia).
  assert (Hsame : running s (Datatypes.S n)) by (split; try done; lia).
  destruct op as [key r|key f|key|key|key| |t]; cbn [spill_step plain_step op_ok op_key_short is_compaction] in *.
  - destruct Hop as [Hv Ha].
    destruct (spill_insert_spec universe Huniverse fits S N HS key r s R1 R2 Hv Hsh) as (x & s' & H1 & M & Hx); [|done|].
    { intros _. destruct R3 as [l ->]. unfold arc_in in *. destruct (payload r); [by apply lookup_app_l_Some|done..]. }
    unfold st_bind. rewrite H1. exists (res_map (fun _ => SeenNothing) x), s'.
    split; [by destruct x as [[]| |]|]. split; [by eapply running_moves|]. split; [apply M|].
    destruct Hx as [[-> Hcap]|[-> Hcap]]; [left|by right]. eexists. split; [reflexivity|]. split; [|by intros Hf _ _ _; apply Hcap].
    apply (related_insert _ _ _ _ _ Hrel Hv). apply M.
  - destruct (Hrel key) as [Hshow Hvok]. pose proof (spill_merge_spec universe Huniverse fits S N HS heap0 key f (m !! key) s R1 R2 Hop R3 Hshow Hvok Hsh Hsz) as Hm.
    destruct (f (m !! key)) as [new|e|] eqn:Ef.
    + destruct Hm as (x & s' & H1 & M & Hx). unfold st_bind. rewrite H1. exists (res_map SeenBool x), s'.
      split; [by destruct x|]. split; [by eapply running_moves|]. split; [apply M|].
      destruct Hx as [[-> Hcap]|[-> Hcap]]; [left|by right]. eexists. split; [reflexivity|]. split; [|by intros Hf _ _ _; apply Hcap].
      destruct new as [r|]; [|apply (related_ext _ _ _ Hrel); apply M].
      apply (related_insert _ _ _ _ _ Hrel); [eapply mo_ok; [done|exact Hvok|done]|apply M].
    + destruct Hm as (s' & H1 & M). unfold st_bind. rewrite H1. eexists _, s'. split; [reflexivity|]. split; [by eapply running_moves|]. split; [apply M|].
      left. eexists. split; [reflexivity|]. split; [apply (related_ext _ _ _ Hrel); apply M|done].
    + destruct Hm as (s' & H1 & M). unfold st_bind. rewrite H1. eexists _, s'. split; [reflexivity|]. split; [by eapply running_moves|]. split; [apply M|].
      left. eexists. split; [reflexivity|]. split; [apply (related_ext _ _ _ Hrel); apply M|done].
  - destruct (spill_remove_spec universe Huniverse fits S N HS key s R1 R2) as (o & s' & H1 & M & Ho & Hle).
    rewrite (st_bind_ok _ _ _ _ _ H1). eexists _, s'. split; [reflexivity|]. split; [by eapply running_moves|]. split; [apply M|]. left.
    eexists. rewrite (shows_view _ _ Ho), (shows_view _ _ (proj1 (Hrel key))). split; [reflexivity|]. split.
    + apply (related_delete _ _ _ key Hrel). apply M.
    + intros Hf _ _ _ cap _ Hcap. specialize (Hle Hf). lia.
  - destruct (spill_get_spec universe fits S N key s R1) as (o & s' & H1 & M & Ho & Hr & Hpk & _).
    rewrite (st_bind_ok _ _ _ _ _ H1). eexists _, s'. split; [reflexivity|].
    split; [|split; [apply M|left]].
    + eapply running_moves; [done|]. apply moves_to_moved; [done|]. intros Hf. unfold peak_ok. rewrite Hr, Hpk. by apply R2.
    + eexists. rewrite (shows_view _ _ Ho), (shows_view _ _ (proj1 (Hrel key))). split; [reflexivity|]. split; [|by rewrite Hr].
      apply (related_ext _ _ _ Hrel). apply M.
  - unfold st_get, st_bind, st_ret. eexists _, s. split; [reflexivity|]. split; [done|]. split; [done|]. left.
    eexists. split; [|by split]. rewrite (spill_contains_key_spec universe fits S N key s R1).
    do 3 f_equal. apply bool_decide_ext. apply shows_some, Hrel.
  - unfold st_get, st_bind, st_ret. eexists _, s. split; [reflexivity|]. split; [done|]. split; [done|]. left.
    eexists. split; [|by split]. destruct (spill_len_spec universe fits S N HS s R1) as (X & -> & HX). do 4 f_equal.
    rewrite <- (size_dom (D := gset string) m). f_equal. apply set_eq. intros k. rewrite HX, elem_of_dom. apply shows_some, Hrel.
  - unfold compact_sparse_batches. unfold st_bind at 1.
    destruct (compact_groups_moved universe fits S N HS t (hash_iter (victims s)) s R1) as (s1 & H1 & M1).
    { apply (victims_spec universe fits S N); [done|]. apply hash_iter_perm. }
    rewrite (st_bind_ok _ _ _ _ _ H1). unfold st_modify, st_ret.
    destruct (track_peak_moved universe fits S N s1) as (M2 & Hp & _); [apply M1|].
    assert (M : moved universe fits S N s (track_peak s1)) by (by eapply moved_trans).
    eexists _, _. split; [reflexivity|]. split; [|split; [apply M|left]].
    + eapply running_moves; [done|]. by apply moves_to_moved.
    + eexists. split; [reflexivity|]. split; [|done]. apply (related_ext _ _ _ Hrel). apply M.
Qed.

Lemma bind_ret_state {A B} (m : st SpillMap A) (g : A -> B) s : (st_bind m (fun a => st_ret (g a)) s).2 = (m s).2.
Proof. unfold st_bind, st_ret. by destruct (m s) as [[]]. Qed.

(** The keys held are those of the plain map, or the map's own. *)
Lemma step_named op s n m : running s n -> related (spill_view s) m -> op_ok universe heap0 op -> op_names op ->
  spill_named (keys_of m) s -> spill_named (keys_of (plain_step op m).2) (spill_step op s).2.
Proof.
  intros [R1 _ _ _] Hrel Hop Hnm Hn. destruct op as [key r|key f|key|key|key| |t]; cbn [spill_step plain_step op_ok op_names] in *.
  - rewrite (bind_ret_state _ (fun _ => SeenNothing)). apply spill_insert_named; [|by apply near_keys_of; left].
    apply (named_but_other (keys_of m)); [done|intros k rk; apply keys_of_insert|done].
  - rewrite (bind_ret_state _ SeenBool). destruct (Hrel key) as [Hsh _].
    destruct (f (m !! key)) as [new| |] eqn:E; [by apply merge_named|by apply (merge_failed_named _ key f s _ R1 Hop Hsh); [rewrite E|]..].
  - rewrite (bind_ret_state _ (fun o => SeenRecord (o ≫= record_view))). apply spill_remove_named.
    apply (named_but_other (keys_of m)); [done|intros k rk; apply keys_of_delete|done].
  - rewrite (bind_ret_state _ (fun o => SeenRecord (o ≫= record_view))). by apply spill_get_kept.
  - done.
  - done.
  - rewrite (bind_ret_state _ (fun _ => SeenNothing)). by apply compact_sparse_kept.
Qed.

Lemma run_spec ops : forall s n m, running s n -> related (spill_view s) m -> (forall op, op ∈ ops -> op_ok universe heap0 op) ->
  (fits -> forall op, op ∈ ops -> op_key_short S op) -> (fits -> Z.of_nat (n + length ops) <= N) ->
  exists x s', run spill_step ops s = (x, s') /\ running s' (n + length ops) /\ max_peak_in_memory_size s' = max_peak_in_memory_size s /\
    ((exists m', run plain_step ops m = (x, m') /\ related (spill_view s') m' /\
        ((forall op, op ∈ ops -> op_names op) -> spill_named (keys_of m) s -> spill_named (keys_of m') s') /\
        (fits -> (forall op, op ∈ ops -> is_compaction op = false) -> forall y, x = Ok y ->
          forall cap, max_peak_in_memory_size s = Some cap -> true_retained_bytes s <= cap -> true_retained_bytes s' <= cap)) \/
     (x = Err EMemoryLimitExceeded /\ exists cap, max_peak_in_memory_size s = Some cap /\ cap < true_retained_bytes s')).
Proof.
  induction ops as [|op ops IH]; intros s n m Hrun Hrel Hok Hsh Hn; cbn [run length] in *.
  { exists (Ok []), s. rewrite Nat.add_0_r. split; [done|]. split; [done|]. split; [done|]. left. exists m. by split_and!. }
  destruct (step_spec op s n m Hrun Hrel) as (x & s1 & H1 & Hrun1 & Hcap1 & Hx);
    [apply Hok; by left|intros Hf; apply (Hsh Hf); by left|intros Hf; specialize (Hn Hf); lia|].
  assert (Hmore : running s1 (n + Datatypes.S (length ops))).
  { destruct Hrun1 as [R1 R2 R3 R4]. split; try done. lia. }
  assert (Hnamed : forall m1, plain_step op m = (x, m1) -> op_names op -> spill_named (keys_of m) s -> spill_named (keys_of m1) s1).
  { intros m1 Hm1 Hnm Hkeys. pose proof (step_named op s n m Hrun Hrel (Hok op ltac:(by left)) Hnm Hkeys) as H. by rewrite H1, Hm1 in H. }
  unfold st_bind at 1. rewrite H1. destruct Hx as [(m1 & Hm1 & Hrel1 & Hc1)|(-> & Hc)].
  - unfold st_bind at 2. rewrite Hm1. destruct x as [y|e|].
    + destruct (IH s1 (Datatypes.S n) m1 Hrun1 Hrel1) as (x2 & s2 & H2 & Hrun2 & Hcap2 & Hx2).
      { intros o Ho. apply Hok. by right. } { intros Hf o Ho. apply (Hsh Hf). by right. } { intros Hf. specialize (Hn Hf). lia. }
      rewrite Nat.add_succ_comm in Hrun2. unfold st_bind. rewrite H2.
      exists (res_map (cons y) x2), s2. split; [by destruct x2|]. split; [done|]. split; [congruence|].
      destruct Hx2 as [(m2 & Hm2 & Hrel2 & Hnm2 & Hc2)|(-> & Hc)]; [left|right; split; [done|by rewrite <- Hcap1]].
      exists m2. rewrite Hm2. split; [by destruct x2|]. split; [done|].
      split. { intros Hnm Hkeys. apply Hnm2; [intros o Ho; apply Hnm; by right|]. apply Hnamed; [done|apply Hnm; by left|done]. }
      intros Hf Hnc z Hz cap Hcap Hle. destruct x2 as [ys| |]; [|done..].
      apply (Hc2 Hf) with ys; try done; [intros o Ho; apply Hnc; by right|by rewrite Hcap1|].
      apply (Hc1 Hf) with y; try done. apply Hnc. by left.
    + exists (Err e), s1. split; [done|]. split; [done|]. split; [done|]. left. exists m1. split_and!; try done. intros Hnm. apply Hnamed; [done|apply Hnm; by left].
    + exists Panic, s1. split; [done|]. split; [done|]. split; [done|]. left. exists m1. split_and!; try done. intros Hnm. apply Hnamed; [done|apply Hnm; by left].
  - exists (Err EMemoryLimitExceeded), s1. split; [done|]. split; [done|]. split; [done|]. by right.
Qed.

(** Where a run starts; the batches of its records are there. *)
Definition spill_start (config : SpillConfig) : SpillMap := set_heap heap0 (spill_with_config config).

Lemma running_start config : (fits -> 0 <= N) -> running (spill_start config) 0.
Proof.
  intros HN. by split.
Qed.

Lemma related_start config : related (spill_view (spill_start config)) ∅.
Proof. intros k. by rewrite lookup_empty. Qed.

(** The tracked bytes are those retained. *)
Lemma tracked_is_retained s : fits -> spill_ok universe fits S N s -> true_retained_bytes s = retained_by (heap s) (in_memory s).
Proof.
  intros Hf Hs. destruct (HS Hf) as [Hsz H0]. destruct (so_account _ _ _ _ s Hs Hf) as [Hp Hn].
  pose proof (pins_total_bound S N _ _ _ Hsz H0 Hp) as Hb. destruct (mem_items _ _ _ _ _ (so_mem _ _ _ _ s Hs)) as [_ Hkeys].
  pose proof (items_bytes_bound S N _ Hsz H0 (Hkeys Hf)) as Hi. pose proof (sz_fit _ _ Hsz) as Hfit.
  pose proof (so_size _ _ _ _ s Hs Hf) as Hl. rewrite <- length_map_to_list in Hl.
  unfold true_retained_bytes, retained_by, saturating_add. rewrite Hn, <- (pins_ok_ptrs _ _ _ Hp). unfold ENTRY_OVERHEAD_BYTES in *. nia.
Qed.
End theorems.

(** * Merges of log records *)
Section merges.
Context {AB : ArrowBatch} {AR : ArrowRows} {AK : ArrowKernels} {AL : ArrowLaws}.

Lemma view_decides r r' v : record_view r = Some v -> record_view r' = Some v -> is_delete r = is_delete r' /\ ordering_value r = ordering_value r'.
Proof.
  destruct v as [s row o|k o]; intros H1 H2.
  - destruct (record_view_data _ _ _ _ H1) as (-> & -> & _). by destruct (record_view_data _ _ _ _ H2) as (-> & -> & _).
  - destruct (record_view_delete _ _ _ H1) as (-> & _ & ->). by destruct (record_view_delete _ _ _ H2) as (-> & _ & ->).
Qed.

Lemma shows_both (o o' : option BufferedRecord) w : shows o w -> shows o' w ->
  o = None /\ o' = None \/ exists r r' v, o = Some r /\ o' = Some r' /\ record_view r = Some v /\ record_view r' = Some v.
Proof.
  destruct o as [r|], o' as [r'|]; cbn; [|intros [H1 H2] ->; by destruct H2|intros -> [H1 H2]; by destruct H2|by left].
  intros [H1 [v ->]] [H2 _]. right. by exists r, r', v.
Qed.

Lemma merge_ok_event_time universe heap0 new : view_ok universe new -> arc_in heap0 new ->
  merge_ok universe heap0 (delta_merge (BufferedRecordMerger := EventTimeRecordMerger) new).
Proof.
  intros Hv Ha. split.
  - intros o o' w H1 H2. destruct (shows_both o o' w H1 H2) as [[-> ->]|(r & r' & v & -> & -> & E1 & E2)]; [done|].
    cbn [delta_merge EventTimeRecordMerger event_time_delta_merge]. destruct (view_decides r r' v E1 E2) as [Hd Ho].
    unfold should_keep_newer_record, is_commit_time_ordering_delete. rewrite Hd, Ho. case_match; cbn; congruence.
  - intros o r Ho. cbn. unfold event_time_delta_merge. destruct o as [r0|]; [case_match|]; intros [= <-]; [done|by apply Ho|done].
  - intros h o r [l ->] Ho. cbn. unfold event_time_delta_merge.
    assert (arc_in (heap0 ++ l) new) by (unfold arc_in in *; destruct (payload new); [by apply lookup_app_l_Some|done..]).
    destruct o as [r0|]; [case_match|]; intros [= <-]; [done|by apply Ho|done].
Qed.

Lemma merge_ok_event_time_delete universe heap0 d :
  merge_ok universe heap0 (fun o => res_map (fmap from_delete_record) (delta_merge_delete (BufferedRecordMerger := EventTimeRecordMerger) d o)).
Proof.
  split.
  - intros o o' w H1 H2. destruct (shows_both o o' w H1 H2) as [[-> ->]|(r & r' & v & -> & -> & E1 & E2)]; [done|].
    cbn [delta_merge_delete EventTimeRecordMerger event_time_delta_merge_delete]. destruct (view_decides r r' v E1 E2) as [Hd Ho].
    unfold is_commit_time_ordering_delete. rewrite Hd, Ho. by repeat case_match.
  - intros o r _. cbn. unfold event_time_delta_merge_delete.
    repeat case_match; cbn; intros [= <-]; by eexists.
  - intros h o r _ _. cbn. unfold event_time_delta_merge_delete. repeat case_match; cbn; by intros [= <-].
Qed.

Lemma merge_names_event_time key new : merge_names key (delta_merge (BufferedRecordMerger := EventTimeRecordMerger) new).
Proof.
  intros o o' w r r' H1 H2 Hk. destruct (shows_both o o' w H1 H2) as [[-> ->]|(r0 & r0' & v & -> & -> & E1 & E2)].
  - intros [= <-] [= <-]. by left.
  - specialize (Hk _ _ eq_refl eq_refl). cbn. unfold event_time_delta_merge, should_keep_newer_record, is_commit_time_ordering_delete.
    destruct (view_decides r0 r0' v E1 E2) as [-> ->]. case_match; intros [= <-] [= <-]; [by left|done].
Qed.

Lemma merge_names_event_time_delete key d :
  merge_names key (fun o => res_map (fmap from_delete_record) (delta_merge_delete (BufferedRecordMerger := EventTimeRecordMerger) d o)).
Proof.
  intros o o' w r r' _ _ _. cbn. unfold event_time_delta_merge_delete.
  repeat case_match; cbn; intros [= <-] [= <-]; by left.
Qed.
End merges.

(** C15: whatever it compacts or spills, the spillable map is a map: on a working disk
    tier any operations on records of at most 2^32 schemas, whose merges go by what is
    seen of the record there is, see what they see on a plain map from keys to records,
    fail as they fail there, and leave the same records to drain -- up to the batch a
    row is held in and the key a record of a row carries -- unless a peak cap is set
    and what is retained exceeds it, which is its error. A record drained, got or
    removed at the end carries the key the record of the plain map carries, or, if it
    is no delete, the key it is held under, which is all the disk tier keeps; as long
    as merges give their result the key of the new record, of the one there is, or of
    the map. *)
Theorem spillable_map_is_a_map {AB : ArrowBatch} {AR : ArrowRows} {AK : ArrowKernels} {AL : ArrowLaws} {AM : ArrowMemory} {AI : ArrowIpc}
    {IL : IpcLaws} {HI : HashIter} {HL : HashIterLaws} {SD : SpillDb} {SL : SpillDbLaws} universe heap0 config ops :
  Z.of_nat (length universe) <= 2 ^ 32 -> (forall op, op ∈ ops -> op_ok universe heap0 op) ->
  let '(x, s) := run spill_step ops (spill_start heap0 config) in
  (exists m rs, run plain_step ops ∅ = (x, m) /\ spill_drain s = Ok <$> rs /\ drained (fun k => m !! k ≫= record_view) rs /\
    ((forall op, op ∈ ops -> op_names op) ->
      drained_as (has_key_of m) (fun k => m !! k ≫= record_view) rs /\
      forall key r, (spill_get key s).1 = Ok (Some r) \/ (spill_remove key s).1 = Ok (Some r) -> has_key_of m key r)) \/
  (x = Err EMemoryLimitExceeded /\ exists cap, cfg_max_peak_in_memory_size config = Some cap /\ cap < true_retained_bytes s).
Proof.
  intros Hu Hok.
  destruct (run_spec universe Hu False 0 0 ltac:(done) heap0 ops (spill_start heap0 config) 0 ∅) as (x & s & -> & Hrun & _ & Hx);
    [by apply running_start|apply related_start|done..|].
  destruct Hx as [(m & Hm & Hrel & Hnm & _)|Hx]; [left|by right].
  assert (Hok' := rn_ok _ _ _ _ _ _ _ Hrun).
  assert (Hw : forall k, spill_view s k = m !! k ≫= record_view) by (intros k; by rewrite (shows_view _ _ (proj1 (Hrel k)))).
  destruct (spill_drain_spec universe Hu False 0 0 ltac:(done) (fun _ _ => True) s Hok') as (rs & Hrs & Hd); [by split; intros ?|].
  exists m, rs. split; [done|]. split; [done|]. split; [by eapply drained_as_mono, Hd|]. intros Hnames.
  assert (Hkeys : spill_named (keys_of m) s) by (apply Hnm; [done|split; [apply map_Forall_empty|done]]).
  split.
  - destruct (spill_drain_spec universe Hu False 0 0 ltac:(done) (keys_of m) s Hok' Hkeys) as (rs' & Hrs' & Hd').
    rewrite Hrs in Hrs'. assert (rs = rs') as <- by (apply (list_fmap_eq_inj Ok); [by intros ? ? [=]|done]). eapply drained_as_mono, Hd'; [done|]. intros k r v Hv Hr Hq.
    by eapply (has_key_of_view universe).
  - intros key r Hr. rewrite spill_remove_reads in Hr. destruct (spill_get key s) as [y s'] eqn:E. assert (y = Ok (Some r)) as -> by tauto.
    destruct (spill_get_spec universe False 0 0 key s Hok') as (o & s1 & H1 & _ & Ho & _). rewrite E in H1. injection H1 as <- <-.
    destruct (Hrel key) as [H0 _]. destruct (m !! key) as [r0|] eqn:Em; [|rewrite H0 in Ho; by destruct Ho as [_ [? ?]]].
    exists r0. split; [done|]. by eapply (spill_get_near universe False 0 0 key s s' m).
Qed.

(** C16: the accounting is exact: while the sums fit in 64 bits, after any operations -- also
    when they fail -- the tracked bytes are those of the distinct batches the in-memory
    entries refer to, each once, with what the entries own and their overhead, and the
    peak is no less. *)
Theorem retained_bytes_exact {AB : ArrowBatch} {AR : ArrowRows} {AK : ArrowKernels} {AL : ArrowLaws} {AM : ArrowMemory} {AI : ArrowIpc}
    {IL : IpcLaws} {HI : HashIter} {HL : HashIterLaws} {SD : SpillDb} {SL : SpillDbLaws} universe heap0 config ops S :
  Z.of_nat (length universe) <= 2 ^ 32 -> (forall op, op ∈ ops -> op_ok universe heap0 op /\ op_key_short S op) ->
  sizes S (Z.of_nat (length ops)) -> 0 <= S ->
  let s := (run spill_step ops (spill_start heap0 config)).2 in
  true_retained_bytes s = retained_by (heap s) (in_memory s) /\ true_retained_bytes s <= peak_in_memory_size s.
Proof.
  intros Hu Hok HS H0.
  destruct (run_spec universe Hu True S (Z.of_nat (length ops)) ltac:(done) heap0 ops (spill_start heap0 config) 0 ∅) as (x & s & -> & Hrun & _);
    [apply running_start; lia|apply related_start|intros; by apply Hok|intros; by apply Hok|intros _; cbn; lia|].
  cbn [snd]. destruct Hrun as [R1 R2 _ _]. split; [|by apply R2].
  by apply (tracked_is_retained universe Hu True S (Z.of_nat (length ops)) ltac:(done)).
Qed.

(** C17: a peak cap is kept: when operations succeed under a cap, what the entries retain is
    within it at the end -- compaction of sparse batches after the scan apart, which
    looks at no limit. *)
Theorem peak_cap_kept {AB : ArrowBatch} {AR : ArrowRows} {AK : ArrowKernels} {AL : ArrowLaws} {AM : ArrowMemory} {AI : ArrowIpc}
    {IL : IpcLaws} {HI : HashIter} {HL : HashIterLaws} {SD : SpillDb} {SL : SpillDbLaws} universe heap0 config ops S cap seen s :
  Z.of_nat (length universe) <= 2 ^ 32 -> (forall op, op ∈ ops -> op_ok universe heap0 op /\ op_key_short S op /\ is_compaction op = false) ->
  sizes S (Z.of_nat (length ops)) -> 0 <= S -> 0 <= cap -> cfg_max_peak_in_memory_size config = Some cap ->
  run spill_step ops (spill_start heap0 config) = (Ok seen, s) ->
  retained_by (heap s) (in_memory s) <= cap.
Proof.
  intros Hu Hok HS H0 Hcap Hc E.
  destruct (run_spec universe Hu True S (Z.of_nat (length ops)) ltac:(done) heap0 ops (spill_start heap0 config) 0 ∅) as (x & s' & E' & Hrun & _ & Hx);
    [apply running_start; lia|apply related_start|intros; by apply Hok|intros; by apply Hok|intros _; cbn; lia|].
  rewrite E in E'. injection E' as <- <-. destruct Hx as [(m & _ & _ & _ & Hx)|[[=] _]].
  rewrite <- (tracked_is_retained universe Hu True S (Z.of_nat (length ops)) ltac:(done) s I (rn_ok _ _ _ _ _ _ _ Hrun)).
  apply (Hx I) with seen; [intros op Hop; by apply Hok|done|exact Hc|exact Hcap].
Qed.

(** * A small map *)
Module SampleSpill.

(** Batches of one-letter rows, of one of two schemas; IPC writes the letters. *)
Record batch := mk { wide : bool; letters : list ascii }.

#[export] Instance letter_batch : ArrowBatch := {| RecordBatch := batch; num_rows b := Z.of_nat (length (letters b)) |}.
#[export] Instance letter_rows : ArrowRows := fun b i => mk (wide b) (take 1 (drop i (letters b))).

Definition interleave (srcs : list batch) (idx : list (nat * nat)) : res batch :=
  match mapM (fun ij => b ← srcs !! fst ij; letters b !! snd ij) idx, srcs with
  | Some rows, b :: _ => Ok (mk (wide b) rows)
  | _, _ => Err EReadFileSlice
  end.

#[export] Instance letter_kernels : ArrowKernels := {|
  Schema := bool;
  schema_eq_dec := _;
  field_names s := if s then ["id"; "name"]%string else ["id"]%string;
  schema := wide : RecordBatch -> bool;
  new_empty s := mk s [] : RecordBatch;
  filter_record_batch b mask := Ok (mk (wide b) (mask_rows mask (letters b)) : RecordBatch);
  concat_batches s l := Ok (mk s (concat (letters <$> (l : list batch))) : RecordBatch);
  interleave_record_batch := interleave
|}.

Lemma interleaved_rows s (srcs : list batch) (idx : list (nat * nat)) (rs : list ascii) :
  srcs <> [] -> (forall b, b ∈ srcs -> wide b = s) ->
  Forall2 (fun ij r => exists b, srcs !! ij.1 = Some b /\ letters b !! ij.2 = Some r) idx rs ->
  exists b', interleave srcs idx = Ok b' /\ wide b' = s /\ letters b' = rs.
Proof.
  intros Hn Hs Hr. unfold interleave.
  assert (mapM (fun ij => b ← srcs !! fst ij; letters b !! snd ij) idx = Some rs) as ->.
  { apply mapM_Some. eapply Forall2_impl; [exact Hr|]. by intros ij r (b & -> & ?). }
  destruct srcs as [|b srcs]; [done|]. exists (mk (wide b) rs). split_and!; [done| |done]. cbn. apply Hs. by left.
Qed.

#[export] Instance letter_laws : ArrowLaws.
Proof.
  refine {| Row := ascii; batch_rows := letters : RecordBatch -> list ascii |}; try done.
  - intros b i r Hr. cbn. by rewrite (drop_S _ r).
  - intros b mask _. by eexists.
  - intros s l _. by eexists.
  - apply interleaved_rows.
Defined.

#[export] Instance letter_memory : ArrowMemory := fun b => Z.min (100 * Z.of_nat (length (letters b))) 1000.

#[export] Instance letter_ipc : ArrowIpc := {|
  ipc_encode b := if wide b then Some (true, [], []) else Some (false, [], letters b);
  stream_write s l := match l with [b] => Some ((if s : bool then "1" else "0")%char :: letters b) | _ => None end;
  IpcMessage := unit;
  IpcHeader := unit;
  root_as_message _ := Some tt;
  header_as_record_batch _ := Some tt;
  read_record_batch d _ s := Some (mk s d : RecordBatch);
  stream_read x := match x with c :: d => Some [Some (mk (bool_decide (c = "1"%char)) d : RecordBatch)] | [] => None end
|}.

#[export] Instance letter_ipc_laws : IpcLaws.
Proof.
  split.
  - intros b m d. cbn. destruct (wide b) eqn:E; intros [= <- <-]. split; [done|]. exists tt, tt, (mk (wide b) (letters b)).
    rewrite E. done.
  - intros b. exists ((if wide b then "1" else "0")%char :: letters b), (mk (wide b) (letters b)). cbn.
    split; [done|]. split; [|done]. by destruct (wide b).
Qed.

#[export] Instance sorted_iter : HashIter := fun K _ _ A m => map_to_list m.
#[export] Instance sorted_iter_laws : HashIterLaws.
Proof. intros K E C A m. reflexivity. Qed.

#[export] Instance map_db : SpillDb := {|
  SpillHandle := gmap Z bytes;
  spill_rocksdb := true;
  db_open _ := Some ∅;
  db_put h id v := Some (<[id := v]> h);
  db_get h id := Some (h !! id)
|}.

#[export] Instance map_db_laws : SpillDbLaws.
Proof.
  split; [done|by eexists|]. intros h id v. exists (<[id := v]> h). split; [done|]. cbn. split; [by rewrite lookup_insert_eq|].
  intros id' Hne. by rewrite lookup_insert_ne.
Qed.

Definition letters_1 : batch := mk false ["a"; "b"; "c"]%char.
Definition letters_2 : batch := mk true ["p"; "q"; "r"; "s"; "t"]%char.
Definition sample_heap : list RecordBatch := [letters_1; letters_2].
Definition arc1 : Arc := mkArc 0 (letters_1 : RecordBatch).
Definition arc2 : Arc := mkArc 1 (letters_2 : RecordBatch).

Definition by_event_time (key : string) (a : Arc) (i : nat) (t : Z) : MapOp :=
  OpMerge key (delta_merge (BufferedRecordMerger := EventTimeRecordMerger) (new_batch_ref key a i (Some (OLong t)))).

(** The first batch is spilled, the second compacted; records are updated where they are. *)
Definition sample_ops : list MapOp :=
  [by_event_time "k1" arc1 0 5; by_event_time "k2" arc1 1 5; by_event_time "k3" arc2 0 7; OpContains "k1";
   by_event_time "k1" arc2 1 4; by_event_time "k2" arc2 2 9; OpInsert "k4" (new_delete "k4" (Some (OLong 1)));
   by_event_time "k4" arc2 3 6; OpGet "k1"; OpRemove "k3"; OpLen; OpGet "k4"].

Definition config (cap : option Z) : SpillConfig := mkSpillConfig 700 "/spill" RocksDb cap.

Definition sample_run : res (list Seen) * SpillMap := run spill_step sample_ops (spill_start sample_heap (config (Some 800))).

Example sample_spills :
  sample_run.1 = Ok [SeenBool false; SeenBool false; SeenBool false; SeenBool true; SeenBool true; SeenBool true; SeenNothing; SeenBool true;
      SeenRecord (Some (ViewData false "a"%char (Some (OLong 5)))); SeenRecord (Some (ViewData true "p"%char (Some (OLong 7)))); SeenLen 3;
      SeenRecord (Some (ViewData true "s"%char (Some (OLong 6))))] /\
  spill_fired sample_run.2 = true /\ length (heap sample_run.2) = 3%nat /\ true_retained_bytes sample_run.2 = 0 /\
  (run spill_step sample_ops (spill_start sample_heap (config (Some 100)))).1 = Err EMemoryLimitExceeded.
Proof. vm_compute. done. Qed.

Definition universe : list Schema := [false; true].

Lemma sample_view_ok key a i t row : letters (pointee a) !! i = Some row -> view_ok universe (new_batch_ref key a i (Some (OLong t))).
Proof.
  intros Hr. eexists. split; [unfold record_view, new_batch_ref; cbn; by rewrite Hr|]. intros s [= <-].
  destruct (wide (pointee a)); [right; left|left].
Qed.

Lemma sample_ops_ok op : op ∈ sample_ops -> op_ok universe sample_heap op /\ op_key_short 1000 op /\ is_compaction op = false.
Proof.
  intros Hop. unfold sample_ops in Hop.
  in_cases Hop; (split; [|by split]); try done;
    try (by apply merge_ok_event_time; [eapply sample_view_ok|]). split; [|done]. by eexists.
Qed.

Lemma sample_ops_names op : op ∈ sample_ops -> op_names op.
Proof. intros Hop. unfold sample_ops in Hop. in_cases Hop; try done; apply merge_names_event_time. Qed.

(** A record held under the number of its position: once spilled it has that as its key. *)
Definition positioned (t : Z) : MapOp :=
  OpMerge "0" (delta_merge (BufferedRecordMerger := EventTimeRecordMerger) (new_batch_ref "own" arc1 0 (Some (OLong t)))).

Example spilled_key_is_the_maps :
  let key ops := match (spill_get "0" (run spill_step ops (spill_start sample_heap (config None))).2).1 with
    | Ok (Some r) => Some (record_key r) | _ => None end in
  key [positioned 5] = Some "own"%string /\
  key [positioned 5; by_event_time "k2" arc1 1 5; by_event_time "k3" arc1 2 5; by_event_time "k4" arc2 0 7; by_event_time "k5" arc2 1 7] = Some "0"%string.
Proof. vm_compute. done. Qed.

Lemma sample_sizes : sizes 1000 (Z.of_nat (length sample_ops)).
Proof. split; [|by vm_compute]. intros b. unfold array_memory_size, letter_memory. lia. Qed.

Lemma spillable_map_is_a_map_witness :
  exists m rs, run plain_step sample_ops ∅ = (sample_run.1, m) /\ spill_drain sample_run.2 = Ok <$> rs /\ drained (fun k => m !! k ≫= record_view) rs /\
    drained_as (has_key_of m) (fun k => m !! k ≫= record_view) rs.
Proof.
  assert (H := spillable_map_is_a_map universe sample_heap (config (Some 800)) sample_ops ltac:(by vm_compute) (fun op Hop => proj1 (sample_ops_ok op Hop))).
  assert (E : sample_run.1 <> Err EMemoryLimitExceeded) by (rewrite (proj1 sample_spills); done).
  unfold sample_run in *. destruct (run spill_step sample_ops _) as [x s]. destruct H as [(m & rs & H1 & H2 & H3 & H4)|[Hx _]]; [|by destruct E].
  exists m, rs. split_and!; [exact H1|exact H2|exact H3|]. apply (H4 sample_ops_names).
Defined.

Lemma retained_bytes_exact_witness :
  true_retained_bytes sample_run.2 = retained_by (heap sample_run.2) (in_memory sample_run.2).
Proof.
  destruct (retained_bytes_exact universe sample_heap (config (Some 800)) sample_ops 1000) as [H _].
  - by vm_compute.
  - intros op Hop. destruct (sample_ops_ok op Hop) as (H1 & H2 & _). by split.
  - exact sample_sizes.
  - done.
  - exact H.
Defined.

Lemma peak_cap_kept_witness : retained_by (heap sample_run.2) (in_memory sample_run.2) <= 800.
Proof.
  eapply (peak_cap_kept universe sample_heap (config (Some 800)) sample_ops 1000 800).
  - by vm_compute.
  - exact sample_ops_ok.
  - exact sample_sizes.
  - done.
  - done.
  - reflexivity.
  - assert (E := proj1 sample_spills). unfold sample_run in *. destruct (run spill_step sample_ops _) as [x s]. cbn in *. by rewrite E.
Defined.
End SampleSpill.
