(* ===== verification/HFileKey.v ===== *)
(** Keys and key-value records of HFiles: crates/core/src/hfile/key.rs, and the
    key bounds of hfile/reader.rs.

    Sums of [usize] that leave the type panic, as in a build with overflow
    checks; so do indices and ranges outside a slice. *)
From Stdlib Require Import Ascii.
From stdpp Require Import base gmap sets list strings sorting numbers.
From S2P Require Import Prelude RustStr StorageReader RecordBatches LogFormat Utf8.
Local Open Scope res_scope.
Local Open Scope Z_scope.

(** * Slices of bytes and machine integers *)
Definition usize_add (a b : Z) : res Z := if a + b <=? u64_max then Ok (a + b) else Panic.
Definition usize_sub (a b : Z) : res Z := if b <=? a then Ok (a - b) else Panic.
Definition usize_mul (a b : Z) : res Z := if a * b <=? u64_max then Ok (a * b) else Panic.

(** [b[i]] and [b[from..to]]. *)
Definition byte_at (b : bytes) (i : Z) : res Z :=
  match b !! Z.to_nat i with Some c => Ok (byte_value c) | None => Panic end.

Definition index_range (b : bytes) (from to : Z) : res bytes :=
  if (from <=? to) && (to <=? blen b) then Ok (slice b from to) else Panic.

(** A value of [w] bits read as signed, then cast to [usize]. *)
Definition signed_as_usize (w u : Z) : Z :=
  if u <? 2 ^ (w - 1) then u else u - 2 ^ w + 2 ^ 64.

(** [i32::from_be_bytes([b[i], .., b[i + 3]]) as usize] *)
Definition i32_at_as_usize (b : bytes) (i : Z) : res Z :=
  let? raw := index_range b i (i + 4) in Ok (signed_as_usize 32 (from_be_bytes raw)).

(** The order of byte slices. *)
Definition bytes_cmp (a b : bytes) : comparison := String.compare (str_of a) (str_of b).

(** * Keys *)
Definition SIZEOF_INT16 : Z := 2.
Definition KEY_VALUE_HEADER_SIZE : Z := 8.
Definition i16_max : Z := 32767.

Record Key := mkKey {
  key_bytes : bytes;
  key_offset : Z;
  key_length : Z
}.

Definition key_new (b : bytes) (offset length : Z) : Key :=
  let end_ := Z.min (saturating_add offset length) (blen b) in
  let start := Z.min offset end_ in
  mkKey (slice b start end_) 0 length.

Definition key_from_bytes (b : bytes) : Key := mkKey b 0 (blen b).

Definition key_from_content (content : bytes) : option Key :=
  if blen content <=? i16_max then Some (key_from_bytes (to_be_bytes 2 (blen content) ++ content)) else None.

Definition content_offset (k : Key) : Z := key_offset k + SIZEOF_INT16.

(** The length prefix is an [i16] cast to [usize]. *)
Definition content_length (k : Key) : Z :=
  if blen (key_bytes k) <? key_offset k + SIZEOF_INT16 then 0
  else signed_as_usize 16 (from_be_bytes (slice (key_bytes k) (key_offset k) (key_offset k + SIZEOF_INT16))).

Definition key_content (k : Key) : res bytes :=
  let start := content_offset k in
  let? end_ := usize_add start (content_length k) in
  if blen (key_bytes k) <? end_ then Ok []
  else index_range (key_bytes k) start end_.

(** [Ord for Key] *)
Definition key_cmp (a b : Key) : res comparison :=
  let? ca := key_content a in
  let? cb := key_content b in
  Ok (bytes_cmp ca cb).

(** [Utf8Key] is its content. *)
Definition compare_keys (k : Key) (lookup : bytes) : res comparison :=
  let? c := key_content k in Ok (bytes_cmp c lookup).

(** * Records *)
Record KeyValue := mkKeyValue {
  kv_bytes : bytes;
  kv_offset : Z;
  kv_key : Key;
  kv_key_length : Z;
  kv_value_length : Z
}.

Definition kv_parse (b : bytes) (offset : Z) : res KeyValue :=
  let? key_length := i32_at_as_usize b offset in
  let? value_length := i32_at_as_usize b (offset + 4) in
  let key := key_new b (offset + KEY_VALUE_HEADER_SIZE) key_length in
  let record_end :=
    Z.min (saturating_add (saturating_add (saturating_add offset KEY_VALUE_HEADER_SIZE) key_length) value_length)
      (blen b) in
  let record_start := Z.min offset record_end in
  Ok (mkKeyValue (slice b record_start record_end) 0 key key_length value_length).

Definition kv_value (kv : KeyValue) : res bytes :=
  let? value_offset := usize_add (kv_offset kv + KEY_VALUE_HEADER_SIZE) (kv_key_length kv) in
  let? value_end := usize_add value_offset (kv_value_length kv) in
  index_range (kv_bytes kv) value_offset value_end.

Definition record_size (kv : KeyValue) : res Z :=
  let? a := usize_add KEY_VALUE_HEADER_SIZE (kv_key_length kv) in
  let? a := usize_add a (kv_value_length kv) in
  usize_add a 1.

(** * The bound of a prefix *)

(** [prefix_upper_bound], popping from the end. *)
Fixpoint upper_bound_loop (reversed : bytes) : option bytes :=
  match reversed with
  | [] => None
  | last :: rest =>
      if byte_value last =? 255 then upper_bound_loop rest
      else Some (reverse (ascii_of_N (Z.to_N (byte_value last + 1)) :: rest))
  end.

Definition prefix_upper_bound (prefix : bytes) : option bytes := upper_bound_loop (reverse prefix).

(** * Order of byte strings *)
Definition bytes_lt (a b : bytes) : Prop := bytes_cmp a b = Lt.
Definition bytes_le (a b : bytes) : Prop := bytes_cmp a b <> Gt.

Lemma bytes_cmp_cons x a y b :
  bytes_cmp (x :: a) (y :: b) =
  match byte_value x ?= byte_value y with Eq => bytes_cmp a b | c => c end.
Proof.
  unfold bytes_cmp, str_of, byte_value. cbn [String.string_of_list_ascii String.compare].
  unfold Ascii.compare. by rewrite N2Z.inj_compare.
Qed.

Lemma bytes_cmp_refl a : bytes_cmp a a = Eq.
Proof. apply str_compare_refl. Qed.

Lemma str_of_inj a b : str_of a = str_of b -> a = b.
Proof. intros H%(f_equal String.list_ascii_of_string). by rewrite !String.list_ascii_of_string_of_list_ascii in H. Qed.

Lemma bytes_cmp_eq a b : bytes_cmp a b = Eq <-> a = b.
Proof.
  unfold bytes_cmp. rewrite str_compare_eq. split; [apply str_of_inj|by intros ->].
Qed.

Lemma bytes_lt_cons x a y b :
  bytes_lt (x :: a) (y :: b) <-> byte_value x < byte_value y \/ byte_value x = byte_value y /\ bytes_lt a b.
Proof.
  unfold bytes_lt. rewrite bytes_cmp_cons.
  destruct (Z.compare_spec (byte_value x) (byte_value y)); intuition (try lia; congruence).
Qed.

Lemma bytes_le_cons x a y b :
  bytes_le (x :: a) (y :: b) <-> byte_value x < byte_value y \/ byte_value x = byte_value y /\ bytes_le a b.
Proof.
  unfold bytes_le. rewrite bytes_cmp_cons.
  destruct (Z.compare_spec (byte_value x) (byte_value y)); intuition (try lia; congruence).
Qed.

Lemma bytes_le_nil a : bytes_le [] a.
Proof. by destruct a. Qed.

Lemma bytes_not_lt_nil a : ~ bytes_lt a [].
Proof. by destruct a. Qed.

Lemma byte_value_inj x y : byte_value x = byte_value y -> x = y.
Proof.
  unfold byte_value. intros H%N2Z.inj. by rewrite <- (ascii_N_embedding x), H, ascii_N_embedding.
Qed.

Lemma bytes_le_leb a b : bytes_le a b <-> str_leb (str_of a) (str_of b) = true.
Proof. unfold bytes_le, bytes_cmp, str_leb, String.leb. destruct (_ ?= _)%string; naive_solver. Qed.

Lemma bytes_le_refl a : bytes_le a a.
Proof. unfold bytes_le. by rewrite bytes_cmp_refl. Qed.

Lemma bytes_le_lt_or_eq a b : bytes_le a b <-> bytes_lt a b \/ a = b.
Proof.
  rewrite bytes_le_leb, str_le_lt_or_eq. split; (intros [H|H]; [by left|right]); [by apply str_of_inj|by subst].
Qed.

Lemma bytes_lt_le a b : bytes_lt a b -> bytes_le a b.
Proof. intros H. apply bytes_le_lt_or_eq. by left. Qed.

Lemma bytes_lt_irrefl a : ~ bytes_lt a a.
Proof. apply str_lt_irrefl. Qed.

Lemma bytes_lt_trans a b c : bytes_lt a b -> bytes_lt b c -> bytes_lt a c.
Proof. apply str_lt_trans. Qed.

Lemma bytes_le_lt_trans a b c : bytes_le a b -> bytes_lt b c -> bytes_lt a c.
Proof. rewrite bytes_le_leb. apply str_le_lt_trans. Qed.

Lemma bytes_lt_le_trans a b c : bytes_lt a b -> bytes_le b c -> bytes_lt a c.
Proof. rewrite bytes_le_leb. apply str_lt_le_trans. Qed.

Lemma bytes_le_trans a b c : bytes_le a b -> bytes_le b c -> bytes_le a c.
Proof. rewrite !bytes_le_leb. apply str_leb_trans. Qed.

Lemma bytes_le_antisym a b : bytes_le a b -> bytes_le b a -> a = b.
Proof. rewrite !bytes_le_leb. intros H1 H2. apply str_of_inj. by apply str_leb_antisym. Qed.

Lemma bytes_not_lt a b : ~ bytes_lt a b -> bytes_le b a.
Proof.
  intros H. destruct (str_lt_trichotomy (str_of a) (str_of b)) as [Hl|[He|Hl]]; [done| |by apply bytes_lt_le].
  apply str_of_inj in He as ->. apply bytes_le_refl.
Qed.

Lemma bytes_cmp_cases a b :
  match bytes_cmp a b with Lt => bytes_lt a b | Eq => a = b | Gt => bytes_lt b a end.
Proof.
  destruct (bytes_cmp a b) eqn:E; [by apply bytes_cmp_eq|done|].
  destruct (str_lt_trichotomy (str_of a) (str_of b)) as [Hl|[He|Hl]]; [by unfold bytes_cmp in E; rewrite Hl in E| |done].
  apply str_of_inj in He as ->. by rewrite bytes_cmp_refl in E.
Qed.

(** Everything with a prefix is at or above it. *)
Lemma prefix_le p s : p `prefix_of` s -> bytes_le p s.
Proof.
  intros [t ->]. induction p as [|x p IH]; [apply bytes_le_nil|]. cbn [app]. apply bytes_le_cons. by right.
Qed.

Lemma reverse_surj {A} (l : list A) : exists r, l = reverse r.
Proof. exists (reverse l). by rewrite reverse_involutive. Qed.

(** The bound of a prefix that is not all 0xFF: the last byte that is not is
    raised, and what follows it dropped. *)
Lemma upper_bound_split p u : prefix_upper_bound p = Some u ->
  exists q x n, p = q ++ [x] ++ replicate n (ascii_of_N 255) /\ byte_value x < 255 /\
    u = q ++ [ascii_of_N (Z.to_N (byte_value x + 1))].
Proof.
  unfold prefix_upper_bound. destruct (reverse_surj p) as [r ->]. rewrite reverse_involutive.
  induction r as [|x r IH]; cbn [upper_bound_loop]; [done|]. destruct (Z.eqb_spec (byte_value x) 255) as [Hx|Hx].
  - intros (q & y & n & E & Hy & ->)%IH. exists q, y, (S n). split_and!; try done.
    assert (x = ascii_of_N 255) as ->.
    { apply byte_value_inj. rewrite Hx. reflexivity. }
    rewrite reverse_cons, E, <- !app_assoc. do 2 f_equal. by rewrite replicate_S_end.
  - intros [= <-]. exists (reverse r), x, 0%nat. pose proof (byte_value_range x).
    rewrite !reverse_cons. split_and!; [done|lia|done].
Qed.

Lemma upper_bound_none p : prefix_upper_bound p = None -> exists n, p = replicate n (ascii_of_N 255).
Proof.
  unfold prefix_upper_bound. destruct (reverse_surj p) as [r ->]. rewrite reverse_involutive.
  induction r as [|x r IH]; cbn [upper_bound_loop]; [by exists 0%nat|].
  destruct (Z.eqb_spec (byte_value x) 255) as [Hx|Hx]; [|done]. intros [n E]%IH. exists (S n).
  assert (x = ascii_of_N 255) as -> by (apply byte_value_inj; rewrite Hx; reflexivity).
  by rewrite reverse_cons, E, replicate_S_end.
Qed.

Lemma above_all_ff n s : bytes_le (replicate n (ascii_of_N 255)) s -> replicate n (ascii_of_N 255) `prefix_of` s.
Proof.
  revert s. induction n as [|n IH]; intros s Hs; [apply prefix_nil|]. destruct s as [|y s]; [done|].
  cbn [replicate] in *. apply bytes_le_cons in Hs as [Hy|[Hy Hs]].
  - pose proof (byte_value_range y). change (byte_value (ascii_of_N 255)) with 255 in Hy. lia.
  - apply byte_value_inj in Hy as <-. by apply prefix_cons, IH.
Qed.

Lemma below_bound q x n s :
  byte_value x < 255 ->
  bytes_le (q ++ [x] ++ replicate n (ascii_of_N 255)) s /\
    bytes_lt s (q ++ [ascii_of_N (Z.to_N (byte_value x + 1))]) <->
  (q ++ [x] ++ replicate n (ascii_of_N 255)) `prefix_of` s.
Proof.
  intros Hx. pose proof (byte_value_range x) as Hr.
  assert (Hv : byte_value (ascii_of_N (Z.to_N (byte_value x + 1))) = byte_value x + 1)
    by (apply byte_value_of_N; lia).
  split.
  - revert s. induction q as [|y q IH]; intros [|z s] [Hle Hlt]; try done; cbn [app] in *.
    + apply bytes_lt_cons in Hlt as [Hlt|[_ Hlt]]; [|by apply bytes_not_lt_nil in Hlt].
      apply bytes_le_cons in Hle as [Hle|[Hle Hs]]; [lia|]. apply byte_value_inj in Hle as <-.
      by apply prefix_cons, above_all_ff.
    + apply bytes_lt_cons in Hlt. apply bytes_le_cons in Hle.
      destruct Hle as [Hle|[Hle Hs]]; [lia|]. destruct Hlt as [Hlt|[_ Hlt]]; [lia|].
      apply byte_value_inj in Hle as <-. apply prefix_cons, IH. by split.
  - intros H. split; [by apply prefix_le|]. destruct H as [t ->]. rewrite <- !app_assoc.
    induction q as [|y q IH]; cbn [app]; apply bytes_lt_cons; [left; lia|by right].
Qed.

(** A prefix's bound lies above the keys with the prefix, and is no longer than it. *)
Lemma prefix_below_bound p u : prefix_upper_bound p = Some u -> forall s, p `prefix_of` s -> bytes_lt s u.
Proof. intros (q & x & n & -> & Hx & ->)%upper_bound_split s Hs. by apply below_bound in Hs as [_ Hs]. Qed.

Lemma upper_bound_length p u : prefix_upper_bound p = Some u -> blen u <= blen p.
Proof.
  intros (q & x & n & -> & Hx & ->)%upper_bound_split. rewrite !blen_app.
  pose proof (blen_nonneg (replicate n (ascii_of_N 255))). unfold blen at 2 4. cbn [length]. lia.
Qed.

(** * Round trips *)
Lemma content_of_content c k : key_from_content c = Some k -> key_content k = Ok c.
Proof.
  unfold key_from_content. destruct (Z.leb_spec (blen c) i16_max) as [Hc|]; [|done].
  intros E. assert (k = key_from_bytes (to_be_bytes 2 (blen c) ++ c)) as -> by congruence. clear E.
  pose proof (blen_nonneg c) as H0. unfold i16_max in Hc.
  assert (Hv : from_be_bytes (to_be_bytes 2 (blen c)) = blen c)
    by (apply from_to_be_bytes; change (256 ^ Z.of_nat 2) with 65536; lia).
  assert (Hp : blen (to_be_bytes 2 (blen c)) = 2) by by rewrite blen_to_be_bytes.
  revert Hv Hp. generalize (to_be_bytes 2 (blen c)) as p. intros p Hv Hp.
  assert (Hb : blen (p ++ c) = 2 + blen c) by (rewrite blen_app; lia).
  unfold key_content, content_length, content_offset. cbn [key_from_bytes key_bytes key_offset].
  change (0 + SIZEOF_INT16) with 2. rewrite Hb. destruct (Z.ltb_spec (2 + blen c) 2); [lia|].
  assert (Hs : slice (p ++ c) 0 2 = p) by (rewrite <- Hp; apply (slice_app_here [] p c)).
  rewrite Hs, Hv. unfold signed_as_usize. change (2 ^ (16 - 1)) with 32768.
  destruct (Z.ltb_spec (blen c) 32768); [|lia].
  unfold usize_add. destruct (Z.leb_spec (2 + blen c) u64_max); [|unfold u64_max in *; lia]. cbn [res_bind].
  rewrite Z.ltb_irrefl. unfold index_range. rewrite Hb, Z.leb_refl.
  destruct (Z.leb_spec 2 (2 + blen c)); [|lia]. cbn [andb]. f_equal. rewrite <- Hp.
  pose proof (slice_app_here p c []) as He. by rewrite app_nil_r in He.
Qed.

Lemma index_range_here a b c : index_range (a ++ b ++ c) (blen a) (blen a + blen b) = Ok b.
Proof.
  unfold index_range. rewrite !blen_app. pose proof (blen_nonneg b). pose proof (blen_nonneg c).
  destruct (Z.leb_spec (blen a) (blen a + blen b)); [|lia].
  destruct (Z.leb_spec (blen a + blen b) (blen a + (blen b + blen c))); [|lia].
  cbn [andb]. by rewrite slice_app_here.
Qed.

Lemma i32_here a n c i : 0 <= n < 2 ^ 31 -> i = blen a -> i32_at_as_usize (a ++ to_be_bytes 4 n ++ c) i = Ok n.
Proof.
  intros Hn ->. unfold i32_at_as_usize. replace (blen a + 4) with (blen a + blen (to_be_bytes 4 n))
    by by rewrite blen_to_be_bytes.
  rewrite index_range_here. cbn [res_bind]. rewrite from_to_be_bytes by (change (256 ^ Z.of_nat 4) with (2 ^ 32); lia).
  unfold signed_as_usize. change (2 ^ (32 - 1)) with (2 ^ 31). destruct (Z.ltb_spec n (2 ^ 31)); [done|lia].
Qed.

Lemma usize_add_ok a b : a + b <= u64_max -> usize_add a b = Ok (a + b).
Proof. intros H. unfold usize_add. destruct (Z.leb_spec (a + b) u64_max); [done|lia]. Qed.

Lemma saturating_add_ok a b : a + b <= u64_max -> saturating_add a b = a + b.
Proof. unfold saturating_add. lia. Qed.

(** A record as the writer lays it out: the key part, the value and an MVCC byte. *)
Definition encode_kv (key value : bytes) : bytes :=
  to_be_bytes 4 (blen key) ++ to_be_bytes 4 (blen value) ++ key ++ value ++ [ascii_of_N 0].

Lemma blen_encode_kv k v : blen (encode_kv k v) = 8 + blen k + blen v + 1.
Proof. unfold encode_kv. rewrite !blen_app, !blen_to_be_bytes. change (blen [ascii_of_N 0]) with 1. lia. Qed.

(** What a parsed record holds. *)
Definition parsed_kv (k v : bytes) : KeyValue :=
  mkKeyValue (to_be_bytes 4 (blen k) ++ to_be_bytes 4 (blen v) ++ k ++ v) 0 (key_from_bytes k) (blen k) (blen v).

Lemma slice_at a b c p n : p = blen a -> n = blen a + blen b -> slice (a ++ b ++ c) p n = b.
Proof. intros -> ->. apply slice_app_here. Qed.

Lemma kv_parse_encoded pre k v post :
  blen k < 2 ^ 31 -> blen v < 2 ^ 31 -> blen (pre ++ encode_kv k v ++ post) <= u64_max ->
  kv_parse (pre ++ encode_kv k v ++ post) (blen pre) = Ok (parsed_kv k v).
Proof.
  intros Hk Hv Hu. pose proof (blen_nonneg k). pose proof (blen_nonneg v). pose proof (blen_nonneg pre).
  pose proof (blen_nonneg post). rewrite !blen_app, blen_encode_kv in Hu.
  assert (Hlen : blen (pre ++ encode_kv k v ++ post) = blen pre + (8 + blen k + blen v + 1) + blen post)
    by (rewrite !blen_app, blen_encode_kv; lia).
  unfold kv_parse, KEY_VALUE_HEADER_SIZE, key_new. rewrite Hlen. unfold encode_kv. rewrite <- !app_assoc.
  rewrite i32_here by lia. cbn [res_bind].
  assert (E4 : i32_at_as_usize (pre ++ to_be_bytes 4 (blen k) ++ to_be_bytes 4 (blen v) ++ k ++ v ++ [ascii_of_N 0] ++ post)
      (blen pre + 4) = Ok (blen v)).
  { rewrite (app_assoc pre). apply i32_here; [lia|]. rewrite blen_app, blen_to_be_bytes. lia. }
  rewrite E4. cbn [res_bind]. 
  rewrite (saturating_add_ok (blen pre) 8), (saturating_add_ok (blen pre + 8) (blen k)),
    (saturating_add_ok (blen pre + 8 + blen k) (blen v)) by lia. rewrite !Z.min_l by lia.
  unfold parsed_kv, key_from_bytes. do 2 f_equal.
  - transitivity (slice (pre ++ (to_be_bytes 4 (blen k) ++ to_be_bytes 4 (blen v) ++ k ++ v) ++ [ascii_of_N 0] ++ post)
      (blen pre) (blen pre + 8 + blen k + blen v)); [by rewrite <- !app_assoc|].
    apply slice_at; [done|]. rewrite !blen_app, !blen_to_be_bytes. lia.
  - f_equal. transitivity (slice ((pre ++ to_be_bytes 4 (blen k) ++ to_be_bytes 4 (blen v)) ++ k ++ v ++ [ascii_of_N 0] ++ post)
      (blen pre + 8) (blen pre + 8 + blen k)); [by rewrite <- !app_assoc|].
    apply slice_at; rewrite !blen_app, !blen_to_be_bytes; lia.
Qed.

Lemma parsed_value k v : blen k < 2 ^ 31 -> blen v < 2 ^ 31 -> kv_value (parsed_kv k v) = Ok v.
Proof.
  intros Hk Hv. pose proof (blen_nonneg k). pose proof (blen_nonneg v).
  unfold kv_value, parsed_kv, KEY_VALUE_HEADER_SIZE. cbn [kv_offset kv_key_length kv_value_length kv_bytes].
  do 2 (rewrite usize_add_ok by (unfold u64_max; lia); cbn [res_bind]).
  pose proof (index_range_here (to_be_bytes 4 (blen k) ++ to_be_bytes 4 (blen v) ++ k) v []) as H3.
  rewrite app_nil_r, <- !app_assoc, !blen_app, !blen_to_be_bytes in H3. rewrite <- H3. f_equal; lia.
Qed.

Lemma parsed_size k v : blen k < 2 ^ 31 -> blen v < 2 ^ 31 ->
  record_size (parsed_kv k v) = Ok (blen (encode_kv k v)).
Proof.
  intros Hk Hv. pose proof (blen_nonneg k). pose proof (blen_nonneg v). rewrite blen_encode_kv.
  unfold record_size, parsed_kv, KEY_VALUE_HEADER_SIZE. cbn [kv_key_length kv_value_length].
  by do 3 (rewrite usize_add_ok by (unfold u64_max; lia); cbn [res_bind]).
Qed.

Lemma prefix_bound_ok p :
  match prefix_upper_bound p with
  | Some u => forall s, p `prefix_of` s <-> bytes_le p s /\ bytes_lt s u
  | None => forall s, p `prefix_of` s <-> bytes_le p s
  end.
Proof.
  destruct (prefix_upper_bound p) as [u|] eqn:Hu.
  - apply upper_bound_split in Hu as (q & x & n & -> & Hx & ->). intros s. symmetry. by apply below_bound.
  - apply upper_bound_none in Hu as [n ->]. intros s. split; [apply prefix_le|apply above_all_ff].
Qed.

(** What has a prefix is one interval. *)
Lemma prefix_gap p a b : bytes_le p a -> ~ p `prefix_of` a -> bytes_le a b -> ~ p `prefix_of` b.
Proof.
  intros Hpa Ha Hab Hb. apply Ha. pose proof (prefix_bound_ok p) as Hp.
  destruct (prefix_upper_bound p) as [u|]; [|by apply Hp]. rewrite Hp. rewrite Hp in Hb.
  split; [done|]. destruct Hb as [_ Hb]. by apply bytes_le_lt_trans with b.
Qed.

(** The bound below which the keys of a prefix lie is exact: a key begins with
    the prefix just when it is at or above the prefix and below the bound -- and
    when there is no bound, the prefix being all 0xFF, just when it is at or above
    the prefix. *)
Theorem prefix_upper_bound_spec p :
  match prefix_upper_bound p with
  | Some u => forall s, p `prefix_of` s <-> bytes_le p s /\ bytes_lt s u
  | None => forall s, p `prefix_of` s <-> bytes_le p s
  end.
Proof. apply prefix_bound_ok. Qed.

(** A length prefix of minus one or minus two is not empty content: the sum of its
    cast with the key's start leaves [usize]. *)
Example corrupt_prefix_panics :
  key_content (key_from_bytes (List.map ascii_of_N [255; 255; 97]%N)) = Panic /\
  key_content (key_from_bytes (List.map ascii_of_N [255; 253; 97]%N)) = Ok [].
Proof. split; reflexivity. Qed.
