(* ===== verification/HFileBlock.v ===== *)
(** HFile blocks: crates/core/src/hfile/block_type.rs, compression.rs and block.rs.

    A block is a header and data; a data block holds key-value records one after
    the other.  Gzip is a parameter ([Gunzip]). *)
From Stdlib Require Import Ascii.
From stdpp Require Import base gmap sets list strings sorting numbers.
From S2P Require Import Prelude RustStr StorageReader RecordBatches LogFormat HFileKey.
Local Open Scope res_scope.
Local Open Scope Z_scope.

(** * Block types *)
Inductive HFileBlockType :=
  | Data | LeafIndex | Meta | IntermediateIndex | RootIndex | FileInfo | Trailer.

Global Instance HFileBlockType_eq_dec : EqDecision HFileBlockType.
Proof. solve_decision. Defined.

Definition MAGIC_LENGTH : Z := 8.

Definition ascii_bytes (s : string) : bytes := String.list_ascii_of_string s.

(** The trailer magic is TRABLK, a double quote (byte 34) and a dollar sign. *)
Definition TRAILER_MAGIC : bytes := ascii_bytes "TRABLK" ++ [ascii_of_N 34; ascii_of_N 36].

Definition block_magic (t : HFileBlockType) : bytes :=
  match t with
  | Data => ascii_bytes "DATABLK*"
  | LeafIndex => ascii_bytes "IDXLEAF2"
  | Meta => ascii_bytes "METABLKc"
  | IntermediateIndex => ascii_bytes "IDXINTE2"
  | RootIndex => ascii_bytes "IDXROOT2"
  | FileInfo => ascii_bytes "FILEINF2"
  | Trailer => TRAILER_MAGIC
  end.

Definition from_magic (magic : bytes) : res HFileBlockType :=
  if blen magic <? MAGIC_LENGTH then Err (EHFile InvalidFormat)
  else
    let arr := slice magic 0 MAGIC_LENGTH in
    if decide (arr = ascii_bytes "DATABLK*" \/ arr = ascii_bytes "DATABLKE") then Ok Data
    else if decide (arr = ascii_bytes "IDXLEAF2") then Ok LeafIndex
    else if decide (arr = ascii_bytes "METABLKc") then Ok Meta
    else if decide (arr = ascii_bytes "IDXINTE2") then Ok IntermediateIndex
    else if decide (arr = ascii_bytes "IDXROOT2") then Ok RootIndex
    else if decide (arr = ascii_bytes "FILEINF2") then Ok FileInfo
    else if decide (arr = TRAILER_MAGIC) then Ok Trailer
    else Err (EHFile InvalidBlockMagic).

Definition check_magic (t : HFileBlockType) (b : bytes) : res unit :=
  if blen b <? MAGIC_LENGTH then Err (EHFile InvalidFormat)
  else if decide (slice b 0 MAGIC_LENGTH <> block_magic t) then Err (EHFile InvalidBlockMagic)
  else Ok tt.

(** * Compression *)
Inductive CompressionCodec := Lzo | Gzip | NoCompression | Snappy | Lz4 | Bzip2 | Zstd.

Global Instance CompressionCodec_eq_dec : EqDecision CompressionCodec.
Proof. solve_decision. Defined.

Definition codec_from_id (id : Z) : res CompressionCodec :=
  match id with
  | 0 => Ok Lzo
  | 1 => Ok Gzip
  | 2 => Ok NoCompression
  | 3 => Ok Snappy
  | 4 => Ok Lz4
  | 5 => Ok Bzip2
  | 6 => Ok Zstd
  | _ => Err (EHFile UnsupportedCompression)
  end.

(** [GzDecoder::read_to_end] *)
Class Gunzip := gunzip : bytes -> option bytes.

Section block.
Context {G : Gunzip}.

Definition decompress (codec : CompressionCodec) (compressed_data : bytes) : res bytes :=
  match codec with
  | NoCompression => Ok compressed_data
  | Gzip => ok_or (gunzip compressed_data) (EHFile DecompressionError)
  | _ => Err (EHFile DecompressionError)
  end.

(** * Headers *)
Definition BLOCK_HEADER_SIZE : Z := 33.
Definition CHECKSUM_SIZE : Z := 4.

Record BlockHeader := mkHeader {
  hdr_block_type : HFileBlockType;
  on_disk_size_without_header : Z;
  uncompressed_size_without_header : Z;
  prev_block_offset : Z;
  checksum_type : Z;
  bytes_per_checksum : Z;
  on_disk_data_size_with_header : Z
}.

Definition signed_of (w u : Z) : Z := if u <? 2 ^ (w - 1) then u else u - 2 ^ w.

Definition header_parse (b : bytes) : res BlockHeader :=
  if blen b <? BLOCK_HEADER_SIZE then Err (EHFile InvalidFormat)
  else
    let? t := from_magic b in
    let? on_disk := i32_at_as_usize b 8 in
    let? uncompressed := i32_at_as_usize b 12 in
    let? prev := index_range b 16 24 in
    let? checksum_type := byte_at b 24 in
    let? bytes_per_checksum := i32_at_as_usize b 25 in
    let? on_disk_data := i32_at_as_usize b 29 in
    Ok (mkHeader t on_disk uncompressed (signed_of 64 (from_be_bytes prev)) checksum_type
          bytes_per_checksum on_disk_data).

Definition on_disk_size_with_header (h : BlockHeader) : res Z :=
  usize_add BLOCK_HEADER_SIZE (on_disk_size_without_header h).

(** [div_ceil] panics on a zero divisor. *)
Definition div_ceil (a b : Z) : res Z := if b =? 0 then Panic else Ok ((a + b - 1) / b).

Definition checksum_bytes_count (h : BlockHeader) : res Z :=
  let? on_disk_with_header := on_disk_size_with_header h in
  let? num_chunks := div_ceil on_disk_with_header (bytes_per_checksum h) in
  usize_mul num_chunks CHECKSUM_SIZE.

(** * Blocks *)
Record HFileBlock := mkHFileBlock {
  block_header : BlockHeader;
  block_data : bytes
}.

Definition block_parse (b : bytes) (codec : CompressionCodec) : res HFileBlock :=
  let? header := header_parse b in
  let data_start := BLOCK_HEADER_SIZE in
  let? on_disk_end := usize_add data_start (on_disk_size_without_header header) in
  let? checksums := checksum_bytes_count header in
  let? data_end := usize_sub on_disk_end checksums in
  let? data :=
    if decide (codec = NoCompression) then
      let? end_ := usize_add data_start (uncompressed_size_without_header header) in
      index_range b data_start end_
    else
      let? compressed_data := index_range b data_start data_end in
      decompress codec compressed_data in
  Ok (mkHFileBlock header data).

Definition hfile_block_type (b : HFileBlock) : HFileBlockType := hdr_block_type (block_header b).
End block.

(** An index entry; two entries are equal and ordered as their first keys. *)
Record BlockIndexEntry := mkEntry {
  first_key : Key;
  next_block_first_key : option Key;
  entry_offset : Z;
  entry_size : Z
}.

(** * Data blocks *)
Record DataBlock := mkDataBlock {
  db_data : bytes;
  content_end : Z
}.

Definition data_block_from (b : HFileBlock) : DataBlock := mkDataBlock (block_data b) (blen (block_data b)).

Definition read_key_value (b : DataBlock) (offset : Z) : res KeyValue := kv_parse (db_data b) offset.

Definition is_valid_offset (b : DataBlock) (offset : Z) : bool := offset <? content_end b.

(** [DataBlockIterator::next]: the record and the iterator's next offset. *)
Definition data_block_next (b : DataBlock) (offset : Z) : res (option (KeyValue * Z)) :=
  if negb (is_valid_offset b offset) then Ok None
  else if content_end b <? offset + KEY_VALUE_HEADER_SIZE then Ok None
  else
    let? kv := read_key_value b offset in
    let? size := record_size kv in
    let? next := usize_add offset size in
    Ok (Some (kv, next)).

(** What the iterator collects to; [None] when the fuel runs out. *)
Fixpoint data_block_loop (fuel : nat) (b : DataBlock) (offset : Z) : res (option (list KeyValue)) :=
  match fuel with
  | O => Ok None
  | S fuel =>
      let? next := data_block_next b offset in
      match next with
      | None => Ok (Some [])
      | Some (kv, offset) =>
          let? rest := data_block_loop fuel b offset in
          Ok (cons kv <$> rest)
      end
  end.

(** A record takes nine bytes at least, so the block's length is fuel enough. *)
Definition data_block_iter (b : DataBlock) : res (list KeyValue) :=
  let? kvs := data_block_loop (S (Z.to_nat (content_end b))) b 0 in
  ok_or kvs (EHFile InvalidFormat).

(** * Hadoop's variable-length integers *)
Definition var_long_size_on_disk_single (first_byte : Z) : Z :=
  let signed := signed_of 8 first_byte in
  if -112 <=? signed then 1 else -111 - signed.

Definition var_long_size_on_disk (b : bytes) (offset : Z) : res Z :=
  let? first_byte := byte_at b offset in Ok (var_long_size_on_disk_single first_byte).

(** The loop over the bytes after the first, in a [u64]. *)
Fixpoint var_long_loop (b : bytes) (at_ : Z) (n : nat) (value : Z) : res Z :=
  match n with
  | O => Ok value
  | S n =>
      let? c := byte_at b at_ in
      var_long_loop b (at_ + 1) n (Z.lor (Z.shiftl value 8 mod 2 ^ 64) c)
  end.

Definition read_var_long (b : bytes) (offset : Z) : res (Z * Z) :=
  let? first_byte := byte_at b offset in
  let size := var_long_size_on_disk_single first_byte in
  if size =? 1 then Ok (signed_as_usize 8 first_byte, 1)
  else
    let? value := var_long_loop b (offset + 1) (Z.to_nat (size - 1)) 0 in
    let is_negative := signed_of 8 first_byte <? -120 in
    Ok (if is_negative then 2 ^ 64 - 1 - value else value, size).

(** * What a writer lays out *)
Definition encode_header (h : BlockHeader) : bytes :=
  block_magic (hdr_block_type h) ++ to_be_bytes 4 (on_disk_size_without_header h) ++
  to_be_bytes 4 (uncompressed_size_without_header h) ++
  to_be_bytes 8 (prev_block_offset h mod 2 ^ 64) ++ [ascii_of_N (Z.to_N (checksum_type h))] ++
  to_be_bytes 4 (bytes_per_checksum h) ++ to_be_bytes 4 (on_disk_data_size_with_header h).

Record header_ok (h : BlockHeader) : Prop := {
  ho_on_disk : 0 <= on_disk_size_without_header h < 2 ^ 31;
  ho_uncompressed : 0 <= uncompressed_size_without_header h < 2 ^ 31;
  ho_prev : - 2 ^ 63 <= prev_block_offset h < 2 ^ 63;
  ho_checksum : 0 <= checksum_type h < 256;
  ho_per_checksum : 0 <= bytes_per_checksum h < 2 ^ 31;
  ho_on_disk_data : 0 <= on_disk_data_size_with_header h < 2 ^ 31
}.

Lemma blen_magic t : blen (block_magic t) = 8.
Proof. by destruct t. Qed.

Lemma blen_encode_header h : blen (encode_header h) = BLOCK_HEADER_SIZE.
Proof.
  unfold encode_header. rewrite !blen_app, !blen_to_be_bytes, blen_magic. reflexivity.
Qed.

Lemma from_magic_here t rest : from_magic (block_magic t ++ rest) = Ok t.
Proof.
  unfold from_magic. rewrite blen_app, blen_magic. pose proof (blen_nonneg rest).
  destruct (Z.ltb_spec (8 + blen rest) MAGIC_LENGTH) as [H0|_]; [unfold MAGIC_LENGTH in H0; lia|].
  assert (Hs : slice (block_magic t ++ rest) 0 MAGIC_LENGTH = block_magic t).
  { transitivity (slice ([] ++ block_magic t ++ rest) 0 MAGIC_LENGTH); [done|]. apply slice_at; [done|].
    by rewrite blen_magic. }
  rewrite Hs. by destruct t.
Qed.

Lemma signed_of_mod v : - 2 ^ 63 <= v < 2 ^ 63 -> signed_of 64 (v mod 2 ^ 64) = v.
Proof.
  intros Hv. unfold signed_of. change (2 ^ (64 - 1)) with (2 ^ 63).
  destruct (Z.lt_ge_cases v 0) as [Hn|Hn].
  - assert (E : v mod 2 ^ 64 = v + 2 ^ 64).
    { rewrite <- (Z_mod_plus_full v 1 (2 ^ 64)). apply Z.mod_small. lia. }
    rewrite E. destruct (Z.ltb_spec (v + 2 ^ 64) (2 ^ 63)); lia.
  - rewrite Z.mod_small by lia. destruct (Z.ltb_spec v (2 ^ 63)); lia.
Qed.

Lemma index_range_at a b c p n : p = blen a -> n = blen a + blen b -> index_range (a ++ b ++ c) p n = Ok b.
Proof. intros -> ->. apply index_range_here. Qed.

Lemma blen_1 (x : ascii) : blen [x] = 1.
Proof. done. Qed.

Lemma byte_at_here a x c i : i = blen a -> byte_at (a ++ x :: c) i = Ok (byte_value x).
Proof.
  intros ->. unfold byte_at, blen. rewrite Nat2Z.id, lookup_app_r, Nat.sub_diag by lia. done.
Qed.

Lemma header_parse_encoded h rest : header_ok h -> header_parse (encode_header h ++ rest) = Ok h.
Proof.
  intros [H1 H2 H3 H4 H5 H6]. destruct h as [t od un pr ct bpc odd]; cbn in *.
  unfold header_parse. rewrite blen_app, blen_encode_header. pose proof (blen_nonneg rest).
  destruct (Z.ltb_spec (BLOCK_HEADER_SIZE + blen rest) BLOCK_HEADER_SIZE); [lia|].
  unfold encode_header. cbn [hdr_block_type on_disk_size_without_header uncompressed_size_without_header
    prev_block_offset checksum_type bytes_per_checksum on_disk_data_size_with_header].
  pose proof (blen_magic t) as Hm. pose proof (from_magic_here t) as Hf. revert Hm Hf.
  generalize (block_magic t) as mg. intros mg Hm Hf. rewrite <- !app_assoc.
  rewrite Hf. cbn [res_bind].
  rewrite (i32_here mg od) by lia. cbn [res_bind].
  rewrite (app_assoc mg), (i32_here (mg ++ _) un) by (rewrite ?blen_app, ?blen_to_be_bytes; lia). cbn [res_bind].
  rewrite (app_assoc (mg ++ _)).
  rewrite (index_range_at _ (to_be_bytes 8 (pr mod 2 ^ 64)))
    by (rewrite !blen_app, !blen_to_be_bytes; lia). cbn [res_bind].
  rewrite from_to_be_bytes by (change (256 ^ Z.of_nat 8) with (2 ^ 64); apply Z.mod_pos_bound; lia).
  rewrite signed_of_mod by done.
  rewrite (app_assoc ((mg ++ _) ++ _)). cbn [app].
  rewrite byte_at_here by (rewrite !blen_app, !blen_to_be_bytes; lia). cbn [res_bind].
  rewrite byte_value_of_N by lia. rewrite cons_middle, (app_assoc (((mg ++ _) ++ _) ++ _)).
  rewrite (i32_here _ bpc) by (rewrite ?blen_app, ?blen_to_be_bytes, ?blen_1; lia). cbn [res_bind].
  rewrite (app_assoc ((((mg ++ _) ++ _) ++ _) ++ _)).
  rewrite (i32_here _ odd) by (rewrite ?blen_app, ?blen_to_be_bytes, ?blen_1; lia). done.
Qed.

(** Checksums the writer lays down: one per chunk of the header and the payload. *)
Definition chunks (n per_checksum : Z) : Z := (n + per_checksum - 1) / per_checksum.

Definition header_of (t : HFileBlockType) (prev ctype per_checksum : Z) (payload data checksums : bytes)
    : BlockHeader :=
  mkHeader t (blen payload + blen checksums) (blen data) prev ctype per_checksum
    (BLOCK_HEADER_SIZE + blen payload).

Definition encode_block (h : BlockHeader) (payload checksums : bytes) : bytes :=
  encode_header h ++ payload ++ checksums.

Lemma chunks_bound n per : 8 <= per -> 7 <= n -> 0 <= 4 * chunks n per <= n.
Proof.
  intros Hp Hn. unfold chunks.
  assert (0 <= (n + per - 1) / per) by (apply Z.div_pos; lia).
  assert ((n + per - 1) / per * 8 <= n + 7); [|lia].
  destruct (Z.le_gt_cases per n).
  - pose proof (Z.mul_div_le (n + per - 1) per). nia.
  - rewrite <- (Z.div_unique (n + per - 1) per 1 (n - 1)); lia.
Qed.

Lemma checksum_bytes_count_ok h : 8 <= bytes_per_checksum h -> 0 <= on_disk_size_without_header h < 2 ^ 31 ->
  checksum_bytes_count h =
  Ok (4 * chunks (BLOCK_HEADER_SIZE + on_disk_size_without_header h) (bytes_per_checksum h)).
Proof.
  intros Hp Hs. pose proof (chunks_bound (BLOCK_HEADER_SIZE + on_disk_size_without_header h) (bytes_per_checksum h) Hp) as Hc.
  unfold BLOCK_HEADER_SIZE in *. unfold checksum_bytes_count, on_disk_size_with_header, BLOCK_HEADER_SIZE.
  rewrite usize_add_ok by (unfold u64_max; lia). cbn [res_bind]. unfold div_ceil.
  destruct (Z.eqb_spec (bytes_per_checksum h) 0); [lia|]. cbn [res_bind]. fold (chunks (33 + on_disk_size_without_header h) (bytes_per_checksum h)).
  unfold usize_mul, CHECKSUM_SIZE. rewrite Z.mul_comm. destruct (Z.leb_spec (4 * chunks (33 + on_disk_size_without_header h) (bytes_per_checksum h)) u64_max) as [_|H]; [done|].
  unfold u64_max in H. lia.
Qed.

Section written.
Context {G : Gunzip}.

(** A payload the writer's codec made of [data]. For a compressed block the
    reader counts the checksums over the checksums too. *)
Definition codec_payload (codec : CompressionCodec) (per_checksum : Z) (payload data checksums : bytes) : Prop :=
  match codec with
  | NoCompression => payload = data
  | Gzip =>
      gunzip payload = Some data /\
      blen checksums = 4 * chunks (BLOCK_HEADER_SIZE + blen payload) per_checksum /\
      chunks (BLOCK_HEADER_SIZE + (blen payload + blen checksums)) per_checksum =
      chunks (BLOCK_HEADER_SIZE + blen payload) per_checksum
  | _ => False
  end.

Record block_written (codec : CompressionCodec) (h : BlockHeader) (payload data checksums : bytes) : Prop := {
  bw_header : header_ok h;
  bw_per : 8 <= bytes_per_checksum h;
  bw_on_disk : on_disk_size_without_header h = blen payload + blen checksums;
  bw_data : uncompressed_size_without_header h = blen data;
  bw_payload : codec_payload codec (bytes_per_checksum h) payload data checksums
}.

Lemma block_parse_written codec h payload data checksums post :
  block_written codec h payload data checksums ->
  block_parse (encode_block h payload checksums ++ post) codec = Ok (mkHFileBlock h data).
Proof.
  intros [Hh Hp Hd Hu Hc]. pose proof Hh as [H1 H2 _ _ _ _]. unfold block_parse, encode_block. rewrite <- !app_assoc.
  rewrite header_parse_encoded by done. cbn [res_bind].
  pose proof (chunks_bound (BLOCK_HEADER_SIZE + on_disk_size_without_header h) _ Hp) as Hb.
  unfold BLOCK_HEADER_SIZE in Hb. pose proof (blen_nonneg payload). pose proof (blen_nonneg checksums).
  rewrite usize_add_ok by (unfold u64_max, BLOCK_HEADER_SIZE; lia). cbn [res_bind].
  rewrite checksum_bytes_count_ok by done. cbn [res_bind]. unfold usize_sub.
  destruct (Z.leb_spec (4 * chunks (BLOCK_HEADER_SIZE + on_disk_size_without_header h) (bytes_per_checksum h))
    (BLOCK_HEADER_SIZE + on_disk_size_without_header h)) as [_|Hlt]; [|unfold BLOCK_HEADER_SIZE in Hlt; lia].
  cbn [res_bind]. case_decide as Hn; [subst codec; cbn in Hc; subst payload|].
  - rewrite usize_add_ok by (unfold u64_max, BLOCK_HEADER_SIZE; lia). cbn [res_bind].
    rewrite index_range_at; [done|by rewrite blen_encode_header|]. by rewrite blen_encode_header, Hu.
  - destruct codec; try done. destruct Hc as (Hg & Hl & He). rewrite Hd, He, <- Hl.
    rewrite index_range_at; [|by rewrite blen_encode_header|rewrite blen_encode_header; lia].
    cbn [res_bind decompress]. by rewrite Hg.
Qed.
End written.

(** * Variable-length integers *)

(** Hadoop's writer, on values that are not negative: one byte up to 127, and
    otherwise a byte saying how many follow. *)
Definition byte_len (v : Z) : Z := Z.log2 v / 8 + 1.

Definition write_vlong (v : Z) : bytes :=
  if v <=? 127 then [ascii_of_N (Z.to_N v)]
  else ascii_of_N (Z.to_N (144 - byte_len v)) :: to_be_bytes (Z.to_nat (byte_len v)) v.

Lemma byte_len_bounds v : 0 < v < 2 ^ 63 -> 1 <= byte_len v <= 8 /\ v < 256 ^ byte_len v.
Proof.
  intros Hv. unfold byte_len. pose proof (Z.log2_nonneg v).
  assert (Z.log2 v < 63) by (apply Z.log2_lt_pow2; lia).
  assert (0 <= Z.log2 v / 8) by (apply Z.div_pos; lia).
  assert (Z.log2 v / 8 < 8) by (apply Z.div_lt_upper_bound; lia). split; [lia|].
  change 256 with (2 ^ 8). rewrite <- Z.pow_mul_r by lia. apply Z.log2_lt_pow2; [lia|].
  pose proof (Z.mul_succ_div_gt (Z.log2 v) 8). lia.
Qed.

Lemma lor_byte a c : 0 <= c < 256 -> Z.lor (Z.shiftl a 8) c = a * 256 + c.
Proof.
  intros Hc. rewrite Z.shiftl_mul_pow2 by lia. change (2 ^ 8) with 256. rewrite <- Z.add_lor_land.
  assert (Z.land (a * 256) c = 0); [|lia].
  apply Z.bits_inj'. intros n Hn. rewrite Z.land_spec, Z.bits_0. change 256 with (2 ^ 8).
  destruct (Z.lt_ge_cases n 8).
  - by rewrite Z.mul_pow2_bits_low by lia.
  - rewrite (Z.bits_above_log2 c n), andb_false_r; [done|lia|].
    destruct (Z.eq_dec c 0) as [->|]; [cbn; lia|].
    assert (Z.log2 c < 8) by (apply Z.log2_lt_pow2; lia). lia.
Qed.

Lemma var_long_loop_snoc b at_ n value :
  var_long_loop b at_ (S n) value =
  (let? v := var_long_loop b at_ n value in
   let? c := byte_at b (at_ + Z.of_nat n) in Ok (Z.lor (Z.shiftl v 8 mod 2 ^ 64) c)).
Proof.
  revert at_ value. induction n as [|n IH]; intros at_ value.
  - cbn [var_long_loop res_bind]. by rewrite Z.add_0_r.
  - change (var_long_loop b at_ (S (S n)) value) with
      (let? c := byte_at b at_ in var_long_loop b (at_ + 1) (S n) (Z.lor (Z.shiftl value 8 mod 2 ^ 64) c)).
    change (var_long_loop b at_ (S n) value) with
      (let? c := byte_at b at_ in var_long_loop b (at_ + 1) n (Z.lor (Z.shiftl value 8 mod 2 ^ 64) c)).
    destruct (byte_at b at_) as [c|e|]; cbn [res_bind]; [|done..]. rewrite IH.
    replace (at_ + 1 + Z.of_nat n) with (at_ + Z.of_nat (S n)) by lia. done.
Qed.

Lemma var_long_loop_here a n v c : (n <= 8)%nat -> 0 <= v < 256 ^ Z.of_nat n ->
  var_long_loop (a ++ to_be_bytes n v ++ c) (blen a) n 0 = Ok v.
Proof.
  revert v c. induction n as [|n IH]; intros v c Hn Hv; [cbn in *; f_equal; lia|].
  rewrite var_long_loop_snoc. cbn [to_be_bytes]. rewrite <- app_assoc.
  rewrite Nat2Z.inj_succ, Z.pow_succ_r in Hv by lia.
  rewrite IH; [|lia|split; [apply Z.div_pos; lia|apply Z.div_lt_upper_bound; lia]]. cbn [res_bind].
  rewrite app_assoc. cbn [app]. rewrite byte_at_here by (rewrite blen_app, blen_to_be_bytes; lia). cbn [res_bind].
  pose proof (Z.mod_pos_bound v 256). pose proof (Z.pow_le_mono_r 256 (Z.of_nat n) 7).
  rewrite byte_value_of_N by lia. f_equal.
  rewrite Z.mod_small.
  - rewrite lor_byte by lia. rewrite Z.mul_comm. symmetry. apply Z.div_mod. lia.
  - rewrite Z.shiftl_mul_pow2 by lia.
    assert (v / 256 < 256 ^ 7); [|split; [pose proof (Z.div_pos v 256)|]; lia].
    apply Z.lt_le_trans with (256 ^ Z.of_nat n); [apply Z.div_lt_upper_bound; lia|lia].
Qed.

Lemma read_vlong_here a v c : 0 <= v < 2 ^ 63 ->
  read_var_long (a ++ write_vlong v ++ c) (blen a) = Ok (v, blen (write_vlong v)) /\
  var_long_size_on_disk (a ++ write_vlong v ++ c) (blen a) = Ok (blen (write_vlong v)).
Proof.
  intros Hv. unfold read_var_long, var_long_size_on_disk, write_vlong. destruct (Z.leb_spec v 127) as [Hs|Hs].
  - cbn [app]. rewrite byte_at_here by done. cbn [res_bind]. rewrite byte_value_of_N by lia.
    unfold var_long_size_on_disk_single, signed_of. change (2 ^ (8 - 1)) with 128.
    destruct (Z.ltb_spec v 128); [|lia]. destruct (Z.leb_spec (-112) v); [|lia]. cbn [Z.eqb].
    unfold signed_as_usize. change (2 ^ (8 - 1)) with 128. by destruct (Z.ltb_spec v 128); [|lia].
  - pose proof (byte_len_bounds v) as [Hl Hb]; [lia|]. cbn [app]. rewrite byte_at_here by done. cbn [res_bind].
    rewrite byte_value_of_N by lia. unfold var_long_size_on_disk_single, signed_of. change (2 ^ (8 - 1)) with 128.
    destruct (Z.ltb_spec (144 - byte_len v) 128); [lia|].
    destruct (Z.leb_spec (-112) (144 - byte_len v - 2 ^ 8)); [lia|].
    replace (-111 - (144 - byte_len v - 2 ^ 8)) with (1 + byte_len v) by lia.
    destruct (Z.eqb_spec (1 + byte_len v) 1); [lia|]. replace (1 + byte_len v - 1) with (byte_len v) by lia.
    assert (Hw : blen (ascii_of_N (Z.to_N (144 - byte_len v)) :: to_be_bytes (Z.to_nat (byte_len v)) v) = 1 + byte_len v).
    { change (blen ([ascii_of_N (Z.to_N (144 - byte_len v))] ++ to_be_bytes (Z.to_nat (byte_len v)) v) = 1 + byte_len v).
      rewrite blen_app, blen_1, blen_to_be_bytes. lia. }
    rewrite Hw. split; [|done]. rewrite cons_middle, app_assoc.
    replace (blen a + 1) with (blen (a ++ [ascii_of_N (Z.to_N (144 - byte_len v))])) by by rewrite blen_app, blen_1.
    rewrite var_long_loop_here; [|lia|rewrite Z2Nat.id by lia; lia]. cbn [res_bind].
    destruct (Z.ltb_spec (144 - byte_len v - 2 ^ 8) (-120)); [lia|done].
Qed.

(** Negative numbers are misread: the size takes no account of their other range
    of first bytes. Minus 128 is written in two bytes, 0x87 and 0x7F. *)
Example negative_vlong_takes_ten_bytes :
  var_long_size_on_disk [ascii_of_N 135; ascii_of_N 127] 0 = Ok 10 /\
  read_var_long [ascii_of_N 135; ascii_of_N 127] 0 = Panic.
Proof. vm_compute. done. Qed.

(** * Data blocks as written *)
Definition kv_ok (kv : bytes * bytes) : Prop := blen kv.1 < 2 ^ 31 /\ blen kv.2 < 2 ^ 31.

Definition encode_kvs (kvs : list (bytes * bytes)) : bytes := concat (map (fun kv => encode_kv kv.1 kv.2) kvs).

Definition block_of (kvs : list (bytes * bytes)) : DataBlock := mkDataBlock (encode_kvs kvs) (blen (encode_kvs kvs)).

Lemma encode_kvs_app l r : encode_kvs (l ++ r) = encode_kvs l ++ encode_kvs r.
Proof. unfold encode_kvs. by rewrite map_app, concat_app. Qed.

Lemma data_block_next_written l kv r :
  kv_ok kv -> blen (encode_kvs (l ++ kv :: r)) <= u64_max ->
  data_block_next (block_of (l ++ kv :: r)) (blen (encode_kvs l)) =
  Ok (Some (parsed_kv kv.1 kv.2, blen (encode_kvs (l ++ [kv])))).
Proof.
  intros [Hk Hv] Hu. destruct kv as [k v]; cbn [fst snd] in *.
  unfold data_block_next, block_of, is_valid_offset, read_key_value. cbn [db_data content_end].
  revert Hu. rewrite !encode_kvs_app.
  change (encode_kvs ((k, v) :: r)) with (encode_kv k v ++ encode_kvs r).
  change (encode_kvs [(k, v)]) with (encode_kv k v ++ []). rewrite app_nil_r, !blen_app, !blen_encode_kv. intros Hu.
  pose proof (blen_nonneg k). pose proof (blen_nonneg v). pose proof (blen_nonneg (encode_kvs l)).
  pose proof (blen_nonneg (encode_kvs r)). unfold KEY_VALUE_HEADER_SIZE.
  destruct (Z.ltb_spec (blen (encode_kvs l)) (blen (encode_kvs l) + (8 + blen k + blen v + 1 + blen (encode_kvs r)))); [|lia].
  cbn [negb]. destruct (Z.ltb_spec (blen (encode_kvs l) + (8 + blen k + blen v + 1 + blen (encode_kvs r)))
    (blen (encode_kvs l) + 8)); [lia|].
  rewrite kv_parse_encoded by (rewrite ?blen_app, ?blen_encode_kv; lia). cbn [res_bind].
  rewrite parsed_size by done. cbn [res_bind]. rewrite blen_encode_kv, usize_add_ok by lia. done.
Qed.

Lemma data_block_loop_written kvs : Forall kv_ok kvs -> blen (encode_kvs kvs) <= u64_max ->
  forall r l fuel, kvs = l ++ r -> (length r < fuel)%nat ->
  data_block_loop fuel (block_of kvs) (blen (encode_kvs l)) =
  Ok (Some (map (fun kv => parsed_kv kv.1 kv.2) r)).
Proof.
  intros Hok Hu r. induction r as [|kv r IH]; intros l fuel Hs Hf; (destruct fuel as [|fuel]; [cbn in Hf; lia|]);
    cbn [data_block_loop].
  - rewrite app_nil_r in Hs. subst l. unfold data_block_next, is_valid_offset. cbn [block_of content_end].
    by rewrite Z.ltb_irrefl.
  - subst kvs. rewrite data_block_next_written; [|by eapply Forall_elt|done]. cbn [res_bind].
    rewrite IH; [done|by rewrite <- app_assoc|cbn in Hf; lia].
Qed.

Lemma length_encode_kvs kvs : (length kvs <= length (encode_kvs kvs))%nat.
Proof.
  induction kvs as [|kv kvs IH]; [done|]. change (encode_kvs (kv :: kvs)) with (encode_kv kv.1 kv.2 ++ encode_kvs kvs).
  rewrite length_app. pose proof (blen_encode_kv kv.1 kv.2) as Hb. unfold blen in Hb. cbn [length]. lia.
Qed.

Lemma data_block_iter_written kvs : Forall kv_ok kvs -> blen (encode_kvs kvs) <= u64_max ->
  data_block_iter (block_of kvs) = Ok (map (fun kv => parsed_kv kv.1 kv.2) kvs).
Proof.
  intros Hok Hu. unfold data_block_iter.
  pose proof (data_block_loop_written kvs Hok Hu kvs [] (S (Z.to_nat (content_end (block_of kvs)))) eq_refl) as Hl.
  change (blen (encode_kvs [])) with 0 in Hl. rewrite Hl; [done|].
  cbn [block_of content_end]. unfold blen. rewrite Nat2Z.id. pose proof (length_encode_kvs kvs). lia.
Qed.

(** * Progress of the iterator *)
Lemma i32_at_nonneg b i n : i32_at_as_usize b i = Ok n -> 0 <= n.
Proof.
  unfold i32_at_as_usize. destruct (index_range b i (i + 4)) as [raw| |]; cbn [res_bind]; [|done..].
  intros E. assert (n = signed_as_usize 32 (from_be_bytes raw)) as -> by congruence.
  pose proof (from_be_bytes_nonneg raw). unfold signed_as_usize. case_match; lia.
Qed.

Lemma data_block_next_progress b o kv o' :
  data_block_next b o = Ok (Some (kv, o')) -> o < content_end b /\ o + 9 <= o'.
Proof.
  unfold data_block_next, is_valid_offset. destruct (Z.ltb_spec o (content_end b)) as [Ho|]; cbn [negb]; [|done].
  case_match; [done|]. unfold read_key_value, kv_parse.
  destruct (i32_at_as_usize (db_data b) o) as [k| |] eqn:Hk; cbn [res_bind]; [|done..].
  destruct (i32_at_as_usize (db_data b) (o + 4)) as [v| |] eqn:Hv; cbn [res_bind]; [|done..].
  apply i32_at_nonneg in Hk, Hv. unfold record_size, usize_add, KEY_VALUE_HEADER_SIZE.
  cbn [kv_key_length kv_value_length]. repeat (case_match; cbn [res_bind]; [|done]).
  intros [= <- <-]. lia.
Qed.

Lemma data_block_loop_ends b : forall fuel o, content_end b - o <= Z.of_nat fuel ->
  data_block_loop (S fuel) b o <> Ok None.
Proof.
  induction fuel as [|fuel IH]; intros o Hf; rewrite (eq_refl : data_block_loop (S _) b o =
    (let? next := data_block_next b o in
     match next with
     | None => Ok (Some [])
     | Some (kv, o) => let? rest := data_block_loop _ b o in Ok (cons kv <$> rest)
     end)); destruct (data_block_next b o) as [[[kv o']|]| |] eqn:Hn; cbn [res_bind]; try done;
    apply data_block_next_progress in Hn as [Ho Ho']; [lia|].
  specialize (IH o'). destruct (data_block_loop (S fuel) b o') as [[kvs|]| |]; cbn [res_bind fmap option_fmap option_map]; try done.
  intros _. apply IH; [lia|done].
Qed.

Lemma data_block_loop_length b : forall fuel o kvs, data_block_loop fuel b o = Ok (Some kvs) ->
  9 * Z.of_nat (length kvs) <= Z.max 0 (content_end b - o + 8).
Proof.
  induction fuel as [|fuel IH]; intros o kvs; cbn [data_block_loop]; [done|].
  destruct (data_block_next b o) as [[[kv o']|]| |] eqn:Hn; cbn [res_bind]; [|intros [= <-]; cbn; lia|done..].
  apply data_block_next_progress in Hn as [Ho Ho'].
  destruct (data_block_loop fuel b o') as [[r|]| |] eqn:Hr; cbn [res_bind fmap option_fmap option_map]; [|done..].
  intros [= <-]. specialize (IH o' r Hr). cbn [length]. lia.
Qed.

Lemma data_block_next_no_err b o e : data_block_next b o <> Err e.
Proof.
  unfold data_block_next, read_key_value, kv_parse, i32_at_as_usize, index_range, record_size, usize_add.
  repeat (case_match; cbn [res_bind]; try done).
Qed.

Lemma data_block_loop_no_err b : forall fuel o e, data_block_loop fuel b o <> Err e.
Proof.
  induction fuel as [|fuel IH]; intros o e; cbn [data_block_loop]; [done|].
  destruct (data_block_next b o) as [[[kv o']|]|e'|] eqn:Hn; cbn [res_bind]; try done.
  - specialize (IH o'). destruct (data_block_loop fuel b o'); cbn [res_bind]; try done.
  - by apply data_block_next_no_err in Hn.
Qed.

Section block_properties.
Context {G : Gunzip}.

(** A data block read back.  What the reader takes from the bytes of a data
    block as the writer lays it out -- uncompressed, or compressed with checksums
    that do not themselves reach into a further chunk -- is the records that were
    written, in order, whatever follows the block. *)
Theorem data_block_roundtrip codec h payload kvs checksums post :
  block_written codec h payload (encode_kvs kvs) checksums -> Forall kv_ok kvs ->
  (let? b := block_parse (encode_block h payload checksums ++ post) codec in data_block_iter (data_block_from b)) =
  Ok (map (fun kv => parsed_kv kv.1 kv.2) kvs).
Proof.
  intros Hw Hk. rewrite (block_parse_written _ _ _ _ _ _ Hw). cbn [res_bind]. apply data_block_iter_written; [done|].
  destruct Hw as [[_ Hu _ _ _ _] _ _ Hd _]. unfold u64_max. lia.
Qed.

(** Walking a data block ends, whatever bytes it holds: the iterator moves on by
    nine bytes at least, or stops, or panics on a length the block does not hold. *)
Theorem data_block_iter_terminates b :
  match data_block_iter b with
  | Ok kvs => 9 * Z.of_nat (length kvs) <= Z.max 0 (content_end b + 8)
  | Err _ => False
  | Panic => True
  end.
Proof.
  unfold data_block_iter. pose proof (data_block_loop_ends b (Z.to_nat (content_end b)) 0) as He.
  pose proof (data_block_loop_length b (S (Z.to_nat (content_end b))) 0) as Hl.
  destruct (data_block_loop (S (Z.to_nat (content_end b))) b 0) as [[kvs|]|e|] eqn:E; cbn [res_bind ok_or].
  - specialize (Hl kvs eq_refl). lia.
  - destruct He; [lia|done].
  - by apply data_block_loop_no_err in E.
  - done.
Qed.

(** A number written in Hadoop's variable-length form is read back with its
    length, for all numbers of 63 bits that are not negative. *)
Theorem vlong_roundtrip before v after : 0 <= v < 2 ^ 63 ->
  read_var_long (before ++ write_vlong v ++ after) (blen before) = Ok (v, blen (write_vlong v)) /\
  var_long_size_on_disk (before ++ write_vlong v ++ after) (blen before) = Ok (blen (write_vlong v)).
Proof. apply read_vlong_here. Qed.
End block_properties.

(** * Samples *)
Module SampleHFileBlock.

Definition kvs : list (bytes * bytes) :=
  [(to_be_bytes 2 2 ++ ascii_bytes "k1", ascii_bytes "one"); (to_be_bytes 2 2 ++ ascii_bytes "k2", [])].

(** A decompressor that knows one stream. *)
Definition stream : bytes := ascii_bytes "gzip".
Global Instance sample_gunzip : Gunzip := fun b => if decide (b = stream) then Some (encode_kvs kvs) else None.

Definition checksums (n : nat) : bytes := repeat (ascii_of_N 7) n.

Definition header (per_checksum : Z) (checksums : bytes) : BlockHeader :=
  header_of Data (-1) 1 per_checksum stream (encode_kvs kvs) checksums.

Lemma data_block_roundtrip_witness :
  block_written Gzip (header 16384 (checksums 4)) stream (encode_kvs kvs) (checksums 4) /\
  (let? b := block_parse (encode_block (header 16384 (checksums 4)) stream (checksums 4) ++ ascii_bytes "next") Gzip in
   data_block_iter (data_block_from b)) =
  Ok (map (fun kv => parsed_kv kv.1 kv.2) kvs).
Proof.
  assert (H : block_written Gzip (header 16384 (checksums 4)) stream (encode_kvs kvs) (checksums 4)).
  { constructor; [constructor; vm_compute; split; congruence|vm_compute; congruence|done|done|].
    split_and!; vm_compute; done. }
  split; [exact H|]. apply (data_block_roundtrip Gzip _ stream kvs _ (ascii_bytes "next") H).
  repeat constructor; vm_compute; done.
Defined.

Lemma vlong_roundtrip_witness :
  read_var_long (ascii_bytes "ab" ++ write_vlong 1000 ++ ascii_bytes "c") 2 = Ok (1000, 3) /\
  write_vlong 1000 = [ascii_of_N 142; ascii_of_N 3; ascii_of_N 232].
Proof.
  split; [|vm_compute; done]. apply (vlong_roundtrip (ascii_bytes "ab") 1000 (ascii_bytes "c")). lia.
Defined.

(** A compressed block whose checksums reach into a further chunk cannot be read:
    the reader counts a checksum for that chunk too, and cuts the end of the
    compressed data off. Here 37 bytes of header and data make one chunk of 40, and
    with their checksum 41 bytes. *)
Example checksums_counted_over_checksums :
  checksum_bytes_count (header 40 (checksums 4)) = Ok 8 /\
  blen (checksums 4) = 4 * chunks (BLOCK_HEADER_SIZE + blen stream) 40 /\
  block_parse (encode_block (header 40 (checksums 4)) stream (checksums 4)) Gzip = Err (EHFile DecompressionError).
Proof. vm_compute. done. Qed.

(** A header that says zero bytes per checksum panics, compressed or not. *)
Example zero_bytes_per_checksum_panics :
  block_parse (encode_block (header 0 (checksums 4)) stream (checksums 4)) NoCompression = Panic.
Proof. vm_compute. done. Qed.
End SampleHFileBlock.
