(* ===== verification/HFileIndex.v ===== *)
(** The indexes of HFiles: the parsing of index blocks and the choice of data
    blocks for keys and prefixes in crates/core/src/hfile/reader.rs, and the key
    predicates of file_group/base_file/reader.rs.

    [BTreeMap<Key, BlockIndexEntry>] is the list of its entries in the order of
    the keys' contents; a comparison that panics makes the operation panic. *)
From Stdlib Require Import Ascii.
From stdpp Require Import base gmap sets list strings sorting numbers.
From S2P Require Import Prelude RustStr StorageReader RecordBatches LogFormat HFileKey HFileBlock.
Local Open Scope res_scope.
Local Open Scope Z_scope.

(** * Index blocks *)
Definition isize_max : Z := 9223372036854775807.

(** [Vec::with_capacity] of a count read from the file, for elements of [size] bytes. *)
Definition with_capacity (count size : Z) : res unit :=
  if count * size <=? isize_max then Ok tt else Panic.

(** The loop of [parse_root_index_entries]: [n] entries from [offset] on. *)
Fixpoint root_entries_loop (n : nat) (data : bytes) (offset : Z) (content_key_only : bool)
    : res (list BlockIndexEntry) :=
  match n with
  | O => Ok []
  | S n =>
      let? raw := index_range data offset (offset + 8) in
      let block_offset := from_be_bytes raw in
      let offset := offset + 8 in
      let? raw := index_range data offset (offset + 4) in
      let block_size := from_be_bytes raw in
      let offset := offset + 4 in
      let? var_len_size := var_long_size_on_disk data offset in
      let? length := read_var_long data offset in
      let key_length := length.1 in
      let? offset := usize_add offset var_len_size in
      let? key_end := usize_add offset key_length in
      let? key_bytes := index_range data offset key_end in
      let key :=
        if content_key_only then key_from_bytes key_bytes else key_new key_bytes 0 (blen key_bytes) in
      let? rest := root_entries_loop n data key_end content_key_only in
      Ok (mkEntry key None block_offset block_size :: rest)
  end.

Definition parse_root_index_entries (data : bytes) (num_entries : Z) (content_key_only : bool)
    : res (list BlockIndexEntry) :=
  root_entries_loop (Z.to_nat num_entries) data 0 content_key_only.

(** The secondary index of a leaf block: [n] offsets. *)
Fixpoint relative_offsets_loop (n : nat) (data : bytes) (offset : Z) : res (list Z * Z) :=
  match n with
  | O => Ok ([], offset)
  | S n =>
      let? rel_offset := i32_at_as_usize data offset in
      let? rest := relative_offsets_loop n data (offset + 4) in
      Ok (rel_offset :: rest.1, rest.2)
  end.

(** The entries, each ending where the next relative offset says. *)
Fixpoint leaf_entries_loop (ends : list Z) (data : bytes) (base_offset offset : Z) : res (list BlockIndexEntry) :=
  match ends with
  | [] => Ok []
  | rel_offset :: ends =>
      let? raw := index_range data offset (offset + 8) in
      let block_offset := from_be_bytes raw in
      let? raw := index_range data (offset + 8) (offset + 12) in
      let block_size := from_be_bytes raw in
      let key_start := offset + 12 in
      let? next_entry_start := usize_add base_offset rel_offset in
      let? key_length := usize_sub next_entry_start key_start in
      let? key_bytes := index_range data key_start (key_start + key_length) in
      let key := key_new key_bytes 0 (blen key_bytes) in
      let? rest := leaf_entries_loop ends data base_offset next_entry_start in
      Ok (mkEntry key None block_offset block_size :: rest)
  end.

Definition parse_leaf_index_entries (data : bytes) : res (list BlockIndexEntry) :=
  let? num_entries := i32_at_as_usize data 0 in
  let? count := usize_add num_entries 1 in
  let? _ := with_capacity count 8 in
  let? offsets := relative_offsets_loop (Z.to_nat count) data 4 in
  leaf_entries_loop (tail offsets.1) data offsets.2 offsets.2.

(** * The index map *)
Definition DataIndex := list (Key * BlockIndexEntry).

(** [BTreeMap::insert]: a present key stays and its value is replaced. *)
Fixpoint index_insert (k : Key) (e : BlockIndexEntry) (m : DataIndex) : res DataIndex :=
  match m with
  | [] => Ok [(k, e)]
  | (k', e') :: m' =>
      let? c := key_cmp k k' in
      match c with
      | Lt => Ok ((k, e) :: m)
      | Eq => Ok ((k', e) :: m')
      | Gt => let? m' := index_insert k e m' in Ok ((k', e') :: m')
      end
  end.

(** Each entry with the first key of the entry after it. *)
Fixpoint with_next_keys (entries : list BlockIndexEntry) : list BlockIndexEntry :=
  match entries with
  | [] => []
  | e :: rest => mkEntry (first_key e) (first_key <$> head rest) (entry_offset e) (entry_size e) :: with_next_keys rest
  end.

Definition index_from_leaf_entries (entries : list BlockIndexEntry) : res DataIndex :=
  res_fold (fun m e => index_insert (first_key e) e m) (with_next_keys entries) [].

Definition data_block_entries (m : DataIndex) : list BlockIndexEntry := map snd m.

(** [range(..=probe)] *)
Fixpoint index_upto (probe : Key) (m : DataIndex) : res DataIndex :=
  match m with
  | [] => Ok []
  | (k, e) :: m =>
      let? c := key_cmp k probe in
      match c with
      | Gt => Ok []
      | _ => let? rest := index_upto probe m in Ok ((k, e) :: rest)
      end
  end.

(** [range(lower..)] *)
Fixpoint index_from (lower : Key) (m : DataIndex) : res DataIndex :=
  match m with
  | [] => Ok []
  | (k, e) :: m' =>
      let? c := key_cmp k lower in
      match c with
      | Lt => index_from lower m'
      | _ => Ok m
      end
  end.

(** The entries below [upper]. *)
Fixpoint index_below (upper : Key) (m : DataIndex) : res DataIndex :=
  match m with
  | [] => Ok []
  | (k, e) :: m =>
      let? c := key_cmp k upper in
      match c with
      | Lt => let? rest := index_below upper m in Ok ((k, e) :: rest)
      | _ => Ok []
      end
  end.

(** [range(lower..upper)]: bounds the wrong way round panic. *)
Definition index_between (lower upper : Key) (m : DataIndex) : res DataIndex :=
  let? c := key_cmp lower upper in
  match c with
  | Gt => Panic
  | _ => let? above := index_from lower m in index_below upper above
  end.

(** * The choice of blocks *)

(** [BTreeMap<u64, BlockIndexEntry>], keyed by offset. *)
Definition Selection := list (Z * BlockIndexEntry).

Fixpoint select (offset : Z) (e : BlockIndexEntry) (s : Selection) : Selection :=
  match s with
  | [] => [(offset, e)]
  | (o, e') :: s' =>
      match offset ?= o with
      | Lt => (offset, e) :: s
      | Eq => (offset, e) :: s'
      | Gt => (o, e') :: select offset e s'
      end
  end.

Definition select_entry (e : BlockIndexEntry) (s : Selection) : Selection := select (entry_offset e) e s.

Definition into_values (s : Selection) : list BlockIndexEntry := map snd s.

(** [index_key == &probe] *)
Definition key_eqb (a b : Key) : res bool :=
  let? c := key_cmp a b in Ok (match c with Eq => true | _ => false end).

Definition select_for_probe (m : DataIndex) (selected : Selection) (probe : Key) : res Selection :=
  let? at_or_below := index_upto probe m in
  match reverse at_or_below with
  | [] => Ok selected
  | (index_key, entry) :: before =>
      let selected := select_entry entry selected in
      let? exact := key_eqb index_key probe in
      match exact, before with
      | true, (_, previous) :: _ => Ok (select_entry previous selected)
      | _, _ => Ok selected
      end
  end.

(** The loop over the keys; [None]: a key is too long, every block is selected. *)
Fixpoint select_for_keys (m : DataIndex) (keys : list bytes) (selected : Selection) : res (option Selection) :=
  match keys with
  | [] => Ok (Some selected)
  | key :: keys =>
      match key_from_content key with
      | None => Ok None
      | Some probe =>
          let? selected := select_for_probe m selected probe in
          select_for_keys m keys selected
      end
  end.

Definition blocks_for_keys (m : DataIndex) (keys : list bytes) : res (list BlockIndexEntry) :=
  let? selected := select_for_keys m keys [] in
  match selected with
  | None => Ok (data_block_entries m)
  | Some selected => Ok (into_values selected)
  end.

Definition select_all (es : list BlockIndexEntry) (s : Selection) : Selection :=
  foldl (fun s e => select_entry e s) s es.

Definition blocks_for_prefix (m : DataIndex) (prefix : bytes) : res (list BlockIndexEntry) :=
  match key_from_content prefix with
  | None => Ok (data_block_entries m)
  | Some lower =>
      let? at_or_below := index_upto lower m in
      let selected :=
        match list.last at_or_below with
        | Some (_, entry) => select_entry entry []
        | None => []
        end in
      let? spanned :=
        match prefix_upper_bound prefix with
        | Some upper =>
            match key_from_content upper with
            | Some upper => index_between lower upper m
            | None => Panic
            end
        | None => index_from lower m
        end in
      Ok (into_values (select_all (map snd spanned) selected))
  end.

(** [KeyPredicate], with keys as the bytes of their strings. *)
Inductive KeyPredicate :=
  | Keys (keys : list bytes)
  | Prefixes (prefixes : list bytes).

Definition starts_with (p k : bytes) : bool := bool_decide (p `prefix_of` k).

Definition admits (p : KeyPredicate) (key : bytes) : bool :=
  match p with
  | Keys keys => existsb (fun k => bool_decide (k = key)) keys
  | Prefixes prefixes => existsb (fun p => starts_with p key) prefixes
  end.

(** [KeyMatcher], built once: the keys hashed. *)
Inductive KeyMatcher :=
  | MatchKeys (keys : gset bytes)
  | MatchPrefixes (prefixes : list bytes).

Definition matcher (p : KeyPredicate) : KeyMatcher :=
  match p with
  | Keys keys => MatchKeys (list_to_set keys)
  | Prefixes prefixes => MatchPrefixes prefixes
  end.

Definition matcher_admits (p : KeyMatcher) (key : bytes) : bool :=
  match p with
  | MatchKeys keys => bool_decide (key ∈ keys)
  | MatchPrefixes prefixes => existsb (fun p => starts_with p key) prefixes
  end.

Definition select_prefix (m : DataIndex) (selected : Selection) (prefix : bytes) : res Selection :=
  let? entries := blocks_for_prefix m prefix in Ok (select_all entries selected).

Definition blocks_for_predicate (m : DataIndex) (predicate : KeyPredicate) : res (list BlockIndexEntry) :=
  match predicate with
  | Keys keys => blocks_for_keys m keys
  | Prefixes prefixes =>
      let? selected := res_fold (select_prefix m) prefixes [] in Ok (into_values selected)
  end.

(** * Windows *)
Record WindowState := mkWindows {
  w_windows : list (list BlockIndexEntry);
  w_current : list BlockIndexEntry;
  w_current_bytes : Z
}.

Definition window_step (budget : Z) (st : WindowState) (entry : BlockIndexEntry) : WindowState :=
  let len := entry_size entry in
  let st :=
    if negb (bool_decide (w_current st = [])) && (budget <? saturating_add (w_current_bytes st) len)
    then mkWindows (w_windows st ++ [w_current st]) [] 0
    else st in
  mkWindows (w_windows st) (w_current st ++ [entry]) (saturating_add (w_current_bytes st) len).

Definition plan_windows (entries : list BlockIndexEntry) (budget : Z) : list (list BlockIndexEntry) :=
  let st := foldl (window_step budget) (mkWindows [] [] 0) entries in
  if bool_decide (w_current st = []) then w_windows st else w_windows st ++ [w_current st].

(** * Comparisons with a probe *)
Definition content_of (k : Key) : bytes := match key_content k with Ok c => c | _ => [] end.

Definition sep (x : Key * BlockIndexEntry) : bytes := content_of x.1.

Definition readable (k : Key) : Prop := key_content k = Ok (content_of k).

Record index_ok (m : DataIndex) : Prop := {
  io_readable : Forall (fun x => readable x.1) m;
  io_sorted : StronglySorted (fun x y => bytes_lt (sep x) (sep y)) m
}.

Lemma key_cmp_readable a b : readable a -> readable b -> key_cmp a b = Ok (bytes_cmp (content_of a) (content_of b)).
Proof. unfold readable, key_cmp. by intros -> ->. Qed.

Lemma readable_content k c : key_content k = Ok c -> readable k /\ content_of k = c.
Proof. intros H. unfold readable, content_of. by rewrite H. Qed.

Lemma probe_readable c k : key_from_content c = Some k -> readable k /\ content_of k = c.
Proof. intros H. by apply readable_content, content_of_content. Qed.

Lemma index_ok_app l r : index_ok (l ++ r) ->
  index_ok l /\ index_ok r /\ forall x y, x ∈ l -> y ∈ r -> bytes_lt (sep x) (sep y).
Proof.
  intros [Hr Hs]. apply Forall_app in Hr as [Hl Hr]. apply StronglySorted_app in Hs as (Hlt & Hsl & Hsr).
  by repeat split.
Qed.

(** The entries at or below a probe are a first part of the map. *)
Lemma index_upto_app p l r : readable p -> index_ok (l ++ r) ->
  Forall (fun x => bytes_le (sep x) (content_of p)) l ->
  Forall (fun x => bytes_lt (content_of p) (sep x)) (take 1 r) ->
  index_upto p (l ++ r) = Ok l.
Proof.
  intros Hp [Hok _] Hl Hr. induction l as [|[k e] l IH]; cbn [app index_upto].
  - destruct r as [|[k e] r]; cbn [index_upto]; [done|].
    cbn [app] in Hok. apply Forall_cons_1 in Hok as [Hk _]. cbn [firstn] in Hr. apply Forall_cons_1 in Hr as [Hlt _].
    cbn [fst] in Hk. rewrite key_cmp_readable by done. cbn [res_bind]. unfold sep in Hlt. cbn [fst] in Hlt.
    pose proof (bytes_cmp_cases (content_of k) (content_of p)) as Hc.
    destruct (bytes_cmp (content_of k) (content_of p)); [|exfalso..|done].
    + rewrite Hc in Hlt. by destruct (bytes_lt_irrefl _ Hlt).
    + apply (bytes_lt_irrefl (content_of k)). by apply (bytes_lt_trans _ (content_of p)).
  - cbn [app] in Hok. apply Forall_cons_1 in Hok as [Hk Hok]. apply Forall_cons_1 in Hl as [Hle Hl]. cbn [fst] in Hk.
    rewrite key_cmp_readable by done. cbn [res_bind]. unfold sep, bytes_le in Hle. cbn [fst] in Hle.
    rewrite IH by done. by destruct (bytes_cmp (content_of k) (content_of p)).
Qed.

Lemma index_ok_cons x m : index_ok (x :: m) ->
  readable x.1 /\ index_ok m /\ forall y, y ∈ m -> bytes_lt (sep x) (sep y).
Proof.
  intros H. apply (index_ok_app [x] m) in H as ([Hr _] & Hm & Hlt). rewrite Forall_singleton in Hr.
  split; [exact Hr|]. split; [exact Hm|]. intros y Hy. apply Hlt; [by left|exact Hy].
Qed.

(** The entries at or above a probe are a last part of the map. *)
Lemma index_from_app p l r : readable p -> index_ok (l ++ r) ->
  Forall (fun x => bytes_lt (sep x) (content_of p)) l ->
  Forall (fun x => bytes_le (content_of p) (sep x)) (take 1 r) ->
  index_from p (l ++ r) = Ok r.
Proof.
  intros Hp [Hok _] Hl Hr. induction l as [|[k e] l IH]; cbn [app index_from].
  - destruct r as [|[k e] r]; cbn [index_from]; [done|].
    cbn [app] in Hok. apply Forall_cons_1 in Hok as [Hk _]. cbn [firstn] in Hr. apply Forall_cons_1 in Hr as [Hle _].
    cbn [fst] in Hk. rewrite key_cmp_readable by done. cbn [res_bind]. unfold sep in Hle. cbn [fst] in Hle.
    pose proof (bytes_cmp_cases (content_of k) (content_of p)) as Hc.
    destruct (bytes_cmp (content_of k) (content_of p)); [done|exfalso|done].
    apply (bytes_lt_irrefl (content_of k)). by apply (bytes_lt_le_trans _ (content_of p)).
  - cbn [app] in Hok. apply Forall_cons_1 in Hok as [Hk Hok]. apply Forall_cons_1 in Hl as [Hlt Hl]. cbn [fst] in Hk.
    rewrite key_cmp_readable by done. cbn [res_bind]. unfold sep, bytes_lt in Hlt. cbn [fst] in Hlt.
    rewrite Hlt. by apply IH.
Qed.

Lemma index_below_app p l r : readable p -> index_ok (l ++ r) ->
  Forall (fun x => bytes_lt (sep x) (content_of p)) l ->
  Forall (fun x => bytes_le (content_of p) (sep x)) (take 1 r) ->
  index_below p (l ++ r) = Ok l.
Proof.
  intros Hp [Hok _] Hl Hr. induction l as [|[k e] l IH]; cbn [app index_below].
  - destruct r as [|[k e] r]; cbn [index_below]; [done|].
    cbn [app] in Hok. apply Forall_cons_1 in Hok as [Hk _]. cbn [firstn] in Hr. apply Forall_cons_1 in Hr as [Hle _].
    cbn [fst] in Hk. rewrite key_cmp_readable by done. cbn [res_bind]. unfold sep in Hle. cbn [fst] in Hle.
    pose proof (bytes_cmp_cases (content_of k) (content_of p)) as Hc.
    destruct (bytes_cmp (content_of k) (content_of p)); [done|exfalso|done].
    apply (bytes_lt_irrefl (content_of k)). by apply (bytes_lt_le_trans _ (content_of p)).
  - cbn [app] in Hok. apply Forall_cons_1 in Hok as [Hk Hok]. apply Forall_cons_1 in Hl as [Hlt Hl]. cbn [fst] in Hk.
    rewrite key_cmp_readable by done. cbn [res_bind]. unfold sep, bytes_lt in Hlt. cbn [fst] in Hlt.
    rewrite Hlt, IH by done. done.
Qed.

Global Instance bytes_lt_dec a b : Decision (bytes_lt a b).
Proof. unfold bytes_lt. destruct (bytes_cmp a b); [right|left|right]; done. Defined.

(** A sorted map splits at a bound, taken in or left out. *)
Lemma index_split_lt m u : index_ok m -> exists l r, m = l ++ r /\
  Forall (fun x => bytes_lt (sep x) u) l /\ Forall (fun x => bytes_le u (sep x)) r.
Proof.
  induction m as [|x m IH]; intros Hm; [by exists [], []|].
  apply index_ok_cons in Hm as (Hx & Hm & Hlt). destruct (decide (bytes_lt (sep x) u)) as [Hd|Hd].
  - destruct (IH Hm) as (l & r & -> & Hl & Hr). exists (x :: l), r. split_and!; [done|by constructor|done].
  - exists [], (x :: m). apply bytes_not_lt in Hd. split; [done|]. split; [done|]. constructor; [done|].
    apply list.Forall_forall. intros y Hy. apply bytes_le_trans with (sep x); [done|]. by apply bytes_lt_le, Hlt.
Qed.

Lemma index_split_le m u : index_ok m -> exists l r, m = l ++ r /\
  Forall (fun x => bytes_le (sep x) u) l /\ Forall (fun x => bytes_lt u (sep x)) r.
Proof.
  induction m as [|x m IH]; intros Hm; [by exists [], []|].
  apply index_ok_cons in Hm as (Hx & Hm & Hlt). destruct (decide (bytes_lt u (sep x))) as [Hd|Hd].
  - exists [], (x :: m). split; [done|]. split; [done|]. constructor; [done|].
    apply list.Forall_forall. intros y Hy. apply bytes_lt_trans with (sep x); [done|]. by apply Hlt.
  - destruct (IH Hm) as (l & r & -> & Hl & Hr). apply bytes_not_lt in Hd. exists (x :: l), r. split_and!; [done|by constructor|done].
Qed.

Lemma Forall_take1 {A} (P : A -> Prop) l : Forall P l -> Forall P (take 1 l).
Proof. apply Forall_take. Qed.

Lemma index_upto_spec m p : readable p -> index_ok m -> exists l r, m = l ++ r /\
  Forall (fun x => bytes_le (sep x) (content_of p)) l /\ Forall (fun x => bytes_lt (content_of p) (sep x)) r /\
  index_upto p m = Ok l.
Proof.
  intros Hp Hm. destruct (index_split_le m (content_of p) Hm) as (l & r & -> & Hl & Hr).
  exists l, r. split_and!; [done..|]. apply index_upto_app; [done..|]. by apply Forall_take1.
Qed.

Lemma index_from_spec m p : readable p -> index_ok m -> exists l r, m = l ++ r /\
  Forall (fun x => bytes_lt (sep x) (content_of p)) l /\ Forall (fun x => bytes_le (content_of p) (sep x)) r /\
  index_from p m = Ok r.
Proof.
  intros Hp Hm. destruct (index_split_lt m (content_of p) Hm) as (l & r & -> & Hl & Hr).
  exists l, r. split_and!; [done..|]. apply index_from_app; [done..|]. by apply Forall_take1.
Qed.

Lemma index_between_spec m lo up : readable lo -> readable up -> bytes_lt (content_of lo) (content_of up) ->
  index_ok m ->
  exists l b r, m = l ++ b ++ r /\ Forall (fun x => bytes_lt (sep x) (content_of lo)) l /\
    Forall (fun x => bytes_le (content_of up) (sep x)) r /\ index_between lo up m = Ok b.
Proof.
  intros Hlo Hup Hlt Hm. destruct (index_from_spec m lo Hlo Hm) as (l & r & -> & Hl & Hr & Hf).
  apply index_ok_app in Hm as (_ & Hm & _).
  destruct (index_split_lt r (content_of up) Hm) as (b & d & -> & Hb & Hd). exists l, b, d. split_and!; [done..|].
  unfold index_between. rewrite key_cmp_readable by done. cbn [res_bind]. unfold bytes_lt in Hlt. rewrite Hlt.
  rewrite Hf. cbn [res_bind]. apply index_below_app; [done..|]. by apply Forall_take1.
Qed.

(** * Selections *)
Definition offset_lt (a b : BlockIndexEntry) : Prop := entry_offset a < entry_offset b.

Definition offsets_increase (m : DataIndex) : Prop := StronglySorted offset_lt (data_block_entries m).

(** A selection among the entries of a map, under their offsets. *)
Record selection_of (es : list BlockIndexEntry) (s : Selection) : Prop := {
  so_sorted : StronglySorted (fun a b : Z * BlockIndexEntry => a.1 < b.1) s;
  so_among : forall o e, (o, e) ∈ s -> o = entry_offset e /\ e ∈ es
}.

Lemma selection_nil es : selection_of es [].
Proof. split; [constructor|]. intros o e H. by apply not_elem_of_nil in H. Qed.

Lemma select_sorted o e s : StronglySorted (fun a b : Z * BlockIndexEntry => a.1 < b.1) s ->
  StronglySorted (fun a b : Z * BlockIndexEntry => a.1 < b.1) (select o e s) /\
  (forall o' e', (o', e') ∈ select o e s <-> o' = o /\ e' = e \/ o' <> o /\ (o', e') ∈ s).
Proof.
  induction s as [|[p d] s IH]; intros Hs; cbn [select].
  - split; [repeat constructor|]. intros o' e'. rewrite list_elem_of_singleton, elem_of_nil. naive_solver.
  - apply StronglySorted_inv in Hs as [Hs Hp]. rewrite list.Forall_forall in Hp. destruct (IH Hs) as [IHs IHe].
    assert (Hlt : forall o' e', (o', e') ∈ s -> p < o') by (intros o' e' Hin; exact (Hp _ Hin)).
    destruct (Z.compare_spec o p) as [->|Hop|Hop].
    + split; [constructor; [done|]; by apply list.Forall_forall|]. intros o' e'. rewrite !elem_of_cons.
      split; [intros [[= -> ->]|Hin]; [by left|right; split; [apply Hlt in Hin; lia|by right]]|].
      intros [[-> ->]|[Hn [[= -> ->]|Hin]]]; [by left|done|by right].
    + split.
      { repeat constructor; [done|by apply list.Forall_forall|done|].
        apply list.Forall_forall. intros [o' e'] Hin. apply Hlt in Hin. cbn. lia. }
      intros o' e'. rewrite !elem_of_cons. split.
      * intros [[= -> ->]|[[= -> ->]|Hin]]; [by left|right; split; [lia|by left]|].
        right. split; [apply Hlt in Hin; lia|by right].
      * intros [[-> ->]|[_ H]]; [by left|by right].
    + split.
      { constructor; [done|]. apply list.Forall_forall. intros [o' e'] Hin. cbn.
        apply IHe in Hin as [[-> ->]|[_ Hin]]; [lia|by apply Hlt in Hin]. }
      intros o' e'. rewrite !elem_of_cons, IHe. split.
      * intros [[= -> ->]|[[-> ->]|[Hn Hin]]]; [right; split; [lia|by left]|by left|right; split; [done|by right]].
      * intros [[-> ->]|[Hn [[= -> ->]|Hin]]]; [right; by left|by left|right; by right].
Qed.

Lemma offset_inj es a b : StronglySorted offset_lt es -> a ∈ es -> b ∈ es -> entry_offset a = entry_offset b -> a = b.
Proof.
  induction 1 as [|x es Hs IH Hx]; [by intros H%not_elem_of_nil|]. rewrite list.Forall_forall in Hx. unfold offset_lt in Hx.
  rewrite !elem_of_cons. intros [->|Ha] [->|Hb] E; [done|specialize (Hx _ Hb); lia|specialize (Hx _ Ha); lia|by apply IH].
Qed.

Lemma elem_of_into_values es s e : selection_of es s -> e ∈ into_values s <-> (entry_offset e, e) ∈ s.
Proof.
  intros [_ Ha]. unfold into_values. rewrite list_elem_of_fmap. split.
  - intros ([o d] & -> & Hin). destruct (Ha _ _ Hin) as [-> _]. done.
  - intros Hin. by exists (entry_offset e, e).
Qed.

Lemma select_entry_ok es s e : StronglySorted offset_lt es -> e ∈ es -> selection_of es s ->
  selection_of es (select_entry e s) /\
  forall e', e' ∈ into_values (select_entry e s) <-> e' = e \/ e' ∈ into_values s.
Proof.
  intros Hes He Hs. unfold select_entry. destruct (select_sorted (entry_offset e) e s (so_sorted _ _ Hs)) as [Hss Hel].
  assert (Hn : selection_of es (select (entry_offset e) e s)).
  { split; [done|]. intros o d Hin. apply Hel in Hin as [[-> ->]|[_ Hin]]; [done|by apply (so_among _ _ Hs)]. }
  split; [done|]. intros e'. rewrite (elem_of_into_values es), (elem_of_into_values es) by done. rewrite Hel. split.
  - intros [[_ ->]|[_ Hin]]; [by left|by right].
  - intros [->|Hin]; [by left|]. destruct (decide (entry_offset e' = entry_offset e)) as [E|]; [left|by right].
    split; [done|]. apply (offset_inj es); [done| |done|done]. by apply (so_among _ _ Hs) in Hin as [_ Hin].
Qed.

Lemma select_all_ok es new : StronglySorted offset_lt es -> new ⊆ es -> forall s, selection_of es s ->
  selection_of es (select_all new s) /\
  forall e', e' ∈ into_values (select_all new s) <-> e' ∈ new \/ e' ∈ into_values s.
Proof.
  intros Hes. induction new as [|e new IH]; intros Hsub s Hs; cbn.
  - split; [done|]. intros e'. rewrite elem_of_nil. naive_solver.
  - destruct (select_entry_ok es s e) as [H1 H2]; [done|apply Hsub; by left|done|].
    destruct (IH ltac:(intros x Hx; apply Hsub; by right) _ H1) as [H3 H4]. split; [done|].
    intros e'. unfold select_all in H4. rewrite H4, H2, elem_of_cons. tauto.
Qed.

(** Part of a strictly sorted list, in its order. *)
Lemma sorted_sublist {A} (R : relation A) (l : list A) :
  (forall x, ~ R x x) -> (forall x y z, R x y -> R y z -> R x z) ->
  StronglySorted R l -> forall k, StronglySorted R k -> k ⊆ l -> k `sublist_of` l.
Proof.
  intros Hirr Htr. induction 1 as [|x l Hs IH Hx]; intros k Hk Hsub.
  - destruct k as [|y k]; [done|]. specialize (Hsub y). destruct (not_elem_of_nil y). apply Hsub. by left.
  - rewrite list.Forall_forall in Hx. destruct Hk as [|y k Hk Hy]; [apply sublist_nil_l|].
    rewrite list.Forall_forall in Hy. assert (Hyk : y ∈ x :: l) by (apply Hsub; by left).
    apply elem_of_cons in Hyk as [->|Hyl].
    + apply sublist_skip, IH; [done|]. intros z Hz. assert (Hzx : z ∈ x :: l) by (apply Hsub; by right).
      apply elem_of_cons in Hzx as [->|]; [|done]. destruct (Hirr x). by apply Hy.
    + apply sublist_cons, IH; [constructor; [done|by apply list.Forall_forall]|].
      intros z Hz. assert (Hzx : z ∈ x :: l) by by apply Hsub.
      apply elem_of_cons in Hzx as [->|]; [|done]. destruct (Hirr x). apply elem_of_cons in Hz as [->|Hz].
      * by apply Hx.
      * apply (Htr _ y); [by apply Hx|by apply Hy].
Qed.

Lemma sublist_subseteq {A} (k l : list A) : k `sublist_of` l -> k ⊆ l.
Proof.
  induction 1 as [|x k l _ IH|x k l _ IH]; intros y; rewrite ?elem_of_cons; [done|naive_solver|].
  intros Hy. right. by apply IH.
Qed.

Lemma into_values_sublist es s : StronglySorted offset_lt es -> selection_of es s -> into_values s `sublist_of` es.
Proof.
  intros Hes Hs. apply (sorted_sublist offset_lt); [unfold offset_lt; lia|unfold offset_lt; lia|done| |].
  - destruct Hs as [Hs Ha]. clear Hes. induction Hs as [|[o e] s Hs IH Hx]; [constructor|]. cbn.
    rewrite list.Forall_forall in Hx. constructor; [apply IH; intros o' e' Hin; apply Ha; by right|].
    apply list.Forall_forall. intros e' Hin. apply list_elem_of_fmap in Hin as ([o' d] & -> & Hin).
    pose proof (Hx _ Hin) as Hlt. cbn in Hlt. destruct (Ha o e) as [-> _]; [by left|].
    destruct (Ha o' d) as [-> _]; [by right|]. done.
  - intros e He. apply (elem_of_into_values es) in He; [|done]. by apply (so_among _ _ Hs) in He as [_ He].
Qed.

(** * What is chosen *)
Lemma sorted_position m a b c d x : index_ok m -> m = a ++ x :: b -> m = c ++ x :: d -> a = c /\ b = d.
Proof.
  intros [_ Hs] Hx Hm. rewrite Hx in Hm, Hs. clear Hx. revert c Hm.
  induction a as [|y a IH]; intros [|z c] Hm; cbn [app] in *.
  - split; congruence.
  - injection Hm as -> Hm. apply StronglySorted_inv in Hs as [_ Hs]. rewrite list.Forall_forall in Hs.
    destruct (bytes_lt_irrefl (sep z)). apply Hs. rewrite Hm. apply elem_of_app. right. by left.
  - injection Hm as -> Hm. apply StronglySorted_inv in Hs as [_ Hs]. rewrite list.Forall_forall in Hs.
    destruct (bytes_lt_irrefl (sep x)). apply Hs. apply elem_of_app. right. by left.
  - injection Hm as -> Hm. apply StronglySorted_inv in Hs as [Hs _]. by destruct (IH Hs _ Hm) as [-> ->].
Qed.

Lemma sorted_after m a x b y : index_ok m -> m = a ++ x :: b -> y ∈ b -> bytes_lt (sep x) (sep y).
Proof.
  intros Hm -> Hy. apply index_ok_app in Hm as (_ & Hm & _). apply index_ok_cons in Hm as (_ & _ & Hlt). by apply Hlt.
Qed.

Section chosen.
Context (m : DataIndex) (keys : BlockIndexEntry -> list bytes).

(** A written file: the separators and the offsets of the blocks increase, and a
    block's keys lie between its separator and the next one -- which a key may
    equal, as copies of a key can straddle blocks. *)
Record index_wf : Prop := {
  iw_ok : index_ok m;
  iw_offsets : offsets_increase m;
  iw_keys : forall l x r k, m = l ++ x :: r -> k ∈ keys x.2 ->
    bytes_le (sep x) k /\ Forall (fun y => bytes_le k (sep y)) (take 1 r)
}.

Context (W : index_wf).

Lemma entry_split e : e ∈ data_block_entries m -> exists l x r, m = l ++ x :: r /\ x.2 = e.
Proof.
  unfold data_block_entries. intros He. apply list_elem_of_fmap in He as (x & -> & Hx).
  apply list_elem_of_split in Hx as (l & r & ->). by exists l, x, r.
Qed.

Lemma in_entries l x r : m = l ++ x :: r -> x.2 ∈ data_block_entries m.
Proof.
  intros ->. unfold data_block_entries. apply list_elem_of_fmap. exists x. split; [done|]. apply elem_of_app. right. by left.
Qed.

(** The block of a key among the blocks at or below it: the last one, or the one
    before when the last begins with the key. *)
Lemma block_of_key k l r a x b :
  m = l ++ r -> Forall (fun x => bytes_le (sep x) k) l -> Forall (fun x => bytes_lt k (sep x)) r ->
  m = a ++ x :: b -> k ∈ keys x.2 ->
  l = a ++ [x] \/ exists last, l = a ++ [x; last] /\ sep last = k.
Proof.
  intros Hm Hl Hr Hx Hk. destruct (iw_keys W a x b _ Hx Hk) as [Hle Hnext].
  assert (Hin : x ∈ l).
  { assert (Hxm : x ∈ m) by (rewrite Hx; apply elem_of_app; right; by left).
    rewrite Hm in Hxm. apply elem_of_app in Hxm as [|Hxr]; [done|]. rewrite list.Forall_forall in Hr.
    destruct (bytes_lt_irrefl (sep x)). by apply (bytes_le_lt_trans _ k), Hr. }
  apply list_elem_of_split in Hin as (l1 & l2 & ->). rewrite <- app_assoc in Hm. cbn [app] in Hm.
  destruct (sorted_position m a b l1 (l2 ++ r) x (iw_ok W) Hx Hm) as [-> ->].
  apply list.Forall_app in Hl as [_ Hl]. apply Forall_cons_1 in Hl as [_ Hl].
  destruct l2 as [|y l2]; [by left|right]. cbn [app firstn] in Hnext. apply Forall_cons_1 in Hnext as [Hy _].
  apply Forall_cons_1 in Hl as [Hyl Hl]. destruct l2 as [|z l2].
  - exists y. split; [done|]. by apply bytes_le_antisym.
  - exfalso. apply Forall_cons_1 in Hl as [Hz _]. apply (bytes_lt_irrefl (sep y)).
    apply bytes_lt_le_trans with k; [|done]. apply bytes_lt_le_trans with (sep z); [|done].
    apply (sorted_after m (l1 ++ [x]) y (z :: l2 ++ r)); [apply (iw_ok W)|by rewrite <- app_assoc|by left].
Qed.

(** The choice for one probe: nothing chosen before is lost, and every block that
    holds the key is chosen. *)
Lemma select_for_probe_ok selected probe :
  readable probe -> selection_of (data_block_entries m) selected ->
  exists s, select_for_probe m selected probe = Ok s /\ selection_of (data_block_entries m) s /\
    (forall e, e ∈ into_values selected -> e ∈ into_values s) /\
    (forall e, e ∈ data_block_entries m -> content_of probe ∈ keys e -> e ∈ into_values s).
Proof.
  intros Hp Hs. destruct (index_upto_spec m probe Hp (iw_ok W)) as (l & r & Hm & Hl & Hr & Hu).
  unfold select_for_probe. rewrite Hu. cbn [res_bind].
  assert (Hblock : forall e, e ∈ data_block_entries m -> content_of probe ∈ keys e -> exists x a, x.2 = e /\
    (l = a ++ [x] \/ exists last, l = a ++ [x; last] /\ sep last = content_of probe)).
  { intros e He Hk. apply entry_split in He as (a & x & b & Hx & <-). exists x, a. split; [done|].
    by apply (block_of_key _ l r a x b). }
  destruct (reverse l) as [|[ik entry] before] eqn:Hrev.
  { exists selected. split_and!; [done..|]. intros e He Hk. destruct (Hblock e He Hk) as (x & a & _ & [->|(y & -> & _)]);
    rewrite reverse_app in Hrev; discriminate. }
  assert (El : l = reverse before ++ [(ik, entry)]).
  { rewrite <- (reverse_involutive l), Hrev. by rewrite reverse_cons. }
  assert (Hin : entry ∈ data_block_entries m).
  { apply (in_entries (reverse before) (ik, entry) r). by rewrite Hm, El, <- app_assoc. }
  destruct (select_entry_ok _ selected entry (iw_offsets W) Hin Hs) as [Hs1 He1].
  assert (Hik : readable ik).
  { pose proof (io_readable _ (iw_ok W)) as Hread. rewrite Hm, El, !list.Forall_app in Hread.
    destruct Hread as [[_ Hread] _]. by apply Forall_cons_1 in Hread as [? _]. }
  unfold key_eqb. rewrite key_cmp_readable by done. cbn [res_bind].
  destruct before as [|[pk previous] before].
  { exists (select_entry entry selected). split; [by destruct (bytes_cmp _ _)|]. split_and!; [done|intros; apply He1; by right|].
    intros e He Hk. apply He1. left. rewrite El in Hblock. cbn in Hblock.
    destruct (Hblock e He Hk) as (x & a & <- & [E|(y & E & _)]); destruct a as [|? [|? ?]]; simplify_eq/=; done. }
  assert (Hprev : previous ∈ data_block_entries m).
  { apply (in_entries (reverse before) (pk, previous) ((ik, entry) :: r)). rewrite Hm, El, reverse_cons, <- !app_assoc. done. }
  destruct (select_entry_ok _ _ previous (iw_offsets W) Hprev Hs1) as [Hs2 He2].
  rewrite reverse_cons, <- app_assoc in El. cbn [app] in El.
  pose proof (bytes_cmp_eq (content_of ik) (content_of probe)) as Heq.
  assert (Hcase : forall e, e ∈ data_block_entries m -> content_of probe ∈ keys e ->
    e = entry \/ e = previous /\ content_of ik = content_of probe).
  { intros e He Hk. destruct (Hblock e He Hk) as (x & a & <- & [E|(y & E & Hy)]).
    - left. rewrite El in E. change ([(pk, previous); (ik, entry)]) with ([(pk, previous)] ++ [(ik, entry)]) in E.
      rewrite app_assoc in E. by apply app_inj_tail in E as [_ <-].
    - right. rewrite El in E. change ([x; y]) with ([x] ++ [y]) in E.
      change ([(pk, previous); (ik, entry)]) with ([(pk, previous)] ++ [(ik, entry)]) in E. rewrite !app_assoc in E.
      apply app_inj_tail in E as [E <-]. by apply app_inj_tail in E as [_ <-]. }
  destruct (bytes_cmp (content_of ik) (content_of probe)) eqn:Hc.
  - exists (select_entry previous (select_entry entry selected)). split_and!; [done|done|intros; apply He2; right; apply He1; by right|].
    intros e He Hk. apply He2. destruct (Hcase e He Hk) as [->|[-> _]]; [right; apply He1|]; by left.
  - exists (select_entry entry selected). split_and!; [done|done|intros; apply He1; by right|].
    intros e He Hk. apply He1. destruct (Hcase e He Hk) as [->|[-> E]]; [by left|]. by apply Heq in E.
  - exists (select_entry entry selected). split_and!; [done|done|intros; apply He1; by right|].
    intros e He Hk. apply He1. destruct (Hcase e He Hk) as [->|[-> E]]; [by left|]. by apply Heq in E.
Qed.

(** A choice of blocks: in file order, and with every block that holds a key that
    is wanted. *)
Definition choice (wanted : BlockIndexEntry -> Prop) (sel : list BlockIndexEntry) : Prop :=
  sel `sublist_of` data_block_entries m /\
  forall e, e ∈ data_block_entries m -> wanted e -> e ∈ sel.

Lemma choice_all wanted : choice wanted (data_block_entries m).
Proof. by split. Qed.

Lemma select_for_keys_ok ks : forall selected, selection_of (data_block_entries m) selected ->
  exists o, select_for_keys m ks selected = Ok o /\
    match o with
    | None => True
    | Some s => selection_of (data_block_entries m) s /\
        (forall e, e ∈ into_values selected -> e ∈ into_values s) /\
        (forall e k, e ∈ data_block_entries m -> k ∈ ks -> k ∈ keys e -> e ∈ into_values s)
    end.
Proof.
  induction ks as [|k ks IH]; intros selected Hs; cbn [select_for_keys].
  - exists (Some selected). split_and!; [done..|]. intros e k _ Hk. by apply not_elem_of_nil in Hk.
  - destruct (key_from_content k) as [probe|] eqn:Hp; [|by exists None].
    apply probe_readable in Hp as [Hr Hc]. destruct (select_for_probe_ok selected probe Hr Hs) as (s1 & -> & Hs1 & Hk1 & Hc1).
    cbn [res_bind]. destruct (IH s1 Hs1) as ([s2|] & -> & Ho); [|by exists None].
    exists (Some s2). destruct Ho as (Hs2 & Hk2 & Hc2). split_and!; [done|done|auto|].
    intros e j He Hj Hje. apply elem_of_cons in Hj as [->|Hj]; [|by apply (Hc2 e j)]. apply Hk2, Hc1; [done|]. by rewrite Hc.
Qed.

Lemma blocks_for_keys_ok ks : exists sel, blocks_for_keys m ks = Ok sel /\
  choice (fun e => exists k, k ∈ ks /\ k ∈ keys e) sel.
Proof.
  unfold blocks_for_keys. destruct (select_for_keys_ok ks [] (selection_nil _)) as ([s|] & -> & Ho); cbn [res_bind].
  - destruct Ho as (Hs & _ & Hk). exists (into_values s). split; [done|]. split.
    + apply into_values_sublist; [apply (iw_offsets W)|done].
    + intros e He (k & Hks & Hke). by apply (Hk e k).
  - exists (data_block_entries m). split; [done|apply choice_all].
Qed.

(** A prefix misses a block only if it holds the prefix itself as a key, and the
    next block's separator is that key too. *)
Definition prefix_covered (p : bytes) : Prop :=
  forall l x y r, m = l ++ x :: y :: r -> p ∈ keys x.2 -> sep y <> p.

Lemma spanned_ok p lower : key_from_content p = Some lower ->
  exists b, match prefix_upper_bound p with
            | Some upper =>
                match key_from_content upper with
                | Some upper => index_between lower upper m
                | None => Panic
                end
            | None => index_from lower m
            end = Ok b /\
    (forall x, x ∈ b -> x ∈ m) /\
    (forall x k, x ∈ m -> bytes_le p (sep x) -> bytes_le (sep x) k -> p `prefix_of` k -> x ∈ b).
Proof.
  intros Hlo. pose proof Hlo as [Hr Hc]%probe_readable. destruct (prefix_upper_bound p) as [u|] eqn:Hu.
  - pose proof (prefix_below_bound p u Hu) as Hb.
    destruct (key_from_content u) as [upper|] eqn:Hup.
    + pose proof Hup as [Hru Hcu]%probe_readable.
      destruct (index_between_spec m lower upper Hr Hru) as (l & b & r & Hm & Hl & Hrr & ->); [|apply (iw_ok W)|].
      { rewrite Hc, Hcu. apply Hb. done. }
      exists b. split; [done|]. rewrite Hm. split.
      { intros x Hx. apply elem_of_app. right. apply elem_of_app. by left. }
      intros x k Hx Hle Hk Hpre. rewrite Hc, Hcu in *. apply elem_of_app in Hx as [Hx|Hx].
      { rewrite list.Forall_forall in Hl. destruct (bytes_lt_irrefl (sep x)).
        apply bytes_lt_le_trans with p; [by apply Hl|done]. }
      apply elem_of_app in Hx as [Hx|Hx]; [done|]. rewrite list.Forall_forall in Hrr.
      destruct (bytes_lt_irrefl k). apply bytes_lt_le_trans with u; [by apply Hb|].
      apply bytes_le_trans with (sep x); [by apply Hrr|done].
    + apply upper_bound_length in Hu. unfold key_from_content in Hlo, Hup. repeat case_match; try done. lia.
  - destruct (index_from_spec m lower Hr (iw_ok W)) as (l & r & Hm & Hl & Hrr & ->). exists r. split; [done|]. rewrite Hm. split.
    { intros x Hx. apply elem_of_app. by right. }
    intros x k Hx Hle _ _. rewrite Hc in *. apply elem_of_app in Hx as [Hx|Hx]; [|done].
    rewrite list.Forall_forall in Hl. destruct (bytes_lt_irrefl (sep x)). apply bytes_lt_le_trans with p; [by apply Hl|done].
Qed.

Lemma blocks_for_prefix_ok p : prefix_covered p -> exists sel, blocks_for_prefix m p = Ok sel /\
  choice (fun e => exists k, p `prefix_of` k /\ k ∈ keys e) sel.
Proof.
  intros Hcov. unfold blocks_for_prefix. destruct (key_from_content p) as [lower|] eqn:Hlo;
    [|exists (data_block_entries m); split; [done|apply choice_all]].
  pose proof Hlo as [Hr Hc]%probe_readable.
  destruct (index_upto_spec m lower Hr (iw_ok W)) as (l & r & Hm & Hl & Hrr & ->). cbn [res_bind]. rewrite Hc in *.
  destruct (spanned_ok p lower Hlo) as (b & -> & Hbm & Hb). cbn [res_bind].
  set (s0 := match list.last l with Some (_, entry) => select_entry entry [] | None => [] end).
  assert (H0 : selection_of (data_block_entries m) s0 /\ forall x l', l = l' ++ [x] -> x.2 ∈ into_values s0).
  { subst s0. destruct (list.last l) as [[k e]|] eqn:El.
    - apply last_Some in El as [l' ->]. destruct (select_entry_ok (data_block_entries m) [] e) as [Hs He];
        [apply (iw_offsets W)|by apply (in_entries l' (k, e) r); rewrite Hm, <- app_assoc|apply selection_nil|].
      split; [done|]. intros x l2 E. apply app_inj_tail in E as [_ <-]. apply He. by left.
    - apply last_None in El as ->. split; [apply selection_nil|]. intros x l' E. by destruct l'. }
  destruct H0 as [Hs0 Hlast].
  destruct (select_all_ok (data_block_entries m) (map snd b) (iw_offsets W)) with (s := s0) as [Hs Hel]; [|done|].
  { intros e He. apply list_elem_of_fmap in He as (x & -> & Hx). apply Hbm in Hx. unfold data_block_entries.
    apply list_elem_of_fmap. by exists x. }
  eexists. split; [done|]. split; [apply into_values_sublist; [apply (iw_offsets W)|done]|].
  intros e He (k & Hpre & Hk). apply entry_split in He as (a & x & d & Hx & <-). apply Hel.
  destruct (iw_keys W a x d k Hx Hk) as [Hle Hnext].
  assert (Hxm : x ∈ m) by (rewrite Hx; apply elem_of_app; right; by left).
  destruct (decide (bytes_lt p (sep x))) as [Hlt|Hge].
  { left. apply list_elem_of_fmap. exists x. split; [done|]. apply (Hb x k); [done| |done|done]. by apply bytes_lt_le. }
  right. apply bytes_not_lt in Hge. apply (Hlast x a). 
  assert (Hin : x ∈ l).
  { rewrite Hm in Hxm. apply elem_of_app in Hxm as [|Hxr]; [done|]. rewrite list.Forall_forall in Hrr.
    destruct (bytes_lt_irrefl p). apply bytes_lt_le_trans with (sep x); [by apply Hrr|done]. }
  apply list_elem_of_split in Hin as (l1 & l2 & ->). rewrite <- app_assoc in Hm. cbn [app] in Hm.
  destruct (sorted_position m a d l1 (l2 ++ r) x (iw_ok W) Hx Hm) as [-> ->].
  destruct l2 as [|y l2]; [done|exfalso]. cbn [app firstn] in *. apply Forall_cons_1 in Hnext as [Hy _].
  apply list.Forall_app in Hl as [_ Hl]. apply Forall_cons_1 in Hl as [_ Hl]. apply Forall_cons_1 in Hl as [Hyp _].
  assert (k = p) as -> by (apply bytes_le_antisym; [by apply bytes_le_trans with (sep y)|by apply prefix_le]).
  apply (Hcov l1 x y (l2 ++ r) Hm Hk). by apply bytes_le_antisym.
Qed.

Lemma select_prefixes_ok ps : Forall prefix_covered ps -> forall selected, selection_of (data_block_entries m) selected ->
  exists s, res_fold (select_prefix m) ps selected = Ok s /\ selection_of (data_block_entries m) s /\
    (forall e, e ∈ into_values selected -> e ∈ into_values s) /\
    (forall e p k, e ∈ data_block_entries m -> p ∈ ps -> p `prefix_of` k -> k ∈ keys e -> e ∈ into_values s).
Proof.
  induction 1 as [|p ps Hp Hps IH]; intros selected Hs; cbn [res_fold].
  - exists selected. split_and!; [done..|]. intros e p k _ H. by apply not_elem_of_nil in H.
  - unfold select_prefix at 1. destruct (blocks_for_prefix_ok p Hp) as (sel & -> & Hsub & Hsel). cbn [res_bind].
    destruct (select_all_ok (data_block_entries m) sel (iw_offsets W)) with (s := selected) as [Hs1 Hel]; [|done|].
    { intros e He. by apply (sublist_subseteq sel _ Hsub). }
    destruct (IH _ Hs1) as (s & -> & Hs2 & Hkeep & Hin). exists s. split_and!; [done|done| |].
    + intros e He. apply Hkeep, Hel. by right.
    + intros e q k He Hq Hpre Hk. apply elem_of_cons in Hq as [->|Hq]; [|by apply (Hin e q k)].
      apply Hkeep, Hel. left. apply Hsel; [done|]. by exists k.
Qed.

Definition predicate_covered (p : KeyPredicate) : Prop :=
  match p with Keys _ => True | Prefixes ps => Forall prefix_covered ps end.

Lemma admits_keys ks k : admits (Keys ks) k = true <-> k ∈ ks.
Proof.
  cbn. rewrite existsb_exists. split.
  - intros (x & Hx & E%bool_decide_eq_true). subst. by apply list_elem_of_In.
  - intros Hk. exists k. split; [by apply list_elem_of_In|by apply bool_decide_eq_true].
Qed.

Lemma admits_prefixes ps k : admits (Prefixes ps) k = true <-> exists p, p ∈ ps /\ p `prefix_of` k.
Proof.
  cbn. rewrite existsb_exists. unfold starts_with. split.
  - intros (x & Hx & E%bool_decide_eq_true). exists x. split; [by apply list_elem_of_In|done].
  - intros (p & Hp & E). exists p. split; [by apply list_elem_of_In|by apply bool_decide_eq_true].
Qed.

Lemma blocks_for_predicate_ok p : predicate_covered p -> exists sel, blocks_for_predicate m p = Ok sel /\
  choice (fun e => exists k, k ∈ keys e /\ admits p k = true) sel.
Proof.
  destruct p as [ks|ps]; cbn [blocks_for_predicate predicate_covered].
  - intros _. destruct (blocks_for_keys_ok ks) as (sel & -> & Hsub & Hsel). exists sel. split; [done|]. split; [done|].
    intros e He (k & Hk & Ha%admits_keys). apply Hsel; [done|]. by exists k.
  - intros Hc. destruct (select_prefixes_ok ps Hc [] (selection_nil _)) as (s & -> & Hs & _ & Hin). cbn [res_bind].
    exists (into_values s). split; [done|]. split; [apply into_values_sublist; [apply (iw_offsets W)|done]|].
    intros e He (k & Hk & (p & Hp & Hpre)%admits_prefixes). by apply (Hin e p k).
Qed.
End chosen.

(** The hashed matcher tests what the predicate says. *)
Lemma matcher_agrees p k : matcher_admits (matcher p) k = admits p k.
Proof.
  destruct p as [ks|ps]; [|done]. apply Bool.eq_true_iff_eq. rewrite admits_keys. cbn.
  by rewrite bool_decide_eq_true, elem_of_list_to_set.
Qed.

(** * Windows *)
Definition total_size (w : list BlockIndexEntry) : Z := foldr (fun e n => entry_size e + n) 0 w.

Definition window_fits (budget : Z) (w : list BlockIndexEntry) : Prop :=
  w <> [] /\ (total_size w <= budget \/ exists e, w = [e]).

Lemma total_size_app w w' : total_size (w ++ w') = total_size w + total_size w'.
Proof. induction w as [|e w IH]; cbn; [done|]. unfold total_size in *. lia. Qed.

Record windows_inv (budget : Z) (seen : list BlockIndexEntry) (st : WindowState) : Prop := {
  wi_seen : concat (w_windows st) ++ w_current st = seen;
  wi_windows : Forall (window_fits budget) (w_windows st);
  wi_current : w_current st = [] \/ window_fits budget (w_current st);
  wi_bytes : w_current_bytes st = Z.min (total_size (w_current st)) u64_max
}.

Lemma total_size_nonneg w : Forall (fun e => 0 <= entry_size e) w -> 0 <= total_size w.
Proof. induction 1; cbn; [done|]. unfold total_size in *. lia. Qed.

Lemma window_step_inv budget seen st e : 0 <= budget < u64_max -> Forall (fun e => 0 <= entry_size e) (seen ++ [e]) ->
  windows_inv budget seen st -> windows_inv budget (seen ++ [e]) (window_step budget st e).
Proof.
  intros Hb Hpos [Hs Hw Hc Hby]. apply list.Forall_app in Hpos as [Hpos He]. apply Forall_cons_1 in He as [He _].
  assert (Hcp : 0 <= total_size (w_current st)).
  { apply total_size_nonneg. rewrite <- Hs in Hpos. by apply list.Forall_app in Hpos as [_ ?]. }
  unfold window_step, saturating_add. rewrite Hby. case_bool_decide as Hn; cbn [negb andb].
  - rewrite Hn in *. split; cbn; [by rewrite <- Hs, app_nil_r|done| |cbn in *; lia]. right. split; [done|]. right. by exists e.
  - destruct (Z.ltb_spec budget (Z.min (Z.min (total_size (w_current st)) u64_max + entry_size e) u64_max)) as [Hf|Hf].
    + split; cbn; [| | |lia].
      * by rewrite concat_app, <- Hs; cbn; rewrite app_nil_r.
      * apply list.Forall_app. split; [done|]. constructor; [|done]. by destruct Hc.
      * right. split; [done|]. right. by exists e.
    + split; cbn; [by rewrite app_assoc, Hs|done| |rewrite total_size_app; cbn; lia].
      right. split; [by destruct (w_current st)|]. left. rewrite total_size_app. cbn. lia.
Qed.

Lemma windows_inv_all budget entries : 0 <= budget < u64_max -> Forall (fun e => 0 <= entry_size e) entries ->
  windows_inv budget entries (foldl (window_step budget) (mkWindows [] [] 0) entries).
Proof.
  intros Hb. induction entries as [|e entries IH] using rev_ind; intros Hp.
  - split; cbn; [done|constructor|by left|done].
  - rewrite foldl_app. cbn. apply window_step_inv; [done..|]. apply IH. by apply list.Forall_app in Hp as [? _].
Qed.

Lemma plan_windows_ok entries budget : 0 <= budget < u64_max -> Forall (fun e => 0 <= entry_size e) entries ->
  concat (plan_windows entries budget) = entries /\ Forall (window_fits budget) (plan_windows entries budget).
Proof.
  intros Hb Hp. destruct (windows_inv_all budget entries Hb Hp) as [Hs Hw Hc _]. unfold plan_windows.
  case_bool_decide as Hn.
  - rewrite Hn, app_nil_r in Hs. done.
  - rewrite concat_app. cbn. rewrite app_nil_r. split; [done|]. apply list.Forall_app. split; [done|].
    constructor; [|done]. by destruct Hc.
Qed.

(** * Index blocks as written *)
Record IndexEntry := mkIndexEntry {
  ie_offset : Z;
  ie_size : Z;
  ie_key : bytes
}.

Definition index_entry_ok (x : IndexEntry) : Prop :=
  0 <= ie_offset x < 2 ^ 64 /\ 0 <= ie_size x < 2 ^ 32 /\ blen (ie_key x) < 2 ^ 31.

Definition parsed_entry (x : IndexEntry) : BlockIndexEntry :=
  mkEntry (key_from_bytes (ie_key x)) None (ie_offset x) (ie_size x).

Definition encode_root_entry (x : IndexEntry) : bytes :=
  to_be_bytes 8 (ie_offset x) ++ to_be_bytes 4 (ie_size x) ++ write_vlong (blen (ie_key x)) ++ ie_key x.

Definition encode_root (xs : list IndexEntry) : bytes := concat (map encode_root_entry xs).

Lemma key_new_whole b : blen b <= u64_max -> key_new b 0 (blen b) = key_from_bytes b.
Proof.
  intros Hb. pose proof (blen_nonneg b). unfold key_new, saturating_add, key_from_bytes.
  rewrite (Z.min_l (0 + blen b)), Z.add_0_l, Z.min_id, Z.min_l by lia. f_equal.
  pose proof (slice_app_here [] b []) as Hs. by rewrite app_nil_r in Hs.
Qed.

Lemma blen_encode_root_entry x : blen (encode_root_entry x) = 12 + blen (write_vlong (blen (ie_key x))) + blen (ie_key x).
Proof. unfold encode_root_entry. rewrite !blen_app, !blen_to_be_bytes. lia. Qed.

Definition entry_key (content_only : bool) (x : IndexEntry) : Key :=
  if content_only then key_from_bytes (ie_key x) else key_new (ie_key x) 0 (blen (ie_key x)).

(** One entry, wherever it lies. *)
Lemma root_entry_here n data pre x post content_only :
  index_entry_ok x -> data = pre ++ encode_root_entry x ++ post -> blen data <= u64_max ->
  root_entries_loop (S n) data (blen pre) content_only =
  (let? rest := root_entries_loop n data (blen (pre ++ encode_root_entry x)) content_only in
   Ok (parsed_entry x :: rest)).
Proof.
  intros (Ho & Hs & Hk) Hd Hu. cbn [root_entries_loop]. pose proof (blen_nonneg (ie_key x)) as Hk0. pose proof (blen_nonneg pre) as Hp0.
  assert (Hend : blen pre + blen (encode_root_entry x) <= u64_max).
  { rewrite Hd, !blen_app in Hu. pose proof (blen_nonneg post). lia. }
  rewrite blen_encode_root_entry in Hend. unfold encode_root_entry in Hd. rewrite <- !app_assoc in Hd.
  pose proof (blen_to_be_bytes 8 (ie_offset x)) as H8. pose proof (blen_to_be_bytes 4 (ie_size x)) as H4.
  pose proof (from_to_be_bytes 8 (ie_offset x) Ho) as F8. pose proof (from_to_be_bytes 4 (ie_size x) Hs) as F4.
  rewrite blen_app, blen_encode_root_entry. revert Hd H8 H4 F8 F4.
  generalize (to_be_bytes 8 (ie_offset x)) as o. generalize (to_be_bytes 4 (ie_size x)) as s. intros s o Hd H8 H4 F8 F4.
  change (Z.of_nat 8) with 8 in H8. change (Z.of_nat 4) with 4 in H4.
  assert (E1 : index_range data (blen pre) (blen pre + 8) = Ok o) by (rewrite Hd; apply index_range_at; lia).
  assert (E2 : index_range data (blen pre + 8) (blen pre + 8 + 4) = Ok s).
  { rewrite Hd, (app_assoc pre). apply index_range_at; rewrite blen_app; lia. }
  set (w := write_vlong (blen (ie_key x))) in *. pose proof (blen_nonneg w) as Hw.
  assert (E3 : read_var_long data (blen pre + 8 + 4) = Ok (blen (ie_key x), blen w) /\
    var_long_size_on_disk data (blen pre + 8 + 4) = Ok (blen w)).
  { replace (blen pre + 8 + 4) with (blen ((pre ++ o) ++ s)) by (rewrite !blen_app; lia).
    rewrite Hd, (app_assoc pre), (app_assoc (pre ++ o)). apply read_vlong_here. lia. }
  assert (E4 : index_range data (blen pre + 8 + 4 + blen w) (blen pre + 8 + 4 + blen w + blen (ie_key x)) = Ok (ie_key x)).
  { rewrite Hd, (app_assoc pre), (app_assoc (pre ++ o)), (app_assoc ((pre ++ o) ++ s)).
    apply index_range_at; rewrite !blen_app; lia. }
  destruct E3 as [E3 E3']. rewrite E1. cbn [res_bind]. rewrite F8, E2. cbn [res_bind]. rewrite F4. rewrite E3'. cbn [res_bind].
  rewrite E3. cbn [res_bind fst]. rewrite usize_add_ok by lia. cbn [res_bind]. rewrite usize_add_ok by lia. cbn [res_bind].
  rewrite E4. cbn [res_bind]. rewrite key_new_whole by lia.
  replace (blen pre + (12 + blen w + blen (ie_key x))) with (blen pre + 8 + 4 + blen w + blen (ie_key x)) by lia.
  by destruct content_only.
Qed.

Lemma root_entries_written xs : Forall index_entry_ok xs -> forall pre post content_only,
  blen (pre ++ encode_root xs ++ post) <= u64_max ->
  root_entries_loop (length xs) (pre ++ encode_root xs ++ post) (blen pre) content_only = Ok (map parsed_entry xs).
Proof.
  induction 1 as [|x xs Hx _ IH]; intros pre post c Hu; [done|].
  change (encode_root (x :: xs)) with (encode_root_entry x ++ encode_root xs) in *. rewrite <- app_assoc in *.
  cbn [length]. rewrite (root_entry_here _ _ pre x (encode_root xs ++ post)) by done.
  rewrite app_assoc in *. by rewrite IH.
Qed.

Definition encode_leaf_entry (x : IndexEntry) : bytes :=
  to_be_bytes 8 (ie_offset x) ++ to_be_bytes 4 (ie_size x) ++ ie_key x.

Definition encode_leaf_entries (xs : list IndexEntry) : bytes := concat (map encode_leaf_entry xs).

(** Where the entries end, counted from the first. *)
Fixpoint leaf_ends (from : Z) (xs : list IndexEntry) : list Z :=
  match xs with
  | [] => []
  | x :: xs => let to := from + blen (encode_leaf_entry x) in to :: leaf_ends to xs
  end.

Definition encode_offsets (offsets : list Z) : bytes := concat (map (to_be_bytes 4) offsets).

Definition encode_leaf (xs : list IndexEntry) : bytes :=
  to_be_bytes 4 (Z.of_nat (length xs)) ++ encode_offsets (0 :: leaf_ends 0 xs) ++ encode_leaf_entries xs.

Lemma relative_offsets_written offs : Forall (fun o => 0 <= o < 2 ^ 31) offs -> forall pre post,
  relative_offsets_loop (length offs) (pre ++ encode_offsets offs ++ post) (blen pre) =
  Ok (offs, blen (pre ++ encode_offsets offs)).
Proof.
  induction 1 as [|o offs Ho _ IH]; intros pre post; [by rewrite app_nil_r|].
  change (encode_offsets (o :: offs)) with (to_be_bytes 4 o ++ encode_offsets offs). rewrite <- app_assoc.
  cbn [length relative_offsets_loop]. rewrite i32_here by done. cbn [res_bind].
  replace (blen pre + 4) with (blen (pre ++ to_be_bytes 4 o)) by by rewrite blen_app, blen_to_be_bytes.
  rewrite app_assoc, IH. cbn [res_bind fst snd]. by rewrite app_assoc.
Qed.

Lemma leaf_entry_here ends data base pre x post :
  index_entry_ok x -> data = pre ++ encode_leaf_entry x ++ post -> blen data <= u64_max -> 0 <= base <= blen pre ->
  leaf_entries_loop (blen (pre ++ encode_leaf_entry x) - base :: ends) data base (blen pre) =
  (let? rest := leaf_entries_loop ends data base (blen (pre ++ encode_leaf_entry x)) in
   Ok (parsed_entry x :: rest)).
Proof.
  intros (Ho & Hs & Hk) Hd Hu Hbase. cbn [leaf_entries_loop]. pose proof (blen_nonneg (ie_key x)) as Hk0. pose proof (blen_nonneg pre) as Hp0.
  assert (Hend : blen (pre ++ encode_leaf_entry x) <= u64_max).
  { rewrite Hd, !blen_app in Hu. rewrite blen_app. pose proof (blen_nonneg post). lia. }
  assert (Hlen : blen (pre ++ encode_leaf_entry x) = blen pre + 12 + blen (ie_key x)).
  { unfold encode_leaf_entry. rewrite !blen_app, !blen_to_be_bytes. lia. }
  rewrite Hlen in *. unfold encode_leaf_entry in Hd. rewrite <- !app_assoc in Hd.
  pose proof (blen_to_be_bytes 8 (ie_offset x)) as H8. pose proof (blen_to_be_bytes 4 (ie_size x)) as H4.
  pose proof (from_to_be_bytes 8 (ie_offset x) Ho) as F8. pose proof (from_to_be_bytes 4 (ie_size x) Hs) as F4.
  revert Hd H8 H4 F8 F4.
  generalize (to_be_bytes 8 (ie_offset x)) as o. generalize (to_be_bytes 4 (ie_size x)) as s. intros s o Hd H8 H4 F8 F4.
  change (Z.of_nat 8) with 8 in H8. change (Z.of_nat 4) with 4 in H4.
  assert (E1 : index_range data (blen pre) (blen pre + 8) = Ok o) by (rewrite Hd; apply index_range_at; lia).
  assert (E2 : index_range data (blen pre + 8) (blen pre + 12) = Ok s).
  { rewrite Hd, (app_assoc pre). apply index_range_at; rewrite blen_app; lia. }
  assert (E3 : index_range data (blen pre + 12) (blen pre + 12 + blen (ie_key x)) = Ok (ie_key x)).
  { rewrite Hd, (app_assoc pre), (app_assoc (pre ++ o)). apply index_range_at; rewrite !blen_app; lia. }
  rewrite E1. cbn [res_bind]. rewrite F8, E2. cbn [res_bind]. rewrite F4. rewrite usize_add_ok by lia. cbn [res_bind].
  unfold usize_sub. destruct (Z.leb_spec (blen pre + 12) (base + (blen pre + 12 + blen (ie_key x) - base))); [|lia].
  cbn [res_bind]. replace (blen pre + 12 + (base + (blen pre + 12 + blen (ie_key x) - base) - (blen pre + 12)))
    with (blen pre + 12 + blen (ie_key x)) by lia.
  rewrite E3. cbn [res_bind]. rewrite key_new_whole by lia.
  by replace (base + (blen pre + 12 + blen (ie_key x) - base)) with (blen pre + 12 + blen (ie_key x)) by lia.
Qed.

Lemma leaf_entries_written xs : Forall index_entry_ok xs -> forall pre post base,
  blen (pre ++ encode_leaf_entries xs ++ post) <= u64_max -> 0 <= base <= blen pre ->
  leaf_entries_loop (leaf_ends (blen pre - base) xs) (pre ++ encode_leaf_entries xs ++ post) base (blen pre) =
  Ok (map parsed_entry xs).
Proof.
  induction 1 as [|x xs Hx _ IH]; intros pre post base Hu Hb; [done|].
  change (encode_leaf_entries (x :: xs)) with (encode_leaf_entry x ++ encode_leaf_entries xs) in *.
  rewrite <- app_assoc in *. cbn [leaf_ends].
  assert (E : blen pre - base + blen (encode_leaf_entry x) = blen (pre ++ encode_leaf_entry x) - base)
    by (rewrite blen_app; lia). rewrite E.
  rewrite (leaf_entry_here _ _ base pre x (encode_leaf_entries xs ++ post)) by done.
  pose proof (blen_nonneg (encode_leaf_entry x)).
  rewrite app_assoc in *. rewrite IH; [done|done|]. rewrite blen_app. lia.
Qed.

Lemma leaf_ends_bounded xs : forall from, 0 <= from -> from + blen (encode_leaf_entries xs) < 2 ^ 31 ->
  Forall (fun o => 0 <= o < 2 ^ 31) (leaf_ends from xs).
Proof.
  induction xs as [|x xs IH]; intros from Hf Hl; cbn [leaf_ends]; [constructor|].
  change (encode_leaf_entries (x :: xs)) with (encode_leaf_entry x ++ encode_leaf_entries xs) in Hl.
  rewrite blen_app in Hl. pose proof (blen_nonneg (encode_leaf_entry x)). pose proof (blen_nonneg (encode_leaf_entries xs)).
  constructor; [lia|]. apply IH; lia.
Qed.

Lemma length_leaf_ends xs : forall from, length (leaf_ends from xs) = length xs.
Proof. induction xs as [|x xs IH]; intros from; cbn; [done|]. by rewrite IH. Qed.

Lemma blen_encode_offsets offs : blen (encode_offsets offs) = 4 * Z.of_nat (length offs).
Proof.
  induction offs as [|o offs IH]; [done|]. change (encode_offsets (o :: offs)) with (to_be_bytes 4 o ++ encode_offsets offs).
  rewrite blen_app, blen_to_be_bytes, IH. cbn [length]. lia.
Qed.

Lemma parse_leaf_written xs post : Forall index_entry_ok xs -> blen (encode_leaf xs) < 2 ^ 31 ->
  blen (encode_leaf xs ++ post) <= u64_max ->
  parse_leaf_index_entries (encode_leaf xs ++ post) = Ok (map parsed_entry xs).
Proof.
  intros Hx Hl Hu. unfold encode_leaf in *. set (n := length xs) in *.
  rewrite !blen_app, blen_to_be_bytes, blen_encode_offsets in Hl. cbn [length] in Hl. rewrite length_leaf_ends in Hl.
  fold n in Hl. pose proof (blen_nonneg (encode_leaf_entries xs)).
  assert (Hends : Forall (fun o => 0 <= o < 2 ^ 31) (0 :: leaf_ends 0 xs)).
  { constructor; [lia|]. apply leaf_ends_bounded; lia. }
  unfold parse_leaf_index_entries. rewrite <- !app_assoc in *.
  pose proof (i32_here [] (Z.of_nat n) (encode_offsets (0 :: leaf_ends 0 xs) ++ encode_leaf_entries xs ++ post) 0) as Hi.
  cbn [app] in Hi. rewrite Hi by (try done; lia). cbn [res_bind].
  rewrite usize_add_ok by (unfold u64_max; lia). cbn [res_bind]. unfold with_capacity, isize_max.
  destruct (Z.leb_spec ((Z.of_nat n + 1) * 8) 9223372036854775807); [|lia]. cbn [res_bind].
  replace (Z.to_nat (Z.of_nat n + 1)) with (length (0 :: leaf_ends 0 xs)) by (cbn [length]; rewrite length_leaf_ends; lia).
  assert (H4 : 4 = blen (to_be_bytes 4 (Z.of_nat n))) by by rewrite blen_to_be_bytes.
  rewrite H4 at 1. rewrite relative_offsets_written by done. cbn [res_bind fst snd tail].
  set (hd := to_be_bytes 4 (Z.of_nat n) ++ encode_offsets (0 :: leaf_ends 0 xs)) in *. rewrite app_assoc in *. fold hd in Hu |- *.
  pose proof (leaf_entries_written xs Hx hd post (blen hd) Hu) as Hw. rewrite Z.sub_diag in Hw. apply Hw.
  pose proof (blen_nonneg hd). lia.
Qed.

(** * Entries name ranges *)
Definition entry_nonneg (e : BlockIndexEntry) : Prop := 0 <= entry_offset e /\ 0 <= entry_size e.

Lemma root_entries_nonneg n data content_only : forall offset es,
  root_entries_loop n data offset content_only = Ok es -> Forall entry_nonneg es.
Proof.
  induction n as [|n IH]; intros offset es; cbn [root_entries_loop]; [intros [= <-]; constructor|].
  destruct (index_range data offset (offset + 8)) as [o| |]; cbn [res_bind]; [|done..].
  destruct (index_range data (offset + 8) (offset + 8 + 4)) as [s| |]; cbn [res_bind]; [|done..].
  destruct (var_long_size_on_disk data (offset + 8 + 4)) as [w| |]; cbn [res_bind]; [|done..].
  destruct (read_var_long data (offset + 8 + 4)) as [[kl ?]| |]; cbn [res_bind fst]; [|done..].
  destruct (usize_add (offset + 8 + 4) w) as [p| |]; cbn [res_bind]; [|done..].
  destruct (usize_add p kl) as [q| |]; cbn [res_bind]; [|done..].
  destruct (index_range data p q) as [k| |]; cbn [res_bind]; [|done..].
  destruct (root_entries_loop n data q content_only) as [rest| |] eqn:Hrest; cbn [res_bind]; [|done..].
  intros E. injection E as <-. constructor; [|by apply IH in Hrest].
  split; apply from_be_bytes_nonneg.
Qed.

Lemma leaf_entries_nonneg data base ends : forall offset es,
  leaf_entries_loop ends data base offset = Ok es -> Forall entry_nonneg es.
Proof.
  induction ends as [|x ends IH]; intros offset es; cbn [leaf_entries_loop]; [intros [= <-]; constructor|].
  destruct (index_range data offset (offset + 8)) as [o| |]; cbn [res_bind]; [|done..].
  destruct (index_range data (offset + 8) (offset + 12)) as [s| |]; cbn [res_bind]; [|done..].
  destruct (usize_add base x) as [p| |]; cbn [res_bind]; [|done..].
  destruct (usize_sub p (offset + 12)) as [q| |]; cbn [res_bind]; [|done..].
  destruct (index_range data (offset + 12) (offset + 12 + q)) as [k| |]; cbn [res_bind]; [|done..].
  destruct (leaf_entries_loop ends data base p) as [rest| |] eqn:Hrest; cbn [res_bind]; [|done..].
  intros E. injection E as <-. constructor; [|by apply IH in Hrest].
  split; apply from_be_bytes_nonneg.
Qed.

Lemma parse_leaf_nonneg data es : parse_leaf_index_entries data = Ok es -> Forall entry_nonneg es.
Proof.
  unfold parse_leaf_index_entries. destruct (i32_at_as_usize data 0) as [n| |]; cbn [res_bind]; [|done..].
  destruct (usize_add n 1) as [c| |]; cbn [res_bind]; [|done..].
  destruct (with_capacity c 8); cbn [res_bind]; [|done..].
  destruct (relative_offsets_loop (Z.to_nat c) data 4) as [[offs p]| |]; cbn [res_bind fst snd]; [|done..].
  apply leaf_entries_nonneg.
Qed.

Lemma index_insert_elem k e m m' x : index_insert k e m = Ok m' -> x ∈ data_block_entries m' ->
  x = e \/ x ∈ data_block_entries m.
Proof.
  revert m'. induction m as [|[k' e'] m IH]; intros m'; cbn [index_insert].
  - intros [= <-] H%list_elem_of_singleton. by left.
  - destruct (key_cmp k k') as [c| |]; cbn [res_bind]; [|done..]. destruct c.
    + intros [= <-]. cbn. rewrite !elem_of_cons. naive_solver.
    + intros [= <-]. cbn. rewrite !elem_of_cons. naive_solver.
    + destruct (index_insert k e m) as [m1| |]; cbn [res_bind]; [|done..]. intros [= <-]. cbn.
      rewrite !elem_of_cons. specialize (IH m1 eq_refl). naive_solver.
Qed.

Lemma with_next_keys_nonneg es : Forall entry_nonneg es -> Forall entry_nonneg (with_next_keys es).
Proof. induction 1; cbn; by constructor. Qed.

Lemma index_from_nonneg es m : Forall entry_nonneg es -> index_from_leaf_entries es = Ok m ->
  Forall entry_nonneg (data_block_entries m).
Proof.
  intros Hes%with_next_keys_nonneg. unfold index_from_leaf_entries.
  assert (H0 : Forall entry_nonneg (data_block_entries [])) by constructor. revert H0. generalize ([] : DataIndex) as m0.
  induction Hes as [|e l He _ IH]; intros m0 H0; cbn [res_fold]; [intros E; by injection E as <-|].
  destruct (index_insert (first_key e) e m0) as [m1| |] eqn:Hi; cbn [res_bind]; [|done..]. apply IH.
  apply list.Forall_forall. intros x Hx. apply (index_insert_elem _ _ _ _ _ Hi) in Hx as [->|Hx]; [done|].
  rewrite list.Forall_forall in H0. by apply H0.
Qed.

(** Entries in the order of their keys make the map of themselves. *)
Lemma index_insert_last k e m : readable k -> index_ok m -> Forall (fun x => bytes_lt (sep x) (content_of k)) m ->
  index_insert k e m = Ok (m ++ [(k, e)]).
Proof.
  intros Hk Hm Hlt. induction Hlt as [|[k' e'] m Hlt _ IH]; [done|]. cbn [index_insert].
  apply index_ok_cons in Hm as (Hk' & Hm & _). cbn [fst] in Hk'. rewrite key_cmp_readable by done. cbn [res_bind].
  unfold sep in Hlt. cbn [fst] in Hlt. pose proof (bytes_cmp_cases (content_of k) (content_of k')) as Hc.
  destruct (bytes_cmp (content_of k) (content_of k')).
  - rewrite Hc in Hlt. by destruct (bytes_lt_irrefl _ Hlt).
  - destruct (bytes_lt_irrefl (content_of k)). by apply (bytes_lt_trans _ (content_of k')).
  - rewrite IH by done. done.
Qed.

Definition keyed (es : list BlockIndexEntry) : DataIndex := map (fun e => (first_key e, e)) es.

Lemma index_from_sorted es : index_ok (keyed es) -> index_from_leaf_entries es = Ok (keyed (with_next_keys es)).
Proof.
  intros Hok. unfold index_from_leaf_entries.
  assert (Hn : index_ok (keyed (with_next_keys es))).
  { destruct Hok as [Hr Hs]. split.
    - clear Hs. induction es as [|e es IH]; [constructor|]. apply Forall_cons_1 in Hr as [Hr Hrs].
      constructor; [done|by apply IH].
    - clear Hr. induction es as [|e es IH]; [constructor|]. apply StronglySorted_inv in Hs as [Hs He].
      constructor; [by apply IH|]. clear IH Hs. induction es as [|e' es IH]; [constructor|].
      apply Forall_cons_1 in He as [He Hes]. constructor; [done|by apply IH]. }
  clear Hok. assert (H : forall done rest, with_next_keys es = done ++ rest ->
    res_fold (fun m e => index_insert (first_key e) e m) rest (keyed done) = Ok (keyed (with_next_keys es))).
  { intros l rest. revert l. induction rest as [|e rest IH]; intros l E; cbn [res_fold].
    - by rewrite E, app_nil_r.
    - assert (Hl : index_ok (keyed l ++ (first_key e, e) :: keyed rest)).
      { rewrite E in Hn. unfold keyed in *. by rewrite map_app in Hn. }
      pose proof Hl as (H1 & H2 & H3)%index_ok_app. apply index_ok_cons in H2 as (He & _ & _).
      rewrite index_insert_last; [|done|done|].
      + cbn [res_bind]. specialize (IH (l ++ [e])). unfold keyed in *. rewrite map_app in IH. apply IH.
        by rewrite <- app_assoc.
      + apply list.Forall_forall. intros x Hx. apply (H3 x (first_key e, e)); [done|by left]. }
  by apply (H [] (with_next_keys es)).
Qed.

(** The index of a file as written -- a root block, or a leaf block of a
    multi-level index -- is read back as the map of its entries, each under its
    first key and with the first key of the entry after it, when the keys
    increase; whatever follows the entries in the block. *)
Theorem index_roundtrip xs post :
  Forall index_entry_ok xs -> index_ok (keyed (map parsed_entry xs)) ->
  blen (encode_root xs ++ post) <= u64_max ->
  blen (encode_leaf xs) < 2 ^ 31 -> blen (encode_leaf xs ++ post) <= u64_max ->
  (let? es := parse_root_index_entries (encode_root xs ++ post) (Z.of_nat (length xs)) false in
   index_from_leaf_entries es) = Ok (keyed (with_next_keys (map parsed_entry xs))) /\
  (let? es := parse_leaf_index_entries (encode_leaf xs ++ post) in
   index_from_leaf_entries es) = Ok (keyed (with_next_keys (map parsed_entry xs))).
Proof.
  intros Hx Hok Hr Hl Hu. split.
  - unfold parse_root_index_entries. rewrite Nat2Z.id. pose proof (root_entries_written xs Hx [] post false Hr) as Hp.
    cbn [app] in Hp. change (blen []) with 0 in Hp. rewrite Hp. by apply index_from_sorted.
  - rewrite parse_leaf_written by done. by apply index_from_sorted.
Qed.

(** The blocks chosen for a key predicate suffice.  On a file whose separators
    and offsets increase and whose blocks' keys lie between their separators,
    choosing never fails, and gives blocks of the file in file order, every block
    with a key the predicate admits among them.  For prefixes this needs that no
    prefix is itself a key whose copies straddle two blocks. *)
Theorem blocks_for_predicate_sound m keys p :
  index_wf m keys -> predicate_covered m keys p ->
  exists sel, blocks_for_predicate m p = Ok sel /\ sel `sublist_of` data_block_entries m /\
    forall e k, e ∈ data_block_entries m -> k ∈ keys e -> admits p k = true -> e ∈ sel.
Proof.
  intros W Hc. destruct (blocks_for_predicate_ok m keys W p Hc) as (sel & Hb & Hsub & Hsel).
  exists sel. split; [done|]. split; [done|]. intros e k He Hk Ha. apply Hsel; [done|]. by exists k.
Qed.

(** * Samples *)
Module SampleHFileIndex.
Definition hkey (s : string) : bytes := to_be_bytes 2 (Z.of_nat (String.length s)) ++ ascii_bytes s.

Definition xs : list IndexEntry :=
  [mkIndexEntry 0 100 (hkey "aa"); mkIndexEntry 100 120 (hkey "bb"); mkIndexEntry 220 90 (hkey "c")].

Definition map3 : DataIndex := keyed (with_next_keys (map parsed_entry xs)).

Lemma keyed_ok : index_ok (keyed (map parsed_entry xs)).
Proof. split; repeat constructor; vm_compute; reflexivity. Qed.

Lemma index_roundtrip_witness :
  (let? es := parse_root_index_entries (encode_root xs ++ ascii_bytes "zz") 3 false in
   index_from_leaf_entries es) = Ok map3 /\
  (let? es := parse_leaf_index_entries (encode_leaf xs ++ ascii_bytes "zz") in
   index_from_leaf_entries es) = Ok map3.
Proof.
  apply (index_roundtrip xs (ascii_bytes "zz")); [|exact keyed_ok|vm_compute; congruence|vm_compute; congruence|vm_compute; congruence].
  repeat constructor; vm_compute; congruence.
Defined.

(** The key "bb" ends the first block and begins the second. *)
Definition keys3 (e : BlockIndexEntry) : list bytes :=
  map ascii_bytes (if entry_offset e =? 0 then ["aa"; "ab"; "bb"]%string
                   else if entry_offset e =? 100 then ["bb"; "bcd"]%string else ["c"; "cc"]%string).

Lemma map3_wf : index_wf map3 keys3.
Proof.
  split.
  - split; repeat constructor; vm_compute; reflexivity.
  - repeat constructor; vm_compute; reflexivity.
  - intros l x r k E Hk.
    assert (Hall : Forall (fun p : nat => match drop p map3 with
      | x :: r => Forall (fun k => bytes_le (sep x) k /\ Forall (fun y => bytes_le k (sep y)) (take 1 r)) (keys3 x.2)
      | [] => True end) (seq 0 3)).
    { repeat constructor; vm_compute; congruence. }
    rewrite list.Forall_forall in Hall. specialize (Hall (length l)). rewrite E, drop_app_length in Hall.
    rewrite list.Forall_forall in Hall. apply Hall; [|done].
    apply elem_of_seq. assert (Hlen : length map3 = 3%nat) by reflexivity. rewrite E, length_app in Hlen. cbn in Hlen. lia.
Qed.

Lemma blocks_for_predicate_sound_witness :
  exists sel, blocks_for_predicate map3 (Keys [ascii_bytes "bb"; ascii_bytes "zz"]) = Ok sel /\
    sel `sublist_of` data_block_entries map3 /\
    forall e k, e ∈ data_block_entries map3 -> k ∈ keys3 e ->
      admits (Keys [ascii_bytes "bb"; ascii_bytes "zz"]) k = true -> e ∈ sel.
Proof. apply (blocks_for_predicate_sound map3 keys3); [exact map3_wf|exact I]. Defined.

(** An exact hit takes the block before too; the same string as a prefix does not,
    and the copy of the key that ends the first block is missed. *)
Example prefix_misses_a_straddling_key :
  (map entry_offset <$> match blocks_for_keys map3 [ascii_bytes "bb"] with Ok l => Some l | _ => None end) = Some [0; 100] /\
  (map entry_offset <$> match blocks_for_prefix map3 (ascii_bytes "bb") with Ok l => Some l | _ => None end) = Some [100] /\
  ascii_bytes "bb" ∈ keys3 (parsed_entry (mkIndexEntry 0 100 (hkey "aa"))).
Proof. split_and!; [vm_compute; reflexivity..|]. right. right. left. Qed.

(** Two blocks with one separator, as when the copies of a key fill a block, make
    one entry: the first of the blocks is lost, to scans too. *)
Example equal_separators_collapse :
  match index_from_leaf_entries (map parsed_entry
      [mkIndexEntry 0 100 (hkey "aa"); mkIndexEntry 100 120 (hkey "bb"); mkIndexEntry 220 90 (hkey "bb")]) with
  | Ok m => map entry_offset (data_block_entries m) = [0; 220]
  | _ => False
  end.
Proof. vm_compute. done. Qed.
End SampleHFileIndex.
