(* ===== verification/HFileReader.v ===== *)
(** Reading of HFiles: crates/core/src/hfile/trailer.rs, the sources, the metadata
    and the block reads of hfile/reader.rs, and the record reads of
    file_group/base_file/hfile.rs.

    The protobuf messages of the trailer and of the file info are decoded by a
    library ([HFileProtos]); the store gives objects, whole or in ranges.  The
    reader's cursor is in [HFileSeek]. *)
From Stdlib Require Import Ascii.
From stdpp Require Import base gmap sets list strings sorting numbers.
From S2P Require Import Prelude RustStr Config BTree StorageReader RecordBatches LogFormat Utf8 LogReader Scanner LogFetch HFileKey HFileBlock HFileIndex.
Local Open Scope res_scope.
Local Open Scope Z_scope.

(** * The trailer *)
Record TrailerProto := mkTrailerProto {
  tp_file_info_offset : option Z;
  tp_load_on_open_data_offset : option Z;
  tp_uncompressed_data_index_size : option Z;
  tp_total_uncompressed_bytes : option Z;
  tp_data_index_count : option Z;
  tp_meta_index_count : option Z;
  tp_entry_count : option Z;
  tp_num_data_index_levels : option Z;
  tp_first_data_block_offset : option Z;
  tp_last_data_block_offset : option Z;
  tp_comparator_class_name : option string;
  tp_compression_codec : option Z
}.

(** [TrailerProto::decode] and [InfoProto::decode]; the file info is its pairs. *)
Class HFileProtos := {
  decode_trailer : bytes -> option TrailerProto;
  decode_info : bytes -> option (list (bytes * bytes))
}.

Definition TRAILER_SIZE : Z := 4096.

Record HFileTrailer := mkTrailer {
  major_version : Z;
  minor_version : Z;
  file_info_offset : Z;
  load_on_open_data_offset : Z;
  uncompressed_data_index_size : Z;
  total_uncompressed_bytes : Z;
  data_index_count : Z;
  meta_index_count : Z;
  entry_count : Z;
  num_data_index_levels : Z;
  first_data_block_offset : Z;
  last_data_block_offset : Z;
  comparator_class_name : string;
  compression_codec : CompressionCodec
}.

(** [read_varint], on the bytes left: a shift by 64 or more panics. *)
Fixpoint varint_loop (b : bytes) (result shift pos : Z) : res (Z * Z) :=
  match b with
  | [] => Ok (result, pos)
  | c :: b =>
      let v := byte_value c in
      let pos := pos + 1 in
      if 64 <=? shift then Panic
      else
        let result := Z.lor result (Z.shiftl (Z.land v 127) shift mod 2 ^ 64) in
        if Z.land v 128 =? 0 then Ok (result, pos)
        else varint_loop b result (shift + 7) pos
  end.

Definition read_varint (b : bytes) : res (Z * Z) := varint_loop b 0 0 0.

(** The bytes of a message with its length before it. *)
Definition length_delimited (b : bytes) : res bytes :=
  let? length := read_varint b in
  let? end_ := usize_add length.2 length.1 in
  index_range b length.2 end_.

Section trailer.
Context {P : HFileProtos}.

Definition parse_length_delimited_proto (b : bytes) : res TrailerProto :=
  let? proto_bytes := length_delimited b in
  ok_or (decode_trailer proto_bytes) (EHFile ProtobufError).

Definition trailer_read (file_bytes : bytes) : res HFileTrailer :=
  let file_size := blen file_bytes in
  if file_size <? TRAILER_SIZE then Err (EHFile InvalidFormat)
  else
    let trailer_start := file_size - TRAILER_SIZE in
    let trailer_bytes := slice file_bytes trailer_start file_size in
    let? _ := check_magic Trailer trailer_bytes in
    let version_bytes := slice trailer_bytes (TRAILER_SIZE - 4) TRAILER_SIZE in
    let? minor_version := byte_at version_bytes 0 in
    let? v1 := byte_at version_bytes 1 in
    let? v2 := byte_at version_bytes 2 in
    let? v3 := byte_at version_bytes 3 in
    let major_version := Z.lor (Z.lor (Z.shiftl v1 16) (Z.shiftl v2 8)) v3 in
    if negb (major_version =? 3) then Err (EHFile UnsupportedVersion)
    else
      let proto_start := MAGIC_LENGTH in
      let proto_end := TRAILER_SIZE - 4 in
      let proto_bytes := slice trailer_bytes proto_start proto_end in
      let? proto := parse_length_delimited_proto proto_bytes in
      let? codec := opt_traverse codec_from_id (tp_compression_codec proto) in
      let codec := default NoCompression codec in
      Ok (mkTrailer major_version minor_version
            (default 0 (tp_file_info_offset proto))
            (default 0 (tp_load_on_open_data_offset proto))
            (default 0 (tp_uncompressed_data_index_size proto))
            (default 0 (tp_total_uncompressed_bytes proto))
            (default 0 (tp_data_index_count proto))
            (default 0 (tp_meta_index_count proto))
            (default 0 (tp_entry_count proto))
            (default 1 (tp_num_data_index_levels proto))
            (default 0 (tp_first_data_block_offset proto))
            (default 0 (tp_last_data_block_offset proto))
            (default ""%string (tp_comparator_class_name proto))
            codec).
End trailer.

(** * Sources *)
Inductive Source :=
  | Whole (file : bytes)
  | Ranged (fetcher : string) (tail : bytes) (tail_start file_len window_budget : Z).

(** [b.get(from..)] *)
Definition get_from (b : bytes) (from : Z) : option bytes :=
  if from <=? blen b then Some (slice b from (blen b)) else None.

(** [b.get(from..to)] *)
Definition get_slice (b : bytes) (from to : Z) : option bytes :=
  if (from <=? to) && (to <=? blen b) then Some (slice b from to) else None.

Definition metadata_at (s : Source) (offset : Z) : res bytes :=
  match s with
  | Whole file => ok_or (get_from file offset) (EHFile InvalidFormat)
  | Ranged _ tail tail_start _ _ =>
      let? relative := ok_or (checked_sub offset tail_start) (EHFile InvalidFormat) in
      ok_or (get_from tail relative) (EHFile InvalidFormat)
  end.

Definition resident_range (s : Source) (offset size : Z) : res bytes :=
  match s with
  | Whole file =>
      let? end_ := usize_add offset size in
      ok_or (get_slice file offset end_) (EHFile InvalidFormat)
  | Ranged _ _ _ _ _ => Err (EHFile InvalidFormat)
  end.

(** * The reader, less its cursor *)
Record HFileReader := mkHFileReader {
  source : Source;
  trailer : HFileTrailer;
  data_block_index : DataIndex;
  meta_block_index : list (string * BlockIndexEntry);
  file_info : list (string * bytes);
  last_key : option Key
}.

Definition codec (r : HFileReader) : CompressionCodec := compression_codec (trailer r).

Definition FILE_INFO_LAST_KEY : string := "hfile.LASTKEY".
Definition FILE_INFO_KEY_VALUE_VERSION : string := "KEY_VALUE_VERSION".
Definition FILE_INFO_MAX_MVCC_TS : string := "MAX_MEMSTORE_TS_KEY".
Definition KEY_VALUE_VERSION_WITH_MVCC_TS : Z := 1.
Definition FILE_INFO_SCHEMA : string := "schema".
Definition FILE_INFO_MIN_RECORD_KEY : string := "minRecordKey".
Definition FILE_INFO_MAX_RECORD_KEY : string := "maxRecordKey".
Definition PBUF_MAGIC : bytes := ascii_bytes "PBUF".

Definition with_source (s : Source) (t : HFileTrailer) : HFileReader := mkHFileReader s t [] [] [] None.

Definition set_data_index (r : HFileReader) (i : DataIndex) : HFileReader :=
  mkHFileReader (source r) (trailer r) i (meta_block_index r) (file_info r) (last_key r).

Definition num_entries (r : HFileReader) : Z := entry_count (trailer r).

Definition get_file_info (r : HFileReader) (key : string) : option bytes := bt_get key (file_info r).

Definition window_budget (r : HFileReader) : option Z :=
  match source r with Ranged _ _ _ _ b => Some b | Whole _ => None end.

Definition reader_file_len (r : HFileReader) : Z :=
  match source r with Ranged _ _ _ n _ => n | Whole b => blen b end.

Definition check_mvcc_support (r : HFileReader) : res unit :=
  match get_file_info r FILE_INFO_KEY_VALUE_VERSION with
  | Some version_bytes =>
      if 4 <=? blen version_bytes then
        let version := signed_of 32 (from_be_bytes (slice version_bytes 0 4)) in
        if version =? KEY_VALUE_VERSION_WITH_MVCC_TS then
          match get_file_info r FILE_INFO_MAX_MVCC_TS with
          | Some ts_bytes =>
              if 8 <=? blen ts_bytes then
                let max_ts := signed_of 64 (from_be_bytes (slice ts_bytes 0 8)) in
                if 0 <? max_ts then Err (EHFile UnsupportedMvccTimestamp) else Ok tt
              else Ok tt
          | None => Ok tt
          end
        else Ok tt
      else Ok tt
  | None => Ok tt
  end.

Definition expect_type (b : HFileBlock) (t : HFileBlockType) : res unit :=
  if decide (hfile_block_type b = t) then Ok tt else Err (EHFile UnexpectedBlockType).

Definition read_min_max_record_keys (r : HFileReader) : option (string * string) :=
  match get_file_info r FILE_INFO_MIN_RECORD_KEY, get_file_info r FILE_INFO_MAX_RECORD_KEY with
  | Some min_key, Some max_key =>
      match from_utf8 min_key, from_utf8 max_key with
      | Ok min_str, Ok max_str => Some (min_str, max_str)
      | _, _ => None
      end
  | _, _ => None
  end.

Definition avro_schema_json (r : HFileReader) : res (option string) :=
  match get_file_info r FILE_INFO_SCHEMA with
  | None => Ok None
  | Some b => let? s := map_err (EHFile InvalidFormat) (from_utf8 b) in Ok (Some s)
  end.

Section reader.
Context {G : Gunzip} {P : HFileProtos} {RS : RangeStore}.

Definition read_block_at (r : HFileReader) (offset size : Z) : res HFileBlock :=
  let? b := resident_range (source r) offset size in block_parse b (codec r).

(** The end of a block that starts at [start]. *)
Definition after_block (start : Z) (b : HFileBlock) : res Z :=
  let? size := on_disk_size_with_header (block_header b) in usize_add start size.

Definition read_root_index_block (r : HFileReader) (start : Z) : res (DataIndex * Z) :=
  let? b := metadata_at (source r) start in
  let? block := block_parse b (codec r) in
  let? _ := expect_type block RootIndex in
  let? entries := parse_root_index_entries (block_data block) (data_index_count (trailer r)) false in
  let? next_offset := after_block start block in
  let? index_map := index_from_leaf_entries entries in
  Ok (index_map, next_offset).

Definition insert_meta (m : list (string * BlockIndexEntry)) (e : BlockIndexEntry) : res (list (string * BlockIndexEntry)) :=
  let? c := key_content (first_key e) in
  Ok (bt_insert (from_utf8_lossy c) e m).

Definition read_meta_index_block (r : HFileReader) (start : Z) : res (list (string * BlockIndexEntry) * Z) :=
  let? b := metadata_at (source r) start in
  let? block := block_parse b (codec r) in
  let? _ := expect_type block RootIndex in
  let? entries := parse_root_index_entries (block_data block) (meta_index_count (trailer r)) true in
  let? next_offset := after_block start block in
  let? index_map := res_fold insert_meta entries [] in
  Ok (index_map, next_offset).

(** The file info block's pairs, inserted in order. *)
Definition read_file_info_block (r : HFileReader) (start : Z) : res (list (string * bytes)) :=
  let? b := metadata_at (source r) start in
  let? block := block_parse b (codec r) in
  let? _ := expect_type block FileInfo in
  let data := block_data block in
  if (blen data <? 4) || negb (bool_decide (slice data 0 4 = PBUF_MAGIC)) then Err (EHFile InvalidFormat)
  else
    let? proto_bytes := length_delimited (slice data 4 (blen data)) in
    let? info := ok_or (decode_info proto_bytes) (EHFile ProtobufError) in
    Ok (foldl (fun m kv => bt_insert (from_utf8_lossy kv.1) kv.2 m) (file_info r) info).

Definition read_meta_and_file_info (r : HFileReader) (offset : Z) : res HFileReader :=
  let? meta := read_meta_index_block r offset in
  let? info := read_file_info_block r meta.2 in
  let r := mkHFileReader (source r) (trailer r) (data_block_index r) meta.1 info
             (match bt_get FILE_INFO_LAST_KEY info with
              | Some last_key_bytes => Some (key_from_bytes last_key_bytes)
              | None => last_key r
              end) in
  let? _ := check_mvcc_support r in
  Ok r.

Definition read_root_index (r : HFileReader) : res (HFileReader * Z) :=
  let? index := read_root_index_block r (load_on_open_data_offset (trailer r)) in
  Ok (set_data_index r index.1, index.2).

(** The blocks of several entries: slices of a resident file, or one request. *)
Definition entry_range (e : BlockIndexEntry) : res (Z * Z) :=
  let? end_ := usize_add (entry_offset e) (entry_size e) in Ok (entry_offset e, end_).

Definition fetch_blocks (r : HFileReader) (entries : list BlockIndexEntry) : res (list HFileBlock) :=
  match source r with
  | Whole _ => res_mapM (fun e => read_block_at r (entry_offset e) (entry_size e)) entries
  | Ranged fetcher _ _ _ _ =>
      let? ranges := res_mapM entry_range entries in
      let? fetched := ok_or (object_get_ranges fetcher ranges) (EHFile InvalidFormat) in
      res_mapM (fun b => block_parse b (codec r)) fetched
  end.

(** One level of a multi-level index, from a resident file. *)
Definition load_level (r : HFileReader) (entries : list BlockIndexEntry) : res (list BlockIndexEntry) :=
  res_fold (fun next e =>
    let? block := read_block_at r (entry_offset e) (entry_size e) in
    let? es := parse_leaf_index_entries (block_data block) in
    Ok (next ++ es)) entries [].

Fixpoint load_levels (load : list BlockIndexEntry -> res (list BlockIndexEntry)) (levels_remaining : nat)
    (entries : list BlockIndexEntry) : res (list BlockIndexEntry) :=
  match levels_remaining with
  | O => Ok entries
  | S n => let? next := load entries in load_levels load n next
  end.

Definition load_multi_level_index (r : HFileReader) : res HFileReader :=
  let levels := Z.to_nat (num_data_index_levels (trailer r) - 1) in
  let? entries := load_levels (load_level r) levels (data_block_entries (data_block_index r)) in
  let? index := index_from_leaf_entries entries in
  Ok (set_data_index r index).

(** The same level fetched in windows of the budget. *)
Definition load_window (r : HFileReader) (next : list BlockIndexEntry) (window : list BlockIndexEntry)
    : res (list BlockIndexEntry) :=
  let? blocks := fetch_blocks r window in
  res_fold (fun next block =>
    let? es := parse_leaf_index_entries (block_data block) in Ok (next ++ es)) blocks next.

Definition load_level_batched (r : HFileReader) (budget : Z) (entries : list BlockIndexEntry)
    : res (list BlockIndexEntry) :=
  res_fold (load_window r) (plan_windows entries budget) [].

Definition load_multi_level_index_batched (r : HFileReader) : res HFileReader :=
  let levels := Z.to_nat (num_data_index_levels (trailer r) - 1) in
  match source r with
  | Whole _ => Err (EHFile InvalidFormat)
  | Ranged _ _ _ _ budget =>
      let? entries := load_levels (load_level_batched r budget) levels (data_block_entries (data_block_index r)) in
      let? index := index_from_leaf_entries entries in
      Ok (set_data_index r index)
  end.

Definition initialize_metadata (r : HFileReader) : res HFileReader :=
  let? root := read_root_index r in
  let? r := if 1 <? num_data_index_levels (trailer r) then load_multi_level_index root.1 else Ok root.1 in
  read_meta_and_file_info r root.2.

Definition initialize_metadata_ranged (r : HFileReader) : res HFileReader :=
  let? root := read_root_index r in
  let? r := if 1 <? num_data_index_levels (trailer r) then load_multi_level_index_batched root.1 else Ok root.1 in
  read_meta_and_file_info r root.2.

(** [HFileReader::new] *)
Definition reader_new (b : bytes) : res HFileReader :=
  let? trailer := trailer_read b in
  initialize_metadata (with_source (Whole b) trailer).

Definition get_meta_block (r : HFileReader) (name : string) : res (option bytes) :=
  match bt_get name (meta_block_index r) with
  | None => Ok None
  | Some e =>
      let? block := read_block_at r (entry_offset e) (entry_size e) in
      let? _ := expect_type block Meta in
      Ok (Some (block_data block))
  end.

(** * Records *)
Definition key_value_to_record (kv : KeyValue) : res HFileRecord :=
  let? key := key_content (kv_key kv) in
  let? value := kv_value kv in
  Ok (mkHFileRecord key value).

(** The records of a block that must be a data block. *)
Definition data_block_records (block : HFileBlock) : res (list HFileRecord) :=
  let? _ := expect_type block Data in
  let? kvs := data_block_iter (data_block_from block) in
  res_mapM key_value_to_record kvs.

Definition records_in_block (r : HFileReader) (e : BlockIndexEntry) : res (list HFileRecord) :=
  let? block := read_block_at r (entry_offset e) (entry_size e) in
  data_block_records block.

Definition read_records_batched (r : HFileReader) (entries : list BlockIndexEntry) : res (list HFileRecord) :=
  match entries with
  | [] => Ok []
  | _ =>
      let? blocks := fetch_blocks r entries in
      res_fold (fun records block =>
        let? more := data_block_records block in Ok (records ++ more)) blocks []
  end.

(** * Reads of a base file, up to the decoding of the records *)

(** The records of a window that satisfy the predicate. *)
Definition record_admitted (predicate : KeyPredicate) (record : HFileRecord) : bool :=
  match from_utf8 (hf_key record) with
  | Ok _ => matcher_admits (matcher predicate) (hf_key record)
  | _ => false
  end.

Definition window_records (r : HFileReader) (key_predicate : option KeyPredicate) (window : list BlockIndexEntry)
    : res (list HFileRecord) :=
  let? records := read_records_batched r window in
  Ok (match key_predicate with
      | Some predicate => List.filter (record_admitted predicate) records
      | None => records
      end).

Definition DEFAULT_WINDOW_BUDGET_FALLBACK : Z := 16 * 1024 * 1024.

(** The windows of the stream, each with its records; the stream ends at a failure. *)
Definition stream_records (r : HFileReader) (key_predicate : option KeyPredicate) : res (list (list HFileRecord)) :=
  let budget := default DEFAULT_WINDOW_BUDGET_FALLBACK (window_budget r) in
  let? entries :=
    match key_predicate with
    | Some predicate => blocks_for_predicate (data_block_index r) predicate
    | None => Ok (data_block_entries (data_block_index r))
    end in
  res_mapM (window_records r key_predicate) (plan_windows entries budget).
End reader.

(** * Opening *)

(** [ObjectStore::head], for an object's size. *)
Class HeadStore := object_head : string -> option Z.

Definition CONFIG_HFILE_WHOLE_READ_MAX_SIZE_MB : string := "hoodie.metadata.file.cache.max.size.mb".
Definition DEFAULT_HFILE_WHOLE_READ_MAX_SIZE_MB : Z := 50.
Definition HFILE_WHOLE_READ_WITH_KEYS_MAX_SIZE : Z := 512 * 1024.

Definition hfile_whole_read_max_size (configs : HudiConfigs) : res Z :=
  let? mb :=
    match configs !! CONFIG_HFILE_WHOLE_READ_MAX_SIZE_MB with
    | None => Ok DEFAULT_HFILE_WHOLE_READ_MAX_SIZE_MB
    | Some raw => ok_or (parse_u64 (trim raw)) EStorage
    end in
  Ok (Z.min (mb * (1024 * 1024)) u64_max).

Section open.
Context {G : Gunzip} {P : HFileProtos} {RS : RangeStore} {LS : LogStorage} {HS : HeadStore}.
Context (configs : HudiConfigs).

(** [HFileReader::open] *)
Definition open (path : string) : res HFileReader :=
  let? b := map_err (EHFile InvalidFormat) (log_object path) in
  reader_new b.

(** [LogBlockFetcher::read_content] *)
Definition read_content (path : string) (offset length : Z) : res bytes :=
  match @get_range (log_store path) offset length with
  | IoOk b => Ok b
  | _ => Err (EHFile InvalidFormat)
  end.

(** The stream reader is known by the length it was opened with. *)
Definition open_ranged_with (path : string) (file_len : Z) : res HFileReader :=
  if file_len <? TRAILER_SIZE then Err (EHFile InvalidFormat)
  else
    let? trailer_bytes := read_content path (file_len - TRAILER_SIZE) TRAILER_SIZE in
    let? trailer := trailer_read trailer_bytes in
    let tail_start := load_on_open_data_offset trailer in
    if file_len <? tail_start then Err (EHFile InvalidFormat)
    else
      let? tail := read_content path tail_start (file_len - tail_start) in
      let? budget := ok_or (stream_window_size configs) (EHFile InvalidFormat) in
      initialize_metadata_ranged (with_source (Ranged path tail tail_start file_len budget) trailer).

(** [get_streaming_storage_reader]: the size, if the object and the window size are there. *)
Definition streaming_file_len (path : string) : res Z :=
  let? file_len := ok_or (object_head path) (EHFile InvalidFormat) in
  let? _ := ok_or (stream_window_size configs) (EHFile InvalidFormat) in
  Ok file_len.

Definition open_ranged (path : string) : res HFileReader :=
  let? file_len := streaming_file_len path in open_ranged_with path file_len.

Definition open_sized (path : string) (whole_read_max_size : Z) (known_file_size : option Z) : res HFileReader :=
  match known_file_size with
  | Some size => if size <=? whole_read_max_size then open path else open_ranged path
  | None =>
      if whole_read_max_size =? 0 then open_ranged path
      else
        let? file_len := streaming_file_len path in
        if file_len <=? whole_read_max_size then open path else open_ranged_with path file_len
  end.

(** [HFileBaseFileReader::open] *)
Definition open_base_file (path : string) (key_predicate : option KeyPredicate) (known_file_size : option Z)
    : res HFileReader :=
  let? whole_below := map_err EStorage (hfile_whole_read_max_size configs) in
  let whole_below :=
    match key_predicate with
    | Some _ => Z.min whole_below HFILE_WHOLE_READ_WITH_KEYS_MAX_SIZE
    | None => whole_below
    end in
  map_err EStorage (open_sized path whole_below known_file_size).
End open.

(** * A file in ranges reads as the file whole *)
Lemma trailer_read_tail {P : HFileProtos} b : TRAILER_SIZE <= blen b ->
  trailer_read (slice b (blen b - TRAILER_SIZE) (blen b)) = trailer_read b.
Proof.
  intros Hb. unfold trailer_read. unfold TRAILER_SIZE in *. rewrite blen_slice by lia.
  destruct (Z.ltb_spec (blen b - (blen b - 4096)) 4096); [lia|]. destruct (Z.ltb_spec (blen b) 4096); [lia|].
  rewrite slice_slice by lia.
  replace (blen b - 4096 + (blen b - (blen b - 4096) - 4096)) with (blen b - 4096) by lia.
  by replace (blen b - 4096 + (blen b - (blen b - 4096))) with (blen b) by lia.
Qed.

Lemma get_from_tail b from offset : 0 <= from <= offset -> from <= blen b ->
  get_from (slice b from (blen b)) (offset - from) = get_from b offset.
Proof.
  intros Ho Hf. unfold get_from. rewrite blen_slice by lia.
  destruct (Z.leb_spec (offset - from) (blen b - from)), (Z.leb_spec offset (blen b)); try lia; [|done].
  rewrite slice_slice by lia. do 2 f_equal; lia.
Qed.

Section agree.
Context {G : Gunzip} {P : HFileProtos} {RS : RangeStore} {LS : LogStorage} {HS : HeadStore}.
Context (path : string) (object : bytes) (tail_start budget : Z).
Hypothesis served : path_served path object.
Hypothesis tail_inside : 0 <= tail_start <= blen object.

Definition ranged_source : Source :=
  Ranged path (slice object tail_start (blen object)) tail_start (blen object) budget.

(** One reader, on the whole file and on its ranges. *)
Definition in_ranges (r : HFileReader) : HFileReader :=
  mkHFileReader ranged_source (trailer r) (data_block_index r) (meta_block_index r) (file_info r) (last_key r).

Lemma metadata_at_agrees offset : tail_start <= offset ->
  metadata_at ranged_source offset = metadata_at (Whole object) offset.
Proof.
  intros Ho. unfold metadata_at, ranged_source, checked_sub.
  destruct (Z.leb_spec tail_start offset) as [_|]; [|lia]. cbn [ok_or res_bind]. rewrite get_from_tail by lia. done.
Qed.

Lemma read_block_at_inside r offset size b : source r = Whole object -> 0 <= offset -> 0 <= size ->
  read_block_at r offset size = Ok b ->
  offset + size <= blen object /\ block_parse (slice object offset (offset + size)) (codec r) = Ok b.
Proof.
  intros Hs Ho Hz. unfold read_block_at, resident_range. rewrite Hs. unfold usize_add.
  destruct (Z.leb_spec (offset + size) u64_max); cbn [res_bind]; [|done].
  unfold get_slice. destruct (Z.leb_spec offset (offset + size)); cbn [andb ok_or res_bind]; [|done].
  destruct (Z.leb_spec (offset + size) (blen object)); cbn [ok_or res_bind]; [intros E; split; [done|exact E]|done].
Qed.

Lemma fetch_blocks_agree r es blocks : source r = Whole object -> Forall entry_nonneg es ->
  res_mapM (fun e => read_block_at r (entry_offset e) (entry_size e)) es = Ok blocks ->
  fetch_blocks (in_ranges r) es = Ok blocks.
Proof.
  intros Hs Hn Hb. apply res_mapM_Ok in Hb. unfold fetch_blocks. cbn [source in_ranges ranged_source].
  assert (Hr : res_mapM entry_range es = Ok ((fun e => (entry_offset e, entry_offset e + entry_size e)) <$> es)).
  { apply res_mapM_Ok. apply Forall2_fmap_r. induction Hb as [|e b es blocks He _ IH]; [constructor|].
    apply Forall_cons_1 in Hn as [[Ho Hz] Hn]. constructor; [|by apply IH].
    apply (read_block_at_inside r _ _ b Hs Ho Hz) in He as [Hi _]. pose proof (ps_size _ _ served).
    unfold entry_range. rewrite usize_add_ok by lia. done. }
  rewrite Hr. cbn [res_bind]. rewrite (ps_many _ _ served); cbn [ok_or res_bind].
  - apply res_mapM_Ok. rewrite <- list_fmap_compose. apply Forall2_fmap_l.
    clear Hr. induction Hb as [|e b es blocks He _ IH]; [constructor|].
    apply Forall_cons_1 in Hn as [[Ho Hz] Hn]. constructor; [|by apply IH].
    by apply (read_block_at_inside r _ _ b Hs Ho Hz) in He as [_ Hp].
  - apply Forall_fmap. clear Hr. induction Hb as [|e b es blocks He _ IH]; [constructor|].
    apply Forall_cons_1 in Hn as [[Ho Hz] Hn]. constructor; [|by apply IH]. cbn.
    apply (read_block_at_inside r _ _ b Hs Ho Hz) in He as [Hi _]. lia.
Qed.

Lemma after_block_grows start b n : after_block start b = Ok n -> 0 <= on_disk_size_without_header (block_header b) -> start <= n.
Proof.
  unfold after_block, on_disk_size_with_header, usize_add, BLOCK_HEADER_SIZE.
  repeat (case_match; cbn [res_bind]; [|done]). intros [= <-]. lia.
Qed.

Lemma block_parse_nonneg b c blk : block_parse b c = Ok blk -> 0 <= on_disk_size_without_header (block_header blk).
Proof.
  unfold block_parse. destruct (header_parse b) as [h| |] eqn:Hh; cbn [res_bind]; [|done..].
  assert (H0 : 0 <= on_disk_size_without_header h).
  { unfold header_parse in Hh. case_match; [done|]. destruct (from_magic b); cbn [res_bind] in Hh; [|done..].
    destruct (i32_at_as_usize b 8) as [n| |] eqn:Hn; cbn [res_bind] in Hh; [|done..]. apply i32_at_nonneg in Hn.
    destruct (i32_at_as_usize b 12); cbn [res_bind] in Hh; [|done..]. destruct (index_range b 16 24); cbn [res_bind] in Hh; [|done..].
    destruct (byte_at b 24); cbn [res_bind] in Hh; [|done..]. destruct (i32_at_as_usize b 25); cbn [res_bind] in Hh; [|done..].
    destruct (i32_at_as_usize b 29); cbn [res_bind] in Hh; [|done..]. by injection Hh as <-. }
  destruct (usize_add _ _); cbn [res_bind]; [|done..]. destruct (checksum_bytes_count h); cbn [res_bind]; [|done..].
  destruct (usize_sub _ _); cbn [res_bind]; [|done..]. match goal with |- (let? _ := ?x in _) = _ -> _ => destruct x end;
    cbn [res_bind]; [|done..]. intros E. by injection E as <-.
Qed.

Lemma root_block_agrees r start : source r = Whole object -> tail_start <= start ->
  read_root_index_block (in_ranges r) start = read_root_index_block r start.
Proof.
  intros Hs Ho. unfold read_root_index_block. cbn [source in_ranges trailer]. rewrite metadata_at_agrees, Hs by done. done.
Qed.

Lemma root_block_next r start i n : read_root_index_block r start = Ok (i, n) ->
  start <= n /\ Forall entry_nonneg (data_block_entries i).
Proof.
  unfold read_root_index_block. destruct (metadata_at _ _); cbn [res_bind]; [|done..].
  destruct (block_parse _ _) as [blk| |] eqn:Hb; cbn [res_bind]; [|done..].
  destruct (expect_type _ _); cbn [res_bind]; [|done..].
  destruct (parse_root_index_entries _ _ _) as [es| |] eqn:Hes; cbn [res_bind]; [|done..].
  destruct (after_block start blk) as [m| |] eqn:Ha; cbn [res_bind]; [|done..].
  destruct (index_from_leaf_entries es) as [i'| |] eqn:Hi; cbn [res_bind]; [|done..]. intros [= <- <-]. split.
  - apply (after_block_grows _ _ _ Ha). by apply block_parse_nonneg in Hb.
  - apply (index_from_nonneg es); [|done]. by apply root_entries_nonneg in Hes.
Qed.

Lemma meta_block_agrees r start : source r = Whole object -> tail_start <= start ->
  read_meta_index_block (in_ranges r) start = read_meta_index_block r start.
Proof.
  intros Hs Ho. unfold read_meta_index_block. cbn [source in_ranges trailer]. rewrite metadata_at_agrees, Hs by done. done.
Qed.

Lemma meta_block_next r start i n : read_meta_index_block r start = Ok (i, n) -> start <= n.
Proof.
  unfold read_meta_index_block. destruct (metadata_at _ _); cbn [res_bind]; [|done..].
  destruct (block_parse _ _) as [blk| |] eqn:Hb; cbn [res_bind]; [|done..].
  destruct (expect_type _ _); cbn [res_bind]; [|done..].
  destruct (parse_root_index_entries _ _ _) as [es| |] eqn:Hes; cbn [res_bind]; [|done..].
  destruct (after_block start blk) as [m| |] eqn:Ha; cbn [res_bind]; [|done..].
  destruct (res_fold insert_meta es []); cbn [res_bind]; [|done..]. intros [= _ <-].
  apply (after_block_grows _ _ _ Ha). by apply block_parse_nonneg in Hb.
Qed.

Lemma meta_and_info_agree r start r' : source r = Whole object -> tail_start <= start ->
  read_meta_and_file_info r start = Ok r' ->
  read_meta_and_file_info (in_ranges r) start = Ok (in_ranges r') /\ source r' = Whole object.
Proof.
  intros Hs Ho. unfold read_meta_and_file_info. rewrite meta_block_agrees by done.
  destruct (read_meta_index_block r start) as [[i n]| |] eqn:Hm; cbn [res_bind fst snd]; [|done..].
  apply meta_block_next in Hm.
  assert (Hi : read_file_info_block (in_ranges r) n = read_file_info_block r n).
  { unfold read_file_info_block. cbn [source in_ranges trailer]. rewrite metadata_at_agrees, Hs by lia. done. }
  rewrite Hi. destruct (read_file_info_block r n) as [info| |]; cbn [res_bind]; [|done..].
  unfold check_mvcc_support, get_file_info. cbn [file_info in_ranges source trailer data_block_index last_key].
  match goal with |- (let? _ := ?x in _) = _ -> _ => destruct x end; cbn [res_bind]; [|done..].
  intros E. by injection E as <-.
Qed.

(** A level loaded entry by entry, taken apart. *)
Lemma load_level_inv r es : forall acc next,
  res_fold (fun next e =>
    let? block := read_block_at r (entry_offset e) (entry_size e) in
    let? es := parse_leaf_index_entries (block_data block) in
    Ok (next ++ es)) es acc = Ok next ->
  exists blocks ess, res_mapM (fun e => read_block_at r (entry_offset e) (entry_size e)) es = Ok blocks /\
    Forall2 (fun b es => parse_leaf_index_entries (block_data b) = Ok es) blocks ess /\ next = acc ++ concat ess.
Proof.
  induction es as [|e es IH]; intros acc next; cbn [res_fold res_mapM].
  - intros [= <-]. exists [], []. split_and!; [done|constructor|by rewrite app_nil_r].
  - destruct (read_block_at r (entry_offset e) (entry_size e)) as [b| |]; cbn [res_bind]; [|done..].
    destruct (parse_leaf_index_entries (block_data b)) as [l| |] eqn:Hl; cbn [res_bind]; [|done..].
    intros (blocks & ess & -> & Hp & ->)%IH. exists (b :: blocks), (l :: ess).
    split_and!; [done|by constructor|by rewrite <- app_assoc].
Qed.

Lemma parse_leaves_fold blocks ess : Forall2 (fun b es => parse_leaf_index_entries (block_data b) = Ok es) blocks ess ->
  forall acc, res_fold (fun next block =>
    let? es := parse_leaf_index_entries (block_data block) in Ok (next ++ es)) blocks acc = Ok (acc ++ concat ess).
Proof.
  induction 1 as [|b es blocks ess Hb _ IH]; intros acc; cbn [res_fold]; [by rewrite app_nil_r|].
  rewrite Hb. cbn [res_bind]. rewrite IH. cbn [concat]. by rewrite app_assoc.
Qed.

Lemma window_step_concat b st e :
  concat (w_windows (window_step b st e)) ++ w_current (window_step b st e) =
  (concat (w_windows st) ++ w_current st) ++ [e].
Proof.
  unfold window_step. destruct (negb (bool_decide (w_current st = [])) && _); cbn.
  - by rewrite concat_app; cbn; rewrite app_nil_r.
  - by rewrite app_assoc.
Qed.

Lemma plan_windows_concat es b : concat (plan_windows es b) = es.
Proof.
  assert (H : let st := foldl (window_step b) (mkWindows [] [] 0) es in concat (w_windows st) ++ w_current st = es).
  { induction es as [|e es IH] using rev_ind; [done|]. rewrite foldl_app. cbn [foldl]. rewrite window_step_concat.
    cbn zeta in *. by rewrite IH. }
  unfold plan_windows. case_bool_decide as Hn; cbn zeta in H.
  - rewrite Hn, app_nil_r in H. done.
  - rewrite concat_app. cbn [concat]. by rewrite app_nil_r.
Qed.

Lemma load_windows_agree r ws : source r = Whole object -> Forall entry_nonneg (concat ws) -> forall acc next,
  res_fold (fun next e =>
    let? block := read_block_at r (entry_offset e) (entry_size e) in
    let? es := parse_leaf_index_entries (block_data block) in
    Ok (next ++ es)) (concat ws) acc = Ok next ->
  res_fold (load_window (in_ranges r)) ws acc = Ok next.
Proof.
  intros Hs. induction ws as [|w ws IH]; intros Hn acc next; cbn [concat res_fold]; [done|].
  cbn [concat] in Hn. apply list.Forall_app in Hn as [Hw Hn]. rewrite res_fold_app.
  destruct (res_fold _ w acc) as [mid| |] eqn:Hm; cbn [res_bind]; [|done..]. intros Hr.
  apply load_level_inv in Hm as (blocks & ess & Hb & Hp & ->).
  unfold load_window at 1. rewrite (fetch_blocks_agree r w blocks Hs Hw Hb). cbn [res_bind].
  rewrite (parse_leaves_fold _ _ Hp). cbn [res_bind]. by apply IH.
Qed.

Lemma load_levels_agree r n : source r = Whole object -> forall es next, Forall entry_nonneg es ->
  load_levels (load_level r) n es = Ok next ->
  load_levels (load_level_batched (in_ranges r) budget) n es = Ok next /\ Forall entry_nonneg next.
Proof.
  intros Hs. induction n as [|n IH]; intros es next Hn; cbn [load_levels]; [intros [= <-]; done|].
  destruct (load_level r es) as [mid| |] eqn:Hm; cbn [res_bind]; [|done..]. intros Hr.
  assert (Hb : load_level_batched (in_ranges r) budget es = Ok mid).
  { unfold load_level_batched. apply load_windows_agree; rewrite ?plan_windows_concat; done. }
  rewrite Hb. cbn [res_bind]. apply IH; [|done].
  apply load_level_inv in Hm as (blocks & ess & _ & Hp & ->). cbn [app].
  clear -Hp. induction Hp as [|b es blocks ess Hb _ IH]; [constructor|]. cbn [concat].
  apply list.Forall_app. split; [by apply parse_leaf_nonneg in Hb|done].
Qed.

Lemma set_data_index_in_ranges r i : in_ranges (set_data_index r i) = set_data_index (in_ranges r) i.
Proof. done. Qed.

Lemma multi_level_agrees r r' : source r = Whole object -> Forall entry_nonneg (data_block_entries (data_block_index r)) ->
  load_multi_level_index r = Ok r' ->
  load_multi_level_index_batched (in_ranges r) = Ok (in_ranges r') /\ source r' = Whole object.
Proof.
  intros Hs Hn. unfold load_multi_level_index, load_multi_level_index_batched.
  cbn [source in_ranges ranged_source data_block_index trailer].
  generalize (Z.to_nat (num_data_index_levels (trailer r) - 1)) as n. intros n.
  destruct (load_levels (load_level r) n (data_block_entries (data_block_index r))) as [es| |] eqn:Hl; cbn [res_bind]; [|done..].
  apply load_levels_agree in Hl as [Hb _]; [|done|done]. unfold in_ranges, ranged_source in Hb |- *. rewrite Hb. cbn [res_bind].
  destruct (index_from_leaf_entries es) as [i| |]; cbn [res_bind]; [|done..]. intros E. by injection E as <-.
Qed.

Lemma initialize_agrees r0 r : source r0 = Whole object -> load_on_open_data_offset (trailer r0) = tail_start ->
  initialize_metadata r0 = Ok r ->
  initialize_metadata_ranged (in_ranges r0) = Ok (in_ranges r) /\ source r = Whole object.
Proof.
  intros Hs Ht. unfold initialize_metadata, initialize_metadata_ranged, read_root_index.
  change (trailer (in_ranges r0)) with (trailer r0). rewrite Ht, root_block_agrees by (done || lia).
  destruct (read_root_index_block r0 tail_start) as [[i n]| |] eqn:Hroot; cbn [res_bind fst snd]; [|done..].
  apply root_block_next in Hroot as [Hn Hi]. rewrite <- set_data_index_in_ranges.
  destruct (1 <? num_data_index_levels (trailer r0)); cbn [res_bind]; [|by apply meta_and_info_agree].
  destruct (load_multi_level_index (set_data_index r0 i)) as [r1| |] eqn:Hm; cbn [res_bind]; [|done..].
  apply multi_level_agrees in Hm as [-> Hs1]; [|done|done]. cbn [res_bind]. by apply meta_and_info_agree.
Qed.
End agree.

(** The store holds the object, whole and in ranges. *)
Record object_served `{RS : RangeStore, LS : LogStorage, HS : HeadStore} (path : string) (object : bytes) : Prop := {
  os_ranges : path_served path object;
  os_whole : log_object path = Ok object;
  os_size : object_head path = Some (blen object)
}.

Section opened.
Context {G : Gunzip} {P : HFileProtos} {RS : RangeStore} {LS : LogStorage} {HS : HeadStore}.

Lemma initialize_trailer r r' : initialize_metadata r = Ok r' -> trailer r' = trailer r.
Proof.
  unfold initialize_metadata, read_root_index, load_multi_level_index, read_meta_and_file_info.
  destruct (read_root_index_block _ _) as [[i n]| |]; cbn [res_bind fst snd]; [|done..].
  destruct (1 <? _); cbn [res_bind].
  - destruct (load_levels _ _ _); cbn [res_bind]; [|done..]. destruct (index_from_leaf_entries _); cbn [res_bind]; [|done..].
    destruct (read_meta_index_block _ _); cbn [res_bind]; [|done..]. destruct (read_file_info_block _ _); cbn [res_bind]; [|done..].
    destruct (check_mvcc_support _); cbn [res_bind]; [|done..]. intros E. by injection E as <-.
  - destruct (read_meta_index_block _ _); cbn [res_bind]; [|done..]. destruct (read_file_info_block _ _); cbn [res_bind]; [|done..].
    destruct (check_mvcc_support _); cbn [res_bind]; [|done..]. intros E. by injection E as <-.
Qed.

Lemma open_ranged_ok configs path object budget r :
  object_served path object -> stream_window_size configs = Some budget -> reader_new object = Ok r ->
  0 <= load_on_open_data_offset (trailer r) ->
  load_on_open_data_offset (trailer r) <= blen object /\ source r = Whole object /\
  open_ranged configs path = Ok (in_ranges path object (load_on_open_data_offset (trailer r)) budget r).
Proof.
  intros [Hr Hw Hh] Hb. unfold reader_new. destruct (trailer_read object) as [t| |] eqn:Ht; cbn [res_bind]; [|done..].
  intros Hi H0. pose proof (initialize_trailer _ _ Hi) as Et. cbn [trailer with_source] in Et. rewrite Et in *.
  assert (Hsize : TRAILER_SIZE <= blen object).
  { unfold trailer_read in Ht. destruct (Z.ltb_spec (blen object) TRAILER_SIZE); [done|lia]. }
  assert (Hin : load_on_open_data_offset t <= blen object).
  { unfold initialize_metadata, read_root_index, read_root_index_block, metadata_at, get_from in Hi.
    cbn [source with_source trailer] in Hi. destruct (Z.leb_spec (load_on_open_data_offset t) (blen object)); [done|].
    cbn [ok_or res_bind] in Hi. done. }
  pose proof (ps_size _ _ Hr) as Hu. pose proof (blen_nonneg object) as H1. pose proof (ps_one _ _ Hr) as Hone.
  assert (Hread : forall from, 0 <= from <= blen object ->
    read_content path from (blen object - from) = Ok (slice object from (blen object))).
  { intros from Hf. unfold read_content, get_range, checked_add.
    replace (from + (blen object - from)) with (blen object) by lia. destruct (Z.leb_spec (blen object) u64_max); [|lia].
    rewrite (@serves _ _ Hone) by lia. done. }
  destruct (initialize_agrees path object (load_on_open_data_offset t) budget Hr (conj H0 Hin) (with_source (Whole object) t) r)
    as [Hri Hs]; [done|done|done|]. split; [done|]. split; [done|].
  unfold open_ranged, streaming_file_len, open_ranged_with. rewrite Hh, Hb. cbn [ok_or res_bind].
  destruct (Z.ltb_spec (blen object) TRAILER_SIZE); [lia|].
  pose proof (Hread (blen object - TRAILER_SIZE)) as Htail. unfold TRAILER_SIZE in Htail, Hsize.
  replace (blen object - (blen object - 4096)) with 4096 in Htail by lia. unfold TRAILER_SIZE. rewrite Htail by lia. cbn [res_bind].
  pose proof (trailer_read_tail object Hsize) as Hl. unfold TRAILER_SIZE in Hl. rewrite Hl, Ht. cbn [res_bind].
  destruct (Z.ltb_spec (blen object) (load_on_open_data_offset t)); [lia|]. rewrite Hread by lia. cbn [res_bind].
  exact Hri.
Qed.
End opened.

(** * Reading by key is scanning and filtering *)
Section records.
Context {G : Gunzip} {RS : RangeStore}.

Lemma records_in_block_inv r e recs : records_in_block r e = Ok recs ->
  exists b, read_block_at r (entry_offset e) (entry_size e) = Ok b /\ data_block_records b = Ok recs.
Proof.
  unfold records_in_block. destruct (read_block_at r (entry_offset e) (entry_size e)) as [b| |]; cbn [res_bind]; [|done..].
  intros H. by exists b.
Qed.

Lemma records_of_blocks (recs : BlockIndexEntry -> list HFileRecord) es blocks :
  Forall2 (fun b e => data_block_records b = Ok (recs e)) blocks es -> forall acc,
  res_fold (fun records block => let? more := data_block_records block in Ok (records ++ more)) blocks acc =
  Ok (acc ++ concat (map recs es)).
Proof.
  induction 1 as [|b e blocks es Hb _ IH]; intros acc; cbn [res_fold]; [by rewrite app_nil_r|].
  rewrite Hb. cbn [res_bind]. rewrite IH. cbn [map concat]. by rewrite app_assoc.
Qed.

Context (r : HFileReader) (recs : BlockIndexEntry -> list HFileRecord).

(** What every window of the file's blocks reads as. *)
Definition windows_read : Prop :=
  forall w, w ⊆ data_block_entries (data_block_index r) -> read_records_batched r w = Ok (concat (map recs w)).

Lemma window_records_ok k w : windows_read -> w ⊆ data_block_entries (data_block_index r) ->
  window_records r k w = Ok (match k with
    | Some p => List.filter (record_admitted p) (concat (map recs w))
    | None => concat (map recs w) end).
Proof. intros H Hw. unfold window_records. rewrite H by done. by destruct k. Qed.

Lemma windows_records_ok k ws : windows_read -> concat ws ⊆ data_block_entries (data_block_index r) ->
  exists out, res_mapM (window_records r k) ws = Ok out /\ concat out =
    match k with
    | Some p => List.filter (record_admitted p) (concat (map recs (concat ws)))
    | None => concat (map recs (concat ws)) end.
Proof.
  intros H. induction ws as [|w ws IH]; intros Hs; cbn [res_mapM concat] in *.
  - exists []. by destruct k.
  - rewrite window_records_ok; [|done|intros x Hx; apply Hs, elem_of_app; by left]. cbn [res_bind].
    destruct IH as (out & -> & E); [intros x Hx; apply Hs, elem_of_app; by right|]. cbn [res_bind].
    eexists. split; [done|]. cbn [concat]. rewrite E, map_app, concat_app. destruct k; [by rewrite List.filter_app|done].
Qed.

Lemma filter_sublist_concat (P : HFileRecord -> bool) sel all : sel `sublist_of` all ->
  (forall e x, e ∈ all -> x ∈ recs e -> P x = true -> e ∈ sel) -> NoDup all ->
  List.filter P (concat (map recs sel)) = List.filter P (concat (map recs all)).
Proof.
  induction 1 as [|e sel all Hsub IH|e sel all Hsub IH]; intros Hin Hnd; [done| |]; apply list.NoDup_cons in Hnd as [He Hnd];
    cbn [map concat]; rewrite !List.filter_app.
  - rewrite IH; [done| |done]. intros d x Hd Hx HP.
    assert (Hds : d ∈ e :: sel) by (apply (Hin d x); [by right|done|done]).
    apply elem_of_cons in Hds as [->|]; [|done]. done.
  - assert (Hnil : List.filter P (recs e) = []).
    { destruct (List.filter P (recs e)) as [|x l] eqn:El; [done|exfalso].
      assert (Hx : x ∈ List.filter P (recs e)) by (rewrite El; by left).
      apply list_elem_of_In, filter_In in Hx as [Hx HP]. apply list_elem_of_In in Hx.
      apply He, (sublist_subseteq sel); [done|]. apply (Hin e x); [by left|done|done]. }
    rewrite Hnil. apply IH; [|done]. intros d x Hd. apply Hin. by right.
Qed.

Lemma predicate_read_ok p :
  windows_read -> index_wf (data_block_index r) (fun e => map hf_key (recs e)) ->
  predicate_covered (data_block_index r) (fun e => map hf_key (recs e)) p ->
  exists scanned selected, stream_records r None = Ok scanned /\ stream_records r (Some p) = Ok selected /\
    concat scanned = concat (map recs (data_block_entries (data_block_index r))) /\
    concat selected = List.filter (record_admitted p) (concat scanned).
Proof.
  intros Hw W Hc. unfold stream_records. destruct (blocks_for_predicate_ok _ _ W p Hc) as (sel & -> & Hsub & Hsel).
  cbn [res_bind]. set (budget := default DEFAULT_WINDOW_BUDGET_FALLBACK (window_budget r)).
  destruct (windows_records_ok None (plan_windows (data_block_entries (data_block_index r)) budget) Hw) as (out & -> & E);
    [by rewrite plan_windows_concat|].
  destruct (windows_records_ok (Some p) (plan_windows sel budget) Hw) as (out' & -> & E');
    [rewrite plan_windows_concat; by apply sublist_subseteq|].
  exists out, out'. rewrite plan_windows_concat in E, E'. split_and!; [done|done|done|]. rewrite E, E'.
  apply filter_sublist_concat; [done| |].
  - intros e x He Hx Ha. apply Hsel; [done|]. exists (hf_key x). split; [apply list_elem_of_fmap; by exists x|].
    unfold record_admitted in Ha. rewrite matcher_agrees in Ha. by case_match.
  - pose proof (iw_offsets _ _ W) as Ho. unfold offsets_increase in Ho. clear -Ho.
    induction Ho as [|x l _ IH Hx]; [constructor|]. constructor; [|done]. intros Hin.
    rewrite list.Forall_forall in Hx. specialize (Hx _ Hin). unfold offset_lt in Hx. lia.
Qed.
End records.

Section whole_and_ranges.
Context {G : Gunzip} {RS : RangeStore} {LS : LogStorage}.
Context (r : HFileReader) (object : bytes) (recs : BlockIndexEntry -> list HFileRecord).

(** Every block of the index reads, and as [recs] says. *)
Definition blocks_read : Prop :=
  source r = Whole object /\
  forall e, e ∈ data_block_entries (data_block_index r) -> entry_nonneg e /\ records_in_block r e = Ok (recs e).

Lemma blocks_read_mapM w : blocks_read -> w ⊆ data_block_entries (data_block_index r) ->
  Forall entry_nonneg w /\
  exists blocks, res_mapM (fun e => read_block_at r (entry_offset e) (entry_size e)) w = Ok blocks /\
    Forall2 (fun b e => data_block_records b = Ok (recs e)) blocks w.
Proof.
  intros [_ H]. induction w as [|e w IH]; intros Hw.
  - split; [constructor|]. by exists [].
  - destruct (H e) as [Hn Hr]; [apply Hw; by left|]. apply records_in_block_inv in Hr as (b & Hb & Hr).
    destruct IH as (Hns & blocks & Hbs & Hrs); [intros x Hx; apply Hw; by right|].
    split; [by constructor|]. exists (b :: blocks). cbn [res_mapM]. rewrite Hb. cbn [res_bind]. rewrite Hbs.
    split; [done|by constructor].
Qed.

Lemma whole_windows_read : blocks_read -> windows_read r recs.
Proof.
  intros H w Hw. destruct (blocks_read_mapM w H Hw) as (_ & blocks & Hb & Hr). unfold read_records_batched.
  destruct w as [|e w]; [done|]. unfold fetch_blocks. destruct H as [-> _]. rewrite Hb. cbn [res_bind].
  by apply (records_of_blocks recs (e :: w) blocks Hr []).
Qed.

Lemma ranged_windows_read path tail_start budget : path_served path object -> blocks_read ->
  windows_read (in_ranges path object tail_start budget r) recs.
Proof.
  intros Hp H w Hw. destruct (blocks_read_mapM w H Hw) as (Hn & blocks & Hb & Hr). unfold read_records_batched.
  destruct w as [|e w]; [done|]. destruct H as [Hs _].
  rewrite (fetch_blocks_agree path object tail_start budget Hp r (e :: w) blocks Hs Hn Hb). cbn [res_bind].
  by apply (records_of_blocks recs (e :: w) blocks Hr []).
Qed.
End whole_and_ranges.
