(* ===== verification/HFileSeek.v ===== *)
(** The cursor of the HFile reader: seeks, steps, iteration and lookups of
    crates/core/src/hfile/reader.rs.

    A call that fails leaves the state as it was at the failure.  Loops over the
    records of a block have the block's length as fuel, and loops over blocks the
    number of blocks; a loop over the records of the file takes its fuel as an
    argument. *)
From Stdlib Require Import Ascii.
From stdpp Require Import base gmap sets list strings sorting numbers.
From S2P Require Import Prelude RustStr BTree StorageReader RecordBatches LogFormat LogReader HFileKey HFileBlock HFileIndex HFileReader.
Local Open Scope res_scope.
Local Open Scope Z_scope.

Inductive SeekResult := BeforeBlockFirstKey | BeforeFileFirstKey | Found | InRange | Eof.

Record Cursor := mkCursor {
  c_offset : Z;
  cached_kv : option KeyValue;
  eof : bool;
  seeked : bool
}.

Record SeekState := mkSeek {
  cursor : Cursor;
  current_block : option DataBlock;
  current_block_entry : option BlockIndexEntry
}.

Definition initial_state : SeekState := mkSeek (mkCursor 0 None false false) None None.

Definition set_cursor (c : Cursor) (s : SeekState) : SeekState := mkSeek c (current_block s) (current_block_entry s).
Definition set_block (b : option DataBlock) (s : SeekState) : SeekState := mkSeek (cursor s) b (current_block_entry s).
Definition set_entry (e : option BlockIndexEntry) (s : SeekState) : SeekState := mkSeek (cursor s) (current_block s) e.
Definition set_cached (kv : option KeyValue) (s : SeekState) : SeekState :=
  set_cursor (mkCursor (c_offset (cursor s)) kv (eof (cursor s)) (seeked (cursor s))) s.
Definition set_eof (b : bool) (s : SeekState) : SeekState :=
  set_cursor (mkCursor (c_offset (cursor s)) (cached_kv (cursor s)) b (seeked (cursor s))) s.
Definition move_to (offset : Z) (kv : option KeyValue) (s : SeekState) : SeekState :=
  set_cursor (mkCursor offset kv (eof (cursor s)) (seeked (cursor s))) s.

(** Calls on [&mut self]. *)
Definition call (A : Type) : Type := SeekState -> res A * SeekState.

Definition ret {A} (a : A) : call A := fun s => (Ok a, s).
Definition fail {A} (r : CoreError) : call A := fun s => (Err r, s).
Definition lift {A} (r : res A) : call A := fun s => (r, s).
Definition get : call SeekState := fun s => (Ok s, s).
Definition put (s : SeekState) : call unit := fun _ => (Ok tt, s).
Definition update (f : SeekState -> SeekState) : call unit := fun s => (Ok tt, f s).

Definition call_bind {A B} (m : call A) (k : A -> call B) : call B :=
  fun s =>
    match m s with
    | (Ok a, s) => k a s
    | (Err e, s) => (Err e, s)
    | (Panic, s) => (Panic, s)
    end.

Declare Scope call_scope.
Delimit Scope call_scope with call.
Notation "'let^' x ':=' m 'in' k" := (call_bind m (fun x => k))
  (at level 10, x pattern, m at level 100, k at level 200,
   format "'[v' 'let^'  x  ':='  m  'in' '/' k ']'") : call_scope.
Local Open Scope call_scope.

Definition unwrap {A} (o : option A) : call A := lift (match o with Some a => Ok a | None => Panic end).

Section seek.
Context {G : Gunzip}.
Context (r : HFileReader).

Definition is_at_first_key_of_block (s : SeekState) : bool :=
  match current_block_entry s with
  | Some entry => c_offset (cursor s) =? entry_offset entry + BLOCK_HEADER_SIZE
  | None => false
  end.

Definition load_data_block (e : BlockIndexEntry) : call unit :=
  let^ block := lift (read_block_at r (entry_offset e) (entry_size e)) in
  let^ _ := lift (expect_type block Data) in
  update (set_block (Some (data_block_from block))).

(** [range((Excluded(first_key), Unbounded)).next()] *)
Fixpoint first_above (k : Key) (m : DataIndex) : res (option BlockIndexEntry) :=
  match m with
  | [] => Ok None
  | (k', e) :: m =>
      let? c := key_cmp k' k in
      match c with
      | Gt => Ok (Some e)
      | _ => first_above k m
      end
  end.

Definition get_next_block_entry (current : BlockIndexEntry) : res (option BlockIndexEntry) :=
  first_above (first_key current) (data_block_index r).

(** To the first record of a block. *)
Definition enter_block (e : BlockIndexEntry) : call unit :=
  let^ _ := update (set_entry (Some e)) in
  let^ _ := load_data_block e in
  let^ offset := lift (usize_add (entry_offset e) BLOCK_HEADER_SIZE) in
  update (move_to offset None).

Definition seek_to_first : call bool :=
  let at_end := let^ _ := update (fun s => set_cursor (mkCursor (c_offset (cursor s)) (cached_kv (cursor s)) true true) s) in ret false in
  if entry_count (trailer r) =? 0 then at_end
  else
    match head (data_block_index r) with
    | None => at_end
    | Some (_, first_entry) =>
        let^ _ := update (set_entry (Some first_entry)) in
        let^ _ := load_data_block first_entry in
        let^ offset := lift (usize_add (entry_offset first_entry) BLOCK_HEADER_SIZE) in
        let^ _ := update (set_cursor (mkCursor offset None false true)) in
        ret true
    end.

(** The cursor's offset within the current block's data. *)
Definition offset_in_block (s : SeekState) : call Z :=
  let^ entry := unwrap (current_block_entry s) in
  let^ offset := lift (usize_sub (c_offset (cursor s)) (entry_offset entry)) in
  lift (usize_sub offset BLOCK_HEADER_SIZE).

Definition get_key_value : call (option KeyValue) :=
  let^ s := get in
  if negb (seeked (cursor s)) || eof (cursor s) then ret None
  else
    match cached_kv (cursor s) with
    | Some cached => ret (Some cached)
    | None =>
        let^ block :=
          match current_block s with
          | Some b => ret b
          | None =>
              let^ entry := unwrap (current_block_entry s) in
              let^ _ := load_data_block entry in
              let^ s := get in
              unwrap (current_block s)
          end in
        let^ offset := offset_in_block s in
        let^ kv := lift (read_key_value block offset) in
        let^ _ := update (set_cached (Some kv)) in
        ret (Some kv)
    end.

Definition next : call bool :=
  let^ s := get in
  if negb (seeked (cursor s)) || eof (cursor s) then ret false
  else
    match current_block s with
    | None => ret false
    | Some block =>
        let^ entry := unwrap (current_block_entry s) in
        let^ current_offset := offset_in_block s in
        let^ kv :=
          match cached_kv (cursor s) with
          | Some cached => ret cached
          | None => lift (read_key_value block current_offset)
          end in
        let^ size := lift (record_size kv) in
        let^ next_offset := lift (usize_add current_offset size) in
        if is_valid_offset block next_offset then
          let^ _ := update (move_to (entry_offset entry + BLOCK_HEADER_SIZE + next_offset) None) in
          ret true
        else
          let^ next_entry := lift (get_next_block_entry entry) in
          match next_entry with
          | Some entry =>
              let^ _ := enter_block entry in
              ret true
          | None =>
              let^ _ := update (set_eof true) in
              ret false
          end
    end.

(** The inner loop of [scan_block_for_key]: to the first record that is not below
    the key, or past the block's end. *)
Inductive ScanEnd :=
  | ScanFound (offset : Z) (kv : KeyValue)
  | ScanAbove (last_offset : Z) (last_kv : option KeyValue)
  | ScanPast (last_offset : Z) (last_kv : option KeyValue).

Fixpoint scan_loop (fuel : nat) (block : DataBlock) (lookup : bytes) (offset last_offset : Z)
    (last_kv : option KeyValue) : res ScanEnd :=
  match fuel with
  | O => Err (EHFile InvalidFormat)
  | S fuel =>
      if is_valid_offset block offset then
        let? kv := read_key_value block offset in
        let? c := compare_keys (kv_key kv) lookup in
        match c with
        | Eq => Ok (ScanFound offset kv)
        | Gt => Ok (ScanAbove last_offset last_kv)
        | Lt =>
            let? size := record_size kv in
            let? next := usize_add offset size in
            scan_loop fuel block lookup next offset (Some kv)
        end
      else Ok (ScanPast last_offset last_kv)
  end.

(** [scan_block_for_key], with fuel for the blocks. *)
Fixpoint scan_blocks (fuel : nat) (lookup : bytes) : call SeekResult :=
  match fuel with
  | O => fail (EHFile InvalidFormat)
  | S fuel =>
      let^ s := get in
      match current_block s with
      | None => ret Eof
      | Some block =>
          let^ current_entry := unwrap (current_block_entry s) in
          let block_start := entry_offset current_entry in
          let^ offset := offset_in_block s in
          let^ scanned :=
            lift (scan_loop (S (Z.to_nat (content_end block))) block lookup offset offset (cached_kv (cursor s))) in
          match scanned with
          | ScanFound offset kv =>
              let^ _ := update (move_to (block_start + BLOCK_HEADER_SIZE + offset) (Some kv)) in
              ret Found
          | ScanAbove last_offset last_kv =>
              let^ _ :=
                match last_kv with
                | Some prev_kv => update (move_to (block_start + BLOCK_HEADER_SIZE + last_offset) (Some prev_kv))
                | None => ret tt
                end in
              let^ s := get in
              ret (if is_at_first_key_of_block s then BeforeBlockFirstKey else InRange)
          | ScanPast last_offset last_kv =>
              let^ next_entry := lift (get_next_block_entry current_entry) in
              match next_entry with
              | Some entry =>
                  let^ _ := enter_block entry in
                  scan_blocks fuel lookup
              | None =>
                  match last_kv with
                  | Some kv =>
                      let^ c := lift (compare_keys (kv_key kv) lookup) in
                      match c with
                      | Lt =>
                          let^ _ := update (fun s => set_cached None (set_eof true s)) in
                          ret Eof
                      | _ =>
                          let^ _ := update (move_to (block_start + BLOCK_HEADER_SIZE + last_offset) (Some kv)) in
                          ret InRange
                      end
                  | None => ret InRange
                  end
              end
          end
      end
  end.

Definition scan_block_for_key (lookup : bytes) : call SeekResult :=
  scan_blocks (S (length (data_block_index r))) lookup.

(** The probe is made of the lookup key's own bytes, not from its content. *)
Definition find_block_for_key (lookup : bytes) : call unit :=
  let fake_key := key_from_bytes lookup in
  let^ upto := lift (index_upto fake_key (data_block_index r)) in
  match list.last upto with
  | Some (_, entry) => enter_block entry
  | None => ret tt
  end.

Definition forward_seek (lookup : bytes) : call SeekResult :=
  let^ s := get in
  match current_block_entry s with
  | None => scan_block_for_key lookup
  | Some entry =>
      match next_block_first_key entry with
      | Some next_key =>
          let^ c := lift (compare_keys next_key lookup) in
          let^ _ := match c with Gt => ret tt | _ => find_block_for_key lookup end in
          scan_block_for_key lookup
      | None =>
          let^ past :=
            match last_key r with
            | Some last_key => let^ c := lift (compare_keys last_key lookup) in ret (match c with Lt => true | _ => false end)
            | None => ret false
            end in
          if past : bool then
            let^ _ := update (fun s => set_entry None (set_block None (set_eof true s))) in
            ret Eof
          else scan_block_for_key lookup
      end
  end.

Definition seek_to (lookup : bytes) : call SeekResult :=
  let^ s := get in
  let^ _ := if seeked (cursor s) then ret true else seek_to_first in
  if entry_count (trailer r) =? 0 then ret Eof
  else
    let^ current := get_key_value in
    match current with
    | None => ret Eof
    | Some current_kv =>
        let^ c := lift (compare_keys (kv_key current_kv) lookup) in
        match c with
        | Eq => ret Found
        | Gt =>
            let^ s := get in
            let at_first := is_at_first_key_of_block s in
            let^ below :=
              match current_block_entry s with
              | Some entry =>
                  if at_first then
                    let^ c := lift (compare_keys (first_key entry) lookup) in
                    ret (match c with Gt => false | _ => true end)
                  else ret false
              | None => ret false
              end in
            if below : bool then ret BeforeBlockFirstKey
            else if bool_decide (is_Some (head (data_block_index r))) && at_first then ret BeforeFileFirstKey
            else fail (EHFile BackwardSeekNotSupported)
        | Lt => forward_seek lookup
        end
    end.

(** * Iteration *)

(** [HFileIterator::next] and [HFileRecordIterator::next]: [None] at the end. *)
Definition iterator_next : call (option KeyValue) :=
  let^ s := get in
  if eof (cursor s) then ret None
  else
    let^ current := get_key_value in
    match current with
    | Some kv =>
        let^ _ := next in
        ret (Some kv)
    | None => ret None
    end.

Fixpoint collect_loop (fuel : nat) : call (list HFileRecord) :=
  match fuel with
  | O => fail (EHFile InvalidFormat)
  | S fuel =>
      let^ item := iterator_next in
      match item with
      | None => ret []
      | Some kv =>
          let^ record := lift (key_value_to_record kv) in
          let^ rest := collect_loop fuel in
          ret (record :: rest)
      end
  end.

Definition collect_records (fuel : nat) : call (list HFileRecord) :=
  let^ _ := seek_to_first in
  collect_loop fuel.

(** * Lookups *)
Definition get_record : call (option HFileRecord) :=
  let^ current := get_key_value in
  match current with
  | Some kv => let^ record := lift (key_value_to_record kv) in ret (Some record)
  | None => ret None
  end.

Definition lookup_one (key : bytes) : call (bytes * option HFileRecord) :=
  let^ result := seek_to key in
  match result with
  | Found => let^ record := get_record in ret (key, record)
  | _ => ret (key, None)
  end.

Fixpoint lookup_loop (keys : list bytes) : call (list (bytes * option HFileRecord)) :=
  match keys with
  | [] => ret []
  | key :: keys =>
      let^ one := lookup_one key in
      let^ rest := lookup_loop keys in
      ret (one :: rest)
  end.

Definition lookup_records (keys : list bytes) : call (list (bytes * option HFileRecord)) :=
  match keys with
  | [] => ret []
  | _ =>
      let^ _ := seek_to_first in
      let^ s := get in
      if eof (cursor s) then ret (map (fun key => (key, None)) keys)
      else lookup_loop keys
  end.

Fixpoint prefix_loop (fuel : nat) (prefix : bytes) : call (list HFileRecord) :=
  match fuel with
  | O => fail (EHFile InvalidFormat)
  | S fuel =>
      let^ s := get in
      if eof (cursor s) then ret []
      else
        let^ current := get_key_value in
        match current with
        | None => ret []
        | Some kv =>
            let^ content := lift (key_content (kv_key kv)) in
            let continue (records : list HFileRecord) :=
              let^ more := next in
              if more : bool then let^ rest := prefix_loop fuel prefix in ret (records ++ rest) else ret records in
            if starts_with prefix content then
              let^ record := lift (key_value_to_record kv) in continue [record]
            else match bytes_cmp content prefix with
                 | Gt => ret []
                 | _ => continue []
                 end
        end
  end.

Definition collect_records_by_prefix (fuel : nat) (prefix : bytes) : call (list HFileRecord) :=
  let^ _ := seek_to_first in
  let^ s := get in
  if eof (cursor s) then ret []
  else
    let^ start_result := seek_to prefix in
    match start_result with
    | Eof => ret []
    | Found | InRange | BeforeBlockFirstKey => prefix_loop fuel prefix
    | BeforeFileFirstKey =>
        let^ _ := seek_to_first in
        prefix_loop fuel prefix
    end.
End seek.

Lemma bind_ok {A B} (m : call A) (k : A -> call B) s a s' : m s = (Ok a, s') -> call_bind m k s = k a s'.
Proof. intros H. unfold call_bind. by rewrite H. Qed.

Ltac step H := rewrite (bind_ok _ _ _ _ _ H).
Ltac run := erewrite bind_ok by reflexivity.

(** * The file under the cursor *)
Definition ck (kv : bytes * bytes) : bytes := content_of (key_from_bytes kv.1).

Definition record_of (kv : bytes * bytes) : HFileRecord := mkHFileRecord (ck kv) kv.2.

Section file.
Context {G : Gunzip}.
Context (r : HFileReader) (es : list BlockIndexEntry) (blocks : BlockIndexEntry -> list (bytes * bytes)).

Definition flat (l : list BlockIndexEntry) : list (bytes * bytes) := concat (map blocks l).

Definition kv_readable (kv : bytes * bytes) : Prop := kv_ok kv /\ readable (key_from_bytes kv.1).

(** The reader's index has the entries [es], and each names a data block with the
    records that [blocks] says. *)
Record file_holds : Prop := {
  fh_index : data_block_index r = keyed es;
  fh_next : exists base, es = with_next_keys base;
  fh_wf : index_wf (keyed es) (fun e => map ck (blocks e));
  fh_block : forall e, e ∈ es -> exists h, hdr_block_type h = Data /\
    read_block_at r (entry_offset e) (entry_size e) = Ok (mkHFileBlock h (encode_kvs (blocks e)));
  fh_some : forall e, e ∈ es -> blocks e <> [] /\ Forall kv_readable (blocks e);
  fh_offset : forall e, e ∈ es ->
    0 <= entry_offset e /\ entry_offset e + BLOCK_HEADER_SIZE + blen (encode_kvs (blocks e)) <= u64_max;
  fh_count : entry_count (trailer r) = 0 -> es = [];
  fh_last : forall k, last_key r = Some k -> readable k /\ Forall (fun kv => bytes_le (ck kv) (content_of k)) (flat es);
  fh_sorted : StronglySorted (fun x y => bytes_le (ck x) (ck y)) (flat es)
}.

Context (F : file_holds).

(** At the record after [a] in the block of [e]. *)
Definition at_rec (e : BlockIndexEntry) (a : list (bytes * bytes)) (c : option KeyValue) : SeekState :=
  mkSeek (mkCursor (entry_offset e + BLOCK_HEADER_SIZE + blen (encode_kvs a)) c false true)
    (Some (block_of (blocks e))) (Some e).

Definition cache_of (kv : bytes * bytes) (c : option KeyValue) : Prop :=
  c = None \/ c = Some (parsed_kv kv.1 kv.2).

(** At a record of the file, with the records before and from it on. *)
Inductive at_pos : SeekState -> list (bytes * bytes) -> list (bytes * bytes) -> Prop :=
  | At l e l' a kv b c :
      es = l ++ e :: l' -> blocks e = a ++ kv :: b -> cache_of kv c ->
      at_pos (at_rec e a c) (flat l ++ a) (kv :: b ++ flat l').

Lemma in_split l e l' : es = l ++ e :: l' -> e ∈ es.
Proof. intros ->. apply elem_of_app. right. by left. Qed.

Lemma offset_in_block_at e a c b : e ∈ es -> blocks e = a ++ b ->
  offset_in_block (at_rec e a c) (at_rec e a c) = (Ok (blen (encode_kvs a)), at_rec e a c).
Proof.
  intros He Hb. destruct (fh_offset F e He) as [H0 Hu]. rewrite Hb, encode_kvs_app, blen_app in Hu.
  pose proof (blen_nonneg (encode_kvs a)). pose proof (blen_nonneg (encode_kvs b)).
  unfold offset_in_block, unwrap, lift, call_bind. cbn [at_rec current_block_entry cursor c_offset].
  unfold usize_sub. destruct (Z.leb_spec (entry_offset e) (entry_offset e + BLOCK_HEADER_SIZE + blen (encode_kvs a)));
    [|unfold BLOCK_HEADER_SIZE in *; lia].
  destruct (Z.leb_spec BLOCK_HEADER_SIZE (entry_offset e + BLOCK_HEADER_SIZE + blen (encode_kvs a) - entry_offset e)); [|lia].
  do 2 f_equal. lia.
Qed.

Lemma block_bytes_bound e : e ∈ es -> blen (encode_kvs (blocks e)) <= u64_max.
Proof. intros He. destruct (fh_offset F e He). unfold BLOCK_HEADER_SIZE in *. lia. Qed.

Lemma kv_in_block e a kv b : e ∈ es -> blocks e = a ++ kv :: b -> kv_readable kv.
Proof.
  intros He Hb. destruct (fh_some F e He) as [_ Hk]. rewrite Hb in Hk. apply list.Forall_app in Hk as [_ Hk].
  by apply Forall_cons_1 in Hk as [? _].
Qed.

(** What the block's iterator would read here. *)
Lemma read_here e a kv b : e ∈ es -> blocks e = a ++ kv :: b ->
  is_valid_offset (block_of (blocks e)) (blen (encode_kvs a)) = true /\
  read_key_value (block_of (blocks e)) (blen (encode_kvs a)) = Ok (parsed_kv kv.1 kv.2) /\
  (let? size := record_size (parsed_kv kv.1 kv.2) in usize_add (blen (encode_kvs a)) size) =
    Ok (blen (encode_kvs (a ++ [kv]))).
Proof.
  intros He Hb. pose proof (block_bytes_bound e He) as Hu. destruct (kv_in_block e a kv b He Hb) as [Hk _].
  rewrite Hb in Hu |- *. pose proof (data_block_next_written a kv b Hk Hu) as Hn. unfold data_block_next in Hn.
  destruct (is_valid_offset (block_of (a ++ kv :: b)) (blen (encode_kvs a))); cbn [negb] in Hn; [|done].
  destruct (content_end _ <? _); [done|].
  destruct (read_key_value (block_of (a ++ kv :: b)) (blen (encode_kvs a))) as [k| |]; cbn [res_bind] in Hn; [|done..].
  destruct (record_size k) as [sz| |] eqn:Hsz; cbn [res_bind] in Hn; [|done..].
  destruct (usize_add (blen (encode_kvs a)) sz) as [nx| |] eqn:Hnx; cbn [res_bind] in Hn; [|done..].
  injection Hn as -> ->. rewrite Hsz. cbn [res_bind]. done.
Qed.

Lemma past_the_end e : is_valid_offset (block_of (blocks e)) (blen (encode_kvs (blocks e))) = false.
Proof. unfold is_valid_offset. cbn [block_of content_end]. apply Z.ltb_irrefl. Qed.

Lemma get_key_value_at e a kv b c : e ∈ es -> blocks e = a ++ kv :: b -> cache_of kv c ->
  get_key_value r (at_rec e a c) = (Ok (Some (parsed_kv kv.1 kv.2)), at_rec e a (Some (parsed_kv kv.1 kv.2))).
Proof.
  intros He Hb Hc. unfold get_key_value. run. cbn [at_rec cursor seeked eof negb orb cached_kv current_block].
  destruct Hc as [->| ->]; [|done]. cbv beta iota. run. step (offset_in_block_at e a None (kv :: b) He Hb).
  destruct (read_here e a kv b He Hb) as (_ & Hr & _). unfold lift at 1. cbn [call_bind]. unfold call_bind at 1. rewrite Hr.
  done.
Qed.

Lemma load_data_block_at e s : e ∈ es ->
  load_data_block r e s = (Ok tt, set_block (Some (block_of (blocks e))) s).
Proof.
  intros He. destruct (fh_block F e He) as (h & Ht & Hr). unfold load_data_block, lift, call_bind. rewrite Hr.
  unfold expect_type, hfile_block_type. cbn [block_header]. rewrite decide_True by done. done.
Qed.

Lemma enter_block_at e s : e ∈ es -> eof (cursor s) = false -> seeked (cursor s) = true ->
  enter_block r e s = (Ok tt, at_rec e [] None).
Proof.
  intros He Heof Hsk. unfold enter_block. run. step (load_data_block_at e (set_entry (Some e) s) He).
  destruct (fh_offset F e He) as [H0 Hu]. pose proof (blen_nonneg (encode_kvs (blocks e))).
  unfold lift, call_bind. rewrite usize_add_ok by lia. unfold update, move_to, set_cursor, set_block, set_entry, at_rec. cbn.
  rewrite Heof, Hsk. change (blen (encode_kvs [])) with 0. by rewrite Z.add_0_r.
Qed.

Lemma keyed_split l e l' : es = l ++ e :: l' -> keyed es = keyed l ++ (first_key e, e) :: keyed l'.
Proof. intros ->. unfold keyed. by rewrite map_app. Qed.

Lemma first_above_app k l m : readable k -> index_ok (l ++ m) ->
  Forall (fun x => bytes_le (sep x) (content_of k)) l -> Forall (fun x => bytes_lt (content_of k) (sep x)) (take 1 m) ->
  first_above k (l ++ m) = Ok (snd <$> head m).
Proof.
  intros Hk [Hr _] Hl Hm. induction l as [|[k' e'] l IH]; cbn [app] in *.
  - destruct m as [|[k' e'] m]; [done|]. cbn [first_above]. apply Forall_cons_1 in Hr as [Hr _]. cbn [fst] in Hr.
    cbn [firstn] in Hm. apply Forall_cons_1 in Hm as [Hm _]. rewrite key_cmp_readable by done. cbn [res_bind].
    unfold sep in Hm. cbn [fst] in Hm. pose proof (bytes_cmp_cases (content_of k') (content_of k)) as Hc.
    destruct (bytes_cmp (content_of k') (content_of k)); [|exfalso|done].
    + rewrite Hc in Hm. by destruct (bytes_lt_irrefl _ Hm).
    + apply (bytes_lt_irrefl (content_of k)). by apply (bytes_lt_trans _ (content_of k')).
  - cbn [first_above]. apply Forall_cons_1 in Hr as [Hr Hrs]. apply Forall_cons_1 in Hl as [Hle Hl]. cbn [fst] in Hr.
    rewrite key_cmp_readable by done. cbn [res_bind]. unfold sep, bytes_le in Hle. cbn [fst] in Hle.
    rewrite IH by done. by destruct (bytes_cmp (content_of k') (content_of k)).
Qed.

Lemma get_next_block_entry_at l e l' : es = l ++ e :: l' -> get_next_block_entry r e = Ok (head l').
Proof.
  intros Hs. unfold get_next_block_entry. rewrite (fh_index F), (keyed_split l e l' Hs).
  pose proof (iw_ok _ _ (fh_wf F)) as Hok. rewrite (keyed_split l e l' Hs) in Hok.
  pose proof Hok as (_ & He & Hlt)%index_ok_app. apply index_ok_cons in He as (He & _ & Hgt).
  rewrite cons_middle, app_assoc in *. rewrite first_above_app; [by destruct l'|done|done| |].
  - apply list.Forall_app. split; [|constructor; [apply bytes_le_refl|done]]. apply list.Forall_forall. intros x Hx.
    apply bytes_lt_le. apply (Hlt x (first_key e, e)); [done|by left].
  - destruct l' as [|e' l']; [constructor|]. cbn. constructor; [|done]. apply Hgt. by left.
Qed.

Lemma flat_app l l' : flat (l ++ l') = flat l ++ flat l'.
Proof. unfold flat. by rewrite map_app, concat_app. Qed.

Lemma flat_cons e l : flat (e :: l) = blocks e ++ flat l.
Proof. done. Qed.

Lemma at_pos_flat s bef rest : at_pos s bef rest -> bef ++ rest = flat es.
Proof.
  intros [l e l' a kv b c Hs Hb _]. rewrite Hs, flat_app, flat_cons, Hb. by rewrite <- !app_assoc.
Qed.

(** The first record of a block. *)
Lemma block_start l e l' : es = l ++ e :: l' -> at_pos (at_rec e [] None) (flat l) (blocks e ++ flat l').
Proof.
  intros Hs. destruct (fh_some F e (in_split l e l' Hs)) as [Hn _].
  destruct (blocks e) as [|kv b] eqn:Hb; [done|]. cbn [app].
  pose proof (At l e l' [] kv b None Hs Hb (or_introl eq_refl)) as Hp. by rewrite app_nil_r in Hp.
Qed.

Lemma get_key_value_pos s bef kv rest : at_pos s bef (kv :: rest) ->
  exists s', get_key_value r s = (Ok (Some (parsed_kv kv.1 kv.2)), s') /\ at_pos s' bef (kv :: rest) /\
    eof (cursor s') = false /\ is_at_first_key_of_block s' = is_at_first_key_of_block s /\
    current_block_entry s' = current_block_entry s.
Proof.
  intros Hp. inversion Hp as [l e l' a kv' b c Hs Hb Hc E1 E2 E3]; subst.
  eexists. split; [by apply (get_key_value_at e a kv b c (in_split _ _ _ Hs))|]. split; [|done].
  apply At; [done..|by right].
Qed.

(** A step moves on by one record, or ends the file. *)
Lemma next_pos s bef kv rest : at_pos s bef (kv :: rest) ->
  match rest with
  | [] => next r s = (Ok false, set_eof true s)
  | _ => exists s', next r s = (Ok true, s') /\ at_pos s' (bef ++ [kv]) rest
  end.
Proof.
  intros Hp. inversion Hp as [l e l' a kv' b c Hs Hb Hc E1 E2 E3]; subst. clear Hp.
  pose proof (in_split _ _ _ Hs) as He. destruct (read_here e a kv b He Hb) as (_ & Hr & Hz).
  assert (Hnext : next r (at_rec e a c) =
    (if is_valid_offset (block_of (blocks e)) (blen (encode_kvs (a ++ [kv]))) then
       (Ok true, at_rec e (a ++ [kv]) None)
     else match head l' with
          | Some e' => (Ok true, at_rec e' [] None)
          | None => (Ok false, set_eof true (at_rec e a c))
          end)).
  { unfold next. run. cbn [at_rec cursor seeked eof negb orb cached_kv current_block current_block_entry].
    run. step (offset_in_block_at e a c (kv :: b) He Hb).
    assert (Hkv : (match c with Some cached => ret cached | None => lift (read_key_value (block_of (blocks e)) (blen (encode_kvs a))) end)
      (at_rec e a c) = (Ok (parsed_kv kv.1 kv.2), at_rec e a c)).
    { destruct Hc as [->| ->]; [|done]. unfold lift. by rewrite Hr. }
    step Hkv. destruct (record_size (parsed_kv kv.1 kv.2)) as [sz| |] eqn:Hsz; cbn [res_bind] in Hz; [|done..].
    assert (H1 : lift (Ok sz) (at_rec e a c) = (Ok sz, at_rec e a c)) by done. step H1.
    assert (H2 : lift (usize_add (blen (encode_kvs a)) sz) (at_rec e a c) = (Ok (blen (encode_kvs (a ++ [kv]))), at_rec e a c))
      by (unfold lift; by rewrite Hz). step H2.
    destruct (is_valid_offset _ _); [done|]. rewrite (get_next_block_entry_at l e l' Hs).
    assert (H3 : lift (Ok (head l')) (at_rec e a c) = (Ok (head l'), at_rec e a c)) by done. step H3.
    destruct l' as [|e' l']; cbn [head]; [done|].
    assert (He' : e' ∈ es) by (apply (in_split (l ++ [e]) e' l'); by rewrite <- app_assoc).
    rewrite (bind_ok _ _ _ _ _ (enter_block_at e' (at_rec e a c) He' eq_refl eq_refl)). done. }
  rewrite Hnext. clear Hnext. destruct b as [|kv2 b].
  - rewrite <- Hb, past_the_end. destruct l' as [|e' l']; cbn [head app flat map concat]; [done|].
    assert (Hs' : es = (l ++ [e]) ++ e' :: l') by by rewrite <- app_assoc.
    pose proof (block_start _ _ _ Hs') as Hp. rewrite flat_app in Hp. cbn [flat map concat] in Hp.
    rewrite app_nil_r, Hb in Hp. destruct (blocks e' ++ concat (map blocks l')) as [|x y] eqn:E.
    { destruct (fh_some F e' (in_split _ _ _ Hs')) as [Hn _]. by destruct (blocks e'). }
    eexists. split; [done|]. rewrite <- app_assoc. rewrite <- E. done.
  - assert (Hb2 : blocks e = (a ++ [kv]) ++ kv2 :: b) by by rewrite <- app_assoc.
    destruct (read_here e (a ++ [kv]) kv2 b He Hb2) as (-> & _ & _). cbn [app].
    eexists. split; [done|]. rewrite <- app_assoc. by apply (At l e l' (a ++ [kv]) kv2 b None); [| |left].
Qed.

Lemma record_at kv : kv_readable kv -> key_value_to_record (parsed_kv kv.1 kv.2) = Ok (record_of kv).
Proof.
  intros [[Hk Hv] Hr]. unfold key_value_to_record. cbn [parsed_kv kv_key]. rewrite Hr. cbn [res_bind].
  change (mkKeyValue _ _ _ _ _) with (parsed_kv kv.1 kv.2). rewrite parsed_value by done. done.
Qed.

Lemma pos_readable s bef kv rest : at_pos s bef (kv :: rest) -> kv_readable kv.
Proof.
  intros Hp. inversion Hp as [l e l' a kv' b c Hs Hb Hc E1 E2 E3]; subst.
  by apply (kv_in_block e a kv b (in_split _ _ _ Hs)).
Qed.

Lemma pos_not_eof s bef rest : at_pos s bef rest -> eof (cursor s) = false /\ seeked (cursor s) = true.
Proof. by intros []. Qed.

(** ** Iteration *)
Lemma collect_loop_pos rest : forall fuel s bef, at_pos s bef rest -> rest <> [] -> (length rest < fuel)%nat ->
  exists s', collect_loop r fuel s = (Ok (map record_of rest), s').
Proof.
  induction rest as [|kv rest IH]; intros fuel s bef Hp Hn Hf; [done|]. destruct fuel as [|fuel]; [cbn in Hf; lia|].
  cbn [collect_loop]. destruct (pos_not_eof s bef _ Hp) as [Heof _].
  destruct (get_key_value_pos s bef kv rest Hp) as (s1 & Hg & Hp1 & Heof1 & _).
  pose proof (next_pos s1 bef kv rest Hp1) as Hnext. pose proof (record_at kv (pos_readable _ _ _ _ Hp)) as Hrec.
  destruct rest as [|kv2 rest].
  - assert (Hi : iterator_next r s = (Ok (Some (parsed_kv kv.1 kv.2)), set_eof true s1)).
    { unfold iterator_next. run. rewrite Heof. step Hg. by step Hnext. }
    step Hi. unfold lift, call_bind. rewrite Hrec. destruct fuel as [|fuel]; [cbn in Hf; lia|]. by eexists.
  - destruct Hnext as (s2 & Hx & Hp2).
    assert (Hi : iterator_next r s = (Ok (Some (parsed_kv kv.1 kv.2)), s2)).
    { unfold iterator_next. run. rewrite Heof. step Hg. by step Hx. }
    step Hi. destruct (IH fuel s2 (bef ++ [kv]) Hp2) as (s3 & Hc); [done|cbn in *; lia|].
    exists s3. unfold lift at 1. unfold call_bind at 1. rewrite Hrec. by step Hc.
Qed.

(** The end of an empty file, or the first record. *)
Lemma seek_to_first_empty s : es = [] -> exists s', seek_to_first r s = (Ok false, s') /\ eof (cursor s') = true.
Proof.
  intros He. unfold seek_to_first. rewrite (fh_index F), He.
  destruct (entry_count (trailer r) =? 0); by eexists.
Qed.

Lemma seek_to_first_ok s e l : es = e :: l -> seek_to_first r s = (Ok true, at_rec e [] None).
Proof.
  intros Hes. unfold seek_to_first. rewrite (fh_index F). assert (He : e ∈ es) by (rewrite Hes; by left).
  destruct (Z.eqb_spec (entry_count (trailer r)) 0) as [E|_]; [apply (fh_count F) in E; by rewrite E in Hes|].
  assert (Hh : head (keyed es) = Some (first_key e, e)) by by rewrite Hes. rewrite Hh.
  run. step (load_data_block_at e (set_entry (Some e) s) He).
  destruct (fh_offset F e He) as [H0 Hu]. pose proof (blen_nonneg (encode_kvs (blocks e))).
  unfold lift, call_bind. rewrite usize_add_ok by lia. unfold update, ret, set_cursor, set_block, set_entry, at_rec. cbn.
  change (blen (encode_kvs [])) with 0. by rewrite Z.add_0_r.
Qed.

Lemma first_pos s e l : es = e :: l -> exists s', seek_to_first r s = (Ok true, s') /\ at_pos s' [] (flat es) /\
  is_at_first_key_of_block s' = true /\ eof (cursor s') = false.
Proof.
  intros Hes. eexists. split; [by apply (seek_to_first_ok s e l)|]. split; [|split; [|done]].
  - pose proof (block_start [] e l Hes) as Hp. rewrite Hes. exact Hp.
  - unfold is_at_first_key_of_block. cbn [at_rec current_block_entry cursor c_offset].
    change (blen (encode_kvs [])) with 0. rewrite Z.add_0_r. apply Z.eqb_refl.
Qed.

Lemma collect_records_ok fuel s : (length (flat es) < fuel)%nat ->
  exists s', collect_records r fuel s = (Ok (map record_of (flat es)), s').
Proof.
  intros Hf. unfold collect_records. destruct es as [|e l] eqn:Hes.
  - destruct (seek_to_first_empty s Hes) as (s' & Hs & Heof). step Hs. destruct fuel as [|fuel]; [cbn in Hf; lia|].
    cbn [collect_loop]. exists s'. unfold iterator_next, call_bind, get. by rewrite Heof.
  - destruct (first_pos s e l Hes) as (s' & Hs & Hp & _). step Hs. rewrite <- Hes in Hf |- *.
    apply (collect_loop_pos (flat es) fuel s' []); [done| |done]. rewrite Hes. cbn. intros E. apply app_eq_nil in E as [E _].
    by destruct (fh_some F e ltac:(rewrite Hes; by left)).
Qed.

(** ** Scans *)
Definition below (k : bytes) (kv : bytes * bytes) : Prop := bytes_lt (ck kv) k.

Lemma compare_at kv k : kv_readable kv -> compare_keys (kv_key (parsed_kv kv.1 kv.2)) k = Ok (bytes_cmp (ck kv) k).
Proof. intros [_ Hr]. unfold compare_keys. cbn [parsed_kv kv_key]. rewrite Hr. done. Qed.

(** What a scan knows of the last record it passed, if it passed one. *)
Definition last_passed (a low : list (bytes * bytes)) (lo : Z) (lkv : option KeyValue) : Z * option KeyValue :=
  match list.last low with
  | Some kv => (blen (encode_kvs (a ++ removelast low)), Some (parsed_kv kv.1 kv.2))
  | None => (lo, lkv)
  end.

Lemma last_passed_cons a kv low lo lkv :
  last_passed (a ++ [kv]) low (blen (encode_kvs a)) (Some (parsed_kv kv.1 kv.2)) = last_passed a (kv :: low) lo lkv.
Proof.
  unfold last_passed. destruct low as [|kv2 low]; cbn [list.last removelast]; [by rewrite app_nil_r|].
  destruct (last_is_Some (kv2 :: low)) as [_ [x Hx]]; [done|]. rewrite Hx. by rewrite <- app_assoc.
Qed.

Lemma scan_loop_at e k low : e ∈ es -> forall a high fuel lo lkv,
  blocks e = a ++ low ++ high -> Forall (below k) low ->
  Forall (fun kv => bytes_le k (ck kv)) (take 1 high) -> (length low < fuel)%nat ->
  scan_loop fuel (block_of (blocks e)) k (blen (encode_kvs a)) lo lkv =
  Ok (match high with
      | [] => ScanPast (last_passed a low lo lkv).1 (last_passed a low lo lkv).2
      | kv :: _ =>
          if decide (ck kv = k) then ScanFound (blen (encode_kvs (a ++ low))) (parsed_kv kv.1 kv.2)
          else ScanAbove (last_passed a low lo lkv).1 (last_passed a low lo lkv).2
      end).
Proof.
  intros He. induction low as [|kv low IH]; intros a high fuel lo lkv Hb Hlow Hhigh Hf;
    (destruct fuel as [|fuel]; [cbn in Hf; lia|]); cbn [scan_loop].
  - cbn [app] in Hb. destruct high as [|kv high].
    + rewrite app_nil_r in Hb. rewrite <- Hb, past_the_end. done.
    + destruct (read_here e a kv high He Hb) as (-> & -> & _). cbn [res_bind].
      rewrite compare_at by (by eapply kv_in_block). cbn [res_bind]. cbn [firstn] in Hhigh.
      apply Forall_cons_1 in Hhigh as [Hle _]. pose proof (bytes_cmp_cases (ck kv) k) as Hc.
      destruct (bytes_cmp (ck kv) k).
      * rewrite decide_True by done. by rewrite app_nil_r.
      * destruct (bytes_lt_irrefl (ck kv)). by apply (bytes_lt_le_trans _ k).
      * rewrite decide_False; [done|]. intros E. rewrite E in Hc. by apply bytes_lt_irrefl in Hc.
  - cbn [app] in Hb. apply Forall_cons_1 in Hlow as [Hlt Hlow].
    destruct (read_here e a kv (low ++ high) He Hb) as (-> & -> & Hz). cbn [res_bind].
    rewrite compare_at by (by eapply kv_in_block). cbn [res_bind]. unfold below, bytes_lt in Hlt. rewrite Hlt.
    destruct (record_size _) as [sz| |]; cbn [res_bind] in Hz |- *; [|done..]. rewrite Hz. cbn [res_bind].
    rewrite (IH (a ++ [kv]) high); [|by rewrite <- app_assoc|done|done|cbn in Hf; lia]. rewrite (last_passed_cons a kv low lo lkv).
    by rewrite <- app_assoc.
Qed.

(** Where a scan for a key leaves the reader: at the record with the key, if there
    is one; else next to its place, or at the end of the file. *)
Inductive scanned (k : bytes) (bef rest : list (bytes * bytes)) : SeekResult -> SeekState -> Prop :=
  | scanned_found low kv high s :
      rest = low ++ kv :: high -> Forall (below k) low -> ck kv = k ->
      at_pos s (bef ++ low) (kv :: high) -> scanned k bef rest Found s
  | scanned_above low kv high res s bef' rest' :
      rest = low ++ kv :: high -> Forall (below k) low -> bytes_lt k (ck kv) ->
      res = BeforeBlockFirstKey \/ res = InRange ->
      at_pos s bef' rest' ->
      (bef' = bef ++ low /\ is_at_first_key_of_block s = true) \/ (exists low' x, low = low' ++ [x] /\ bef' = bef ++ low') ->
      scanned k bef rest res s
  | scanned_eof s :
      Forall (below k) rest -> eof (cursor s) = true -> seeked (cursor s) = true -> scanned k bef rest Eof s.

(** A scan that passes a whole block. *)
Lemma scanned_more k bef rest pre res s : Forall (below k) pre ->
  scanned k (bef ++ pre) rest res s -> scanned k bef (pre ++ rest) res s.
Proof.
  intros Hpre [low kv high s1 -> Hl Hk Hp|low kv high r1 s1 b1 r2 -> Hl Hk Hr Hp Ha|s1 Hl He Hs].
  - apply (scanned_found _ _ _ (pre ++ low) kv high); [by rewrite app_assoc|by apply list.Forall_app|done|by rewrite app_assoc].
  - apply (scanned_above _ _ _ (pre ++ low) kv high _ _ b1 r2); [by rewrite app_assoc|by apply list.Forall_app|done..|].
    destruct Ha as [[-> Ha]|(low' & x & -> & ->)]; [left|right].
    + by rewrite app_assoc.
    + exists (pre ++ low'), x. by rewrite !app_assoc.
  - apply scanned_eof; [by apply list.Forall_app|done..].
Qed.

Lemma split_below k rest : exists low high, rest = low ++ high /\ Forall (below k) low /\
  Forall (fun kv => bytes_le k (ck kv)) (take 1 high).
Proof.
  induction rest as [|kv rest (low & high & -> & Hl & Hh)]; [by exists [], []|].
  destruct (decide (bytes_lt (ck kv) k)) as [Hd|Hd].
  - exists (kv :: low), high. split; [done|]. split; [by constructor|done].
  - exists [], (kv :: low ++ high). apply bytes_not_lt in Hd. split; [done|]. split; [constructor|]. by constructor.
Qed.

Definition cache_of_head (cur : list (bytes * bytes)) (c : option KeyValue) : Prop :=
  c = None \/ exists kv, head cur = Some kv /\ c = Some (parsed_kv kv.1 kv.2).

Lemma last_passed_nil a lo lkv : last_passed a [] lo lkv = (lo, lkv).
Proof. done. Qed.

Lemma last_passed_snoc a low x lo lkv :
  last_passed a (low ++ [x]) lo lkv = (blen (encode_kvs (a ++ low)), Some (parsed_kv x.1 x.2)).
Proof. unfold last_passed. by rewrite last_snoc, removelast_last. Qed.

(** The part of a scan within one block, when it ends there. *)
Lemma scan_ends_at k l e l' a low kv high c fuel :
  es = l ++ e :: l' -> blocks e = a ++ low ++ kv :: high -> Forall (below k) low -> bytes_le k (ck kv) ->
  cache_of_head (low ++ kv :: high) c -> a = [] \/ low <> [] ->
  exists res s', scan_blocks r (S fuel) k (at_rec e a c) = (Ok res, s') /\
    scanned k (flat l ++ a) ((low ++ kv :: high) ++ flat l') res s'.
Proof.
  intros Hs Hb Hlow Hle Hc Ha. pose proof (in_split _ _ _ Hs) as He. cbn [scan_blocks]. run.
  cbn [at_rec current_block current_block_entry]. run. step (offset_in_block_at e a c (low ++ kv :: high) He Hb).
  assert (Hscan := scan_loop_at e k low He a (kv :: high) (S (Z.to_nat (content_end (block_of (blocks e)))))
    (blen (encode_kvs a)) c Hb Hlow (Forall_cons_2 _ kv [] Hle (Forall_nil_2 _))).
  assert (Hfuel : (length low < S (Z.to_nat (content_end (block_of (blocks e)))))%nat).
  { cbn [block_of content_end]. unfold blen. rewrite Nat2Z.id. pose proof (length_encode_kvs (blocks e)) as Hl.
    rewrite Hb in Hl |- *. rewrite !length_app in Hl. lia. }
  specialize (Hscan Hfuel). cbn [cached_kv cursor at_rec].
  erewrite bind_ok by (unfold lift; rewrite Hscan; reflexivity). rewrite <- app_assoc. cbn [app].
  destruct (decide (ck kv = k)) as [Ek|Ek].
  { run. exists Found. eexists. split; [done|]. apply (scanned_found _ _ _ low kv (high ++ flat l')); [done|done|done|].
    rewrite <- app_assoc. apply (At l e l' (a ++ low) kv high); [done|by rewrite <- app_assoc|by right]. }
  assert (Hlt : bytes_lt k (ck kv)).
  { apply bytes_le_lt_or_eq in Hle as [|E]; [done|]. by rewrite E in Ek. }
  destruct low as [|x low _] using rev_ind.
  - destruct Ha as [->|Ha]; [|done]. rewrite last_passed_nil. cbn [fst snd].
    assert (Hsame : (match c with Some prev_kv => update (move_to (entry_offset e + BLOCK_HEADER_SIZE + blen (encode_kvs [])) (Some prev_kv))
      | None => ret tt end) (at_rec e [] c) = (Ok tt, at_rec e [] c)) by by destruct c.
    step Hsame. run. eexists _, _. split; [done|].
    assert (Hat : is_at_first_key_of_block (at_rec e [] c) = true).
    { unfold is_at_first_key_of_block. cbn [at_rec current_block_entry cursor c_offset].
      change (blen (encode_kvs [])) with 0. rewrite Z.add_0_r. apply Z.eqb_refl. }
    rewrite Hat. apply (scanned_above _ _ _ [] kv (high ++ flat l') _ _ (flat l ++ []) (kv :: high ++ flat l'));
      [done|exact Hlow|exact Hlt|by left| |left; split; [by rewrite !app_nil_r|exact Hat]].
    apply (At l e l' [] kv high); [done|done|]. destruct Hc as [->|(kv' & [= <-] & ->)]; [by left|by right].
  - rewrite last_passed_snoc. cbn [fst snd]. run. run. eexists _, _. split; [done|].
    apply (scanned_above _ _ _ (low ++ [x]) kv (high ++ flat l') _ _ (flat l ++ a ++ low) (x :: kv :: high ++ flat l'));
      [done|done|done|destruct (is_at_first_key_of_block _); auto| |right; exists low, x; by rewrite <- app_assoc].
    apply (At l e l' (a ++ low) x (kv :: high)); [done| |by right]. rewrite Hb. by rewrite <- !app_assoc.
Qed.

Lemma scan_blocks_at k l' : forall l e a cur c fuel,
  es = l ++ e :: l' -> blocks e = a ++ cur -> cur <> [] -> cache_of_head cur c ->
  a = [] \/ (exists kv, head cur = Some kv /\ below k kv) -> (length l' < fuel)%nat ->
  exists res s', scan_blocks r fuel k (at_rec e a c) = (Ok res, s') /\
    scanned k (flat l ++ a) (cur ++ flat l') res s'.
Proof.
  induction l' as [|e' l' IH]; intros l e a cur c fuel Hs Hb Hn Hc Ha Hf;
    (destruct fuel as [|fuel]; [cbn in Hf; lia|]); destruct (split_below k cur) as (low & high & -> & Hlow & Hhigh);
    (destruct high as [|kv high]; [|apply scan_ends_at; [done|done|done|by apply Forall_cons_1 in Hhigh as [? _]|done|]];
     [|destruct Ha as [->|(x & Hx & Hxk)]; [by left|right]; intros ->; cbn in Hx; injection Hx as ->;
       apply Forall_cons_1 in Hhigh as [Hle _]; by destruct (bytes_lt_irrefl k (bytes_le_lt_trans _ _ _ Hle Hxk))]);
    rewrite app_nil_r in *; pose proof (in_split _ _ _ Hs) as He; cbn [scan_blocks]; run;
    cbn [at_rec current_block current_block_entry]; run; step (offset_in_block_at e a c low He Hb);
    assert (Hscan := scan_loop_at e k low He a [] (S (Z.to_nat (content_end (block_of (blocks e)))))
      (blen (encode_kvs a)) c ltac:(by rewrite app_nil_r) Hlow (Forall_nil_2 _));
    (assert (Hfuel : (length low < S (Z.to_nat (content_end (block_of (blocks e)))))%nat);
     [cbn [block_of content_end]; unfold blen; rewrite Nat2Z.id; pose proof (length_encode_kvs (blocks e)) as Hl;
      rewrite Hb in Hl |- *; rewrite length_app in Hl; lia|]);
    specialize (Hscan Hfuel); cbn [cached_kv cursor at_rec];
    erewrite bind_ok by (unfold lift; rewrite Hscan; reflexivity); cbv beta iota;
    erewrite bind_ok by (unfold lift; rewrite (get_next_block_entry_at _ _ _ Hs); reflexivity); cbn [head]; cbv beta iota.
  - destruct low as [|x low _] using rev_ind; [done|]. rewrite last_passed_snoc. cbn [snd]. cbv beta iota.
    apply list.Forall_app in Hlow as [Hlow Hx]. pose proof Hx as [Hxk _]%Forall_cons_1.
    assert (Hr : kv_readable x) by (apply (kv_in_block e (a ++ low) x []); [done|by rewrite Hb, <- app_assoc]).
    erewrite bind_ok by (unfold lift; rewrite (compare_at x k Hr); reflexivity).
    unfold below, bytes_lt in Hxk. rewrite Hxk. run. eexists _, _. split; [done|]. rewrite app_nil_r.
    apply scanned_eof; [by apply list.Forall_app|done|done].
  - assert (Hs' : es = (l ++ [e]) ++ e' :: l') by by rewrite <- app_assoc.
    pose proof (in_split _ _ _ Hs') as He'.
    step (enter_block_at e' (at_rec e a c) He' eq_refl eq_refl).
    destruct (IH (l ++ [e]) e' [] (blocks e') None fuel Hs' eq_refl) as (res & s' & Hsc & Hpost);
      [by apply (fh_some F)|by left|by left|cbn in Hf; lia|].
    exists res, s'. split; [done|]. rewrite flat_cons. apply scanned_more; [done|].
    rewrite flat_app, app_nil_r in Hpost. cbn [flat map concat] in Hpost. rewrite app_nil_r, Hb in Hpost.
    by rewrite <- app_assoc.
Qed.

(** ** Seeks *)

(** A lookup key whose own bytes, read as a key with its length prefix, make a
    content below it; so for every key that does not begin with a NUL byte and is
    not very long. *)
Definition probe_ok (k : bytes) : Prop :=
  readable (key_from_bytes k) /\ (k = [] \/ bytes_lt (content_of (key_from_bytes k)) k).

Lemma next_key_at l e l' : es = l ++ e :: l' -> next_block_first_key e = first_key <$> head l'.
Proof.
  destruct (fh_next F) as [base Hb]. rewrite Hb. clear. revert l. induction base as [|x base IH]; intros [|y l] E; cbn in E.
  - done.
  - done.
  - injection E as <- <-. cbn. by destruct base.
  - injection E as _ E. by apply (IH l).
Qed.

Lemma entry_readable l e l' : es = l ++ e :: l' -> readable (first_key e).
Proof.
  intros Hs. pose proof (io_readable _ (iw_ok _ _ (fh_wf F))) as Hr. rewrite (keyed_split l e l' Hs) in Hr.
  apply list.Forall_app in Hr as [_ Hr]. by apply Forall_cons_1 in Hr as [? _].
Qed.

Lemma separators_increase l e l' e' : es = l ++ e :: l' -> e' ∈ l' ->
  bytes_lt (content_of (first_key e)) (content_of (first_key e')).
Proof.
  intros Hs He'. apply (sorted_after (keyed es) (keyed l) (first_key e, e) (keyed l') (first_key e', e'));
    [apply (iw_ok _ _ (fh_wf F))|by apply keyed_split|]. apply list_elem_of_fmap. by exists e'.
Qed.

(** Everything before a block is at or below its separator. *)
Lemma before_block l e l' : es = l ++ e :: l' ->
  Forall (fun kv => bytes_le (ck kv) (content_of (first_key e))) (flat l).
Proof.
  intros Hs. apply list.Forall_forall. intros kv Hkv. unfold flat in Hkv.
  apply list_elem_of_In, in_concat in Hkv as (b & Hb & Hkv). apply in_map_iff in Hb as (d & <- & Hd).
  apply list_elem_of_In, list_elem_of_split in Hd as (l1 & l2 & ->). apply list_elem_of_In in Hkv.
  assert (Hd : es = l1 ++ d :: l2 ++ e :: l') by by rewrite Hs, <- app_assoc.
  destruct (iw_keys _ _ (fh_wf F) (keyed l1) (first_key d, d) (keyed (l2 ++ e :: l')) (ck kv)) as [_ Hn].
  - by apply keyed_split.
  - apply list_elem_of_fmap. by exists kv.
  - destruct l2 as [|f l2]; cbn in Hn; apply Forall_cons_1 in Hn as [Hn _]; [done|].
    apply bytes_le_trans with (content_of (first_key f)); [done|]. apply bytes_lt_le.
    apply (separators_increase (l1 ++ [d]) f (l2 ++ e :: l')); [by rewrite <- app_assoc|].
    apply elem_of_app. right. by left.
Qed.

Lemma scan_here k l e l' a cur c : es = l ++ e :: l' -> blocks e = a ++ cur -> cur <> [] -> cache_of_head cur c ->
  a = [] \/ (exists kv, head cur = Some kv /\ below k kv) ->
  exists res s', scan_block_for_key r k (at_rec e a c) = (Ok res, s') /\
    scanned k (flat l ++ a) (cur ++ flat l') res s'.
Proof.
  intros Hs Hb Hn Hc Ha. apply scan_blocks_at; [done..|]. rewrite (fh_index F), (keyed_split l e l' Hs).
  rewrite length_app. unfold keyed. cbn [length]. rewrite !length_map. lia.
Qed.

Definition sought (k : bytes) (res : SeekResult) (s : SeekState) : Prop :=
  exists bef rest, bef ++ rest = flat es /\ Forall (below k) bef /\ scanned k bef rest res s.

(** A jump to the block of the probe, when there is one. *)
Lemma find_block_ok k s : probe_ok k -> k <> [] -> eof (cursor s) = false -> seeked (cursor s) = true ->
  find_block_for_key r k s = (Ok tt, s) \/
  exists l e l', es = l ++ e :: l' /\ Forall (below k) (flat l) /\
    find_block_for_key r k s = (Ok tt, at_rec e [] None).
Proof.
  intros [Hr [?|Hc]] Hk Heof Hsk; [done|]. unfold find_block_for_key. rewrite (fh_index F).
  destruct (index_upto_spec (keyed es) _ Hr (iw_ok _ _ (fh_wf F))) as (m1 & m2 & Hm & Hle & _ & Hu).
  erewrite bind_ok by (unfold lift; rewrite Hu; reflexivity).
  destruct m1 as [|x m1 _] using rev_ind; [by left|right]. rewrite last_snoc. destruct x as [k' e].
  rewrite <- app_assoc in Hm. cbn [app] in Hm. unfold keyed in Hm. apply map_eq_app in Hm as (l & l2 & -> & <- & Hm).
  apply map_eq_cons in Hm as (e2 & l' & -> & Ee & <-). injection Ee as <- <-.
  exists l, e2, l'. split; [done|]. split.
  - apply list.Forall_app in Hle as [_ Hle]. apply Forall_cons_1 in Hle as [Hle _]. unfold sep in Hle. cbn [fst] in Hle.
    apply (list.Forall_impl (fun kv => bytes_le (ck kv) (content_of (first_key e2)))); [by apply before_block with l'|].
    intros kv Hkv. unfold below. apply bytes_le_lt_trans with (content_of (first_key e2)); [done|].
    by apply bytes_le_lt_trans with (content_of (key_from_bytes k)).
  - apply enter_block_at; [|done|done]. by apply (in_split l e2 l').
Qed.

Lemma forward_seek_ok k l e l' a kv b c :
  es = l ++ e :: l' -> blocks e = a ++ kv :: b -> cache_of kv c -> below k kv ->
  Forall (below k) (flat l ++ a) -> probe_ok k ->
  exists res s', forward_seek r k (at_rec e a c) = (Ok res, s') /\ sought k res s'.
Proof.
  intros Hs Hb Hc Hkv Hbef Hp.
  assert (Hk : k <> []) by (intros ->; by apply bytes_not_lt_nil in Hkv).
  assert (Hhere : exists res s', scan_block_for_key r k (at_rec e a c) = (Ok res, s') /\ sought k res s').
  { destruct (scan_here k l e l' a (kv :: b) c Hs Hb) as (res & s' & Hsc & Hpost); [done| |right; by exists kv|].
    - destruct Hc as [->| ->]; [by left|right; by exists kv].
    - exists res, s'. split; [done|]. exists (flat l ++ a), (kv :: b ++ flat l'). split; [|done].
      rewrite Hs, flat_app, flat_cons, Hb. by rewrite <- !app_assoc. }
  unfold forward_seek. run. cbn [at_rec current_block_entry]. rewrite (next_key_at l e l' Hs).
  destruct l' as [|e' l']; cbn [head fmap option_fmap option_map].
  - destruct (last_key r) as [lk|] eqn:Hlast; [|by run].
    destruct (fh_last F lk Hlast) as [Hr Hall]. unfold compare_keys. rewrite Hr. cbn [res_bind]. run.
    destruct (bytes_cmp (content_of lk) k) eqn:Hcmp; [done| |done]. run. eexists _, _. split; [done|].
    exists (flat es), []. split; [apply app_nil_r|]. split; [|by apply scanned_eof].
    apply (list.Forall_impl _ _ _ Hall). intros x Hx. by apply bytes_le_lt_trans with (content_of lk).
  - assert (Hs' : es = (l ++ [e]) ++ e' :: l') by by rewrite <- app_assoc.
    unfold compare_keys. rewrite (entry_readable _ _ _ Hs'). cbn [res_bind]. run.
    destruct (find_block_ok k (at_rec e a c) Hp Hk eq_refl eq_refl) as [Hf|(l2 & e2 & l2' & Hs2 & Hbel & Hf)].
    + assert (Hj : forall cmp : comparison, (match cmp with Gt => ret tt | _ => find_block_for_key r k end) (at_rec e a c) =
        (Ok tt, at_rec e a c)) by (intros []; done). by step (Hj (bytes_cmp (content_of (first_key e')) k)).
    + assert (Hjump : exists res s', scan_block_for_key r k (at_rec e2 [] None) = (Ok res, s') /\ sought k res s').
      { destruct (scan_here k l2 e2 l2' [] (blocks e2) None Hs2 eq_refl) as (res & s' & Hsc & Hpost);
          [by apply (fh_some F), (in_split _ _ _ Hs2)|by left|by left|].
        exists res, s'. split; [done|]. exists (flat l2), (blocks e2 ++ flat l2'). rewrite app_nil_r in Hpost.
        split; [by rewrite Hs2, flat_app, flat_cons|done]. }
      destruct (bytes_cmp (content_of (first_key e')) k); [by step Hf|by step Hf|by run].
Qed.

(** Ready for a key: at a record at or below it, or first in its block, with the
    records before it below the key; or at the end, past every record. *)
Inductive ready (k : bytes) (s : SeekState) : Prop :=
  | ready_at bef kv rest :
      at_pos s bef (kv :: rest) -> Forall (below k) bef ->
      bytes_le (ck kv) k \/ is_at_first_key_of_block s = true -> ready k s
  | ready_end :
      eof (cursor s) = true -> seeked (cursor s) = true -> Forall (below k) (flat es) -> ready k s.

(** What a seek comes to. *)
Inductive outcome (k : bytes) : SeekResult -> SeekState -> Prop :=
  | out_found bef kv rest s :
      at_pos s bef (kv :: rest) -> Forall (below k) bef -> ck kv = k -> outcome k Found s
  | out_missing res bef kv rest s :
      res <> Found -> res <> Eof -> at_pos s bef (kv :: rest) -> Forall (below k) bef ->
      bytes_le (ck kv) k \/ is_at_first_key_of_block s = true ->
      Forall (fun x => ck x <> k) (flat es) -> outcome k res s
  | out_eof s :
      eof (cursor s) = true -> seeked (cursor s) = true -> Forall (below k) (flat es) -> outcome k Eof s.

Lemma below_not k x : below k x -> ck x <> k.
Proof. intros H E. unfold below in H. rewrite E in H. by apply bytes_lt_irrefl in H. Qed.

Lemma sorted_from bef kv rest : bef ++ kv :: rest = flat es -> Forall (fun x => bytes_le (ck kv) (ck x)) (kv :: rest).
Proof.
  intros E. pose proof (fh_sorted F) as Hs. rewrite <- E in Hs. apply StronglySorted_app in Hs as (_ & _ & Hs).
  apply StronglySorted_inv in Hs as [_ Hs]. constructor; [apply bytes_le_refl|done].
Qed.

Lemma not_among k bef kv rest : bef ++ kv :: rest = flat es -> Forall (below k) bef -> bytes_lt k (ck kv) ->
  Forall (fun x => ck x <> k) (flat es).
Proof.
  intros E Hb Hk. rewrite <- E. apply list.Forall_app. split.
  - apply (list.Forall_impl _ _ _ Hb). apply below_not.
  - apply (list.Forall_impl _ _ _ (sorted_from _ _ _ E)). intros x Hx Ex. rewrite Ex in Hx.
    apply (bytes_lt_irrefl k). by apply (bytes_lt_le_trans _ (ck kv)).
Qed.

Lemma pos_some s bef rest : at_pos s bef rest -> exists kv rest', rest = kv :: rest'.
Proof. intros [l e l' a kv b c Hs Hb Hc]. by eexists _, _. Qed.

Lemma sought_outcome k res s : sought k res s -> outcome k res s.
Proof.
  intros (bef & rest & E & Hbef & Hsc). destruct Hsc as [low kv high s -> Hl Hk Hp|low kv high res s bef' rest' -> Hl Hk Hr Hp Ha|s Hl He Hs].
  - apply (out_found k (bef ++ low) kv high); [done|by apply list.Forall_app|done].
  - destruct (pos_some _ _ _ Hp) as (x & rest2 & ->). pose proof (at_pos_flat _ _ _ Hp) as E2.
    assert (Hmiss : Forall (fun x => ck x <> k) (flat es)).
    { apply (not_among k (bef ++ low) kv high); [by rewrite <- app_assoc|by apply list.Forall_app|done]. }
    apply (out_missing k res bef' x rest2); [by destruct Hr as [-> | ->]|by destruct Hr as [-> | ->]|done| | |done].
    + destruct Ha as [[-> _]|(low' & y & -> & ->)]; [by apply list.Forall_app|].
      apply list.Forall_app in Hl as [Hl _]. by apply list.Forall_app.
    + destruct Ha as [[_ Ha]|(low' & y & -> & ->)]; [by right|left].
      rewrite <- E, <- !app_assoc in E2. apply app_inv_head, app_inv_head in E2. injection E2 as -> _.
      apply list.Forall_app in Hl as [_ Hl]. apply Forall_cons_1 in Hl as [Hy _]. by apply bytes_lt_le.
  - apply out_eof; [done|done|]. rewrite <- E. by apply list.Forall_app.
Qed.

Lemma at_block_entry s bef rest : at_pos s bef rest ->
  exists e, current_block_entry s = Some e /\ readable (first_key e).
Proof.
  intros [l e l' a kv b c Hs Hb Hc]. exists e. split; [done|by apply (entry_readable l e l')].
Qed.

Lemma seek_to_ok k s : es <> [] -> ready k s -> probe_ok k ->
  exists res s', seek_to r k s = (Ok res, s') /\ outcome k res s'.
Proof.
  intros Hn Hready Hp. unfold seek_to. run.
  assert (Hz : (entry_count (trailer r) =? 0) = false) by (apply Z.eqb_neq; intros E; by apply (fh_count F) in E).
  destruct Hready as [bef kv rest Hpos Hbef Hat|Heof Hsk Hall].
  - destruct (pos_not_eof _ _ _ Hpos) as [_ Hsk]. rewrite Hsk, Hz. run.
    destruct (get_key_value_pos s bef kv rest Hpos) as (s1 & Hg & Hpos1 & _ & Hfirst & _). step Hg.
    erewrite bind_ok by (unfold lift; rewrite (compare_at kv k (pos_readable _ _ _ _ Hpos)); reflexivity).
    pose proof (bytes_cmp_cases (ck kv) k) as Hc. destruct (bytes_cmp (ck kv) k).
    + exists Found, s1. split; [done|]. by apply (out_found k bef kv rest).
    + inversion Hpos1 as [l e l' a kv' b c Hs Hb Hcache E1 E2 E3]; subst.
      destruct (forward_seek_ok k l e l' a kv b c Hs Hb Hcache Hc Hbef Hp) as (res & s' & Hf & Hso).
      exists res, s'. split; [done|by apply sought_outcome].
    + assert (Hf : is_at_first_key_of_block s1 = true).
      { rewrite Hfirst. destruct Hat as [Hle|]; [|done]. destruct (bytes_lt_irrefl k). by apply (bytes_lt_le_trans _ (ck kv)). }
      run. rewrite Hf. destruct (at_block_entry _ _ _ Hpos1) as (e & -> & Hr).
      assert (Hmiss : forall res, res = BeforeBlockFirstKey \/ res = BeforeFileFirstKey -> outcome k res s1).
      { intros res Hres. apply (out_missing k res bef kv rest); [by destruct Hres as [-> | ->]|by destruct Hres as [-> | ->]|done|done|by right|].
        apply (not_among k bef kv rest); [by apply (at_pos_flat s1)|done|done]. }
      unfold compare_keys. rewrite Hr. cbn [res_bind]. run.
      assert (Hh : bool_decide (is_Some (head (data_block_index r))) = true).
      { apply bool_decide_eq_true. rewrite (fh_index F). by destruct es; [|eexists]. }
      rewrite Hh. cbn [andb]. destruct (bytes_cmp (content_of (first_key e)) k); eexists _, _;
        (split; [reflexivity|apply Hmiss; auto]).
  - rewrite Hsk, Hz. run. assert (Hg : get_key_value r s = (Ok None, s)).
    { unfold get_key_value. run. by rewrite Hsk, Heof. }
    step Hg. exists Eof, s. split; [done|by apply out_eof].
Qed.

(** ** Lookups *)
Definition first_record (k : bytes) : option HFileRecord :=
  record_of <$> List.find (fun kv => bool_decide (ck kv = k)) (flat es).

Lemma find_at k bef kv rest : bef ++ kv :: rest = flat es -> Forall (below k) bef -> ck kv = k ->
  first_record k = Some (record_of kv).
Proof.
  intros E Hb Hk. unfold first_record. rewrite <- E. clear E. induction Hb as [|x bef Hx _ IH]; cbn [app List.find].
  - by rewrite bool_decide_true.
  - rewrite bool_decide_false by (by apply below_not). apply IH.
Qed.

Lemma find_none k : Forall (fun x => ck x <> k) (flat es) -> first_record k = None.
Proof.
  intros H. unfold first_record. induction H as [|x l Hx _ IH]; [done|]. cbn [List.find].
  by rewrite bool_decide_false.
Qed.

Lemma ready_mono k k' s : bytes_le k k' -> ready k s -> ready k' s.
Proof.
  intros Hle [bef kv rest Hp Hb Ha|He Hs Hb].
  - apply (ready_at k' s bef kv rest); [done| |].
    + apply (list.Forall_impl _ _ _ Hb). intros x Hx. by apply bytes_lt_le_trans with k.
    + destruct Ha as [Ha|]; [left|by right]. by apply bytes_le_trans with k.
  - apply ready_end; [done|done|]. apply (list.Forall_impl _ _ _ Hb). intros x Hx. by apply bytes_lt_le_trans with k.
Qed.

Lemma lookup_one_ok k s : es <> [] -> ready k s -> probe_ok k ->
  exists s', lookup_one r k s = (Ok (k, first_record k), s') /\ ready k s'.
Proof.
  intros Hn Hr Hp. unfold lookup_one. destruct (seek_to_ok k s Hn Hr Hp) as (res & s1 & Hs & Ho). step Hs.
  destruct Ho as [bef kv rest s1 Hpos Hb Hk|res bef kv rest s1 Hnf Hne Hpos Hb Ha Hmiss|s1 He Hsk Hall].
  - destruct (get_key_value_pos s1 bef kv rest Hpos) as (s2 & Hg & Hpos2 & _).
    assert (Hrec : get_record r s1 = (Ok (Some (record_of kv)), s2)).
    { unfold get_record. step Hg. unfold lift, call_bind. by rewrite (record_at kv (pos_readable _ _ _ _ Hpos)). }
    step Hrec. exists s2. rewrite (find_at k bef kv rest) by (by try apply (at_pos_flat s1)). split; [done|].
    apply (ready_at k s2 bef kv rest); [done|done|left]. rewrite Hk. apply bytes_le_refl.
  - exists s1. rewrite (find_none k Hmiss). split; [by destruct res|]. by apply (ready_at k s1 bef kv rest).
  - exists s1. rewrite (find_none k); [split; [done|by apply ready_end]|].
    apply (list.Forall_impl _ _ _ Hall). apply below_not.
Qed.

Lemma lookup_loop_ok keys : es <> [] -> forall s, StronglySorted bytes_le keys -> Forall probe_ok keys ->
  Forall (fun k => ready k s) (take 1 keys) ->
  exists s', lookup_loop r keys s = (Ok (map (fun k => (k, first_record k)) keys), s').
Proof.
  intros Hn. induction keys as [|k keys IH]; intros s Hs Hp Hr; cbn [lookup_loop]; [by exists s|].
  apply StronglySorted_inv in Hs as [Hs Hk]. apply Forall_cons_1 in Hp as [Hpk Hp]. apply Forall_cons_1 in Hr as [Hrk _].
  destruct (lookup_one_ok k s Hn Hrk Hpk) as (s1 & H1 & Hr1). step H1.
  destruct (IH s1 Hs Hp) as (s2 & H2).
  { destruct keys as [|k2 keys]; [constructor|]. apply Forall_cons_1 in Hk as [Hk _]. cbn. constructor; [|constructor].
    by apply ready_mono with k. }
  step H2. by exists s2.
Qed.

Lemma lookup_records_ok keys s : StronglySorted bytes_le keys -> Forall probe_ok keys ->
  exists s', lookup_records r keys s = (Ok (map (fun k => (k, first_record k)) keys), s').
Proof.
  intros Hs Hp. unfold lookup_records. destruct keys as [|k keys]; [by exists s|].
  destruct (decide (es = [])) as [He|He].
  - destruct (seek_to_first_empty s He) as (s1 & H1 & Heof). step H1. run. rewrite Heof.
    exists s1. unfold ret. do 2 f_equal. unfold first_record. by rewrite He.
  - destruct es as [|e l] eqn:Hes; [done|]. destruct (first_pos s e l Hes) as (s1 & H1 & Hpos & Hfirst & Heof).
    step H1. run. rewrite Heof. rewrite <- Hes in *. apply lookup_loop_ok; [by rewrite Hes|done|done|].
    constructor; [|constructor]. destruct (pos_some _ _ _ Hpos) as (kv & rest & E). rewrite E in Hpos.
    by apply (ready_at k s1 [] kv rest); [|constructor|right].
Qed.

(** ** Prefixes *)
Definition with_prefix (p : bytes) (kvs : list (bytes * bytes)) : list (bytes * bytes) :=
  List.filter (fun kv => starts_with p (ck kv)) kvs.

Lemma with_prefix_none p kvs : Forall (fun kv => ~ p `prefix_of` ck kv) kvs -> with_prefix p kvs = [].
Proof.
  induction 1 as [|kv kvs Hkv _ IH]; [done|]. unfold with_prefix, starts_with in *. cbn [List.filter].
  by rewrite bool_decide_false.
Qed.

Lemma below_no_prefix p kvs : Forall (below p) kvs -> with_prefix p kvs = [].
Proof.
  intros H. apply with_prefix_none, (list.Forall_impl _ _ _ H). intros kv Hkv Hpre. apply prefix_le in Hpre.
  apply (bytes_lt_irrefl (ck kv)). by apply (bytes_lt_le_trans _ p).
Qed.

Lemma prefix_loop_pos p rest : forall fuel s bef, at_pos s bef rest -> rest <> [] -> (length rest < fuel)%nat ->
  exists s', prefix_loop r fuel p s = (Ok (map record_of (with_prefix p rest)), s').
Proof.
  induction rest as [|kv rest IH]; intros fuel s bef Hp Hn Hf; [done|]. destruct fuel as [|fuel]; [cbn in Hf; lia|].
  cbn [prefix_loop]. run. destruct (pos_not_eof s bef _ Hp) as [-> _].
  destruct (get_key_value_pos s bef kv rest Hp) as (s1 & Hg & Hp1 & _). step Hg.
  pose proof (pos_readable _ _ _ _ Hp) as Hr. pose proof Hr as [_ Hcontent].
  erewrite bind_ok by (unfold lift; cbn [parsed_kv kv_key]; rewrite Hcontent; reflexivity). fold (ck kv).
  pose proof (next_pos s1 bef kv rest Hp1) as Hnext.
  assert (Hcont : forall records, exists s', (let^ more := next r in
      if more : bool then let^ rest := prefix_loop r fuel p in ret (records ++ rest) else ret records) s1 =
      (Ok (records ++ map record_of (with_prefix p rest)), s')).
  { intros records. destruct rest as [|kv2 rest].
    - step Hnext. exists (set_eof true s1). cbn. by rewrite app_nil_r.
    - destruct Hnext as (s2 & Hx & Hp2). step Hx.
      destruct (IH fuel s2 (bef ++ [kv]) Hp2) as (s3 & Hc); [done|cbn in *; lia|]. step Hc. by exists s3. }
  unfold with_prefix. cbn [List.filter]. fold (with_prefix p rest). destruct (starts_with p (ck kv)) eqn:Hst.
  - erewrite bind_ok by (unfold lift; rewrite (record_at kv Hr); reflexivity).
    destruct (Hcont [record_of kv]) as (s' & Hs'). exists s'. exact Hs'.
  - unfold starts_with in Hst. apply bool_decide_eq_false in Hst.
    pose proof (bytes_cmp_cases (ck kv) p) as Hc. destruct (bytes_cmp (ck kv) p); [apply (Hcont [])..|].
    exists s1. rewrite with_prefix_none; [done|].
    pose proof (sorted_from bef kv rest (at_pos_flat _ _ _ Hp)) as Hsort. apply Forall_cons_1 in Hsort as [_ Hsort].
    apply (list.Forall_impl _ _ _ Hsort). intros x Hx. apply (prefix_gap p (ck kv)); [by apply bytes_lt_le|done|done].
Qed.

Lemma collect_records_by_prefix_ok p fuel s : probe_ok p -> (length (flat es) < fuel)%nat ->
  exists s', collect_records_by_prefix r fuel p s = (Ok (map record_of (with_prefix p (flat es))), s').
Proof.
  intros Hprobe Hf. unfold collect_records_by_prefix. destruct (decide (es = [])) as [He|He].
  - destruct (seek_to_first_empty s He) as (s1 & H1 & Heof). step H1. run. rewrite Heof. exists s1. by rewrite He.
  - assert (Hex : exists e l, es = e :: l) by (destruct es; [done|by eexists _, _]). destruct Hex as (e & l & Hes).
    destruct (first_pos s e l Hes) as (s1 & H1 & Hpos & Hfirst & Heof). step H1. run. rewrite Heof.
    destruct (pos_some _ _ _ Hpos) as (kv & rest & E). rewrite E in Hpos.
    assert (Hready : ready p s1) by (by apply (ready_at p s1 [] kv rest); [|constructor|right]).
    destruct (seek_to_ok p s1 He Hready Hprobe) as (res & s2 & H2 & Ho). step H2.
    assert (Hfrom : forall s bef kv rest, at_pos s bef (kv :: rest) -> Forall (below p) bef ->
      exists s', prefix_loop r fuel p s = (Ok (map record_of (with_prefix p (flat es))), s')).
    { intros s3 bef kv3 rest3 Hp3 Hb. pose proof (at_pos_flat _ _ _ Hp3) as Hflat.
      destruct (prefix_loop_pos p (kv3 :: rest3) fuel s3 bef Hp3) as (s4 & H4); [done| |].
      { rewrite <- Hflat, length_app in Hf. lia. }
      exists s4. rewrite H4. rewrite <- Hflat. unfold with_prefix. rewrite List.filter_app.
      fold (with_prefix p bef). by rewrite below_no_prefix. }
    destruct Ho as [bef kv' rest' s2 Hpos2 Hb Hk|res bef kv' rest' s2 Hnf Hne Hpos2 Hb Ha Hmiss|s2 Heof2 Hsk Hall].
    + by apply (Hfrom s2 bef kv' rest').
    + destruct res; [by apply (Hfrom s2 bef kv' rest')| |done|by apply (Hfrom s2 bef kv' rest')|done].
      destruct (first_pos s2 e l Hes) as (s3 & H3 & Hpos3 & _). step H3. rewrite E in Hpos3.
      by apply (Hfrom s3 [] kv rest).
    + exists s2. by rewrite below_no_prefix.
Qed.

(** ** Blocks read whole *)
Lemma records_of_kvs kvs : Forall kv_readable kvs ->
  res_mapM key_value_to_record (map (fun kv => parsed_kv kv.1 kv.2) kvs) = Ok (map record_of kvs).
Proof. induction 1 as [|kv kvs Hkv _ IH]; [done|]. cbn [map res_mapM]. rewrite record_at by done. cbn [res_bind]. by rewrite IH. Qed.

Lemma records_in_block_ok e : e ∈ es -> entry_nonneg e -> records_in_block r e = Ok (map record_of (blocks e)).
Proof.
  intros He _. destruct (fh_block F e He) as (h & Ht & Hr). destruct (fh_some F e He) as [_ Hk].
  unfold records_in_block. rewrite Hr. cbn [res_bind]. unfold data_block_records, expect_type, hfile_block_type. cbn [block_header].
  rewrite decide_True by done. cbn [res_bind]. change (data_block_from _) with (block_of (blocks e)).
  rewrite data_block_iter_written; [|by apply (list.Forall_impl _ _ _ Hk); intros kv [? _]|by apply block_bytes_bound].
  cbn [res_bind]. by apply records_of_kvs.
Qed.
End file.
