(* ===== verification/HFileWritten.v ===== *)
(** HFiles as a writer lays them out, read back.

    The layout is the reference the reader of [HFileReader] and [HFileSeek] is held
    to: data blocks, a root index, an empty meta index, the file info and the
    trailer, uncompressed and with an index of one level. *)
From Stdlib Require Import Ascii.
From stdpp Require Import base gmap sets list strings sorting numbers.
From S2P Require Import Prelude RustStr Config BTree StorageReader RecordBatches LogFormat Utf8 LogReader Scanner LogFetch HFileKey HFileBlock HFileIndex HFileReader HFileSeek.
Local Open Scope res_scope.
Local Open Scope Z_scope.

Definition zero_byte : ascii := ascii_of_N 0.

Definition zeros (n : Z) : bytes := replicate (Z.to_nat n) zero_byte.

Lemma blen_zeros n : 0 <= n -> blen (zeros n) = n.
Proof. intros Hn. unfold blen, zeros. rewrite length_replicate. lia. Qed.

(** * Protobuf's variable-length integers *)
Fixpoint varint_bytes (fuel : nat) (n : Z) : bytes :=
  match fuel with
  | O => []
  | S fuel =>
      if n <? 128 then [ascii_of_N (Z.to_N n)]
      else ascii_of_N (Z.to_N (128 + n mod 128)) :: varint_bytes fuel (n / 128)
  end.

(** Ten bytes of seven bits hold 64. *)
Definition write_varint (n : Z) : bytes := varint_bytes 10 n.

Lemma lor_shifted a b s : 0 <= s -> 0 <= a < 2 ^ s -> Z.lor a (Z.shiftl b s) = a + b * 2 ^ s.
Proof.
  intros Hs Ha. rewrite Z.shiftl_mul_pow2 by lia. rewrite <- Z.add_lor_land.
  assert (Hl : Z.land a (b * 2 ^ s) = 0); [|rewrite Hl; lia].
  apply Z.bits_inj'. intros n Hn. rewrite Z.land_spec, Z.bits_0.
  destruct (Z.lt_ge_cases n s).
  - by rewrite Z.mul_pow2_bits_low, andb_false_r by lia.
  - destruct (Z.eq_dec a 0) as [->|Ha0]; [by rewrite Z.bits_0|].
    rewrite (Z.bits_above_log2 a n); [done|lia|]. assert (Z.log2 a < s) by (apply Z.log2_lt_pow2; lia). lia.
Qed.

(** The two halves of a byte of the encoding. *)
Lemma varint_byte m : 0 <= m < 128 ->
  Z.land m 127 = m /\ Z.land m 128 = 0 /\ Z.land (128 + m) 127 = m /\ Z.land (128 + m) 128 = 128.
Proof.
  intros Hm. assert (H : Forall (fun i : nat => let m := Z.of_nat i in
    Z.land m 127 = m /\ Z.land m 128 = 0 /\ Z.land (128 + m) 127 = m /\ Z.land (128 + m) 128 = 128) (seq 0 128)).
  { repeat constructor. }
  rewrite list.Forall_forall in H. specialize (H (Z.to_nat m)). rewrite Z2Nat.id in H by lia.
  apply H, elem_of_seq. lia.
Qed.

Lemma varint_loop_here fuel : forall n rest result shift pos,
  0 <= n < 128 ^ Z.of_nat (S fuel) -> 0 <= shift < 64 -> 0 <= result < 2 ^ shift -> result + n * 2 ^ shift < 2 ^ 64 ->
  varint_loop (varint_bytes (S fuel) n ++ rest) result shift pos =
  Ok (result + n * 2 ^ shift, pos + blen (varint_bytes (S fuel) n)).
Proof.
  induction fuel as [|fuel IH]; intros n rest result shift pos Hn Hs Hr Hu;
    pose proof (Z.pow_pos_nonneg 2 shift ltac:(lia) ltac:(lia)) as Hpow;
    rewrite (eq_refl : varint_bytes (S _) n = if n <? 128 then [ascii_of_N (Z.to_N n)]
      else ascii_of_N (Z.to_N (128 + n mod 128)) :: varint_bytes _ (n / 128));
    destruct (Z.ltb_spec n 128) as [Hlt|Hge]; try (change (128 ^ Z.of_nat 1) with 128 in Hn; lia).
  1,2: destruct (varint_byte n) as (E1 & E2 & _); [lia|];
    cbn [app varint_loop]; rewrite byte_value_of_N by lia; destruct (Z.leb_spec 64 shift); [lia|];
    rewrite E1, E2, Z.eqb_refl, Z.mod_small
      by (rewrite Z.shiftl_mul_pow2 by lia; nia); rewrite lor_shifted by lia; by rewrite blen_1.
  pose proof (Z.mod_pos_bound n 128 ltac:(lia)) as Hm. destruct (varint_byte (n mod 128)) as (_ & _ & E3 & E4); [lia|].
  pose proof (Z.div_mod n 128 ltac:(lia)) as Hdm. assert (Hq : 1 <= n / 128) by (apply Z.div_le_lower_bound; lia).
  assert (Hpow7 : 2 ^ (shift + 7) = 128 * 2 ^ shift) by (rewrite Z.pow_add_r by lia; lia).
  assert (Hs7 : shift + 7 < 64).
  { apply (Z.pow_lt_mono_r_iff 2); [lia|lia|]. rewrite Hpow7. nia. }
  change ((ascii_of_N (Z.to_N (128 + n mod 128)) :: varint_bytes (S fuel) (n / 128)) ++ rest) with
    (ascii_of_N (Z.to_N (128 + n mod 128)) :: (varint_bytes (S fuel) (n / 128) ++ rest)).
  cbn [varint_loop]. rewrite byte_value_of_N by lia. destruct (Z.leb_spec 64 shift); [lia|].
  rewrite E3, E4. change (128 =? 0) with false. cbv beta iota.
  rewrite Z.mod_small by (rewrite Z.shiftl_mul_pow2 by lia; nia). rewrite lor_shifted by lia.
  rewrite IH; [| |lia|nia|nia].
  - f_equal. f_equal; [nia|].
    change (blen (ascii_of_N (Z.to_N (128 + n mod 128)) :: varint_bytes (S fuel) (n / 128)))
      with (blen ([ascii_of_N (Z.to_N (128 + n mod 128))] ++ varint_bytes (S fuel) (n / 128))).
    rewrite blen_app, blen_1. lia.
  - split; [lia|]. apply Z.div_lt_upper_bound; [lia|]. rewrite Nat2Z.inj_succ, Z.pow_succ_r in Hn by lia. lia.
Qed.

Lemma read_varint_here n rest : 0 <= n < 2 ^ 64 -> read_varint (write_varint n ++ rest) = Ok (n, blen (write_varint n)).
Proof.
  intros Hn. unfold read_varint, write_varint. rewrite varint_loop_here; [|lia..|rewrite Z.pow_0_r; lia].
  do 2 f_equal. rewrite Z.pow_0_r. lia.
Qed.

(** A message with its length before it. *)
Definition delimited (message : bytes) : bytes := write_varint (blen message) ++ message.

Lemma length_delimited_here m rest : blen (delimited m) <= u64_max ->
  length_delimited (delimited m ++ rest) = Ok m.
Proof.
  intros Hu. unfold delimited in *. rewrite blen_app in Hu. pose proof (blen_nonneg m). pose proof (blen_nonneg (write_varint (blen m))).
  unfold length_delimited. rewrite <- app_assoc, read_varint_here by (unfold u64_max in Hu; lia).
  cbn [res_bind fst snd]. rewrite usize_add_ok by lia. cbn [res_bind]. by apply index_range_at.
Qed.

(** * Blocks and the trailer *)
Definition BYTES_PER_CHECKSUM : Z := 16384.

Definition checksums_for (data : bytes) : bytes := zeros (4 * chunks (BLOCK_HEADER_SIZE + blen data) BYTES_PER_CHECKSUM).

Definition block_header_of (t : HFileBlockType) (data : bytes) : BlockHeader :=
  header_of t (-1) 1 BYTES_PER_CHECKSUM data data (checksums_for data).

Definition write_block (t : HFileBlockType) (data : bytes) : bytes :=
  encode_block (block_header_of t data) data (checksums_for data).

Lemma blen_write_block t data : blen (write_block t data) =
  BLOCK_HEADER_SIZE + (blen data + 4 * chunks (BLOCK_HEADER_SIZE + blen data) BYTES_PER_CHECKSUM) /\
  0 <= 4 * chunks (BLOCK_HEADER_SIZE + blen data) BYTES_PER_CHECKSUM.
Proof.
  pose proof (blen_nonneg data). unfold BYTES_PER_CHECKSUM, BLOCK_HEADER_SIZE.
  pose proof (chunks_bound (33 + blen data) 16384 ltac:(lia) ltac:(lia)) as Hc. split; [|lia].
  unfold write_block, encode_block, checksums_for. rewrite !blen_app, blen_encode_header, blen_zeros; [done|].
  unfold BYTES_PER_CHECKSUM, BLOCK_HEADER_SIZE. lia.
Qed.

Lemma write_block_longer t data : BLOCK_HEADER_SIZE + blen data <= blen (write_block t data).
Proof. destruct (blen_write_block t data) as [-> ?]. lia. Qed.

Section written_blocks.
Context {G : Gunzip}.

Lemma block_parse_here t data post : blen (write_block t data) < 2 ^ 31 ->
  block_parse (write_block t data ++ post) NoCompression = Ok (mkHFileBlock (block_header_of t data) data).
Proof.
  intros Hl. destruct (blen_write_block t data) as [Hb Hc]. unfold BLOCK_HEADER_SIZE, BYTES_PER_CHECKSUM in *.
  pose proof (blen_nonneg data). unfold write_block. apply block_parse_written.
  assert (Hz : blen (checksums_for data) = 4 * chunks (33 + blen data) 16384) by by apply blen_zeros.
  split; cbn [block_header_of header_of bytes_per_checksum on_disk_size_without_header uncompressed_size_without_header codec_payload];
    unfold BYTES_PER_CHECKSUM; try (done || lia).
  split; cbn [block_header_of header_of bytes_per_checksum on_disk_size_without_header uncompressed_size_without_header
    prev_block_offset checksum_type on_disk_data_size_with_header]; unfold BYTES_PER_CHECKSUM, BLOCK_HEADER_SIZE; lia.
Qed.
End written_blocks.

Lemma after_block_here t data start : start + blen (write_block t data) <= u64_max -> 0 <= start ->
  after_block start (mkHFileBlock (block_header_of t data) data) = Ok (start + blen (write_block t data)).
Proof.
  intros Hu Hs. destruct (blen_write_block t data) as [Hb Hc]. rewrite Hb in *. pose proof (blen_nonneg data).
  unfold after_block, on_disk_size_with_header. cbn [block_header block_header_of header_of on_disk_size_without_header].
  unfold checksums_for. rewrite blen_zeros by done. unfold BLOCK_HEADER_SIZE in *.
  rewrite usize_add_ok by lia. cbn [res_bind]. by rewrite usize_add_ok by lia.
Qed.

Definition write_trailer (minor : Z) (proto : bytes) : bytes :=
  TRAILER_MAGIC ++ delimited proto ++ zeros (TRAILER_SIZE - 12 - blen (delimited proto)) ++
  map (fun b => ascii_of_N (Z.to_N b)) [minor; 0; 0; 3].

(** What a trailer's message says, with the defaults of its absent fields. *)
Definition trailer_of (minor : Z) (p : TrailerProto) (c : CompressionCodec) : HFileTrailer :=
  mkTrailer 3 minor (default 0 (tp_file_info_offset p)) (default 0 (tp_load_on_open_data_offset p))
    (default 0 (tp_uncompressed_data_index_size p)) (default 0 (tp_total_uncompressed_bytes p))
    (default 0 (tp_data_index_count p)) (default 0 (tp_meta_index_count p)) (default 0 (tp_entry_count p))
    (default 1 (tp_num_data_index_levels p)) (default 0 (tp_first_data_block_offset p))
    (default 0 (tp_last_data_block_offset p)) (default ""%string (tp_comparator_class_name p)) c.

Lemma blen_write_trailer minor proto : blen (delimited proto) <= TRAILER_SIZE - 12 ->
  blen (write_trailer minor proto) = TRAILER_SIZE.
Proof.
  intros Hp. unfold write_trailer. rewrite !blen_app, blen_zeros by lia.
  change (blen TRAILER_MAGIC) with 8. change (blen (map _ [minor; 0; 0; 3])) with 4. lia.
Qed.

Lemma trailer_read_here {P : HFileProtos} pre minor proto p c :
  blen (delimited proto) <= TRAILER_SIZE - 12 -> 0 <= minor < 256 ->
  decode_trailer proto = Some p -> opt_traverse codec_from_id (tp_compression_codec p) = Ok c ->
  trailer_read (pre ++ write_trailer minor proto) = Ok (trailer_of minor p (default NoCompression c)).
Proof.
  intros Hp Hm Hd Hc. pose proof (blen_write_trailer minor proto Hp) as Hl. pose proof (blen_nonneg pre) as H0.
  unfold trailer_read. rewrite blen_app, Hl.
  destruct (Z.ltb_spec (blen pre + TRAILER_SIZE) TRAILER_SIZE); [lia|].
  assert (Hs : slice (pre ++ write_trailer minor proto) (blen pre + TRAILER_SIZE - TRAILER_SIZE) (blen pre + TRAILER_SIZE) =
    write_trailer minor proto).
  { transitivity (slice (pre ++ write_trailer minor proto ++ []) (blen pre + TRAILER_SIZE - TRAILER_SIZE) (blen pre + TRAILER_SIZE));
      [by rewrite app_nil_r|]. apply slice_at; [lia|by rewrite Hl]. }
  rewrite Hs. unfold check_magic. rewrite Hl.
  assert (Hmagic : slice (write_trailer minor proto) 0 MAGIC_LENGTH = TRAILER_MAGIC) by (apply (slice_app_here [] TRAILER_MAGIC)).
  change (TRAILER_SIZE <? MAGIC_LENGTH) with false. cbv beta iota. rewrite Hmagic. cbn [block_magic].
  rewrite decide_False by tauto. cbn [res_bind].
  set (body := TRAILER_MAGIC ++ delimited proto ++ zeros (TRAILER_SIZE - 12 - blen (delimited proto))).
  set (version := map (fun b => ascii_of_N (Z.to_N b)) [minor; 0; 0; 3]).
  assert (Hsplit : write_trailer minor proto = body ++ version) by (unfold body, write_trailer; by rewrite <- !app_assoc).
  assert (Hbody : blen body = TRAILER_SIZE - 4).
  { assert (blen version = 4) by done. rewrite Hsplit, blen_app in Hl. lia. }
  assert (Hv : slice (write_trailer minor proto) (TRAILER_SIZE - 4) TRAILER_SIZE = version).
  { rewrite Hsplit, <- (app_nil_r version), <- Hbody. transitivity (slice (body ++ version ++ []) (blen body) (blen body + blen version));
      [f_equal; rewrite Hbody; done|apply slice_app_here]. }
  assert (B0 : byte_at version 0 = Ok minor) by (transitivity (Ok (byte_value (ascii_of_N (Z.to_N minor)))); [done|]; by rewrite byte_value_of_N).
  assert (B1 : byte_at version 1 = Ok 0) by reflexivity. assert (B2 : byte_at version 2 = Ok 0) by reflexivity.
  assert (B3 : byte_at version 3 = Ok 3) by reflexivity.
  rewrite Hv, B0, B1, B2, B3. cbn [res_bind]. change (negb (Z.lor (Z.lor (Z.shiftl 0 16) (Z.shiftl 0 8)) 3 =? 3)) with false.
  change (Z.lor (Z.lor (Z.shiftl 0 16) (Z.shiftl 0 8)) 3) with 3. cbv iota.
  assert (Hproto : slice (write_trailer minor proto) MAGIC_LENGTH (TRAILER_SIZE - 4) =
    delimited proto ++ zeros (TRAILER_SIZE - 12 - blen (delimited proto))).
  { transitivity (slice (TRAILER_MAGIC ++ (delimited proto ++ zeros (TRAILER_SIZE - 12 - blen (delimited proto))) ++ version)
      MAGIC_LENGTH (TRAILER_SIZE - 4)); [by unfold write_trailer; rewrite <- app_assoc|].
    apply slice_at; [done|]. rewrite blen_app, blen_zeros by lia. change (blen TRAILER_MAGIC) with 8. lia. }
  rewrite Hproto. unfold parse_length_delimited_proto. rewrite length_delimited_here by (unfold TRAILER_SIZE, u64_max in *; lia).
  cbn [res_bind]. rewrite Hd. cbn [ok_or res_bind]. rewrite Hc. done.
Qed.

(** * The file *)

(** A data block's records, and its key in the index. *)
Definition DataPart : Type := list (bytes * bytes) * bytes.

Definition write_data (b : DataPart) : bytes := write_block Data (encode_kvs b.1).

Definition data_section (bs : list DataPart) : bytes := concat (map write_data bs).

(** The index of the blocks laid out from an offset on. *)
Fixpoint lay (from : Z) (bs : list DataPart) : list IndexEntry :=
  match bs with
  | [] => []
  | b :: bs => mkIndexEntry from (blen (write_data b)) b.2 :: lay (from + blen (write_data b)) bs
  end.

Definition index_entries (bs : list DataPart) : list BlockIndexEntry :=
  with_next_keys (map parsed_entry (lay 0 bs)).

Definition write_file (bs : list DataPart) (info : bytes) (minor : Z) (proto : bytes) : bytes :=
  data_section bs ++ write_block RootIndex (encode_root (lay 0 bs)) ++ write_block RootIndex [] ++
  write_block FileInfo (PBUF_MAGIC ++ delimited info) ++ write_trailer minor proto.

(** The records at an offset. *)
Fixpoint records_at (from : Z) (bs : list DataPart) (offset : Z) : list (bytes * bytes) :=
  match bs with
  | [] => []
  | b :: bs => if offset =? from then b.1 else records_at (from + blen (write_data b)) bs offset
  end.

Definition blocks_of (bs : list DataPart) (e : BlockIndexEntry) : list (bytes * bytes) :=
  records_at 0 bs (entry_offset e).

Lemma data_section_app l r : data_section (l ++ r) = data_section l ++ data_section r.
Proof. unfold data_section. by rewrite map_app, concat_app. Qed.

Lemma write_data_pos b : 0 < blen (write_data b).
Proof.
  pose proof (write_block_longer Data (encode_kvs b.1)). pose proof (blen_nonneg (encode_kvs b.1)).
  unfold write_data, BLOCK_HEADER_SIZE in *. lia.
Qed.

Lemma records_at_here p b q : forall from, records_at from (p ++ b :: q) (from + blen (data_section p)) = b.1.
Proof.
  induction p as [|c p IH]; intros from; cbn [app records_at].
  - change (blen (data_section [])) with 0. by rewrite Z.add_0_r, Z.eqb_refl.
  - change (data_section (c :: p)) with (write_data c ++ data_section p). rewrite blen_app.
    pose proof (write_data_pos c). pose proof (blen_nonneg (data_section p)).
    destruct (Z.eqb_spec (from + (blen (write_data c) + blen (data_section p))) from); [lia|].
    rewrite Z.add_assoc. apply IH.
Qed.

(** An entry and the block it is for. *)
Definition placed (bs : list DataPart) (e : BlockIndexEntry) (b : DataPart) : Prop :=
  first_key e = key_from_bytes b.2 /\ exists p q, bs = p ++ b :: q /\
    entry_offset e = blen (data_section p) /\ entry_size e = blen (write_data b).

Lemma lay_placed rest : forall pre,
  Forall2 (placed (pre ++ rest)) (map parsed_entry (lay (blen (data_section pre)) rest)) rest.
Proof.
  induction rest as [|b rest IH]; intros pre; cbn [lay map]; [constructor|]. constructor.
  - split; [done|]. by exists pre, rest.
  - specialize (IH (pre ++ [b])). rewrite <- app_assoc, data_section_app, blen_app in IH.
    change (data_section [b]) with (write_data b ++ []) in IH. by rewrite app_nil_r in IH.
Qed.

Lemma with_next_placed all es bs : Forall2 (placed all) es bs -> Forall2 (placed all) (with_next_keys es) bs.
Proof. induction 1 as [|e b es bs He _ IH]; cbn [with_next_keys]; constructor; [exact He|done]. Qed.

Lemma entries_placed bs : Forall2 (placed bs) (index_entries bs) bs.
Proof. apply with_next_placed. apply (lay_placed bs []). Qed.

Lemma blocks_of_placed bs e b : placed bs e b -> blocks_of bs e = b.1.
Proof.
  intros (_ & p & q & -> & Ho & _). unfold blocks_of. rewrite Ho. apply (records_at_here p b q 0).
Qed.

Lemma flat_entries bs : flat (blocks_of bs) (index_entries bs) = concat (map fst bs).
Proof.
  assert (H : forall es l, Forall2 (placed bs) es l -> map (blocks_of bs) es = map fst l).
  { induction 1 as [|e b es l He _ IH]; [done|]. cbn [map]. f_equal; [by apply blocks_of_placed|done]. }
  unfold flat. by rewrite (H _ _ (entries_placed bs)).
Qed.

Lemma lay_offsets bs : forall from, 0 <= from -> StronglySorted offset_lt (with_next_keys (map parsed_entry (lay from bs))) /\
  Forall (fun e => from <= entry_offset e) (with_next_keys (map parsed_entry (lay from bs))).
Proof.
  induction bs as [|b bs IH]; intros from Hf; cbn [lay map with_next_keys]; [split; constructor|].
  pose proof (write_data_pos b). destruct (IH (from + blen (write_data b))) as [Hs Ha]; [lia|]. split.
  - constructor; [done|]. apply (list.Forall_impl _ _ _ Ha). intros e He. unfold offset_lt. cbn. lia.
  - constructor; [cbn; lia|]. apply (list.Forall_impl _ _ _ Ha). intros e He. cbn in *. lia.
Qed.

Definition part_sep (b : DataPart) : bytes := content_of (key_from_bytes b.2).

Lemma entries_keyed es : data_block_entries (keyed es) = es.
Proof. unfold data_block_entries, keyed. by rewrite map_map, map_id. Qed.

Section written.
Context {G : Gunzip} {P : HFileProtos}.
Context (bs : list DataPart) (info : bytes) (pairs : list (bytes * bytes)) (minor : Z) (proto : bytes) (p : TrailerProto).

Definition info_map : list (string * bytes) := foldl (fun m kv => bt_insert (from_utf8_lossy kv.1) kv.2 m) [] pairs.

Definition all_records : list (bytes * bytes) := concat (map fst bs).

Definition file : bytes := write_file bs info minor proto.

(** A file that can be written so: sorted records, in blocks whose separators lie
    between their keys, and the two messages saying what they should. *)
Record writable : Prop := {
  wr_size : blen file < 2 ^ 31;
  wr_proto : blen (delimited proto) <= TRAILER_SIZE - 12;
  wr_minor : 0 <= minor < 256;
  wr_trailer : decode_trailer proto = Some p;
  wr_codec : tp_compression_codec p = None \/ tp_compression_codec p = Some 2;
  wr_load : tp_load_on_open_data_offset p = Some (blen (data_section bs));
  wr_index_count : tp_data_index_count p = Some (Z.of_nat (length bs));
  wr_meta_count : default 0 (tp_meta_index_count p) = 0;
  wr_levels : default 1 (tp_num_data_index_levels p) = 1;
  wr_entry_count : default 0 (tp_entry_count p) = Z.of_nat (length all_records);
  wr_info : decode_info info = Some pairs;
  wr_last : forall b, bt_get FILE_INFO_LAST_KEY info_map = Some b -> readable (key_from_bytes b) /\
    Forall (fun kv => bytes_le (ck kv) (content_of (key_from_bytes b))) all_records;
  wr_mvcc : bt_get FILE_INFO_KEY_VALUE_VERSION info_map = None;
  wr_blocks : Forall (fun b : DataPart => b.1 <> [] /\ Forall kv_readable b.1 /\ readable (key_from_bytes b.2)) bs;
  wr_separators : StronglySorted (fun b b' => bytes_lt (part_sep b) (part_sep b')) bs;
  wr_between : forall l b r kv, bs = l ++ b :: r -> kv ∈ b.1 ->
    bytes_le (part_sep b) (ck kv) /\ Forall (fun b' => bytes_le (ck kv) (part_sep b')) (take 1 r);
  wr_sorted : StronglySorted (fun x y => bytes_le (ck x) (ck y)) all_records
}.

Context (W : writable).

Definition root_block : bytes := write_block RootIndex (encode_root (lay 0 bs)).
Definition meta_block : bytes := write_block RootIndex [].
Definition info_data : bytes := PBUF_MAGIC ++ delimited info.
Definition info_block : bytes := write_block FileInfo info_data.

Definition written_trailer : HFileTrailer := trailer_of minor p NoCompression.

Lemma file_split : file = data_section bs ++ root_block ++ meta_block ++ info_block ++ write_trailer minor proto.
Proof. done. Qed.

Lemma parts_bounded : blen (data_section bs) + blen root_block + blen meta_block + blen info_block + TRAILER_SIZE < 2 ^ 31.
Proof.
  pose proof (wr_size W) as Hs. rewrite file_split, !blen_app, blen_write_trailer in Hs by apply (wr_proto W). lia.
Qed.

Lemma parts_nonneg : 0 <= blen (data_section bs) /\ 0 <= blen root_block /\ 0 <= blen meta_block /\ 0 <= blen info_block.
Proof. split_and!; apply blen_nonneg. Qed.

Lemma metadata_here pre post : file = pre ++ post -> metadata_at (Whole file) (blen pre) = Ok post.
Proof.
  intros ->. unfold metadata_at, get_from. rewrite blen_app. pose proof (blen_nonneg post).
  destruct (Z.leb_spec (blen pre) (blen pre + blen post)); [|lia]. cbn [ok_or]. f_equal.
  pose proof (slice_app_here pre post []) as H1. by rewrite app_nil_r in H1.
Qed.

Lemma trailer_read_written : trailer_read file = Ok written_trailer.
Proof.
  assert (Hc : opt_traverse codec_from_id (tp_compression_codec p) =
    Ok (match tp_compression_codec p with Some _ => Some NoCompression | None => None end)).
  { by destruct (wr_codec W) as [-> | ->]. }
  rewrite file_split, !app_assoc.
  rewrite (trailer_read_here _ minor proto p _ (wr_proto W) (wr_minor W) (wr_trailer W) Hc).
  unfold written_trailer. by destruct (wr_codec W) as [-> | ->].
Qed.

Lemma lay_keys l : forall from, map first_key (map parsed_entry (lay from l)) = map (fun b : DataPart => key_from_bytes b.2) l.
Proof. induction l as [|b l IH]; intros from; [done|]. cbn [lay map]. by rewrite IH. Qed.

Lemma with_next_first_keys es : map first_key (with_next_keys es) = map first_key es.
Proof. induction es as [|e es IH]; [done|]. cbn [with_next_keys map first_key]. by rewrite IH. Qed.

Lemma index_ok_of_keys es : map first_key es = map (fun b : DataPart => key_from_bytes b.2) bs -> index_ok (keyed es).
Proof.
  intros Hk. pose proof (wr_blocks W) as Hb. pose proof (wr_separators W) as Hs. revert es Hk. clear W.
  induction Hs as [|b l Hs IH Hlt]; intros [|e es] Hk; try done; [split; constructor|].
  apply Forall_cons_1 in Hb as [(_ & _ & Hr) Hb]. injection Hk as Hk Hks. destruct (IH Hb es Hks) as [H1 H2].
  split; cbn [keyed map]; constructor; try done; [cbn; by rewrite Hk|].
  clear -Hk Hks Hlt. revert es Hks. induction Hlt as [|b' l Hb' _ IH]; intros [|e' es] Hks; try done.
  injection Hks as Hk' Hks. constructor; [|by apply IH]. unfold sep. cbn. rewrite Hk, Hk'. exact Hb'.
Qed.

Lemma lay_entries_ok l : forall from, 0 <= from -> from + blen (data_section l) < 2 ^ 31 ->
  Forall (fun b : DataPart => blen b.2 < 2 ^ 31) l -> Forall index_entry_ok (lay from l).
Proof.
  induction l as [|b l IH]; intros from Hf Hl Hk; cbn [lay]; [constructor|]. apply Forall_cons_1 in Hk as [Hk Hks].
  change (data_section (b :: l)) with (write_data b ++ data_section l) in Hl. rewrite blen_app in Hl.
  pose proof (write_data_pos b). pose proof (blen_nonneg (data_section l)). constructor; [|apply IH; [lia|lia|done]].
  split_and!; cbn [ie_offset ie_size ie_key]; lia.
Qed.

Lemma keys_bounded l : forall from, Forall (fun b : DataPart => blen b.2 <= blen (encode_root (lay from l))) l.
Proof.
  induction l as [|b l IH]; intros from; [constructor|]. cbn [lay].
  change (encode_root (mkIndexEntry from (blen (write_data b)) b.2 :: lay (from + blen (write_data b)) l)) with
    (encode_root_entry (mkIndexEntry from (blen (write_data b)) b.2) ++ encode_root (lay (from + blen (write_data b)) l)).
  rewrite blen_app, blen_encode_root_entry. cbn [ie_key].
  pose proof (blen_nonneg (write_vlong (blen b.2))). pose proof (blen_nonneg (encode_root (lay (from + blen (write_data b)) l))).
  pose proof (blen_nonneg b.2). constructor; [lia|].
  apply (list.Forall_impl _ _ _ (IH (from + blen (write_data b)))). intros c Hc. lia.
Qed.

Lemma length_lay l : forall from, length (lay from l) = length l.
Proof. induction l as [|b l IH]; intros from; cbn; [done|]. by rewrite IH. Qed.

Lemma root_index_read :
  read_root_index_block (with_source (Whole file) written_trailer) (blen (data_section bs)) =
  Ok (keyed (index_entries bs), blen (data_section bs) + blen root_block).
Proof.
  pose proof parts_bounded as Hb. pose proof parts_nonneg as (H1 & H2 & H3 & H4). unfold TRAILER_SIZE in Hb.
  pose proof (write_block_longer RootIndex (encode_root (lay 0 bs))) as Hlong. fold root_block in Hlong.
  unfold read_root_index_block. cbn [source with_source trailer].
  rewrite (metadata_here (data_section bs) (root_block ++ meta_block ++ info_block ++ write_trailer minor proto) file_split).
  cbn [res_bind]. unfold codec. cbn [trailer with_source written_trailer trailer_of compression_codec].
  unfold root_block at 1. rewrite block_parse_here by (fold root_block; lia). cbn [res_bind].
  unfold expect_type, hfile_block_type. cbn [block_header block_header_of header_of hdr_block_type block_data]. cbn [res_bind].
  rewrite decide_True by done. cbn [res_bind].
  assert (Hcount : data_index_count written_trailer = Z.of_nat (length bs))
    by (unfold written_trailer, trailer_of; cbn [data_index_count]; by rewrite (wr_index_count W)).
  rewrite Hcount. unfold parse_root_index_entries. rewrite Nat2Z.id, <- (length_lay bs 0).
  unfold BLOCK_HEADER_SIZE in Hlong.
  assert (Hkeys : Forall (fun b : DataPart => blen b.2 < 2 ^ 31) bs).
  { apply (list.Forall_impl _ _ _ (keys_bounded bs 0)). intros b Hbb. lia. }
  pose proof (root_entries_written (lay 0 bs) (lay_entries_ok bs 0 ltac:(lia) ltac:(lia) Hkeys) [] [] false) as Hr.
  rewrite app_nil_r in Hr. cbn [app] in Hr. change (blen []) with 0 in Hr.
  rewrite Hr by (unfold u64_max, BLOCK_HEADER_SIZE in *; lia). cbn [res_bind].
  unfold root_block. rewrite after_block_here by (fold root_block; unfold u64_max; lia). cbn [res_bind].
  rewrite index_from_sorted; [done|]. apply index_ok_of_keys, lay_keys.
Qed.

Lemma meta_index_read r : source r = Whole file -> trailer r = written_trailer ->
  read_meta_index_block r (blen (data_section bs) + blen root_block) =
  Ok ([], blen (data_section bs) + blen root_block + blen meta_block).
Proof.
  intros Hs Ht. pose proof parts_bounded as Hb. pose proof parts_nonneg as (H1 & H2 & H3 & H4). unfold TRAILER_SIZE in Hb.
  unfold read_meta_index_block, codec. rewrite Hs, Ht, <- blen_app.
  rewrite (metadata_here (data_section bs ++ root_block) (meta_block ++ info_block ++ write_trailer minor proto))
    by by rewrite file_split, <- app_assoc.
  cbn [res_bind written_trailer trailer_of compression_codec]. unfold meta_block at 1.
  rewrite block_parse_here by (fold meta_block; lia). cbn [res_bind].
  unfold expect_type, hfile_block_type. cbn [block_header block_header_of header_of hdr_block_type block_data].
  rewrite decide_True by done. cbn [res_bind].
  change (meta_index_count written_trailer) with (default 0 (tp_meta_index_count p)). rewrite (wr_meta_count W).
  cbn [parse_root_index_entries Z.to_nat root_entries_loop res_bind].
  unfold meta_block. rewrite after_block_here by (fold meta_block; rewrite blen_app; unfold u64_max; lia).
  cbn [res_bind res_fold]. done.
Qed.

Lemma file_info_read r : source r = Whole file -> trailer r = written_trailer -> file_info r = [] ->
  read_file_info_block r (blen (data_section bs) + blen root_block + blen meta_block) = Ok info_map.
Proof.
  intros Hs Ht Hi. pose proof parts_bounded as Hb. pose proof parts_nonneg as (H1 & H2 & H3 & H4). unfold TRAILER_SIZE in Hb.
  unfold read_file_info_block, codec. rewrite Hs, Ht, Hi, <- !blen_app.
  rewrite (metadata_here ((data_section bs ++ root_block) ++ meta_block) (info_block ++ write_trailer minor proto))
    by by rewrite file_split, <- !app_assoc.
  cbn [res_bind written_trailer trailer_of compression_codec]. unfold info_block at 1.
  rewrite block_parse_here by (fold info_block; lia). cbn [res_bind].
  unfold expect_type, hfile_block_type. cbn [block_header block_header_of header_of hdr_block_type block_data].
  rewrite decide_True by done. cbn [res_bind].
  pose proof (write_block_longer FileInfo info_data) as Hlong. fold info_block in Hlong.
  assert (Hd : blen info_data = 4 + blen (delimited info)) by (unfold info_data; by rewrite blen_app).
  pose proof (blen_nonneg (delimited info)). rewrite Hd. destruct (Z.ltb_spec (4 + blen (delimited info)) 4); [lia|].
  assert (Hm : slice info_data 0 4 = PBUF_MAGIC) by apply (slice_app_here [] PBUF_MAGIC).
  rewrite Hm, bool_decide_true by done. cbn [orb negb].
  assert (Hrest : slice info_data 4 (4 + blen (delimited info)) = delimited info).
  { pose proof (slice_app_here PBUF_MAGIC (delimited info) []) as Hx. by rewrite app_nil_r in Hx. }
  rewrite Hrest. pose proof (length_delimited_here info []) as Hld. rewrite app_nil_r in Hld.
  rewrite Hld by (unfold u64_max, BLOCK_HEADER_SIZE in *; lia). cbn [res_bind]. rewrite (wr_info W). done.
Qed.

Lemma entry_placed e : e ∈ index_entries bs -> exists b, b ∈ bs /\ placed bs e b.
Proof.
  intros (i & Hi)%list_elem_of_lookup. destruct (Forall2_lookup_l _ _ _ _ _ (entries_placed bs) Hi) as (b & Hb & Hp).
  exists b. split; [|done]. by apply list_elem_of_lookup_2 in Hb.
Qed.

Lemma block_in_file q1 b q2 : bs = q1 ++ b :: q2 ->
  exists post, file = data_section q1 ++ write_data b ++ post /\
    blen (data_section q1) + blen (write_data b) < 2 ^ 31.
Proof.
  intros Hq. exists (data_section q2 ++ root_block ++ meta_block ++ info_block ++ write_trailer minor proto). split.
  - rewrite file_split. rewrite Hq at 1. rewrite data_section_app.
    change (data_section (b :: q2)) with (write_data b ++ data_section q2). by rewrite <- !app_assoc.
  - pose proof parts_bounded as Hb. pose proof parts_nonneg as (_ & H2 & H3 & H4). unfold TRAILER_SIZE in Hb.
    rewrite Hq in Hb at 1. rewrite data_section_app, blen_app in Hb.
    change (data_section (b :: q2)) with (write_data b ++ data_section q2) in Hb. rewrite blen_app in Hb.
    pose proof (blen_nonneg (data_section q2)). lia.
Qed.

Lemma block_read r e b : source r = Whole file -> trailer r = written_trailer -> placed bs e b ->
  read_block_at r (entry_offset e) (entry_size e) =
  Ok (mkHFileBlock (block_header_of Data (encode_kvs b.1)) (encode_kvs b.1)).
Proof.
  intros Hs Ht (_ & q1 & q2 & Hq & Ho & Hz). destruct (block_in_file q1 b q2 Hq) as (post & Hf & Hl).
  pose proof (blen_nonneg (data_section q1)). pose proof (blen_nonneg (write_data b)). pose proof (blen_nonneg post).
  unfold read_block_at, resident_range, codec. rewrite Hs, Ht, Ho, Hz. rewrite usize_add_ok by (unfold u64_max; lia).
  cbn [res_bind]. unfold get_slice. rewrite Hf, !blen_app.
  destruct (Z.leb_spec (blen (data_section q1)) (blen (data_section q1) + blen (write_data b))); [|lia].
  destruct (Z.leb_spec (blen (data_section q1) + blen (write_data b))
    (blen (data_section q1) + (blen (write_data b) + blen post))); [|lia].
  cbn [andb ok_or res_bind]. rewrite slice_app_here. cbn [written_trailer trailer_of compression_codec].
  pose proof (block_parse_here Data (encode_kvs b.1) []) as Hp. rewrite app_nil_r in Hp. apply Hp. unfold write_data in Hl. lia.
Qed.

Lemma written_index_wf : index_wf (keyed (index_entries bs)) (fun e => map ck (blocks_of bs e)).
Proof.
  split.
  - apply index_ok_of_keys. unfold index_entries. by rewrite with_next_first_keys, lay_keys.
  - unfold offsets_increase. rewrite entries_keyed. by apply lay_offsets.
  - intros l x r k Hm Hk. unfold keyed in Hm. apply map_eq_app in Hm as (l0 & m0 & Hes & <- & Hm).
    apply map_eq_cons in Hm as (e & r0 & -> & <- & <-). cbn [snd] in Hk.
    pose proof (entries_placed bs) as Hp. rewrite Hes in Hp.
    apply Forall2_app_inv_l in Hp as (q1 & q & _ & Hp & Hbs).
    apply Forall2_cons_inv_l in Hp as (b & q2 & Heb & Hp & ->).
    rewrite (blocks_of_placed bs e b Heb) in Hk. apply list_elem_of_fmap in Hk as (kv & -> & Hkv).
    destruct (wr_between W q1 b q2 kv Hbs Hkv) as [Hle Hnext]. destruct Heb as [Hfk _].
    assert (Hsep : forall e (b : DataPart), first_key e = key_from_bytes b.2 -> sep (first_key e, e) = part_sep b)
      by (intros e' b' E; unfold sep, part_sep; cbn [fst]; by rewrite E).
    rewrite (Hsep e b Hfk). split; [done|]. destruct Hp as [|e' b' r1 q3 [Hfk' _] Hp]; [constructor|].
    cbn [map firstn] in *. apply Forall_cons_1 in Hnext as [Hn _]. constructor; [|constructor]. by rewrite (Hsep e' b' Hfk').
Qed.

Lemma written_file_opens : exists r, reader_new file = Ok r /\ source r = Whole file /\ trailer r = written_trailer /\
  file_holds r (index_entries bs) (blocks_of bs).
Proof.
  unfold reader_new. rewrite trailer_read_written. cbn [res_bind]. unfold initialize_metadata, read_root_index.
  assert (Hl : load_on_open_data_offset (trailer (with_source (Whole file) written_trailer)) = blen (data_section bs))
    by (unfold written_trailer, trailer_of; cbn [with_source trailer load_on_open_data_offset]; by rewrite (wr_load W)).
  rewrite Hl, root_index_read. cbn [res_bind fst snd].
  assert (Hv : (1 <? num_data_index_levels (trailer (with_source (Whole file) written_trailer))) = false)
    by (unfold written_trailer, trailer_of; cbn [with_source trailer num_data_index_levels]; by rewrite (wr_levels W)).
  rewrite Hv. cbn [res_bind]. unfold read_meta_and_file_info. rewrite meta_index_read by done. cbn [res_bind fst snd].
  rewrite file_info_read by done. cbn [res_bind]. unfold check_mvcc_support, get_file_info. cbn [file_info].
  rewrite (wr_mvcc W). cbn [res_bind].
  set (r := mkHFileReader _ _ _ _ _ _). exists r. split; [done|]. split; [done|]. split; [done|].
  assert (Hsome : forall e, e ∈ index_entries bs -> exists b, b ∈ bs /\ placed bs e b /\ blocks_of bs e = b.1).
  { intros e He. destruct (entry_placed e He) as (b & Hb & Hp). exists b. split; [done|]. split; [done|]. by apply blocks_of_placed. }
  split.
  - done.
  - by eexists.
  - exact written_index_wf.
  - intros e He. destruct (Hsome e He) as (b & Hb & Hp & ->). eexists. split; [|by apply block_read]. done.
  - intros e He. destruct (Hsome e He) as (b & Hb & Hp & ->). pose proof (wr_blocks W) as Hw.
    rewrite list.Forall_forall in Hw. by destruct (Hw b Hb) as (? & ? & _).
  - intros e He. destruct (Hsome e He) as (b & Hb & (_ & q1 & q2 & Hq & Ho & Hz) & ->). rewrite Ho.
    destruct (block_in_file q1 b q2 Hq) as (_ & _ & Hlt). pose proof (blen_nonneg (data_section q1)).
    pose proof (write_block_longer Data (encode_kvs b.1)) as Hlong. unfold write_data in Hlt. unfold u64_max. lia.
  - intros Hz. unfold r, written_trailer, trailer_of in Hz. cbn [trailer entry_count] in Hz. rewrite (wr_entry_count W) in Hz.
    pose proof (wr_blocks W) as Hw. destruct (bs) as [|b l] eqn:E; [done|exfalso]. apply Forall_cons_1 in Hw as [(Hn & _) _].
    unfold all_records in Hz. rewrite E in Hz. cbn [map concat] in Hz. rewrite length_app in Hz. destruct b.1; [done|cbn in Hz; lia].
  - intros k Hk. rewrite flat_entries. subst r. cbn [last_key with_source set_data_index] in Hk.
    destruct (bt_get FILE_INFO_LAST_KEY info_map) as [b|] eqn:Eb; [|done]. injection Hk as <-. by apply (wr_last W).
  - rewrite flat_entries. apply (wr_sorted W).
Qed.
End written.

(** * What the reader owes *)
Section reading.
Context {G : Gunzip} {P : HFileProtos} {RS : RangeStore} {LS : LogStorage} {HS : HeadStore}.

Lemma holds_blocks_read r object es blocks : file_holds r es blocks -> source r = Whole object -> Forall entry_nonneg es ->
  blocks_read r object (fun e => map record_of (blocks e)).
Proof.
  intros F Hs Hn. split; [done|]. rewrite (fh_index _ _ _ F), entries_keyed.
  intros e He. rewrite list.Forall_forall in Hn. split; [by apply Hn|]. apply (records_in_block_ok r es blocks F e He). by apply Hn.
Qed.

Lemma holds_index_wf r es blocks : file_holds r es blocks ->
  index_wf (data_block_index r) (fun e => map hf_key (map record_of (blocks e))).
Proof.
  intros F. rewrite (fh_index _ _ _ F). pose proof (fh_wf _ _ _ F) as [H1 H2 H3]. split; [done|done|].
  intros l x q k Hm Hk. apply (H3 l x q); [done|]. rewrite map_map in Hk. exact Hk.
Qed.

Lemma all_records_of r es blocks : file_holds r es blocks ->
  concat (map (fun e => map record_of (blocks e)) (data_block_entries (data_block_index r))) = map record_of (flat blocks es).
Proof.
  intros F. rewrite (fh_index _ _ _ F), entries_keyed. unfold flat. by rewrite concat_map, map_map.
Qed.

Lemma written_nonneg bs : Forall entry_nonneg (index_entries bs).
Proof.
  apply list.Forall_forall. intros e (i & Hi)%list_elem_of_lookup.
  destruct (Forall2_lookup_l _ _ _ _ _ (entries_placed bs) Hi) as (b & _ & (_ & q1 & q2 & _ & Ho & Hz)).
  split; [rewrite Ho|rewrite Hz]; apply blen_nonneg.
Qed.

(** C31: an uncompressed HFile of one index level is read back as it was written. A
    file laid out by a writer -- blocks of records in key order, an index whose
    separators lie between the blocks' keys and strictly increase, no meta blocks, no
    version of key values, file info and trailer that agree with them, all within 2^31
    bytes -- opens, and what it gives is the records that were written, in order: by
    the cursor, with fuel for one step more than there are records, and by the stream
    of windows. *)
Theorem hfile_roundtrip bs info pairs minor proto p :
  writable bs info pairs minor proto p ->
  exists r, reader_new (write_file bs info minor proto) = Ok r /\
    (forall fuel s, (length (concat (map fst bs)) < fuel)%nat ->
      exists s', collect_records r fuel s = (Ok (map record_of (concat (map fst bs))), s')) /\
    (exists windows, stream_records r None = Ok windows /\ concat windows = map record_of (concat (map fst bs))).
Proof.
  intros W. destruct (written_file_opens bs info pairs minor proto p W) as (r & Hr & Hs & _ & F). exists r. split; [done|].
  rewrite <- flat_entries. split; [intros fuel s; by apply collect_records_ok|].
  pose proof (holds_blocks_read r _ _ _ F Hs (written_nonneg bs)) as Hb.
  destruct (predicate_read_ok r _ (Keys []) (whole_windows_read r _ _ Hb) (holds_index_wf r _ _ F) I)
    as (scanned & _ & Hsc & _ & E & _). exists scanned. split; [done|]. by rewrite E, (all_records_of r _ _ F).
Qed.

(** Lookups find what a search of the records would.  Looking up sorted keys
    with the cursor gives, for each, the first record with the key, or nothing --
    for keys whose own bytes do not read as a greater key's ([probe_ok]). *)
Theorem lookup_records_spec r es blocks keys s :
  file_holds r es blocks -> StronglySorted bytes_le keys -> Forall probe_ok keys ->
  exists s', lookup_records r keys s = (Ok (map (fun k => (k, first_record es blocks k)) keys), s').
Proof. intros F. by apply lookup_records_ok. Qed.

(** The records of a prefix, collected with the cursor from the first that may
    have it to the first past it, are the file's records whose key has it. *)
Theorem collect_records_by_prefix_spec r es blocks p fuel s :
  file_holds r es blocks -> probe_ok p -> (length (flat blocks es) < fuel)%nat ->
  exists s', collect_records_by_prefix r fuel p s =
    (Ok (map record_of (List.filter (fun kv => starts_with p (ck kv)) (flat blocks es))), s').
Proof. intros F. by apply collect_records_by_prefix_ok. Qed.

(** A file opened in ranges is the file opened whole: opening gives the same
    trailer, index, meta index, file info and last key, whatever the number of
    levels of the index and the window budget. *)
Theorem ranged_open_agrees configs path object budget r :
  object_served path object -> stream_window_size configs = Some budget ->
  reader_new object = Ok r -> 0 <= load_on_open_data_offset (trailer r) ->
  exists r', open_ranged configs path = Ok r' /\ trailer r' = trailer r /\ data_block_index r' = data_block_index r /\
    meta_block_index r' = meta_block_index r /\ file_info r' = file_info r /\ last_key r' = last_key r.
Proof.
  intros Ho Hb Hr H0. destruct (open_ranged_ok configs path object budget r Ho Hb Hr H0) as (_ & _ & E).
  eexists. split; [exact E|done].
Qed.

(** C32: reading by key is scanning and filtering. Of a file that opens, whose index
    and blocks hold records in key order at offsets that are not negative, served by
    the storage as it stands, with a window budget that is configured: the windows read
    for a key predicate hold, all together, the records of the scan of the whole file
    that the predicate admits, in the same order -- from the file in memory, and from
    the file opened in ranges. A predicate is a list of keys, or of prefixes none of
    which is itself a key of one block and the separator of the next. *)
Theorem predicate_read_is_filtered_scan configs path object budget r es blocks p :
  object_served path object -> stream_window_size configs = Some budget ->
  reader_new object = Ok r -> 0 <= load_on_open_data_offset (trailer r) ->
  file_holds r es blocks -> Forall entry_nonneg es ->
  predicate_covered (data_block_index r) (fun e => map hf_key (map record_of (blocks e))) p ->
  exists r', open_ranged configs path = Ok r' /\
    forall q, q = r \/ q = r' ->
      exists scanned selected, stream_records q None = Ok scanned /\ stream_records q (Some p) = Ok selected /\
        concat scanned = map record_of (flat blocks es) /\
        concat selected = List.filter (record_admitted p) (concat scanned).
Proof.
  intros Ho Hb Hr H0 F Hn Hc. destruct (open_ranged_ok configs path object budget r Ho Hb Hr H0) as (_ & Hs & E).
  eexists. split; [exact E|]. pose proof (holds_blocks_read r object es blocks F Hs Hn) as Hbr.
  rewrite <- (all_records_of r es blocks F). intros q [->| ->].
  - by apply predicate_read_ok; [apply (whole_windows_read r object)|apply (holds_index_wf r es)|].
  - apply (predicate_read_ok (in_ranges path object _ budget r) (fun e => map record_of (blocks e)) p);
      [|by apply (holds_index_wf r es)|done]. apply ranged_windows_read; [|done]. by apply (os_ranges _ _ Ho).
Qed.
End reading.

(** * Samples *)
Module SampleHFile.
Definition hkey (content : bytes) : bytes := to_be_bytes 2 (blen content) ++ content.

Definition rec (k v : string) : bytes * bytes := (hkey (ascii_bytes k) ++ [zero_byte], ascii_bytes v).

(** Two blocks; the second's separator is shorter than its first key. *)
Definition parts : list DataPart :=
  [([rec "aa" "1"; rec "ab" "2"; rec "ab" "3"]%string, hkey (ascii_bytes "aa"));
   ([rec "bb" "4"; rec "bcd" ""]%string, hkey (ascii_bytes "b"))].

Definition pairs : list (bytes * bytes) := [(ascii_bytes FILE_INFO_LAST_KEY, hkey (ascii_bytes "bcd"))].

Definition trailer_proto (bs : list DataPart) : TrailerProto :=
  mkTrailerProto None (Some (blen (data_section bs))) None None (Some (Z.of_nat (length bs))) None
    (Some (Z.of_nat (length (concat (map fst bs))))) None None None None (Some 2).

(** Messages known by one byte. *)
Global Instance sample_protos : HFileProtos := {
  decode_trailer b := if decide (b = ascii_bytes "T") then Some (trailer_proto parts) else None;
  decode_info b := if decide (b = ascii_bytes "I") then Some pairs else None
}.

Global Instance no_gunzip : Gunzip := fun _ => None.

Definition sample : bytes := write_file parts (ascii_bytes "I") 0 (ascii_bytes "T").

(** A property of each block, the records in it and the block after it. *)
Definition each_block (bs : list DataPart) (f : DataPart -> list DataPart -> bool) : bool :=
  forallb (fun i => match drop i bs with b :: r => f b r | [] => true end) (seq 0 (length bs)).

Lemma each_block_at bs f l b r : each_block bs f = true -> bs = l ++ b :: r -> f b r = true.
Proof.
  intros H E. unfold each_block in H. rewrite forallb_forall in H. specialize (H (length l)).
  rewrite E, drop_app_length in H. apply H, in_seq. rewrite length_app. cbn. lia.
Qed.

Definition le_b (a b : bytes) : bool := match bytes_cmp a b with Gt => false | _ => true end.

Lemma le_b_ok a b : le_b a b = true -> bytes_le a b.
Proof. unfold le_b, bytes_le. by destruct (bytes_cmp a b). Qed.

Lemma sample_between l b r kv : parts = l ++ b :: r -> kv ∈ b.1 ->
  bytes_le (part_sep b) (ck kv) /\ Forall (fun b' => bytes_le (ck kv) (part_sep b')) (take 1 r).
Proof.
  intros E Hkv.
  pose proof (each_block_at parts (fun b r => forallb (fun kv => le_b (part_sep b) (ck kv) &&
    forallb (fun b' => le_b (ck kv) (part_sep b')) (take 1 r)) b.1) l b r ltac:(vm_compute; reflexivity) E) as H.
  cbn beta in H. rewrite forallb_forall in H. apply list_elem_of_In in Hkv. specialize (H kv Hkv).
  apply andb_prop in H as [H1 H2]. split; [by apply le_b_ok|]. rewrite forallb_forall in H2.
  apply list.Forall_forall. intros b' Hb'. apply le_b_ok, H2. by apply list_elem_of_In.
Qed.

Lemma sample_writable : writable parts (ascii_bytes "I") pairs 0 (ascii_bytes "T") (trailer_proto parts).
Proof.
  split.
  - vm_compute. reflexivity.
  - vm_compute. intros [=].
  - lia.
  - vm_compute. reflexivity.
  - by right.
  - reflexivity.
  - reflexivity.
  - reflexivity.
  - reflexivity.
  - reflexivity.
  - vm_compute. reflexivity.
  - intros b Hb. assert (E : Some b = Some (hkey (ascii_bytes "bcd"))) by (rewrite <- Hb; vm_compute; reflexivity).
    injection E as ->. split; [vm_compute; reflexivity|]. repeat constructor; vm_compute; intros [=].
  - vm_compute. reflexivity.
  - repeat constructor; vm_compute; congruence.
  - repeat constructor; vm_compute; reflexivity.
  - exact sample_between.
  - repeat constructor; vm_compute; intros [=].
Qed.

(** A store with the one file. *)
Global Instance sample_ranges : RangeStore := fun _ ranges => Some ((fun r => slice sample r.1 r.2) <$> ranges).
Global Instance sample_storage : LogStorage := {| log_object := fun _ => Ok sample; log_store := fun _ => store_of sample |}.
Global Instance sample_head : HeadStore := fun _ => Some (blen sample).

Lemma sample_served path : object_served path sample.
Proof.
  split; [split|done|done].
  - vm_compute. intros [=].
  - intros from to _ _. done.
  - intros ranges _. done.
Qed.

Lemma sample_opens : exists r, reader_new sample = Ok r /\ 0 <= load_on_open_data_offset (trailer r) /\
  file_holds r (index_entries parts) (blocks_of parts).
Proof.
  destruct (written_file_opens _ _ _ _ _ _ sample_writable) as (r & Hr & _ & Ht & F). exists r. split; [exact Hr|].
  split; [|exact F]. rewrite Ht. vm_compute. intros [=].
Qed.

Lemma hfile_roundtrip_witness :
  exists r, reader_new sample = Ok r /\
    (forall fuel s, (5 < fuel)%nat -> exists s', collect_records r fuel s = (Ok (map record_of (concat (map fst parts))), s')) /\
    (exists windows, stream_records r None = Ok windows /\ concat windows = map record_of (concat (map fst parts))).
Proof. exact (hfile_roundtrip parts (ascii_bytes "I") pairs 0 (ascii_bytes "T") (trailer_proto parts) sample_writable). Defined.

Definition wanted : list bytes := map ascii_bytes ["ab"; "b"; "bcd"; "bcd"; "zz"]%string.

Lemma lookup_records_spec_witness :
  exists r s', reader_new sample = Ok r /\ lookup_records r wanted initial_state =
    (Ok [(ascii_bytes "ab", Some (mkHFileRecord (ascii_bytes "ab") (ascii_bytes "2"))); (ascii_bytes "b", None);
         (ascii_bytes "bcd", Some (mkHFileRecord (ascii_bytes "bcd") [])); (ascii_bytes "bcd", Some (mkHFileRecord (ascii_bytes "bcd") []));
         (ascii_bytes "zz", None)], s').
Proof.
  destruct sample_opens as (r & Hr & _ & F).
  destruct (lookup_records_spec r _ _ wanted initial_state F) as (s' & H).
  - repeat constructor; vm_compute; intros [=].
  - repeat constructor; try (vm_compute; reflexivity); right; vm_compute; reflexivity.
  - exists r, s'. split; [exact Hr|]. rewrite H. f_equal.
Defined.

Lemma collect_records_by_prefix_spec_witness :
  exists r s', reader_new sample = Ok r /\ collect_records_by_prefix r 6 (ascii_bytes "a") initial_state =
    (Ok [mkHFileRecord (ascii_bytes "aa") (ascii_bytes "1"); mkHFileRecord (ascii_bytes "ab") (ascii_bytes "2");
         mkHFileRecord (ascii_bytes "ab") (ascii_bytes "3")], s').
Proof.
  destruct sample_opens as (r & Hr & _ & F).
  destruct (collect_records_by_prefix_spec r _ _ (ascii_bytes "a") 6 initial_state F) as (s' & H).
  - split; [vm_compute; reflexivity|right; vm_compute; reflexivity].
  - rewrite flat_entries. vm_compute. repeat constructor.
  - exists r, s'. split; [exact Hr|]. rewrite H, flat_entries. f_equal.
Defined.

Lemma ranged_open_agrees_witness :
  exists r r', reader_new sample = Ok r /\ open_ranged ∅ "f" = Ok r' /\ trailer r' = trailer r /\
    data_block_index r' = data_block_index r /\ meta_block_index r' = meta_block_index r /\
    file_info r' = file_info r /\ last_key r' = last_key r.
Proof.
  destruct sample_opens as (r & Hr & H0 & _).
  assert (Hw : stream_window_size ∅ = Some (16 * 1024 * 1024)) by (vm_compute; reflexivity).
  pose proof (sample_served "f") as Hs.
  pose proof (ranged_open_agrees ∅ "f" sample (16 * 1024 * 1024) r Hs Hw Hr H0) as (r' & H).
  exists r, r'. split; [exact Hr|exact H].
Defined.

Lemma predicate_read_is_filtered_scan_witness :
  exists r r', reader_new sample = Ok r /\ open_ranged ∅ "f" = Ok r' /\
    forall q, q = r \/ q = r' ->
      exists scanned selected, stream_records q None = Ok scanned /\
        stream_records q (Some (Keys (map ascii_bytes ["ab"; "bb"]%string))) = Ok selected /\
        concat scanned = map record_of (flat (blocks_of parts) (index_entries parts)) /\
        concat selected = List.filter (record_admitted (Keys (map ascii_bytes ["ab"; "bb"]%string))) (concat scanned).
Proof.
  destruct sample_opens as (r & Hr & H0 & F).
  assert (Hw : stream_window_size ∅ = Some (16 * 1024 * 1024)) by (vm_compute; reflexivity).
  pose proof (sample_served "f") as Hs.
  pose proof (predicate_read_is_filtered_scan ∅ "f" sample (16 * 1024 * 1024) r (index_entries parts) (blocks_of parts)
    (Keys (map ascii_bytes ["ab"; "bb"]%string)) Hs Hw Hr H0 F (written_nonneg parts) I) as (r' & H).
  exists r, r'. split; [exact Hr|exact H].
Defined.
End SampleHFile.

(** A key whose first bytes are a small number: the seek takes it for a key with a
    length prefix, and jumps past the block that holds it.  The file is written as
    it should be, and the key is there. *)
Module LostKey.
Definition key (l : list N) : bytes := map ascii_of_N l.

Definition rec (k : bytes) : bytes * bytes := (SampleHFile.hkey k, ascii_bytes "v").

Definition parts : list DataPart :=
  [([rec (key [0; 1; 97]%N)], SampleHFile.hkey (key [0; 1; 97]%N));
   ([rec (key [0; 1; 98]%N)], SampleHFile.hkey (key [0; 1; 98]%N));
   ([rec (key [97]%N); rec (key [99]%N)], SampleHFile.hkey (key [97]%N))].

Local Instance protos : HFileProtos := {
  decode_trailer _ := Some (SampleHFile.trailer_proto parts);
  decode_info _ := Some []
}.

Definition lost : bytes := key [0; 1; 98]%N.

Example present_key_not_found :
  match reader_new (write_file parts (ascii_bytes "I") 0 (ascii_bytes "T")) with
  | Ok r =>
      fst (lookup_records r [lost] initial_state) = Ok [(lost, None)] /\
      first_record (index_entries parts) (blocks_of parts) lost = Some (mkHFileRecord lost (ascii_bytes "v"))
  | _ => False
  end.
Proof. vm_compute. done. Qed.
End LostKey.
