(* ===== verification/Expr.v ===== *)
(** Filters on columns: crates/core/src/expr/mod.rs and the part of
    expr/filter.rs that does not touch Arrow arrays -- operators, filters, and
    their form as three strings.  What filters do to columns is in [ArrowFilter]. *)
From Stdlib Require Import Ascii.
From stdpp Require Import base gmap sets list strings sorting numbers.
From S2P Require Import Prelude RustStr.
Local Open Scope res_scope.

(** * Operators *)
Inductive ExprOperator := Eq_ | Ne | Lt_ | Lte | Gt_ | Gte | In_ | NotIn.

Global Instance ExprOperator_eq_dec : EqDecision ExprOperator.
Proof. solve_decision. Defined.

(** [impl Display] *)
Definition operator_to_string (op : ExprOperator) : string :=
  match op with
  | Eq_ => "=" | Ne => "!=" | Lt_ => "<" | Lte => "<=" | Gt_ => ">" | Gte => ">="
  | In_ => "IN" | NotIn => "NOT IN"
  end.

Definition TOKEN_OP_PAIRS : list (string * ExprOperator) :=
  [("=", Eq_); ("!=", Ne); ("<", Lt_); ("<=", Lte); (">", Gt_); (">=", Gte); ("IN", In_); ("NOT IN", NotIn)].

Definition is_multi_value (op : ExprOperator) : bool :=
  match op with In_ | NotIn => true | _ => false end.

(** [ExprOperator::negate] *)
Definition operator_negate (op : ExprOperator) : option ExprOperator :=
  Some match op with
  | Eq_ => Ne | Ne => Eq_ | Lt_ => Gte | Lte => Gt_ | Gt_ => Lte | Gte => Lt_ | In_ => NotIn | NotIn => In_
  end.

Definition eq_ignore_ascii_case (s t : string) : bool :=
  bool_decide (to_ascii_lowercase s = to_ascii_lowercase t).

(** [ExprOperator::from_str] *)
Definition operator_from_str (s : string) : res ExprOperator :=
  ok_or (snd <$> find (fun p => eq_ignore_ascii_case p.1 s) TOKEN_OP_PAIRS) EUnsupported.

(** * Filters *)
Record Filter := mkFilter {
  field : string;
  operator : ExprOperator;
  values : list string
}.

Global Instance Filter_eq_dec : EqDecision Filter.
Proof. solve_decision. Defined.

(** [Filter::new] *)
Definition filter_new (field : string) (op : ExprOperator) (values : list string) : res Filter :=
  if is_multi_value op then
    match values with
    | [] => Err ESchema
    | _ => Ok (mkFilter field op values)
    end
  else
    if negb (length values =? 1)%nat then Err ESchema
    else Ok (mkFilter field op values).

(** [Filter::negate] *)
Definition filter_negate (f : Filter) : option Filter :=
  (fun op => mkFilter (field f) op (values f)) <$> operator_negate (operator f).

Definition backslash : ascii := "\".
Definition comma : ascii := ",".

(** What [split_in_values] does with a finished segment. *)
Definition push_trimmed (current : string) (rest : list string) : list string :=
  let trimmed := trim current in
  if decide (trimmed = "") then rest else trimmed :: rest.

(** The loop over the characters; [current] is the segment so far. *)
Fixpoint split_in_loop (s current : string) : list string :=
  match s with
  | EmptyString => push_trimmed current []
  | String c rest =>
      if ascii_eqb c backslash then
        match rest with
        | String c' rest' =>
            if ascii_eqb c' comma then split_in_loop rest' (current +:+ String comma "")
            else if ascii_eqb c' backslash then split_in_loop rest' (current +:+ String backslash "")
            else split_in_loop rest (current +:+ String backslash "")
        | EmptyString => split_in_loop rest (current +:+ String backslash "")
        end
      else if ascii_eqb c comma then push_trimmed current (split_in_loop rest "")
      else split_in_loop rest (current +:+ String c "")
  end.

Definition split_in_values (s : string) : list string := split_in_loop s "".

Fixpoint escape_in_value (v : string) : string :=
  match v with
  | EmptyString => ""
  | String c rest =>
      if ascii_eqb c backslash then String backslash (String backslash (escape_in_value rest))
      else if ascii_eqb c comma then String backslash (String comma (escape_in_value rest))
      else String c (escape_in_value rest)
  end.

(** [From<Filter> for (String, String, String)] *)
Definition filter_to_tuple (f : Filter) : string * string * string :=
  (field f, operator_to_string (operator f),
   if is_multi_value (operator f) then str_join comma (escape_in_value <$> values f)
   else default "" (head (values f))).

(** [TryFrom<(&str, &str, &str)> for Filter] *)
Definition filter_from_tuple (t : string * string * string) : res Filter :=
  let '(field, operator_str, field_value) := t in
  let? op := operator_from_str operator_str in
  filter_new field op (if is_multi_value op then split_in_values field_value else [field_value]).

Definition from_str_tuples (tuples : list (string * string * string)) : res (list Filter) :=
  res_mapM filter_from_tuple tuples.

(** The constructors of [FilterField], [col(name).eq(value)] and so on. *)
Definition field_eq (name value : string) : Filter := mkFilter name Eq_ [value].
Definition field_ne (name value : string) : Filter := mkFilter name Ne [value].
Definition field_lt (name value : string) : Filter := mkFilter name Lt_ [value].
Definition field_lte (name value : string) : Filter := mkFilter name Lte [value].
Definition field_gt (name value : string) : Filter := mkFilter name Gt_ [value].
Definition field_gte (name value : string) : Filter := mkFilter name Gte [value].
Definition in_list (name : string) (values : list string) : Filter := mkFilter name In_ values.
Definition not_in_list (name : string) (values : list string) : Filter := mkFilter name NotIn values.

(** * Well-formed filters *)
Definition filter_wf (f : Filter) : Prop :=
  if is_multi_value (operator f) then values f <> [] else length (values f) = 1%nat.

Lemma filter_new_wf name op vs f : filter_new name op vs = Ok f -> filter_wf f /\ f = mkFilter name op vs.
Proof.
  unfold filter_new, filter_wf. destruct (is_multi_value op) eqn:E.
  - destruct vs; [done|]. intros [= <-]. by cbn [operator values]; rewrite E.
  - destruct (Nat.eqb_spec (length vs) 1); [|done]. intros [= <-]. by cbn [operator values]; rewrite E.
Qed.

Lemma wf_filter_new f : filter_wf f -> filter_new (field f) (operator f) (values f) = Ok f.
Proof.
  destruct f as [name op vs]. unfold filter_wf, filter_new. cbn [field operator values].
  destruct (is_multi_value op); [by destruct vs|]. by intros ->.
Qed.

Lemma operator_roundtrip op : operator_from_str (operator_to_string op) = Ok op.
Proof. by destruct op. Qed.

Lemma operator_negate_involutive op op' : operator_negate op = Some op' -> operator_negate op' = Some op.
Proof. by destruct op; intros [= <-]. Qed.

(** * Reading back a list of values *)
Lemma split_in_here v rest current :
  split_in_loop (escape_in_value v +:+ rest) current = split_in_loop rest (current +:+ v).
Proof.
  revert current. induction v as [|c v IH]; intros current; cbn [escape_in_value].
  - by rewrite str_app_nil_l, str_app_nil_r.
  - replace (current +:+ String c v) with ((current +:+ String c "") +:+ v) by
      (by rewrite str_app_assoc, str_app_cons, str_app_nil_l).
    destruct (ascii_eqb_spec c backslash) as [->|Hb].
    { rewrite !str_app_cons. cbn [split_in_loop]. by rewrite <- IH. }
    destruct (ascii_eqb_spec c comma) as [->|Hc].
    { rewrite !str_app_cons. cbn [split_in_loop]. by rewrite <- IH. }
    rewrite str_app_cons. cbn [split_in_loop].
    destruct (ascii_eqb_spec c backslash); [done|]. destruct (ascii_eqb_spec c comma); [done|]. by rewrite IH.
Qed.

(** A value that survives: not empty, and with no blanks around it. *)
Definition value_kept (v : string) : Prop := v <> "" /\ trim v = v.

Global Instance value_kept_dec v : Decision (value_kept v).
Proof. apply _. Defined.

Lemma push_kept v rest : value_kept v -> push_trimmed v rest = v :: rest.
Proof. intros [Hn Ht]. unfold push_trimmed. rewrite Ht. by rewrite decide_False. Qed.

Lemma split_escaped vs : vs <> [] -> Forall value_kept vs ->
  split_in_values (str_join comma (escape_in_value <$> vs)) = vs.
Proof.
  intros Hn Hk. unfold split_in_values. induction Hk as [|v vs Hv Hk IH]; [done|].
  destruct vs as [|w vs].
  - cbn [fmap list_fmap str_join]. rewrite <- (str_app_nil_r (escape_in_value v)), split_in_here.
    cbn [split_in_loop]. rewrite str_app_nil_l. by apply push_kept.
  - change (str_join comma (escape_in_value <$> (v :: w :: vs))) with
      (escape_in_value v +:+ String comma (str_join comma (escape_in_value <$> (w :: vs)))).
    rewrite split_in_here. cbn [split_in_loop]. rewrite str_app_nil_l, push_kept by done.
    change (ascii_eqb comma backslash) with false. change (ascii_eqb comma comma) with true. cbv iota.
    by rewrite IH.
Qed.

(** A filter written as three strings reads back.  Values of the list operators
    may hold commas and backslashes; they come back if they are not empty and have
    no blanks around them. *)
Theorem filter_tuple_roundtrip f :
  filter_wf f -> (is_multi_value (operator f) = true -> Forall value_kept (values f)) ->
  filter_from_tuple (filter_to_tuple f) = Ok f.
Proof.
  intros Hf Hv. unfold filter_from_tuple, filter_to_tuple. rewrite operator_roundtrip. cbn [res_bind].
  destruct (is_multi_value (operator f)) eqn:E.
  - rewrite split_escaped; [by apply wf_filter_new|by unfold filter_wf in Hf; rewrite E in Hf|by apply Hv].
  - assert (Hl : [default "" (head (values f))] = values f).
    { unfold filter_wf in Hf. rewrite E in Hf. by destruct (values f) as [|v [|]]. }
    rewrite Hl. by apply wf_filter_new.
Qed.

Lemma filter_tuple_roundtrip_witness :
  filter_from_tuple (filter_to_tuple (in_list "name" ["Doe, John"; "back\slash"; "\"; "a\,b"])) =
    Ok (in_list "name" ["Doe, John"; "back\slash"; "\"; "a\,b"]).
Proof.
  apply filter_tuple_roundtrip; [done|].
  intros _. apply (bool_decide_unpack _). vm_compute. exact I.
Defined.

(** Blanks around a value, and empty values, do not come back. *)
Example blanks_are_lost :
  filter_from_tuple (filter_to_tuple (in_list "name" [" a "; ""; "b"])) = Ok (in_list "name" ["a"; "b"]) /\
  filter_from_tuple (filter_to_tuple (in_list "name" [""])) = Err ESchema.
Proof. split; reflexivity. Qed.
