(* ===== verification/ArrowFilter.v ===== *)
(** Filters on Arrow columns: the rest of crates/core/src/expr/filter.rs.

    Arrow's data types, the casts of strings and the comparison and boolean
    kernels are the library's: [ArrowScalars] has the calls the code makes and
    [ScalarLaws] what their documentation says of them.  A value is one element
    of an array, with the type of its array; a null is [None]. *)
From Stdlib Require Import Ascii.
From stdpp Require Import base gmap sets list strings sorting numbers.
From S2P Require Import Prelude RustStr Expr.
Local Open Scope res_scope.

(** * Arrow's types and kernels *)
Inductive TimeUnit := Second | Millisecond | Microsecond | Nanosecond.

(** The types the code names; [OtherType] is any other. *)
Inductive DataType :=
  | Boolean
  | Int8 | Int16 | Int32 | Int64
  | UInt8 | UInt16 | UInt32 | UInt64
  | Float32 | Float64
  | Date32
  | Timestamp (unit : TimeUnit) (tz : option string)
  | Utf8 | LargeUtf8
  | Binary
  | OtherType (n : nat).

Global Instance TimeUnit_eq_dec : EqDecision TimeUnit.
Proof. solve_decision. Defined.

Global Instance DataType_eq_dec : EqDecision DataType.
Proof. solve_decision. Defined.

(** Elements; a float is its bits. *)
Inductive Datum := DBool (b : bool) | DInt (z : Z) | DFloat (bits : Z) | DBytes (b : string) | DOther (n : nat).

Record Value := mkValue { value_type : DataType; datum : Datum }.

Record Column := mkColumn { column_type : DataType; column_values : list (option Value) }.

Record Field := mkField { field_name : string; data_type : DataType }.

Abbreviation Schema := (list Field).

Record Batch := mkBatch { batch_schema : Schema; columns : list Column; num_rows : nat }.

Abbreviation Mask := (list (option bool)).

Inductive CmpOp := CEq | CNeq | CLt | CLtEq | CGt | CGtEq.

Class ArrowScalars := {
  (** [cast_with_options] of a string, with [safe] off *)
  cast_str : string -> DataType -> option Value;
  (** the order of a type, for the types that have one *)
  ordered_type : DataType -> bool;
  value_cmp : Value -> Value -> comparison;
  (** [eq], [neq], [lt], [lt_eq], [gt], [gt_eq] of [arrow_ord::cmp], of a column and a scalar *)
  arrow_cmp : CmpOp -> Column -> Value -> res Mask;
  (** [arrow_arith::boolean::and], [or] *)
  boolean_and : Mask -> Mask -> res Mask;
  boolean_or : Mask -> Mask -> res Mask
}.

Definition cmp_holds (op : CmpOp) (c : comparison) : bool :=
  match op, c with
  | CEq, Eq | CNeq, (Lt | Gt) | CLt, Lt | CLtEq, (Lt | Eq) | CGt, Gt | CGtEq, (Gt | Eq) => true
  | _, _ => false
  end.

(** A null on either side is null. *)
Definition null_op (f : bool -> bool -> bool) (a b : option bool) : option bool :=
  match a, b with Some a, Some b => Some (f a b) | _, _ => None end.

Definition well_typed (c : Column) : Prop := Forall (fun x => forall v, x = Some v -> value_type v = column_type c) (column_values c).

Class ScalarLaws (AS : ArrowScalars) : Prop := {
  cast_type s t v : cast_str s t = Some v -> value_type v = t;
  (** the elements of an ordered type are totally ordered *)
  value_cmp_swap a b : value_type a = value_type b -> value_cmp a b = CompOpp (value_cmp b a);
  value_le_trans a b c : value_type a = value_type b -> value_type b = value_type c ->
    value_cmp a b <> Gt -> value_cmp b c <> Gt -> value_cmp a c <> Gt;
  (** comparison kernels compare elements and keep nulls; types must agree *)
  arrow_cmp_ok op c v : column_type c = value_type v -> ordered_type (value_type v) = true ->
    arrow_cmp op c v = Ok (map (fmap (fun x => cmp_holds op (value_cmp x v))) (column_values c));
  arrow_cmp_type op c v : column_type c <> value_type v -> arrow_cmp op c v = Err EArrow;
  arrow_cmp_unordered op c v : ordered_type (value_type v) = false -> arrow_cmp op c v = Err EArrow;
  (** texts are their bytes, in order *)
  utf8_cast s : cast_str s Utf8 = Some (mkValue Utf8 (DBytes s));
  utf8_ordered : ordered_type Utf8 = true;
  utf8_cmp s t : value_cmp (mkValue Utf8 (DBytes s)) (mkValue Utf8 (DBytes t)) = (s ?= t)%string;
  boolean_and_ok a b : length a = length b -> boolean_and a b = Ok (zip_with (null_op andb) a b);
  boolean_or_ok a b : length a = length b -> boolean_or a b = Ok (zip_with (null_op orb) a b)
}.

(** [Schema::field_with_name] *)
Definition field_with_name (s : Schema) (name : string) : option Field :=
  find (fun f => bool_decide (field_name f = name)) s.

Fixpoint index_of (name : string) (s : Schema) : option nat :=
  match s with
  | [] => None
  | f :: s => if decide (field_name f = name) then Some 0 else S <$> index_of name s
  end.

(** [RecordBatch::column_by_name] *)
Definition column_by_name (b : Batch) (name : string) : option Column :=
  i ← index_of name (batch_schema b); columns b !! i.

(** * Schemable filters *)
Record SchemableFilter := mkSchemable {
  sfield : Field;
  soperator : ExprOperator;
  svalues : list Value
}.

Section filters.
Context {AS : ArrowScalars}.

Definition cast_value (value : string) (t : DataType) : res Value := ok_or (cast_str value t) ESchema.

(** [TryFrom<(Filter, &Schema)> for SchemableFilter] *)
Definition schemable_try_from (filter : Filter) (schema : Schema) : res SchemableFilter :=
  let? arrow_field := ok_or (field_with_name schema (field filter)) ESchema in
  let? values := res_mapM (fun v => cast_value v (data_type arrow_field)) (values filter) in
  Ok (mkSchemable arrow_field (operator filter) values).

(** The loops of [IN] and [NOT IN]. *)
Definition compare_more (op : CmpOp) (combine : Mask -> Mask -> res Mask) (column : Column) (result : Mask) (v : Value)
    : res Mask :=
  let? comparison := arrow_cmp op column v in combine result comparison.

(** [&self.values[0]] *)
Definition first_value (f : SchemableFilter) : res Value :=
  match svalues f with v :: _ => Ok v | [] => Panic end.

Definition compare_all (op : CmpOp) (combine : Mask -> Mask -> res Mask) (f : SchemableFilter) (column : Column)
    : res Mask :=
  let? first := first_value f in
  let? result := arrow_cmp op column first in
  res_fold (compare_more op combine column) (tail (svalues f)) result.

Definition compare_first (op : CmpOp) (f : SchemableFilter) (column : Column) : res Mask :=
  let? first := first_value f in arrow_cmp op column first.

Definition apply_comparison (f : SchemableFilter) (column : Column) : res Mask :=
  match soperator f with
  | Eq_ => compare_first CEq f column
  | Ne => compare_first CNeq f column
  | Lt_ => compare_first CLt f column
  | Lte => compare_first CLtEq f column
  | Gt_ => compare_first CGt f column
  | Gte => compare_first CGtEq f column
  | In_ => compare_all CEq boolean_or f column
  | NotIn => compare_all CNeq boolean_and f column
  end.

Definition mask_step (batch : Batch) (mask : option Mask) (filter : Filter) : res (option Mask) :=
  match column_by_name batch (field filter) with
  | None => Ok mask
  | Some column =>
      let? schemable := schemable_try_from filter (batch_schema batch) in
      let? column_mask := apply_comparison schemable column in
      match mask with
      | Some prev => let? both := boolean_and prev column_mask in Ok (Some both)
      | None => Ok (Some column_mask)
      end
  end.

Definition filters_to_row_mask (filters : list Filter) (batch : Batch) : res Mask :=
  let? mask := res_fold (mask_step batch) filters None in
  Ok (default (replicate (num_rows batch) (Some true)) mask).

(** [validate_fields_against_schemas] *)
Definition validate_fields_against_schemas (filters : list Filter) (schemas : list Schema) : res unit :=
  let valid : gset string := list_to_set (field_name <$> concat schemas) in
  if forallb (fun f => bool_decide (field f ∈ valid)) filters then Ok tt else Err ESchema.
End filters.

(** * What a filter keeps

    The reference: the test a filter makes of one element.  A null fails every
    test, also those of [Ne] and [NotIn]. *)
Section reference.
Context {AS : ArrowScalars} {SL : ScalarLaws AS}.

Definition element_test (op : ExprOperator) (vs : list Value) (x : Value) : bool :=
  match op, vs with
  | _, [] => false
  | Eq_, v :: _ => cmp_holds CEq (value_cmp x v)
  | Ne, v :: _ => cmp_holds CNeq (value_cmp x v)
  | Lt_, v :: _ => cmp_holds CLt (value_cmp x v)
  | Lte, v :: _ => cmp_holds CLtEq (value_cmp x v)
  | Gt_, v :: _ => cmp_holds CGt (value_cmp x v)
  | Gte, v :: _ => cmp_holds CGtEq (value_cmp x v)
  | In_, vs => existsb (fun v => cmp_holds CEq (value_cmp x v)) vs
  | NotIn, vs => forallb (fun v => cmp_holds CNeq (value_cmp x v)) vs
  end.

Definition filter_test (f : SchemableFilter) (x : Value) : bool := element_test (soperator f) (svalues f) x.

(** A filter that has been cast: as many values as its operator takes, of the type
    of its field. *)
Definition schemable_wf (f : SchemableFilter) : Prop :=
  svalues f <> [] /\ Forall (fun v => value_type v = data_type (sfield f)) (svalues f).

Lemma schemable_try_from_ok f s sf : schemable_try_from f s = Ok sf ->
  field_with_name s (field f) = Some (sfield sf) /\ soperator sf = operator f /\
  Forall2 (fun w v => cast_str w (data_type (sfield sf)) = Some v) (values f) (svalues sf).
Proof.
  unfold schemable_try_from. intros H. res_inv H. cbn [sfield soperator svalues].
  apply ok_or_Ok in E. split_and!; [done|done|]. apply res_mapM_Ok in E0. eapply list.Forall2_impl; [exact E0|]. intros w v Hv. by apply ok_or_Ok in Hv.
Qed.

Lemma schemable_wf_from f s sf : values f <> [] -> schemable_try_from f s = Ok sf -> schemable_wf sf.
Proof.
  intros Hn (_ & _ & H)%schemable_try_from_ok. split.
  - intros E. rewrite E in H. by inversion H; destruct (values f).
  - eapply Forall2_Forall_r; [exact H|]. apply list.Forall_forall. intros w _ v. apply cast_type.
Qed.

Lemma zip_same f (g h : Value -> bool) (l : list (option Value)) :
  zip_with (null_op f) (map (fmap g) l) (map (fmap h) l) = map (fmap (fun x => f (g x) (h x))) l.
Proof. induction l as [|[x|] l IH]; [done|cbn; by rewrite IH..]. Qed.

Lemma compare_all_ok op combine (f : bool -> bool -> bool) (g : Value -> bool) c vs :
  (forall a b, length a = length b -> combine a b = Ok (zip_with (null_op f) a b)) ->
  Forall (fun v => column_type c = value_type v) vs -> ordered_type (column_type c) = true ->
  res_fold (compare_more op combine c) vs (map (fmap g) (column_values c)) =
    Ok (map (fmap (fun x => foldl (fun b v => f b (cmp_holds op (value_cmp x v))) (g x) vs)) (column_values c)).
Proof.
  intros Hc Hv Ho. revert g. induction Hv as [|v vs Hv Hvs IH]; intros g; cbn [res_fold foldl]; [done|].
  unfold compare_more at 1. rewrite arrow_cmp_ok by congruence. cbn [res_bind].
  rewrite Hc by (by rewrite !length_map). rewrite zip_same. cbn [res_bind]. apply IH.
Qed.

Lemma foldl_orb {A} (p : A -> bool) l b : foldl (fun b v => b || p v) b l = b || existsb p l.
Proof. revert b. induction l as [|a l IH]; intros b; cbn; [by rewrite orb_false_r|]. by rewrite IH, orb_assoc. Qed.

Lemma foldl_andb {A} (p : A -> bool) l b : foldl (fun b v => b && p v) b l = b && forallb p l.
Proof. revert b. induction l as [|a l IH]; intros b; cbn; [by rewrite andb_true_r|]. by rewrite IH, andb_assoc. Qed.

(** The kernels compute the test, element by element. *)
Lemma apply_comparison_ok f c :
  schemable_wf f -> column_type c = data_type (sfield f) -> ordered_type (column_type c) = true ->
  apply_comparison f c = Ok (map (fmap (filter_test f)) (column_values c)).
Proof.
  intros [Hn Ht] Hc Ho. unfold apply_comparison, compare_first, compare_all, first_value, filter_test.
  destruct f as [fd op [|v vs]]; cbn [soperator svalues sfield] in *; [done|].
  apply list.Forall_cons in Ht as [Hv Hvs].
  assert (Hvs' : Forall (fun w => column_type c = value_type w) vs) by (eapply list.Forall_impl; [exact Hvs|naive_solver congruence]).
  assert (Hf : forall o, arrow_cmp o c v = Ok (map (fmap (fun x => cmp_holds o (value_cmp x v))) (column_values c)))
    by (intros o; apply arrow_cmp_ok; congruence).
  destruct op; cbn [res_bind element_test tail]; rewrite Hf; cbn [res_bind]; try done.
  - rewrite (compare_all_ok _ _ orb) by (done || apply boolean_or_ok). f_equal. apply map_ext. intros [x|]; [|done].
    cbn. by rewrite foldl_orb.
  - rewrite (compare_all_ok _ _ andb) by (done || apply boolean_and_ok). f_equal. apply map_ext. intros [x|]; [|done].
    cbn. by rewrite foldl_andb.
Qed.
End reference.

(** * Row masks *)
Section masks.
Context {AS : ArrowScalars} {SL : ScalarLaws AS}.

(** Columns of the types and the number of rows the batch states. *)
Record batch_wf (b : Batch) : Prop := {
  bw_columns : Forall2 (fun f c => column_type c = data_type f /\ length (column_values c) = num_rows b)
                 (batch_schema b) (columns b);
  bw_typed : Forall well_typed (columns b);
  bw_ordered : Forall (fun f => ordered_type (data_type f) = true) (batch_schema b)
}.

(** Row [i] of the batch passes a filter: the filter is on no column of the batch,
    or the row's element there passes the test. *)
Definition row_passes (b : Batch) (i : nat) (f : Filter) : Prop :=
  forall c, column_by_name b (field f) = Some c ->
    exists sf v, schemable_try_from f (batch_schema b) = Ok sf /\
      column_values c !! i = Some (Some v) /\ filter_test sf v = true.

(** A filter that can be cast to the type of its column. *)
Definition filter_casts (b : Batch) (f : Filter) : Prop :=
  values f <> [] /\ (is_Some (column_by_name b (field f)) -> is_Ok (schemable_try_from f (batch_schema b)) = true).

Lemma index_of_field name s i : index_of name s = Some i ->
  exists f, s !! i = Some f /\ field_with_name s name = Some f.
Proof.
  revert i. induction s as [|f s IH]; intros i; cbn; [done|]. unfold field_with_name. cbn [find].
  case_decide as Hn; [intros [= <-]|].
  - exists f. by rewrite bool_decide_true.
  - destruct (index_of name s) as [j|]; [|done]. intros [= <-].
    rewrite bool_decide_false by done. by apply IH.
Qed.

Lemma column_by_name_wf b name c : batch_wf b -> column_by_name b name = Some c ->
  exists f, field_with_name (batch_schema b) name = Some f /\ column_type c = data_type f /\
    length (column_values c) = num_rows b /\ ordered_type (column_type c) = true.
Proof.
  intros Hb. unfold column_by_name. destruct (index_of name (batch_schema b)) as [i|] eqn:Ei; [|done].
  cbn. intros Hi. destruct (index_of_field _ _ _ Ei) as (f & Hf & Hn). exists f.
  pose proof (bw_columns b Hb) as Hc. pose proof (bw_ordered b Hb) as Ho.
  destruct (Forall2_lookup_lr _ _ _ _ _ _ Hc Hf Hi) as [Ht Hl].
  split_and!; [done|done|done|]. rewrite Ht. by apply (list.Forall_lookup_1 _ _ _ _ Ho Hf).
Qed.

Definition kept (m : Mask) (i : nat) : Prop := m !! i = Some (Some true).

Lemma kept_zip a b i : kept (zip_with (null_op andb) a b) i <-> kept a i /\ kept b i.
Proof.
  unfold kept. rewrite lookup_zip_with. destruct (a !! i) as [[[]|]|], (b !! i) as [[[]|]|]; cbn; naive_solver.
Qed.

Lemma kept_test (p : Value -> bool) l i : kept (map (fmap p) l) i <-> exists v, l !! i = Some (Some v) /\ p v = true.
Proof.
  unfold kept. rewrite (list_lookup_fmap (fmap p) l i).
  destruct (l !! i) as [[v|]|]; cbn.
  - split; [intros [= H]; by exists v|by intros (? & [= <-] & ->)].
  - split; [done|by intros (? & ? & _)].
  - split; [done|by intros (? & ? & _)].
Qed.

(** The mask after some filters. *)
Definition mask_after (b : Batch) (fs : list Filter) (m : option Mask) : Prop :=
  let mask := default (replicate (num_rows b) (Some true)) m in
  length mask = num_rows b /\ forall i, (i < num_rows b)%nat -> kept mask i <-> Forall (row_passes b i) fs.

(** The mask of one filter. *)
Lemma column_mask_ok b f c : batch_wf b -> filter_casts b f -> column_by_name b (field f) = Some c ->
  exists sf, schemable_try_from f (batch_schema b) = Ok sf /\
    apply_comparison sf c = Ok (map (fmap (filter_test sf)) (column_values c)).
Proof.
  intros Hb [Hn Hs] Hc. destruct (column_by_name_wf b _ _ Hb Hc) as (fd & Hf & Ht & _ & Ho).
  destruct (proj1 (is_Ok_true _) (Hs (ex_intro _ _ Hc))) as [sf Hsf]. exists sf. split; [done|].
  apply apply_comparison_ok; [by eapply schemable_wf_from| |done].
  apply schemable_try_from_ok in Hsf as [Hsf _]. congruence.
Qed.

Lemma row_passes_test b f c sf i : column_by_name b (field f) = Some c -> schemable_try_from f (batch_schema b) = Ok sf ->
  row_passes b i f <-> kept (map (fmap (filter_test sf)) (column_values c)) i.
Proof.
  intros Hc Hsf. rewrite kept_test. unfold row_passes. split.
  - intros H. destruct (H c Hc) as (sf' & v & Hsf' & Hv & Ht). assert (sf' = sf) as -> by congruence. by exists v.
  - intros (v & Hv & Ht) c' Hc'. assert (c' = c) as -> by congruence. by exists sf, v.
Qed.

Lemma mask_step_ok b fs m f : batch_wf b -> filter_casts b f -> mask_after b fs m ->
  exists m', mask_step b m f = Ok m' /\ mask_after b (fs ++ [f]) m'.
Proof.
  intros Hb Hf [Hl Hm]. unfold mask_step.
  destruct (column_by_name b (field f)) as [c|] eqn:Ec.
  - destruct (column_mask_ok b f c Hb Hf Ec) as (sf & Hsf & Ha).
    destruct (column_by_name_wf b _ _ Hb Ec) as (_ & _ & _ & Hcl & _).
    rewrite Hsf. cbn [res_bind]. rewrite Ha. cbn [res_bind].
    destruct m as [prev|]; cbn [from_option] in *; unfold id in *.
    + rewrite boolean_and_ok by (by rewrite length_map, Hl). cbn [res_bind]. eexists. split; [done|].
      split; cbn [from_option]; unfold id; [rewrite length_zip_with, length_map; lia|].
      intros i Hi. rewrite kept_zip, Hm, list.Forall_app, list.Forall_singleton by done.
      by rewrite (row_passes_test b f c sf i Ec Hsf).
    + eexists. split; [done|]. split; cbn [from_option]; unfold id; [by rewrite length_map|].
      intros i Hi. rewrite list.Forall_app, list.Forall_singleton, (row_passes_test b f c sf i Ec Hsf), <- Hm by done.
      unfold kept at 2. rewrite lookup_replicate_2 by done. split; [by split|by intros [_ ?]].
  - exists m. split; [done|]. split; [done|]. intros i Hi.
    rewrite list.Forall_app, list.Forall_singleton, <- Hm by done. unfold row_passes. naive_solver.
Qed.

Lemma mask_fold_ok b : forall fs before m, batch_wf b -> Forall (filter_casts b) fs -> mask_after b before m ->
  exists m', res_fold (mask_step b) fs m = Ok m' /\ mask_after b (before ++ fs) m'.
Proof.
  induction fs as [|f fs IH]; intros before m Hb Hf Hm; cbn [res_fold].
  - exists m. by rewrite app_nil_r.
  - apply list.Forall_cons in Hf as [Hf Hfs].
    destruct (mask_step_ok b before m f Hb Hf Hm) as (m1 & -> & Hm1).
    destruct (IH _ m1 Hb Hfs Hm1) as (m2 & H2 & Hm2). exists m2. by rewrite <- app_assoc in Hm2.
Qed.

Lemma row_mask_ok b fs : batch_wf b -> Forall (filter_casts b) fs ->
  exists mask, filters_to_row_mask fs b = Ok mask /\ length mask = num_rows b /\
    forall i, (i < num_rows b)%nat -> kept mask i <-> Forall (row_passes b i) fs.
Proof.
  intros Hb Hf. destruct (mask_fold_ok b fs [] None Hb Hf) as (m & Hm & Hl & Hk).
  - split; cbn; [by rewrite length_replicate|]. intros i Hi. unfold kept. rewrite lookup_replicate_2 by done. naive_solver.
  - unfold filters_to_row_mask. rewrite Hm. cbn [res_bind]. eexists. split; [done|]. done.
Qed.

(** C29: the row mask keeps a row exactly if every filter whose column is in the batch
    passes the row's element there; nulls pass no filter, and the mask has one entry
    for each row. *)
Theorem filters_to_row_mask_spec b fs : batch_wf b -> Forall (filter_casts b) fs ->
  exists mask, filters_to_row_mask fs b = Ok mask /\ length mask = num_rows b /\
    forall i, (i < num_rows b)%nat -> kept mask i <-> Forall (row_passes b i) fs.
Proof. apply row_mask_ok. Qed.

(** A list filter without values panics when it is applied, whatever the column:
    [in_list] and [not_in_list] build one from an empty list, which [Filter::new]
    refuses. *)
Theorem empty_list_filter_panics name s fd c :
  field_with_name s name = Some fd ->
  filter_new name In_ [] = Err ESchema /\ filter_new name NotIn [] = Err ESchema /\
  (let? sf := schemable_try_from (in_list name []) s in apply_comparison sf c) = Panic /\
  (let? sf := schemable_try_from (not_in_list name []) s in apply_comparison sf c) = Panic.
Proof. intros H. unfold schemable_try_from, in_list, not_in_list. cbn [field values operator]. by rewrite H. Qed.
End masks.

(** * A sample of the library *)
Module SampleScalars.
Definition rank (d : Datum) : Z :=
  match d with DBool _ => 0 | DInt _ => 1 | DFloat _ => 2 | DBytes _ => 3 | DOther _ => 4 end.

Definition bit (b : bool) : Z := if b then 1 else 0.

Definition datum_cmp (a b : Datum) : comparison :=
  match a, b with
  | DBool x, DBool y => (bit x ?= bit y)%Z
  | DInt x, DInt y | DFloat x, DFloat y => (x ?= y)%Z
  | DBytes x, DBytes y => (x ?= y)%string
  | DOther x, DOther y => Nat.compare x y
  | a, b => (rank a ?= rank b)%Z
  end.

Definition cast (s : string) (t : DataType) : option Value :=
  match t with
  | Int32 =>
      z ← parse_i64 s;
      if bool_decide (- 2 ^ 31 <= z < 2 ^ 31)%Z then Some (mkValue t (DInt z)) else None
  | Int64 => z ← parse_i64 s; Some (mkValue t (DInt z))
  | Utf8 => Some (mkValue t (DBytes s))
  | _ => None
  end.

Definition ordered (t : DataType) : bool := match t with OtherType _ => false | _ => true end.

Definition compare_columns (op : CmpOp) (c : Column) (v : Value) : res Mask :=
  if bool_decide (column_type c = value_type v) && ordered (value_type v)
  then Ok (map (fmap (fun x => cmp_holds op (datum_cmp (datum x) (datum v)))) (column_values c))
  else Err EArrow.

Definition boolean_op (f : bool -> bool -> bool) (a b : Mask) : res Mask :=
  if (length a =? length b)%nat then Ok (zip_with (null_op f) a b) else Err EArrow.

#[global] Instance scalars : ArrowScalars := {|
  cast_str := cast;
  ordered_type := ordered;
  value_cmp a b := datum_cmp (datum a) (datum b);
  arrow_cmp := compare_columns;
  boolean_and := boolean_op andb;
  boolean_or := boolean_op orb
|}.

Lemma datum_cmp_swap a b : datum_cmp a b = CompOpp (datum_cmp b a).
Proof.
  destruct a, b; cbn; try done; try apply Z.compare_antisym.
  - apply String.compare_antisym.
  - apply Nat.compare_antisym.
Qed.

Lemma string_le_trans (a b c : string) : (a ?= b)%string <> Gt -> (b ?= c)%string <> Gt -> (a ?= c)%string <> Gt.
Proof.
  assert (H : forall s t, (s ?= t)%string <> Gt <-> str_leb s t = true)
    by (intros s t; unfold str_leb, String.leb; by destruct (s ?= t)%string).
  rewrite !H. apply str_leb_trans.
Qed.

Lemma datum_le_trans a b c : datum_cmp a b <> Gt -> datum_cmp b c <> Gt -> datum_cmp a c <> Gt.
Proof.
  destruct a, b, c; cbn; try done; rewrite ?Z.compare_ngt_iff, ?Nat.compare_ngt_iff; try lia.
  apply string_le_trans.
Qed.

#[global] Instance scalar_laws : ScalarLaws scalars.
Proof.
  split; cbn.
  - intros s [] v; cbn; try done; try (destruct (parse_i64 s); cbn; [|done]; repeat case_bool_decide); by intros [= <-].
  - intros a b _. apply datum_cmp_swap.
  - intros a b c _ _. apply datum_le_trans.
  - intros op c v Ht Ho. unfold compare_columns. by rewrite bool_decide_true, Ho.
  - intros op c v Ht. unfold compare_columns. by rewrite bool_decide_false.
  - intros op c v Ho. unfold compare_columns. by rewrite Ho, andb_false_r.
  - done.
  - done.
  - done.
  - intros a b Hl. unfold boolean_op. by rewrite Hl, Nat.eqb_refl.
  - intros a b Hl. unfold boolean_op. by rewrite Hl, Nat.eqb_refl.
Qed.

Definition int32 (z : Z) : option Value := Some (mkValue Int32 (DInt z)).
Definition utf8 (s : string) : option Value := Some (mkValue Utf8 (DBytes s)).

Definition batch : Batch :=
  mkBatch [mkField "id" Int32; mkField "city" Utf8]
    [mkColumn Int32 [int32 1; int32 7; None; int32 9]; mkColumn Utf8 [utf8 "oslo"; utf8 "rome"; utf8 "rome"; utf8 "lima"]] 4.

Definition filters : list Filter := [field_gt "id" "1"; not_in_list "city" ["lima"; "bonn"]; field_eq "other" "x"].

Example sample_mask : filters_to_row_mask filters batch = Ok [Some false; Some true; None; Some false].
Proof. reflexivity. Qed.

Lemma sample_batch_wf : batch_wf batch.
Proof. split; repeat constructor; by intros v [= <-]. Qed.

Lemma sample_filters_cast : Forall (filter_casts batch) filters.
Proof.
  apply list.Forall_cons; split; [by split|]. apply list.Forall_cons; split; [by split|].
  apply list.Forall_cons; split; [by split; [|intros [? [=]]]|done].
Qed.

Lemma filters_to_row_mask_spec_witness :
  exists mask, filters_to_row_mask filters batch = Ok mask /\ length mask = 4%nat /\
    forall i, (i < 4)%nat -> kept mask i <-> Forall (row_passes batch i) filters.
Proof. exact (filters_to_row_mask_spec batch filters sample_batch_wf sample_filters_cast). Defined.

Lemma empty_list_filter_panics_witness :
  (let? sf := schemable_try_from (in_list "id" []) (batch_schema batch) in
   apply_comparison sf (mkColumn Int32 [int32 1])) = Panic.
Proof.
  exact (proj1 (proj2 (proj2 (empty_list_filter_panics "id" (batch_schema batch) (mkField "id" Int32)
    (mkColumn Int32 [int32 1]) eq_refl)))).
Defined.
End SampleScalars.
