(* ===== verification/Statistics.v ===== *)
(** Column statistics: crates/core/src/statistics/mod.rs.

    Minimum and maximum of a column, out of a Parquet footer, row group by row
    group and merged into those of the file.  The footer is the Parquet
    library's: its records here have the fields the code reads. *)
From Stdlib Require Import Ascii.
From stdpp Require Import base gmap sets list strings sorting numbers.
From S2P Require Import Prelude RustStr StorageReader LogFormat Utf8 Expr ArrowFilter.
Local Open Scope res_scope.

(** * The footer, as read *)
Inductive ParquetStatistics :=
  | SBoolean (min_opt max_opt : option bool)
  | SInt32 (min_opt max_opt : option Z)
  | SInt64 (min_opt max_opt : option Z)
  | SInt96
  | SFloat (min_opt max_opt : option Z)
  | SDouble (min_opt max_opt : option Z)
  | SByteArray (min_opt max_opt : option bytes)
  | SFixedLenByteArray (min_opt max_opt : option bytes).

Record ColumnChunk := mkColumnChunk {
  path_parts : list string;
  chunk_statistics : option ParquetStatistics
}.

Record RowGroupMetaData := mkRowGroup { rg_num_rows : Z; rg_columns : list ColumnChunk }.

Record ParquetMetaData := mkParquetMeta { file_num_rows : Z; row_groups : list RowGroupMetaData }.

(** * Statistics *)
Inductive StatsGranularity := File | RowGroup.

(** [StatsGranularity::from_str] and [Display] *)
Definition granularity_from_str (s : string) : option StatsGranularity :=
  let s := to_ascii_lowercase s in
  if decide (s = "file") then Some File
  else if decide (s = "row_group" \/ s = "rowgroup") then Some RowGroup
  else None.

Definition granularity_to_string (g : StatsGranularity) : string :=
  match g with File => "file" | RowGroup => "row_group" end.

Record ColumnStatistics := mkColumnStatistics {
  column_name : string;
  stats_type : DataType;
  min_value : option Value;
  max_value : option Value
}.

Record StatisticsContainer := mkContainer {
  granularity : StatsGranularity;
  stats_num_rows : option Z;
  stats_columns : gmap string ColumnStatistics
}.

(** [v as i8] and the like: the low bits, with their sign where the type has one. *)
Definition as_unsigned (w : Z) (v : Z) : Z := (v mod 2 ^ w)%Z.
Definition as_signed (w : Z) (v : Z) : Z := (if v mod 2 ^ w <? 2 ^ (w - 1) then v mod 2 ^ w else v mod 2 ^ w - 2 ^ w)%Z.

Definition int32_to_array (value : Z) (t : DataType) : Value :=
  match t with
  | Int8 => mkValue Int8 (DInt (as_signed 8 value))
  | Int16 => mkValue Int16 (DInt (as_signed 16 value))
  | Int32 => mkValue Int32 (DInt value)
  | UInt8 => mkValue UInt8 (DInt (as_unsigned 8 value))
  | UInt16 => mkValue UInt16 (DInt (as_unsigned 16 value))
  | UInt32 => mkValue UInt32 (DInt (as_unsigned 32 value))
  | Date32 => mkValue Date32 (DInt value)
  | _ => mkValue Int32 (DInt value)
  end.

Definition int64_to_array (value : Z) (t : DataType) : Value :=
  match t with
  | Int64 => mkValue Int64 (DInt value)
  | UInt64 => mkValue UInt64 (DInt (as_unsigned 64 value))
  | Timestamp unit tz => mkValue (Timestamp unit tz) (DInt value)
  | _ => mkValue Int64 (DInt value)
  end.

Definition bytes_to_array (data : bytes) (t : DataType) : Value :=
  match t with
  | Utf8 | LargeUtf8 => mkValue Utf8 (DBytes (from_utf8_lossy data))
  | _ => mkValue Binary (DBytes (str_of data))
  end.

Definition parquet_stats_to_min_max_arrays (stats : ParquetStatistics) (t : DataType) : option Value * option Value :=
  match stats with
  | SBoolean min max => ((fun b => mkValue Boolean (DBool b)) <$> min, (fun b => mkValue Boolean (DBool b)) <$> max)
  | SInt32 min max => ((fun v => int32_to_array v t) <$> min, (fun v => int32_to_array v t) <$> max)
  | SInt64 min max => ((fun v => int64_to_array v t) <$> min, (fun v => int64_to_array v t) <$> max)
  | SInt96 => (None, None)
  | SFloat min max => ((fun v => mkValue Float32 (DFloat v)) <$> min, (fun v => mkValue Float32 (DFloat v)) <$> max)
  | SDouble min max => ((fun v => mkValue Float64 (DFloat v)) <$> min, (fun v => mkValue Float64 (DFloat v)) <$> max)
  | SByteArray min max | SFixedLenByteArray min max =>
      ((fun b => bytes_to_array b t) <$> min, (fun b => bytes_to_array b t) <$> max)
  end.

(** [ColumnStatistics::new] *)
Definition column_statistics_new (name : string) (t : DataType) : ColumnStatistics := mkColumnStatistics name t None None.

Definition from_parquet_statistics (name : string) (t : DataType) (stats : ParquetStatistics) : ColumnStatistics :=
  let '(min, max) := parquet_stats_to_min_max_arrays stats t in mkColumnStatistics name t min max.

Section statistics.
Context {AS : ArrowScalars}.

(** [cmp(a, b).map(|r| r.value(0)).unwrap_or(false)] on arrays of one element. *)
Definition one_column (v : Value) : Column := mkColumn (value_type v) [Some v].

Definition cmp_one (op : CmpOp) (a b : Value) : bool :=
  match arrow_cmp op (one_column a) b with
  | Ok (Some r :: _) => r
  | _ => false
  end.

Definition is_less_than (a b : Value) : bool := cmp_one CLt a b.
Definition is_greater_than (a b : Value) : bool := cmp_one CGt a b.

Definition merge_with (keep : Value -> Value -> bool) (a b : option Value) : option Value :=
  match a, b with
  | Some a, Some b => Some (if keep a b then a else b)
  | Some a, None => Some a
  | None, b => b
  end.

(** [ColumnStatistics::merge] *)
Definition stats_merge (s other : ColumnStatistics) : ColumnStatistics :=
  mkColumnStatistics (column_name s) (stats_type s)
    (merge_with is_less_than (min_value s) (min_value other))
    (merge_with is_greater_than (max_value s) (max_value other)).

(** The map from column name to type: of two fields with a name, the last. *)
Definition column_types (schema : Schema) : gmap string DataType :=
  foldl (fun m f => <[field_name f := data_type f]> m) ∅ schema.

(** The body of the loop over the chunks of a row group: only top-level columns of
    the schema. *)
Definition insert_chunk (types : gmap string DataType) (m : gmap string ColumnStatistics) (chunk : ColumnChunk)
    : gmap string ColumnStatistics :=
  match path_parts chunk with
  | [name] =>
      match types !! name with
      | None => m
      | Some t =>
          match chunk_statistics chunk with
          | Some stats => <[name := from_parquet_statistics name t stats]> m
          | None => <[name := column_statistics_new name t]> m
          end
      end
  | _ => m
  end.

Definition from_row_group (rg : RowGroupMetaData) (schema : Schema) : StatisticsContainer :=
  mkContainer RowGroup (Some (rg_num_rows rg)) (foldl (insert_chunk (column_types schema)) ∅ (rg_columns rg)).

(** Every column of the row group is merged into the file's: the entries are of
    different names, so in any order. *)
Definition merge_row_group (schema : Schema) (m : gmap string ColumnStatistics) (rg : RowGroupMetaData)
    : gmap string ColumnStatistics :=
  union_with (fun existing stats => Some (stats_merge existing stats)) m (stats_columns (from_row_group rg schema)).

Definition ensure_entry (m : gmap string ColumnStatistics) (f : Field) : gmap string ColumnStatistics :=
  match m !! field_name f with
  | Some _ => m
  | None => <[field_name f := column_statistics_new (field_name f) (data_type f)]> m
  end.

Definition from_parquet_metadata (metadata : ParquetMetaData) (schema : Schema) : StatisticsContainer :=
  mkContainer File (Some (file_num_rows metadata))
    (foldl ensure_entry (foldl (merge_row_group schema) ∅ (row_groups metadata)) schema).
End statistics.

(** * What statistics say of a column's elements *)
Section bounds.
Context {AS : ArrowScalars} {SL : ScalarLaws AS}.

Definition value_le (a b : Value) : Prop := value_cmp a b <> Gt.
Definition value_ge (a b : Value) : Prop := value_cmp b a <> Gt.

(** [m] bounds the elements it can be compared with. *)
Definition bound (R : Value -> Value -> Prop) (m : option Value) (xs : list (option Value)) : Prop :=
  forall v x, m = Some v -> Some x ∈ xs -> value_type v = value_type x -> ordered_type (value_type x) = true -> R v x.

(** The elements lie between minimum and maximum. *)
Definition bounded (s : ColumnStatistics) (xs : list (option Value)) : Prop :=
  bound value_le (min_value s) xs /\ bound value_ge (max_value s) xs.

(** Either both are there, or there is nothing to bound. *)
Definition complete (s : ColumnStatistics) (xs : list (option Value)) : Prop :=
  (forall x, Some x ∉ xs) \/ (is_Some (min_value s) /\ is_Some (max_value s)).

Definition typed (t : DataType) (s : ColumnStatistics) : Prop :=
  (forall v, min_value s = Some v -> value_type v = t) /\ (forall v, max_value s = Some v -> value_type v = t).

Lemma cmp_one_ok op a b : cmp_one op a b = true ->
  value_type a = value_type b /\ ordered_type (value_type b) = true /\ cmp_holds op (value_cmp a b) = true.
Proof.
  unfold cmp_one. intros H. destruct (decide (value_type a = value_type b)) as [Ht|Ht].
  - destruct (ordered_type (value_type b)) eqn:Ho; [|by rewrite arrow_cmp_unordered in H].
    by rewrite arrow_cmp_ok in H.
  - by rewrite arrow_cmp_type in H.
Qed.

Lemma cmp_one_eq op a b : value_type a = value_type b -> ordered_type (value_type b) = true ->
  cmp_one op a b = cmp_holds op (value_cmp a b).
Proof. intros Ht Ho. unfold cmp_one. by rewrite arrow_cmp_ok. Qed.
(** ** Merging *)

(** What a merge needs of the relation and of the test that picks. *)
Definition picks (R : Value -> Value -> Prop) (keep : Value -> Value -> bool) : Prop :=
  forall a b, value_type a = value_type b -> ordered_type (value_type b) = true ->
    (keep a b = true -> R a b) /\ (keep a b = false -> R b a).

Definition chains (R : Value -> Value -> Prop) : Prop :=
  forall a b c, value_type a = value_type b -> value_type b = value_type c -> R a b -> R b c -> R a c.

Lemma less_picks : picks value_le is_less_than.
Proof.
  intros a b Ht Ho. unfold is_less_than, value_le. rewrite cmp_one_eq, (value_cmp_swap b a) by done.
  by destruct (value_cmp a b).
Qed.

Lemma greater_picks : picks value_ge is_greater_than.
Proof.
  intros a b Ht Ho. unfold is_greater_than, value_ge. rewrite cmp_one_eq, (value_cmp_swap b a) by done.
  by destruct (value_cmp a b).
Qed.

Lemma le_chains : chains value_le.
Proof. intros a b c H1 H2. by apply value_le_trans. Qed.

Lemma ge_chains : chains value_ge.
Proof. intros a b c H1 H2 Hab Hbc. unfold value_ge in *. by apply (value_le_trans c b a). Qed.

Lemma bound_merge R keep t a b xs ys : picks R keep -> chains R ->
  (forall v, a = Some v -> value_type v = t) -> (forall v, b = Some v -> value_type v = t) ->
  (is_Some a \/ forall x, Some x ∉ xs) -> (is_Some b \/ forall x, Some x ∉ ys) ->
  bound R a xs -> bound R b ys -> bound R (merge_with keep a b) (xs ++ ys).
Proof.
  intros Hp Ht Ha Hb Hxs Hys Hax Hby v x Hv Hx Hvx Ho. apply elem_of_app in Hx.
  destruct a as [a|], b as [b|]; cbn [merge_with] in Hv; simplify_eq.
  - specialize (Ha a eq_refl). specialize (Hb b eq_refl).
    assert (E : value_type a = value_type x /\ value_type b = value_type x) by (destruct (keep a b); split; congruence).
    destruct E as [Eax Ebx]. destruct (Hp a b) as [Hk Hn]; [congruence|by rewrite Ebx|].
    destruct (keep a b), Hx as [Hx|Hx].
    + by apply Hax.
    + apply (Ht a b x); [congruence|done|by apply Hk|by apply Hby].
    + apply (Ht b a x); [congruence|done|by apply Hn|by apply Hax].
    + by apply Hby.
  - destruct Hx as [Hx|Hx]; [by eapply Hax|]. destruct Hys as [[? [=]]|Hys]. by destruct (Hys x).
  - destruct Hx as [Hx|Hx]; [|by eapply Hby]. destruct Hxs as [[? [=]]|Hxs]. by destruct (Hxs x).
Qed.

(** The statistics of a column in one row group, as its file's merge needs them. *)
Definition describes (t : DataType) (s : ColumnStatistics) (xs : list (option Value)) : Prop :=
  bounded s xs /\ complete s xs /\ typed t s.

Lemma complete_min s xs : complete s xs -> is_Some (min_value s) \/ forall x, Some x ∉ xs.
Proof. unfold complete. naive_solver. Qed.

Lemma complete_max s xs : complete s xs -> is_Some (max_value s) \/ forall x, Some x ∉ xs.
Proof. unfold complete. naive_solver. Qed.

Lemma merge_with_some keep a b : is_Some (merge_with keep a b) <-> is_Some a \/ is_Some b.
Proof. destruct a, b; cbn; split; intros; try destruct_or?; eauto; by destruct (keep _ _). Qed.

Lemma merge_with_elem keep a b v : merge_with keep a b = Some v -> a = Some v \/ b = Some v.
Proof. destruct a as [a|], b as [b|]; cbn; try destruct (keep a b); naive_solver. Qed.

Lemma describes_merge t s s' xs ys : describes t s xs -> describes t s' ys -> describes t (stats_merge s s') (xs ++ ys).
Proof.
  intros ([Hl Hu] & Hc & Ht & Ht') ([Hl' Hu'] & Hc' & Hs & Hs'). split_and!.
  - split; cbn [stats_merge min_value max_value].
    + apply (bound_merge _ _ t); auto using less_picks, le_chains, complete_min.
    + apply (bound_merge _ _ t); auto using greater_picks, ge_chains, complete_max.
  - unfold complete in *. cbn [stats_merge min_value max_value]. rewrite !merge_with_some.
    destruct Hc as [Hc|[]], Hc' as [Hc'|[]]; auto.
    left. intros x [Hx|Hx]%elem_of_app; naive_solver.
  - split; cbn [stats_merge min_value max_value]; intros v [Hv|Hv]%merge_with_elem; auto.
Qed.
(** ** From row groups to the file *)

(** What a map of statistics says of the elements of one column: no entry, no elements. *)
Definition entry_describes (t : DataType) (o : option ColumnStatistics) (xs : list (option Value)) : Prop :=
  match o with
  | Some s => describes t s xs
  | None => forall x, Some x ∉ xs
  end.

(** The row group's statistics of a column are true of its elements there. *)
Definition group_describes (schema : Schema) (name : string) (t : DataType) (rg : RowGroupMetaData)
    (xs : list (option Value)) : Prop :=
  entry_describes t (stats_columns (from_row_group rg schema) !! name) xs.

Lemma describes_more t s xs ys : describes t s xs -> (forall x, Some x ∉ ys) -> describes t s (xs ++ ys).
Proof.
  intros ([Hl Hu] & Hc & Ht) Hy. split_and!; [|..|done].
  - split; intros v x Hv [Hx|Hx]%elem_of_app; try by destruct (Hy x).
    + by apply Hl.
    + by apply Hu.
  - destruct Hc as [Hc|Hc]; [left|by right]. intros x [Hx|Hx]%elem_of_app; naive_solver.
Qed.

Lemma describes_before t s xs ys : describes t s ys -> (forall x, Some x ∉ xs) -> describes t s (xs ++ ys).
Proof.
  intros ([Hl Hu] & Hc & Ht) Hy. split_and!; [|..|done].
  - split; intros v x Hv [Hx|Hx]%elem_of_app; try by destruct (Hy x).
    + by apply Hl.
    + by apply Hu.
  - destruct Hc as [Hc|Hc]; [left|by right]. intros x [Hx|Hx]%elem_of_app; naive_solver.
Qed.

Lemma merge_row_group_entry schema name t m rg xs ys :
  entry_describes t (m !! name) xs -> group_describes schema name t rg ys ->
  entry_describes t (merge_row_group schema m rg !! name) (xs ++ ys).
Proof.
  unfold group_describes, merge_row_group. rewrite lookup_union_with.
  destruct (m !! name) as [s|], (stats_columns (from_row_group rg schema) !! name) as [s'|]; cbn.
  - apply describes_merge.
  - apply describes_more.
  - intros Hx Hs. by apply describes_before.
  - intros Hx Hy x [H|H]%elem_of_app; naive_solver.
Qed.

Lemma file_entry schema name t rgs xss : Forall2 (group_describes schema name t) rgs xss ->
  forall m xs, entry_describes t (m !! name) xs ->
  entry_describes t (foldl (merge_row_group schema) m rgs !! name) (xs ++ concat xss).
Proof.
  induction 1 as [|rg ys rgs yss Hg _ IH]; intros m xs Hm; cbn [foldl concat]; [by rewrite app_nil_r|].
  rewrite app_assoc. apply IH. by apply merge_row_group_entry.
Qed.

Lemma ensure_entry_lookup m f name s : ensure_entry m f !! name = Some s ->
  m !! name = Some s \/ (min_value s = None /\ max_value s = None).
Proof.
  unfold ensure_entry. destruct (m !! field_name f) eqn:E; [by left|].
  destruct (decide (field_name f = name)) as [->|Hn].
  - rewrite lookup_insert_eq. intros [= <-]. by right.
  - rewrite lookup_insert_ne by done. by left.
Qed.

Lemma ensure_entries_lookup schema : forall m name s, foldl ensure_entry m schema !! name = Some s ->
  m !! name = Some s \/ (min_value s = None /\ max_value s = None).
Proof.
  induction schema as [|f schema IH]; intros m name s; cbn [foldl]; [by left|].
  intros [H|H]%IH; [|by right]. by apply ensure_entry_lookup in H.
Qed.

(** The statistics of a file bound the elements of all its row groups, if those of
    each row group are true and complete. *)
Lemma file_statistics_bound meta schema name t xss s :
  Forall2 (group_describes schema name t) (row_groups meta) xss ->
  stats_columns (from_parquet_metadata meta schema) !! name = Some s -> bounded s (concat xss).
Proof.
  intros Hg. unfold from_parquet_metadata. cbn [stats_columns].
  pose proof (file_entry schema name t _ _ Hg ∅ []) as Hf. rewrite lookup_empty, app_nil_l in Hf.
  specialize (Hf (fun x => not_elem_of_nil _)).
  intros [H|[Hl Hu]]%ensure_entries_lookup.
  - rewrite H in Hf. apply Hf.
  - unfold bounded. rewrite Hl, Hu. by split; intros v x [=].
Qed.
End bounds.
