(* ===== verification/FilePruner.v ===== *)
(** Pruning of base files by their column statistics:
    crates/core/src/table/file_pruner.rs. *)
From Stdlib Require Import Ascii.
From stdpp Require Import base gmap sets list strings sorting numbers.
From S2P Require Import Prelude RustStr Expr ArrowFilter Statistics.
Local Open Scope res_scope.

(** The struct has one field, the filters on columns that are not of the partition. *)
Record FilePruner := mkFilePruner { file_filters : list SchemableFilter }.

Section pruner.
Context {AS : ArrowScalars}.

(** [filter_map(|f| SchemableFilter::try_from((f, schema)).ok())] *)
Fixpoint castable_filters (schema : Schema) (filters : list Filter) : list SchemableFilter :=
  match filters with
  | [] => []
  | f :: fs =>
      match schemable_try_from f schema with
      | Ok sf => sf :: castable_filters schema fs
      | _ => castable_filters schema fs
      end
  end.

(** [FilePruner::new] *)
Definition file_pruner_new (and_filters : list Filter) (table_schema partition_schema : Schema) : FilePruner :=
  let partition_columns : gset string := list_to_set (field_name <$> partition_schema) in
  mkFilePruner (castable_filters table_schema
    (List.filter (fun f => negb (bool_decide (field f ∈ partition_columns))) and_filters)).

(** [FilePruner::empty] *)
Definition file_pruner_empty : FilePruner := mkFilePruner [].

(** [FilePruner::is_empty] *)
Definition file_pruner_is_empty (p : FilePruner) : bool :=
  match file_filters p with [] => true | _ => false end.

(** A cast value is a scalar, so it is always extracted. *)
Definition extract_filter_array (f : SchemableFilter) : res (option Value) :=
  let? v := first_value f in Ok (Some v).

Definition can_prune_eq (value : Value) (min max : option Value) : bool :=
  match min, max with
  | Some min_val, Some max_val => cmp_one CLt value min_val || cmp_one CGt value max_val
  | _, _ => false
  end.

Definition can_prune_ne (value : Value) (min max : option Value) : bool :=
  match min, max with
  | Some min_val, Some max_val => cmp_one CEq min_val max_val && cmp_one CEq min_val value
  | _, _ => false
  end.

Definition can_prune_lt (value : Value) (min : option Value) : bool :=
  match min with Some min_val => cmp_one CGtEq min_val value | None => false end.

Definition can_prune_lte (value : Value) (min : option Value) : bool :=
  match min with Some min_val => cmp_one CGt min_val value | None => false end.

Definition can_prune_gt (value : Value) (max : option Value) : bool :=
  match max with Some max_val => cmp_one CLtEq max_val value | None => false end.

Definition can_prune_gte (value : Value) (max : option Value) : bool :=
  match max with Some max_val => cmp_one CLt max_val value | None => false end.

Definition can_prune_by_filter (f : SchemableFilter) (col_stats : ColumnStatistics) : res bool :=
  if is_multi_value (soperator f) then Ok false
  else
    let? extracted := extract_filter_array f in
    match extracted with
    | None => Ok false
    | Some v =>
        let min := min_value col_stats in
        let max := max_value col_stats in
        match soperator f with
        | Eq_ => Ok (can_prune_eq v min max)
        | Ne => Ok (can_prune_ne v min max)
        | Lt_ => Ok (can_prune_lt v min)
        | Lte => Ok (can_prune_lte v min)
        | Gt_ => Ok (can_prune_gt v max)
        | Gte => Ok (can_prune_gte v max)
        | In_ | NotIn => Panic
        end
    end.

(** The loop over the filters. *)
Fixpoint include_loop (filters : list SchemableFilter) (stats : StatisticsContainer) : res bool :=
  match filters with
  | [] => Ok true
  | f :: filters =>
      match stats_columns stats !! field_name (sfield f) with
      | None => include_loop filters stats
      | Some col_stats =>
          let? prune := can_prune_by_filter f col_stats in
          if prune : bool then Ok false else include_loop filters stats
      end
  end.

(** [FilePruner::should_include] *)
Definition file_should_include (p : FilePruner) (stats : StatisticsContainer) : res bool :=
  if file_pruner_is_empty p then Ok true else include_loop (file_filters p) stats.
End pruner.

(** * What is pruned has no row that passes *)
Section soundness.
Context {AS : ArrowScalars} {SL : ScalarLaws AS}.

Lemma castable_elem schema fs sf : sf ∈ castable_filters schema fs ->
  exists f, f ∈ fs /\ schemable_try_from f schema = Ok sf.
Proof.
  induction fs as [|f fs IH]; cbn [castable_filters]; [by intros ?%not_elem_of_nil|].
  destruct (schemable_try_from f schema) as [sf'| |] eqn:E.
  - intros [->|H]%elem_of_cons; [exists f; split; [by left|done]|].
    destruct (IH H) as (g & ? & ?). exists g. split; [by right|done].
  - intros H. destruct (IH H) as (g & ? & ?). exists g. split; [by right|done].
  - intros H. destruct (IH H) as (g & ? & ?). exists g. split; [by right|done].
Qed.

(** An element of the column's type and the value of a filter on it. *)
Lemma lt_below a v x : value_type a = value_type v -> value_type v = value_type x -> ordered_type (value_type x) = true ->
  value_cmp v a = Lt -> value_le a x -> value_cmp x v = Gt.
Proof.
  intros Hav Hvx Ho Hlt Hle. unfold value_le in *. destruct (value_cmp x v) eqn:E; [|exfalso|done].
  - exfalso. assert (H : value_cmp a v <> Gt) by (apply (value_le_trans a x v); congruence).
    rewrite value_cmp_swap, Hlt in H by done. done.
  - assert (H : value_cmp a v <> Gt) by (apply (value_le_trans a x v); congruence).
    rewrite value_cmp_swap, Hlt in H by done. done.
Qed.

Lemma gt_above a v x : value_type a = value_type v -> value_type v = value_type x -> ordered_type (value_type x) = true ->
  value_cmp v a = Gt -> value_ge a x -> value_cmp x v = Lt.
Proof.
  intros Hav Hvx Ho Hlt Hle. unfold value_ge in *.
  assert (H : value_cmp v x = Gt); [|by rewrite value_cmp_swap, H by done].
  destruct (value_cmp v x) eqn:E; [exfalso..|done].
  - assert (H : value_cmp v a <> Gt) by (apply (value_le_trans v x a); congruence). congruence.
  - assert (H : value_cmp v a <> Gt) by (apply (value_le_trans v x a); congruence). congruence.
Qed.

Lemma le_below a v x : value_type a = value_type v -> value_type v = value_type x ->
  value_cmp a v <> Lt -> value_le a x -> value_cmp x v <> Lt.
Proof.
  intros Hav Hvx Hnl Hle E. unfold value_le in *. apply Hnl.
  rewrite value_cmp_swap by done. destruct (value_cmp v a) eqn:E'; [exfalso..|done].
  - assert (H : value_cmp v x <> Gt) by (apply (value_le_trans v a x); congruence).
    rewrite value_cmp_swap, E in H by done. done.
  - assert (H : value_cmp v x <> Gt) by (apply (value_le_trans v a x); congruence).
    rewrite value_cmp_swap, E in H by done. done.
Qed.
Lemma ge_above a v x : value_type a = value_type v -> value_type v = value_type x ->
  value_cmp a v <> Gt -> value_ge a x -> value_cmp x v <> Gt.
Proof. intros Hav Hvx Hng Hge. unfold value_ge in *. apply (value_le_trans x a v); congruence. Qed.

Lemma flip_gt a b : value_type a = value_type b -> value_cmp a b = Gt -> value_cmp b a = Lt.
Proof. intros Ht H. by rewrite value_cmp_swap, H. Qed.

Lemma flip_lt a b : value_type a = value_type b -> value_cmp a b = Lt -> value_cmp b a = Gt.
Proof. intros Ht H. by rewrite value_cmp_swap, H. Qed.

(** One comparison of the pruner, and what the bound then says of an element. *)
Ltac compared H Ht Ho Hc := apply cmp_one_ok in H as (Ht & Ho & Hc).

Section one_filter.
Variables (v x : Value) (min max : option Value) (xs : list (option Value)).
Hypothesis Hx : Some x ∈ xs.
Hypothesis Hvx : value_type v = value_type x.
Hypothesis Hmin : bound value_le min xs.
Hypothesis Hmax : bound value_ge max xs.

Lemma prune_eq_sound : can_prune_eq v min max = true -> cmp_holds CEq (value_cmp x v) = false.
Proof.
  unfold can_prune_eq. destruct min as [a|]; [|done]. destruct max as [b|]; [|done].
  intros [H|H]%orb_true_iff; compared H Ht Ho Hc.
  - rewrite (lt_below a v x); [done|congruence|done|congruence| |apply Hmin; [done|done|congruence|congruence]].
    by destruct (value_cmp v a).
  - rewrite (gt_above b v x); [done|congruence|done|congruence| |apply Hmax; [done|done|congruence|congruence]].
    by destruct (value_cmp v b).
Qed.

Lemma prune_ne_sound : can_prune_ne v min max = true -> cmp_holds CNeq (value_cmp x v) = false.
Proof.
  unfold can_prune_ne. destruct min as [a|]; [|done]. destruct max as [b|]; [|done].
  intros [H1 H2]%andb_true_iff. compared H1 Hab Ho1 H1. compared H2 Hav Ho2 H2.
  assert (Eab : value_cmp a b = Eq) by (by destruct (value_cmp a b)).
  assert (Eav : value_cmp a v = Eq) by (by destruct (value_cmp a v)).
  assert (Hnl : value_cmp x v <> Lt).
  { apply (le_below a); [done|done|by rewrite Eav|]. apply Hmin; [done|done|congruence|congruence]. }
  assert (Hng : value_cmp x v <> Gt).
  { apply (ge_above b); [congruence|done| |apply Hmax; [done|done|congruence|congruence]].
    apply (value_le_trans b a v); [congruence|congruence|by rewrite value_cmp_swap, Eab|by rewrite Eav]. }
  by destruct (value_cmp x v).
Qed.

Lemma prune_lt_sound : can_prune_lt v min = true -> cmp_holds CLt (value_cmp x v) = false.
Proof.
  unfold can_prune_lt. destruct min as [a|]; [|done]. intros H; compared H Ht Ho Hc.
  assert (Hnl : value_cmp x v <> Lt); [|by destruct (value_cmp x v)].
  apply (le_below a); [done|done|by intros E; rewrite E in Hc|]. apply Hmin; [done|done|congruence|congruence].
Qed.

Lemma prune_lte_sound : can_prune_lte v min = true -> cmp_holds CLtEq (value_cmp x v) = false.
Proof.
  unfold can_prune_lte. destruct min as [a|]; [|done]. intros H; compared H Ht Ho Hc.
  rewrite (lt_below a v x); [done|done|done|congruence| |apply Hmin; [done|done|congruence|congruence]].
  apply flip_gt; [done|]. by destruct (value_cmp a v).
Qed.

Lemma prune_gt_sound : can_prune_gt v max = true -> cmp_holds CGt (value_cmp x v) = false.
Proof.
  unfold can_prune_gt. destruct max as [b|]; [|done]. intros H; compared H Ht Ho Hc.
  assert (Hng : value_cmp x v <> Gt); [|by destruct (value_cmp x v)].
  apply (ge_above b); [done|done|by intros E; rewrite E in Hc|]. apply Hmax; [done|done|congruence|congruence].
Qed.

Lemma prune_gte_sound : can_prune_gte v max = true -> cmp_holds CGtEq (value_cmp x v) = false.
Proof.
  unfold can_prune_gte. destruct max as [b|]; [|done]. intros H; compared H Ht Ho Hc.
  rewrite (gt_above b v x); [done|done|done|congruence| |apply Hmax; [done|done|congruence|congruence]].
  apply flip_lt; [done|]. by destruct (value_cmp b v).
Qed.
End one_filter.

(** A filter prunes no file that has an element it passes. *)
Lemma can_prune_sound f cs xs x : schemable_wf f -> bounded cs xs -> Some x ∈ xs -> value_type x = data_type (sfield f) ->
  can_prune_by_filter f cs = Ok true -> filter_test f x = false.
Proof.
  intros [Hn Ht] [Hmin Hmax] Hx Htx. unfold can_prune_by_filter, extract_filter_array, first_value, filter_test.
  destruct f as [fd op [|v vs]]; cbn [soperator svalues sfield] in *; [done|].
  apply list.Forall_cons in Ht as [Hv _]. assert (Hvx : value_type v = value_type x) by congruence.
  destruct op; cbn [is_multi_value res_bind element_test]; intros [= H].
  - by eapply prune_eq_sound.
  - by eapply prune_ne_sound.
  - by eapply prune_lt_sound.
  - by eapply prune_lte_sound.
  - by eapply prune_gt_sound.
  - by eapply prune_gte_sound.
Qed.

Lemma include_loop_false fs stats : include_loop fs stats = Ok false ->
  exists f cs, f ∈ fs /\ stats_columns stats !! field_name (sfield f) = Some cs /\ can_prune_by_filter f cs = Ok true.
Proof.
  induction fs as [|f fs IH]; cbn [include_loop]; [done|].
  assert (Hlift : include_loop fs stats = Ok false -> exists g cs, g ∈ f :: fs /\
    stats_columns stats !! field_name (sfield g) = Some cs /\ can_prune_by_filter g cs = Ok true).
  { intros (g & cs & Hg & H)%IH. exists g, cs. split; [by right|done]. }
  destruct (stats_columns stats !! field_name (sfield f)) as [cs|] eqn:E; [|done].
  destruct (can_prune_by_filter f cs) as [[]| |] eqn:Ep; cbn [res_bind]; try done.
  intros _. exists f, cs. split; [by left|done].
Qed.

Lemma file_pruned_by p stats : file_should_include p stats = Ok false ->
  exists f cs, f ∈ file_filters p /\ stats_columns stats !! field_name (sfield f) = Some cs /\
    can_prune_by_filter f cs = Ok true.
Proof. unfold file_should_include. destruct (file_pruner_is_empty p); [done|]. apply include_loop_false. Qed.

(** The batches of a file, one for each row group, as its footer describes them: in
    each row group, the statistics of a column are true of its elements, and absent
    only where there are none to bound. *)
Record file_described (schema : Schema) (meta : ParquetMetaData) (batches : list Batch) : Prop := {
  fd_batches : Forall (fun b => batch_schema b = schema /\ batch_wf b) batches;
  fd_columns name : exists t, Forall2 (fun rg b => forall c, column_by_name b name = Some c ->
    group_describes schema name t rg (column_values c)) (row_groups meta) batches
}.

Lemma field_found s name f : field_with_name s name = Some f -> is_Some (index_of name s).
Proof.
  unfold field_with_name. induction s as [|g s IH]; cbn; [done|].
  case_bool_decide as E; [by rewrite decide_True|]. rewrite decide_False by done.
  intros [i ->]%IH. by eexists.
Qed.

Lemma column_present b name f : batch_wf b -> field_with_name (batch_schema b) name = Some f ->
  exists c, column_by_name b name = Some c.
Proof.
  intros Hb [i Hi]%field_found. unfold column_by_name. rewrite Hi. cbn.
  destruct (index_of_field _ _ _ Hi) as (g & Hg & _).
  destruct (Forall2_lookup_l _ _ _ _ _ (bw_columns b Hb) Hg) as (c & Hc & _). by exists c.
Qed.

(** The columns of one name in all batches. *)
Lemma columns_described schema meta batches name fd :
  file_described schema meta batches -> field_with_name schema name = Some fd ->
  exists t xss, Forall2 (group_describes schema name t) (row_groups meta) xss /\
    forall b c, b ∈ batches -> column_by_name b name = Some c -> column_values c ∈ xss.
Proof.
  intros [Hb Hc] Hf. destruct (Hc name) as [t Ht]. exists t. clear Hc.
  induction Ht as [|rg b rgs bs Hg _ IH].
  - exists []. split; [constructor|]. by intros b c ?%not_elem_of_nil.
  - apply list.Forall_cons in Hb as [[Hs Hwf] Hb]. destruct (IH Hb) as (xss & Hxss & Hin).
    destruct (column_present b name fd Hwf) as [c Hcb]; [by rewrite Hs|].
    exists (column_values c :: xss). split; [constructor; [by apply Hg|done]|].
    intros b' c' [->|Hb']%elem_of_cons Hc'; [|right; by apply (Hin b')].
    assert (c' = c) as -> by congruence. by left.
Qed.

Lemma column_element_type b name c i x fd : batch_wf b -> column_by_name b name = Some c ->
  field_with_name (batch_schema b) name = Some fd -> column_values c !! i = Some (Some x) -> value_type x = data_type fd.
Proof.
  intros Hb Hc Hf Hi. destruct (column_by_name_wf b name c Hb Hc) as (fd' & Hf' & Ht & _).
  assert (fd' = fd) as -> by congruence. rewrite <- Ht.
  unfold column_by_name in Hc. destruct (index_of name (batch_schema b)) as [j|]; [|done]. cbn in Hc.
  pose proof (list.Forall_lookup_1 _ _ _ _ (bw_typed b Hb) Hc) as Hw.
  by apply (list.Forall_lookup_1 _ _ _ _ Hw Hi).
Qed.

Lemma pruned_file_rows filters table_schema partition_schema meta batches b i :
  Forall (fun f => values f <> []) filters ->
  file_described table_schema meta batches ->
  file_should_include (file_pruner_new filters table_schema partition_schema)
    (from_parquet_metadata meta table_schema) = Ok false ->
  b ∈ batches -> ~ Forall (row_passes b i) filters.
Proof.
  intros Hn Hd (sf & cs & Hsf & Hcs & Hp)%file_pruned_by Hb Hall.
  apply castable_elem in Hsf as (f & Hf & Hcast).
  apply list_elem_of_In, filter_In in Hf as [Hf%list_elem_of_In _].
  rewrite list.Forall_forall in Hn, Hall. pose proof (schemable_try_from_ok f _ sf Hcast) as (Hfield & _ & _).
  assert (Hname : field_name (sfield sf) = field f) by (unfold field_with_name in Hfield; apply find_some in Hfield as [_ ?]; by case_bool_decide).
  rewrite Hname in Hcs.
  destruct (columns_described _ meta batches (field f) (sfield sf) Hd Hfield) as (t & xss & Hxss & Hin).
  pose proof (file_statistics_bound meta table_schema (field f) t xss cs Hxss Hcs) as Hbd.
  pose proof (fd_batches _ _ _ Hd) as Hbs. rewrite list.Forall_forall in Hbs. destruct (Hbs b Hb) as [Hs Hwf].
  destruct (column_present b (field f) (sfield sf) Hwf) as [c Hc]; [by rewrite Hs|].
  destruct (Hall f Hf c Hc) as (sf' & v & Hsf' & Hv & Htest). rewrite Hs in Hsf'.
  assert (sf' = sf) as -> by congruence.
  rewrite (can_prune_sound sf cs (concat xss) v) in Htest; [done|by eapply schemable_wf_from; [apply Hn|]|done| | |done].
  - apply list_elem_of_In, in_concat. exists (column_values c).
    split; apply list_elem_of_In; [by apply (Hin b)|by eapply list_elem_of_lookup_2].
  - eapply column_element_type; [exact Hwf|done| |done]. by rewrite Hs.
Qed.

(** C27: pruning a file loses no row.  Where a base file is left out for the statistics
    in its footer, the filters on rows would have dropped every row of it: of each
    row of each batch, some filter of the query does not hold.  The statistics of
    each row group have to be true, and absent only where a column has no element
    to bound. *)
Theorem pruned_file_has_no_match filters table_schema partition_schema meta batches b i :
  Forall (fun f => values f <> []) filters ->
  file_described table_schema meta batches ->
  file_should_include (file_pruner_new filters table_schema partition_schema)
    (from_parquet_metadata meta table_schema) = Ok false ->
  b ∈ batches -> ~ Forall (row_passes b i) filters.
Proof. apply pruned_file_rows. Qed.
End soundness.

(** * Samples *)
Module SamplePruned.
Import SampleScalars.

Definition table : Schema := [mkField "id" Int32].

Definition batch_of (ids : list (option Value)) : Batch := mkBatch table [mkColumn Int32 ids] (length ids).

Definition group_of (rows : Z) (stats : option ParquetStatistics) : RowGroupMetaData :=
  mkRowGroup rows [mkColumnChunk ["id"] stats; mkColumnChunk ["nested"; "x"] None].

Definition footer : ParquetMetaData :=
  mkParquetMeta 5 [group_of 3 (Some (SInt32 (Some 1%Z) (Some 5%Z))); group_of 2 (Some (SInt32 (Some 7%Z) (Some 9%Z)))].

Definition batches : list Batch := [batch_of [int32 5; None; int32 1]; batch_of [int32 9; int32 7]].

Definition query : list Filter := [field_gt "id" "50"; field_eq "part" "a"].

Definition included (m : ParquetMetaData) : res bool :=
  file_should_include (file_pruner_new query table [mkField "part" Utf8]) (from_parquet_metadata m table).

Lemma batch_of_wf ids : Forall (fun x => forall v, x = Some v -> value_type v = Int32) ids -> batch_wf (batch_of ids).
Proof. intros H. split; repeat constructor; exact H. Qed.

(** Decides the bounds of a column of integers. *)
Definition bounded_b (s : ColumnStatistics) (xs : list (option Value)) : bool :=
  forallb (fun x => match x with
    | None => true
    | Some x =>
        (match min_value s with Some m => negb (bool_decide (datum_cmp (datum m) (datum x) = Gt)) | None => true end) &&
        (match max_value s with Some m => negb (bool_decide (datum_cmp (datum x) (datum m) = Gt)) | None => true end)
    end) xs.

Lemma bounded_b_ok s xs : bounded_b s xs = true -> bounded s xs.
Proof.
  unfold bounded_b. rewrite forallb_forall. intros H.
  split; intros v x Hv Hx _ _; apply list_elem_of_In in Hx; specialize (H _ Hx); rewrite Hv in H;
    apply andb_prop in H as [H1 H2].
  - apply negb_true_iff, bool_decide_eq_false in H1. exact H1.
  - apply negb_true_iff, bool_decide_eq_false in H2. exact H2.
Qed.

Lemma described_of rg xs mn mx : stats_columns (from_row_group rg table) !! "id" = Some (mkColumnStatistics "id" Int32 (int32 mn) (int32 mx)) ->
  bounded_b (mkColumnStatistics "id" Int32 (int32 mn) (int32 mx)) xs = true -> group_describes table "id" Int32 rg xs.
Proof.
  intros E Hb. unfold group_describes. rewrite E. cbn. split_and!.
  - by apply bounded_b_ok.
  - right. split; by eexists.
  - split; cbn; by intros v [= <-].
Qed.

Lemma other_column b name : batch_schema b = table -> name <> "id" -> column_by_name b name = None.
Proof. intros H Hn. unfold column_by_name. rewrite H. cbn. by rewrite decide_False. Qed.

Lemma sample_described : file_described table footer batches.
Proof.
  split.
  - repeat constructor; cbn; by intros v [= <-].
  - intros name. exists Int32. destruct (decide (name = "id")) as [->|Hn].
    + constructor; [intros c [= <-]; by eapply described_of|].
      constructor; [intros c [= <-]; by eapply described_of|constructor].
    + constructor; [intros c; by rewrite other_column|]. constructor; [intros c; by rewrite other_column|constructor].
Qed.

Lemma pruned_file_has_no_match_witness :
  included footer = Ok false /\ ~ Forall (row_passes (batch_of [int32 9; int32 7]) 0) query.
Proof.
  split; [reflexivity|].
  refine (pruned_file_has_no_match query table [mkField "part" Utf8] footer batches _ 0 _ sample_described _ _).
  - repeat constructor; done.
  - reflexivity.
  - right. left.
Defined.

(** A row group without statistics is passed over in the merge: the file's bounds
    are those of its other row groups, and a file with a matching row is pruned. *)
Definition footer_with_gap : ParquetMetaData :=
  mkParquetMeta 4 [group_of 2 (Some (SInt32 (Some 1%Z) (Some 5%Z))); group_of 2 None].

Example group_without_statistics_is_pruned :
  included footer_with_gap = Ok false /\
  filters_to_row_mask query (batch_of [int32 100; int32 7]) = Ok [Some true; Some false].
Proof. split; reflexivity. Qed.
End SamplePruned.
