(* ===== verification/KeyGen.v ===== *)
(** The timestamp based key generator: crates/core/src/keygen/mod.rs and
    keygen/timestamp_based.rs.

    A partition path is a timestamp of the record printed with a date format.
    The generator turns filters on the timestamp into filters on the path.
    Calendars and time zones are the chrono and chrono_tz crates':
    [KeygenChrono] has the calls and [KeygenChronoLaws] their documentation. *)
From Stdlib Require Import Ascii.
From stdpp Require Import base gmap sets list strings sorting numbers pretty.
From S2P Require Import Prelude RustStr Chrono StrReplace Config Expr.
Local Open Scope res_scope.

(** * The calendar *)
Record DateFields := mkDate {
  year : Z; month : Z; day : Z; hour : Z; minute : Z; second : Z
}.

Class KeygenChrono {C : Chrono} := {
  Tz : Type;
  (** [str.parse::<Tz>()] *)
  parse_tz : string -> option Tz;
  (** [DateTime::from_timestamp(secs, 0)], [from_timestamp_micros] *)
  from_timestamp : Z -> option datetime;
  from_timestamp_micros : Z -> option datetime;
  (** [DateTime::parse_from_str(value, format)] as UTC, [NaiveDateTime::parse_from_str] *)
  parse_with_offset : string -> string -> option datetime;
  parse_naive : string -> string -> option naive;
  (** [tz.from_local_datetime(naive).single()] as UTC *)
  from_local : Tz -> naive -> option datetime;
  (** the fields of [dt.with_timezone(tz)] *)
  local_fields : Tz -> datetime -> DateFields
}.

(** * Configuration *)
Definition PartitionFields : string := "hoodie.table.partition.fields".
Definition IsHiveStylePartitioning : string := "hoodie.datasource.write.hive_style_partitioning".
Definition KeyGeneratorClass : string := "hoodie.table.keygenerator.class".
Definition KeyGeneratorType : string := "hoodie.table.keygenerator.type".

(** [get_or_default(PartitionFields)] *)
Definition get_partition_fields (configs : HudiConfigs) : list string :=
  match resolve_raw_value configs PartitionFields with
  | inl v => List.filter (fun field => negb (bool_decide (field = ""))) (trim <$> str_split "," v)
  | inr _ => []
  end.

(** [try_get] of a text without a default. *)
Definition try_get_string (configs : HudiConfigs) (key : string) : option string :=
  match resolve_raw_value configs key with inl v => Some v | inr _ => None end.

Definition is_timestamp_based_keygen (configs : HudiConfigs) : bool :=
  let by_class :=
    match try_get_string configs KeyGeneratorClass with
    | Some s => str_contains "TimestampBasedKeyGenerator" s
    | None => false
    end in
  if by_class then true
  else match try_get_string configs KeyGeneratorType with
       | Some s => let upper := to_uppercase s in bool_decide (upper = "TIMESTAMP") || bool_decide (upper = "TIMESTAMP_AVRO")
       | None => false
       end.

(** * Units and types *)
Inductive TimestampType := UnixTimestamp | EpochMilliseconds | EpochMicroseconds | DateString | Scalar | Mixed.

Global Instance TimestampType_eq_dec : EqDecision TimestampType.
Proof. solve_decision. Defined.

Inductive ScalarTimeUnit := Nanoseconds | Microseconds | Milliseconds | Seconds | Minutes | Hours | Days.

(** [ScalarTimeUnit::from_str] *)
Definition scalar_unit_from_str (s : string) : res ScalarTimeUnit :=
  let s := to_uppercase s in
  if decide (s = "NANOSECONDS") then Ok Nanoseconds
  else if decide (s = "MICROSECONDS") then Ok Microseconds
  else if decide (s = "MILLISECONDS") then Ok Milliseconds
  else if decide (s = "SECONDS") then Ok Seconds
  else if decide (s = "MINUTES") then Ok Minutes
  else if decide (s = "HOURS") then Ok Hours
  else if decide (s = "DAYS") then Ok Days
  else Err EConfig.

(** [a * b] of two [i64]s: it overflows with a panic. *)
Definition i64_mul (a b : Z) : res Z :=
  if bool_decide (i64_min <= a * b <= i64_max)%Z then Ok (a * b)%Z else Panic.

(** [ScalarTimeUnit::to_millis]: division goes towards zero. *)
Definition to_millis (u : ScalarTimeUnit) (value : Z) : res Z :=
  match u with
  | Nanoseconds => Ok (Z.quot value 1000000)
  | Microseconds => Ok (Z.quot value 1000)
  | Milliseconds => Ok value
  | Seconds => i64_mul value 1000
  | Minutes => i64_mul value 60000
  | Hours => i64_mul value 3600000
  | Days => i64_mul value 86400000
  end.

Definition timestamp_type_from (s : string) : res TimestampType :=
  let s := to_uppercase s in
  if decide (s = "UNIX_TIMESTAMP") then Ok UnixTimestamp
  else if decide (s = "EPOCHMILLISECONDS") then Ok EpochMilliseconds
  else if decide (s = "EPOCHMICROSECONDS") then Ok EpochMicroseconds
  else if decide (s = "DATE_STRING") then Ok DateString
  else if decide (s = "SCALAR") then Ok Scalar
  else if decide (s = "MIXED") then Ok Mixed
  else Err EConfig.

Definition CONFIG_PREFIX : string := "hoodie.keygen.timebased.".
Definition OLD_CONFIG_PREFIX : string := "hoodie.deltastreamer.keygen.timebased.".

Definition resolve_option_with_alt (options : HudiConfigs) (suffix : string) : option string :=
  match options !! (CONFIG_PREFIX +:+ suffix) with
  | Some v => Some v
  | None => options !! (OLD_CONFIG_PREFIX +:+ suffix)
  end.

Definition get_config_value_with_alt (configs : HudiConfigs) (suffix : string) : res string :=
  ok_or (resolve_option_with_alt configs suffix) EConfig.

Definition format_segment_to_field_name (segment : string) : string :=
  if decide (segment = "yyyy") then "year"
  else if decide (segment = "MM") then "month"
  else if decide (segment = "dd") then "day"
  else if decide (segment = "HH") then "hour"
  else if decide (segment = "mm") then "minute"
  else if decide (segment = "ss") then "second"
  else segment.

Definition parse_partition_fields (output_format : string) (is_hive_style : bool) : list string :=
  if negb is_hive_style then str_split "/" output_format
  else format_segment_to_field_name <$> str_split "/" output_format.

(** [java_to_chrono_format] *)
Definition java_to_chrono_format (java_format : string) : string :=
  str_replace "'T'" "T"
    (str_replace "Z" "%#z"
      (str_replace "ss" "%S"
        (str_replace "mm" "%M"
          (str_replace "HH" "%H"
            (str_replace "dd" "%d"
              (str_replace "MM" "%m"
                (str_replace "SSS" "%3f"
                  (str_replace "yyyy" "%Y" java_format)))))))).

(** [format_segment_value] *)
Definition format_segment_value (segment : string) (dt : DateFields) : string :=
  str_replace "ss" (pad_zeros 2 (second dt))
    (str_replace "mm" (pad_zeros 2 (minute dt))
      (str_replace "HH" (pad_zeros 2 (hour dt))
        (str_replace "dd" (pad_zeros 2 (day dt))
          (str_replace "MM" (pad_zeros 2 (month dt))
            (str_replace "yyyy" (pad_zeros 4 (year dt)) segment))))).

Definition TOKENS : list (string * Z) :=
  [("yyyy", 6); ("MM", 5); ("dd", 4); ("HH", 3); ("mm", 2); ("ss", 1)]%Z.

(** The ranks of the tokens of a format, in order; a character that is not of a
    token is cut off by its first byte.  [skip] counts the rest of a token. *)
Fixpoint token_ranks (skip : nat) (remaining : string) : res (list Z) :=
  match remaining with
  | EmptyString => Ok []
  | String _ rest =>
      match skip with
      | S skip => token_ranks skip rest
      | O =>
          match find (fun t => starts_with t.1 remaining) TOKENS with
          | Some (token, rank) =>
              let? ranks := token_ranks (String.length token - 1) rest in Ok (rank :: ranks)
          | None => if is_char_boundary 1 remaining then token_ranks 0 rest else Panic
          end
      end
  end.

(** [ranks.windows(2).all(|w| w[0] > w[1])] *)
Fixpoint descending (ranks : list Z) : bool :=
  match ranks with
  | a :: (b :: _) as rest => (b <? a)%Z && descending rest
  | _ => true
  end.

Section generator.
Context {C : Chrono} {K : KeygenChrono}.

Record TimestampBasedKeyGenerator := mkKeyGenerator {
  source_field : string;
  timestamp_type : TimestampType;
  input_dateformat : option string;
  input_timezone : option Tz;
  scalar_time_unit : option ScalarTimeUnit;
  output_dateformat : string;
  output_timezone : Tz;
  is_hive_style : bool;
  partition_fields : list string
}.

(** A zone named by an option; [None] when it is blank. *)
Definition zone_of (tz_str : option string) : res (option Tz) :=
  match tz_str with
  | Some tz_str =>
      if decide (trim tz_str = "") then Ok None
      else let? tz := ok_or (parse_tz tz_str) EConfig in Ok (Some tz)
  | None => Ok None
  end.

Definition or_option (a b : option string) : option string := match a with Some _ => a | None => b end.

(** [TimestampBasedKeyGenerator::from_configs] *)
Definition from_configs (configs : HudiConfigs) : res TimestampBasedKeyGenerator :=
  match get_partition_fields configs with
  | [source_field] =>
      let? timestamp_type_str := get_config_value_with_alt configs "timestamp.type" in
      let? timestamp_type := timestamp_type_from timestamp_type_str in
      let? input_dateformat :=
        if bool_decide (timestamp_type = DateString) || bool_decide (timestamp_type = Mixed)
        then res_map Some (get_config_value_with_alt configs "input.dateformat") else Ok None in
      let? scalar_time_unit :=
        if bool_decide (timestamp_type = Scalar)
        then res_map Some (scalar_unit_from_str (default "SECONDS" (resolve_option_with_alt configs "timestamp.scalar.time.unit")))
        else Ok None in
      let? output_dateformat := get_config_value_with_alt configs "output.dateformat" in
      let? input_timezone :=
        zone_of (or_option (resolve_option_with_alt configs "timezone") (resolve_option_with_alt configs "input.timezone")) in
      let output_tz_str := default "UTC"
        (or_option (resolve_option_with_alt configs "timezone") (resolve_option_with_alt configs "output.timezone")) in
      let? output_timezone := ok_or (parse_tz output_tz_str) EConfig in
      let is_hive_style := get_bool_or_default configs IsHiveStylePartitioning false in
      Ok (mkKeyGenerator source_field timestamp_type input_dateformat input_timezone scalar_time_unit
            output_dateformat output_timezone is_hive_style (parse_partition_fields output_dateformat is_hive_style))
  | _ => Err EConfig
  end.

Section methods.
Variable g : TimestampBasedKeyGenerator.

Definition parse_int (value : string) : res Z := ok_or (parse_i64 value) ETimestampParsing.

(** [parse_timestamp] *)
Definition parse_timestamp (value : string) : res datetime :=
  match timestamp_type g with
  | UnixTimestamp => let? secs := parse_int value in ok_or (from_timestamp secs) ETimestampParsing
  | EpochMilliseconds => let? millis := parse_int value in ok_or (from_timestamp_millis millis) ETimestampParsing
  | EpochMicroseconds => let? micros := parse_int value in ok_or (from_timestamp_micros micros) ETimestampParsing
  | Scalar =>
      let? scalar_val := parse_int value in
      let? unit := ok_or (scalar_time_unit g) EConfig in
      let? millis := to_millis unit scalar_val in
      ok_or (from_timestamp_millis millis) ETimestampParsing
  | DateString | Mixed =>
      let? input_format := ok_or (input_dateformat g) EConfig in
      let chrono_format := java_to_chrono_format input_format in
      match parse_with_offset value chrono_format with
      | Some dt => Ok dt
      | None =>
          let? naive_dt := ok_or (parse_naive value chrono_format) ETimestampParsing in
          match input_timezone g with
          | Some input_tz => ok_or (from_local input_tz naive_dt) ETimestampParsing
          | None => Ok (from_naive_utc naive_dt)
          end
      end
  end.

(** One segment of the path; [None]: the index is out of range, which panics. *)
Definition path_segment (local_dt : DateFields) (i : nat) (segment : string) : res string :=
  let value := format_segment_value segment local_dt in
  if is_hive_style g then
    match partition_fields g !! i with
    | Some field_name => Ok (field_name +:+ "=" +:+ value)
    | None => Panic
    end
  else Ok value.

Fixpoint path_segments (local_dt : DateFields) (i : nat) (segments : list string) : res (list string) :=
  match segments with
  | [] => Ok []
  | segment :: segments =>
      let? s := path_segment local_dt i segment in
      let? rest := path_segments local_dt (S i) segments in
      Ok (s :: rest)
  end.

(** [format_partition_path] *)
Definition format_partition_path (dt : datetime) : res string :=
  let local_dt := local_fields (output_timezone g) dt in
  let? segments := path_segments local_dt 0 (str_split "/" (output_dateformat g)) in
  Ok (str_join "/" segments).

(** [is_lex_sortable_format] *)
Definition is_lex_sortable_format : res bool :=
  let? ranks := token_ranks 0 (output_dateformat g) in
  Ok (match ranks with [] => false | _ => descending ranks end).

Definition PARTITION_PATH_FIELD : string := "_hoodie_partition_path".

(** [&filter.values[0]] *)
Definition filter_first (f : Filter) : res string :=
  match values f with v :: _ => Ok v | [] => Panic end.

(** [self.parse_timestamp(v)] then [self.format_partition_path(&dt)] *)
Definition path_of (v : string) : res string :=
  let? dt := parse_timestamp v in format_partition_path dt.

Definition widened (op : ExprOperator) : ExprOperator :=
  match op with Gt_ => Gte | Lt_ => Lte | other => other end.

(** [transform_filter] *)
Definition transform_filter (f : Filter) : res (list Filter) :=
  if decide (field f <> source_field g) then Ok [f]
  else
    match operator f with
    | Eq_ | Ne =>
        let? v := filter_first f in
        let? path := path_of v in
        Ok [mkFilter PARTITION_PATH_FIELD (operator f) [path]]
    | In_ | NotIn =>
        let? paths := res_mapM path_of (values f) in
        Ok [mkFilter PARTITION_PATH_FIELD (operator f) paths]
    | Gt_ | Gte | Lt_ | Lte =>
        let? sortable := is_lex_sortable_format in
        if negb sortable then Ok []
        else
          let? v := filter_first f in
          let? path := path_of v in
          Ok [mkFilter PARTITION_PATH_FIELD (widened (operator f)) [path]]
    end.
End methods.
End generator.
