(* ===== verification/DatePaths.v ===== *)
(** Partition paths printed from timestamps, as [KeyGen] prints them: a format is
    a sequence of tokens and other characters ([tokenize]), replacing the tokens
    one kind after the other renders it ([format_segment_rendered]), and where the
    tokens are year, month, day and so on, without a gap, paths are ordered as
    their timestamps ([path_order]).  What filters turn into is sound, for the
    operators for which it is, by this. *)
From Stdlib Require Import Ascii.
From stdpp Require Import base gmap sets list strings sorting numbers pretty.
From S2P Require Import Prelude RustStr Chrono StrReplace Config Expr KeyGen.
Local Open Scope res_scope.

(** * Formats as tokens *)
Inductive Token := TYear | TMonth | TDay | THour | TMinute | TSecond.

Global Instance Token_eq_dec : EqDecision Token.
Proof. solve_decision. Defined.

Definition letter (t : Token) : ascii :=
  match t with TYear => "y" | TMonth => "M" | TDay => "d" | THour => "H" | TMinute => "m" | TSecond => "s" end.

Definition width (t : Token) : nat := match t with TYear => 4 | _ => 2 end.

Fixpoint run (n : nat) (c : ascii) : string := match n with O => "" | S n => String c (run n c) end.

Definition text (t : Token) : string := run (width t) (letter t).

Definition rank (t : Token) : Z :=
  match t with TYear => 6 | TMonth => 5 | TDay => 4 | THour => 3 | TMinute => 2 | TSecond => 1 end.

Definition token_value (t : Token) (dt : DateFields) : Z :=
  match t with
  | TYear => year dt | TMonth => month dt | TDay => day dt
  | THour => hour dt | TMinute => minute dt | TSecond => second dt
  end.

Definition all_tokens : list Token := [TYear; TMonth; TDay; THour; TMinute; TSecond].

Inductive Piece := Lit (c : ascii) | Tok (t : Token).

Definition token_at (s : string) : option Token := find (fun t => starts_with (text t) s) all_tokens.

Fixpoint tokenize (skip : nat) (s : string) : list Piece :=
  match s with
  | EmptyString => []
  | String c rest =>
      match skip with
      | S skip => tokenize skip rest
      | O =>
          match token_at s with
          | Some t => Tok t :: tokenize (width t - 1) rest
          | None => Lit c :: tokenize 0 rest
          end
      end
  end.

(** Some kinds of tokens printed, the others as they are. *)
Definition piece_text (vals : Token -> option string) (p : Piece) : string :=
  match p with Lit c => String c "" | Tok t => default (text t) (vals t) end.

Fixpoint unparse (vals : Token -> option string) (ps : list Piece) : string :=
  match ps with
  | [] => ""
  | p :: ps => piece_text vals p +:+ unparse vals ps
  end.

Definition source (ps : list Piece) : string := unparse (fun _ => None) ps.

Definition printed (dt : DateFields) (t : Token) : string := pad_zeros (width t) (token_value t dt).

Definition tokens_of (ps : list Piece) : list Token := omap (fun p => match p with Tok t => Some t | Lit _ => None end) ps.

(** A literal begins no token. *)
Fixpoint clean (ps : list Piece) : Prop :=
  match ps with
  | [] => True
  | Lit c :: rest => token_at (String c (source rest)) = None /\ clean rest
  | Tok _ :: rest => clean rest
  end.

Lemma letter_inj t u : letter t = letter u -> t = u.
Proof. by destruct t, u. Qed.

Lemma text_run t : exists r, text t = String (letter t) r /\ String.length r = (width t - 1)%nat.
Proof. destruct t; by eexists. Qed.

Lemma token_at_find s t : token_at s = Some t -> exists r, s = text t +:+ r.
Proof.
  unfold token_at. intros [_ H]%find_some. revert H. generalize (text t) as p. clear t.
  intros p. revert s. induction p as [|a p IH]; intros s; [by exists s; rewrite str_app_nil_l|].
  destruct s as [|b s]; cbn; [done|]. intros [Hab Hp]%andb_prop.
  destruct (ascii_eqb_spec a b) as [->|]; [|done]. destruct (IH s Hp) as [r ->]. exists r. by rewrite str_app_cons.
Qed.

Lemma token_at_none s t : token_at s = None -> starts_with (text t) s = false.
Proof. unfold token_at. intros H. apply (find_none _ _ H). destruct t; cbn; tauto. Qed.

Lemma tokenize_skip w s : tokenize (String.length w) (w +:+ s) = tokenize 0 s.
Proof. induction w as [|a w IH]; [by rewrite str_app_nil_l; destruct s|]. by rewrite str_app_cons. Qed.

Lemma tokenize_token t r : token_at (text t +:+ r) = Some t -> tokenize 0 (text t +:+ r) = Tok t :: tokenize 0 r.
Proof.
  intros H. destruct (text_run t) as (w & Ht & Hw). rewrite Ht, str_app_cons in *. cbn [tokenize]. rewrite H.
  by rewrite <- Hw, tokenize_skip.
Qed.

Lemma tokenize_clean n : forall s, (String.length s <= n)%nat -> source (tokenize 0 s) = s /\ clean (tokenize 0 s).
Proof.
  induction n as [|n IH]; intros [|c s] Hn; try done; [cbn in Hn; lia|].
  destruct (token_at (String c s)) as [t|] eqn:E.
  - destruct (token_at_find _ _ E) as [r Hr]. rewrite Hr in E |- *. rewrite tokenize_token by done.
    destruct (IH r) as [Hs Hc].
    { assert (Hl : String.length (String c s) = String.length (text t +:+ r)) by by rewrite Hr.
      rewrite str_length_app in Hl. destruct (text_run t) as (w & Hw & _). rewrite Hw in Hl. cbn in Hl, Hn. lia. }
    split; [|done]. unfold source. cbn [unparse piece_text from_option]. fold (source (tokenize 0 r)). by rewrite Hs.
  - cbn [tokenize]. rewrite E. destruct (IH s) as [Hs Hc]; [cbn in Hn; lia|].
    split; [|by cbn [clean]; rewrite Hs].
    unfold source. cbn [unparse piece_text]. fold (source (tokenize 0 s)). by rewrite Hs.
Qed.

(** * Replacing the tokens one kind after the other *)
Definition good_vals (vals : Token -> option string) : Prop :=
  forall t v, vals t = Some v -> v <> "" /\ forall u, str_mem (letter u) v = false.

Lemma ascii_eqb_refl c : ascii_eqb c c = true.
Proof. by destruct (ascii_eqb_spec c c). Qed.

Lemma starts_run_run c a : forall n k,
  starts_with (run k c) (run n c +:+ a) = if (k <=? n)%nat then true else starts_with (run (k - n) c) a.
Proof.
  induction n as [|n IH]; intros [|k]; cbn [run]; rewrite ?str_app_nil_l; try done.
  rewrite str_app_cons. cbn. by rewrite ascii_eqb_refl, IH.
Qed.

Lemma starts_run_mem c v a k : v <> "" -> str_mem c v = false -> starts_with (run (S k) c) (v +:+ a) = false.
Proof.
  destruct v as [|b v]; [done|]. intros _. cbn [str_mem]. intros [Hb _]%orb_false_iff.
  rewrite str_app_cons. cbn. destruct (ascii_eqb_spec c b) as [->|]; [by rewrite ascii_eqb_refl in Hb|done].
Qed.

Lemma other_letter t u : t <> u -> str_mem (letter t) (text u) = false.
Proof. by destruct t, u. Qed.

Lemma text_not_empty t : text t <> "".
Proof. by destruct t. Qed.

Section replacing.
Variables (vals : Token -> option string) (t : Token) (v : string).
Hypothesis Hv : good_vals vals.
Hypothesis Ht : vals t = None.

(** The text of a piece that is no token [t]. *)
Lemma other_piece u : u <> t -> piece_text vals (Tok u) <> "" /\ str_mem (letter t) (piece_text vals (Tok u)) = false.
Proof.
  intros Hu. cbn. destruct (vals u) as [w|] eqn:E; cbn.
  - destruct (Hv u w E). done.
  - split; [apply text_not_empty|by apply other_letter].
Qed.

Lemma run_in_source ps : forall k, starts_with (run k (letter t)) (unparse vals ps) = true ->
  starts_with (run k (letter t)) (source ps) = true.
Proof.
  unfold source. induction ps as [|[c|u] ps IH]; intros k; [done|..]; cbn [unparse].
  - destruct k as [|k]; [done|]. cbn [piece_text run]. rewrite !str_app_cons, !str_app_nil_l. cbn.
    intros [-> H]%andb_prop. by rewrite IH.
  - destruct (decide (u = t)) as [->|Hu].
    + cbn [piece_text]. rewrite Ht. cbn [from_option]. unfold id, text. rewrite !starts_run_run.
      destruct (k <=? width t)%nat; [done|]. apply IH.
    + destruct k as [|k]; [done|]. destruct (other_piece u Hu) as [Hn Hm].
      by rewrite (starts_run_mem _ _ _ _ Hn Hm).
Qed.

Lemma replace_pieces ps : clean ps ->
  str_replace (text t) v (unparse vals ps) =
    unparse (fun u => if decide (u = t) then Some v else vals u) ps.
Proof.
  unfold str_replace. destruct (text_run t) as (r & Hr & Hl).
  induction ps as [|[c|u] ps IH]; [done|..]; cbn [clean unparse].
  - intros [Hc Hps]. cbn [piece_text]. rewrite !str_app_cons, !str_app_nil_l. cbn [replace_loop].
    assert (E : starts_with (text t) (String c (unparse vals ps)) = false).
    { destruct (starts_with (text t) (String c (unparse vals ps))) eqn:E; [|done].
      rewrite <- (token_at_none _ t Hc). unfold text in *. destruct (width t) as [|k] eqn:Ew; [by destruct t|].
      cbn in E |- *. apply andb_prop in E as [-> E]. cbn. by rewrite (run_in_source ps k E). }
    rewrite E. f_equal. by apply IH.
  - intros Hps. destruct (decide (u = t)) as [->|Hu].
    + cbn [piece_text]. rewrite Ht, decide_True by done. cbn [from_option]. unfold id. rewrite Hr, replace_here, <- Hr.
      by rewrite IH.
    + cbn [piece_text]. rewrite (decide_False (P := u = t)) by done. destruct (other_piece u Hu) as [_ Hm].
      cbn [piece_text] in Hm. rewrite Hr, replace_over, <- Hr by done. by rewrite IH.
Qed.
End replacing.

(** ** What is printed *)
Definition is_sign_or_digit (c : ascii) : bool := is_ascii_digit c || ascii_eqb c "-".

Lemma digit_or_sign s : str_all is_ascii_digit s = true -> str_all is_sign_or_digit s = true.
Proof.
  induction s as [|c s IH]; [done|]. cbn. intros [Hc Hs]%andb_prop. unfold is_sign_or_digit at 1. by rewrite Hc, IH.
Qed.

Lemma pad_zeros_chars w z : str_all is_sign_or_digit (pad_zeros w z) = true.
Proof. unfold pad_zeros. destruct (z <? 0)%Z; cbn; apply digit_or_sign, pad_nat_digits. Qed.

Lemma pad_zeros_not_empty w z : pad_zeros w z <> "".
Proof.
  unfold pad_zeros, pad_nat. destruct (z <? 0)%Z; [done|].
  pose proof (pretty_N_not_empty (Z.to_N z)). by destruct (zeros _).
Qed.

Lemma printed_good dt : good_vals (fun t => Some (printed dt t)).
Proof.
  intros t v [= <-]. split; [apply pad_zeros_not_empty|]. intros u.
  eapply str_all_mem; [apply pad_zeros_chars|]. by destruct u.
Qed.

(** The kinds of tokens printed so far. *)
Definition printed_upto (dt : DateFields) (ts : list Token) (t : Token) : option string :=
  if decide (t ∈ ts) then Some (printed dt t) else None.

Lemma printed_upto_good dt ts : good_vals (printed_upto dt ts).
Proof. intros t v. unfold printed_upto. case_decide; [|done]. apply printed_good. Qed.

Lemma unparse_ext vals vals' ps : (forall t, vals t = vals' t) -> unparse vals ps = unparse vals' ps.
Proof. intros H. induction ps as [|[c|u] ps IH]; cbn; [done|by rewrite IH|by rewrite H, IH]. Qed.

Lemma replace_next dt ts t ps : clean ps -> t ∉ ts ->
  str_replace (text t) (printed dt t) (unparse (printed_upto dt ts) ps) = unparse (printed_upto dt (t :: ts)) ps.
Proof.
  intros Hc Hn. rewrite replace_pieces; [|apply printed_upto_good|unfold printed_upto; by rewrite decide_False|done].
  apply unparse_ext. intros u. unfold printed_upto. destruct (decide (u = t)) as [->|Hu].
  - by rewrite decide_True by left.
  - destruct (decide (u ∈ ts)); [by rewrite decide_True by (by right)|].
    rewrite decide_False; [done|]. by intros [?|?]%elem_of_cons.
Qed.

Definition render (dt : DateFields) (ps : list Piece) : string := unparse (fun t => Some (printed dt t)) ps.

Lemma format_segment_rendered segment dt : format_segment_value segment dt = render dt (tokenize 0 segment).
Proof.
  destruct (tokenize_clean _ segment (le_n _)) as [Hs Hc].
  unfold format_segment_value. rewrite <- Hs at 1. set (ps := tokenize 0 segment) in *.
  assert (H0 : source ps = unparse (printed_upto dt []) ps).
  { apply unparse_ext. intros t. unfold printed_upto. by rewrite decide_False by apply not_elem_of_nil. }
  rewrite H0.
  rewrite (replace_next dt [] TYear), (replace_next dt [TYear] TMonth), (replace_next dt [TMonth; TYear] TDay),
    (replace_next dt [TDay; TMonth; TYear] THour), (replace_next dt [THour; TDay; TMonth; TYear] TMinute),
    (replace_next dt [TMinute; THour; TDay; TMonth; TYear] TSecond) by (done || (apply (bool_decide_unpack _); done)).
  apply unparse_ext. intros t. unfold printed_upto. by rewrite decide_True by (destruct t; apply (bool_decide_unpack _); done).
Qed.

(** * Paths as rendered formats *)
Lemma unparse_app vals ps qs : unparse vals (ps ++ qs) = unparse vals ps +:+ unparse vals qs.
Proof. induction ps as [|p ps IH]; cbn [unparse app]; [by rewrite str_app_nil_l|]. by rewrite IH, str_app_assoc. Qed.

Fixpoint lits (s : string) : list Piece :=
  match s with EmptyString => [] | String c s => Lit c :: lits s end.

Lemma unparse_lits vals s : unparse vals (lits s) = s.
Proof. induction s as [|c s IH]; [done|]. cbn. by rewrite IH. Qed.

Lemma tokens_app ps qs : tokens_of (ps ++ qs) = tokens_of ps ++ tokens_of qs.
Proof. apply omap_app. Qed.

Lemma tokens_lits s : tokens_of (lits s) = [].
Proof. by induction s. Qed.

(** ** Splitting a format at a slash splits its tokens *)
Definition slash : ascii := "/".

Lemma starts_before p a b : str_mem slash p = false -> starts_with p (a +:+ String slash b) = starts_with p a.
Proof.
  revert a. induction p as [|c p IH]; intros a; [by destruct a, b|]. cbn [str_mem]. intros [Hc Hp]%orb_false_iff.
  destruct a as [|d a]; [rewrite str_app_nil_l|rewrite str_app_cons]; cbn.
  - by rewrite Hc.
  - by rewrite IH.
Qed.

Lemma token_at_before a b : token_at (a +:+ String slash b) = token_at a.
Proof. unfold token_at. cbn [find all_tokens]. by rewrite !starts_before. Qed.

Lemma text_length t : String.length (text t) = width t.
Proof. by destruct t. Qed.

Lemma token_shorter c s t r : String c s = text t +:+ r -> (String.length r < String.length (String c s))%nat.
Proof. intros ->. rewrite str_length_app, text_length. destruct t; cbn; lia. Qed.

Lemma tokenize_slash n : forall a b, (String.length a <= n)%nat ->
  tokenize 0 (a +:+ String slash b) = tokenize 0 a ++ Lit slash :: tokenize 0 b.
Proof.
  induction n as [|n IH]; intros [|c a] b Hn.
  1, 3: rewrite str_app_nil_l; cbn [tokenize app]; pose proof (token_at_before "" b) as E;
    rewrite str_app_nil_l in E; rewrite E; by change (token_at "") with (@None Token).
  - cbn in Hn; lia.
  - pose proof (token_at_before (String c a) b) as E. destruct (token_at (String c a)) as [t|] eqn:Et.
    + destruct (token_at_find _ _ Et) as [r Hr]. pose proof (token_shorter _ _ _ _ Hr) as Hl. cbn [String.length] in Hn, Hl.
      rewrite Hr in Et, E |- *. rewrite str_app_assoc in E |- *. rewrite !tokenize_token by done.
      rewrite IH by lia. done.
    + rewrite str_app_cons in E |- *. cbn [tokenize]. rewrite E, Et. cbn [app]. f_equal. apply IH. cbn in Hn; lia.
Qed.

Section paths.
Context {C : Chrono} {K : KeygenChrono}.

(** The fields and equals signs of Hive style. *)
Definition prefix (g : TimestampBasedKeyGenerator) (i : nat) : string :=
  if is_hive_style g then default "" (partition_fields g !! i) +:+ "=" else "".

Fixpoint segment_pieces (g : TimestampBasedKeyGenerator) (i : nat) (segments : list string) : list Piece :=
  match segments with
  | [] => []
  | [s] => lits (prefix g i) ++ tokenize 0 s
  | s :: rest => lits (prefix g i) ++ tokenize 0 s ++ Lit slash :: segment_pieces g (S i) rest
  end.

Definition path_pieces (g : TimestampBasedKeyGenerator) : list Piece :=
  segment_pieces g 0 (str_split "/" (output_dateformat g)).

(** As [from_configs] makes it. *)
Definition generator_wf (g : TimestampBasedKeyGenerator) : Prop :=
  partition_fields g = parse_partition_fields (output_dateformat g) (is_hive_style g).

Lemma from_configs_wf configs g : from_configs configs = Ok g -> generator_wf g.
Proof.
  unfold from_configs. intros H. repeat case_match; try done. res_inv H. done.
Qed.

Lemma path_segment_ok g dt i s : (is_hive_style g = true -> is_Some (partition_fields g !! i)) ->
  path_segment g dt i s = Ok (render dt (lits (prefix g i) ++ tokenize 0 s)).
Proof.
  intros Hf. unfold path_segment, render. rewrite unparse_app, unparse_lits, format_segment_rendered. unfold prefix.
  destruct (is_hive_style g); [|by rewrite str_app_nil_l].
  destruct (Hf eq_refl) as [f Hfi]. rewrite Hfi. cbn. by rewrite str_app_assoc.
Qed.

Lemma path_segments_ok g dt : forall segments i,
  (is_hive_style g = true -> (i + length segments <= length (partition_fields g))%nat) ->
  exists ss, path_segments g dt i segments = Ok ss /\ (segments = [] -> ss = []) /\ (segments <> [] -> ss <> []) /\
    str_join "/" ss = render dt (segment_pieces g i segments).
Proof.
  induction segments as [|s segments IH]; intros i Hl; [by exists []|].
  cbn [path_segments]. rewrite path_segment_ok.
  2:{ intros Hh. apply lookup_lt_is_Some_2. specialize (Hl Hh). cbn in Hl. lia. }
  destruct (IH (S i)) as (ss & -> & Hnil & Hne & Hj); [intros Hh; specialize (Hl Hh); cbn in Hl; lia|].
  cbn [res_bind]. eexists. split_and!; [done|done|done|]. destruct segments as [|s' segments].
  - by rewrite Hnil.
  - destruct ss as [|s1 ss]; [by destruct Hne|].
    change (str_join "/" (?x :: s1 :: ss)) with (x +:+ String slash (str_join "/" (s1 :: ss))).
    rewrite Hj. change (segment_pieces g i (s :: s' :: segments)) with
      (lits (prefix g i) ++ tokenize 0 s ++ Lit slash :: segment_pieces g (S i) (s' :: segments)).
    unfold render. by rewrite app_assoc, (unparse_app _ (_ ++ _)).
Qed.

Lemma format_path_rendered g dt : generator_wf g ->
  format_partition_path g dt = Ok (render (local_fields (output_timezone g) dt) (path_pieces g)).
Proof.
  intros Hg. unfold format_partition_path, path_pieces.
  destruct (path_segments_ok g (local_fields (output_timezone g) dt) (str_split "/" (output_dateformat g)) 0)
    as (ss & -> & _ & _ & Hj); [|cbn [res_bind]; by rewrite Hj].
  intros Hh. rewrite Hg. unfold parse_partition_fields. rewrite Hh. cbn [negb]. rewrite length_fmap. lia.
Qed.

(** The tokens of the path are those of the format. *)
Lemma segment_tokens g : forall segments i,
  tokens_of (segment_pieces g i segments) = tokens_of (tokenize 0 (str_join "/" segments)).
Proof.
  induction segments as [|s [|s' segments] IH]; intros i; [done|..].
  - cbn [segment_pieces str_join]. by rewrite tokens_app, tokens_lits.
  - change (str_join "/" (s :: s' :: segments)) with (s +:+ String slash (str_join "/" (s' :: segments))).
    change (segment_pieces g i (s :: s' :: segments)) with
      (lits (prefix g i) ++ tokenize 0 s ++ Lit slash :: segment_pieces g (S i) (s' :: segments)).
    rewrite (tokenize_slash _ _ _ (le_n _)), !tokens_app, tokens_lits, app_nil_l. f_equal.
    change (tokens_of (segment_pieces g (S i) (s' :: segments)) = tokens_of (tokenize 0 (str_join "/" (s' :: segments)))).
    apply IH.
Qed.

Lemma path_tokens g : tokens_of (path_pieces g) = tokens_of (tokenize 0 (output_dateformat g)).
Proof. unfold path_pieces. by rewrite segment_tokens, str_join_split. Qed.
End paths.

(** * Paths in order *)

(** The fields fit their widths. *)
Definition date_ok (dt : DateFields) : Prop := forall t, (0 <= token_value t dt < 10 ^ Z.of_nat (width t))%Z.

(** Two dates by the fields of some tokens, the first that differs. *)
Fixpoint fields_cmp (ts : list Token) (a b : DateFields) : comparison :=
  match ts with
  | [] => Eq
  | t :: ts => match (token_value t a ?= token_value t b)%Z with Eq => fields_cmp ts a b | c => c end
  end.

Lemma printed_nat dt t : date_ok dt -> printed dt t = pad_nat (width t) (Z.to_N (token_value t dt)).
Proof. intros H. unfold printed, pad_zeros. destruct (Z.ltb_spec (token_value t dt) 0); [destruct (H t); lia|done]. Qed.

Lemma field_bound dt t : date_ok dt -> (Z.to_N (token_value t dt) < 10 ^ N.of_nat (width t))%N.
Proof.
  intros H. destruct (H t) as [H0 H1]. apply N2Z.inj_lt. rewrite Z2N.id, N2Z.inj_pow by done. by rewrite nat_N_Z.
Qed.

Lemma width_pos t : (0 < width t)%nat.
Proof. destruct t; cbn; lia. Qed.

Lemma printed_compare a b t : date_ok a -> date_ok b ->
  (printed a t ?= printed b t)%string = (token_value t a ?= token_value t b)%Z.
Proof.
  intros Ha Hb. rewrite !printed_nat by done. rewrite pad_compare by (apply width_pos || by apply field_bound).
  rewrite <- N2Z.inj_compare, !Z2N.id; [done|apply Hb|apply Ha].
Qed.

Lemma printed_length dt t : date_ok dt -> String.length (printed dt t) = width t.
Proof. intros H. rewrite printed_nat by done. apply length_pad; [apply width_pos|by apply field_bound]. Qed.

(** Rendered texts compare as the fields of their tokens. *)
Lemma render_compare a b ps : date_ok a -> date_ok b -> (render a ps ?= render b ps)%string = fields_cmp (tokens_of ps) a b.
Proof.
  intros Ha Hb. unfold render. induction ps as [|[c|t] ps IH]; [done|..]; cbn [unparse piece_text].
  - rewrite str_compare_app by done. by rewrite str_compare_refl.
  - cbn [from_option]. unfold id. rewrite str_compare_app by (by rewrite !printed_length).
    rewrite printed_compare by done.
    change (tokens_of (Tok t :: ps)) with (t :: tokens_of ps). cbn [fields_cmp]. by rewrite <- IH.
Qed.

Lemma fields_cmp_take k : forall ts a b, fields_cmp ts a b <> Gt -> fields_cmp (take k ts) a b <> Gt.
Proof.
  induction k as [|k IH]; intros [|t ts] a b; cbn; try done.
  destruct (token_value t a ?= token_value t b)%Z; [apply IH|done|done].
Qed.

Lemma fields_cmp_refl ts a : fields_cmp ts a a = Eq.
Proof. induction ts as [|t ts IH]; [done|]. cbn. by rewrite Z.compare_refl. Qed.

(** ** The test of the generator *)
Lemma TOKENS_map : TOKENS = (fun t => (text t, rank t)) <$> all_tokens.
Proof. reflexivity. Qed.

Lemma token_find s : find (fun t => starts_with t.1 s) TOKENS = (fun t => (text t, rank t)) <$> token_at s.
Proof.
  rewrite TOKENS_map. unfold token_at. generalize all_tokens. intros ts.
  induction ts as [|t ts IH]; [done|]. cbn. by destruct (starts_with (text t) s).
Qed.

Lemma ranks_skip w s : token_ranks (String.length w) (w +:+ s) = token_ranks 0 s.
Proof. induction w as [|a w IH]; [by rewrite str_app_nil_l; destruct s|]. by rewrite str_app_cons. Qed.

Lemma token_ranks_ok n : forall s rs, (String.length s <= n)%nat -> token_ranks 0 s = Ok rs ->
  rs = rank <$> tokens_of (tokenize 0 s).
Proof.
  induction n as [|n IH]; intros [|c s] rs Hn; [by intros [= <-]|cbn in Hn; lia|by intros [= <-]|].
  destruct (token_at (String c s)) as [t|] eqn:E.
  - destruct (token_at_find _ _ E) as [r Hr]. pose proof (token_shorter _ _ _ _ Hr) as Hl. cbn [String.length] in Hn, Hl.
    rewrite Hr in E |- *. rewrite tokenize_token by done.
    destruct (text_run t) as (w & Ht & Hw). pose proof (token_find (text t +:+ r)) as Hf. rewrite E in Hf. cbn [fmap option_fmap option_map] in Hf.
    rewrite Ht in Hf. rewrite Ht at 1. rewrite str_app_cons in Hf |- *. cbn [token_ranks]. rewrite Hf.
    rewrite <- Ht, text_length, <- Hw, ranks_skip. intros H. res_inv H.
    rewrite (IH r a) by (done || lia). done.
  - cbn [token_ranks tokenize]. rewrite token_find, E. cbn [fmap option_fmap option_map].
    destruct (is_char_boundary 1 (String c s)); [|done]. apply IH. cbn in Hn. lia.
Qed.

(** A format is chronological if its tokens are the year, the month and so on, down
    to some token, each once and in this order. *)
Definition chronological (format : string) : Prop :=
  exists k, tokens_of (tokenize 0 format) = take (S k) all_tokens.

(** [descending] says less: tokens may be missing. *)
Lemma chronological_descending format rs : chronological format -> token_ranks 0 format = Ok rs ->
  rs <> [] /\ descending rs = true.
Proof.
  intros [k Hk] H. rewrite (token_ranks_ok _ _ _ (le_n _) H), Hk.
  destruct k as [|[|[|[|[|[|k]]]]]]; split; reflexivity || discriminate || (destruct k; reflexivity || discriminate).
Qed.

(** * Filters on the timestamp as filters on the path *)

(** What a filter says of an element, by a comparison. *)
Definition cmp_test {A} (cmp : A -> A -> comparison) (op : ExprOperator) (x : A) (vs : list A) : Prop :=
  match op, vs with
  | _, [] => False
  | Eq_, v :: _ => cmp x v = Eq
  | Ne, v :: _ => cmp x v <> Eq
  | Lt_, v :: _ => cmp x v = Lt
  | Lte, v :: _ => cmp x v <> Gt
  | Gt_, v :: _ => cmp x v = Gt
  | Gte, v :: _ => cmp x v <> Lt
  | In_, vs => Exists (fun v => cmp x v = Eq) vs
  | NotIn, vs => Forall (fun v => cmp x v <> Eq) vs
  end.

Class KeygenChronoLaws {C : Chrono} (K : KeygenChrono) : Prop := {
  (** one instant has one local time *)
  same_instant tz a b : dt_compare a b = Eq -> local_fields tz a = local_fields tz b
}.

Section transform.
Context {C : Chrono} {K : KeygenChrono} {KL : KeygenChronoLaws K}.
Implicit Types (g : TimestampBasedKeyGenerator) (f : Filter).

(** The local clock of the zone shows [a] and [b] in their order, at the precision of
    the tokens: it was not set back past a token between them. *)
Definition clock_in_order (tz : Tz) (ts : list Token) (a b : datetime) : Prop :=
  (dt_compare a b <> Gt -> fields_cmp ts (local_fields tz a) (local_fields tz b) <> Gt) /\
  (dt_compare a b <> Lt -> fields_cmp ts (local_fields tz a) (local_fields tz b) <> Lt).

(** The timestamps of a record and of a filter, for a comparison of their paths. *)
Definition comparable_dates g (d v : datetime) : Prop :=
  date_ok (local_fields (output_timezone g) d) /\ date_ok (local_fields (output_timezone g) v) /\
  clock_in_order (output_timezone g) all_tokens d v.

Lemma clock_in_order_take tz k a b : clock_in_order tz all_tokens a b -> clock_in_order tz (take k all_tokens) a b.
Proof.
  assert (Hl : forall k ts x y, fields_cmp ts x y <> Lt -> fields_cmp (take k ts) x y <> Lt).
  { intros k'. induction k' as [|k' IH]; intros [|t ts] x y; cbn; try done.
    destruct (token_value t x ?= token_value t y)%Z; [apply IH|done|done]. }
  intros [H1 H2]. split; intros H; [by apply fields_cmp_take, H1|by apply Hl, H2].
Qed.

Lemma path_cmp g d v pd pv : generator_wf g -> format_partition_path g d = Ok pd -> format_partition_path g v = Ok pv ->
  comparable_dates g d v ->
  (pd ?= pv)%string = fields_cmp (tokens_of (tokenize 0 (output_dateformat g)))
    (local_fields (output_timezone g) d) (local_fields (output_timezone g) v).
Proof.
  intros Hg Hd Hv (Ha & Hb & _). rewrite !format_path_rendered in Hd, Hv by done. simplify_eq.
  rewrite render_compare by done. by rewrite path_tokens.
Qed.

Lemma path_order g d v pd pv : generator_wf g -> chronological (output_dateformat g) ->
  format_partition_path g d = Ok pd -> format_partition_path g v = Ok pv -> comparable_dates g d v ->
  (dt_compare d v <> Gt -> (pd ?= pv)%string <> Gt) /\ (dt_compare d v <> Lt -> (pd ?= pv)%string <> Lt).
Proof.
  intros Hg [k Hk] Hd Hv Hc. rewrite (path_cmp g d v pd pv Hg Hd Hv Hc), Hk.
  destruct Hc as (_ & _ & Hc). by apply (clock_in_order_take _ (S k)) in Hc.
Qed.

Lemma same_path g d v pd pv : dt_compare d v = Eq -> format_partition_path g d = Ok pd -> format_partition_path g v = Ok pv ->
  pd = pv.
Proof. intros H Hd Hv. unfold format_partition_path in *. rewrite (same_instant _ d v H) in Hd. congruence. Qed.

Lemma path_of_parsed g v dt path : parse_timestamp g v = Ok dt -> path_of g v = Ok path -> format_partition_path g dt = Ok path.
Proof. intros H. unfold path_of. by rewrite H. Qed.

(** The operators whose filters the generator may transform. *)
Definition transformable (op : ExprOperator) : bool := match op with Ne | NotIn => false | _ => true end.

Definition is_range (op : ExprOperator) : bool := match op with Lt_ | Lte | Gt_ | Gte => true | _ => false end.

Lemma range_sound g op v d dv pd pv : generator_wf g -> chronological (output_dateformat g) ->
  is_range op = true -> format_partition_path g d = Ok pd -> format_partition_path g dv = Ok pv ->
  comparable_dates g d dv -> cmp_test dt_compare op d (dv :: v) -> cmp_test String.compare (widened op) pd [pv].
Proof.
  intros Hg Hch Hr Hd Hv Hc. destruct (path_order g d dv pd pv Hg Hch Hd Hv Hc) as [Hle Hge].
  destruct op; cbn; try done; intros H; (apply Hle || apply Hge); congruence.
Qed.

Lemma in_sound g d pd : format_partition_path g d = Ok pd -> forall vs dts paths,
  res_mapM (parse_timestamp g) vs = Ok dts -> res_mapM (path_of g) vs = Ok paths ->
  Exists (fun v => dt_compare d v = Eq) dts -> Exists (fun p => (pd ?= p)%string = Eq) paths.
Proof.
  intros Hd vs dts paths Hp Hq. apply res_mapM_Ok in Hp, Hq. revert paths Hq.
  induction Hp as [|v dt vs dts Hv _ IH]; intros paths Hq He; [by apply Exists_nil in He|].
  inversion Hq as [|? p ? ps Hp Hps]; subst. apply Exists_cons in He as [He|He].
  - left. rewrite (same_path g d dt pd p He Hd); [apply str_compare_refl|by apply (path_of_parsed g v)].
  - right. by apply IH.
Qed.

(** The shape of what a filter becomes. *)
Lemma transform_range g f fs : field f = source_field g -> is_range (operator f) = true -> transform_filter g f = Ok fs ->
  fs = [] \/ (is_lex_sortable_format g = Ok true /\ exists v p, filter_first f = Ok v /\ path_of g v = Ok p /\
    fs = [mkFilter PARTITION_PATH_FIELD (widened (operator f)) [p]]).
Proof.
  intros Hf Hr. unfold transform_filter. rewrite decide_False by (by intros []).
  assert (Hgo : (let? sortable := is_lex_sortable_format g in
      if negb sortable then Ok [] else
        let? v := filter_first f in let? path := path_of g v in
        Ok [mkFilter PARTITION_PATH_FIELD (widened (operator f)) [path]]) = Ok fs ->
    fs = [] \/ (is_lex_sortable_format g = Ok true /\ exists v p, filter_first f = Ok v /\ path_of g v = Ok p /\
      fs = [mkFilter PARTITION_PATH_FIELD (widened (operator f)) [p]])).
  { destruct (is_lex_sortable_format g) as [[]| |]; cbn [res_bind negb]; try done; [|intros [= <-]; by left].
    intros H. right. split; [done|]. destruct (filter_first f) as [v| |]; cbn [res_bind] in H; try done.
    destruct (path_of g v) as [p| |] eqn:Ep; cbn [res_bind] in H; try done. injection H as <-. by exists v, p. }
  by destruct (operator f).
Qed.

Lemma transform_ok g f fs vs d path :
  generator_wf g -> field f = source_field g -> transformable (operator f) = true ->
  res_mapM (parse_timestamp g) (values f) = Ok vs ->
  transform_filter g f = Ok fs -> format_partition_path g d = Ok path ->
  (is_range (operator f) = true -> is_lex_sortable_format g = Ok true ->
    chronological (output_dateformat g) /\ Forall (comparable_dates g d) vs) ->
  cmp_test dt_compare (operator f) d vs ->
  Forall (fun f' => field f' = PARTITION_PATH_FIELD /\ cmp_test String.compare (operator f') path (values f')) fs.
Proof.
  intros Hg Hf Hop Hvs Ht Hd Hch Htest.
  assert (Hfirst : forall v, filter_first f = Ok v -> exists dv vs', vs = dv :: vs' /\ parse_timestamp g v = Ok dv).
  { unfold filter_first. destruct (values f) as [|w ws]; [done|]. intros v [= <-].
    apply res_mapM_Ok in Hvs. inversion Hvs; subst. eauto. }
  destruct (is_range (operator f)) eqn:Er.
  - destruct (transform_range g f fs Hf Er Ht) as [->|(Hs & v & p & Hv & Hp & ->)]; [done|].
    destruct (Hfirst v Hv) as (dv & vs' & -> & Hdv). destruct (Hch eq_refl Hs) as [Hc [Hcmp _]%list.Forall_cons].
    apply list.Forall_singleton. split; [done|]. cbn [operator values].
    apply (range_sound g (operator f) vs' d dv path p); try done. by apply (path_of_parsed g v).
  - unfold transform_filter in Ht. rewrite decide_False in Ht by (by intros []).
    destruct (operator f) eqn:Eop; try done; res_inv Ht; apply list.Forall_singleton; (split; [done|]).
    + destruct (Hfirst _ E) as (dv & vs' & -> & Hp). cbn in Htest |- *.
      rewrite (same_path g d dv path a0 Htest Hd); [apply str_compare_refl|by apply (path_of_parsed g a)].
    + destruct vs as [|v vs]; [done|]. pose proof (in_sound g d path Hd _ _ _ Hvs E Htest) as Hin. cbn.
      destruct a; [by apply Exists_nil in Hin|done].
Qed.

(** What the generator makes of a filter holds of every record the filter holds
    of.  If the timestamp of a record passes a filter by equality, by list or by
    range, the record's partition path passes the filters on paths it becomes --
    for ranges, if the output format names year, month and so on without a gap and
    the zone's clock was not set back between the timestamps. *)
Theorem transformed_filter_sound g f fs vs d path :
  generator_wf g -> field f = source_field g -> transformable (operator f) = true ->
  res_mapM (parse_timestamp g) (values f) = Ok vs ->
  transform_filter g f = Ok fs -> format_partition_path g d = Ok path ->
  (is_range (operator f) = true -> is_lex_sortable_format g = Ok true ->
    chronological (output_dateformat g) /\ Forall (comparable_dates g d) vs) ->
  cmp_test dt_compare (operator f) d vs ->
  Forall (fun f' => field f' = PARTITION_PATH_FIELD /\ cmp_test String.compare (operator f') path (values f')) fs.
Proof. apply transform_ok. Qed.
End transform.

(** * A sample calendar *)
Module SampleDates.

(** Days since the epoch as a date, in the proleptic Gregorian calendar. *)
Definition date_of_days (days : Z) : Z * Z * Z :=
  let z := (days + 719468)%Z in
  let era := (z / 146097)%Z in
  let doe := (z mod 146097)%Z in
  let yoe := ((doe - doe / 1460 + doe / 36524 - doe / 146096) / 365)%Z in
  let doy := (doe - (365 * yoe + yoe / 4 - yoe / 100))%Z in
  let mp := ((5 * doy + 2) / 153)%Z in
  let m := (if mp <? 10 then mp + 3 else mp - 9)%Z in
  (yoe + era * 400 + (if m <=? 2 then 1 else 0), m, doy - (153 * mp + 2) / 5 + 1)%Z.

Definition fields_of_millis (t : Z) : DateFields :=
  let s := (t / 1000)%Z in
  let '(y, m, d) := date_of_days (s / 86400)%Z in
  let r := (s mod 86400)%Z in mkDate y m d (r / 3600) (r / 60 mod 60) (r mod 60).

(** Zones of a fixed offset in minutes. *)
#[global] Instance keygen_civil : KeygenChrono := {|
  Tz := Z;
  parse_tz s := if decide (s = "UTC") then Some 0%Z else None;
  from_timestamp s := Some (s * 1000)%Z;
  from_timestamp_micros u := Some (u / 1000)%Z;
  parse_with_offset _ _ := None;
  parse_naive v _ := Civil.parse v;
  from_local off n := Some (n - off * 60000)%Z;
  local_fields off t := fields_of_millis (t + off * 60000)
|}.

#[global] Instance keygen_civil_laws : KeygenChronoLaws keygen_civil.
Proof. split. cbn. intros tz a b H. apply Z.compare_eq in H. by rewrite H. Qed.

Definition configs (format : string) : HudiConfigs :=
  <["hoodie.table.partition.fields" := "ts"]>
  (<["hoodie.keygen.timebased.timestamp.type" := "scalar"]>
  (<["hoodie.keygen.timebased.timestamp.scalar.time.unit" := "seconds"]>
  (<["hoodie.keygen.timebased.output.dateformat" := format]>
  (<["hoodie.datasource.write.hive_style_partitioning" := "true"]> ∅)))).

Definition generator (format : string) : TimestampBasedKeyGenerator :=
  mkKeyGenerator "ts" Scalar None None (Some Seconds) format 0%Z true (parse_partition_fields format true).

Example sample_configs :
  match from_configs (configs "yyyy/MM/dd") with
  | Ok g => (source_field g, timestamp_type g, scalar_time_unit g, is_hive_style g, partition_fields g) =
      ("ts", Scalar, Some Seconds, true, ["year"; "month"; "day"])
  | _ => False
  end.
Proof. vm_compute. reflexivity. Qed.

Example sample_transform :
  transform_filter (generator "yyyy/MM/dd") (field_gt "ts" "1709294400") =
    Ok [field_gte "_hoodie_partition_path" "year=2024/month=03/day=01"].
Proof. vm_compute. reflexivity. Qed.

(** 2024-03-05T06:00:00Z, a record, and 2024-03-01T12:00:00Z, a filter. *)
Definition record_date : Z := 1709618400000.
Definition filter_text : string := "1709294400".

Lemma dates_comparable : comparable_dates (generator "yyyy/MM/dd") record_date 1709294400000%Z.
Proof.
  assert (E1 : local_fields 0%Z record_date = mkDate 2024 3 5 6 0 0) by (vm_compute; reflexivity).
  assert (E2 : local_fields 0%Z 1709294400000%Z = mkDate 2024 3 1 12 0 0) by (vm_compute; reflexivity).
  unfold comparable_dates, clock_in_order. cbn [output_timezone generator]. rewrite E1, E2.
  assert (Hok : date_ok (mkDate 2024 3 5 6 0 0) /\ date_ok (mkDate 2024 3 1 12 0 0))
    by (split; intros []; (split; [vm_compute; discriminate|vm_compute; reflexivity])).
  split; [apply Hok|]. split; [apply Hok|]. 
  assert (E : fields_cmp all_tokens (mkDate 2024 3 5 6 0 0) (mkDate 2024 3 1 12 0 0) = Gt) by reflexivity.
  split; intros H; [exfalso; apply H; reflexivity|by rewrite E].
Qed.

Lemma transformed_filter_sound_witness :
  Forall (fun f' => field f' = PARTITION_PATH_FIELD /\
      cmp_test String.compare (operator f') "year=2024/month=03/day=05" (values f'))
    [field_gte "_hoodie_partition_path" "year=2024/month=03/day=01"].
Proof.
  refine (transformed_filter_sound (generator "yyyy/MM/dd") (field_gt "ts" filter_text) _ [1709294400000%Z] record_date
    _ eq_refl eq_refl eq_refl _ _ _ _ _).
  - vm_compute. reflexivity.
  - vm_compute. reflexivity.
  - vm_compute. reflexivity.
  - intros _ _. split; [exists 2%nat; reflexivity|]. apply list.Forall_singleton, dates_comparable.
  - reflexivity.
Defined.

(** What [!=] becomes is not sound: the path of a record of the same day, but another
    time, is excluded. *)
Example not_equal_loses_the_day :
  cmp_test dt_compare Ne 1709294401000%Z [1709294400000%Z] /\
  format_partition_path (generator "yyyy/MM/dd") 1709294401000%Z = Ok "year=2024/month=03/day=01" /\
  transform_filter (generator "yyyy/MM/dd") (field_ne "ts" filter_text) =
    Ok [field_ne "_hoodie_partition_path" "year=2024/month=03/day=01"].
Proof. split_and!; [done|vm_compute; reflexivity..]. Qed.

(** A format without the year passes for sortable: a filter from December 2023 on
    excludes March 2024. *)
Example month_first_is_no_order :
  is_lex_sortable_format (generator "MM/dd") = Ok true /\
  format_partition_path (generator "MM/dd") record_date = Ok "month=03/day=05" /\
  transform_filter (generator "MM/dd") (field_gte "ts" "1702000000") =
    Ok [field_gte "_hoodie_partition_path" "month=12/day=08"] /\
  dt_compare record_date 1702000000000%Z = Gt.
Proof. split_and!; vm_compute; reflexivity. Qed.

(** Any character of more than one byte in the format panics. *)
Example format_panics_on_wide_characters :
  is_lex_sortable_format (generator (String "195" (String "169" "yyyy"))) = Panic.
Proof. vm_compute. reflexivity. Qed.
End SampleDates.
