(* ===== verification/Partition.v ===== *)
(** Pruning of partitions by their paths: crates/core/src/table/partition.rs.

    Percent decoding is the percent_encoding crate's ([PercentDecode]). *)
From Stdlib Require Import Ascii.
From stdpp Require Import base gmap sets list strings sorting numbers.
From S2P Require Import Prelude RustStr Chrono StrReplace Config Expr ArrowFilter FilePruner KeyGen DatePaths.
Local Open Scope res_scope.

Class PercentDecode := {
  (** [percent_decode(bytes).decode_utf8()] *)
  percent_decode : string -> option string
}.

Definition PARTITION_METAFIELD_PREFIX : string := ".hoodie_partition_metadata".
Definition EMPTY_PARTITION_PATH : string := "".
Definition IsPartitionPathUrlencoded : string := "hoodie.datasource.write.partitionpath.urlencode".

(** [project_partition_schema]: the fields in the order of the path's segments. *)
Definition project_partition_schema (table_schema : Schema) (partition_field_names : list string) : res Schema :=
  res_mapM (fun name => ok_or (field_with_name table_schema name) ESchema) partition_field_names.

Definition is_table_partitioned (configs : HudiConfigs) : bool :=
  let has_partition_fields := match get_partition_fields configs with [] => false | _ => true end in
  let uses_non_partitioned_key_gen :=
    match try_get_string configs KeyGeneratorClass with
    | Some key_gen => bool_decide (key_gen = "org.apache.hudi.keygen.NonpartitionedKeyGenerator")
    | None => false
    end in
  let uses_non_partitioned_type :=
    match try_get_string configs KeyGeneratorType with
    | Some s => let upper := to_uppercase s in bool_decide (upper = "NON_PARTITION") || bool_decide (upper = "NON_PARTITION_AVRO")
    | None => false
    end in
  has_partition_fields && negb uses_non_partitioned_key_gen && negb uses_non_partitioned_type.

Record PartitionPruner := mkPartitionPruner {
  pschema : Schema;
  pis_hive_style : bool;
  is_url_encoded : bool;
  is_partitioned : bool;
  pand_filters : list SchemableFilter
}.

Section pruner.
Context {C : Chrono} {K : KeygenChrono} {AS : ArrowScalars} {PD : PercentDecode}.

Definition apply_transformer_to_filters (g : TimestampBasedKeyGenerator) (filters : list Filter) : res (list Filter) :=
  res_fold (fun transformed f => let? fs := transform_filter g f in Ok (transformed ++ fs)) filters [].

Definition transform_filters_for_keygen (filters : list Filter) (configs : HudiConfigs) : res (list Filter) :=
  if is_timestamp_based_keygen configs then
    match from_configs configs with
    | Ok g => apply_transformer_to_filters g filters
    | Err _ => Ok filters
    | Panic => Panic
    end
  else Ok filters.

(** [PartitionPruner::new] *)
Definition partition_pruner_new (and_filters : list Filter) (partition_schema : Schema) (configs : HudiConfigs)
    : res PartitionPruner :=
  let? transformed_filters := transform_filters_for_keygen and_filters configs in
  Ok (mkPartitionPruner partition_schema
        (get_bool_or_default configs IsHiveStylePartitioning false)
        (get_bool_or_default configs IsPartitionPathUrlencoded false)
        (is_table_partitioned configs)
        (castable_filters partition_schema transformed_filters)).

(** [PartitionPruner::empty] *)
Definition partition_pruner_empty : PartitionPruner := mkPartitionPruner [] false false false [].

(** [PartitionPruner::is_empty] *)
Definition partition_pruner_is_empty (p : PartitionPruner) : bool :=
  match pand_filters p with [] => true | _ => false end.

(** The text of one segment. *)
Definition segment_text (p : PartitionPruner) (f : Field) (part : string) : res string :=
  if pis_hive_style p then
    match split_once "=" part with
    | None => Err EInvalidPartitionPath
    | Some (name, value) => if decide (name <> field_name f) then Err EInvalidPartitionPath else Ok value
    end
  else Ok part.

Definition parse_segment (p : PartitionPruner) (fp : Field * string) : res (string * Value) :=
  let '(f, part) := fp in
  let? value := segment_text p f part in
  let? scalar := cast_value value (data_type f) in
  Ok (field_name f, scalar).

(** Of two entries with a name, the last stays. *)
Definition collect_segments (l : list (string * Value)) : gmap string Value :=
  foldl (fun m kv => <[kv.1 := kv.2]> m) ∅ l.

Definition decode_path (p : PartitionPruner) (partition_path : string) : res string :=
  if is_url_encoded p then ok_or (percent_decode partition_path) EUtf8 else Ok partition_path.

(** [parse_segments] *)
Definition parse_segments (p : PartitionPruner) (partition_path : string) : res (gmap string Value) :=
  let? partition_path := decode_path p partition_path in
  if bool_decide (field_name <$> pschema p = [PARTITION_PATH_FIELD]) then
    let? scalar := cast_value partition_path Utf8 in
    Ok {[ PARTITION_PATH_FIELD := scalar ]}
  else
    let parts := str_split "/" partition_path in
    if negb (length parts =? length (pschema p))%nat then Err EInvalidPartitionPath
    else let? l := res_mapM (parse_segment p) (zip (pschema p) parts) in Ok (collect_segments l).

(** What one filter says of the segments. *)
Definition segment_passes (segments : gmap string Value) (f : SchemableFilter) : res bool :=
  match segments !! field_name (sfield f) with
  | Some segment_value =>
      match apply_comparison f (mkColumn (value_type segment_value) [Some segment_value]) with
      | Ok (Some b :: _) => Ok b
      | Ok _ => Panic
      | Err _ => Ok true
      | Panic => Panic
      end
  | None => Ok true
  end.

(** [iter().all(..)] *)
Fixpoint all_pass (segments : gmap string Value) (filters : list SchemableFilter) : res bool :=
  match filters with
  | [] => Ok true
  | f :: filters =>
      let? b := segment_passes segments f in
      if b : bool then all_pass segments filters else Ok false
  end.

(** [PartitionPruner::should_include] *)
Definition should_include (p : PartitionPruner) (partition_path : string) : res bool :=
  match parse_segments p partition_path with
  | Ok segments => all_pass segments (pand_filters p)
  | Err _ => Ok true
  | Panic => Panic
  end.
End pruner.

(** * A partition that is left out has no matching row *)
Section soundness.
Context {C : Chrono} {K : KeygenChrono} {AS : ArrowScalars} {SL : ScalarLaws AS} {PD : PercentDecode}.

Definition one_element (v : Value) : Column := mkColumn (value_type v) [Some v].

(** A comparison that does not fail is of the column's type. *)
Lemma apply_comparison_typed f c m : schemable_wf f -> apply_comparison f c = Ok m ->
  column_type c = data_type (sfield f) /\ ordered_type (column_type c) = true.
Proof.
  intros [Hn Ht]. unfold apply_comparison, compare_first, compare_all, first_value.
  destruct f as [fd op [|v vs]]; cbn [soperator svalues sfield] in *; [done|]. apply list.Forall_cons in Ht as [Hv _].
  assert (Hok : forall o m, arrow_cmp o c v = Ok m -> column_type c = data_type fd /\ ordered_type (column_type c) = true).
  { intros o m' H. destruct (decide (column_type c = value_type v)) as [E|E]; [|by rewrite arrow_cmp_type in H].
    rewrite E. split; [done|]. destruct (ordered_type (value_type v)) eqn:Eo; [done|by rewrite arrow_cmp_unordered in H]. }
  destruct op; cbn [res_bind]; try apply Hok.
  - destruct (arrow_cmp CEq c v) eqn:E; [|done..]. intros _. by eapply Hok.
  - destruct (arrow_cmp CNeq c v) eqn:E; [|done..]. intros _. by eapply Hok.
Qed.

Lemma segment_passes_test segments f v b : schemable_wf f -> segments !! field_name (sfield f) = Some v ->
  apply_comparison f (one_element v) = Ok [Some b] -> segment_passes segments f = Ok b.
Proof. intros Hf Hv Ha. unfold segment_passes. rewrite Hv. fold (one_element v). by rewrite Ha. Qed.

Lemma segment_fails segments f : schemable_wf f -> segment_passes segments f = Ok false ->
  exists v, segments !! field_name (sfield f) = Some v /\ filter_test f v = false /\ value_type v = data_type (sfield f).
Proof.
  intros Hf. unfold segment_passes. destruct (segments !! field_name (sfield f)) as [v|] eqn:Ev; [|done].
  fold (one_element v). destruct (apply_comparison f (one_element v)) as [m|e|] eqn:Ea; [|done..].
  destruct (apply_comparison_typed f _ m Hf Ea) as [Ht Ho].
  rewrite (apply_comparison_ok f (one_element v) Hf Ht Ho) in Ea. cbn in Ea. injection Ea as <-. intros [= H]. by exists v.
Qed.

Lemma all_pass_false segments fs : Forall schemable_wf fs -> all_pass segments fs = Ok false ->
  exists f v, f ∈ fs /\ segments !! field_name (sfield f) = Some v /\ filter_test f v = false /\
    value_type v = data_type (sfield f).
Proof.
  induction 1 as [|f fs Hf _ IH]; cbn [all_pass]; [done|].
  destruct (segment_passes segments f) as [[]| |] eqn:E; cbn [res_bind]; [|intros _|done..].
  - intros (g & v & Hg & H)%IH. exists g, v. split; [by right|done].
  - destruct (segment_fails _ f Hf E) as (v & H). exists f, v. split; [by left|done].
Qed.

Lemma all_pass_true segments fs : (forall f, f ∈ fs -> segment_passes segments f = Ok true) -> all_pass segments fs = Ok true.
Proof.
  induction fs as [|f fs IH]; intros H; [done|]. cbn [all_pass]. rewrite H by left. cbn [res_bind].
  apply IH. intros g Hg. apply H. by right.
Qed.

(** The rows of a partition hold the values of its path: the element of row [i] in each
    partition column is the segment's value, cast to the type the column has. *)
Definition holds_path (p : PartitionPruner) (partition_path : string) (b : Batch) (i : nat) : Prop :=
  forall segments name v, parse_segments p partition_path = Ok segments -> segments !! name = Some v ->
    field_with_name (batch_schema b) name = field_with_name (pschema p) name /\
    exists c, column_by_name b name = Some c /\ column_values c !! i = Some (Some v).

Lemma castable_wf schema fs : Forall (fun f => values f <> []) fs -> Forall schemable_wf (castable_filters schema fs).
Proof.
  intros H. apply list.Forall_forall. intros sf (f & Hf & Hsf)%castable_elem.
  rewrite list.Forall_forall in H. by eapply schemable_wf_from; [apply H|].
Qed.

Lemma schemable_same_field f s s' : field_with_name s (field f) = field_with_name s' (field f) ->
  schemable_try_from f s = schemable_try_from f s'.
Proof. unfold schemable_try_from. by intros ->. Qed.

Lemma should_include_false p path : should_include p path = Ok false ->
  exists segments, parse_segments p path = Ok segments /\ all_pass segments (pand_filters p) = Ok false.
Proof. unfold should_include. destruct (parse_segments p path) as [s|e|]; [|done..]. by exists s. Qed.

Lemma pruned_partition_rows filters partition_schema configs p path b i :
  is_timestamp_based_keygen configs = false ->
  Forall (fun f => values f <> []) filters ->
  partition_pruner_new filters partition_schema configs = Ok p ->
  should_include p path = Ok false -> holds_path p path b i -> ~ Forall (row_passes b i) filters.
Proof.
  intros Hk Hn Hp (segments & Hs & Ha)%should_include_false Hrow Hall.
  unfold partition_pruner_new, transform_filters_for_keygen in Hp. rewrite Hk in Hp. cbn [res_bind] in Hp.
  injection Hp as <-. cbn [pand_filters] in Ha.
  destruct (all_pass_false _ _ (castable_wf partition_schema filters Hn) Ha) as (sf & v & Hsf & Hv & Ht & _).
  apply castable_elem in Hsf as (f & Hf & Hcast). rewrite list.Forall_forall in Hall.
  pose proof (schemable_try_from_ok f _ sf Hcast) as (Hfield & _ & _).
  assert (Hname : field_name (sfield sf) = field f)
    by (unfold field_with_name in Hfield; apply find_some in Hfield as [_ ?]; by case_bool_decide).
  rewrite Hname in Hv. destruct (Hrow segments (field f) v Hs Hv) as (Hfn & c & Hc & Hi). cbn [pschema] in Hfn.
  destruct (Hall f Hf c Hc) as (sf' & v' & Hsf' & Hv' & Ht').
  rewrite (schemable_same_field f _ _ Hfn) in Hsf'. simplify_eq. congruence.
Qed.

(** C28: pruning a partition loses no row.  Where the path of a partition is left out,
    the filters on rows would have dropped every row that holds the values of the
    path -- for tables whose path shows the columns themselves. *)
Theorem pruned_partition_has_no_match filters partition_schema configs p path b i :
  is_timestamp_based_keygen configs = false ->
  Forall (fun f => values f <> []) filters ->
  partition_pruner_new filters partition_schema configs = Ok p ->
  should_include p path = Ok false -> holds_path p path b i -> ~ Forall (row_passes b i) filters.
Proof. apply pruned_partition_rows. Qed.

(** ** Paths made of timestamps *)
Definition utf8_value (s : string) : Value := mkValue Utf8 (DBytes s).

Lemma element_test_utf8 op s vs : cmp_test String.compare op s vs -> element_test op (utf8_value <$> vs) (utf8_value s) = true.
Proof.
  destruct op, vs as [|v vs]; try done;
    cbn [cmp_test element_test fmap list_fmap]; unfold utf8_value; rewrite ?utf8_cmp;
    try (by destruct (s ?= v)%string).
  - intros H. apply existsb_exists. apply list.Exists_exists in H as (w & Hw & H).
    exists (utf8_value w). split; [|unfold utf8_value; by rewrite utf8_cmp, H].
    change (In (utf8_value w) (map utf8_value (v :: vs))). by apply in_map, list_elem_of_In.
  - intros H. apply forallb_forall. intros x Hx. change (In x (map utf8_value (v :: vs))) in Hx.
    apply in_map_iff in Hx as (w & <- & Hw). apply list_elem_of_In in Hw. rewrite list.Forall_forall in H.
    unfold utf8_value. rewrite utf8_cmp. specialize (H w Hw). by destruct (s ?= w)%string.
Qed.

Definition path_schema : Schema := [mkField PARTITION_PATH_FIELD Utf8].

Lemma path_schemable f sf : schemable_try_from f path_schema = Ok sf ->
  field f = PARTITION_PATH_FIELD /\ sfield sf = mkField PARTITION_PATH_FIELD Utf8 /\ svalues sf = utf8_value <$> values f /\
    soperator sf = operator f.
Proof.
  intros (Hf & Ho & Hv)%schemable_try_from_ok. unfold field_with_name, path_schema in Hf. cbn in Hf.
  case_bool_decide as E; [|done]. injection Hf as Hf. rewrite <- Hf in Hv |- *. split_and!; try done.
  cbn [data_type] in Hv. clear -Hv SL. induction Hv as [|w x ws xs Hwx _ IH]; [done|].
  rewrite utf8_cast in Hwx. injection Hwx as <-. cbn. by rewrite <- IH.
Qed.

(** A filter the path passes, as the pruner tests it. *)
Lemma path_passes path f sf : schemable_try_from f path_schema = Ok sf ->
  cmp_test String.compare (operator f) path (values f) ->
  segment_passes {[ PARTITION_PATH_FIELD := utf8_value path ]} sf = Ok true.
Proof.
  intros Hsf Ht. assert (Hn : values f <> []) by (intros E; rewrite E in Ht; by destruct (operator f)).
  pose proof (schemable_wf_from f _ sf Hn Hsf) as Hwf. apply path_schemable in Hsf as (_ & Hsfield & Hvs & Hop).
  apply (segment_passes_test _ sf (utf8_value path)); [done|by rewrite Hsfield, lookup_singleton_eq|].
  rewrite apply_comparison_ok; [|done|by rewrite Hsfield|apply utf8_ordered]. cbn. unfold filter_test.
  by rewrite Hvs, Hop, element_test_utf8.
Qed.

Lemma apply_transformer_ok g filters fs : apply_transformer_to_filters g filters = Ok fs ->
  forall f', f' ∈ fs -> exists f fs', f ∈ filters /\ transform_filter g f = Ok fs' /\ f' ∈ fs'.
Proof.
  unfold apply_transformer_to_filters. assert (H : forall fs0,
    res_fold (fun transformed f => let? fs := transform_filter g f in Ok (transformed ++ fs)) filters fs0 = Ok fs ->
    forall f', f' ∈ fs -> f' ∈ fs0 \/ exists f fs', f ∈ filters /\ transform_filter g f = Ok fs' /\ f' ∈ fs').
  { induction filters as [|f filters IH]; cbn [res_fold]; intros fs0.
    - intros [= ->]. by left.
    - destruct (transform_filter g f) as [fs1| |] eqn:E; cbn [res_bind]; [|done..]. intros H f' Hf'.
      destruct (IH _ H f' Hf') as [[Hin|Hin]%elem_of_app|(f2 & fs2 & Hin & H2)]; [by left|right|right].
      + exists f, fs1. split; [by left|done].
      + exists f2, fs2. split; [by right|done]. }
  intros H0 f' Hf'. destruct (H [] H0 f' Hf') as [?%not_elem_of_nil|]; done.
Qed.

(** A record of timestamp [d] in the partition [path] passes a filter: on the source
    field by its timestamp, on the path itself by the path. *)
Definition record_passes (g : TimestampBasedKeyGenerator) (d : datetime) (path : string) (f : Filter) : Prop :=
  if decide (field f = source_field g) then
    transformable (operator f) = true /\
    exists vs, res_mapM (parse_timestamp g) (values f) = Ok vs /\ cmp_test dt_compare (operator f) d vs /\
      (is_range (operator f) = true -> is_lex_sortable_format g = Ok true ->
        chronological (output_dateformat g) /\ Forall (comparable_dates g d) vs)
  else field f = PARTITION_PATH_FIELD -> cmp_test String.compare (operator f) path (values f).

Context {KL : KeygenChronoLaws K}.

Lemma transformed_passes g d path f fs f' : generator_wf g -> format_partition_path g d = Ok path ->
  record_passes g d path f -> transform_filter g f = Ok fs -> f' ∈ fs -> field f' = PARTITION_PATH_FIELD ->
  cmp_test String.compare (operator f') path (values f').
Proof.
  intros Hg Hd Hp Ht Hf' Hn. unfold record_passes in Hp. destruct (decide (field f = source_field g)) as [E|E].
  - destruct Hp as (Hop & vs & Hvs & Htest & Hr).
    pose proof (transform_ok g f fs vs d path Hg E Hop Hvs Ht Hd Hr Htest) as H.
    rewrite list.Forall_forall in H. by apply H.
  - unfold transform_filter in Ht. rewrite decide_True in Ht by done. injection Ht as <-.
    apply list_elem_of_singleton in Hf' as ->. by apply Hp.
Qed.

(** Tables partitioned by timestamps keep the partitions of matching records.  If
    a record's timestamp passes the filters of a query -- by equality, list or range --
    the partition its path names is included. *)
Theorem timestamp_partition_kept filters configs g p d path :
  is_timestamp_based_keygen configs = true -> from_configs configs = Ok g ->
  partition_pruner_new filters path_schema configs = Ok p ->
  format_partition_path g d = Ok path -> is_url_encoded p = false ->
  Forall (record_passes g d path) filters -> should_include p path = Ok true.
Proof.
  intros Hk Hg Hp Hd Hu Hall. pose proof (from_configs_wf configs g Hg) as Hwf.
  unfold partition_pruner_new, transform_filters_for_keygen in Hp. rewrite Hk, Hg in Hp.
  destruct (apply_transformer_to_filters g filters) as [fs| |] eqn:Ef; cbn [res_bind] in Hp; [|done..].
  injection Hp as <-. cbn [is_url_encoded] in Hu. unfold should_include, parse_segments, decode_path.
  cbn [is_url_encoded pschema pand_filters]. rewrite Hu. cbn [res_bind].
  rewrite bool_decide_true by done. unfold cast_value. rewrite utf8_cast. cbn [ok_or res_bind].
  apply all_pass_true. intros sf (f' & Hf' & Hsf)%castable_elem.
  apply (path_passes path f' sf Hsf). destruct (apply_transformer_ok g filters fs Ef f' Hf') as (f & fs' & Hf & Ht & Hin).
  rewrite list.Forall_forall in Hall. apply (transformed_passes g d path f fs' f'); auto. by apply path_schemable in Hsf as [? _].
Qed.
End soundness.

(** * Samples *)
Module SamplePartitions.
Import SampleScalars SampleDates.

#[global] Instance no_escapes : PercentDecode := {| percent_decode := Some |}.

Definition hive_configs : HudiConfigs :=
  <["hoodie.table.partition.fields" := "city, id"]> (<["hoodie.datasource.write.hive_style_partitioning" := "true"]> ∅).

Definition partition_schema : Schema := [mkField "city" Utf8; mkField "id" Int32].

Definition hive_pruner (filters : list Filter) : PartitionPruner :=
  mkPartitionPruner partition_schema true false true (castable_filters partition_schema filters).

Definition query : list Filter := [in_list "city" ["oslo"; "lima"]; field_lt "id" "5"; field_eq "other" "x"].

Example sample_includes :
  should_include (hive_pruner query) "city=lima/id=3" = Ok true /\
  should_include (hive_pruner query) "city=rome/id=3" = Ok false /\
  should_include (hive_pruner query) "city=lima/id=7" = Ok false /\
  should_include (hive_pruner query) "id=7/city=rome" = Ok true /\
  should_include (hive_pruner query) "city=rome" = Ok true.
Proof. split_and!; vm_compute; reflexivity. Qed.

(** The rows of the partition of rome. *)
Definition rome : Batch :=
  mkBatch (mkField "name" Utf8 :: partition_schema)
    [mkColumn Utf8 [utf8 "a"]; mkColumn Utf8 [utf8 "rome"]; mkColumn Int32 [int32 3]] 1.

Definition rome_segments : gmap string Value :=
  <["id" := mkValue Int32 (DInt 3)]> (<["city" := mkValue Utf8 (DBytes "rome")]> ∅).

Lemma rome_holds_path filters : holds_path (hive_pruner filters) "city=rome/id=3" rome 0.
Proof.
  intros segments name v Hs Hv. assert (E : parse_segments (hive_pruner filters) "city=rome/id=3" = Ok rome_segments)
    by reflexivity.
  rewrite E in Hs. injection Hs as <-. unfold rome_segments in Hv.
  destruct (decide (name = "id")) as [->|Hid].
  { rewrite lookup_insert_eq in Hv. injection Hv as <-. split; [reflexivity|]. by eexists. }
  rewrite lookup_insert_ne in Hv by done. destruct (decide (name = "city")) as [->|Hc].
  { rewrite lookup_insert_eq in Hv. injection Hv as <-. split; [reflexivity|]. by eexists. }
  rewrite lookup_insert_ne in Hv by done. by rewrite lookup_empty in Hv.
Qed.

Lemma pruned_partition_has_no_match_witness : ~ Forall (row_passes rome 0) query.
Proof.
  refine (pruned_partition_has_no_match query partition_schema hive_configs (hive_pruner query) "city=rome/id=3" rome 0
    _ _ _ _ (rome_holds_path query)).
  - vm_compute. reflexivity.
  - repeat (apply list.Forall_cons; split; [done|]). done.
  - reflexivity.
  - vm_compute. reflexivity.
Defined.

Definition dated : list Filter := [field_gte "ts" filter_text; field_gt "id" "5"].

Definition dated_configs : HudiConfigs :=
  <["hoodie.table.keygenerator.type" := "timestamp"]> (configs "yyyy/MM/dd").

Definition dated_pruner : PartitionPruner :=
  mkPartitionPruner path_schema true false true
    (castable_filters path_schema [field_gte "_hoodie_partition_path" "year=2024/month=03/day=01"; field_gt "id" "5"]).

Lemma dated_record_passes : Forall (record_passes (generator "yyyy/MM/dd") record_date "year=2024/month=03/day=05") dated.
Proof.
  apply list.Forall_cons; split; [|apply list.Forall_singleton].
  - unfold record_passes. rewrite decide_True by done. split; [done|]. exists [1709294400000%Z].
    split_and!; [vm_compute; reflexivity|vm_compute; discriminate|].
    intros _ _. split; [exists 2%nat; reflexivity|]. apply list.Forall_singleton, dates_comparable.
  - unfold record_passes. by rewrite decide_False.
Qed.

Lemma timestamp_partition_kept_witness :
  should_include dated_pruner "year=2024/month=03/day=05" = Ok true.
Proof.
  refine (timestamp_partition_kept dated dated_configs (generator "yyyy/MM/dd") dated_pruner record_date _
    _ _ _ _ eq_refl dated_record_passes).
  - vm_compute. reflexivity.
  - reflexivity.
  - reflexivity.
  - vm_compute. reflexivity.
Defined.
End SamplePartitions.
