(* ===== verification/Listing.v ===== *)
(** Listing the files of a table from storage: crates/core/src/table/listing.rs, with
    the listings of crates/core/src/storage/mod.rs it makes.

    The object store lists one directory at a time ([ObjectListing]).  Partitions are
    listed concurrently into a map; one listing does not see another. *)
From Stdlib Require Import Ascii.
From stdpp Require Import base gmap sets list strings sorting numbers fin_maps.
From S2P Require Import Prelude RustStr BTree Files Chrono Config Instant FileGroup Metadata GroupBuilder.
From S2P Require Import Expr ArrowFilter KeyGen Partition.
Local Open Scope res_scope.

(** [ObjectStore::list_with_delimiter] of a directory below the base path: its objects
    with their sizes, and the names of its directories. *)
Class ObjectListing := {
  list_with_delimiter : string -> res (list (string * Z) * list string)
}.

(** * Storage *)
Section storage.
Context {OL : ObjectListing}.

(** [Storage::list_dirs] *)
Definition list_dirs (subdir : option string) : res (list string) :=
  let? listed := list_with_delimiter (default "" subdir) in Ok listed.2.

(** [Storage::list_files] *)
Definition storage_list_files (subdir : option string) : res (list FileMetadata) :=
  let? listed := list_with_delimiter (default "" subdir) in
  Ok (map (fun e => file_metadata_new e.1 e.2) (List.filter (fun e => negb (ends_with ".crc" e.1)) listed.1)).

(** [get_leaf_dirs]; [fuel] bounds the depth of the directories. *)
Fixpoint get_leaf_dirs (fuel : nat) (subdir : option string) : res (list string) :=
  match fuel with
  | O => Panic
  | S fuel =>
      let? child_dirs := list_dirs subdir in
      match child_dirs with
      | [] => Ok [default "" subdir]
      | _ =>
          res_fold (fun leaf_dirs child_dir =>
            let next_subdir := match subdir with Some curr => path_push curr child_dir | None => child_dir end in
            let? curr_leaf_dir := get_leaf_dirs fuel (Some next_subdir) in
            Ok (leaf_dirs ++ curr_leaf_dir)) child_dirs []
      end
  end.
End storage.

Definition LAKE_FORMAT_METADATA_DIRS : list string := [".hoodie"; "_delta_log"; "metadata"].

Definition BaseFileFormat : string := "hoodie.table.base.file.format".

(** [BaseFileFormatValue::from_str] *)
Definition base_file_format_from_str (s : string) : res BaseFileFormatValue :=
  let s := to_ascii_lowercase s in
  if decide (s = "parquet") then Ok Parquet
  else if decide (s = "hfile") then Ok HFile
  else if decide (s = "lance") then Ok Lance
  else Err EConfig.

(** [BaseFileFormatValue::from_configs] *)
Definition base_file_format_from_configs (configs : HudiConfigs) : res (option BaseFileFormatValue) :=
  match resolve_raw_value configs BaseFileFormat with
  | inl v => res_map Some (base_file_format_from_str v)
  | inr _ => Ok None
  end.

(** * The lister *)
Definition should_exclude_for_listing (file_name : string) : bool :=
  starts_with PARTITION_METAFIELD_PREFIX file_name.

Section lister.
Context {OL : ObjectListing} {V : CompletionTimeView}.
Variable estimator : option (Z -> Z * Z).

(** The estimates of a base file whose size is known. *)
Definition with_estimates (b : BaseFile.t) : BaseFile.t :=
  match BaseFile.file_metadata b with
  | Some m =>
      if (0 <? size m)%Z then
        let '(byte_size, num_records) := estimate estimator (size m) in
        BaseFile.set_file_metadata b (Some (mkFileMetadata (name m) (size m) byte_size num_records))
      else b
  | None => b
  end.

(** One iteration of the loop over the listed files. *)
Definition listed_file (fmt : option BaseFileFormatValue) (acc : files_by_id) (m : FileMetadata) : res files_by_id :=
  if should_exclude_for_listing (name m) then Ok acc
  else if is_base_file_name fmt (name m) then
    let? b := BaseFile.try_from m in
    let b := BaseFile.set_completion_time b in
    if negb (is_committed (BaseFile.commit_timestamp b)) then Ok acc
    else
      let b := with_estimates b in
      Ok (push_entry (BaseFile.file_id b) b acc.1, acc.2)
  else
    match LogFile.try_from m with
    | Ok l =>
        let l := LogFile.set_completion_time l in
        if negb (is_committed (LogFile.timestamp l)) then Ok acc
        else Ok (acc.1, push_entry (LogFile.file_id l) l acc.2)
    | Err _ => Ok acc
    | Panic => Panic
    end.

(** The group of a file id with base files, and of one with log files only. *)
Definition group_with_base (partition_path : string) (logs : gmap string (list LogFile.t))
    (e : string * list BaseFile.t) : res FileGroup.t :=
  let? fg := FileGroup.add_base_files (FileGroup.new e.1 partition_path) e.2 in
  FileGroup.add_log_files fg (default [] (logs !! e.1)).

Definition group_of_logs (partition_path : string) (e : string * list LogFile.t) : res FileGroup.t :=
  FileGroup.add_log_files (FileGroup.new e.1 partition_path) e.2.

(** [list_file_groups_for_partition]; maps are run through in the order of [map_to_list]. *)
Definition list_file_groups_for_partition (configs : HudiConfigs) (partition_path : string)
    : res (list FileGroup.t) :=
  let? fmt := base_file_format_from_configs configs in
  let? listed := storage_list_files (Some partition_path) in
  let? (bases, logs) := res_fold (listed_file fmt) listed (∅, ∅) in
  let? with_base := res_mapM (group_with_base partition_path logs) (map_to_list bases) in
  let? log_only := res_mapM (group_of_logs partition_path) (map_to_list (filter (fun e => bases !! e.1 = None) logs)) in
  Ok (with_base ++ log_only).

Context {AS : ArrowScalars} {PD : PercentDecode}.

(** [iter().filter(..)] with a predicate that may panic. *)
Fixpoint filter_included (p : PartitionPruner) (paths : list string) : res (list string) :=
  match paths with
  | [] => Ok []
  | path :: paths =>
      let? keep := should_include p path in
      let? rest := filter_included p paths in
      Ok (if keep : bool then path :: rest else rest)
  end.

(** [list_relevant_partition_paths] *)
Definition list_relevant_partition_paths (fuel : nat) (configs : HudiConfigs) (p : PartitionPruner)
    : res (list string) :=
  if negb (is_table_partitioned configs) then Ok [EMPTY_PARTITION_PATH]
  else
    let? dirs := list_dirs None in
    let top_level_dirs := List.filter (fun dir => negb (bool_decide (dir ∈ LAKE_FORMAT_METADATA_DIRS))) dirs in
    let? partition_paths :=
      res_fold (fun acc dir => let? leaves := get_leaf_dirs fuel (Some dir) in Ok (acc ++ leaves)) top_level_dirs [] in
    if match partition_paths with [] => true | _ => partition_pruner_is_empty p end then Ok partition_paths
    else filter_included p partition_paths.

(** [list_file_groups_for_relevant_partitions]: the result of each partition is
    inserted into the map when it is there. *)
Definition list_file_groups_for_relevant_partitions (fuel : nat) (configs : HudiConfigs) (p : PartitionPruner)
    : res (gmap string (list FileGroup.t)) :=
  if negb (is_table_partitioned configs) then
    let? gs := list_file_groups_for_partition configs EMPTY_PARTITION_PATH in
    Ok {[ EMPTY_PARTITION_PATH := gs ]}
  else
    let? paths := list_relevant_partition_paths fuel configs p in
    res_fold (fun m path =>
      let? gs := list_file_groups_for_partition configs path in Ok (<[path := gs]> m)) paths ∅.
End lister.

(** * What a listing promises *)

(** A log file, or one its set takes for it, is in a slice of the group. *)
Definition has_log (g : FileGroup.t) (l : LogFile.t) : Prop :=
  exists k s l', bt_get k (FileGroup.file_slices g) = Some s /\ l' ∈ FileSlice.log_files s /\ LogFile.cmp l l' = Eq.

Definition has_base (g : FileGroup.t) (b : BaseFile.t) : Prop :=
  exists k s, bt_get k (FileGroup.file_slices g) = Some s /\ FileSlice.base_file s = Some b.

Lemma add_log_file_keeps g l g' l0 : wf_group g -> FileGroup.add_log_file g l = Ok g' ->
  has_log g l0 \/ l0 = l -> has_log g' l0.
Proof.
  intros Hw H. destruct (decide (LogFile.file_id l = FileGroup.file_id g)) as [Hid|Hid].
  2: { unfold FileGroup.add_log_file in H. by rewrite decide_True in H. }
  rewrite add_log_file_eq in H by done. injection H as <-. unfold has_log. cbn [FileGroup.file_slices FileGroup.set_file_slices].
  assert (Hk : is_Some (bt_get (placement_key g l) (FileGroup.file_slices (with_placement_slice g l)))).
  { unfold with_placement_slice. destruct (bt_get (placement_key g l) (FileGroup.file_slices g)) eqn:E; [by eexists|].
    cbn. rewrite bt_get_insert, decide_True by done. by eexists. }
  assert (Hold : forall k s, bt_get k (FileGroup.file_slices g) = Some s ->
    bt_get k (FileGroup.file_slices (with_placement_slice g l)) = Some s).
  { intros k s Hs. unfold with_placement_slice. destruct (bt_get (placement_key g l) (FileGroup.file_slices g)) eqn:E; [exact Hs|].
    cbn. rewrite bt_get_insert. case_decide; [congruence|done]. }
  intros [(k & s & l' & Hs & Hl & Hc)| ->].
  - apply Hold in Hs. destruct (decide (k = placement_key g l)) as [->|Hne].
    + exists (placement_key g l), (FileSlice.insert_log_file l s), l'. rewrite bt_get_alter, decide_True by done. rewrite Hs.
      split_and!; [done|by apply bs_elem_insert_old|done].
    + exists k, s, l'. rewrite bt_get_alter, decide_False by done. done.
  - destruct Hk as [s Hs]. destruct (bs_elem_insert_eq LogFile.cmp l (FileSlice.log_files s) log_cmp_refl) as (y & Hy & Hc).
    exists (placement_key g l), (FileSlice.insert_log_file l s), y. rewrite bt_get_alter, decide_True by done. by rewrite Hs.
Qed.

Lemma add_log_files_has g ls g' : wf_group g -> FileGroup.add_log_files g ls = Ok g' ->
  forall l, l ∈ ls -> has_log g' l.
Proof.
  intros Hw. unfold FileGroup.add_log_files. intros H l Hl. rewrite <- (merge_sort_Permutation LogFile.le) in Hl.
  assert (Hgen : forall ms g0, wf_group g0 -> res_fold FileGroup.add_log_file ms g0 = Ok g' ->
    has_log g0 l \/ l ∈ ms -> has_log g' l).
  { induction ms as [|m ms IH]; intros g0 Hw0; cbn [res_fold].
    - intros [= <-] [?|?%not_elem_of_nil]; done.
    - intros (g1 & H1 & Hm)%res_bind_Ok Hin. apply (IH g1); [by eapply wf_add_log_file|done|].
      destruct Hin as [Hin|Hin]; [left; eapply add_log_file_keeps; eauto|].
      apply elem_of_cons in Hin as [->|Hin]; [left; eapply add_log_file_keeps; eauto|right; exact Hin]. }
  eapply Hgen; [exact Hw|exact H|by right].
Qed.

(** ** The files gathered by id *)
Section gathered.
Context {A : Type} (key : A -> string).

(** [m] has the elements of [xs] under their keys, in order, and nothing else. *)
Definition groups (m : gmap string (list A)) (xs : list A) : Prop :=
  forall id, m !! id = match List.filter (fun x => bool_decide (key x = id)) xs with [] => None | l => Some l end.

Lemma groups_empty : groups ∅ [].
Proof. intros id. apply lookup_empty. Qed.

Lemma groups_push m xs x : groups m xs -> groups (push_entry (key x) x m) (xs ++ [x]).
Proof.
  intros H id. unfold push_entry. rewrite List.filter_app. cbn [List.filter]. rewrite lookup_insert, !H.
  case_decide as E.
  - subst id. rewrite bool_decide_true by done.
    destruct (List.filter _ xs); [done|]. cbn. by destruct (_ ++ _) eqn:E.
  - rewrite bool_decide_false by done. by rewrite app_nil_r.
Qed.

Lemma groups_elem m xs id l : groups m xs -> m !! id = Some l -> forall x, x ∈ l <-> x ∈ xs /\ key x = id.
Proof.
  intros H Hl x. rewrite H in Hl. rewrite !list_elem_of_In.
  assert (E : l = List.filter (fun x => bool_decide (key x = id)) xs) by (destruct (List.filter _ xs); congruence).
  rewrite E, List.filter_In. by rewrite bool_decide_eq_true.
Qed.

Lemma groups_some m xs x : groups m xs -> x ∈ xs -> exists l, m !! key x = Some l /\ x ∈ l.
Proof.
  intros H Hx. rewrite H.
  assert (Hin : x ∈ List.filter (fun y => bool_decide (key y = key x)) xs).
  { apply list_elem_of_In, List.filter_In. rewrite bool_decide_true by done. split; [by apply list_elem_of_In|done]. }
  destruct (List.filter _ xs); [by apply not_elem_of_nil in Hin|]. by eexists.
Qed.

Lemma groups_id m xs id l : groups m xs -> m !! id = Some l -> exists x, x ∈ xs /\ key x = id.
Proof.
  intros H Hl. pose proof Hl as Hl'. rewrite H in Hl'. destruct l as [|x l]; [by destruct (List.filter _ xs)|].
  exists x. apply (groups_elem m xs id (x :: l) H Hl). by left.
Qed.
End gathered.

Section listed.
Context {V : CompletionTimeView}.
Variables (estimator : option (Z -> Z * Z)) (fmt : option BaseFileFormatValue).

(** The base file, or the log file, a listed file stands for when the commit that wrote
    it is committed. *)
Definition listed_base (m : FileMetadata) : option BaseFile.t :=
  if should_exclude_for_listing (name m) then None
  else if is_base_file_name fmt (name m) then
    match BaseFile.try_from m with
    | Ok b => if is_committed (BaseFile.commit_timestamp b)
              then Some (with_estimates estimator (BaseFile.set_completion_time b)) else None
    | _ => None
    end
  else None.

Definition listed_log (m : FileMetadata) : option LogFile.t :=
  if should_exclude_for_listing (name m) then None
  else if is_base_file_name fmt (name m) then None
  else
    match LogFile.try_from m with
    | Ok l => if is_committed (LogFile.timestamp l) then Some (LogFile.set_completion_time l) else None
    | _ => None
    end.

Definition gathered (acc : files_by_id) (bs : list BaseFile.t) (ls : list LogFile.t) : Prop :=
  groups BaseFile.file_id acc.1 bs /\ groups LogFile.file_id acc.2 ls.

Lemma listed_file_gathered acc bs ls m acc' : gathered acc bs ls -> listed_file estimator fmt acc m = Ok acc' ->
  gathered acc' (bs ++ option_list (listed_base m)) (ls ++ option_list (listed_log m)).
Proof.
  intros [Hb Hl]. unfold listed_file, listed_base, listed_log.
  destruct (should_exclude_for_listing (name m)); [intros [= <-]; by rewrite !app_nil_r|].
  destruct (is_base_file_name fmt (name m)).
  - destruct (BaseFile.try_from m) as [b| |]; cbn [res_bind]; [|done..].
    change (BaseFile.commit_timestamp (BaseFile.set_completion_time b)) with (BaseFile.commit_timestamp b).
    destruct (is_committed (BaseFile.commit_timestamp b)); cbn; intros [= <-]; rewrite ?app_nil_r; [|done].
    split; [by apply groups_push|done].
  - destruct (LogFile.try_from m) as [l| |]; cbn; [|intros [= <-]; by rewrite !app_nil_r|done].
    destruct (is_committed (LogFile.timestamp l)); cbn; intros [= <-]; rewrite ?app_nil_r; [|done].
    split; [done|by apply (groups_push LogFile.file_id _ _ (LogFile.set_completion_time l))].
Qed.

Lemma listed_files_gathered files acc bs ls acc' : gathered acc bs ls ->
  res_fold (listed_file estimator fmt) files acc = Ok acc' ->
  gathered acc' (bs ++ omap listed_base files) (ls ++ omap listed_log files).
Proof.
  revert acc bs ls. induction files as [|m files IH]; cbn [res_fold]; intros acc bs ls Hg.
  - intros [= <-]. by rewrite !app_nil_r.
  - intros (acc1 & H1 & H)%res_bind_Ok. apply (listed_file_gathered _ _ _ _ _ Hg), IH in H1; [|exact H].
    cbn [omap list_omap]. rewrite <- !app_assoc in H1.
    by destruct (listed_base m), (listed_log m).
Qed.

Lemma with_log_files_spec fid p bs ls g0 g :
  FileGroup.add_base_files (FileGroup.new fid p) bs = Ok g0 -> FileGroup.add_log_files g0 ls = Ok g ->
  FileGroup.identity g = (fid, p) /\ wf_group g /\ (forall b, has_base g b <-> b ∈ bs) /\
  (forall k s l, bt_get k (FileGroup.file_slices g) = Some s -> l ∈ FileSlice.log_files s -> l ∈ ls) /\
  (forall l, l ∈ ls -> has_log g l).
Proof.
  intros H0 H. pose proof (wf_add_base_files _ _ _ (wf_new fid p) H0) as Hw0.
  destruct (add_base_files_slices _ _ _ H0) as (Hi & Hin & _ & Hnew).
  assert (Hs0 : forall k s, bt_get k (FileGroup.file_slices g0) = Some s -> exists b, b ∈ bs /\ s = FileSlice.new b p)
    by (intros k s [?|?]%Hnew; done).
  destruct (add_log_files_slices _ _ _ Hw0 H) as [Hold Hsl]. split_and!.
  - by rewrite (add_log_files_identity _ _ _ H).
  - by eapply wf_add_log_files.
  - intros b. split.
    + intros (k & s & Hs & Hb). apply Hsl in Hs as [Hs _]. destruct (Hs b Hb) as (s0 & (b' & ? & ->)%Hs0 & [= ->]). done.
    + intros Hb. destruct (Hin b Hb) as [_ Hs]. apply Hold in Hs as (s' & ? & ?). by exists (BaseFile.commit_timestamp b), s'.
  - intros k s l Hs Hl. apply Hsl in Hs as [_ Hs].
    destruct (Hs l Hl) as [|(s0 & (b' & ? & ->)%Hs0 & Hnil)]; [done|by apply not_elem_of_nil in Hnil].
  - intros l Hl. by eapply add_log_files_has.
Qed.

(** What the listing of a partition owes on the files in it. *)
Record partition_listed (files : list FileMetadata) (p : string) (gs : list FileGroup.t) : Prop := {
  pl_distinct : NoDup (map FileGroup.identity gs);
  pl_wf : forall g, g ∈ gs -> wf_group g /\ FileGroup.partition_path g = p;
  pl_bases : forall g b, g ∈ gs -> has_base g b <->
    (exists m, m ∈ files /\ listed_base m = Some b) /\ BaseFile.file_id b = FileGroup.file_id g;
  pl_logs : forall g k s l, g ∈ gs -> bt_get k (FileGroup.file_slices g) = Some s -> l ∈ FileSlice.log_files s ->
    (exists m, m ∈ files /\ listed_log m = Some l) /\ LogFile.file_id l = FileGroup.file_id g;
  pl_all_bases : forall m b, m ∈ files -> listed_base m = Some b -> exists g, g ∈ gs /\ has_base g b;
  pl_all_logs : forall m l, m ∈ files -> listed_log m = Some l ->
    exists g, g ∈ gs /\ FileGroup.file_id g = LogFile.file_id l /\ has_log g l
}.

(** A group, in terms of the two maps it is built from. *)
Definition built_spec (bases : gmap string (list BaseFile.t)) (logs : gmap string (list LogFile.t)) (p : string)
    (g : FileGroup.t) : Prop :=
  wf_group g /\ FileGroup.partition_path g = p /\
  (forall b, has_base g b <-> b ∈ default [] (bases !! FileGroup.file_id g)) /\
  (forall k s l, bt_get k (FileGroup.file_slices g) = Some s -> l ∈ FileSlice.log_files s ->
    l ∈ default [] (logs !! FileGroup.file_id g)) /\
  (forall l, l ∈ default [] (logs !! FileGroup.file_id g) -> has_log g l).

Lemma group_with_base_spec bases logs p id bs g : bases !! id = Some bs -> group_with_base p logs (id, bs) = Ok g ->
  FileGroup.file_id g = id /\ built_spec bases logs p g.
Proof.
  intros Hbs (g0 & H0 & H)%res_bind_Ok. destruct (with_log_files_spec id p bs _ g0 g H0 H) as (Hid & Hw & Hb & Hl & Hal).
  injection Hid as Hid Hp. split; [done|]. unfold built_spec. rewrite Hid, Hbs. done.
Qed.

Lemma group_of_logs_spec bases logs p id ls g : logs !! id = Some ls -> bases !! id = None ->
  group_of_logs p (id, ls) = Ok g -> FileGroup.file_id g = id /\ built_spec bases logs p g.
Proof.
  intros Hls Hbs H. destruct (with_log_files_spec id p [] ls (FileGroup.new id p) g eq_refl H) as (Hid & Hw & Hb & Hl & Hal).
  injection Hid as Hid Hp. split; [done|]. unfold built_spec. rewrite Hid, Hbs, Hls. done.
Qed.

Lemma mapM_built {A} (f : string * A -> res FileGroup.t) (l : list (string * A)) gs (P : FileGroup.t -> Prop) :
  (forall id x g, (id, x) ∈ l -> f (id, x) = Ok g -> FileGroup.file_id g = id /\ P g) -> res_mapM f l = Ok gs ->
  map FileGroup.file_id gs = map fst l /\ Forall P gs.
Proof.
  intros H Hm%res_mapM_Ok. induction Hm as [|[id x] g l gs Hg _ IH]; [done|]. cbn.
  destruct (H id x g) as [Hid HP]; [by left|done|]. destruct IH as [IH1 IH2].
  { intros id' x' g' Hin. apply H. by right. }
  split; [by rewrite Hid, IH1|]. by apply list.Forall_cons.
Qed.

Lemma built_listed (bases : gmap string (list BaseFile.t)) (logs : gmap string (list LogFile.t)) files p gs :
  groups BaseFile.file_id bases (omap listed_base files) -> groups LogFile.file_id logs (omap listed_log files) ->
  Forall (built_spec bases logs p) gs -> NoDup (map FileGroup.file_id gs) ->
  (forall id, is_Some (bases !! id) \/ is_Some (logs !! id) -> exists g, g ∈ gs /\ FileGroup.file_id g = id) ->
  partition_listed files p gs.
Proof.
  intros Hb Hl Hall Hnd Hex. rewrite list.Forall_forall in Hall.
  assert (Helem : forall {A} (key : A -> string) m xs id x, groups key m xs ->
    x ∈ default [] (m !! id) <-> x ∈ xs /\ key x = id).
  { intros A key m xs id x Hg. destruct (m !! id) as [l|] eqn:E.
    - by apply (groups_elem key m xs id l Hg E).
    - split; [by intros ?%not_elem_of_nil|]. intros [Hx <-]. destruct (groups_some key m xs x Hg Hx) as (l & ? & _). congruence. }
  split.
  - clear -Hnd. revert Hnd. induction gs as [|g gs IH]; cbn; [intros _; apply base.NoDup_nil_2|]. rewrite !list.NoDup_cons. intros [Hn Hnd].
    split; [|by apply IH]. intros Hin. apply Hn. apply list_elem_of_In, in_map_iff in Hin as (g' & E & Hg').
    apply list_elem_of_In, in_map_iff. exists g'. split; [by injection E|done].
  - intros g Hg. destruct (Hall g Hg) as (? & ? & _). done.
  - intros g b Hg. destruct (Hall g Hg) as (_ & _ & H & _). rewrite H, (Helem _ _ _ _ _ _ Hb), list_elem_of_omap. done.
  - intros g k s l Hg Hs Hin. destruct (Hall g Hg) as (_ & _ & _ & H & _).
    specialize (H k s l Hs Hin). rewrite (Helem _ _ _ _ _ _ Hl), list_elem_of_omap in H. done.
  - intros m b Hm Hbm. destruct (groups_some BaseFile.file_id _ _ b Hb) as (l & Hl1 & Hl2); [by apply list_elem_of_omap; exists m|].
    destruct (Hex (BaseFile.file_id b)) as (g & Hg & Hid); [left; by eexists|]. exists g. split; [done|].
    destruct (Hall g Hg) as (_ & _ & H & _). apply H. by rewrite Hid, Hl1.
  - intros m l Hm Hlm. destruct (groups_some LogFile.file_id _ _ l Hl) as (ls & Hl1 & Hl2); [by apply list_elem_of_omap; exists m|].
    destruct (Hex (LogFile.file_id l)) as (g & Hg & Hid); [right; by eexists|]. exists g. split_and!; [done..|].
    destruct (Hall g Hg) as (_ & _ & _ & _ & H). apply H. by rewrite Hid, Hl1.
Qed.

Context {OL : ObjectListing}.

Lemma partition_listing_ok configs p files gs :
  base_file_format_from_configs configs = Ok fmt -> storage_list_files (Some p) = Ok files ->
  list_file_groups_for_partition estimator configs p = Ok gs -> partition_listed files p gs.
Proof.
  intros Hf Hfiles. unfold list_file_groups_for_partition. rewrite Hf, Hfiles. cbn [res_bind].
  intros ([bases logs] & Hg & H)%res_bind_Ok. apply (listed_files_gathered _ _ [] []) in Hg as [Hb Hl]; [|split; apply groups_empty].
  cbn in Hb, Hl. apply res_bind_Ok in H as (g1 & H1 & H). apply res_bind_Ok in H as (g2 & H2 & [= <-]).
  apply (mapM_built _ _ _ (built_spec bases logs p)) in H1 as [K1 B1].
  2: { intros id x g Hin%elem_of_map_to_list. by apply group_with_base_spec. }
  apply (mapM_built _ _ _ (built_spec bases logs p)) in H2 as [K2 B2].
  2: { intros id x g Hin%elem_of_map_to_list. apply map_lookup_filter_Some in Hin as [? ?]. by apply group_of_logs_spec. }
  apply (built_listed bases logs); [done|done|by apply list.Forall_app|..].
  - rewrite map_app, K1, K2. apply list.NoDup_app. split_and!; [apply NoDup_fst_map_to_list| |apply NoDup_fst_map_to_list].
    intros id [[id1 x1] [-> Hx1]]%list_elem_of_fmap [[id2 x2] [E Hx2]]%list_elem_of_fmap. cbn in E. subst id2.
    apply elem_of_map_to_list in Hx1, Hx2. apply map_lookup_filter_Some in Hx2 as [_ Hx2]. cbn in Hx2. congruence.
  - intros id Hid. cut (id ∈ map FileGroup.file_id (g1 ++ g2)).
    { intros (g & -> & Hg)%list_elem_of_fmap. by exists g. }
    rewrite map_app, K1, K2. apply elem_of_app. destruct (bases !! id) as [bs|] eqn:E.
    + left. apply list_elem_of_fmap. exists (id, bs). split; [done|]. by apply elem_of_map_to_list.
    + right. destruct Hid as [[? ?]|[ls Hls]]; [congruence|]. apply list_elem_of_fmap. exists (id, ls). split; [done|].
      apply elem_of_map_to_list, map_lookup_filter_Some. done.
Qed.
End listed.

(** C24: The listing of a partition is exactly what readers may see.  It has one
    well-formed group for each file id; the base files in them are those of the
    listed files, not excluded, whose commit is committed; their log files are such
    files too, and each such log file -- of a group with or without base files -- is in
    its group, unless one equal to it in the order of log files took its place. *)
Theorem partition_listing_exact {V : CompletionTimeView} {OL : ObjectListing} estimator fmt configs p files gs :
  base_file_format_from_configs configs = Ok fmt -> storage_list_files (Some p) = Ok files ->
  list_file_groups_for_partition estimator configs p = Ok gs -> partition_listed estimator fmt files p gs.
Proof. apply partition_listing_ok. Qed.

(** * The metadata table and the listing *)
Section agreement.
Context {V : CompletionTimeView} {OL : ObjectListing}.
Variables (estimator : option (Z -> Z * Z)) (fmt : option BaseFileFormatValue).

(** A file of a table: not empty, and named as a base file or as a log file. *)
Definition plain_file (e : string * Z) : Prop :=
  (0 < e.2)%Z /\ should_exclude_for_listing e.1 = false /\
  (starts_with_char "." e.1 = true -> is_base_file_name fmt e.1 = false /\ is_Ok (LogFile.from_str e.1) = true).

Lemma base_from_listed n sz b0 : BaseFile.from_str n = Ok b0 ->
  BaseFile.try_from (file_metadata_new n sz) = Ok (BaseFile.set_file_metadata b0 (Some (file_metadata_new n sz))).
Proof.
  unfold BaseFile.from_str, BaseFile.try_from. cbn [name file_metadata_new].
  destruct (BaseFile.parse_file_name n) as [[[[? ?] ?] ?]| |]; cbn; by intros [= <-].
Qed.

Lemma log_from_listed n sz l0 : LogFile.from_str n = Ok l0 ->
  LogFile.try_from (file_metadata_new n sz) = Ok (LogFile.set_file_metadata l0 (Some (file_metadata_new n sz))).
Proof.
  unfold LogFile.from_str, LogFile.try_from. cbn [name file_metadata_new].
  destruct (LogFile.parse_file_name n) as [[[[[? ?] ?] ?] ?]| |]; cbn; by intros [= <-].
Qed.

Lemma collect_as_listed acc e acc' : plain_file e ->
  listed_file estimator fmt acc (file_metadata_new e.1 e.2) = Ok acc' -> collect_file estimator fmt acc e = Ok acc'.
Proof.
  destruct e as [n sz]. intros (Hsz & Hex & Hdot). unfold listed_file, collect_file. cbn [fst snd name file_metadata_new] in *.
  rewrite Hex. assert (Hpos : (0 <? sz)%Z = true) by (by apply Z.ltb_lt).
  destruct (starts_with_char "." n) eqn:Ed.
  - destruct (Hdot eq_refl) as [-> Hp]. destruct (LogFile.from_str n) as [l| |] eqn:El; [|done..].
    rewrite (log_from_listed n sz l El). cbn [map_err res_bind].
    change (LogFile.timestamp (LogFile.set_completion_time (LogFile.set_file_metadata l (Some (file_metadata_new n sz)))))
      with (LogFile.timestamp (LogFile.set_completion_time l)).
    rewrite Hpos. by destruct (is_committed _).
  - destruct (is_base_file_name fmt n).
    + destruct (BaseFile.from_str n) as [b| |] eqn:Eb; cbn [map_err res_bind].
      * rewrite (base_from_listed n sz b Eb). cbn [res_bind].
        change (BaseFile.commit_timestamp (BaseFile.set_completion_time (BaseFile.set_file_metadata b (Some (file_metadata_new n sz)))))
          with (BaseFile.commit_timestamp (BaseFile.set_completion_time b)).
        destruct (is_committed _); cbn [negb]; [|done]. unfold with_estimates, BaseFile.set_completion_time.
        cbn [BaseFile.file_metadata BaseFile.set_file_metadata size file_metadata_new name]. rewrite Hpos.
        by destruct (estimate estimator sz).
      * unfold BaseFile.from_str, BaseFile.try_from in *. cbn [name file_metadata_new] in *.
        by destruct (BaseFile.parse_file_name n) as [[[[? ?] ?] ?]| |].
      * unfold BaseFile.from_str, BaseFile.try_from in *. cbn [name file_metadata_new] in *.
        by destruct (BaseFile.parse_file_name n) as [[[[? ?] ?] ?]| |].
    + assert (LogFile.try_from (file_metadata_new n sz) = Err EFileGroup) as ->; [|done].
      unfold LogFile.try_from, LogFile.parse_file_name. cbn [name file_metadata_new]. unfold LogFile.LOG_FILE_PREFIX.
      by rewrite Ed.
Qed.

Lemma collect_all_as_listed files acc acc' : Forall plain_file files ->
  res_fold (listed_file estimator fmt) (map (fun e => file_metadata_new e.1 e.2) files) acc = Ok acc' ->
  res_fold (collect_file estimator fmt) files acc = Ok acc'.
Proof.
  intros Hp. revert acc. induction Hp as [|e files He _ IH]; intros acc; cbn [map res_fold]; [done|].
  intros (acc1 & H1 & H)%res_bind_Ok. rewrite (collect_as_listed _ _ _ He H1). by apply IH.
Qed.

Definition group_has_base (g : FileGroup.t) : bool :=
  existsb (fun e => bool_decide (is_Some (FileSlice.base_file e.2))) (FileGroup.file_slices g).

Lemma group_has_base_iff g : wf_group g -> group_has_base g = true <-> exists b, has_base g b.
Proof.
  intros Hw. unfold group_has_base, has_base. rewrite existsb_exists. split.
  - intros ([k s] & Hin & [b Hb]%bool_decide_eq_true). exists b, k, s. split; [|done].
    apply bt_get_elem; [apply Hw|]. by apply list_elem_of_In.
  - intros (b & k & s & Hs & Hb). exists (k, s). split.
    + apply list_elem_of_In, bt_get_elem; [apply Hw|done].
    + apply bool_decide_eq_true. by exists b.
Qed.

Lemma groups_nonempty {A} (key : A -> string) m xs id : groups key m xs -> m !! id = Some [] -> False.
Proof. intros H E. rewrite H in E. by destruct (List.filter _ xs). Qed.

Lemma bool_filter_all {A} (f : A -> bool) l : Forall (fun x => f x = true) l -> List.filter f l = l.
Proof. induction 1 as [|x l Hx _ IH]; cbn; [done|]. by rewrite Hx, IH. Qed.

Lemma bool_filter_none {A} (f : A -> bool) l : Forall (fun x => f x = false) l -> List.filter f l = [].
Proof. induction 1 as [|x l Hx _ IH]; cbn; [done|]. by rewrite Hx. Qed.

(** Both ways of listing a partition agree.  Where the files partition of the
    metadata table records the files that storage lists, the groups built from it are
    those of the listing that have a base file; of a group of log files only the
    metadata table gives nothing. *)
Theorem metadata_listing_agrees configs p r gs :
  base_file_format_from_configs configs = Ok fmt -> is_all_partitions r = false ->
  Forall plain_file (active_files_with_sizes r) ->
  storage_list_files (Some p) = Ok (map (fun e => file_metadata_new e.1 e.2) (active_files_with_sizes r)) ->
  list_file_groups_for_partition estimator configs p = Ok gs ->
  exists m, files_partition_step estimator fmt ∅ (p, r) = Ok m /\
    default [] (m !! p) = List.filter group_has_base gs.
Proof.
  intros Hf Hr Hp Hfiles. unfold list_file_groups_for_partition, files_partition_step. rewrite Hf, Hfiles, Hr.
  cbn [res_bind]. intros ([bases logs] & Hg & H)%res_bind_Ok. rewrite (collect_all_as_listed _ _ _ Hp Hg). cbn [res_bind].
  apply (listed_files_gathered _ _ _ _ [] []) in Hg as [Hb _]; [|split; apply groups_empty].
  apply res_bind_Ok in H as (g1 & H1 & H). apply res_bind_Ok in H as (g2 & H2 & [= <-]). cbn in Hb.
  assert (E : res_mapM (build_group p logs) (map_to_list bases) = Ok g1).
  { apply res_mapM_Ok. apply res_mapM_Ok in H1. eapply Forall2_impl; [exact H1|]. intros [id bs] g.
    unfold group_with_base, build_group. cbn [fst snd]. destruct (FileGroup.add_base_files _ _); cbn [res_bind]; [|done..].
    by destruct (logs !! id). }
  rewrite E. cbn [res_bind]. rewrite List.filter_app, bool_filter_all, bool_filter_none, app_nil_r.
  - destruct g1 as [|g g1]; eexists; (split; [done|]); [by rewrite lookup_empty|by rewrite lookup_insert_eq].
  - apply (mapM_built _ _ _ (fun g => group_has_base g = false)) in H2 as [_ ?]; [done|].
    intros id x g Hin%elem_of_map_to_list Hx. apply map_lookup_filter_Some in Hin as [Hl Hn]. cbn in Hn.
    destruct (group_of_logs_spec bases logs p id x g Hl Hn Hx) as [Hid (Hw & _ & Hbs & _)]. split; [done|].
    apply not_true_iff_false. intros [b Hb']%(group_has_base_iff g Hw). apply Hbs in Hb'. rewrite Hid, Hn in Hb'.
    by apply not_elem_of_nil in Hb'.
  - apply (mapM_built _ _ _ (fun g => group_has_base g = true)) in H1 as [_ ?]; [done|].
    intros id x g Hin%elem_of_map_to_list Hx.
    destruct (group_with_base_spec bases logs p id x g Hin Hx) as [Hid (Hw & _ & Hbs & _)]. split; [done|].
    apply (group_has_base_iff g Hw). destruct x as [|b x]; [by destruct (groups_nonempty _ _ _ _ Hb Hin)|].
    exists b. apply Hbs. rewrite Hid, Hin. by left.
Qed.
End agreement.

(** * Directories *)

(** A directory tree, and that the store holds it below a path. *)
#[warnings="-register-all"]
Inductive dir := Dir (dir_files : list (string * Z)) (dir_children : list (string * dir)).

Definition subdir_of (path : option string) (child : string) : string :=
  match path with Some curr => path_push curr child | None => child end.

Inductive stored {OL : ObjectListing} : option string -> dir -> Prop :=
  | stored_dir path files children :
      list_with_delimiter (default "" path) = Ok (files, children.*1) ->
      (forall c, c ∈ children -> stored (Some (subdir_of path c.1)) c.2) ->
      stored path (Dir files children).

Fixpoint depth (d : dir) : nat :=
  match d with Dir _ children => S (foldr (fun c n => Nat.max (depth c.2) n) 0 children) end.

(** The paths of the directories without directories in them. *)
Fixpoint leaves (path : option string) (d : dir) : list string :=
  match d with
  | Dir _ [] => [default "" path]
  | Dir _ children => concat (map (fun c => leaves (Some (subdir_of path c.1)) c.2) children)
  end.

Section directories.
Context {OL : ObjectListing}.

Lemma depth_child (c : string * dir) children : c ∈ children -> (depth c.2 <= foldr (fun c n => Nat.max (depth c.2) n) 0 children)%nat.
Proof. induction children as [|x xs IH]; [by intros ?%not_elem_of_nil|]. intros [->|H%IH]%elem_of_cons; cbn; lia. Qed.

Lemma leaf_fold (f : string -> res (list string)) (g : string * dir -> list string) children acc :
  (forall c, c ∈ children -> f c.1 = Ok (g c)) ->
  res_fold (fun leaf_dirs child => let? l := f child in Ok (leaf_dirs ++ l)) children.*1 acc =
  Ok (acc ++ concat (map g children)).
Proof.
  revert acc. induction children as [|c cs IH]; intros acc H; [cbn; by rewrite app_nil_r|].
  cbn [fmap list_fmap res_fold map concat]. rewrite H by left. cbn [res_bind]. rewrite IH; [by rewrite <- app_assoc|].
  intros c' Hc'. apply H. by right.
Qed.

Lemma leaf_dirs_ok fuel path d : stored path d -> (depth d <= fuel)%nat -> get_leaf_dirs fuel path = Ok (leaves path d).
Proof.
  revert path d. induction fuel as [|fuel IH]; intros path d Hs Hd; [destruct d; cbn in Hd; lia|].
  destruct Hs as [path files children Hl Hc]. cbn [get_leaf_dirs]. unfold list_dirs. rewrite Hl. cbn [res_bind snd].
  destruct children as [|c0 cs]; [done|]. cbn [depth] in Hd.
  assert (H : forall c, c ∈ c0 :: cs -> get_leaf_dirs fuel (Some (subdir_of path c.1)) = Ok (leaves (Some (subdir_of path c.1)) c.2)).
  { intros c Hin. apply IH; [by apply Hc|]. pose proof (depth_child c (c0 :: cs) Hin). lia. }
  change (c0 :: cs).*1 with (c0.1 :: cs.*1). change (c0.1 :: cs.*1) with (c0 :: cs).*1 at 1.
  exact (leaf_fold (fun child => get_leaf_dirs fuel (Some (subdir_of path child)))
           (fun c => leaves (Some (subdir_of path c.1)) c.2) (c0 :: cs) [] H).
Qed.

Context {C : Chrono} {K : KeygenChrono} {AS : ArrowScalars} {PD : PercentDecode}.

Lemma mapM_no_panic {A B} (f : A -> res B) l : (forall x, f x <> Panic) -> res_mapM f l <> Panic.
Proof.
  intros H. induction l as [|x l IH]; cbn; [done|]. specialize (H x). destruct (f x); cbn; [|done..].
  by destruct (res_mapM f l).
Qed.

Lemma parse_segments_no_panic p path : parse_segments p path <> Panic.
Proof.
  unfold parse_segments, decode_path.
  assert (H : forall part, (if bool_decide (field_name <$> pschema p = [PARTITION_PATH_FIELD]) then
    let? scalar := cast_value part Utf8 in Ok {[ PARTITION_PATH_FIELD := scalar ]}
    else let parts := str_split "/" part in
    if negb (length parts =? length (pschema p))%nat then Err EInvalidPartitionPath
    else let? l := res_mapM (parse_segment p) (zip (pschema p) parts) in Ok (collect_segments l)) <> Panic).
  { intros part. unfold cast_value. case_bool_decide; [by destruct (cast_str part Utf8)|]. cbn zeta.
    destruct (negb _); [done|]. destruct (res_mapM _ _) eqn:E; [done|done|]. exfalso. revert E. apply mapM_no_panic.
    intros [f s]. unfold parse_segment, segment_text, cast_value. destruct (pis_hive_style p).
    - destruct (split_once "=" s) as [[? ?]|]; [|done]. case_decide; [done|]. cbn. by destruct (cast_str _ _).
    - cbn. by destruct (cast_str _ _). }
  destruct (is_url_encoded p); cbn [res_bind]; [|apply H]. destruct (percent_decode path); cbn; [apply H|done].
Qed.

Lemma empty_pruner_includes p path : partition_pruner_is_empty p = true -> should_include p path = Ok true.
Proof.
  unfold partition_pruner_is_empty, should_include. pose proof (parse_segments_no_panic p path) as H.
  destruct (pand_filters p); [intros _|done]. by destruct (parse_segments p path).
Qed.

Lemma filter_included_ok p paths l : filter_included p paths = Ok l ->
  forall path, path ∈ l <-> path ∈ paths /\ should_include p path = Ok true.
Proof.
  revert l. induction paths as [|x xs IH]; intros l; cbn [filter_included].
  - intros [= <-] path. rewrite !elem_of_nil. naive_solver.
  - intros (keep & Hk & H)%res_bind_Ok. apply res_bind_Ok in H as (rest & Hr & [= <-]).
    intros path. specialize (IH rest Hr path). destruct keep; rewrite ?elem_of_cons, IH; split.
    + intros [->|[? ?]]; [split; [by left|done]|split; [by right|done]].
    + intros [[->|?] ?]; [by left|by right].
    + intros [? ?]. split; [by right|done].
    + intros [[->|?] ?]; [congruence|done].
Qed.

(** The partition paths of a partitioned table are the leaf directories of the
    table outside the directories of table formats that the pruner includes. *)
Lemma relevant_partitions_ok fuel configs p files children paths :
  is_table_partitioned configs = true -> stored None (Dir files children) -> (depth (Dir files children) <= fuel)%nat ->
  list_relevant_partition_paths fuel configs p = Ok paths ->
  forall path, path ∈ paths <->
    (exists c, c ∈ children /\ (c.1 ∉ LAKE_FORMAT_METADATA_DIRS) /\ path ∈ leaves (Some c.1) c.2) /\
    should_include p path = Ok true.
Proof.
  intros Hp Hs Hd. unfold list_relevant_partition_paths, list_dirs. rewrite Hp. cbn [negb].
  inversion Hs as [path0 files0 children0 Hl Hc]; subst. rewrite Hl. cbn [res_bind snd].
  set (keep := fun dir => negb (bool_decide (dir ∈ LAKE_FORMAT_METADATA_DIRS))).
  assert (E : List.filter keep children.*1 = (List.filter (fun c => keep c.1) children).*1).
  { clear. induction children as [|c cs IH]; [done|]. cbn. rewrite IH. by destruct (keep c.1). }
  rewrite E. rewrite (leaf_fold (fun dir => get_leaf_dirs fuel (Some dir)) (fun c => leaves (Some c.1) c.2)).
  2: { intros c [Hin _]%list_elem_of_In%List.filter_In. apply list_elem_of_In in Hin.
       apply leaf_dirs_ok; [by apply (Hc c)|]. cbn in Hd. pose proof (depth_child c children Hin). lia. }
  cbn [res_bind app].
  assert (Hleaf : forall path, path ∈ concat (map (fun c => leaves (Some c.1) c.2) (List.filter (fun c => keep c.1) children)) <->
    exists c, c ∈ children /\ (c.1 ∉ LAKE_FORMAT_METADATA_DIRS) /\ path ∈ leaves (Some c.1) c.2).
  { intros path. rewrite list_elem_of_In, in_concat. split.
    - intros (l & [c [<- [Hin Hk]%List.filter_In]]%in_map_iff & Hpath). exists c. unfold keep in Hk.
      rewrite negb_true_iff, bool_decide_eq_false in Hk. split_and!; [by apply list_elem_of_In|done|by apply list_elem_of_In].
    - intros (c & Hin & Hk & Hpath). exists (leaves (Some c.1) c.2). split; [|by apply list_elem_of_In].
      apply in_map_iff. exists c. split; [done|]. apply List.filter_In. split; [by apply list_elem_of_In|].
      unfold keep. by rewrite bool_decide_false. }
  destruct (match concat _ with [] => true | _ => partition_pruner_is_empty p end) eqn:Ee.
  - intros [= <-] path. rewrite Hleaf. split; [|by intros [? _]]. intros H. split; [done|]. apply Hleaf in H.
    apply empty_pruner_includes. clear -H Ee. destruct (concat _); [by apply not_elem_of_nil in H|exact Ee].
  - intros H path. by rewrite (filter_included_ok p _ paths H), Hleaf.
Qed.
End directories.

(** * Samples *)
Module SampleListing.
Import SampleScalars SamplePartitions.

Definition day_files : list (string * Z) :=
  [("a_1_10.parquet", 100); (".a_10.log.1_0", 7); (".b_10.log.1_0", 5); ("a_1_30.parquet", 100)]%Z.

Definition root : dir :=
  Dir [] [(".hoodie", Dir [("hoodie.properties", 9%Z)] [("timeline", Dir [] [])]);
          ("p=1", Dir day_files []); ("p=2", Dir [(".hoodie_partition_metadata", 9%Z); ("c_1_10.parquet.crc", 1%Z)] []);
          ("metadata", Dir [("d_1_10.parquet", 100%Z)] [])].

(** The directory of a path. *)
Fixpoint descend (d : dir) (segments : list string) : option dir :=
  match segments, d with
  | [], _ => Some d
  | s :: segments, Dir _ children =>
      match find (fun c => bool_decide (c.1 = s)) children with
      | Some c => descend c.2 segments
      | None => None
      end
  end.

#[local] Instance sample_store : ObjectListing := {|
  list_with_delimiter path :=
    match descend root (if decide (path = "") then [] else str_split "/" path) with
    | Some (Dir files children) => Ok (files, children.*1)
    | None => Err EStorage
    end
|}.

#[local] Instance view : CompletionTimeView := sample_view.

Definition sample_configs : HudiConfigs := <["hoodie.table.partition.fields" := "p"]> ∅.

Definition day_groups : list FileGroup.t :=
  match list_file_groups_for_partition None sample_configs "p=1" with Ok gs => gs | _ => [] end.

Lemma partition_listing_exact_witness :
  partition_listed None None (map (fun e => file_metadata_new e.1 e.2) day_files) "p=1" day_groups /\
  map FileGroup.file_id day_groups = ["a"; "b"].
Proof.
  split; [|vm_eq]. apply (partition_listing_exact None None sample_configs "p=1"); [vm_ok|vm_ok|vm_ok].
Defined.

Definition day_record : FilesPartitionRecord :=
  mkFilesPartitionRecord "p=1" Files (map (fun e => (e.1, mkFileInfo e.1 e.2 false)) day_files).

Definition day_map : res (gmap string (list FileGroup.t)) := files_partition_step None None ∅ ("p=1", day_record).

Lemma metadata_listing_agrees_witness :
  (exists m, day_map = Ok m /\ default [] (m !! "p=1") = List.filter group_has_base day_groups) /\
  map FileGroup.file_id (List.filter group_has_base day_groups) = ["a"].
Proof.
  split; [|vm_eq]. apply (metadata_listing_agrees None None sample_configs); [vm_ok|done| |vm_ok|vm_ok].
  repeat (apply list.Forall_cons; split; [split_and!; [done|done|by vm_compute]|]). by apply list.Forall_nil.
Defined.

(** The partitions of the table: a directory with the name of another format's metadata
    is no partition, whatever it holds. *)
Example metadata_directory_is_no_partition :
  list_relevant_partition_paths 3 sample_configs (mkPartitionPruner [] false false true []) = Ok ["p=1"; "p=2"] /\
  storage_list_files (Some "metadata") = Ok [file_metadata_new "d_1_10.parquet" 100] /\
  storage_list_files (Some "p=2") = Ok [file_metadata_new ".hoodie_partition_metadata" 9].
Proof. split_and!; vm_ok. Qed.
End SampleListing.
