(* ===== verification/FsView.v ===== *)
(** The view of a table's files: crates/core/src/table/fs_view.rs, and
    [get_metadata_and_stats] of file_group/base_file/parquet.rs.

    All queries of a table share one map from partitions to file groups.  A query
    inserts the groups of its partitions, then collects slices from the whole map:
    the map is a state, and concurrent queries interleave their insertions.  The
    column statistics a slice is given along the way are not kept in the model of
    slices. *)
From Stdlib Require Import Ascii.
From stdpp Require Import base gmap sets list strings sorting numbers fin_maps.
From S2P Require Import Prelude RustStr BTree Files Chrono Config Instant FileGroup Metadata GroupBuilder View.
From S2P Require Import Expr ArrowFilter Statistics FilePruner KeyGen DatePaths Partition Listing.
Local Open Scope res_scope.

(** The footer of a Parquet file, opened by the Parquet library: the size of the object,
    the sizes of the row groups, and what the statistics are read from. *)
Record ParquetFooter := mkFooter {
  object_size : Z;
  total_byte_sizes : list Z;
  parquet_meta : ParquetMetaData
}.

Class ParquetFooters := { open_footer : string -> res ParquetFooter }.

(** [partition_to_file_groups] *)
Abbreviation Loaded := (gmap string (list FileGroup.t)).

Definition i64_add (a b : Z) : res Z :=
  if bool_decide (i64_min <= a + b <= i64_max)%Z then Ok (a + b)%Z else Panic.

Section view.
Context {OL : ObjectListing} {PF : ParquetFooters} {AS : ArrowScalars} {PD : PercentDecode}.

(** [get_metadata_and_stats] *)
Definition get_metadata_and_stats (relative_path : string) (table_schema : Schema)
    : res (FileMetadata * StatisticsContainer) :=
  let? footer := open_footer relative_path in
  let? byte_size := res_fold i64_add (total_byte_sizes footer) 0%Z in
  Ok (mkFileMetadata (default relative_path (path_file_name relative_path)) (object_size footer)
        (Z.max byte_size 0) (Z.max (file_num_rows (parquet_meta footer)) 0),
      from_parquet_metadata (parquet_meta footer) table_schema).

(** [base_file.file_metadata = Some(file_metadata)] on the slice's base file. *)
Definition set_base_metadata (m : FileMetadata) (s : FileSlice.t) : FileSlice.t :=
  FileSlice.mk ((fun b => BaseFile.set_file_metadata b (Some m)) <$> FileSlice.base_file s) (FileSlice.file_id s)
    (FileSlice.creation_instant_time s) (FileSlice.log_files s) (FileSlice.partition_path s).

(** One iteration of the loop over the file groups; [None]: the group is pruned. *)
Definition prune_group (file_pruner : FilePruner) (table_schema : Schema) (as_of_timestamp : string)
    (fg : FileGroup.t) : res (option FileGroup.t) :=
  match FileGroup.get_file_slice_as_of fg as_of_timestamp with
  | None => Ok (Some fg)
  | Some fsl =>
      match FileSlice.base_file_relative_path fsl with
      | None => Ok (Some fg)
      | Some relative_path =>
          if negb (matches_extension Parquet relative_path) then Ok (Some fg)
          else
            match get_metadata_and_stats relative_path table_schema with
            | Err _ => Ok (Some fg)
            | Panic => Panic
            | Ok (file_metadata, col_stats) =>
                let? keep := file_should_include file_pruner col_stats in
                Ok (if keep : bool
                    then Some (FileGroup.update_file_slice_as_of fg as_of_timestamp (set_base_metadata file_metadata))
                    else None)
            end
      end
  end.

(** [apply_stats_pruning_from_footers] *)
Definition apply_stats_pruning_from_footers (file_groups : list FileGroup.t) (file_pruner : FilePruner)
    (table_schema : Schema) (as_of_timestamp : string) (configured_base_file_format : option BaseFileFormatValue)
    : res (list FileGroup.t) :=
  if file_pruner_is_empty file_pruner then Ok file_groups
  else if match configured_base_file_format with Some Parquet | None => false | Some _ => true end then Ok file_groups
  else let? retained := res_mapM (prune_group file_pruner table_schema as_of_timestamp) file_groups in
       Ok (omap id retained).

(** What a query asks of the view. *)
Record Query := mkQuery {
  partition_pruner : PartitionPruner;
  file_pruner : FilePruner;
  table_schema : Schema;
  query_view : TimelineView
}.

Variables (fuel : nat) (configs : HudiConfigs) (estimator : option (Z -> Z * Z)).

(** The file groups of the query's partitions, from storage or from the metadata table. *)
Definition file_groups_map (q : Query) (records : option (list (string * FilesPartitionRecord))) : res Loaded :=
  let? fmt := base_file_format_from_configs configs in
  match records with
  | Some records =>
      file_groups_from_files_partition_records (V := timeline_view (query_view q)) estimator records fmt
  | None =>
      list_file_groups_for_relevant_partitions (V := timeline_view (query_view q)) estimator fuel configs
        (partition_pruner q)
  end.

(** What one partition of that map is inserted as, if it is. *)
Definition loaded_partition (q : Query) (from_metadata : bool) (fmt : option BaseFileFormatValue)
    (e : string * list FileGroup.t) : res (option (string * list FileGroup.t)) :=
  let '(partition_path, file_groups) := e in
  let? skip :=
    if from_metadata && negb (partition_pruner_is_empty (partition_pruner q))
    then res_map negb (should_include (partition_pruner q) partition_path) else Ok false in
  if skip : bool then Ok None
  else
    let? retained := apply_stats_pruning_from_footers file_groups (file_pruner q) (table_schema q)
                       (as_of_timestamp (query_view q)) fmt in
    Ok (Some (partition_path, retained)).

(** The insertions of a query, in order. *)
Definition insertions (q : Query) (records : option (list (string * FilesPartitionRecord)))
    : res (list (string * list FileGroup.t)) :=
  let? fmt := base_file_format_from_configs configs in
  let? m := file_groups_map q records in
  let? kept := res_mapM (loaded_partition q (bool_decide (is_Some records)) fmt) (map_to_list m) in
  Ok (omap id kept).

Definition insert_all (v : Loaded) (l : list (string * list FileGroup.t)) : Loaded :=
  foldl (fun v e => <[e.1 := e.2]> v) v l.

(** [load_file_groups], run alone. *)
Definition load_file_groups (v : Loaded) (q : Query) (records : option (list (string * FilesPartitionRecord)))
    : res Loaded :=
  let? l := insertions q records in Ok (insert_all v l).

Definition group_slices (q : Query) (fg : FileGroup.t) : option FileSlice.t :=
  if hs_contains (excluding_file_groups (query_view q)) fg then None
  else FileGroup.get_file_slice_as_of fg (as_of_timestamp (query_view q)).

(** [collect_file_slices] *)
Definition collect_step (q : Query) (file_slices : list FileSlice.t) (e : string * list FileGroup.t)
    : res (list FileSlice.t) :=
  let? keep := should_include (partition_pruner q) e.1 in
  Ok (if keep : bool then file_slices ++ omap (group_slices q) e.2 else file_slices).

Definition collect_file_slices (v : Loaded) (q : Query) : res (list FileSlice.t) :=
  res_fold (collect_step q) (map_to_list v) [].

(** [get_file_slices]: the slices, and the map as the query leaves it. *)
Definition get_file_slices (v : Loaded) (q : Query) (records : option (list (string * FilesPartitionRecord)))
    : res (list FileSlice.t * Loaded) :=
  let? v := load_file_groups v q records in
  let? slices := collect_file_slices v q in
  Ok (slices, v).

Definition get_file_slices_by_storage_listing (v : Loaded) (q : Query) : res (list FileSlice.t * Loaded) :=
  let? v := load_file_groups v q None in
  let? slices := collect_file_slices v q in
  Ok (slices, v).
End view.

(** * What a query collects *)
Section collected.
Context {AS : ArrowScalars} {PD : PercentDecode}.

(** [s] is the slice of a group of one of the partitions of [v] the query includes. *)
Definition slice_in (q : Query) (v : Loaded) (s : FileSlice.t) : Prop :=
  exists p gs g, v !! p = Some gs /\ should_include (partition_pruner q) p = Ok true /\ g ∈ gs /\ group_slices q g = Some s.

Lemma collect_spec v q l : collect_file_slices v q = Ok l -> forall s, s ∈ l <-> slice_in q v s.
Proof.
  unfold collect_file_slices, slice_in. intros H s. setoid_rewrite <- elem_of_map_to_list.
  assert (Hgen : forall m acc, res_fold (collect_step q) m acc = Ok l ->
    s ∈ l <-> s ∈ acc \/ exists p gs g, (p, gs) ∈ m /\ should_include (partition_pruner q) p = Ok true /\ g ∈ gs /\
      group_slices q g = Some s).
  { induction m as [|[p gs] m IH]; intros acc; cbn [res_fold].
    - intros [= ->]. split; [by left|]. intros [?|(p & gs & g & ?%not_elem_of_nil & _)]; done.
    - intros (acc1 & (keep & Hk & [= <-])%res_bind_Ok & Hm)%res_bind_Ok. cbn [fst snd] in *. rewrite (IH _ Hm).
      setoid_rewrite elem_of_cons. destruct keep; [rewrite elem_of_app, list_elem_of_omap|]; split.
      + intros [[?|(g & ? & ?)]|(p' & gs' & g & ? & ?)]; [by left|right; exists p, gs, g; split; [by left|done]|].
        right. exists p', gs', g. split; [by right|done].
      + intros [?|(p' & gs' & g & [[= -> ->]|?] & ? & ? & ?)]; [by left; left|left; right; by exists g|].
        right. by exists p', gs', g.
      + intros [?|(p' & gs' & g & ? & ?)]; [by left|]. right. exists p', gs', g. split; [by right|done].
      + intros [?|(p' & gs' & g & [[= -> ->]|?] & ? & ?)]; [by left|congruence|]. right. by exists p', gs', g. }
  rewrite (Hgen _ _ H). split; [|by right]. by intros [?%not_elem_of_nil|].
Qed.

(** The groups of the last insertion of [p]. *)
Definition last_insert (l : list (string * list FileGroup.t)) (p : string) : option (list FileGroup.t) :=
  list.last (omap (fun e => if decide (e.1 = p) then Some e.2 else None) l).

Lemma view_insert_all_lookup l v p : insert_all v l !! p = match last_insert l p with Some gs => Some gs | None => v !! p end.
Proof.
  unfold insert_all, last_insert. revert v. induction l as [|e l IH]; intros v; [done|]. cbn [foldl omap list_omap].
  rewrite IH. case_decide as E.
  - rewrite last_cons. destruct (list.last _); [done|]. by rewrite <- E, lookup_insert_eq.
  - destruct (list.last _); [done|]. by rewrite lookup_insert_ne.
Qed.

Lemma last_insert_Some l p gs : last_insert l p = Some gs -> (p, gs) ∈ l.
Proof.
  unfold last_insert. intros H%last_Some_elem_of. apply list_elem_of_omap in H as ([p' gs'] & Hin & H). cbn in H.
  case_decide; [|done]. by simplify_eq.
Qed.

Lemma last_insert_None l p gs : last_insert l p = None -> (p, gs) ∉ l.
Proof.
  unfold last_insert. intros H%last_None Hin.
  assert (Hx : gs ∈ omap (fun e : string * list FileGroup.t => if decide (e.1 = p) then Some e.2 else None) l)
    by (apply list_elem_of_omap; exists (p, gs); cbn; by rewrite decide_True).
  rewrite H in Hx. by apply not_elem_of_nil in Hx.
Qed.

(** ** Queries side by side *)

(** [t] is a schedule of the two sequences. *)
Inductive interleaving {A} : list A -> list A -> list A -> Prop :=
  | il_nil : interleaving [] [] []
  | il_left x l r t : interleaving l r t -> interleaving (x :: l) r (x :: t)
  | il_right x l r t : interleaving l r t -> interleaving l (x :: r) (x :: t).

Lemma interleaving_elem {A} (l r t : list A) x : interleaving l r t -> x ∈ t <-> x ∈ l \/ x ∈ r.
Proof.
  induction 1 as [|y l r t _ IH|y l r t _ IH]; [|rewrite !elem_of_cons, IH; naive_solver..].
  split; [by left|]. by intros [?|?].
Qed.

Lemma interleaving_left {A} (l : list A) : interleaving l [] l.
Proof. induction l; by constructor. Qed.

(** What [l] and [r] both insert is the same. *)
Definition compatible (l r : list (string * list FileGroup.t)) : Prop :=
  forall p gs gs', (p, gs) ∈ l -> (p, gs') ∈ r -> gs = gs'.

Lemma insert_determined l v p gs :
  (p, gs) ∈ l -> (forall gs', (p, gs') ∈ l -> gs' = gs) -> insert_all v l !! p = Some gs.
Proof.
  intros Hin Hu. rewrite view_insert_all_lookup. destruct (last_insert l p) as [gs'|] eqn:E.
  - f_equal. by apply Hu, last_insert_Some.
  - by destruct (last_insert_None l p gs E).
Qed.

Lemma interleaved_lookup l r t v p : NoDup (map fst l) -> interleaving l r t -> compatible l r ->
  (last_insert l p <> None \/ forall gs, (p, gs) ∉ r) -> insert_all v t !! p = insert_all v l !! p.
Proof.
  intros Hnd Hil Hc Hp.
  assert (Hu : forall gs gs', (p, gs) ∈ l -> (p, gs') ∈ l -> gs' = gs).
  { intros gs gs' [i Hi]%list_elem_of_lookup [j Hj]%list_elem_of_lookup.
    assert (i = j); [|by simplify_eq]. apply (NoDup_lookup (map fst l) i j p Hnd); rewrite list_lookup_fmap; [by rewrite Hi|by rewrite Hj]. }
  destruct (last_insert l p) as [gs|] eqn:E.
  - apply last_insert_Some in E. rewrite (insert_determined l v p gs E) by (intros; by eapply Hu).
    apply insert_determined; [apply (interleaving_elem l r t _ Hil); by left|].
    intros gs' [Hl|Hr]%(interleaving_elem l r t _ Hil); [by eapply Hu|symmetry; by eapply Hc].
  - destruct Hp as [|Hp]; [done|]. rewrite !view_insert_all_lookup, E.
    destruct (last_insert t p) as [gs|] eqn:Et; [|done]. exfalso.
    apply last_insert_Some, (interleaving_elem l r t _ Hil) in Et as [?|?]; [by eapply last_insert_None|by eapply Hp].
Qed.

Lemma slice_in_same q v v' s : (forall p, should_include (partition_pruner q) p = Ok true -> v !! p = v' !! p) ->
  slice_in q v s <-> slice_in q v' s.
Proof.
  intros H. split; intros (p & gs & g & Hp & Hi & Hrest); exists p, gs, g; (split; [|done]); specialize (H p Hi); congruence.
Qed.
End collected.

(** * What a query loads *)
Section loaded.
Context {OL : ObjectListing} {PF : ParquetFooters} {AS : ArrowScalars} {PD : PercentDecode}.
Variables (fuel : nat) (configs : HudiConfigs) (estimator : option (Z -> Z * Z)).

Lemma omap_mapM_elem {A B} (f : A -> res (option B)) l kept y : res_mapM f l = Ok kept ->
  y ∈ omap id kept <-> exists x, x ∈ l /\ f x = Ok (Some y).
Proof.
  intros Hm%res_mapM_Ok. rewrite list_elem_of_omap. induction Hm as [|x o l kept Hx _ IH].
  - split; [by intros (? & ?%not_elem_of_nil & _)|by intros (? & ?%not_elem_of_nil & _)].
  - setoid_rewrite elem_of_cons. split.
    + intros (z & [->|Hz] & E); [exists x; unfold id in E; subst; split; [by left|done]|].
      destruct (proj1 IH) as (x' & ? & ?); [by exists z|]. exists x'. split; [by right|done].
    + intros (x' & [->|Hx'] & E); [exists (Some y); split; [left; congruence|done]|].
      destruct (proj2 IH) as (z & ? & ?); [by exists x'|]. exists z. split; [by right|done].
Qed.

Lemma loaded_partition_key q fm fmt p gs e : loaded_partition q fm fmt (p, gs) = Ok (Some e) -> e.1 = p.
Proof.
  unfold loaded_partition. intros (skip & _ & H)%res_bind_Ok. destruct skip; [done|].
  apply res_bind_Ok in H as (retained & _ & [= <-]). done.
Qed.

Lemma loaded_keys q fm fmt ml kept e : res_mapM (loaded_partition q fm fmt) ml = Ok kept -> e ∈ omap id kept ->
  e.1 ∈ map fst ml.
Proof.
  intros Hk He. apply (omap_mapM_elem _ _ _ _ Hk) in He as ([p gs] & Hin & Hl).
  rewrite (loaded_partition_key _ _ _ _ _ _ Hl). apply list_elem_of_fmap. by exists (p, gs).
Qed.

(** No partition is inserted twice. *)
Lemma insertions_distinct q records l : insertions fuel configs estimator q records = Ok l -> NoDup (map fst l).
Proof.
  unfold insertions. intros (fmt & _ & H)%res_bind_Ok. apply res_bind_Ok in H as (m & _ & H).
  apply res_bind_Ok in H as (kept & Hk & [= <-]). pose proof (NoDup_fst_map_to_list m) as Hnd. revert Hnd kept Hk.
  generalize (map_to_list m). intros ml. induction ml as [|[p gs] ml IH]; cbn [res_mapM]; intros Hnd kept.
  - intros [= <-]. apply base.NoDup_nil_2.
  - rewrite fmap_cons, list.NoDup_cons in Hnd. destruct Hnd as [Hn Hnd].
    intros (o & Ho & Hk)%res_bind_Ok. apply res_bind_Ok in Hk as (kept1 & Hk & [= <-]).
    specialize (IH Hnd kept1 Hk). cbn [omap list_omap]. destruct o as [e|]; [|exact IH]. cbn [map id].
    apply list.NoDup_cons. split; [|exact IH]. rewrite (loaded_partition_key _ _ _ _ _ _ Ho).
    intros (e' & -> & He')%list_elem_of_fmap. apply Hn. exact (loaded_keys _ _ _ _ _ _ Hk He').
Qed.

(** The partitions of a listing, and what is listed for each. *)
Lemma relevant_listing (V : CompletionTimeView) pp m :
  list_file_groups_for_relevant_partitions (V := V) estimator fuel configs pp = Ok m ->
  (forall p gs, m !! p = Some gs -> list_file_groups_for_partition (V := V) estimator configs p = Ok gs) /\
  exists paths, list_relevant_partition_paths fuel configs pp = Ok paths /\ forall p, is_Some (m !! p) <-> p ∈ paths.
Proof.
  unfold list_file_groups_for_relevant_partitions, list_relevant_partition_paths.
  destruct (is_table_partitioned configs) eqn:Ep; cbn [negb].
  - intros (paths & Hpaths & H)%res_bind_Ok.
    assert (Hgen : forall m0, res_fold (fun m path =>
        let? gs := list_file_groups_for_partition (V := V) estimator configs path in Ok (<[path := gs]> m)) paths m0 = Ok m ->
      (forall p gs, m0 !! p = Some gs -> list_file_groups_for_partition (V := V) estimator configs p = Ok gs) ->
      (forall p gs, m !! p = Some gs -> list_file_groups_for_partition (V := V) estimator configs p = Ok gs) /\
      forall p, is_Some (m !! p) <-> p ∈ paths \/ is_Some (m0 !! p)).
    { clear. induction paths as [|path paths IH]; intros m0; cbn [res_fold].
      - intros [= <-] H0. split; [done|]. intros p. rewrite elem_of_nil. naive_solver.
      - intros (m1 & (gs & Hgs & [= <-])%res_bind_Ok & H)%res_bind_Ok H0.
        destruct (IH _ H) as [H1 H2].
        { intros p gs'. rewrite lookup_insert. case_decide; [intros [= <-]; congruence|apply H0]. }
        split; [done|]. intros p. rewrite H2, lookup_insert, elem_of_cons. case_decide; [subst; split; [by left; left|by right; eexists]|].
        split; [intros [?|?]; [by left; right|by right]|intros [[?|?]|?]; [congruence|by left|by right]]. }
    destruct (Hgen ∅ H) as [H1 H2]; [intros p gs; by rewrite lookup_empty|]. split; [done|]. exists paths.
    split; [exact Hpaths|]. intros p. rewrite H2, lookup_empty. split; [|by left]. intros [?|[? [=]]]; done.
  - intros (gs & Hgs & [= <-])%res_bind_Ok. split.
    + intros p gs'. rewrite lookup_singleton. case_decide; [intros [= <-]; congruence|done].
    + exists [EMPTY_PARTITION_PATH]. split; [done|]. intros p. rewrite lookup_singleton, list_elem_of_singleton.
      case_decide; split; [done|by eexists|by intros [? [=]]|congruence].
Qed.

(** Without pruning by statistics, a query inserts its partitions as they are listed. *)
Lemma unpruned_insertions q l : file_pruner_is_empty (file_pruner q) = true ->
  insertions fuel configs estimator q None = Ok l ->
  exists paths, list_relevant_partition_paths fuel configs (partition_pruner q) = Ok paths /\
    forall p gs, (p, gs) ∈ l <->
      p ∈ paths /\ list_file_groups_for_partition (V := timeline_view (query_view q)) estimator configs p = Ok gs.
Proof.
  intros He. unfold insertions, file_groups_map. intros (fmt & -> & H)%res_bind_Ok. cbn [res_bind] in H.
  apply res_bind_Ok in H as (m & Hm & H). apply res_bind_Ok in H as (kept & Hk & [= <-]).
  destruct (relevant_listing _ _ _ Hm) as [H1 (paths & Hp & H2)]. exists paths. split; [done|]. intros p gs.
  rewrite (omap_mapM_elem _ _ _ _ Hk).
  assert (Hload : forall e, loaded_partition q (bool_decide (is_Some (@None (list (string * FilesPartitionRecord))))) fmt e = Ok (Some e)).
  { intros [p' gs']. unfold loaded_partition, apply_stats_pruning_from_footers. rewrite He.
    by rewrite bool_decide_false by (by intros [? [=]]). }
  split.
  - intros ([p' gs'] & Hin%elem_of_map_to_list & Hl). rewrite Hload in Hl. simplify_eq.
    split; [apply H2; by eexists|by apply H1].
  - intros [[gs' Hgs']%H2 Hg]. assert (gs' = gs) as -> by (apply H1 in Hgs'; congruence).
    exists (p, gs). split; [by apply elem_of_map_to_list|apply Hload].
Qed.
End loaded.

(** * Concurrent queries *)
Section concurrent.
Context {OL : ObjectListing} {PF : ParquetFooters} {AS : ArrowScalars} {PD : PercentDecode}.
Variables (fuel : nat) (configs : HudiConfigs) (estimator : option (Z -> Z * Z)).

(** Views of one timeline, as of any two times. *)
Definition same_commits (a b : TimelineView) : Prop :=
  request_to_completion a = request_to_completion b /\ completed_requests a = completed_requests b /\
  earliest_active_instant a = earliest_active_instant b.

Lemma same_commits_view a b : same_commits a b -> timeline_view a = timeline_view b.
Proof.
  destruct a, b. intros (E1 & E2 & E3). cbn in *. subst. unfold timeline_view, view_get_completion_time, view_is_committed. done.
Qed.

(** Two queries list the same directories and keep those they include. *)
Lemma relevant_paths_shared pp pp' paths paths' p : 
  list_relevant_partition_paths fuel configs pp = Ok paths -> list_relevant_partition_paths fuel configs pp' = Ok paths' ->
  p ∈ paths' -> should_include pp p = Ok true -> p ∈ paths.
Proof.
  unfold list_relevant_partition_paths. destruct (is_table_partitioned configs); cbn [negb]; [|congruence].
  destruct (list_dirs None) as [dirs| |]; cbn [res_bind]; [|done..].
  destruct (res_fold _ _ _) as [all| |]; cbn [res_bind]; [|done..].
  assert (H : forall pp paths, (if match all with [] => true | _ => partition_pruner_is_empty pp end then Ok all
    else filter_included pp all) = Ok paths -> forall p, p ∈ paths <-> p ∈ all /\ should_include pp p = Ok true).
  { clear. intros pp paths. destruct (match all with [] => true | _ => partition_pruner_is_empty pp end) eqn:E.
    - intros [= <-] p. split; [|by intros [? _]]. intros Hp. split; [done|]. apply empty_pruner_includes.
      destruct all; [by apply not_elem_of_nil in Hp|exact E].
    - apply filter_included_ok. }
  intros Hp Hp' Hin Hi. apply (H _ _ Hp). apply (H _ _ Hp') in Hin as [? _]. done.
Qed.

(** Queries that do not prune files by their statistics do not disturb each other.
    However the insertions of another such query on the same timeline fall between
    its own, and however many of them, a query collects the slices it would have
    collected alone. *)
Theorem unpruned_queries_do_not_disturb q q' v l r n t s1 s2 v2 :
  file_pruner_is_empty (file_pruner q) = true -> file_pruner_is_empty (file_pruner q') = true ->
  same_commits (query_view q) (query_view q') ->
  insertions fuel configs estimator q None = Ok l -> insertions fuel configs estimator q' None = Ok r ->
  interleaving l (take n r) t ->
  collect_file_slices (insert_all v t) q = Ok s1 -> get_file_slices fuel configs estimator v q None = Ok (s2, v2) ->
  forall s, s ∈ s1 <-> s ∈ s2.
Proof.
  intros He He' Hv%same_commits_view Hl Hr Hil H1 H2 s. unfold get_file_slices, load_file_groups in H2. rewrite Hl in H2.
  cbn [res_bind] in H2. apply res_bind_Ok in H2 as (s2' & H2 & [= <- <-]).
  rewrite (collect_spec _ _ _ H1), (collect_spec _ _ _ H2). apply slice_in_same. intros p Hi.
  assert (Hsub : forall e, e ∈ take n r -> e ∈ r).
  { intros e He1. rewrite <- (take_drop n r). apply elem_of_app. by left. }
  destruct (unpruned_insertions _ _ _ _ _ He Hl) as (paths & Hp & Hin).
  destruct (unpruned_insertions _ _ _ _ _ He' Hr) as (paths' & Hp' & Hin'). rewrite <- Hv in Hin'.
  eapply interleaved_lookup; [by eapply insertions_distinct|exact Hil| |].
  - intros p' gs gs' [_ Hgs]%Hin [_ Hgs']%Hsub%Hin'. congruence.
  - destruct (last_insert l p) as [gs|] eqn:E; [by left|right]. intros gs [Hpath Hgs]%Hsub%Hin'.
    apply (last_insert_None l p gs E), Hin. split; [|done]. by eapply relevant_paths_shared.
Qed.
End concurrent.

(** * No matching row is lost *)
Section soundness.
Context {OL : ObjectListing} {PF : ParquetFooters} {C : Chrono} {K : KeygenChrono}.
Context {AS : ArrowScalars} {SL : ScalarLaws AS} {PD : PercentDecode}.
Variables (fuel : nat) (configs : HudiConfigs) (estimator : option (Z -> Z * Z)).

(** The query without its partition pruner: it loads every partition of the table. *)
Definition all_partitions (q : Query) : Query :=
  mkQuery partition_pruner_empty (file_pruner q) (table_schema q) (query_view q).

Lemma filter_included_total p paths l path : filter_included p paths = Ok l -> path ∈ paths ->
  exists keep, should_include p path = Ok keep.
Proof.
  revert l. induction paths as [|x xs IH]; intros l; [by intros _ ?%not_elem_of_nil|]. cbn [filter_included].
  intros (keep & Hk & H)%res_bind_Ok. apply res_bind_Ok in H as (rest & Hr & _).
  intros [->|Hin]%elem_of_cons; [by eexists|by eapply IH].
Qed.

Lemma relevant_paths_kept pp paths all p :
  list_relevant_partition_paths fuel configs pp = Ok paths ->
  list_relevant_partition_paths fuel configs partition_pruner_empty = Ok all ->
  p ∈ all -> should_include pp p <> Ok false -> p ∈ paths.
Proof.
  unfold list_relevant_partition_paths. destruct (is_table_partitioned configs); cbn [negb]; [|congruence].
  destruct (list_dirs None) as [dirs| |]; cbn [res_bind]; [|done..].
  destruct (res_fold _ _ _) as [leaf| |]; cbn [res_bind]; [|done..].
  intros Hp Ha Hin Hi. assert (leaf = all) as -> by (destruct leaf; cbn in Ha; congruence).
  destruct (match all with [] => true | _ => partition_pruner_is_empty pp end); [congruence|].
  apply (filter_included_ok _ _ _ Hp). split; [done|].
  destruct (filter_included_total _ _ _ _ Hp Hin) as [[] Hk]; [done|by destruct Hi].
Qed.

Lemma listed_groups_kept q records m m0 p gs : file_groups_map fuel configs estimator q records = Ok m ->
  file_groups_map fuel configs estimator (all_partitions q) records = Ok m0 -> m0 !! p = Some gs ->
  should_include (partition_pruner q) p <> Ok false -> m !! p = Some gs.
Proof.
  unfold file_groups_map. destruct (base_file_format_from_configs configs); cbn [res_bind]; [|done..].
  change (query_view (all_partitions q)) with (query_view q).
  destruct records as [records|]; [intros; congruence|]. intros Hm Hm0 Hp Hi.
  destruct (relevant_listing _ _ _ _ _ _ Hm) as [H1 (paths & Hpaths & H2)].
  destruct (relevant_listing _ _ _ _ _ _ Hm0) as [H1' (all & Hall & H2')].
  assert (Hin : p ∈ paths) by (eapply relevant_paths_kept; [exact Hpaths|exact Hall|apply H2'; by eexists|done]).
  apply H2 in Hin as [gs' Hgs']. pose proof (H1 _ _ Hgs') as E. pose proof (H1' _ _ Hp) as E'.
  rewrite Hgs'. congruence.
Qed.

Lemma collect_total v q l p gs : collect_file_slices v q = Ok l -> v !! p = Some gs ->
  exists keep, should_include (partition_pruner q) p = Ok keep.
Proof.
  unfold collect_file_slices. intros H Hp%elem_of_map_to_list. revert H Hp. generalize (map_to_list v) (@nil FileSlice.t).
  intros m. induction m as [|e m IH]; intros acc; cbn [res_fold]; [by intros _ ?%not_elem_of_nil|].
  intros (acc1 & (keep & Hk & _)%res_bind_Ok & H)%res_bind_Ok [<-|Hin]%elem_of_cons; [by eexists|by eapply IH].
Qed.

(** Where a partition of the table is not left out, its groups are in the view after
    the query, less those pruned by their statistics. *)
Lemma partition_loaded v q records slices v' m0 p gs :
  get_file_slices fuel configs estimator v q records = Ok (slices, v') ->
  file_groups_map fuel configs estimator (all_partitions q) records = Ok m0 -> m0 !! p = Some gs ->
  should_include (partition_pruner q) p <> Ok false ->
  should_include (partition_pruner q) p = Ok true /\
  exists fmt retained, apply_stats_pruning_from_footers gs (file_pruner q) (table_schema q)
      (as_of_timestamp (query_view q)) fmt = Ok retained /\ v' !! p = Some retained.
Proof.
  unfold get_file_slices, load_file_groups. intros (v1 & (l & Hl & [= <-])%res_bind_Ok & H)%res_bind_Ok.
  apply res_bind_Ok in H as (slices1 & Hc & [= <- <-]). intros Hm0 Hp Hi. pose proof (insertions_distinct _ _ _ _ _ _ Hl) as Hnd.
  unfold insertions in Hl. apply res_bind_Ok in Hl as (fmt & Hf & Hl). apply res_bind_Ok in Hl as (m & Hm & Hl).
  apply res_bind_Ok in Hl as (kept & Hk & [= <-]). pose proof (listed_groups_kept _ _ _ _ _ _ Hm Hm0 Hp Hi) as Hmp.
  assert (Hload : exists retained, loaded_partition q (bool_decide (is_Some records)) fmt (p, gs) = Ok (Some (p, retained)) /\
    apply_stats_pruning_from_footers gs (file_pruner q) (table_schema q) (as_of_timestamp (query_view q)) fmt = Ok retained).
  { pose proof Hk as Hk'. apply res_mapM_Ok in Hk'. apply elem_of_map_to_list, list_elem_of_lookup in Hmp as [i Hmp].
    destruct (Forall2_lookup_l _ _ _ _ _ Hk' Hmp) as (o & _ & Ho). rewrite Ho.
    unfold loaded_partition in Ho. apply res_bind_Ok in Ho as (skip & Hs & Ho).
    assert (skip = false) as ->.
    { destruct (_ && _); [|congruence]. apply res_map_Ok in Hs as (b & Hb & ->). destruct b; [done|by destruct Hi]. }
    apply res_bind_Ok in Ho as (retained & Hr & [= <-]). by exists retained. }
  destruct Hload as (retained & Hload & Hr).
  assert (Hv : insert_all v (omap id kept) !! p = Some retained).
  { apply insert_determined.
    - apply (omap_mapM_elem _ _ _ _ Hk). exists (p, gs). split; [by apply elem_of_map_to_list|done].
    - intros gs' Hin. apply (omap_mapM_elem _ _ _ _ Hk) in Hin as ([p' gs1] & Hin%elem_of_map_to_list & Ho).
      pose proof (loaded_partition_key _ _ _ _ _ _ Ho) as E. cbn in E. subst p'. congruence. }
  split; [|by exists fmt, retained].
  destruct (collect_total _ _ _ _ _ Hc Hv) as [[] E]; [done|by destruct Hi].
Qed.

(** The updated slice is the one found next time. *)
Lemma updated_slice_as_of g ts f s : wf_group g -> FileGroup.get_file_slice_as_of g ts = Some s ->
  FileGroup.get_file_slice_as_of (FileGroup.update_file_slice_as_of g ts f) ts = Some (f s).
Proof.
  intros [Hs _]. unfold FileGroup.get_file_slice_as_of, FileGroup.update_file_slice_as_of.
  destruct (bt_last_le ts (FileGroup.file_slices g)) as [[k s']|] eqn:E; [|done]. intros [= ->].
  cbn [FileGroup.file_slices FileGroup.set_file_slices]. pose proof E as (Hg & Hle & Hmax)%bt_last_le_Some; [|done].
  enough (bt_last_le ts (bt_alter f k (FileGroup.file_slices g)) = Some (k, f s)) as -> by done.
  apply bt_last_le_Some; [by apply bt_alter_sorted|]. rewrite bt_get_alter, decide_True, Hg by done.
  split_and!; [done|done|]. intros k' s'. rewrite bt_get_alter. case_decide as Ek; [intros _ _; subst; apply str_leb_refl|].
  apply Hmax.
Qed.

(** A slice and what is left of it after statistics were read: only the metadata of
    the base file differ. *)
Definition same_slice (s s' : FileSlice.t) : Prop := s' = s \/ exists m, s' = set_base_metadata m s.

Lemma pruned_group_kept q g ts s o footer path batches b i filters partition_schema :
  file_pruner q = file_pruner_new filters (table_schema q) partition_schema ->
  Forall (fun f => values f <> []) filters -> wf_group g -> FileGroup.get_file_slice_as_of g ts = Some s ->
  FileSlice.base_file_relative_path s = Some path -> open_footer path = Ok footer ->
  file_described (table_schema q) (parquet_meta footer) batches -> b ∈ batches -> Forall (row_passes b i) filters ->
  prune_group (file_pruner q) (table_schema q) ts g = Ok o ->
  exists g' s', o = Some g' /\ FileGroup.identity g' = FileGroup.identity g /\
    FileGroup.get_file_slice_as_of g' ts = Some s' /\ same_slice s s'.
Proof.
  intros Hq Hn Hw Hs Hpath Hfoot Hd Hb Hrow. unfold prune_group. rewrite Hs, Hpath.
  destruct (negb _); [intros [= <-]; exists g, s; split_and!; [done..|by left]|].
  unfold get_metadata_and_stats. rewrite Hfoot. cbn [res_bind].
  destruct (res_fold i64_add _ _) as [size| |]; cbn [res_bind]; [|intros [= <-]; exists g, s; split_and!; [done..|by left]|done].
  intros (keep & Hk & [= <-])%res_bind_Ok. destruct keep.
  - eexists _, _. split_and!; [done| |by apply updated_slice_as_of|right; by eexists].
    unfold FileGroup.update_file_slice_as_of. by destruct (bt_last_le _ _) as [[? ?]|].
  - exfalso. rewrite Hq in Hk. by apply (pruned_file_rows filters _ _ _ batches b i Hn Hd Hk Hb).
Qed.

Lemma listing_wf (V : CompletionTimeView) p gs g :
  list_file_groups_for_partition (V := V) estimator configs p = Ok gs -> g ∈ gs -> wf_group g.
Proof.
  intros H. pose proof H as H0. unfold list_file_groups_for_partition in H0.
  apply res_bind_Ok in H0 as (fmt & Hf & H0). apply res_bind_Ok in H0 as (files & Hfiles & _).
  intros Hg. by apply (pl_wf _ _ _ _ _ (partition_listing_ok estimator fmt configs p files gs Hf Hfiles H)).
Qed.

Lemma metadata_wf (V : CompletionTimeView) fmt records m p gs g :
  file_groups_from_files_partition_records (V := V) estimator records fmt = Ok m -> m !! p = Some gs -> g ∈ gs -> wf_group g.
Proof.
  unfold file_groups_from_files_partition_records.
  intros H. revert p gs g. revert H. apply (res_fold_inv (fun m => forall p gs g, m !! p = Some gs -> g ∈ gs -> wf_group g)).
  2: { intros p gs g H. by rewrite lookup_empty in H. }
  intros m0 [p r] m1 _ H0. unfold files_partition_step. destruct (is_all_partitions r); [by intros [= <-]|].
  intros ([bases logs] & _ & H)%res_bind_Ok. apply res_bind_Ok in H as (gs & Hgs%res_mapM_Ok & H).
  assert (Hw : forall g, g ∈ gs -> wf_group g).
  { intros g [i Hi]%list_elem_of_lookup. destruct (Forall2_lookup_r _ _ _ _ _ Hgs Hi) as ([id bs] & _ & Hb).
    by apply build_group_spec in Hb as (_ & ? & _). }
  destruct gs as [|g0 gs0]; injection H as <-; [done|]. intros p' gs' g. rewrite lookup_insert.
  case_decide; [intros [= <-]; apply Hw|apply H0].
Qed.

Lemma file_groups_wf q records m p gs g : file_groups_map fuel configs estimator q records = Ok m ->
  m !! p = Some gs -> g ∈ gs -> wf_group g.
Proof.
  unfold file_groups_map. destruct (base_file_format_from_configs configs); cbn [res_bind]; [|done..].
  destruct records as [records|]; [apply metadata_wf|]. intros [H _]%relevant_listing Hp Hg. by eapply listing_wf; [apply H|].
Qed.

(** A slice whose group passes the pruning by statistics is collected. *)
Lemma retained_slice_collected v q records slices v' m0 p gs g s :
  get_file_slices fuel configs estimator v q records = Ok (slices, v') ->
  file_groups_map fuel configs estimator (all_partitions q) records = Ok m0 -> m0 !! p = Some gs -> g ∈ gs ->
  should_include (partition_pruner q) p <> Ok false -> group_slices q g = Some s ->
  (forall o, prune_group (file_pruner q) (table_schema q) (as_of_timestamp (query_view q)) g = Ok o ->
    exists g' s', o = Some g' /\ FileGroup.identity g' = FileGroup.identity g /\
      FileGroup.get_file_slice_as_of g' (as_of_timestamp (query_view q)) = Some s' /\ same_slice s s') ->
  exists s', s' ∈ slices /\ same_slice s s'.
Proof.
  intros Hget Hm0 Hp Hg Hi Hs Hprune.
  destruct (partition_loaded _ _ _ _ _ _ _ _ Hget Hm0 Hp Hi) as (Hinc & fmt & retained & Hr & Hv).
  unfold get_file_slices in Hget. apply res_bind_Ok in Hget as (v1 & _ & Hc). apply res_bind_Ok in Hc as (slices1 & Hc & [= <- <-]).
  unfold apply_stats_pruning_from_footers in Hr.
  assert (Hid : gs = retained -> exists s', s' ∈ slices1 /\ same_slice s s').
  { intros <-. exists s. split; [|by left]. apply (collect_spec _ _ _ Hc). by exists p, gs, g. }
  destruct (file_pruner_is_empty _); [injection Hr as <-; by apply Hid|].
  destruct (match fmt with Some Parquet | None => false | Some _ => true end); [injection Hr as <-; by apply Hid|]. clear Hid.
  apply res_bind_Ok in Hr as (kept & Hk & [= <-]). pose proof Hk as Hk'%res_mapM_Ok.
  pose proof Hg as [j Hj]%list_elem_of_lookup. destruct (Forall2_lookup_l _ _ _ _ _ Hk' Hj) as (o & Hoj & Ho).
  destruct (Hprune o Ho) as (g' & s' & -> & Hgid & Hs' & Hsame). exists s'. split; [|done].
  apply (collect_spec _ _ _ Hc). exists p, (omap id kept), g'. split_and!; [done|done| |].
  - apply (omap_mapM_elem _ _ _ _ Hk). by exists g.
  - unfold group_slices, hs_contains in *. rewrite Hgid. by destruct (bool_decide _).
Qed.

(** C21: Planning a snapshot read loses no matching row. In a table whose key generator
    is not timestamp based, and for filters that each have a value, take a slice of the
    table as of the time of the query whose base file is described by its footer -- in
    every row group, the statistics of a column are true of its values and missing only
    where there are none to bound -- and a row of it that passes every filter and holds
    the values of its partition's path: whatever partitions and files are pruned, and
    whether they were listed from storage or from the metadata table, the slice is
    among those returned. *)
Theorem snapshot_keeps_matching_slices filters partition_schema v q records slices v' m0 p gs g s path footer batches b i :
  is_timestamp_based_keygen configs = false -> Forall (fun f => values f <> []) filters ->
  partition_pruner_new filters partition_schema configs = Ok (partition_pruner q) ->
  file_pruner q = file_pruner_new filters (table_schema q) partition_schema ->
  get_file_slices fuel configs estimator v q records = Ok (slices, v') ->
  file_groups_map fuel configs estimator (all_partitions q) records = Ok m0 -> m0 !! p = Some gs -> g ∈ gs ->
  group_slices q g = Some s -> FileSlice.base_file_relative_path s = Some path -> open_footer path = Ok footer ->
  file_described (table_schema q) (parquet_meta footer) batches -> b ∈ batches ->
  holds_path (partition_pruner q) p b i -> Forall (row_passes b i) filters ->
  exists s', s' ∈ slices /\ same_slice s s'.
Proof.
  intros Hk Hn Hpp Hfp Hget Hm0 Hp Hg Hs Hpath Hfoot Hd Hb Hh Hrow.
  eapply retained_slice_collected; [exact Hget|exact Hm0|exact Hp|exact Hg| |exact Hs|].
  - intros Hf. by eapply (pruned_partition_rows filters).
  - intros o Ho. apply (pruned_group_kept q g _ s o footer path batches b i filters partition_schema); try done.
    + by eapply file_groups_wf.
    + unfold group_slices in Hs. by destruct (hs_contains _ _).
Qed.
End soundness.

(** * Samples *)
Module SampleView.
Import SampleScalars SampleDates SamplePartitions SamplePruned SampleListing.

(** A table with two partitions of one file each. *)
Definition table_root : dir :=
  Dir [] [(".hoodie", Dir [] []); ("part=1", Dir [("a_1_10.parquet", 100%Z)] []); ("part=2", Dir [("b_1_10.parquet", 100%Z)] [])].

#[local] Instance table_store : ObjectListing := {|
  list_with_delimiter path :=
    match descend table_root (if decide (path = "") then [] else str_split "/" path) with
    | Some (Dir files children) => Ok (files, children.*1)
    | None => Err EStorage
    end
|}.

Definition columns_schema : Schema := [mkField "id" Int32; mkField "part" Int32].

Definition row_group_of (ids : Z * Z) (part : Z) : RowGroupMetaData :=
  mkRowGroup 2 [mkColumnChunk ["id"] (Some (SInt32 (Some ids.1) (Some ids.2)));
                mkColumnChunk ["part"] (Some (SInt32 (Some part) (Some part)))].

#[local] Instance table_footers : ParquetFooters := {|
  open_footer path :=
    if decide (path = "part=1/a_1_10.parquet") then Ok (mkFooter 100 [60%Z] (mkParquetMeta 2 [row_group_of (1, 9)%Z 1]))
    else if decide (path = "part=2/b_1_10.parquet") then Ok (mkFooter 100 [60%Z] (mkParquetMeta 2 [row_group_of (1, 3)%Z 2]))
    else Err EStorage
|}.

Definition rows (ids : list Z) (part : Z) : Batch :=
  mkBatch columns_schema [mkColumn Int32 (map int32 ids); mkColumn Int32 (map (fun _ => int32 part) ids)] (length ids).

Definition view_configs : HudiConfigs :=
  <["hoodie.table.partition.fields" := "part"]> (<["hoodie.datasource.write.hive_style_partitioning" := "true"]> ∅).

Definition partition_columns : Schema := [mkField "part" Int32].

Definition timeline_at (ts : string) : TimelineView := mkTimelineView ts None ∅ ∅ {["10"]} None.

(** The query of some filters. *)
Definition query_of (filters : list Filter) : Query :=
  mkQuery (mkPartitionPruner partition_columns true false true (castable_filters partition_columns filters))
    (file_pruner_new filters columns_schema partition_columns) columns_schema (timeline_at "20").

Definition query_filters : list Filter := [field_gt "id" "5"; field_lt "part" "2"].

Definition slices_of (q : Query) (v : Loaded) : res (list FileSlice.t) :=
  let? r := get_file_slices 3 view_configs None v q None in Ok r.1.

Definition ids_of (r : res (list FileSlice.t)) : option (list string) :=
  match r with Ok l => Some (FileSlice.file_id <$> l) | _ => None end.

Example sample_slices :
  ids_of (slices_of (query_of []) ∅) = Some ["a"; "b"] /\
  ids_of (slices_of (query_of query_filters) ∅) = Some ["a"] /\
  ids_of (slices_of (query_of [field_gt "id" "20"]) ∅) = Some [] /\
  ids_of (slices_of (query_of [field_gt "id" "5"]) ∅) = Some ["a"].
Proof. split_and!; vm_compute; reflexivity. Qed.

Definition listed_all : Loaded :=
  match file_groups_map 3 view_configs None (all_partitions (query_of query_filters)) None with Ok m => m | _ => ∅ end.

Definition group_a : FileGroup.t := default (FileGroup.new "" "") (default [] (listed_all !! "part=1") !! 0).

Definition slice_a : FileSlice.t :=
  default (FileSlice.new_log_only "" "" "") (group_slices (query_of query_filters) group_a).

Definition query_result : list FileSlice.t * Loaded :=
  match get_file_slices 3 view_configs None ∅ (query_of query_filters) None with Ok r => r | _ => ([], ∅) end.

Lemma rows_wf ids part : batch_wf (rows ids part).
Proof.
  assert (Ht : forall (f : Z -> option Value) l, (forall z v, f z = Some v -> value_type v = Int32) ->
    Forall (fun x : option Value => forall v, x = Some v -> value_type v = Int32) (map f l)).
  { intros f l Hf. induction l as [|z l IH]; [by apply list.Forall_nil|]. apply list.Forall_cons. split; [by apply Hf|done]. }
  split.
  - constructor; [by cbn; rewrite length_map|]. constructor; [by cbn; rewrite length_map|constructor].
  - apply list.Forall_cons. split; [|apply list.Forall_singleton]; apply Ht; by intros z v [= <-].
  - repeat (apply list.Forall_cons; split; [done|]). by apply list.Forall_nil.
Qed.

Lemma stats_describe name rg xs mn mx :
  stats_columns (from_row_group rg columns_schema) !! name = Some (mkColumnStatistics name Int32 (int32 mn) (int32 mx)) ->
  bounded_b (mkColumnStatistics name Int32 (int32 mn) (int32 mx)) xs = true -> group_describes columns_schema name Int32 rg xs.
Proof.
  intros E Hb. unfold group_describes. rewrite E. cbn. split_and!.
  - by apply bounded_b_ok.
  - right. split; by eexists.
  - split; cbn; by intros v [= <-].
Qed.

Definition footer_a : ParquetFooter := mkFooter 100 [60%Z] (mkParquetMeta 2 [row_group_of (1, 9)%Z 1]).

Lemma footer_a_described : file_described columns_schema (parquet_meta footer_a) [rows [1; 9]%Z 1].
Proof.
  split.
  - apply list.Forall_singleton. split; [done|apply rows_wf].
  - intros name. exists Int32. constructor; [|constructor]. intros c Hc.
    unfold column_by_name in Hc. cbn in Hc. repeat (case_decide; [subst name; injection Hc as <-; by eapply stats_describe|]). done.
Qed.

Lemma row_holds_path : holds_path (partition_pruner (query_of query_filters)) "part=1" (rows [1; 9]%Z 1) 1.
Proof.
  intros segments name v Hs Hv.
  assert (E : parse_segments (partition_pruner (query_of query_filters)) "part=1" = Ok (<["part" := mkValue Int32 (DInt 1)]> ∅))
    by reflexivity.
  rewrite E in Hs. injection Hs as <-. rewrite lookup_insert in Hv. case_decide as Hn; [|by rewrite lookup_empty in Hv].
  subst name. injection Hv as <-. split; [reflexivity|]. by eexists.
Qed.

Lemma row_passes_filters : Forall (row_passes (rows [1; 9]%Z 1) 1) query_filters.
Proof.
  apply list.Forall_cons. split; [|apply list.Forall_singleton].
  - intros c [= <-]. eexists _, _. split_and!; reflexivity.
  - intros c [= <-]. eexists _, _. split_and!; reflexivity.
Qed.

Lemma snapshot_keeps_matching_slices_witness : exists s', s' ∈ query_result.1 /\ same_slice slice_a s'.
Proof.
  refine (snapshot_keeps_matching_slices 3 view_configs None query_filters partition_columns ∅ (query_of query_filters) None
    query_result.1 query_result.2 listed_all "part=1" [group_a] group_a slice_a "part=1/a_1_10.parquet" footer_a
    [rows [1; 9]%Z 1] (rows [1; 9]%Z 1) 1 _ _ _ _ _ _ _ _ _ _ _ footer_a_described _ row_holds_path row_passes_filters).
  - vm_compute. reflexivity.
  - repeat (apply list.Forall_cons; split; [done|]). by apply list.Forall_nil.
  - reflexivity.
  - reflexivity.
  - vm_compute. reflexivity.
  - vm_compute. reflexivity.
  - vm_compute. reflexivity.
  - left.
  - vm_compute. reflexivity.
  - vm_compute. reflexivity.
  - vm_compute. reflexivity.
  - left.
Defined.

Definition inserts (q : Query) : list (string * list FileGroup.t) :=
  match insertions 3 view_configs None q None with Ok l => l | _ => [] end.

Definition second_query : Query :=
  mkQuery (mkPartitionPruner partition_columns true false true (castable_filters partition_columns [field_eq "part" "2"]))
    file_pruner_empty columns_schema (timeline_at "15").

Definition schedule : list (string * list FileGroup.t) := inserts second_query ++ inserts (query_of []).

Definition collected_after (v : Loaded) (q : Query) : list FileSlice.t :=
  match collect_file_slices v q with Ok l => l | _ => [] end.

Lemma unpruned_queries_do_not_disturb_witness :
  length (inserts second_query) = 1 /\
  forall s, s ∈ collected_after (insert_all ∅ schedule) (query_of []) <->
    s ∈ match slices_of (query_of []) ∅ with Ok l => l | _ => [] end.
Proof.
  split; [vm_eq|].
  apply (unpruned_queries_do_not_disturb 3 view_configs None (query_of []) second_query ∅ (inserts (query_of []))
    (inserts second_query) 1 schedule _ _
    (match get_file_slices 3 view_configs None ∅ (query_of []) None with Ok r => r.2 | _ => ∅ end)).
  - reflexivity.
  - reflexivity.
  - split_and!; reflexivity.
  - vm_compute. reflexivity.
  - vm_compute. reflexivity.
  - vm_compute. repeat constructor.
  - vm_compute. reflexivity.
  - vm_compute. reflexivity.
Defined.

(** A query that prunes files by their statistics does: when it loads between the loading
    and the collecting of another, the slices it pruned are lost to the other, which has
    no filters at all. *)
Example pruning_query_disturbs_another :
  let pruning := query_of [field_gt "id" "20"] in
  interleaving (inserts (query_of [])) (inserts pruning) (inserts (query_of []) ++ inserts pruning) /\
  FileSlice.file_id <$> collected_after (insert_all ∅ (inserts (query_of []))) (query_of []) = ["a"; "b"] /\
  collected_after (insert_all ∅ (inserts (query_of []) ++ inserts pruning)) (query_of []) = [].
Proof. cbv zeta. split_and!; [vm_compute; repeat constructor|vm_compute; reflexivity|vm_compute; reflexivity]. Qed.
End SampleView.
