(* ===== verification/Options.v ===== *)
(** Typed configuration: crates/core/src/config/mod.rs, table.rs, read.rs, plan.rs and
    internal.rs, with the enumerations of their values (merge/mod.rs, config/table.rs).

    A configuration key is a constructor; [ConfigParser] is the trait that gives its name,
    its default and the parser of its value.  [HudiConfigs] remains a map of texts.
    [Config] holds the same lookups for the few keys the timeline reads. *)
From Stdlib Require Import Ascii.
From stdpp Require Import base gmap sets list strings sorting numbers pretty.
From S2P Require Import Prelude RustStr Config FileGroup GroupBuilder KeyGen Listing.
Local Open Scope res_scope.

(** * Values *)
Inductive HudiConfigValue :=
  | VBoolean (b : bool)
  | VInteger (z : Z)
  | VUInteger (z : Z)
  | VString (s : string)
  | VList (l : list string).

Global Instance HudiConfigValue_eq_dec : EqDecision HudiConfigValue.
Proof. solve_decision. Defined.

(** [From<HudiConfigValue>]: a value of another kind panics. *)
Definition into_bool (v : HudiConfigValue) : res bool := match v with VBoolean b => Ok b | _ => Panic end.
Definition into_isize (v : HudiConfigValue) : res Z := match v with VInteger z => Ok z | _ => Panic end.
Definition into_usize (v : HudiConfigValue) : res Z := match v with VUInteger z => Ok z | _ => Panic end.
Definition into_list (v : HudiConfigValue) : res (list string) := match v with VList l => Ok l | _ => Panic end.

Definition bool_to_string (b : bool) : string := if b then "true" else "false".

Definition into_string (v : HudiConfigValue) : res string :=
  match v with
  | VBoolean b => Ok (bool_to_string b)
  | VInteger z | VUInteger z => Ok (pretty z)
  | VString s => Ok s
  | VList _ => Panic
  end.

(** * Parsers of texts *)
Abbreviation parsed A := (A + ConfigError)%type.

Definition parsed_map {A B} (f : A -> B) (r : parsed A) : parsed B :=
  match r with inl a => inl (f a) | inr e => inr e end.

Definition parsed_bind {A B} (r : parsed A) (k : A -> parsed B) : parsed B :=
  match r with inl a => k a | inr e => inr e end.

Definition some_or {A} (o : option A) (e : ConfigError) : parsed A := match o with Some a => inl a | None => inr e end.

(** [bool::from_str] *)
Definition bool_from_str (s : string) : parsed bool :=
  if decide (s = "true") then inl true else if decide (s = "false") then inl false else inr ParseBool.

Definition isize_from_str (s : string) : parsed Z := some_or (parse_i64 s) ParseInt.
Definition usize_from_str (s : string) : parsed Z := some_or (parse_u64 s) ParseInt.

(** A number that must not be zero. *)
Definition positive_from_str (s : string) : parsed Z :=
  parsed_bind (usize_from_str s) (fun z => if decide (z = 0%Z) then inr InvalidValue else inl z).

(** [v.split(',').map(str::to_string)] *)
Definition comma_list (v : string) : HudiConfigValue := VList (str_split "," v).

Inductive TableTypeValue := CopyOnWrite | MergeOnRead.

Definition table_type_from_str (s : string) : parsed TableTypeValue :=
  let s := to_ascii_lowercase s in
  if decide (s = "copy_on_write" \/ s = "copy-on-write" \/ s = "cow") then inl CopyOnWrite
  else if decide (s = "merge_on_read" \/ s = "merge-on-read" \/ s = "mor") then inl MergeOnRead
  else inr InvalidValue.

Definition table_type_as_ref (t : TableTypeValue) : string :=
  match t with CopyOnWrite => "COPY_ON_WRITE" | MergeOnRead => "MERGE_ON_READ" end.

Definition format_from_str (s : string) : parsed BaseFileFormatValue :=
  let s := to_ascii_lowercase s in
  if decide (s = "parquet") then inl Parquet
  else if decide (s = "hfile") then inl HFile
  else if decide (s = "lance") then inl Lance
  else if decide (s = "orc") then inr UnsupportedValue
  else inr InvalidValue.

Definition format_as_ref (f : BaseFileFormatValue) : string :=
  match f with Parquet => "parquet" | HFile => "hfile" | Lance => "lance" end.

Inductive RecordMergeStrategyValue := AppendOnly | OverwriteWithLatest.

Global Instance RecordMergeStrategyValue_eq_dec : EqDecision RecordMergeStrategyValue.
Proof. solve_decision. Defined.

Definition merge_strategy_from_str (s : string) : parsed RecordMergeStrategyValue :=
  let s := to_ascii_lowercase s in
  if decide (s = "append_only") then inl AppendOnly
  else if decide (s = "overwrite_with_latest") then inl OverwriteWithLatest
  else inr InvalidValue.

Definition merge_strategy_as_ref (m : RecordMergeStrategyValue) : string :=
  match m with AppendOnly => "append_only" | OverwriteWithLatest => "overwrite_with_latest" end.

Inductive QueryType := Snapshot | Incremental.

Global Instance QueryType_eq_dec : EqDecision QueryType.
Proof. solve_decision. Defined.

Definition query_type_from_str (s : string) : parsed QueryType :=
  let s := to_ascii_lowercase s in
  if decide (s = "snapshot") then inl Snapshot
  else if decide (s = "incremental") then inl Incremental
  else inr InvalidValue.

Definition query_type_as_ref (q : QueryType) : string :=
  match q with Snapshot => "snapshot" | Incremental => "incremental" end.

Inductive FileGroupReaderVersion := One | Two.

Definition version_as_usize (v : FileGroupReaderVersion) : Z := match v with One => 1 | Two => 2 end.

Definition version_try_from (value : Z) : parsed FileGroupReaderVersion :=
  if decide (value = 1%Z) then inl One else if decide (value = 2%Z) then inl Two else inr InvalidValue.

Definition version_from_str (s : string) : parsed FileGroupReaderVersion :=
  let s := trim s in
  if decide (s = "1") then inl One else if decide (s = "2") then inl Two else inr InvalidValue.

(** * The trait *)
Class ConfigParser (K : Type) := {
  config_key : K -> string;
  key_aliases : K -> list string;
  key_required : K -> bool;
  key_default : K -> option HudiConfigValue;
  (** the value of a text *)
  key_parse : K -> string -> parsed HudiConfigValue;
  (** what a missing or malformed value falls back to, where that is not the default *)
  key_fallback : K -> HudiConfigs -> option HudiConfigValue
}.

Section parser.
Context {K : Type} {P : ConfigParser K}.

Fixpoint first_alias (configs : HudiConfigs) (l : list string) : parsed string :=
  match l with
  | [] => inr NotFound
  | alias :: l => match configs !! alias with Some v => inl v | None => first_alias configs l end
  end.

(** [resolve_raw_value] *)
Definition raw_value (k : K) (configs : HudiConfigs) : parsed string :=
  match configs !! config_key k with Some v => inl v | None => first_alias configs (key_aliases k) end.

Definition parse_value (k : K) (configs : HudiConfigs) : parsed HudiConfigValue :=
  parsed_bind (raw_value k configs) (key_parse k).

(** [validate] *)
Definition validate (k : K) (configs : HudiConfigs) : parsed unit :=
  match parse_value k configs with
  | inl _ => inl tt
  | inr NotFound => if negb (key_required k) then inl tt else inr NotFound
  | inr e => inr e
  end.

(** [parse_value_or_default] *)
Definition get_or_default (configs : HudiConfigs) (k : K) : res HudiConfigValue :=
  match parse_value k configs with
  | inl v => Ok v
  | inr _ =>
      match key_fallback k configs with
      | Some v => Ok v
      | None => match key_default k with Some v => Ok v | None => Panic end
      end
  end.

(** [HudiConfigs::get] and [try_get] *)
Definition get (configs : HudiConfigs) (k : K) : parsed HudiConfigValue := parse_value k configs.

Definition try_get (configs : HudiConfigs) (k : K) : parsed (option HudiConfigValue) :=
  match parse_value k configs with
  | inl v => inl (Some v)
  | inr NotFound => inl (key_default k)
  | inr e => inr e
  end.
End parser.

(** [?] on a configuration error *)
Definition of_parsed {A} (r : parsed A) : res A := match r with inl a => Ok a | inr _ => Err EConfig end.

(** * The keys *)
Module TableConfig.
Inductive t :=
  | BaseFileFormat | BasePath | Checksum | CreateSchema | DatabaseName | DropsPartitionFields
  | IsHiveStylePartitioning | IsPartitionPathUrlencoded | KeyGeneratorClass | KeyGeneratorType | PartitionFields
  | OrderingFields | PopulatesMetaFields | RecordKeyFields | RecordMergeStrategy | TableName | TableType | TableVersion
  | TimelineLayoutVersion | TimelineTimezone | ArchiveLogFolder | TimelinePath | TimelineHistoryPath
  | MetadataTableEnabled | MetadataTablePartitions.

Global Instance t_eq_dec : EqDecision t.
Proof. solve_decision. Defined.

Definition iter : list t :=
  [BaseFileFormat; BasePath; Checksum; CreateSchema; DatabaseName; DropsPartitionFields; IsHiveStylePartitioning;
   IsPartitionPathUrlencoded; KeyGeneratorClass; KeyGeneratorType; PartitionFields; OrderingFields; PopulatesMetaFields;
   RecordKeyFields; RecordMergeStrategy; TableName; TableType; TableVersion; TimelineLayoutVersion; TimelineTimezone;
   ArchiveLogFolder; TimelinePath; TimelineHistoryPath; MetadataTableEnabled; MetadataTablePartitions].

Definition as_ref (k : t) : string :=
  match k with
  | BaseFileFormat => "hoodie.table.base.file.format"
  | BasePath => "hoodie.base.path"
  | Checksum => "hoodie.table.checksum"
  | CreateSchema => "hoodie.table.create.schema"
  | DatabaseName => "hoodie.database.name"
  | DropsPartitionFields => "hoodie.datasource.write.drop.partition.columns"
  | IsHiveStylePartitioning => "hoodie.datasource.write.hive_style_partitioning"
  | IsPartitionPathUrlencoded => "hoodie.datasource.write.partitionpath.urlencode"
  | KeyGeneratorClass => "hoodie.table.keygenerator.class"
  | KeyGeneratorType => "hoodie.table.keygenerator.type"
  | PartitionFields => "hoodie.table.partition.fields"
  | OrderingFields => "hoodie.table.ordering.fields"
  | PopulatesMetaFields => "hoodie.populate.meta.fields"
  | RecordKeyFields => "hoodie.table.recordkey.fields"
  | RecordMergeStrategy => "hoodie.table.record.merge.strategy"
  | TableName => "hoodie.table.name"
  | TableType => "hoodie.table.type"
  | TableVersion => "hoodie.table.version"
  | TimelineLayoutVersion => "hoodie.timeline.layout.version"
  | TimelineTimezone => "hoodie.table.timeline.timezone"
  | ArchiveLogFolder => "hoodie.archivelog.folder"
  | TimelinePath => "hoodie.timeline.path"
  | TimelineHistoryPath => "hoodie.timeline.history.path"
  | MetadataTableEnabled => "hoodie.metadata.enable"
  | MetadataTablePartitions => "hoodie.table.metadata.partitions"
  end.

Definition aliases (k : t) : list string :=
  match k with OrderingFields => ["hoodie.table.precombine.field"] | _ => [] end.

Definition is_required (k : t) : bool := match k with TableName | TableType | TableVersion => true | _ => false end.

Definition default_value (k : t) : option HudiConfigValue :=
  match k with
  | BaseFileFormat => Some (VString (format_as_ref Parquet))
  | DatabaseName => Some (VString "default")
  | DropsPartitionFields | IsHiveStylePartitioning | IsPartitionPathUrlencoded => Some (VBoolean false)
  | PartitionFields => Some (VList [])
  | PopulatesMetaFields => Some (VBoolean true)
  | TimelineTimezone => Some (VString (timezone_as_ref UTC))
  | ArchiveLogFolder => Some (VString ".hoodie/archived")
  | TimelinePath => Some (VString "timeline")
  | TimelineHistoryPath => Some (VString "history")
  | MetadataTableEnabled => Some (VBoolean false)
  | MetadataTablePartitions => Some (VList [])
  | _ => None
  end.

Definition partition_fields_list (v : string) : list string :=
  List.filter (fun field => negb (bool_decide (field = ""))) (trim <$> str_split "," v).

Definition parse_text (k : t) (v : string) : parsed HudiConfigValue :=
  match k with
  | BaseFileFormat => parsed_map (fun f => VString (format_as_ref f)) (format_from_str v)
  | Checksum | TableVersion | TimelineLayoutVersion => parsed_map VInteger (isize_from_str v)
  | DropsPartitionFields | IsHiveStylePartitioning | IsPartitionPathUrlencoded | PopulatesMetaFields
  | MetadataTableEnabled => parsed_map VBoolean (bool_from_str v)
  | PartitionFields => inl (VList (partition_fields_list v))
  | OrderingFields =>
      let fields := str_split "," v in
      if (1 <? length fields)%nat then inr UnsupportedValue else inl (VList fields)
  | RecordKeyFields | MetadataTablePartitions => inl (comma_list v)
  | RecordMergeStrategy => parsed_map (fun m => VString (merge_strategy_as_ref m)) (merge_strategy_from_str v)
  | TableType => parsed_map (fun t => VString (table_type_as_ref t)) (table_type_from_str v)
  | TimelineTimezone => parsed_map (fun tz => VString (timezone_as_ref tz)) (timezone_from_str v)
  | BasePath | CreateSchema | DatabaseName | KeyGeneratorClass | KeyGeneratorType | TableName | ArchiveLogFolder
  | TimelinePath | TimelineHistoryPath => inl (VString v)
  end.

(** A parser of its own, without the merge strategy's fallback. *)
Definition plain : ConfigParser t := {|
  config_key := as_ref; key_aliases := aliases; key_required := is_required; key_default := default_value;
  key_parse := parse_text; key_fallback := fun _ _ => None
|}.

(** The merge strategy falls back on what the other options say. *)
Definition merge_fallback (configs : HudiConfigs) : string :=
  let populates_meta_fields :=
    match get_or_default (P := plain) configs PopulatesMetaFields with Ok (VBoolean b) => b | _ => true end in
  if negb populates_meta_fields then merge_strategy_as_ref AppendOnly
  else match parse_value (P := plain) OrderingFields configs with
       | inr _ => merge_strategy_as_ref AppendOnly
       | inl _ => merge_strategy_as_ref OverwriteWithLatest
       end.

#[global] Instance parser : ConfigParser t := {|
  config_key := as_ref; key_aliases := aliases; key_required := is_required; key_default := default_value;
  key_parse := parse_text;
  key_fallback k configs := match k with RecordMergeStrategy => Some (VString (merge_fallback configs)) | _ => None end
|}.
End TableConfig.

Inductive ReadConfigScope := TableOrRead | ReadOnly.

Module ReadConfig.
Inductive t :=
  | QueryType | AsOfTimestamp | StartTimestamp | EndTimestamp | InputPartitions | UseReadOptimizedMode
  | FileGroupReaderVersion | StreamBatchSize | FileSliceReadConcurrency | ScanMaxMemorySize | MergeUseRecordPositions.

Global Instance t_eq_dec : EqDecision t.
Proof. solve_decision. Defined.

Definition iter : list t :=
  [QueryType; AsOfTimestamp; StartTimestamp; EndTimestamp; InputPartitions; UseReadOptimizedMode; FileGroupReaderVersion;
   StreamBatchSize; FileSliceReadConcurrency; ScanMaxMemorySize; MergeUseRecordPositions].

Definition key_str (k : t) : string :=
  match k with
  | QueryType => "hoodie.read.query.type"
  | AsOfTimestamp => "hoodie.read.as.of.timestamp"
  | StartTimestamp => "hoodie.read.start.timestamp"
  | EndTimestamp => "hoodie.read.end.timestamp"
  | InputPartitions => "hoodie.read.input.partitions"
  | UseReadOptimizedMode => "hoodie.read.use.read_optimized.mode"
  | FileGroupReaderVersion => "hoodie.read.file.group.reader.version"
  | StreamBatchSize => "hoodie.read.stream.batch_size"
  | FileSliceReadConcurrency => "hoodie.read.file.slice.read.concurrency"
  | ScanMaxMemorySize => "hoodie.read.scan.max.memory.size"
  | MergeUseRecordPositions => "hoodie.merge.use.record.positions"
  end.

Definition scope (k : t) : ReadConfigScope :=
  match k with QueryType | AsOfTimestamp | StartTimestamp | EndTimestamp => ReadOnly | _ => TableOrRead end.

Definition scope_of_key (key : string) : option ReadConfigScope :=
  scope <$> find (fun config => bool_decide (key_str config = key)) iter.

Definition default_value (k : t) : option HudiConfigValue :=
  match k with
  | QueryType => Some (VString (query_type_as_ref Snapshot))
  | InputPartitions => Some (VUInteger 0)
  | UseReadOptimizedMode => Some (VBoolean false)
  | FileGroupReaderVersion => Some (VUInteger (version_as_usize Two))
  | MergeUseRecordPositions => Some (VBoolean false)
  | StreamBatchSize => Some (VUInteger 1024)
  | FileSliceReadConcurrency => Some (VUInteger 4)
  | _ => None
  end.

Definition parse_text (k : t) (v : string) : parsed HudiConfigValue :=
  match k with
  | QueryType => parsed_map (fun q => VString (query_type_as_ref q)) (query_type_from_str v)
  | AsOfTimestamp | StartTimestamp | EndTimestamp => inl (VString v)
  | InputPartitions => parsed_map VUInteger (usize_from_str v)
  | FileGroupReaderVersion => parsed_map (fun n => VUInteger (version_as_usize n)) (version_from_str v)
  | UseReadOptimizedMode | MergeUseRecordPositions => parsed_map VBoolean (bool_from_str v)
  | StreamBatchSize | ScanMaxMemorySize | FileSliceReadConcurrency => parsed_map VUInteger (positive_from_str v)
  end.

#[global] Instance parser : ConfigParser t := {|
  config_key := key_str; key_aliases := fun _ => []; key_required := fun _ => false; key_default := default_value;
  key_parse := parse_text; key_fallback := fun _ _ => None
|}.
End ReadConfig.

Module PlanConfig.
Inductive t := ListingParallelism.

Definition iter : list t := [ListingParallelism].

Definition key_str (k : t) : string := "hoodie.plan.listing.parallelism".

Definition default_value (k : t) : option HudiConfigValue := Some (VUInteger 10).

Definition parse_text (k : t) (v : string) : parsed HudiConfigValue := parsed_map VUInteger (usize_from_str v).

#[global] Instance parser : ConfigParser t := {|
  config_key := key_str; key_aliases := fun _ => []; key_required := fun _ => false; key_default := default_value;
  key_parse := parse_text; key_fallback := fun _ _ => None
|}.
End PlanConfig.

Module InternalConfig.
Inductive t := SkipConfigValidation | TimelineArchivedReadEnabled | IncrementalInstantTimes.

Definition as_ref (k : t) : string :=
  match k with
  | SkipConfigValidation => "hoodie.internal.skip.config.validation"
  | TimelineArchivedReadEnabled => "hoodie.internal.timeline.archived.enabled"
  | IncrementalInstantTimes => "hoodie.internal.read.incremental.instant.times"
  end.

Definition default_value (k : t) : option HudiConfigValue :=
  match k with
  | SkipConfigValidation | TimelineArchivedReadEnabled => Some (VBoolean false)
  | IncrementalInstantTimes => None
  end.

Definition parse_text (k : t) (v : string) : parsed HudiConfigValue :=
  match k with
  | SkipConfigValidation | TimelineArchivedReadEnabled => parsed_map VBoolean (bool_from_str v)
  | IncrementalInstantTimes => inl (VString v)
  end.

#[global] Instance parser : ConfigParser t := {|
  config_key := as_ref; key_aliases := fun _ => []; key_required := fun _ => false; key_default := default_value;
  key_parse := parse_text; key_fallback := fun _ _ => None
|}.
End InternalConfig.

(** * Every key has values of one kind *)
Inductive kind := KBoolean | KInteger | KUInteger | KString | KList.

Definition kind_of (v : HudiConfigValue) : kind :=
  match v with
  | VBoolean _ => KBoolean | VInteger _ => KInteger | VUInteger _ => KUInteger | VString _ => KString | VList _ => KList
  end.

Class TypedParser (K : Type) `{ConfigParser K} := {
  key_kind : K -> kind;
  key_parse_kind k s v : key_parse k s = inl v -> kind_of v = key_kind k;
  key_default_kind k v : key_default k = Some v -> kind_of v = key_kind k;
  key_fallback_kind k c v : key_fallback k c = Some v -> kind_of v = key_kind k
}.

Lemma parsed_map_inl {A B} (f : A -> B) r b : parsed_map f r = inl b -> exists a, r = inl a /\ b = f a.
Proof. destruct r as [a|]; [|done]. intros [= <-]. by exists a. Qed.

Ltac kind_cases :=
  intros;
  repeat match goal with
    | H : parsed_map _ _ = inl _ |- _ => apply parsed_map_inl in H as (? & _ & ->)
    | H : inl _ = inl _ |- _ => injection H as <-
    | H : Some _ = Some _ |- _ => injection H as <-
    | H : (if ?b then _ else _) = inl _ |- _ => destruct b
    end; try done.

Definition table_kind (k : TableConfig.t) : kind :=
  match k with
  | TableConfig.Checksum | TableConfig.TableVersion | TableConfig.TimelineLayoutVersion => KInteger
  | TableConfig.DropsPartitionFields | TableConfig.IsHiveStylePartitioning | TableConfig.IsPartitionPathUrlencoded
  | TableConfig.PopulatesMetaFields | TableConfig.MetadataTableEnabled => KBoolean
  | TableConfig.PartitionFields | TableConfig.OrderingFields | TableConfig.RecordKeyFields
  | TableConfig.MetadataTablePartitions => KList
  | _ => KString
  end.

#[global] Instance table_typed : TypedParser TableConfig.t.
Proof. refine {| key_kind := table_kind |}; intros k; destruct k; cbn; kind_cases. Defined.

Definition read_kind (k : ReadConfig.t) : kind :=
  match k with
  | ReadConfig.QueryType | ReadConfig.AsOfTimestamp | ReadConfig.StartTimestamp | ReadConfig.EndTimestamp => KString
  | ReadConfig.UseReadOptimizedMode | ReadConfig.MergeUseRecordPositions => KBoolean
  | _ => KUInteger
  end.

#[global] Instance read_typed : TypedParser ReadConfig.t.
Proof. refine {| key_kind := read_kind |}; intros k; destruct k; cbn; kind_cases. Defined.

#[global] Instance plan_typed : TypedParser PlanConfig.t.
Proof. refine {| key_kind := fun _ => KUInteger |}; intros k; destruct k; cbn; unfold PlanConfig.parse_text, PlanConfig.default_value; kind_cases. Defined.

Definition internal_kind (k : InternalConfig.t) : kind :=
  match k with InternalConfig.IncrementalInstantTimes => KString | _ => KBoolean end.

#[global] Instance internal_typed : TypedParser InternalConfig.t.
Proof. refine {| key_kind := internal_kind |}; intros k; destruct k; cbn; kind_cases. Defined.

Section typed.
Context {K : Type} {P : ConfigParser K} {T : TypedParser K}.

Lemma parse_value_inl k c v : parse_value k c = inl v -> exists s, raw_value k c = inl s /\ key_parse k s = inl v.
Proof. unfold parse_value. destruct (raw_value k c) as [s|]; [|done]. cbn. intros H. by exists s. Qed.

Lemma parse_value_kind k c v : parse_value k c = inl v -> kind_of v = key_kind k.
Proof. intros (s & _ & H)%parse_value_inl. by eapply key_parse_kind. Qed.

Lemma try_get_kind k c v : try_get c k = inl (Some v) -> kind_of v = key_kind k.
Proof.
  unfold try_get. destruct (parse_value k c) as [w|[]] eqn:E; try done.
  - intros [= ->]. by eapply parse_value_kind.
  - intros [= H]. by eapply key_default_kind.
Qed.

Lemma get_or_default_kind k c v : get_or_default c k = Ok v -> kind_of v = key_kind k.
Proof.
  unfold get_or_default. destruct (parse_value k c) as [w|] eqn:E.
  - intros [= ->]. by eapply parse_value_kind.
  - destruct (key_fallback k c) as [w|] eqn:Ef; [intros [= ->]; by eapply key_fallback_kind|].
    destruct (key_default k) as [w|] eqn:Ed; [intros [= ->]; by eapply key_default_kind|done].
Qed.

Lemma get_or_default_total k c : is_Some (key_default k) -> exists v, get_or_default c k = Ok v.
Proof.
  intros [d Hd]. unfold get_or_default. destruct (parse_value k c); [by eexists|].
  destruct (key_fallback k c); [by eexists|]. rewrite Hd. by eexists.
Qed.
End typed.

(** For every configuration key of the table, read, plan and internal options,
    whatever texts the options hold, a value looked up has the one kind of its key, so
    that the cast that follows a lookup does not panic; a lookup with a default gives a
    value except for a key that has neither default nor fallback and whose text is
    missing or malformed. *)
Theorem typed_lookups {K : Type} `{TypedParser K} (k : K) (c : HudiConfigs) :
  match get c k with inl v => kind_of v = key_kind k | inr _ => True end /\
  match try_get c k with inl (Some v) => kind_of v = key_kind k | _ => True end /\
  match get_or_default c k with
  | Ok v => kind_of v = key_kind k
  | Err _ => False
  | Panic => key_default k = None /\ key_fallback k c = None /\ exists e, get c k = inr e
  end.
Proof.
  split; [|split].
  - unfold get. destruct (parse_value k c) eqn:E; [by eapply parse_value_kind|done].
  - destruct (try_get c k) as [[v|]|] eqn:E; [by eapply try_get_kind|done..].
  - destruct (get_or_default c k) as [v| |] eqn:E; [by eapply get_or_default_kind|..]; revert E;
      unfold get_or_default, get; destruct (parse_value k c); try done;
      destruct (key_fallback k c); try done; destruct (key_default k); try done. intros _. eauto.
Qed.
