(* ===== verification/ReadOptions.v ===== *)
(** Options of a read: crates/core/src/config/read_options.rs.

    Filters and the projection are typed; every other option is a text in a map under
    its key.  Builders insert into the map, accessors parse from it. *)
From Stdlib Require Import Ascii.
From stdpp Require Import base gmap sets list strings sorting numbers pretty.
From S2P Require Import Prelude RustStr Config Expr Listing Options.
Local Open Scope res_scope.

Record ReadOptions := mkReadOptions {
  filters : list Filter;
  projection : option (list string);
  hudi_options : HudiConfigs
}.

Definition read_options_new : ReadOptions := mkReadOptions [] None ∅.

Definition set_hudi_options (o : ReadOptions) (m : HudiConfigs) : ReadOptions := mkReadOptions (filters o) (projection o) m.

(** [with_hudi_option] *)
Definition with_hudi_option (key value : string) (o : ReadOptions) : ReadOptions :=
  set_hudi_options o (<[key := value]> (hudi_options o)).

Definition with_hudi_options (opts : list (string * string)) (o : ReadOptions) : ReadOptions :=
  set_hudi_options o (foldl (fun m e => <[e.1 := e.2]> m) (hudi_options o) opts).

Definition with_query_type (q : QueryType) : ReadOptions -> ReadOptions :=
  with_hudi_option (ReadConfig.key_str ReadConfig.QueryType) (query_type_as_ref q).

Definition with_as_of_timestamp : string -> ReadOptions -> ReadOptions :=
  with_hudi_option (ReadConfig.key_str ReadConfig.AsOfTimestamp).

Definition with_start_timestamp : string -> ReadOptions -> ReadOptions :=
  with_hudi_option (ReadConfig.key_str ReadConfig.StartTimestamp).

Definition with_end_timestamp : string -> ReadOptions -> ReadOptions :=
  with_hudi_option (ReadConfig.key_str ReadConfig.EndTimestamp).

Definition with_batch_size (size : Z) (o : ReadOptions) : res ReadOptions :=
  if decide (size = 0%Z) then Err EConfig
  else Ok (with_hudi_option (ReadConfig.key_str ReadConfig.StreamBatchSize) (pretty size) o).

Definition with_filters (tuples : list (string * string * string)) (o : ReadOptions) : res ReadOptions :=
  let? fs := from_str_tuples tuples in Ok (mkReadOptions fs (projection o) (hudi_options o)).

Definition with_projection (columns : list string) (o : ReadOptions) : ReadOptions :=
  mkReadOptions (filters o) (Some columns) (hudi_options o).

(** ** Accessors *)
Definition option_text (o : ReadOptions) (k : ReadConfig.t) : option string := hudi_options o !! ReadConfig.key_str k.

Definition query_type (o : ReadOptions) : res QueryType :=
  match option_text o ReadConfig.QueryType with Some s => of_parsed (query_type_from_str s) | None => Ok Snapshot end.

Definition as_of_timestamp (o : ReadOptions) : option string := option_text o ReadConfig.AsOfTimestamp.
Definition start_timestamp (o : ReadOptions) : option string := option_text o ReadConfig.StartTimestamp.
Definition end_timestamp (o : ReadOptions) : option string := option_text o ReadConfig.EndTimestamp.

Definition is_read_optimized (o : ReadOptions) : res bool :=
  match option_text o ReadConfig.UseReadOptimizedMode with Some s => of_parsed (bool_from_str s) | None => Ok false end.

Definition batch_size (o : ReadOptions) : res (option Z) :=
  match option_text o ReadConfig.StreamBatchSize with
  | Some s => let? parsed := of_parsed (usize_from_str s) in
              if decide (parsed = 0%Z) then Err EConfig else Ok (Some parsed)
  | None => Ok None
  end.

Definition remove_option (k : ReadConfig.t) (o : ReadOptions) : ReadOptions :=
  set_hudi_options o (delete (ReadConfig.key_str k) (hudi_options o)).

(** [with_sanitized_timestamps]: an unknown query type counts as a snapshot. *)
Definition with_sanitized_timestamps (o : ReadOptions) : ReadOptions :=
  match query_type o with
  | Ok Incremental => remove_option ReadConfig.AsOfTimestamp o
  | _ => remove_option ReadConfig.EndTimestamp (remove_option ReadConfig.StartTimestamp o)
  end.

(** One key of [with_defaults_from]. *)
Definition default_step (configs : HudiConfigs) (o : ReadOptions) (k : ReadConfig.t) : res ReadOptions :=
  match option_text o k with
  | Some _ => Ok o
  | None =>
      let? found := of_parsed (try_get configs k) in
      match found with
      | Some v => let? s := into_string v in Ok (with_hudi_option (ReadConfig.key_str k) s o)
      | None => Ok o
      end
  end.

Definition with_defaults_from (o : ReadOptions) (configs : HudiConfigs) : res ReadOptions :=
  res_fold (default_step configs) ReadConfig.iter o.

(** * What the options keep *)

(** ** Numbers as texts *)
Lemma parse_u64_pretty (n : N) : (Z.of_N n <= usize_max)%Z -> parse_u64 (pretty n) = Some (Z.of_N n).
Proof.
  intros Hn. pose proof (pretty_N_digits n) as Hd. pose proof (parse_magnitude_pretty n) as Hp.
  unfold parse_u64. destruct (pretty n) as [|c r] eqn:E; [done|].
  simpl in Hd. apply andb_true_iff in Hd as [Hc _].
  destruct (ascii_eqb_spec c "+") as [->|]; [done|].
  rewrite Hp. by apply Z.leb_le in Hn as ->.
Qed.

Lemma parse_u64_range s z : parse_u64 s = Some z -> (0 <= z <= usize_max)%Z.
Proof.
  unfold parse_u64. destruct (parse_magnitude _) as [n|]; [|done].
  destruct (Z.leb_spec (Z.of_N n) usize_max); [|done]. intros [= <-]. lia.
Qed.

Lemma usize_text z : (0 <= z <= usize_max)%Z -> usize_from_str (pretty z) = inl z.
Proof.
  intros [H0 Hz]. unfold usize_from_str. assert (E : (pretty z : string) = pretty (Z.to_N z)) by by destruct z.
  rewrite E, parse_u64_pretty by lia. cbn. f_equal. lia.
Qed.

Lemma usize_from_str_range s z : usize_from_str s = inl z -> (0 <= z <= usize_max)%Z.
Proof.
  unfold usize_from_str. destruct (parse_u64 s) eqn:E; [|done]. intros [= <-]. by eapply parse_u64_range.
Qed.

Lemma positive_text z : (0 < z <= usize_max)%Z -> positive_from_str (pretty z) = inl z.
Proof. intros H. unfold positive_from_str. rewrite usize_text by lia. cbn. by rewrite decide_False by lia. Qed.

Lemma positive_range s z : positive_from_str s = inl z -> (0 < z <= usize_max)%Z.
Proof.
  unfold positive_from_str. destruct (usize_from_str s) as [x|] eqn:E; [|done]. cbn. case_decide; [done|].
  intros [= <-]. pose proof (usize_from_str_range _ _ E). lia.
Qed.

(** A value of a read option, printed, parses back. *)
Lemma read_text_roundtrip k s v t : ReadConfig.parse_text k s = inl v -> into_string v = Ok t -> ReadConfig.parse_text k t = inl v.
Proof.
  destruct k; cbn; try (intros (x & Hx & ->)%parsed_map_inl; cbn; intros [= <-]).
  - by destruct x.
  - intros [= <-]. by intros [= <-].
  - intros [= <-]. by intros [= <-].
  - intros [= <-]. by intros [= <-].
  - by rewrite (usize_text _ (usize_from_str_range _ _ Hx)).
  - by destruct x.
  - by destruct x.
  - by rewrite (positive_text _ (positive_range _ _ Hx)).
  - by rewrite (positive_text _ (positive_range _ _ Hx)).
  - by rewrite (positive_text _ (positive_range _ _ Hx)).
  - by destruct x.
Qed.

Lemma read_default_text k v t : ReadConfig.default_value k = Some v -> into_string v = Ok t -> ReadConfig.parse_text k t = inl v.
Proof. destruct k; cbn; try done; intros [= <-]; cbn; intros [= <-]; vm_compute; reflexivity. Qed.

Lemma read_value_text c k v : try_get c k = inl (Some v) -> exists t, into_string v = Ok t /\ ReadConfig.parse_text k t = inl v.
Proof.
  intros H. assert (exists t, into_string v = Ok t) as [t Ht].
  { pose proof (try_get_kind _ _ _ H) as Hk. destruct v; cbn in *; try by eexists. by destruct k. }
  exists t. split; [done|]. revert H. unfold try_get. destruct (parse_value k c) as [w|[]] eqn:E; try done.
  - intros [= ->]. apply parse_value_inl in E as (s & _ & E). by eapply read_text_roundtrip.
  - intros [= H]. by eapply read_default_text.
Qed.

(** ** Defaults *)
Lemma key_str_inj k k' : ReadConfig.key_str k = ReadConfig.key_str k' -> k = k'.
Proof. by destruct k, k'. Qed.

Lemma iter_all k : k ∈ ReadConfig.iter.
Proof. apply (bool_decide_unpack _). by destruct k. Qed.

Lemma iter_distinct : NoDup ReadConfig.iter.
Proof. apply (bool_decide_unpack _). by vm_compute. Qed.

Lemma option_text_insert k k' s o :
  option_text (with_hudi_option (ReadConfig.key_str k) s o) k' = if decide (k = k') then Some s else option_text o k'.
Proof.
  unfold option_text, with_hudi_option. cbn. case_decide as E; [subst; by rewrite lookup_insert_eq|].
  rewrite lookup_insert_ne; [done|]. intros H. by apply E, key_str_inj.
Qed.

(** What a key looks up to, from the options or else from the configuration. *)
Definition resolved (o : ReadOptions) (c : HudiConfigs) (k : ReadConfig.t) : parsed HudiConfigValue :=
  match option_text o k with
  | Some _ => get (hudi_options o) k
  | None => match try_get c k with inl (Some v) => inl v | _ => inr NotFound end
  end.

Lemma get_text (o : ReadOptions) k : get (hudi_options o) k = match option_text o k with Some s => ReadConfig.parse_text k s | None => inr NotFound end.
Proof. unfold get, parse_value, raw_value, option_text. cbn. by destruct (hudi_options o !! _). Qed.

Definition only_read_keys (o r : ReadOptions) : Prop :=
  filters r = filters o /\ projection r = projection o /\
  forall key, (forall k, key <> ReadConfig.key_str k) -> hudi_options r !! key = hudi_options o !! key.

Definition unset_ok (o : ReadOptions) (c : HudiConfigs) (k : ReadConfig.t) : Prop :=
  option_text o k = None -> exists v, try_get c k = inl v.

Lemma default_step_spec c o k :
  match default_step c o k with
  | Ok r => only_read_keys o r /\ (get (hudi_options r) k = resolved o c k /\ unset_ok o c k) /\
            forall k', k' <> k -> option_text r k' = option_text o k'
  | Err _ => option_text o k = None /\ exists e, try_get c k = inr e
  | Panic => False
  end.
Proof.
  unfold default_step, resolved, unset_ok. destruct (option_text o k) eqn:Eo.
  - done.
  - destruct (try_get c k) as [[v|]|e] eqn:Et; cbn.
    + destruct (read_value_text _ _ _ Et) as (t & -> & Ht). cbn. split; [|split].
      * split_and!; [done..|]. intros key Hk. apply lookup_insert_ne. by intros <-; apply (Hk k).
      * change (<[_ := _]> (hudi_options o)) with (hudi_options (with_hudi_option (ReadConfig.key_str k) t o)).
        split; [by rewrite get_text, option_text_insert, decide_True|by eexists].
      * intros k' Hk. by rewrite option_text_insert, decide_False.
    + split; [done|]. split; [|done]. split; [by rewrite get_text, Eo|by eexists].
    + split; [done|]. by eexists.
Qed.

Lemma get_same (o r : ReadOptions) k : option_text r k = option_text o k -> get (hudi_options r) k = get (hudi_options o) k.
Proof. intros H. by rewrite !get_text, H. Qed.

Lemma defaults_spec c l o : NoDup l ->
  match res_fold (default_step c) l o with
  | Ok r => only_read_keys o r /\ (forall k, k ∈ l -> get (hudi_options r) k = resolved o c k /\ unset_ok o c k) /\
            forall k, k ∉ l -> option_text r k = option_text o k
  | Err _ => exists k, k ∈ l /\ option_text o k = None /\ exists e, try_get c k = inr e
  | Panic => False
  end.
Proof.
  revert o. induction l as [|k l IH]; intros o Hnd; cbn [res_fold].
  - split_and!; try done. intros k []%elem_of_nil.
  - apply list.NoDup_cons in Hnd as [Hk Hnd]. pose proof (default_step_spec c o k) as H1.
    destruct (default_step c o k) as [o1| |]; cbn [res_bind]; [|by exists k; split; [left|]|done]. destruct H1 as (H1 & Hget & Hother).
    specialize (IH o1 Hnd). destruct (res_fold (default_step c) l o1) as [r| |]; [|destruct IH as (k' & IH)|done].
    + destruct IH as (H2 & Hin & Hout). split; [|split].
      * destruct H1 as (? & ? & K1), H2 as (? & ? & K2). split_and!; [congruence..|]. intros key Hkey. by rewrite K2, K1.
      * intros k' [->|Hk']%elem_of_cons; [by rewrite (get_same _ _ _ (Hout k Hk))|].
        destruct (Hin k' Hk') as [Hin' Hu]. split; [|intros E; apply Hu; rewrite Hother; [done|by intros ->]].
        rewrite Hin'. unfold resolved. assert (k' <> k) by by intros ->. rewrite Hother by done.
        by rewrite (get_same o o1) by by apply Hother.
      * intros k' [Hne Hk']%not_elem_of_cons. by rewrite Hout, Hother.
    + destruct IH as (Hin & He). exists k'. split; [by right|]. rewrite <- Hother; [done|]. by intros ->.
Qed.

(** Filling a read's options from a table's configuration keeps the filters, the
    projection and every key that is not a read option; afterwards each read option
    looks up to what the read set, else to the configuration's value, else to the
    default, the value surviving its printing and parsing.  It fails exactly when a
    key the read left unset is malformed in the configuration, and never panics. *)
Theorem with_defaults_from_spec (o : ReadOptions) (c : HudiConfigs) :
  match with_defaults_from o c with
  | Ok r => only_read_keys o r /\ forall k, get (hudi_options r) k = resolved o c k /\ unset_ok o c k
  | Err _ => exists k, option_text o k = None /\ exists e, try_get c k = inr e
  | Panic => False
  end.
Proof.
  pose proof (defaults_spec c ReadConfig.iter o iter_distinct) as H. unfold with_defaults_from.
  destruct (res_fold _ _ o) as [r| |]; [|naive_solver|done].
  destruct H as (? & H & _). split; [done|]. intros k. apply H, iter_all.
Qed.
