(* ===== verification/TableOptions.v ===== *)
(** Options of a table: crates/core/src/table/builder.rs, table/validation.rs,
    config/util.rs, util/collection.rs and util/path.rs, with [validate_configs] of
    merge/record_merger.rs.

    A table's options come from the caller, the environment, the table's properties
    file and a global file.  The storage, the environment and the order of the
    variables in it are parameters. *)
From Stdlib Require Import Ascii.
From stdpp Require Import base gmap sets list strings sorting numbers pretty fin_maps.
From S2P Require Import Prelude RustStr Config StorageReader LogFormat StrReplace Options.
Local Open Scope res_scope.

(** * Maps of options *)
Abbreviation Options := (gmap string string).

Definition is_hudi_key (key : string) : bool := starts_with "hoodie." key.

(** One option of [split_hudi_options_from_others]. *)
Definition split_step (acc : Options * Options) (e : string * string) : Options * Options :=
  let '(hudi_options, others) := acc in
  if is_hudi_key e.1 then (<[e.1 := e.2]> hudi_options, others) else (hudi_options, <[e.1 := e.2]> others).

Definition split_hudi_options_from_others (all_options : list (string * string)) : Options * Options :=
  foldl split_step (∅, ∅) all_options.

(** [entry(key).or_insert(value)] *)
Definition or_insert (m : Options) (e : string * string) : Options :=
  match m !! e.1 with Some _ => m | None => <[e.1 := e.2]> m end.

(** [extend_if_absent] *)
Definition extend_if_absent (target source : Options) : Options := foldl or_insert target (map_to_list source).

(** ** A file of options *)
Definition newline : ascii := ascii_of_nat 10.
Definition carriage_return : string := String (ascii_of_nat 13) "".

Definition strip_return (line : string) : string :=
  if ends_with carriage_return line then str_take (String.length line - 1) line else line.

(** [BufRead::lines] *)
Definition buf_lines (s : string) : list string :=
  match rev (str_split newline s) with
  | [] => []
  | rest :: terminated => (strip_return <$> rev terminated) ++ (if decide (rest = "") then [] else [rest])
  end.

(** [splitn(2, |c| split_chars.contains(c))] *)
Fixpoint split_at_any (split_chars s : string) : string * option string :=
  match s with
  | EmptyString => ("", None)
  | String c s' =>
      if str_mem c split_chars then ("", Some s')
      else let '(key, value) := split_at_any split_chars s' in (String c key, value)
  end.

Definition option_of_line (split_chars : string) (options : Options) (line : string) : res Options :=
  let? line := map_err EConfig (from_utf8 (String.list_ascii_of_string line)) in
  let trimmed_line := trim line in
  if bool_decide (trimmed_line = "") || starts_with_char "#" trimmed_line then Ok options
  else
    let '(key, value) := split_at_any split_chars trimmed_line in
    Ok (<[trim key := trim (default "" value)]> options).

(** [parse_data_for_options] *)
Definition parse_data_for_options (data : bytes) (split_chars : string) : res Options :=
  res_fold (option_of_line split_chars) (buf_lines (String.string_of_list_ascii data)) ∅.

(** [is_metadata_table_path] *)
Fixpoint trim_end_slashes (s : string) : string :=
  match s with
  | EmptyString => EmptyString
  | String c s' =>
      match trim_end_slashes s' with
      | EmptyString => if ascii_eqb c "/" then "" else String c ""
      | t => String c t
      end
  end.

Definition is_metadata_table_path (path : string) : bool := ends_with ".hoodie/metadata" (trim_end_slashes path).

(** * Validation *)
Definition valid {K} `{ConfigParser K} (configs : HudiConfigs) (l : list K) : res unit :=
  res_fold (fun _ k => of_parsed (validate k configs)) l tt.

Definition is_none {A} (o : option A) : bool := match o with None => true | _ => false end.

(** [RecordMerger::validate_configs] *)
Definition merger_validate_configs (configs : HudiConfigs) : res unit :=
  let? merge_strategy := res_bind (get_or_default configs TableConfig.RecordMergeStrategy) into_string in
  let? merge_strategy := of_parsed (merge_strategy_from_str merge_strategy) in
  let? populate_meta_fields := res_bind (get_or_default configs TableConfig.PopulatesMetaFields) into_bool in
  if negb populate_meta_fields && bool_decide (merge_strategy <> AppendOnly) then Err EConfig
  else
    let? precombine_field := of_parsed (try_get configs TableConfig.OrderingFields) in
    if is_none precombine_field && bool_decide (merge_strategy = OverwriteWithLatest) then Err EConfig else Ok tt.

(** [validate_configs] *)
Definition validate_configs (configs : HudiConfigs) : res unit :=
  let? skip := res_bind (get_or_default configs InternalConfig.SkipConfigValidation) into_bool in
  if skip : bool then Ok tt
  else
    let? _ := valid configs TableConfig.iter in
    let? _ := valid configs PlanConfig.iter in
    let? table_version := res_bind (of_parsed (get configs TableConfig.TableVersion)) into_isize in
    if negb (bool_decide (table_version ∈ [6; 8; 9]%Z)) then Err EUnsupported
    else
      let? timeline_layout_version := res_bind (of_parsed (get configs TableConfig.TimelineLayoutVersion)) into_isize in
      let expected_layout_version := (if decide (8 <= table_version) then 2 else 1)%Z in
      if negb (bool_decide (timeline_layout_version = expected_layout_version)) then Err EUnsupported
      else
        let? drops_partition_cols := res_bind (get_or_default configs TableConfig.DropsPartitionFields) into_bool in
        if drops_partition_cols : bool then Err EUnsupported else merger_validate_configs configs.

(** * The resolver *)
Record OptionResolver := mkResolver {
  base_uri : string;
  hudi_options : Options;
  storage_options : Options;
  options : Options
}.

Definition resolver_new (uri : string) : OptionResolver := mkResolver uri ∅ ∅ ∅.

Definition new_with_options (uri : string) (opts : list (string * string)) : OptionResolver :=
  mkResolver uri ∅ ∅ (foldl (fun m e => <[e.1 := e.2]> m) ∅ opts).

(** [with_hudi_options], [with_storage_options] and [with_options] of the builder; the
    singular forms are the case of one pair. *)
Definition extend (m : Options) (opts : list (string * string)) : Options := foldl (fun m e => <[e.1 := e.2]> m) m opts.

Definition with_hudi_options (opts : list (string * string)) (r : OptionResolver) : OptionResolver :=
  mkResolver (base_uri r) (extend (hudi_options r) opts) (storage_options r) (options r).

Definition with_storage_options (opts : list (string * string)) (r : OptionResolver) : OptionResolver :=
  mkResolver (base_uri r) (hudi_options r) (extend (storage_options r) opts) (options r).

Definition with_options (opts : list (string * string)) (r : OptionResolver) : OptionResolver :=
  mkResolver (base_uri r) (hudi_options r) (storage_options r) (extend (options r) opts).

Definition resolve_user_provided_options (r : OptionResolver) : OptionResolver :=
  let hudi := <[TableConfig.as_ref TableConfig.BasePath := base_uri r]> (hudi_options r) in
  let '(generic_hudi_opts, generic_other_opts) := split_hudi_options_from_others (map_to_list (options r)) in
  mkResolver (base_uri r) (extend_if_absent hudi generic_hudi_opts)
    (extend_if_absent (storage_options r) generic_other_opts) (options r).

Definition CLOUD_STORAGE_PREFIXES : list string := ["AWS_"; "AZURE_"; "GOOGLE_"].

(** The storage option an environment variable stands for. *)
Definition lower_option_key (env_key : string) : option string :=
  if starts_with "HOODIE_ENV_" env_key
  then Some (to_ascii_lowercase (str_replace "_DOT_" "." (str_drop (String.length "HOODIE_ENV_") env_key)))
  else if existsb (fun prefix => starts_with prefix env_key) CLOUD_STORAGE_PREFIXES
  then Some (to_ascii_lowercase env_key)
  else None.

Definition env_step (m : Options) (var : string * string) : Options :=
  match lower_option_key var.1 with Some key => or_insert m (key, var.2) | None => m end.

Definition resolve_env_vars (vars : list (string * string)) (r : OptionResolver) : OptionResolver :=
  mkResolver (base_uri r) (hudi_options r) (foldl env_step (storage_options r) vars) (options r).

(** [Storage::new] and its reads of the two files, given the storage options and the
    Hudi options so far; [std::env::vars]. *)
Class OptionFiles := {
  open_storage : Options -> HudiConfigs -> res (res bytes * res bytes);
  env_vars : list (string * string)
}.

Definition imbue_table_properties (m : Options) (file : res bytes) : res Options :=
  let? data := file in
  let? table_properties := parse_data_for_options data "=" in
  Ok (foldl (fun m e => <[e.1 := e.2]> m) m (map_to_list table_properties)).

Definition global_separators : string := String " " (String (ascii_of_nat 9) "=").

Definition imbue_step (m : Options) (e : string * string) : Options :=
  if is_hudi_key e.1 && is_none (m !! e.1) then <[e.1 := e.2]> m else m.

Definition imbue_global_hudi_configs_if_absent (m : Options) (file : res bytes) : res Options :=
  match file with
  | Ok data =>
      match parse_data_for_options data global_separators with
      | Ok global_configs => Ok (foldl imbue_step m (map_to_list global_configs))
      | Err _ => Ok m
      | Panic => Panic
      end
  | Err _ => Ok m
  | Panic => Panic
  end.

Section resolve.
Context {O : OptionFiles}.

Definition resolve_hudi_options (r : OptionResolver) : res OptionResolver :=
  let? (properties, global) := open_storage (storage_options r) (hudi_options r) in
  let? m := imbue_table_properties (hudi_options r) properties in
  let? m := imbue_global_hudi_configs_if_absent m global in
  Ok (mkResolver (base_uri r) m (storage_options r) (options r)).

Definition resolve_options (r : OptionResolver) : res OptionResolver :=
  let r := resolve_user_provided_options r in
  let r := resolve_env_vars env_vars r in
  let? r := resolve_hudi_options r in
  let? _ := validate_configs (hudi_options r) in
  Ok r.

(** [keep_at_table_level] *)
Definition keep_at_table_level (key : string) : bool :=
  match ReadConfig.scope_of_key key with None | Some TableOrRead => true | Some ReadOnly => false end.

(** [build]: the options of the table and of its storage; the timeline and the file
    system view are made from them. *)
Definition build_options (r : OptionResolver) : res (HudiConfigs * Options) :=
  let? r := resolve_options r in
  Ok (filter (fun e : string * string => keep_at_table_level e.1 = true) (hudi_options r), storage_options r).
End resolve.

(** * Which source an option comes from *)
Definition first_some {A} (l : list (option A)) : option A := list.head (omap id l).

Definition when {A} (b : bool) (o : option A) : option A := if b then o else None.

Lemma first_some_cons {A} (o : option A) l : first_some (o :: l) = match o with Some x => Some x | None => first_some l end.
Proof. by destruct o. Qed.

Lemma insert_fold_lookup (m : Options) l k : NoDup l.*1 ->
  foldl (fun m e => <[e.1 := e.2]> m) m l !! k = first_some [(list_to_map l : Options) !! k; m !! k].
Proof.
  rewrite !first_some_cons. revert m. induction l as [|[k' v] l IH]; intros m Hnd; cbn [foldl list_to_map foldr].
  - rewrite lookup_empty. by destruct (m !! k).
  - rewrite fmap_cons, list.NoDup_cons in Hnd. destruct Hnd as [Hk Hnd]. rewrite (IH _ Hnd). cbn [fst snd uncurry].
    rewrite !lookup_insert. case_decide as E; [subst|done]. rewrite not_elem_of_list_to_map_1 by done. done.
Qed.

Lemma extend_map_lookup (m p : Options) k :
  foldl (fun m e => <[e.1 := e.2]> m) m (map_to_list p) !! k = first_some [p !! k; m !! k].
Proof. rewrite insert_fold_lookup by apply NoDup_fst_map_to_list. by rewrite list_to_map_to_list. Qed.

Lemma guarded_fold_lookup (f : string -> bool) (step : Options -> string * string -> Options) m l k :
  (forall m e, step m e = if f e.1 && is_none (m !! e.1) then <[e.1 := e.2]> m else m) ->
  foldl step m l !! k = first_some [m !! k; when (f k) ((list_to_map l : Options) !! k)].
Proof.
  intros Hs. rewrite !first_some_cons. revert m. induction l as [|[k' v] l IH]; intros m; cbn [foldl list_to_map foldr].
  - destruct (m !! k); [done|]. unfold when. by destruct (f k).
  - rewrite IH, Hs. cbn [fst snd uncurry]. rewrite lookup_insert. destruct (f k') eqn:Ef; cbn [andb].
    + destruct (m !! k') as [w|] eqn:Em; cbn [is_none]; [|rewrite lookup_insert]; (case_decide as E; [subst k'|done]).
      * by rewrite Em.
      * unfold when. by rewrite Ef, Em.
    + destruct (m !! k); [done|]. case_decide as E; [subst k'|done]. unfold when. by rewrite Ef.
Qed.

Lemma or_insert_lookup m l k : foldl or_insert m l !! k = first_some [m !! k; (list_to_map l : Options) !! k].
Proof.
  rewrite (guarded_fold_lookup (fun _ => true)); [done|]. intros m' e. unfold or_insert. by destruct (m' !! e.1).
Qed.

Lemma extend_if_absent_lookup m s k : extend_if_absent m s !! k = first_some [m !! k; s !! k].
Proof. unfold extend_if_absent. by rewrite or_insert_lookup, list_to_map_to_list. Qed.

Lemma split_fold_lookup l h o k : NoDup l.*1 ->
  let '(h', o') := foldl split_step (h, o) l in
  h' !! k = first_some [when (is_hudi_key k) ((list_to_map l : Options) !! k); h !! k] /\
  o' !! k = first_some [when (negb (is_hudi_key k)) ((list_to_map l : Options) !! k); o !! k].
Proof.
  revert h o. induction l as [|[k' v] l IH]; intros h o Hnd; cbn [foldl list_to_map foldr].
  - unfold when. rewrite lookup_empty, !first_some_cons. destruct (h !! k), (o !! k), (is_hudi_key k); done.
  - rewrite fmap_cons, list.NoDup_cons in Hnd. destruct Hnd as [Hk Hnd].
    assert (E : (list_to_map l : Options) !! k' = None) by by apply not_elem_of_list_to_map_1.
    unfold split_step at 2. cbn [fst snd uncurry]. unfold when in *.
    destruct (is_hudi_key k') eqn:Ek'; [specialize (IH (<[k' := v]> h) o Hnd)|specialize (IH h (<[k' := v]> o) Hnd)];
      destruct (foldl _ _ l) as [h' o']; destruct IH as [-> ->]; rewrite !first_some_cons, !lookup_insert;
      destruct (decide (k' = k)) as [<-|Hne]; rewrite ?Ek', ?E; cbn [negb]; done.
Qed.

Lemma split_options_lookup m k :
  let '(h, o) := split_hudi_options_from_others (map_to_list m) in
  h !! k = when (is_hudi_key k) (m !! k) /\ o !! k = when (negb (is_hudi_key k)) (m !! k).
Proof.
  pose proof (split_fold_lookup (map_to_list m) ∅ ∅ k (NoDup_fst_map_to_list m)) as H.
  unfold split_hudi_options_from_others. destruct (foldl _ _ _) as [h o]. destruct H as [-> ->].
  rewrite list_to_map_to_list, !first_some_cons, !lookup_empty. unfold when.
  split; destruct (is_hudi_key k); cbn; try done; by destruct (m !! k).
Qed.

(** The first variable that stands for each storage option. *)
Definition env_options (vars : list (string * string)) : Options :=
  list_to_map (omap (fun var => (fun key => (key, var.2)) <$> lower_option_key var.1) vars).

Lemma env_fold_lookup m vars k : foldl env_step m vars !! k = first_some [m !! k; env_options vars !! k].
Proof.
  unfold env_options. rewrite <- or_insert_lookup. f_equal. revert m.
  induction vars as [|var vars IH]; intros m; cbn [foldl omap list_omap]; [done|].
  unfold env_step at 2. destruct (lower_option_key var.1) as [key|]; cbn [fmap option_fmap option_map foldl]; apply IH.
Qed.

(** ** The resolved options *)
Section precedence.
Context {O : OptionFiles}.

(** What is read of the two files, before the options they hold are used. *)
Definition files_read (r : OptionResolver) (properties globals : Options) : Prop :=
  let r := resolve_env_vars env_vars (resolve_user_provided_options r) in
  exists data file, open_storage (storage_options r) (hudi_options r) = Ok (Ok data, file) /\
    parse_data_for_options data "=" = Ok properties /\
    globals = match file with
              | Ok data => match parse_data_for_options data global_separators with Ok m => m | _ => ∅ end
              | _ => ∅
              end.

Lemma user_options_lookup r k : let r' := resolve_user_provided_options r in
  hudi_options r' !! k = first_some [when (bool_decide (k = TableConfig.as_ref TableConfig.BasePath)) (Some (base_uri r));
                                     hudi_options r !! k; when (is_hudi_key k) (options r !! k)] /\
  storage_options r' !! k = first_some [storage_options r !! k; when (negb (is_hudi_key k)) (options r !! k)].
Proof.
  cbv zeta. unfold resolve_user_provided_options. pose proof (split_options_lookup (options r) k) as H.
  destruct (split_hudi_options_from_others _) as [h o]. destruct H as [Hh Ho]. cbn.
  rewrite !extend_if_absent_lookup, Hh, Ho, !first_some_cons, lookup_insert. split; [|done].
  unfold when at 2. case_decide as E; [subst; by rewrite bool_decide_true|by rewrite bool_decide_false by congruence].
Qed.

Lemma resolve_options_files r r' : resolve_options r = Ok r' -> exists properties globals, files_read r properties globals /\
  validate_configs (hudi_options r') = Ok tt /\
  forall k, hudi_options r' !! k =
      first_some [properties !! k; when (bool_decide (k = TableConfig.as_ref TableConfig.BasePath)) (Some (base_uri r));
                  hudi_options r !! k; when (is_hudi_key k) (options r !! k); when (is_hudi_key k) (globals !! k)] /\
    storage_options r' !! k =
      first_some [storage_options r !! k; when (negb (is_hudi_key k)) (options r !! k); env_options env_vars !! k].
Proof.
  unfold resolve_options. intros (r1 & H1 & ([] & Hv & [= ->])%res_bind_Ok)%res_bind_Ok. unfold resolve_hudi_options in H1.
  apply res_bind_Ok in H1 as ([file gfile] & Hopen & H1). apply res_bind_Ok in H1 as (m1 & Hp & H1).
  apply res_bind_Ok in H1 as (m2 & Hg & [= <-]). apply res_bind_Ok in Hp as (data & -> & Hp).
  apply res_bind_Ok in Hp as (properties & Hprops & [= <-]).
  exists properties, (match gfile with Ok d => match parse_data_for_options d global_separators with Ok m => m | _ => ∅ end | _ => ∅ end).
  split; [by exists data, gfile|]. split; [done|]. intros k. cbn [hudi_options storage_options resolve_env_vars].
  destruct (user_options_lookup r k) as [Hh Hs]. split.
  - assert (Hm2 : m2 !! k = first_some [properties !! k; hudi_options (resolve_user_provided_options r) !! k;
      when (is_hudi_key k) ((match gfile with Ok d => match parse_data_for_options d global_separators with Ok m => m | _ => ∅ end | _ => ∅ end : Options) !! k)]).
    { unfold imbue_global_hudi_configs_if_absent in Hg. rewrite !first_some_cons.
      assert (Hnone : m2 = foldl (fun m e => <[e.1 := e.2]> m) (hudi_options (resolve_user_provided_options r)) (map_to_list properties) ->
        m2 !! k = match properties !! k with Some x => Some x | None => hudi_options (resolve_user_provided_options r) !! k end).
      { intros ->. rewrite extend_map_lookup, !first_some_cons. by repeat case_match. }
      destruct gfile as [d| |]; try done; [destruct (parse_data_for_options d global_separators) as [gm| |]; try done|];
        injection Hg as <-.
      - cbn [hudi_options resolve_env_vars]. rewrite (guarded_fold_lookup is_hudi_key imbue_step) by done.
        rewrite list_to_map_to_list, extend_map_lookup, !first_some_cons. by repeat case_match.
      - rewrite Hnone by done. unfold when. rewrite lookup_empty.
        by repeat case_match.
      - rewrite Hnone by done. unfold when. rewrite lookup_empty.
        by repeat case_match. }
    rewrite Hm2, Hh, !first_some_cons. unfold when. by repeat case_match.
  - rewrite env_fold_lookup, Hs, !first_some_cons. by repeat case_match.
Qed.
End precedence.

(** * Tables that validate *)
Definition key_ok {K} `{ConfigParser K} (c : HudiConfigs) (k : K) : Prop :=
  match get c k with inl _ => True | inr NotFound => key_required k = false | inr _ => False end.

Record supported_table (c : HudiConfigs) : Prop := {
  st_table_keys : forall k : TableConfig.t, key_ok c k;
  st_plan_keys : forall k : PlanConfig.t, key_ok c k;
  st_versions : exists v l, get c TableConfig.TableVersion = inl (VInteger v) /\
    get c TableConfig.TimelineLayoutVersion = inl (VInteger l) /\ (v = 6 /\ l = 1 \/ (v = 8 \/ v = 9) /\ l = 2)%Z;
  st_partition_fields : get_or_default c TableConfig.DropsPartitionFields = Ok (VBoolean false);
  st_merge : get_or_default c TableConfig.RecordMergeStrategy = Ok (VString (merge_strategy_as_ref AppendOnly)) \/
    get_or_default c TableConfig.RecordMergeStrategy = Ok (VString (merge_strategy_as_ref OverwriteWithLatest)) /\
    get_or_default c TableConfig.PopulatesMetaFields = Ok (VBoolean true) /\
    exists v, get c TableConfig.OrderingFields = inl v
}.

Lemma of_parsed_Ok {A} (r : parsed A) a : of_parsed r = Ok a <-> r = inl a.
Proof. destruct r; cbn; split; congruence. Qed.

Lemma validate_ok {K} `{ConfigParser K} c (k : K) : of_parsed (validate k c) = Ok tt <-> key_ok c k.
Proof.
  rewrite of_parsed_Ok. unfold validate, key_ok, get. destruct (parse_value k c) as [|[]]; cbn; try done.
  by destruct (key_required k).
Qed.

Lemma valid_ok {K} `{ConfigParser K} c (l : list K) : valid c l = Ok tt <-> Forall (key_ok c) l.
Proof.
  unfold valid. induction l as [|k l IH]; cbn [res_fold]; [split; by constructor|].
  rewrite list.Forall_cons, <- IH, <- validate_ok. destruct (of_parsed (validate k c)) as [[]| |]; cbn; intuition congruence.
Qed.

Lemma table_iter_all k : k ∈ TableConfig.iter.
Proof. apply (bool_decide_unpack _). by destruct k. Qed.

Lemma all_table_keys c : Forall (key_ok c) TableConfig.iter <-> forall k : TableConfig.t, key_ok c k.
Proof. rewrite list.Forall_forall. split; [intros H k; apply H, table_iter_all|auto]. Qed.

Lemma all_plan_keys c : Forall (key_ok c) PlanConfig.iter <-> forall k : PlanConfig.t, key_ok c k.
Proof. unfold PlanConfig.iter. rewrite list.Forall_singleton. split; [by intros ? []|auto]. Qed.

Lemma merge_strategy_total c : exists m, get_or_default c TableConfig.RecordMergeStrategy = Ok (VString (merge_strategy_as_ref m)).
Proof.
  unfold get_or_default. destruct (parse_value TableConfig.RecordMergeStrategy c) as [v|] eqn:E.
  - apply parse_value_inl in E as (s & _ & (m & _ & ->)%parsed_map_inl). by exists m.
  - cbn. unfold TableConfig.merge_fallback. repeat case_match; by eexists.
Qed.

Lemma bool_lookup {K} `{TypedParser K} (k : K) c : key_kind k = KBoolean -> is_Some (key_default k) ->
  exists b, get_or_default c k = Ok (VBoolean b).
Proof.
  intros Hk Hd. destruct (get_or_default_total k c Hd) as [v Hv]. pose proof (get_or_default_kind _ _ _ Hv) as Hv'.
  rewrite Hk in Hv'. destruct v; try done. by eexists.
Qed.

Lemma int_lookup {K} `{TypedParser K} (k : K) c v : key_kind k = KInteger -> get c k = inl v -> exists z, v = VInteger z.
Proof. intros Hk Hv. pose proof (parse_value_kind _ _ _ Hv) as Hv'. rewrite Hk in Hv'. destruct v; try done. by eexists. Qed.

Lemma merger_validate_ok c : merger_validate_configs c = Ok tt <->
  (get_or_default c TableConfig.RecordMergeStrategy = Ok (VString (merge_strategy_as_ref AppendOnly)) \/
   get_or_default c TableConfig.RecordMergeStrategy = Ok (VString (merge_strategy_as_ref OverwriteWithLatest)) /\
   get_or_default c TableConfig.PopulatesMetaFields = Ok (VBoolean true) /\
   exists v, get c TableConfig.OrderingFields = inl v) /\
  exists o, try_get c TableConfig.OrderingFields = inl o.
Proof.
  unfold merger_validate_configs. destruct (merge_strategy_total c) as [m Hm]. rewrite Hm. cbn [res_bind into_string].
  assert (Hs : merge_strategy_from_str (merge_strategy_as_ref m) = inl m) by by destruct m. rewrite Hs. cbn [of_parsed res_bind].
  destruct (bool_lookup TableConfig.PopulatesMetaFields c) as [b Hb]; [done|by eexists|]. rewrite Hb. cbn [res_bind into_bool].
  assert (Ho : forall o, try_get c TableConfig.OrderingFields = inl o ->
    (is_none o = false <-> exists v, get c TableConfig.OrderingFields = inl v)).
  { unfold try_get, get. destruct (parse_value _ c) as [v|[]]; try done; intros o [= <-]; cbn; split; try done; [by eexists|by intros []]. }
  destruct (try_get c TableConfig.OrderingFields) as [o|e]; cbn [of_parsed res_bind].
  - specialize (Ho o eq_refl). destruct m, b; cbn; try destruct (is_none o); cbn; try (rewrite ?bool_decide_true by done); cbn;
      intuition (try congruence); eauto.
  - destruct (negb b && _); split; try done; by intros (_ & o & [=]).
Qed.

Lemma key_ok_try_get c : key_ok c TableConfig.OrderingFields -> exists o, try_get c TableConfig.OrderingFields = inl o.
Proof. unfold key_ok, try_get, get. destruct (parse_value _ c) as [v|[]]; try done; by eexists. Qed.

Lemma required_lookup c (k : TableConfig.t) : key_ok c k -> TableConfig.is_required k = true -> exists v, get c k = inl v.
Proof. unfold key_ok. intros H Hr. destruct (get c k) as [v|[]]; try done; [by exists v|]. cbn in H. congruence. Qed.

(** What [validate_configs] accepts. *)
Lemma validate_configs_spec c :
  validate_configs c = Ok tt <->
  get_or_default c InternalConfig.SkipConfigValidation = Ok (VBoolean true) \/ supported_table c.
Proof.
  unfold validate_configs.
  destruct (bool_lookup InternalConfig.SkipConfigValidation c) as [skip Hskip]; [done|by eexists|].
  rewrite Hskip. cbn [res_bind into_bool]. destruct skip; [split; [by left|done]|].
  destruct (bool_lookup TableConfig.DropsPartitionFields c) as [drops Hdrops]; [done|by eexists|].
  split.
  - intros ([] & Ht%valid_ok & H)%res_bind_Ok. apply res_bind_Ok in H as ([] & Hp%valid_ok & H). right.
    apply res_bind_Ok in H as (tv & Htv & H). apply res_bind_Ok in Htv as (v & Hv%of_parsed_Ok & Htv).
    destruct (bool_decide_reflect (tv ∈ [6; 8; 9]%Z)) as [Hin|]; [|done]. cbn [negb] in H.
    apply res_bind_Ok in H as (lv & Hlv & H). apply res_bind_Ok in Hlv as (l & Hl%of_parsed_Ok & Hlv).
    destruct (bool_decide_reflect (lv = (if decide (8 <= tv) then 2 else 1)%Z)) as [Hlay|]; [|done]. cbn [negb] in H.
    rewrite Hdrops in H. cbn [res_bind into_bool] in H. destruct drops; [done|]. apply merger_validate_ok in H as [H _].
    split; [by apply all_table_keys|by apply all_plan_keys| |done|done].
    destruct v; try done. destruct l; try done. injection Htv as ->. injection Hlv as ->. exists tv, lv. split_and!; try done.
    rewrite Hlay. rewrite !elem_of_cons, elem_of_nil in Hin. case_decide; lia.
  - intros [?|[Ht Hp (v & l & Hv & Hl & Hvl) Hd Hm]]; [congruence|]. assert (drops = false) as -> by congruence.
    pose proof (Ht TableConfig.OrderingFields) as Hord. apply all_table_keys, valid_ok in Ht as Ht'. apply all_plan_keys, valid_ok in Hp. rewrite Ht', Hp. cbn [res_bind].
    rewrite Hv. cbn [of_parsed res_bind into_isize]. rewrite bool_decide_true by (rewrite !elem_of_cons; lia).
    cbn [negb]. rewrite Hl. cbn [of_parsed res_bind into_isize].
    rewrite bool_decide_true by (case_decide; lia). cbn [negb]. rewrite Hdrops. cbn [res_bind into_bool].
    apply merger_validate_ok. split; [done|]. by apply key_ok_try_get.
Qed.

(** The filter of [build] leaves every option but those that select a read. *)
Lemma table_level_lookup (m : Options) k :
  (filter (fun e : string * string => keep_at_table_level e.1 = true) m : Options) !! k = when (keep_at_table_level k) (m !! k).
Proof.
  unfold when. destruct (keep_at_table_level k) eqn:E.
  - destruct (m !! k) as [v|] eqn:Em; [by apply map_lookup_filter_Some|].
    apply map_lookup_filter_None. by left.
  - apply map_lookup_filter_None. right. intros v _. cbn. congruence.
Qed.

Lemma table_keys_kept (k : TableConfig.t) : keep_at_table_level (TableConfig.as_ref k) = true /\
  Forall (fun a => keep_at_table_level a = true) (TableConfig.aliases k).
Proof. by destruct k; (split; [vm_compute|repeat constructor]). Qed.

Lemma plan_keys_kept (k : PlanConfig.t) : keep_at_table_level (PlanConfig.key_str k) = true.
Proof. by destruct k. Qed.

Lemma parse_value_agree {K} `{ConfigParser K} (k : K) c c' : c !! config_key k = c' !! config_key k ->
  Forall (fun a => c !! a = c' !! a) (key_aliases k) -> parse_value k c = parse_value k c'.
Proof.
  unfold parse_value, raw_value. intros <- Ha. destruct (c !! config_key k); [done|]. f_equal.
  induction Ha as [|a l E _ IH]; [done|]. cbn [first_alias]. rewrite <- E. by destruct (c !! a).
Qed.

(** Options that give every key of a table the same value. *)
Definition same_table (c c' : HudiConfigs) : Prop :=
  (forall k : TableConfig.t, parse_value k c = parse_value k c') /\ forall k : PlanConfig.t, parse_value k c = parse_value k c'.

Lemma table_level_same (m : Options) : same_table m (filter (fun e : string * string => keep_at_table_level e.1 = true) m : Options).
Proof.
  split; intros k; apply parse_value_agree.
  - rewrite table_level_lookup. cbn. by destruct (table_keys_kept k) as [-> _].
  - eapply Forall_impl; [exact (proj2 (table_keys_kept k))|]. intros a Ha. by rewrite table_level_lookup, Ha.
  - rewrite table_level_lookup. cbn. by rewrite (plan_keys_kept k).
  - constructor.
Qed.

Lemma get_or_default_agree c c' (k : TableConfig.t) : same_table c c' -> get_or_default c k = get_or_default c' k.
Proof.
  intros [Ht _]. unfold get_or_default. rewrite (Ht k). destruct (parse_value k c'); [done|]. destruct k; try done. cbn.
  pose proof (Ht TableConfig.PopulatesMetaFields) as H1. pose proof (Ht TableConfig.OrderingFields) as H2.
  unfold TableConfig.merge_fallback, get_or_default.
  change (parse_value (P := TableConfig.plain) ?k ?c) with (parse_value (P := TableConfig.parser) k c).
  by rewrite H1, H2.
Qed.

Lemma supported_same c c' : same_table c c' -> supported_table c -> supported_table c'.
Proof.
  intros Hs [Ht Hp Hv Hd Hm]. destruct Hs as [H1 H2] eqn:E. clear E.
  split; [intros k; specialize (Ht k)|intros k; specialize (Hp k)|..]; unfold key_ok, get in *; rewrite <- ?H1, <- ?H2; try done.
  - by rewrite <- (get_or_default_agree _ _ _ Hs).
  - by rewrite <- !(get_or_default_agree _ _ _ Hs).
Qed.

Lemma base_path_wins (m : Options) properties r k rest :
  m !! k = first_some (properties :: when (bool_decide (k = TableConfig.as_ref TableConfig.BasePath)) (Some (base_uri r)) :: rest) ->
  k = TableConfig.as_ref TableConfig.BasePath -> is_Some (m !! k).
Proof. intros -> ->. rewrite !first_some_cons. by destruct properties; eexists. Qed.

(** * The options a table is built with *)
Section build.
Context {O : OptionFiles}.

(** C25: When a table's options resolve, each of its options comes from the first source
    that has it among the properties file, the given base path, the explicit options,
    the generic options and the global file, the last two for [hoodie.] keys only; an
    option that selects a read is left out; each storage option comes from the explicit
    storage options, the generic ones or the environment.  Unless validation was
    switched off, the options validate: the version and the timeline layout fit each
    other, every key is well formed and the merge strategy has what it needs. *)
Theorem table_options_resolved r t so : build_options r = Ok (t, so) -> exists properties globals,
  files_read r properties globals /\
  (forall k, t !! k = when (keep_at_table_level k)
      (first_some [properties !! k; when (bool_decide (k = TableConfig.as_ref TableConfig.BasePath)) (Some (base_uri r));
                   hudi_options r !! k; when (is_hudi_key k) (options r !! k); when (is_hudi_key k) (globals !! k)]) /\
    so !! k = first_some [storage_options r !! k; when (negb (is_hudi_key k)) (options r !! k); env_options env_vars !! k]) /\
  (get_or_default t InternalConfig.SkipConfigValidation = Ok (VBoolean true) \/ supported_table t).
Proof.
  unfold build_options. intros (r' & (properties & globals & Hf & Hv & Hk)%resolve_options_files & [= <- <-])%res_bind_Ok.
  exists properties, globals. split; [done|]. split.
  - intros k. rewrite table_level_lookup. destruct (Hk k) as [-> ->]. done.
  - apply validate_configs_spec in Hv as [Hv|Hv]; [left|right; eapply supported_same; [apply table_level_same|done]].
    rewrite <- Hv. unfold get_or_default. by rewrite (parse_value_agree InternalConfig.SkipConfigValidation _ (hudi_options r'))
      by (rewrite ?table_level_lookup; done).
Qed.
End build.

Module SampleOptions.
Definition text_bytes (s : string) : bytes := String.list_ascii_of_string s.

Definition line (s : string) : string := s +:+ String newline "".

(** A properties file and a global file. *)
Definition properties_file : string :=
  line "# written by a table service" +:+ line "hoodie.table.name=trips" +:+ line "hoodie.table.type = COPY_ON_WRITE " +:+
  line "hoodie.table.version=8" +:+ line "hoodie.timeline.layout.version=2" +:+ line "hoodie.read.query.type=incremental".

Definition global_file : string := line "hoodie.table.name  other" +:+ line "hoodie.plan.listing.parallelism=4" +:+ line "x=y".

Definition sample_files : OptionFiles := {|
  open_storage _ _ := Ok (Ok (text_bytes properties_file), Ok (text_bytes global_file));
  env_vars := [("HOODIE_ENV_fs_DOT_key", "k"); ("PATH", "/bin"); ("AWS_REGION", "eu")]
|}.

Definition resolver : OptionResolver :=
  with_options [("hoodie.table.name", "generic"); ("aws_region", "us"); ("hoodie.read.stream.batch_size", "7")]
    (with_hudi_options [("hoodie.table.name", "explicit")] (resolver_new "/tmp/trips")).

Definition built : res (HudiConfigs * Options) := build_options (O := sample_files) resolver.

Definition table : HudiConfigs := match built with Ok (t, _) => t | _ => ∅ end.
Definition storage : Options := match built with Ok (_, so) => so | _ => ∅ end.

(** The properties file names the table, what it says of queries is left out, and the
    caller's region stands before the environment's. *)
Example sample_table : map (fun k => table !! k)
    ["hoodie.table.name"; "hoodie.base.path"; "hoodie.read.query.type"; "hoodie.read.stream.batch_size";
     "hoodie.plan.listing.parallelism"; "x"] =
  [Some "trips"; Some "/tmp/trips"; None; Some "7"; Some "4"; None] /\
  map (fun k => storage !! k) ["fs.key"; "aws_region"; "path"] = [Some "k"; Some "us"; None].
Proof. split; vm_compute; reflexivity. Qed.

(** A space ends the key: a sign after it stays in the value. *)
Example global_value_keeps_the_sign :
  (fun m : Options => m !! "hoodie.plan.listing.parallelism") <$>
    (match parse_data_for_options (text_bytes "hoodie.plan.listing.parallelism = 4") global_separators with
     | Ok m => Some m | _ => None end) = Some (Some "= 4").
Proof. vm_compute. reflexivity. Qed.

Lemma table_options_resolved_witness :
  built = Ok (table, storage) /\ exists properties globals, files_read (O := sample_files) resolver properties globals.
Proof.
  assert (H : built = Ok (table, storage)) by (vm_compute; reflexivity). split; [exact H|].
  destruct (table_options_resolved (O := sample_files) resolver table storage H) as (p & g & Hf & _). by exists p, g.
Defined.
End SampleOptions.
