(* ===== verification/Admission.v ===== *)
(** How many file slices a read holds at once: crates/core/src/file_group/admission.rs,
    util/collection.rs ([split_into_chunks]) and util/concurrency.rs.

    The memory a slice takes is estimated from its log bytes, and a budget divided by
    the estimate bounds the slices in flight.  A bounded read starts a chunk of tasks,
    waits for all of them and starts the next: [step] lets the tasks of a chunk complete
    in any order. *)
From stdpp Require Import base gmap sets list strings sorting numbers relations.
From S2P Require Import Prelude RustStr.
Local Open Scope res_scope.

(** * Estimates *)
Section admission.
Local Open Scope Z_scope.

Definition u64_max : Z := 18446744073709551615.

Definition saturating_add (a b : Z) : Z := Z.min (a + b) u64_max.
Definition saturating_mul (a b : Z) : Z := Z.min (a * b) u64_max.

Definition STREAMING_WORKING_SET_BYTES : Z := 33 * 1024 * 1024.
Definition LOG_EXPANSION : Z := 4.

Definition estimated_slice_bytes (log_bytes : Z) : Z :=
  saturating_add STREAMING_WORKING_SET_BYTES (saturating_mul log_bytes LOG_EXPANSION).

(** [Iterator::max] on integers *)
Definition max_of (l : list Z) : option Z :=
  match l with [] => None | x :: l => Some (foldl Z.max x l) end.

Definition slices_in_flight (budget_bytes : option Z) (partitions : Z) (slice_log_bytes : list (option Z))
    (configured_max : Z) : Z :=
  let configured_max := Z.max configured_max 1 in
  match budget_bytes with
  | None => configured_max
  | Some budget =>
      if existsb (fun b => match b with None => true | Some _ => false end) slice_log_bytes then 1
      else
        let share := budget / Z.max partitions 1 in
        let per_slice := default (estimated_slice_bytes 0) (max_of (estimated_slice_bytes <$> omap id slice_log_bytes)) in
        let admitted := share / Z.max per_slice 1 in
        Z.min (Z.max admitted 1) configured_max
  end.
End admission.

(** * Chunks *)

(** [items.chunks(size)] *)
Fixpoint chunks_loop {A} (fuel size : nat) (items : list A) : list (list A) :=
  match fuel, items with
  | _, [] | O, _ => []
  | S fuel, _ => take size items :: chunks_loop fuel size (drop size items)
  end.

Definition chunks {A} (size : nat) (items : list A) : list (list A) := chunks_loop (length items) size items.

Definition div_ceil (a b : nat) : nat := (a + (b - 1)) / b.

Definition split_into_chunks {A} (items : list A) (num_splits : nat) : list (list A) :=
  match items with
  | [] => []
  | _ => chunks (div_ceil (length items) (Nat.max 1 num_splits)) items
  end.

Lemma chunks_loop_concat {A} fuel size (items : list A) : (length items <= fuel)%nat -> (0 < size)%nat ->
  concat (chunks_loop fuel size items) = items.
Proof.
  revert items. induction fuel as [|fuel IH]; intros [|x items] Hf Hs; try done; [cbn in Hf; lia|].
  cbn [chunks_loop concat]. rewrite IH; [apply take_drop| |done]. rewrite length_drop. cbn in *. lia.
Qed.

Lemma chunks_loop_length {A} fuel size (items : list A) : Forall (fun c => length c <= size)%nat (chunks_loop fuel size items).
Proof.
  revert items. induction fuel as [|fuel IH]; intros [|x items]; constructor; [|apply IH]. rewrite length_take. lia.
Qed.

Lemma chunks_loop_nonempty {A} fuel size (items : list A) : (0 < size)%nat ->
  Forall (fun c => c <> []) (chunks_loop fuel size items).
Proof.
  intros Hs. revert items. induction fuel as [|fuel IH]; intros [|x items]; constructor; [|apply IH]. by destruct size; [lia|].
Qed.

Lemma chunks_concat {A} size (items : list A) : (0 < size)%nat -> concat (chunks size items) = items.
Proof. by apply chunks_loop_concat. Qed.

(** The number of chunks of a given size. *)
Lemma chunks_loop_count {A} fuel size (items : list A) : (0 < size)%nat -> (length items <= fuel)%nat ->
  length (chunks_loop fuel size items) = div_ceil (length items) size.
Proof.
  intros Hs. unfold div_ceil. revert items. induction fuel as [|fuel IH]; intros [|x items] Hf; cbn [chunks_loop length].
  - symmetry. apply Nat.div_small. lia.
  - cbn in Hf. lia.
  - symmetry. apply Nat.div_small. lia.
  - rewrite IH; [|rewrite length_drop; cbn in *; lia]. rewrite length_drop. cbn [length].
    destruct (Nat.le_gt_cases (S (length items)) size) as [H|H].
    + replace (S (length items) - size)%nat with O by lia.
      rewrite (Nat.div_small (0 + (size - 1)) size) by lia.
      apply (Nat.div_unique _ _ 1 (length items)); lia.
    + replace (S (length items) + (size - 1))%nat with (S (length items) - size + (size - 1) + 1 * size)%nat by lia.
      rewrite Nat.div_add by lia. lia.
Qed.

Lemma div_ceil_div_ceil n k : (0 < n)%nat -> (0 < k)%nat -> (0 < div_ceil n k)%nat /\ (div_ceil n (div_ceil n k) <= k)%nat.
Proof.
  intros Hn Hk. unfold div_ceil. set (c := (n + (k - 1)) / k).
  assert (Hc : (n <= k * c)%nat).
  { pose proof (Nat.div_mod (n + (k - 1)) k). pose proof (Nat.mod_upper_bound (n + (k - 1)) k). unfold c. lia. }
  assert (Hc0 : (0 < c)%nat) by nia. split; [done|].
  apply Nat.lt_succ_r, Nat.Div0.div_lt_upper_bound. nia.
Qed.

(** * Running tasks *)
Section tasks.
Context {T R : Type} (op : T -> res R).

(** [bounded_in_order] when the tasks of each chunk complete in order. *)
Definition run_chunk (out : list R) (chunk : list T) : res (list R) :=
  let? l := res_mapM op chunk in Ok (out ++ l).

Definition bounded_in_order (items : list T) (concurrency : nat) : res (list R) :=
  res_fold run_chunk (chunks (Nat.max concurrency 1) items) [].

(** A run: what finished chunks gave, the tasks of the current chunk, each running or
    done, and the chunks not started. *)
Inductive run :=
  | Running (out : list R) (slots : list (T + R)) (waiting : list (list T))
  | Finished (out : list R)
  | Aborted (e : CoreError)
  | Panicked.

Definition done_slot (s : T + R) : option R := match s with inr r => Some r | inl _ => None end.

Definition running (s : T + R) : bool := match s with inl _ => true | inr _ => false end.

Definition in_flight (s : run) : nat :=
  match s with Running _ slots _ => length (List.filter running slots) | _ => 0 end.

Inductive step : run -> run -> Prop :=
  | step_complete out slots waiting i t r : slots !! i = Some (inl t) -> op t = Ok r ->
      step (Running out slots waiting) (Running out (<[i := inr r]> slots) waiting)
  | step_error out slots waiting i t e : slots !! i = Some (inl t) -> op t = Err e ->
      step (Running out slots waiting) (Aborted e)
  | step_panic out slots waiting i t : slots !! i = Some (inl t) -> op t = Panic ->
      step (Running out slots waiting) Panicked
  | step_next out rs c waiting :
      step (Running out (inr <$> rs) (c :: waiting)) (Running (out ++ rs) (inl <$> c) waiting)
  | step_finish out rs : step (Running out (inr <$> rs) []) (Finished (out ++ rs)).

Definition start (items : list T) (concurrency : nat) : run := Running [] [] (chunks (Nat.max concurrency 1) items).

(** ** What a run keeps *)
Definition slot_of (t : T) (s : T + R) : Prop := s = inl t \/ exists r, s = inr r /\ op t = Ok r.

Definition run_ok (items : list T) (n : nat) (s : run) : Prop :=
  match s with
  | Running out slots waiting => exists done current, items = done ++ current ++ concat waiting /\
      res_mapM op done = Ok out /\ Forall2 slot_of current slots /\ (length slots <= n)%nat /\
      Forall (fun c => length c <= n)%nat waiting
  | Finished out => res_mapM op items = Ok out
  | Aborted e => exists t, t ∈ items /\ op t = Err e
  | Panicked => exists t, t ∈ items /\ op t = Panic
  end.

Lemma slot_at current slots i t : Forall2 slot_of current slots -> slots !! i = Some (inl t) -> current !! i = Some t.
Proof.
  intros H Hi. destruct (Forall2_lookup_r _ _ _ _ _ H Hi) as (t' & Ht & [[= ->]|(r & [=] & _)]). done.
Qed.

Lemma slots_done current rs : Forall2 slot_of current (inr <$> rs) -> res_mapM op current = Ok rs.
Proof.
  rewrite Forall2_fmap_r. intros H. apply res_mapM_Ok. eapply Forall2_impl; [exact H|].
  intros t r [[=]|(r' & [= ->] & ?)]. done.
Qed.

Lemma mapM_app l1 l2 o1 o2 : res_mapM op l1 = Ok o1 -> res_mapM op l2 = Ok o2 -> res_mapM op (l1 ++ l2) = Ok (o1 ++ o2).
Proof. rewrite !res_mapM_Ok. apply Forall2_app. Qed.

Lemma run_ok_start items concurrency : run_ok items (Nat.max concurrency 1) (start items concurrency).
Proof.
  exists [], []. cbn. rewrite chunks_concat by lia. split_and!; try done; [lia|apply chunks_loop_length].
Qed.

Lemma run_ok_step items n s s' : step s s' -> run_ok items n s -> run_ok items n s'.
Proof.
  destruct 1 as [out slots waiting i t r Hi Hr|out slots waiting i t e Hi He|out slots waiting i t Hi Hp|out rs c waiting|out rs];
    intros (done & current & -> & Hd & Hc & Hl & Hw); cbn.
  - exists done, current. rewrite length_insert. split_and!; try done.
    assert (Ht := slot_at current slots i t Hc Hi). assert (E : <[i := t]> current = current) by by apply list_insert_id. rewrite <- E.
    apply Forall2_insert; [done|]. right. by exists r.
  - exists t. split; [|done]. apply (slot_at current) in Hi; [|done]. apply list_elem_of_lookup_2 in Hi.
    rewrite !elem_of_app. by right; left.
  - exists t. split; [|done]. apply (slot_at current) in Hi; [|done]. apply list_elem_of_lookup_2 in Hi.
    rewrite !elem_of_app. by right; left.
  - apply list.Forall_cons in Hw as [Hw1 Hw]. exists (done ++ current), c. rewrite length_fmap. cbn [concat].
    split_and!; try done; [by rewrite <- app_assoc|apply mapM_app; [done|by apply slots_done]|].
    rewrite Forall2_fmap_r. apply Forall_Forall2_diag, list.Forall_forall. intros t _. by left.
  - cbn [concat]. rewrite app_nil_r. apply mapM_app; [done|by apply slots_done].
Qed.

(** ** A run goes on until it is over *)
Lemma slots_split (slots : list (T + R)) : (exists i t, slots !! i = Some (inl t)) \/ exists rs, slots = inr <$> rs.
Proof.
  induction slots as [|[t|r] slots IH]; [by right; exists []|by left; exists 0%nat, t|].
  destruct IH as [(i & t & H)|[rs ->]]; [by left; exists (S i), t|by right; exists (r :: rs)].
Qed.

Lemma run_progress out slots waiting : exists s', step (Running out slots waiting) s'.
Proof.
  destruct (slots_split slots) as [(i & t & H)|[rs ->]].
  - destruct (op t) eqn:E; eexists; [by eapply step_complete|by eapply step_error|by eapply step_panic].
  - destruct waiting; eexists; [apply step_finish|apply step_next].
Qed.

Definition tasks_left (s : run) : nat :=
  match s with
  | Running _ slots waiting => S (length (List.filter running slots) + length (concat waiting) + length waiting)
  | _ => 0
  end.

Lemma running_insert slots i t r : slots !! i = Some (inl t) ->
  length (List.filter running slots) = S (length (List.filter running (<[i := inr r]> slots))).
Proof.
  revert i. induction slots as [|s slots IH]; intros [|i]; cbn; try done.
  - by intros [= ->].
  - intros H. destruct (running s); cbn; by rewrite (IH i H).
Qed.

Lemma running_all (c : list T) : List.filter running (inl <$> c) = inl <$> c.
Proof. induction c as [|t c IH]; [done|]. cbn. by f_equal. Qed.

Lemma running_none (rs : list R) : List.filter running (inr <$> rs) = [].
Proof. by induction rs. Qed.

Lemma step_measure s s' : step s s' -> (tasks_left s' < tasks_left s)%nat.
Proof.
  destruct 1 as [out slots waiting i t r Hi Hr| | |out rs c waiting|out rs]; cbn -[concat]; try lia.
  - rewrite (running_insert _ _ _ r Hi). lia.
  - rewrite running_all, running_none, length_fmap. cbn. rewrite length_app. lia.
Qed.

Lemma run_stops s : sn step s.
Proof.
  induction s as [s IH] using (well_founded_ind (well_founded_ltof _ tasks_left)).
  constructor. intros s' Hs. apply IH. unfold ltof. by apply step_measure.
Qed.

Lemma mapM_app_eq l1 l2 : res_mapM op (l1 ++ l2) = let? a := res_mapM op l1 in let? b := res_mapM op l2 in Ok (a ++ b).
Proof.
  induction l1 as [|t l1 IH]; cbn; [by destruct (res_mapM op l2)|]. destruct (op t); cbn; [|done..].
  rewrite IH. destruct (res_mapM op l1); cbn; [|done..]. by destruct (res_mapM op l2).
Qed.

Lemma run_chunks_eq cs out : res_fold run_chunk cs out = let? l := res_mapM op (concat cs) in Ok (out ++ l).
Proof.
  revert out. induction cs as [|c cs IH]; intros out; cbn [res_fold concat]; [by cbn; rewrite app_nil_r|].
  unfold run_chunk at 1. rewrite mapM_app_eq. destruct (res_mapM op c); cbn; [|done..]. rewrite IH.
  destruct (res_mapM op (concat cs)); cbn; [|done..]. by rewrite app_assoc.
Qed.

Lemma bounded_in_order_eq items concurrency : bounded_in_order items concurrency = res_mapM op items.
Proof.
  unfold bounded_in_order. rewrite run_chunks_eq, chunks_concat by lia. by destruct (res_mapM op items).
Qed.

Lemma running_length (slots : list (T + R)) : (length (List.filter running slots) <= length slots)%nat.
Proof. induction slots as [|s slots IH]; cbn; [lia|]. destruct (running s); cbn; lia. Qed.

(** ** The run with its tasks in order *)

(** How a run whose results are known is over. *)
Definition over (r : res (list R)) : run :=
  match r with Ok out => Finished out | Err e => Aborted e | Panic => Panicked end.

Lemma tasks_in_order out waiting ts : forall rs,
  rtc step (Running out ((inr <$> rs) ++ (inl <$> ts)) waiting)
    match res_mapM op ts with Ok rs' => Running out (inr <$> rs ++ rs') waiting | Err e => Aborted e | Panic => Panicked end.
Proof.
  induction ts as [|t ts IH]; intros rs; cbn [res_mapM fmap list_fmap]; [by rewrite !app_nil_r|].
  assert (Ht : ((inr <$> rs) ++ inl t :: (inl <$> ts) : list (T + R)) !! length rs = Some (inl t)).
  { by rewrite lookup_app_r, length_fmap, Nat.sub_diag by (by rewrite length_fmap). }
  destruct (op t) as [r|e|] eqn:E; cbn [res_bind]; [|by apply rtc_once; eapply step_error|by apply rtc_once; eapply step_panic].
  eapply rtc_l; [by eapply step_complete|]. specialize (IH (rs ++ [r])).
  rewrite fmap_app, <- app_assoc in IH. rewrite insert_app_r_alt, length_fmap, Nat.sub_diag by (by rewrite length_fmap).
  cbn in *. destruct (res_mapM op ts) as [rs'| |]; cbn in *; [|done..]. by rewrite <- app_assoc in IH.
Qed.

Lemma chunks_in_order waiting : forall out c,
  rtc step (Running out (inl <$> c) waiting) (over (res_fold run_chunk (c :: waiting) out)).
Proof.
  induction waiting as [|c' waiting IH]; intros out c; [set (w := [])|set (w := c' :: waiting)]; cbn [res_fold];
    unfold run_chunk at 1; pose proof (tasks_in_order out w c []) as H; destruct (res_mapM op c) as [rs|e|];
    cbn in *; try done; (etrans; [exact H|]).
  - apply rtc_once, step_finish.
  - eapply rtc_l; [apply step_next|]. apply IH.
Qed.

(** C26: However the tasks of a bounded read interleave, the run ends.  At any moment at
    most the configured number of them -- one, where that is zero -- is in flight; a run
    that is not over can go on; a finished run holds the results of all items in the order
    of the items; a run is aborted only by an error of one of them, and panics only where
    one does.  What the chunks come to with the tasks of each completing in order is the
    outcome of one of these runs. *)
Theorem bounded_reads_complete (items : list T) (concurrency : nat) :
  sn step (start items concurrency) /\
  (forall s, rtc step (start items concurrency) s ->
    (in_flight s <= Nat.max concurrency 1)%nat /\
    match s with
    | Running _ _ _ => exists s', step s s'
    | Finished out => res_mapM op items = Ok out /\ bounded_in_order items concurrency = Ok out
    | Aborted e => exists t, t ∈ items /\ op t = Err e
    | Panicked => exists t, t ∈ items /\ op t = Panic
    end) /\
  rtc step (start items concurrency) (over (bounded_in_order items concurrency)).
Proof.
  split; [apply run_stops|]. split; [|exact (chunks_in_order _ [] [])]. intros s Hs.
  assert (Hok : run_ok items (Nat.max concurrency 1) s).
  { pose proof (run_ok_start items concurrency) as H0. induction Hs; [done|]. by eauto using run_ok_step. }
  destruct s as [out slots waiting|out|e|]; cbn; split; try done; try lia.
  - destruct Hok as (? & ? & _ & _ & _ & Hl & _). pose proof (running_length slots). lia.
  - apply run_progress.
  - split; [done|]. by rewrite bounded_in_order_eq.
Qed.
End tasks.

(** * What is admitted *)
Section admitted.
Local Open Scope Z_scope.

Lemma foldl_max_ge l x : x <= foldl Z.max x l /\ forall y, y ∈ l -> y <= foldl Z.max x l.
Proof.
  revert x. induction l as [|z l IH]; intros x; cbn [foldl]; [split; [lia|by intros y ?%not_elem_of_nil]|].
  destruct (IH (Z.max x z)) as [H1 H2]. split; [lia|]. intros y [->|Hy]%elem_of_cons; [lia|by apply H2].
Qed.

Lemma max_of_ge l x : x ∈ l -> exists m, max_of l = Some m /\ x <= m.
Proof.
  destruct l as [|y l]; [by intros ?%not_elem_of_nil|]. intros H. eexists. split; [done|].
  destruct (foldl_max_ge l y) as [H1 H2]. apply elem_of_cons in H as [->|H]; [done|by apply H2].
Qed.

Lemma unknown_size l : existsb (fun b : option Z => match b with None => true | Some _ => false end) l = true <-> None ∈ l.
Proof. rewrite existsb_exists. setoid_rewrite list_elem_of_In. split; [by intros ([] & ? & ?)|intros H; by exists None]. Qed.

(** Shares of a budget rounded down fit it. *)
Lemma admitted_fits n est per p budget : 0 < p -> 0 < per -> est <= per -> 1 < n <= budget / p / per -> n * est * p <= budget.
Proof.
  intros Hp Hper He Hn. pose proof (Z.mul_div_le (budget / p) per Hper) as H1. pose proof (Z.mul_div_le budget p Hp) as H2.
  assert (n * per <= budget / p) by nia. assert (n * per * p <= budget) by nia. nia.
Qed.

(** The slices in flight are at least one and at most the configured ceiling, which
    is what they are without a budget; where the size of some slice is not known one is
    admitted; and when more than one is, as many of the most expensive slices, on every
    partition, fit the budget by the estimate. *)
Theorem slices_in_flight_bounded (budget : option Z) (partitions : Z) (sizes : list (option Z)) (configured_max : Z) :
  let n := slices_in_flight budget partitions sizes configured_max in
  1 <= n <= Z.max configured_max 1 /\
  match budget with
  | None => n = Z.max configured_max 1
  | Some budget => (None ∈ sizes -> n = 1) /\
      (1 < n -> forall b, Some b ∈ sizes -> n * estimated_slice_bytes b * Z.max partitions 1 <= budget)
  end.
Proof.
  unfold slices_in_flight. destruct budget as [budget|]; [|lia].
  destruct (existsb _ sizes) eqn:E; [split; [lia|]; split; [done|]; intros; lia|].
  split; [lia|]. split; [intros H%unknown_size; congruence|]. intros Hn b Hb.
  destruct (max_of_ge (estimated_slice_bytes <$> omap id sizes) (estimated_slice_bytes b)) as (m & Hmax & Hm).
  { apply list_elem_of_fmap_2, list_elem_of_omap. by exists (Some b). }
  rewrite Hmax in *. cbn [from_option id] in *. set (p := Z.max partitions 1) in *. set (per := Z.max m 1) in *.
  assert (Hp : 0 < p) by lia. assert (Hper : 0 < per) by lia. assert (Hb' : estimated_slice_bytes b <= per) by lia.
  apply (admitted_fits _ _ per); [done..|]. revert Hn. generalize (budget / p / per). lia.
Qed.
End admitted.

(** The items of a split are those given, in order, in at most the number of chunks
    asked for, none of them empty. *)
Theorem split_into_chunks_spec {A} (items : list A) (num_splits : nat) :
  concat (split_into_chunks items num_splits) = items /\
  (length (split_into_chunks items num_splits) <= Nat.max 1 num_splits)%nat /\
  Forall (fun c => c <> []) (split_into_chunks items num_splits).
Proof.
  unfold split_into_chunks. destruct items as [|x items]; [cbn; split_and!; [done|lia|constructor]|].
  destruct (div_ceil_div_ceil (length (x :: items)) (Nat.max 1 num_splits)) as [Hc Hk]; [cbn; lia|lia|].
  split_and!; [by apply chunks_concat| |by apply chunks_loop_nonempty].
  unfold chunks. by rewrite chunks_loop_count.
Qed.
