(* ===== verification/TimelineUtil.v ===== *)
(** Timestamps callers give: crates/core/src/timeline/util.rs, and
    [instant_time_minus_one] of table/mod.rs.

    What a caller names a time with -- a timeline timestamp, an epoch in seconds to
    nanoseconds, an RFC 3339 date -- becomes a timeline timestamp.  [TimelineChrono] has
    the calls of the chrono crate this makes; [CivilCalendar] is an instance on the
    proleptic Gregorian calendar, with the calendar date of any millisecond. *)
From Stdlib Require Import Ascii.
From stdpp Require Import base gmap sets list strings sorting numbers pretty.
From S2P Require Import Prelude RustStr Chrono StrReplace Config Instant.
Local Open Scope res_scope.

Record CalendarFields := mkFields {
  cf_year : Z; cf_month : Z; cf_day : Z; cf_hour : Z; cf_minute : Z; cf_second : Z; cf_millis : Z
}.

Class TimelineChrono {C : Chrono} := {
  (** [DateTime::from_timestamp(secs, nsecs)] *)
  from_timestamp_parts : Z -> Z -> option datetime;
  (** [DateTime::parse_from_rfc3339] *)
  parse_from_rfc3339 : string -> option datetime;
  (** the fields at UTC and in the local zone *)
  utc_fields : datetime -> CalendarFields;
  local_zone_fields : datetime -> CalendarFields;
  (** [checked_sub_signed(TimeDelta::milliseconds(1))] *)
  step_back_millis : datetime -> option datetime;
  (** [dt.format(format).to_string()] *)
  format_datetime : string -> datetime -> string
}.

Definition MILLIS_FORMAT : string := "%Y%m%d%H%M%S%3f".
Definition FORMATS : list string := [MILLIS_FORMAT; "%Y%m%d%H%M%S"].

Section util.
Context {C : Chrono} {TC : TimelineChrono}.

(** [parse_timeline_format] *)
Definition parse_timeline_format (ts_str : string) : res string :=
  if (bool_decide (String.length ts_str = 14%nat) || bool_decide (String.length ts_str = 17%nat))
     && str_all is_ascii_digit ts_str
  then Ok ts_str else Err ETimestampParsing.

(** [datetime_to_timeline_format] *)
Definition datetime_to_timeline_format (f : CalendarFields) : string :=
  pad_zeros 4 (cf_year f) +:+ pad_zeros 2 (cf_month f) +:+ pad_zeros 2 (cf_day f) +:+ pad_zeros 2 (cf_hour f)
  +:+ pad_zeros 2 (cf_minute f) +:+ pad_zeros 2 (cf_second f) +:+ pad_zeros 3 (cf_millis f).

Definition fields_in (timezone : TimelineTimezoneValue) (dt : datetime) : CalendarFields :=
  match timezone with UTC => utc_fields dt | Local => local_zone_fields dt end.

(** [parse_epoch_time] *)
Definition parse_epoch_time (ts_str : string) (timezone : TimelineTimezoneValue) : res string :=
  match parse_i64 ts_str with
  | None => Err ETimestampParsing
  | Some ts =>
      if decide (ts < 0)%Z then Err ETimestampParsing
      else
        let len := String.length ts_str in
        let dt :=
          if decide (len <= 10)%nat then from_timestamp_parts ts 0
          else if decide (len <= 13)%nat then from_timestamp_parts (ts / 1000) (ts mod 1000 * 1000000)
          else if decide (len <= 16)%nat then from_timestamp_parts (ts / 1000000) (ts mod 1000000 * 1000)
          else from_timestamp_parts (ts / 1000000000) (ts mod 1000000000) in
        match dt with
        | Some dt => Ok (datetime_to_timeline_format (fields_in timezone dt))
        | None => Err ETimestampParsing
        end
  end.

(** [parse_rfc3339_format] *)
Definition parse_rfc3339_format (ts_str : string) (timezone : TimelineTimezoneValue) : res string :=
  match parse_from_rfc3339 ts_str with
  | Some dt => Ok (datetime_to_timeline_format (fields_in timezone dt))
  | None => Err ETimestampParsing
  end.

(** [format_timestamp] *)
Definition format_timestamp (ts_str timezone : string) : res string :=
  let ts_str := trim ts_str in
  match parse_timeline_format ts_str with
  | Ok formatted_ts => Ok formatted_ts
  | Panic => Panic
  | Err _ =>
      match timezone_from_str timezone with
      | inr _ => Err EConfig
      | inl timezone =>
          match parse_epoch_time ts_str timezone with
          | Ok formatted_ts => Ok formatted_ts
          | Panic => Panic
          | Err _ => parse_rfc3339_format ts_str timezone
          end
      end
  end.

(** The loop over the formats: the instant a millisecond earlier in the first format
    that renders the instant as it was given. *)
Fixpoint stepped_in (formats : list string) (instant_time : string) (dt : datetime) : option string :=
  match formats with
  | [] => None
  | format :: formats =>
      let rest := stepped_in formats instant_time dt in
      if decide (format_datetime format dt = instant_time) then
        match step_back_millis dt with
        | Some stepped =>
            let rendered := format_datetime format stepped in
            if decide (String.length rendered = String.length instant_time) then Some rendered else rest
        | None => rest
        end
      else rest
  end.

(** [instant_time_minus_one] *)
Definition instant_time_minus_one (instant_time : string) : res string :=
  let by_integer :=
    match parse_u64 instant_time with
    | Some n => if decide (n = 0%Z) then instant_time else pad_zeros (String.length instant_time) (n - 1)
    | None => instant_time
    end in
  match parse_datetime instant_time "UTC" with
  | Ok dt => Ok (default by_integer (stepped_in FORMATS instant_time dt))
  | Err _ => Ok by_integer
  | Panic => Panic
  end.
End util.

(** What the crate documents of stepping and rendering. *)
Class TimelineChronoLaws {C : Chrono} (TC : TimelineChrono) : Prop := {
  (** a date renders as it was written *)
  format_date ts d : date_instant ts d -> format_datetime MILLIS_FORMAT d = ts;
  (** and steps back to the millisecond before, but from the start of year zero *)
  step_back_date ts d : date_instant ts d -> str_lt "00000101000000000" ts ->
    exists d' e, step_back_millis d = Some d' /\ date_instant (format_datetime MILLIS_FORMAT d') e /\
      timestamp_millis e = (timestamp_millis d - 1)%Z
}.

Section steps.
Context {C : Chrono} {TC : TimelineChrono} {L : TimelineChronoLaws TC}.

(** The exclusive bound that admits a date instant and nothing earlier. *)
Lemma instant_time_minus_one_date ts d : date_instant ts d -> str_lt "00000101000000000" ts ->
  exists r e, instant_time_minus_one ts = Ok r /\ date_instant r e /\ timestamp_millis e = (timestamp_millis d - 1)%Z.
Proof.
  intros Hd Hts. destruct (step_back_date ts d Hd Hts) as (d' & e & Hs & He & Hm).
  exists (format_datetime MILLIS_FORMAT d'), e. split; [|done]. unfold instant_time_minus_one.
  rewrite (date_instant_parse ts d "UTC") by done. f_equal. cbn [stepped_in FORMATS].
  rewrite decide_True by by apply format_date. rewrite Hs.
  rewrite decide_True; [done|]. by rewrite (di_length _ _ He), (di_length _ _ Hd).
Qed.
End steps.

(** * The calendar date of a millisecond *)
Module CivilCalendar.
Import Civil.
Local Open Scope Z_scope.

(** The first day of a year. *)
Definition year_start (y : Z) : Z := 365 * y + leaps_before y.

Definition year_of (n : Z) : Z :=
  let y := 400 * n / 146097 in
  if n <? year_start y then y - 1 else if year_start (y + 1) <=? n then y + 1 else y.

Definition month_of (y r : Z) : Z :=
  default 1 (find (fun m => days_before_month y m <=? r) [12; 11; 10; 9; 8; 7; 6; 5; 4; 3; 2]).

Definition fields_of (t : Z) : CalendarFields :=
  let n := t / 86400000 + 719528 in
  let y := year_of n in
  let r := n - year_start y in
  let m := month_of y r in
  mkFields y m (r - days_before_month y m + 1)
    (t / 3600000 mod 24) (t / 60000 mod 60) (t / 1000 mod 60) (t mod 1000).

Definition seconds_text (f : CalendarFields) : string :=
  pad_zeros 4 (cf_year f) +:+ pad_zeros 2 (cf_month f) +:+ pad_zeros 2 (cf_day f) +:+ pad_zeros 2 (cf_hour f)
  +:+ pad_zeros 2 (cf_minute f) +:+ pad_zeros 2 (cf_second f).

#[global] Instance calendar : TimelineChrono (C := civil) := {|
  from_timestamp_parts s n := @from_timestamp_millis civil (1000 * s + n / 1000000);
  parse_from_rfc3339 _ := None;
  utc_fields := fields_of;
  local_zone_fields := fields_of;
  step_back_millis t := if - max_millis <? t then Some (t - 1) else None;
  format_datetime f t :=
    if decide (f = MILLIS_FORMAT) then seconds_text (fields_of t) +:+ pad_zeros 3 (cf_millis (fields_of t))
    else seconds_text (fields_of t)
|}.

Example leap_millis : fields_of 1709251199999 = mkFields 2024 2 29 23 59 59 999.
Proof. reflexivity. Qed.

Lemma year_of_spec n : year_start (year_of n) <= n < year_start (year_of n + 1).
Proof.
  unfold year_of. set (y := 400 * n / 146097).
  assert (Hy : 146097 * y <= 400 * n < 146097 * y + 146097).
  { pose proof (Z.div_mod (400 * n) 146097). pose proof (Z.mod_pos_bound (400 * n) 146097). lia. }
  clearbody y. pose proof (leaps_step y) as H1. pose proof (leaps_step (y + 1)) as H2. pose proof (leaps_step (y - 1)) as H3.
  assert (Hlow : year_start (y - 1) <= n).
  { unfold year_start, leaps_before. Z.to_euclidean_division_equations. lia. }
  assert (Hhigh : n < year_start (y + 2)).
  { unfold year_start, leaps_before. Z.to_euclidean_division_equations. lia. }
  destruct (Z.ltb_spec n (year_start y)); [|destruct (Z.leb_spec (year_start (y + 1)) n)].
  - replace (y - 1 + 1) with y by lia. lia.
  - replace (y + 1 + 1) with (y + 2) by lia. lia.
  - lia.
Qed.

Lemma month_of_spec y r : 0 <= r < 365 + (if leap y then 1 else 0) ->
  let m := month_of y r in 1 <= m <= 12 /\ days_before_month y m <= r < days_before_month y m + days_in_month y m.
Proof.
  intros Hr. unfold month_of, days_in_month. cbn -[leap].
  repeat match goal with |- context [if ?a <=? ?b then _ else _] => destruct (Z.leb_spec a b) end; cbn -[leap]; destruct (leap y); lia.
Qed.

(** ** Dates of four-digit years *)
Definition first_milli : Z := - 62167219200000.
Definition last_milli : Z := 253402300799999.

Lemma fields_of_spec t : first_milli <= t <= last_milli -> let f := fields_of t in
  valid_date (cf_year f) (cf_month f) (cf_day f) = true /\ cf_year f < 10000 /\
  0 <= cf_hour f < 24 /\ 0 <= cf_minute f < 60 /\ 0 <= cf_second f < 60 /\ 0 <= cf_millis f < 1000 /\
  t = 1000 * (((24 * (day_number (cf_year f) (cf_month f) (cf_day f) - 719528) + cf_hour f) * 60 + cf_minute f) * 60
              + cf_second f) + cf_millis f.
Proof.
  intros Ht. unfold fields_of. cbv zeta. cbn [cf_year cf_month cf_day cf_hour cf_minute cf_second cf_millis].
  set (n := t / 86400000 + 719528). pose proof (year_of_spec n) as Hy. set (y := year_of n) in *.
  pose proof (leaps_step y) as Hl. assert (Hn : 0 <= n < 3652425).
  { unfold n, first_milli, last_milli in *. Z.to_euclidean_division_equations. lia. }
  assert (Hr : 0 <= n - year_start y < 365 + (if leap y then 1 else 0)) by (unfold year_start in *; lia).
  destruct (month_of_spec y _ Hr) as [Hm Hd]. set (m := month_of y (n - year_start y)) in *.
  assert (Hyr : 0 <= y < 10000).
  { clear - Hy Hn. clearbody y n. split.
    - assert (~ y < 0); [|lia]. intros H. unfold year_start, leaps_before in Hy. Z.to_euclidean_division_equations. lia.
    - assert (~ 10000 <= y); [|lia]. intros H. unfold year_start, leaps_before in Hy. Z.to_euclidean_division_equations. lia. }
  split_and!; try (apply Z.mod_pos_bound; lia); try lia.
  - apply valid_date_spec. lia.
  - assert (Hdn : day_number y m (n - year_start y - days_before_month y m + 1) = n).
    { unfold day_number, year_start. lia. }
    rewrite Hdn. unfold n. clear. Z.to_euclidean_division_equations. lia.
Qed.

(** ** Texts of dates *)
Lemma pad_zeros_nat w z : 0 <= z -> pad_zeros w z = pad_nat w (Z.to_N z).
Proof. intros H. unfold pad_zeros. by destruct (Z.ltb_spec z 0); [lia|]. Qed.

Lemma pad_length w z : (0 < w)%nat -> 0 <= z < 10 ^ Z.of_nat w -> String.length (pad_zeros w z) = w.
Proof. intros Hw Hz. rewrite pad_zeros_nat by lia. apply length_pad; [done|]. lia. Qed.

Lemma pad_value w z : 0 <= z -> value (pad_zeros w z) = z.
Proof. intros Hz. rewrite pad_zeros_nat by done. unfold value. rewrite parse_pad. lia. Qed.

Lemma pad_digits w z : 0 <= z -> str_all is_ascii_digit (pad_zeros w z) = true.
Proof. intros Hz. rewrite pad_zeros_nat by done. apply pad_nat_digits. Qed.

Lemma field_at a b c from len : String.length a = from -> String.length b = len -> field (a +:+ b +:+ c) from len = value b.
Proof. intros <- <-. unfold field, value. by rewrite str_drop_app, str_take_app by done. Qed.

(** A date of fixed width reads back. *)
Lemma parse_pads y m d h mi sec :
  0 <= y < 10000 -> 0 <= m < 100 -> 0 <= d < 100 -> 0 <= h < 100 -> 0 <= mi < 100 -> 0 <= sec < 100 ->
  let s := pad_zeros 4 y +:+ pad_zeros 2 m +:+ pad_zeros 2 d +:+ pad_zeros 2 h +:+ pad_zeros 2 mi +:+ pad_zeros 2 sec in
  String.length s = 14%nat /\ str_all is_ascii_digit s = true /\ str_drop 12 s = pad_zeros 2 sec /\
  parse s = if valid_date y m d && valid_time h mi sec
            then Some (1000 * (((24 * (day_number y m d - 719528) + h) * 60 + mi) * 60 + sec)) else None.
Proof.
  intros Hy Hm Hd Hh Hmi Hsec s.
  pose proof (pad_length 4 y) as L0. pose proof (pad_length 2 m) as L1. pose proof (pad_length 2 d) as L2.
  pose proof (pad_length 2 h) as L3. pose proof (pad_length 2 mi) as L4. pose proof (pad_length 2 sec) as L5.
  specialize (L0 ltac:(lia) ltac:(lia)). specialize (L1 ltac:(lia) ltac:(lia)). specialize (L2 ltac:(lia) ltac:(lia)).
  specialize (L3 ltac:(lia) ltac:(lia)). specialize (L4 ltac:(lia) ltac:(lia)). specialize (L5 ltac:(lia) ltac:(lia)).
  assert (Hlen : String.length s = 14%nat) by (unfold s; rewrite !str_length_app; lia).
  assert (Hdig : str_all is_ascii_digit s = true) by (unfold s; rewrite !str_all_app, !pad_digits by lia; done).
  assert (F0 : field s 0 4 = y).
  { unfold s. change (pad_zeros 4 y +:+ ?r) with ("" +:+ pad_zeros 4 y +:+ r). rewrite field_at by done. apply pad_value; lia. }
  assert (F1 : field s 4 2 = m) by (unfold s; rewrite field_at by done; apply pad_value; lia).
  assert (F2 : field s 6 2 = d).
  { unfold s. rewrite <- str_app_assoc. rewrite field_at by (rewrite ?str_length_app; lia). apply pad_value; lia. }
  assert (F3 : field s 8 2 = h).
  { unfold s. rewrite <- !(str_app_assoc (pad_zeros 4 y)), <- !str_app_assoc. rewrite !str_app_assoc.
    rewrite <- (str_app_assoc (pad_zeros 4 y)), <- (str_app_assoc (_ +:+ _) (pad_zeros 2 d)).
    rewrite field_at by (rewrite ?str_length_app; lia). apply pad_value; lia. }
  assert (F4 : field s 10 2 = mi).
  { unfold s. rewrite <- (str_app_assoc (pad_zeros 4 y)), <- (str_app_assoc (_ +:+ _) (pad_zeros 2 d)),
      <- (str_app_assoc (_ +:+ _) (pad_zeros 2 h)).
    rewrite field_at by (rewrite ?str_length_app; lia). apply pad_value; lia. }
  assert (E5 : s = (pad_zeros 4 y +:+ pad_zeros 2 m +:+ pad_zeros 2 d +:+ pad_zeros 2 h +:+ pad_zeros 2 mi) +:+ pad_zeros 2 sec).
  { unfold s. by rewrite !str_app_assoc. }
  assert (F5 : field s 12 2 = sec).
  { rewrite E5. rewrite <- (str_app_nil_r (pad_zeros 2 sec)). rewrite field_at by (rewrite ?str_length_app; lia). apply pad_value; lia. }
  split; [done|]. split; [done|]. split.
  - rewrite E5. apply str_drop_app. rewrite !str_length_app. lia.
  - unfold parse. rewrite Hlen, Hdig. cbn [Nat.eqb andb]. by rewrite F0, F1, F2, F3, F4, F5.
Qed.

Lemma render_date t : first_milli <= t <= last_milli -> date_instant (C := civil) (format_datetime MILLIS_FORMAT t) t.
Proof.
  intros Ht. destruct (fields_of_spec t Ht) as (Hv & Hy & Hh & Hmi & Hs & Hms & E). cbn [format_datetime calendar].
  rewrite decide_True by done. unfold seconds_text. destruct (fields_of t) as [y m d h mi sec ms].
  cbn [cf_year cf_month cf_day cf_hour cf_minute cf_second cf_millis] in *.
  pose proof Hv as Hv'. apply valid_date_spec in Hv' as (Hy0 & Hm & Hd).
  assert (Hd31 : d <= 31) by (unfold days_in_month in Hd; repeat case_match; lia).
  destruct (parse_pads y m d h mi sec) as (Hl & Hdig & Hdrop & Hp); [lia..|].
  rewrite Hv in Hp. unfold valid_time in Hp. rewrite !(proj2 (Z.ltb_lt _ _)) in Hp by lia. cbn [andb] in Hp.
  set (s := pad_zeros 4 y +:+ _) in *. pose proof (pad_length 3 ms ltac:(lia) ltac:(lia)) as Hl3.
  assert (Htake : str_take 14 (s +:+ pad_zeros 3 ms) = s) by by apply str_take_app.
  assert (Hdropms : str_drop 14 (s +:+ pad_zeros 3 ms) = pad_zeros 3 ms) by by apply str_drop_app.
  split.
  - rewrite str_length_app. lia.
  - rewrite str_all_app, Hdig, pad_digits by lia. done.
  - rewrite Htake, Hdrop. unfold str_lt. rewrite pad_zeros_nat by lia.
    rewrite (digits_compare _ "60" (Z.to_N sec) 60); [apply N.compare_lt_iff; lia| |apply parse_pad|done|apply pad_nat_digits|done].
    change (String.length "60") with 2%nat. apply length_pad; [lia|]. change (10 ^ N.of_nat 2)%N with 100%N. lia.
  - exists (t - ms), t. rewrite Htake, Hdropms. split; [|split; [|done]].
    + cbn. rewrite Hp. f_equal. lia.
    + rewrite pad_zeros_nat in * by lia. assert (Hm' : parse_magnitude (pad_nat 3 (Z.to_N ms)) = Some (Z.to_N ms)).
      { unfold parse_magnitude. rewrite parse_pad. destruct (pad_nat 3 (Z.to_N ms)); [done|done]. }
      rewrite Hm'. cbn [from_option id]. cbn -[Z.mul]. unfold set_nanosecond.
      rewrite Z2N.id by lia. rewrite (proj2 (Z.leb_le 0 _)), (proj2 (Z.ltb_lt _ _)) by lia. cbn [andb]. f_equal.
      rewrite Z.div_mul by lia. Z.to_euclidean_division_equations. lia.
Qed.

(** A date instant lies in the years that have four digits. *)
Lemma date_instant_range ts d : date_instant (C := civil) ts d -> first_milli <= d <= last_milli.
Proof.
  intros [Hlen Hdig _ (n & n' & Hn & Hn' & ->)]. cbn in Hn, Hn'.
  assert (Hd14 : str_all is_ascii_digit (str_take 14 ts) = true) by by apply str_all_take.
  destruct (parse_fields _ _ Hn) as (y & m & dd & h & mi & sec & Hv & Hh & Hmi & Hs & Hval & ->).
  apply valid_date_spec in Hv as (Hy0 & Hm & Hd).
  assert (Hb : 0 <= value (str_take 14 ts) < 10 ^ 14).
  { pose proof (value_app "" (str_take 14 ts) eq_refl Hd14) as [_ Hb]. rewrite str_length_take, Hlen in Hb. exact Hb. }
  assert (Hy : y < 10000) by lia.
  assert (Hday : 0 <= day_number y m dd < 3652425).
  { pose proof (month_in_year y m Hm) as Hmy. pose proof (leaps_step y) as Hstep. unfold day_number.
    pose proof (leaps_mono 0 y Hy0) as H0. pose proof (leaps_mono (y + 1) 10000 ltac:(lia)) as H1.
    change (leaps_before 0) with 0 in H0. change (leaps_before 10000) with 2425 in H1. lia. }
  unfold set_nanosecond in Hn'. destruct (_ && _) eqn:Eb in Hn'; [|done]. injection Hn' as <-. cbn [from_naive_utc civil]. unfold id.
  apply andb_prop in Eb as [Eb1%Z.leb_le Eb2%Z.ltb_lt].
  set (k := Z.of_N _ * 1000000) in *. assert (Hk : 0 <= k / 1000000 < 2000) by (Z.to_euclidean_division_equations; lia).
  assert (Hk' : k / 1000000 < 1000).
  { unfold k. rewrite Z.div_mul by lia. destruct (millis_suffix ts Hlen Hdig) as (ms & _ & Hms & Hlt & _).
    rewrite Hms. cbn [from_option id]. clear - Hlt. lia. }
  rewrite (Z.mul_comm 1000), Z.mod_mul by lia. unfold first_milli, last_milli. revert Hk Hk'.
  generalize (k / 1000000) (day_number y m dd) Hday. intros. lia.
Qed.

#[global] Instance calendar_laws : TimelineChronoLaws calendar.
Proof.
  split.
  - intros ts d Hd. pose proof (date_instant_order _ _ _ _ (render_date d (date_instant_range ts d Hd)) Hd) as H.
    cbn [dt_compare civil] in H. rewrite Z.compare_refl in H. by apply str_compare_eq.
  - intros ts d Hd Hts. pose proof (date_instant_range ts d Hd) as Hr.
    assert (H0 : date_instant (C := civil) "00000101000000000" first_milli).
    { split; [done..|]. exists first_milli, first_milli. by vm_compute. }
    pose proof (date_instant_order _ _ _ _ H0 Hd) as H. unfold str_lt in Hts. rewrite Hts in H.
    assert (Hlt : first_milli < d) by exact H.
    exists (d - 1), (d - 1). split; [|split; [apply render_date; lia|done]].
    cbn. rewrite (proj2 (Z.ltb_lt _ _)); [done|]. unfold first_milli, max_millis in *. lia.
Qed.

Example step_over_midnight : instant_time_minus_one (C := civil) "20250713000000000" = Ok "20250712235959999".
Proof. vm_compute. reflexivity. Qed.

Example step_of_a_counter : instant_time_minus_one (C := civil) "00000000000000010" = Ok "00000000000000009".
Proof. vm_compute. reflexivity. Qed.
End CivilCalendar.
