(* ===== verification/Table.v ===== *)
(** A table: crates/core/src/table/mod.rs (options, schemas and the preparation of
    reads), with [is_metadata_table] and [is_metadata_table_enabled] of
    metadata/table/mod.rs.

    [prepare_reader_options] turns what a caller asks into the bounds the readers below
    use.  An incremental window may bound completion times, while files and blocks carry
    request times, so the window is resolved once into the commits it admits. *)
From Stdlib Require Import Ascii.
From stdpp Require Import base gmap sets list strings sorting numbers pretty.
From S2P Require Import Prelude RustStr BTree Files Chrono Config Instant Selector FileGroup Metadata GroupBuilder View Loader Timeline.
From S2P Require Import Expr ArrowFilter KeyGen Partition Listing Options ReadOptions TableOptions Admission TimelineUtil.
Local Open Scope res_scope.

Record Table := mkTable {
  table_configs : HudiConfigs;
  table_storage_options : gmap string string;
  table_timeline : Timeline
}.

Definition EARLIEST_START_TIMESTAMP : string := "19700101000000000".
Definition METADATA_TABLE_PARTITION_FIELD : string := "partition".
Definition FILES_PARTITION_NAME : string := "files".

(** [.expect(..)]: anything but a value panics. *)
Definition expect {A} (r : parsed A) : res A := match r with inl a => Ok a | inr _ => Panic end.

(** * Options of the table *)
Section options.
Context {K : Type} `{ConfigParser K}.

Definition default_string (c : HudiConfigs) (k : K) : res string := res_bind (get_or_default c k) into_string.
Definition default_bool (c : HudiConfigs) (k : K) : res bool := res_bind (get_or_default c k) into_bool.
Definition default_usize (c : HudiConfigs) (k : K) : res Z := res_bind (get_or_default c k) into_usize.
Definition default_list (c : HudiConfigs) (k : K) : res (list string) := res_bind (get_or_default c k) into_list.
End options.

Section accessors.
Variable t : Table.
Let configs := table_configs t.

Definition table_name : res string := res_bind (expect (get configs TableConfig.TableName)) into_string.

Definition table_type : res string := res_bind (expect (get configs TableConfig.TableType)) into_string.

Definition is_mor : res bool :=
  let? ty := table_type in Ok (bool_decide (ty = table_type_as_ref MergeOnRead)).

Definition is_base_file_only (options : ReadOptions) : res bool :=
  let? mor := is_mor in
  if negb mor then Ok true else is_read_optimized options.

Definition timezone : res string := default_string configs TableConfig.TimelineTimezone.

Definition is_metadata_table : res bool :=
  let? base_path := default_string configs TableConfig.BasePath in Ok (is_metadata_table_path base_path).

Definition get_metadata_table_partitions : res (list string) := default_list configs TableConfig.MetadataTablePartitions.

Definition is_metadata_table_enabled : res bool :=
  let? table_version := match get configs TableConfig.TableVersion with inl v => into_isize v | inr _ => Ok 0%Z end in
  if decide (table_version < 8)%Z then Ok false
  else
    let? itself := is_metadata_table in
    if itself : bool then Ok false
    else
      let? partitions := get_metadata_table_partitions in
      let has_files_partition := bool_decide (FILES_PARTITION_NAME ∈ partitions) in
      let? metadata_explicitly_enabled := default_bool configs TableConfig.MetadataTableEnabled in
      Ok (metadata_explicitly_enabled || has_files_partition).

(** [completion_gate_inputs] *)
Definition table_gate_inputs : res (option CompletionGateInputs) :=
  let? v := of_parsed (try_get configs TableConfig.TableVersion) in
  let? table_version := match v with Some v => into_isize v | None => Ok 6%Z end in
  Ok (if decide (table_version < 8)%Z then Some (completion_gate_inputs (table_timeline t)) else None).

(** [window_predates_active_timeline]: whether there is a warning. *)
Definition window_predates_active_timeline (start : string) : bool :=
  match tl_earliest_active_instant (table_timeline t) with Some boundary => str_ltb start boundary | None => false end.

(** ** How much is read at once *)

(** [scan_max_memory_size]: an error is no budget. *)
Definition scan_max_memory_size : res (option Z) :=
  match try_get configs ReadConfig.ScanMaxMemorySize with
  | inl (Some v) => res_map Some (into_usize v)
  | inl None | inr _ => Ok None
  end.

Definition bounded_read_concurrency_from_log_bytes (slice_log_bytes : list (option Z)) : res Z :=
  let? ceiling := default_usize configs ReadConfig.FileSliceReadConcurrency in
  let? budget := scan_max_memory_size in
  Ok (slices_in_flight budget 1 slice_log_bytes (Z.max ceiling 1)).

Definition bounded_read_concurrency (file_slices : list FileSlice.t) : res Z :=
  bounded_read_concurrency_from_log_bytes (FileSlice.log_size_bytes <$> file_slices).

(** [options_for_file_group] *)
Definition options_for_file_group (options : ReadOptions) : res ReadOptions :=
  let? drops := default_bool configs TableConfig.DropsPartitionFields in
  if negb drops || bool_decide (filters options = []) then Ok options
  else
    let? partition_columns := default_list configs TableConfig.PartitionFields in
    Ok (mkReadOptions (List.filter (fun f => negb (bool_decide (field f ∈ partition_columns))) (filters options))
          (projection options) (ReadOptions.hudi_options options)).
End accessors.

(** * Preparing a read *)
Section prepare.
Context {C : Chrono} {TC : TimelineChrono} {SU : SortUnstable Instant instant_le}.
Variable t : Table.

(** [resolve_snapshot_timestamp] *)
Definition resolve_snapshot_timestamp (options : ReadOptions) : res (option string) :=
  match as_of_timestamp options with
  | Some ts => let? tz := timezone t in res_map Some (format_timestamp ts tz)
  | None => Ok (get_latest_commit_timestamp_as_option (table_timeline t))
  end.

(** [resolve_incremental_range] *)
Definition resolve_incremental_range (options : ReadOptions) : res (option (string * string)) :=
  let? tz := timezone t in
  match or_option (end_timestamp options) (get_latest_completion_timestamp_as_option (table_timeline t)) with
  | None => Ok None
  | Some end_ =>
      let? end_ := format_timestamp end_ tz in
      let? start := format_timestamp (default EARLIEST_START_TIMESTAMP (start_timestamp options)) tz in
      Ok (Some (start, end_))
  end.

Definition IncrementalInstantTimes : string := InternalConfig.as_ref InternalConfig.IncrementalInstantTimes.

(** [resolve_incremental_window] *)
Definition resolve_incremental_window (options : ReadOptions) (start end_ : string) : res ReadOptions :=
  let? admitted := get_completed_commits_in_range (table_timeline t) (Some start) (Some end_) in
  let prepared := with_end_timestamp end_ (with_start_timestamp start options) in
  let prepared := with_hudi_option IncrementalInstantTimes (str_join "," (timestamp <$> admitted)) prepared in
  match list.head admitted, list.last admitted with
  | Some first, Some lst =>
      let? below := instant_time_minus_one (timestamp first) in
      Ok (with_end_timestamp (timestamp lst) (with_start_timestamp below prepared))
  | _, _ => Ok prepared
  end.

(** [prepare_reader_options] *)
Definition prepare_reader_options (options : ReadOptions) : res ReadOptions :=
  let options := with_sanitized_timestamps options in
  let? q := query_type options in
  match q with
  | Snapshot =>
      let? ts := resolve_snapshot_timestamp options in
      Ok (match ts with Some ts => with_end_timestamp ts options | None => options end)
  | Incremental =>
      let? range := resolve_incremental_range options in
      match range with
      | Some (start, end_) => resolve_incremental_window options start end_
      | None => Ok options
      end
  end.
End prepare.

(** * Schemas *)

(** What schema/resolver.rs finds of the table, with and without the meta fields. *)
Class SchemaResolver := {
  resolve_schema : Table -> res Schema;
  resolve_data_schema : Table -> res Schema
}.

Section schemas.
Context {SR : SchemaResolver}.

Definition get_schema_inner (t : Table) (includes_meta_fields : bool) : res Schema :=
  if includes_meta_fields then resolve_schema t else resolve_data_schema t.

Definition data_schema_for_read (t : Table) : res Schema :=
  let? populates_meta_fields := default_bool (table_configs t) TableConfig.PopulatesMetaFields in
  get_schema_inner t populates_meta_fields.

Definition get_partition_schema (t : Table) : res Schema :=
  let? is_metadata := is_metadata_table t in
  if is_metadata : bool then Ok [mkField METADATA_TABLE_PARTITION_FIELD Utf8]
  else if is_timestamp_based_keygen (table_configs t) then Ok [mkField PARTITION_PATH_FIELD Utf8]
  else
    let? partition_field_names := default_list (table_configs t) TableConfig.PartitionFields in
    let? schema := get_schema_inner t false in
    project_partition_schema schema partition_field_names.
End schemas.

(** * The commits of a window *)
Lemma try_create_epoch {C : Chrono} s f i : try_create_instant s f = Ok i ->
  exists dt, parse_datetime (timestamp i) (sel_timezone s) = Ok dt /\ epoch_millis i = timestamp_millis dt.
Proof.
  unfold try_create_instant. intros H.
  apply res_bind_Ok in H as ([tp suffix] & _ & H). apply res_bind_Ok in H as ([a st] & _ & H).
  destruct (negb _); [done|]. destruct (negb _); [done|].
  apply res_bind_Ok in H as ([ts ct] & _ & H). apply res_bind_Ok in H as (dt & Hdt & H).
  destruct (match sel_start_datetime s with Some s => dt_lt dt s | None => false end); [done|].
  destruct (match sel_end_datetime s with Some s => dt_le s dt | None => false end); [done|].
  injection H as <-. by exists dt.
Qed.

Lemma sorted_head_last {A} (R : relation A) `{!Reflexive R} l x y i : StronglySorted R l -> list.head l = Some x ->
  list.last l = Some y -> i ∈ l -> R x i /\ R i y.
Proof.
  intros Hs Hx [l' ->]%list.last_Some Hi. split.
  - destruct l' as [|a l']; cbn in Hx; injection Hx as ->.
    + apply list_elem_of_singleton in Hi as ->. done.
    + cbn in Hi. apply elem_of_cons in Hi as [->|Hi]; [done|]. inversion Hs as [|? ? _ Hall]; subst.
      rewrite list.Forall_forall in Hall. by apply Hall.
  - apply elem_of_app in Hi as [Hi| ->%list_elem_of_singleton]; [|done].
    apply (StronglySorted_app_1_elem_of _ _ _ _ _ Hs Hi). by left.
Qed.

#[global] Instance instant_le_refl : Reflexive instant_le.
Proof. intros i. apply instant_le_spec. lia. Qed.

Section window.
Context `{S : Storage} {C : Chrono} {TC : TimelineChrono} {SU : SortUnstable Instant instant_le}.

(** The commits between two request times. *)
Definition requested_commits (t : Table) (start end_ : string) : res (list Instant) :=
  let? selector := completed_actions_in_range DEFAULT_LOADING_ACTIONS (Timeline.hudi_configs (table_timeline t))
                     (Some start) (Some end_) in
  Ok (select selector (completed_commits (table_timeline t))).

(** A completed commit lies at the time its timestamp says. *)
Lemma commit_epoch c tl i : new_from_storage c = Ok tl -> i ∈ completed_commits tl ->
  exists dt, parse_datetime (timestamp i) (get_timezone_from_configs c) = Ok dt /\ epoch_millis i = timestamp_millis dt.
Proof.
  intros (_ & sel & l & Hsel & Hl & Hst)%new_from_storage_state Hi. apply (state_completed _ _ Hst) in Hi as [Hi _].
  destruct (load_instants_eq _ _ _ _ Hl) as (_ & files & ins & _ & Hins & ->).
  rewrite order_instants_perm in Hi. apply (create_instants_elem _ _ _ _ Hins) in Hi as (n & _ & Hn).
  assert (Htz : sel_timezone sel = get_timezone_from_configs c).
  { unfold actions_in_range in Hsel. apply res_bind_Ok in Hsel as (v & _ & Hsel). cbn in Hsel. by injection Hsel as <-. }
  rewrite <- Htz. by eapply try_create_epoch.
Qed.

Lemma selector_admits acts c a b s1 s2 : completed_actions_in_completion_time_range acts c (Some a) (Some b) = Ok s1 ->
  sel_states s2 = [Completed] -> sel_actions s2 = acts ->
  forall i, selected s1 i = true -> should_include_action s2 (action i) && should_include_state s2 (state i) = true.
Proof.
  unfold completed_actions_in_completion_time_range, completed_actions_in_range, actions_in_range.
  intros (s & (v & _ & (d1 & _ & (d2 & _ & [= <-])%res_bind_Ok)%res_bind_Ok)%res_bind_Ok & [= <-])%res_bind_Ok Hst Hac i.
  unfold selected, should_include_action, should_include_state. cbn. rewrite Hst, Hac.
  intros [[_ ?]%andb_prop ?]%andb_prop. by apply andb_true_intro.
Qed.

Lemma in_requested_window c tl first lst start e sel i :
  new_from_storage c = Ok tl -> first ∈ completed_commits tl -> lst ∈ completed_commits tl ->
  parse_datetime start (get_timezone_from_configs c) = Ok e -> (timestamp_millis e < epoch_millis first)%Z ->
  completed_actions_in_range DEFAULT_LOADING_ACTIONS c (Some start) (Some (timestamp lst)) = Ok sel ->
  instant_le first i -> instant_le i lst -> requested_window sel i = true.
Proof.
  intros Htl Hf Hlst He Hlt Hsel H1 H2. destruct (commit_epoch _ _ _ Htl Hlst) as (dl & Hdl & El).
  unfold completed_actions_in_range, actions_in_range in Hsel. apply res_bind_Ok in Hsel as (v & _ & Hsel).
  unfold sel_parse_datetime in Hsel. cbn [opt_traverse] in Hsel. rewrite He, Hdl in Hsel. cbn [res_map res_bind] in Hsel.
  injection Hsel as <-. unfold requested_window. cbn. apply instant_le_spec in H1. apply instant_le_spec in H2.
  apply andb_true_intro. split; [apply Z.ltb_lt|apply Z.leb_le]; lia.
Qed.

Lemma with_option_lookup k v o : ReadOptions.hudi_options (with_hudi_option k v o) !! k = Some v.
Proof. apply lookup_insert_eq. Qed.

Lemma lookup_set_timestamp a b o :
  ReadOptions.hudi_options (with_end_timestamp b (with_start_timestamp a o)) !! IncrementalInstantTimes =
  ReadOptions.hudi_options o !! IncrementalInstantTimes.
Proof. cbn. by rewrite !lookup_insert_ne by done. Qed.

Lemma start_of_window a b o : start_timestamp (with_end_timestamp b (with_start_timestamp a o)) = Some a.
Proof. unfold start_timestamp, with_end_timestamp, with_start_timestamp. by rewrite !option_text_insert. Qed.

Lemma end_of_window a b o : end_timestamp (with_end_timestamp b (with_start_timestamp a o)) = Some b.
Proof. unfold end_timestamp, with_end_timestamp, with_start_timestamp. by rewrite !option_text_insert. Qed.

Lemma start_with_other v o : start_timestamp (with_hudi_option IncrementalInstantTimes v o) = start_timestamp o.
Proof. by apply lookup_insert_ne. Qed.

Lemma end_with_other v o : end_timestamp (with_hudi_option IncrementalInstantTimes v o) = end_timestamp o.
Proof. by apply lookup_insert_ne. Qed.

Lemma window_options t o start end_ p : resolve_incremental_window t o start end_ = Ok p ->
  exists admitted, get_completed_commits_in_range (table_timeline t) (Some start) (Some end_) = Ok admitted /\
    ReadOptions.hudi_options p !! IncrementalInstantTimes = Some (str_join "," (timestamp <$> admitted)) /\
    match list.head admitted, list.last admitted with
    | Some first, Some lst => exists below, instant_time_minus_one (timestamp first) = Ok below /\
        start_timestamp p = Some below /\ end_timestamp p = Some (timestamp lst)
    | _, _ => start_timestamp p = Some start /\ end_timestamp p = Some end_
    end.
Proof.
  unfold resolve_incremental_window. intros (admitted & Ha & H)%res_bind_Ok. exists admitted. split; [done|].
  destruct (list.head admitted) as [first|]; [destruct (list.last admitted) as [lst|]|].
  - apply res_bind_Ok in H as (below & Hb & [= <-]). split; [by rewrite !lookup_set_timestamp, with_option_lookup|].
    exists below. by rewrite end_of_window, start_of_window.
  - injection H as <-. by rewrite with_option_lookup, start_with_other, start_of_window, end_with_other, end_of_window.
  - injection H as <-. by rewrite with_option_lookup, start_with_other, start_of_window, end_with_other, end_of_window.
Qed.

Lemma window_covers `{!TimelineChronoLaws TC} t o start end_ p admitted first d :
  new_from_storage (table_configs t) = Ok (table_timeline t) ->
  timezone_from_str (get_timezone_from_configs (table_configs t)) = inl UTC ->
  resolve_incremental_window t o start end_ = Ok p ->
  get_completed_commits_in_range (table_timeline t) (Some start) (Some end_) = Ok admitted ->
  list.head admitted = Some first -> date_instant (timestamp first) d -> str_lt "00000101000000000" (timestamp first) ->
  ReadOptions.hudi_options p !! IncrementalInstantTimes = Some (str_join "," (timestamp <$> admitted)) /\
  exists start' end' commits, start_timestamp p = Some start' /\ end_timestamp p = Some end' /\
    requested_commits t start' end' = Ok commits /\
    (forall i, i ∈ admitted -> i ∈ commits) /\
    forall i, i ∈ commits -> (epoch_millis first <= epoch_millis i)%Z.
Proof.
  intros Htl Htz (adm & Hadm & Hmask & Hb)%window_options Hadm' Hfirst Hd Hpos. assert (adm = admitted) as -> by congruence.
  rewrite Hfirst in Hb. destruct (list.last admitted) as [lst|] eqn:Hlast.
  2:{ apply list.last_None in Hlast as ->. done. }
  destruct Hb as (below & Hbelow & Hs & He). split; [done|].
  destruct (instant_time_minus_one_date _ _ Hd Hpos) as (r & e & Hr & Hre & Hm). assert (r = below) as -> by congruence.
  destruct (new_from_storage_state _ _ Htl) as (Hc & _ & l & _ & _ & Hst).
  unfold get_completed_commits_in_range in Hadm. apply res_bind_Ok in Hadm as (s1 & Hs1 & [= <-]). rewrite Hc in Hs1.
  rewrite select_spec in * by exact (state_sorted _ _ Hst). set (adm := filter _ _) in *.
  assert (Hsorted : StronglySorted instant_le adm) by (apply filter_strongly_sorted, (state_sorted _ _ Hst)).
  assert (Hin : forall i, i ∈ adm -> i ∈ completed_commits (table_timeline t) /\ selected s1 i = true).
  { intros i Hi. apply list_elem_of_filter in Hi as [? ?]. done. }
  assert (Hf : first ∈ adm) by (destruct adm; [done|]; cbn in Hfirst; injection Hfirst as ->; by left).
  assert (Hl : lst ∈ adm) by (apply list.last_Some in Hlast as [l' ->]; apply elem_of_app; right; by left).
  destruct (commit_epoch _ _ _ Htl (proj1 (Hin _ Hf))) as (df & Hdf & Ef).
  rewrite (date_instant_parse _ d _ Htz Hd) in Hdf. injection Hdf as <-.
  destruct (commit_epoch _ _ _ Htl (proj1 (Hin _ Hl))) as (dl & Hdl & El).
  pose proof (date_instant_parse _ e _ Htz Hre) as Hpe.
  assert (Hv : exists v, get_timeline_layout_version_from_configs (table_configs t) = Ok v).
  { unfold completed_actions_in_completion_time_range, actions_in_range in Hs1.
    apply res_bind_Ok in Hs1 as (s0 & (v & Hv & _)%res_bind_Ok & _). by exists v. }
  destruct Hv as [v Hv].
  assert (Hs2 : exists s2, completed_actions_in_range DEFAULT_LOADING_ACTIONS (table_configs t) (Some below) (Some (timestamp lst)) = Ok s2 /\
    sel_states s2 = [Completed] /\ sel_actions s2 = DEFAULT_LOADING_ACTIONS /\ sel_range_on_completion_time s2 = false /\
    sel_start_datetime s2 = Some e).
  { unfold completed_actions_in_range, actions_in_range. rewrite Hv. cbn [res_bind]. unfold sel_parse_datetime. cbn [opt_traverse].
    rewrite Hpe, Hdl. cbn. by eexists. }
  destruct Hs2 as (s2 & Hs2 & Hst2 & Hac2 & Hrc2 & Hsd2).
  exists below, (timestamp lst), (select s2 (completed_commits (table_timeline t))). split; [done|]. split; [done|].
  assert (Hroc : ranges_on_completion s2 = false) by (unfold ranges_on_completion; by rewrite Hrc2).
  split; [unfold requested_commits; by rewrite Hc, Hs2|]. rewrite select_spec by exact (state_sorted _ _ Hst).
  split; intros i Hi.
  - destruct (Hin i Hi) as [Hi1 Hi2]. apply list_elem_of_filter. split; [|done]. unfold selected. rewrite Hroc.
    rewrite <- andb_assoc. rewrite (selector_admits _ _ _ _ _ s2 Hs1 Hst2 Hac2 i Hi2), andb_true_r.
    destruct (sorted_head_last instant_le adm first lst i Hsorted Hfirst Hlast Hi) as [Hfi Hil].
    eapply in_requested_window; [exact Htl|exact (proj1 (Hin _ Hf))|exact (proj1 (Hin _ Hl))|exact Hpe| |exact Hs2|done..]. lia.
  - apply list_elem_of_filter in Hi as [Hi _]. unfold selected in Hi. rewrite Hroc in Hi.
    apply andb_prop in Hi as [Hi _]. apply andb_prop in Hi as [Hi _]. unfold requested_window in Hi. rewrite Hsd2 in Hi.
    apply andb_prop in Hi as [Hi%Z.ltb_lt _]. lia.
Qed.

(** An incremental window is resolved into request times that cover it.  Whatever
    the window bounds -- completion times on the newer layouts -- the resolved bounds
    are dates, every commit the window admits lies between them, no commit between them
    was requested before the first admitted, and the rows' mask names exactly the
    admitted commits. *)
Theorem incremental_window_covers `{!TimelineChronoLaws TC} t o start end_ p admitted first d :
  new_from_storage (table_configs t) = Ok (table_timeline t) ->
  timezone_from_str (get_timezone_from_configs (table_configs t)) = inl UTC ->
  resolve_incremental_window t o start end_ = Ok p ->
  get_completed_commits_in_range (table_timeline t) (Some start) (Some end_) = Ok admitted ->
  list.head admitted = Some first -> date_instant (timestamp first) d -> str_lt "00000101000000000" (timestamp first) ->
  ReadOptions.hudi_options p !! IncrementalInstantTimes = Some (str_join "," (timestamp <$> admitted)) /\
  exists start' end' commits, start_timestamp p = Some start' /\ end_timestamp p = Some end' /\
    requested_commits t start' end' = Ok commits /\
    (forall i, i ∈ admitted -> i ∈ commits) /\
    forall i, i ∈ commits -> (epoch_millis first <= epoch_millis i)%Z.
Proof. apply window_covers. Qed.
End window.

Module SampleTable.
Import CivilCalendar.
#[local] Existing Instance calendar.
#[local] Instance sorter : SortUnstable Instant instant_le := merge_sort_unstable instant_le.

Definition table : Table := mkTable Timeline.table_configs ∅ Timeline.table_timeline.

(** Completion times from [20240103000050000]: the delta commit requested a day before
    is admitted, and so is the replace commit. *)
Definition window_start : string := "20240103000050000".
Definition window_end : string := "20240106000000000".

Definition prepared : ReadOptions :=
  match resolve_incremental_window (C := Civil.civil) table read_options_new window_start window_end with
  | Ok p => p | _ => read_options_new end.

Definition admitted : list Instant :=
  match get_completed_commits_in_range (C := Civil.civil) (table_timeline table) (Some window_start) (Some window_end) with
  | Ok l => l | _ => [] end.

Definition first_admitted : Instant := default (mkInstant "" None Commit Completed 0) (list.head admitted).

Example resolved_window :
  (start_timestamp prepared, end_timestamp prepared) = (Some "20240101235959999", Some "20240103000000000") /\
  ReadOptions.hudi_options prepared !! IncrementalInstantTimes = Some "20240102000000000,20240103000000000".
Proof. split; vm_compute; reflexivity. Qed.

Lemma incremental_window_covers_witness :
  timestamp <$> admitted = ["20240102000000000"; "20240103000000000"] /\
  exists start' end' commits, start_timestamp prepared = Some start' /\ end_timestamp prepared = Some end' /\
    requested_commits (C := Civil.civil) table start' end' = Ok commits /\ forall i, i ∈ admitted -> i ∈ commits.
Proof.
  split; [vm_compute; reflexivity|].
  destruct (incremental_window_covers (S := Timeline.table_store) (C := Civil.civil) (TC := calendar) table read_options_new
    window_start window_end prepared admitted first_admitted 1704153600000%Z)
    as (_ & start' & end' & commits & H1 & H2 & H3 & H4 & _).
  - exact Timeline.table_opens.
  - vm_compute. reflexivity.
  - vm_compute. reflexivity.
  - vm_compute. reflexivity.
  - vm_compute. reflexivity.
  - split; [vm_compute; reflexivity..|]. do 2 eexists. vm_compute. split_and!; reflexivity.
  - vm_compute. reflexivity.
  - exists start', end', commits. exact (conj H1 (conj H2 (conj H3 H4))).
Defined.
End SampleTable.
