(* ===== verification/MetadataTable.v ===== *)
(** The metadata table: crates/core/src/metadata/table/mod.rs, routing.rs, the decoding
    of v2_reader.rs, and metadata/rollback.rs.

    The metadata table of a table lists its files by partition.  Its [files] partition is
    sharded over file groups by a hash of the key, so a lookup computes the shard the
    writer chose; and of its log blocks only those of valid instants are read.  The
    merged rows of a slice ([read_metadata_rows]) and the Avro decoding of rollbacks are
    parameters. *)
From Stdlib Require Import Ascii.
From stdpp Require Import base gmap sets list strings sorting numbers fin_sets.
From S2P Require Import Prelude RustStr StorageReader LogFormat BTree Files Chrono Config Instant Selector FileGroup Metadata GroupBuilder View Loader Timeline.
From S2P Require Import Expr ArrowFilter Statistics FilePruner KeyGen DatePaths Partition Listing FsView.
From S2P Require Import Options ReadOptions Admission TimelineUtil Table.
Local Open Scope res_scope.

(** * Routing *)
Section hash.
Local Open Scope Z_scope.

(** The UTF-16 units of a text, from its bytes. *)
Fixpoint utf16_units (s : list ascii) : list Z :=
  match s with
  | [] => []
  | c1 :: s1 =>
      let b1 := byte_value c1 in
      if b1 <? 128 then b1 :: utf16_units s1
      else match s1 with
      | [] => []
      | c2 :: s2 =>
          let b2 := byte_value c2 mod 64 in
          if b1 <? 224 then (b1 mod 32 * 64 + b2) :: utf16_units s2
          else match s2 with
          | [] => []
          | c3 :: s3 =>
              let b3 := byte_value c3 mod 64 in
              if b1 <? 240 then ((b1 mod 16 * 64 + b2) * 64 + b3) :: utf16_units s3
              else match s3 with
              | [] => []
              | c4 :: s4 =>
                  let p := ((b1 mod 8 * 64 + b2) * 64 + b3) * 64 + byte_value c4 mod 64 - 65536 in
                  (55296 + p / 1024) :: (56320 + p mod 1024) :: utf16_units s4
              end
          end
      end
  end.

Definition i32_wrap (z : Z) : Z := (z + 2147483648) mod 4294967296 - 2147483648.

Definition wrapping_abs (z : Z) : Z := i32_wrap (Z.abs z).

(** [java_string_hash] *)
Definition java_string_hash (key : string) : Z :=
  foldl (fun h unit => i32_wrap (i32_wrap (h * 31) + unit)) 0 (utf16_units (String.list_ascii_of_string key)).

(** [file_group_index] *)
Definition file_group_index (key : string) (num_file_groups : nat) : nat :=
  if decide (num_file_groups <= 1)%nat then 0%nat
  else
    let hash := java_string_hash key in
    let folded := Z.rem (wrapping_abs hash) (i32_wrap (Z.of_nat num_file_groups)) in
    Z.to_nat (wrapping_abs folded).
End hash.

(** A stable sort by file id. *)
Fixpoint insert_by_id (s : FileSlice.t) (l : list FileSlice.t) : list FileSlice.t :=
  match l with
  | [] => [s]
  | x :: l' => if str_leb (FileSlice.file_id s) (FileSlice.file_id x) then s :: l else x :: insert_by_id s l'
  end.

Definition sort_by_id (l : list FileSlice.t) : list FileSlice.t := foldr insert_by_id [] l.

(** [Vec::dedup] *)
Fixpoint dedup (l : list nat) : list nat :=
  match l with
  | [] => []
  | x :: l => match dedup l with
              | y :: r => if decide (x = y) then y :: r else x :: y :: r
              | [] => [x]
              end
  end.

(** [slices_for_keys]: an index out of range panics. *)
Definition slices_for_keys (slices : list FileSlice.t) (keys : list string) : res (list FileSlice.t) :=
  if bool_decide (keys = []) || bool_decide (length slices <= 1)%nat then Ok slices
  else
    let ordered := sort_by_id slices in
    let wanted := merge_sort Nat.le ((fun k => file_group_index k (length ordered)) <$> keys) in
    res_mapM (fun i => match ordered !! i with Some s => Ok s | None => Panic end) (dedup wanted).

(** * Records of the [files] partition *)

(** A merged row: key, type, and the entries of the map; a [None] is a null. *)
Record MetadataRow := mkMetadataRow {
  row_key : option string;
  row_type : Z;
  row_files : option (list (option string * option (option Z * option bool)))
}.

Definition NON_PARTITIONED_NAME : string := ".".
Definition ALL_PARTITIONS_KEY : string := "__all_partitions__".

Definition normalise_partition (key : string) : string := if decide (key = NON_PARTITIONED_NAME) then "" else key.

(** [HashMap::insert] and [remove] *)
Definition hm_remove {V} (k : string) (m : list (string * V)) : list (string * V) := List.filter (fun e => negb (bool_decide (e.1 = k))) m.
Definition hm_insert {V} (k : string) (v : V) (m : list (string * V)) : list (string * V) := (k, v) :: hm_remove k m.

(** One entry of [file_map]: a null key or value is left out. *)
Definition file_entry (m : list (string * HoodieMetadataFileInfo)) (e : option string * option (option Z * option bool))
    : list (string * HoodieMetadataFileInfo) :=
  match e with
  | (Some name, Some (size, deleted)) =>
      hm_insert name (mkFileInfo name (default 0%Z size) (default false deleted)) m
  | _ => m
  end.

Definition file_map (row : MetadataRow) : list (string * HoodieMetadataFileInfo) :=
  foldl file_entry [] (default [] (row_files row)).

(** The record of one row. *)
Definition row_record (raw : string) (row : MetadataRow) : FilesPartitionRecord :=
  let record_type := record_type_from_i32 (row_type row) in
  let files := file_map row in
  let files :=
    if decide (record_type = AllPartitions) then
      match hm_get NON_PARTITIONED_NAME files with
      | Some info => hm_insert "" (mkFileInfo "" (info_size info) (is_deleted info)) (hm_remove NON_PARTITIONED_NAME files)
      | None => files
      end
    else files in
  mkFilesPartitionRecord (normalise_partition raw) record_type files.

Definition record_step (keys : list string) (out : gmap string FilesPartitionRecord) (row : MetadataRow)
    : gmap string FilesPartitionRecord :=
  match row_key row with
  | None => out
  | Some raw =>
      if negb (bool_decide (keys = [])) && negb (bool_decide (raw ∈ keys)) then out
      else <[normalise_partition raw := row_record raw row]> out
  end.

(** [records_from_batch] *)
Definition records_from_batch (rows : list MetadataRow) (keys : list string) : gmap string FilesPartitionRecord :=
  foldl (record_step keys) ∅ rows.

(** * Rollbacks *)
Record RollbackMetadata := mkRollback { start_rollback_time : string; commits_rollback : list string }.

Record RestoreMetadata := mkRestore {
  start_restore_time : string;
  hoodie_restore_metadata : gmap string (list RollbackMetadata)
}.

Record RollbackPlan := mkPlan { instant_to_rollback : option (string * string) }.

(** [commits_rolled_back] *)
Definition commits_rolled_back (r : RestoreMetadata) : list string :=
  concat (commits_rollback <$> concat (map_to_list (hoodie_restore_metadata r)).*2).

Definition commit_rolled_back (p : RollbackPlan) : option string := fst <$> instant_to_rollback p.

(** The three [from_avro_bytes]. *)
Class RollbackCodec `{Storage} := {
  rollback_from_avro : Loader.bytes -> res RollbackMetadata;
  restore_from_avro : Loader.bytes -> res RestoreMetadata;
  plan_from_avro : Loader.bytes -> res RollbackPlan
}.

(** * Valid instants *)
Definition SOLO_COMMIT_TIMESTAMP : string := "00000000000000".
Definition ROLLBACK_READ_CONCURRENCY : nat := 8.

Section rollbacks.
Context `{S : Storage} {C : Chrono} {SU : SortUnstable Instant instant_le}.

Definition rollback_and_restore_instants (t : Table) : res (list Instant) :=
  let? selector := actions_in_range [Rollback; Restore] [Completed] (table_configs t) None None in
  timeline_load_instants (table_timeline t) selector false.

Definition with_state (s : State) (i : Instant) : Instant :=
  mkInstant (timestamp i) (completion_timestamp i) (action i) s (epoch_millis i).

(** Any error is [CoreError::MetadataTable]. *)
Definition rollback_error {A} (r : res A) : res A :=
  match r with Err _ => Err EMetadataTable | other => other end.

(** [commits_rolled_back_by] *)
Definition commits_rolled_back_by {RC : RollbackCodec} (t : Table) (i : Instant) : res (list string) :=
  let loader := active_loader (table_timeline t) in
  let? data := rollback_error (load_instant_bytes loader i) in
  match action i with
  | Restore => res_map commits_rolled_back (rollback_error (restore_from_avro data))
  | Rollback =>
      let from_plan :=
        let? plan_bytes := rollback_error (load_instant_bytes loader (with_state Requested i)) in
        let? plan := rollback_error (plan_from_avro plan_bytes) in
        Ok (option_list (commit_rolled_back plan)) in
      match rollback_from_avro data with
      | Ok rollback => if negb (bool_decide (commits_rollback rollback = [])) then Ok (commits_rollback rollback) else from_plan
      | Err _ => from_plan
      | Panic => Panic
      end
  | _ => Ok []
  end.
End rollbacks.

Definition valid_from_completed_data_instants (t : Table) : gset string :=
  list_to_set (timestamp <$> completed_commits (table_timeline t)).

Definition valid_from_mdt_delta_commits (mdt : Table) (data_pending : gset string) : gset string :=
  list_to_set (timestamp <$> filter (fun i => action i = DeltaCommit /\ timestamp i ∉ data_pending)
    (completed_commits (table_timeline mdt))).

Definition valid_from_sentinel_commits (mdt : Table) : gset string :=
  list_to_set (timestamp <$> filter (fun i => starts_with SOLO_COMMIT_TIMESTAMP (timestamp i) = true)
    (completed_commits (table_timeline mdt))).

(** The instants the rollbacks of the data table may have touched. *)
Definition earliest_valid (valid : gset string) : string := default SOLO_COMMIT_TIMESTAMP (str_min (elements valid)).

(** The metadata table's files, its base files' footers and its timeline's storage are
    its own. *)
Section valid.
Context {S : Storage} {RC : @RollbackCodec S} {Sm : Storage} {C : Chrono} {SU : SortUnstable Instant instant_le}.

(** [valid_instant_timestamps] *)
Definition valid_instant_timestamps (t mdt : Table) : res (gset string) :=
  let? data_pending := all_pending_instant_times (H := S) (table_timeline t) in
  let valid := valid_from_completed_data_instants t ∪ valid_from_mdt_delta_commits mdt data_pending
               ∪ valid_from_sentinel_commits mdt in
  let? rollbacks := rollback_and_restore_instants (S := S) t in
  let in_scope := filter (fun i => str_ltb (earliest_valid valid) (timestamp i) = true) rollbacks in
  let? rolled_back := bounded_in_order (commits_rolled_back_by t) in_scope ROLLBACK_READ_CONCURRENCY in
  let? own := rollback_and_restore_instants (S := Sm) mdt in
  Ok (valid ∪ list_to_set (concat rolled_back) ∪ list_to_set (timestamp <$> own)).
End valid.

(** * Reading the [files] partition *)
Class MetadataReader := {
  (** [Table::new_with_options] on the metadata directory *)
  open_table : Table -> res Table;
  (** the merged rows of a slice, of the named keys at least, from valid log blocks *)
  read_metadata_rows : Table -> FileSlice.t -> list string -> gset string -> res (list MetadataRow)
}.

Section reading.
Context {MR : MetadataReader}.

(** [new_metadata_table] *)
Definition new_metadata_table (t : Table) : res Table :=
  let? itself := is_metadata_table t in
  if itself : bool then Err EMetadataTable
  else
    let? mdt_partitions := get_metadata_table_partitions t in
    if bool_decide (mdt_partitions = []) then Err EMetadataTable else open_table t.

(** [MetadataTableV2Reader::read_files_partition] *)
Definition read_slice_records (mdt : Table) (keys : list string) (valid : gset string) (s : FileSlice.t)
    : res (gmap string FilesPartitionRecord) :=
  let? rows := read_metadata_rows mdt s keys valid in Ok (records_from_batch rows keys).

Definition collect_records (l : list (gmap string FilesPartitionRecord)) : gmap string FilesPartitionRecord :=
  foldl (fun m m' => m' ∪ m) ∅ l.

(** The reads of [read_files_partition], given the slices. *)
Definition read_slices (mdt : Table) (file_slices : list FileSlice.t) (keys : list string) (valid : gset string)
    : res (gmap string FilesPartitionRecord) :=
  let? targets := slices_for_keys file_slices keys in
  let? concurrency := bounded_read_concurrency mdt targets in
  let? per_slice := bounded_in_order (read_slice_records mdt keys valid) targets (Z.to_nat concurrency) in
  Ok (collect_records per_slice).

Context `{TimelineCodec} {C : Chrono} {K : KeygenChrono} {SU : SortUnstable Instant instant_le}.
Context {OL : ObjectListing} {PF : ParquetFooters} {AS : ArrowScalars} {PD : PercentDecode} {SR : SchemaResolver}.
Variable fuel : nat.

(** [partition_reader]: the slices, and the metadata table's map of file groups. *)
Definition partition_reader (mdt : Table) (partition : string) (v : Loaded) : res (option (list FileSlice.t) * Loaded) :=
  match get_latest_commit_timestamp_as_option (table_timeline mdt) with
  | None => Ok (None, v)
  | Some ts =>
      let? timeline_view := create_view_as_of (table_timeline mdt) ts in
      let? filters := from_str_tuples [(METADATA_TABLE_PARTITION_FIELD, "=", partition)] in
      let? partition_schema := get_partition_schema mdt in
      let? partition_pruner := partition_pruner_new filters partition_schema (table_configs mdt) in
      let? (file_slices, v) := get_file_slices_by_storage_listing fuel (table_configs mdt) None v
        (mkQuery partition_pruner file_pruner_empty [] timeline_view) in
      Ok (if bool_decide (file_slices = []) then None else Some file_slices, v)
  end.

(** [read_files_partition] *)
Definition read_files_partition (mdt : Table) (keys : list string) (valid : gset string) (v : Loaded)
    : res (gmap string FilesPartitionRecord * Loaded) :=
  let? (slices, v) := partition_reader mdt FILES_PARTITION_NAME v in
  match slices with
  | None => Ok (∅, v)
  | Some file_slices => let? m := read_slices mdt file_slices keys valid in Ok (m, v)
  end.

(** [fetch_files_partition_records] *)
Definition fetch_files_partition_records (mdt : Table) (pruner : PartitionPruner) (valid : gset string) (v : Loaded)
    : res (gmap string FilesPartitionRecord * Loaded) :=
  if negb (is_partitioned pruner) then read_files_partition mdt [NON_PARTITIONED_NAME] valid v
  else if partition_pruner_is_empty pruner then read_files_partition mdt [] valid v
  else
    let? (all_partitions_records, v) := read_files_partition mdt [ALL_PARTITIONS_KEY] valid v in
    let names := match all_partitions_records !! ALL_PARTITIONS_KEY with Some r => partition_names r | None => [] end in
    let? pruned := filter_included pruner names in
    if bool_decide (pruned = []) then Ok (∅, v) else read_files_partition mdt pruned valid v.
End reading.

(** * Every key goes to a shard that exists *)
Section routing.
Local Open Scope Z_scope.

Lemma i32_wrap_range z : -2147483648 <= i32_wrap z < 2147483648.
Proof. unfold i32_wrap. pose proof (Z.mod_pos_bound (z + 2147483648) 4294967296). lia. Qed.

Lemma i32_wrap_id z : -2147483648 <= z < 2147483648 -> i32_wrap z = z.
Proof. intros H. unfold i32_wrap. rewrite Z.mod_small by lia. lia. Qed.

Lemma file_group_index_lt key n : (0 < n)%nat -> Z.of_nat n < 2147483648 -> (file_group_index key n < n)%nat.
Proof.
  intros Hn Hb. unfold file_group_index. case_decide; [lia|]. rewrite (i32_wrap_id (Z.of_nat n)) by lia.
  set (a := wrapping_abs (java_string_hash key)). pose proof (Z.rem_bound_abs a (Z.of_nat n) ltac:(lia)) as Hr.
  unfold wrapping_abs. rewrite i32_wrap_id by lia. lia.
Qed.

(** The doubled absolute value is the least non-negative choice: a hash whose absolute
    value is representable is reduced modulo the shards. *)
Lemma file_group_index_mod key n : (1 < n)%nat -> Z.of_nat n < 2147483648 -> java_string_hash key <> -2147483648 ->
  -2147483648 <= java_string_hash key < 2147483648 ->
  Z.of_nat (file_group_index key n) = Z.abs (java_string_hash key) mod Z.of_nat n.
Proof.
  intros Hn Hb Hm Hr. unfold file_group_index. case_decide; [lia|]. rewrite (i32_wrap_id (Z.of_nat n)) by lia.
  unfold wrapping_abs. rewrite (i32_wrap_id (Z.abs (java_string_hash key))) by lia. rewrite Z.rem_mod_nonneg by lia.
  pose proof (Z.mod_pos_bound (Z.abs (java_string_hash key)) (Z.of_nat n) ltac:(lia)) as Hmod.
  rewrite (Z.abs_eq (_ mod _)) by lia. rewrite i32_wrap_id by lia. lia.
Qed.
End routing.

(** The values the source's tests take from Java; the last text is outside the basic
    plane, two UTF-16 units. *)
Example java_hashes :
  map java_string_hash [""; "a"; "hello"; "polygenelubricants"; "😀"; "😀x"] =
  [0; 97; 99162322; -2147483648; 1772899; 54959989]%Z.
Proof. vm_compute. reflexivity. Qed.

Lemma insert_by_id_perm s l : insert_by_id s l ≡ₚ s :: l.
Proof.
  induction l as [|x l IH]; [done|]. cbn [insert_by_id]. destruct (str_leb _ _); [done|]. rewrite IH. constructor.
Qed.

Lemma sort_by_id_perm l : sort_by_id l ≡ₚ l.
Proof. induction l as [|s l IH]; [done|]. cbn [sort_by_id foldr]. rewrite insert_by_id_perm. by constructor. Qed.

Lemma dedup_elem l i : i ∈ dedup l <-> i ∈ l.
Proof.
  revert i. induction l as [|x l IH]; intros i; [done|]. cbn [dedup]. rewrite elem_of_cons, <- IH.
  destruct (dedup l) as [|y r]; [by rewrite list_elem_of_singleton, elem_of_nil; naive_solver|].
  case_decide; [subst; rewrite !elem_of_cons; naive_solver|by rewrite !elem_of_cons].
Qed.

Definition shard (slices : list FileSlice.t) (key : string) : option FileSlice.t :=
  sort_by_id slices !! file_group_index key (length slices).

(** A lookup opens the shards of its keys and no other slice, and never one that does
    not exist. *)
Lemma slices_for_keys_spec slices keys : (Z.of_nat (length slices) < 2147483648)%Z ->
  exists l, slices_for_keys slices keys = Ok l /\ (forall s, s ∈ l -> s ∈ slices) /\
    (forall k s, k ∈ keys -> shard slices k = Some s -> s ∈ l) /\ (keys = [] -> l = slices).
Proof.
  intros Hb. unfold slices_for_keys. destruct (bool_decide (keys = []) || _) eqn:E.
  - exists slices. split; [done|]. split; [done|]. split; [|done]. unfold shard. intros k s _ Hs.
    apply list_elem_of_lookup_2 in Hs. by rewrite sort_by_id_perm in Hs.
  - apply orb_false_iff in E as [Hk%bool_decide_eq_false Hl%bool_decide_eq_false].
    assert (Hlen : length (sort_by_id slices) = length slices) by by rewrite sort_by_id_perm. rewrite Hlen.
    set (f := fun i => match sort_by_id slices !! i with Some s => Ok s | None => Panic end).
    set (wanted := merge_sort Nat.le _).
    assert (Hw : forall i, i ∈ dedup wanted <-> exists k, k ∈ keys /\ i = file_group_index k (length slices)).
    { intros i. rewrite dedup_elem. unfold wanted. rewrite merge_sort_Permutation, list_elem_of_fmap. naive_solver. }
    assert (Hall : forall i, i ∈ dedup wanted -> exists s, sort_by_id slices !! i = Some s).
    { intros i (k & _ & ->)%Hw. apply lookup_lt_is_Some_2. rewrite Hlen. apply file_group_index_lt; lia. }
    assert (Hex : exists l, res_mapM f (dedup wanted) = Ok l /\ Forall2 (fun i s => sort_by_id slices !! i = Some s) (dedup wanted) l).
    { revert Hall. generalize (dedup wanted). intros d. induction d as [|i d IH]; intros Hall; [exists []; split; [done|constructor]|].
      destruct (Hall i) as [s Hs]; [by left|]. destruct IH as (l & Hl1 & Hl2); [intros; apply Hall; by right|].
      exists (s :: l). cbn [res_mapM]. unfold f at 1. rewrite Hs. cbn [res_bind]. rewrite Hl1. split; [done|by constructor]. }
    destruct Hex as (l & Hl1 & Hl2). exists l. split; [done|]. split; [|split; [|done]].
    + intros s [j Hj]%list_elem_of_lookup. destruct (Forall2_lookup_r _ _ _ _ _ Hl2 Hj) as (i & _ & Hi).
      apply list_elem_of_lookup_2 in Hi. by rewrite sort_by_id_perm in Hi.
    + unfold shard. intros k s Hkin Hs. assert (Hi : file_group_index k (length slices) ∈ dedup wanted) by (apply Hw; eauto).
      apply list_elem_of_lookup in Hi as [j Hj]. destruct (Forall2_lookup_l _ _ _ _ _ Hl2 Hj) as (s' & Hs' & E).
      assert (s' = s) as -> by congruence. by eapply list_elem_of_lookup_2.
Qed.

(** * What a lookup finds *)

(** A row a read of [keys] keeps. *)
Definition asked (keys : list string) (k : string) : Prop := keys = [] \/ k ∈ keys.

Definition has_key (k : string) (r : MetadataRow) : Prop := row_key r = Some k.

Global Instance has_key_dec k r : Decision (has_key k r).
Proof. unfold has_key. apply _. Defined.

Definition named (keys : list string) (r : MetadataRow) : Prop := exists k, row_key r = Some k /\ k ∈ keys.

Global Instance named_dec keys r : Decision (named keys r).
Proof.
  refine (match row_key r as o return row_key r = o -> Decision (named keys r) with
          | Some k => fun E => if decide (k ∈ keys) then left _ else right _
          | None => fun E => right _
          end eq_refl); unfold named; rewrite E; naive_solver.
Defined.

Lemma normalise_inj a b : a <> "" -> b <> "" -> normalise_partition a = normalise_partition b -> a = b.
Proof. unfold normalise_partition. intros Ha Hb. repeat case_decide; congruence. Qed.

Lemma records_lookup rows keys k : asked keys k -> k <> "" ->
  (forall r raw, r ∈ rows -> row_key r = Some raw -> asked keys raw -> raw <> "") ->
  records_from_batch rows keys !! normalise_partition k = row_record k <$> list.last (filter (has_key k) rows).
Proof.
  intros Hk Hne. unfold records_from_batch. induction rows as [|r rows IH] using rev_ind; intros Hall; [done|].
  rewrite foldl_app, filter_app. cbn [foldl]. specialize (IH ltac:(intros; eapply Hall; [apply elem_of_app; by left|done..])).
  unfold record_step at 1. rewrite filter_cons, filter_nil. destruct (row_key r) as [raw|] eqn:Er.
  2:{ rewrite decide_False by (unfold has_key; congruence). by rewrite app_nil_r. }
  destruct (_ && _) eqn:Ek.
  - apply andb_prop in Ek as [E1%negb_true_iff%bool_decide_eq_false E2%negb_true_iff%bool_decide_eq_false].
    rewrite decide_False; [by rewrite app_nil_r|]. unfold has_key. intros E. assert (raw = k) as -> by congruence. by destruct Hk.
  - assert (Hraw : asked keys raw).
    { apply andb_false_iff in Ek as [E%negb_false_iff%bool_decide_eq_true|E%negb_false_iff%bool_decide_eq_true]; [by left|by right]. }
    assert (raw <> "") by (eapply Hall; [apply elem_of_app; right; by left|done|done]).
    rewrite lookup_insert. destruct (decide (raw = k)) as [->|Hn].
    + rewrite !decide_True by done. by rewrite last_snoc.
    + rewrite !decide_False; [by rewrite app_nil_r|unfold has_key; congruence|]. intros E. by apply Hn, normalise_inj.
Qed.

Lemma collect_lookup l k : collect_records l !! k = list.last (omap (fun m : gmap string FilesPartitionRecord => m !! k) l).
Proof.
  unfold collect_records. induction l as [|m l IH] using rev_ind; [done|]. rewrite foldl_app. cbn [foldl].
  rewrite lookup_union, IH, omap_app. cbn [omap list_omap]. destruct (m !! k) as [v|]; cbn.
  - rewrite last_snoc. by destruct (list.last _).
  - rewrite app_nil_r. by destruct (list.last _).
Qed.

Lemma last_only {A B} (val : A -> option B) (l : list A) (s : A) : s ∈ l -> (forall x, x ∈ l -> val x <> None -> x = s) ->
  list.last (omap val l) = val s.
Proof.
  intros Hs Hall. destruct (val s) as [v|] eqn:E.
  - destruct (list.last (omap val l)) as [w|] eqn:El.
    + apply last_Some_elem_of, list_elem_of_omap in El as (x & Hx & Ew).
      assert (x = s) as -> by (apply Hall; [done|congruence]). congruence.
    + apply last_None in El. assert (Hin : v ∈ omap val l) by (apply list_elem_of_omap; eauto). rewrite El in Hin.
      by apply not_elem_of_nil in Hin.
  - destruct (list.last (omap val l)) as [w|] eqn:El; [|done].
    apply last_Some_elem_of, list_elem_of_omap in El as (x & Hx & Ew).
    assert (x = s) as -> by (apply Hall; [done|congruence]). congruence.
Qed.

Lemma last_no {A B} (val : A -> option B) (l : list A) : (forall x, x ∈ l -> val x = None) -> list.last (omap val l) = None.
Proof.
  intros Hall. destruct (list.last (omap val l)) as [w|] eqn:El; [|done].
  apply last_Some_elem_of, list_elem_of_omap in El as (x & Hx & Ew). rewrite Hall in Ew; done.
Qed.

Section lookup.
Context {MR : MetadataReader}.
Variables (mdt : Table) (slices : list FileSlice.t) (valid : gset string).

(** What the writer promises -- each record lies in the shard of its key, under a key
    that is not empty -- and the reader: among the rows of a read for [keys], those with
    these keys are those of a full read. *)
Record sharded : Prop := {
  sh_rows s rows r k : s ∈ slices -> read_metadata_rows mdt s [] valid = Ok rows -> r ∈ rows -> row_key r = Some k ->
    k <> "" /\ shard slices k = Some s;
  sh_named s rows keys : s ∈ slices -> keys <> [] -> read_metadata_rows mdt s keys valid = Ok rows ->
    exists all, read_metadata_rows mdt s [] valid = Ok all /\ filter (named keys) rows = filter (named keys) all
}.

(** The record of a key in a slice. *)
Definition slice_record (k : string) (s : FileSlice.t) : option FilesPartitionRecord :=
  match read_metadata_rows mdt s [] valid with
  | Ok rows => row_record k <$> list.last (filter (has_key k) rows)
  | _ => None
  end.

Lemma filter_named keys (rows rows' : list MetadataRow) k : k ∈ keys -> filter (named keys) rows = filter (named keys) rows' ->
  filter (has_key k) rows = filter (has_key k) rows'.
Proof.
  intros Hk E. assert (H : forall l : list MetadataRow, filter (has_key k) l = filter (has_key k) (filter (named keys) l)); [|by rewrite H, E, <- H].
  intros l. rewrite list_filter_filter. apply list_filter_iff. intros r. unfold has_key, named. split; [|by intros [? _]].
  intros Hr. split; [done|]. by exists k.
Qed.

Lemma slice_lookup s keys m k : sharded -> s ∈ slices -> asked keys k -> k <> "" ->
  read_slice_records mdt keys valid s = Ok m -> m !! normalise_partition k = slice_record k s.
Proof.
  intros Hsh Hs Hk Hne. unfold read_slice_records. intros (rows & Hr & [= <-])%res_bind_Ok.
  destruct (decide (keys = [])) as [->|Hkeys].
  - unfold slice_record. rewrite Hr. apply records_lookup; [done|done|]. intros r raw Hin Hraw _.
    by apply (sh_rows Hsh s rows r raw).
  - destruct (sh_named Hsh s rows keys Hs Hkeys Hr) as (all & Hall & E). unfold slice_record. rewrite Hall.
    assert (Hkk : k ∈ keys) by by destruct Hk. rewrite <- (filter_named keys rows all k Hkk E). apply records_lookup; [done|done|].
    intros r raw Hin Hraw [?|Hraw']; [done|].
    assert (Hin' : r ∈ filter (named keys) rows) by (apply list_elem_of_filter; split; [by exists raw|done]).
    rewrite E in Hin'. apply list_elem_of_filter in Hin' as [_ Hin']. by apply (sh_rows Hsh s all r raw).
Qed.

Lemma slice_record_shard k s : sharded -> s ∈ slices -> slice_record k s <> None -> shard slices k = Some s.
Proof.
  unfold slice_record. intros Hsh Hs. destruct (read_metadata_rows mdt s [] valid) as [rows| |] eqn:Er; try done.
  destruct (list.last _) as [r|] eqn:El; [|done]. intros _. apply last_Some_elem_of, list_elem_of_filter in El as [Hk Hin].
  by apply (sh_rows Hsh s rows r k).
Qed.

(** What a read of the slices finds for a key it asks for. *)
Lemma read_slices_lookup keys m k : sharded -> (Z.of_nat (length slices) < 2147483648)%Z -> asked keys k -> k <> "" ->
  read_slices mdt slices keys valid = Ok m -> m !! normalise_partition k =
    match shard slices k with Some s => slice_record k s | None => None end.
Proof.
  intros Hsh Hb Hk Hne. unfold read_slices. destruct (slices_for_keys_spec slices keys Hb) as (l & -> & Hsub & Hin & Hall).
  cbn [res_bind]. intros (n & _ & H)%res_bind_Ok. apply res_bind_Ok in H as (per & Hper & [= <-]).
  rewrite bounded_in_order_eq in Hper. apply res_mapM_Ok in Hper. rewrite collect_lookup.
  assert (E : omap (fun m : gmap string FilesPartitionRecord => m !! normalise_partition k) per = omap (slice_record k) l).
  { clear Hin Hall. induction Hper as [|s m l' per' Hm _ IH]; [done|]. cbn [omap list_omap].
    rewrite (slice_lookup s keys m k) by (try done; apply Hsub; by left).
    rewrite IH by (intros x Hx; apply Hsub; by right). done. }
  rewrite E. destruct (shard slices k) as [s|] eqn:Es.
  - apply last_only; [|intros x Hx Hv; apply Hsub in Hx; assert (shard slices k = Some x) by (by apply slice_record_shard); congruence].
    destruct Hk as [->|Hk]; [|by eapply Hin]. rewrite Hall by done. unfold shard in Es. apply list_elem_of_lookup_2 in Es.
    by rewrite sort_by_id_perm in Es.
  - apply last_no. intros x Hx. destruct (slice_record k x) eqn:Ex; [|done]. apply Hsub in Hx.
    assert (shard slices k = Some x) by (apply slice_record_shard; [done|done|congruence]). congruence.
Qed.

Lemma records_asked rows keys key r : keys <> [] -> records_from_batch rows keys !! key = Some r ->
  exists k, k ∈ keys /\ key = normalise_partition k.
Proof.
  intros Hk. unfold records_from_batch. revert r.
  assert (H : forall m, (forall r, m !! key = Some r -> exists k, k ∈ keys /\ key = normalise_partition k) ->
    forall r, foldl (record_step keys) m rows !! key = Some r -> exists k, k ∈ keys /\ key = normalise_partition k).
  { induction rows as [|row rows IH]; intros m Hm; [done|]. cbn [foldl]. apply IH. intros r. unfold record_step.
    destruct (row_key row) as [raw|]; [|apply Hm]. destruct (_ && _) eqn:E; [apply Hm|]. rewrite lookup_insert.
    destruct (decide (normalise_partition raw = key)) as [Ek|]; [|apply Hm]. intros _. exists raw. split; [|done].
    apply andb_false_iff in E as [E%negb_false_iff%bool_decide_eq_true|E%negb_false_iff%bool_decide_eq_true]; done. }
  apply H. intros r. by rewrite lookup_empty.
Qed.

Lemma read_slices_asked keys m key r : keys <> [] -> read_slices mdt slices keys valid = Ok m -> m !! key = Some r ->
  exists k, k ∈ keys /\ key = normalise_partition k.
Proof.
  intros Hk. unfold read_slices. intros (l & _ & H)%res_bind_Ok. apply res_bind_Ok in H as (n & _ & H).
  apply res_bind_Ok in H as (per & Hper & [= <-]). rewrite bounded_in_order_eq in Hper. apply res_mapM_Ok in Hper.
  rewrite collect_lookup. intros Hl. apply last_Some_elem_of, list_elem_of_omap in Hl as (m & [j Hj]%list_elem_of_lookup & Hm).
  destruct (Forall2_lookup_r _ _ _ _ _ Hper Hj) as (s & _ & Hs). unfold read_slice_records in Hs.
  apply res_bind_Ok in Hs as (rows & _ & [= <-]). by eapply records_asked.
Qed.

(** C22: A lookup of named keys in the sharded metadata table, which opens the shards of
    the keys alone, finds for each of them what a read of every shard finds, and finds
    nothing else; it never looks for a shard that does not exist. *)
Theorem lookup_agrees_with_scan keys found all : sharded -> (Z.of_nat (length slices) < 2147483648)%Z -> keys <> [] ->
  read_slices mdt slices keys valid = Ok found -> read_slices mdt slices [] valid = Ok all ->
  (forall k, k ∈ keys -> k <> "" -> found !! normalise_partition k = all !! normalise_partition k) /\
  (forall key r, found !! key = Some r -> exists k, k ∈ keys /\ key = normalise_partition k) /\
  exists targets, slices_for_keys slices keys = Ok targets /\
    forall k, k ∈ keys -> slices <> [] -> exists s, shard slices k = Some s /\ s ∈ targets.
Proof.
  intros Hsh Hb Hk Hfound Hall. split; [|split].
  - intros k Hin Hne. rewrite (read_slices_lookup _ _ _ Hsh Hb (or_intror Hin) Hne Hfound).
    by rewrite (read_slices_lookup _ _ _ Hsh Hb (or_introl eq_refl) Hne Hall).
  - intros key r. by apply read_slices_asked.
  - destruct (slices_for_keys_spec slices keys Hb) as (l & Hl & _ & Hin & _). exists l. split; [done|].
    intros k Hkin Hne. assert (Hlt : (file_group_index k (length slices) < length (sort_by_id slices))%nat).
    { rewrite sort_by_id_perm. apply file_group_index_lt; [|done]. destruct slices; [done|cbn; lia]. }
    apply lookup_lt_is_Some_2 in Hlt as [s Hs]. exists s. split; [done|]. by eapply Hin.
Qed.
End lookup.

(** * The valid instants *)
Section valid_spec.
Context {S : Storage} {RC : @RollbackCodec S} {Sm : Storage} {C : Chrono} {SU : SortUnstable Instant instant_le}.

(** Held without looking at rollbacks: completed on the data table, a delta commit of
    the metadata table that is not pending there, or one written outside its timeline. *)
Definition held (t mdt : Table) (pending : gset string) (ts : string) : Prop :=
  (exists i, i ∈ completed_commits (table_timeline t) /\ timestamp i = ts) \/
  (exists i, i ∈ completed_commits (table_timeline mdt) /\ timestamp i = ts /\ action i = DeltaCommit /\ ts ∉ pending) \/
  (exists i, i ∈ completed_commits (table_timeline mdt) /\ timestamp i = ts /\ starts_with SOLO_COMMIT_TIMESTAMP ts = true).

Lemma held_elem t mdt pending ts :
  ts ∈ valid_from_completed_data_instants t ∪ valid_from_mdt_delta_commits mdt pending ∪ valid_from_sentinel_commits mdt <->
  held t mdt pending ts.
Proof.
  unfold valid_from_completed_data_instants, valid_from_mdt_delta_commits, valid_from_sentinel_commits, held.
  rewrite !elem_of_union, !elem_of_list_to_set, !list_elem_of_fmap. setoid_rewrite list_elem_of_filter. naive_solver.
Qed.

Lemma earliest_valid_lt (held : gset string) ts : str_ltb (earliest_valid held) ts = true <->
  (exists h, h ∈ held /\ str_ltb h ts = true) \/ held = ∅ /\ str_ltb SOLO_COMMIT_TIMESTAMP ts = true.
Proof.
  unfold earliest_valid. pose proof (str_min_spec (elements held)) as Hm. destruct (str_min (elements held)) as [m|]; cbn.
  - destruct Hm as [Hin Hmin]. rewrite elem_of_elements in Hin. split.
    + intros H. left. by exists m.
    + intros [(h & Hh & Hlt)|[-> _]]; [|by apply elem_of_empty in Hin].
      specialize (Hmin h ltac:(by apply elem_of_elements)). rewrite str_ltb_negb in Hlt |- *.
      apply negb_true_iff. apply negb_true_iff in Hlt. apply not_true_iff_false. intros Hle.
      apply not_true_iff_false in Hlt. apply Hlt. by eapply str_leb_trans.
  - assert (held = ∅) as -> by (apply leibniz_equiv, elements_empty_iff, Hm). split; [by right|]. intros [(h & ?%elem_of_empty & _)|[_ ?]]; done.
Qed.

(** C23: The instants whose metadata log blocks may be read are exactly those completed on
    the data table, the delta commits of the metadata table that are not pending on the
    data table, those written outside its timeline, those rolled back by a rollback or
    restore of the data table newer than one of these, and the metadata table's own
    rollbacks: a block of a data instant that is pending is read only if a rollback
    names it. *)
Theorem valid_instants_spec (t mdt : Table) (valid : gset string) :
  valid_instant_timestamps t mdt = Ok valid ->
  exists pending rollbacks own, all_pending_instant_times (H := S) (table_timeline t) = Ok pending /\
    rollback_and_restore_instants (S := S) t = Ok rollbacks /\ rollback_and_restore_instants (S := Sm) mdt = Ok own /\
    forall ts, ts ∈ valid <-> held t mdt pending ts \/
      (exists i l, i ∈ rollbacks /\
        ((exists h, held t mdt pending h /\ str_ltb h (timestamp i) = true) \/
         (forall h, ~ held t mdt pending h) /\ str_ltb SOLO_COMMIT_TIMESTAMP (timestamp i) = true) /\
        commits_rolled_back_by t i = Ok l /\ ts ∈ l) \/
      exists i, i ∈ own /\ timestamp i = ts.
Proof.
  unfold valid_instant_timestamps. intros (pending & Hp & H)%res_bind_Ok. apply res_bind_Ok in H as (rollbacks & Hr & H).
  apply res_bind_Ok in H as (rolled & Hb & H). apply res_bind_Ok in H as (own & Ho & [= <-]).
  exists pending, rollbacks, own. split; [done|]. split; [done|]. split; [done|]. intros ts.
  rewrite bounded_in_order_eq in Hb. apply res_mapM_Ok in Hb. set (base := _ ∪ _ ∪ valid_from_sentinel_commits mdt) in *.
  rewrite !elem_of_union, !elem_of_list_to_set.
  assert (Hbase : forall h, h ∈ base <-> held t mdt pending h) by apply held_elem.
  assert (Hrolled : ts ∈ concat rolled <-> exists i l, i ∈ rollbacks /\ str_ltb (earliest_valid base) (timestamp i) = true /\
    commits_rolled_back_by t i = Ok l /\ ts ∈ l).
  { rewrite list_elem_of_In, in_concat. setoid_rewrite <- list_elem_of_In. split.
    - intros (l & [j Hj]%list_elem_of_lookup & Hin). destruct (Forall2_lookup_r _ _ _ _ _ Hb Hj) as (i & Hi & Hl).
      apply list_elem_of_lookup_2, list_elem_of_filter in Hi as [? ?]. by exists i, l.
    - intros (i & l & Hi & Hlt & Hl & Hin).
      assert (Hi' : i ∈ filter (fun i => str_ltb (earliest_valid base) (timestamp i) = true) rollbacks) by (apply list_elem_of_filter; done).
      apply list_elem_of_lookup in Hi' as [j Hj]. destruct (Forall2_lookup_l _ _ _ _ _ Hb Hj) as (l' & Hl' & E).
      exists l'. split; [by eapply list_elem_of_lookup_2|]. congruence. }
  rewrite Hrolled, list_elem_of_fmap. setoid_rewrite earliest_valid_lt. setoid_rewrite Hbase.
  assert (Hempty : base = ∅ <-> forall h, ~ held t mdt pending h).
  { setoid_rewrite <- Hbase. split; [intros -> h; apply not_elem_of_empty|]. intros Hn. apply set_eq. intros h. split; [by intros ?%Hn|].
    by intros ?%elem_of_empty. }
  setoid_rewrite Hempty. naive_solver.
Qed.
End valid_spec.

Module SampleMetadata.
#[local] Instance sorter : SortUnstable Instant instant_le := merge_sort_unstable instant_le.

(** The data table: a commit, one that is pending, and a rollback of an earlier one. *)
Definition data_files : list string :=
  ["20240101000000000_20240101000500000.commit"; "20240103000000000.commit.requested";
   "20240104000000000_20240104000100000.rollback"; "20240104000000000.rollback.requested"].

(** The metadata table: delta commits for all three, and one outside the data timeline. *)
Definition metadata_files : list string :=
  ["00000000000000010_20240101000000000.deltacommit"; "20240101000000000_20240101000400000.deltacommit";
   "20240102000000000_20240102000400000.deltacommit"; "20240103000000000_20240103000400000.deltacommit"].

Definition store (names : list string) : Storage := {|
  bytes := list string;
  list_files d := Ok ((fun n => file_metadata_new n 0) <$> names);
  get_file_data p := Ok (if decide (p = ".hoodie/timeline/20240104000000000_20240104000100000.rollback") then ["20240102500000000"] else [])
|}.

Definition data_store : Storage := store data_files.
Definition metadata_store : Storage := store metadata_files.

Definition codec : @RollbackCodec data_store :=
  @Build_RollbackCodec data_store (fun b : list string => Ok (mkRollback "20240104000000000" b))
    (fun _ => Ok (mkRestore "" ∅)) (fun _ => Ok (mkPlan None)).

Definition open (s : Storage) : Table :=
  mkTable Timeline.table_configs ∅
    (match new_from_storage (H := s) (C := Civil.civil) Timeline.table_configs with
     | Ok t => t | _ => timeline_new ∅ (mkLoader ∅ V1Active) None end).

Definition data_table : Table := open data_store.
Definition metadata_table : Table := open metadata_store.

Definition valid : gset string :=
  match valid_instant_timestamps (S := data_store) (RC := codec) (Sm := metadata_store) (C := Civil.civil) data_table metadata_table with
  | Ok v => v | _ => ∅ end.

(** The delta commit of the pending instant is not valid, the others are, and so is
    what the rollback names. *)
Lemma valid_instants_spec_witness :
  map (fun ts => bool_decide (ts ∈ valid))
    ["20240101000000000"; "20240102000000000"; "20240103000000000"; "20240102500000000"; "00000000000000010"; "x"] =
    [true; true; false; true; true; false] /\
  exists pending rollbacks own, all_pending_instant_times (H := data_store) (table_timeline data_table) = Ok pending /\
    rollback_and_restore_instants (S := data_store) (C := Civil.civil) data_table = Ok rollbacks /\
    rollback_and_restore_instants (S := metadata_store) (C := Civil.civil) metadata_table = Ok own.
Proof.
  split; [vm_compute; reflexivity|].
  destruct (valid_instants_spec (S := data_store) (RC := codec) (Sm := metadata_store) (C := Civil.civil) data_table metadata_table valid)
    as (pending & rollbacks & own & H1 & H2 & H3 & _); [vm_eq|].
  exists pending, rollbacks, own. exact (conj H1 (conj H2 H3)).
Defined.

(** ** Two shards *)
Definition slice0 : FileSlice.t := FileSlice.new_log_only "files-0000-0" "001" "files".
Definition slice1 : FileSlice.t := FileSlice.new_log_only "files-0001-0" "001" "files".

Definition row (key : string) (t : Z) (names : list string) : MetadataRow :=
  mkMetadataRow (Some key) t (Some ((fun n => (Some n, Some (Some 1%Z, None))) <$> names)).

(** Shards by hash: [p=1] has an even one, [p=2] an odd one. *)
Definition rows0 : list MetadataRow := [row "p=1" 2 ["a"; "b"]].
Definition rows1 : list MetadataRow := [row "__all_partitions__" 1 ["p=2"; "p=1"]; row "p=2" 2 ["c"]].

Definition shards : list FileSlice.t := [slice1; slice0].

#[local] Instance reader : MetadataReader := {|
  open_table t := Ok metadata_table;
  read_metadata_rows _ s keys _ :=
    let rows := if decide (s = slice0) then rows0 else if decide (s = slice1) then rows1 else [] in
    Ok (if decide (keys = []) then rows else filter (named keys) rows)
|}.

Lemma shards_ok : sharded metadata_table shards ∅.
Proof.
  split.
  - intros s rows r k Hs. unfold shards in Hs. rewrite !elem_of_cons, elem_of_nil in Hs. cbn. intros [= <-] Hr Hk.
    destruct Hs as [->|[->|[]]].
    + rewrite decide_False, decide_True in Hr by done. unfold rows1 in Hr. rewrite !elem_of_cons, elem_of_nil in Hr.
      destruct Hr as [->|[->|[]]]; cbn in Hk; injection Hk as <-; (split; [done|vm_compute; reflexivity]).
    + rewrite decide_True in Hr by done. unfold rows0 in Hr. rewrite !elem_of_cons, elem_of_nil in Hr.
      destruct Hr as [->|[]]; cbn in Hk; injection Hk as <-; (split; [done|vm_compute; reflexivity]).
  - intros s rows keys _ Hk. cbn. rewrite decide_False by done. intros [= <-]. eexists. split; [reflexivity|].
    rewrite list_filter_filter. apply list_filter_iff. tauto.
Qed.

Definition looked_up (keys : list string) : gmap string FilesPartitionRecord :=
  match read_slices metadata_table shards keys ∅ with Ok m => m | _ => ∅ end.

Lemma lookup_agrees_with_scan_witness :
  (files <$> looked_up ["p=2"] !! "p=2") = Some [("c", mkFileInfo "c" 1 false)] /\
  looked_up ["p=2"] !! "p=2" = looked_up [] !! "p=2" /\ looked_up ["p=2"] !! "p=1" = None.
Proof.
  split; [vm_compute; reflexivity|]. split; [|vm_compute; reflexivity].
  destruct (lookup_agrees_with_scan metadata_table shards ∅ ["p=2"] (looked_up ["p=2"]) (looked_up [])
    shards_ok) as [H _]; [vm_compute; reflexivity|done|vm_compute; reflexivity|vm_compute; reflexivity|].
  apply (H "p=2"); [by left|done].
Defined.
End SampleMetadata.
