(* ===== verification/TableRead.v ===== *)
(** Reads of a table: crates/core/src/table/mod.rs, from [get_file_slices] to [read].

    A snapshot read finds the slices visible at a time and reads each; an incremental
    read narrows the slices of the window's end to the file groups the window's commits
    touched.  The metadata table is behind an interface, [MetadataFiles], which
    [MetadataTable] implements; readers of file groups are a parameter.  The maps of file
    groups that the table and its metadata table keep across reads are passed along. *)
From Stdlib Require Import Ascii.
From stdpp Require Import base gmap sets list strings sorting numbers fin_maps pretty.
From S2P Require Import Prelude RustStr BTree Files Chrono Config Instant Selector FileGroup Metadata GroupBuilder View Loader Timeline.
From S2P Require Import Expr ArrowFilter Statistics FilePruner KeyGen DatePaths Partition Listing FsView.
From S2P Require Import HFileKey Options ReadOptions Admission TimelineUtil Table MetadataTable.
Local Open Scope res_scope.

(** What a table asks of its metadata table. *)
Class MetadataFiles := {
  (** [get_or_init_metadata_table] *)
  metadata_table : Table -> res Table;
  (** [valid_instant_timestamps] *)
  metadata_valid : Table -> Table -> res (gset string);
  (** [fetch_files_partition_records] *)
  metadata_records : Table -> PartitionPruner -> gset string -> Loaded -> res (gmap string FilesPartitionRecord * Loaded)
}.

#[export] Instance metadata_files {MR : MetadataReader} {S : Storage} {RC : @RollbackCodec S} {Sm : Storage}
    {D : CommitMetadataCodec} {TCm : @TimelineCodec Sm D} {C : Chrono} {SU : SortUnstable Instant instant_le}
    {K : KeygenChrono} {OL : ObjectListing} {PF : ParquetFooters} {AS : ArrowScalars} {PD : PercentDecode} {SR : SchemaResolver}
    (fuel : nat) : MetadataFiles := {|
  metadata_table := new_metadata_table;
  metadata_valid := valid_instant_timestamps;
  metadata_records := fetch_files_partition_records fuel
|}.

(** [FileGroupReader], and the estimator made of one Parquet footer. *)
Class SliceReaders := {
  Reader : Type;
  (** [new_with_overrides] *)
  new_with_overrides : HudiConfigs -> HudiConfigs -> gmap string string -> res Reader;
  set_data_schema : Schema -> Reader -> Reader;
  set_completion_gate_inputs : CompletionGateInputs -> Reader -> Reader;
  read_file_slice : Reader -> ReadOptions -> FileSlice.t -> res Batch;
  (** [read_file_slice_stream]: the items of the stream, in order *)
  read_file_slice_stream : Reader -> ReadOptions -> FileSlice.t -> res (list (res Batch));
  (** [FileStatsEstimator::from_parquet_footer], as its [estimate] *)
  estimator_from_footer : string -> res (Z -> Z * Z)
}.

Definition u64_sum (l : list Z) : res Z := res_fold (fun a b => usize_add a b) l 0%Z.

Section reads.
Context `{TimelineCodec} {C : Chrono} {TC : TimelineChrono} {SU : SortUnstable Instant instant_le} {K : KeygenChrono}.
Context {OL : ObjectListing} {PF : ParquetFooters} {AS : ArrowScalars} {PD : PercentDecode} {SR : SchemaResolver}.
Context {MF : MetadataFiles} {RD : SliceReaders}.
Variable fuel : nat.

(** The maps of file groups of the table and of its metadata table. *)
Abbreviation Views := (Loaded * Loaded)%type.

(** ** The estimator *)

(** One commit of [sample_base_file_path_at_or_before]. *)
Definition commit_sample (t : Table) (commit : Instant) : res (option string) :=
  match get_instant_metadata (table_timeline t) commit with
  | Ok metadata =>
      match from_json_map metadata with
      | Ok parsed => Ok (str_min (iter_base_file_paths parsed))
      | Err _ => Ok None
      | Panic => Panic
      end
  | Err _ => Ok None
  | Panic => Panic
  end.

Fixpoint first_sample (t : Table) (commits : list Instant) : res (option string) :=
  match commits with
  | [] => Ok None
  | commit :: commits =>
      let? path := commit_sample t commit in
      match path with Some path => Ok (Some path) | None => first_sample t commits end
  end.

Definition sample_base_file_path_at_or_before (t : Table) (ts : string) : res (option string) :=
  match get_completed_instants_at_or_before (table_timeline t) ts with
  | Ok commits => first_sample t (rev commits)
  | Err _ => Ok None
  | Panic => Panic
  end.

(** [get_or_init_estimator], nothing being cached yet. *)
Definition get_or_init_estimator (t : Table) (sample_at_timestamp : string) : res (option (Z -> Z * Z)) :=
  match base_file_format_from_configs (table_configs t) with
  | Ok fmt =>
      if match fmt with Some Parquet | None => false | Some _ => true end then Ok None
      else
        let? path := sample_base_file_path_at_or_before t sample_at_timestamp in
        match path with
        | None => Ok None
        | Some path =>
            if negb (matches_extension Parquet path) then Ok None
            else match estimator_from_footer path with Ok e => Ok (Some e) | Err _ => Ok None | Panic => Panic end
        end
  | Err _ => Ok None
  | Panic => Panic
  end.

(** ** Slices *)

(** [fs.log_files.clear()] *)
Definition clear_logs (base_file_only : bool) (slices : list FileSlice.t) : list FileSlice.t :=
  if base_file_only then (fun s => FileSlice.set_log_files s []) <$> slices else slices.

(** What the metadata table lists, when it is enabled and opens. *)
Definition metadata_listing (t : Table) (pruner : PartitionPruner) (vm : Loaded)
    : res (option (gmap string FilesPartitionRecord) * Loaded) :=
  let? enabled := is_metadata_table_enabled t in
  if negb enabled then Ok (None, vm)
  else
    match metadata_table t with
    | Ok mdt =>
        let? valid := metadata_valid t mdt in
        let? (records, vm) := metadata_records mdt pruner valid vm in
        Ok (Some records, vm)
    | Err _ => Ok (None, vm)
    | Panic => Panic
    end.

(** The query of a snapshot: what it prunes by and sees. *)
Definition snapshot_query (t : Table) (ts : string) (filters : list Filter) (base_file_only : bool) : res Query :=
  let? timeline_view := create_view_as_of (table_timeline t) ts in
  let? partition_schema := get_partition_schema t in
  let? table_schema := get_schema_inner t true in
  let? _ := validate_fields_against_schemas filters [table_schema; partition_schema] in
  let? partition_pruner := partition_pruner_new filters partition_schema (table_configs t) in
  let file_pruner := if base_file_only then file_pruner_new filters table_schema partition_schema else file_pruner_empty in
  Ok (mkQuery partition_pruner file_pruner table_schema timeline_view).

(** [get_file_slices_inner] *)
Definition get_file_slices_inner (t : Table) (ts : string) (filters : list Filter) (base_file_only : bool) (v : Views)
    : res (list FileSlice.t * Views) :=
  let '(v, vm) := v in
  let? q := snapshot_query t ts filters base_file_only in
  let? (records, vm) := metadata_listing t (partition_pruner q) vm in
  let? estimator := get_or_init_estimator t ts in
  let? (file_slices, v) := FsView.get_file_slices fuel (table_configs t) estimator v q (map_to_list <$> records) in
  Ok (clear_logs base_file_only file_slices, (v, vm)).

Definition touched (groups : FileGroupSet) (s : FileSlice.t) : bool :=
  bool_decide (is_Some (groups !! (FileSlice.file_id s, FileSlice.partition_path s))).

(** [get_file_slices_between_inner] *)
Definition get_file_slices_between_inner (t : Table) (start_timestamp end_timestamp : string) (filters : list Filter)
    (base_file_only : bool) (v : Views) : res (list FileSlice.t * Views) :=
  let? estimator := get_or_init_estimator t end_timestamp in
  let? file_groups := get_file_groups_between (table_timeline t) (Some start_timestamp) (Some end_timestamp) estimator in
  let? (slices, v) := get_file_slices_inner t end_timestamp filters base_file_only v in
  Ok (clear_logs base_file_only (List.filter (touched file_groups) slices), v).

(** [get_file_slices] *)
Definition table_file_slices (t : Table) (options : ReadOptions) (v : Views) : res (list FileSlice.t * Views) :=
  let? prepared := prepare_reader_options t options in
  let? base_file_only := is_base_file_only t prepared in
  let? q := query_type prepared in
  match q with
  | Snapshot =>
      match end_timestamp prepared with
      | Some ts => get_file_slices_inner t ts (filters prepared) base_file_only v
      | None => Ok ([], v)
      end
  | Incremental =>
      match start_timestamp prepared, end_timestamp prepared with
      | Some start, Some end_ => get_file_slices_between_inner t start end_ (filters prepared) base_file_only v
      | _, _ => Ok ([], v)
      end
  end.

(** ** Rows *)

(** [build_file_group_reader] *)
Definition build_file_group_reader (t : Table) (hudi_opts : HudiConfigs) (extra_storage_overrides : list (string * string))
    : res Reader :=
  new_with_overrides (table_configs t) hudi_opts
    (foldl (fun m e => <[e.1 := e.2]> m) (table_storage_options t) extra_storage_overrides).

(** [finish_reader] *)
Definition finish_reader (t : Table) (reader : Reader) : res Reader :=
  let? schema := data_schema_for_read t in
  let reader := set_data_schema schema reader in
  let? inputs := table_gate_inputs t in
  Ok (match inputs with Some inputs => set_completion_gate_inputs inputs reader | None => reader end).

Definition reader_for_read_path (t : Table) (prepared : ReadOptions) : res Reader :=
  let? reader := build_file_group_reader t (ReadOptions.hudi_options prepared) [] in
  finish_reader t reader.

(** [create_file_group_reader_with_options] *)
Definition create_file_group_reader_with_options (t : Table) (read_options : option ReadOptions)
    (extra_storage_overrides : list (string * string)) : res Reader :=
  let? hudi_opts := match read_options with
                    | Some opts => res_map ReadOptions.hudi_options (prepare_reader_options t opts)
                    | None => Ok ∅
                    end in
  let? reader := build_file_group_reader t hudi_opts extra_storage_overrides in
  finish_reader t reader.

(** [read_file_slices_bounded] *)
Definition read_file_slices_bounded (t : Table) (reader : Reader) (file_slices : list FileSlice.t) (options : ReadOptions)
    : res (list Batch) :=
  let? concurrency := bounded_read_concurrency t file_slices in
  bounded_in_order (read_file_slice reader options) file_slices (Z.to_nat concurrency).

(** The common end of the two reads. *)
Definition read_slices_of (t : Table) (prepared : ReadOptions) (file_slices : list FileSlice.t) : res (list Batch) :=
  let? reader := reader_for_read_path t prepared in
  let? options := options_for_file_group t prepared in
  read_file_slices_bounded t reader file_slices options.

Definition read_snapshot_inner (t : Table) (prepared : ReadOptions) (v : Views) : res (list Batch * Views) :=
  match end_timestamp prepared with
  | None => Ok ([], v)
  | Some ts =>
      let? base_file_only := is_base_file_only t prepared in
      let? (file_slices, v) := get_file_slices_inner t ts (filters prepared) base_file_only v in
      let? batches := read_slices_of t prepared file_slices in
      Ok (batches, v)
  end.

Definition read_incremental_inner (t : Table) (prepared : ReadOptions) (v : Views) : res (list Batch * Views) :=
  match start_timestamp prepared, end_timestamp prepared with
  | Some start, Some end_ =>
      let? base_file_only := is_base_file_only t prepared in
      let? (file_slices, v) := get_file_slices_between_inner t start end_ (filters prepared) base_file_only v in
      let? batches := read_slices_of t prepared file_slices in
      Ok (batches, v)
  | _, _ => Ok ([], v)
  end.

(** [read] *)
Definition read (t : Table) (options : ReadOptions) (v : Views) : res (list Batch * Views) :=
  let? prepared := prepare_reader_options t options in
  let? q := query_type prepared in
  match q with
  | Snapshot => read_snapshot_inner t prepared v
  | Incremental => read_incremental_inner t prepared v
  end.

(** ** Streams *)

(** A slice whose stream does not open is one item, its error. *)
Definition slice_items (reader : Reader) (options : ReadOptions) (s : FileSlice.t) : list (res Batch) :=
  match read_file_slice_stream reader options s with
  | Ok items => items
  | Err e => [Err e]
  | Panic => [Panic]
  end.

(** The options of each slice: the filters, the projection, and the batch size. *)
Definition per_slice_options (template : ReadOptions) : res ReadOptions :=
  let? size := batch_size template in
  Ok (mkReadOptions (filters template) (projection template)
        match size with Some bs => <[ReadConfig.key_str ReadConfig.StreamBatchSize := pretty bs]> ∅ | None => ∅ end).

(** [read_snapshot_stream_inner]: the items the stream yields, slice after slice. *)
Definition read_snapshot_stream_inner (t : Table) (prepared : ReadOptions) (v : Views) : res (list (res Batch) * Views) :=
  match end_timestamp prepared with
  | None => Ok ([], v)
  | Some ts =>
      let? base_file_only := is_base_file_only t prepared in
      let? (file_slices, v) := get_file_slices_inner t ts (filters prepared) base_file_only v in
      if decide (file_slices = []) then Ok ([], v)
      else
        let? reader := reader_for_read_path t prepared in
        let? template := options_for_file_group t prepared in
        let? options := per_slice_options template in
        Ok (concat (slice_items reader options <$> file_slices), v)
  end.

(** [read_stream] *)
Definition read_stream (t : Table) (options : ReadOptions) (v : Views) : res (list (res Batch) * Views) :=
  let? prepared := prepare_reader_options t options in
  let? q := query_type prepared in
  match q with
  | Snapshot => read_snapshot_stream_inner t prepared v
  | Incremental => Err EUnsupported
  end.

(** ** Statistics *)

(** An error of [.ok()?] gives no statistics. *)
Definition ok_opt {A B} (r : res A) (k : A -> res (option B)) : res (option B) :=
  match r with Ok a => k a | Err _ => Ok None | Panic => Panic end.

(** The sizes of the active Parquet files of the records. *)
Definition parquet_sizes (records : gmap string FilesPartitionRecord) : list Z :=
  snd <$> filter (fun e => matches_extension Parquet e.1 = true)
    (concat (active_files_with_sizes <$> filter (fun r => is_all_partitions r = false) (map_to_list records).*2)).

(** [compute_table_stats]: rows, then bytes. *)
Definition compute_table_stats (t : Table) (options : option ReadOptions) (vm : Loaded) : res (option (Z * Z)) :=
  if match options with
     | Some opts => match query_type opts with Ok Snapshot => false | _ => true end
     | None => false
     end then Ok None
  else
    let? enabled := is_metadata_table_enabled t in
    if negb enabled then Ok None
    else
      ok_opt (get_partition_schema t) (fun partition_schema =>
      ok_opt (partition_pruner_new [] partition_schema (table_configs t)) (fun pruner =>
      ok_opt (metadata_table t) (fun mdt =>
      ok_opt (metadata_valid t mdt) (fun valid =>
      ok_opt (metadata_records mdt pruner valid vm) (fun '(records, _) =>
      ok_opt (base_file_format_from_configs (table_configs t)) (fun fmt =>
        if match fmt with Some Parquet | None => false | Some _ => true end then Ok None
        else
          let? total_on_disk_size := u64_sum (parquet_sizes records) in
          if decide (total_on_disk_size = 0%Z) then Ok None
          else
            ok_opt (get_latest_commit_timestamp (table_timeline t)) (fun latest_ts =>
              let? estimator := get_or_init_estimator t latest_ts in
              match estimator with
              | None => Ok None
              | Some estimate =>
                  let '(bytes, rows) := estimate total_on_disk_size in
                  Ok (Some (Z.max rows 0, Z.max bytes 0))
              end))))))).

(** * Incremental reads *)

Lemma clear_logs_filter b (keep : FileSlice.t -> bool) l :
  (forall s, keep (FileSlice.set_log_files s []) = keep s) ->
  clear_logs b (List.filter keep (clear_logs b l)) = List.filter keep (clear_logs b l).
Proof.
  intros Hk. unfold clear_logs. destruct b; [|done]. induction l as [|s l IH]; cbn; [done|].
  rewrite Hk. by destruct (keep s); cbn; rewrite IH.
Qed.

(** The slices of a window are those of its end whose group was touched. *)
Lemma slices_between t start end_ fs b v slices v' :
  get_file_slices_between_inner t start end_ fs b v = Ok (slices, v') ->
  exists est groups all, get_file_groups_between (table_timeline t) (Some start) (Some end_) est = Ok groups /\
    get_file_slices_inner t end_ fs b v = Ok (all, v') /\ slices = List.filter (touched groups) all.
Proof.
  unfold get_file_slices_between_inner. intros (est & _ & E)%res_bind_Ok. apply res_bind_Ok in E as (groups & Hg & E).
  apply res_bind_Ok in E as ([all v1] & Hall & [= <- <-]). exists est, groups, all. split_and!; [done|done|].
  unfold get_file_slices_inner in Hall. destruct v as [v0 vm].
  apply res_bind_Ok in Hall as (q & _ & E). apply res_bind_Ok in E as ([records vm1] & _ & E).
  apply res_bind_Ok in E as (est1 & _ & E). apply res_bind_Ok in E as ([l v2] & _ & [= <- <-]).
  by rewrite clear_logs_filter.
Qed.

(** The group of a slice. *)
Definition group_id (s : FileSlice.t) : string * string := (FileSlice.file_id s, FileSlice.partition_path s).

Definition window_touches (t : Table) (commits : list Instant) (s : FileSlice.t) : Prop :=
  exists c, c ∈ commits /\ touches (table_timeline t) c (group_id s).

Definition window_replaces (t : Table) (commits : list Instant) (s : FileSlice.t) : Prop :=
  exists c, c ∈ commits /\ replaces (table_timeline t) c (group_id s).

Lemma slices_between_iff t start end_ fs b v slices v' :
  get_file_slices_between_inner t start end_ fs b v = Ok (slices, v') ->
  exists commits all, requested_commits t start end_ = Ok commits /\ get_file_slices_inner t end_ fs b v = Ok (all, v') /\
    forall s, s ∈ slices <-> s ∈ all /\ window_touches t commits s /\ ~ window_replaces t commits s.
Proof.
  intros (est & groups & all & Hg & Hall & ->)%slices_between.
  destruct (file_groups_between_spec _ _ _ _ _ Hg) as (selector & Hsel & _ & Hkeys).
  exists (select selector (completed_commits (table_timeline t))), all.
  split; [unfold requested_commits; by rewrite Hsel|]. split; [done|]. intros s.
  rewrite !list_elem_of_In, List.filter_In. unfold touched. rewrite bool_decide_eq_true. f_equiv. apply Hkeys.
Qed.

Lemma query_type_with_timestamp a b o : query_type (with_end_timestamp a (with_start_timestamp b o)) = query_type o.
Proof. unfold query_type, option_text. cbn. by rewrite !lookup_insert_ne by done. Qed.

Lemma query_type_with_window l o : query_type (with_hudi_option IncrementalInstantTimes l o) = query_type o.
Proof. unfold query_type, option_text. cbn. by rewrite !lookup_insert_ne by done. Qed.

Lemma window_query_type t o start end_ p : resolve_incremental_window t o start end_ = Ok p -> query_type p = query_type o.
Proof.
  unfold resolve_incremental_window. intros (admitted & _ & E)%res_bind_Ok.
  destruct (list.head admitted) as [first|]; [destruct (list.last admitted) as [lst|]|].
  - apply res_bind_Ok in E as (below & _ & [= <-]).
    by rewrite query_type_with_timestamp, query_type_with_window, query_type_with_timestamp.
  - injection E as <-. by rewrite query_type_with_window, query_type_with_timestamp.
  - injection E as <-. by rewrite query_type_with_window, query_type_with_timestamp.
Qed.

(** C20: An incremental read plans all that its window changed. In a table whose
    timeline is in UTC, and for a window that admits some commit, the first of them at
    a dated instant after the first millisecond of the year 0000, the read takes its
    slices from those that a snapshot at the end of the resolved window would read with
    the same filters -- which prune partitions, and files by their statistics where
    base files alone are read. It plans each of these whose file group an admitted
    commit wrote to, unless a commit of the resolved window replaced the group; and it
    plans none but those of groups that a commit of the resolved window, not before the
    first admitted one, wrote to and none replaced. *)
Theorem incremental_read_complete `{!TimelineChronoLaws TC} t options start end_ admitted first d v slices v' :
  new_from_storage (table_configs t) = Ok (table_timeline t) ->
  timezone_from_str (get_timezone_from_configs (table_configs t)) = inl UTC ->
  query_type (with_sanitized_timestamps options) = Ok Incremental ->
  resolve_incremental_range t (with_sanitized_timestamps options) = Ok (Some (start, end_)) ->
  get_completed_commits_in_range (table_timeline t) (Some start) (Some end_) = Ok admitted ->
  list.head admitted = Some first -> date_instant (timestamp first) d -> str_lt "00000101000000000" (timestamp first) ->
  table_file_slices t options v = Ok (slices, v') ->
  exists prepared b start' end' commits all,
    prepare_reader_options t options = Ok prepared /\
    start_timestamp prepared = Some start' /\ end_timestamp prepared = Some end' /\
    requested_commits t start' end' = Ok commits /\
    get_file_slices_inner t end' (filters prepared) b v = Ok (all, v') /\
    (forall s, s ∈ slices -> s ∈ all /\ ~ window_replaces t commits s /\ exists c, c ∈ commits /\
      (epoch_millis first <= epoch_millis c)%Z /\ touches (table_timeline t) c (group_id s)) /\
    forall s, s ∈ all -> window_touches t admitted s -> ~ window_replaces t commits s -> s ∈ slices.
Proof.
  intros Htl Htz Hq Hr Ha Hf Hd Hpos. unfold table_file_slices. intros (p & Hp & E)%res_bind_Ok. pose proof Hp as Hw.
  unfold prepare_reader_options in Hw. rewrite Hq, Hr in Hw. cbn [res_bind] in Hw.
  apply res_bind_Ok in E as (b & _ & E). rewrite (window_query_type _ _ _ _ _ Hw), Hq in E. cbn [res_bind] in E.
  destruct (window_covers _ _ _ _ _ _ _ _ Htl Htz Hw Ha Hf Hd Hpos)
    as (_ & start' & end' & commits & Hs & He & Hc & Hin & Hearliest).
  rewrite Hs, He in E. destruct (slices_between_iff _ _ _ _ _ _ _ _ E) as (commits1 & all & Hc1 & Hall & Hiff).
  assert (commits1 = commits) as -> by congruence.
  exists p, b, start', end', commits, all. split_and!; try done.
  - intros s (Hsa & (c & Hcin & Ht) & Hn)%Hiff. split; [done|]. split; [done|]. exists c. split_and!; [done|by apply Hearliest|done].
  - intros s Hsa (c & Hcin & Ht) Hn. apply Hiff. split_and!; [done|exists c; split; [by apply Hin|done]|done].
Qed.
End reads.

(** * A small table *)
Module SampleReads.
Import CivilCalendar SampleScalars SampleDates SamplePartitions SampleListing.
#[local] Existing Instance calendar.
#[local] Instance sorter : SortUnstable Instant instant_le := merge_sort_unstable instant_le.

Definition configs : HudiConfigs :=
  <["hoodie.table.partition.fields" := "region"]> (<["hoodie.table.type" := "MERGE_ON_READ"]>
    (<["hoodie.base.path" := "file:///tmp/table"]> Timeline.table_configs)).

Definition timeline : Timeline :=
  match new_from_storage (H := Timeline.table_store) (C := Civil.civil) configs with
  | Ok t => t
  | _ => timeline_new ∅ (mkLoader ∅ V1Active) None
  end.

Definition table : Table := mkTable configs ∅ timeline.

(** What the commits of the timeline wrote. *)
Definition table_root : dir :=
  Dir [] [("p", Dir [("a_1_20240101000000000.parquet", 10%Z); ("b_1_20240101000000000.parquet", 10%Z);
                     (".b_20240102000000000.log.1_0", 10%Z); ("c_1_20240103000000000.parquet", 10%Z);
                     ("d_1_20240101000000000.parquet", 10%Z)] [])].

#[local] Instance table_objects : ObjectListing := {|
  list_with_delimiter path :=
    match descend table_root (if decide (path = "") then [] else str_split "/" path) with
    | Some (Dir files children) => Ok (files, children.*1)
    | None => Err EStorage
    end
|}.

#[local] Instance no_footers : ParquetFooters := {| open_footer _ := Err EStorage |}.

Definition columns : Schema := [mkField "id" Int32; mkField "region" Utf8].
#[local] Instance schemas : SchemaResolver := {| resolve_schema _ := Ok columns; resolve_data_schema _ := Ok columns |}.

#[local] Instance no_metadata : MetadataFiles := {|
  metadata_table _ := Err EMetadataTable;
  metadata_valid _ _ := Ok ∅;
  metadata_records _ _ _ v := Ok (∅, v)
|}.

#[local] Instance readers : SliceReaders := {|
  Reader := unit;
  new_with_overrides _ _ _ := Ok tt;
  set_data_schema _ r := r;
  set_completion_gate_inputs _ r := r;
  read_file_slice _ _ _ := Err EStorage;
  read_file_slice_stream _ _ _ := Err EStorage;
  estimator_from_footer _ := Err EStorage
|}.

Definition options : ReadOptions :=
  with_end_timestamp SampleTable.window_end (with_start_timestamp SampleTable.window_start
    (with_query_type Incremental read_options_new)).

Definition planned (o : ReadOptions) : res (list FileSlice.t * (Loaded * Loaded)) :=
  table_file_slices (H := Timeline.table_store) (H1 := Timeline.table_codec) (C := Civil.civil) 3 table o (∅, ∅).

Definition ids_of (r : res (list FileSlice.t * (Loaded * Loaded))) : option (list string) :=
  match r with Ok (l, _) => Some (FileSlice.file_id <$> l) | _ => None end.

(** The group "d" is not of the window, and "a" was replaced. *)
Example planned_reads :
  ids_of (planned read_options_new) = Some ["c"; "b"; "d"] /\ ids_of (planned options) = Some ["c"; "b"].
Proof. split; vm_compute; reflexivity. Qed.

Definition planned_slices : list FileSlice.t := match planned options with Ok (l, _) => l | _ => [] end.
Definition views_after : Loaded * Loaded := match planned options with Ok (_, v) => v | _ => (∅, ∅) end.

Lemma incremental_read_complete_witness :
  FileSlice.file_id <$> planned_slices = ["c"; "b"] /\
  exists prepared start' end' commits,
    prepare_reader_options (C := Civil.civil) table options = Ok prepared /\
    start_timestamp prepared = Some start' /\ end_timestamp prepared = Some end' /\
    requested_commits (C := Civil.civil) table start' end' = Ok commits /\
    forall s, s ∈ planned_slices -> exists c, c ∈ commits /\
      touches (H := Timeline.table_store) (H1 := Timeline.table_codec) timeline c (group_id s).
Proof.
  split; [vm_compute; reflexivity|].
  destruct (incremental_read_complete (H := Timeline.table_store) (H1 := Timeline.table_codec) (C := Civil.civil) (TC := calendar) 3 table options
    SampleTable.window_start SampleTable.window_end SampleTable.admitted SampleTable.first_admitted 1704153600000%Z (∅, ∅)
    planned_slices views_after)
    as (p & b & start' & end' & commits & all & H1 & H2 & H3 & H4 & _ & H6 & _).
  - vm_compute. reflexivity.
  - vm_compute. reflexivity.
  - vm_compute. reflexivity.
  - vm_compute. reflexivity.
  - vm_compute. reflexivity.
  - vm_compute. reflexivity.
  - split; [vm_compute; reflexivity..|]. do 2 eexists. vm_compute. split_and!; reflexivity.
  - vm_compute. reflexivity.
  - vm_compute. reflexivity.
  - exists p, start', end', commits. split; [exact H1|]. split; [exact H2|]. split; [exact H3|]. split; [exact H4|].
    intros s Hs. destruct (H6 s Hs) as (_ & _ & c & Hc & _ & Ht). exists c. exact (conj Hc Ht).
Defined.
End SampleReads.
