(* ===== verification/ReadContext.v ===== *)
(** The context of a file group's read, made of a table's options:
    crates/core/src/file_group/reader_v2/{resolver,reader_context,reader_parameters,
    iterator_mode,gaps}.rs, with [resolve_custom_merger] of metadata_merger.rs.

    A read merges by commit time, by event time, or by a merger that the table's payload
    class names; tables that do not say which are read as they were written.  The options
    are split into what the table says of itself and what the read says. *)
From Stdlib Require Import Ascii.
From stdpp Require Import base gmap sets list strings sorting numbers pretty.
From S2P Require Import HFileIndex Prelude RustStr Chrono Config Instant Selector View FileGroup GroupBuilder Listing Expr ArrowFilter LogFetch SpillMap Options Table.
Local Open Scope res_scope.

(** * The custom merger of a table *)
Inductive CustomMerger := MetadataPayload.

Definition METADATA_PAYLOAD_CLASS : string := "org.apache.hudi.metadata.HoodieMetadataPayload".
Definition PAYLOAD_BASED_STRATEGY_ID : string := "00000000-0000-0000-0000-000000000000".

Definition RECORD_MERGE_STRATEGY_ID_KEYS : list string :=
  ["hoodie.record.merge.strategy.id"; "hoodie.compaction.record.merger.strategy"].

Definition PAYLOAD_CLASS_KEYS : list string :=
  ["hoodie.compaction.payload.class"; "hoodie.datasource.write.payload.class"; "hoodie.table.legacy.payload.class"].

(** [keys.iter().find_map(..)] of [options.get] *)
Fixpoint find_option (keys : list string) (options : HudiConfigs) : option string :=
  match keys with
  | [] => None
  | k :: keys => match options !! k with Some v => Some v | None => find_option keys options end
  end.

Definition resolve_custom_merger (options : HudiConfigs) : option CustomMerger :=
  let lookup keys := default "" (trim <$> find_option keys options) in
  let payload_class := lookup PAYLOAD_CLASS_KEYS in
  let strategy_id := lookup RECORD_MERGE_STRATEGY_ID_KEYS in
  let defers_to_payload := bool_decide (strategy_id = "") || eq_ignore_ascii_case strategy_id PAYLOAD_BASED_STRATEGY_ID in
  if negb defers_to_payload then None
  else if decide (payload_class = METADATA_PAYLOAD_CLASS) then Some MetadataPayload else None.

(** * The merge mode *)
Inductive MergeMode := CommitTimeOrdering | EventTimeOrdering | CustomMode.

Definition merge_mode_as_ref (m : MergeMode) : string :=
  match m with
  | CommitTimeOrdering => "COMMIT_TIME_ORDERING"
  | EventTimeOrdering => "EVENT_TIME_ORDERING"
  | CustomMode => "CUSTOM"
  end.

(** What a mode can be inferred to. *)
Inductive InferredMode := InferredCommitTime | InferredEventTime | InferredCustom.

Definition RECORD_MERGE_MODE : string := "hoodie.record.merge.mode".
Definition EVENT_TIME_STRATEGY_ID : string := "eeb8d96f-b1e4-49fd-bbf8-28ac514178e5".
Definition COMMIT_TIME_STRATEGY_ID : string := "ce9acb64-bde0-424c-9b91-f6ebba25356d".
Definition EVENT_TIME_PAYLOADS : list string :=
  ["org.apache.hudi.common.model.DefaultHoodieRecordPayload"; "org.apache.hudi.common.model.EventTimeAvroPayload"].
Definition COMMIT_TIME_PAYLOAD : string := "org.apache.hudi.common.model.OverwriteWithLatestAvroPayload".

Definition mode_from_payload_class (payload_class : string) : option InferredMode :=
  if decide (payload_class = "") then None
  else if decide (payload_class ∈ EVENT_TIME_PAYLOADS) then Some InferredEventTime
  else if decide (payload_class = COMMIT_TIME_PAYLOAD) then Some InferredCommitTime
  else Some InferredCustom.

Definition mode_from_strategy_id (strategy_id : string) : option InferredMode :=
  if decide (strategy_id = "") then None
  else if decide (strategy_id = EVENT_TIME_STRATEGY_ID) then Some InferredEventTime
  else if decide (strategy_id = COMMIT_TIME_STRATEGY_ID) then Some InferredCommitTime
  else Some InferredCustom.

(** [or_else] *)
Definition first_mode (a b : option InferredMode) : option InferredMode := match a with Some m => Some m | None => b end.

Definition infer_merge_mode (configs : HudiConfigs) : res InferredMode :=
  let payload_class := default "" (find_option PAYLOAD_CLASS_KEYS configs) in
  let strategy_id := default "" (find_option RECORD_MERGE_STRATEGY_ID_KEYS configs) in
  if decide (payload_class = "" /\ strategy_id = "") then
    let? v := of_parsed (try_get configs TableConfig.OrderingFields) in
    let? has_ordering_field :=
      match v with
      | Some v => let? fields := into_list v in Ok (existsb (fun f => negb (bool_decide (trim f = ""))) fields)
      | None => Ok false
      end in
    Ok (if has_ordering_field : bool then InferredEventTime else InferredCommitTime)
  else
    let from_payload := mode_from_payload_class payload_class in
    let from_strategy := mode_from_strategy_id strategy_id in
    let? v := of_parsed (try_get configs TableConfig.TableVersion) in
    let? table_version := match v with Some v => into_isize v | None => Ok 6%Z end in
    ok_or (if decide (8 <= table_version)%Z then first_mode from_strategy from_payload
           else first_mode from_payload from_strategy) EUnsupported.

(** [char::to_ascii_uppercase], on a string *)
Definition to_ascii_upper (a : ascii) : ascii :=
  let n := N_of_ascii a in if (97 <=? n)%N && (n <=? 122)%N then ascii_of_N (n - 32) else a.

Fixpoint to_ascii_uppercase (s : string) : string :=
  match s with EmptyString => EmptyString | String a s => String (to_ascii_upper a) (to_ascii_uppercase s) end.

Definition resolve_merge_mode (configs : HudiConfigs) : res MergeMode :=
  let has_merger := match resolve_custom_merger configs with Some _ => true | None => false end in
  match configs !! RECORD_MERGE_MODE with
  | Some mode =>
      let mode := to_ascii_uppercase mode in
      if decide (mode = "COMMIT_TIME_ORDERING") then Ok CommitTimeOrdering
      else if decide (mode = "EVENT_TIME_ORDERING") then Ok EventTimeOrdering
      else if bool_decide (mode = "CUSTOM") && has_merger then Ok CustomMode
      else Err EUnsupported
  | None =>
      let? mode := infer_merge_mode configs in
      match mode with
      | InferredCommitTime => Ok CommitTimeOrdering
      | InferredEventTime => Ok EventTimeOrdering
      | InferredCustom => if has_merger then Ok CustomMode else Err EUnsupported
      end
  end.

(** * The two kinds of options *)
Definition READ_CONFIG_PREFIX : string := "hoodie.read.".
Definition CRATE_CONFIG_PREFIXES : list string := ["hoodie.internal."; "hoodie.plan."].
Definition CONFIG_MERGE_TYPE : string := "hoodie.datasource.merge.type".

Definition READER_CONFIG_KEYS : list string :=
  [CONFIG_MERGE_MAX_SIZE; CONFIG_MAX_PEAK_MEMORY; CONFIG_SPILLABLE_MAP_PATH; CONFIG_DISKMAP_TYPE; CONFIG_MERGE_TYPE].

Definition is_reader_config (key : string) : bool :=
  starts_with READ_CONFIG_PREFIX key || bool_decide (key ∈ READER_CONFIG_KEYS).

Definition is_crate_config (key : string) : bool := existsb (fun prefix => starts_with prefix key) CRATE_CONFIG_PREFIXES.

(** One option: into the table's properties, the read's, or neither. *)
Definition partition_step (acc : HudiConfigs * HudiConfigs) (e : string * string) : HudiConfigs * HudiConfigs :=
  if is_reader_config e.1 then (acc.1, <[e.1 := e.2]> acc.2)
  else if negb (is_crate_config e.1) then (<[e.1 := e.2]> acc.1, acc.2)
  else acc.

Definition partition_configs (configs : HudiConfigs) : HudiConfigs * HudiConfigs :=
  foldl partition_step (∅, ∅) (map_to_list configs).

(** [try_get(k)?.map(String::from)] *)
Definition try_string {K} `{ConfigParser K} (configs : HudiConfigs) (k : K) : res (option string) :=
  let? v := of_parsed (try_get configs k) in
  match v with Some v => res_map Some (into_string v) | None => Ok None end.

Definition resolve_instant_range (configs : HudiConfigs) : res InstantRange :=
  let? timezone := default_string configs TableConfig.TimelineTimezone in
  let? start_timestamp := try_string configs ReadConfig.StartTimestamp in
  let? end_timestamp := try_string configs ReadConfig.EndTimestamp in
  Ok (ir_new timezone start_timestamp end_timestamp false true).

Definition resolve_use_record_position (configs : HudiConfigs) : res bool :=
  let? v := of_parsed (try_get configs ReadConfig.MergeUseRecordPositions) in
  match v with Some v => into_bool v | None => Ok false end.

(** [BaseFileFormatValue::resolve_from_configs] *)
Definition format_resolve_from_configs (configs : HudiConfigs) (file_path : option string) : res BaseFileFormatValue :=
  let? configured := base_file_format_from_configs configs in
  match configured with
  | Some format => Ok format
  | None => Ok (default Parquet (path ← file_path; from_extension path))
  end.

(** * The context *)

(** What a caller pushes down: [RowFilterBuilder] and [RowGroupSelector] are functions on
    Parquet's metadata. *)
Class Pushdown := { RowFilterBuilder : Type; RowGroupSelector : Type }.

(** [ReaderParameters] *)
Record ReaderParameters := mkParameters {
  use_record_position : bool;
  emit_delete : bool;
  sort_output : bool;
  allow_inflight_instants : bool
}.

Definition default_parameters : ReaderParameters := mkParameters false false false false.

(** [IteratorMode] *)
Inductive IteratorMode := EngineRecord | HoodieRecord | RecordKeyMode.

Definition iterator_mode_from_str (s : string) : parsed IteratorMode :=
  if decide (s = "ENGINE_RECORD") then inl EngineRecord
  else if decide (s = "HOODIE_RECORD") then inl HoodieRecord
  else if decide (s = "RECORD_KEY") then inl RecordKeyMode
  else inr InvalidValue.

Section context.
Context {PD : Pushdown}.

(** [ReaderContext]; what it keeps of records and schemas is made in [RecordKeys] and
    [ReadSchema]. *)
Record ReaderContext := mkContext {
  ctx_table_path : string;
  latest_commit_time : string;
  base_file_format : string;
  ctx_has_log_files : bool;
  needs_bootstrap_merge : bool;
  should_merge_use_record_position : bool;
  iterator_mode : string;
  merge_mode : string;
  merge_strategy_id : string;
  ctx_instant_range : option InstantRange;
  ctx_partition_path : string;
  ctx_table_config : HudiConfigs;
  hoodie_reader_config : HudiConfigs;
  row_filter_builder : option RowFilterBuilder;
  row_group_selector : option RowGroupSelector;
  ctx_key_predicate : option KeyPredicate;
  mor_pk_safe : bool;
  repair_risk_columns : list string;
  ctx_gate_inputs : option CompletionGateInputs
}.

(** [timezone] *)
Definition ctx_timezone (c : ReaderContext) : string := default "utc" (ctx_table_config c !! TableConfig.as_ref TableConfig.TimelineTimezone).

Definition resolve_reader_context (configs : HudiConfigs) (has_log_files : bool) (base_file_path : option string)
    : res ReaderContext :=
  let? table_path := res_bind (of_parsed (get configs TableConfig.BasePath)) into_string in
  let? v := of_parsed (try_get configs ReadConfig.EndTimestamp) in
  let? v := ok_or v EConfig in
  let? latest_commit_time := into_string v in
  let? mode :=
    match resolve_merge_mode configs with
    | Err EUnsupported => if has_log_files then Err EUnsupported else Ok CommitTimeOrdering
    | r => r
    end in
  let? format := format_resolve_from_configs configs base_file_path in
  let? range := resolve_instant_range configs in
  let '(table_config, reader_config) := partition_configs configs in
  let strategy_id := default "" (find_option RECORD_MERGE_STRATEGY_ID_KEYS table_config) in
  let? by_position := resolve_use_record_position configs in
  Ok (mkContext table_path latest_commit_time (format_as_ref format) has_log_files false by_position "ENGINE_RECORD"
        (merge_mode_as_ref mode) strategy_id (Some range) "" table_config reader_config None None None false [] None).

(** * What a read quietly does not do *)
Inductive Gap := PositionBasedMergeDeclined | PositionBasedMergeAbandonedMidScan.
Inductive ComparedWith := Jvm | VersionOne | Both.

Definition compared_with (gap : Gap) : ComparedWith :=
  match gap with PositionBasedMergeDeclined | PositionBasedMergeAbandonedMidScan => Jvm end.

Definition applicable (context : ReaderContext) (parameters : ReaderParameters)
    (chose_position_merge still_merging_by_position : bool) : list Gap :=
  let asked := use_record_position parameters || should_merge_use_record_position context in
  if negb asked || negb (ctx_has_log_files context) then []
  else if negb chose_position_merge then [PositionBasedMergeDeclined]
  else if negb still_merging_by_position then [PositionBasedMergeAbandonedMidScan]
  else [].
End context.

(** * What the split of the options keeps *)
Definition table_part (key : string) : bool := negb (is_reader_config key) && negb (is_crate_config key).

Lemma partition_fold_lookup l : forall acc k, NoDup l.*1 ->
  (foldl partition_step acc l).1 !! k
    = (if table_part k then match (list_to_map l : HudiConfigs) !! k with Some v => Some v | None => acc.1 !! k end
       else acc.1 !! k) /\
  (foldl partition_step acc l).2 !! k
    = (if is_reader_config k then match (list_to_map l : HudiConfigs) !! k with Some v => Some v | None => acc.2 !! k end
       else acc.2 !! k).
Proof.
  unfold table_part. induction l as [|[k' v] l IH]; intros acc k Hnd; cbn [foldl list_to_map foldr].
  { rewrite lookup_empty. by destruct (negb _ && negb _), (is_reader_config k). }
  rewrite fmap_cons, list.NoDup_cons in Hnd. destruct Hnd as [Hk Hnd]. destruct (IH (partition_step acc (k', v)) k Hnd) as [-> ->].
  cbn [fst snd uncurry] in *. rewrite lookup_insert. unfold partition_step. cbn [fst snd].
  case_decide as E; [subst k'; apply not_elem_of_list_to_map_1 in Hk; rewrite Hk|].
  - destruct (is_reader_config k), (is_crate_config k); cbn [negb andb fst snd]; rewrite ?lookup_insert_eq; done.
  - destruct (is_reader_config k'), (is_crate_config k'); cbn [negb andb fst snd]; rewrite ?lookup_insert_ne by done; done.
Qed.

Lemma partition_lookup configs k :
  (partition_configs configs).1 !! k = (if table_part k then configs !! k else None) /\
  (partition_configs configs).2 !! k = (if is_reader_config k then configs !! k else None).
Proof.
  unfold partition_configs. destruct (partition_fold_lookup (map_to_list configs) (∅, ∅) k) as [-> ->]; [apply NoDup_fst_map_to_list|].
  rewrite list_to_map_to_list. cbn [fst snd]. rewrite lookup_empty. by destruct (table_part k), (is_reader_config k), (configs !! k).
Qed.

Lemma find_option_ext keys (o o' : HudiConfigs) : (forall k, k ∈ keys -> o !! k = o' !! k) -> find_option keys o = find_option keys o'.
Proof. induction keys as [|k keys IH]; intros H; cbn; [done|]. rewrite (H k) by by left. rewrite IH; [done|]. intros x Hx. apply H. by right. Qed.

(** The options that name a merger are the table's own. *)
Lemma table_config_merger configs : resolve_custom_merger (partition_configs configs).1 = resolve_custom_merger configs.
Proof.
  unfold resolve_custom_merger.
  rewrite (find_option_ext PAYLOAD_CLASS_KEYS (partition_configs configs).1 configs),
    (find_option_ext RECORD_MERGE_STRATEGY_ID_KEYS (partition_configs configs).1 configs); [done|..];
    intros k Hk; rewrite (proj1 (partition_lookup configs k)); repeat (apply elem_of_cons in Hk as [->|Hk]; [done|]); by apply not_elem_of_nil in Hk.
Qed.

(** ** Modes *)
Lemma lower_of_upper a : to_ascii_lower (to_ascii_upper a) = to_ascii_lower a.
Proof. by destruct a as [[] [] [] [] [] [] [] []]. Qed.

Lemma upper_of_lower a : to_ascii_upper (to_ascii_lower a) = to_ascii_upper a.
Proof. by destruct a as [[] [] [] [] [] [] [] []]. Qed.

Lemma lowercase_of_uppercase s : to_ascii_lowercase (to_ascii_uppercase s) = to_ascii_lowercase s.
Proof. induction s as [|a s IH]; cbn; [done|]. by rewrite lower_of_upper, IH. Qed.

Lemma uppercase_of_lowercase s : to_ascii_uppercase (to_ascii_lowercase s) = to_ascii_uppercase s.
Proof. induction s as [|a s IH]; cbn; [done|]. by rewrite upper_of_lower, IH. Qed.

(** A text in capitals is matched whatever the case. *)
Lemma uppercase_is t s : to_ascii_uppercase t = t -> to_ascii_uppercase s = t <-> eq_ignore_ascii_case s t = true.
Proof.
  intros Ht. unfold eq_ignore_ascii_case. rewrite bool_decide_eq_true. split.
  - intros <-. by rewrite lowercase_of_uppercase.
  - intros H. by rewrite <- (uppercase_of_lowercase s), H, uppercase_of_lowercase.
Qed.

(** A mode that is resolved is one the mergers know, with the merger it needs. *)
Lemma resolved_custom configs : resolve_merge_mode configs = Ok CustomMode -> is_Some (resolve_custom_merger configs).
Proof.
  unfold resolve_merge_mode. destruct (resolve_custom_merger configs); [by eauto|]. cbv zeta.
  destruct (configs !! RECORD_MERGE_MODE); [rewrite andb_false_r; by repeat case_decide|]. intros (m & _ & H)%res_bind_Ok. by destruct m.
Qed.

Lemma resolved_context {PD : Pushdown} configs logs path c : resolve_reader_context configs logs path = Ok c ->
  exists mode, merge_mode c = merge_mode_as_ref mode /\ ctx_table_config c = (partition_configs configs).1 /\
    hoodie_reader_config c = (partition_configs configs).2 /\ ctx_has_log_files c = logs /\
    (resolve_merge_mode configs = Ok mode \/ logs = false /\ mode = CommitTimeOrdering) /\
    ctx_key_predicate c = None /\ row_filter_builder c = None /\ row_group_selector c = None /\
    needs_bootstrap_merge c = false /\ repair_risk_columns c = [].
Proof.
  unfold resolve_reader_context. intros (path0 & _ & H)%res_bind_Ok. apply res_bind_Ok in H as (v & _ & H).
  apply res_bind_Ok in H as (v' & _ & H). apply res_bind_Ok in H as (t & _ & H). apply res_bind_Ok in H as (mode & Hm & H).
  apply res_bind_Ok in H as (fmt & _ & H). apply res_bind_Ok in H as (range & _ & H).
  destruct (partition_configs configs) as [tc rc]. apply res_bind_Ok in H as (pos & _ & [= <-]). exists mode. split_and!; try done.
  destruct (resolve_merge_mode configs) as [m|e|]; [left; congruence| |done].
  destruct e; try done. destruct logs; [done|]. injection Hm as <-. by right.
Qed.
