(* ===== verification/ReadSchema.v ===== *)
(** The columns a read of a file group needs:
    crates/core/src/file_group/reader_v2/{delete_context,schema_handler}.rs.

    A query asks for some columns; merging needs more: keys, ordering fields, whatever marks
    a delete, and what a custom merger reads.  The schema to read is the query's with those
    appended.  Fields of schemas are Arrow's, of which the code looks at names alone; the
    schemas in Avro's JSON that another engine may give are behind an interface. *)
From Stdlib Require Import Ascii.
From stdpp Require Import base gmap sets list strings sorting numbers.
From S2P Require Import Prelude RustStr Chrono Config Instant Selector Expr ArrowFilter Options ReadContext.
Local Open Scope res_scope.

(** Arrow's [Field]. *)
Class ArrowFields := { AField : Type; f_name : AField -> string }.

(** Functions of schema/avro_schema_utils.rs and schema/resolver.rs on schemas as JSON. *)
Class AvroSchemas `{ArrowFields} := {
  append_mandatory_fields_avro_json : string -> string -> list string -> res string;
  avro_json_to_arrow_schema : string -> res (list AField);
  (** [are_schemas_projection_equivalent] *)
  projection_equivalent : list AField -> list AField -> bool
}.

Section schemas.
Context `{AF : ArrowFields}.

Abbreviation ASchema := (list AField).

(** [Schema::column_with_name] *)
Fixpoint column_with_name (name : string) (s : ASchema) : option (nat * AField) :=
  match s with
  | [] => None
  | f :: s => if decide (f_name f = name) then Some (0, f) else (fun p => (S p.1, p.2)) <$> column_with_name name s
  end.

Definition has_column (name : string) (s : ASchema) : bool := match column_with_name name s with Some _ => true | None => false end.

(** * Deletes *)
Record DeleteContext := mkDeleteContext {
  custom_delete_marker : option (string * string);
  has_built_in_delete_field : bool;
  hoodie_operation_pos : option nat;
  delete_reader_schema : ASchema
}.

Definition DELETE_KEY_PROP : string := "hoodie.payload.delete.field".
Definition DELETE_MARKER_PROP : string := "hoodie.payload.delete.marker".
Definition RECORD_MERGE_PROPERTY_PREFIX : string := "hoodie.record.merge.property.".
Definition TABLE_VERSION_KEY : string := "hoodie.table.version".
Definition MERGE_PROPS_SYNTHESIS_MAX_TABLE_VERSION : Z := 9.
Definition IS_DELETED : string := "_hoodie_is_deleted".
Definition OPERATION : string := "_hoodie_operation".

(** [parse::<i32>()] *)
Definition parse_i32 (s : string) : option Z :=
  v ← parse_i64 s; if decide (- 2 ^ 31 <= v < 2 ^ 31)%Z then Some v else None.

Definition synthesize_legacy_delete_marker (props : HudiConfigs) : option (string * string) :=
  text ← props !! TABLE_VERSION_KEY; version ← parse_i32 (trim text);
  if decide (MERGE_PROPS_SYNTHESIS_MAX_TABLE_VERSION <= version)%Z then None
  else
    payload_class ← find_option PAYLOAD_CLASS_KEYS props;
    if ends_with "AWSDmsAvroPayload" payload_class then Some ("Op", "D")
    else if ends_with "MySqlDebeziumAvroPayload" payload_class || ends_with "PostgresDebeziumAvroPayload" payload_class then
      Some ("_change_operation_type", "d")
    else None.

(** The closure [lookup] of [get_custom_delete_marker]. *)
Definition merge_property (props : HudiConfigs) (suffix : string) : option string :=
  v ← (match props !! (RECORD_MERGE_PROPERTY_PREFIX +:+ suffix) with Some v => Some v | None => props !! suffix end);
  if decide (v = "") then None else Some v.

Definition get_custom_delete_marker (props : HudiConfigs) : option (string * string) :=
  match merge_property props DELETE_KEY_PROP, merge_property props DELETE_MARKER_PROP with
  | Some key, Some marker => Some (key, marker)
  | _, _ => synthesize_legacy_delete_marker props
  end.

Definition delete_context_new (props : HudiConfigs) (table_schema : ASchema) : DeleteContext :=
  mkDeleteContext (get_custom_delete_marker props) (has_column IS_DELETED table_schema) None table_schema.

Definition delete_context_from_props (props : HudiConfigs) : DeleteContext :=
  mkDeleteContext (get_custom_delete_marker props) true None [].

Definition with_reader_schema (schema : ASchema) (c : DeleteContext) : DeleteContext :=
  mkDeleteContext (custom_delete_marker c) (has_column IS_DELETED schema) (fst <$> column_with_name OPERATION schema) schema.

(** * The schema handler *)
Record SchemaHandler := mkHandler {
  table_schema : option ASchema;
  requested_schema : option ASchema;
  data_schema : option ASchema;
  required_schema : option ASchema;
  schema_for_updates : option ASchema;
  custom_merger : option CustomMerger;
  delete_context : option DeleteContext;
  data_schema_json : option string;
  requested_schema_json : option string;
  reader_schema_json : option string
}.

Definition handler_new : SchemaHandler := mkHandler None None None None None None None None None None.

Definition with_table_schema (s : ASchema) (h : SchemaHandler) : SchemaHandler :=
  mkHandler (Some s) (requested_schema h) (data_schema h) (required_schema h) (schema_for_updates h) (custom_merger h)
    (delete_context h) (data_schema_json h) (requested_schema_json h) (reader_schema_json h).

Definition with_data_schema (s : ASchema) (h : SchemaHandler) : SchemaHandler :=
  mkHandler (table_schema h) (requested_schema h) (Some s) (required_schema h) (schema_for_updates h) (custom_merger h)
    (delete_context h) (data_schema_json h) (requested_schema_json h) (reader_schema_json h).

Definition with_requested_schema (s : ASchema) (h : SchemaHandler) : SchemaHandler :=
  mkHandler (table_schema h) (Some s) (data_schema h) (required_schema h) (schema_for_updates h) (custom_merger h)
    (delete_context h) (data_schema_json h) (requested_schema_json h) (reader_schema_json h).

(** [CustomMerger::required_field_names] *)
Definition merger_required_field_names (m : CustomMerger) : list string := match m with MetadataPayload => ["key"; "type"] end.

Definition COMMIT_TIME_FIELD : string := "_hoodie_commit_time".

(** [or_else] *)
Definition or_schema (a b : option ASchema) : option ASchema := match a with Some s => Some s | None => b end.

(** The names merging needs, in the order they are looked up. *)
Definition mandatory_field_names (h : SchemaHandler) (field_source : ASchema) (record_key_fields ordering_field_names : list string)
    (ctx : DeleteContext) (has_instant_range : bool) (merge_mode : string) : list string :=
  (if has_instant_range then [COMMIT_TIME_FIELD] else []) ++
  record_key_fields ++
  (if eq_ignore_ascii_case merge_mode "EVENT_TIME_ORDERING" then ordering_field_names else []) ++
  (if has_built_in_delete_field ctx then [IS_DELETED] else []) ++
  (match custom_delete_marker ctx with Some (key_field, _) => [key_field] | None => [] end) ++
  (if has_column OPERATION field_source then [OPERATION] else []) ++
  (match custom_merger h with Some m => merger_required_field_names m | None => [] end).

(** The loop that appends fields the base schema does not have. *)
Definition extra_step (base_schema field_source extra_fields : ASchema) (field_name : string) : ASchema :=
  if has_column field_name base_schema then extra_fields
  else
    match column_with_name field_name field_source with
    | Some (_, field) =>
        if existsb (fun f => bool_decide (f_name f = field_name)) extra_fields then extra_fields else extra_fields ++ [field]
    | None => extra_fields
    end.

Definition generate_required_schema (h : SchemaHandler) (has_log_files : bool) (record_key_fields ordering_field_names : list string)
    (ctx : DeleteContext) (has_instant_range : bool) (merge_mode : string) : res (option ASchema) :=
  match or_schema (requested_schema h) (data_schema h) with
  | None => Ok None
  | Some base_schema =>
      match or_schema (table_schema h) (data_schema h) with
      | None => Ok None
      | Some field_source =>
          if negb has_log_files then
            Ok (Some (if has_instant_range && negb (has_column COMMIT_TIME_FIELD base_schema) then
                        match column_with_name COMMIT_TIME_FIELD field_source with
                        | Some (_, field) => base_schema ++ [field]
                        | None => base_schema
                        end
                      else base_schema))
          else if eq_ignore_ascii_case merge_mode "CUSTOM" && match custom_merger h with None => true | Some _ => false end then
            Err EUnsupported
          else
            let mandatory := mandatory_field_names h field_source record_key_fields ordering_field_names ctx has_instant_range merge_mode in
            Ok (Some (base_schema ++ foldl (extra_step base_schema field_source) [] mandatory))
      end
  end.

Definition prepare_required_schema {AS : AvroSchemas} (has_log_files : bool) (record_key_fields ordering_field_names : list string)
    (props : HudiConfigs) (has_instant_range : bool) (merge_mode : string) (h : SchemaHandler) : res SchemaHandler :=
  let ctx := match table_schema h with Some s => delete_context_new props s | None => delete_context_from_props props end in
  let h1 := mkHandler (table_schema h) (requested_schema h) (data_schema h) (required_schema h) (schema_for_updates h)
              (resolve_custom_merger props) (Some ctx) (data_schema_json h) (requested_schema_json h) (reader_schema_json h) in
  let? required := generate_required_schema h1 has_log_files record_key_fields ordering_field_names ctx has_instant_range merge_mode in
  let with_required r json := mkHandler (table_schema h) (requested_schema h) (data_schema h) r r (resolve_custom_merger props)
                                (Some ctx) (data_schema_json h) (requested_schema_json h) json in
  match data_schema_json h, requested_schema_json h, required with
  | Some data_json, Some requested_json, Some required_arrow =>
      let requested_names := default [] (map f_name <$> requested_schema h) in
      let appended := List.filter (fun n => negb (bool_decide (n ∈ requested_names))) (f_name <$> required_arrow) in
      let? required_json := map_err ESchema (append_mandatory_fields_avro_json requested_json data_json appended) in
      let? arrow := map_err ESchema (avro_json_to_arrow_schema required_json) in
      Ok (with_required (Some arrow) (Some required_json))
  | _, _, _ => Ok (with_required required None)
  end.

(** [get_output_converter]: the schema to project to, when there is one. *)
Definition get_output_converter {AS : AvroSchemas} (h : SchemaHandler) : option ASchema :=
  required ← required_schema h; requested ← requested_schema h;
  if projection_equivalent required requested then None else Some requested.
End schemas.

(** * What the required schema has *)
Section required.
Context `{AF : ArrowFields}.

Abbreviation names s := (f_name <$> s).

Lemma column_with_name_Some n (s : list AField) i f : column_with_name n s = Some (i, f) -> s !! i = Some f /\ f_name f = n.
Proof.
  revert i. induction s as [|g s IH]; intros i H; cbn in H; [done|]. case_decide; [by injection H as <- <-|].
  destruct (column_with_name n s) as [[j g']|]; [|done]. injection H as <- <-. by apply IH.
Qed.

Lemma has_column_elem n s : has_column n s = true <-> n ∈ names s.
Proof.
  unfold has_column. induction s as [|g s IH]; cbn [column_with_name].
  - split; [done|]. by intros []%not_elem_of_nil.
  - rewrite fmap_cons, elem_of_cons. case_decide as E; [by rewrite E; intuition|].
    rewrite <- IH. destruct (column_with_name n s); cbn; intuition congruence.
Qed.

Lemma has_column_not n s : has_column n s = false <-> n ∉ names s.
Proof. rewrite <- has_column_elem. by destruct (has_column n s). Qed.

Lemma column_of n s : n ∈ names s -> exists i f, column_with_name n s = Some (i, f).
Proof. rewrite <- has_column_elem. unfold has_column. destruct (column_with_name n s) as [[i f]|]; [by eauto|done]. Qed.

(** The appended fields: new, distinct, of the source, and asked for. *)
Record extras_ok (base source : list AField) (asked : list string) (extra : list AField) : Prop := {
  ex_nodup : NoDup (names extra);
  ex_new : forall n, n ∈ names extra -> n ∉ names base;
  ex_source : forall f, f ∈ extra -> f ∈ source;
  ex_asked : forall n, n ∈ names extra -> n ∈ asked;
  ex_all : forall n, n ∈ asked -> n ∈ names source -> n ∈ names base \/ n ∈ names extra
}.

Lemma existsb_name n (l : list AField) : existsb (fun f => bool_decide (f_name f = n)) l = true <-> n ∈ names l.
Proof.
  rewrite existsb_exists, list_elem_of_fmap. split.
  - intros (f & Hin & Hf%bool_decide_eq_true). exists f. by rewrite list_elem_of_In.
  - intros (f & -> & Hin). exists f. rewrite bool_decide_eq_true, <- list_elem_of_In. done.
Qed.

Lemma extra_step_ok base source asked extra n : extras_ok base source asked extra ->
  extras_ok base source (asked ++ [n]) (extra_step base source extra n).
Proof.
  intros [H1 H2 H3 H4 H5].
  assert (Hkeep : (n ∈ names source -> n ∈ names base \/ n ∈ names extra) -> extras_ok base source (asked ++ [n]) extra).
  { intros Hn. split; [done..| |].
    - intros m Hm. apply elem_of_app. left. by apply H4.
    - intros m [Hm|Hm%list_elem_of_singleton]%elem_of_app Hs; [by apply H5|]. subst m. by apply Hn. }
  unfold extra_step. destruct (has_column n base) eqn:Eb; [apply Hkeep; intros _; left; by apply has_column_elem|].
  destruct (column_with_name n source) as [[i f]|] eqn:Es.
  2: { apply Hkeep. intros Hs. apply column_of in Hs as (i & f & E). congruence. }
  destruct (existsb _ extra) eqn:Ee; [apply Hkeep; intros _; right; by apply existsb_name|].
  apply column_with_name_Some in Es as [Hi Hf]. apply has_column_not in Eb.
  assert (Hex : n ∉ names extra) by (rewrite <- existsb_name, Ee; done).
  split.
  - rewrite fmap_app. apply list.NoDup_app. split_and!; [done| |apply NoDup_singleton].
    intros m Hm. cbn. rewrite list_elem_of_singleton. intros ->. by rewrite Hf in Hm.
  - intros m. rewrite fmap_app, elem_of_app. intros [Hm|Hm]; [by apply H2|]. cbn in Hm. apply list_elem_of_singleton in Hm as ->. by rewrite Hf.
  - intros g [Hg|Hg%list_elem_of_singleton]%elem_of_app; [by apply H3|]. subst g. by apply list_elem_of_lookup_2 with i.
  - intros m. rewrite fmap_app, !elem_of_app. intros [Hm|Hm]; [left; by apply H4|right]. cbn in Hm. by rewrite Hf in Hm.
  - intros m. rewrite fmap_app, !elem_of_app. intros [Hm|Hm%list_elem_of_singleton] Hs.
    + destruct (H5 m Hm Hs) as [?|?]; [by left|right; by left].
    + subst m. right. right. cbn. rewrite Hf. by left.
Qed.

Lemma extras_fold base source l : forall asked extra, extras_ok base source asked extra ->
  extras_ok base source (asked ++ l) (foldl (extra_step base source) extra l).
Proof.
  induction l as [|n l IH]; intros asked extra H; cbn [foldl]; [by rewrite app_nil_r|].
  replace (asked ++ n :: l) with ((asked ++ [n]) ++ l) by by rewrite <- app_assoc. apply IH. by apply extra_step_ok.
Qed.

Lemma extras_of base source l : extras_ok base source l (foldl (extra_step base source) [] l).
Proof. apply (extras_fold base source l []). split; try (intros ? []%not_elem_of_nil); try done; constructor. Qed.

(** A slice with log files is read with the columns of the query, in their order,
    then those that merging needs and the table has, each once and none that the query
    has already: record keys, ordering fields under event time, the commit time for a
    range, the markers of deletes, and what a custom merger reads.  It is refused exactly
    when the table merges by a merger that the crate does not have. *)
Theorem required_schema_covers (h : SchemaHandler) base source keys orderings ctx ranged mode :
  or_schema (requested_schema h) (data_schema h) = Some base -> or_schema (table_schema h) (data_schema h) = Some source ->
  let needed := mandatory_field_names h source keys orderings ctx ranged mode in
  if eq_ignore_ascii_case mode "CUSTOM" && negb (bool_decide (is_Some (custom_merger h))) then
    generate_required_schema h true keys orderings ctx ranged mode = Err EUnsupported
  else
    exists extra, generate_required_schema h true keys orderings ctx ranged mode = Ok (Some (base ++ extra)) /\
      (forall n, n ∈ needed -> n ∈ names source -> n ∈ names (base ++ extra)) /\
      (forall f, f ∈ extra -> f ∈ source /\ f_name f ∈ needed /\ f_name f ∉ names base) /\
      (NoDup (names base) -> NoDup (names (base ++ extra))).
Proof.
  intros Hb Hs needed. unfold generate_required_schema. rewrite Hb, Hs. cbn [negb].
  replace (negb (bool_decide (is_Some (custom_merger h)))) with (match custom_merger h with None => true | Some _ => false end)
    by by destruct (custom_merger h).
  destruct (eq_ignore_ascii_case mode "CUSTOM" && _); [done|].
  destruct (extras_of base source needed) as [H1 H2 H3 H4 H5]. eexists. split; [done|]. split_and!.
  - intros n Hn Hin. rewrite fmap_app, elem_of_app. by apply H5.
  - intros f Hf. assert (Hn : f_name f ∈ names (foldl (extra_step base source) [] needed)) by by apply list_elem_of_fmap_2.
    split_and!; [by apply H3|by apply H4|by apply H2].
  - intros Hd. rewrite fmap_app. apply list.NoDup_app. split_and!; [done| |done]. intros n Hn Hx. by apply (H2 n).
Qed.
End required.

(** * Instances *)
Module SampleSchema.
(** Fields that are their names. *)
#[export] Instance named_fields : ArrowFields := {| AField := string; f_name n := n |}.

Definition sample_handler : SchemaHandler :=
  with_requested_schema ["city"; "ts"] (with_data_schema ["id"; "ts"; "city"; OPERATION; "fare"] handler_new).

(** The query's columns, then the commit time is not the table's, the key and the operation
    are; the ordering field is asked for already. *)
Lemma required_schema_covers_witness : exists extra,
  generate_required_schema sample_handler true ["id"] ["ts"] (delete_context_from_props ∅) true "event_time_ordering"
    = Ok (Some (["city"; "ts"] ++ extra)) /\ extra = ["id"; OPERATION] /\ NoDup (["city"; "ts"] ++ extra).
Proof.
  destruct (required_schema_covers sample_handler ["city"; "ts"] ["id"; "ts"; "city"; OPERATION; "fare"] ["id"] ["ts"]
    (delete_context_from_props ∅) true "event_time_ordering" eq_refl eq_refl) as (extra & E & _ & _ & Hd).
  exists extra. split; [exact E|]. vm_compute in E. injection E as <-. split; [done|].
  apply Hd, (bool_decide_unpack _). vm_compute. exact I.
Defined.
End SampleSchema.
