(* ===== verification/InputSplit.v ===== *)
(** What a file group's read is given: crates/core/src/file_group/reader_v2/input_split.rs.

    The log files of a split are those of a file slice less the ones of change-data
    capture, in the order in which they were written.  The comparator takes names apart
    where both parse, and compares whole paths where one does not; [slice::sort_by] is
    the stable sort its documentation describes on comparators that order totally. *)
From Stdlib Require Import Ascii.
From stdpp Require Import base gmap sets list strings sorting numbers.
From S2P Require Import Prelude RustStr Files.
Local Open Scope res_scope.

(** * Sorting with a comparator *)

(** The comparator orders the elements totally, equal ones included. *)
Definition total_preorder {A} (cmp : A -> A -> comparison) (l : list A) : Prop :=
  (forall x y, x ∈ l -> y ∈ l -> cmp y x = CompOpp (cmp x y)) /\
  (forall x y z, x ∈ l -> y ∈ l -> z ∈ l -> cmp x y <> Gt -> cmp y z <> Gt -> cmp x z <> Gt).

(** Before the first element that is not smaller. *)
Fixpoint stable_insert {A} (cmp : A -> A -> comparison) (x : A) (l : list A) : list A :=
  match l with
  | [] => [x]
  | y :: l => match cmp x y with Gt => y :: stable_insert cmp x l | _ => x :: y :: l end
  end.

Definition stable_sort {A} (cmp : A -> A -> comparison) (l : list A) : list A := foldr (stable_insert cmp) [] l.

(** [slice::sort_by]: what it does with other comparators is not specified, and it may
    panic. *)
Class SortBy := sort_by : forall A, (A -> A -> comparison) -> list A -> res (list A).
Global Arguments sort_by {_} {A} cmp l.

Class SortByLaws (SB : SortBy) : Prop :=
  sort_by_total A (cmp : A -> A -> comparison) l : total_preorder cmp l -> sort_by cmp l = Ok (stable_sort cmp l).

(** * The split *)
Record InputSplit := mkSplit {
  base_file_path : option string;
  base_file_commit_time : option string;
  log_file_paths : list string;
  split_partition_path : string
}.

Definition CDC_LOGFILE_SUFFIX : string := ".cdc".

(** [path.rsplit('/').next().unwrap_or(path)] *)
Definition file_name_of (path : string) : string :=
  match rsplit_once "/" path with Some (_, name) => name | None => path end.

Definition filter_cdc_log_files (paths : list string) : list string :=
  List.filter (fun p => negb (ends_with CDC_LOGFILE_SUFFIX (file_name_of p))) paths.

Definition cmp_log_paths (a b : string) : comparison :=
  match LogFile.from_str (file_name_of a), LogFile.from_str (file_name_of b) with
  | Ok lf_a, Ok lf_b => LogFile.cmp lf_a lf_b
  | _, _ => String.compare a b
  end.

Section split.
Context {SB : SortBy}.

(** [LogFile::from_str] of the comparator panics where a name does; so does the sort. *)
Definition parses_or_fails (path : string) : bool := negb (match LogFile.from_str (file_name_of path) with Panic => true | _ => false end).

Definition sort_log_file_paths (paths : list string) : res (list string) :=
  if (length paths <=? 1)%nat then Ok paths
  else if forallb parses_or_fails paths then sort_by cmp_log_paths paths
  else Panic.

Definition split_new (base_file_path base_file_commit_time : option string) (log_file_paths : list string)
    (partition_path : string) : res InputSplit :=
  let? log_file_paths := sort_log_file_paths (filter_cdc_log_files log_file_paths) in
  Ok (mkSplit base_file_path base_file_commit_time log_file_paths partition_path).
End split.

Definition has_log_files (s : InputSplit) : bool := match log_file_paths s with [] => false | _ => true end.
Definition is_base_only (s : InputSplit) : bool := negb (has_log_files s).

(** * Stable sorting *)
Section stable.
Context {A : Type} (cmp : A -> A -> comparison).

Abbreviation cmp_le := (fun x y => cmp x y <> Gt).

Lemma stable_insert_perm x l : stable_insert cmp x l ≡ₚ x :: l.
Proof.
  induction l as [|y l IH]; cbn; [done|]. destruct (cmp x y); [done..|]. rewrite IH. constructor.
Qed.

Lemma stable_sort_perm l : stable_sort cmp l ≡ₚ l.
Proof. induction l as [|x l IH]; cbn; [done|]. by rewrite stable_insert_perm, IH. Qed.

Lemma total_preorder_sub l l' : l' ⊆ l -> total_preorder cmp l -> total_preorder cmp l'.
Proof. intros Hs [H1 H2]. split; [by auto|]. intros x y z ???. apply H2; by apply Hs. Qed.

Lemma stable_insert_sorted x l : total_preorder cmp (x :: l) -> StronglySorted cmp_le l ->
  StronglySorted cmp_le (stable_insert cmp x l).
Proof.
  induction l as [|y l IH]; intros Ht Hs; cbn; [by repeat constructor|].
  apply StronglySorted_inv in Hs as [Hs Hy]. destruct Ht as [Hop Htr].
  assert (Hle : cmp x y <> Gt -> StronglySorted cmp_le (x :: y :: l)).
  { intros Hxy. constructor; [by constructor|]. constructor; [done|]. rewrite list.Forall_forall in Hy |- *. intros z Hz.
    apply (Htr x y z); [left|right; left|right; right|done|by apply Hy]; done. }
  destruct (cmp x y) eqn:E; [by apply Hle..|].
  constructor.
  - apply IH; [|done]. apply (total_preorder_sub (x :: y :: l)); [set_solver|done].
  - rewrite list.Forall_forall in Hy |- *. intros z Hz. rewrite (stable_insert_perm x l) in Hz.
    apply elem_of_cons in Hz as [->|Hz]; [|by apply Hy].
    rewrite (Hop x y); [by rewrite E|set_solver..].
Qed.

Lemma stable_sort_sorted l : total_preorder cmp l -> StronglySorted cmp_le (stable_sort cmp l).
Proof.
  induction l as [|x l IH]; intros Ht; cbn; [constructor|]. apply stable_insert_sorted.
  - apply (total_preorder_sub (x :: l)); [|done]. intros y Hy. by rewrite (stable_sort_perm l) in Hy.
  - apply IH. apply (total_preorder_sub (x :: l)); [set_solver|done].
Qed.

(** Elements that are equal for [cmp] stay in order. *)
Lemma stable_insert_ties (P : A -> Prop) `{forall y, Decision (P y)} x l :
  (forall y, P x -> P y -> y ∈ l -> cmp x y <> Gt) ->
  filter P (stable_insert cmp x l) = filter P (x :: l).
Proof.
  induction l as [|y l IH]; intros Hp; cbn [stable_insert]; [done|]. destruct (cmp x y) eqn:E; [done..|].
  rewrite filter_cons, IH by (intros; apply Hp; set_solver). rewrite !filter_cons.
  destruct (decide (P x)), (decide (P y)); try done. exfalso. apply (Hp y); [done..|set_solver|done].
Qed.

Lemma stable_sort_ties (P : A -> Prop) `{forall y, Decision (P y)} l :
  (forall x y, P x -> P y -> x ∈ l -> y ∈ l -> cmp x y = Eq) -> filter P (stable_sort cmp l) = filter P l.
Proof.
  induction l as [|x l IH]; intros Hp; cbn [stable_sort foldr]; [done|].
  rewrite (stable_insert_ties P).
  - rewrite !filter_cons. change (foldr (stable_insert cmp) [] l) with (stable_sort cmp l). rewrite IH; [done|].
    intros y z ????. apply Hp; set_solver.
  - intros y Hx Hy Hin. change (foldr _ [] l) with (stable_sort cmp l) in Hin. rewrite (stable_sort_perm l) in Hin.
    rewrite (Hp x y); [done| | |set_solver..]; done.
Qed.
End stable.

Lemma sorted_lookup {A} (R : relation A) l : forall i j a b, StronglySorted R l -> (i < j)%nat -> l !! i = Some a ->
  l !! j = Some b -> R a b.
Proof.
  induction l as [|x l IH]; intros i j a b Hs Hij Ha Hb; [done|]. apply StronglySorted_inv in Hs as [Hs Hx].
  destruct j as [|j]; [lia|]. destruct i as [|i]; cbn in Ha, Hb; [|by apply (IH i j); [|lia|..]].
  injection Ha as <-. rewrite list.Forall_forall in Hx. by apply Hx, list_elem_of_lookup_2 with j.
Qed.

(** * The order of a split *)

(** Insertion sort is a sort. *)
Definition insertion_sort_by : SortBy := fun _ cmp l => Ok (stable_sort cmp l).

Lemma insertion_sort_by_laws : SortByLaws insertion_sort_by.
Proof. by intros A cmp l. Qed.

(** A path whose name parses, with what it parses to. *)
Definition parsed_log (path : string) (l : LogFile.t) : Prop := LogFile.from_str (file_name_of path) = Ok l.

Lemma cmp_parsed a b la lb : parsed_log a la -> parsed_log b lb -> cmp_log_paths a b = LogFile.cmp la lb.
Proof. unfold parsed_log, cmp_log_paths. by intros -> ->. Qed.

Lemma parsed_total paths : (forall p, p ∈ paths -> exists l, parsed_log p l) -> total_preorder cmp_log_paths paths.
Proof.
  intros Hp. split.
  - intros x y [lx Hx]%Hp [ly Hy]%Hp. rewrite (cmp_parsed x y lx ly), (cmp_parsed y x ly lx) by done. apply log_cmp_opp.
  - intros x y z [lx Hx]%Hp [ly Hy]%Hp [lz Hz]%Hp. rewrite (cmp_parsed x y lx ly), (cmp_parsed y z ly lz), (cmp_parsed x z lx lz) by done.
    apply (log_le_trans lx ly lz).
Qed.

Lemma short_sort {A} (cmp : A -> A -> comparison) l : (length l <= 1)%nat -> stable_sort cmp l = l.
Proof. by destruct l as [|x [|y l]]; cbn; intros; [| |lia]. Qed.

Section properties.
Context {SB : SortBy} {SL : SortByLaws SB}.

Lemma sort_parsed paths : (forall p, p ∈ paths -> exists l, parsed_log p l) ->
  sort_log_file_paths paths = Ok (stable_sort cmp_log_paths paths).
Proof.
  intros Hp. unfold sort_log_file_paths. destruct (Nat.leb_spec (length paths) 1) as [Hl|Hl]; [by rewrite short_sort|].
  assert (forallb parses_or_fails paths = true) as ->; [|by apply sort_by_total, parsed_total].
  apply forallb_forall. intros p [l Hl']%list_elem_of_In%Hp. unfold parses_or_fails. by rewrite Hl'.
Qed.

(** The files of a key: those that tie with one of them. *)
Definition has_key (key : N * (string * (N * string))) (path : string) : Prop :=
  match LogFile.from_str (file_name_of path) with Ok l => log_key l = key | _ => False end.

#[local] Instance has_key_dec key path : Decision (has_key key path).
Proof. unfold has_key. destruct (LogFile.from_str _); apply _. Defined.

(** No two of the files tie. *)
Definition distinct_keys (paths : list string) : Prop :=
  forall a b la lb, a ∈ paths -> b ∈ paths -> parsed_log a la -> parsed_log b lb -> log_key la = log_key lb -> a = b.

Lemma cmp_eq_key a b la lb : parsed_log a la -> parsed_log b lb -> cmp_log_paths a b = Eq <-> log_key la = log_key lb.
Proof. intros Ha Hb. rewrite (cmp_parsed a b la lb) by done. apply log_cmp_eq. Qed.

Lemma sort_order_free l l' : (forall p, p ∈ l -> exists x, parsed_log p x) -> distinct_keys l -> l' ≡ₚ l ->
  stable_sort cmp_log_paths l' = stable_sort cmp_log_paths l.
Proof.
  intros Hp Hd Hl. apply (StronglySorted_unique_strong (fun x y => cmp_log_paths x y <> Gt)).
  - intros x y. rewrite !stable_sort_perm, Hl. intros Hx Hy Hxy Hyx.
    destruct (Hp x Hx) as [lx Ex], (Hp y Hy) as [ly Ey]. apply (Hd x y lx ly); [done..|].
    rewrite (cmp_parsed x y lx ly) in Hxy by done. rewrite (cmp_parsed y x ly lx) in Hyx by done. by apply log_le_antisym.
  - apply stable_sort_sorted, parsed_total. intros p. rewrite Hl. apply Hp.
  - by apply stable_sort_sorted, parsed_total.
  - by rewrite !stable_sort_perm.
Qed.

(** Where the names of a slice's log files parse, the split has exactly the log files
    that are not of change-data capture, in the order in which they were written (instant,
    version, write token); files that tie stay in the order given, and where none do, the
    order in which the caller gave the paths makes no difference. *)
Theorem split_orders_log_files base time paths partition :
  (forall p, p ∈ filter_cdc_log_files paths -> exists l, parsed_log p l) ->
  exists s, split_new base time paths partition = Ok s /\
    log_file_paths s ≡ₚ filter_cdc_log_files paths /\
    (forall i j a b la lb, (i < j)%nat -> log_file_paths s !! i = Some a -> log_file_paths s !! j = Some b ->
       parsed_log a la -> parsed_log b lb -> LogFile.le la lb) /\
    (forall key, filter (has_key key) (log_file_paths s) = filter (has_key key) (filter_cdc_log_files paths)) /\
    (distinct_keys (filter_cdc_log_files paths) -> forall paths', paths' ≡ₚ paths ->
       split_new base time paths' partition = Ok s).
Proof.
  intros Hp. unfold split_new. rewrite sort_parsed by done. cbn [res_bind]. eexists. split; [done|].
  cbn [log_file_paths]. split_and!.
  - apply stable_sort_perm.
  - intros i j a b la lb Hij Ha Hb Hla Hlb. unfold LogFile.le. rewrite <- (cmp_parsed a b) by done.
    eapply (sorted_lookup (fun x y => cmp_log_paths x y <> Gt)); [|exact Hij|exact Ha|exact Hb].
    by apply stable_sort_sorted, parsed_total.
  - intros key. apply stable_sort_ties. intros x y Hx Hy Hxin Hyin.
    destruct (Hp x Hxin) as [lx Ex], (Hp y Hyin) as [ly Ey]. apply (cmp_eq_key x y lx ly); [done..|].
    unfold has_key in Hx, Hy. rewrite Ex in Hx. rewrite Ey in Hy. congruence.
  - intros Hd paths' Hpaths. assert (Hf : filter_cdc_log_files paths' ≡ₚ filter_cdc_log_files paths).
    { unfold filter_cdc_log_files. clear -Hpaths. induction Hpaths as [|x l l' _ IH|x y l|l l' l'' _ IH _ IH']; cbn; [done|..].
      - destruct (negb _); [by constructor|done].
      - do 2 destruct (negb _); try done. constructor.
      - by rewrite IH. }
    rewrite sort_parsed; [cbn [res_bind]; by rewrite (sort_order_free _ _ Hp Hd Hf)|].
    intros p. rewrite Hf. apply Hp.
Qed.
End properties.

(** * Instances *)
Module SampleSplit.
Definition log_paths : list string :=
  ["p/.f_20240102000000000.log.2_0-1-0"; "p/.f_20240102000000000.log.1_0-1-0"; "p/.f_20240101000000000.log.1_0-1-0.cdc";
   "p/.f_20240101000000000.log.1_0-2-0"; "p/.f_20240101000000000.log.1_0-1-0"].

Lemma split_orders_log_files_witness : exists s,
  split_new (SB := insertion_sort_by) (Some "p/f_0-0-0_20240101000000000.parquet") (Some "20240101000000000") log_paths "p" = Ok s /\
  log_file_paths s = ["p/.f_20240101000000000.log.1_0-1-0"; "p/.f_20240101000000000.log.1_0-2-0";
                      "p/.f_20240102000000000.log.1_0-1-0"; "p/.f_20240102000000000.log.2_0-1-0"] /\
  log_file_paths s ≡ₚ filter_cdc_log_files log_paths.
Proof.
  destruct (split_orders_log_files (SL := insertion_sort_by_laws) (Some "p/f_0-0-0_20240101000000000.parquet")
    (Some "20240101000000000") log_paths "p") as (s & E & Hp & _).
  - intros p Hp. assert (Hb : forallb (fun p => is_Ok (LogFile.from_str (file_name_of p))) (filter_cdc_log_files log_paths) = true) by (vm_compute; reflexivity).
    rewrite forallb_forall in Hb. specialize (Hb p (proj1 (list_elem_of_In _ _) Hp)). unfold parsed_log.
    destruct (LogFile.from_str _) as [l| |]; [by exists l|done..].
  - exists s. split; [done|]. split; [|done]. vm_compute in E. injection E as <-. reflexivity.
Defined.

(** A name that does not parse makes the comparator go round: each of these is before the
    next, and the last before the first. *)
Example comparator_goes_round :
  let a := ".b_1.log.1_t" in let b := ".a_2.log.1_t" in let c := ".aa" in
  cmp_log_paths a b = Lt /\ cmp_log_paths b c = Lt /\ cmp_log_paths c a = Lt.
Proof. by split_and!. Qed.
End SampleSplit.
