(* ===== verification/RecordKeys.v ===== *)
(** Records of Arrow batches: crates/core/src/file_group/reader_v2/record_context.rs,
    with [base_row_position_array] of buffer/record_positions.rs.

    The key of a row, the value that orders it among the versions of its key, and whether
    it is a delete, as a table's options say.  This is what the record buffers take as the
    interface [RecordContext]; [table_record_context] is the crate's implementation, and
    [TableContextLaws] that it reads batches row by row. *)
From Stdlib Require Import ZArith Ascii.
From stdpp Require Import base gmap sets list strings sorting numbers pretty.
From S2P Require Import Prelude RustStr StorageReader Config Options ReadSchema RecordBatches OrderingValues RecordMerger ArrowKernels RecordBuffer BaseMerge.
Local Open Scope res_scope.
Local Open Scope Z_scope.

(** * Arrow arrays *)
Module DataType.
Inductive TimeUnit := Second | Millisecond | Microsecond | Nanosecond.

Inductive t :=
  | Int8 | Int16 | Int32 | Int64 | UInt8 | UInt16 | UInt32 | UInt64
  | Boolean | Date32 | Date64 | Timestamp (unit : TimeUnit)
  | Float32 | Float64 | Utf8 | LargeUtf8
  | Decimal128 (scale : Z)
  | UnionType
  | OtherType.

#[global] Instance time_unit_eq_dec : EqDecision TimeUnit.
Proof. solve_decision. Defined.

#[global] Instance data_type_eq_dec : EqDecision t.
Proof. solve_decision. Defined.
End DataType.

(** The slots of an array: whether the slot is valid, and the value it holds, which for a
    null slot can be anything. *)
Abbreviation Slots A := (list (bool * A)).

(** The value of one row of a union column, as far as it is taken apart. *)
Inductive UnionRow (Array : Type) :=
  | RowNull                              (* a null of the active variant *)
  | RowNoStruct                          (* not a struct *)
  | RowValue (value : Array)             (* a struct with a column [value] *)
  | RowNoWrapped                         (* with neither [value] nor [wrappedValues] *)
  | RowNotList                           (* [wrappedValues] is not a list *)
  | RowNoElements                        (* the list is null or has no row *)
  | RowNotUnion                          (* its elements are not a union *)
  | RowElements (l : list (UnionRow Array)).
Global Arguments RowNull {_}.
Global Arguments RowNoStruct {_}.
Global Arguments RowValue {_} value.
Global Arguments RowNoWrapped {_}.
Global Arguments RowNotList {_}.
Global Arguments RowNoElements {_}.
Global Arguments RowNotUnion {_}.
Global Arguments RowElements {_} l.

(** Columns of batches.  [integers] are the values of arrays of integers, dates, timestamps
    (in the array's unit) and booleans (0 and 1), [floats] the bits of floating point
    arrays, [decimals] unscaled. *)
Class ArrowColumns {AB : ArrowBatch} {AR : ArrowRows} {AK : ArrowKernels} := {
  Array : Type;
  data_type : Array -> DataType.t;
  array_len : Array -> nat;
  is_null : Array -> nat -> bool;
  columns : RecordBatch -> list Array;
  integers : Array -> Slots Z;
  floats : Array -> Slots Z;
  strings : Array -> Slots string;
  decimals : Array -> Slots Z;
  union_rows : Array -> list (UnionRow Array);
  (** [arrow_cast::cast] to [Utf8] *)
  cast_to_utf8 : Array -> res (Slots string)
}.

(** [f32 as f64], on bits; which NaN a NaN becomes is not specified. *)
Definition f32_as_f64 (bits : Z) : Z :=
  let sign := Z.shiftr bits 31 in
  let exponent := Z.land (Z.shiftr bits 23) 255 in
  let mantissa := Z.land bits (2 ^ 23 - 1) in
  Z.shiftl sign 63 +
  (if exponent =? 255 then Z.shiftl 2047 52 + Z.shiftl mantissa 29
   else if negb (exponent =? 0) then Z.shiftl (exponent + 896) 52 + Z.shiftl mantissa 29
   else if mantissa =? 0 then 0
   else let k := Z.log2 mantissa in Z.shiftl (k + 874) 52 + Z.shiftl (mantissa - 2 ^ k) (52 - k)).

Example f32_values :
  f32_as_f64 0x3FC00000 = 0x3FF8000000000000 /\ f32_as_f64 0xC0000000 = 0xC000000000000000 /\
  f32_as_f64 0 = 0 /\ f32_as_f64 1 = 0x36A0000000000000 /\ f32_as_f64 0x7F800000 = 0x7FF0000000000000.
Proof. by vm_compute. Qed.

(** [index_of] and [column_with_name]: the first field of the name. *)
Definition field_index (name : string) (names : list string) : option nat := fst <$> list_find (fun n => n = name) names.

Definition MAX_DECIMAL_ORDERING_SCALE : Z := 38.
Definition HOODIE_OPERATION_DELETE : string := "D".
Definition HOODIE_OPERATION_UPDATE_BEFORE : string := "-U".
Definition ROW_INDEX_TEMPORARY_COLUMN_NAME : string := "_tmp_metadata_row_index".
Definition RECORD_KEY_META_FIELD : string := "_hoodie_record_key".

Section columns.
Context {AB : ArrowBatch} {AR : ArrowRows} {AK : ArrowKernels} {AC : ArrowColumns}.

(** [batch.column(i)] panics out of range. *)
Definition column (b : RecordBatch) (i : nat) : res Array :=
  match columns b !! i with Some a => Ok a | None => Panic end.

(** The column of a name, if the batch has one. *)
Definition named_column (name : string) (b : RecordBatch) : res (option Array) :=
  match field_index name (field_names (schema b)) with
  | Some i => res_map Some (column b i)
  | None => Ok None
  end.

(** [downcast_ref] succeeds on an array of the type. *)
Definition downcast {A} (t : DataType.t) (slots : Array -> Slots A) (a : Array) : option (Slots A) :=
  if decide (data_type a = t) then Some (slots a) else None.

(** * Ordering values of a column *)
Inductive OrderingAccessor :=
  | AccNone
  | AccInt64 (a : Slots Z) | AccInt32 (a : Slots Z) | AccInt16 (a : Slots Z) | AccInt8 (a : Slots Z)
  | AccBoolean (a : Slots Z) | AccDate32 (a : Slots Z) | AccDate64 (a : Slots Z)
  | AccTsSecond (a : Slots Z) | AccTsMilli (a : Slots Z) | AccTsMicro (a : Slots Z) | AccTsNano (a : Slots Z)
  | AccFloat64 (a : Slots Z) | AccFloat32 (a : Slots Z)
  | AccUtf8 (a : Slots string) | AccLargeUtf8 (a : Slots string)
  | AccDecimal (a : Slots Z) (scale : Z)
  | AccPrecomputed (vals : list (option OrderingValue)).

(** [map(..).unwrap_or(OrderingAccessor::None)] *)
Definition dc {A} (variant : Slots A -> OrderingAccessor) (a : option (Slots A)) : OrderingAccessor :=
  match a with Some a => variant a | None => AccNone end.

Definition from_column (col : Array) : OrderingAccessor :=
  match data_type col with
  | DataType.Int64 => dc AccInt64 (downcast DataType.Int64 integers col)
  | DataType.Int32 => dc AccInt32 (downcast DataType.Int32 integers col)
  | DataType.Int16 => dc AccInt16 (downcast DataType.Int16 integers col)
  | DataType.Int8 => dc AccInt8 (downcast DataType.Int8 integers col)
  | DataType.Boolean => dc AccBoolean (downcast DataType.Boolean integers col)
  | DataType.Date32 => dc AccDate32 (downcast DataType.Date32 integers col)
  | DataType.Date64 => dc AccDate64 (downcast DataType.Date64 integers col)
  | DataType.Timestamp DataType.Second => dc AccTsSecond (downcast (DataType.Timestamp DataType.Second) integers col)
  | DataType.Timestamp DataType.Millisecond => dc AccTsMilli (downcast (DataType.Timestamp DataType.Millisecond) integers col)
  | DataType.Timestamp DataType.Microsecond => dc AccTsMicro (downcast (DataType.Timestamp DataType.Microsecond) integers col)
  | DataType.Timestamp DataType.Nanosecond => dc AccTsNano (downcast (DataType.Timestamp DataType.Nanosecond) integers col)
  | DataType.Float64 => dc AccFloat64 (downcast DataType.Float64 floats col)
  | DataType.Float32 => dc AccFloat32 (downcast DataType.Float32 floats col)
  | DataType.Utf8 => dc AccUtf8 (downcast DataType.Utf8 strings col)
  | DataType.LargeUtf8 => dc AccLargeUtf8 (downcast DataType.LargeUtf8 strings col)
  | DataType.Decimal128 scale =>
      if (0 <=? scale) && (scale <=? MAX_DECIMAL_ORDERING_SCALE) then
        dc (fun a => AccDecimal a scale) (downcast (DataType.Decimal128 scale) decimals col)
      else AccNone
  | _ => AccNone
  end.

(** A slot of an array: null is the default; reading outside the array panics. *)
Definition slot_at {A} (value : A -> OrderingValue) (a : Slots A) (idx : nat) : res (option OrderingValue) :=
  match a !! idx with
  | None => Panic
  | Some (false, _) => Ok (Some ODefault)
  | Some (true, v) => Ok (Some (value v))
  end.

(** An [int] of 0 is the default. *)
Definition int32_value (v : Z) : OrderingValue := if v =? 0 then ODefault else OLong v.

Definition value_at (acc : OrderingAccessor) (idx : nat) : res (option OrderingValue) :=
  match acc with
  | AccNone => Ok None
  | AccInt64 a | AccInt16 a | AccInt8 a | AccBoolean a | AccDate32 a | AccDate64 a
  | AccTsSecond a | AccTsMilli a | AccTsMicro a | AccTsNano a => slot_at OLong a idx
  | AccInt32 a => slot_at int32_value a idx
  | AccFloat64 a => slot_at ODouble a idx
  | AccFloat32 a => slot_at (fun v => ODouble (f32_as_f64 v)) a idx
  | AccUtf8 a | AccLargeUtf8 a => slot_at OString a idx
  | AccDecimal a scale => slot_at (fun v => ODecimal v scale) a idx
  | AccPrecomputed vals => Ok (v ← vals !! idx; v)
  end.

Definition column_to_ordering_values (col : Array) : res (option (list (option OrderingValue))) :=
  match from_column col with
  | AccNone => Ok None
  | acc => res_map Some (res_mapM (value_at acc) (seq 0 (array_len col)))
  end.

(** * The context of a table *)
Record TableRecordContext := mkRecordContext {
  record_key_field : string;
  record_key_fields : list string;
  ordering_field_names : list string;
  populate_meta_fields : bool;
  rc_partition_path : string;
  encode_single_key_field : bool
}.

(** [split(',')], trimmed, without the empty ones. *)
Definition field_list (fields : string) : list string :=
  List.filter (fun s => negb (bool_decide (s = ""))) (map trim (str_split "," fields)).

(** [map(|v| v.eq_ignore_ascii_case("true")).unwrap_or(default)] *)
Definition flag_option (table_config : HudiConfigs) (key : string) (default : bool) : bool :=
  match table_config !! key with Some v => eq_ignore_ascii_case v "true" | None => default end.

Definition populates_meta_fields (table_config : HudiConfigs) : bool :=
  flag_option table_config (TableConfig.as_ref TableConfig.PopulatesMetaFields) true.

Definition record_key_fields_from (table_config : HudiConfigs) : list string :=
  if populates_meta_fields table_config then [RECORD_KEY_META_FIELD]
  else
    match field_list <$> table_config !! TableConfig.as_ref TableConfig.RecordKeyFields with
    | Some (f :: fs) => f :: fs
    | _ => [RECORD_KEY_META_FIELD]
    end.

Definition COMPLEX_KEYGEN_ENCODE_MIN_TABLE_VERSION : Z := 9.
Definition COMPLEX_KEYGEN_NEW_ENCODING_KEY : string := "hoodie.write.complex.keygen.new.encoding".

Definition should_encode_single_complex_key_field (table_config : HudiConfigs) (populate_meta_fields : bool)
    (num_record_key_fields : nat) : bool :=
  if populate_meta_fields || negb (num_record_key_fields =? 1)%nat then false
  else
    let is_complex_keygen :=
      match table_config !! TableConfig.as_ref TableConfig.KeyGeneratorClass with
      | Some c => ends_with "ComplexKeyGenerator" c || ends_with "ComplexAvroKeyGenerator" c
      | None => false
      end in
    if negb is_complex_keygen then false
    else
      let table_version := v ← table_config !! TableConfig.as_ref TableConfig.TableVersion; parse_i32 (trim v) in
      let new_encoding := flag_option table_config COMPLEX_KEYGEN_NEW_ENCODING_KEY false in
      match table_version with Some v => COMPLEX_KEYGEN_ENCODE_MIN_TABLE_VERSION <=? v | None => false end || negb new_encoding.

(** [RecordContext::new] *)
Definition record_context_new (table_config : HudiConfigs) (partition_path : string) : TableRecordContext :=
  let populate := populates_meta_fields table_config in
  let fields := record_key_fields_from table_config in
  let ordering :=
    match table_config !! TableConfig.as_ref TableConfig.OrderingFields with
    | Some f => Some f
    | None => table_config !! "hoodie.table.precombine.field"
    end in
  mkRecordContext (default RECORD_KEY_META_FIELD (head fields)) fields (default [] (field_list <$> ordering)) populate
    partition_path (should_encode_single_complex_key_field table_config populate (length fields)).

(** * Keys *)

(** [stringify_record_key_column] *)
Definition stringify_record_key_column (col : Array) : res (Slots string) :=
  match data_type col with
  | DataType.LargeUtf8 | DataType.Int8 | DataType.Int16 | DataType.Int32 | DataType.Int64
  | DataType.UInt8 | DataType.UInt16 | DataType.UInt32 | DataType.UInt64 => map_err EReadFileSlice (cast_to_utf8 col)
  | _ => Err EUnsupported
  end.

Definition stringify_key_field_column (col : Array) : res (Slots string) :=
  match data_type col with
  | DataType.Utf8 => Ok (strings col)
  | _ => stringify_record_key_column col
  end.

(** The column of a key field as text. *)
Definition key_column (b : RecordBatch) (field : string) : res (Slots string) :=
  let? col := named_column field b in
  let? col := ok_or col EReadFileSlice in
  stringify_key_field_column col.

(** One field of the key of a row: [key] so far, and whether all was null or empty. *)
Definition push_part (row : nat) (acc : string * bool) (part : nat * (string * Slots string)) : res (string * bool) :=
  let '(i, (field, col)) := part in
  let key := acc.1 +:+ (if (0 <? i)%nat then "," else "") +:+ field +:+ ":" in
  match col !! row with
  | None => Panic
  | Some (false, _) => Ok (key +:+ "__null__", acc.2)
  | Some (true, value) => if decide (value = "") then Ok (key +:+ "__empty__", acc.2) else Ok (key +:+ value, false)
  end.

Definition composite_key (per_field : list (string * Slots string)) (row : nat) : res string :=
  let? acc := res_fold (push_part row) (imap (fun i p => (i, p)) per_field) ("", true) in
  if acc.2 then Err EReadFileSlice else Ok acc.1.

Section context.
Context (rc : TableRecordContext).

Definition build_composite_record_key_array (b : RecordBatch) : res (Slots string) :=
  let? cols := res_mapM (key_column b) (record_key_fields rc) in
  let? keys := res_mapM (composite_key (zip (record_key_fields rc) cols)) (seq 0 (Z.to_nat (num_rows b))) in
  Ok (pair true <$> keys).

Definition record_key_array (b : RecordBatch) : res (Slots string) :=
  if (1 <? length (record_key_fields rc))%nat || encode_single_key_field rc then build_composite_record_key_array b
  else key_column b (record_key_field rc).

(** [get_record_keys] *)
Definition rc_get_record_keys (b : RecordBatch) : res (list string) :=
  let? keys := record_key_array b in Ok (keys.*2).

(** * Ordering values of a batch *)

(** The values of every ordering field; [None] when the batch has no such field, or one of
    another type. *)
Fixpoint field_values (b : RecordBatch) (fields : list string) : res (option (list (list (option OrderingValue)))) :=
  match fields with
  | [] => Ok (Some [])
  | f :: fields =>
      let? col := named_column f b in
      match col with
      | None => Ok None
      | Some col =>
          let? vals := column_to_ordering_values col in
          match vals with
          | None => Ok None
          | Some vals => let? rest := field_values b fields in Ok ((fun rest => vals :: rest) <$> rest)
          end
      end
  end.

(** The elements of a row; [field_vals[row]] panics out of range. *)
Fixpoint row_elements (row : nat) (per_field : list (list (option OrderingValue))) : res (option (list OrderingValue)) :=
  match per_field with
  | [] => Ok (Some [])
  | vals :: per_field =>
      match vals !! row with
      | None => Panic
      | Some None => Ok None
      | Some (Some v) => let? rest := row_elements row per_field in Ok ((fun rest => v :: rest) <$> rest)
      end
  end.

(** [get_ordering_values] *)
Definition rc_get_ordering_values (b : RecordBatch) : res (option (list (option OrderingValue))) :=
  match ordering_field_names rc with
  | [] => Ok None
  | [field_name] =>
      let? col := named_column field_name b in
      match col with Some col => column_to_ordering_values col | None => Ok None end
  | fields =>
      let? per_field := field_values b fields in
      match per_field with
      | None => Ok None
      | Some per_field =>
          let? composite := res_mapM (fun row => res_map (fmap OComposite) (row_elements row per_field)) (seq 0 (Z.to_nat (num_rows b))) in
          Ok (Some composite)
      end
  end.

(** [ordering_accessor] *)
Definition rc_ordering_accessor (b : RecordBatch) : res OrderingAccessor :=
  match ordering_field_names rc with
  | [] => Ok AccNone
  | [field_name] =>
      let? col := named_column field_name b in
      Ok (match col with Some col => from_column col | None => AccNone end)
  | _ =>
      let? vals := rc_get_ordering_values b in
      Ok (match vals with Some vals => AccPrecomputed vals | None => AccNone end)
  end.
End context.

(** * Delete blocks *)

(** [value(row)] of a downcast array *)
Definition slot_value {A} (a : Slots A) (row : nat) : res A := match a !! row with Some s => Ok s.2 | None => Panic end.

Definition scalar_ordering_value (value : Array) (row : nat) : res (option OrderingValue) :=
  if is_null value row then Ok None
  else
    let long_at := res_map OLong (slot_value (integers value) row) in
    let? ordering :=
      match data_type value with
      | DataType.Int64 | DataType.Int16 | DataType.Int8 | DataType.Boolean | DataType.Date32 | DataType.Date64
      | DataType.Timestamp _ => long_at
      | DataType.Int32 => res_map int32_value (slot_value (integers value) row)
      | DataType.Float64 => res_map ODouble (slot_value (floats value) row)
      | DataType.Float32 => res_map (fun v => ODouble (f32_as_f64 v)) (slot_value (floats value) row)
      | DataType.Utf8 | DataType.LargeUtf8 => res_map OString (slot_value (strings value) row)
      | DataType.Decimal128 scale =>
          if (0 <=? scale) && (scale <=? MAX_DECIMAL_ORDERING_SCALE) then
            res_map (fun v => ODecimal v scale) (slot_value (decimals value) row)
          else Err EUnsupported
      | _ => Err EUnsupported
      end in
    Ok (Some ordering).

(** [decode_delete_wrapper_ordering] and [decode_composite_wrapper_ordering] *)
Fixpoint decode_delete_wrapper_ordering (r : UnionRow Array) : res (option OrderingValue) :=
  match r with
  | RowNull => Ok None
  | RowValue value => scalar_ordering_value value 0
  | RowNoStruct | RowNoWrapped | RowNotList | RowNotUnion => Err EReadFileSlice
  | RowNoElements => Ok None
  | RowElements l =>
      let? parts :=
        (fix go l :=
           match l with
           | [] => Ok (Some [])
           | r :: l =>
               let? v := decode_delete_wrapper_ordering r in
               match v with
               | None => Ok None
               | Some v => let? rest := go l in Ok ((fun rest => v :: rest) <$> rest)
               end
           end) l in
      Ok (match parts with Some (v :: vs) => Some (OComposite (v :: vs)) | _ => None end)
  end.

(** The first column of a delete block, as text. *)
Definition delete_keys (b : RecordBatch) : res (list string) :=
  let? col := column b 0 in
  let? keys := ok_or (downcast DataType.Utf8 strings col) EReadFileSlice in
  Ok (keys.*2).

(** [delete_batch_to_keys] *)
Definition delete_batch_to_keys (b : RecordBatch) : res (list string) := if num_rows b =? 0 then Ok [] else delete_keys b.

(** The third column, when there is one. *)
Definition delete_orderings (b : RecordBatch) (num_keys : nat) : res (list (option OrderingValue)) :=
  if (2 <? length (columns b))%nat then
    let? col := column b 2 in
    match data_type col with
    | DataType.UnionType => res_mapM decode_delete_wrapper_ordering (union_rows col)
    | _ => let? vals := column_to_ordering_values col in ok_or vals EUnsupported
    end
  else Ok (replicate num_keys None).

(** [delete_batch_to_keys_with_ordering] *)
Definition rc_delete_batch_to_keys_with_ordering (b : RecordBatch) : res (list (string * option OrderingValue)) :=
  if num_rows b =? 0 then Ok []
  else
    let? keys := delete_keys b in
    let? orderings := delete_orderings b (length keys) in
    Ok (imap (fun i key => (key, v ← orderings !! i; v)) keys).

(** * Deletes among the rows of a data block *)
Section deletes.
Context {AF : ArrowFields}.

(** [!arr.is_null(row_idx) && p(arr.value(row_idx))] *)
Definition slot_is {A} (p : A -> bool) (a : Slots A) (row : nat) : res bool :=
  match a !! row with Some (valid, v) => Ok (valid && p v) | None => Panic end.

(** The same of an array that may not have the type. *)
Definition typed_slot_is {A} (p : A -> bool) (a : option (Slots A)) (row : nat) : res bool :=
  match a with Some a => slot_is p a row | None => Ok false end.

(** [is_built_in_delete_record] *)
Definition is_built_in_delete_record (b : RecordBatch) (row : nat) (ctx : option DeleteContext) : res bool :=
  if match ctx with Some ctx => negb (has_built_in_delete_field ctx) | None => false end then Ok false
  else
    let? col := named_column IS_DELETED b in
    match col with
    | Some col => typed_slot_is (fun v => negb (v =? 0)) (downcast DataType.Boolean integers col) row
    | None => Ok false
    end.

(** [is_delete_hoodie_operation]: the position is the one in the reader's schema. *)
Definition is_delete_hoodie_operation (b : RecordBatch) (row : nat) (ctx : option DeleteContext) : res bool :=
  match (match ctx with Some ctx => hoodie_operation_pos ctx | None => field_index OPERATION (field_names (schema b)) end) with
  | None => Ok false
  | Some col_idx =>
      let? col := column b col_idx in
      typed_slot_is (fun op => bool_decide (op = HOODIE_OPERATION_DELETE) || bool_decide (op = HOODIE_OPERATION_UPDATE_BEFORE))
        (downcast DataType.Utf8 strings col) row
  end.

(** [is_custom_delete_record] *)
Definition is_custom_delete_record (b : RecordBatch) (row : nat) (ctx : option DeleteContext) : res bool :=
  match (c ← ctx; custom_delete_marker c) with
  | None => Ok false
  | Some (key_field, marker_value) =>
      let? col := named_column key_field b in
      match col with
      | None => Ok false
      | Some col =>
          let? text := typed_slot_is (fun v => bool_decide (v = marker_value)) (downcast DataType.Utf8 strings col) row in
          if text : bool then Ok true
          else
            let? int := typed_slot_is (fun v => bool_decide (pretty v = marker_value)) (downcast DataType.Int32 integers col) row in
            if int : bool then Ok true
            else typed_slot_is (fun v => bool_decide (pretty v = marker_value)) (downcast DataType.Int64 integers col) row
      end
  end.

(** [is_delete_record] *)
Definition rc_is_delete_record (b : RecordBatch) (row : nat) (ctx : option DeleteContext) : res bool :=
  let? built_in := is_built_in_delete_record b row ctx in
  if built_in : bool then Ok true
  else
    let? operation := is_delete_hoodie_operation b row ctx in
    if operation : bool then Ok true else is_custom_delete_record b row ctx.

(** [base_row_position_array] *)
Definition rc_base_row_position_array (b : RecordBatch) : res (list Z) :=
  let? col := named_column ROW_INDEX_TEMPORARY_COLUMN_NAME b in
  let? col := ok_or col EReadFileSlice in
  let? positions := ok_or (downcast DataType.Int64 integers col) EReadFileSlice in
  Ok (positions.*2).

(** What a table's options and the context of its deletes make of batches. *)
Definition table_record_context (rc : TableRecordContext) (ctx : option DeleteContext) : RecordContext := {|
  get_record_keys := rc_get_record_keys rc;
  get_ordering_values := rc_get_ordering_values rc;
  ordering_accessor b := let? acc := rc_ordering_accessor rc b in
    Ok (fun i => match value_at acc i with Ok v => v | _ => None end);
  is_delete_record b i := match rc_is_delete_record b i ctx with Ok d => d | _ => false end;
  delete_batch_to_keys_with_ordering := rc_delete_batch_to_keys_with_ordering;
  base_row_position_array := rc_base_row_position_array
|}.
End deletes.
End columns.

(** * What columns hold of rows *)
Definition holds_integers (t : DataType.t) : bool :=
  match t with
  | DataType.Int8 | DataType.Int16 | DataType.Int32 | DataType.Int64 | DataType.Boolean | DataType.Date32
  | DataType.Date64 | DataType.Timestamp _ => true
  | _ => false
  end.

Definition holds_floats (t : DataType.t) : bool := match t with DataType.Float32 | DataType.Float64 => true | _ => false end.
Definition holds_strings (t : DataType.t) : bool := match t with DataType.Utf8 | DataType.LargeUtf8 => true | _ => false end.

(** Types that have a decimal scale an ordering can use. *)
Definition orders (t : DataType.t) : bool :=
  match t with
  | DataType.Decimal128 scale => (0 <=? scale) && (scale <=? MAX_DECIMAL_ORDERING_SCALE)
  | t => holds_integers t || holds_floats t || holds_strings t
  end.

(** Types whose values make keys. *)
Definition makes_keys (t : DataType.t) : bool :=
  match t with
  | DataType.LargeUtf8 | DataType.Int8 | DataType.Int16 | DataType.Int32 | DataType.Int64
  | DataType.UInt8 | DataType.UInt16 | DataType.UInt32 | DataType.UInt64 => true
  | _ => false
  end.

(** A batch has one column for each field, of the field's type, and the column one slot
    for each row; casts go slot by slot. *)
Class ArrowColumnLaws {AB : ArrowBatch} {AR : ArrowRows} {AK : ArrowKernels} {AL : ArrowLaws} {AC : ArrowColumns} := {
  field_type : Schema -> nat -> DataType.t;
  row_integer : Schema -> nat -> Row -> bool * Z;
  row_float : Schema -> nat -> Row -> bool * Z;
  row_string : Schema -> nat -> Row -> bool * string;
  row_decimal : Schema -> nat -> Row -> bool * Z;
  row_text : Schema -> nat -> Row -> bool * string;
  columns_length b : length (columns b) = length (field_names (schema b));
  column_type b i a : columns b !! i = Some a -> data_type a = field_type (schema b) i;
  column_len b i a : columns b !! i = Some a -> array_len a = length (batch_rows b);
  column_integers b i a : columns b !! i = Some a -> holds_integers (data_type a) = true ->
    integers a = row_integer (schema b) i <$> batch_rows b;
  column_floats b i a : columns b !! i = Some a -> holds_floats (data_type a) = true ->
    floats a = row_float (schema b) i <$> batch_rows b;
  column_strings b i a : columns b !! i = Some a -> holds_strings (data_type a) = true ->
    strings a = row_string (schema b) i <$> batch_rows b;
  column_decimals b i a scale : columns b !! i = Some a -> data_type a = DataType.Decimal128 scale ->
    decimals a = row_decimal (schema b) i <$> batch_rows b;
  column_text b i a : columns b !! i = Some a -> makes_keys (data_type a) = true ->
    cast_to_utf8 a = Ok (row_text (schema b) i <$> batch_rows b);
  row_decimal_bounds s i r : - 2 ^ 127 <= (row_decimal s i r).2 < 2 ^ 127
}.

Section rows.
Context {AB : ArrowBatch} {AR : ArrowRows} {AK : ArrowKernels} {AL : ArrowLaws} {AC : ArrowColumns} {CL : ArrowColumnLaws}.

Definition of_slot {A} (value : A -> OrderingValue) (slot : bool * A) : OrderingValue := if slot.1 then value slot.2 else ODefault.

(** The ordering value of a row in the [i]-th column. *)
Definition row_value (s : Schema) (i : nat) (r : Row) : option OrderingValue :=
  match field_type s i with
  | DataType.Int64 | DataType.Int16 | DataType.Int8 | DataType.Boolean | DataType.Date32 | DataType.Date64
  | DataType.Timestamp _ => Some (of_slot OLong (row_integer s i r))
  | DataType.Int32 => Some (of_slot int32_value (row_integer s i r))
  | DataType.Float64 => Some (of_slot ODouble (row_float s i r))
  | DataType.Float32 => Some (of_slot (fun v => ODouble (f32_as_f64 v)) (row_float s i r))
  | DataType.Utf8 | DataType.LargeUtf8 => Some (of_slot OString (row_string s i r))
  | DataType.Decimal128 scale =>
      if (0 <=? scale) && (scale <=? MAX_DECIMAL_ORDERING_SCALE) then Some (of_slot (fun v => ODecimal v scale) (row_decimal s i r)) else None
  | _ => None
  end.

Lemma slot_at_fmap {A R} (value : A -> OrderingValue) (f : R -> bool * A) rows k r : rows !! k = Some r ->
  slot_at value (f <$> rows) k = Ok (Some (of_slot value (f r))).
Proof. intros H. unfold slot_at, of_slot. rewrite list_lookup_fmap, H. cbn. by destruct (f r) as [[] v]. Qed.

Lemma downcast_type {A} t (slots : Array -> Slots A) a : data_type a = t -> downcast t slots a = Some (slots a).
Proof. intros H. unfold downcast. by rewrite decide_True. Qed.

Lemma value_at_row b i a k r : columns b !! i = Some a -> batch_rows b !! k = Some r ->
  value_at (from_column a) k = Ok (row_value (schema b) i r).
Proof.
  intros Ha Hr. pose proof (column_type b i a Ha) as Ht. unfold from_column, row_value. rewrite <- Ht.
  pose proof (column_integers b i a Ha) as Hi. pose proof (column_floats b i a Ha) as Hf.
  pose proof (column_strings b i a Ha) as Hs. pose proof (column_decimals b i a) as Hd.
  destruct (data_type a) as [| | | | | | | | | | |u| | | | |scale| |] eqn:E; try done;
    try (destruct u); try (destruct ((0 <=? scale) && _); [|done]);
    rewrite (downcast_type _ _ _ E); cbn [dc value_at];
    rewrite ?Hi, ?Hf, ?Hs, ?(Hd scale) by done; by apply slot_at_fmap.
Qed.

Lemma from_column_None a : from_column a = AccNone <-> orders (data_type a) = false.
Proof.
  unfold from_column, orders. destruct (data_type a) as [| | | | | | | | | | |u| | | | |scale| |] eqn:E; try done;
    try (destruct u); try (destruct ((0 <=? scale) && _); [|done]); by rewrite (downcast_type _ _ _ E).
Qed.

Lemma mapM_seq_rows {A R} (f : nat -> res A) (g : R -> A) rows : forall n,
  (forall k r, rows !! k = Some r -> f (n + k)%nat = Ok (g r)) -> res_mapM f (seq n (length rows)) = Ok (g <$> rows).
Proof.
  induction rows as [|r rows IH]; intros n H; [done|]. cbn. rewrite (IH (S n)).
  - specialize (H 0%nat r eq_refl). rewrite Nat.add_0_r in H. by rewrite H.
  - intros k r' Hk. replace (S n + k)%nat with (n + S k)%nat by lia. by apply H.
Qed.

Lemma column_values b i a : columns b !! i = Some a ->
  column_to_ordering_values a = Ok (if orders (field_type (schema b) i) then Some (row_value (schema b) i <$> batch_rows b) else None).
Proof.
  intros Ha. rewrite <- (column_type b i a Ha). unfold column_to_ordering_values.
  destruct (orders (data_type a)) eqn:E.
  - assert (Hn : from_column a <> AccNone) by (rewrite from_column_None; congruence).
    assert (Hv : res_mapM (value_at (from_column a)) (seq 0 (array_len a)) = Ok (row_value (schema b) i <$> batch_rows b)).
    { rewrite (column_len b i a Ha). apply mapM_seq_rows. intros k r Hr. by apply value_at_row. }
    revert Hn Hv. destruct (from_column a); intros Hn Hv; [by destruct Hn|by rewrite Hv..].
  - by apply from_column_None in E as ->.
Qed.

(** A field's column. *)
Lemma field_index_Some name names i : field_index name names = Some i -> names !! i = Some name.
Proof. unfold field_index. destruct (list_find _ _) as [[j n]|] eqn:E; [|done]. intros [= <-]. apply list_find_Some in E as (H & <- & _). done. Qed.

Lemma named_column_of name b : named_column name b =
  Ok (i ← field_index name (field_names (schema b)); columns b !! i) /\
  (forall i, field_index name (field_names (schema b)) = Some i -> is_Some (columns b !! i)).
Proof.
  unfold named_column, column. destruct (field_index name _) as [i|] eqn:E; [|by split].
  assert (Hs : is_Some (columns b !! i)).
  { apply lookup_lt_is_Some. rewrite columns_length. apply lookup_lt_is_Some. apply field_index_Some in E. by eexists. }
  split; [|by intros ? [= <-]]. destruct Hs as [a Ha]. cbn. by rewrite Ha.
Qed.

(** ** The values of a row *)

(** In the named fields; [None] as the code does when one is missing or has another type. *)
Fixpoint row_values (s : Schema) (fields : list string) (r : Row) : option (list OrderingValue) :=
  match fields with
  | [] => Some []
  | f :: fields => i ← field_index f (field_names s); v ← row_value s i r; rest ← row_values s fields r; Some (v :: rest)
  end.

Definition row_ordering_of (s : Schema) (fields : list string) (r : Row) : option OrderingValue :=
  match fields with
  | [] => None
  | [f] => i ← field_index f (field_names s); row_value s i r
  | fields => OComposite <$> row_values s fields r
  end.

(** Whether all fields are there with types that order. *)
Definition fields_order (s : Schema) (fields : list string) : bool :=
  forallb (fun f => match field_index f (field_names s) with Some i => orders (field_type s i) | None => false end) fields.

Lemma row_value_orders s i r : is_Some (row_value s i r) <-> orders (field_type s i) = true.
Proof.
  assert (Hb : forall (c : bool) (v : OrderingValue), is_Some (if c then Some v else None) <-> c = true).
  { intros [] v; split; try done; by intros [? [=]]. }
  unfold row_value, orders. destruct (field_type s i) as [| | | | | | | | | | |u| | | | |scale| |]; cbn [holds_integers holds_floats holds_strings orb];
    first [apply Hb|apply (Hb true)|apply (Hb false ODefault)].
Qed.

Lemma row_values_order s fields r : is_Some (row_values s fields r) <-> fields_order s fields = true.
Proof.
  induction fields as [|f fields IH]; [by split|]. cbn. rewrite andb_true_iff, <- IH.
  destruct (field_index f _) as [i|]; cbn; [|split; [by intros []|by intros []]].
  rewrite <- (row_value_orders s i r). destruct (row_value s i r), (row_values s fields r); cbn;
    (split; [intros [? [=]]; split; by eexists|intros [[? [=]] [? [=]]]; by eexists]).
Qed.
End rows.

(** * The context reads batches row by row *)
Section context_rows.
Context {AB : ArrowBatch} {AR : ArrowRows} {AK : ArrowKernels} {AL : ArrowLaws} {AC : ArrowColumns} {CL : ArrowColumnLaws}.

(** The value of a row in a named field. *)
Definition field_value (s : Schema) (f : string) (r : Row) : option OrderingValue :=
  i ← field_index f (field_names s); row_value s i r.

Lemma field_values_rows b fields : field_values b fields =
  Ok (if fields_order (schema b) fields
      then Some ((fun f => field_value (schema b) f <$> batch_rows b) <$> fields)
      else None).
Proof.
  induction fields as [|f fields IH]; [done|]. cbn [field_values fields_order forallb].
  destruct (named_column_of f b) as [-> Hs]. cbn [res_bind]. destruct (field_index f _) as [i|] eqn:Ei; [|done].
  destruct (Hs i eq_refl) as [a Ha]. cbn [mbind option_bind]. rewrite Ha, (column_values b i a Ha). cbn [res_bind].
  destruct (orders _); [|done]. rewrite IH. cbn [res_bind andb]. fold (fields_order (schema b) fields).
  destruct (fields_order _ _); [|done]. cbn. do 3 f_equal. apply list_fmap_ext. intros k r _. unfold field_value. by rewrite Ei.
Qed.

Lemma row_elements_rows s (rows : list Row) k r (fields : list string) : rows !! k = Some r ->
  row_elements k ((fun f => field_value s f <$> rows) <$> fields) = Ok (row_values s fields r).
Proof.
  intros Hr. induction fields as [|f fields IH]; [done|]. rewrite fmap_cons. cbn [row_elements row_values].
  rewrite list_lookup_fmap, Hr. cbn. unfold field_value at 1. destruct (field_index f _) as [i|]; [|done]. cbn.
  destruct (row_value s i r); [|done]. cbn. by rewrite IH.
Qed.

Definition single (fields : list string) : option string := match fields with [f] => Some f | _ => None end.

(** The eager values: none at all, or one for each row. *)
Lemma eager_values rc b : rc_get_ordering_values rc b =
  Ok (if match ordering_field_names rc with [] => false | fields => fields_order (schema b) fields end
      then Some (row_ordering_of (schema b) (ordering_field_names rc) <$> batch_rows b) else None).
Proof.
  unfold rc_get_ordering_values. destruct (ordering_field_names rc) as [|f [|f' fields]]; [done|..].
  - destruct (named_column_of f b) as [-> Hs]. cbn [res_bind fields_order forallb row_ordering_of].
    destruct (field_index f _) as [i|] eqn:Ei; [|done]. destruct (Hs i eq_refl) as [a Ha]. cbn [mbind option_bind].
    rewrite Ha, (column_values b i a Ha), andb_true_r. destruct (orders _); [|done]. do 2 f_equal.
    apply list_fmap_ext. intros k r _. cbn. by rewrite Ei.
  - set (fs := f :: f' :: fields). rewrite field_values_rows. cbn [res_bind].
    destruct (fields_order _ fs); [|done].
    rewrite num_rows_length, Nat2Z.id.
    rewrite (mapM_seq_rows _ (row_ordering_of (schema b) fs)); [done|]. intros k r Hr. cbn [Nat.add].
    by rewrite (row_elements_rows (schema b) (batch_rows b) k r fs Hr).
Qed.

Lemma not_ordered_None s fields r : fields_order s fields = false -> row_ordering_of s fields r = None.
Proof.
  intros Hf. assert (Hv : row_values s fields r = None).
  { destruct (row_values s fields r) eqn:E; [|done]. assert (fields_order s fields = true); [|congruence].
    rewrite <- (row_values_order s fields r), E. by eexists. }
  destruct fields as [|f [|f' fields]]; [done| |cbn [row_ordering_of]; by rewrite Hv].
  cbn in Hv |- *. destruct (field_index f _) as [i|]; [|done]. cbn in Hv |- *. by destruct (row_value s i r).
Qed.

(** Both ways to read ordering values give the row's. *)
Lemma ordering_values_of rc b : exists vals acc,
  rc_get_ordering_values rc b = Ok vals /\ rc_ordering_accessor rc b = Ok acc /\
  forall i r, batch_rows b !! i = Some r ->
    value_at acc i = Ok (row_ordering_of (schema b) (ordering_field_names rc) r) /\
    (vs ← vals; v ← vs !! i; v) = row_ordering_of (schema b) (ordering_field_names rc) r.
Proof.
  pose proof (eager_values rc b) as Hv. rewrite Hv. match type of Hv with _ = Ok ?v => set (vals := v) in * end.
  assert (Hvals : forall i r, batch_rows b !! i = Some r ->
    (vs ← vals; v ← vs !! i; v) = row_ordering_of (schema b) (ordering_field_names rc) r).
  { intros i r Hr. subst vals. destruct (match ordering_field_names rc with [] => _ | _ => _ end) eqn:E.
    - cbn. by rewrite list_lookup_fmap, Hr.
    - cbn. destruct (ordering_field_names rc) eqn:Ef; [done|]. symmetry. by apply not_ordered_None. }
  clearbody vals. unfold rc_ordering_accessor. rewrite Hv. cbn [res_bind].
  destruct (ordering_field_names rc) as [|f [|f' fields]] eqn:Ef.
  - exists vals, AccNone. split; [done|]. split; [done|]. intros i r Hr. split; [done|]. by apply Hvals.
  - destruct (named_column_of f b) as [-> Hs]. cbn [res_bind]. eexists vals, _. split; [done|]. split; [done|].
    intros i r Hr. split; [|by apply Hvals].
    cbn [row_ordering_of]. destruct (field_index f _) as [j|] eqn:Ej; [|done]. destruct (Hs j eq_refl) as [a Ha]. cbn [mbind option_bind].
    rewrite Ha. by apply value_at_row.
  - eexists vals, _. split; [done|]. split; [done|]. intros i r Hr. split; [|by apply Hvals].
    rewrite <- (Hvals i r Hr). by destruct vals.
Qed.

(** The values that a whole batch is read for are those of its rows, and the lazy accessor
    gives the same, row by row: what is merged does not depend on which of the two a path
    takes. *)
Theorem ordering_values_agree rc b : exists vals acc,
  rc_get_ordering_values rc b = Ok vals /\ rc_ordering_accessor rc b = Ok acc /\
  forall i r, batch_rows b !! i = Some r ->
    value_at acc i = Ok (row_ordering_of (schema b) (ordering_field_names rc) r) /\
    (vs ← vals; v ← vs !! i; v) = row_ordering_of (schema b) (ordering_field_names rc) r.
Proof. apply ordering_values_of. Qed.
End context_rows.

(** * Keys of several fields *)
Section keys.

(** What a slot contributes to a key. *)
Definition part_text (slot : bool * string) : string :=
  if negb slot.1 then "__null__" else if decide (slot.2 = "") then "__empty__" else slot.2.

Definition null_or_empty (slot : bool * string) : bool := negb slot.1 || bool_decide (slot.2 = "").

Definition key_part (part : string * (bool * string)) : string := part.1 +:+ ":" +:+ part_text part.2.

Lemma str_join_cons c p ps : ps <> [] -> str_join c (p :: ps) = p +:+ String c (str_join c ps).
Proof. by destruct ps. Qed.

(** The rest of a key, after [i] fields. *)
Fixpoint key_rest (i : nat) (parts : list string) : string :=
  match parts with
  | [] => ""
  | p :: parts => (if (0 <? i)%nat then "," else "") +:+ p +:+ key_rest (S i) parts
  end.

Lemma key_rest_S parts : forall i, parts <> [] -> key_rest (S i) parts = String "," (str_join "," parts).
Proof.
  induction parts as [|p parts IH]; intros i H; [done|].
  change (key_rest (S i) (p :: parts)) with (String "," (p +:+ key_rest (S (S i)) parts)). f_equal.
  destruct parts as [|q parts].
  - apply str_app_nil_r.
  - rewrite IH by done. done.
Qed.

Lemma key_rest_0 parts : key_rest 0 parts = str_join "," parts.
Proof.
  destruct parts as [|p parts]; [done|]. change (key_rest 0 (p :: parts)) with (p +:+ key_rest 1 parts).
  destruct parts as [|q parts]; [apply str_app_nil_r|]. by rewrite key_rest_S.
Qed.

Lemma imap_imap_S {A} (l : list A) n : imap (fun i p => ((n + i)%nat, p)) l = match l with [] => [] | p :: l => (n, p) :: imap (fun i p => ((S n + i)%nat, p)) l end.
Proof. destruct l as [|p l]; [done|]. rewrite imap_cons, Nat.add_0_r. f_equal. apply imap_ext. intros i x _. cbn. f_equal. lia. Qed.

Lemma push_part_slot row i f (col : Slots string) key all s : col !! row = Some s ->
  push_part row (key, all) (i, (f, col)) = Ok (key +:+ (if (0 <? i)%nat then "," else "") +:+ key_part (f, s), all && null_or_empty s).
Proof.
  intros Hs. unfold push_part, key_part, part_text, null_or_empty. cbn [fst snd]. rewrite Hs. destruct s as [[] v]; cbn [fst snd negb orb].
  - case_decide as Hv; [rewrite bool_decide_true by done|rewrite bool_decide_false by done];
      by rewrite ?andb_true_r, ?andb_false_r, !str_app_assoc.
  - by rewrite andb_true_r, !str_app_assoc.
Qed.

Lemma push_parts row (l : list (string * Slots string)) : forall slots i key all,
  Forall2 (fun (p : string * Slots string) s => p.2 !! row = Some s) l slots ->
  res_fold (push_part row) (imap (fun j p => ((i + j)%nat, p)) l) (key, all)
  = Ok (key +:+ key_rest i (key_part <$> zip (l.*1) slots), all && forallb null_or_empty slots).
Proof.
  induction l as [|[f col] l IH]; intros slots i key all H; inversion H as [|? s ? slots' Hs Hl]; subst.
  { cbn. by rewrite str_app_nil_r, andb_true_r. }
  rewrite imap_imap_S. cbn [res_fold]. rewrite (push_part_slot row i f col key all s Hs). cbn [res_bind].
  rewrite (IH slots') by done. cbn [fmap list_fmap zip zip_with key_rest forallb fst]. by rewrite !str_app_assoc, andb_assoc.
Qed.

(** A key is its fields' parts, joined; a row with nothing in them has none. *)
Lemma composite_key_parts fields cols row slots : length cols = length fields ->
  Forall2 (fun c s => c !! row = Some s) cols slots ->
  composite_key (zip fields cols) row =
    if forallb null_or_empty slots then Err EReadFileSlice else Ok (str_join "," (key_part <$> zip fields slots)).
Proof.
  intros Hlen Hs. unfold composite_key.
  change (imap (fun i p => (i, p)) (zip fields cols)) with (imap (fun i (p : string * Slots string) => ((0 + i)%nat, p)) (zip fields cols)).
  rewrite (push_parts row (zip fields cols) slots).
  - cbn [res_bind fst snd andb]. rewrite key_rest_0, str_app_nil_l, fst_zip by lia. done.
  - revert fields Hlen. induction Hs as [|c s cols slots Hc Hs IH]; intros [|f fields] Hlen; try done; constructor; [done|].
    apply IH. cbn in Hlen. lia.
Qed.

(** A slot whose value is not read as anything else. *)
Definition plain_slot (s : bool * string) : Prop :=
  s.1 = true -> str_mem "," s.2 = false /\ s.2 <> "__null__" /\ s.2 <> "__empty__".

(** The same key value: both null, or the same text. *)
Definition same_slot (s s' : bool * string) : Prop := s.1 = s'.1 /\ (s.1 = true -> s.2 = s'.2).

Lemma part_text_inj s s' : plain_slot s -> plain_slot s' -> part_text s = part_text s' -> same_slot s s'.
Proof.
  destruct s as [v t], s' as [v' t']. unfold plain_slot, same_slot, part_text. cbn. intros H H'.
  destruct v, v'; cbn; try (specialize (H eq_refl) as (_ & Hn & He)); try (specialize (H' eq_refl) as (_ & Hn' & He'));
    repeat case_decide; subst; try done; intros E; split; try done; by (symmetry in E || idtac).
Qed.

Lemma str_app_inv_l s t u : s +:+ t = s +:+ u -> t = u.
Proof. induction s as [|a s IH]; [done|]. rewrite !str_app_cons. intros [= H]. auto. Qed.

Lemma str_split_join c ps : ps <> [] -> List.Forall (fun p => str_mem c p = false) ps -> str_split c (str_join c ps) = ps.
Proof.
  induction ps as [|p ps IH]; intros Hn Hf; [done|]. inversion Hf; subst. destruct ps as [|q ps]; [by apply str_split_none|].
  rewrite str_join_cons, str_split_app by done. by rewrite IH.
Qed.

Lemma part_no_comma f s : str_mem "," f = false -> plain_slot s -> str_mem "," (key_part (f, s)) = false.
Proof.
  intros Hf Hs. unfold key_part, part_text. destruct s as [[] v]; cbn [fst snd negb].
  - destruct Hs as (Hv & _); [done|]. cbn in Hv. case_decide; rewrite !str_mem_app, Hf; [done|]. by rewrite Hv.
  - by rewrite !str_mem_app, Hf.
Qed.

Lemma mem_drop c n s : str_mem c s = false -> str_mem c (str_drop n s) = false.
Proof. revert s. induction n as [|n IH]; intros [|a s]; try done. cbn. intros [_ H]%orb_false_iff. by apply IH. Qed.

Lemma mem_trim c s : str_mem c s = false -> str_mem c (trim s) = false.
Proof.
  intros H. unfold trim. assert (Hs : str_mem c (trim_start s) = false).
  { unfold trim_start. generalize (String.length s). intros n. revert s H. induction n as [|n IH]; intros s H; cbn; [done|].
    case_match; [|done]. apply IH. by apply mem_drop. }
  revert Hs. generalize (trim_start s). clear. intros s. induction s as [|a s IH]; [done|]. cbn [str_mem trim_end].
  intros [Ha H]%orb_false_iff. case_decide; [done|]. cbn. by rewrite Ha, IH.
Qed.

Lemma field_list_no_comma f s : f ∈ field_list s -> str_mem "," f = false.
Proof.
  unfold field_list. intros H. apply list_elem_of_In, filter_In in H as [H _]. apply in_map_iff in H as (p & <- & Hp).
  apply mem_trim. by apply (str_split_elem "," s), list_elem_of_In.
Qed.

Lemma key_fields_no_comma options f : f ∈ record_key_fields_from options -> str_mem "," f = false.
Proof.
  assert (Hm : forall f, f ∈ [RECORD_KEY_META_FIELD] -> str_mem "," f = false) by by intros ? ->%list_elem_of_singleton.
  unfold record_key_fields_from. destruct (populates_meta_fields options); [apply Hm|].
  destruct (options !! _) as [s|]; [|apply Hm]. cbn. destruct (field_list s) as [|g gs] eqn:E; [apply Hm|].
  rewrite <- E. apply field_list_no_comma.
Qed.

Lemma key_fields_some options : record_key_fields_from options <> [].
Proof. unfold record_key_fields_from. destruct (populates_meta_fields options); [done|]. by destruct (field_list <$> _) as [[]|]. Qed.
Lemma parts_distinct fields : forall slots slots',
  length slots = length fields -> length slots' = length fields -> List.Forall plain_slot slots -> List.Forall plain_slot slots' ->
  key_part <$> zip fields slots = key_part <$> zip fields slots' -> Forall2 same_slot slots slots'.
Proof.
  induction fields as [|f fields IH]; intros [|s slots] [|s' slots'] Hl Hl' Hp Hp' E; try done.
  inversion Hp; inversion Hp'; subst. cbn in E. injection E as E1 E2. constructor.
  - apply part_text_inj; [done..|]. unfold key_part in E1. cbn [fst snd] in E1. apply (str_app_inv_l f), (str_app_inv_l ":") in E1. done.
  - apply IH; [cbn in Hl; lia|cbn in Hl'; lia|done..].
Qed.

(** The key a row gets from several fields -- each field's name and value, nulls and empty
    text spelled out -- tells rows apart: two rows, of one batch or of the base file and a
    log block, have the same key only if they agree in every key field, as long as no value
    has a comma or is one of the two spellings.  A row without any value has no key, which
    is an error. *)
Theorem composite_keys_distinct options partition_path (cols cols' : list (Slots string)) row row' slots slots' k :
  let fields := record_key_fields (record_context_new options partition_path) in
  length cols = length fields -> length cols' = length fields ->
  Forall2 (fun (c : Slots string) s => c !! row = Some s) cols slots ->
  Forall2 (fun (c : Slots string) s => c !! row' = Some s) cols' slots' ->
  List.Forall plain_slot slots -> List.Forall plain_slot slots' ->
  composite_key (zip fields cols) row = Ok k -> composite_key (zip fields cols') row' = Ok k ->
  Forall2 same_slot slots slots' /\ exists s, s ∈ slots /\ null_or_empty s = false.
Proof.
  intros fields Hl Hl' Hs Hs' Hp Hp'. rewrite (composite_key_parts fields cols row slots Hl Hs), (composite_key_parts fields cols' row' slots' Hl' Hs').
  destruct (forallb null_or_empty slots) eqn:En; [done|]. destruct (forallb null_or_empty slots'); [done|]. intros [= <-] [= E].
  apply Forall2_length in Hs, Hs'. split.
  - apply (parts_distinct fields); [lia|lia|done..|]. symmetry.
    assert (Hsplit : forall l, length l = length fields -> List.Forall plain_slot l ->
      str_split "," (str_join "," (key_part <$> zip fields l)) = key_part <$> zip fields l).
    { intros l Hlen Hpl. apply str_split_join.
      - pose proof (key_fields_some options) as Hne. change (record_key_fields_from options) with fields in Hne.
        destruct fields, l; try done; cbn in Hlen; lia.
      - rewrite List.Forall_forall. intros p Hin%list_elem_of_In. apply list_elem_of_fmap in Hin as ([f s] & -> & Hz).
        apply part_no_comma.
        + apply (key_fields_no_comma options). apply elem_of_zip_l in Hz. exact Hz.
        + apply elem_of_zip_r in Hz. rewrite List.Forall_forall in Hpl. by apply Hpl, list_elem_of_In. }
    rewrite <- (Hsplit slots), <- (Hsplit slots') by (done || lia). by rewrite E.
  - destruct (existsb (fun s => negb (null_or_empty s)) slots) eqn:Ex.
    + apply existsb_exists in Ex as (s & Hin%list_elem_of_In & Hx%negb_true_iff). by exists s.
    + exfalso. rewrite <- not_true_iff_false in En. apply En. apply forallb_forall. intros s Hin.
      destruct (null_or_empty s) eqn:Hx; [done|]. rewrite <- not_true_iff_false in Ex. destruct Ex. apply existsb_exists. exists s. by rewrite Hx.
Qed.
End keys.

(** A comma in a value can stand for a further field. *)
Example ambiguous_keys :
  composite_key (zip ["name"; "id"] [[(true, "a,id:1")]; [(true, "2")]]) 0 = Ok "name:a,id:1,id:2" /\
  composite_key (zip ["name"; "id"] [[(true, "__null__")]; [(true, "2")]]) 0
    = composite_key (zip ["name"; "id"] [[(false, "x")]; [(true, "2")]]) 0.
Proof. by vm_compute. Qed.

(** * The interface of the record buffers *)
Section laws.
Context {AB : ArrowBatch} {AR : ArrowRows} {AK : ArrowKernels} {AL : ArrowLaws} {AC : ArrowColumns} {CL : ArrowColumnLaws}
  {AF : ArrowFields}.
Context (rc : TableRecordContext) (ctx : option DeleteContext) (target : Schema) (key_column_index : nat).

(** Keys are one column, of text or integers. *)
Class SingleKey : Prop := {
  single_key : (1 <? length (record_key_fields rc))%nat || encode_single_key_field rc = false;
  key_index : field_index (record_key_field rc) (field_names target) = Some key_column_index;
  key_type : bool_decide (field_type target key_column_index = DataType.Utf8) || makes_keys (field_type target key_column_index) = true
}.

Definition row_key_text (r : Row) : string :=
  (if decide (field_type target key_column_index = DataType.Utf8) then row_string target key_column_index r
   else row_text target key_column_index r).2.

Lemma single_keys {SK : SingleKey} b : schema b = target -> rc_get_record_keys rc b = Ok (row_key_text <$> batch_rows b).
Proof.
  intros Hb. unfold rc_get_record_keys, record_key_array, key_column. rewrite single_key.
  destruct (named_column_of (record_key_field rc) b) as [-> Hs]. cbn [res_bind]. rewrite Hb in *.
  pose proof key_index as Hi. rewrite Hi. destruct (Hs _ Hi) as [a Ha]. cbn [mbind option_bind]. rewrite Ha. cbn [ok_or res_bind].
  pose proof (column_type b _ a Ha) as Ht. rewrite Hb in Ht. pose proof key_type as Hk. rewrite <- Ht in Hk.
  unfold stringify_key_field_column, stringify_record_key_column, row_key_text. rewrite <- Ht.
  pose proof (column_strings b _ a Ha) as Hstr. pose proof (column_text b _ a Ha) as Htxt. rewrite Hb in Hstr, Htxt.
  destruct (data_type a) eqn:E; try done; rewrite ?Htxt, ?Hstr by done; cbn [map_err res_bind];
    rewrite <- list_fmap_compose; reflexivity.
Qed.

Lemma row_value_supported s i r v : row_value s i r = Some v -> ov_supported v.
Proof.
  assert (Hslot : forall A (value : A -> OrderingValue) slot, (forall x, ov_supported (value x)) -> ov_supported (of_slot value slot)).
  { intros A value [[] x] H; unfold of_slot; cbn [fst snd]; [apply H|done]. }
  unfold row_value. destruct (field_type s i) as [| | | | | | | | | | |u| | | | |scale| |]; try done; try (intros [= <-]; by apply Hslot).
  - intros [= <-]. apply Hslot. intros x. unfold int32_value. by destruct (x =? 0).
  - destruct (Z.leb_spec 0 scale), (Z.leb_spec scale MAX_DECIMAL_ORDERING_SCALE); try done. intros [= <-].
    pose proof (row_decimal_bounds s i r) as Hd. destruct (row_decimal s i r) as [[] x]; [|done]. cbn in Hd |- *.
    unfold decimal_in_domain, MAX_DECIMAL_ORDERING_SCALE in *. lia.
Qed.

Lemma row_ordering_supported s fields r v : row_ordering_of s fields r = Some v -> ov_supported v.
Proof.
  assert (Hall : forall vs, row_values s fields r = Some vs -> List.Forall ov_supported vs).
  { induction fields as [|f l IH]; intros vs E; cbn in E; [by injection E as <-|].
    destruct (field_index f _) as [i|]; [|done]. cbn in E. destruct (row_value s i r) as [x|] eqn:Ex; [|done]. cbn in E.
    destruct (row_values s l r) as [rest|]; [|done]. injection E as <-. constructor; [by apply (row_value_supported s i r)|by apply IH]. }
  destruct fields as [|f [|g l]]; [done| |].
  - cbn. destruct (field_index f _) as [i|]; [|done]. cbn. apply row_value_supported.
  - unfold row_ordering_of. destruct (row_values s (f :: g :: l) r) as [vs|]; [|done]. intros [= <-].
    apply ov_supported_composite. by apply Hall.
Qed.

(** What the buffers suppose of a record context holds of a table's. *)
Definition table_context_laws {SK : SingleKey} : RecordContextLaws (RC := table_record_context rc ctx) target RecordKey.
Proof.
  refine {| row_key := row_key_text; row_lookup := row_key_text; row_ordering := row_ordering_of target (ordering_field_names rc) |}.
  - intros b Hb. by apply single_keys.
  - intros b Hb. by apply single_keys.
  - intros b Hb. destruct (ordering_values_of rc b) as (vals & acc & _ & Ha & H). rewrite Hb in H.
    eexists. split; [cbn; rewrite Ha; reflexivity|]. intros i r Hr. cbn. by rewrite (proj1 (H i r Hr)).
  - intros b Hb. destruct (ordering_values_of rc b) as (vals & acc & Hv & _ & H). rewrite Hb in H.
    exists vals. split; [done|]. intros i r Hr. by apply H.
  - intros r v. apply row_ordering_supported.
Defined.
End laws.

(** * Instances *)
Module SampleKeys.
Import ArrowKernels.Sample.

(** Columns of the sample batches: the field's name says what it holds. *)
Definition sample_array : Type := string * list row.

Definition sample_type (name : string) : DataType.t :=
  if decide (name ∈ ["k"; OPERATION]) then DataType.Utf8 else if decide (name = "ts") then DataType.Int64 else DataType.Int32.

Definition sample_integer (name : string) (r : row) : bool * Z :=
  if decide (name = "ts") then match r.1.2 with Some (OLong v) => (true, v) | _ => (false, 0) end else (true, r.2).

Definition sample_string (name : string) (r : row) : bool * string :=
  (true, if decide (name = OPERATION) then (if r.2 =? 0 then "D" else "I") else r.1.1).

#[export] Instance sample_arrays : ArrowColumns := {|
  Array := sample_array;
  data_type a := sample_type a.1;
  array_len a := length a.2;
  is_null a i := match a.2 !! i with Some r => negb (sample_integer a.1 r).1 | None => false end;
  columns b := (fun name => (name, data b)) <$> fields b;
  integers a := sample_integer a.1 <$> a.2;
  floats a := [];
  strings a := sample_string a.1 <$> a.2;
  decimals a := [];
  union_rows a := [];
  cast_to_utf8 a := Ok ((fun r => (true, pretty (sample_integer a.1 r).2)) <$> a.2)
|}.

Lemma sample_types name : sample_type name = DataType.Utf8 \/ sample_type name = DataType.Int64 \/ sample_type name = DataType.Int32.
Proof. unfold sample_type. repeat case_decide; auto. Qed.

Lemma sample_column b i a : columns b !! i = Some a -> exists name, fields b !! i = Some name /\ a = (name, data b).
Proof. cbn. rewrite list_lookup_fmap. destruct (fields b !! i) as [name|]; [|done]. intros [= <-]. by exists name. Qed.

#[export] Instance sample_array_laws : ArrowColumnLaws.
Proof.
  refine {|
    field_type s i := sample_type (default "" ((s : list string) !! i));
    row_integer s i r := sample_integer (default "" ((s : list string) !! i)) r;
    row_float s i r := (true, 0);
    row_string s i r := sample_string (default "" ((s : list string) !! i)) r;
    row_decimal s i r := (true, 0);
    row_text s i r := (true, pretty (sample_integer (default "" ((s : list string) !! i)) r).2) |}.
  - intros b. cbn. by rewrite length_fmap.
  - intros b i a (name & Hn & ->)%sample_column. cbn. by rewrite Hn.
  - intros b i a (name & Hn & ->)%sample_column. done.
  - intros b i a (name & Hn & ->)%sample_column _. cbn. by rewrite Hn.
  - intros b i a (name & Hn & ->)%sample_column. cbn. by destruct (sample_types name) as [->|[->| ->]].
  - intros b i a (name & Hn & ->)%sample_column _. cbn. by rewrite Hn.
  - intros b i a scale (name & Hn & ->)%sample_column. cbn. by destruct (sample_types name) as [->|[->| ->]].
  - intros b i a (name & Hn & ->)%sample_column _. cbn. by rewrite Hn.
  - cbn. lia.
Defined.

#[export] Instance sample_fields : ArrowFields := {| AField := string; f_name n := n |}.

Definition sample_options : HudiConfigs :=
  {["hoodie.populate.meta.fields" := "false"; "hoodie.table.recordkey.fields" := " k, v"; "hoodie.table.ordering.fields" := "ts"]}.

Lemma composite_keys_distinct_witness :
  let cols := [[(true, "a"); (true, "b")]; [(true, "7"); (false, "?")]] in
  let cols' := [[(true, "b")]; [(false, "")]] in
  composite_key (zip ["k"; "v"] cols) 1 = Ok "k:b,v:__null__" /\
  Forall2 same_slot [(true, "b"); (false, "?")] [(true, "b"); (false, "")].
Proof.
  intros cols cols'. split; [reflexivity|].
  apply (composite_keys_distinct sample_options "" cols cols' 1 0 [(true, "b"); (false, "?")] [(true, "b"); (false, "")] "k:b,v:__null__").
  - reflexivity.
  - reflexivity.
  - repeat constructor.
  - repeat constructor.
  - repeat constructor; intros; done.
  - repeat constructor; intros; done.
  - vm_compute. reflexivity.
  - vm_compute. reflexivity.
Defined.

(** The sample's single text key satisfies what the buffers suppose. *)
Definition sample_record_context : TableRecordContext := record_context_new
  {["hoodie.populate.meta.fields" := "false"; "hoodie.table.recordkey.fields" := "k"; "hoodie.table.precombine.field" := "ts"]} "".

#[export] Instance sample_single_key : SingleKey sample_record_context (["k"; "ts"; "v"] : Schema) 0.
Proof. split; vm_compute; reflexivity. Qed.

(** The position of the operation column is that of the reader's schema, and a log block's
    batch is read at it whatever its own columns are: where a batch is narrower, the row is
    not seen to be a delete, or the read panics. *)
Example operation_read_at_the_readers_position :
  let ctx := with_reader_schema ["k"; OPERATION; "v"] (mkDeleteContext None true None []) in
  let wide := mk ["k"; OPERATION; "v"] [("a", None, 0)] in
  let reordered := mk ["k"; "v"; OPERATION] [("a", None, 0)] in
  let narrow := mk ["k"] [("a", None, 0)] in
  rc_is_delete_record wide 0 (Some ctx) = Ok true /\
  rc_is_delete_record reordered 0 (Some ctx) = Ok false /\ rc_is_delete_record reordered 0 None = Ok true /\
  rc_is_delete_record narrow 0 (Some ctx) = Panic /\ rc_is_delete_record narrow 0 None = Ok false.
Proof. by vm_compute. Qed.
End SampleKeys.
