(* ===== verification/Evolution.v ===== *)
(** Batches written under one schema and read under another:
    crates/core/src/schema/batch_evolution.rs and
    crates/core/src/file_group/reader_v2/output_converter.rs.

    A base file keeps the schema it was written with.  Its columns are found by name, first
    exactly and then ignoring case, and evolved to the type the read asks for; columns it
    does not have are null.  One of these evolutions reinterprets values instead of
    converting them -- timestamps labelled microseconds that hold milliseconds -- so a
    predicate must not be evaluated on such a column before it is evolved.  Types are
    Arrow's, arrays are behind an interface; an array of a type is the array class of that
    type, so downcasts by an array's own type do not fail. *)
From Stdlib Require Import ZArith Ascii.
From stdpp Require Import base gmap sets list strings sorting numbers pretty.
From S2P Require Import Prelude RustStr StrReplace RecordBatches StorageReader Config Options OrderingValues RecordMerger RecordKeys.
Local Open Scope res_scope.
Local Open Scope Z_scope.

(** * Types *)
Record FieldOf (T : Type) := mkField { f_name : string; f_type : T; f_nullable : bool }.
Global Arguments mkField {_} f_name f_type f_nullable.
Global Arguments f_name {_} f.
Global Arguments f_type {_} f.
Global Arguments f_nullable {_} f.

Inductive ArrowType :=
  | ABoolean | AInt8 | AInt16 | AInt32 | AInt64 | AFloat32 | AFloat64 | AUtf8 | ABinary
  | ADecimal128 (precision scale : Z) | ADecimal256 (precision scale : Z)
  | ATimestamp (unit : DataType.TimeUnit) (timezone : option string)
  | AStruct (fields : list (FieldOf ArrowType))
  | AList (element : FieldOf ArrowType)
  | ALargeList (element : FieldOf ArrowType)
  | AFixedSizeList (element : FieldOf ArrowType) (size : Z)
  | AMap (entries : FieldOf ArrowType) (sorted : bool)
  | AOther (id : nat).

Abbreviation Field := (FieldOf ArrowType).
Abbreviation Fields := (list Field).

(** Induction with the types of the fields inside. *)
Section type_ind.
Context (P : ArrowType -> Prop).
Context (Hflat : forall t, (forall fs, t <> AStruct fs) -> (forall f, t <> AList f /\ t <> ALargeList f) ->
  (forall f n, t <> AFixedSizeList f n) -> (forall f s, t <> AMap f s) -> P t).
Context (Hstruct : forall fs, List.Forall (fun f => P (f_type f)) fs -> P (AStruct fs)).
Context (Hlist : forall f, P (f_type f) -> P (AList f)) (Hlarge : forall f, P (f_type f) -> P (ALargeList f)).
Context (Hfixed : forall f n, P (f_type f) -> P (AFixedSizeList f n)) (Hmap : forall f s, P (f_type f) -> P (AMap f s)).

Fixpoint type_ind (t : ArrowType) : P t.
Proof.
  destruct t as [| | | | | | | | | | | |fs|[n t b]|[n t b]|[n t b] m|[n t b] s|]; try (by apply Hflat).
  - apply Hstruct. induction fs as [|[n t b] fs IH]; constructor; [apply (type_ind t)|exact IH].
  - apply Hlist, (type_ind t).
  - apply Hlarge, (type_ind t).
  - apply Hfixed, (type_ind t).
  - apply Hmap, (type_ind t).
Defined.
End type_ind.

Definition field_eqb (type_eqb : ArrowType -> ArrowType -> bool) (f g : Field) : bool :=
  bool_decide (f_name f = f_name g) && type_eqb (f_type f) (f_type g) && Bool.eqb (f_nullable f) (f_nullable g).

Fixpoint type_eqb (a b : ArrowType) {struct a} : bool :=
  match a, b with
  | ABoolean, ABoolean | AInt8, AInt8 | AInt16, AInt16 | AInt32, AInt32 | AInt64, AInt64
  | AFloat32, AFloat32 | AFloat64, AFloat64 | AUtf8, AUtf8 | ABinary, ABinary => true
  | ADecimal128 p s, ADecimal128 p' s' | ADecimal256 p s, ADecimal256 p' s' => (p =? p') && (s =? s')
  | ATimestamp u z, ATimestamp u' z' => bool_decide (u = u') && bool_decide (z = z')
  | AStruct fs, AStruct gs =>
      (fix go fs gs :=
         match fs, gs with
         | [], [] => true
         | f :: fs, g :: gs => field_eqb type_eqb f g && go fs gs
         | _, _ => false
         end) fs gs
  | AList f, AList g | ALargeList f, ALargeList g => field_eqb type_eqb f g
  | AFixedSizeList f n, AFixedSizeList g m => field_eqb type_eqb f g && (n =? m)
  | AMap f s, AMap g s' => field_eqb type_eqb f g && Bool.eqb s s'
  | AOther i, AOther j => (i =? j)%nat
  | _, _ => false
  end.

Lemma field_eqb_spec f : (forall b, type_eqb (f_type f) b = true <-> f_type f = b) -> forall g, field_eqb type_eqb f g = true <-> f = g.
Proof.
  intros H [n t b]. destruct f as [n' t' b']. unfold field_eqb. cbn in *.
  rewrite !andb_true_iff, bool_decide_eq_true, H, Bool.eqb_true_iff. naive_solver.
Qed.

Lemma type_eqb_spec a : forall b, type_eqb a b = true <-> a = b.
Proof.
  induction a as [t H1 H2 H3 H4|fs IH|f IH|f IH|f n IH|f s IH] using type_ind; intros b.
  - destruct t; try (by destruct (H1 fields)); try (by destruct (H2 element)); try (by destruct (H3 element size));
      try (by destruct (H4 entries sorted)); destruct b; cbn;
      rewrite ?andb_true_iff, ?Z.eqb_eq, ?bool_decide_eq_true, ?Nat.eqb_eq; naive_solver.
  - destruct b as [| | | | | | | | | | | |gs| | | | |]; try (by split). cbn. trans (fs = gs); [|split; [by intros ->|by intros [=]]].
    revert gs. induction fs as [|f fs IHf]; intros [|g gs]; try (by split). inversion IH; subst.
    rewrite andb_true_iff, (field_eqb_spec f), IHf by done. naive_solver.
  - destruct b; try (by split). cbn. rewrite (field_eqb_spec f) by done. naive_solver.
  - destruct b; try (by split). cbn. rewrite (field_eqb_spec f) by done. naive_solver.
  - destruct b; try (by split). cbn. rewrite andb_true_iff, Z.eqb_eq, (field_eqb_spec f) by done. naive_solver.
  - destruct b; try (by split). cbn. rewrite andb_true_iff, Bool.eqb_true_iff, (field_eqb_spec f) by done. naive_solver.
Qed.

#[global] Instance arrow_type_eq_dec : EqDecision ArrowType.
Proof. intros a b. destruct (type_eqb a b) eqn:E; [left; by apply type_eqb_spec|right]. rewrite <- type_eqb_spec, E. done. Defined.

#[global] Instance field_eq_dec : EqDecision Field.
Proof. solve_decision. Defined.

(** * Columns by name *)

(** The fields whose names are the name but for case, with their positions. *)
Definition ci_matches (fields : Fields) (name : string) : list nat :=
  (filter (fun p : nat * Field => eq_ignore_ascii_case (f_name p.2) name = true) (imap pair fields)).*1.

(** [index_of_ci]: the loop stops at a second match. *)
Definition index_of_ci (fields : Fields) (name : string) : res (option nat) :=
  match field_index name (f_name <$> fields) with
  | Some idx => Ok (Some idx)
  | None => match ci_matches fields name with [] => Ok None | [idx] => Ok (Some idx) | _ => Err ESchema end
  end.

(** * The repair that reinterprets values *)
Definition is_value_reinterpreting (file table : ArrowType) : bool :=
  match file, table with
  | ATimestamp DataType.Microsecond (Some _), ATimestamp DataType.Millisecond (Some _) => true
  | _, _ => false
  end.

(** [iter().find(..)] of a field by its name but for case *)
Definition find_ci (name : string) (fields : Fields) : option Field := find (fun f => eq_ignore_ascii_case (f_name f) name) fields.

Fixpoint pair_is_value_reinterpreting (file table : ArrowType) {struct table} : bool :=
  is_value_reinterpreting file table ||
  match file, table with
  | AStruct ff, AStruct tf =>
      existsb (fun t => match find_ci (f_name t) ff with
                        | Some f => pair_is_value_reinterpreting (f_type f) (f_type t)
                        | None => false
                        end) tf
  | AList f, AList t | ALargeList f, ALargeList t | AMap f _, AMap t _ => pair_is_value_reinterpreting (f_type f) (f_type t)
  | _, _ => false
  end.

Fixpoint is_repair_target (table : ArrowType) : bool :=
  match table with
  | ATimestamp DataType.Millisecond (Some _) => true
  | AStruct fields => existsb (fun f => is_repair_target (f_type f)) fields
  | AList f | ALargeList f | AMap f _ => is_repair_target (f_type f)
  | _ => false
  end.

(** [schema.fields()[idx]] *)
Definition type_at (fields : Fields) (idx : nat) : res ArrowType :=
  match fields !! idx with Some f => Ok (f_type f) | None => Panic end.

Definition repair_risk_columns (table_schema : Fields) (predicate_columns : list string) : list string :=
  List.filter (fun name =>
    match index_of_ci table_schema name with
    | Ok (Some idx) => match type_at table_schema idx with Ok t => is_repair_target t | _ => false end
    | Ok None => false
    | _ => true
    end) predicate_columns.

(** One candidate of [reinterpreted_columns]. *)
Definition reinterpreted_step (file_schema table_schema : Fields) (out : list string) (name : string) : res (list string) :=
  let? fi := index_of_ci file_schema name in
  let? ti := index_of_ci table_schema name in
  match fi, ti with
  | Some fi, Some ti =>
      match file_schema !! fi, table_schema !! ti with
      | Some f, Some t => Ok (if pair_is_value_reinterpreting (f_type f) (f_type t) then out ++ [f_name f] else out)
      | _, _ => Panic
      end
  | _, _ => Ok out
  end.

Definition reinterpreted_columns (file_schema table_schema : Fields) (candidates : list string) : res (list string) :=
  res_fold (reinterpreted_step file_schema table_schema) candidates [].

(** * Arrays *)

Definition is_container (t : ArrowType) : bool :=
  match t with AList _ | ALargeList _ | AFixedSizeList _ _ | AStruct _ | AMap _ _ => true | _ => false end.

(** [is_promotion] *)
Definition is_promotion (from to : ArrowType) : bool :=
  match from, to with
  | AInt32, (AInt64 | AFloat32 | AFloat64) => true
  | AInt64, (AFloat32 | AFloat64) => true
  | AFloat32, AFloat64 => true
  | (AInt8 | AInt16 | AInt32 | AInt64), AUtf8 => true
  | (AFloat32 | AFloat64), AUtf8 => true
  | AUtf8, ABinary | ABinary, AUtf8 => true
  | ADecimal128 pf sf, ADecimal128 pt st => (sf =? st) && (pf <=? pt)
  | ADecimal128 _ sf, ADecimal256 _ st => sf =? st
  | _, _ => false
  end.

(** [format!] of floating point numbers, given their bits: the shortest text that reads
    back, plain and in scientific notation. *)
Class FloatText := {
  shortest_f64 : Z -> string; scientific_f64 : Z -> string;
  shortest_f32 : Z -> string; scientific_f32 : Z -> string
}.

Definition has_char (c : ascii) (s : string) : bool := str_mem c s.

(** [java_repr_finite] *)
Definition java_repr_finite (in_decimal_range : bool) (shortest scientific : string) : string :=
  if in_decimal_range then
    if has_char "." shortest || has_char "e" shortest || has_char "E" shortest then shortest else shortest +:+ ".0"
  else
    match split_once "e" scientific with
    | None => scientific
    | Some (m, e) => (if has_char "." m then m else m +:+ ".0") +:+ "E" +:+ e
    end.

(** The texts of a number of a width: sign, exponent and mantissa decide the special ones;
    the magnitudes are compared as their bits are. *)
Definition java_repr (width mantissa_bits low high : Z) (shortest scientific : Z -> string) (bits : Z) : string :=
  let sign := Z.testbit bits (width - 1) in
  let magnitude := Z.land bits (2 ^ (width - 1) - 1) in
  let infinity := Z.shiftl (2 ^ (width - 1 - mantissa_bits) - 1) mantissa_bits in
  if infinity <? magnitude then "NaN"
  else if magnitude =? infinity then (if sign then "-Infinity" else "Infinity")
  else if magnitude =? 0 then (if sign then "-0.0" else "0.0")
  else java_repr_finite ((low <=? magnitude) && (magnitude <? high)) (shortest bits) (scientific bits).

(** [1e-3..1e7] *)
Definition java_double_repr {FT : FloatText} : Z -> string :=
  java_repr 64 52 0x3F50624DD2F1A9FC 0x416312D000000000 shortest_f64 scientific_f64.

Definition java_float_repr {FT : FloatText} : Z -> string :=
  java_repr 32 23 0x3A83126F 0x4B189680 shortest_f32 scientific_f32.

Class ArrowArrays := {
  Arr : Type;
  arr_type : Arr -> ArrowType;
  arr_len : Arr -> Z;
  new_null_array : ArrowType -> Z -> Arr;
  cast : Arr -> ArrowType -> res Arr;
  (** the bits of a floating point array *)
  float_slots : Arr -> list (option Z);
  string_array : list (option string) -> Arr;
  (** the values of an array of microseconds, and an array of milliseconds *)
  micros_slots : Arr -> list (option Z);
  millis_array : list (option Z) -> Arr;
  (** the data of an array under another type, as its builder checks it *)
  rebuild_as : Arr -> ArrowType -> res Arr;
  (** struct arrays: the column of a name, the [i]-th, and [try_new] with the nulls of another *)
  struct_column : Arr -> string -> option Arr;
  struct_child : Arr -> nat -> option Arr;
  struct_new : Fields -> list Arr -> Arr -> res Arr;
  (** lists and maps: values or entries, and [try_new] with the offsets and nulls of another *)
  list_values : Arr -> Arr;
  list_new : Field -> Arr -> Arr -> res Arr;
  map_entries : Arr -> Arr;
  map_new : Field -> Arr -> Arr -> bool -> res Arr
}.

Section evolve.
Context {FT : FloatText} {AA : ArrowArrays}.

(** [float_to_java_string_array] *)
Definition float_to_java_string_array (src : Arr) : res Arr :=
  match arr_type src with
  | AFloat32 => Ok (string_array (fmap (M := option) java_float_repr <$> float_slots src))
  | AFloat64 => Ok (string_array (fmap (M := option) java_double_repr <$> float_slots src))
  | _ => Err ESchema
  end.

Definition MICROS_PER_MILLIS : Z := 1000.

(** [evolve_array], on the type of the target field, given what reinterprets an array. *)
Fixpoint evolve_with (reinterpret : Arr -> ArrowType -> res Arr) (target : ArrowType) (src : Arr) {struct target} : res Arr :=
  let st := arr_type src in
  if decide (st = target) then Ok src
  else
    match st, target with
    | AFloat32, AFloat64 => let? s := float_to_java_string_array src in map_err ESchema (cast s AFloat64)
    | AInt32, AInt64 => map_err ESchema (cast src AInt64)
    | (AFloat32 | AFloat64), AUtf8 => float_to_java_string_array src
    | (AInt8 | AInt16 | AInt32 | AInt64), AUtf8 => map_err ESchema (cast src AUtf8)
    | AStruct _, AStruct tfields =>
        let? children :=
          (fix go tfields :=
             match tfields with
             | [] => Ok []
             | tf :: tfields =>
                 let? child :=
                   match struct_column src (f_name tf) with
                   | Some child => evolve_with reinterpret (f_type tf) child
                   | None => if f_nullable tf then Ok (new_null_array (f_type tf) (arr_len src)) else Err ESchema
                   end in
                 let? children := go tfields in Ok (child :: children)
             end) tfields in
        map_err ESchema (struct_new tfields children src)
    | AList _, AList telem =>
        let? values := evolve_with reinterpret (f_type telem) (list_values src) in
        map_err ESchema (list_new telem values src)
    | AMap _ _, AMap tentries sorted =>
        let? entries := evolve_with reinterpret (f_type tentries) (map_entries src) in
        map_err ESchema (map_new tentries entries src sorted)
    | ATimestamp DataType.Microsecond (Some _), ATimestamp DataType.Millisecond (Some _) => map_err ESchema (reinterpret src target)
    | ATimestamp DataType.Microsecond None, ATimestamp DataType.Millisecond None =>
        Ok (millis_array (fmap (M := option) (fun v => v / MICROS_PER_MILLIS) <$> micros_slots src))
    | st, target => if is_container st || is_container target then Err ESchema else map_err ESchema (cast src target)
    end.

Definition evolve_array (src : Arr) (target_field : Field) : res Arr := evolve_with rebuild_as (f_type target_field) src.

(** * Batches *)
Class ArrayBatches {AB : ArrowBatch} := {
  batch_schema : RecordBatch -> Fields;
  batch_column : RecordBatch -> nat -> res Arr;
  (** [try_new], and [try_new_with_options] with a row count *)
  batch_new : Fields -> list Arr -> res RecordBatch;
  batch_new_counted : Fields -> list Arr -> Z -> res RecordBatch
}.

Section batches.
Context {AB : ArrowBatch} {BA : ArrayBatches}.

(** One column of [project_batch_to_schema]. *)
Definition projected_column (batch : RecordBatch) (tf : Field) : res Arr :=
  let? idx := index_of_ci (batch_schema batch) (f_name tf) in
  match idx with
  | Some idx => let? col := batch_column batch idx in evolve_array col tf
  | None => if f_nullable tf then Ok (new_null_array (f_type tf) (num_rows batch)) else Err ESchema
  end.

Definition project_batch_to_schema (batch : RecordBatch) (target : Fields) : res RecordBatch :=
  if decide (batch_schema batch = target) then Ok batch
  else
    let? columns := res_mapM (projected_column batch) target in
    map_err ESchema (batch_new target columns).

(** * The output converter *)

(** [enumerate().find(|(_, f)| f.name() == name)] *)
Definition find_field (name : string) (fields : Fields) : option (nat * Field) := list_find (fun f => f_name f = name) fields.

(** [narrow_array_to_field], given the type of the source field *)
Fixpoint narrow_array_to_field (target : ArrowType) (source_type : ArrowType) (source : Arr) {struct target} : res Arr :=
  if decide (source_type = target) then Ok source
  else
    match source_type, target with
    | AStruct source_fields, AStruct target_fields =>
        let? children :=
          (fix go target_fields :=
             match target_fields with
             | [] => Ok []
             | tgt_sub :: target_fields =>
                 let? found := ok_or (find_field (f_name tgt_sub) source_fields) EReadFileSlice in
                 let? src_child := match struct_child source found.1 with Some c => Ok c | None => Panic end in
                 let? child := narrow_array_to_field (f_type tgt_sub) (f_type found.2) src_child in
                 let? children := go target_fields in Ok (child :: children)
             end) target_fields in
        map_err EReadFileSlice (struct_new target_fields children source)
    | _, _ => Err EReadFileSlice
    end.

Definition narrowed_column (batch : RecordBatch) (tgt : Field) : res Arr :=
  let? found := ok_or (find_field (f_name tgt) (batch_schema batch)) EReadFileSlice in
  let? src_col := batch_column batch found.1 in
  narrow_array_to_field (f_type tgt) (f_type found.2) src_col.

(** [ProjectionConverter::apply] *)
Definition projection_apply (target_schema : Fields) (batch : RecordBatch) : res RecordBatch :=
  let? columns := res_mapM (narrowed_column batch) target_schema in
  map_err EReadFileSlice (batch_new_counted target_schema columns (num_rows batch)).
End batches.
End evolve.

(** * What evolution keeps *)

(** Arrays have the types they were made with; the parts of a nested array those of its
    fields. *)
Class ArrowArrayLaws {AA : ArrowArrays} := {
  cast_ok a t b : cast a t = Ok b -> arr_type b = t /\ arr_len b = arr_len a;
  null_ok t n : 0 <= n -> arr_type (new_null_array t n) = t /\ arr_len (new_null_array t n) = n;
  strings_ok l : arr_type (string_array l) = AUtf8 /\ arr_len (string_array l) = Z.of_nat (length l);
  millis_ok l : arr_type (millis_array l) = ATimestamp DataType.Millisecond None /\ arr_len (millis_array l) = Z.of_nat (length l);
  floats_len a : arr_type a = AFloat32 \/ arr_type a = AFloat64 -> Z.of_nat (length (float_slots a)) = arr_len a;
  micros_len a tz : arr_type a = ATimestamp DataType.Microsecond tz -> Z.of_nat (length (micros_slots a)) = arr_len a;
  rebuild_ok a t b : rebuild_as a t = Ok b -> arr_type b = t /\ arr_len b = arr_len a;
  struct_column_of a fs name : arr_type a = AStruct fs ->
    struct_column a name = match find_field name fs with Some (i, _) => struct_child a i | None => None end;
  struct_child_of a fs i f : arr_type a = AStruct fs -> fs !! i = Some f ->
    exists c, struct_child a i = Some c /\ arr_type c = f_type f /\ arr_len c = arr_len a;
  struct_new_ok fs cs a b : struct_new fs cs a = Ok b -> arr_type b = AStruct fs /\ arr_len b = arr_len a;
  list_values_of a f : arr_type a = AList f -> arr_type (list_values a) = f_type f;
  list_new_ok f v a b : list_new f v a = Ok b -> arr_type b = AList f /\ arr_len b = arr_len a;
  map_entries_of a f s : arr_type a = AMap f s -> arr_type (map_entries a) = f_type f;
  map_new_ok f v a s b : map_new f v a s = Ok b -> arr_type b = AMap f s /\ arr_len b = arr_len a
}.

(** No struct of the type has two fields whose names differ in case only. *)
Fixpoint names_distinct (t : ArrowType) : Prop :=
  match t with
  | AStruct fs => NoDup ((fun f => to_ascii_lowercase (f_name f)) <$> fs) /\
      (fix go fs := match fs with [] => True | f :: fs => names_distinct (f_type f) /\ go fs end) fs
  | AList f | ALargeList f | AFixedSizeList f _ | AMap f _ => names_distinct (f_type f)
  | _ => True
  end.

Lemma names_distinct_struct fs : names_distinct (AStruct fs) <->
  NoDup ((fun f => to_ascii_lowercase (f_name f)) <$> fs) /\ List.Forall (fun f => names_distinct (f_type f)) fs.
Proof.
  cbn. apply and_iff_compat_l. induction fs as [|f fs IH]; [by split|]. rewrite List.Forall_cons_iff, IH. done.
Qed.

Section evolution.
Context {FT : FloatText} {AA : ArrowArrays} {LA : ArrowArrayLaws}.

(** The column of a struct for a field of the target. *)
Definition evolved_child (r : Arr -> ArrowType -> res Arr) (src : Arr) (tf : Field) : res Arr :=
  match struct_column src (f_name tf) with
  | Some child => evolve_with r (f_type tf) child
  | None => if f_nullable tf then Ok (new_null_array (f_type tf) (arr_len src)) else Err ESchema
  end.

Lemma evolve_struct r sfs tfs src : arr_type src = AStruct sfs -> AStruct sfs <> AStruct tfs ->
  evolve_with r (AStruct tfs) src =
  let? children := res_mapM (evolved_child r src) tfs in map_err ESchema (struct_new tfs children src).
Proof.
  intros Hs Hn. cbn [evolve_with]. rewrite Hs, decide_False by done.
  match goal with |- res_bind ?l ?k = res_bind ?l' _ => assert (l = l') as ->; [|done] end.
  clear Hn. induction tfs as [|tf tfs IH]; [done|]. cbn [res_mapM]. unfold evolved_child at 1.
  destruct (match struct_column _ _ with Some _ => _ | None => _ end); [|done..]. cbn [res_bind]. by rewrite IH.
Qed.

Lemma java_strings_ok src s : float_to_java_string_array src = Ok s ->
  arr_type s = AUtf8 /\ arr_len s = arr_len src.
Proof.
  unfold float_to_java_string_array. pose proof (floats_len src) as Hl. destruct (arr_type src); try done;
    intros [= <-]; rewrite (proj2 (strings_ok _)), length_fmap, Hl by tauto; (split; [apply strings_ok|done]).
Qed.

(** An evolved array is of the type asked for and as long as before. *)
Lemma evolved_ok r target src a :
  (forall b t c, r b t = Ok c -> arr_type c = t /\ arr_len c = arr_len b) ->
  evolve_with r target src = Ok a -> arr_type a = target /\ arr_len a = arr_len src.
Proof.
  intros Hr H. destruct (decide (arr_type src = target)) as [E|E].
  { destruct target; cbn [evolve_with] in H; rewrite decide_True in H by done; by injection H as <-. }
  destruct target as [| | | | | | | | | | |u z|tfs|f|f|f n|f s|]; cbn [evolve_with] in H; rewrite decide_False in H by done.
  all: assert (Hcast : forall e b t, map_err e (cast b t) = Ok a -> arr_type a = t /\ arr_len a = arr_len b)
    by by intros e b t Hc%map_err_Ok; apply cast_ok in Hc.
  all: destruct (arr_type src) as [| | | | | | | | | | |u' z'|sfs|g|g|g m|g s'|] eqn:Et; cbn [is_container orb] in H; try done;
    try (by apply (Hcast ESchema src)); try (by apply java_strings_ok).
  all: try (by destruct u'; apply (Hcast ESchema src)); try (by destruct u', z'; apply (Hcast ESchema src)).
  - apply res_bind_Ok in H as (s & Hs & H). apply java_strings_ok in Hs as [_ <-]. by apply (Hcast ESchema s).
  - destruct u', z' as [z'|], u, z as [z|]; try (by apply (Hcast ESchema src)).
    + apply map_err_Ok in H. by apply Hr.
    + injection H as <-. rewrite (proj2 (millis_ok _)), length_fmap, (micros_len src None) by done. split; [apply millis_ok|done].
  - apply res_bind_Ok in H as (cs & _ & H%map_err_Ok). by apply struct_new_ok in H.
  - apply res_bind_Ok in H as (v & _ & H%map_err_Ok). by apply list_new_ok in H.
  - apply res_bind_Ok in H as (v & _ & H%map_err_Ok). by apply map_new_ok in H.
Qed.

(** ** Columns by name *)
Lemma eq_ci_lower a b : eq_ignore_ascii_case a b = true <-> to_ascii_lowercase a = to_ascii_lowercase b.
Proof. unfold eq_ignore_ascii_case. apply bool_decide_eq_true. Qed.

Lemma find_field_ci fs name i f : NoDup ((fun f => to_ascii_lowercase (f_name f)) <$> fs) ->
  find_field name fs = Some (i, f) -> fs !! i = Some f /\ find_ci name fs = Some f.
Proof.
  intros Hnd H. apply list_find_Some in H as (Hi & Hn & _). split; [done|]. revert i Hi. unfold find_ci.
  induction fs as [|g fs IH]; intros i Hi; [done|]. cbn [find]. rewrite fmap_cons, list.NoDup_cons in Hnd. destruct Hnd as [Hg Hnd].
  destruct i as [|i].
  - injection Hi as ->. assert (eq_ignore_ascii_case (f_name f) name = true) as ->; [|done]. apply eq_ci_lower. by rewrite Hn.
  - destruct (eq_ignore_ascii_case (f_name g) name) eqn:Eg; [|by apply (IH Hnd i)]. exfalso. apply Hg.
    apply list_elem_of_fmap. exists f. split; [|by apply list_elem_of_lookup_2 with i].
    apply eq_ci_lower in Eg. by rewrite Hn.
Qed.

(** ** Reinterpreted values *)

(** Columns that [pair_is_value_reinterpreting] clears come out the same whatever
    reinterpreting would do. *)
Lemma cleared_evolution r1 r2 target : forall src, names_distinct (arr_type src) ->
  pair_is_value_reinterpreting (arr_type src) target = false -> evolve_with r1 target src = evolve_with r2 target src.
Proof.
  induction target as [t H1 H2 H3 H4|tfs IH|f IH|f IH|f n IH|f s IH] using type_ind; intros src Hd Hp.
  - destruct t as [| | | | | | | | | | |u z|fs|f|f|f m|f s|]; try (by destruct (H1 fs)); try (by destruct (H2 f)); try (by destruct (H3 f m)); try (by destruct (H4 f s));
      cbn [evolve_with]; case_decide; try done.
    destruct (arr_type src) as [| | | | | | | | | | |u' z'|sfs|g|g|g m|g s'|]; try done.
    destruct u', z', u, z; done.
  - destruct (decide (arr_type src = AStruct tfs)) as [E|E]; [cbn [evolve_with]; by rewrite !decide_True|].
    destruct (arr_type src) as [| | | | | | | | | | |u' z'|sfs|g|g|g m|g s'|] eqn:Et;
      try (by cbn [evolve_with]; rewrite Et, !decide_False).
    apply names_distinct_struct in Hd as [Hnd Hd]. cbn [pair_is_value_reinterpreting is_value_reinterpreting orb] in Hp.
    rewrite !(evolve_struct _ sfs) by done.
    assert (res_mapM (evolved_child r1 src) tfs = res_mapM (evolved_child r2 src) tfs) as ->; [|done]. clear E.
    induction tfs as [|tf tfs IHl]; [done|]. inversion IH as [|? ? IHt IHts]; subst. cbn [existsb] in Hp.
    apply orb_false_iff in Hp as [Hp Hps]. cbn [res_mapM]. rewrite (IHl IHts Hps).
    assert (evolved_child r1 src tf = evolved_child r2 src tf) as ->; [|done]. unfold evolved_child.
    rewrite (struct_column_of src sfs) by done. destruct (find_field (f_name tf) sfs) as [[i f]|] eqn:Ef; [|done].
    destruct (find_field_ci sfs (f_name tf) i f Hnd Ef) as [Hi Hci]. rewrite Hci in Hp.
    destruct (struct_child_of src sfs i f Et Hi) as (c & -> & Htc & _). apply IHt; rewrite Htc; [|done].
    rewrite List.Forall_forall in Hd. by apply Hd, list_elem_of_In, list_elem_of_lookup_2 with i.
  - cbn [evolve_with]. case_decide; [done|]. destruct (arr_type src) as [| | | | | | | | | | |u' z'|sfs|g|g|g m|g s'|] eqn:Et; try done.
    pose proof (list_values_of src g Et) as Hv. by rewrite (IH (list_values src)) by by rewrite Hv.
  - cbn [evolve_with]. case_decide; [done|]. by destruct (arr_type src).
  - cbn [evolve_with]. case_decide; [done|]. by destruct (arr_type src).
  - cbn [evolve_with]. case_decide; [done|]. destruct (arr_type src) as [| | | | | | | | | | |u' z'|sfs|g|g|g m|g s'|] eqn:Et; try done.
    pose proof (map_entries_of src g s' Et) as Hv. by rewrite (IH (map_entries src)) by by rewrite Hv.
Qed.

(** What is reinterpreted is a target of the repair. *)
Lemma reinterpreting_target table : forall file, pair_is_value_reinterpreting file table = true -> is_repair_target table = true.
Proof.
  induction table as [t H1 H2 H3 H4|tfs IH|f IH|f IH|f n IH|f s IH] using type_ind; intros file Hp.
  - destruct t as [| | | | | | | | | | |u z|fs|f|f|f m|f s|]; try (by destruct (H1 fs)); try (by destruct (H2 f)); try (by destruct (H3 f m));
      try (by destruct (H4 f s)); destruct file as [| | | | | | | | | | |u' z'| | | | | |]; try done; try (by destruct u', z').
    by destruct u', z', u, z.
  - destruct file as [| | | | | | | | | | |u' z'|sfs|g|g|g m|g s'|]; try done; [by destruct u', z'|].
    cbn [pair_is_value_reinterpreting is_value_reinterpreting orb is_repair_target] in *.
    apply existsb_exists in Hp as (tf & Hin & Ht). apply existsb_exists. exists tf. split; [done|].
    rewrite List.Forall_forall in IH. destruct (find_ci _ _) as [g|]; [|done]. by apply (IH tf Hin (f_type g)).
  - destruct file as [| | | | | | | | | | |u' z'|sfs|g|g|g m|g s'|]; try done; [by destruct u', z'|]. by apply (IH (f_type g)).
  - destruct file as [| | | | | | | | | | |u' z'|sfs|g|g|g m|g s'|]; try done; [by destruct u', z'|]. by apply (IH (f_type g)).
  - destruct file as [| | | | | | | | | | |u' z'|sfs|g|g|g m|g s'|]; try done; by destruct u', z'.
  - destruct file as [| | | | | | | | | | |u' z'|sfs|g|g|g m|g s'|]; try done; [by destruct u', z'|]. by apply (IH (f_type g)).
Qed.
End evolution.

(** * The gates of a pushed predicate *)
Section gates.
Context {FT : FloatText} {AA : ArrowArrays} {LA : ArrowArrayLaws}.

Lemma index_of_ci_bound fields name i : index_of_ci fields name = Ok (Some i) -> exists f, fields !! i = Some f.
Proof.
  unfold index_of_ci. destruct (field_index name _) as [j|] eqn:E.
  - intros [= <-]. apply field_index_Some in E. rewrite list_lookup_fmap in E. destruct (fields !! j) as [f|]; [by exists f|done].
  - unfold ci_matches. destruct (filter _ _) as [|[j f] [|]] eqn:Ef; [done| |done]. intros [= <-]. exists f.
    assert (Hin : (j, f) ∈ filter (fun p : nat * Field => eq_ignore_ascii_case (f_name p.2) name = true) (imap pair fields))
      by (rewrite Ef; by left).
    apply list_elem_of_filter in Hin as [_ Hin]. apply elem_of_lookup_imap in Hin as (k & g & [= -> ->] & Hk). done.
Qed.

(** The columns found to be reinterpreted: none only when no candidate is. *)
Lemma no_reinterpreted_columns file table candidates : forall out, res_fold (reinterpreted_step file table) candidates out = Ok [] ->
  out = [] /\ forall name fi ti f t, name ∈ candidates -> index_of_ci file name = Ok (Some fi) -> index_of_ci table name = Ok (Some ti) ->
    file !! fi = Some f -> table !! ti = Some t -> pair_is_value_reinterpreting (f_type f) (f_type t) = false.
Proof.
  induction candidates as [|c cs IH]; intros out H; cbn [res_fold] in H.
  { injection H as ->. split; [done|]. intros ?????  []%not_elem_of_nil. }
  apply res_bind_Ok in H as (out' & Hstep & H). apply IH in H as [-> Hcs]. clear IH.
  unfold reinterpreted_step in Hstep. apply res_bind_Ok in Hstep as (ofi & Hfi & Hstep). apply res_bind_Ok in Hstep as (oti & Hti & Hstep).
  destruct ofi as [fi|], oti as [ti|].
  2-4: injection Hstep as ->; split; [done|]; intros name fi' ti' f' t' [->|Hin]%elem_of_cons E1 E2; [congruence|by apply (Hcs name)].
  destruct (file !! fi) as [f|] eqn:Ef, (table !! ti) as [t|] eqn:Et; try done.
  destruct (pair_is_value_reinterpreting _ _) eqn:Ep; injection Hstep as Hout; [by destruct out|]. split; [done|].
  intros name fi' ti' f' t' [->|Hin]%elem_of_cons E1 E2 E3 E4; [congruence|by apply (Hcs name fi' ti')].
Qed.

(** A predicate that the two gates let through is evaluated on values that mean what their
    type says: where the scan finds no column at risk, or the file none that needs the
    repair, every column of the predicate that the file has evolves to the table's type
    without any value being reinterpreted -- whatever reinterpreting does, the evolved column
    is the same.  Structs may not have fields whose names differ in case only. *)
Theorem pushed_predicate_reads_stored_values file table predicate name fi ti f t src r1 r2 :
  reinterpreted_columns file table (repair_risk_columns table predicate) = Ok [] ->
  name ∈ predicate -> index_of_ci file name = Ok (Some fi) -> index_of_ci table name = Ok (Some ti) ->
  file !! fi = Some f -> table !! ti = Some t -> names_distinct (f_type f) -> arr_type src = f_type f ->
  evolve_with r1 (f_type t) src = evolve_with r2 (f_type t) src.
Proof.
  intros Hr Hin Hfi Hti Hf Ht Hd Hs. apply cleared_evolution; rewrite Hs; [done|].
  destruct (is_repair_target (f_type t)) eqn:Et.
  - unfold reinterpreted_columns in Hr. apply no_reinterpreted_columns in Hr as [_ Hr]. apply (Hr name fi ti); try done.
    unfold repair_risk_columns. apply list_elem_of_In, filter_In. split; [by apply list_elem_of_In|].
    rewrite Hti. unfold type_at. by rewrite Ht.
  - destruct (pair_is_value_reinterpreting _ _) eqn:Ep; [|done]. apply reinterpreting_target in Ep. congruence.
Qed.
End gates.

(** * Whole batches *)

(** A batch has for each field a column of its type and of the batch's length; what
    [try_new] makes has the schema and columns it was given. *)
Class ArrayBatchLaws {AB : ArrowBatch} {AA : ArrowArrays} {BA : ArrayBatches} := {
  rows_nonneg b : 0 <= num_rows b;
  batch_column_of b i f : batch_schema b !! i = Some f ->
    exists a, batch_column b i = Ok a /\ arr_type a = f_type f /\ arr_len a = num_rows b;
  batch_new_ok fs cs b : batch_new fs cs = Ok b ->
    batch_schema b = fs /\ cs <> [] /\ forall i c, cs !! i = Some c -> batch_column b i = Ok c /\ num_rows b = arr_len c;
  batch_new_counted_ok fs cs n b : batch_new_counted fs cs n = Ok b ->
    batch_schema b = fs /\ num_rows b = n /\ forall i c, cs !! i = Some c -> batch_column b i = Ok c
}.

Section whole.
Context {FT : FloatText} {AB : ArrowBatch} {AA : ArrowArrays} {LA : ArrowArrayLaws} {BA : ArrayBatches} {BL : ArrayBatchLaws}.

Lemma mapM_lookup {A B} (g : A -> res B) l : forall l' i x, res_mapM g l = Ok l' -> l !! i = Some x -> exists y, l' !! i = Some y /\ g x = Ok y.
Proof.
  induction l as [|a l IH]; intros l' i x H Hi; [done|]. cbn in H. apply res_bind_Ok in H as (y & Hy & H).
  apply res_bind_Ok in H as (ys & Hys & [= <-]). destruct i as [|i]; [injection Hi as ->; by exists y|]. by apply (IH ys).
Qed.

Lemma mapM_length {A B} (g : A -> res B) l : forall l', res_mapM g l = Ok l' -> length l' = length l.
Proof.
  induction l as [|a l IH]; intros l' H; cbn in H; [by injection H as <-|]. apply res_bind_Ok in H as (y & Hy & H).
  apply res_bind_Ok in H as (ys & Hys & [= <-]). cbn. by rewrite (IH ys).
Qed.

Lemma projected_column_ok batch tf c : projected_column batch tf = Ok c -> arr_type c = f_type tf /\ arr_len c = num_rows batch.
Proof.
  intros (idx & Hi & H)%res_bind_Ok. destruct idx as [idx|].
  - apply index_of_ci_bound in Hi as [f Hf]. destruct (batch_column_of batch idx f Hf) as (a & Ha & _ & Hl). rewrite Ha in H.
    cbn [res_bind] in H. rewrite <- Hl. apply (evolved_ok rebuild_as); [|done]. intros b t x. apply rebuild_ok.
  - destruct (f_nullable tf); [|done]. injection H as <-. apply null_ok. apply rows_nonneg.
Qed.

(** A batch evolved to a schema has that schema, the rows it had, and for each field the
    batch's own column of that name -- exactly, or else the only one that differs in case --
    evolved to the field's type, or nulls where the batch has none. *)
Theorem projected_batch_spec batch target b : project_batch_to_schema batch target = Ok b ->
  batch_schema b = target /\ num_rows b = num_rows batch /\
  (batch_schema batch = target -> b = batch) /\
  forall i tf, target !! i = Some tf -> exists col, batch_column b i = Ok col /\ arr_type col = f_type tf /\
    (batch_schema batch <> target -> projected_column batch tf = Ok col).
Proof.
  unfold project_batch_to_schema. case_decide as E.
  - intros [= <-]. split_and!; try done. intros i tf Hi. rewrite <- E in Hi.
    destruct (batch_column_of batch i tf Hi) as (a & Ha & Ht & _). exists a. by split_and!.
  - intros (cs & Hcs & H%map_err_Ok)%res_bind_Ok. apply batch_new_ok in H as (Hs & Hne & Hc). pose proof (mapM_length _ _ _ Hcs) as Hlen.
    assert (Hcol : forall i tf, target !! i = Some tf -> exists col, cs !! i = Some col /\ projected_column batch tf = Ok col)
      by by intros i tf Hi; apply (mapM_lookup _ _ _ _ _ Hcs).
    split_and!; try done.
    + destruct target as [|tf target]; [by destruct cs|]. destruct (Hcol 0%nat tf eq_refl) as (col & Hi & Hp).
      destruct (Hc 0%nat col Hi) as [_ ->]. by apply projected_column_ok in Hp as [_ ->].
    + intros i tf Hi. destruct (Hcol i tf Hi) as (col & Hi' & Hp). exists col. destruct (Hc i col Hi') as [-> _].
      split; [done|]. split; [by apply projected_column_ok in Hp as [-> _]|done].
Qed.

(** A narrowed array has the type asked for. *)
Lemma narrowed_ok target : forall t src a, arr_type src = t -> narrow_array_to_field target t src = Ok a ->
  arr_type a = target /\ arr_len a = arr_len src.
Proof.
  intros t src a Ht. destruct target as [| | | | | | | | | | |u z|tfs|f|f|f n|f s|]; cbn [narrow_array_to_field];
    case_decide as E; try (intros [= <-]; by rewrite Ht, E); try (by destruct t).
  destruct t as [| | | | | | | | | | |u z|sfs| | | | |]; try done. intros (cs & _ & H%map_err_Ok)%res_bind_Ok. by apply struct_new_ok in H.
Qed.

(** The output converter: rows are kept, columns are those of the query, in its order and
    types. *)
Lemma projected_output batch target b : projection_apply target batch = Ok b ->
  batch_schema b = target /\ num_rows b = num_rows batch /\
  forall i tf, target !! i = Some tf -> exists col, batch_column b i = Ok col /\ arr_type col = f_type tf.
Proof.
  intros (cs & Hcs & H%map_err_Ok)%res_bind_Ok. apply batch_new_counted_ok in H as (Hs & Hn & Hc). split_and!; [done..|].
  intros i tf Hi. destruct (mapM_lookup _ _ _ _ _ Hcs Hi) as (col & Hi' & Hcol). exists col. split; [by apply Hc|].
  apply res_bind_Ok in Hcol as ([j sf] & Hf & Hcol). cbn [fst snd] in Hcol. apply res_bind_Ok in Hcol as (src & Hsrc & Hcol).
  unfold find_field in Hf. destruct (list_find _ _) as [[k g]|] eqn:Ef; [|done]. injection Hf as -> ->.
  apply list_find_Some in Ef as (Hj & _ & _). destruct (batch_column_of batch j sf Hj) as (a' & Ha' & Ht & _). rewrite Hsrc in Ha'. injection Ha' as <-.
  by apply (narrowed_ok (f_type tf) (f_type sf) src) in Hcol as [-> _].
Qed.
End whole.

(** * Instances *)
Module SampleEvolution.

(** Arrays of numbers, with the arrays inside. *)
Inductive sample_arr := mk (t : ArrowType) (slots : list (option Z)) (inside : list sample_arr).

Definition s_type (a : sample_arr) : ArrowType := let 'mk t _ _ := a in t.
Definition s_slots (a : sample_arr) : list (option Z) := let 'mk _ l _ := a in l.
Definition s_inside (a : sample_arr) : list sample_arr := let 'mk _ _ l := a in l.

(** The given array where it fits, else one of nulls. *)
Definition fitting (t : ArrowType) (n : nat) (a : option sample_arr) : sample_arr :=
  match a with
  | Some a => if decide (s_type a = t /\ length (s_slots a) = n) then a else mk t (replicate n None) []
  | None => mk t (replicate n None) []
  end.

Lemma fitting_ok t n a : s_type (fitting t n a) = t /\ length (s_slots (fitting t n a)) = n.
Proof. unfold fitting. destruct a as [a|]; [case_decide as H; [done|]|]; cbn; by rewrite length_replicate. Qed.

Definition sample_child (a : sample_arr) (i : nat) : option sample_arr :=
  match s_type a with AStruct fs => (fun f => fitting (f_type f) (length (s_slots a)) (s_inside a !! i)) <$> fs !! i | _ => None end.

Definition sample_values (a : sample_arr) : sample_arr :=
  match s_type a with
  | AList f | AMap f _ => fitting (f_type f) (default 0%nat ((fun v => length (s_slots v)) <$> head (s_inside a))) (head (s_inside a))
  | _ => a
  end.

#[export] Instance sample_arrays : ArrowArrays := {|
  Arr := sample_arr;
  arr_type := s_type;
  arr_len a := Z.of_nat (length (s_slots a));
  new_null_array t n := mk t (replicate (Z.to_nat n) None) [];
  cast a t := Ok (mk t (s_slots a) []);
  float_slots := s_slots;
  string_array l := mk AUtf8 (fmap (M := option) (fun s => Z.of_nat (String.length s)) <$> l) [];
  micros_slots := s_slots;
  millis_array l := mk (ATimestamp DataType.Millisecond None) l [];
  rebuild_as a t := Ok (mk t (s_slots a) (s_inside a));
  struct_column a name := match s_type a with
    | AStruct fs => match find_field name fs with Some (i, _) => sample_child a i | None => None end
    | _ => None
    end;
  struct_child := sample_child;
  struct_new fs cs a := Ok (mk (AStruct fs) (s_slots a) cs);
  list_values := sample_values;
  list_new f v a := Ok (mk (AList f) (s_slots a) [v]);
  map_entries := sample_values;
  map_new f v a s := Ok (mk (AMap f s) (s_slots a) [v])
|}.

#[export] Instance sample_array_laws : ArrowArrayLaws.
Proof.
  split; cbn; try done; try (by intros; simplify_eq).
  - intros t n Hn. rewrite length_replicate. split; [done|lia].
  - intros l. by rewrite length_fmap.
  - intros a fs name Ht. by rewrite Ht.
  - intros a fs i f Ht Hf. unfold sample_child. rewrite Ht, Hf. cbn. eexists. split; [done|].
    destruct (fitting_ok (f_type f) (length (s_slots a)) (s_inside a !! i)) as [-> ->]. done.
  - intros a f Ht. unfold sample_values. rewrite Ht. apply fitting_ok.
  - intros a f s Ht. unfold sample_values. rewrite Ht. apply fitting_ok.
Qed.

#[export] Instance sample_text : FloatText := {|
  shortest_f64 := pretty; scientific_f64 := pretty; shortest_f32 := pretty; scientific_f32 := pretty |}.

Record sample_batch := mkBatch { sb_fields : Fields; sb_columns : list sample_arr; sb_rows : nat }.

#[export] Instance sample_batches : ArrowBatch := {| RecordBatch := sample_batch; num_rows b := Z.of_nat (sb_rows b) |}.

Definition fits (n : nat) (fs : Fields) (cs : list sample_arr) : bool :=
  bool_decide (Forall2 (fun f c => s_type c = f_type f /\ length (s_slots c) = n) fs cs).

#[export] Instance sample_array_batches : ArrayBatches := {|
  batch_schema := sb_fields : RecordBatch -> Fields;
  batch_column b i := match sb_fields b !! i with
    | Some f => Ok (fitting (f_type f) (sb_rows b) (sb_columns b !! i))
    | None => Panic
    end;
  batch_new fs cs := match cs with
    | [] => Err ESchema
    | c :: _ => if fits (length (s_slots c)) fs cs then Ok (mkBatch fs cs (length (s_slots c)) : RecordBatch) else Err ESchema
    end;
  batch_new_counted fs cs n := if fits (Z.to_nat n) fs cs && (0 <=? n) then Ok (mkBatch fs cs (Z.to_nat n) : RecordBatch) else Err ESchema
|}.

Lemma fits_column n fs cs i c : fits n fs cs = true -> cs !! i = Some c ->
  exists f, fs !! i = Some f /\ fitting (f_type f) n (Some c) = c /\ length (s_slots c) = n.
Proof.
  intros Hf%bool_decide_eq_true Hc. destruct (Forall2_lookup_r _ _ _ _ _ Hf Hc) as (f & Hi & Ht & Hl). exists f. split; [done|].
  split; [|done]. unfold fitting. by rewrite decide_True.
Qed.

Lemma fitted_column n fs (cs : list sample_arr) i c : fits n fs cs = true -> cs !! i = Some c ->
  (match fs !! i with Some f => Ok (fitting (f_type f) n (cs !! i)) | None => Panic end : res sample_arr) = Ok c /\ length (s_slots c) = n.
Proof. intros Hf Hc. destruct (fits_column n fs cs i c Hf Hc) as (f & -> & Hfit & Hl). by rewrite Hc, Hfit. Qed.

#[export] Instance sample_batch_laws : ArrayBatchLaws.
Proof.
  split.
  - cbn. lia.
  - intros b i f Hf. cbn in Hf |- *. rewrite Hf. eexists. split; [done|].
    destruct (fitting_ok (f_type f) (sb_rows b) (sb_columns b !! i)) as [-> ->]. done.
  - intros fs cs b H. cbn in H. destruct cs as [|c0 cs']; [done|]. destruct (fits _ _ _) eqn:E; [|done]. injection H as <-.
    cbn [batch_schema sample_array_batches sb_fields]. split_and!; [done|done|]. intros i c Hi.
    destruct (fitted_column _ fs (c0 :: cs') i c E Hi) as [Hcol Hl]. split; [exact Hcol|]. cbn. by rewrite Hl.
  - intros fs cs n b H. cbn in H. destruct (fits _ _ _) eqn:E; [|done]. destruct (Z.leb_spec 0 n); [|done]. injection H as <-.
    cbn [batch_schema sample_array_batches sb_fields]. split_and!; [done|cbn; lia|]. intros i c Hi.
    by destruct (fitted_column _ fs cs i c E Hi) as [Hcol _].
Qed.

Definition micros : ArrowType := ATimestamp DataType.Microsecond (Some "UTC").
Definition millis : ArrowType := ATimestamp DataType.Millisecond (Some "UTC").
Definition file_fields : Fields :=
  [mkField "ID" AInt32 false; mkField "seen" (AStruct [mkField "at" micros true; mkField "n" AInt32 true]) true].
Definition table_fields : Fields :=
  [mkField "id" AInt64 false; mkField "seen" (AStruct [mkField "n" AInt64 true]) true; mkField "new" AUtf8 true].

Definition sample_file : RecordBatch :=
  mkBatch file_fields
    [mk AInt32 [Some 1; Some 2] [];
     mk (f_type (mkField "seen" (AStruct [mkField "at" micros true; mkField "n" AInt32 true]) true)) [Some 0; Some 0]
       [mk micros [Some 7; Some 8] []; mk AInt32 [Some 3; None] []]] 2.

(** The struct's timestamp is not one of the table's fields: the predicate may be pushed. *)
Lemma pushed_predicate_reads_stored_values_witness :
  reinterpreted_columns file_fields table_fields (repair_risk_columns table_fields ["ID"; "seen"]) = Ok [] /\
  forall r1 r2, evolve_with r1 (AStruct [mkField "n" AInt64 true]) (mk (f_type (mkField "seen" (AStruct [mkField "at" micros true; mkField "n" AInt32 true]) true)) [Some 0; Some 0]
       [mk micros [Some 7; Some 8] []; mk AInt32 [Some 3; None] []])
    = evolve_with r2 (AStruct [mkField "n" AInt64 true]) (mk (AStruct [mkField "at" micros true; mkField "n" AInt32 true]) [Some 0; Some 0]
       [mk micros [Some 7; Some 8] []; mk AInt32 [Some 3; None] []]).
Proof.
  split; [vm_compute; reflexivity|]. intros r1 r2.
  apply (pushed_predicate_reads_stored_values file_fields table_fields ["ID"; "seen"] "seen" 1 1
    (mkField "seen" (AStruct [mkField "at" micros true; mkField "n" AInt32 true]) true) (mkField "seen" (AStruct [mkField "n" AInt64 true]) true)).
  - vm_compute. reflexivity.
  - right. left.
  - vm_compute. reflexivity.
  - vm_compute. reflexivity.
  - reflexivity.
  - reflexivity.
  - cbn. split; [|tauto]. apply (bool_decide_unpack _). vm_compute. exact I.
  - reflexivity.
Defined.

Lemma projected_batch_spec_witness : exists b, project_batch_to_schema sample_file table_fields = Ok b /\
  batch_schema b = table_fields /\ num_rows b = 2 /\
  batch_column b 0 = Ok (mk AInt64 [Some 1; Some 2] []) /\ batch_column b 2 = Ok (mk AUtf8 [None; None] []).
Proof.
  destruct (project_batch_to_schema sample_file table_fields) as [b| |] eqn:E; [|vm_compute in E; discriminate..].
  exists b. destruct (projected_batch_spec sample_file table_fields b E) as (H1 & H2 & _). split; [done|]. split; [exact H1|]. split; [exact H2|].
  vm_compute in E. injection E as <-. split; vm_compute; reflexivity.
Defined.

(** Two children that differ in case: the gate looks at the first but for case, the evolution
    at the one of exactly the name -- and reinterprets it. *)
Example gate_looks_at_another_child :
  let file := AStruct [mkField "AT" AInt64 true; mkField "at" micros true] in
  let table := AStruct [mkField "at" millis true] in
  pair_is_value_reinterpreting file table = false /\
  evolve_with (fun a t => Ok (mk t (s_slots a) [])) table (mk file [Some 0] [mk AInt64 [Some 5] []; mk micros [Some 7] []])
    = Ok (mk table [Some 0] [mk millis [Some 7] []]) /\
  evolve_with (fun a t => Err ESchema) table (mk file [Some 0] [mk AInt64 [Some 5] []; mk micros [Some 7] []]) = Err ESchema.
Proof. by vm_compute. Qed.

(** The texts of doubles as Java writes them. *)
Example java_texts :
  java_repr_finite true "1" "1e0" = "1.0" /\ java_repr_finite true "0.1" "1e-1" = "0.1" /\
  java_repr_finite false "10000000" "1e7" = "1.0E7" /\ java_double_repr 0x7FF8000000000000 = "NaN" /\
  java_double_repr 0xFFF0000000000000 = "-Infinity" /\ java_double_repr 0x8000000000000000 = "-0.0".
Proof. by vm_compute. Qed.
End SampleEvolution.
