(* ===== verification/GroupEngine.v ===== *)
(** The reader of one file group:
    crates/core/src/file_group/reader_v2/{engine,adapter,merged_log_record_reader}.rs,
    buffer/loader.rs, the constructors of buffer/{key_based,position_based}.rs and the
    options of crates/core/src/file_group/base_file/reader.rs.

    A reader is made of a table's context and a split.  It opens the base file as a stream
    of batches evolved to the schema it needs, fills a record buffer from the log files, by
    key or by position, and merges the two as a stream.  Readers of base files are an
    interface, as is the storage of log files. *)
From Stdlib Require Import ZArith Ascii.
From stdpp Require Import base gmap sets list strings sorting numbers pretty.
From S2P Require Import HFileIndex Prelude RustStr StrReplace Chrono Config Instant Selector Files View FileGroup GroupBuilder Listing StorageReader RecordBatches LogFormat LogReader Scanner OrderingValues RecordMerger ArrowKernels RecordBuffer BaseMerge MergeStream LogMerge LogScan LogFetch LogRead PositionBuffer SpillMap Options Table TableOptions RecordKeys Evolution ReadContext ReadSchema InputSplit.
Local Open Scope res_scope.
Local Open Scope Z_scope.

(** Fields of Arrow, for the schema handler. *)
#[export] Instance arrow_fields : ArrowFields := {| AField := Field; ReadSchema.f_name := Evolution.f_name |}.

(** Schemas of batches are their fields. *)
Class ArrowSchemas {AB : ArrowBatch} {AR : ArrowRows} {AK : ArrowKernels} := { schema_of : Fields -> ArrowKernels.Schema }.

(** The mergers a payload class can name. *)
Class CustomMergers {AB : ArrowBatch} := { merger_of : CustomMerger -> BufferedRecordMerger }.

(** * Reading base files *)
Section base_files.
Context {PD : Pushdown}.

(** [BaseFileReadOptions] *)
Record BaseFileReadOptions := mkReadOptions {
  bo_batch_size : option Z;
  bo_projection : option (list string);
  bo_known_file_size : option Z;
  bo_row_filter : option RowFilterBuilder;
  bo_key_predicate : option KeyPredicate;
  bo_row_index_column : option string;
  bo_row_group_selector : option RowGroupSelector
}.

Definition read_options_new : BaseFileReadOptions := mkReadOptions None None None None None None None.

Definition with_projection (columns : list string) (o : BaseFileReadOptions) : BaseFileReadOptions :=
  mkReadOptions (bo_batch_size o) (Some columns) (bo_known_file_size o) (bo_row_filter o) (bo_key_predicate o)
    (bo_row_index_column o) (bo_row_group_selector o).

Definition MERGE_CHUNK_ROWS : Z := 1024.

(** [base_read_options] *)
Definition base_read_options (row_filter : option RowFilterBuilder) (row_group_selector : option RowGroupSelector)
    (key_predicate : option KeyPredicate) (use_record_position : bool) : BaseFileReadOptions :=
  mkReadOptions (Some MERGE_CHUNK_ROWS) None None row_filter key_predicate
    (if use_record_position then Some ROW_INDEX_TEMPORARY_COLUMN_NAME else None) row_group_selector.

(** [BaseFileReader] by format: the schema and the batches of the stream, the whole file as a
    batch, and the schema the file was written with. *)
Class BaseFileReaders {AB : ArrowBatch} := {
  read_stream : BaseFileFormatValue -> string -> BaseFileReadOptions -> res (Fields * list (res RecordBatch));
  read_data : BaseFileFormatValue -> string -> BaseFileReadOptions -> res RecordBatch;
  read_schema : BaseFileFormatValue -> string -> res Fields
}.

(** [read_data] and [read_schema] as the trait provides them. *)
Definition default_read_data {AB : ArrowBatch} {BR : BaseFileReaders} (empty_of : Fields -> RecordBatch)
    (concat_of : Fields -> list RecordBatch -> res RecordBatch) (format : BaseFileFormatValue) (path : string)
    (options : BaseFileReadOptions) : res RecordBatch :=
  let? stream := read_stream format path options in
  let? batches := res_mapM (fun b => b) stream.2 in
  match batches with [] => Ok (empty_of stream.1) | _ => concat_of stream.1 batches end.

Definition default_read_schema {AB : ArrowBatch} {BR : BaseFileReaders} (format : BaseFileFormatValue) (path : string) : res Fields :=
  let? stream := read_stream format path read_options_new in Ok stream.1.
End base_files.

Definition MAX_INSTANT_TIME : string := "99991231235959999".

(** [base_file_is_parquet] *)
Definition base_file_is_parquet (base_file_format : string) : bool :=
  bool_decide (base_file_format = "") || eq_ignore_ascii_case base_file_format "parquet".

(** * The record buffer of a read *)
Section loader.
Context {AB : ArrowBatch} {AR : ArrowRows} {AK : ArrowKernels} {CO : ColumnOps} {RC : RecordContext} {MO : MapOrder}
  {PC : PositionsCodec} {PD : Pushdown} {AS : ArrowSchemas} {CM : CustomMergers}
  {C : Chrono} {D : ContentDecoder} {RS : RangeStore} {LS : LogStorage}.

Definition PARTIAL_UPDATE_UNAVAILABLE_VALUE : string := "hoodie.record.merge.property.partial.update.unavailable.value".
Definition PARTIAL_UPDATE_MODE : string := "hoodie.table.partial.update.mode".
Definition PARTIAL_UPDATE_MODE_IGNORE_DEFAULTS : string := "IGNORE_DEFAULTS".

(** The reader's configuration first, then the table's. *)
Definition reader_or_table_option (c : ReaderContext) (key : string) : option string :=
  match hoodie_reader_config c !! key with Some v => Some v | None => ctx_table_config c !! key end.

(** [KeyBasedFileGroupRecordBuffer::new]: the context of deletes is in [RC]. *)
Definition key_based_new (c : ReaderContext) (h : SchemaHandler) (merge_mode : string) : res Buffer :=
  let? merger := create_with (merger_of <$> resolve_custom_merger (ctx_table_config c)) merge_mode in
  let? _ := ok_or (delete_context h) EReadFileSlice in
  let? _ := spill_config_from_config (hoodie_reader_config c) in
  let unavailable_value :=
    v ← reader_or_table_option c PARTIAL_UPDATE_UNAVAILABLE_VALUE; if decide (v = "") then None else Some v in
  let ignore_defaults :=
    match reader_or_table_option c PARTIAL_UPDATE_MODE with
    | Some v => eq_ignore_ascii_case v PARTIAL_UPDATE_MODE_IGNORE_DEFAULTS
    | None => false
    end in
  Ok (mkBuffer ∅ (schema_of <$> required_schema h) merge_mode merger (mkUpdateStats 0 0 0) None None 0 0 None None None 0
        unavailable_value ignore_defaults 0).

(** [Box<dyn HoodieFileGroupRecordBuffer>] *)
Inductive GroupBuffer := KeyBased (b : Buffer) | PositionBased (b : PositionBuffer).

#[export] Instance group_record_buffer : FileGroupRecordBuffer GroupBuffer := {|
  buffer_process_data_block g block :=
    match g with
    | KeyBased b => let? (b, c) := buffer_process_data_block b block in Ok (KeyBased b, c)
    | PositionBased b => let? (b, c) := buffer_process_data_block b block in Ok (PositionBased b, c)
    end;
  buffer_process_delete_block g block :=
    match g with
    | KeyBased b => let? (b, c) := buffer_process_delete_block b block in Ok (KeyBased b, c)
    | PositionBased b => let? (b, c) := buffer_process_delete_block b block in Ok (PositionBased b, c)
    end;
  buffer_total_log_records g :=
    match g with KeyBased b => buffer_total_log_records b | PositionBased b => buffer_total_log_records b end
|}.

(** [get_buffer_type() == PositionBasedMerge] *)
Definition merges_by_position (g : GroupBuffer) : bool :=
  match g with KeyBased _ => false | PositionBased b => should_use_position b end.

(** The key-based buffer inside. *)
Definition group_inner (g : GroupBuffer) : Buffer := match g with KeyBased b => b | PositionBased b => inner b end.

(** ** The log reader and its builder *)

(** [HoodieMergedLogRecordReader] *)
Record MergedLogRecordReader := mkLogReader { merged_base : LogRecordReader (S := GroupBuffer); force_full_scan : bool }.

(** [perform_scan] *)
Definition perform_scan (r : MergedLogRecordReader) : res MergedLogRecordReader :=
  let? base := scan_internal false (merged_base r) in Ok (mkLogReader base (force_full_scan r)).

(** [scan_with_skip] *)
Definition scan_with_skip (skip_processing_blocks : bool) (r : MergedLogRecordReader) : res MergedLogRecordReader :=
  if force_full_scan r then Ok r
  else let? base := scan_internal skip_processing_blocks (merged_base r) in Ok (mkLogReader base (force_full_scan r)).

(** [Builder]; of a storage, its options. *)
Record LogReaderBuilder := mkBuilder {
  lb_reader_context : option ReaderContext;
  lb_storage : option HudiConfigs;
  lb_log_file_paths : list string;
  lb_latest_instant_time : option string;
  lb_instant_range : option InstantRange;
  lb_instant_range_explicitly_set : bool;
  lb_record_buffer : option GroupBuffer;
  lb_force_full_scan : bool;
  lb_completion_gate_inputs : option CompletionGateInputs
}.

Definition build_log_reader (b : LogReaderBuilder) : res MergedLogRecordReader :=
  let? c := ok_or (lb_reader_context b) EReadFileSlice in
  let? storage := ok_or (lb_storage b) EReadFileSlice in
  let? buffer := ok_or (lb_record_buffer b) EReadFileSlice in
  let range := if lb_instant_range_explicitly_set b then lb_instant_range b else ctx_instant_range c in
  let base := mkLogRecordReader (ctx_table_config c) storage (ctx_timezone c) (lb_log_file_paths b)
    (default MAX_INSTANT_TIME (lb_latest_instant_time b)) range (lb_completion_gate_inputs b) buffer [] 0 0 0 0 0 in
  let reader := mkLogReader base (lb_force_full_scan b) in
  if lb_force_full_scan b then perform_scan reader else Ok reader.

(** [scan_log_files]: the buffer, and the instants of the blocks that were merged. *)
Definition scan_log_files (c : ReaderContext) (storage : HudiConfigs) (split : InputSplit) (record_buffer : GroupBuffer)
    : res (GroupBuffer * list string) :=
  if negb (has_log_files split) then Ok (record_buffer, [])
  else
    let latest_instant_time := if decide (latest_commit_time c = "") then MAX_INSTANT_TIME else latest_commit_time c in
    let? reader := build_log_reader (mkBuilder (Some c) (Some storage) (log_file_paths split) (Some latest_instant_time)
      None false (Some record_buffer) true (ctx_gate_inputs c)) in
    Ok (reader_buffer (merged_base reader), reader_valid_block_instants (merged_base reader)).

(** ** Which buffer *)

(** The mode as the loader spells it. *)
Definition loader_merge_mode (c : ReaderContext) : string :=
  if decide (merge_mode c = "") then "COMMIT_TIME_ORDERING" else to_uppercase (merge_mode c).

(** The loader's own gate on the mode. *)
Definition loader_admits (c : ReaderContext) : bool :=
  let mode := loader_merge_mode c in
  if decide (mode = "COMMIT_TIME_ORDERING" \/ mode = "EVENT_TIME_ORDERING") then true
  else bool_decide (mode = "CUSTOM") && match resolve_custom_merger (ctx_table_config c) with Some _ => true | None => false end.

Definition is_skip_merge (c : ReaderContext) : bool :=
  match hoodie_reader_config c !! CONFIG_MERGE_TYPE with Some v => eq_ignore_ascii_case v "skip_merge" | None => false end.

Definition is_Some_bool {A} (o : option A) : bool := match o with Some _ => true | None => false end.

(** The buffer before the scan. *)
Definition new_record_buffer (c : ReaderContext) (h : SchemaHandler) (split : InputSplit) (p : ReaderParameters) : res GroupBuffer :=
  if is_skip_merge c then Err EUnsupported
  else if sort_output p then Err EUnsupported
  else if use_record_position p && is_Some_bool (base_file_path split) && is_Some_bool (base_file_commit_time split)
          && base_file_is_parquet (base_file_format c) then
    let? instant := ok_or (base_file_commit_time split) EReadFileSlice in
    let? b := key_based_new c h (loader_merge_mode c) in Ok (PositionBased (position_new b instant))
  else if emit_delete p then Err EUnsupported
  else res_map KeyBased (key_based_new c h (loader_merge_mode c)).

(** [get_record_buffer]; compacting the pinned batches of the map afterwards leaves its
    records, see [SpillSpec]. *)
Definition get_record_buffer (c : ReaderContext) (h : SchemaHandler) (storage : HudiConfigs) (split : InputSplit)
    (p : ReaderParameters) : res (GroupBuffer * list string) :=
  if negb (loader_admits c) then Err EReadFileSlice
  else
    let? buffer := new_record_buffer c h split p in
    scan_log_files c storage split buffer.
End loader.

(** * The stream of merged rows, over either buffer (merge_iterator.rs) *)
Section stream.
Context {AB : ArrowBatch} {AR : ArrowRows} {AK : ArrowKernels} {CO : ColumnOps} {RC : RecordContext} {MO : MapOrder}
  {PC : PositionsCodec}.

(** [merge_base_batch] and [drain_log_only_inserts] of the buffers *)
Definition group_merge_base (g : GroupBuffer) (base : RecordBatch) (s : ArrowKernels.Schema) : res (GroupBuffer * option RecordBatch) :=
  match g with
  | KeyBased b => let? (b, out) := merge_one_base_batch_kernel b base s RecordKey in Ok (KeyBased b, out)
  | PositionBased b => let? (b, out) := merge_base_batch b base s in Ok (PositionBased b, out)
  end.

Definition group_drain (g : GroupBuffer) (s : ArrowKernels.Schema) : res (GroupBuffer * option RecordBatch) :=
  match g with
  | KeyBased b => let? (b, out) := drain_log_only_inserts b s in Ok (KeyBased b, out)
  | PositionBased b => let? (b, out) := position_drain_log_only_inserts b s in Ok (PositionBased b, out)
  end.

(** [MergeSource] *)
Inductive GroupSource :=
  | EagerSource (source : list (res RecordBatch))
  | BufferedSource (buffer : GroupBuffer) (base_source : option (list (res RecordBatch))) (merge_schema : ArrowKernels.Schema)
      (state : BufferedState).

(** [FileGroupMergeStream] *)
Record GroupStream := mkGroupStream {
  g_source : GroupSource;
  g_output_schema : ArrowKernels.Schema;
  g_converter : option (RecordBatch -> res RecordBatch);
  g_done : bool;
  g_stats : UpdateStats
}.

Inductive GroupProduced :=
  | GroupChunk (batch : RecordBatch) (next : GroupSource)
  | GroupFinished (next : GroupSource)
  | GroupFailed (e : res RecordBatch).

Definition group_drain_turn (buffer : GroupBuffer) (base_source : option (list (res RecordBatch))) (s : ArrowKernels.Schema)
    : GroupProduced :=
  match group_drain buffer s with
  | Ok (buffer, drained) =>
      let next := BufferedSource buffer base_source s DrainingLogInserts in
      match drained with
      | Some b => if 0 <? num_rows b then GroupChunk b next else GroupFinished next
      | None => GroupFinished next
      end
  | r => GroupFailed (failure r)
  end.

Fixpoint group_scan_turn (buffer : GroupBuffer) (src : list (res RecordBatch)) (s : ArrowKernels.Schema) : GroupProduced :=
  match src with
  | [] => group_drain_turn buffer None s
  | Ok base :: src =>
      if num_rows base =? 0 then group_scan_turn buffer src s
      else
        match group_merge_base buffer base s with
        | Ok (buffer, Some b) =>
            if num_rows b =? 0 then group_scan_turn buffer src s
            else GroupChunk b (BufferedSource buffer (Some src) s BaseScanning)
        | Ok (buffer, None) => group_scan_turn buffer src s
        | r => GroupFailed (failure r)
        end
  | Err _ :: _ => GroupFailed (Err EReadFileSlice)
  | Panic :: _ => GroupFailed Panic
  end.

Definition group_turn (src : GroupSource) : GroupProduced :=
  match src with
  | EagerSource [] => GroupFinished (EagerSource [])
  | EagerSource (Ok batch :: rest) => GroupChunk batch (EagerSource rest)
  | EagerSource (r :: rest) => GroupFailed r
  | BufferedSource buffer base_source s BaseScanning =>
      match base_source with Some src => group_scan_turn buffer src s | None => group_drain_turn buffer None s end
  | BufferedSource buffer base_source s DrainingLogInserts => group_drain_turn buffer base_source s
  end.

(** [update_stats_snapshot] *)
Definition group_snapshot (src : GroupSource) (stats : UpdateStats) : UpdateStats :=
  match src with BufferedSource buffer _ _ _ => update_processor (group_inner buffer) | EagerSource _ => stats end.

Definition group_next_chunk (s : GroupStream) : option (res RecordBatch) * GroupStream :=
  if g_done s then (None, s)
  else
    match group_turn (g_source s) with
    | GroupChunk batch next =>
        let out := match g_converter s with Some apply => apply batch | None => Ok batch end in
        (Some out, mkGroupStream next (g_output_schema s) (g_converter s) (negb (is_Ok out)) (g_stats s))
    | GroupFinished next =>
        (None, mkGroupStream next (g_output_schema s) (g_converter s) true (group_snapshot next (g_stats s)))
    | GroupFailed e => (Some e, mkGroupStream (g_source s) (g_output_schema s) (g_converter s) true (g_stats s))
    end.

Fixpoint group_collect_chunks (fuel : nat) (s : GroupStream) (chunks : list RecordBatch)
    : res (option (list RecordBatch * GroupStream)) :=
  match fuel with
  | O => Ok None
  | S fuel =>
      match group_next_chunk s with
      | (None, s) => Ok (Some (chunks, s))
      | (Some next, s) => let? batch := next in group_collect_chunks fuel s (chunks ++ [batch])
      end
  end.

(** The turns a stream can still take: one for each base batch, for each record left and for
    the end. *)
Definition group_chunks_left (s : GroupStream) : nat :=
  match g_source s with
  | EagerSource src => S (length src)
  | BufferedSource buffer base_source _ _ =>
      S (match base_source with Some src => length src | None => O end + base.size (records (group_inner buffer)) +
         match log_drain_iter (group_inner buffer) with Some l => length l | None => O end)
  end.

(** [collect_into_one_batch] *)
Definition group_collect_into_one_batch (s : GroupStream) : res (option RecordBatch) :=
  let? r := group_collect_chunks (group_chunks_left s) s [] in
  match r with
  | None => Ok None
  | Some (chunks, _) =>
      match chunks with
      | [] => Ok (Some (new_empty (g_output_schema s)))
      | [chunk] => Ok (Some chunk)
      | _ => map_err EReadFileSlice (res_map Some (concat_batches (g_output_schema s) chunks))
      end
  end.
End stream.

(** * The reader *)
Section engine.
Context {AB : ArrowBatch} {AR : ArrowRows} {AK : ArrowKernels} {CO : ColumnOps} {MO : MapOrder} {PC : PositionsCodec}
  {PD : Pushdown} {AS : ArrowSchemas} {CM : CustomMergers} {C : Chrono} {D : ContentDecoder} {RS : RangeStore} {LS : LogStorage}
  {AC : ArrowColumns} {FT : FloatText} {AA : ArrowArrays} {BA : ArrayBatches} {BR : BaseFileReaders} {VS : AvroSchemas}.

(** [HoodieFileGroupReader]; the record context and the schema handler are parts of its
    reader context. *)
Record HoodieFileGroupReader := mkGroupReader {
  gr_context : ReaderContext;
  gr_record_context : TableRecordContext;
  gr_storage : HudiConfigs;
  gr_split : InputSplit;
  gr_parameters : ReaderParameters;
  gr_schema_handler : SchemaHandler;
  gr_output_converter : option Fields;
  gr_valid_block_instants : list string
}.

Definition schema_on_read (c : ReaderContext) : bool :=
  match ctx_table_config c !! "hoodie.schema.on.read.enable" with Some v => eq_ignore_ascii_case v "true" | None => false end.

(** The handler of the schemas given, or else the context's own. *)
Definition initial_handler (of_context : SchemaHandler) (data_schema requested_schema : option Fields) : SchemaHandler :=
  match data_schema, requested_schema with
  | None, None => of_context
  | _, _ =>
      let h := match data_schema with Some s => with_data_schema s (with_table_schema s handler_new) | None => handler_new end in
      match requested_schema with Some s => with_requested_schema s h | None => h end
  end.

(** [HoodieFileGroupReader::new] *)
Definition group_reader_new (c : ReaderContext) (rc : TableRecordContext) (of_context : SchemaHandler) (storage : HudiConfigs)
    (split : InputSplit) (p : ReaderParameters) (data_schema requested_schema : option Fields) : res HoodieFileGroupReader :=
  let? h := prepare_required_schema (has_log_files split) (record_key_fields_from (ctx_table_config c)) (ordering_field_names rc)
              (ctx_table_config c) (is_Some_bool (ctx_instant_range c)) (merge_mode c)
              (initial_handler of_context data_schema requested_schema) in
  if schema_on_read c then Err EUnsupported
  else if needs_bootstrap_merge c then Err EUnsupported
  else Ok (mkGroupReader c rc storage split p h (get_output_converter h) []).

Section reader.
Context (r : HoodieFileGroupReader).

(** [base_file_reader]: the format of the context, Parquet when it has none. *)
Definition base_format : res BaseFileFormatValue :=
  if decide (base_file_format (gr_context r) = "") then Ok Parquet
  else match format_from_str (base_file_format (gr_context r)) with inl f => Ok f | inr _ => Err EConfig end.

Definition base_read_pushdown_is_safe : bool := negb (has_log_files (gr_split r)) || mor_pk_safe (gr_context r).

(** [use_record_position] *)
Definition engine_use_record_position : bool :=
  if negb (use_record_position (gr_parameters r)) then false
  else if negb (has_log_files (gr_split r)) || negb (is_Some_bool (base_file_path (gr_split r))) then false
  else if negb (is_Some_bool (base_file_commit_time (gr_split r))) then false
  else if is_skip_merge (gr_context r) then false
  else base_file_is_parquet (base_file_format (gr_context r)).

(** [parse::<BaseFile>().ok().map(|bf| bf.commit_timestamp)] of the name in a path *)
Definition base_commit_time_from_path (path : string) : res (option string) :=
  match BaseFile.from_str (file_name_of path) with
  | Ok f => Ok (Some (BaseFile.commit_timestamp f))
  | Err _ => Ok None
  | Panic => Panic
  end.

(** [base_file_in_instant_range] *)
Definition base_file_in_instant_range (commit_time : option string) (range : InstantRange) (timezone : string) : res bool :=
  match commit_time with
  | Some t => match is_in_range range t timezone with Err _ => Ok (is_in_range_lexicographic range t) | x => x end
  | None => Ok true
  end.

(** [base_file_in_range] *)
Definition base_file_in_range : res bool :=
  match ctx_instant_range (gr_context r) with
  | None => Ok true
  | Some range =>
      if is_metadata_table_path (ctx_table_path (gr_context r)) then Ok true
      else
        let? t :=
          match base_file_commit_time (gr_split r), base_file_path (gr_split r) with
          | Some t, _ => Ok (Some t)
          | None, Some path => base_commit_time_from_path path
          | None, None => Ok None
          end in
        base_file_in_instant_range t range (ctx_timezone (gr_context r))
  end.

(** [BaseSource] *)
Record BaseSource := mkBase { bs_schema : Fields; bs_batches : list (res RecordBatch) }.

Definition is_row_index (f : Field) : bool := bool_decide (Evolution.f_name f = ROW_INDEX_TEMPORARY_COLUMN_NAME).

(** [without_row_index] *)
Definition without_row_index (schema : Fields) : Fields :=
  if negb (has_column ROW_INDEX_TEMPORARY_COLUMN_NAME schema) then schema else List.filter (fun f => negb (is_row_index f)) schema.

(** The columns of the file that the read asks for, in the file's own names and types. *)
Fixpoint present_fields (file_schema required : Fields) : res Fields :=
  match required with
  | [] => Ok []
  | rf :: required =>
      let? idx := index_of_ci file_schema (Evolution.f_name rf) in
      let? rest := present_fields file_schema required in
      Ok (match (idx ≫= fun i => file_schema !! i) with Some f => f :: rest | None => rest end)
  end.

(** The two mechanisms that a pushed predicate has, after both gates: whether merging is
    safe, and whether the file's values are what its types say. *)
Definition gated {A} (pushed : option A) (repair_conflict : list string) : option A :=
  match repair_conflict with [] => if base_read_pushdown_is_safe then pushed else None | _ => None end.

(** The columns of a pushed predicate that this file needs repaired. *)
Definition repair_conflict (file_schema required : Fields) : res (list string) :=
  match repair_risk_columns (gr_context r) with
  | [] => Ok []
  | risk =>
      if base_read_pushdown_is_safe then
        reinterpreted_columns file_schema (default required (table_schema (gr_schema_handler r))) risk
      else Ok []
  end.

(** [base_read_schema] *)
Definition base_read_schema (required : Fields) : Fields :=
  if engine_use_record_position then required ++ [mkField ROW_INDEX_TEMPORARY_COLUMN_NAME AInt64 false] else required.

(** [base_file_source] *)
Definition base_file_source_of : res BaseSource :=
  match base_file_path (gr_split r) with
  | None => Ok (mkBase (default [] (required_schema (gr_schema_handler r))) [])
  | Some path =>
      let c := gr_context r in
      match required_schema (gr_schema_handler r) with
      | None =>
          let? format := base_format in
          let? batch := map_err EReadFileSlice (read_data format path
            (base_read_options (gated (row_filter_builder c) []) (gated (row_group_selector c) []) (ctx_key_predicate c)
               engine_use_record_position)) in
          let? in_range := base_file_in_range in
          Ok (mkBase (batch_schema batch) (if in_range : bool then [Ok batch] else []))
      | Some required =>
          let? format := base_format in
          let? file_schema := map_err EReadFileSlice (read_schema format path) in
          let? intersection := present_fields file_schema required in
          let? conflict := repair_conflict file_schema required in
          let schema := base_read_schema required in
          let? in_range := base_file_in_range in
          if negb in_range then Ok (mkBase schema [])
          else
            let? stream := map_err EReadFileSlice (read_stream format path
              (with_projection (Evolution.f_name <$> intersection)
                 (base_read_options (gated (row_filter_builder c) conflict) (gated (row_group_selector c) conflict)
                    (ctx_key_predicate c) engine_use_record_position))) in
            Ok (mkBase schema ((fun b => res_bind b (fun batch => project_batch_to_schema batch schema)) <$> stream.2))
      end
  end.

(** The record context of the reader's buffers, with its context of deletes. *)
Definition buffer_delete_context : option DeleteContext :=
  (fun ctx => match required_schema (gr_schema_handler r) with Some s => with_reader_schema s ctx | None => ctx end)
  <$> delete_context (gr_schema_handler r).

Definition reader_records : RecordContext := table_record_context (gr_record_context r) buffer_delete_context.

(** The schema a merge without a required schema gives: the base file's, or that of some
    record of the log files. *)
Definition fallback_schema (base : BaseSource) (buffer : GroupBuffer) : res ArrowKernels.Schema :=
  match base_file_path (gr_split r) with
  | Some _ => Ok (schema_of (without_row_index (bs_schema base)))
  | None =>
      ok_or (head (omap (fun x => ArrowKernels.schema <$> get_record x) (into_values (records (group_inner buffer))))) EReadFileSlice
  end.

(** [init_record_iterators], with the instants of the blocks that were merged. *)
Definition init_record_iterators (base : BaseSource) : res (GroupStream * list string) :=
  let converter := (fun s => projection_apply s) <$> gr_output_converter r in
  let post_projection_schema := schema_of <$> gr_output_converter r in
  if is_base_only (gr_split r) then
    let merge_schema := schema_of (default (bs_schema base) (required_schema (gr_schema_handler r))) in
    Ok (mkGroupStream (EagerSource (bs_batches base)) (default merge_schema post_projection_schema) converter false
          (mkUpdateStats 0 0 0), gr_valid_block_instants r)
  else
    let? (buffer, instants) :=
      get_record_buffer (RC := reader_records) (gr_context r) (gr_schema_handler r) (gr_storage r) (gr_split r) (gr_parameters r) in
    let? merge_schema :=
      match required_schema (gr_schema_handler r) with
      | Some s => Ok (schema_of s)
      | None => fallback_schema base buffer
      end in
    Ok (mkGroupStream (BufferedSource buffer (Some (bs_batches base)) merge_schema BaseScanning)
          (default merge_schema post_projection_schema) converter false (mkUpdateStats 0 0 0), instants).

(** [open_stream] *)
Definition open_stream : res GroupStream :=
  let? base := base_file_source_of in
  res_map fst (init_record_iterators base).

(** [read] *)
Definition group_read : res (option RecordBatch) :=
  let? stream := open_stream in group_collect_into_one_batch (RC := reader_records) stream.
End reader.

(** ** The builder *)
Record GroupReaderBuilder := mkReaderBuilder {
  rb_reader_context : option (ReaderContext * TableRecordContext * SchemaHandler);
  rb_storage : option HudiConfigs;
  rb_input_split : option InputSplit;
  rb_parameters : ReaderParameters;
  rb_data_schema : option Fields;
  rb_requested_schema : option Fields;
  rb_row_filter_builder : option RowFilterBuilder;
  rb_row_group_selector : option RowGroupSelector;
  rb_mor_pk_safe : option bool;
  rb_repair_risk_columns : option (list string)
}.

(** What the builder was given of a pushed predicate, over what the context has. *)
Definition with_pushdown (b : GroupReaderBuilder) (c : ReaderContext) : ReaderContext :=
  mkContext (ctx_table_path c) (latest_commit_time c) (base_file_format c) (ctx_has_log_files c) (needs_bootstrap_merge c)
    (should_merge_use_record_position c) (iterator_mode c) (merge_mode c) (merge_strategy_id c) (ctx_instant_range c)
    (ctx_partition_path c) (ctx_table_config c) (hoodie_reader_config c)
    (match rb_row_filter_builder b with Some f => Some f | None => row_filter_builder c end)
    (match rb_row_group_selector b with Some f => Some f | None => row_group_selector c end)
    (ctx_key_predicate c) (default (mor_pk_safe c) (rb_mor_pk_safe b))
    (default (repair_risk_columns c) (rb_repair_risk_columns b)) (ctx_gate_inputs c).

Definition build_group_reader (b : GroupReaderBuilder) : res HoodieFileGroupReader :=
  let? parts := ok_or (rb_reader_context b) EReadFileSlice in
  let? storage := ok_or (rb_storage b) EReadFileSlice in
  let? split := ok_or (rb_input_split b) EReadFileSlice in
  let '(c, rc, h) := parts in
  group_reader_new (with_pushdown b c) rc h storage split (rb_parameters b) (rb_data_schema b) (rb_requested_schema b).

(** * The entry points (adapter.rs) *)
Context {SB : SortBy}.

(** [with_unbounded_end_timestamp] *)
Definition with_unbounded_end_timestamp (configs : HudiConfigs) : HudiConfigs :=
  if decide (is_Some (configs !! ReadConfig.key_str ReadConfig.EndTimestamp)) then configs
  else <[ReadConfig.key_str ReadConfig.EndTimestamp := MAX_INSTANT_TIME]> configs.

(** The context with the inputs of the completion gate. *)
Definition with_gate_inputs (inputs : option CompletionGateInputs) (c : ReaderContext) : ReaderContext :=
  mkContext (ctx_table_path c) (latest_commit_time c) (base_file_format c) (ctx_has_log_files c) (needs_bootstrap_merge c)
    (should_merge_use_record_position c) (iterator_mode c) (merge_mode c) (merge_strategy_id c) (ctx_instant_range c)
    (ctx_partition_path c) (ctx_table_config c) (hoodie_reader_config c) (row_filter_builder c) (row_group_selector c)
    (ctx_key_predicate c) (mor_pk_safe c) (repair_risk_columns c) inputs.

(** [build_reader] *)
Definition build_reader (configs storage : HudiConfigs) (base_file_path : string) (log_file_paths : list string)
    (partition_path : string) (data_schema : option Fields) (inputs : option CompletionGateInputs) : res HoodieFileGroupReader :=
  let has_log_files := match log_file_paths with [] => false | _ => true end in
  let configs := with_unbounded_end_timestamp configs in
  let base_file_path := if decide (base_file_path = "") then None else Some base_file_path in
  let? c := resolve_reader_context configs has_log_files base_file_path in
  let c := with_gate_inputs inputs c in
  let rc := record_context_new (ctx_table_config c) partition_path in
  let? commit_time := match base_file_path with Some p => base_commit_time_from_path p | None => Ok None end in
  let? split := split_new base_file_path commit_time log_file_paths partition_path in
  group_reader_new c rc handler_new storage split
    (mkParameters (should_merge_use_record_position c) false false false) data_schema None.

(** [read_file_slice] and [read_file_slice_stream] of the adapter *)
Definition merged_file_slice (configs storage : HudiConfigs) (base_file_path : string) (log_file_paths : list string)
    (partition_path : string) (data_schema : option Fields) (inputs : option CompletionGateInputs) : res (option RecordBatch) :=
  let? reader := build_reader configs storage base_file_path log_file_paths partition_path data_schema inputs in group_read reader.

Definition merged_file_slice_stream (configs storage : HudiConfigs) (base_file_path : string) (log_file_paths : list string)
    (partition_path : string) (data_schema : option Fields) (inputs : option CompletionGateInputs)
    : res (HoodieFileGroupReader * GroupStream) :=
  let? reader := build_reader configs storage base_file_path log_file_paths partition_path data_schema inputs in
  let? stream := open_stream reader in Ok (reader, stream).

(** [refuse_reason] *)
Definition refuse_reason (is_metadata_table : bool) (data_schema : option Fields) : option CoreError :=
  if is_metadata_table then Some EUnsupported
  else match data_schema with None => Some EUnsupported | Some _ => None end.
End engine.
