(* ===== verification/GroupRead.v ===== *)
(** The read of a file group, from its reader to its rows: [GroupEngine]'s composition of
    the base file's stream, the scan of the log files and the merge, over a table's own
    record context.

    The reader's buffer by key behaves as the buffers of [RecordBuffer] and [MergeStream]
    do, so what the scan and the merge amount to there is what the read returns. *)
From Stdlib Require Import ZArith Ascii.
From stdpp Require Import base gmap sets list strings sorting numbers pretty.
From S2P Require Import HFileIndex Prelude RustStr StrReplace Chrono Config Instant Selector Files View FileGroup GroupBuilder Listing StorageReader RecordBatches LogFormat LogReader LogEncoding Scanner OrderingValues RecordMerger ArrowKernels RecordBuffer BaseMerge MergeStream LogMerge LogScan LogFetch LogRead PositionBuffer SpillMap Options Table TableOptions RecordKeys Evolution ReadContext ReadSchema InputSplit GroupEngine.
Local Open Scope res_scope.
Local Open Scope Z_scope.

(** * The buffer by key inside a group buffer *)
Section by_key.
Context {AB : ArrowBatch} {AR : ArrowRows} {AK : ArrowKernels} {CO : ColumnOps} {RC : RecordContext} {MO : MapOrder}
  {PC : PositionsCodec}.

Definition group_source (src : MergeSource) : GroupSource :=
  match src with
  | Eager l => EagerSource l
  | Buffered b base s state => BufferedSource (KeyBased b) base s state
  end.

Definition group_stream (s : FileGroupMergeStream) : GroupStream :=
  mkGroupStream (group_source (source s)) (MergeStream.output_schema s) (output_converter s) (done s) (stream_stats s).

Definition group_produced (p : Produced) : GroupProduced :=
  match p with
  | Chunk batch next => GroupChunk batch (group_source next)
  | Finished next => GroupFinished (group_source next)
  | Failed e => GroupFailed e
  end.

Lemma by_key_drain b src s : group_drain_turn (KeyBased b) src s = group_produced (drain_turn b src s).
Proof.
  unfold group_drain_turn, drain_turn, group_drain. destruct (drain_log_only_inserts b s) as [[b' [x|]]| |]; cbn [res_bind]; try done.
  by destruct (0 <? num_rows x).
Qed.

Lemma by_key_scan s src : forall b, group_scan_turn (KeyBased b) src s = group_produced (scan_turn b src s).
Proof.
  induction src as [|[x|e|] src IH]; intros b; cbn [group_scan_turn scan_turn]; [apply by_key_drain| |done..].
  destruct (num_rows x =? 0); [apply IH|]. unfold group_merge_base.
  destruct (merge_one_base_batch_kernel b x s RecordKey) as [[b' [y|]]| |]; cbn [res_bind]; [|apply IH|done..].
  destruct (num_rows y =? 0); [apply IH|done].
Qed.

Lemma by_key_turn src : group_turn (group_source src) = group_produced (turn src).
Proof.
  destruct src as [[|[x|e|] l]|b base s []]; try done; [|apply by_key_drain].
  destruct base; [apply by_key_scan|apply by_key_drain].
Qed.

Lemma by_key_next s : group_next_chunk (group_stream s) = ((next_chunk s).1, group_stream (next_chunk s).2).
Proof.
  destruct s as [src out conv [] stats]; [done|]. unfold group_next_chunk, next_chunk, group_stream.
  cbn [g_done g_source g_converter g_stats g_output_schema source MergeStream.output_schema output_converter MergeStream.done stream_stats].
  rewrite by_key_turn. by destruct (turn src) as [x n|[]|e], conv.
Qed.

Lemma by_key_collect fuel : forall s chunks,
  group_collect_chunks fuel (group_stream s) chunks = res_map (fmap (M := option) (fun p => (p.1, group_stream p.2))) (collect_chunks fuel s chunks).
Proof.
  induction fuel as [|fuel IH]; intros s chunks; [done|]. cbn [group_collect_chunks collect_chunks]. rewrite by_key_next.
  destruct (next_chunk s) as [[[x|e|]|] s']; cbn [fst snd res_bind]; [apply IH|done..].
Qed.

Lemma by_key_chunks_left s : group_chunks_left (group_stream s) = chunks_left s.
Proof. by destruct s as [[]]. Qed.

(** ** Blocks *)
Context {C : Chrono} {D : ContentDecoder} {RS : RangeStore} {LS : LogStorage}.

Lemma by_key_dispatch b block :
  dispatch_block (KeyBased b) block = res_map (fun p : Buffer * LogBlock => (KeyBased p.1, p.2)) (dispatch_block b block).
Proof.
  unfold dispatch_block. destruct (block_type block); try done; cbn;
    first [by destruct (process_data_block _ _) as [[]| |]|by destruct (process_delete_block _ _) as [[]| |]].
Qed.

Lemma by_key_load blocks : forall b, res_fold load_and_merge blocks (KeyBased b) = res_map KeyBased (res_fold load_and_merge blocks b).
Proof.
  induction blocks as [|fb blocks IH]; intros b; [done|]. cbn [res_fold].
  assert (load_and_merge (KeyBased b) fb = res_map KeyBased (load_and_merge b fb)) as ->.
  { unfold load_and_merge. destruct (if queued_type _ then _ else _) as [x| |]; cbn [res_bind]; [|done..].
    rewrite by_key_dispatch. by destruct (dispatch_block b x) as [[]| |]. }
  destruct (load_and_merge b fb); cbn [res_map res_bind]; [apply IH|done..].
Qed.

(** The scan of a reader that holds a buffer by key. *)
Lemma by_key_scans (r : LogRecordReader (S := GroupBuffer)) b budget all p loaded b' :
  reader_buffer r = KeyBased b -> files_served (LogFetch.log_file_paths r) ->
  stream_window_size (LogFetch.table_config r) = Some budget -> 0 <= budget < u64_max ->
  walk_files r = Ok all ->
  forward_scan_pass1 (latest_instant_time r) (LogFetch.instant_range r) (reader_timezone r) (completion_gate_inputs r) all = Ok p ->
  res_mapM load_queued (ordered_blocks (reverse_scan_pass2 p)) = Ok loaded ->
  res_fold process_block (typed_content <$> loaded) b = Ok b' ->
  exists r', scan_internal false r = Ok r' /\ reader_buffer r' = KeyBased b'.
Proof.
  intros Hr Hserved Hc Hb Hw Hp Hl E. pose proof (scan_agrees r budget Hserved Hc Hb) as Hscan. unfold scan_reference in Hscan.
  rewrite Hw in Hscan. cbn [res_bind] in Hscan. rewrite Hp in Hscan. cbn [res_bind] in Hscan.
  rewrite Hr, by_key_load, (load_and_merge_all _ _ _ Hl), E in Hscan.
  destruct (scan_internal false r) as [r'| |]; cbn in Hscan; [|done..]. exists r'. by destruct Hscan as [? _].
Qed.
End by_key.

(** * What a read returns *)
Section read.
Context {AB : ArrowBatch} {AR : ArrowRows} {AK : ArrowKernels} {AL : ArrowLaws} {CO : ColumnOps} {MO : MapOrder} {ML : MapOrderLaws}
  {PC : PositionsCodec} {PD : Pushdown} {AS : ArrowSchemas} {CM : CustomMergers} {C : Chrono} {D : ContentDecoder} {RS : RangeStore}
  {LS : LogStorage} {AC : ArrowColumns} {CL : ArrowColumnLaws} {FT : FloatText} {AA : ArrowArrays} {BA : ArrayBatches}
  {BR : BaseFileReaders} {VS : AvroSchemas}.

(** A buffer by key is new when it is made. *)
Lemma key_based_new_ok c h mode required b heap :
  key_based_new c h mode = Ok b -> required_schema h = Some required -> pick_winner_decides mode = true ->
  reader_or_table_option c PARTIAL_UPDATE_UNAVAILABLE_VALUE = None -> reader_or_table_option c PARTIAL_UPDATE_MODE = None ->
  fresh_buffer (schema_of required) heap b /\ reader_schema b = Some (schema_of required) /\ records b = ∅ /\
  record_merge_mode b = mode /\ next_addr b = 0%nat /\
  create_with (merger_of <$> resolve_custom_merger (ctx_table_config c)) mode = Ok (buffered_record_merger b).
Proof.
  unfold key_based_new. intros H Hreq Hmode Hu Hd. apply res_bind_Ok in H as (M & HM & H). apply res_bind_Ok in H as (ctx & _ & H).
  apply res_bind_Ok in H as (sc & _ & H). injection H as <-. rewrite Hreq, Hu, Hd. split_and!; try done.
  split; [split|done..]; [done..|by eexists|]. intros k r Hr. cbn in Hr. by rewrite lookup_empty in Hr.
Qed.

(** Chunks of one schema are put together. *)
Lemma collected_batch fuel (s : GroupStream) {RC : RecordContext} chunks st :
  group_chunks_left s = fuel -> group_collect_chunks fuel s [] = Ok (Some (chunks, st)) ->
  (forall c, c ∈ chunks -> ArrowKernels.schema c = g_output_schema s) ->
  exists batch, group_collect_into_one_batch s = Ok (Some batch) /\ ArrowKernels.schema batch = g_output_schema s /\
    batch_rows batch = concat (batch_rows <$> chunks).
Proof.
  intros Hf Hc Hs. unfold group_collect_into_one_batch. rewrite Hf, Hc. cbn [res_bind]. destruct chunks as [|c [|c' chunks]].
  - eexists. split; [done|]. split; [apply new_empty_schema|by rewrite new_empty_rows].
  - eexists. split; [done|]. split; [apply Hs; by left|]. cbn. by rewrite app_nil_r.
  - destruct (concat_rows _ _ Hs) as (b & -> & Hb & Hr). by exists b.
Qed.

Section reader.
Context (r : HoodieFileGroupReader) (required : Fields) (key_column : nat).
Context {SK : SingleKey (gr_record_context r) (schema_of required) key_column}.

(** The record context of the reader's buffers. *)
#[local] Instance reader_rc : RecordContext := reader_records r.

#[local] Instance reader_laws : RecordContextLaws (schema_of required) RecordKey :=
  table_context_laws (gr_record_context r) (buffer_delete_context r) (schema_of required) key_column.

(** The log reader that the buffer is filled by, before its scan. *)
Definition unscanned (buffer : GroupBuffer) : LogRecordReader :=
  mkLogRecordReader (ctx_table_config (gr_context r)) (gr_storage r) (ctx_timezone (gr_context r)) (log_file_paths (gr_split r))
    (if decide (latest_commit_time (gr_context r) = "") then MAX_INSTANT_TIME else latest_commit_time (gr_context r))
    (ctx_instant_range (gr_context r)) (ctx_gate_inputs (gr_context r)) buffer [] 0 0 0 0 0.

Lemma scanned_buffer buffer r' : has_log_files (gr_split r) = true ->
  scan_internal false (unscanned buffer) = Ok r' ->
  scan_log_files (gr_context r) (gr_storage r) (gr_split r) buffer
    = Ok (reader_buffer r', reader_valid_block_instants r').
Proof.
  intros Hl H. unfold scan_log_files. rewrite Hl.
  assert (build_log_reader (mkBuilder (Some (gr_context r)) (Some (gr_storage r)) (log_file_paths (gr_split r))
    (Some (if decide (latest_commit_time (gr_context r) = "") then MAX_INSTANT_TIME else latest_commit_time (gr_context r)))
      None false (Some buffer) true (ctx_gate_inputs (gr_context r))) = Ok (mkLogReader r' true)) as ->; [|done].
  change (res_bind (scan_internal false (unscanned buffer))
    (fun base => Ok (mkLogReader base true)) = Ok (mkLogReader r' true)). by rewrite H.
Qed.

(** What the scan leaves of a buffer that is filled by key, and what the merge then gives. *)
Lemma group_merge b src budget all p loaded heap :
  fresh_buffer (schema_of required) heap b -> reader_schema b = Some (schema_of required) -> records b = ∅ ->
  has_log_files (gr_split r) = true ->
  files_served (log_file_paths (gr_split r)) ->
  stream_window_size (ctx_table_config (gr_context r)) = Some budget -> 0 <= budget < u64_max ->
  walk_files (unscanned (KeyBased b)) = Ok all ->
  forward_scan_pass1 (latest_instant_time (unscanned (KeyBased b))) (ctx_instant_range (gr_context r)) (ctx_timezone (gr_context r))
    (ctx_gate_inputs (gr_context r)) all = Ok p ->
  res_mapM load_queued (ordered_blocks (reverse_scan_pass2 p)) = Ok loaded ->
  let contents := typed_content <$> loaded in
  (forall x, x ∈ contents -> block_ok (schema_of required) x) ->
  base_interned heap (next_addr b) (concat (block_data <$> contents)) ->
  (forall x, x ∈ src -> ArrowKernels.schema x = schema_of required) -> NoDup (row_lookup <$> rows_in src) ->
  exists b' instants batch m,
    scan_log_files (gr_context r) (gr_storage r) (gr_split r) (KeyBased b) = Ok (KeyBased b', instants) /\
    group_collect_into_one_batch
      (mkGroupStream (BufferedSource (KeyBased b') (Some (Ok <$> src)) (schema_of required) BaseScanning) (schema_of required) None false
         (mkUpdateStats 0 0 0)) = Ok (Some batch) /\
    ArrowKernels.schema batch = schema_of required /\
    (forall k, replay (M := buffered_record_merger b) (ops_at k (blocks_entries (schema_of required) (next_addr b) contents)) None = Ok (m !! k)) /\
    batch_rows batch ≡ₚ
      concat ((fun x => survivor (schema_of required) (record_merge_mode b) (m !! row_lookup x) x) <$> rows_in src) ++
      log_only_rows (row_lookup <$> rows_in src) m.
Proof.
  intros Hf Hr Hm Hlogs Hserved Hc Hb Hw Hp Hl contents Hok Hi Hs Hn.
  destruct (read_by_key (schema_of required) heap b contents src (schema_of required) Hf Hr Hm Hok Hi Hs Hn)
    as (b' & chunks & st & m & E & Hch & Hrep & Hrows & Hsch).
  destruct (by_key_scans (unscanned (KeyBased b)) b budget all p loaded b') as (r' & Hscan & Hr'); [done..|].
  pose proof (scanned_buffer _ _ Hlogs Hscan) as Hscanned. rewrite Hr' in Hscanned.
  set (s := new_buffered b' (Ok <$> src) (schema_of required) (schema_of required) None) in *.
  destruct (collected_batch (chunks_left s) (group_stream s) chunks (group_stream st)) as (batch & Hbatch & Hschema & Hrows').
  - apply by_key_chunks_left.
  - by rewrite by_key_collect, Hch.
  - done.
  - exists b', (reader_valid_block_instants r'), batch, m. split_and!; [done|exact Hbatch|done|done|]. by rewrite Hrows'.
Qed.

(** C1: A read of a slice, end to end.  The reader merges by key the base file's batches, in the
    schema the read needs, with the blocks its two passes admit of the log files: for every
    base row there is the row or what the log left of its key, whichever wins, and after them
    the rows the log left of keys the base does not have -- in one batch, of the schema asked
    for.  The record keys, ordering values and deletes are those of the table's own record
    context, and the buffer is the one the loader makes.  Partial updates are not asked for. *)
Theorem group_read_by_key b s src budget all p loaded :
  let c := gr_context r in
  required_schema (gr_schema_handler r) = Some required -> gr_output_converter r = None -> has_log_files (gr_split r) = true ->
  loader_admits c = true -> pick_winner_decides (loader_merge_mode c) = true ->
  new_record_buffer c (gr_schema_handler r) (gr_split r) (gr_parameters r) = Ok (KeyBased b) ->
  reader_or_table_option c PARTIAL_UPDATE_UNAVAILABLE_VALUE = None -> reader_or_table_option c PARTIAL_UPDATE_MODE = None ->
  base_file_source_of r = Ok (mkBase s (Ok <$> src)) ->
  (forall x, x ∈ src -> ArrowKernels.schema x = schema_of required) -> NoDup (row_lookup <$> rows_in src) ->
  files_served (log_file_paths (gr_split r)) ->
  stream_window_size (ctx_table_config c) = Some budget -> 0 <= budget < u64_max ->
  walk_files (unscanned (KeyBased b)) = Ok all ->
  forward_scan_pass1 (latest_instant_time (unscanned (KeyBased b))) (ctx_instant_range c) (ctx_timezone c) (ctx_gate_inputs c) all = Ok p ->
  res_mapM load_queued (ordered_blocks (reverse_scan_pass2 p)) = Ok loaded ->
  let contents := typed_content <$> loaded in
  (forall x, x ∈ contents -> block_ok (schema_of required) x) ->
  exists batch m,
    group_read r = Ok (Some batch) /\ ArrowKernels.schema batch = schema_of required /\
    (forall k, replay (M := buffered_record_merger b) (ops_at k (blocks_entries (schema_of required) 0 contents)) None = Ok (m !! k)) /\
    batch_rows batch ≡ₚ
      concat ((fun x => survivor (schema_of required) (loader_merge_mode c) (m !! row_lookup x) x) <$> rows_in src) ++
      log_only_rows (row_lookup <$> rows_in src) m.
Proof.
  intros c Hreq Hconv Hlogs Hadm Hmode Hnew Hu Hd Hbase Hs Hn Hserved Hc Hb Hw Hp Hl contents Hok.
  set (heap := concat (block_data <$> contents)).
  assert (Hkb : key_based_new c (gr_schema_handler r) (loader_merge_mode c) = Ok b).
  { revert Hnew. unfold new_record_buffer. destruct (is_skip_merge _); [done|]. destruct (sort_output _); [done|].
    destruct (_ && _ && _ && _); [by destruct (base_file_commit_time _); [|done]; cbn [ok_or res_bind]; destruct (key_based_new _ _ _)|].
    destruct (emit_delete _); [done|]. by destruct (key_based_new _ _ _) as [b0| |]; [|done..]; intros [= ->]. }
  destruct (key_based_new_ok c _ _ required b heap Hkb Hreq Hmode Hu Hd) as (Hf & Hr & Hm & Emode & Eaddr & _).
  destruct (group_merge b src budget all p loaded heap) as (b' & instants & batch & m & Hscan & Hread & Hsch & Hrep & Hrows); try done.
  { intros j x Hx. by rewrite Eaddr. }
  rewrite Eaddr in Hrep. rewrite Emode in Hrows. exists batch, m. split_and!; try done.
  unfold group_read, open_stream. rewrite Hbase. cbn [res_bind]. unfold init_record_iterators, is_base_only. rewrite Hlogs.
  unfold get_record_buffer. subst c. rewrite Hadm, Hreq, Hconv. cbn [negb bs_batches]. unfold reader_rc in Hscan. rewrite Hnew.
  cbn [res_bind]. rewrite Hscan. exact Hread.
Qed.

(** Without log files a read is its base file's batches put together. *)
Lemma base_only_read s src :
  required_schema (gr_schema_handler r) = Some required -> gr_output_converter r = None -> has_log_files (gr_split r) = false ->
  base_file_source_of r = Ok (mkBase s (Ok <$> src)) -> (forall x, x ∈ src -> ArrowKernels.schema x = schema_of required) ->
  exists batch, group_read r = Ok (Some batch) /\ ArrowKernels.schema batch = schema_of required /\ batch_rows batch = rows_in src.
Proof.
  intros Hreq Hconv Hlogs Hbase Hs. unfold group_read, open_stream. rewrite Hbase. cbn [res_bind]. unfold init_record_iterators, is_base_only.
  rewrite Hlogs, Hreq, Hconv. cbn [negb res_map res_bind fst bs_batches option_map fmap option_fmap default from_option id].
  assert (Hcol : forall l chunks, exists st, group_collect_chunks (RC := reader_records r) (S (length l))
    (mkGroupStream (EagerSource (Ok <$> l)) (schema_of required) None false (mkUpdateStats 0 0 0)) chunks = Ok (Some (chunks ++ l, st))).
  { induction l as [|x l IH]; intros chunks; [eexists; by rewrite app_nil_r|]. destruct (IH (chunks ++ [x])) as (st & E). exists st.
    rewrite <- app_assoc in E. exact E. }
  destruct (Hcol src []) as (st & E). eapply collected_batch; [|exact E|done]. cbn. by rewrite length_fmap.
Qed.
End reader.
End read.

(** * Gates that agree *)
Section gates.
Context {AB : ArrowBatch} {AR : ArrowRows} {AK : ArrowKernels} {CO : ColumnOps} {MO : MapOrder} {PC : PositionsCodec}
  {PD : Pushdown} {AS : ArrowSchemas} {CM : CustomMergers} {C : Chrono} {D : ContentDecoder} {RS : RangeStore} {LS : LogStorage}
  {AC : ArrowColumns} {FT : FloatText} {AA : ArrowArrays} {BA : ArrayBatches} {BR : BaseFileReaders} {VS : AvroSchemas}.

Lemma shouted_mode c mode : merge_mode c = merge_mode_as_ref mode -> loader_merge_mode c = merge_mode_as_ref mode.
Proof. intros H. unfold loader_merge_mode. rewrite H. by destruct mode. Qed.

(** The gates on the merge mode agree: a table whose context is resolved -- its mode stated or
    inferred, its merger found among its own options -- is admitted by the loader, the factory
    has a merger for it, and the schema of its reads is not refused for its mode. *)
Theorem merge_mode_gates_agree configs logs path c : resolve_reader_context configs logs path = Ok c ->
  loader_admits c = true /\
  (exists M, create_with (merger_of <$> resolve_custom_merger (ctx_table_config c)) (loader_merge_mode c) = Ok M) /\
  forall h logs' keys orderings ctx ranged, custom_merger h = resolve_custom_merger (ctx_table_config c) ->
    exists s, generate_required_schema h logs' keys orderings ctx ranged (merge_mode c) = Ok s.
Proof.
  intros (mode & Hmode & Htc & _ & _ & Hres & _)%resolved_context. rewrite Htc, table_config_merger.
  assert (Hcustom : mode = CustomMode -> is_Some (resolve_custom_merger configs)).
  { intros ->. destruct Hres as [H|[_ H]]; [by apply resolved_custom|done]. }
  unfold loader_admits. rewrite (shouted_mode c mode Hmode), Htc, table_config_merger, Hmode. split_and!.
  - destruct mode; [done..|]. by destruct (Hcustom eq_refl) as [m ->].
  - destruct mode; [by eexists..|]. destruct (Hcustom eq_refl) as [m ->]. by eexists.
  - intros h logs' keys orderings ctx ranged Hh. unfold generate_required_schema.
    destruct (or_schema _ _) as [base|]; [|by eexists]. destruct (or_schema _ _) as [source|]; [|by eexists].
    destruct logs'; cbn [negb]; [|by eexists]. rewrite Hh.
    destruct mode; [by eexists..|]. destruct (Hcustom eq_refl) as [m ->]. by eexists.
Qed.

(** The record buffer is the one by position exactly when the base file is read with the
    column of positions. *)
Theorem position_buffer_has_its_column (r : HoodieFileGroupReader) (RC : RecordContext) buffer :
  has_log_files (gr_split r) = true ->
  new_record_buffer (gr_context r) (gr_schema_handler r) (gr_split r) (gr_parameters r) = Ok buffer ->
  let by_position := match buffer with PositionBased _ => true | KeyBased _ => false end in
  by_position = engine_use_record_position r /\
  forall f s k, bo_row_index_column (base_read_options f s k (engine_use_record_position r))
    = (if by_position then Some ROW_INDEX_TEMPORARY_COLUMN_NAME else None) /\
  forall required, base_read_schema r required
    = required ++ (if by_position then [mkField ROW_INDEX_TEMPORARY_COLUMN_NAME AInt64 false] else []).
Proof.
  intros Hl H by_position. assert (Hp : by_position = engine_use_record_position r).
  { subst by_position. revert H. unfold new_record_buffer, engine_use_record_position. rewrite Hl.
    destruct (is_skip_merge _); [done|]. destruct (sort_output _); [done|].
    destruct (use_record_position (gr_parameters r)), (base_file_path (gr_split r)), (base_file_commit_time (gr_split r)); cbn [is_Some_bool andb negb orb].
    1: destruct (base_file_is_parquet _).
    1: cbn [ok_or res_bind]; destruct (key_based_new _ _ _); cbn [res_bind]; [|done..]; by intros [= <-].
    all: destruct (emit_delete _); [done|]; destruct (key_based_new _ _ _); [|done..]; by intros [= <-]. }
  split; [done|]. intros f s k. unfold base_read_schema. rewrite <- Hp. split; [done|]. intros required.
  destruct by_position; [done|by rewrite app_nil_r].
Qed.

(** C19: A predicate reaches the base file's reader only when nothing is merged, or
    when the caller has set mor_pk_safe -- its word that the predicate is on the record
    key alone, which the code does not check -- and when each of its columns that the
    file and the table have is stored as its type says: evolving it to the table's type
    never reinterprets a value. That is where the columns the context holds as at risk
    of repair are those of this predicate, and for columns of the file without a struct
    that has two fields whose names differ in case only. *)
Theorem pushed_filter_is_safe {LA : ArrowArrayLaws} {A} (r : HoodieFileGroupReader) (pushed : option A) f file required predicate conflict :
  let table := default required (table_schema (gr_schema_handler r)) in
  repair_risk_columns (gr_context r) = Evolution.repair_risk_columns table predicate ->
  repair_conflict r file required = Ok conflict -> gated r pushed conflict = Some f ->
  pushed = Some f /\ (has_log_files (gr_split r) = false \/ mor_pk_safe (gr_context r) = true) /\
  forall name fi ti ff tf src r1 r2,
    name ∈ predicate -> index_of_ci file name = Ok (Some fi) -> index_of_ci table name = Ok (Some ti) ->
    file !! fi = Some ff -> table !! ti = Some tf -> names_distinct (f_type ff) -> arr_type src = f_type ff ->
    evolve_with r1 (f_type tf) src = evolve_with r2 (f_type tf) src.
Proof.
  intros table Hrisk Hconf Hg. unfold gated in Hg. destruct conflict; [|done]. destruct (base_read_pushdown_is_safe r) eqn:Es; [|done].
  split_and!; [done| |].
  { unfold base_read_pushdown_is_safe in Es. apply orb_true_iff in Es as [?%negb_true_iff|?]; [by left|by right]. }
  intros name fi ti ff tf src r1 r2. apply pushed_predicate_reads_stored_values. unfold repair_conflict in Hconf. rewrite Es, Hrisk in Hconf.
  destruct (Evolution.repair_risk_columns table predicate); [done|exact Hconf].
Qed.
End gates.

(** * Instances *)
Module SampleGroupRead.
Import ArrowKernels.Sample MergeStream.SampleContext LogRead.SampleLogRead.

#[local] Remove Hints sample_context sample_decoder sample_storage sample_ranges sample_context_laws : typeclass_instances.

#[export] Existing Instance RecordKeys.SampleKeys.sample_arrays.
#[export] Existing Instance RecordKeys.SampleKeys.sample_array_laws.
#[export] Existing Instance Evolution.SampleEvolution.sample_arrays.
#[export] Existing Instance Evolution.SampleEvolution.sample_text.
#[export] Existing Instance Civil.civil.

(** The columns of the sample rows: one is the operation, which deletes rows of value 0. *)
Definition sample_fields : Fields :=
  [mkField "k" AUtf8 false; mkField "ts" AInt64 true; mkField "v" AInt32 false; mkField OPERATION AUtf8 true].

#[export] Instance sample_schemas : ArrowSchemas := {| schema_of := (fun fs => Evolution.f_name <$> fs) : Fields -> ArrowKernels.Schema |}.
#[export] Instance sample_mergers : CustomMergers := {| merger_of _ := EventTimeRecordMerger |}.
#[export] Instance no_pushdown : Pushdown := {| RowFilterBuilder := unit; RowGroupSelector := unit |}.
#[export] Instance no_positions : PositionsCodec := {| decode_record_positions _ := Err ELogBlock |}.
#[export] Instance no_avro : AvroSchemas := {|
  append_mandatory_fields_avro_json _ _ _ := Err ESchema; avro_json_to_arrow_schema _ := Err ESchema; projection_equivalent _ _ := false |}.

Definition four : list string := ["k"; "ts"; "v"; OPERATION].

(** Batches know the names of their fields; of columns, only those of batches that already
    have the schema asked for are needed. *)
#[export] Instance sample_array_batches : ArrayBatches (AA := Evolution.SampleEvolution.sample_arrays) := {|
  batch_schema b := match b with mk fs _ => if decide (fs = four) then sample_fields else [] end;
  batch_column _ _ := Err ESchema; batch_new _ _ := Err ESchema; batch_new_counted _ _ _ := Err ESchema |}.

Definition base_path : string := "f_0-0-0_20240101000000000.parquet".
Definition log_path_1 : string := ".f_20240102000000000.log.1_0-1-0".
Definition log_path_2 : string := ".f_20240103000000000.log.1_0-1-0".

Definition base_rows : list RecordBatch :=
  [mk four [("a", Some (OLong 2), 20); ("b", Some (OLong 4), 40)] : RecordBatch;
   mk four [("c", Some (OLong 8), 80); ("e", None, 1)] : RecordBatch].

#[export] Instance sample_files : BaseFileReaders := {|
  read_stream _ path _ := if decide (path = base_path) then Ok (sample_fields, Ok <$> base_rows) else Err EStorage;
  read_data _ _ _ := Err EStorage;
  read_schema _ path := if decide (path = base_path) then Ok sample_fields else Err EStorage
|}.

(** Payloads name the batches of the log's blocks. *)
Definition log_rows : list RecordBatch :=
  [mk four [("a", Some (OLong 5), 51); ("b", Some (OLong 1), 21)] : RecordBatch;
   mk four [("c", Some (OLong 9), 0); ("d", Some (OLong 9), 91)] : RecordBatch].

Definition log_content (p : bytes) : res (RecordBatches * Z) :=
  match log_rows !! Z.to_nat (from_be_bytes p - 48) with
  | Some b => Ok (mkBatches [b] [] 2 0, blen p)
  | None => Err ELogBlock
  end.

#[export] Instance log_decoder : ContentDecoder := {|
  decode_avro_record_content p _ := log_content p;
  decode_parquet_record_content p := log_content p;
  decode_delete_record_content p _ := Err ELogBlock;
  decode_hfile_content p _ := Err ELogBlock
|}.

Definition first_log : bytes := encode_blocks [written AvroData "20240102000000000" "0"; written AvroData "20240103000000000" "9"].
Definition second_log : bytes :=
  encode_blocks [mkWritten Command (<[ InstantTime := "20240104000000000" ]> (<[ TargetInstantTime := "20240103000000000" ]>
      {[ CommandBlockType := "0" ]})) [] Empty ∅;
    written ParquetData "20240105000000000" "1"].

Definition log_object_of (path : string) : res bytes :=
  if decide (path = log_path_1) then Ok first_log else if decide (path = log_path_2) then Ok second_log else Err EStorage.

#[export] Instance log_storage : LogStorage := {|
  log_object := log_object_of;
  log_store path := store_of (match log_object_of path with Ok object => object | _ => [] end)
|}.

#[export] Instance log_ranges : RangeStore := fun path ranges =>
  Some ((fun r => slice (match log_object_of path with Ok object => object | _ => [] end) r.1 r.2) <$> ranges).

Definition sample_configs : HudiConfigs :=
  {["hoodie.base.path" := "/t"; "hoodie.populate.meta.fields" := "false"; "hoodie.table.recordkey.fields" := "k";
    "hoodie.table.precombine.field" := "ts"; "hoodie.record.merge.mode" := "EVENT_TIME_ORDERING";
    CONFIG_DFS_BUFFER_MAX_SIZE := "10"]}.

Definition build_sample : res HoodieFileGroupReader :=
  build_reader (SB := insertion_sort_by) sample_configs ∅ base_path [log_path_2; log_path_1] "" (Some sample_fields) None.

Definition sample_group_reader : HoodieFileGroupReader :=
  match build_sample with
  | Ok r => r
  | _ => mkGroupReader (mkContext "" "" "" false false false "" "" "" None "" ∅ ∅ None None None false [] None)
           (record_context_new ∅ "") ∅ (mkSplit None None [] "") default_parameters handler_new None []
  end.

(** From the table's options to the rows: "a" updated, "b" updated too late, "c" deleted, "d"
    inserted; the block that "9" names is rolled back. *)
Example sample_rows_read : group_read sample_group_reader
  = Ok (Some (mk four [("b", Some (OLong 4), 40); ("a", Some (OLong 5), 51); ("e", None, 1); ("d", Some (OLong 9), 91)])).
Proof. vm_eq. Qed.

#[local] Instance sample_key : SingleKey (gr_record_context sample_group_reader) (schema_of sample_fields) 0.
Proof. split; vm_compute; reflexivity. Qed.

#[local] Instance sample_rc : RecordContext := reader_records sample_group_reader.

Definition new_sample_buffer : Buffer :=
  mkBuffer ∅ (Some four) "EVENT_TIME_ORDERING" EventTimeRecordMerger (mkUpdateStats 0 0 0) None None 0 0 None None None 0 None false 0.

Definition walked : list FileBlock := match walk_files (unscanned sample_group_reader (KeyBased new_sample_buffer)) with Ok bs => bs | _ => [] end.

Definition first_pass : Pass1Result :=
  match forward_scan_pass1 "99991231235959999" (ctx_instant_range (gr_context sample_group_reader)) "utc" None walked with
  | Ok p => p
  | _ => mkPass1 [] ∅ 0 0 0
  end.

Definition sample_loaded : list LogBlock :=
  match res_mapM load_queued (ordered_blocks (reverse_scan_pass2 first_pass)) with Ok l => l | _ => [] end.

Lemma sample_logs_served : files_served (log_file_paths (gr_split sample_group_reader)).
Proof.
  assert (log_file_paths (gr_split sample_group_reader) = [log_path_1; log_path_2]) as -> by vm_eq.
  intros path object Hp Ho. assert (Hs : log_store path = store_of object) by (cbn in Ho |- *; by rewrite Ho).
  split; [|rewrite Hs; apply store_of_serves|].
  - cbn in Hp, Ho. apply elem_of_cons in Hp as [->|Hp]; [|apply list_elem_of_singleton in Hp as ->];
      injection Ho as <-; vm_compute; discriminate.
  - intros ranges _. unfold object_get_ranges, log_ranges. cbn in Ho. by rewrite Ho.
Qed.

Lemma sample_contents : typed_content <$> sample_loaded
  = [(AvroData, Records (mkBatches [mk four [("a", Some (OLong 5), 51); ("b", Some (OLong 1), 21)] : RecordBatch] [] 2 0));
     (ParquetData, Records (mkBatches [mk four [("c", Some (OLong 9), 0); ("d", Some (OLong 9), 91)] : RecordBatch] [] 2 0))].
Proof. vm_eq. Qed.

Lemma sample_blocks_fit x : x ∈ typed_content <$> sample_loaded -> block_ok (schema_of sample_fields) x.
Proof.
  rewrite sample_contents. intros Hx. in_cases Hx; (split; [intros y Hy; cbn in Hy; in_cases Hy; reflexivity|intros y Hy; by apply not_elem_of_nil in Hy]).
Qed.

Lemma group_read_by_key_witness : exists batch m,
  group_read sample_group_reader = Ok (Some batch) /\ ArrowKernels.schema batch = four /\
  m !! "a" = Some (new_batch_ref "a" (mkArc 0 (mk four [("a", Some (OLong 5), 51); ("b", Some (OLong 1), 21)])) 0 (Some (OLong 5))) /\
  batch_rows batch ≡ₚ
    concat ((fun x : Row => survivor (RL := reader_laws sample_group_reader sample_fields 0) four "EVENT_TIME_ORDERING" (m !! x.1.1) x)
              <$> [("a", Some (OLong 2), 20); ("b", Some (OLong 4), 40); ("c", Some (OLong 8), 80); ("e", None, 1)]) ++
    log_only_rows ["a"; "b"; "c"; "e"] m.
Proof.
  destruct (group_read_by_key sample_group_reader sample_fields 0 new_sample_buffer sample_fields base_rows 10 walked first_pass sample_loaded)
    as (batch & m & E1 & E2 & Hm & Hp).
  - vm_eq.
  - vm_eq.
  - vm_eq.
  - vm_eq.
  - vm_eq.
  - vm_eq.
  - vm_eq.
  - vm_eq.
  - vm_eq.
  - intros x Hx. in_cases Hx; reflexivity.
  - apply (bool_decide_unpack _). vm_compute. exact I.
  - exact sample_logs_served.
  - vm_eq.
  - unfold u64_max. lia.
  - vm_eq.
  - vm_eq.
  - vm_eq.
  - exact sample_blocks_fit.
  - exists batch, m. split; [exact E1|]. split; [exact E2|]. split; [|exact Hp].
    rewrite sample_contents in Hm.
    assert (Ha : Ok (Some (new_batch_ref "a" (mkArc 0 (mk four [("a", Some (OLong 5), 51); ("b", Some (OLong 1), 21)])) 0 (Some (OLong 5))))
      = Ok (m !! "a")) by exact (Hm "a"). by injection Ha as <-.
Defined.

(** With positions asked for, the buffer is the one by position. *)
Definition positional_reader : HoodieFileGroupReader :=
  mkGroupReader (gr_context sample_group_reader) (gr_record_context sample_group_reader) (gr_storage sample_group_reader)
    (gr_split sample_group_reader) (mkParameters true false false false) (gr_schema_handler sample_group_reader) None [].

Lemma position_buffer_has_its_column_witness :
  engine_use_record_position positional_reader = true /\
  base_read_schema positional_reader sample_fields = sample_fields ++ [mkField ROW_INDEX_TEMPORARY_COLUMN_NAME AInt64 false].
Proof.
  destruct (position_buffer_has_its_column positional_reader sample_rc (PositionBased (position_new new_sample_buffer "20240101000000000")))
    as (H1 & H2).
  - vm_eq.
  - vm_eq.
  - cbn in H1. split; [exact (eq_sym H1)|]. exact (proj2 (H2 None None None) sample_fields).
Defined.

(** A table that states no mode: its payload class orders by event time. *)
Definition unstated_mode : HudiConfigs :=
  <["hoodie.read.end.timestamp" := "20240408000000"]>
    (<["hoodie.compaction.payload.class" := "org.apache.hudi.common.model.DefaultHoodieRecordPayload"]>
      (delete "hoodie.record.merge.mode" sample_configs)).

Lemma merge_mode_gates_agree_witness : exists c M,
  resolve_reader_context unstated_mode true None = Ok c /\
  create_with (merger_of <$> resolve_custom_merger (ctx_table_config c)) (loader_merge_mode c) = Ok M /\ loader_merge_mode c = "EVENT_TIME_ORDERING".
Proof.
  assert (H : res_map loader_merge_mode (resolve_reader_context unstated_mode true None) = Ok "EVENT_TIME_ORDERING") by vm_eq.
  destruct (resolve_reader_context _ _ _) as [c| |] eqn:E; [|discriminate..]. injection H as H.
  destruct (merge_mode_gates_agree _ _ _ _ E) as (_ & [M HM] & _). exists c, M. split; [done|]. split; [|exact H].
  by rewrite H in HM |- *.
Defined.

Import Evolution.SampleEvolution.

(** A reader of a base file alone, whose predicate is on a struct without its timestamp. *)
Definition filtering_reader : HoodieFileGroupReader :=
  mkGroupReader (gr_context sample_group_reader) (gr_record_context sample_group_reader) ∅ (mkSplit (Some base_path) None [] "")
    default_parameters (with_table_schema table_fields handler_new) None [].

Lemma pushed_filter_is_safe_witness :
  gated filtering_reader (Some tt) [] = Some tt /\
  forall r1 r2, evolve_with r1 AInt64 (SampleEvolution.mk AInt32 [Some 1] []) = evolve_with r2 AInt64 (SampleEvolution.mk AInt32 [Some 1] []).
Proof.
  destruct (pushed_filter_is_safe filtering_reader (Some tt) tt file_fields [] ["ID"; "seen"] [] eq_refl eq_refl eq_refl) as (_ & _ & H).
  split; [reflexivity|]. intros r1 r2.
  apply (H "ID" 0%nat 0%nat (mkField "ID" AInt32 false) (mkField "id" AInt64 false)); try (vm_compute; reflexivity); first [left|exact I].
Defined.
End SampleGroupRead.
