(* ===== verification/MergeV1.v ===== *)
(** The merge of version one: crates/core/src/merge/{ordering,record_merger}.rs, record/mod.rs,
    the row converters of util/arrow.rs, and the concatenations of
    file_group/record_batches.rs with the transformation of delete batches of
    schema/delete.rs.

    All batches of a slice become one.  Its rows are sorted by key, ordering field and
    sequence number, latest first; of each key the first is kept unless a delete of the key
    is later.  Batches are seen as their columns ([BatchViews]); Arrow's row format is an
    interface, of which the code uses that rows compare as their columns do. *)
From Stdlib Require Import ZArith Ascii.
From stdpp Require Import base gmap sets list strings sorting numbers.
From S2P Require Import Prelude RustStr Config Options Expr ArrowFilter StorageReader RecordBatches OrderingValues RecordMerger ArrowKernels InputSplit.
Local Open Scope res_scope.
Local Open Scope Z_scope.

(** * Batches as columns *)
Class BatchViews {AB : ArrowBatch} := {
  view : RecordBatch -> Batch;
  (** [RecordBatch::try_new], [take_record_batch], [RecordBatch::project] *)
  of_view : Batch -> res RecordBatch;
  take_record_batch : RecordBatch -> list nat -> res RecordBatch;
  project_columns : RecordBatch -> list nat -> res RecordBatch;
  (** [arrow::compute::cast] *)
  cast_column : Column -> DataType -> res Column
}.

Definition COMMIT_TIME : string := "_hoodie_commit_time".
Definition COMMIT_SEQNO : string := "_hoodie_commit_seqno".
Definition RECORD_KEY : string := "_hoodie_record_key".
Definition PARTITION_PATH : string := "_hoodie_partition_path".
Definition FILE_NAME : string := "_hoodie_file_name".

(** [MetaField::schema] *)
Definition meta_schema : list Field :=
  (fun n => ArrowFilter.mkField n Utf8) <$> [COMMIT_TIME; COMMIT_SEQNO; RECORD_KEY; PARTITION_PATH; FILE_NAME].

(** * Rows *)

(** [OwnedRow]: the values of some columns at one position. *)
Abbreviation OwnedRow := (list (option Value)).

(** Arrow's row format: which types it has, how values of a type compare, and what a null's
    slot holds once rows are columns again. *)
Class RowFormat := {
  row_supported : DataType -> bool;
  value_order : Value -> Value -> comparison;
  null_slot : DataType -> Z
}.

#[global] Instance datum_eq_dec : EqDecision Datum.
Proof. solve_decision. Defined.

#[global] Instance value_eq_dec : EqDecision Value.
Proof. solve_decision. Defined.

Section rows.
Context {RF : RowFormat}.

(** Nulls come first. *)
Definition opt_order (a b : option Value) : comparison :=
  match a, b with
  | None, None => Eq
  | None, Some _ => Lt
  | Some _, None => Gt
  | Some a, Some b => value_order a b
  end.

Fixpoint row_order (a b : OwnedRow) : comparison :=
  match a, b with
  | [], [] => Eq
  | [], _ => Lt
  | _, [] => Gt
  | x :: a, y :: b => match opt_order x y with Eq => row_order a b | c => c end
  end.

Definition row_gtb (a b : OwnedRow) : bool := bool_decide (row_order a b = Gt).

(** [RowConverter::new] and [convert_columns] *)
Definition converter_new (types : list DataType) : res (list DataType) :=
  if forallb row_supported types then Ok types else Err EArrow.

Definition rows_at (columns : list Column) (n : nat) : list OwnedRow :=
  (fun i => (fun c => default None (column_values c !! i)) <$> columns) <$> seq 0 n.

Definition convert_columns (converter : list DataType) (columns : list Column) : res (list OwnedRow) :=
  if decide ((column_type <$> columns) = converter)
  then Ok (rows_at columns (match columns with c :: _ => length (column_values c) | [] => O end))
  else Err EArrow.

(** [lexsort_to_indices]: ties keep their order either way, so there are none.  Positions
    become [u32]s. *)
Definition lex_cmp (desc : bool) (a b : nat * OwnedRow) : comparison :=
  match (if desc then row_order b.2 a.2 else row_order a.2 b.2) with Eq => Nat.compare a.1 b.1 | c => c end.

Definition as_u32 (i : nat) : nat := Z.to_nat (Z.of_nat i mod 2 ^ 32).

Definition lexsort_to_indices (arrays : list Column) (desc : bool) : res (list nat) :=
  match (let? converter := converter_new (column_type <$> arrays) in convert_columns converter arrays) with
  | Ok rows => Ok ((fun p => as_u32 p.1) <$> stable_sort (lex_cmp desc) (imap pair rows))
  | _ => Panic
  end.

(** [create_row_converter], [get_column_arrays] *)
Definition create_row_converter (schema : list Field) (column_names : list string) : res (list DataType) :=
  let? types := res_mapM (fun n => let? f := ok_or (field_with_name schema n) ESchema in Ok (data_type f)) column_names in
  converter_new types.

Definition get_column_arrays (b : Batch) (column_names : list string) : res (list Column) :=
  res_mapM (fun n => ok_or (column_by_name b n) ESchema) column_names.

(** [ColumnAsArray::get_array] *)
Definition get_array (b : Batch) (name : string) : res Column := ok_or (column_by_name b name) EArrow.

(** ** Keys and ordering values (record/mod.rs) *)
Definition create_record_key_converter (schema : list Field) : res (list DataType) := create_row_converter schema [RECORD_KEY].
Definition create_event_time_ordering_converter (schema : list Field) (ordering_field : string) : res (list DataType) :=
  create_row_converter schema [ordering_field].
Definition create_commit_time_ordering_converter (schema : list Field) : res (list DataType) := create_row_converter schema [COMMIT_TIME].

Definition extract_record_keys (converter : list DataType) (b : Batch) : res (list OwnedRow) :=
  let? columns := get_column_arrays b [RECORD_KEY] in convert_columns converter columns.

Definition extract_event_time_ordering_values (converter : list DataType) (b : Batch) (ordering_field : string) : res (list OwnedRow) :=
  let? columns := get_column_arrays b [ordering_field] in convert_columns converter columns.

Definition extract_commit_time_ordering_values (converter : list DataType) (b : Batch) : res (list OwnedRow) :=
  let? columns := get_column_arrays b [COMMIT_TIME] in convert_columns converter columns.

(** * The largest orderings of deletes (merge/ordering.rs) *)
Record MaxOrderingInfo := mkMaxOrdering {
  event_time_ordering : OwnedRow;
  commit_time_ordering : OwnedRow;
  event_time_zero : bool
}.

Definition is_greater_than (m : MaxOrderingInfo) (event_time commit_time : OwnedRow) : bool :=
  if event_time_zero m then row_gtb (commit_time_ordering m) commit_time
  else row_gtb (event_time_ordering m) event_time
       || (bool_decide (row_order (event_time_ordering m) event_time = Eq) && row_gtb (commit_time_ordering m) commit_time).

Definition is_integer_type (t : DataType) : bool :=
  match t with Int8 | Int16 | Int32 | Int64 | UInt8 | UInt16 | UInt32 | UInt64 => true | _ => false end.

(** [is_event_time_zero] of a row: its one column, back as an array *)
Definition is_event_time_zero (row : OwnedRow) (converter : list DataType) : res bool :=
  match converter, row with
  | [t], [v] =>
      Ok (is_integer_type t &&
          match v with
          | Some v => bool_decide (datum v = DInt 0)
          | None => null_slot t =? 0
          end)
  | _, _ => Panic
  end.

(** [HashMap<OwnedRow, MaxOrderingInfo>], in no order the code sees. *)
Abbreviation Orderings := (list (OwnedRow * MaxOrderingInfo)).

Definition ord_get (m : Orderings) (k : OwnedRow) : option MaxOrderingInfo := snd <$> find (fun e => bool_decide (e.1 = k)) m.

Definition ord_set (m : Orderings) (k : OwnedRow) (i : MaxOrderingInfo) : Orderings :=
  (k, i) :: filter (fun e => e.1 <> k) m.

Definition raise_ordering (info : MaxOrderingInfo) (event_time commit_time : OwnedRow) (zero : bool) : MaxOrderingInfo :=
  let info := if row_gtb event_time (event_time_ordering info) then mkMaxOrdering event_time (commit_time_ordering info) zero else info in
  if row_gtb commit_time (commit_time_ordering info) then mkMaxOrdering (event_time_ordering info) commit_time (event_time_zero info) else info.

Definition max_ordering_step (converter : list DataType) (m : Orderings) (row : OwnedRow * (OwnedRow * OwnedRow)) : res Orderings :=
  let '(key, (event_time, commit_time)) := row in
  let? zero := is_event_time_zero event_time converter in
  Ok (match ord_get m key with
      | Some info => ord_set m key (raise_ordering info event_time commit_time zero)
      | None => ord_set m key (mkMaxOrdering event_time commit_time zero)
      end).

(** [hudi_configs.get(OrderingFields)?.into()], and its first field *)
Definition first_ordering_field (configs : HudiConfigs) : res string :=
  let? fields := res_bind (of_parsed (get configs TableConfig.OrderingFields)) into_list in
  match fields with f :: _ => Ok f | [] => Panic end.

Definition process_batch_for_max_orderings (batch : Batch) (max_ordering : Orderings) (key_converter event_time_converter commit_time_converter : list DataType)
    (configs : HudiConfigs) : res Orderings :=
  if decide (ArrowFilter.num_rows batch = 0%nat) then Ok max_ordering
  else
    let? ordering_field := first_ordering_field configs in
    let? keys := extract_record_keys key_converter batch in
    let? event_times := extract_event_time_ordering_values event_time_converter batch ordering_field in
    let? commit_times := extract_commit_time_ordering_values commit_time_converter batch in
    res_fold (max_ordering_step event_time_converter) (zip keys (zip event_times commit_times)) max_ordering.

(** * The merge *)
Context {AB : ArrowBatch} {AR : ArrowRows} {AK : ArrowKernels} {BV : BatchViews}.

(** [concat_data_batches] *)
Definition concat_data_batches (b : RecordBatches) (s : ArrowKernels.Schema) : res RecordBatch :=
  if num_data_rows b =? 0 then Ok (new_empty s) else map_err EArrow (concat_batches s (data_batches b)).

(** [transform_delete_record_batch] *)
Definition transform_delete_record_batch (batch : RecordBatch) (commit_time ordering_field : string) (target : option DataType)
    : res RecordBatch :=
  let v := view batch in
  match columns v, batch_schema v with
  | record_key :: partition_path :: ordering :: _, _ :: _ :: ordering_field' :: _ =>
      let? ordering :=
        match target with
        | Some t => if decide (t <> data_type ordering_field') then map_err EArrow (cast_column ordering t) else Ok ordering
        | None => Ok ordering
        end in
      let n := ArrowFilter.num_rows v in
      map_err EArrow (of_view (ArrowFilter.mkBatch
        [ArrowFilter.mkField COMMIT_TIME Utf8; ArrowFilter.mkField RECORD_KEY Utf8; ArrowFilter.mkField PARTITION_PATH Utf8; ArrowFilter.mkField ordering_field (column_type ordering)]
        [mkColumn Utf8 (replicate n (Some (mkValue Utf8 (DBytes commit_time)))); record_key; partition_path; ordering] n))
  | _, _ => Panic
  end.

(** [concat_delete_batches_transformed]; the delete batches of a slice with delete rows *)
Definition concat_delete_batches_transformed (b : RecordBatches) (configs : HudiConfigs) (data_schema : list Field) (empty : ArrowKernels.Schema)
    : res RecordBatch :=
  let? ordering_field := first_ordering_field configs in
  if num_delete_rows b =? 0 then Ok (new_empty empty)
  else
    let target := data_type <$> field_with_name data_schema ordering_field in
    let? batches := res_mapM (fun p => transform_delete_record_batch p.1 p.2 ordering_field target) (delete_batches b) in
    match batches with
    | first :: _ => map_err EArrow (concat_batches (schema first) batches)
    | [] => Panic
    end.

(** [keys.row(idx)] and the like: an index beyond the rows panics. *)
Definition row_at {A} (o : option A) : res A := match o with Some a => Ok a | None => Panic end.

(** The closing loop: rows by descending order, the first of each key kept unless a delete is
    greater. *)
Fixpoint keep_mask (deletes : Orderings) (rows : list (OwnedRow * (OwnedRow * OwnedRow))) (last_key : option OwnedRow) : list bool :=
  match rows with
  | [] => []
  | (key, (event_time, commit_time)) :: rows =>
      (if decide (last_key = Some key) then false
       else match ord_get deletes key with Some d => negb (is_greater_than d event_time commit_time) | None => true end)
      :: keep_mask deletes rows (Some key)
  end.

(** [merge_record_batches]; [empty] is the schema without fields. *)
Definition merge_record_batches (configs : HudiConfigs) (s empty : ArrowKernels.Schema) (record_batches : RecordBatches) : res RecordBatch :=
  let? strategy := res_bind (get_or_default configs TableConfig.RecordMergeStrategy) into_string in
  let? strategy := of_parsed (merge_strategy_from_str strategy) in
  match strategy with
  | AppendOnly => concat_data_batches record_batches s
  | OverwriteWithLatest =>
      let? data_batch := concat_data_batches record_batches s in
      let v := view data_batch in
      if decide (ArrowFilter.num_rows v = 0%nat) then Ok data_batch
      else
        let? ordering_field := first_ordering_field configs in
        let? key_array := get_array v RECORD_KEY in
        let? ordering_array := get_array v ordering_field in
        let? commit_seqno_array := get_array v COMMIT_SEQNO in
        let? desc_indices := lexsort_to_indices [key_array; ordering_array; commit_seqno_array] true in
        let? key_converter := create_record_key_converter (batch_schema v) in
        let? event_time_converter := create_event_time_ordering_converter (batch_schema v) ordering_field in
        let? commit_time_converter := create_commit_time_ordering_converter (batch_schema v) in
        let? deletes :=
          if num_delete_rows record_batches =? 0 then Ok []
          else
            let? delete_batch := concat_delete_batches_transformed record_batches configs (batch_schema v) empty in
            process_batch_for_max_orderings (view delete_batch) [] key_converter event_time_converter commit_time_converter configs in
        let? keys := extract_record_keys key_converter v in
        let? event_times := extract_event_time_ordering_values event_time_converter v ordering_field in
        let? commit_times := extract_commit_time_ordering_values commit_time_converter v in
        let? sorted := res_mapM (fun i => row_at (zip keys (zip event_times commit_times) !! i)) desc_indices in
        map_err EArrow (take_record_batch data_batch (mask_rows (keep_mask deletes sorted None) desc_indices))
  end.
End rows.

(** * What the merge keeps *)

(** Rows of the same types are totally ordered: the documentation of Arrow's row format. *)
Class RowFormatLaws (RF : RowFormat) : Prop := {
  value_order_eq a b : value_type a = value_type b -> value_order a b = Eq <-> a = b;
  value_order_swap a b : value_type a = value_type b -> value_order b a = CompOpp (value_order a b);
  value_order_trans a b c : value_type a = value_type b -> value_type b = value_type c ->
    value_order a b <> Gt -> value_order b c <> Gt -> value_order a c <> Gt
}.

Definition slot_typed (t : DataType) (x : option Value) : Prop := forall v, x = Some v -> value_type v = t.
Definition row_typed (ts : list DataType) (r : OwnedRow) : Prop := Forall2 slot_typed ts r.

Section order.
Context {RF : RowFormat} {RL : RowFormatLaws RF}.

Lemma opt_order_eq t a b : slot_typed t a -> slot_typed t b -> opt_order a b = Eq <-> a = b.
Proof.
  intros Ha Hb. destruct a as [a|], b as [b|]; cbn; try done. rewrite value_order_eq by by rewrite (Ha a), (Hb b).
  split; [by intros ->|by intros [=]].
Qed.

Lemma opt_order_swap t a b : slot_typed t a -> slot_typed t b -> opt_order b a = CompOpp (opt_order a b).
Proof. intros Ha Hb. destruct a as [a|], b as [b|]; cbn; try done. apply value_order_swap. by rewrite (Ha a), (Hb b). Qed.

Lemma opt_order_trans t a b c : slot_typed t a -> slot_typed t b -> slot_typed t c ->
  opt_order a b <> Gt -> opt_order b c <> Gt -> opt_order a c <> Gt.
Proof.
  intros Ha Hb Hc. destruct a as [a|], b as [b|], c as [c|]; cbn; try done. apply value_order_trans; by rewrite ?(Ha a), ?(Hb b), ?(Hc c).
Qed.

Lemma row_order_eq ts : forall a b, row_typed ts a -> row_typed ts b -> row_order a b = Eq <-> a = b.
Proof.
  induction ts as [|t ts IH]; intros a b Ha Hb; inversion Ha; inversion Hb; subst; cbn; [done|].
  pose proof (opt_order_eq t y y0) as He. destruct (opt_order y y0) eqn:E.
  - rewrite IH by done. assert (y = y0) as -> by by apply He. split; [by intros ->|by intros [=]].
  - split; [done|]. intros [= -> _]. by assert (Lt = Eq) by by apply He.
  - split; [done|]. intros [= -> _]. by assert (Gt = Eq) by by apply He.
Qed.

Lemma row_order_swap ts : forall a b, row_typed ts a -> row_typed ts b -> row_order b a = CompOpp (row_order a b).
Proof.
  induction ts as [|t ts IH]; intros a b Ha Hb; inversion Ha; inversion Hb; subst; cbn; [done|].
  rewrite (opt_order_swap t y y0) by done. destruct (opt_order y y0); cbn; [by apply IH|done..].
Qed.

Lemma row_order_trans ts : forall a b c, row_typed ts a -> row_typed ts b -> row_typed ts c ->
  row_order a b <> Gt -> row_order b c <> Gt -> row_order a c <> Gt.
Proof.
  induction ts as [|t ts IH]; intros a b c Ha Hb Hc; inversion Ha as [|? x ? a']; inversion Hb as [|? y ? b']; inversion Hc as [|? z ? c']; subst; cbn; [done|].
  pose proof (opt_order_trans t x y z) as Ht. pose proof (opt_order_eq t x y) as Hxy. pose proof (opt_order_eq t y z) as Hyz.
  destruct (opt_order x y) eqn:E1; [assert (x = y) as -> by by apply Hxy| |done].
  - destruct (opt_order y z) eqn:E2; [|done..]. by apply (IH a' b' c').
  - destruct (opt_order y z) eqn:E2; [assert (y = z) as -> by by apply Hyz| |done]; [by rewrite E1|].
    intros H1 H2. pose proof (opt_order_eq t x z) as Hxz. destruct (opt_order x z) eqn:E3; [|done|by apply Ht].
    assert (x = z) as -> by by apply Hxz. rewrite (opt_order_swap t y z), E2 in E1 by done. done.
Qed.

Lemma row_gtb_spec a b : row_gtb a b = true <-> row_order a b = Gt.
Proof. unfold row_gtb. by rewrite bool_decide_eq_true. Qed.
End order.

Lemma mask_rows_sublist {A} : forall (mask : list bool) (l : list A), sublist (mask_rows mask l) l.
Proof.
  intros m. induction m as [|b m IH]; intros [|x l]; try apply sublist_nil_l. cbn. destruct b; [by apply sublist_skip|by apply sublist_cons].
Qed.

Lemma mask_rows_nodup {A} (mask : list bool) (l : list A) : NoDup l -> NoDup (mask_rows mask l).
Proof. intros Hl. eapply sublist_NoDup; [done|apply mask_rows_sublist]. Qed.

(** ** The first of each key *)
Section kept.
Context {RF : RowFormat} (deletes : list (OwnedRow * MaxOrderingInfo)) {A : Type} (row : A -> OwnedRow * (OwnedRow * OwnedRow)).

(** No delete of the row's key is greater. *)
Definition alive (r : OwnedRow * (OwnedRow * OwnedRow)) : Prop :=
  match ord_get deletes r.1 with Some d => is_greater_than d r.2.1 r.2.2 = false | None => True end.

(** Rows between two of a key have that key. *)
Definition keys_grouped (l : list A) : Prop :=
  forall i j k x y z, (i < j < k)%nat -> l !! i = Some x -> l !! j = Some y -> l !! k = Some z -> (row x).1 = (row z).1 -> (row y).1 = (row x).1.

Lemma kept_rows l : forall last, NoDup l -> keys_grouped l ->
  (forall k i j y z, last = Some k -> (i < j)%nat -> l !! i = Some y -> l !! j = Some z -> (row z).1 = k -> (row y).1 = k) ->
  forall x, x ∈ mask_rows (keep_mask deletes (row <$> l) last) l <->
    alive (row x) /\ last <> Some (row x).1 /\ exists i, l !! i = Some x /\ forall j y, (j < i)%nat -> l !! j = Some y -> (row y).1 <> (row x).1.
Proof.
  induction l as [|x0 l IH]; intros last Hnd Hg Hlast x.
  { cbn. split; [by intros ?%not_elem_of_nil|]. by intros (_ & _ & i & Hi & _). }
  apply list.NoDup_cons in Hnd as [Hx0 Hnd]. rewrite fmap_cons. destruct (row x0) as [key [e c]] eqn:Er.
  cbn [keep_mask mask_rows].
  assert (Hin : x ∈ mask_rows (keep_mask deletes (row <$> l) (Some key)) l <->
    alive (row x) /\ key <> (row x).1 /\ exists i, l !! i = Some x /\ forall j y, (j < i)%nat -> l !! j = Some y -> (row y).1 <> (row x).1).
  { rewrite IH; [|done| |].
    - split; intros (H1 & H2 & H3); (split; [done|]; split; [|done]); congruence.
    - intros i j k a b d Hij Ha Hb Hd. apply (Hg (S i) (S j) (S k)); [lia|done..].
    - intros k i j y z [= <-] Hij Hy Hz Hk. pose proof (Hg 0%nat (S i) (S j) x0 y z) as H. rewrite Er in H. cbn in H. apply H; [lia|done..]. }
  set (b := if decide (last = Some key) then false else _).
  assert (Hb : b = true <-> alive (row x0) /\ last <> Some key).
  { subst b. unfold alive. rewrite Er. cbn [fst snd]. case_decide as E; [by split; [|intros [_ ?]]|].
    destruct (ord_get deletes key) as [d|]; [|by split]. destruct (is_greater_than d e c); naive_solver. }
  trans (b = true /\ x = x0 \/ x ∈ mask_rows (keep_mask deletes (row <$> l) (Some key)) l).
  { destruct b; [rewrite elem_of_cons|]; naive_solver. }
  rewrite Hb, Hin. split.
  - intros [[[Ha Hl] ->]|(Ha & Hk & i & Hi & Hf)].
    + split; [done|]. rewrite Er. split; [done|]. exists 0%nat. split; [done|]. intros j y Hj. lia.
    + split; [done|]. split.
      * intros Hl. apply Hk. pose proof (Hlast (row x).1 0%nat (S i) x0 x) as H. rewrite Er in H. apply H; [done|lia|done..].
      * exists (S i). split; [done|]. intros [|j] y Hj Hy; [injection Hy as <-; by rewrite Er|]. apply (Hf j); [lia|done].
  - intros (Ha & Hl & i & Hi & Hf). destruct i as [|i].
    + left. injection Hi as <-. rewrite Er in Hl. done.
    + right. split; [done|]. split.
      * intros E. apply (Hf 0%nat x0); [lia|done|]. by rewrite Er.
      * exists i. split; [done|]. intros j y Hj Hy. apply (Hf (S j)); [lia|done].
Qed.
End kept.

(** ** The sorted rows *)
Section sorted.
Context {RF : RowFormat} {RL : RowFormatLaws RF}.
Context (kc oc sc : Column) (n : nat).

Definition slot (c : Column) (i : nat) : option Value := default None (column_values c !! i).
Definition sort_row (i : nat) : OwnedRow := [slot kc i; slot oc i; slot sc i].

Definition column_ok (c : Column) : Prop := length (column_values c) = n /\ well_typed c.

Context (Hk : column_ok kc) (Ho : column_ok oc) (Hs : column_ok sc).

Lemma slot_ok c i : column_ok c -> slot_typed (column_type c) (slot c i).
Proof.
  intros [_ Ht] v Hv. unfold slot in Hv. destruct (column_values c !! i) as [x|] eqn:E; [|done]. cbn in Hv. subst x.
  unfold well_typed in Ht. rewrite list.Forall_forall in Ht. by apply (Ht (Some v)); [apply list_elem_of_lookup_2 with i|].
Qed.

Lemma sort_row_ok i : row_typed [column_type kc; column_type oc; column_type sc] (sort_row i).
Proof. repeat constructor; by apply slot_ok. Qed.

Lemma sort_swap i j : row_order (sort_row j) (sort_row i) = CompOpp (row_order (sort_row i) (sort_row j)).
Proof. eapply row_order_swap; apply sort_row_ok. Qed.

Definition indexed : list (nat * OwnedRow) := (fun i => (i, sort_row i)) <$> seq 0 n.

Lemma imap_rows : imap pair (rows_at [kc; oc; sc] n) = indexed.
Proof.
  unfold rows_at, indexed. rewrite imap_fmap. change (fun i x => (i, _)) with (fun (i : nat) x => (i, sort_row x)).
  apply list_eq. intros i. rewrite list_lookup_imap, list_lookup_fmap. destruct (seq 0 n !! i) as [x|] eqn:E; [|done].
  apply lookup_seq in E as [-> _]. done.
Qed.

Lemma lex_total : total_preorder (lex_cmp true) indexed.
Proof.
  assert (Hin : forall p, p ∈ indexed -> p.2 = sort_row p.1) by by intros p (i & -> & _)%list_elem_of_fmap.
  split.
  - intros [i x] [j y] Hx%Hin Hy%Hin. cbn in *. subst. unfold lex_cmp. cbn [fst snd]. rewrite (sort_swap i j).
    destruct (row_order (sort_row i) (sort_row j)); cbn; [apply Nat.compare_antisym|done..].
  - intros [i x] [j y] [k z] Hx%Hin Hy%Hin Hz%Hin. cbn in *. subst. unfold lex_cmp. cbn [fst snd].
    pose proof (row_order_trans _ _ _ _ (sort_row_ok k) (sort_row_ok j) (sort_row_ok i)) as Ht.
    pose proof (row_order_eq _ _ _ (sort_row_ok j) (sort_row_ok i)) as Hji. pose proof (row_order_eq _ _ _ (sort_row_ok k) (sort_row_ok j)) as Hkj.
    pose proof (row_order_eq _ _ _ (sort_row_ok k) (sort_row_ok i)) as Hki.
    destruct (row_order (sort_row j) (sort_row i)) eqn:E1; [apply proj1 in Hji; rewrite (Hji eq_refl) in *| |done].
    + destruct (row_order (sort_row k) (sort_row i)); [|done..]. rewrite !Nat.compare_ngt_iff. lia.
    + destruct (row_order (sort_row k) (sort_row j)) eqn:E2; [apply proj1 in Hkj; rewrite (Hkj eq_refl) in *; by rewrite E1| |done].
      intros _ _. destruct (row_order (sort_row k) (sort_row i)) eqn:E3; [|done|by apply Ht].
      apply proj1 in Hki. rewrite (Hki eq_refl), sort_swap, E1 in E2. done.
Qed.

Definition sorted_indices : list nat := (stable_sort (lex_cmp true) indexed).*1.

Lemma indexed_fst : indexed.*1 = seq 0 n.
Proof. unfold indexed. rewrite <- list_fmap_compose. by rewrite list_fmap_id. Qed.

Lemma sorted_indices_perm : sorted_indices ≡ₚ seq 0 n.
Proof. unfold sorted_indices. by rewrite (stable_sort_perm (lex_cmp true) indexed), indexed_fst. Qed.

Lemma sorted_indices_le i j x y : (i < j)%nat -> sorted_indices !! i = Some x -> sorted_indices !! j = Some y ->
  lex_cmp true (x, sort_row x) (y, sort_row y) <> Gt.
Proof.
  intros Hij Hx Hy. unfold sorted_indices in *. rewrite list_lookup_fmap in Hx, Hy.
  destruct (stable_sort _ _ !! i) as [[x' rx]|] eqn:Ex; [|done]. destruct (stable_sort _ _ !! j) as [[y' ry]|] eqn:Ey; [|done].
  injection Hx as ->. injection Hy as ->.
  assert (Hin : forall p, p ∈ stable_sort (lex_cmp true) indexed -> p.2 = sort_row p.1)
    by by intros p; rewrite (stable_sort_perm (lex_cmp true) indexed); intros (k & -> & _)%list_elem_of_fmap.
  pose proof (Hin _ (list_elem_of_lookup_2 _ _ _ Ex)) as Hx. pose proof (Hin _ (list_elem_of_lookup_2 _ _ _ Ey)) as Hy. cbn in Hx, Hy. subst.
  apply (sorted_lookup (fun a b => lex_cmp true a b <> Gt) (stable_sort (lex_cmp true) indexed) i j); [by apply stable_sort_sorted, lex_total|done..].
Qed.

(** A row is later than another: greater in the ordering field, then in the sequence number,
    and then the one that comes first. *)
Definition later (i j : nat) : Prop :=
  match row_order [slot oc i; slot sc i] [slot oc j; slot sc j] with Gt => True | Eq => (i < j)%nat | Lt => False end.

Lemma lex_same_key i j : slot kc i = slot kc j ->
  lex_cmp true (i, sort_row i) (j, sort_row j)
  = match row_order [slot oc j; slot sc j] [slot oc i; slot sc i] with Eq => Nat.compare i j | c => c end.
Proof.
  intros E. unfold lex_cmp, sort_row. cbn [fst snd]. cbn [row_order]. rewrite E.
  pose proof (proj2 (opt_order_eq (column_type kc) (slot kc j) (slot kc j) (slot_ok _ _ Hk) (slot_ok _ _ Hk)) eq_refl) as ->. done.
Qed.

Lemma later_lex i j : slot kc i = slot kc j -> i <> j -> later i j <-> lex_cmp true (i, sort_row i) (j, sort_row j) <> Gt.
Proof.
  intros E Hij. rewrite lex_same_key by done. unfold later.
  rewrite (row_order_swap [column_type oc; column_type sc] [slot oc j; slot sc j] [slot oc i; slot sc i]) by (repeat constructor; by apply slot_ok).
  destruct (row_order [slot oc j; _] _); cbn; [rewrite Nat.compare_ngt_iff; lia|by split..].
Qed.

Lemma lex_antisym i j : lex_cmp true (i, sort_row i) (j, sort_row j) <> Gt -> lex_cmp true (j, sort_row j) (i, sort_row i) <> Gt -> i = j.
Proof.
  unfold lex_cmp. cbn [fst snd]. rewrite (sort_swap j i). destruct (row_order (sort_row j) (sort_row i)); cbn; try done.
  rewrite !Nat.compare_ngt_iff. lia.
Qed.

(** Keys are grouped. *)
Lemma sorted_grouped (f : nat -> OwnedRow * (OwnedRow * OwnedRow)) : (forall i, (f i).1 = [slot kc i]) -> keys_grouped f sorted_indices.
Proof.
  intros Hf i j k x y z [Hij Hjk] Hx Hy Hz. rewrite !Hf. intros [= E]. f_equal.
  pose proof (sorted_indices_le i j x y Hij Hx Hy) as H1. pose proof (sorted_indices_le j k y z Hjk Hy Hz) as H2.
  assert (Hhead : forall a b, lex_cmp true (a, sort_row a) (b, sort_row b) <> Gt -> opt_order (slot kc b) (slot kc a) <> Gt).
  { intros a b. unfold lex_cmp, sort_row. cbn [fst snd row_order]. by destruct (opt_order _ (slot kc a)). }
  apply Hhead in H1, H2. rewrite <- E in H2. pose proof (slot_ok kc) as Ht.
  rewrite (opt_order_swap (column_type kc) (slot kc y) (slot kc x)) in H2 by by apply Ht.
  pose proof (opt_order_eq (column_type kc) (slot kc y) (slot kc x) (Ht _ Hk) (Ht _ Hk)) as He. by destruct (opt_order (slot kc y) (slot kc x)); [apply He|..].
Qed.

(** The rows that are kept: of each key the latest, unless it is deleted. *)
Lemma kept_sorted deletes (f : nat -> OwnedRow * (OwnedRow * OwnedRow)) : (forall i, (f i).1 = [slot kc i]) ->
  forall i, i ∈ mask_rows (keep_mask deletes (f <$> sorted_indices) None) sorted_indices <->
    (i < n)%nat /\ alive deletes (f i) /\ forall j, (j < n)%nat -> j <> i -> slot kc j = slot kc i -> later i j.
Proof.
  intros Hf i. assert (Hnd : NoDup sorted_indices) by (rewrite sorted_indices_perm; apply NoDup_seq).
  assert (Hin : forall x, x ∈ sorted_indices <-> (x < n)%nat) by (intros x; rewrite sorted_indices_perm, elem_of_seq; lia).
  rewrite (kept_rows deletes f sorted_indices None Hnd (sorted_grouped f Hf)) by done. rewrite Hf. split.
  - intros (Ha & _ & p & Hp & Hfirst). split; [by apply Hin, list_elem_of_lookup_2 with p|]. split; [done|]. intros j Hj Hji E.
    apply later_lex; [done..|]. apply Hin, list_elem_of_lookup in Hj as [q Hq].
    assert (q <> p) by (intros ->; congruence). destruct (decide (p < q)%nat); [by apply (sorted_indices_le p q)|].
    exfalso. apply (Hfirst q j); [lia|done|]. by rewrite Hf, E.
  - intros (Hi & Ha & Hlate). split; [done|]. split; [done|]. apply Hin, list_elem_of_lookup in Hi as [p Hp]. exists p. split; [done|].
    intros q y Hq Hy. rewrite Hf. intros [= E]. assert (Hyi : y <> i) by (intros ->; pose proof (NoDup_lookup _ _ _ _ Hnd Hy Hp); lia).
    apply Hyi. apply lex_antisym; [by apply (sorted_indices_le q p)|]. apply later_lex; [done..|]. apply Hlate; [|done..].
    by apply Hin, list_elem_of_lookup_2 with q.
Qed.
End sorted.

(** ** The orderings of deletes *)
Section maxima.
Context {RF : RowFormat} {RL : RowFormatLaws RF}.

Lemma ord_get_set m k i k' : ord_get (ord_set m k i) k' = if decide (k' = k) then Some i else ord_get m k'.
Proof.
  unfold ord_get, ord_set. cbn [find fst]. case_decide as E; [subst; by rewrite bool_decide_true|]. rewrite bool_decide_false by done.
  f_equal. induction m as [|[k0 x] m IH]; [done|]. rewrite filter_cons. cbn [fst find]. case_decide as E0; cbn [find fst].
  - by rewrite IH.
  - rewrite IH, bool_decide_false; [done|]. intros ->. by destruct E0.
Qed.

Definition is_max (l : list OwnedRow) (m : OwnedRow) : Prop := m ∈ l /\ forall x, x ∈ l -> row_order x m <> Gt.

Lemma is_max_snoc ts l m x : (forall y, y ∈ l -> row_typed ts y) -> row_typed ts x -> is_max l m ->
  is_max (l ++ [x]) (if row_gtb x m then x else m).
Proof.
  intros Hl Hx [Hm Hmax]. pose proof (Hl m Hm) as Htm.
  assert (Hxx : row_order x x = Eq) by by apply (row_order_eq ts).
  unfold row_gtb. case_bool_decide as E; (split; [apply elem_of_app; first [by left|right; by left]|]); intros y [Hy|Hy%list_elem_of_singleton]%elem_of_app.
  - apply (row_order_trans ts y m x); [by apply Hl|done|done|by apply Hmax|]. rewrite (row_order_swap ts x m), E by done. done.
  - subst y. by rewrite Hxx.
  - by apply Hmax.
  - by subst y.
Qed.

Lemma is_max_single ts x : row_typed ts x -> is_max [x] x.
Proof. intros Hx. split; [by left|]. intros y ->%list_elem_of_singleton. by rewrite (proj2 (row_order_eq ts x x Hx Hx) eq_refl). Qed.

Abbreviation DeleteRow := (OwnedRow * (OwnedRow * OwnedRow))%type.

Definition of_key (k : OwnedRow) (l : list DeleteRow) : list (OwnedRow * OwnedRow) := (filter (fun r => r.1 = k) l).*2.

Lemma of_key_snoc k l r : of_key k (l ++ [r]) = of_key k l ++ (if decide (r.1 = k) then [r.2] else []).
Proof. unfold of_key. rewrite list.filter_app, fmap_app, list.filter_cons, list.filter_nil. by case_decide. Qed.

(** For each key the largest event time and the largest commit time, which need not be of one
    delete. *)
Definition max_orderings_of (converter : list DataType) (l : list DeleteRow) (m : list (OwnedRow * MaxOrderingInfo)) : Prop :=
  forall k, match ord_get m k with
            | None => of_key k l = []
            | Some d => is_max (of_key k l).*1 (event_time_ordering d) /\ is_max (of_key k l).*2 (commit_time_ordering d) /\
                is_event_time_zero (event_time_ordering d) converter = Ok (event_time_zero d)
            end.

Lemma max_ordering_step_ok te tc converter l m r m' :
  (forall x, x ∈ l ++ [r] -> row_typed te x.2.1 /\ row_typed tc x.2.2) ->
  max_orderings_of converter l m -> max_ordering_step converter m r = Ok m' -> max_orderings_of converter (l ++ [r]) m'.
Proof.
  intros Ht Hm. destruct r as [key [e c]]. unfold max_ordering_step. intros (zero & Hz & H)%res_bind_Ok.
  destruct (Ht (key, (e, c))) as [Hte Htc]; [apply elem_of_app; right; by left|]. cbn [fst snd] in Hte, Htc.
  assert (Hin : forall k x, x ∈ of_key k l -> row_typed te x.1 /\ row_typed tc x.2).
  { intros k x Hx. unfold of_key in Hx. apply list_elem_of_fmap in Hx as ((k' & x') & -> & [_ Hx]%list_elem_of_filter).
    apply (Ht (k', x')), elem_of_app. by left. }
  intros k. rewrite of_key_snoc. cbn [fst snd]. pose proof (Hm key) as Hkey.
  destruct (ord_get m key) as [d|] eqn:Ed; injection H as <-; rewrite ord_get_set.
  - case_decide as Ek; [subst k|rewrite decide_False by done; rewrite app_nil_r; apply Hm]. rewrite decide_True by done.
    destruct Hkey as (He & Hc & Hzd). rewrite !fmap_app. cbn [fmap list_fmap fst snd].
    apply (is_max_snoc te _ _ e) in He; [|by intros y (x & -> & Hx)%list_elem_of_fmap; apply (Hin key x)|done].
    apply (is_max_snoc tc _ _ c) in Hc; [|by intros y (x & -> & Hx)%list_elem_of_fmap; apply (Hin key x)|done].
    unfold raise_ordering. destruct (row_gtb e (event_time_ordering d)); cbn [commit_time_ordering event_time_ordering event_time_zero];
      destruct (row_gtb c (commit_time_ordering d)); by cbn.
  - case_decide as Ek; [subst k|rewrite decide_False by done; rewrite app_nil_r; apply Hm]. rewrite decide_True, Hkey by done. cbn.
    split_and!; [by apply (is_max_single te)|by apply (is_max_single tc)|done].
Qed.

Lemma max_orderings_fold te tc converter rows : forall l m m',
  (forall x, x ∈ l ++ rows -> row_typed te x.2.1 /\ row_typed tc x.2.2) ->
  max_orderings_of converter l m -> res_fold (max_ordering_step converter) rows m = Ok m' -> max_orderings_of converter (l ++ rows) m'.
Proof.
  induction rows as [|r rows IH]; intros l m m' Ht Hm H; cbn [res_fold] in H; [injection H as <-; by rewrite app_nil_r|].
  apply res_bind_Ok in H as (m1 & H1 & H). change (r :: rows) with ([r] ++ rows) in *. rewrite (assoc_L (++)) in *.
  apply (IH _ m1); [done| |done]. apply (max_ordering_step_ok te tc converter l m); [|done..].
  intros x Hx. apply Ht, elem_of_app. by left.
Qed.
End maxima.

(** ** The merge *)
Section merge.
Context {RF : RowFormat} {RL : RowFormatLaws RF} {AB : ArrowBatch} {AR : ArrowRows} {AK : ArrowKernels} {BV : BatchViews}.

(** A column of a batch: of the type of its field, with a value for each row. *)
Record has_column_of (b : Batch) (name : string) (c : Column) : Prop := {
  hc_column : column_by_name b name = Some c;
  hc_type : data_type <$> field_with_name (batch_schema b) name = Some (column_type c);
  hc_ok : column_ok (ArrowFilter.num_rows b) c;
  hc_supported : row_supported (column_type c) = true
}.

Lemma converter_of b name c : has_column_of b name c -> create_row_converter (batch_schema b) [name] = Ok [column_type c].
Proof.
  intros []. unfold create_row_converter. cbn [res_mapM]. destruct (field_with_name _ _) as [f|]; [|done]. injection hc_type0 as E.
  cbn [ok_or res_bind]. rewrite E. unfold converter_new. cbn [forallb]. by rewrite hc_supported0.
Qed.

Lemma rows_of_column b name c : has_column_of b name c ->
  (let? columns := get_column_arrays b [name] in convert_columns [column_type c] columns)
  = Ok ((fun i => [slot c i]) <$> seq 0 (ArrowFilter.num_rows b)).
Proof.
  intros [Hc _ [Hl _] _]. unfold get_column_arrays. cbn [res_mapM]. rewrite Hc. cbn [ok_or res_bind]. unfold convert_columns. cbn.
  rewrite decide_True by done. by rewrite Hl.
Qed.

(** The rows of a batch: key, ordering value and commit time. *)
Definition merge_row (kc oc cc : Column) (i : nat) : OwnedRow * (OwnedRow * OwnedRow) := ([slot kc i], ([slot oc i], [slot cc i])).

Lemma zip_rows kc oc cc n :
  zip ((fun i => [slot kc i]) <$> seq 0 n) (zip ((fun i => [slot oc i]) <$> seq 0 n) ((fun i => [slot cc i]) <$> seq 0 n))
  = merge_row kc oc cc <$> seq 0 n.
Proof. induction (seq 0 n) as [|i l IH]; [done|]. cbn. by rewrite IH. Qed.

Lemma sorting_indices b ordering_field kc oc sc : has_column_of b RECORD_KEY kc -> has_column_of b ordering_field oc ->
  has_column_of b COMMIT_SEQNO sc -> Z.of_nat (ArrowFilter.num_rows b) <= 2 ^ 32 ->
  lexsort_to_indices [kc; oc; sc] true = Ok (sorted_indices kc oc sc (ArrowFilter.num_rows b)).
Proof.
  intros [_ _ Hk Sk] [_ _ Ho So] [_ _ Hs Ss] Hn. unfold lexsort_to_indices, converter_new. cbn [fmap list_fmap forallb]. rewrite Sk, So, Ss. cbn [andb res_bind].
  unfold convert_columns. rewrite decide_True by done. destruct Hk as [Hk Hkt]. rewrite Hk, imap_rows. f_equal. unfold sorted_indices.
  apply list_fmap_ext. intros i [j r] Hj. cbn [fst]. unfold as_u32. rewrite Z.mod_small; [lia|].
  apply list_elem_of_lookup_2 in Hj. rewrite (stable_sort_perm (lex_cmp true) _) in Hj. apply list_elem_of_fmap in Hj as (k & [= -> ->] & Hk'%elem_of_seq). lia.
Qed.

Lemma rows_at_indices (rows : list (OwnedRow * (OwnedRow * OwnedRow))) f n l : rows = f <$> seq 0 n -> (forall i, i ∈ l -> (i < n)%nat) ->
  res_mapM (fun i => row_at (rows !! i)) l = Ok (f <$> l).
Proof.
  intros -> Hl. induction l as [|i l IH]; [done|]. cbn [res_mapM]. rewrite list_lookup_fmap, lookup_seq_lt by (apply Hl; by left). cbn [fmap option_fmap option_map row_at res_bind Nat.add].
  rewrite IH; [done|]. intros j Hj. apply Hl. by right.
Qed.

(** The largest orderings of a batch of deletes. *)
Lemma delete_orderings_of b ordering_field configs dk dor dc kt ot ct :
  first_ordering_field configs = Ok ordering_field -> has_column_of b RECORD_KEY dk -> has_column_of b ordering_field dor ->
  has_column_of b COMMIT_TIME dc -> column_type dk = kt -> column_type dor = ot -> column_type dc = ct ->
  exists deletes, process_batch_for_max_orderings b [] [kt] [ot] [ct] configs = Ok deletes /\
    max_orderings_of [ot] (merge_row dk dor dc <$> seq 0 (ArrowFilter.num_rows b)) deletes.
Proof.
  intros Hf Hk Ho Hc <- <- <-. unfold process_batch_for_max_orderings. case_decide as E.
  { exists []. split; [done|]. rewrite E. by intros k. }
  rewrite Hf. cbn [res_bind]. unfold extract_record_keys, extract_event_time_ordering_values, extract_commit_time_ordering_values.
  rewrite (rows_of_column _ _ _ Hk), (rows_of_column _ _ _ Ho), (rows_of_column _ _ _ Hc). cbn [res_bind]. rewrite zip_rows.
  set (rows := merge_row dk dor dc <$> _).
  assert (Hone : forall x, x ∈ rows -> exists i, x = merge_row dk dor dc i) by (intros x (i & -> & _)%list_elem_of_fmap; by exists i).
  assert (Hok : forall m, exists deletes, res_fold (max_ordering_step [column_type dor]) rows m = Ok deletes).
  { clearbody rows. induction rows as [|r rows IH]; intros m; [by eexists|]. cbn [res_fold].
    destruct (Hone r) as [i ->]; [by left|]. unfold merge_row, max_ordering_step at 1. cbn [is_event_time_zero res_bind].
    destruct (ord_get m _); cbn [res_bind]; apply IH; intros x Hx; apply Hone; by right. }
  destruct (Hok []) as [deletes Hd]. exists deletes. split; [done|].
  apply (max_orderings_fold [column_type dor] [column_type dc] [column_type dor] rows [] []); [|by intros k|done].
  intros x [i ->]%Hone. cbn. split; (constructor; [eapply slot_ok, hc_ok; eassumption|constructor]).
Qed.

(** The deletes of the merge. *)
Definition deletes_of (record_batches : RecordBatches) (configs : HudiConfigs) (empty : ArrowKernels.Schema) (v : Batch) (ordering_field : string)
    (kc oc cc : Column) (rows : list (OwnedRow * (OwnedRow * OwnedRow))) : Prop :=
  (num_delete_rows record_batches = 0 /\ rows = [])
  \/ num_delete_rows record_batches <> 0 /\
     exists delete_batch dk dor dc, concat_delete_batches_transformed record_batches configs (batch_schema v) empty = Ok delete_batch /\
       has_column_of (view delete_batch) RECORD_KEY dk /\ has_column_of (view delete_batch) ordering_field dor /\
       has_column_of (view delete_batch) COMMIT_TIME dc /\
       column_type dk = column_type kc /\ column_type dor = column_type oc /\ column_type dc = column_type cc /\
       rows = merge_row dk dor dc <$> seq 0 (ArrowFilter.num_rows (view delete_batch)).

Lemma deletes_processed record_batches configs empty v ordering_field kc oc cc rows :
  first_ordering_field configs = Ok ordering_field -> deletes_of record_batches configs empty v ordering_field kc oc cc rows ->
  exists deletes,
    (if num_delete_rows record_batches =? 0 then Ok []
     else let? delete_batch := concat_delete_batches_transformed record_batches configs (batch_schema v) empty in
          process_batch_for_max_orderings (view delete_batch) [] [column_type kc] [column_type oc] [column_type cc] configs) = Ok deletes /\
    max_orderings_of [column_type oc] rows deletes.
Proof.
  intros Hf [[-> ->]|(Hn & d & dk & dor & dc & -> & Hk & Ho & Hc & Ek & Eo & Ec & ->)]; [exists []; split; [done|by intros k]|].
  rewrite (proj2 (Z.eqb_neq _ _) Hn). cbn [res_bind]. by apply (delete_orderings_of _ ordering_field).
Qed.

(** C3: With latest-wins the merge takes, of each key, the latest row, unless a delete of the key
    is greater; deletes are greater by the largest of their event times and the largest of
    their commit times. *)
Theorem overwrite_with_latest_spec configs s empty record_batches data ordering_field kc oc sc cc rows :
  (let? strategy := res_bind (get_or_default configs TableConfig.RecordMergeStrategy) into_string in of_parsed (merge_strategy_from_str strategy))
  = Ok OverwriteWithLatest ->
  concat_data_batches record_batches s = Ok data ->
  first_ordering_field configs = Ok ordering_field ->
  has_column_of (view data) RECORD_KEY kc -> has_column_of (view data) ordering_field oc ->
  has_column_of (view data) COMMIT_SEQNO sc -> has_column_of (view data) COMMIT_TIME cc ->
  Z.of_nat (ArrowFilter.num_rows (view data)) <= 2 ^ 32 ->
  deletes_of record_batches configs empty (view data) ordering_field kc oc cc rows ->
  exists deletes kept, max_orderings_of [column_type oc] rows deletes /\ NoDup kept /\
    (forall i, i ∈ kept <-> (i < ArrowFilter.num_rows (view data))%nat /\ alive deletes (merge_row kc oc cc i) /\
       forall j, (j < ArrowFilter.num_rows (view data))%nat -> j <> i -> slot kc j = slot kc i -> later oc sc i j) /\
    merge_record_batches configs s empty record_batches
    = if decide (ArrowFilter.num_rows (view data) = 0%nat) then Ok data else map_err EArrow (take_record_batch data kept).
Proof.
  intros Hs Hd Hf Hk Ho Hq Hc Hn Hdel. destruct (deletes_processed _ _ _ _ _ _ _ _ _ Hf Hdel) as (deletes & Hdp & Hmax).
  set (n := ArrowFilter.num_rows (view data)) in *. exists deletes.
  exists (mask_rows (keep_mask deletes (merge_row kc oc cc <$> sorted_indices kc oc sc n) None) (sorted_indices kc oc sc n)).
  split; [done|]. split; [|split].
  - apply mask_rows_nodup. rewrite sorted_indices_perm. apply NoDup_seq.
  - intros i. by apply kept_sorted; [apply (hc_ok _ _ _ Hk)|apply (hc_ok _ _ _ Ho)|apply (hc_ok _ _ _ Hq)|].
  - unfold merge_record_batches. apply res_bind_Ok in Hs as (name & -> & Hs). cbn [res_bind]. rewrite Hs. cbn [res_bind].
    rewrite Hd. cbn [res_bind]. fold n. case_decide as E; [done|]. rewrite Hf. cbn [res_bind]. unfold get_array.
    rewrite (hc_column _ _ _ Hk), (hc_column _ _ _ Ho), (hc_column _ _ _ Hq). cbn [ok_or res_bind].
    pose proof (sorting_indices _ _ _ _ _ Hk Ho Hq Hn) as Hsort. fold n in Hsort. rewrite Hsort. cbn [res_bind].
    unfold create_record_key_converter, create_event_time_ordering_converter, create_commit_time_ordering_converter.
    rewrite (converter_of _ _ _ Hk), (converter_of _ _ _ Ho), (converter_of _ _ _ Hc). cbn [res_bind]. rewrite Hdp. cbn [res_bind].
    unfold extract_record_keys, extract_event_time_ordering_values, extract_commit_time_ordering_values.
    rewrite (rows_of_column _ _ _ Hk), (rows_of_column _ _ _ Ho), (rows_of_column _ _ _ Hc). cbn [res_bind]. rewrite zip_rows.
    rewrite (rows_at_indices _ (merge_row kc oc cc) n); [done|done|].
    intros i Hi. rewrite sorted_indices_perm, elem_of_seq in Hi. lia.
Qed.
End merge.

(** * A sample of the library *)
Module SampleMergeV1.
Import ArrowFilter.SampleScalars.

#[export] Instance batches : ArrowBatch := {| RecordBatch := Batch; RecordBatches.num_rows b := Z.of_nat (ArrowFilter.num_rows b) |}.

Definition take_column (c : Column) (l : list nat) : Column := mkColumn (column_type c) (slot c <$> l).

Definition take (b : Batch) (l : list nat) : Batch := ArrowFilter.mkBatch (batch_schema b) ((fun c => take_column c l) <$> columns b) (length l).

#[export] Instance rows : ArrowRows := fun b i => take b [i] : RecordBatch.

Fixpoint append (a b : list Column) : list Column :=
  match a, b with
  | c :: a, d :: b => mkColumn (column_type c) (column_values c ++ column_values d) :: append a b
  | _, _ => []
  end.

Definition empty_of (s : list Field) : Batch := ArrowFilter.mkBatch s ((fun f => mkColumn (data_type f) []) <$> s) 0.

Definition concat_two (a b : Batch) : Batch :=
  ArrowFilter.mkBatch (batch_schema a) (append (columns a) (columns b)) (ArrowFilter.num_rows a + ArrowFilter.num_rows b).

#[export] Instance field_eq_dec : EqDecision Field.
Proof. solve_decision. Defined.

#[export] Instance kernels : ArrowKernels := {|
  ArrowKernels.Schema := list Field;
  field_names s := field_name <$> s;
  schema b := batch_schema b;
  new_empty s := empty_of s : RecordBatch;
  filter_record_batch b mask := Ok (take b (mask_rows mask (seq 0 (ArrowFilter.num_rows b))) : RecordBatch);
  concat_batches s l := Ok (foldl concat_two (empty_of s) l : RecordBatch);
  interleave_record_batch _ _ := Err EArrow
|}.

#[export] Instance views : BatchViews := {|
  view b := b;
  of_view b := Ok b;
  take_record_batch b l := Ok (take b l : RecordBatch);
  project_columns _ _ := Err EArrow;
  cast_column _ _ := Err EArrow
|}.

#[export] Instance format : RowFormat := {| row_supported := ordered; value_order a b := datum_cmp (datum a) (datum b); null_slot _ := 0 |}.

#[export] Instance format_laws : RowFormatLaws format.
Proof.
  split; cbn.
  - intros [ta a] [tb b] Ht. cbn in *. subst tb. split; [|intros [= ->]; pose proof (datum_cmp_swap b b); by destruct (datum_cmp b b)].
    intros H. f_equal. destruct a, b; cbn in *; try done; f_equal.
    + by repeat match goal with b : bool |- _ => destruct b end.
    + by apply Z.compare_eq.
    + by apply Z.compare_eq.
    + by apply String.compare_eq_iff.
    + by apply Nat.compare_eq.
  - intros a b _. apply datum_cmp_swap.
  - intros a b c _ _. apply datum_le_trans.
Qed.

(** Rows: commit time, sequence number, key and ordering value. *)
Definition data_schema : list Field :=
  [ArrowFilter.mkField COMMIT_TIME Utf8; ArrowFilter.mkField COMMIT_SEQNO Utf8; ArrowFilter.mkField RECORD_KEY Utf8; ArrowFilter.mkField "ts" Int32].

Definition data_rows (l : list (string * string * string * Z)) : RecordBatch :=
  ArrowFilter.mkBatch data_schema
    [mkColumn Utf8 ((fun r => utf8 r.1.1.1) <$> l); mkColumn Utf8 ((fun r => utf8 r.1.1.2) <$> l);
     mkColumn Utf8 ((fun r => utf8 r.1.2) <$> l); mkColumn Int32 ((fun r => int32 r.2) <$> l)] (length l).

Definition delete_rows (l : list (string * Z)) : RecordBatch :=
  ArrowFilter.mkBatch [ArrowFilter.mkField "recordKey" Utf8; ArrowFilter.mkField "partitionPath" Utf8; ArrowFilter.mkField "orderingVal" Int32]
    [mkColumn Utf8 ((fun r => utf8 r.1) <$> l); mkColumn Utf8 ((fun _ => utf8 "") <$> l); mkColumn Int32 ((fun r => int32 r.2) <$> l)] (length l).

Definition sample_configs : HudiConfigs := {["hoodie.table.ordering.fields" := "ts"; "hoodie.table.record.merge.strategy" := "OVERWRITE_WITH_LATEST"]}.

Definition slice : RecordBatches :=
  push_delete_batch (push_delete_batch
    (new_with_data_batches [data_rows [("1", "1_1", "a", 1); ("1", "1_2", "b", 4)]; data_rows [("2", "2_1", "a", 3); ("5", "5_1", "c", 5); ("5", "5_2", "d", 7)]])
    (delete_rows [("c", 5); ("d", 0)]) "1") (delete_rows [("c", 3); ("d", 0)]) "9".

(** Of [a] the later row stays.  The delete of [d] states no event time and was made later.
    Of [c] there are two deletes, (5, 1) and (3, 9): the row (5, 5) is greater than
    either, and not than their maxima. *)
Example sample_merge : merge_record_batches sample_configs data_schema [] slice
  = Ok (take (data_rows [("1", "1_2", "b", 4); ("2", "2_1", "a", 3)]) [0%nat; 1%nat]).
Proof. vm_compute. reflexivity. Qed.

Definition one_delete (ts : Z) (commit_time : string) : RecordBatches :=
  push_delete_batch (new_with_data_batches [data_rows [("5", "5_1", "c", 5)]]) (delete_rows [("c", ts)]) commit_time.

Example each_delete_keeps : forall d, d ∈ [one_delete 5 "1"; one_delete 3 "9"] ->
  merge_record_batches sample_configs data_schema [] d = Ok (data_rows [("5", "5_1", "c", 5)]).
Proof. intros d [->|[->|[]%elem_of_nil]%elem_of_cons]%elem_of_cons; vm_compute; reflexivity. Qed.

Definition slice_data : RecordBatch := match concat_data_batches slice data_schema with Ok b => b | _ => empty_of [] end.
Definition slice_deletes : RecordBatch :=
  match concat_delete_batches_transformed slice sample_configs data_schema [] with Ok b => b | _ => empty_of [] end.

Definition column_of (b : Batch) (name : string) : Column := default (mkColumn Utf8 []) (column_by_name b name).

Lemma sample_has_column b name c : column_by_name b name = Some c -> data_type <$> field_with_name (batch_schema b) name = Some (column_type c) ->
  length (column_values c) = ArrowFilter.num_rows b ->
  forallb (fun x => match x with Some v => bool_decide (value_type v = column_type c) | None => true end) (column_values c) = true ->
  ordered (column_type c) = true -> has_column_of b name c.
Proof.
  intros Hc Ht Hl Hv Ho. split; [done..| |done]. split; [done|]. apply list.Forall_forall. intros x Hx v ->.
  rewrite forallb_forall in Hv. by apply list_elem_of_In, (Hv (Some v)), bool_decide_eq_true in Hx.
Qed.

Lemma overwrite_with_latest_spec_witness : exists deletes kept,
  max_orderings_of [Int32] (merge_row (column_of slice_deletes RECORD_KEY) (column_of slice_deletes "ts") (column_of slice_deletes COMMIT_TIME) <$> seq 0 4) deletes /\
  NoDup kept /\
  (forall i, i ∈ kept <-> (i < 5)%nat /\ alive deletes (merge_row (column_of slice_data RECORD_KEY) (column_of slice_data "ts") (column_of slice_data COMMIT_TIME) i) /\
     forall j, (j < 5)%nat -> j <> i -> slot (column_of slice_data RECORD_KEY) j = slot (column_of slice_data RECORD_KEY) i ->
       later (column_of slice_data "ts") (column_of slice_data COMMIT_SEQNO) i j) /\
  merge_record_batches sample_configs data_schema [] slice = Ok (take slice_data kept).
Proof.
  pose proof (overwrite_with_latest_spec sample_configs data_schema [] slice slice_data "ts" (column_of slice_data RECORD_KEY) (column_of slice_data "ts")
    (column_of slice_data COMMIT_SEQNO) (column_of slice_data COMMIT_TIME)
    (merge_row (column_of slice_deletes RECORD_KEY) (column_of slice_deletes "ts") (column_of slice_deletes COMMIT_TIME) <$> seq 0 4)) as H.
  apply H; [vm_compute; reflexivity..| | | | |by vm_compute|]; [apply sample_has_column; vm_compute; reflexivity..|].
  right. split; [by vm_compute|]. exists slice_deletes, (column_of slice_deletes RECORD_KEY), (column_of slice_deletes "ts"), (column_of slice_deletes COMMIT_TIME).
  split_and!; [vm_compute; reflexivity|apply sample_has_column; vm_compute; reflexivity..|vm_compute; reflexivity|vm_compute; reflexivity|vm_compute; reflexivity|reflexivity].
Defined.
End SampleMergeV1.
