(* ===== verification/GroupReader.v ===== *)
(** The reader of a table's file slices: crates/core/src/file_group/reader.rs, and
    project_batch_by_names of util/arrow.rs.

    A slice is merged by version two ([GroupEngine]) or version one ([Scanner] and
    [MergeV1]), or read from its base file alone; the result is narrowed to the window of an
    incremental read, to the rows of the filters and to the projection.  A stream narrows
    each of its batches the same way. *)
From Stdlib Require Import ZArith Ascii.
From stdpp Require Import base gmap sets list strings sorting numbers pretty.
From S2P Require Import HFileIndex Prelude RustStr StrReplace Chrono Config Instant Selector Files View FileGroup GroupBuilder Listing StorageReader RecordBatches LogFormat LogReader LogEncoding Scanner OrderingValues RecordMerger ArrowKernels RecordBuffer BaseMerge MergeStream LogMerge LogScan LogFetch LogRead PositionBuffer Timeline Expr ArrowFilter Options ReadOptions Table TableOptions RecordKeys Evolution ReadContext ReadSchema InputSplit GroupEngine MergeV1.
Local Open Scope res_scope.
Local Open Scope Z_scope.

(** [Storage::new] *)
Class StorageOpens := { storage_new : HudiConfigs -> HudiConfigs -> res HudiConfigs }.

#[export] Instance format_eq_dec : EqDecision BaseFileFormatValue.
Proof. solve_decision. Defined.

(** * Paths *)

(** [Path::parent]: the path up to its last component; empty components and [.] are none,
    but for a leading [.]. *)
Definition no_component (root : bool) (before : list string) (segment : string) : bool :=
  bool_decide (segment = "") || (bool_decide (segment = ".") && (root || negb (bool_decide (before = [])))).

Fixpoint trim_back (root : bool) (l : list string) : list string :=
  match l with
  | segment :: before => if no_component root before segment then trim_back root before else l
  | [] => []
  end.

Definition parent (path : string) : option string :=
  let root := starts_with "/" path in
  match trim_back root (rev (str_split "/" path)) with
  | [] => None
  | _ :: before =>
      Some (match trim_back root before with
            | [] => if root then "/" else ""
            | l => str_join "/" (rev l)
            end)
  end.

(** * The reader *)
Section reader.
Context {AB : ArrowBatch} {AR : ArrowRows} {AK : ArrowKernels} {CO : ColumnOps} {MO : MapOrder} {PC : PositionsCodec}
  {PD : Pushdown} {AS : ArrowSchemas} {CM : CustomMergers} {C : Chrono} {D : ContentDecoder} {RS : RangeStore} {LS : LogStorage}
  {AC : ArrowColumns} {FT : FloatText} {AA : ArrowArrays} {BA : ArrayBatches} {BR : BaseFileReaders} {VS : AvroSchemas}
  {SB : SortBy} {BV : BatchViews} {SC : ArrowScalars} {RF : RowFormat} {SO : StorageOpens}.

(** [FileGroupReader]; the reader of base files is known by its format. *)
Record FileGroupReader := mkFGReader {
  fg_configs : HudiConfigs;
  fg_storage : HudiConfigs;
  fg_base_file_format : BaseFileFormatValue;
  fg_base_file_reader : option BaseFileFormatValue;
  data_schema_override : option Fields;
  fg_gate_inputs : option CompletionGateInputs
}.

(** [create_base_file_reader] *)
Definition create_base_file_reader (format : BaseFileFormatValue) : res BaseFileFormatValue := Ok format.

Definition create_optional_base_file_reader (format : BaseFileFormatValue) : res (option BaseFileFormatValue) :=
  res_map Some (create_base_file_reader format).

Definition reader_over (configs storage_opts : HudiConfigs) : res FileGroupReader :=
  let? storage := storage_new storage_opts configs in
  let? format := format_resolve_from_configs configs None in
  let? reader := create_optional_base_file_reader format in
  Ok (mkFGReader configs storage format reader None None).

(** [new_with_overrides] *)
Definition new_with_overrides (configs extra_hudi_opts storage_opts : HudiConfigs) : res FileGroupReader :=
  reader_over (extra_hudi_opts ∪ configs) storage_opts.

Definition reject_scan_budget (configs : HudiConfigs) : res unit :=
  if decide (is_Some (configs !! ReadConfig.key_str ReadConfig.ScanMaxMemorySize)) then Err EInvalidValue else Ok tt.

Definition new_with_options {O : OptionFiles} (base_uri : string) (options : list (string * string)) : res FileGroupReader :=
  let? resolver := resolve_options (TableOptions.new_with_options base_uri options) in
  let? _ := reject_scan_budget (TableOptions.hudi_options resolver) in
  reader_over (TableOptions.hudi_options resolver) (storage_options resolver).

Definition set_completion_gate_inputs (inputs : CompletionGateInputs) (r : FileGroupReader) : FileGroupReader :=
  mkFGReader (fg_configs r) (fg_storage r) (fg_base_file_format r) (fg_base_file_reader r) (data_schema_override r) (Some inputs).

Definition set_data_schema (s : Fields) (r : FileGroupReader) : FileGroupReader :=
  mkFGReader (fg_configs r) (fg_storage r) (fg_base_file_format r) (fg_base_file_reader r) (Some s) (fg_gate_inputs r).

(** ** The rows of the window *)

Definition default_bool {K} `{ConfigParser K} (configs : HudiConfigs) (k : K) : res bool := res_bind (get_or_default configs k) into_bool.

(** The column a [StringArray] can be made of. *)
Definition commit_time_column (b : Batch) : res Column := ok_or (column_by_name b COMMIT_TIME) EReadFileSlice.

Definition commit_time_membership_mask (instant_times : string) (batch : Batch) : res Mask :=
  let admitted : gset string := list_to_set (filter (fun s => s <> "") (trim <$> str_split "," instant_times)) in
  let? column := commit_time_column batch in
  if decide (ArrowFilter.column_type column = Utf8) then
    Ok ((fun i => Some match MergeV1.slot column i with
                       | Some v => match datum v with DBytes s => bool_decide (s ∈ admitted) | _ => false end
                       | None => false
                       end) <$> seq 0 (ArrowFilter.num_rows batch))
  else Err EReadFileSlice.

(** One filter of the window. *)
Definition window_filter (op value : string) : res SchemableFilter :=
  let? f := filter_from_tuple (COMMIT_TIME, op, value) in schemable_try_from f meta_schema.

Definition window_step (batch : Batch) (mask : Mask) (f : SchemableFilter) : res Mask :=
  let? column := ok_or (column_by_name batch (field_name (sfield f))) EReadFileSlice in
  let? comparison := ArrowFilter.apply_comparison f column in
  boolean_and mask comparison.

Definition create_commit_time_filter_mask (configs : HudiConfigs) (batch : Batch) : res (option Mask) :=
  let? populates_meta_fields := default_bool configs TableConfig.PopulatesMetaFields in
  if negb populates_meta_fields then Ok None
  else
    let? instant_times := try_string configs InternalConfig.IncrementalInstantTimes in
    match instant_times with
    | Some instant_times => res_map Some (commit_time_membership_mask instant_times batch)
    | None =>
        let? start_ts := try_string configs ReadConfig.StartTimestamp in
        match start_ts with
        | None => Ok None
        | Some start =>
            let? lower := window_filter ">" start in
            let? end_ts := try_string configs ReadConfig.EndTimestamp in
            let? upper := opt_traverse (window_filter "<=") end_ts in
            let and_filters := lower :: match upper with Some f => [f] | None => [] end in
            res_map Some (res_fold (window_step batch) and_filters (replicate (ArrowFilter.num_rows batch) (Some true)))
        end
    end.

(** [filter_record_batch] takes a null of the mask for false. *)
Definition filter_by_mask (batch : RecordBatch) (mask : Mask) : res RecordBatch :=
  map_err EReadFileSlice (filter_record_batch batch (default false <$> mask)).

Definition apply_commit_time_filter (configs : HudiConfigs) (batch : RecordBatch) : res RecordBatch :=
  let? mask := create_commit_time_filter_mask configs (view batch) in
  match mask with Some mask => filter_by_mask batch mask | None => Ok batch end.

(** ** The caller's filters and projection *)

Definition apply_filter_mask (filters : list Filter) (batch : RecordBatch) : res RecordBatch :=
  match filters with
  | [] => Ok batch
  | _ => let? mask := filters_to_row_mask filters (view batch) in filter_by_mask batch mask
  end.

Definition project_batch_by_names (batch : RecordBatch) (projection : option (list string)) : res RecordBatch :=
  match projection with
  | None => Ok batch
  | Some cols =>
      let? indices := res_mapM (fun name => ok_or (index_of name (ArrowFilter.batch_schema (view batch))) ESchema) cols in
      map_err EArrow (project_columns batch indices)
  end.

Definition apply_eager_options (options : ReadOptions) (batch : RecordBatch) : res RecordBatch :=
  let? _ := validate_fields_against_schemas (ReadOptions.filters options) [ArrowFilter.batch_schema (view batch)] in
  let? batch := apply_filter_mask (ReadOptions.filters options) batch in
  project_batch_by_names batch (projection options).

(** ** Which reader of base files *)
Section of_reader.
Context (r : FileGroupReader).

Definition is_metadata_table : res bool :=
  let? base_path := default_string (fg_configs r) TableConfig.BasePath in Ok (is_metadata_table_path base_path).

Definition resolve_read_options (options : ReadOptions) : res ReadOptions := with_defaults_from options (fg_configs r).

(** [reader_for_path] *)
Definition reader_for_path (relative_path : string) : res BaseFileFormatValue :=
  let? format := format_resolve_from_configs (fg_configs r) (Some relative_path) in
  match fg_base_file_reader r with
  | Some reader => if decide (format = fg_base_file_format r) then Ok reader else map_err EReadFileSlice (create_base_file_reader format)
  | None => map_err EReadFileSlice (create_base_file_reader format)
  end.

(** The columns of [MetaField::schema]: none is nullable. *)
Definition meta_fields : Fields := (fun f => Evolution.mkField (field_name f) AUtf8 false) <$> meta_schema.

(** [read_base_file_eager]: no path, no rows. *)
Definition read_base_file_eager (relative_path : string) : res RecordBatch :=
  if decide (relative_path = "") then Ok (new_empty (schema_of meta_fields))
  else
    let? reader := reader_for_path relative_path in
    let? records := map_err EReadFileSlice (read_data reader relative_path GroupEngine.read_options_new) in
    apply_commit_time_filter (fg_configs r) records.

Definition create_instant_range_for_log_file_scan : res InstantRange :=
  let? timezone := default_string (fg_configs r) TableConfig.TimelineTimezone in
  let? start_timestamp := try_string (fg_configs r) ReadConfig.StartTimestamp in
  let? end_timestamp := try_string (fg_configs r) ReadConfig.EndTimestamp in
  Ok (ir_new timezone start_timestamp end_timestamp false true).

(** The schema a base file's stream has. *)
Definition base_file_schema_of (relative_path : string) : res Fields :=
  let? reader := reader_for_path relative_path in
  let? stream := map_err EReadFileSlice (read_stream reader relative_path GroupEngine.read_options_new) in
  Ok stream.1.

Definition resolved_data_schema (base_file_path : string) : res Fields :=
  match data_schema_override r with
  | Some schema => Ok schema
  | None => base_file_schema_of base_file_path
  end.

(** ** Version two *)

(** [file_group_reader_version] *)
Definition file_group_reader_version : res FileGroupReaderVersion :=
  let? metadata := is_metadata_table in
  if metadata : bool then Ok One
  else
    let? value := of_parsed (try_get (fg_configs r) ReadConfig.FileGroupReaderVersion) in
    match value with
    | Some value => let? n := into_usize value in map_err EConfig (of_parsed (version_try_from n))
    | None => Ok Two
    end.

(** [version_two_unsupported_reason]: whether there is a reason. *)
Definition version_two_unsupported_reason (base_file_only : bool) : res bool :=
  let custom :=
    match fg_configs r !! "hoodie.record.merge.mode" with
    | Some mode => eq_ignore_ascii_case mode "CUSTOM"
    | None => false
    end in
  if negb base_file_only && custom && negb (is_Some_bool (resolve_custom_merger (fg_configs r))) then Err EUnsupported
  else
    let? metadata := is_metadata_table in
    if metadata : bool then Err EUnsupported else default_bool (fg_configs r) TableConfig.DropsPartitionFields.

Definition serve_with_version_two (base_file_only : bool) : res bool :=
  let? version := file_group_reader_version in
  match version with
  | Two => let? unsupported := version_two_unsupported_reason base_file_only in Ok (negb unsupported)
  | One => Ok false
  end.

Definition refused (data_schema : Fields) : res unit :=
  let? metadata := is_metadata_table in
  match refuse_reason metadata (Some data_schema) with Some reason => Err reason | None => Ok tt end.

Definition partition_path_of (base_file_path : string) : string := default "" (parent base_file_path).

(** [read_via_v2]; [None] stands for a merge that does not end, which [reads_end] excludes. *)
Definition read_via_v2 (base_file_path : string) (log_file_paths : list string) : res (option RecordBatch) :=
  let? data_schema := resolved_data_schema base_file_path in
  let? _ := refused data_schema in
  let? merged := merged_file_slice (fg_configs r) (fg_storage r) base_file_path log_file_paths (partition_path_of base_file_path)
    (Some data_schema) (fg_gate_inputs r) in
  opt_traverse (apply_commit_time_filter (fg_configs r)) merged.

(** ** Version one *)

Definition read_via_v1 (base_file_path : string) (log_file_paths : list string) : res RecordBatch :=
  let? instant_range := create_instant_range_for_log_file_scan in
  let? timezone := default_string (fg_configs r) TableConfig.TimelineTimezone in
  let? scan_result := scan timezone log_file_paths instant_range in
  let? log_batches :=
    match scan_result with
    | ScanRecordBatches batches => Ok batches
    | ScanEmpty => Ok batches_new
    | ScanHFileRecords _ => Err ELogBlock
    end in
  let? base_batch := read_base_file_eager base_file_path in
  let all_batches := RecordBatches.extend (push_data_batch batches_new base_batch) log_batches in
  let? merged := merge_record_batches (fg_configs r) (ArrowKernels.schema base_batch) (schema_of []) all_batches in
  apply_commit_time_filter (fg_configs r) merged.

(** [read_file_slice_from_paths] *)
Definition read_file_slice_from_paths (base_file_path : string) (log_file_paths : list string) (options : ReadOptions)
    : res (option RecordBatch) :=
  let? options := resolve_read_options options in
  let? base_file_only :=
    match log_file_paths with [] => Ok true | _ => is_read_optimized options end in
  let? two := serve_with_version_two base_file_only in
  let? merged :=
    if two : bool then read_via_v2 base_file_path (if base_file_only : bool then [] else log_file_paths)
    else if base_file_only then res_map Some (read_base_file_eager base_file_path)
    else res_map Some (read_via_v1 base_file_path log_file_paths) in
  opt_traverse (apply_eager_options options) merged.

(** The paths of a slice's files. *)
Definition slice_log_paths (s : FileSlice.t) : list string :=
  if FileSlice.has_log_file s then FileSlice.log_file_relative_path s <$> FileSlice.log_files s else [].

(** [read_file_slice] *)
Definition read_file_slice (s : FileSlice.t) (options : ReadOptions) : res (option RecordBatch) :=
  read_file_slice_from_paths (default "" (FileSlice.base_file_relative_path s)) (slice_log_paths s) options.

(** * Streams: the items, in order *)

(** The items of a merge, drawn until there is none. *)
Fixpoint group_items {RC : RecordContext} (fuel : nat) (s : GroupStream) : option (list (res RecordBatch)) :=
  match fuel with
  | O => None
  | S fuel =>
      match group_next_chunk s with
      | (None, _) => Some []
      | (Some item, s) => cons item <$> group_items fuel s
      end
  end.

(** What both kinds of reads do to what was merged. *)
Definition narrow (options : ReadOptions) (batch : RecordBatch) : res RecordBatch :=
  let? batch := apply_commit_time_filter (fg_configs r) batch in apply_eager_options options batch.

(** [stream_via_v2] *)
Definition stream_via_v2 (base_file_path : string) (log_file_paths : list string) (options : ReadOptions)
    : res (option (list (res RecordBatch))) :=
  let? data_schema := resolved_data_schema base_file_path in
  let? _ := refused data_schema in
  let? (reader, merged) := merged_file_slice_stream (fg_configs r) (fg_storage r) base_file_path log_file_paths
    (partition_path_of base_file_path) (Some data_schema) (fg_gate_inputs r) in
  Ok (option_map (map (fun item => res_bind item (narrow options)))
      (group_items (RC := reader_records reader) (S (group_chunks_left merged)) merged)).

(** ** Base files *)

(** The columns to read: those asked for, those of filters, but for partition columns that
    are not in the files, and the commit time if the window needs it. *)
Definition widen_step (dropped : list string) (combined : list string) (field : string) : list string :=
  if existsb (String.eqb field) dropped || existsb (String.eqb field) combined then combined else combined ++ [field].

Definition read_projection (dropped : list string) (filters : list Filter) (needs_commit_time_col : bool) (proj : list string)
    : list string :=
  let combined := foldl (fun acc f => widen_step dropped acc (field f)) proj filters in
  if needs_commit_time_col then widen_step [] combined COMMIT_TIME else combined.

(** [stream_target_schema] *)
Definition field_of (fields : Fields) (name : string) : option Evolution.Field := snd <$> find_field name fields.

Definition stream_target_schema (base_file_schema : option Fields) (projection : option (list string)) : option Fields :=
  match data_schema_override r, base_file_schema with
  | Some table_schema, Some base_file_schema =>
      let target :=
        match projection with
        | None => table_schema
        | Some cols => omap (fun name => match field_of table_schema name with
                                         | Some f => Some f
                                         | None => field_of base_file_schema name
                                         end) cols
        end in
      let unchanged := forallb (fun f : Evolution.Field =>
        match field_of base_file_schema (Evolution.f_name f) with
        | Some base => bool_decide (f_type base = f_type f) && eqb (f_nullable base) (f_nullable f)
        | None => false
        end) target in
      if unchanged then None else Some target
  | _, _ => None
  end.

(** One batch of the stream: whether the filters' columns have been checked, and the item,
    if one is left. *)
Definition base_item (options : ReadOptions) (target : option Fields) (validated : bool) (result : res RecordBatch)
    : bool * option (res RecordBatch) :=
  let batch := map_err EReadFileSlice result in
  match (let? batch := batch in match target with Some t => project_batch_to_schema batch t | None => Ok batch end) with
  | Ok batch =>
      match (if validated then Ok tt
             else validate_fields_against_schemas (ReadOptions.filters options) [ArrowFilter.batch_schema (view batch)]) with
      | Ok _ =>
          let left :=
            let? batch := apply_commit_time_filter (fg_configs r) batch in
            if RecordBatches.num_rows batch =? 0 then Ok None
            else
              let? batch := apply_filter_mask (ReadOptions.filters options) batch in
              if RecordBatches.num_rows batch =? 0 then Ok None
              else res_map Some (project_batch_by_names batch (projection options)) in
          (true, match left with Ok o => Ok <$> o | Err e => Some (Err e) | Panic => Some Panic end)
      | e => (validated, Some (failure e))
      end
  | e => (validated, Some e)
  end.

Fixpoint base_items (options : ReadOptions) (target : option Fields) (validated : bool) (l : list (res RecordBatch))
    : list (res RecordBatch) :=
  match l with
  | [] => []
  | result :: l =>
      let '(validated, item) := base_item options target validated result in
      match item with Some i => [i] | None => [] end ++ base_items options target validated l
  end.

(** [read_base_file_stream] *)
Definition read_base_file_stream (relative_path : string) (options : ReadOptions) (known_file_size : option Z)
    : res (list (res RecordBatch)) :=
  let? default_batch_size := res_bind (get_or_default (fg_configs r) ReadConfig.StreamBatchSize) into_usize in
  let? asked := batch_size options in
  let? drops_partition_columns := default_bool (fg_configs r) TableConfig.DropsPartitionFields in
  let? dropped :=
    if drops_partition_columns : bool then res_bind (get_or_default (fg_configs r) TableConfig.PartitionFields) into_list else Ok [] in
  let? populates_meta_fields := default_bool (fg_configs r) TableConfig.PopulatesMetaFields in
  let? start := of_parsed (try_get (fg_configs r) ReadConfig.StartTimestamp) in
  let columns := read_projection dropped (ReadOptions.filters options) (populates_meta_fields && is_Some_bool start) <$> projection options in
  let? base_file_schema :=
    match data_schema_override r with
    | Some _ => if decide (relative_path = "") then Ok None else res_map Some (base_file_schema_of relative_path)
    | None => Ok None
    end in
  let selectable cols :=
    match base_file_schema with Some s => filter (fun name => is_Some (field_of s name)) cols | None => cols end in
  let read_options := GroupEngine.mkReadOptions (Some (default default_batch_size asked)) (selectable <$> columns) known_file_size
    None None None None in
  let target := stream_target_schema base_file_schema columns in
  let? reader := reader_for_path relative_path in
  let? base_stream := map_err EReadFileSlice (read_stream reader relative_path read_options) in
  Ok (base_items options target false base_stream.2).

(** [read_file_slice_from_paths_stream_inner] *)
Definition read_file_slice_from_paths_stream (base_file_path : string) (log_file_paths : list string) (options : ReadOptions)
    (known_base_file_size : option Z) : res (option (list (res RecordBatch))) :=
  let? options := resolve_read_options options in
  let? read_optimized := is_read_optimized options in
  if read_optimized || bool_decide (log_file_paths = []) then
    res_map Some (read_base_file_stream base_file_path options known_base_file_size)
  else
    let? two := serve_with_version_two false in
    if two : bool then stream_via_v2 base_file_path log_file_paths options
    else
      let? batch := read_file_slice_from_paths base_file_path log_file_paths options in
      Ok ((fun b => [Ok b]) <$> batch).

(** [read_file_slice_stream] *)
Definition read_file_slice_stream (s : FileSlice.t) (options : ReadOptions) : res (option (list (res RecordBatch))) :=
  read_file_slice_from_paths_stream (default "" (FileSlice.base_file_relative_path s)) (slice_log_paths s) options
    (size <$> (FileSlice.base_file s ≫= BaseFile.file_metadata)).
End of_reader.
End reader.
