(* ===== verification/Narrowing.v ===== *)
(** What the reader of a slice narrows batches to: the rows of its window and of its
    filters, in their order, projected. *)
From Stdlib Require Import ZArith Ascii.
From stdpp Require Import base gmap sets list strings sorting numbers.
From S2P Require Import Prelude RustStr StorageReader RecordBatches OrderingValues RecordMerger ArrowKernels ReadContext Config Options Expr ArrowFilter ReadOptions BaseMerge MergeV1 GroupReader.
Local Open Scope res_scope.
Local Open Scope Z_scope.

(** * What a batch is narrowed to *)

(** Arrow's documentation: a column has the cells of the rows at its place, and the rows of a
    projected batch are the projected rows. *)
Class ViewLaws {AB : ArrowBatch} {AR : ArrowRows} {AK : ArrowKernels} {AL : ArrowLaws} {BV : BatchViews} := {
  row_cell : Row -> nat -> option Value;
  project_row : list nat -> Row -> Row;
  view_schema b b' : ArrowKernels.schema b = ArrowKernels.schema b' ->
    ArrowFilter.batch_schema (view b) = ArrowFilter.batch_schema (view b');
  view_rows b : ArrowFilter.num_rows (view b) = length (batch_rows b);
  view_column b i c : ArrowFilter.columns (view b) !! i = Some c -> column_values c = (fun r => row_cell r i) <$> batch_rows b;
  project_columns_ok b idx : (forall i, i ∈ idx -> (i < length (ArrowFilter.batch_schema (view b)))%nat) ->
    exists b', project_columns b idx = Ok b' /\ batch_rows b' = project_row idx <$> batch_rows b
}.

(** The window of the rows of a read. *)
Inductive Window := AllRows | Members (instants : gset string) | Between (after : string) (up_to : option string).

Definition window_of (configs : HudiConfigs) : res Window :=
  let? populates_meta_fields := default_bool configs TableConfig.PopulatesMetaFields in
  if negb populates_meta_fields then Ok AllRows
  else
    let? instants := try_string configs InternalConfig.IncrementalInstantTimes in
    match instants with
    | Some instants => Ok (Members (list_to_set (filter (fun s => s <> "") (trim <$> str_split "," instants))))
    | None =>
        let? start := try_string configs ReadConfig.StartTimestamp in
        match start with
        | None => Ok AllRows
        | Some start => let? up_to := try_string configs ReadConfig.EndTimestamp in Ok (Between start up_to)
        end
    end.

Definition in_window (w : Window) (commit_time : option Value) : bool :=
  match w, commit_time with
  | AllRows, _ => true
  | Members instants, Some (mkValue _ (DBytes t)) => bool_decide (t ∈ instants)
  | Between after up_to, Some (mkValue _ (DBytes t)) => str_ltb after t && match up_to with Some u => str_leb t u | None => true end
  | _, _ => false
  end.

Definition text_column (c : Column) : Prop :=
  ArrowFilter.column_type c = Utf8 /\ forall v, Some v ∈ column_values c -> exists t, v = mkValue Utf8 (DBytes t).

Lemma mask_rows_map {A} (p : A -> bool) l : mask_rows (p <$> l) l = filter (fun x => p x = true) l.
Proof. induction l as [|x l IH]; [done|]. rewrite fmap_cons, list.filter_cons. cbn [mask_rows]. rewrite IH. by destruct (p x). Qed.

(** A mask is known by the elements it keeps. *)
Lemma mask_kept {A} (mask : Mask) (p : A -> bool) (l : list A) : length mask = length l ->
  (forall i x, l !! i = Some x -> kept mask i <-> p x = true) -> default false <$> mask = p <$> l.
Proof.
  intros Hl Hk. apply list_eq. intros i. rewrite !list_lookup_fmap. destruct (l !! i) as [x|] eqn:E.
  - destruct (lookup_lt_is_Some_2 mask i) as [y Hy]; [rewrite Hl; by eapply lookup_lt_Some|]. rewrite Hy. cbn. f_equal.
    specialize (Hk i x E). unfold kept in Hk. rewrite Hy in Hk. destruct y as [[]|], (p x); cbn; naive_solver.
  - rewrite lookup_ge_None_2; [done|]. rewrite Hl. by apply lookup_ge_None_1.
Qed.

Section narrowed.
Context {AB : ArrowBatch} {AR : ArrowRows} {AK : ArrowKernels} {AL : ArrowLaws} {BV : BatchViews} {VL : ViewLaws}
  {SC : ArrowScalars} {SL : ScalarLaws SC}.

Abbreviation view_fields b := (ArrowFilter.batch_schema (view b)).

(** The value a row has in a column, and whether a filter passes the row. *)
Definition row_value (s : list Field) (name : string) (row : Row) : option Value := i ← index_of name s; row_cell row i.

Definition row_filter (s : list Field) (row : Row) (f : Filter) : bool :=
  match index_of (field f) s with
  | None => true
  | Some i =>
      match schemable_try_from f s, row_cell row i with
      | Ok sf, Some v => filter_test sf v
      | _, _ => false
      end
  end.

Lemma column_cells b name c i : column_by_name (view b) name = Some c -> index_of name (view_fields b) = Some i ->
  column_values c = (fun r => row_cell r i) <$> batch_rows b.
Proof. unfold column_by_name. intros Hc Hi. rewrite Hi in Hc. by apply view_column. Qed.

Lemma column_index b name c : column_by_name (view b) name = Some c -> exists i, index_of name (view_fields b) = Some i.
Proof. unfold column_by_name. destruct (index_of name _) as [i|]; [by exists i|done]. Qed.

Lemma row_passes_row b i row f : batch_wf (view b) -> batch_rows b !! i = Some row ->
  row_passes (view b) i f <-> row_filter (view_fields b) row f = true.
Proof.
  intros Hwf Hi. unfold row_passes, row_filter. destruct (index_of (field f) (view_fields b)) as [k|] eqn:E.
  - destruct (index_of_field _ _ _ E) as (fd & Hfd & _). destruct (Forall2_lookup_l _ _ _ _ _ (bw_columns _ Hwf) Hfd) as (c & Hc & _).
    assert (Hn : column_by_name (view b) (field f) = Some c) by (unfold column_by_name; by rewrite E).
    pose proof (column_cells b _ c k Hn E) as Hv. split.
    + intros H. destruct (H c Hn) as (sf & v & -> & Hx & Ht). rewrite Hv, list_lookup_fmap, Hi in Hx. cbn in Hx. by injection Hx as ->.
    + intros H c' Hc'. assert (c' = c) as -> by congruence. destruct (schemable_try_from f _) as [sf| |]; [|done..].
      destruct (row_cell row k) as [v|] eqn:Er; [|done]. exists sf, v. rewrite Hv, list_lookup_fmap, Hi. cbn. by rewrite Er.
  - split; [done|]. intros _ c Hc. apply column_index in Hc as [k Hk]. congruence.
Qed.

Lemma filter_by_mask_rows b mask (p : Row -> bool) : default false <$> mask = p <$> batch_rows b ->
  exists b', filter_by_mask b mask = Ok b' /\ ArrowKernels.schema b' = ArrowKernels.schema b /\
    batch_rows b' = filter (fun r => p r = true) (batch_rows b).
Proof.
  intros Hm. unfold filter_by_mask. rewrite Hm. destruct (filter_rows b (p <$> batch_rows b)) as (b' & -> & Hs & Hr); [by rewrite length_fmap|].
  exists b'. by rewrite Hr, mask_rows_map.
Qed.

(** The rows of the filters. *)
Lemma filtered_rows fs b : batch_wf (view b) -> Forall (filter_casts (view b)) fs ->
  exists b', apply_filter_mask fs b = Ok b' /\ ArrowKernels.schema b' = ArrowKernels.schema b /\
    batch_rows b' = filter (fun r => forallb (row_filter (view_fields b) r) fs = true) (batch_rows b).
Proof.
  intros Hwf Hf. destruct fs as [|f fs]; [exists b; split_and!; [done..|]; symmetry; by apply filter_all, list.Forall_forall|].
  unfold apply_filter_mask. destruct (row_mask_ok (view b) (f :: fs) Hwf Hf) as (mask & -> & Hl & Hk). cbn [res_bind].
  apply (filter_by_mask_rows b mask (fun r => forallb (row_filter (view_fields b) r) (f :: fs))). rewrite view_rows in *.
  apply mask_kept; [done|]. intros i row Hi. rewrite Hk by (by eapply lookup_lt_Some). rewrite list.Forall_forall, forallb_forall.
  split; intros H g Hg; [apply list_elem_of_In in Hg; by apply (row_passes_row b i), H|apply (row_passes_row b i row g Hwf Hi), H, list_elem_of_In, Hg].
Qed.

(** ** The rows of the window *)

Lemma window_filter_ok op_text op value : operator_from_str op_text = Ok op -> is_multi_value op = false ->
  window_filter op_text value = Ok (mkSchemable (ArrowFilter.mkField COMMIT_TIME Utf8) op [mkValue Utf8 (DBytes value)]).
Proof.
  intros Hop Hm. unfold window_filter, filter_from_tuple. rewrite Hop. cbn [res_bind]. rewrite Hm. unfold filter_new. rewrite Hm. cbn [length Nat.eqb negb res_bind].
  unfold schemable_try_from, cast_value. cbn [field values operator res_mapM]. change (field_with_name meta_schema COMMIT_TIME) with (Some (ArrowFilter.mkField COMMIT_TIME Utf8)).
  cbn [ok_or res_bind data_type]. by rewrite utf8_cast.
Qed.

Lemma window_step_ok b c mask op value : column_by_name b COMMIT_TIME = Some c -> text_column c -> length mask = length (column_values c) ->
  window_step b mask (mkSchemable (ArrowFilter.mkField COMMIT_TIME Utf8) op [mkValue Utf8 (DBytes value)])
  = Ok (zip_with (null_op andb) mask (map (fmap (element_test op [mkValue Utf8 (DBytes value)])) (column_values c))).
Proof.
  intros Hc [Ht _] Hl. unfold window_step. cbn [sfield field_name]. rewrite Hc. cbn [ok_or res_bind]. rewrite apply_comparison_ok; cbn.
  - apply boolean_and_ok. by rewrite length_map.
  - split; [done|]. repeat constructor.
  - done.
  - rewrite Ht. apply utf8_ordered.
Qed.

Lemma text_cell b c i k row : column_by_name (view b) COMMIT_TIME = Some c -> text_column c -> index_of COMMIT_TIME (view_fields b) = Some i ->
  batch_rows b !! k = Some row -> column_values c !! k = Some (row_value (view_fields b) COMMIT_TIME row) /\
  (row_value (view_fields b) COMMIT_TIME row = None \/ exists t, row_value (view_fields b) COMMIT_TIME row = Some (mkValue Utf8 (DBytes t))).
Proof.
  intros Hc [_ Ht] Hi Hk. pose proof (column_cells b _ c i Hc Hi) as Hv. unfold row_value. rewrite Hi. cbn.
  assert (Hx : column_values c !! k = Some (row_cell row i)) by (by rewrite Hv, list_lookup_fmap, Hk). split; [done|].
  destruct (row_cell row i) as [v|]; [right|by left]. destruct (Ht v) as [t ->]; [by eapply list_elem_of_lookup_2|by exists t].
Qed.

Lemma kept_true n i : (i < n)%nat -> kept (replicate n (Some true)) i.
Proof. intros Hi. unfold kept. by apply lookup_replicate_2. Qed.

Lemma after_test start t : element_test Gt_ [mkValue Utf8 (DBytes start)] (mkValue Utf8 (DBytes t)) = str_ltb start t.
Proof.
  cbn. rewrite utf8_cmp. unfold str_ltb, String.ltb. pose proof (String.compare_antisym start t). by destruct (start ?= t)%string, (t ?= start)%string.
Qed.

Lemma up_to_test u t : element_test Lte [mkValue Utf8 (DBytes u)] (mkValue Utf8 (DBytes t)) = str_leb t u.
Proof. cbn. rewrite utf8_cmp. unfold str_leb, String.leb. by destruct (t ?= u)%string. Qed.

(** *** A batch whose commit times are texts *)
Section window.
Context (b : RecordBatch) (c : Column) (Hc : column_by_name (view b) COMMIT_TIME = Some c) (Ht : text_column c)
  (Hl : length (column_values c) = length (batch_rows b)).

Abbreviation commit_time_of row := (row_value (view_fields b) COMMIT_TIME row).

Lemma commit_cell k row : batch_rows b !! k = Some row -> column_values c !! k = Some (commit_time_of row) /\
  (commit_time_of row = None \/ exists t, commit_time_of row = Some (mkValue Utf8 (DBytes t))).
Proof. destruct (column_index b _ _ Hc) as [i Hi]. by apply (text_cell b c i). Qed.

Lemma members_mask instants : exists mask, commit_time_membership_mask instants (view b) = Ok mask /\
  default false <$> mask
  = (fun row => in_window (Members (list_to_set (filter (fun s => s <> "") (trim <$> str_split "," instants)))) (commit_time_of row)) <$> batch_rows b.
Proof.
  unfold commit_time_membership_mask, commit_time_column. rewrite Hc. cbn [ok_or res_bind]. rewrite decide_True by apply Ht. eexists. split; [done|].
  apply list_eq. intros k. rewrite !list_lookup_fmap, view_rows. destruct (batch_rows b !! k) as [row|] eqn:E.
  - rewrite lookup_seq_lt by (by eapply lookup_lt_Some). cbn. f_equal. unfold slot. destruct (commit_cell k row E) as [-> Hv]. cbn.
    by destruct Hv as [->|[t ->]].
  - rewrite lookup_seq_ge; [done|]. by apply lookup_ge_None_1.
Qed.

(** One more test of the commit time. *)
Lemma test_kept mask op value k row : batch_rows b !! k = Some row ->
  kept (zip_with (null_op andb) mask (map (fmap (element_test op [mkValue Utf8 (DBytes value)])) (column_values c))) k
  <-> kept mask k /\ exists t, commit_time_of row = Some (mkValue Utf8 (DBytes t)) /\ element_test op [mkValue Utf8 (DBytes value)] (mkValue Utf8 (DBytes t)) = true.
Proof.
  intros Hk. destruct (commit_cell k row Hk) as [Hv Hd]. rewrite kept_zip, kept_test, Hv. split.
  - intros [Hm (v & [= E] & Htest)]. split; [done|]. destruct Hd as [Hd|[t Hd]]; [congruence|]. exists t. split; [done|congruence].
  - intros [Hm (t & E & Htest)]. split; [done|]. exists (mkValue Utf8 (DBytes t)). by rewrite E.
Qed.

Lemma between_mask after up_to : exists mask,
  (let? lower := window_filter ">" after in
   let? upper := opt_traverse (window_filter "<=") up_to in
   res_fold (window_step (view b)) (lower :: match upper with Some f => [f] | None => [] end)
     (replicate (ArrowFilter.num_rows (view b)) (Some true))) = Ok mask /\
  default false <$> mask = (fun row => in_window (Between after up_to) (commit_time_of row)) <$> batch_rows b.
Proof.
  set (n := ArrowFilter.num_rows (view b)). assert (Hn : n = length (column_values c)) by (subst n; by rewrite view_rows).
  rewrite (window_filter_ok _ Gt_) by done. cbn [res_bind].
  destruct up_to as [up_to|]; cbn [opt_traverse res_map res_bind]; [rewrite (window_filter_ok _ Lte) by done|]; cbn [res_map res_bind res_fold].
  all: rewrite (window_step_ok _ c) by (done || by rewrite length_replicate).
  all: cbn [res_bind]; rewrite ?(window_step_ok _ c) by (done || by rewrite length_zip_with, length_replicate, length_map, Hn, Nat.min_id).
  all: eexists; split; [done|]; apply mask_kept; [rewrite !length_zip_with, !length_map, length_replicate; lia|].
  all: intros k row Hk; rewrite !(test_kept _ _ _ k row Hk); destruct (commit_cell k row Hk) as [_ Hd]; cbn [in_window].
  all: assert (k < n)%nat by (rewrite Hn, Hl; by eapply lookup_lt_Some).
  all: destruct Hd as [->|[t ->]]; [split; [by intros (_ & t & [=] & _)|done]|]; setoid_rewrite after_test; try setoid_rewrite up_to_test.
  - rewrite andb_true_iff. split; [intros [[_ (t1 & [= <-] & ->)] (t2 & [= <-] & ->)]; done|intros [H1 H2]; split; [split; [by apply kept_true|by exists t]|by exists t]].
  - rewrite andb_true_r. split; [by intros (_ & t' & [= <-] & Ha)|intros Ha; split; [by apply kept_true|by exists t]].
Qed.

(** The mask of a window. *)
Lemma window_mask_ok configs w : window_of configs = Ok w -> w <> AllRows ->
  exists mask, create_commit_time_filter_mask configs (view b) = Ok (Some mask) /\
    default false <$> mask = (fun row => in_window w (commit_time_of row)) <$> batch_rows b.
Proof.
  unfold window_of, create_commit_time_filter_mask. intros (meta & -> & Hw)%res_bind_Ok Hne. cbn [res_bind].
  destruct meta; cbn [negb] in *; [|by injection Hw as <-]. apply res_bind_Ok in Hw as (instants & -> & Hw). cbn [res_bind].
  destruct instants as [instants|]; [injection Hw as <-|apply res_bind_Ok in Hw as (start & -> & Hw); cbn [res_bind]].
  - destruct (members_mask instants) as (mask & -> & Hm). by exists mask.
  - destruct start as [start|]; [|by injection Hw as <-]. apply res_bind_Ok in Hw as (up_to & -> & [= <-]).
    destruct (between_mask start up_to) as (mask & Hf & Hm). exists mask. split; [|done].
    apply res_bind_Ok in Hf as (lower & -> & (upper & Hu & Hf)%res_bind_Ok). cbn [res_bind]. rewrite Hu. cbn [res_bind]. by rewrite Hf.
Qed.
End window.

Lemma no_window_mask configs b : window_of configs = Ok AllRows -> create_commit_time_filter_mask configs b = Ok None.
Proof.
  unfold window_of, create_commit_time_filter_mask. intros (meta & -> & Hw)%res_bind_Ok. cbn [res_bind]. destruct meta; cbn [negb] in *; [|done].
  apply res_bind_Ok in Hw as (instants & -> & Hw). cbn [res_bind]. destruct instants as [i|]; [done|].
  apply res_bind_Ok in Hw as (start & -> & Hw). cbn [res_bind]. destruct start as [x|]; [|done]. by apply res_bind_Ok in Hw as (up_to & _ & [=]).
Qed.

(** ** A batch, narrowed *)
Record narrowable (w : Window) (o : ReadOptions) (b : RecordBatch) : Prop := {
  nw_wf : batch_wf (view b);
  nw_window : w = AllRows \/ exists c, column_by_name (view b) COMMIT_TIME = Some c /\ text_column c;
  nw_casts : Forall (filter_casts (view b)) (filters o);
  nw_fields : Forall (fun f => field f ∈ field_name <$> view_fields b) (filters o);
  nw_projected cols name : projection o = Some cols -> name ∈ cols -> is_Some (index_of name (view_fields b))
}.

(** The rows of a batch of these columns that a read returns, and what it returns of them. *)
Definition row_kept (w : Window) (o : ReadOptions) (s : list Field) (row : Row) : bool :=
  in_window w (row_value s COMMIT_TIME row) && forallb (row_filter s row) (filters o).

Definition row_projected (o : ReadOptions) (s : list Field) (row : Row) : Row :=
  match projection o with None => row | Some cols => project_row (omap (fun n => index_of n s) cols) row end.

Definition narrowed_rows (w : Window) (o : ReadOptions) (s : list Field) (l : list Row) : list Row :=
  row_projected o s <$> filter (fun r => row_kept w o s r = true) l.

Lemma narrowed_concat w o s ls : concat (narrowed_rows w o s <$> ls) = narrowed_rows w o s (concat ls).
Proof.
  induction ls as [|l ls IH]; [done|]. cbn. rewrite IH. unfold narrowed_rows. by rewrite list.filter_app, fmap_app.
Qed.

Lemma windowed_rows configs w b : window_of configs = Ok w -> batch_wf (view b) ->
  (w = AllRows \/ exists c, column_by_name (view b) COMMIT_TIME = Some c /\ text_column c) ->
  exists b', apply_commit_time_filter configs b = Ok b' /\ ArrowKernels.schema b' = ArrowKernels.schema b /\
    batch_rows b' = filter (fun r => in_window w (row_value (view_fields b) COMMIT_TIME r) = true) (batch_rows b).
Proof.
  intros Hw Hwf Hc. unfold apply_commit_time_filter. destruct w as [|m|a u].
  - rewrite (no_window_mask _ _ Hw). exists b. split_and!; [done..|]. symmetry. by apply filter_all, list.Forall_forall.
  - destruct Hc as [|(c & Hc & Ht)]; [done|]. destruct (column_by_name_wf _ _ _ Hwf Hc) as (_ & _ & _ & Hl & _). rewrite view_rows in Hl.
    destruct (window_mask_ok b c Hc Ht Hl _ _ Hw) as (mask & -> & Hm); [done|]. cbn [res_bind]. by apply filter_by_mask_rows.
  - destruct Hc as [|(c & Hc & Ht)]; [done|]. destruct (column_by_name_wf _ _ _ Hwf Hc) as (_ & _ & _ & Hl & _). rewrite view_rows in Hl.
    destruct (window_mask_ok b c Hc Ht Hl _ _ Hw) as (mask & -> & Hm); [done|]. cbn [res_bind]. by apply filter_by_mask_rows.
Qed.

Lemma projected_rows o b : (forall cols name, projection o = Some cols -> name ∈ cols -> is_Some (index_of name (view_fields b))) ->
  exists b', project_batch_by_names b (projection o) = Ok b' /\ batch_rows b' = row_projected o (view_fields b) <$> batch_rows b.
Proof.
  unfold project_batch_by_names, row_projected. destruct (projection o) as [cols|]; intros H; [|exists b; split; [done|by rewrite list_fmap_id]].
  specialize (H cols). assert (Hm : res_mapM (fun name => ok_or (index_of name (view_fields b)) ESchema) cols = Ok (omap (fun n => index_of n (view_fields b)) cols)).
  { induction cols as [|n cols IH]; [done|]. destruct (H n eq_refl ltac:(by left)) as [i Hi]. cbn. rewrite Hi. cbn. rewrite IH; [done|].
    intros n' _ Hn. apply H; [done|by right]. }
  rewrite Hm. cbn [res_bind]. destruct (project_columns_ok b (omap (fun n => index_of n (view_fields b)) cols)) as (b' & -> & Hr); [|by exists b'].
  intros i (n & Hn & Hi)%list_elem_of_omap. destruct (index_of_field _ _ _ Hi) as (f & Hf & _). by eapply lookup_lt_Some.
Qed.

Lemma narrowed r w o b : window_of (fg_configs r) = Ok w ->
  (forall b', ArrowKernels.schema b' = ArrowKernels.schema b -> narrowable w o b') ->
  exists b', narrow r o b = Ok b' /\ batch_rows b' = narrowed_rows w o (view_fields b) (batch_rows b).
Proof.
  intros Hw Hn. destruct (Hn b eq_refl) as [Hwf Hwin _ _ _]. unfold narrow.
  destruct (windowed_rows _ w b Hw Hwf Hwin) as (b1 & -> & Hs1 & Hr1). cbn [res_bind]. unfold apply_eager_options.
  destruct (Hn b1 Hs1) as [Hwf1 _ Hc1 Hf1 _]. pose proof (view_schema _ _ Hs1) as Hv1.
  assert (Hvalid : validate_fields_against_schemas (filters o) [view_fields b1] = Ok tt).
  { unfold validate_fields_against_schemas. cbn [concat]. rewrite app_nil_r. rewrite (proj2 (forallb_forall _ _)); [done|].
    intros f Hf%list_elem_of_In. rewrite list.Forall_forall in Hf1. apply bool_decide_eq_true, elem_of_list_to_set, Hf1, Hf. }
  rewrite Hvalid. cbn [res_bind]. destruct (filtered_rows (filters o) b1 Hwf1 Hc1) as (b2 & -> & Hs2 & Hr2). cbn [res_bind].
  assert (Hs : ArrowKernels.schema b2 = ArrowKernels.schema b) by by rewrite Hs2. pose proof (view_schema _ _ Hs) as Hv2.
  destruct (projected_rows o b2 (nw_projected _ _ _ (Hn b2 Hs))) as (b3 & -> & Hr3). exists b3. split; [done|].
  unfold narrowed_rows. rewrite Hr3, Hr2, Hr1, Hv2, Hv1. f_equal. rewrite list_filter_filter. apply list_filter_iff. intros row.
  unfold row_kept. by rewrite andb_true_iff, (comm and).
Qed.

(** C4: A read narrows a batch to the rows of its window that pass all filters, in their order,
    each projected; the batch's columns decide that it does. *)
Theorem narrow_keeps_rows r w o b : window_of (fg_configs r) = Ok w ->
  (forall b', ArrowKernels.schema b' = ArrowKernels.schema b -> narrowable w o b') ->
  exists b', narrow r o b = Ok b' /\ batch_rows b' = narrowed_rows w o (view_fields b) (batch_rows b).
Proof. apply narrowed. Qed.
End narrowed.

(** * A sample of the library *)
Module SampleNarrowing.
Import ArrowFilter.SampleScalars ArrowKernels.Sample.

(** The rows of the sample have four cells, whatever their columns are called: a text, an
    ordering value, a number, and a text for the number zero. *)
Definition cell (r : row) (i : nat) : option Value :=
  match i with
  | 0%nat => utf8 r.1.1
  | 1%nat => match r.1.2 with Some (OLong z) => Some (mkValue Int64 (DInt z)) | _ => None end
  | 2%nat => int32 r.2
  | 3%nat => if r.2 =? 0 then utf8 "D" else None
  | _ => None
  end.

Definition types : list DataType := [Utf8; Int64; Int32; Utf8].

Definition viewed (b : batch) : Batch :=
  if (length (fields b) =? 4)%nat then
    ArrowFilter.mkBatch (zip_with ArrowFilter.mkField (fields b) types)
      (imap (fun i t => mkColumn t ((fun r => cell r i) <$> data b)) types) (length (data b))
  else ArrowFilter.mkBatch [] [] (length (data b)).

#[export] Instance views : BatchViews := {|
  view b := viewed b;
  of_view _ := Err EArrow;
  take_record_batch _ _ := Err EArrow;
  project_columns b idx := Ok (mk (omap (fun i => fields b !! i) idx) (data b) : RecordBatch);
  cast_column _ _ := Err EArrow
|}.

#[export] Instance view_laws : ViewLaws.
Proof.
  refine {| row_cell := cell : Row -> nat -> option Value; project_row _ r := r |}; cbn.
  - intros b b' E. unfold viewed. rewrite E. by destruct (_ =? 4)%nat.
  - intros b. unfold viewed. by destruct (_ =? 4)%nat.
  - intros b i c. unfold viewed. destruct (_ =? 4)%nat; [|done]. cbn [ArrowFilter.columns]. rewrite list_lookup_imap.
    destruct (types !! i); [|done]. by intros [= <-].
  - intros b idx _. eexists. split; [done|]. cbn. by rewrite list_fmap_id.
Defined.

Lemma viewed_wf (b : RecordBatch) : batch_wf (view b).
Proof.
  cbn. unfold viewed. destruct (_ =? 4)%nat eqn:E; [|by repeat constructor]. apply Nat.eqb_eq in E.
  destruct b as [[|n0 [|n1 [|n2 [|n3 [|]]]]] l]; try done. split; cbn.
  - repeat constructor; cbn; by rewrite length_fmap.
  - repeat constructor; apply list.Forall_forall; intros x (r & -> & _)%list_elem_of_fmap v; cbn; repeat case_match; by intros [= <-].
  - repeat constructor.
Qed.

Definition names : list string := [COMMIT_TIME; "ts"; "v"; "op"].

Definition sample_reader : FileGroupReader :=
  mkFGReader {["hoodie.read.start.timestamp" := "20240101"; "hoodie.read.end.timestamp" := "20240103"]} ∅ GroupBuilder.Parquet None None None.

Definition sample_options : ReadOptions := ReadOptions.mkReadOptions [field_gt "v" "1"] (Some ["v"]) ∅.

Definition sample_rows : RecordBatch :=
  mk names [("20240101", None, 5); ("20240102", None, 7); ("20240102", None, 1); ("20240103", None, 9); ("20240104", None, 8)].

Lemma sample_text b : ArrowKernels.schema b = names -> exists c, column_by_name (view b) COMMIT_TIME = Some c /\ text_column c.
Proof.
  intros E. cbn in *. unfold viewed. rewrite E. cbn. eexists. split; [done|]. split; [done|].
  intros v (r & Hv & _)%list_elem_of_fmap. injection Hv as ->. by eexists.
Qed.

Lemma sample_narrowable b : ArrowKernels.schema b = names ->
  narrowable (Between "20240101" (Some "20240103")) sample_options b.
Proof.
  intros E. pose proof (view_schema b sample_rows E) as Hs. split.
  - apply viewed_wf.
  - right. by apply sample_text.
  - apply list.Forall_singleton. split; [done|]. rewrite Hs. by intros _.
  - apply list.Forall_singleton. rewrite Hs. vm_compute. set_solver.
  - intros cols name [= <-] ->%list_elem_of_singleton. rewrite Hs. by eexists.
Qed.

Lemma narrow_keeps_rows_witness : exists b, narrow sample_reader sample_options sample_rows = Ok b /\
  batch_rows b = [("20240102", None, 7); ("20240103", None, 9)].
Proof.
  destruct (narrow_keeps_rows sample_reader (Between "20240101" (Some "20240103")) sample_options sample_rows) as (b & Hb & Hr).
  - vm_compute. reflexivity.
  - apply sample_narrowable.
  - exists b. split; [exact Hb|]. rewrite Hr. vm_compute. reflexivity.
Defined.
End SampleNarrowing.
