(* ===== verification/GroupReads.v ===== *)
(** What the reader of a slice promises: its reads end, a window and filters keep exactly
    their rows, and a streamed read has the rows of the read as a whole. *)
From Stdlib Require Import ZArith Ascii.
From stdpp Require Import base gmap sets list strings sorting numbers pretty.
From S2P Require Import HFileIndex Prelude RustStr StrReplace Chrono Config Instant Selector Files View FileGroup GroupBuilder Listing StorageReader RecordBatches LogFormat LogReader LogEncoding Scanner OrderingValues RecordMerger ArrowKernels RecordBuffer BaseMerge MergeStream LogMerge LogScan LogFetch LogRead PositionBuffer Timeline Expr ArrowFilter Options ReadOptions Table TableOptions RecordKeys Evolution ReadContext ReadSchema InputSplit GroupEngine GroupRead MergeV1 GroupReader Narrowing.
Local Open Scope res_scope.
Local Open Scope Z_scope.

(** * A merge ends *)
Section ends.
Context {AB : ArrowBatch} {AR : ArrowRows} {AK : ArrowKernels} {CO : ColumnOps} {RC : RecordContext} {MO : MapOrder} {ML : MapOrderLaws}
  {PC : PositionsCodec}.

(** The records of a buffer that are left to be merged or drained. *)
Definition buffer_left (b : Buffer) : nat :=
  (base.size (records b) + match log_drain_iter b with Some l => length l | None => O end)%nat.

Lemma merge_conflict_records b base s i key o log k k' : merge_conflict b base s i key o log k = Ok k' -> k_records k' = k_records k.
Proof.
  unfold merge_conflict. intros H. destruct (negb _); [by apply res_bind_Ok in H as (m & _ & [= <-])|].
  destruct (pick_winner _ _ _).
  - apply res_bind_Ok in H as (f & _ & H). destruct f; by injection H as <-.
  - by apply res_bind_Ok in H as (m & _ & [= <-]).
  - by injection H as <-.
Qed.

Lemma merge_row_records b base s os k row k' : BaseMerge.merge_row b base s os k row = Ok k' ->
  (base.size (k_records k') <= base.size (k_records k))%nat.
Proof.
  unfold BaseMerge.merge_row. destruct row as [idx key]. destruct (k_records k !! key) eqn:E; [|by intros [= <-]].
  intros ->%merge_conflict_records. cbn. rewrite map_size_delete, E. lia.
Qed.

Lemma kernel_left b base s m b' out : merge_one_base_batch_kernel b base s m = Ok (b', out) -> (buffer_left b' <= buffer_left b)%nat.
Proof.
  unfold merge_one_base_batch_kernel. destruct (RecordBatches.num_rows base =? 0); [by intros [= <- <-]|]. intros H.
  apply res_bind_Ok in H as (keys & _ & H). apply res_bind_Ok in H as (os & _ & H). apply res_bind_Ok in H as (k & Hk & H).
  apply res_bind_Ok in H as (o & _ & [= <- <-]).
  apply (res_fold_inv (fun k => (base.size (k_records k) <= base.size (records b))%nat)) in Hk; [|intros k1 row k2 _ Hle H%merge_row_records; lia|done].
  unfold buffer_left. cbn. lia.
Qed.

Lemma drain_chunk_left s l : forall room u rs u' rest, drain_chunk s room l u = Ok (rs, u', rest) ->
  (length rs + match rest with Some l => length l | None => O end <= length l)%nat.
Proof.
  induction l as [|x l IH]; intros [|room] u rs u' rest H; cbn [drain_chunk] in H; try (injection H as <- <- <-; cbn; lia).
  destruct (is_delete x); [apply IH in H; cbn; lia|]. apply res_bind_Ok in H as (x' & _ & H).
  apply res_bind_Ok in H as ([[rs1 u1] rest1] & H1%IH & [= <- <- <-]). cbn. lia.
Qed.

Lemma drain_left b s b' out : drain_log_only_inserts b s = Ok (b', out) ->
  (buffer_left b' <= buffer_left b)%nat /\ (is_Some out -> (buffer_left b' < buffer_left b)%nat).
Proof.
  unfold drain_log_only_inserts. destruct (start_drain b) as [[it b1]|] eqn:E; [|intros [= <- <-]; split; [done|by intros []]].
  assert (Hit : (base.size (records b1) + length it <= buffer_left b)%nat).
  { unfold start_drain in E. unfold buffer_left. destruct (log_drain_iter b); [injection E as <- <-; lia|]. case_bool_decide; [done|].
    injection E as <- <-. cbn. rewrite into_values_length, map_size_empty. lia. }
  intros H. apply res_bind_Ok in H as ([[rs u] rest] & Hd%drain_chunk_left & H).
  assert (Hle : (length rs + buffer_left (set_drain rest (set_stats u b1)) <= buffer_left b)%nat) by (unfold buffer_left in *; cbn in *; lia).
  destruct rs as [|x rs]; [injection H as <- <-; split; [cbn in Hle; lia|by intros []]|].
  apply res_bind_Ok in H as (batch & _ & H). apply res_bind_Ok in H as (_ & _ & [= <- <-]). cbn [length] in Hle. split; [|intros _]; lia.
Qed.

Lemma group_merge_left g base s g' out : group_merge_base g base s = Ok (g', out) ->
  (buffer_left (group_inner g') <= buffer_left (group_inner g))%nat.
Proof.
  destruct g as [b|b]; cbn [group_merge_base]; intros H.
  - apply res_bind_Ok in H as ([b' o] & H & [= <- <-]). by apply kernel_left in H.
  - apply res_bind_Ok in H as ([b' o] & H & [= <- <-]). unfold merge_base_batch in H. destruct (needs_hybrid_strategy b); [done|].
    apply res_bind_Ok in H as ([i o'] & H & [= <- <-]). by apply kernel_left in H.
Qed.

Lemma group_drain_left g s g' out : group_drain g s = Ok (g', out) ->
  is_Some out -> (buffer_left (group_inner g') < buffer_left (group_inner g))%nat.
Proof.
  destruct g as [b|b]; cbn [group_drain]; intros H.
  - apply res_bind_Ok in H as ([b' o] & H & [= <- <-]). by apply drain_left in H as [_ H].
  - apply res_bind_Ok in H as ([b' o] & H & [= <- <-]). unfold position_drain_log_only_inserts in H.
    apply res_bind_Ok in H as ([i o'] & H & [= <- <-]). by apply drain_left in H as [_ H].
Qed.

(** The turns that a source has left. *)
Definition source_left (src : GroupSource) : nat :=
  match src with
  | EagerSource l => S (length l)
  | BufferedSource buffer base_source _ _ =>
      S (match base_source with Some l => length l | None => O end + buffer_left (group_inner buffer))
  end.

Lemma chunks_left_source s : group_chunks_left s = source_left (g_source s).
Proof. unfold group_chunks_left, source_left, buffer_left. destruct (g_source s) as [l|b [l|] c st]; [done|lia|lia]. Qed.

Lemma drain_turn_left b src s batch next : group_drain_turn b src s = GroupChunk batch next ->
  (source_left next < source_left (BufferedSource b src s DrainingLogInserts))%nat.
Proof.
  unfold group_drain_turn. destruct (group_drain b s) as [[b' [x|]]| |] eqn:E; try done. destruct (0 <? RecordBatches.num_rows x); [|done].
  intros [= <- <-]. apply group_drain_left in E; [|done]. cbn. lia.
Qed.

Lemma scan_turn_left s src batch next : forall b, group_scan_turn b src s = GroupChunk batch next ->
  (source_left next < source_left (BufferedSource b (Some src) s BaseScanning))%nat.
Proof.
  induction src as [|[x|e|] src IH]; intros b; cbn [group_scan_turn]; try done.
  - intros H%drain_turn_left. cbn in *. lia.
  - destruct (RecordBatches.num_rows x =? 0); [intros H%IH; cbn in *; lia|].
    destruct (group_merge_base b x s) as [[b' [y|]]| |] eqn:E; try done; apply group_merge_left in E; [destruct (RecordBatches.num_rows y =? 0)|].
    + intros H%IH. cbn in *. lia.
    + intros [= <- <-]. cbn. lia.
    + intros H%IH. cbn in *. lia.
Qed.

Lemma turn_left src batch next : group_turn src = GroupChunk batch next -> (source_left next < source_left src)%nat.
Proof.
  destruct src as [[|[x|e|] l]|b [l|] s []]; cbn [group_turn]; try done.
  - intros [= <- <-]. cbn. lia.
  - apply scan_turn_left.
  - intros H%drain_turn_left. cbn in *. lia.
  - intros H%drain_turn_left. cbn in *. lia.
  - intros H%drain_turn_left. cbn in *. lia.
Qed.

(** What fails a turn is no batch. *)
Lemma drain_turn_failed b src s e : group_drain_turn b src s = GroupFailed e -> is_Ok e = false.
Proof.
  unfold group_drain_turn. destruct (group_drain b s) as [[b' [x|]]| |]; try done; [by destruct (0 <? RecordBatches.num_rows x)|by intros [= <-]..].
Qed.

Lemma scan_turn_failed s src e : forall b, group_scan_turn b src s = GroupFailed e -> is_Ok e = false.
Proof.
  induction src as [|[x|e'|] src IH]; intros b; cbn [group_scan_turn]; [apply drain_turn_failed| |by intros [= <-]..].
  destruct (RecordBatches.num_rows x =? 0); [apply IH|].
  destruct (group_merge_base b x s) as [[b' [y|]]| |]; [destruct (RecordBatches.num_rows y =? 0); [apply IH|done]|apply IH|by intros [= <-]..].
Qed.

Lemma turn_failed src e : group_turn src = GroupFailed e -> is_Ok e = false.
Proof.
  destruct src as [[|[x|e'|] l]|b [l|] s []]; cbn [group_turn]; try done; try (by intros [= <-]); first [apply scan_turn_failed|apply drain_turn_failed].
Qed.

(** A stream is over once an item failed. *)
Lemma failed_over s item s' : group_next_chunk s = (Some item, s') -> is_Ok item = false -> group_next_chunk s' = (None, s').
Proof.
  unfold group_next_chunk at 1. destruct (g_done s); [done|].
  destruct (group_turn (g_source s)) as [b n|n|e]; [|done|]; intros [= <- <-] Hf; [|done]. unfold group_next_chunk. cbn [g_done]. by rewrite Hf.
Qed.

Lemma next_left s batch s' : group_next_chunk s = (Some (Ok batch), s') -> (group_chunks_left s' < group_chunks_left s)%nat.
Proof.
  unfold group_next_chunk. rewrite !chunks_left_source. destruct (g_done s); [done|].
  destruct (group_turn (g_source s)) as [b n|n|e] eqn:E; [apply turn_left in E|done|by apply turn_failed in E; intros [= -> _]].
  intros [= _ <-]. by cbn.
Qed.

Lemma items_step fuel s : group_items (S fuel) s = match group_next_chunk s with
                                                   | (None, _) => Some []
                                                   | (Some item, s) => cons item <$> group_items fuel s
                                                   end.
Proof. done. Qed.

(** Collecting draws the items, and fails with the first that does. *)
Lemma collected_items fuel : forall s chunks, (group_chunks_left s <= fuel)%nat -> exists items, group_items (S fuel) s = Some items /\
  match res_mapM (fun i => i) items with
  | Ok l => exists st, group_collect_chunks fuel s chunks = Ok (Some (chunks ++ l, st))
  | Err e => group_collect_chunks fuel s chunks = Err e
  | Panic => group_collect_chunks fuel s chunks = Panic
  end.
Proof.
  induction fuel as [|fuel IH]; intros s chunks Hs; [rewrite chunks_left_source in Hs; destruct (g_source s); cbn in Hs; lia|].
  rewrite items_step. cbn [group_collect_chunks]. destruct (group_next_chunk s) as [[[batch|e|]|] s'] eqn:E.
  - destruct (IH s' (chunks ++ [batch])) as (items & -> & H); [apply next_left in E; lia|]. eexists. split; [done|].
    cbn [res_mapM res_bind]. destruct (res_mapM _ items); cbn [res_bind]; [|done..]. by rewrite <- app_assoc in H.
  - rewrite items_step, (failed_over _ _ _ E) by done. by eexists.
  - rewrite items_step, (failed_over _ _ _ E) by done. by eexists.
  - exists []. split; [done|]. exists s'. cbn. by rewrite app_nil_r.
Qed.

(** The batch of a collected merge. *)
Lemma collected_batch_items s : exists items, group_items (S (group_chunks_left s)) s = Some items /\
  group_collect_into_one_batch s
  = let? chunks := res_mapM (fun i => i) items in
    match chunks with
    | [] => Ok (Some (new_empty (g_output_schema s)))
    | [chunk] => Ok (Some chunk)
    | _ => map_err EReadFileSlice (res_map Some (concat_batches (g_output_schema s) chunks))
    end.
Proof.
  destruct (collected_items (group_chunks_left s) s [] (le_n _)) as (items & Hi & H). exists items. split; [done|].
  unfold group_collect_into_one_batch. destruct (res_mapM _ items) as [l|e|]; [destruct H as [st ->]|by rewrite H..]. done.
Qed.

Lemma collected_some s : group_collect_into_one_batch s <> Ok None.
Proof.
  destruct (collected_batch_items s) as (items & _ & ->). destruct (res_mapM _ items) as [[|c [|c' l]]| |]; try done. cbn [res_bind].
  by destruct (concat_batches _ _).
Qed.
End ends.

(** * Reads of a slice *)
Section reads.
Context {AB : ArrowBatch} {AR : ArrowRows} {AK : ArrowKernels} {CO : ColumnOps} {MO : MapOrder} {ML : MapOrderLaws} {PC : PositionsCodec}
  {PD : Pushdown} {AS : ArrowSchemas} {CM : CustomMergers} {C : Chrono} {D : ContentDecoder} {RS : RangeStore} {LS : LogStorage}
  {AC : ArrowColumns} {FT : FloatText} {AA : ArrowArrays} {BA : ArrayBatches} {BR : BaseFileReaders} {VS : AvroSchemas}
  {SB : SortBy} {BV : BatchViews} {SC : ArrowScalars} {RF : RowFormat}.

Lemma traverse_some {A B} (f : A -> res B) o : o <> Ok None -> (let? x := o in opt_traverse f x) <> Ok None.
Proof. destruct o as [[x|]| |]; try done. intros _. cbn. by destruct (f x). Qed.

Lemma group_read_some (r : HoodieFileGroupReader) : group_read r <> Ok None.
Proof. unfold group_read. destruct (open_stream r); cbn [res_bind]; [apply collected_some|done..]. Qed.

(** A merge through version two is the collected stream. *)
Lemma merged_by_stream configs storage path logs partition schema inputs :
  merged_file_slice configs storage path logs partition schema inputs
  = let? (reader, stream) := merged_file_slice_stream configs storage path logs partition schema inputs in
    group_collect_into_one_batch (RC := reader_records reader) stream.
Proof.
  unfold merged_file_slice, merged_file_slice_stream. destruct (build_reader _ _ _ _ _ _ _) as [reader| |]; [|done..]. cbn [res_bind].
  unfold group_read. by destruct (open_stream reader).
Qed.

Lemma read_via_v2_some r path logs : read_via_v2 r path logs <> Ok None.
Proof.
  unfold read_via_v2. destruct (resolved_data_schema r path) as [s| |]; [|done..]. cbn [res_bind].
  destruct (refused r s); [|done..]. cbn [res_bind]. apply traverse_some. rewrite merged_by_stream.
  destruct (merged_file_slice_stream _ _ _ _ _ _ _) as [[reader stream]| |]; [|done..]. apply collected_some.
Qed.

Lemma read_from_paths_some r path logs o : read_file_slice_from_paths r path logs o <> Ok None.
Proof.
  unfold read_file_slice_from_paths. destruct (resolve_read_options r o) as [o'| |]; [|done..]. cbn [res_bind].
  destruct (match logs with [] => _ | _ => _ end) as [only| |]; [|done..]. cbn [res_bind].
  destruct (serve_with_version_two r only) as [two| |]; [|done..]. cbn [res_bind]. apply traverse_some.
  destruct two; [apply read_via_v2_some|]. destruct only; [by destruct (read_base_file_eager r path)|by destruct (read_via_v1 r path logs)].
Qed.

(** C5: A read of a slice, whole or as a stream, returns a result: no merge draws more items than
    the turns its base file and its log records allow. *)
Theorem reads_end r path logs o known_size :
  read_file_slice_from_paths r path logs o <> Ok None /\ read_file_slice_from_paths_stream r path logs o known_size <> Ok None.
Proof.
  split; [apply read_from_paths_some|]. unfold read_file_slice_from_paths_stream.
  destruct (resolve_read_options r o) as [o'| |]; [|done..]. cbn [res_bind]. destruct (is_read_optimized o') as [ro| |]; [|done..]. cbn [res_bind].
  destruct (ro || _); [by destruct (read_base_file_stream r path o' known_size)|].
  destruct (serve_with_version_two r false) as [two| |]; [|done..]. cbn [res_bind]. destruct two.
  - unfold stream_via_v2. destruct (resolved_data_schema r path) as [s| |]; [|done..]. cbn [res_bind].
    destruct (refused r s); [|done..]. cbn [res_bind].
    destruct (merged_file_slice_stream _ _ _ _ _ _ _) as [[reader stream]| |]; [|done..]. cbn [res_bind].
    destruct (collected_batch_items (RC := reader_records reader) stream) as (items & -> & _). done.
  - pose proof (read_from_paths_some r path logs o'). by destruct (read_file_slice_from_paths r path logs o') as [[b|]| |].
Qed.

Lemma served_not_metadata r only two : serve_with_version_two r only = Ok two -> two = true -> is_metadata_table r = Ok false.
Proof.
  unfold serve_with_version_two, file_group_reader_version. intros (v & (m & Hm & Hv)%res_bind_Ok & H)%res_bind_Ok ->.
  destruct m; [|done]. by injection Hv as <-.
Qed.

(** ** The streamed read *)
Context {AL : ArrowLaws} {VL : ViewLaws} {SL : ScalarLaws SC}.

Lemma collected_rows {RC : RecordContext} s chunks : group_items (S (group_chunks_left s)) s = Some (Ok <$> chunks) ->
  (forall c, c ∈ chunks -> ArrowKernels.schema c = g_output_schema s) ->
  exists b, group_collect_into_one_batch s = Ok (Some b) /\ ArrowKernels.schema b = g_output_schema s /\
    batch_rows b = concat (batch_rows <$> chunks).
Proof.
  intros Hi Hs. destruct (collected_batch_items s) as (items & Hi' & ->). assert (items = Ok <$> chunks) as -> by congruence.
  assert (Hm : res_mapM (fun i : res RecordBatch => i) (Ok <$> chunks) = Ok chunks).
  { clear. induction chunks as [|c l IH]; [done|]. cbn [fmap list_fmap res_mapM res_bind]. by rewrite IH. }
  rewrite Hm. cbn [res_bind]. destruct chunks as [|c [|c' l]].
  - eexists. split; [done|]. split; [apply new_empty_schema|]. by rewrite new_empty_rows.
  - eexists. split; [done|]. split; [apply Hs; by left|]. cbn. by rewrite app_nil_r.
  - destruct (concat_rows _ _ Hs) as (b & -> & Hb & Hr). exists b. by split_and!.
Qed.

Lemma narrowed_items r w o s chunks : window_of (fg_configs r) = Ok w ->
  (forall b, ArrowKernels.schema b = s -> narrowable w o b) -> (forall c, c ∈ chunks -> ArrowKernels.schema c = s) ->
  exists outs, map (fun item => res_bind item (narrow r o)) (Ok <$> chunks) = Ok <$> outs /\
    Forall2 (fun c out => narrow r o c = Ok out /\ batch_rows out = narrowed_rows w o (ArrowFilter.batch_schema (view c)) (batch_rows c)) chunks outs.
Proof.
  intros Hw Hn Hs. induction chunks as [|c l IH]; [by exists []|]. destruct IH as (outs & Ho & Hf); [intros c' Hc; apply Hs; by right|].
  pose proof (Hs c ltac:(by left)) as Hc. destruct (narrowed r w o c Hw) as (out & Hout & Hr); [intros b' Hb'; apply Hn; by rewrite Hb'|].
  exists (out :: outs). split; [|by constructor]. cbn [fmap list_fmap map res_bind]. rewrite Hout. by f_equal.
Qed.

(** C2: A streamed merge and the merge as a whole return the same rows: those of the merged
    batches that are in the window and pass the filters, projected. *)
Theorem streamed_read_agrees r path logs o o' known_size ds reader stream chunks w :
  resolve_read_options r o = Ok o' -> is_read_optimized o' = Ok false -> logs <> [] -> serve_with_version_two r false = Ok true ->
  resolved_data_schema r path = Ok ds ->
  merged_file_slice_stream (fg_configs r) (fg_storage r) path logs (partition_path_of path) (Some ds) (fg_gate_inputs r) = Ok (reader, stream) ->
  group_items (RC := reader_records reader) (S (group_chunks_left stream)) stream = Some (Ok <$> chunks) ->
  (forall c, c ∈ chunks -> ArrowKernels.schema c = g_output_schema stream) ->
  window_of (fg_configs r) = Ok w ->
  (forall b, ArrowKernels.schema b = g_output_schema stream -> narrowable w o' b) ->
  exists out outs, read_file_slice_from_paths r path logs o = Ok (Some out) /\
    read_file_slice_from_paths_stream r path logs o known_size = Ok (Some (Ok <$> outs)) /\
    batch_rows out = concat (batch_rows <$> outs) /\
    exists s, (forall c, c ∈ chunks -> ArrowFilter.batch_schema (view c) = s) /\
      batch_rows out = narrowed_rows w o' s (concat (batch_rows <$> chunks)).
Proof.
  intros Ho Hro Hl Htwo Hds Hm Hi Hs Hw Hn. pose proof (served_not_metadata _ _ _ Htwo eq_refl) as Hmeta.
  assert (Href : refused r ds = Ok tt) by (unfold refused; by rewrite Hmeta).
  destruct (collected_rows (RC := reader_records reader) stream chunks Hi Hs) as (b & Hb & Hbs & Hbr).
  destruct (narrowed r w o' b Hw) as (out & Hout & Hor); [intros b' Hb'; apply Hn; by rewrite Hb'|].
  destruct (narrowed_items r w o' _ chunks Hw Hn Hs) as (outs & Houts & Hf). exists out, outs.
  assert (Hrow : batch_rows out = concat (batch_rows <$> outs)).
  { rewrite Hor, Hbr, <- narrowed_concat. f_equal. clear Houts Hi Hbr. induction Hf as [|c x l l' [_ Hx] _ IH]; [done|]. rewrite !fmap_cons. f_equal.
    - rewrite Hx. f_equal. apply view_schema. rewrite Hbs. symmetry. apply Hs. by left.
    - apply IH. intros c' Hc. apply Hs. by right. }
  split_and!; [| |done|].
  - unfold read_file_slice_from_paths. rewrite Ho. cbn [res_bind]. destruct logs as [|l logs]; [done|]. rewrite Hro. cbn [res_bind].
    rewrite Htwo. cbn [res_bind]. unfold read_via_v2. rewrite Hds. cbn [res_bind]. rewrite Href. cbn [res_bind]. rewrite merged_by_stream, Hm.
    cbn [res_bind]. rewrite Hb. cbn [res_bind opt_traverse]. unfold narrow in Hout. apply res_bind_Ok in Hout as (b1 & -> & H1).
    cbn [res_map res_bind opt_traverse]. by rewrite H1.
  - unfold read_file_slice_from_paths_stream. rewrite Ho. cbn [res_bind]. rewrite Hro. cbn [res_bind orb]. rewrite bool_decide_false by done.
    rewrite Htwo. cbn [res_bind]. unfold stream_via_v2. rewrite Hds. cbn [res_bind]. rewrite Href. cbn [res_bind]. rewrite Hm. cbn [res_bind].
    rewrite Hi. cbn [option_map]. by rewrite Houts.
  - exists (ArrowFilter.batch_schema (view b)). split; [|by rewrite Hor, Hbr]. intros c Hc. apply view_schema. by rewrite Hbs, (Hs c Hc).
Qed.
End reads.

(** * A sample of the library *)
Module SampleReads.
Import ArrowFilter.SampleScalars ArrowKernels.Sample MergeStream.SampleContext LogRead.SampleLogRead GroupRead.SampleGroupRead Narrowing.SampleNarrowing.

#[local] Remove Hints sample_context sample_decoder sample_storage sample_ranges sample_context_laws : typeclass_instances.

#[local] Instance sample_sort : SortBy := insertion_sort_by.
#[local] Instance sample_format : RowFormat := MergeV1.SampleMergeV1.format.

Definition slice_reader : FileGroupReader := mkFGReader sample_configs ∅ GroupBuilder.Parquet (Some GroupBuilder.Parquet) (Some sample_fields) None.

Definition log_paths : list string := [log_path_2; log_path_1].

Definition asked : ReadOptions := ReadOptions.mkReadOptions [field_gt "v" "30"] (Some ["k"; "v"]) ∅.

Definition opened : res (HoodieFileGroupReader * GroupStream) :=
  merged_file_slice_stream sample_configs ∅ base_path log_paths (partition_path_of base_path) (Some sample_fields) None.

(** Both reads of the slice, its base file and two logs. *)
Example sample_read : read_file_slice_from_paths slice_reader base_path log_paths asked
  = Ok (Some (mk ["k"; "v"] [("b", Some (OLong 4), 40); ("a", Some (OLong 5), 51); ("d", Some (OLong 9), 91)])).
Proof. vm_compute. reflexivity. Qed.

Example sample_streamed : read_file_slice_from_paths_stream slice_reader base_path log_paths asked None
  = Ok (Some [Ok (mk ["k"; "v"] [("b", Some (OLong 4), 40); ("a", Some (OLong 5), 51)]);
              Ok (mk ["k"; "v"] []); Ok (mk ["k"; "v"] [("d", Some (OLong 9), 91)])]).
Proof. vm_compute. reflexivity. Qed.

Definition resolved : ReadOptions := match resolve_read_options slice_reader asked with Ok o => o | _ => asked end.
Definition sample_reader : HoodieFileGroupReader := match opened with Ok p => p.1 | _ => sample_group_reader end.
Definition sample_stream : GroupStream :=
  match opened with Ok p => p.2 | _ => mkGroupStream (EagerSource []) four None true (mkUpdateStats 0 0 0) end.

Definition sample_chunks : list RecordBatch :=
  [mk four [("b", Some (OLong 4), 40); ("a", Some (OLong 5), 51)]; mk four [("e", None, 1)]; mk four [("d", Some (OLong 9), 91)]].

Lemma opened_ok : opened = Ok (sample_reader, sample_stream).
Proof.
  assert (is_Ok opened = true) as Ho by vm_eq. unfold sample_reader, sample_stream. by destruct opened as [[rd st]| |].
Qed.

Lemma asked_narrowable b : ArrowKernels.schema b = four -> narrowable AllRows resolved b.
Proof.
  intros E. pose proof (view_schema b (mk four [] : RecordBatch) E) as Hs.
  assert (ReadOptions.filters resolved = [field_gt "v" "30"]) as Ef by vm_eq. assert (projection resolved = Some ["k"; "v"]) as Ep by vm_eq. split.
  - apply viewed_wf.
  - by left.
  - rewrite Ef. apply list.Forall_singleton. split; [done|]. rewrite Hs. by intros _.
  - rewrite Ef. apply list.Forall_singleton. rewrite Hs. by apply (list_elem_of_lookup_2 _ 2).
  - intros cols name Hc Hn. rewrite Ep in Hc. injection Hc as <-. rewrite Hs. apply list_elem_of_In in Hn as [<-|[<-|[]]]; by eexists.
Qed.

Lemma streamed_read_agrees_witness : exists out outs,
  read_file_slice_from_paths slice_reader base_path log_paths asked = Ok (Some out) /\
  read_file_slice_from_paths_stream slice_reader base_path log_paths asked None = Ok (Some (Ok <$> outs)) /\
  batch_rows out = concat (batch_rows <$> outs) /\ length (batch_rows out) = 3%nat.
Proof.
  destruct (streamed_read_agrees slice_reader base_path log_paths asked resolved None sample_fields sample_reader sample_stream sample_chunks AllRows)
    as (out & outs & H1 & H2 & H3 & s & Hs & H4).
  - vm_compute. reflexivity.
  - vm_compute. reflexivity.
  - done.
  - vm_compute. reflexivity.
  - reflexivity.
  - exact opened_ok.
  - vm_compute. reflexivity.
  - intros c Hc. assert (g_output_schema sample_stream = four) as -> by vm_eq. in_cases Hc; reflexivity.
  - vm_compute. reflexivity.
  - assert (g_output_schema sample_stream = four) as -> by vm_eq. apply asked_narrowable.
  - exists out, outs. split; [exact H1|]. split; [exact H2|]. split; [exact H3|]. rewrite H4, <- (Hs (mk four [("e", None, 1)])) by (right; by left). vm_compute. reflexivity.
Defined.
(** The two reads of the slice end, in three rows and in three batches. *)
Lemma reads_end_witness :
  (read_file_slice_from_paths slice_reader base_path log_paths asked <> Ok None /\
   read_file_slice_from_paths_stream slice_reader base_path log_paths asked None <> Ok None) /\
  option_map (fun b => length (batch_rows b)) (match read_file_slice_from_paths slice_reader base_path log_paths asked with Ok o => o | _ => None end) = Some 3%nat /\
  option_map (length (A := _)) (match read_file_slice_from_paths_stream slice_reader base_path log_paths asked None with Ok o => o | _ => None end) = Some 3%nat.
Proof.
  split; [exact (reads_end slice_reader base_path log_paths asked None)|]. split; vm_compute; reflexivity.
Defined.
End SampleReads.
