(* ===== verification/PartialColumns.v ===== *)
(** The columns of partial updates: from is_key_or_meta_column and array_value_equals_sentinel
    to union_schema of crates/core/src/file_group/reader_v2/buffer/key_based.rs, and
    reconcile_batch_to_schema of buffer/row_extraction.rs.

    They implement [ColumnOps], the interface the record buffer is written against: a narrow
    record is laid over the row before it, a record that lacks values takes them from the
    record that loses to it, and a batch gets the names a schema gives its columns. *)
From Stdlib Require Import ZArith Ascii.
From stdpp Require Import base gmap sets list strings sorting numbers pretty.
From S2P Require Import Prelude RustStr StorageReader RecordBatches OrderingValues RecordMerger ArrowKernels Evolution.
Local Open Scope res_scope.
Local Open Scope Z_scope.

(** The elements of arrays: texts and bytes ([is_text] holds for [Utf8], [LargeUtf8],
    [Binary] and [LargeBinary]), booleans and integers; and the data of nested arrays. *)
Class ArrowCells {AA : ArrowArrays} := {
  is_null : Arr -> nat -> bool;
  is_text : ArrowType -> bool;
  text_at : Arr -> nat -> option string;
  bool_at : Arr -> nat -> bool;
  int_at : Arr -> nat -> Z;
  child_data : Arr -> list Arr;
  (** [into_builder().data_type(..).child_data(..).build()] *)
  build_data : Arr -> ArrowType -> list Arr -> res Arr
}.

(** The default an Avro schema gives a field, and the types it tells apart. *)
Inductive JsonDefault := JNull | JBool (b : bool) | JNumber (as_i64 : option Z) | JOther.

Inductive AvroShape := SInt | SLong | SUnion (variants : list AvroShape) | SOther.

Record AvroField := mkAvroField { af_name : string; af_default : option JsonDefault; af_schema : AvroShape }.

(** [apache_avro::Schema::parse_str]: the fields, of a record. *)
Class AvroRecords := { parse_record : string -> option (list AvroField) }.

(** * Reconciling names *)
Section reconcile.
Context {FT : FloatText} {AA : ArrowArrays} {AC : ArrowCells} {AB : ArrowBatch} {BA : ArrayBatches}.

(** [rebuild_array_data_to_type] *)
Fixpoint rebuild_array_data_to_type (target : ArrowType) (data : Arr) {struct target} : res Arr :=
  let leaf := if decide (arr_type data <> target) then Err EArrow else Ok data in
  let one (f : Field) :=
    match child_data data with
    | [c] => let? c := rebuild_array_data_to_type (f_type f) c in build_data data target [c]
    | _ => Err EArrow
    end in
  match target with
  | AList f | ALargeList f | AFixedSizeList f _ | AMap f _ => one f
  | AStruct [] => leaf
  | AStruct fs =>
      if negb (length (child_data data) =? length fs)%nat then Err EArrow
      else
        let? rebuilt :=
          (fix go fs (cs : list Arr) :=
             match fs, cs with
             | f :: fs, c :: cs =>
                 let? c := rebuild_array_data_to_type (f_type f) c in let? cs := go fs cs in Ok (c :: cs)
             | _, _ => Ok []
             end) fs (child_data data) in
        build_data data target rebuilt
  | _ => leaf
  end.

(** One column of [reconcile_batch_to_schema]. *)
Definition reconciled_column (batch : RecordBatch) (target_field : Field) : res Arr :=
  match find_field (f_name target_field) (batch_schema batch) with
  | None => Err EReadFileSlice
  | Some (idx, _) =>
      let? source_col := batch_column batch idx in
      if decide (arr_type source_col = f_type target_field) then Ok source_col
      else if is_promotion (arr_type source_col) (f_type target_field) then evolve_array source_col target_field
      else map_err EReadFileSlice (rebuild_array_data_to_type (f_type target_field) source_col)
  end.

Definition reconcile_batch_to_schema (batch : RecordBatch) (target : Fields) : res RecordBatch :=
  let? columns := res_mapM (reconciled_column batch) target in
  map_err EReadFileSlice (batch_new target columns).

Fixpoint is_name_reconcilable (source target : ArrowType) {struct target} : bool :=
  bool_decide (source = target) ||
  match source, target with
  | AList a, AList b | ALargeList a, ALargeList b => is_name_reconcilable (f_type a) (f_type b)
  | AMap a sa, AMap b sb => eqb sa sb && is_name_reconcilable (f_type a) (f_type b)
  | AStruct fa, AStruct fb =>
      (fix go (fa fb : list Field) {struct fb} :=
         match fa, fb with
         | [], [] => true
         | x :: fa, y :: fb => bool_decide (f_name x = f_name y) && is_name_reconcilable (f_type x) (f_type y) && go fa fb
         | _, _ => false
         end) fa fb
  | _, _ => false
  end.

(** [reconcile_one_column] *)
Definition reconcile_one_column (src : RecordBatch) (src_idx : nat) (target_field : Field) : res Arr :=
  match batch_schema src !! src_idx with
  | None => Panic
  | Some field =>
      let? column := batch_column src src_idx in
      let? one := map_err EReadFileSlice (batch_new [field] [column]) in
      let? recon := reconcile_batch_to_schema one [target_field] in
      batch_column recon 0
  end.

(** * Narrow records *)

(** One column of [overlay_partial_over_prior]. *)
Definition overlaid_column (partial prior_row : RecordBatch) (field : Field) : res Arr :=
  match find_field (f_name field) (batch_schema partial) with
  | Some (pidx, _) =>
      let? col := batch_column partial pidx in
      if decide (arr_type col = f_type field) then Ok col
      else if is_name_reconcilable (arr_type col) (f_type field) then reconcile_one_column partial pidx field
      else Err EUnsupported
  | None =>
      match find_field (f_name field) (batch_schema prior_row) with
      | Some (bidx, _) =>
          let? col := batch_column prior_row bidx in
          if decide (arr_type col = f_type field) then Ok col
          else if is_name_reconcilable (arr_type col) (f_type field) then reconcile_one_column prior_row bidx field
          else Ok (new_null_array (f_type field) 1)
      | None => Ok (new_null_array (f_type field) 1)
      end
  end.

Definition overlay_partial_over_prior (partial prior_row : RecordBatch) (target : Fields) : res RecordBatch :=
  let? cols := res_mapM (overlaid_column partial prior_row) target in
  map_err EReadFileSlice (batch_new target cols).

(** One column of [pad_partial_to_target]. *)
Definition padded_column (partial : RecordBatch) (field : Field) : res Arr :=
  match find_field (f_name field) (batch_schema partial) with
  | Some (pidx, _) =>
      let? col := batch_column partial pidx in
      if decide (arr_type col <> f_type field) then Err EUnsupported else Ok col
  | None => Ok (new_null_array (f_type field) 1)
  end.

Definition pad_partial_to_target (partial : RecordBatch) (target : Fields) : res RecordBatch :=
  let? cols := res_mapM (padded_column partial) target in
  map_err EReadFileSlice (batch_new target cols).

Definition has_field (name : string) (s : Fields) : bool := match find_field name s with Some _ => true | None => false end.

Definition union_schema (incoming prior : Fields) : Fields := prior ++ filter (fun f => has_field (f_name f) prior = false) incoming.

(** * Values that are not there *)
Definition HOODIE_META_COLUMN_PREFIX : string := "_hoodie_".

Definition is_key_or_meta_column (name : string) (key_field_names : list string) : bool :=
  starts_with HOODIE_META_COLUMN_PREFIX name || existsb (String.eqb name) key_field_names.

Definition array_value_equals_sentinel (arr : Arr) (sentinel : string) : bool :=
  negb (is_null arr 0) && is_text (arr_type arr) && bool_decide (text_at arr 0 = Some sentinel).

Definition column_contains_sentinel (arr : Arr) (sentinel : string) : bool :=
  is_text (arr_type arr) && existsb (fun i => bool_decide (text_at arr i = Some sentinel)) (seq 0 (Z.to_nat (arr_len arr))).

(** One column of [guard_no_unavailable_sentinel]. *)
Definition guard_column (batch : RecordBatch) (sentinel : string) (key_field_names : list string) (_ : unit) (f : nat * Field) : res unit :=
  if is_key_or_meta_column (f_name f.2) key_field_names then Ok tt
  else
    let? col := batch_column batch f.1 in
    if column_contains_sentinel col sentinel then Err EReadFileSlice else Ok tt.

Definition guard_no_unavailable_sentinel (batch : RecordBatch) (sentinel : string) (key_field_names : list string) : res unit :=
  res_fold (guard_column batch sentinel key_field_names) (imap pair (batch_schema batch)) tt.

(** [DefaultRetain] *)
Inductive DefaultRetain := OnNull | OnInt (v : Z) | OnBool (b : bool) | Never.

Definition value_is_default (arr : Arr) (retain : DefaultRetain) : bool :=
  match retain with
  | OnNull => is_null arr 0
  | Never => false
  | OnBool b => negb (is_null arr 0) && bool_decide (arr_type arr = ABoolean) && eqb (bool_at arr 0) b
  | OnInt d =>
      negb (is_null arr 0) &&
      match arr_type arr with
      | AInt32 | AInt64 => int_at arr 0 =? d
      | _ => false
      end
  end.

(** The loops of [fill_unavailable_from_base] and [reconcile_defaults_from_prior], which
    differ in the values they replace. *)
Definition blended_column (missing : Field -> Arr -> bool) (key_field_names : list string) (winner loser_row : RecordBatch)
    (f : nat * Field) : res (Arr * bool) :=
  let? col := batch_column winner f.1 in
  if is_key_or_meta_column (f_name f.2) key_field_names then Ok (col, false)
  else if missing f.2 col then
    match find_field (f_name f.2) (batch_schema loser_row) with
    | Some (idx, _) =>
        let? other := batch_column loser_row idx in
        if decide (arr_type other = f_type f.2) then Ok (other, true) else Ok (col, false)
    | None => Ok (col, false)
    end
  else Ok (col, false).

Definition blend {AR : ArrowRows} (missing : Field -> Arr -> bool) (key_field_names : list string) (log_rec : BufferedRecord)
    (loser : RecordBatch) (loser_idx : nat) : res (BufferedRecord * bool) :=
  match get_record log_rec with
  | None => Ok (log_rec, false)
  | Some winner =>
      let? cols := res_mapM (blended_column missing key_field_names winner (slice_row loser loser_idx)) (imap pair (batch_schema winner)) in
      if existsb snd cols then
        let? blended := map_err EReadFileSlice (batch_new (batch_schema winner) cols.*1) in
        Ok (new_data (record_key log_rec) blended (ordering_value log_rec), true)
      else Ok (log_rec, false)
  end.

Definition fill_unavailable_from_base {AR : ArrowRows} (log_rec : BufferedRecord) (base : RecordBatch) (base_row_idx : nat)
    (sentinel : string) (key_field_names : list string) : res (BufferedRecord * bool) :=
  blend (fun _ col => array_value_equals_sentinel col sentinel) key_field_names log_rec base base_row_idx.

Definition reconcile_defaults_from_prior {AR : ArrowRows} (log_rec : BufferedRecord) (prior : RecordBatch) (prior_row_idx : nat)
    (default_retains : gmap string DefaultRetain) (key_field_names : list string) : res (BufferedRecord * bool) :=
  blend (fun f col => value_is_default col (default OnNull (default_retains !! f_name f))) key_field_names log_rec prior prior_row_idx.
End reconcile.

(** ** The defaults of a schema *)
Definition is_integer_shape (s : AvroShape) : bool := match s with SInt | SLong => true | _ => false end.

Definition field_is_integer (s : AvroShape) : bool :=
  match s with SInt | SLong => true | SUnion variants => existsb is_integer_shape variants | SOther => false end.

Definition default_retain_for (f : AvroField) : DefaultRetain :=
  match af_default f with
  | None | Some JNull => OnNull
  | Some (JBool b) => OnBool b
  | Some (JNumber n) =>
      match field_is_integer (af_schema f), n with
      | true, Some v => if decide (-128 <= v <= 127) then OnInt v else Never
      | _, _ => Never
      end
  | Some JOther => Never
  end.

Definition parse_default_retains {AV : AvroRecords} (avro_json : string) : gmap string DefaultRetain :=
  match parse_record avro_json with
  | Some fields => foldl (fun m f => <[af_name f := default_retain_for f]> m) ∅ fields
  | None => ∅
  end.

(** * The interface of the buffer *)

(** The fields of the schemas that batches have. *)
Class SchemaFields {AB : ArrowBatch} {AR : ArrowRows} {AK : ArrowKernels} := {
  fields_of : ArrowKernels.Schema -> Fields;
  schema_from : Fields -> ArrowKernels.Schema
}.

#[export] Instance partial_columns {FT : FloatText} {AA : ArrowArrays} {AC : ArrowCells} {AB : ArrowBatch} {BA : ArrayBatches}
    {AR : ArrowRows} {AK : ArrowKernels} {SF : SchemaFields} (key_field_names : list string) (default_retains : gmap string DefaultRetain)
    : ColumnOps := {|
  ArrowKernels.reconcile_batch_to_schema b s := reconcile_batch_to_schema b (fields_of s);
  ArrowKernels.union_schema incoming prior := schema_from (union_schema (fields_of incoming) (fields_of prior));
  ArrowKernels.overlay_partial_over_prior partial prior s := overlay_partial_over_prior partial prior (fields_of s);
  ArrowKernels.pad_partial_to_target partial s := pad_partial_to_target partial (fields_of s);
  ArrowKernels.fill_unavailable_from_base r base idx sentinel := fill_unavailable_from_base r base idx sentinel key_field_names;
  ArrowKernels.reconcile_defaults_from_prior r prior idx := reconcile_defaults_from_prior r prior idx default_retains key_field_names;
  ArrowKernels.guard_no_unavailable_sentinel b sentinel := guard_no_unavailable_sentinel b sentinel key_field_names
|}.

(** * What a narrow record leaves of the row before it *)
Section columns.
Context {FT : FloatText} {AA : ArrowArrays} {LA : ArrowArrayLaws} {AC : ArrowCells} {AB : ArrowBatch} {BA : ArrayBatches} {BL : ArrayBatchLaws}.

(** The column of a name. *)
Definition col_of (b : RecordBatch) (name : string) : option Arr :=
  match find_field name (batch_schema b) with
  | Some (i, _) => match batch_column b i with Ok a => Some a | _ => None end
  | None => None
  end.

Lemma find_field_Some name s i f : find_field name s = Some (i, f) -> s !! i = Some f /\ f_name f = name.
Proof. by intros (Hf & Hn & _)%list_find_Some. Qed.

Lemma find_field_None name s : find_field name s = None <-> forall f, f ∈ s -> f_name f <> name.
Proof. unfold find_field. by rewrite list_find_None, list.Forall_forall. Qed.

Lemma found_column b name i f : find_field name (batch_schema b) = Some (i, f) ->
  exists a, batch_column b i = Ok a /\ col_of b name = Some a /\ arr_type a = f_type f.
Proof.
  intros Hf. destruct (find_field_Some _ _ _ _ Hf) as [Hi _]. destruct (batch_column_of b i f Hi) as (a & Ha & Ht & _).
  exists a. unfold col_of. by rewrite Hf, Ha.
Qed.

(** Fields of one name have one type in all of some schemas. *)
Definition agree (l : list Fields) : Prop :=
  forall s t f g, s ∈ l -> t ∈ l -> f ∈ s -> g ∈ t -> f_name f = f_name g -> f_type f = f_type g.

Definition typed_for (b : RecordBatch) (s : Fields) : Prop :=
  forall f i g, f ∈ s -> find_field (f_name f) (batch_schema b) = Some (i, g) -> f_type g = f_type f.

Lemma agree_typed l b s : agree l -> batch_schema b ∈ l -> s ∈ l -> typed_for b s.
Proof.
  intros Ha Hb Hs f i g Hf Hg. apply find_field_Some in Hg as [Hg Hn]. eapply Ha; [exact Hb|exact Hs| |done..]. by eapply list_elem_of_lookup_2.
Qed.

(** What the overlay takes for a field. *)
Definition overlaid (partial prior : RecordBatch) (f : Field) : Arr :=
  default (default (new_null_array (f_type f) 1) (col_of prior (f_name f))) (col_of partial (f_name f)).

Lemma overlaid_typed partial prior s f : typed_for partial s -> typed_for prior s -> f ∈ s ->
  overlaid_column partial prior f = Ok (overlaid partial prior f).
Proof.
  intros Hp Hq Hf. unfold overlaid_column, overlaid. destruct (find_field (f_name f) (batch_schema partial)) as [[i g]|] eqn:E.
  - destruct (found_column _ _ _ _ E) as (a & -> & -> & Ht). cbn [res_bind default]. by rewrite decide_True by (rewrite Ht; by apply (Hp f i)).
  - unfold col_of at 2. rewrite E. cbn [default]. destruct (find_field (f_name f) (batch_schema prior)) as [[i g]|] eqn:E'.
    + destruct (found_column _ _ _ _ E') as (a & -> & -> & Ht). cbn [res_bind default]. by rewrite decide_True by (rewrite Ht; by apply (Hq f i)).
    + unfold col_of. by rewrite E'.
Qed.

Lemma mapM_pure {A B} (g : A -> res B) (h : A -> B) l : (forall x, x ∈ l -> g x = Ok (h x)) -> res_mapM g l = Ok (h <$> l).
Proof.
  induction l as [|x l IH]; intros H; [done|]. cbn [res_mapM]. rewrite H by by left. cbn [res_bind]. rewrite IH; [done|]. intros y Hy. apply H. by right.
Qed.

Lemma overlay_columns partial prior s b : typed_for partial s -> typed_for prior s -> overlay_partial_over_prior partial prior s = Ok b ->
  batch_schema b = s /\ forall name, col_of b name = match find_field name s with Some (_, f) => Some (overlaid partial prior f) | None => None end.
Proof.
  intros Hp Hq. unfold overlay_partial_over_prior. rewrite (mapM_pure _ (overlaid partial prior)) by (intros f Hf; by apply (overlaid_typed _ _ s)).
  cbn [res_bind]. rewrite map_err_Ok. intros (Hs & _ & Hc)%batch_new_ok. split; [done|]. intros name. unfold col_of. rewrite Hs.
  destruct (find_field name s) as [[i f]|] eqn:E; [|done]. apply find_field_Some in E as [Hi _].
  destruct (Hc i (overlaid partial prior f)) as [-> _]; [|done]. by rewrite list_lookup_fmap, Hi.
Qed.

Lemma has_field_true name s : has_field name s = true <-> exists f, f ∈ s /\ f_name f = name.
Proof.
  unfold has_field. destruct (find_field name s) as [[i f]|] eqn:E.
  - apply find_field_Some in E as [Hi Hn]. split; [|done]. intros _. exists f. split; [by eapply list_elem_of_lookup_2|done].
  - split; [done|]. intros (f & Hf & Hn). by destruct (proj1 (find_field_None _ _) E f Hf).
Qed.

Lemma union_schema_fields a b name : has_field name (union_schema a b) = has_field name a || has_field name b.
Proof.
  apply eq_true_iff_eq. rewrite orb_true_iff, !has_field_true. unfold union_schema. split.
  - intros (f & [Hf|[_ Hf]%list_elem_of_filter]%elem_of_app & Hn); [right|left]; by exists f.
  - intros [(f & Hf & Hn)|(f & Hf & Hn)].
    + destruct (has_field name b) eqn:E; [apply has_field_true in E as (g & Hg & Hgn); exists g; split; [apply elem_of_app; by left|done]|].
      exists f. split; [|done]. apply elem_of_app. right. apply list_elem_of_filter. by rewrite Hn.
    + exists f. split; [|done]. apply elem_of_app. by left.
Qed.

Lemma union_schema_elem a b f : f ∈ union_schema a b -> f ∈ a \/ f ∈ b.
Proof. intros [Hf|[_ Hf]%list_elem_of_filter]%elem_of_app; [by right|by left]. Qed.

Lemma col_of_has b name : has_field name (batch_schema b) = false -> col_of b name = None.
Proof. unfold has_field, col_of. by destruct (find_field name (batch_schema b)) as [[]|]. Qed.

(** C6: Two partial updates of a row, folded first and laid over the row then, leave the columns
    that laying the older and then the newer over the row leaves. *)
Theorem partial_updates_compose older newer base s U folded once after twice :
  agree [batch_schema older; batch_schema newer; batch_schema base; s] ->
  U = union_schema (batch_schema newer) (batch_schema older) \/ U = union_schema (batch_schema older) (batch_schema newer) ->
  overlay_partial_over_prior newer older U = Ok folded -> overlay_partial_over_prior folded base s = Ok once ->
  overlay_partial_over_prior older base s = Ok after -> overlay_partial_over_prior newer after s = Ok twice ->
  batch_schema once = batch_schema twice /\ forall name, col_of once name = col_of twice name.
Proof.
  intros Ha HU H1 H2 H3 H4. set (l := [batch_schema older; batch_schema newer; batch_schema base; s]) in *.
  assert (HUl : agree (U :: l)).
  { assert (HUe : forall f, f ∈ U -> exists t, t ∈ l /\ f ∈ t).
    { intros f Hf. destruct HU as [->| ->]; apply union_schema_elem in Hf as [Hf|Hf]; eexists; (split; [|exact Hf]); subst l; set_solver. }
    assert (Hin : forall t f, t ∈ U :: l -> f ∈ t -> exists t', t' ∈ l /\ f ∈ t')
      by (intros t f [->|Ht]%elem_of_cons Hf; [by apply HUe|by exists t]).
    intros t1 t2 f g Ht1 Ht2 Hf Hg. destruct (Hin _ _ Ht1 Hf) as (t1' & Ht1' & Hf'). destruct (Hin _ _ Ht2 Hg) as (t2' & Ht2' & Hg'). by apply (Ha t1' t2'). }
  assert (Hfields : forall name, has_field name U = has_field name (batch_schema newer) || has_field name (batch_schema older))
    by (intros name; destruct HU as [->| ->]; rewrite union_schema_fields; [done|apply orb_comm]).
  clear Ha HU. assert (Hty : forall b t, batch_schema b ∈ U :: l -> t ∈ U :: l -> typed_for b t) by (intros b t; by apply agree_typed).
  apply overlay_columns in H1 as [Hs1 Hc1]; [|apply Hty; subst l; set_solver..].
  apply overlay_columns in H2 as [Hs2 Hc2]; [|apply Hty; subst l; rewrite ?Hs1; set_solver..].
  apply overlay_columns in H3 as [Hs3 Hc3]; [|apply Hty; subst l; set_solver..].
  apply overlay_columns in H4 as [Hs4 Hc4]; [|apply Hty; subst l; rewrite ?Hs3; set_solver..].
  split; [congruence|]. intros name. rewrite Hc2, Hc4. destruct (find_field name s) as [[i f]|] eqn:E; [|done]. f_equal.
  destruct (find_field_Some _ _ _ _ E) as [_ Hn]. unfold overlaid. rewrite Hc1, Hc3, Hn, E. specialize (Hfields name).
  unfold overlaid. rewrite Hn. unfold has_field at 1 in Hfields. destruct (find_field name U) as [[j g]|] eqn:EU.
  - destruct (find_field_Some _ _ _ _ EU) as [_ ->]. destruct (col_of newer name) eqn:En; [done|]. cbn [default].
    symmetry in Hfields. apply orb_true_iff in Hfields as [Hf|Hf]; unfold has_field in Hf;
      (destruct (find_field name (batch_schema _)) as [[k h]|] eqn:Ef; [|done]); destruct (found_column _ _ _ _ Ef) as (a & _ & Hcol & _); [congruence|by rewrite Hcol].
  - symmetry in Hfields. apply orb_false_iff in Hfields as [Hf1 Hf2]. by rewrite (col_of_has _ _ Hf1), (col_of_has _ _ Hf2).
Qed.

(** A record padded is the record laid over a row without columns. *)
Theorem padding_is_overlay_over_nothing partial prior s : typed_for partial s ->
  (forall f, f ∈ s -> has_field (f_name f) (batch_schema partial) = true \/ has_field (f_name f) (batch_schema prior) = false) ->
  pad_partial_to_target partial s = overlay_partial_over_prior partial prior s.
Proof.
  intros Ht Hp. unfold pad_partial_to_target, overlay_partial_over_prior.
  set (h f := default (new_null_array (f_type f) 1) (col_of partial (f_name f))).
  rewrite (mapM_pure (padded_column partial) h), (mapM_pure (overlaid_column partial prior) h); [done|..]; intros f Hf; subst h; cbn beta;
    unfold padded_column, overlaid_column; specialize (Hp f Hf); unfold has_field in Hp;
    destruct (find_field (f_name f) (batch_schema partial)) as [[i g]|] eqn:E.
  1, 3: destruct (found_column _ _ _ _ E) as (a & -> & -> & Hty); cbn [res_bind default]; rewrite <- (Ht f i g Hf E), Hty.
  - by rewrite decide_True.
  - rewrite decide_False by tauto. done.
  - unfold col_of. rewrite E. cbn [default]. destruct (find_field (f_name f) (batch_schema prior)) as [[]|]; [by destruct Hp|done].
  - unfold col_of. by rewrite E.
Qed.
End columns.

(** * What a blend replaces *)

(** A null has no text. *)
Class ArrowCellLaws {AA : ArrowArrays} {AC : ArrowCells} := {
  null_text a i : is_null a i = true -> text_at a i = None
}.

Section blends.
Context {FT : FloatText} {AA : ArrowArrays} {AC : ArrowCells} {CL : ArrowCellLaws} {AB : ArrowBatch} {AR : ArrowRows} {BA : ArrayBatches}
  {BL : ArrayBatchLaws}.

(** What the blend leaves in a field's column: the loser's, if the winner's is missing and
    the loser has one of the type; of keys and meta columns always the winner's. *)
Definition blended (missing : Field -> Arr -> bool) (keys : list string) (loser : RecordBatch) (f : Field) (col : Arr) : Arr :=
  if is_key_or_meta_column (f_name f) keys then col
  else if missing f col then
    match col_of loser (f_name f) with
    | Some other => if decide (arr_type other = f_type f) then other else col
    | None => col
    end
  else col.

Lemma blended_column_spec missing keys winner loser i f col : batch_column winner i = Ok col ->
  exists replaced, blended_column missing keys winner loser (i, f) = Ok (blended missing keys loser f col, replaced) /\
    (replaced = false -> blended missing keys loser f col = col).
Proof.
  intros Hc. unfold blended_column, blended. cbn [fst snd]. rewrite Hc. cbn [res_bind].
  destruct (is_key_or_meta_column _ _); [by eexists|]. destruct (missing f col); [|by eexists]. unfold col_of.
  destruct (find_field (f_name f) (batch_schema loser)) as [[j g]|] eqn:E; [|by eexists].
  destruct (found_column _ _ _ _ E) as (a & Ha & _ & _). rewrite Ha. cbn [res_bind]. destruct (decide _); by eexists.
Qed.

(** The columns of the record after the blend, one by one. *)
Lemma blend_spec missing keys r loser idx winner r' changed : get_record r = Some winner ->
  blend missing keys r loser idx = Ok (r', changed) ->
  exists w', get_record r' = Some w' /\ record_key r' = record_key r /\ ordering_value r' = ordering_value r /\
    batch_schema w' = batch_schema winner /\ (changed = false -> r' = r) /\
    forall i f col, batch_schema winner !! i = Some f -> batch_column winner i = Ok col ->
      batch_column w' i = Ok (blended missing keys (slice_row loser idx) f col).
Proof.
  intros Hw. unfold blend. rewrite Hw. intros (cols & Hcols & H)%res_bind_Ok.
  assert (Hat : forall i f col, batch_schema winner !! i = Some f -> batch_column winner i = Ok col ->
    exists replaced, cols !! i = Some (blended missing keys (slice_row loser idx) f col, replaced) /\
      (replaced = false -> blended missing keys (slice_row loser idx) f col = col)).
  { intros i f col Hi Hc. destruct (mapM_lookup _ _ _ i (i, f) Hcols) as (y & Hy & Hb); [by rewrite list_lookup_imap, Hi|].
    destruct (blended_column_spec missing keys winner (slice_row loser idx) i f col Hc) as (rep & Hb' & Hr). exists rep.
    rewrite Hb' in Hb. injection Hb as <-. done. }
  destruct (existsb snd cols) eqn:Ex.
  - apply res_bind_Ok in H as (b & Hb & H). injection H as <- <-. apply map_err_Ok, batch_new_ok in Hb as (Hs & _ & Hc).
    exists b. split_and!; try done. intros i f col Hi Hcol. destruct (Hat i f col Hi Hcol) as (rep & Hy & _).
    destruct (Hc i (blended missing keys (slice_row loser idx) f col)) as [-> _]; [by rewrite list_lookup_fmap, Hy|done].
  - injection H as <- <-. exists winner. split_and!; try done. intros i f col Hi Hcol. destruct (Hat i f col Hi Hcol) as (rep & Hy & Hr).
    rewrite Hr; [done|]. destruct rep; [|done]. assert (existsb snd cols = true); [|congruence]. apply existsb_exists.
    eexists. split; [by apply list_elem_of_In, (list_elem_of_lookup_2 _ i)|done].
Qed.

(** A column of one row has the sentinel if its row does. *)
Lemma one_row_sentinel a sentinel : arr_len a = 1 -> column_contains_sentinel a sentinel = array_value_equals_sentinel a sentinel.
Proof.
  intros Hl. unfold column_contains_sentinel, array_value_equals_sentinel. rewrite Hl. change (seq 0 (Z.to_nat 1)) with [0%nat]. cbn [existsb].
  rewrite orb_false_r. destruct (is_null a 0) eqn:En; [|done]. rewrite (null_text a 0 En). cbn. by rewrite andb_false_r.
Qed.

Lemma guard_passes batch sentinel keys :
  (forall i f col, batch_schema batch !! i = Some f -> is_key_or_meta_column (f_name f) keys = false -> batch_column batch i = Ok col ->
    column_contains_sentinel col sentinel = false) -> guard_no_unavailable_sentinel batch sentinel keys = Ok tt.
Proof.
  intros H. unfold guard_no_unavailable_sentinel.
  assert (Hin : forall p, p ∈ imap pair (batch_schema batch) -> batch_schema batch !! p.1 = Some p.2)
    by (by intros p (i & f & -> & Hi)%elem_of_lookup_imap).
  induction (imap pair (batch_schema batch)) as [|[i f] l IH]; [done|]. cbn [res_fold].
  assert (Hg : guard_column batch sentinel keys tt (i, f) = Ok tt).
  { unfold guard_column. cbn [fst snd]. pose proof (Hin (i, f) ltac:(by left)) as Hi. cbn in Hi.
    destruct (is_key_or_meta_column (f_name f) keys) eqn:Ek; [done|]. destruct (batch_column_of _ _ _ Hi) as (col & Hc & _).
    rewrite Hc. cbn [res_bind]. by rewrite (H i f col Hi Ek Hc). }
  rewrite Hg. cbn [res_bind]. apply IH. intros p Hp. apply Hin. by right.
Qed.

(** C7: A record that was filled from a row without missing values has none left: it passes the
    guard of the output.  Its key, its ordering value and its key and meta columns are as they
    were. *)
Theorem filled_record_passes_guard sentinel keys r base idx winner r' changed :
  get_record r = Some winner -> num_rows winner = 1 -> num_rows (slice_row base idx) = 1 ->
  (forall i f, batch_schema winner !! i = Some f -> is_key_or_meta_column (f_name f) keys = false -> is_text (f_type f) = true ->
    exists other, col_of (slice_row base idx) (f_name f) = Some other /\ arr_type other = f_type f /\
      array_value_equals_sentinel other sentinel = false) ->
  fill_unavailable_from_base r base idx sentinel keys = Ok (r', changed) ->
  exists w', get_record r' = Some w' /\ record_key r' = record_key r /\ ordering_value r' = ordering_value r /\
    guard_no_unavailable_sentinel w' sentinel keys = Ok tt /\
    forall i f, batch_schema winner !! i = Some f -> is_key_or_meta_column (f_name f) keys = true -> batch_column w' i = batch_column winner i.
Proof.
  intros Hw Hn Hb Hother (w' & Hw' & Hkey & Hord & Hs & _ & Hcol)%(blend_spec _ _ _ _ _ winner); [|done].
  exists w'. split_and!; [done..| |].
  - apply guard_passes. intros i f col Hi Hk Hc. rewrite Hs in Hi. destruct (batch_column_of winner i f Hi) as (a & Ha & Hta & Hla).
    rewrite (Hcol i f a Hi Ha) in Hc. injection Hc as <-. unfold blended. rewrite Hk.
    destruct (array_value_equals_sentinel a sentinel) eqn:Es; [|by rewrite one_row_sentinel by by rewrite Hla].
    assert (Htext : is_text (f_type f) = true).
    { unfold array_value_equals_sentinel in Es. apply andb_true_iff in Es as [[_ Es]%andb_true_iff _]. by rewrite <- Hta. }
    destruct (Hother i f Hi Hk Htext) as (o & Ho & Hto & Hso). rewrite Ho, decide_True by done. rewrite one_row_sentinel; [done|].
    unfold col_of in Ho. destruct (find_field _ _) as [[j g]|] eqn:E; [|done]. apply find_field_Some in E as [Hj _].
    destruct (batch_column_of (slice_row base idx) j g Hj) as (o' & Ho' & _ & Hl). rewrite Ho' in Ho. injection Ho as <-. by rewrite Hl.
  - intros i f Hi Hk. destruct (batch_column_of winner i f Hi) as (a & Ha & _). rewrite (Hcol i f a Hi Ha), Ha. unfold blended. by rewrite Hk.
Qed.
End blends.

(** * A sample of the library *)
Module SamplePartial.
Import Evolution.SampleEvolution.

#[export] Instance cells : ArrowCells := {|
  is_null a i := match s_slots a !! i with Some (Some _) => false | _ => true end;
  is_text t := bool_decide (t = AUtf8) || bool_decide (t = ABinary);
  text_at a i := match s_slots a !! i with Some (Some z) => Some (pretty z) | _ => None end;
  bool_at a i := match s_slots a !! i with Some (Some z) => negb (z =? 0) | _ => false end;
  int_at a i := match s_slots a !! i with Some (Some z) => z | _ => 0 end;
  child_data := s_inside;
  build_data a t cs := Ok (mk t (s_slots a) cs)
|}.

#[export] Instance cell_laws : ArrowCellLaws.
Proof. split. intros a i. cbn. by destruct (s_slots a !! i) as [[]|]. Qed.

#[export] Instance rows : ArrowRows := fun b i =>
  mkBatch (sb_fields b) ((fun a => mk (s_type a) (firstn 1 (skipn i (s_slots a))) (s_inside a)) <$> sb_columns b) 1 : RecordBatch.

Definition row_of (l : list (Field * option Z)) : RecordBatch := mkBatch l.*1 ((fun p => mk (f_type p.1) [p.2] []) <$> l) 1.

Definition key : Field := mkField "k" AUtf8 false.
Definition a : Field := mkField "a" AInt64 true.
Definition b : Field := mkField "b" AInt64 true.
Definition c : Field := mkField "c" AInt64 true.

Definition base_row : RecordBatch := row_of [(key, Some 1); (a, Some 10); (b, Some 20); (c, Some 30)].
Definition older : RecordBatch := row_of [(key, Some 1); (a, Some 11); (b, Some 21)].
Definition newer : RecordBatch := row_of [(key, Some 1); (b, Some 22)].
Definition union : Fields := union_schema (batch_schema newer) (batch_schema older).

Definition got (r : res RecordBatch) : RecordBatch := match r with Ok x => x | _ => base_row end.

Definition folded : RecordBatch := got (overlay_partial_over_prior newer older union).
Definition after_older : RecordBatch := got (overlay_partial_over_prior older base_row [key; a; b; c]).

Lemma sample_agree : agree [batch_schema older; batch_schema newer; batch_schema base_row; [key; a; b; c]].
Proof.
  assert (H : forall t f, t ∈ [batch_schema older; batch_schema newer; batch_schema base_row; [key; a; b; c]] -> f ∈ t -> f ∈ [key; a; b; c]).
  { intros t f Ht Hf. cbn in Ht. rewrite !elem_of_cons in Ht. destruct Ht as [->|[->|[->|[->|Ht]]]]; [set_solver..|by apply not_elem_of_nil in Ht]. }
  intros t1 t2 f g H1 H2 Hf%H Hg%H; [|done..]. rewrite !elem_of_cons in Hf, Hg.
  destruct Hf as [->|[->|[->|[->|Hf]]]], Hg as [->|[->|[->|[->|Hg]]]]; cbn; try done; by apply not_elem_of_nil in Hf || apply not_elem_of_nil in Hg.
Qed.

Lemma partial_updates_compose_witness :
  let once := got (overlay_partial_over_prior folded base_row [key; a; b; c]) in
  let twice := got (overlay_partial_over_prior newer after_older [key; a; b; c]) in
  (batch_schema once = batch_schema twice /\ forall name, col_of once name = col_of twice name) /\
  col_of once "a" = Some (mk AInt64 [Some 11] []) /\ col_of once "b" = Some (mk AInt64 [Some 22] []) /\
  col_of once "c" = Some (mk AInt64 [Some 30] []).
Proof.
  cbv zeta. split; [|split_and!; vm_compute; reflexivity].
  apply (partial_updates_compose older newer base_row [key; a; b; c] union folded _ after_older).
  - exact sample_agree.
  - left. reflexivity.
  - vm_compute. reflexivity.
  - vm_compute. reflexivity.
  - vm_compute. reflexivity.
  - vm_compute. reflexivity.
Defined.

(** A record without the values of its texts: 999 stands for what the writer did not have. *)
Definition note : Field := mkField "note" AUtf8 true.
Definition toasted : RecordBatch := row_of [(key, Some 999); (a, Some 12); (note, Some 999)].
Definition toasted_record : BufferedRecord := new_data "1" toasted None.
Definition noted_base : RecordBatch := row_of [(key, Some 1); (note, Some 5)].
Definition filled : BufferedRecord :=
  match fill_unavailable_from_base toasted_record noted_base 0 "999" ["k"] with Ok (r, _) => r | _ => toasted_record end.

Lemma filled_record_passes_guard_witness : exists w', get_record filled = Some w' /\ record_key filled = "1" /\ ordering_value filled = None /\
  guard_no_unavailable_sentinel w' "999" ["k"] = Ok tt /\
  forall i f, batch_schema toasted !! i = Some f -> is_key_or_meta_column (f_name f) ["k"] = true -> batch_column w' i = batch_column toasted i.
Proof.
  apply (filled_record_passes_guard "999" ["k"] toasted_record noted_base 0 toasted filled true).
  - reflexivity.
  - reflexivity.
  - reflexivity.
  - intros [|[|[|i]]] f Hi Hk Ht; [injection Hi as <-; discriminate|injection Hi as <-; discriminate| |discriminate]. injection Hi as <-.
    eexists. split; [vm_compute; reflexivity|]. split; vm_compute; reflexivity.
  - vm_compute. reflexivity.
Defined.

(** Padding refuses a list whose element has another name, which the overlay takes. *)
Definition list_of (name : string) : Field := mkField "l" (AList (mkField name AInt32 true)) true.
Definition listed : RecordBatch := mkBatch [list_of "item"] [mk (f_type (list_of "item")) [Some 1] [mk AInt32 [Some 7] []]] 1.

Example padding_refuses_other_names : pad_partial_to_target listed [list_of "element"] = Err EUnsupported /\
  overlay_partial_over_prior listed (row_of []) [list_of "element"]
  = Ok (mkBatch [list_of "element"] [mk (f_type (list_of "element")) [Some 1] [mk AInt32 [Some 7] []]] 1 : RecordBatch).
Proof. split; vm_compute; reflexivity. Qed.
End SamplePartial.
