(* ===== verification/Promotion.v ===== *)
(** When a log block must be rewritten rather than resolved:
    crates/core/src/schema/extended_promotion.rs.

    Avro resolves a writer's schema into a reader's where the reader asks for little more
    than the writer wrote; other evolutions are a rewrite of each record.  Which of the two a
    block needs is decided on the pair of schemas.  Schemas are those of the Avro library,
    whose own equality is a parameter: the code compares records, arrays, maps and unions
    itself and falls back to it on the rest. *)
From Stdlib Require Import ZArith.
From stdpp Require Import base list strings numbers.
From S2P Require Import Prelude.
Local Open Scope res_scope.
Local Open Scope Z_scope.

(** What the code sees of a [RecordField] besides its schema: its name, and its default,
    here as the text of the JSON. *)
Record FieldHead := mkField { field_name : string; field_default : option string }.

#[export] Instance field_head_eq_dec : EqDecision FieldHead.
Proof. solve_decision. Defined.

(** [apache_avro::schema::Schema] *)
Inductive Schema :=
  | SNull | SBoolean | SInt | SLong | SFloat | SDouble | SBytes | SString
  | SArray (items : Schema)
  | SMap (types : Schema)
  | SUnion (variants : list Schema)
  | SRecord (name : string) (fields : list (FieldHead * Schema))
  | SEnum (name : string) (symbols : list string)
  | SFixed (name : string) (size : Z)
  | SDecimal (precision scale : Z) (inner : Schema)
  | SBigDecimal | SUuid | SDate | STimeMillis | STimeMicros
  | STimestampMillis | STimestampMicros | STimestampNanos
  | SLocalTimestampMillis | SLocalTimestampMicros | SLocalTimestampNanos
  | SDuration
  | SRef (name : string).

(** Induction with the schemas inside. *)
Section schema_ind.
Context (P : Schema -> Prop).
Context (Hflat : forall s, (forall i, s <> SArray i) -> (forall t, s <> SMap t) -> (forall vs, s <> SUnion vs) ->
  (forall n fs, s <> SRecord n fs) -> P s).
Context (Harray : forall i, P i -> P (SArray i)) (Hmap : forall t, P t -> P (SMap t)).
Context (Hunion : forall vs, List.Forall P vs -> P (SUnion vs)).
Context (Hrecord : forall n fs, List.Forall (fun f => P f.2) fs -> P (SRecord n fs)).

Fixpoint schema_ind (s : Schema) : P s.
Proof.
  destruct s as [| | | | | | | |i|t|vs|n fs| | | | | | | | | | | | | | | |]; try (by apply Hflat).
  - apply Harray, schema_ind.
  - apply Hmap, schema_ind.
  - apply Hunion. induction vs as [|v vs IH]; constructor; [apply schema_ind|exact IH].
  - apply Hrecord. induction fs as [|[m f] fs IH]; constructor; [apply (schema_ind f)|exact IH].
Defined.
End schema_ind.

(** [==] of two schemas. *)
Class AvroEq := schema_eq : Schema -> Schema -> bool.

Definition is_null_schema (s : Schema) : bool := match s with SNull => true | _ => false end.

(** [actual_schema_from_union], of the variants. *)
Definition actual_variant (variants : list Schema) : res Schema :=
  match variants with
  | [v0; v1] => if is_null_schema v0 then Ok v1 else if is_null_schema v1 then Ok v0 else Err ESchema
  | [v0] => Ok v0
  | _ => Err ESchema
  end.

Definition actual_schema_from_union (s : Schema) : res Schema :=
  match s with SUnion variants => actual_variant variants | _ => Ok s end.

Definition is_logical_type (s : Schema) : bool :=
  match s with
  | SDecimal _ _ _ | SBigDecimal | SUuid | SDate | STimeMillis | STimeMicros | STimestampMillis | STimestampMicros
  | STimestampNanos | SLocalTimestampMillis | SLocalTimestampMicros | SLocalTimestampNanos | SDuration => true
  | _ => false
  end.

Inductive PhysicalType :=
  | PNull | PBoolean | PInt | PLong | PFloat | PDouble | PBytes | PString | PFixed | PRecord | PEnum | PArray | PMap
  | PUnion | PRef.

#[export] Instance physical_eq_dec : EqDecision PhysicalType.
Proof. solve_decision. Defined.

Fixpoint physical_type (s : Schema) : PhysicalType :=
  match s with
  | SNull => PNull
  | SBoolean => PBoolean
  | SInt | SDate | STimeMillis => PInt
  | SLong | STimeMicros | STimestampMillis | STimestampMicros | STimestampNanos
  | SLocalTimestampMillis | SLocalTimestampMicros | SLocalTimestampNanos => PLong
  | SFloat => PFloat
  | SDouble => PDouble
  | SDecimal _ _ inner => physical_type inner
  | SBytes | SBigDecimal => PBytes
  | SString | SUuid => PString
  | SFixed _ _ | SDuration => PFixed
  | SRecord _ _ => PRecord
  | SEnum _ _ => PEnum
  | SArray _ => PArray
  | SMap _ => PMap
  | SUnion _ => PUnion
  | SRef _ => PRef
  end.

Definition needs_rewrite_to_string (writer : Schema) (reader_is_enum : bool) : bool :=
  if is_logical_type writer then true
  else match writer with SEnum _ _ => negb reader_is_enum | _ => true end.

(** [iter().find(|wf| wf.name == name)] *)
Fixpoint field_named (name : string) (fields : list (FieldHead * Schema)) : option Schema :=
  match fields with
  | [] => None
  | (h, s) :: fields => if decide (field_name h = name) then Some s else field_named name fields
  end.

Section detector.
Context {AE : AvroEq}.

Fixpoint schemas_equal (a b : Schema) {struct b} : bool :=
  match a, b with
  | SRecord _ fa, SRecord _ fb =>
      (length fa =? length fb)%nat &&
      (fix all fa fb {struct fb} :=
         match fa, fb with
         | (ha, sa) :: fa, (hb, sb) :: fb => bool_decide (field_name ha = field_name hb) && schemas_equal sa sb && all fa fb
         | _, _ => true
         end) fa fb
  | SArray x, SArray y => schemas_equal x y
  | SMap x, SMap y => schemas_equal x y
  | SUnion x, SUnion y =>
      (length x =? length y)%nat &&
      (fix all x y {struct y} :=
         match x, y with s :: x, t :: y => schemas_equal s t && all x y | _, _ => true end) x y
  | _, _ => schema_eq a b
  end.

Definition logical_types_equal (writer reader : Schema) : bool :=
  if negb (is_logical_type writer) then false else schemas_equal writer reader.

(** [record_needs_rewrite_for_extended_promotion], on the equality it tests first. *)
Fixpoint needs_rewrite_by (equal : Schema -> Schema -> bool) (writer reader : Schema) {struct reader} : res bool :=
  if equal writer reader then Ok false
  else if is_logical_type reader then Ok (negb (logical_types_equal writer reader))
  else
    match reader with
    | SRecord _ rfields =>
        match writer with
        | SRecord _ wfields =>
            if (length wfields <? length rfields)%nat then Ok true
            else
              (fix each rfields :=
                 match rfields with
                 | [] => Ok false
                 | (h, rs) :: rfields =>
                     match field_named (field_name h) wfields with
                     | None => Ok true
                     | Some ws =>
                         let? rewrite := needs_rewrite_by equal ws rs in
                         if (rewrite : bool) then Ok true else each rfields
                     end
                 end) rfields
        | _ => Err ESchema
        end
    | SArray relem => match writer with SArray welem => needs_rewrite_by equal welem relem | _ => Ok false end
    | SMap rval => match writer with SMap wval => needs_rewrite_by equal wval rval | _ => Ok false end
    | SUnion variants =>
        let? w := actual_schema_from_union writer in
        match variants with
        | [v0; v1] =>
            if is_null_schema v0 then needs_rewrite_by equal w v1
            else if is_null_schema v1 then needs_rewrite_by equal w v0
            else Err ESchema
        | [v0] => needs_rewrite_by equal w v0
        | _ => Err ESchema
        end
    | SEnum _ _ => Ok (needs_rewrite_to_string writer true)
    | SString => Ok (needs_rewrite_to_string writer false)
    | SDouble | SFloat | SLong =>
        Ok (negb (match physical_type writer with PInt | PLong => true | _ => false end))
    | _ => Ok (negb (bool_decide (physical_type writer = physical_type reader)))
    end.

Definition record_needs_rewrite_for_extended_promotion (writer reader : Schema) : res bool :=
  needs_rewrite_by schemas_equal writer reader.

(** The unions and the names of fields that Avro and Java accept: every union unwraps,
    and the fields of a record have different names. *)
Fixpoint sound (s : Schema) : Prop :=
  match s with
  | SArray i | SMap i => sound i
  | SUnion vs =>
      (exists v, actual_variant vs = Ok v) /\ (fix all vs := match vs with [] => True | v :: vs => sound v /\ all vs end) vs
  | SRecord _ fs =>
      NoDup (field_name <$> fs.*1) /\ (fix all fs := match fs with [] => True | (_, f) :: fs => sound f /\ all fs end) fs
  | _ => True
  end.

(** Neither a record nor an array, map or union. *)
Definition leaf (s : Schema) : bool :=
  match s with SArray _ | SMap _ | SUnion _ | SRecord _ _ => false | _ => true end.

(** An equality at least as fine as [schemas_equal], and no finer where the reader's schema
    is a leaf: Java's, which also compares the names of records and the defaults of fields. *)
Record refines (equal : Schema -> Schema -> bool) : Prop := {
  refines_equal w r : equal w r = true -> schemas_equal w r = true;
  refines_leaves w r : leaf r = true -> schemas_equal w r = true -> equal w r = true
}.

(** What the library's equality owes: a schema with others inside equals none of another
    shape, and null equals null alone. *)
Class AvroEqLaws : Prop := {
  eq_array w i : schema_eq w (SArray i) = true -> exists j, w = SArray j;
  eq_map w t : schema_eq w (SMap t) = true -> exists u, w = SMap u;
  eq_union w vs : schema_eq w (SUnion vs) = true -> exists us, w = SUnion us;
  eq_record w n fs : schema_eq w (SRecord n fs) = true -> exists m gs, w = SRecord m gs;
  eq_null_l r : schema_eq SNull r = true -> r = SNull;
  eq_null_r w : schema_eq w SNull = true -> w = SNull
}.

(** Java's equality, which compares the names of records and the defaults of fields as well. *)
Fixpoint java_equal (a b : Schema) {struct b} : bool :=
  match a, b with
  | SRecord na fa, SRecord nb fb =>
      bool_decide (na = nb) && (length fa =? length fb)%nat &&
      (fix all fa fb {struct fb} :=
         match fa, fb with
         | (ha, sa) :: fa, (hb, sb) :: fb => bool_decide (ha = hb) && java_equal sa sb && all fa fb
         | _, _ => true
         end) fa fb
  | SArray x, SArray y => java_equal x y
  | SMap x, SMap y => java_equal x y
  | SUnion x, SUnion y =>
      (length x =? length y)%nat &&
      (fix all x y {struct y} :=
         match x, y with s :: x, t :: y => java_equal s t && all x y | _, _ => true end) x y
  | _, _ => schema_eq a b
  end.

Lemma java_equal_refines : refines java_equal.
Proof.
  split.
  - intros w r. revert w. induction r as [r Ha Hm Hu Hr|i IH|t IH|vs IH|n fs IH] using schema_ind; intros w;
      [destruct r; naive_solver|destruct w; try done; apply IH|destruct w; try done; apply IH|destruct w; try done|destruct w; try done];
      cbn; rewrite !andb_true_iff.
    + intros [Hl H]. split; [done|]. clear Hl. revert variants H.
      induction IH as [|v vs Hv _ IH]; intros [|u us]; try done. rewrite !andb_true_iff. intros [Huv H]. split; [by apply Hv|by apply IH].
    + intros [[_ Hl] H]. split; [done|]. clear Hl. revert fields H.
      induction IH as [|[fn f] fs Hf _ IH]; intros [|[gn g] gs]; try done. rewrite !andb_true_iff.
      intros [[->%bool_decide_eq_true Hgf] H]. split; [split; [by rewrite bool_decide_true|by apply Hf]|by apply IH].
  - intros w r Hr H. destruct w, r; done.
Qed.

Context {L : AvroEqLaws}.

Lemma equal_record w n fs : schemas_equal w (SRecord n fs) = true -> exists m gs, w = SRecord m gs.
Proof. destruct w; try (intros H; by apply eq_record in H). intros _. eauto. Qed.

Lemma equal_array w i : schemas_equal w (SArray i) = true -> exists j, w = SArray j /\ schemas_equal j i = true.
Proof. destruct w; try (intros H; by apply eq_array in H as [? [=]]). eauto. Qed.

Lemma equal_map w t : schemas_equal w (SMap t) = true -> exists u, w = SMap u /\ schemas_equal u t = true.
Proof. destruct w; try (intros H; by apply eq_map in H as [? [=]]). eauto. Qed.

Lemma equal_union w vs : schemas_equal w (SUnion vs) = true -> exists us, w = SUnion us /\ Forall2 (fun u v => schemas_equal u v = true) us vs.
Proof.
  destruct w as [| | | | | | | | | |us| | | | | | | | | | | | | | | | |]; try (intros H; by apply eq_union in H as [? [=]]).
  intros H. exists us. split; [done|]. cbn in H. apply andb_true_iff in H as [Hl%Nat.eqb_eq H].
  revert us Hl H. induction vs as [|v vs IH]; intros [|u us] Hl H; try discriminate Hl; [constructor|].
  apply andb_true_iff in H as [Hu H]. constructor; [done|]. by apply IH; [injection Hl|].
Qed.

Lemma equal_fields m n gs fs : schemas_equal (SRecord m gs) (SRecord n fs) = true ->
  Forall2 (fun g f => field_name g.1 = field_name f.1 /\ schemas_equal g.2 f.2 = true) gs fs.
Proof.
  cbn. intros [Hl%Nat.eqb_eq H]%andb_true_iff.
  revert gs Hl H. induction fs as [|[nb sb] fs IH]; intros [|[na sa] gs] Hl H; try discriminate Hl; [constructor|].
  rewrite !andb_true_iff in H. destruct H as [[Hn%bool_decide_eq_true Hs] H]. constructor; [done|]. by apply IH; [injection Hl|].
Qed.

Lemma equal_null u v : schemas_equal u v = true -> is_null_schema u = is_null_schema v.
Proof.
  intros H. destruct (is_null_schema u) eqn:Hu.
  - destruct u; try discriminate. cbn in H. destruct v; apply eq_null_l in H; by rewrite ?H.
  - destruct (is_null_schema v) eqn:Hv; [|done]. destruct v; try discriminate.
    destruct u; cbn in H; apply eq_null_r in H; first [discriminate H | discriminate Hu].
Qed.

Lemma field_named_found h s fs : NoDup (field_name <$> fs.*1) -> (h, s) ∈ fs -> field_named (field_name h) fs = Some s.
Proof.
  induction fs as [|[n f] fs IH]; intros Hn Hin; [by inversion Hin|]. apply list.NoDup_cons in Hn as [Hnot Hn]. cbn.
  apply elem_of_cons in Hin as [[= <- <-]|Hin]; [by rewrite decide_True|].
  rewrite decide_False; [by apply IH|]. intros Heq. apply Hnot. cbn. rewrite Heq.
  apply list_elem_of_fmap. exists h. split; [done|]. apply list_elem_of_fmap. by exists (h, s).
Qed.

Lemma sound_field n fs h f : sound (SRecord n fs) -> (h, f) ∈ fs -> sound f.
Proof.
  intros [_ H]. induction fs as [|[m g] fs IH]; intros Hin; [by inversion Hin|]. destruct H as [Hg H].
  apply elem_of_cons in Hin as [[= _ ->]|Hin]; [done|]. by apply IH.
Qed.

Lemma sound_variant vs v : sound (SUnion vs) -> v ∈ vs -> sound v.
Proof.
  intros [_ H]. induction vs as [|u vs IH]; intros Hin; [by inversion Hin|]. destruct H as [Hu H].
  apply elem_of_cons in Hin as [->|Hin]; [done|]. by apply IH.
Qed.

Lemma variant_unwraps us vs : Forall2 (fun u v => schemas_equal u v = true) us vs -> forall v, actual_variant vs = Ok v ->
  exists u, actual_variant us = Ok u /\ schemas_equal u v = true /\ v ∈ vs.
Proof.
  intros H v Hv. destruct H as [|u0 v0 us vs H0 H]; [done|]. destruct H as [|u1 v1 us vs H1 H].
  { injection Hv as <-. exists u0. repeat split; [done|]. by left. }
  destruct H as [|]; [|done]. cbn in *. rewrite (equal_null _ _ H0), (equal_null _ _ H1).
  destruct (is_null_schema v0); [injection Hv as <-; exists u1; repeat split; [done|]; by right; left|].
  destruct (is_null_schema v1); [|done]. injection Hv as <-. exists u0. repeat split; [done|]. by left.
Qed.

(** The union arm, unwrapping both sides. *)
Lemma union_arm equal w vs : equal w (SUnion vs) = false ->
  needs_rewrite_by equal w (SUnion vs) =
    let? u := actual_schema_from_union w in let? v := actual_variant vs in needs_rewrite_by equal u v.
Proof.
  intros H. cbn. rewrite H. destruct (actual_schema_from_union w) as [u| |]; [cbn|done|done].
  destruct vs as [|v0 [|v1 [|v2 vs]]]; cbn; try done. by destruct (is_null_schema v0), (is_null_schema v1).
Qed.

Fixpoint each_field (equal : Schema -> Schema -> bool) (wfields rfields : list (FieldHead * Schema)) : res bool :=
  match rfields with
  | [] => Ok false
  | (h, rs) :: rfields =>
      match field_named (field_name h) wfields with
      | None => Ok true
      | Some ws =>
          let? rewrite := needs_rewrite_by equal ws rs in
          if (rewrite : bool) then Ok true else each_field equal wfields rfields
      end
  end.

Lemma record_arm equal w n fs : equal w (SRecord n fs) = false ->
  needs_rewrite_by equal w (SRecord n fs) =
    match w with
    | SRecord _ gs => if (length gs <? length fs)%nat then Ok true else each_field equal gs fs
    | _ => Err ESchema
    end.
Proof.
  intros H. cbn [needs_rewrite_by]. rewrite H. destruct w as [| | | | | | | | | | |m gs| | | | | | | | | | | | | | | |]; try done.
  cbn [is_logical_type]. destruct (_ <? _)%nat; [done|]. clear H. induction fs as [|[name rs] fs IH]; [done|].
  cbn [each_field]. by rewrite <- IH.
Qed.

Lemma refines_self : refines schemas_equal.
Proof. by split. Qed.

(** Schemas that are equal up to the names of records and defaults need no rewrite, whatever finer
    equality is tested first. *)
Lemma equal_needs_no_rewrite equal : refines equal -> forall r, sound r -> forall w, schemas_equal w r = true ->
  needs_rewrite_by equal w r = Ok false.
Proof.
  intros He r. induction r as [r Ha Hm Hu Hr|i IH|t IH|vs IH|n fs IH] using schema_ind; intros Hs w Heq;
    match goal with |- needs_rewrite_by _ ?w ?r = _ =>
      destruct (equal w r) eqn:Hb; [destruct r; cbn [needs_rewrite_by]; by rewrite Hb|] end.
  - rewrite (refines_leaves _ He) in Hb; [done| |done]. destruct r; naive_solver.
  - cbn. rewrite Hb. apply equal_array in Heq as (j & -> & Hj). by apply IH.
  - cbn. rewrite Hb. apply equal_map in Heq as (u & -> & Hj). by apply IH.
  - rewrite union_arm by done. apply equal_union in Heq as (us & -> & Hus). pose proof Hs as [[v Hv] _].
    destruct (variant_unwraps us vs Hus v Hv) as (u & Hu & Huv & Hin). cbn. rewrite Hu, Hv. cbn.
    rewrite List.Forall_forall in IH. apply IH; [by apply list_elem_of_In|by apply (sound_variant vs)|done].
  - rewrite record_arm by done. destruct (equal_record _ _ _ Heq) as (m & gs & ->).
    pose proof (equal_fields _ _ _ _ Heq) as HF. rewrite (proj2 (Nat.ltb_ge _ _)) by (by rewrite (Forall2_length HF)).
    assert (Hnd : NoDup (field_name <$> gs.*1)).
    { destruct Hs as [Hnd _]. replace (field_name <$> gs.*1) with (field_name <$> fs.*1); [done|]. clear -HF. induction HF as [|g f gs fs [H _] HF IH]; [done|].
      cbn. by rewrite IH, H. }
    assert (Hall : forall g f, (g, f) ∈ zip gs fs -> needs_rewrite_by equal g.2 f.2 = Ok false /\ g ∈ gs /\ field_name g.1 = field_name f.1).
    { intros g f Hin. pose proof Hin as Hin'. apply elem_of_zip_l in Hin' as Hg. apply elem_of_zip_r in Hin as Hf.
      apply list_elem_of_lookup in Hin' as (k & Hk). apply lookup_zip_Some in Hk as [Hgk Hfk].
      destruct (Forall2_lookup_lr _ _ _ _ _ _ HF Hgk Hfk) as [Hname Hgf].
      split; [|done]. rewrite List.Forall_forall in IH. apply IH; [by apply list_elem_of_In| |done].
      destruct f as [fn f]. by apply (sound_field n fs fn). }
    assert (Hlen : length gs = length fs) by apply (Forall2_length HF).
    clear -Hall Hnd Hlen.
    assert (Hsub : forall l gs' , length gs' = length l -> (forall g f, (g, f) ∈ zip gs' l -> needs_rewrite_by equal g.2 f.2 = Ok false /\ g ∈ gs /\ field_name g.1 = field_name f.1) ->
      each_field equal gs l = Ok false).
    { induction l as [|[name rs] l IHl]; intros [|[gn gsch] gs'] Hl H; try discriminate Hl; [done|]. cbn.
      destruct (H (gn, gsch) (name, rs)) as (Hrw & Hin & Hname); [by left|]. cbn in Hname. rewrite <- Hname.
      rewrite (field_named_found gn gsch) by done. cbn in Hrw. rewrite Hrw. cbn.
      apply (IHl gs'); [by injection Hl|]. intros g f Hgf. apply H. by right. }
    by apply (Hsub fs gs).
Qed.


Lemma sound_unwrap w u : sound w -> actual_schema_from_union w = Ok u -> sound u.
Proof.
  intros Hs H. destruct w; try (by injection H as <-). apply (sound_variant _ u Hs). cbn in H.
  destruct variants as [|v0 [|v1 [|v2 vs]]]; try discriminate H; [injection H as <-; by left|]. cbn in H.
  destruct (is_null_schema v0); [injection H as <-; by right; left|]. destruct (is_null_schema v1); [|done].
  injection H as <-. by left.
Qed.

Lemma field_named_elem name fs s : field_named name fs = Some s -> exists h, (h, s) ∈ fs.
Proof.
  induction fs as [|[n f] fs IH]; cbn; [done|]. case_decide as Hd; [|intros [h H]%IH; exists h; by right].
  intros [= ->]. exists n. by left.
Qed.

(** C13: the schemas compared first need not compare the names of records or the defaults
    of fields, as the code says of its own equality: where an equality that is finer than it
    on records, arrays, maps and unions, and the same where the reader's schema is none of
    these -- Java's is, which compares those names and defaults -- is tested in its place,
    inside schemas too, a block is rewritten, resolved or refused just the same, as long as
    the unions of both schemas are ones that unwrap (one variant, or null and another) and no
    record of theirs has two fields of a name. *)
Theorem coarse_equality_decides_alike equal w r : refines equal -> sound w -> sound r ->
  needs_rewrite_by equal w r = record_needs_rewrite_for_extended_promotion w r.
Proof.
  intros He Hw Hr. unfold record_needs_rewrite_for_extended_promotion. revert w Hw.
  induction r as [r Ha Hm Hu Hr'|i IH|t IH|vs IH|n fs IH] using schema_ind; intros w Hw;
    match goal with |- needs_rewrite_by _ ?w ?r = _ =>
      destruct (schemas_equal w r) eqn:Heq;
      [rewrite !equal_needs_no_rewrite by (done || apply refines_self); done|];
      assert (Hb : equal w r = false) by (destruct (equal w r) eqn:Hb; [by rewrite (refines_equal _ He _ _ Hb) in Heq|done])
    end.
  - destruct r; cbn [needs_rewrite_by]; rewrite Hb, Heq; (done || naive_solver).
  - cbn [needs_rewrite_by]. rewrite Hb, Heq. cbn [is_logical_type]. destruct w; try done. by apply IH.
  - cbn [needs_rewrite_by]. rewrite Hb, Heq. cbn [is_logical_type]. destruct w; try done. by apply IH.
  - rewrite !union_arm by done. destruct (actual_schema_from_union w) as [u| |] eqn:Hu; [cbn|done|done].
    pose proof Hr as [[v Hv] _]. rewrite Hv. cbn. assert (Hin : v ∈ vs).
    { clear -Hv. destruct vs as [|v0 [|v1 [|v2 vs]]]; try discriminate Hv; [injection Hv as <-; by left|]. cbn in Hv.
      destruct (is_null_schema v0); [injection Hv as <-; by right; left|]. destruct (is_null_schema v1); [|done].
      injection Hv as <-. by left. }
    rewrite List.Forall_forall in IH. apply IH; [by apply list_elem_of_In|by apply (sound_variant vs)|by apply (sound_unwrap w)].
  - rewrite !record_arm by done. destruct w as [| | | | | | | | | | |m gs| | | | | | | | | | | | | | | |]; try done.
    destruct (_ <? _)%nat; [done|].
    assert (Hf : forall name f, (name, f) ∈ fs -> sound f) by (intros name f Hin; by apply (sound_field n fs name)).
    clear Hr Heq Hb. induction fs as [|[name rs] fs IHf]; [done|]. cbn.
    inversion IH as [|? ? Hhd Htl]; subst. cbn [snd] in Hhd.
    destruct (field_named (field_name name) gs) as [ws|] eqn:Hws; [|done].
    rewrite Hhd; [|apply (Hf name); by left|destruct (field_named_elem _ _ _ Hws) as [h Hh]; by apply (sound_field m gs h)].
    destruct (needs_rewrite_by schemas_equal ws rs) as [[]| |]; try done. cbn. apply IHf; [done|].
    intros name' f Hin. apply (Hf name'). by right.
Qed.
End detector.

(** * Samples *)
Module SamplePromotion.
Definition leaf_eqb (a b : Schema) : bool :=
  match a, b with
  | SNull, SNull | SBoolean, SBoolean | SInt, SInt | SLong, SLong | SFloat, SFloat | SDouble, SDouble | SBytes, SBytes
  | SString, SString | SBigDecimal, SBigDecimal | SUuid, SUuid | SDate, SDate | STimeMillis, STimeMillis
  | STimeMicros, STimeMicros | STimestampMillis, STimestampMillis | STimestampMicros, STimestampMicros
  | STimestampNanos, STimestampNanos | SLocalTimestampMillis, SLocalTimestampMillis
  | SLocalTimestampMicros, SLocalTimestampMicros | SLocalTimestampNanos, SLocalTimestampNanos | SDuration, SDuration => true
  | SEnum n s, SEnum m t => bool_decide (n = m) && bool_decide (s = t)
  | SFixed n s, SFixed m t => bool_decide (n = m) && (s =? t)
  | SDecimal p s _, SDecimal p' s' _ => (p =? p') && (s =? s')
  | SRef n, SRef m => bool_decide (n = m)
  | _, _ => false
  end.

#[export] Instance sample_avro_eq : AvroEq := leaf_eqb.

#[export] Instance sample_avro_laws : AvroEqLaws.
Proof. split; intros [] *; cbn; try done; destruct r; done. Qed.

Definition field (name : string) : FieldHead := mkField name None.

(** A column of records renamed and widened, its defaults changed, another dropped. *)
Definition written : Schema :=
  SRecord "row" [(field "id", SInt); (mkField "at" (Some "null"), SUnion [SNull; SRecord "place" [(field "x", SInt); (field "y", SInt)]]);
    (field "tags", SArray SString)].
Definition asked : Schema :=
  SRecord "row2" [(field "at", SUnion [SNull; SRecord "spot" [(field "x", SLong); (mkField "y" (Some "0"), SInt)]]); (field "id", SDouble)].

Ltac sound_tac :=
  cbn; repeat match goal with
  | |- True => exact I
  | |- _ /\ _ => split
  | |- NoDup _ => apply (bool_decide_unpack _); vm_compute; exact I
  | |- exists _, _ => eexists; reflexivity
  end.

Lemma coarse_equality_decides_alike_witness :
  needs_rewrite_by java_equal written asked = Ok false /\
  needs_rewrite_by java_equal written asked = record_needs_rewrite_for_extended_promotion written asked.
Proof.
  split; [vm_compute; reflexivity|]. apply coarse_equality_decides_alike; [apply java_equal_refines| |].
  - sound_tac.
  - sound_tac.
Defined.

(** The table of the code's own tests: numbers widen, doubles of floats and texts are rewritten. *)
Example promotions :
  map (fun wr => record_needs_rewrite_for_extended_promotion wr.1 wr.2)
    [(SInt, SInt); (SInt, SLong); (SInt, SFloat); (SInt, SDouble); (SLong, SDouble); (SFloat, SDouble); (SInt, SString);
     (SBytes, SString); (SString, SBytes); (SDate, SInt); (SInt, SDate); (SUnion [SNull; SInt], SLong)] =
  map Ok [false; false; false; false; false; true; true; true; true; false; true; true].
Proof. vm_compute. reflexivity. Qed.

(** The comment on [schemas_equal] says that names and defaults never change the answer.
    In a union of three branches they do: one equality ends the comparison there, the other
    goes on to the union and finds it malformed. *)
Example names_matter_in_wide_unions :
  let w n d := SUnion [SNull; SInt; SRecord n [(mkField "x" d, SInt)]] in
  record_needs_rewrite_for_extended_promotion (w "a" None) (w "b" None) = Ok false /\
  needs_rewrite_by java_equal (w "a" None) (w "b" None) = Err ESchema /\
  record_needs_rewrite_for_extended_promotion (w "a" None) (w "a" (Some "0")) = Ok false /\
  needs_rewrite_by java_equal (w "a" None) (w "a" (Some "0")) = Err ESchema.
Proof. split_and!; vm_compute; reflexivity. Qed.
End SamplePromotion.
