(* ===== verification/MetadataRecords.v ===== *)
(** Records of the metadata table's files partition, decoded and merged:
    crates/core/src/metadata/table/records.rs, crates/core/src/metadata/merger.rs and
    crates/core/src/metadata/table/reader.rs.

    A record names the files of a partition, with sizes; records of log files add files,
    grow them or cancel them.  Values are Avro's, which the Avro library decodes. *)
From Stdlib Require Import ZArith.
From stdpp Require Import base gmap sets list strings sorting numbers.
From S2P Require Import Prelude RustStr StorageReader RecordBatches LogFormat Metadata MetadataTable.
Local Open Scope res_scope.
Local Open Scope Z_scope.

(** [apache_avro::types::Value], as far as the code tells its variants apart; a map is a
    [HashMap], whose order the code cannot rely on. *)
Inductive AvroValue :=
  | AvRecord (fields : list (string * AvroValue))
  | AvMap (entries : list (string * AvroValue))
  | AvUnion (branch : Z) (inner : AvroValue)
  | AvLong (n : Z)
  | AvInt (n : Z)
  | AvBoolean (b : bool)
  | AvOther.

(** [from_avro_datum]; a decoded map has its keys once. *)
Class AvroDatum := {
  AvroSchema : Type;
  from_avro_datum : AvroSchema -> bytes -> option AvroValue
}.

(** [extract_long] and [extract_bool] *)
Fixpoint extract_long (value : AvroValue) : option Z :=
  match value with
  | AvLong n | AvInt n => Some n
  | AvUnion _ inner => extract_long inner
  | _ => None
  end.

Fixpoint extract_bool (value : AvroValue) : option bool :=
  match value with
  | AvBoolean b => Some b
  | AvUnion _ inner => extract_bool inner
  | _ => None
  end.

(** One field of [extract_file_info]. *)
Definition file_info_field (acc : Z * bool) (field : string * AvroValue) : Z * bool :=
  let '(size, is_deleted) := acc in
  if decide (field.1 = "size") then (default size (extract_long field.2), is_deleted)
  else if decide (field.1 = "isDeleted") then (size, default is_deleted (extract_bool field.2))
  else acc.

Definition extract_file_info (name : string) (value : AvroValue) : option HoodieMetadataFileInfo :=
  let of_fields fields := let '(size, is_deleted) := foldl file_info_field (0, false) fields in Some (mkFileInfo name size is_deleted) in
  match value with
  | AvRecord fields => of_fields fields
  | AvUnion _ (AvRecord fields) => of_fields fields
  | _ => None
  end.

(** The map of [extract_filesystem_metadata], of one field. *)
Definition filesystem_map (field : string * AvroValue) : option (list (string * AvroValue)) :=
  if decide (field.1 = "filesystemMetadata") then
    match field.2 with
    | AvMap map => Some map
    | AvUnion _ (AvMap map) => Some map
    | _ => None
    end
  else None.

Definition insert_file_info (files : list (string * HoodieMetadataFileInfo)) (entry : string * AvroValue)
    : list (string * HoodieMetadataFileInfo) :=
  match extract_file_info entry.1 entry.2 with Some info => hm_insert entry.1 info files | None => files end.

Definition extract_filesystem_metadata (avro_value : AvroValue) : list (string * HoodieMetadataFileInfo) :=
  match avro_value with
  | AvRecord fields => foldl insert_file_info [] (default [] (head (omap filesystem_map fields)))
  | _ => []
  end.

(** [get_avro_int] *)
Definition get_avro_int (value : AvroValue) (field : string) : option Z :=
  match value with
  | AvRecord fields =>
      match hm_get field fields with
      | Some (AvInt n) | Some (AvUnion _ (AvInt n)) => Some n
      | _ => None
      end
  | _ => None
  end.

Definition get_record_type (avro_value : AvroValue) : MetadataRecordType :=
  match get_avro_int avro_value "type" with Some n => record_type_from_i32 n | None => Unknown end.

(** [HFileRecord::key_as_str] *)
Definition key_as_str (record : HFileRecord) : option string :=
  match from_utf8 (hf_key record) with Ok s => Some s | _ => None end.

(** The map of a record of all partitions names the table's own directory [.]; outside it
    is the empty path. *)
Definition normalise_all_partitions (record_type : MetadataRecordType) (files : list (string * HoodieMetadataFileInfo))
    : list (string * HoodieMetadataFileInfo) :=
  if decide (record_type = AllPartitions) then
    match hm_get NON_PARTITIONED_NAME files with
    | Some info => hm_insert "" (mkFileInfo "" (info_size info) (is_deleted info)) (hm_remove NON_PARTITIONED_NAME files)
    | None => files
    end
  else files.

Section decode.
Context {AD : AvroDatum}.

Definition decode_avro_value (value : bytes) (schema : AvroSchema) : res AvroValue :=
  if decide (value = []) then Err EMetadataTable
  else match from_avro_datum schema value with Some v => Ok v | None => Err EMetadataTable end.

Definition decode_files_partition_record_with_schema (record : HFileRecord) (schema : AvroSchema) : res FilesPartitionRecord :=
  match key_as_str record with
  | None => Err EMetadataTable
  | Some raw_key =>
      let key := normalise_partition raw_key in
      if decide (hf_value record = []) then Ok (mkFilesPartitionRecord key Files [])
      else
        let? avro_value := decode_avro_value (hf_value record) schema in
        let record_type := get_record_type avro_value in
        Ok (mkFilesPartitionRecord key record_type
              (normalise_all_partitions record_type (extract_filesystem_metadata avro_value)))
  end.
End decode.

(** * [FilesPartitionMerger] *)

(** One entry of [merge_files_partition_records]. *)
Definition merge_file_entry (files : list (string * HoodieMetadataFileInfo)) (entry : string * HoodieMetadataFileInfo)
    : list (string * HoodieMetadataFileInfo) :=
  let '(name, new_info) := entry in
  match hm_get name files with
  | Some old_info =>
      if is_deleted new_info then
        if is_deleted old_info then hm_insert name new_info files else hm_remove name files
      else hm_insert name (mkFileInfo name (Z.max (info_size old_info) (info_size new_info)) false) files
  | None => hm_insert name new_info files
  end.

Definition merge_files_partition_records (existing newer : FilesPartitionRecord) : FilesPartitionRecord :=
  mkFilesPartitionRecord (key existing) (record_type existing) (foldl merge_file_entry (files existing) (files newer)).

Section merger.
Context {AD : AvroDatum} (schema : AvroSchema).

Abbreviation Merged := (gmap string FilesPartitionRecord).

Definition decode_record (record : HFileRecord) : res FilesPartitionRecord := decode_files_partition_record_with_schema record schema.

Definition merge_decoded (merged : Merged) (decoded : FilesPartitionRecord) : Merged :=
  match merged !! key decoded with
  | Some existing => <[key decoded := merge_files_partition_records existing decoded]> merged
  | None => <[key decoded := decoded]> merged
  end.

(** The loops over base and log records. *)
Definition merge_base (merged : Merged) (record : HFileRecord) : res Merged :=
  let? decoded := decode_record record in Ok (<[key decoded := decoded]> merged).

Definition merge_log (merged : Merged) (record : HFileRecord) : res Merged :=
  let? decoded := decode_record record in Ok (merge_decoded merged decoded).

Definition merge (base_records log_records : list HFileRecord) : res Merged :=
  let? merged := res_fold merge_base base_records ∅ in
  res_fold merge_log log_records merged.

(** [key_set.contains], of the key where it is text. *)
Definition key_asked (keys : list string) (record : HFileRecord) : bool :=
  match key_as_str record with Some key_str => bool_decide (key_str ∈ keys) | None => false end.

Definition if_asked (keys : list string) (merge_one : Merged -> HFileRecord -> res Merged) (merged : Merged) (record : HFileRecord)
    : res Merged :=
  if key_asked keys record then merge_one merged record else Ok merged.

Definition merge_for_keys (base_records log_records : list HFileRecord) (keys : list string) : res Merged :=
  if decide (keys = []) then merge base_records log_records
  else
    let? merged := res_fold (if_asked keys merge_base) base_records ∅ in
    res_fold (if_asked keys merge_log) log_records merged.
End merger.

(** * Maps of files *)
Section hash_maps.
Context {V : Type}.
Implicit Type m : list (string * V).

Lemma hm_get_remove k k' m : hm_get k' (hm_remove k m) = if decide (k' = k) then None else hm_get k' m.
Proof.
  unfold hm_remove. induction m as [|[j v] m IH]; cbn; [by case_decide|].
  case_bool_decide as Hj; cbn; rewrite IH; repeat case_decide; congruence.
Qed.

Lemma hm_get_insert k v k' m : hm_get k' (hm_insert k v m) = if decide (k' = k) then Some v else hm_get k' m.
Proof.
  unfold hm_insert. cbn. rewrite hm_get_remove. repeat case_decide; congruence.
Qed.

Lemma hm_remove_elem k m : NoDup m.*1 -> NoDup (hm_remove k m).*1 /\ k ∉ (hm_remove k m).*1.
Proof.
  unfold hm_remove. induction m as [|[j v] m IH]; cbn; [split; [constructor|by inversion 1]|].
  intros [Hj Hn]%list.NoDup_cons. destruct (IH Hn) as [IH1 IH2]. case_bool_decide; cbn; [done|]. split.
  - apply list.NoDup_cons. split; [|done]. intros H1. apply Hj. apply list_elem_of_fmap in H1 as (e & -> & He).
    apply list_elem_of_In, List.filter_In in He as [He _]. apply list_elem_of_fmap. exists e. split; [done|by apply list_elem_of_In].
  - rewrite not_elem_of_cons. split; [congruence|done].
Qed.

Lemma hm_insert_keys k v m : NoDup m.*1 -> NoDup (hm_insert k v m).*1.
Proof. intros Hn. destruct (hm_remove_elem k m Hn). apply list.NoDup_cons. done. Qed.

Lemma hm_get_not k m : k ∉ m.*1 -> hm_get k m = None.
Proof.
  induction m as [|[j v] m IH]; cbn; [done|]. rewrite not_elem_of_cons. intros [Hk Hm]. rewrite decide_False by done. by apply IH.
Qed.
End hash_maps.

Lemma extracted_keys v : NoDup (extract_filesystem_metadata v).*1.
Proof.
  destruct v; try constructor. cbn. generalize (default [] (head (omap filesystem_map fields))) as es.
  assert (H : forall es fs, NoDup fs.*1 -> NoDup (foldl insert_file_info fs es).*1); [|intros es; apply H; constructor].
  induction es as [|e es IH]; intros fs Hn; [done|]. cbn. apply IH. unfold insert_file_info.
  destruct (extract_file_info e.1 e.2); [by apply hm_insert_keys|done].
Qed.

Lemma normalised_keys t fs : NoDup fs.*1 -> NoDup (normalise_all_partitions t fs).*1.
Proof.
  intros Hn. unfold normalise_all_partitions. case_decide; [|done]. destruct (hm_get _ _); [|done].
  apply hm_insert_keys. by apply hm_remove_elem.
Qed.

(** What an entry of a newer record makes of the entry before it. *)
Definition merged_info (name : string) (old : option HoodieMetadataFileInfo) (new_info : HoodieMetadataFileInfo)
    : option HoodieMetadataFileInfo :=
  match old with
  | Some old_info =>
      if is_deleted new_info then if is_deleted old_info then Some new_info else None
      else Some (mkFileInfo name (Z.max (info_size old_info) (info_size new_info)) false)
  | None => Some new_info
  end.

Lemma merge_file_entry_get fs name i name' :
  hm_get name' (merge_file_entry fs (name, i)) = if decide (name' = name) then merged_info name (hm_get name fs) i else hm_get name' fs.
Proof.
  unfold merge_file_entry, merged_info. destruct (hm_get name fs) as [o|] eqn:Ho; [|by rewrite hm_get_insert].
  destruct (is_deleted i); [destruct (is_deleted o)|]; by rewrite ?hm_get_insert, ?hm_get_remove.
Qed.

Lemma merge_files_get newer : NoDup newer.*1 -> forall fs name,
  hm_get name (foldl merge_file_entry fs newer) =
  match hm_get name newer with Some i => merged_info name (hm_get name fs) i | None => hm_get name fs end.
Proof.
  induction newer as [|[k i] newer IH]; [done|]. intros [Hk Hn]%list.NoDup_cons fs name. cbn [foldl hm_get].
  rewrite (IH Hn), merge_file_entry_get. destruct (decide (name = k)) as [->|Hne]; [|done].
  by rewrite (hm_get_not k newer) by done.
Qed.

Lemma merge_file_entry_keys fs e : NoDup fs.*1 -> NoDup (merge_file_entry fs e).*1.
Proof.
  intros Hn. destruct e as [name i]. unfold merge_file_entry.
  destruct (hm_get name fs) as [o|]; [destruct (is_deleted i); [destruct (is_deleted o)|]|];
    try (by apply hm_insert_keys); by apply hm_remove_elem.
Qed.

(** * Versions of a record *)

(** What the records that mention a file say of it, in order. *)
Definition mentions (name : string) (rs : list FilesPartitionRecord) : list HoodieMetadataFileInfo :=
  omap (fun r => hm_get name (files r)) rs.

Definition records_of (k : string) (rs : list FilesPartitionRecord) : list FilesPartitionRecord :=
  filter (fun r => key r = k) rs.

(** The records merged under a key: the last of the base file, then those of the logs. *)
Definition versions (k : string) (base log : list FilesPartitionRecord) : list FilesPartitionRecord :=
  option_list (list.last (records_of k base)) ++ records_of k log.

Definition merged_versions (vs : list FilesPartitionRecord) : option FilesPartitionRecord :=
  match vs with [] => None | r :: rs => Some (foldl merge_files_partition_records r rs) end.

Lemma merged_versions_snoc vs r :
  merged_versions (vs ++ [r]) = Some (match merged_versions vs with Some e => merge_files_partition_records e r | None => r end).
Proof. destruct vs as [|v vs]; [done|]. cbn. by rewrite foldl_app. Qed.

Definition keyed (rs : list FilesPartitionRecord) : Prop := Forall (fun r => NoDup (files r).*1) rs.

(** The state of a file under a fold of records. *)
Definition mention_step (name : string) (s : option HoodieMetadataFileInfo) (i : HoodieMetadataFileInfo) := merged_info name s i.

Lemma folded_get name rs : keyed rs -> forall r,
  hm_get name (files (foldl merge_files_partition_records r rs)) = foldl (merged_info name) (hm_get name (files r)) (mentions name rs).
Proof.
  induction 1 as [|r' rs Hr _ IH]; intros r; [done|]. cbn. rewrite IH. cbn. rewrite merge_files_get by done.
  unfold mentions. cbn. by destruct (hm_get name (files r')).
Qed.

(** Whatever was there, after a mention the file is there if and only if the mention does
    not delete it, and is at least as large. *)
Lemma last_mention name s js i : let after := foldl (merged_info name) s (js ++ [i]) in
  if is_deleted i then from_option (fun f => is_deleted f = true) True after
  else exists f, after = Some f /\ is_deleted f = false /\ info_size i <= info_size f.
Proof.
  cbn. rewrite foldl_app. cbn. generalize (foldl (merged_info name) s js) as o. intros o. unfold merged_info.
  destruct o as [o|], (is_deleted i) eqn:Hi; cbn; [destruct (is_deleted o); cbn; [done|exact I]| |done|];
    eexists; (split; [done|]); cbn; split; (done || lia).
Qed.

Lemma mentions_cons name r rs : foldl (merged_info name) (hm_get name (files r)) (mentions name rs) =
  foldl (merged_info name) None (mentions name (r :: rs)).
Proof. unfold mentions. cbn. by destruct (hm_get name (files r)). Qed.

Lemma active_by_last_mention name r rs : keyed rs ->
  let merged := foldl merge_files_partition_records r rs in
  match list.last (mentions name (r :: rs)) with
  | Some i =>
      if is_deleted i then has_active_file merged name = false
      else exists f, hm_get name (files merged) = Some f /\ is_deleted f = false /\ info_size i <= info_size f
  | None => has_active_file merged name = false
  end.
Proof.
  intros Hk merged. unfold merged, has_active_file. rewrite (folded_get name rs Hk), mentions_cons.
  destruct (mentions name (r :: rs)) as [|i js _] using rev_ind; [done|]. rewrite last_snoc.
  pose proof (last_mention name None js i) as H. cbn in H. destruct (is_deleted i); [|done].
  clear merged. destruct (foldl (merged_info name) _ _) as [f|]; [|done]. cbn in H. by rewrite H.
Qed.

Lemma records_of_snoc k rs r : records_of k (rs ++ [r]) = records_of k rs ++ (if decide (key r = k) then [r] else []).
Proof. unfold records_of. rewrite list.filter_app. f_equal. Qed.

Lemma records_of_keyed k rs : keyed rs -> keyed (records_of k rs).
Proof. intros H. apply list.Forall_forall. intros r [_ Hr]%list_elem_of_filter. by eapply list.Forall_forall in H. Qed.

Section merged.
Context {AD : AvroDatum} (schema : AvroSchema).

Lemma decoded_keyed records rs : res_mapM (decode_record schema) records = Ok rs -> keyed rs.
Proof.
  intros H%res_mapM_Ok. induction H as [|a r records rs Ha _ IH]; constructor; [|done].
  unfold decode_record, decode_files_partition_record_with_schema in Ha. destruct (key_as_str a); [|done].
  case_decide; [injection Ha as <-; constructor|]. apply res_bind_Ok in Ha as (v & _ & [= <-]). cbn.
  apply normalised_keys, extracted_keys.
Qed.

(** The loops, on decoded records. *)
Lemma merge_base_decodes base : forall m m', res_fold (merge_base schema) base m = Ok m' <->
  exists bs, res_mapM (decode_record schema) base = Ok bs /\ m' = foldl (fun m r => <[key r := r]> m) m bs.
Proof.
  induction base as [|a base IH]; intros m m'; cbn; [split; [intros [= <-]; by exists []|by intros (bs & [= <-] & ->)]|].
  unfold merge_base at 1. destruct (decode_record schema a) as [r| |]; cbn; [|split; [done|by intros (? & ? & ?)]..].
  rewrite IH. split.
  - intros (bs & -> & ->). by exists (r :: bs).
  - intros (bs & Hbs & ->). destruct (res_mapM _ base) as [bs'| |]; cbn in Hbs; try done. injection Hbs as <-. by exists bs'.
Qed.

Lemma merge_log_decodes log : forall m m', res_fold (merge_log schema) log m = Ok m' <->
  exists ls, res_mapM (decode_record schema) log = Ok ls /\ m' = foldl merge_decoded m ls.
Proof.
  induction log as [|a log IH]; intros m m'; cbn; [split; [intros [= <-]; by exists []|by intros (bs & [= <-] & ->)]|].
  unfold merge_log at 1. destruct (decode_record schema a) as [r| |]; cbn; [|split; [done|by intros (? & ? & ?)]..].
  rewrite IH. split.
  - intros (bs & -> & ->). by exists (r :: bs).
  - intros (bs & Hbs & ->). destruct (res_mapM _ log) as [bs'| |]; cbn in Hbs; try done. injection Hbs as <-. by exists bs'.
Qed.

Lemma base_lookup bs k : foldl (fun (m : gmap string FilesPartitionRecord) r => <[key r := r]> m) ∅ bs !! k = list.last (records_of k bs).
Proof.
  induction bs as [|r bs IH] using rev_ind; [done|]. rewrite foldl_app, records_of_snoc. cbn.
  case_decide as Hk; [|by rewrite app_nil_r, lookup_insert_ne].
  subst. by rewrite lookup_insert_eq, last_snoc.
Qed.

Lemma logs_lookup ls m k : foldl merge_decoded m ls !! k = merged_versions (option_list (m !! k) ++ records_of k ls).
Proof.
  induction ls as [|r ls IH] using rev_ind; [cbn; by destruct (m !! k)|].
  rewrite foldl_app, records_of_snoc, (app_assoc (option_list _)). cbn. unfold merge_decoded at 1.
  case_decide as Hk.
  - rewrite Hk, IH, merged_versions_snoc. by destruct (merged_versions _) as [e|]; rewrite lookup_insert_eq.
  - rewrite app_nil_r, <- IH. by destruct (_ !! key r); rewrite lookup_insert_ne.
Qed.

Lemma merge_decodes base log m : merge schema base log = Ok m <-> exists bs ls,
  res_mapM (decode_record schema) base = Ok bs /\ res_mapM (decode_record schema) log = Ok ls /\
  m = foldl merge_decoded (foldl (fun m r => <[key r := r]> m) ∅ bs) ls.
Proof.
  unfold merge. rewrite res_bind_Ok. split.
  - intros (m0 & (bs & Hbs & ->)%merge_base_decodes & (ls & Hls & ->)%merge_log_decodes). eauto.
  - intros (bs & ls & Hbs & Hls & ->). eexists. split; [apply merge_base_decodes; eauto|apply merge_log_decodes; eauto].
Qed.

(** C12: after the merge a file of a partition is listed if and only if the last record
    that mentions it -- the base file's last record of the partition, then the log's in
    order -- does not delete it, and then with at least the size that record gives. *)
Theorem merged_files_by_last_mention base log m : merge schema base log = Ok m -> exists bs ls,
  res_mapM (decode_record schema) base = Ok bs /\ res_mapM (decode_record schema) log = Ok ls /\ forall k,
  match m !! k with
  | None => versions k bs ls = []
  | Some r => forall name,
      match list.last (mentions name (versions k bs ls)) with
      | Some i =>
          if is_deleted i then has_active_file r name = false
          else exists f, hm_get name (files r) = Some f /\ is_deleted f = false /\ info_size i <= info_size f
      | None => has_active_file r name = false
      end
  end.
Proof.
  intros (bs & ls & Hbs & Hls & ->)%merge_decodes. exists bs, ls. split; [done|]. split; [done|]. intros k.
  rewrite logs_lookup, base_lookup. fold (versions k bs ls). destruct (versions k bs ls) as [|r rs] eqn:Hv; [done|].
  intros name. cbn. apply active_by_last_mention. apply decoded_keyed in Hbs, Hls.
  assert (H : keyed (versions k bs ls)); [|rewrite Hv in H; by inversion H].
  apply Forall_app. split; [|by apply records_of_keyed]. apply (records_of_keyed k) in Hbs.
  destruct (list.last _) as [b|] eqn:Hb; [|constructor]. apply last_Some_elem_of in Hb. constructor; [|constructor].
  by eapply list.Forall_forall in Hbs.
Qed.

Lemma fold_if_asked keys f l : forall m, res_fold (if_asked keys f) l m = res_fold f (List.filter (key_asked keys) l) m.
Proof.
  induction l as [|a l IH]; intros m; [done|]. cbn. unfold if_asked at 1. destruct (key_asked keys a); cbn; [|apply IH].
  destruct (f m a); cbn; [apply IH|done|done].
Qed.

Definition asked (keys : list string) (r : FilesPartitionRecord) : Prop := key r ∈ normalise_partition <$> keys.

#[local] Instance asked_dec keys r : Decision (asked keys r).
Proof. unfold asked. apply _. Defined.

Lemma decoded_asked keys l : (forall a s, a ∈ l -> key_as_str a = Some s -> normalise_partition s ∈ normalise_partition <$> keys -> s ∈ keys) ->
  forall rs, res_mapM (decode_record schema) l = Ok rs ->
  res_mapM (decode_record schema) (List.filter (key_asked keys) l) = Ok (filter (asked keys) rs).
Proof.
  induction l as [|a l IH]; intros Hl rs H; [by injection H as <-|]. cbn in H.
  apply res_bind_Ok in H as (r & Ha & H). apply res_bind_Ok in H as (rs' & Hrs & [= <-]).
  assert (IHl := IH (fun a s Hin => Hl a s (list_elem_of_further _ _ _ Hin)) rs' Hrs). clear IH.
  assert (Hk : exists s, key_as_str a = Some s /\ key r = normalise_partition s).
  { revert Ha. unfold decode_record, decode_files_partition_record_with_schema. destruct (key_as_str a) as [s|]; [|done].
    case_decide; [intros [= <-]; by exists s|]. intros (v & _ & [= <-])%res_bind_Ok. by exists s. }
  destruct Hk as (s & Hs & Hkey). rewrite list.filter_cons. cbn [List.filter]. unfold key_asked at 1. rewrite Hs.
  case_bool_decide as Hin.
  - rewrite decide_True by (unfold asked; rewrite Hkey; apply list_elem_of_fmap; by exists s). cbn. by rewrite Ha, IHl.
  - rewrite decide_False; [done|]. unfold asked. rewrite Hkey. intros H. apply Hin. by apply (Hl a s (list_elem_of_here _ _)).
Qed.

Lemma asked_records keys k rs :
  records_of k (filter (asked keys) rs) = if decide (k ∈ normalise_partition <$> keys) then records_of k rs else [].
Proof.
  unfold records_of, asked. induction rs as [|r rs IH]; [by case_decide|]. rewrite !list.filter_cons.
  repeat case_decide; rewrite ?list.filter_cons; repeat case_decide; subst; try done; by rewrite IH.
Qed.

(** Reading some keys of the files partition is reading all of it and keeping those
    keys, as long as no record of the slice has the other spelling of a key that was asked
    for: the records of an unpartitioned table are keyed [.], and known as the empty path. *)
Theorem merge_for_keys_is_restriction base log keys m : keys <> [] ->
  (forall a s, a ∈ base ++ log -> key_as_str a = Some s -> normalise_partition s ∈ normalise_partition <$> keys -> s ∈ keys) ->
  merge schema base log = Ok m ->
  merge_for_keys schema base log keys = Ok (filter (fun kv => kv.1 ∈ normalise_partition <$> keys) m).
Proof.
  intros Hne Hraw (bs & ls & Hbs & Hls & ->)%merge_decodes. unfold merge_for_keys. rewrite decide_False by done.
  rewrite fold_if_asked.
  replace (let? merged := _ in res_fold (if_asked keys (merge_log schema)) log merged) with
    (merge schema (List.filter (key_asked keys) base) (List.filter (key_asked keys) log)).
  2:{ unfold merge. destruct (res_fold _ _ _); cbn; [by rewrite fold_if_asked|done|done]. }
  apply merge_decodes. exists (filter (asked keys) bs), (filter (asked keys) ls).
  split; [apply decoded_asked; [intros a s Hin; apply Hraw; set_solver|done]|].
  split; [apply decoded_asked; [intros a s Hin; apply Hraw; set_solver|done]|].
  apply map_eq. intros k. rewrite logs_lookup, base_lookup, !asked_records.
  destruct (decide (k ∈ normalise_partition <$> keys)) as [Hin|Hout].
  - rewrite <- base_lookup, <- logs_lookup.
    destruct (foldl merge_decoded _ ls !! k) as [r|] eqn:Hr; [by apply map_lookup_filter_Some|].
    apply map_lookup_filter_None. by left.
  - apply map_lookup_filter_None. right. intros r _ H. done.
Qed.
End merged.

(** * Samples *)
Module SampleMetadataRecords.

(** A value is one byte, the place of its contents in a table. *)
Definition info (size : Z) (deleted : bool) : AvroValue :=
  AvUnion 1 (AvRecord [("size", AvLong size); ("isDeleted", AvBoolean deleted)]).

Definition of_files (type : Z) (fs : list (string * AvroValue)) : AvroValue :=
  AvRecord [("key", AvOther); ("type", AvInt type); ("filesystemMetadata", AvUnion 1 (AvMap fs))].

Definition contents : list AvroValue :=
  [of_files 2 [("a.parquet", info 10 false); ("b.parquet", info 20 false)];
   of_files 2 [("a.parquet", info 0 true); ("c.parquet", info 5 true)];
   of_files 2 [("a.parquet", info 7 false); ("b.parquet", info 8 false)];
   of_files 1 [(".", info 0 false)]].

#[export] Instance sample_datum : AvroDatum := {|
  AvroSchema := unit;
  from_avro_datum _ b := match b with [c] => contents !! Z.to_nat (byte_value c) | _ => None end
|}.

Definition the_schema : @AvroSchema sample_datum := tt.

Definition record (k : string) (value : nat) : HFileRecord := mkHFileRecord (String.list_ascii_of_string k) [Ascii.ascii_of_nat value].

Definition base : list HFileRecord := [record "__all_partitions__" 3; record "p=1" 0; record "p=2" 0].
Definition log : list HFileRecord := [record "p=1" 1; record "p=2" 2; record "p=1" 2].

Lemma merged_files_by_last_mention_witness : exists m bs ls, merge the_schema base log = Ok m /\
  has_active_file (default (mkFilesPartitionRecord "" Files []) (m !! "p=1")) "a.parquet" = true /\
  res_mapM (decode_record the_schema) base = Ok bs /\ res_mapM (decode_record the_schema) log = Ok ls.
Proof.
  eexists _. destruct (merged_files_by_last_mention the_schema base log _ ltac:(vm_ok)) as (bs & ls & Hb & Hl & _).
  exists bs, ls. split; [vm_ok|]. split; [vm_compute; reflexivity|]. done.
Defined.

Lemma merge_for_keys_is_restriction_witness : exists m, merge the_schema base log = Ok m /\
  merge_for_keys the_schema base log ["p=1"] = Ok (filter (fun kv => kv.1 ∈ normalise_partition <$> ["p=1"]) m).
Proof.
  eexists _. split; [vm_ok|]. apply merge_for_keys_is_restriction; [done| |vm_ok].
  intros a s Ha Hs. repeat (apply elem_of_cons in Ha as [->|Ha]; [vm_compute in Hs; injection Hs as <-; vm_compute; set_solver|]).
  by inversion Ha.
Defined.

(** Sizes: a file deleted and written again has the size of the later record alone, as
    the deletion removes what was there. *)
Example rewritten_file_size :
  (fun m => active_files_with_sizes <$> m !! "p=1") <$> (match merge the_schema base log with Ok m => Some m | _ => None end) =
  Some (Some [("a.parquet", 7); ("b.parquet", 20)]).
Proof. vm_compute. reflexivity. Qed.

(** The records of an unpartitioned table come out keyed by the empty path, which does not
    find them when asked for. *)
Example empty_path_finds_nothing :
  (exists m, merge the_schema [record "." 0] [] = Ok m /\ is_Some (m !! "")) /\
  merge_for_keys the_schema [record "." 0] [] [""] = Ok ∅.
Proof. split; [eexists; split; [vm_ok|]; by eexists|vm_compute; reflexivity]. Qed.
End SampleMetadataRecords.
