(* ===== verification/MetadataMerger.v ===== *)
(** The merge of metadata records in version two:
    crates/core/src/file_group/reader_v2/metadata_merger.rs.

    The metadata table's records are merged by what their partition holds: maps of files
    are folded, column statistics widened, anything else is replaced.  The merger is one of
    [BufferedRecordMerger]; records are rows of Arrow batches, whose nested arrays are
    behind the interfaces [ArrowArrays], [ArrowCells] and [MetadataArrays]. *)
From Stdlib Require Import ZArith.
From stdpp Require Import base gmap sets list strings sorting numbers.
From S2P Require Import Prelude RustStr BTree StorageReader RecordBatches OrderingValues RecordMerger Metadata MetadataTable Evolution ReadContext GroupEngine PartialColumns MetadataRecords.
Local Open Scope res_scope.
Local Open Scope Z_scope.

(** Maps, structs and unions of Arrow: the entries of a map's row; arrays of numbers and
    booleans; [StructArray::try_new] without nulls; [MapArray::try_new] of one row; the
    child and offset a union has a row in; [make_comparator] with default options. *)
Class MetadataArrays {AA : ArrowArrays} := {
  map_value : Arr -> nat -> Arr;
  int64_array : list (option Z) -> Arr;
  boolean_array : list bool -> Arr;
  struct_of : Fields -> list Arr -> res Arr;
  single_map : Field -> Arr -> bool -> res Arr;
  is_union : Arr -> bool;
  union_slot : Arr -> nat -> Arr * nat;
  is_null_type : ArrowType -> bool;
  make_comparator : Arr -> Arr -> res (nat -> nat -> comparison)
}.

Definition TYPE_ALL_PARTITIONS : Z := 1.
Definition TYPE_FILES : Z := 2.
Definition TYPE_COLUMN_STATS : Z := 3.
Definition TYPE_PARTITION_STATS : Z := 6.
Definition TYPE_COLUMN : string := "type".
Definition FILESYSTEM_METADATA_COLUMN : string := "filesystemMetadata".
Definition COLUMN_STATS_COLUMN : string := "ColumnStatsMetadata".
Definition MIN_VALUE_FIELD : string := "minValue".
Definition MAX_VALUE_FIELD : string := "maxValue".
Definition IS_TIGHT_BOUND_FIELD : string := "isTightBound".
Definition WRAPPED_VALUE_FIELD : string := "value".
Definition COUNTER_FIELDS : list string := ["valueCount"; "nullCount"; "totalSize"; "totalUncompressedSize"].
Definition FILE_SIZE_FIELD : string := "size".
Definition FILE_IS_DELETED_FIELD : string := "isDeleted".

Record MapFileInfo := mkMapFile { file_size : Z; file_deleted : bool }.

(** [BTreeMap::remove] *)
Definition bt_remove {V} (k : string) (m : list (string * V)) : list (string * V) := filter (fun e => e.1 <> k) m.

(** The loop of [fold_filesystem_metadata]. *)
Definition fold_file (merged : list (string * MapFileInfo)) (entry : string * MapFileInfo) : list (string * MapFileInfo) :=
  let '(name, new_info) := entry in
  match bt_get name merged with
  | Some old_info =>
      if file_deleted new_info then
        if file_deleted old_info then bt_insert name new_info merged else bt_remove name merged
      else bt_insert name (mkMapFile (Z.max (file_size old_info) (file_size new_info)) false) merged
  | None => bt_insert name new_info merged
  end.

Definition fold_files (older newer : list (string * MapFileInfo)) : list (string * MapFileInfo) := foldl fold_file older newer.

(** [i64::saturating_add] *)
Definition i64_saturating_add (a b : Z) : Z := Z.max (- 9223372036854775808) (Z.min 9223372036854775807 (a + b)).

Section merger.
Context {AA : ArrowArrays} {AC : ArrowCells} {MA : MetadataArrays} {AB : ArrowBatch} {AR : ArrowRows} {BA : ArrayBatches}.

(** [column_by_name] *)
Definition column_by_name (batch : RecordBatch) (name : string) : res (option Arr) :=
  match find_field name (batch_schema batch) with
  | Some (i, _) => res_map Some (batch_column batch i)
  | None => Ok None
  end.

Definition record_type (batch : RecordBatch) : res Z :=
  let? column := column_by_name batch TYPE_COLUMN in
  let? typed := ok_or column EUnsupported in
  if negb (bool_decide (arr_type typed = AInt32)) then Err EUnsupported
  else if (arr_len typed =? 0) || is_null typed 0 then Err EUnsupported
  else Ok (int_at typed 0).

Definition is_struct (a : Arr) : bool := match arr_type a with AStruct _ => true | _ => false end.

(** A column of a struct by its place: indexing panics. *)
Definition struct_at (a : Arr) (i : nat) : res Arr := match struct_child a i with Some c => Ok c | None => Panic end.

Definition struct_field (values : Arr) (name : string) : res Arr := ok_or (struct_column values name) EUnsupported.

Definition read_entry (keys sizes deleted : Arr) (entries : list (string * MapFileInfo)) (i : nat) : list (string * MapFileInfo) :=
  if is_null keys i then entries
  else
    match text_at keys i with
    | Some name =>
        bt_insert name (mkMapFile (if is_null sizes i then 0 else int_at sizes i) (negb (is_null deleted i) && bool_at deleted i)) entries
    | None => entries
    end.

Definition read_file_map (column : Arr) : res (list (string * MapFileInfo)) :=
  match arr_type column with
  | AMap _ _ =>
      if (arr_len column =? 0) || is_null column 0 then Ok []
      else
        let row := map_value column 0 in
        let? keys := struct_at row 0 in
        let? _ := if decide (arr_type keys = AUtf8) then Ok tt else Err EUnsupported in
        let? values := struct_at row 1 in
        let? _ := if is_struct values then Ok tt else Err EUnsupported in
        let? sizes := struct_field values FILE_SIZE_FIELD in
        let? _ := if decide (arr_type sizes = AInt64) then Ok tt else Err EUnsupported in
        let? deleted := struct_field values FILE_IS_DELETED_FIELD in
        let? _ := if decide (arr_type deleted = ABoolean) then Ok tt else Err EUnsupported in
        Ok (foldl (read_entry keys sizes deleted) [] (seq 0 (Z.to_nat (arr_len keys))))
  | _ => Err EUnsupported
  end.

(** One column of the entries' values. *)
Definition value_column (entries : list (string * MapFileInfo)) (field : Field) : res Arr :=
  if decide (f_name field = FILE_SIZE_FIELD) then Ok (int64_array ((fun e => Some (file_size e.2)) <$> entries))
  else if decide (f_name field = FILE_IS_DELETED_FIELD) then Ok (boolean_array ((fun e => file_deleted e.2) <$> entries))
  else Err EUnsupported.

Definition build_file_map (data_type : ArrowType) (entries : list (string * MapFileInfo)) : res Arr :=
  match data_type with
  | AMap entries_field sorted =>
      match f_type entries_field with
      | AStruct (key_field :: value_field :: _) =>
          match f_type value_field with
          | AStruct value_fields =>
              let? value_columns := res_mapM (value_column entries) value_fields in
              let? values := map_err EArrow (struct_of value_fields value_columns) in
              let keys := string_array (Some <$> entries.*1) in
              let? entry_struct := map_err EArrow (struct_of [key_field; value_field] [keys; values]) in
              map_err EArrow (single_map entries_field entry_struct sorted)
          | _ => Err EUnsupported
          end
      | AStruct _ => Panic
      | _ => Err EUnsupported
      end
  | _ => Err EUnsupported
  end.

(** [columns().to_vec()] with one of them replaced, in the same schema. *)
Definition with_column (batch : RecordBatch) (column_idx : nat) (column : Arr) : res RecordBatch :=
  let? columns := res_mapM (batch_column batch) (seq 0 (length (batch_schema batch))) in
  map_err EArrow (batch_new (batch_schema batch) (<[column_idx := column]> columns)).

Definition fold_filesystem_metadata (older newer : RecordBatch) : res RecordBatch :=
  match find_field FILESYSTEM_METADATA_COLUMN (batch_schema newer) with
  | None => Ok newer
  | Some (column_idx, _) =>
      let? newer_column := batch_column newer column_idx in
      let? older_column := column_by_name older FILESYSTEM_METADATA_COLUMN in
      let? merged := match older_column with Some column => read_file_map column | None => Ok [] end in
      let? newer_map := read_file_map newer_column in
      let? folded := build_file_map (arr_type newer_column) (fold_files merged newer_map) in
      with_column newer column_idx folded
  end.

(** ** Column statistics *)

Definition stats_struct (column : Arr) : res (option Arr) :=
  if negb (is_struct column) then Err EUnsupported
  else if (arr_len column =? 0) || is_null column 0 then Ok None
  else Ok (Some column).

Definition flag (stats : Arr) (name : string) : bool :=
  match struct_column stats name with
  | Some c => bool_decide (arr_type c = ABoolean) && negb (is_null c 0) && bool_at c 0
  | None => false
  end.

(** A counter of one record. *)
Definition counter (stats : Arr) (name : string) : option Z :=
  match struct_column stats name with
  | Some c => if bool_decide (arr_type c = AInt64) && negb (is_null c 0) then Some (int_at c 0) else None
  | None => None
  end.

Definition summed (a b : option Z) : option Z :=
  match a, b with
  | None, None => None
  | a, b => Some (i64_saturating_add (default 0 a) (default 0 b))
  end.

Definition sum_counter (older newer : Arr) (name : string) : Arr := int64_array [summed (counter older name) (counter newer name)].

Definition bound_union (bound : Arr) : res Arr := if is_union bound then Ok bound else Err EUnsupported.

Definition wrapped_value (bound : Arr) : res (option (Arr * nat)) :=
  if arr_len bound =? 0 then Ok None
  else
    let '(child, offset) := union_slot bound 0 in
    if is_null_type (arr_type child) || is_null child offset then Ok None
    else if negb (is_struct child) then Err EUnsupported
    else
      let? values := ok_or (struct_column child WRAPPED_VALUE_FIELD) EUnsupported in
      if is_null values offset then Ok None else Ok (Some (values, offset)).

Definition comparison_eqb (a b : comparison) : bool := match a, b with Lt, Lt | Eq, Eq | Gt, Gt => true | _, _ => false end.

Definition pick_bound (older newer : Arr) (name : string) (want : comparison) : res Arr :=
  match struct_column older name, struct_column newer name with
  | Some older_bound, Some newer_bound =>
      let? older_union := bound_union older_bound in
      let? newer_union := bound_union newer_bound in
      let? older_value := wrapped_value older_union in
      let? newer_value := wrapped_value newer_union in
      match older_value, newer_value with
      | None, _ => Ok newer_bound
      | _, None => Ok older_bound
      | Some (older_values, older_idx), Some (newer_values, newer_idx) =>
          if decide (arr_type older_values <> arr_type newer_values) then Err EUnsupported
          else
            let? compare := map_err EArrow (make_comparator older_values newer_values) in
            if comparison_eqb (compare older_idx newer_idx) want then Ok older_bound else Ok newer_bound
      end
  | _, _ => Err EUnsupported
  end.

(** One column of the folded struct. *)
Definition folded_stats_column (older_stats newer_stats : Arr) (idx : nat) (field : Field) : res Arr :=
  let name := f_name field in
  if decide (name = MIN_VALUE_FIELD) then pick_bound older_stats newer_stats name Lt
  else if decide (name = MAX_VALUE_FIELD) then pick_bound older_stats newer_stats name Gt
  else if bool_decide (name ∈ COUNTER_FIELDS) then Ok (sum_counter older_stats newer_stats name)
  else struct_at newer_stats idx.

Definition fold_stats_struct (older_stats newer_stats : Arr) : res Arr :=
  match arr_type newer_stats with
  | AStruct fields =>
      let? columns := res_mapM (fun p => folded_stats_column older_stats newer_stats p.1 p.2) (imap pair fields) in
      map_err EArrow (struct_new fields columns newer_stats)
  | _ => Err EUnsupported
  end.

Definition fold_column_stats (older newer : RecordBatch) : res RecordBatch :=
  match find_field COLUMN_STATS_COLUMN (batch_schema newer) with
  | None => Ok newer
  | Some (column_idx, _) =>
      let? newer_column := batch_column newer column_idx in
      let? newer_stats := stats_struct newer_column in
      let? older_column := column_by_name older COLUMN_STATS_COLUMN in
      match older_column with
      | None => Ok newer
      | Some older_column =>
          let? older_stats := stats_struct older_column in
          match newer_stats, older_stats with
          | Some newer_stats, Some older_stats =>
              if flag newer_stats FILE_IS_DELETED_FIELD || flag older_stats FILE_IS_DELETED_FIELD then Ok newer
              else if flag newer_stats IS_TIGHT_BOUND_FIELD then Ok newer
              else
                let? folded := fold_stats_struct older_stats newer_stats in
                with_column newer column_idx folded
          | _, _ => Ok newer
          end
      end
  end.

(** ** The merger *)

Definition metadata_final_merge (older_record newer_record : BufferedRecord) : res BufferedRecord :=
  if is_delete newer_record || is_delete older_record then Ok newer_record
  else
    match get_record older_record, get_record newer_record with
    | Some older, Some newer =>
        let with_data folded := mkBuffered (record_key newer_record) (Owned folded) (ordering_value newer_record) in
        let? type := record_type newer in
        if (type =? TYPE_ALL_PARTITIONS) || (type =? TYPE_FILES) then res_map with_data (fold_filesystem_metadata older newer)
        else if (type =? TYPE_COLUMN_STATS) || (type =? TYPE_PARTITION_STATS) then res_map with_data (fold_column_stats older newer)
        else Ok newer_record
    | _, _ => Ok newer_record
    end.

Definition metadata_delta_merge (new_record : BufferedRecord) (existing_record : option BufferedRecord) : res (option BufferedRecord) :=
  match existing_record with
  | Some existing => res_map Some (metadata_final_merge existing new_record)
  | None => Ok (Some new_record)
  end.

Definition MetadataPayloadMerger : BufferedRecordMerger := {|
  delta_merge := metadata_delta_merge;
  delta_merge_delete delete_record _ := Ok (Some delete_record);
  final_merge := metadata_final_merge
|}.

(** The merger of the reader's interface. *)
Definition metadata_mergers : CustomMergers := {| merger_of m := match m with MetadataPayload => MetadataPayloadMerger end |}.
End merger.

(** * Maps of files, folded *)

Lemma bt_remove_elem {V} k (m : list (string * V)) e : e ∈ bt_remove k m <-> e.1 <> k /\ e ∈ m.
Proof. unfold bt_remove. by rewrite list_elem_of_filter. Qed.

Lemma bt_remove_sorted {V} k (m : list (string * V)) : bt_sorted m -> bt_sorted (bt_remove k m).
Proof.
  induction m as [|[j v] m IH]; intros Hs; [constructor|]. apply bt_sorted_cons in Hs as [Hs Hlt].
  unfold bt_remove. rewrite list.filter_cons. case_decide; [|by apply IH]. apply bt_sorted_cons. split; [by apply IH|].
  intros k' v' [_ Hin]%bt_remove_elem. by eapply Hlt.
Qed.

Lemma bt_get_remove {V} k (m : list (string * V)) k' : bt_get k' (bt_remove k m) = if decide (k' = k) then None else bt_get k' m.
Proof.
  unfold bt_remove. induction m as [|[j v] m IH]; [by case_decide|]. rewrite list.filter_cons.
  destruct (decide (j = k)) as [->|Hj]; [rewrite decide_False by naive_solver|rewrite decide_True by done];
    cbn; rewrite IH; repeat case_decide; congruence.
Qed.

Lemma bt_insert_all {V} (l : list (string * V)) : bt_sorted l -> foldl (fun m e => bt_insert e.1 e.2 m) [] l = l.
Proof.
  induction l as [|[k v] l IH] using rev_ind; intros Hs; [done|]. rewrite foldl_app. cbn.
  apply StronglySorted_app in Hs as (Hlt & Hl & _). rewrite IH by done. clear IH Hl.
  induction l as [|[j w] l IH]; [done|]. cbn.
  assert (Hjk : str_lt j k) by (apply (Hlt (j, w) (k, v)); left). 
  rewrite String.compare_antisym, Hjk. cbn. f_equal. apply IH. intros a b Ha Hb. apply Hlt; [by right|done].
Qed.

Lemma fold_file_sorted m e : bt_sorted m -> bt_sorted (fold_file m e).
Proof.
  destruct e as [n i]. unfold fold_file. intros Hs.
  destruct (bt_get n m) as [o|]; [destruct (file_deleted i); [destruct (file_deleted o)|]|]; try (by apply bt_insert_sorted).
  by apply bt_remove_sorted.
Qed.

Lemma fold_files_sorted newer : forall m, bt_sorted m -> bt_sorted (fold_files m newer).
Proof. induction newer as [|e l IH]; intros m Hs; [done|]. by apply IH, fold_file_sorted. Qed.

(** What an entry makes of the entry before it. *)
Definition folded_info (old : option MapFileInfo) (new_info : MapFileInfo) : option MapFileInfo :=
  match old with
  | Some old_info =>
      if file_deleted new_info then if file_deleted old_info then Some new_info else None
      else Some (mkMapFile (Z.max (file_size old_info) (file_size new_info)) false)
  | None => Some new_info
  end.

Lemma bt_get_fold_file m n i n' :
  bt_get n' (fold_file m (n, i)) = if decide (n' = n) then folded_info (bt_get n m) i else bt_get n' m.
Proof.
  unfold fold_file, folded_info. destruct (bt_get n m) as [o|]; [|by rewrite bt_get_insert].
  destruct (file_deleted i); [destruct (file_deleted o)|]; by rewrite ?bt_get_insert, ?bt_get_remove.
Qed.

Lemma bt_get_not {V} k (m : list (string * V)) : k ∉ m.*1 -> bt_get k m = None.
Proof.
  induction m as [|[j v] m IH]; cbn; [done|]. rewrite not_elem_of_cons. intros [Hk Hm]. rewrite decide_False by done. by apply IH.
Qed.

Lemma bt_sorted_keys {V} (m : list (string * V)) : bt_sorted m -> NoDup m.*1.
Proof.
  induction m as [|[k v] m IH]; [constructor|]. intros [Hs Hlt]%bt_sorted_cons. apply list.NoDup_cons. split; [|by apply IH].
  intros Hk. apply list_elem_of_fmap in Hk as ([k' v'] & Heq & Hin). cbn in Heq. subst k'. apply Hlt in Hin. unfold str_lt in Hin. by rewrite str_compare_refl in Hin.
Qed.

Lemma bt_get_fold_files newer : NoDup newer.*1 -> forall m n,
  bt_get n (fold_files m newer) = match bt_get n newer with Some i => folded_info (bt_get n m) i | None => bt_get n m end.
Proof.
  unfold fold_files. induction newer as [|[k i] newer IH]; [done|]. intros [Hk Hn]%list.NoDup_cons m n. cbn [foldl bt_get].
  rewrite (IH Hn), bt_get_fold_file. destruct (decide (n = k)) as [->|Hne]; [|done]. by rewrite (bt_get_not k newer).
Qed.

(** A file map as the merger of version one keeps it, and as this one reads it. *)
Definition same_files (hm : list (string * HoodieMetadataFileInfo)) (bt : list (string * MapFileInfo)) : Prop :=
  forall name, bt_get name bt = (fun i => mkMapFile (info_size i) (is_deleted i)) <$> hm_get name hm.

Lemma fold_same_files hm hm' bt bt' : same_files hm bt -> same_files hm' bt' -> NoDup hm'.*1 -> bt_sorted bt' ->
  same_files (foldl merge_file_entry hm hm') (fold_files bt bt').
Proof.
  intros H H' Hn Hs name. rewrite bt_get_fold_files by (by apply bt_sorted_keys). rewrite (merge_files_get hm' Hn), H, H'.
  destruct (hm_get name hm') as [i|], (hm_get name hm) as [o|]; cbn; unfold folded_info, merged_info; cbn; try done.
  destruct (is_deleted i) eqn:Ei, (is_deleted o); cbn; by rewrite ?Ei.
Qed.

Definition file_active (name : string) (m : list (string * MapFileInfo)) : bool :=
  match bt_get name m with Some i => negb (file_deleted i) | None => false end.

(** The records of a key in the logs, as the record buffer merges them: the first is put in,
    and each further one is merged onto what is there. *)
Definition fold_logs (logs : list (list (string * MapFileInfo))) : list (string * MapFileInfo) :=
  match logs with [] => [] | first :: rest => foldl fold_files first rest end.

(** ** What becomes of one name *)

(** Whether a map marks the file deleted, where it has the file. *)
Definition file_mark (name : string) (m : list (string * MapFileInfo)) : option bool := file_deleted <$> bt_get name m.

(** The marks of the records that name the file, oldest first. *)
Definition mentions (name : string) (logs : list (list (string * MapFileInfo))) : list bool := omap (file_mark name) logs.

(** The last two records that name the file are one that lists it and one that deletes it. *)
Definition listed_then_deleted (marks : list bool) : bool :=
  match rev marks with true :: false :: _ => true | _ => false end.

Definition next_mark (old : option bool) (new : bool) : option bool :=
  match old, new with Some false, true => None | _, _ => Some new end.

Lemma active_mark name m : file_active name m = bool_decide (file_mark name m = Some false).
Proof. unfold file_active, file_mark. by destruct (bt_get name m) as [[s []]|]. Qed.

Lemma mark_fold_files m newer name : bt_sorted newer ->
  file_mark name (fold_files m newer) =
    match file_mark name newer with Some d => next_mark (file_mark name m) d | None => file_mark name m end.
Proof.
  intros Hs. unfold file_mark. rewrite bt_get_fold_files by (by apply bt_sorted_keys).
  by destruct (bt_get name newer) as [[n []]|], (bt_get name m) as [[o []]|].
Qed.

Lemma mark_fold_all name logs : List.Forall bt_sorted logs -> forall m,
  file_mark name (foldl fold_files m logs) = foldl next_mark (file_mark name m) (mentions name logs).
Proof.
  induction 1 as [|l logs Hl _ IH]; intros m; [done|]. cbn [foldl]. rewrite IH, mark_fold_files by done.
  unfold mentions. cbn [omap list_omap]. by destruct (file_mark name l).
Qed.

Lemma mark_fold_logs name logs : List.Forall bt_sorted logs -> file_mark name (fold_logs logs) = foldl next_mark None (mentions name logs).
Proof.
  destruct 1 as [|l logs Hl H]; [done|]. cbn [fold_logs]. rewrite mark_fold_all by done. unfold mentions. cbn [omap list_omap].
  by destruct (file_mark name l).
Qed.

Lemma fold_logs_sorted logs : List.Forall bt_sorted logs -> bt_sorted (fold_logs logs).
Proof.
  destruct 1 as [|l logs Hl H]; [constructor|]. cbn. revert l Hl.
  induction H as [|l' logs _ _ IH]; intros l Hl; [done|]. by apply IH, fold_files_sorted.
Qed.

(** The marks of a group are those of a file listed just when the last is. *)
Lemma last_mark old marks : foldl next_mark old marks = Some false <->
  match rev marks with [] => old = Some false | d :: _ => d = false end.
Proof.
  induction marks as [|d marks _] using rev_ind; [done|]. rewrite foldl_app, rev_app_distr. cbn.
  by destruct d, (foldl next_mark old marks) as [[]|].
Qed.

Lemma grouped_marks old marks :
  match foldl next_mark None marks with Some d => next_mark old d | None => old end = Some false <->
  foldl next_mark old marks = Some false \/ (old = Some false /\ listed_then_deleted marks = true).
Proof.
  unfold listed_then_deleted. rewrite last_mark. destruct marks as [|d marks _] using rev_ind; [naive_solver|].
  rewrite foldl_app, rev_app_distr. cbn. pose proof (last_mark None marks) as H.
  destruct d; [|by destruct old as [[]|], (foldl next_mark None marks) as [[]|]; naive_solver].
  destruct (foldl next_mark None marks) as [[]|], (rev marks) as [|[]], old as [[]|]; naive_solver.
Qed.

(** C9: folding the records of the logs among themselves before the base file, as the
    record buffer does, lists the files that folding them one by one onto the base file
    lists, and, besides, exactly those that the base file lists and that, of the records of
    the logs naming them, the last one deletes and the one before it does not: the deletion
    cancels the repeated entry and is lost.  Whatever the number of records. *)
Theorem grouping_of_logs base logs name : List.Forall bt_sorted logs ->
  file_active name (fold_files base (fold_logs logs)) =
  file_active name (foldl fold_files base logs) ||
  (file_active name base && listed_then_deleted (mentions name logs)).
Proof.
  intros Hl. rewrite !active_mark. rewrite mark_fold_files by (by apply fold_logs_sorted). rewrite mark_fold_logs by done.
  rewrite (mark_fold_all name logs Hl base).
  apply eq_true_iff_eq. rewrite orb_true_iff, andb_true_iff, !bool_decide_eq_true. apply grouped_marks.
Qed.

(** * What the merger's batches hold *)

(** Arrays hold what they were made of; comparators compare cells, which are ordered. *)
Class MetadataArrayLaws {AA : ArrowArrays} {AC : ArrowCells} {MA : MetadataArrays} := {
  Cell : Type;
  cell : Arr -> nat -> Cell;
  cell_cmp : Cell -> Cell -> comparison;
  cell_cmp_flip a b : cell_cmp a b = CompOpp (cell_cmp b a);
  cell_cmp_trans a b c : cell_cmp a b <> Gt -> cell_cmp b c <> Gt -> cell_cmp a c <> Gt;
  comparator_of a b cmp : make_comparator a b = Ok cmp -> forall i j, cmp i j = cell_cmp (cell a i) (cell b j);
  struct_by_name a fs name : arr_type a = AStruct fs ->
    struct_column a name = match find_field name fs with Some (i, _) => struct_child a i | None => None end;
  struct_made fs cs a : struct_of fs cs = Ok a ->
    arr_type a = AStruct fs /\ forall i c, cs !! i = Some c -> struct_child a i = Some c;
  struct_remade fs cs a b : struct_new fs cs a = Ok b ->
    arr_type b = AStruct fs /\ arr_len b = arr_len a /\ (forall i, is_null b i = is_null a i) /\
    forall i c, cs !! i = Some c -> struct_child b i = Some c;
  map_made f e s a : single_map f e s = Ok a -> arr_type a = AMap f s /\ arr_len a = 1 /\ is_null a 0 = false /\ map_value a 0 = e;
  strings_made l : arr_type (string_array l) = AUtf8 /\ arr_len (string_array l) = Z.of_nat (length l) /\
    forall i s, l !! i = Some (Some s) -> is_null (string_array l) i = false /\ text_at (string_array l) i = Some s;
  ints_made l : arr_type (int64_array l) = AInt64 /\
    forall i o, l !! i = Some o -> is_null (int64_array l) i = bool_decide (o = None) /\ forall v, o = Some v -> int_at (int64_array l) i = v;
  bools_made l : arr_type (boolean_array l) = ABoolean /\
    forall i b, l !! i = Some b -> is_null (boolean_array l) i = false /\ bool_at (boolean_array l) i = b
}.

Section spec.
Context {AA : ArrowArrays} {AC : ArrowCells} {MA : MetadataArrays} {ML : MetadataArrayLaws} {AB : ArrowBatch} {AR : ArrowRows}
  {BA : ArrayBatches} {BL : ArrayBatchLaws}.

Lemma read_file_map_sorted a m : read_file_map a = Ok m -> bt_sorted m.
Proof.
  unfold read_file_map. destruct (arr_type a); try done. destruct (_ || _); [intros [= <-]; constructor|].
  intros H. repeat (apply res_bind_Ok in H as (? & _ & H)). injection H as <-.
  assert (Hf : forall k s d l m, bt_sorted m -> bt_sorted (foldl (read_entry k s d) m l)); [|apply Hf; constructor].
  intros k s d l. induction l as [|i l IH]; intros m Hs; [done|]. apply IH. unfold read_entry.
  destruct (is_null k i); [done|]. destruct (text_at k i); [by apply bt_insert_sorted|done].
Qed.

(** The type of a map of files: sizes and tombstones by name. *)
Definition files_type (t : ArrowType) : bool :=
  match t with
  | AMap f _ =>
      match f_type f with
      | AStruct (_ :: value :: _) =>
          match f_type value with
          | AStruct fs =>
              match find_field FILE_SIZE_FIELD fs, find_field FILE_IS_DELETED_FIELD fs with Some _, Some _ => true | _, _ => false end
          | _ => false
          end
      | _ => false
      end
  | _ => false
  end.

Lemma found_at name fs i f : find_field name fs = Some (i, f) -> fs !! i = Some f /\ f_name f = name.
Proof. intros H. apply list_find_Some in H as (? & ? & _). done. Qed.

Lemma entries_read keys sizes dels m :
  (forall acc i e, m !! i = Some e -> read_entry keys sizes dels acc i = bt_insert e.1 e.2 acc) ->
  foldl (read_entry keys sizes dels) [] (seq 0 (length m)) = foldl (fun m e => bt_insert e.1 e.2 m) [] m.
Proof.
  intros H. assert (Hg : forall m2 m1 acc, m = m1 ++ m2 ->
    foldl (read_entry keys sizes dels) acc (seq (length m1) (length m2)) = foldl (fun m e => bt_insert e.1 e.2 m) acc m2).
  { induction m2 as [|e m2 IH]; intros m1 acc Hm; [done|]. cbn. rewrite (H acc (length m1) e) by (by rewrite Hm, list_lookup_middle).
    rewrite <- (IH (m1 ++ [e])) by (by rewrite <- app_assoc). by rewrite length_app, Nat.add_1_r. }
  by apply (Hg m [] []).
Qed.

(** A map that was built is read back. *)
Lemma built_map_reads t m a : files_type t = true -> bt_sorted m -> build_file_map t m = Ok a -> read_file_map a = Ok m /\ arr_type a = t.
Proof.
  intros Ht Hs H. unfold build_file_map in H. destruct t as [| | | | | | | | | | | | | | | |ef sorted|]; try done.
  unfold files_type in Ht. destruct (f_type ef) as [| | | | | | | | | | | |efs| | | | |]; try done.
  destruct efs as [|kf [|vf rest]]; try done. destruct (f_type vf) as [| | | | | | | | | | | |vfs| | | | |] eqn:Hvf; try done.
  apply res_bind_Ok in H as (vcols & Hcols & H). apply res_bind_Ok in H as (values & Hvals%map_err_Ok & H).
  apply res_bind_Ok in H as (es & Hes%map_err_Ok & H%map_err_Ok).
  destruct (map_made _ _ _ _ H) as (Htype & Hlen & Hnull & Hval). split; [|done].
  destruct (struct_made _ _ _ Hes) as [_ Hes']. destruct (struct_made _ _ _ Hvals) as [Hvt Hv'].
  destruct (find_field FILE_SIZE_FIELD vfs) as [[i f]|] eqn:Hi; [|done].
  destruct (find_field FILE_IS_DELETED_FIELD vfs) as [[j g]|] eqn:Hj; [|done].
  destruct (found_at _ _ _ _ Hi) as [Hi' Hfn]. destruct (found_at _ _ _ _ Hj) as [Hj' Hgn].
  destruct (mapM_lookup _ _ _ _ _ Hcols Hi') as (sizes & Hsz & Hsz'). unfold value_column in Hsz'.
  rewrite decide_True in Hsz' by done. injection Hsz' as <-.
  destruct (mapM_lookup _ _ _ _ _ Hcols Hj') as (dels & Hd & Hd'). unfold value_column in Hd'.
  rewrite decide_False in Hd' by (rewrite Hgn; done). rewrite decide_True in Hd' by done. injection Hd' as <-.
  destruct (strings_made (Some <$> m.*1)) as (Hst & Hsl & Hstr).
  destruct (ints_made ((fun e => Some (file_size e.2)) <$> m)) as [Hit Hints].
  destruct (bools_made ((fun e => file_deleted e.2) <$> m)) as [Hbt Hbools].
  unfold read_file_map. rewrite Htype, Hlen, Hnull, Hval. cbn [Z.eqb orb].
  unfold struct_at. rewrite (Hes' 0%nat _ eq_refl), (Hes' 1%nat _ eq_refl). cbn [res_bind]. rewrite decide_True by done. cbn [res_bind].
  unfold is_struct. rewrite Hvt. cbn [res_bind]. unfold struct_field.
  rewrite !(struct_by_name _ _ _ Hvt), Hi, Hj, (Hv' _ _ Hsz), (Hv' _ _ Hd). cbn [ok_or res_bind].
  rewrite Hit, Hbt. cbn [res_bind decide]. rewrite !decide_True by done. cbn [res_bind]. f_equal.
  rewrite Hsl, !length_fmap, Nat2Z.id. rewrite entries_read; [by apply bt_insert_all|].
  intros acc k [name info] Hk. unfold read_entry.
  destruct (Hstr k name) as [-> ->]; [by rewrite !list_lookup_fmap, Hk|].
  destruct (Hints k (Some (file_size info))) as [-> Hz]; [by rewrite list_lookup_fmap, Hk|].
  destruct (Hbools k (file_deleted info)) as [-> ->]; [by rewrite list_lookup_fmap, Hk|].
  rewrite (Hz _ eq_refl). cbn. by destruct info.
Qed.

Lemma with_column_spec b i f c b' : batch_schema b !! i = Some f -> with_column b i c = Ok b' ->
  batch_schema b' = batch_schema b /\ batch_column b' i = Ok c /\ forall j g, j <> i -> batch_schema b !! j = Some g -> batch_column b' j = batch_column b j.
Proof.
  intros Hi H. unfold with_column in H. apply res_bind_Ok in H as (cols & Hcols & H%map_err_Ok).
  destruct (batch_new_ok _ _ _ H) as (Hs & _ & Hc). split; [done|].
  assert (Hlook : forall j g, batch_schema b !! j = Some g -> exists x, cols !! j = Some x /\ batch_column b j = Ok x).
  { intros j g Hj. apply (mapM_lookup _ _ _ j j Hcols). apply lookup_seq. split; [done|]. by apply lookup_lt_Some in Hj. }
  split.
  - apply Hc. apply list_lookup_insert_eq. destruct (Hlook i f Hi) as (x & Hx & _). by apply lookup_lt_Some in Hx.
  - intros j g Hne Hj. destruct (Hlook j g Hj) as (x & Hx & ->). apply Hc. by rewrite list_lookup_insert_ne.
Qed.

Lemma column_by_name_at b name i f : find_field name (batch_schema b) = Some (i, f) ->
  column_by_name b name = res_map Some (batch_column b i).
Proof. unfold column_by_name. by intros ->. Qed.

(** C8: two records of the files partition merge here as the metadata table's first reader
    merges them.  If each record's column holds the files that reader has of it, so does
    the merged row, which has every other column of the newer record. *)
Theorem files_records_merge_alike older newer bo bn t co cn mo mn existing newest r :
  get_record older = Some bo -> get_record newer = Some bn ->
  record_type bn = Ok t -> t = TYPE_ALL_PARTITIONS \/ t = TYPE_FILES ->
  column_by_name bo FILESYSTEM_METADATA_COLUMN = Ok (Some co) -> read_file_map co = Ok mo ->
  column_by_name bn FILESYSTEM_METADATA_COLUMN = Ok (Some cn) -> read_file_map cn = Ok mn -> files_type (arr_type cn) = true ->
  same_files (files existing) mo -> same_files (files newest) mn -> NoDup (files newest).*1 ->
  metadata_final_merge older newer = Ok r ->
  exists b c m, get_record r = Some b /\ batch_schema b = batch_schema bn /\
    column_by_name b FILESYSTEM_METADATA_COLUMN = Ok (Some c) /\ read_file_map c = Ok m /\
    same_files (files (merge_files_partition_records existing newest)) m /\
    forall i f, batch_schema bn !! i = Some f -> f_name f <> FILESYSTEM_METADATA_COLUMN -> batch_column b i = batch_column bn i.
Proof.
  intros Ho Hn Ht Hty Hco Hmo Hcn Hmn Hft Hso Hsn Hnd H. unfold metadata_final_merge in H.
  assert (Hlive : is_delete newer || is_delete older = false).
  { unfold is_delete, get_record in *. by destruct (payload newer), (payload older). }
  rewrite Hlive, Ho, Hn in H. apply res_bind_Ok in H as (t' & Ht' & H). rewrite Ht in Ht'. injection Ht' as <-.
  rewrite (proj2 (orb_true_iff _ _)) in H by (rewrite !Z.eqb_eq; done).
  apply res_map_Ok in H as (b & Hb & ->). unfold fold_filesystem_metadata in Hb. unfold column_by_name in Hcn.
  destruct (find_field FILESYSTEM_METADATA_COLUMN (batch_schema bn)) as [[i f]|] eqn:Hi; [|done].
  apply res_map_Ok in Hcn as (cn' & Hcn & [= <-]). rewrite Hcn, Hco in Hb. cbn [res_bind] in Hb.
  rewrite Hmo, Hmn in Hb. cbn [res_bind] in Hb. apply res_bind_Ok in Hb as (folded & Hf & Hb).
  pose proof (read_file_map_sorted _ _ Hmo) as Hos. pose proof (read_file_map_sorted _ _ Hmn) as Hns.
  destruct (found_at _ _ _ _ Hi) as [Hif Hname]. destruct (with_column_spec _ _ _ _ _ Hif Hb) as (Hs & Hcol & Hrest).
  destruct (built_map_reads _ _ _ Hft (fold_files_sorted mn mo Hos) Hf) as [Hread _].
  exists b, folded, (fold_files mo mn). split_and!; [done|done| |done|by apply fold_same_files|].
  - rewrite (column_by_name_at b _ i f) by (by rewrite Hs). by rewrite Hcol.
  - intros j g Hj Hg. apply (Hrest j g); [|done]. intros ->. by simplify_eq.
Qed.

(** ** Column statistics *)

Definition value_of (b : Arr) : option Cell :=
  match wrapped_value b with Ok (Some (values, i)) => Some (cell values i) | _ => None end.

Definition bound (stats : Arr) (name : string) : option Cell :=
  match struct_column stats name with Some b => value_of b | None => None end.

Definition chosen (want : comparison) (o n : option Cell) : option Cell :=
  match o, n with
  | None, n => n
  | o, None => o
  | Some x, Some y => Some (if comparison_eqb (cell_cmp x y) want then x else y)
  end.

Lemma pick_bound_spec older newer name want a : pick_bound older newer name want = Ok a ->
  value_of a = chosen want (bound older name) (bound newer name).
Proof.
  intros H. unfold pick_bound in H. unfold bound.
  destruct (struct_column older name) as [bo|]; [|done]. destruct (struct_column newer name) as [bn|]; [|done].
  apply res_bind_Ok in H as (uo & Huo & H). apply res_bind_Ok in H as (un & Hun & H).
  unfold bound_union in Huo, Hun. destruct (is_union bo); [|done]. destruct (is_union bn); [|done].
  injection Huo as <-. injection Hun as <-.
  apply res_bind_Ok in H as (vo & Hvo & H). apply res_bind_Ok in H as (vn & Hvn & H).
  unfold value_of at 2 3. rewrite Hvo, Hvn. destruct vo as [[ao io]|]; [|injection H as <-; unfold value_of; by rewrite Hvn].
  destruct vn as [[an ino]|]; [|injection H as <-; unfold value_of; by rewrite Hvo].
  case_decide; [done|]. apply res_bind_Ok in H as (cmp & Hcmp%map_err_Ok & H). cbn.
  rewrite <- (comparator_of _ _ _ Hcmp io ino).
  destruct (comparison_eqb _ _); injection H as <-; unfold value_of; by rewrite ?Hvo, ?Hvn.
Qed.

(** A value between the bounds of a record's statistics. *)
Definition inside (stats : Arr) (v : Cell) : Prop :=
  exists lo hi, bound stats MIN_VALUE_FIELD = Some lo /\ bound stats MAX_VALUE_FIELD = Some hi /\ cell_cmp lo v <> Gt /\ cell_cmp v hi <> Gt.

Lemma cell_le_refl a : cell_cmp a a <> Gt.
Proof. intros H. pose proof (cell_cmp_flip a a) as F. rewrite H in F. done. Qed.

Lemma lower_chosen o n x : Some x ∈ [o; n] -> exists m, chosen Lt o n = Some m /\ cell_cmp m x <> Gt.
Proof.
  rewrite !elem_of_cons. intros [<-|[<-|Hx]]; [| |by inversion Hx]; cbn.
  - destruct n as [y|]; cbn; [|exists x; split; [done|apply cell_le_refl]]. eexists. split; [done|].
    destruct (cell_cmp x y) eqn:E; cbn; [|apply cell_le_refl|]; rewrite cell_cmp_flip, E; done.
  - destruct o as [y|]; cbn; [|exists x; split; [done|apply cell_le_refl]]. eexists. split; [done|].
    destruct (cell_cmp y x) eqn:E; cbn; [apply cell_le_refl|by rewrite E|apply cell_le_refl].
Qed.

Lemma upper_chosen o n x : Some x ∈ [o; n] -> exists m, chosen Gt o n = Some m /\ cell_cmp x m <> Gt.
Proof.
  rewrite !elem_of_cons. intros [<-|[<-|Hx]]; [| |by inversion Hx]; cbn.
  - destruct n as [y|]; cbn; [|exists x; split; [done|apply cell_le_refl]]. eexists. split; [done|].
    destruct (cell_cmp x y) eqn:E; cbn; [by rewrite E|by rewrite E|apply cell_le_refl].
  - destruct o as [y|]; cbn; [|exists x; split; [done|apply cell_le_refl]]. eexists. split; [done|].
    destruct (cell_cmp y x) eqn:E; cbn; [apply cell_le_refl|apply cell_le_refl|rewrite cell_cmp_flip, E; done].
Qed.

Lemma folded_bound so sn st fs name want : arr_type sn = AStruct fs -> fold_stats_struct so sn = Ok st ->
  is_Some (find_field name fs) -> name = MIN_VALUE_FIELD /\ want = Lt \/ name = MAX_VALUE_FIELD /\ want = Gt ->
  bound st name = chosen want (bound so name) (bound sn name).
Proof.
  intros Ht H [[i f] Hf] Hname. unfold fold_stats_struct in H. rewrite Ht in H.
  apply res_bind_Ok in H as (cols & Hcols & H%map_err_Ok). destruct (struct_remade _ _ _ _ H) as (Htype & _ & _ & Hc).
  destruct (found_at _ _ _ _ Hf) as [Hi Hfn].
  destruct (mapM_lookup _ _ _ i (i, f) Hcols) as (a & Ha & Hcol); [by rewrite list_lookup_imap, Hi|].
  unfold bound at 1. rewrite (struct_by_name _ _ _ Htype), Hf, (Hc _ _ Ha). apply pick_bound_spec.
  cbn [fst snd] in Hcol. unfold folded_stats_column in Hcol. rewrite Hfn in Hcol. by destruct Hname as [[-> ->]|[-> ->]].
Qed.

Lemma folded_counter so sn st fs name : arr_type sn = AStruct fs -> fold_stats_struct so sn = Ok st ->
  is_Some (find_field name fs) -> name ∈ COUNTER_FIELDS -> counter st name = summed (counter so name) (counter sn name).
Proof.
  intros Ht H [[i f] Hf] Hname. unfold fold_stats_struct in H. rewrite Ht in H.
  apply res_bind_Ok in H as (cols & Hcols & H%map_err_Ok). destruct (struct_remade _ _ _ _ H) as (Htype & _ & _ & Hc).
  destruct (found_at _ _ _ _ Hf) as [Hi Hfn].
  destruct (mapM_lookup _ _ _ i (i, f) Hcols) as (a & Ha & Hcol); [by rewrite list_lookup_imap, Hi|].
  cbn [fst snd] in Hcol. unfold folded_stats_column in Hcol. rewrite Hfn in Hcol.
  rewrite decide_False, decide_False, bool_decide_true in Hcol; [|done|by intros ->; vm_compute in Hname; set_solver..].
  injection Hcol as <-. unfold counter at 1. rewrite (struct_by_name _ _ _ Htype), Hf, (Hc _ _ Ha). unfold sum_counter.
  generalize (summed (counter so name) (counter sn name)) as o. intros o. destruct (ints_made [o]) as [Hty Hv].
  destruct (Hv 0%nat o eq_refl) as [Hnull Hint]. rewrite Hty, Hnull. destruct o as [v|]; cbn; [by rewrite (Hint v eq_refl)|done].
Qed.

(** C10: merged column statistics cover what either record's cover, and count what both
    count.  Where neither record is deleted and the newer does not claim tight bounds, a
    value between the bounds of either is between those of the merged row, and each counter
    is the sum, saturating, of those that are known. *)
Theorem merged_statistics_cover older newer bo bn t so sn fs r :
  get_record older = Some bo -> get_record newer = Some bn ->
  record_type bn = Ok t -> t = TYPE_COLUMN_STATS \/ t = TYPE_PARTITION_STATS ->
  column_by_name bo COLUMN_STATS_COLUMN = Ok (Some so) -> stats_struct so = Ok (Some so) ->
  column_by_name bn COLUMN_STATS_COLUMN = Ok (Some sn) -> stats_struct sn = Ok (Some sn) ->
  flag sn FILE_IS_DELETED_FIELD || flag so FILE_IS_DELETED_FIELD || flag sn IS_TIGHT_BOUND_FIELD = false ->
  arr_type sn = AStruct fs -> is_Some (find_field MIN_VALUE_FIELD fs) -> is_Some (find_field MAX_VALUE_FIELD fs) ->
  metadata_final_merge older newer = Ok r ->
  exists b st, get_record r = Some b /\ column_by_name b COLUMN_STATS_COLUMN = Ok (Some st) /\ stats_struct st = Ok (Some st) /\
    (forall v, inside so v \/ inside sn v -> inside st v) /\
    forall name, name ∈ COUNTER_FIELDS -> is_Some (find_field name fs) -> counter st name = summed (counter so name) (counter sn name).
Proof.
  intros Ho Hn Ht Hty Hco Hso Hcn Hsn Hflags Hfs Hmin Hmax H. unfold metadata_final_merge in H.
  assert (Hlive : is_delete newer || is_delete older = false).
  { unfold is_delete, get_record in *. by destruct (payload newer), (payload older). }
  rewrite Hlive, Ho, Hn in H. apply res_bind_Ok in H as (t' & Ht' & H). rewrite Ht in Ht'. injection Ht' as <-.
  assert (Hb : exists b, fold_column_stats bo bn = Ok b /\ get_record r = Some b).
  { destruct Hty as [->| ->]; cbn in H; apply res_map_Ok in H as (b & Hb & ->); by exists b. }
  clear H. destruct Hb as (b & Hb & Hr). unfold fold_column_stats in Hb. unfold column_by_name in Hcn.
  destruct (find_field COLUMN_STATS_COLUMN (batch_schema bn)) as [[i f]|] eqn:Hi; [|done].
  apply res_map_Ok in Hcn as (cn & Hcn & [= <-]). rewrite Hcn in Hb. cbn [res_bind] in Hb. rewrite Hsn, Hco in Hb. cbn [res_bind] in Hb.
  rewrite Hso in Hb. cbn [res_bind] in Hb. apply orb_false_iff in Hflags as [Hdel Htight].
  rewrite Hdel, Htight in Hb. apply res_bind_Ok in Hb as (st & Hst & Hb).
  destruct (found_at _ _ _ _ Hi) as [Hif _]. destruct (with_column_spec _ _ _ _ _ Hif Hb) as (Hs & Hcol & _).
  exists b, st. split; [done|]. split; [rewrite (column_by_name_at b _ i f) by (by rewrite Hs); by rewrite Hcol|].
  split; [|split].
  - unfold fold_stats_struct in Hst. rewrite Hfs in Hst. apply res_bind_Ok in Hst as (cols & _ & Hst%map_err_Ok).
    destruct (struct_remade _ _ _ _ Hst) as (Htype & Hlen & Hnull & _). unfold stats_struct, is_struct in Hsn |- *.
    rewrite Hfs in Hsn. rewrite Htype, Hlen, Hnull. cbn in *. by destruct (_ || _).
  - intros v Hv.
    pose proof (folded_bound so sn st fs MIN_VALUE_FIELD Lt Hfs Hst Hmin (or_introl (conj eq_refl eq_refl))) as E1.
    pose proof (folded_bound so sn st fs MAX_VALUE_FIELD Gt Hfs Hst Hmax (or_intror (conj eq_refl eq_refl))) as E2.
    assert (Hv' : exists lo hi, Some lo ∈ [bound so MIN_VALUE_FIELD; bound sn MIN_VALUE_FIELD] /\
      Some hi ∈ [bound so MAX_VALUE_FIELD; bound sn MAX_VALUE_FIELD] /\ cell_cmp lo v <> Gt /\ cell_cmp v hi <> Gt).
    { destruct Hv as [(lo & hi & Hlo & Hhi & Hl & Hh)|(lo & hi & Hlo & Hhi & Hl & Hh)]; exists lo, hi; rewrite Hlo, Hhi;
        (split; [set_solver|split; [set_solver|done]]). }
    destruct Hv' as (lo & hi & Hlo & Hhi & Hl & Hh).
    destruct (lower_chosen _ _ _ Hlo) as (l & El & Hll). destruct (upper_chosen _ _ _ Hhi) as (h & Eh & Hhh).
    exists l, h. rewrite E1, E2. split; [done|]. split; [done|]. split; by eapply cell_cmp_trans.
  - intros name Hin Hf. by apply (folded_counter so sn st fs).
Qed.
End spec.

(** * Samples *)
Module SampleMetadataMerger.

(** Arrays of numbers and booleans, of texts, structs, maps, and unions of one row. *)
Inductive arr :=
  | Prim (t : ArrowType) (slots : list (option Z))
  | Text (slots : list (option string))
  | Struct (fs : Fields) (valid : list bool) (children : list arr)
  | Map (f : Field) (sorted : bool) (rows : list (option arr))
  | Un (child : arr) (offset : nat).

Definition a_type (a : arr) : ArrowType :=
  match a with
  | Prim t _ => t | Text _ => AUtf8 | Struct fs _ _ => AStruct fs | Map f s _ => AMap f s | Un _ _ => AOther 1
  end.

Definition a_len (a : arr) : nat :=
  match a with
  | Prim _ l => length l | Text l => length l | Struct _ v _ => length v | Map _ _ rows => length rows | Un _ _ => 1%nat
  end.

Definition a_null (a : arr) (i : nat) : bool :=
  match a with
  | Prim _ l => match l !! i with Some (Some _) => false | _ => true end
  | Text l => match l !! i with Some (Some _) => false | _ => true end
  | Struct _ v _ => match v !! i with Some true => false | _ => true end
  | Map _ _ rows => match rows !! i with Some (Some _) => false | _ => true end
  | Un _ _ => false
  end.

Definition a_int (a : arr) (i : nat) : Z := match a with Prim _ l => match l !! i with Some (Some v) => v | _ => 0 end | _ => 0 end.
Definition a_child (a : arr) (i : nat) : option arr := match a with Struct _ _ cs => cs !! i | _ => None end.
Definition nulls (t : ArrowType) (n : nat) : arr := Prim t (replicate n None).

#[export] Instance sample_arrays : ArrowArrays := {|
  Arr := arr;
  arr_type := a_type;
  arr_len a := Z.of_nat (a_len a);
  new_null_array t n := nulls t (Z.to_nat n);
  cast a t := if decide (a_type a = t) then Ok a else Err EArrow;
  float_slots _ := [];
  string_array := Text;
  micros_slots _ := [];
  millis_array l := Prim (AOther 2) l;
  rebuild_as a t := if decide (a_type a = t) then Ok a else Err EArrow;
  struct_column a name := match a_type a with
    | AStruct fs => match find_field name fs with Some (i, _) => a_child a i | None => None end
    | _ => None
    end;
  struct_child := a_child;
  struct_new fs cs a := match a with Struct _ v _ => Ok (Struct fs v cs) | _ => Err EArrow end;
  list_values a := a;
  list_new _ _ _ := Err EArrow;
  map_entries a := a;
  map_new _ _ _ _ := Err EArrow
|}.

#[export] Instance sample_cells : ArrowCells := {|
  is_null := a_null : Arr -> nat -> bool;
  is_text t := bool_decide (t = AUtf8);
  text_at a i := match a : arr with Text l => l !! i ≫= id | _ => None end;
  bool_at a i := negb (a_int a i =? 0);
  int_at := a_int : Arr -> nat -> Z;
  child_data a := match a : arr with Struct _ _ cs => cs | _ => [] end;
  build_data a t _ := if decide (a_type a = t) then Ok a else Err EArrow
|}.

#[export] Instance sample_metadata_arrays : MetadataArrays := {|
  map_value a i := match a : arr with Map _ _ rows => default (nulls AInt64 0) (rows !! i ≫= id) | _ => nulls AInt64 0 end : Arr;
  int64_array l := Prim AInt64 l : Arr;
  boolean_array l := Prim ABoolean ((fun b : bool => Some (if b then 1 else 0)) <$> l) : Arr;
  struct_of fs cs := Ok (Struct fs (replicate (match cs with c :: _ => a_len c | [] => 0%nat end) true) cs : Arr);
  single_map f e s := Ok (Map f s [Some e] : Arr);
  is_union a := match a : arr with Un _ _ => true | _ => false end;
  union_slot a i := match a : arr with Un c o => (c : Arr, o) | a => (a : Arr, i) end;
  is_null_type t := bool_decide (t = AOther 0);
  make_comparator a b := Ok (fun i j => a_int a i ?= a_int b j)
|}.

#[export] Instance sample_metadata_laws : MetadataArrayLaws.
Proof.
  refine {| Cell := Z; cell := a_int : Arr -> nat -> Z; cell_cmp := Z.compare |}.
  - intros a b. by rewrite Z.compare_antisym.
  - intros a b c. rewrite !Z.compare_le_iff. lia.
  - intros a b cmp [= <-] i j. done.
  - intros a fs name Ht. cbn in *. by rewrite Ht.
  - intros fs cs a [= <-]. done.
  - intros fs cs a b H. destruct a; try done. injection H as <-. done.
  - intros f e s a [= <-]. done.
  - intros l. split; [done|]. split; [done|]. intros i s Hi. cbn. by rewrite Hi.
  - intros l. split; [done|]. intros i o Hi. cbn. rewrite Hi. destruct o as [v|]; cbn; (split; [done|]); [by intros ? [= <-]|done].
  - intros l. split; [done|]. intros i b Hi. cbn. rewrite list_lookup_fmap, Hi. cbn. by destruct b.
Defined.

Record sample_batch := mkBatch { sb_fields : Fields; sb_columns : list arr; sb_rows : nat }.

#[export] Instance sample_batches : ArrowBatch := {| RecordBatch := sample_batch; num_rows b := Z.of_nat (sb_rows b) |}.

#[export] Instance sample_rows : ArrowRows := fun b _ => b.

Definition fitting (t : ArrowType) (n : nat) (a : option arr) : arr :=
  match a with
  | Some a => if decide (a_type a = t /\ a_len a = n) then a else nulls t n
  | None => nulls t n
  end.

Lemma held_fits t n a : a_type (fitting t n a) = t /\ a_len (fitting t n a) = n.
Proof. unfold fitting. destruct a as [a|]; [case_decide as H; [done|]|]; cbn; by rewrite length_replicate. Qed.

Definition fits (n : nat) (fs : Fields) (cs : list arr) : bool :=
  bool_decide (Forall2 (fun f c => a_type c = f_type f /\ a_len c = n) fs cs).

#[export] Instance sample_array_batches : ArrayBatches := {|
  batch_schema := sb_fields : RecordBatch -> Fields;
  batch_column b i := match sb_fields b !! i with
    | Some f => Ok (fitting (f_type f) (sb_rows b) (sb_columns b !! i) : Arr)
    | None => Panic
    end;
  batch_new fs cs := match cs with
    | [] => Err ESchema
    | c :: _ => if fits (a_len c) fs cs then Ok (mkBatch fs cs (a_len c) : RecordBatch) else Err ESchema
    end;
  batch_new_counted fs cs n := if fits (Z.to_nat n) fs cs && (0 <=? n) then Ok (mkBatch fs cs (Z.to_nat n) : RecordBatch) else Err ESchema
|}.

Lemma held_column n fs (cs : list arr) i c : fits n fs cs = true -> cs !! i = Some c ->
  (match fs !! i with Some f => Ok (fitting (f_type f) n (cs !! i)) | None => Panic end : res arr) = Ok c /\ a_len c = n.
Proof.
  intros Hf%bool_decide_eq_true Hc. destruct (Forall2_lookup_r _ _ _ _ _ Hf Hc) as (f & Hi & Ht & Hl).
  rewrite Hi, Hc. split; [|done]. unfold fitting. by rewrite decide_True.
Qed.

#[export] Instance sample_batch_laws : ArrayBatchLaws.
Proof.
  split.
  - cbn. lia.
  - intros b i f Hf. cbn in Hf |- *. rewrite Hf. eexists. split; [done|].
    destruct (held_fits (f_type f) (sb_rows b) (sb_columns b !! i)) as [-> ->]. done.
  - intros fs cs b H. cbn in H. destruct cs as [|c0 cs']; [done|]. destruct (fits _ _ _) eqn:E; [|done]. injection H as <-.
    cbn [batch_schema sample_array_batches sb_fields]. split_and!; [done|done|]. intros i c Hi.
    destruct (held_column _ fs (c0 :: cs') i c E Hi) as [Hcol Hl]. split; [exact Hcol|]. cbn. by rewrite Hl.
  - intros fs cs n b H. cbn in H. destruct (fits _ _ _) eqn:E; [|done]. destruct (Z.leb_spec 0 n); [|done]. injection H as <-.
    cbn [batch_schema sample_array_batches sb_fields]. split_and!; [done|cbn; lia|]. intros i c Hi.
    by destruct (held_column _ fs cs i c E Hi) as [Hcol _].
Qed.

(** ** Records of files *)
Definition size_field : Field := mkField FILE_SIZE_FIELD AInt64 false.
Definition deleted_field : Field := mkField FILE_IS_DELETED_FIELD ABoolean false.
Definition value_field : Field := mkField "value" (AStruct [size_field; deleted_field]) true.
Definition entries_field : Field := mkField "entries" (AStruct [mkField "key" AUtf8 false; value_field]) false.
Definition key_field : Field := mkField "key" AUtf8 false.
Definition type_field : Field := mkField TYPE_COLUMN AInt32 false.
Definition files_field : Field := mkField FILESYSTEM_METADATA_COLUMN (AMap entries_field false) true.

Definition files_column (m : list (string * MapFileInfo)) : Arr :=
  Map entries_field false [Some (Struct [mkField "key" AUtf8 false; value_field] (replicate (length m) true)
    [Text (Some <$> m.*1);
     Struct [size_field; deleted_field] (replicate (length m) true)
       [Prim AInt64 ((fun e => Some (file_size e.2)) <$> m);
        Prim ABoolean ((fun e => Some (if file_deleted e.2 then 1 else 0)) <$> m)]])].

Definition files_row (m : list (string * MapFileInfo)) : RecordBatch :=
  mkBatch [key_field; type_field; files_field] [Text [Some "p=1"]; Prim AInt32 [Some 2]; files_column m] 1.

Definition files_record (m : list (string * MapFileInfo)) : BufferedRecord := new_data "p=1" (files_row m) None.

Definition live (n : Z) : MapFileInfo := mkMapFile n false.
Definition tombstone : MapFileInfo := mkMapFile 0 true.

Definition listed : list (string * MapFileInfo) := [("a.parquet", live 10); ("b.parquet", live 20)].
Definition grown : list (string * MapFileInfo) := [("a.parquet", live 15); ("c.parquet", live 5)].
Definition cleaned : list (string * MapFileInfo) := [("a.parquet", tombstone); ("b.parquet", tombstone)].

Definition as_record (m : list (string * MapFileInfo)) : FilesPartitionRecord :=
  mkFilesPartitionRecord "p=1" Files ((fun e => (e.1, mkFileInfo e.1 (file_size e.2) (file_deleted e.2))) <$> m).

Lemma as_record_same m : same_files (files (as_record m)) m.
Proof.
  intros name. cbn. induction m as [|[k [z d]] m IH]; [done|]. cbn. by destruct (decide (name = k)).
Qed.

Lemma files_records_merge_alike_witness : exists r b c m, metadata_final_merge (files_record listed) (files_record cleaned) = Ok r /\
  get_record r = Some b /\ column_by_name b FILESYSTEM_METADATA_COLUMN = Ok (Some c) /\ read_file_map c = Ok m /\
  same_files (files (merge_files_partition_records (as_record listed) (as_record cleaned))) m.
Proof.
  assert (H : exists r, metadata_final_merge (files_record listed) (files_record cleaned) = Ok r) by (eexists; vm_ok).
  destruct H as (r & Hr).
  destruct (files_records_merge_alike (files_record listed) (files_record cleaned) (files_row listed) (files_row cleaned) 2
    (files_column listed) (files_column cleaned) listed cleaned (as_record listed) (as_record cleaned) r)
    as (b & c & m & Hb & _ & Hc & Hm & Hs & _); try (vm_compute; reflexivity); [by right|apply as_record_same..| |exact Hr|].
  - apply (bool_decide_unpack _). vm_compute. exact I.
  - exists r, b, c, m. done.
Defined.

(** The base file lists [a.parquet], a record of the logs grows it, and a later one deletes
    it.  The record buffer merges the two records of the logs first: the file stays. *)
Lemma grouping_of_logs_witness :
  file_active "a.parquet" (fold_files listed (fold_logs [grown; cleaned])) = true /\
  file_active "a.parquet" (foldl fold_files listed [grown; cleaned]) = false /\
  file_active "a.parquet" (fold_files listed (fold_logs [grown; cleaned; cleaned])) = false /\
  file_active "a.parquet" (fold_files listed (fold_logs [grown; cleaned])) =
    file_active "a.parquet" (foldl fold_files listed [grown; cleaned]) ||
    (file_active "a.parquet" listed && listed_then_deleted (mentions "a.parquet" [grown; cleaned])).
Proof.
  do 3 (split; [vm_compute; reflexivity|]). apply grouping_of_logs.
  repeat constructor; intros k v H; repeat (apply elem_of_cons in H as [[= -> ->]|H]; [vm_compute; reflexivity|]); by inversion H.
Defined.

(** The same through the merger: as the buffer merges records, and as they come. *)
Definition files_of (r : res BufferedRecord) : list (string * MapFileInfo) :=
  match r with
  | Ok r => match get_record r with
            | Some b => match column_by_name b FILESYSTEM_METADATA_COLUMN with
                        | Ok (Some c) => match read_file_map c with Ok m => m | _ => [] end
                        | _ => []
                        end
            | None => []
            end
  | _ => []
  end.

Example buffered_records_revive_a_file :
  files_of (let? logs := metadata_delta_merge (files_record cleaned) (Some (files_record grown)) in
            match logs with Some l => metadata_final_merge (files_record listed) l | None => Panic end) =
    [("a.parquet", live 10); ("c.parquet", live 5)] /\
  files_of (let? r := metadata_final_merge (files_record listed) (files_record grown) in metadata_final_merge r (files_record cleaned)) =
    [("c.parquet", live 5)].
Proof. split; vm_compute; reflexivity. Qed.

(** ** Column statistics *)
Definition as_cell (z : Z) : Cell := z.

Definition bound_column (v : option Z) : arr :=
  match v with
  | Some z => Un (Struct [mkField WRAPPED_VALUE_FIELD AInt64 false] [true] [Prim AInt64 [Some z]]) 0
  | None => Un (Prim (AOther 0) [None]) 0
  end.

Definition stats_fields : Fields :=
  [mkField MIN_VALUE_FIELD (AOther 1) true; mkField MAX_VALUE_FIELD (AOther 1) true; mkField "valueCount" AInt64 true;
   mkField "nullCount" AInt64 true; mkField FILE_IS_DELETED_FIELD ABoolean false; mkField IS_TIGHT_BOUND_FIELD ABoolean false].

Definition stats_column (lo hi values nulls : option Z) (tight : Z) : Arr :=
  Struct stats_fields [true]
    [bound_column lo; bound_column hi; Prim AInt64 [values]; Prim AInt64 [nulls]; Prim ABoolean [Some 0]; Prim ABoolean [Some tight]].

Definition stats_row (c : Arr) : RecordBatch :=
  mkBatch [key_field; type_field; mkField COLUMN_STATS_COLUMN (AStruct stats_fields) true] [Text [Some "k"]; Prim AInt32 [Some 3]; c] 1.

Definition older_stats : Arr := stats_column (Some 5) (Some 9) (Some 100) None 0.
Definition newer_stats : Arr := stats_column (Some 7) (Some 12) (Some 50) None 0.

Lemma merged_statistics_cover_witness : exists r b st,
  metadata_final_merge (new_data "k" (stats_row older_stats) None) (new_data "k" (stats_row newer_stats) None) = Ok r /\
  get_record r = Some b /\ column_by_name b COLUMN_STATS_COLUMN = Ok (Some st) /\
  inside st (as_cell 5) /\ inside st (as_cell 12) /\ counter st "valueCount" = Some 150 /\ counter st "nullCount" = None.
Proof.
  assert (H : exists r, metadata_final_merge (new_data "k" (stats_row older_stats) None) (new_data "k" (stats_row newer_stats) None) = Ok r)
    by (eexists; vm_ok).
  destruct H as (r & Hr).
  destruct (merged_statistics_cover (new_data "k" (stats_row older_stats) None) (new_data "k" (stats_row newer_stats) None)
    (stats_row older_stats) (stats_row newer_stats) 3 older_stats newer_stats stats_fields r)
    as (b & st & Hb & Hst & _ & Hin & Hc); try (vm_compute; reflexivity); [by left|by eexists..|exact Hr|].
  exists r, b, st. split; [done|]. split; [done|]. split; [done|].
  split; [apply Hin; left; exists (as_cell 5), (as_cell 9); by vm_compute|]. split; [apply Hin; right; exists (as_cell 7), (as_cell 12); by vm_compute|].
  split; [rewrite Hc; [vm_compute; reflexivity|by left|by eexists]|rewrite Hc; [vm_compute; reflexivity|by right; left|by eexists]].
Defined.
End SampleMetadataMerger.
