(* ===== verification/MetadataSlice.v ===== *)
(** The first reader of the metadata table's files partition:
    crates/core/src/metadata/table/reader.rs.

    A slice's base file is an HFile, its log files carry HFile records; the records are
    decoded with the schema the HFile states and merged by [MetadataRecords].  A read of
    some keys looks them up with the cursor instead of reading the file through. *)
From Stdlib Require Import ZArith Ascii.
From stdpp Require Import base gmap sets list strings sorting numbers.
From S2P Require Import HFileKey HFileBlock HFileIndex HFileReader HFileSeek HFileWritten Utf8 Prelude RustStr Chrono Config Instant Selector Files FileGroup StorageReader RecordBatches LogFormat LogReader LogEncoding Scanner Metadata MetadataTable Options ReadOptions Table ReadContext MetadataRecords.
Local Open Scope res_scope.
Local Open Scope Z_scope.

(** [AvroSchema::parse_str] *)
Class AvroSchemaText {AD : AvroDatum} := parse_str : string -> option AvroSchema.

Section reader.
Context {G : Gunzip} {P : HFileProtos} {LS : LogStorage} {C : Chrono} {AB : ArrowBatch} {D : ContentDecoder} {AD : AvroDatum}
  {AT : AvroSchemaText}.
Context (hudi_configs : HudiConfigs).

(** [create_instant_range_for_log_file_scan] *)
Definition metadata_instant_range : res InstantRange :=
  let? timezone := default_string hudi_configs TableConfig.TimelineTimezone in
  let? start_timestamp := try_string hudi_configs ReadConfig.StartTimestamp in
  let? end_timestamp := try_string hudi_configs ReadConfig.EndTimestamp in
  Ok (ir_new timezone start_timestamp end_timestamp false true).

(** [get_avro_schema], and its absence refused. *)
Definition slice_schema (r : HFileReader) : res AvroSchema :=
  let? text := map_err EReadFileSlice (avro_schema_json r) in
  let? schema_str := ok_or text EReadFileSlice in
  ok_or (parse_str schema_str) EReadFileSlice.

(** The base file's records: of the keys, sorted, or all of them. *)
Definition slice_base_records (fuel : nat) (r : HFileReader) (hfile_keys : list string) : res (list HFileRecord) :=
  map_err EReadFileSlice
    (if decide (hfile_keys = []) then fst (HFileSeek.collect_records r fuel initial_state)
     else res_map (omap snd) (fst (HFileSeek.lookup_records r (map ascii_bytes hfile_keys) initial_state))).

Definition slice_log_records (log_file_paths : list string) : res (list HFileRecord) :=
  if decide (log_file_paths = []) then Ok []
  else
    let? instant_range := metadata_instant_range in
    let? timezone := default_string hudi_configs TableConfig.TimelineTimezone in
    let? scan_result := scan timezone log_file_paths instant_range in
    match scan_result with
    | ScanHFileRecords records => Ok records
    | ScanEmpty => Ok []
    | ScanRecordBatches _ => Err ELogBlock
    end.

Definition metadata_log_paths (file_slice : FileSlice.t) : list string :=
  if FileSlice.has_log_file file_slice then FileSlice.log_file_relative_path file_slice <$> FileSlice.log_files file_slice else [].

(** [read_files_partition] *)
Definition read_files_partition (fuel : nat) (file_slice : FileSlice.t) (keys : list string)
    : res (gmap string FilesPartitionRecord) :=
  let? base_file_path := ok_or (FileSlice.base_file_relative_path file_slice) EReadFileSlice in
  let? hfile_reader := map_err EReadFileSlice (open base_file_path) in
  let? schema := slice_schema hfile_reader in
  let hfile_keys := merge_sort str_le keys in
  let? base_records := slice_base_records fuel hfile_reader hfile_keys in
  let? log_records := slice_log_records (metadata_log_paths file_slice) in
  merge_for_keys schema base_records log_records hfile_keys.
End reader.

(** * Reads of some keys *)

Lemma strictly_sorted {A} (f : A -> bytes) l : StronglySorted (fun x y => bytes_le (f x) (f y)) l -> NoDup (f <$> l) ->
  StronglySorted (fun x y => bytes_lt (f x) (f y)) l.
Proof.
  induction 1 as [|x l Hl IH Hx]; [constructor|]. intros [Hnot Hnd]%list.NoDup_cons. constructor; [by apply IH|].
  apply list.Forall_forall. intros y Hy. eapply list.Forall_forall in Hx; [|done]. apply bytes_le_lt_or_eq in Hx as [|He]; [done|].
  destruct Hnot. rewrite He. by apply list_elem_of_fmap_2.
Qed.

Lemma sorted_filter {A} (R : A -> A -> Prop) (p : A -> bool) l : StronglySorted R l -> StronglySorted R (List.filter p l).
Proof.
  induction 1 as [|x l Hl IH Hx]; [constructor|]. cbn. destruct (p x); [|done]. constructor; [done|].
  apply List.Forall_forall. intros y [Hy _]%List.filter_In. by eapply List.Forall_forall in Hx.
Qed.

Lemma sorted_omap {A B} (R : A -> A -> Prop) (S : B -> B -> Prop) (g : A -> option B) l :
  (forall x y x' y', R x y -> g x = Some x' -> g y = Some y' -> S x' y') -> StronglySorted R l -> StronglySorted S (omap g l).
Proof.
  intros H. induction 1 as [|x l Hl IH Hx]; [constructor|]. cbn. destruct (g x) as [x'|] eqn:Ex; [|done]. constructor; [done|].
  apply list.Forall_forall. intros y' (y & Hy & Ey)%list_elem_of_omap. eapply list.Forall_forall in Hx; [|done]. by eapply H.
Qed.

Lemma strict_NoDup {A} (f : A -> bytes) l : StronglySorted (fun x y => bytes_lt (f x) (f y)) l -> NoDup l.
Proof.
  induction 1 as [|x l Hl IH Hx]; [constructor|]. apply list.NoDup_cons. split; [|done]. intros Hin.
  eapply list.Forall_forall in Hx; [|done]. by apply bytes_lt_irrefl in Hx.
Qed.

Lemma key_text record s : key_as_str record = Some s <-> hf_key record = ascii_bytes s /\ valid_utf8 (ascii_bytes s) = true.
Proof.
  unfold key_as_str, from_utf8, ascii_bytes. destruct (valid_utf8 (hf_key record)) eqn:Hv; split.
  - intros [= <-]. by rewrite String.list_ascii_of_string_of_list_ascii.
  - intros [H _]. rewrite H. by rewrite String.string_of_list_ascii_of_string.
  - done.
  - intros [H Hs]. by rewrite <- H, Hv in Hs.
Qed.

Lemma sorted_keys keys : StronglySorted (fun x y => bytes_le (ascii_bytes x) (ascii_bytes y)) (merge_sort str_le keys).
Proof.
  assert (Hle : StronglySorted str_le (merge_sort str_le keys)).
  { apply StronglySorted_merge_sort; [intros a b c; apply str_leb_trans|intros a b; apply str_leb_total]. }
  induction Hle as [|x l Hl IH Hx]; constructor; [done|]. apply (list.Forall_impl _ _ _ Hx). intros y Hy.
  apply bytes_le_leb. unfold str_of, ascii_bytes. by rewrite !String.string_of_list_ascii_of_string.
Qed.

Section keyed.
Context {G : Gunzip} (r : HFileReader) (es : list BlockIndexEntry) (blocks : BlockIndexEntry -> list (bytes * bytes)).
Context (F : file_holds r es blocks) (Hunique : NoDup (ck <$> flat blocks es)).

(** Looking keys up gives the records a scan would keep. *)
Lemma lookups_are_filtered keys : NoDup keys -> Forall (fun k => valid_utf8 (ascii_bytes k) = true) keys ->
  omap (fun k => first_record es blocks (ascii_bytes k)) (merge_sort str_le keys) =
  List.filter (key_asked keys) (map record_of (flat blocks es)).
Proof.
  intros Hnd Hv.
  assert (Hfirst : forall k rec, first_record es blocks k = Some rec <-> rec ∈ map record_of (flat blocks es) /\ hf_key rec = k).
  { intros k rec. unfold first_record. split.
    - destruct (List.find _ _) as [kv|] eqn:Hf; [|done]. intros [= <-]. apply List.find_some in Hf as [Hin Hk%bool_decide_eq_true].
      split; [by apply list_elem_of_In, List.in_map|done].
    - intros [Hin Hk]. apply list_elem_of_In, List.in_map_iff in Hin as (kv & <- & Hin).
      destruct (List.find _ _) as [kv'|] eqn:Hf.
      + apply List.find_some in Hf as [Hin' Hk'%bool_decide_eq_true]. f_equal. f_equal.
        apply list_elem_of_In in Hin, Hin'. clear -Hunique Hin Hin' Hk Hk'. cbn in Hk.
        induction (flat blocks es) as [|x l IH]; [by inversion Hin|]. apply list.NoDup_cons in Hunique as [Hx Hl].
        apply elem_of_cons in Hin as [->|Hin], Hin' as [->|Hin']; [done| | |by apply IH].
        * destruct Hx. rewrite Hk, <- Hk'. by apply list_elem_of_fmap_2.
        * destruct Hx. rewrite Hk', <- Hk. by apply list_elem_of_fmap_2.
      + exfalso. apply (List.find_none _ _ Hf) in Hin. rewrite bool_decide_true in Hin; done. }
  assert (Hs1 : StronglySorted (fun x y => bytes_lt (hf_key x) (hf_key y))
    (omap (fun k => first_record es blocks (ascii_bytes k)) (merge_sort str_le keys))).
  { apply (sorted_omap (fun x y => bytes_lt (ascii_bytes x) (ascii_bytes y))).
    - intros x y x' y' Hlt [_ ->]%Hfirst [_ ->]%Hfirst. done.
    - apply strictly_sorted.
      + apply sorted_keys.
      + rewrite merge_sort_Permutation. apply NoDup_fmap_2; [|done]. intros a b Hab.
        rewrite <- (String.string_of_list_ascii_of_string a), <- (String.string_of_list_ascii_of_string b).
        unfold ascii_bytes in Hab. by rewrite Hab. }
  assert (Hs2 : StronglySorted (fun x y => bytes_lt (hf_key x) (hf_key y)) (List.filter (key_asked keys) (map record_of (flat blocks es)))).
  { apply sorted_filter. pose proof (strictly_sorted ck _ (fh_sorted _ _ _ F) Hunique) as Hs. clear -Hs.
    induction Hs as [|x l Hl IH Hx]; constructor; [done|]. apply list.Forall_forall. intros y Hy.
    apply list_elem_of_In, List.in_map_iff in Hy as (kv & <- & Hin). apply list_elem_of_In in Hin. rewrite list.Forall_forall in Hx. exact (Hx kv Hin). }
  apply (StronglySorted_unique_strong (fun x y => bytes_lt (hf_key x) (hf_key y))); [|done|done|].
  { intros x y _ _ H1 H2. exfalso. by apply (bytes_lt_irrefl (hf_key x)), bytes_lt_trans with (hf_key y). }
  apply NoDup_Permutation; [by apply (strict_NoDup hf_key)|by apply (strict_NoDup hf_key)|].
  intros rec. rewrite list_elem_of_omap, (list_elem_of_In (List.filter _ _)), List.filter_In, <- list_elem_of_In. split.
  - intros (k & Hk & Hrec). rewrite merge_sort_Permutation in Hk. apply Hfirst in Hrec as [Hin Hkey]. split; [done|].
    unfold key_asked. eapply list.Forall_forall in Hv; [|done]. rewrite (proj2 (key_text rec k)) by done. by apply bool_decide_eq_true.
  - intros [Hin Hk]. unfold key_asked in Hk. destruct (key_as_str rec) as [s|] eqn:Hs; [|done]. apply bool_decide_eq_true in Hk.
    apply key_text in Hs as [Hs _]. exists s. split; [by rewrite merge_sort_Permutation|]. by apply Hfirst.
Qed.
End keyed.

Lemma omap_map_snd {A B C : Type} (f : A -> B) (g : A -> option C) (l : list A) : omap snd (map (fun k => (f k, g k)) l) = omap g l.
Proof. induction l as [|x l IH]; [done|]. cbn. by rewrite IH. Qed.

Section reads.
Context {G : Gunzip} {P : HFileProtos} {LS : LogStorage} {C : Chrono} {AB : ArrowBatch} {D : ContentDecoder} {AD : AvroDatum}
  {AT : AvroSchemaText}.

(** Only the records of the keys asked for are looked at. *)
Lemma merge_for_keys_filtered schema base log keys : keys <> [] ->
  merge_for_keys schema (List.filter (key_asked keys) base) log keys = merge_for_keys schema base log keys.
Proof.
  intros Hne. unfold merge_for_keys. rewrite !decide_False by done. rewrite !fold_if_asked. do 2 f_equal.
  induction base as [|a base IH]; [done|]. cbn. destruct (key_asked keys a) eqn:Ha; cbn; [|done]. by rewrite Ha, IH.
Qed.

Lemma key_asked_sorted keys a : key_asked (merge_sort str_le keys) a = key_asked keys a.
Proof.
  unfold key_asked. destruct (key_as_str a); [|done]. apply bool_decide_ext. by rewrite merge_sort_Permutation.
Qed.

(** C11: reading some keys of a slice of the files partition is reading the slice whole and
    keeping those keys.  The keys are looked up in the base file with the cursor, the whole
    read goes through it; the log files are the same.  The base file holds each key once,
    the cursor can probe for the keys, and no record has the other spelling of one. *)
Theorem keyed_slice_read configs fuel s keys path r es blocks logs m :
  FileSlice.base_file_relative_path s = Some path -> open path = Ok r -> file_holds r es blocks ->
  NoDup (ck <$> flat blocks es) -> (length (flat blocks es) < fuel)%nat ->
  keys <> [] -> NoDup keys -> Forall (fun k => valid_utf8 (ascii_bytes k) = true /\ probe_ok (ascii_bytes k)) keys ->
  slice_log_records configs (metadata_log_paths s) = Ok logs ->
  (forall a t, a ∈ map record_of (flat blocks es) ++ logs -> key_as_str a = Some t ->
    normalise_partition t ∈ normalise_partition <$> keys -> t ∈ keys) ->
  read_files_partition configs fuel s [] = Ok m ->
  read_files_partition configs fuel s keys = Ok (filter (fun kv => kv.1 ∈ normalise_partition <$> keys) m).
Proof.
  intros Hp Hr F Hu Hfuel Hne Hnd Hk Hlog Hraw H. unfold read_files_partition in *. rewrite Hp in H |- *. cbn [ok_or res_bind] in H |- *. rewrite Hr in H |- *. cbn [map_err res_bind] in H |- *.
  destruct (slice_schema r) as [schema| |]; cbn [res_bind] in H |- *; [|done|done].
  unfold slice_base_records in H |- *. rewrite decide_True in H by done.
  destruct (collect_records_ok r es blocks F fuel initial_state Hfuel) as (s1 & H1). rewrite H1 in H. cbn [fst map_err res_bind] in H.
  assert (Hsne : merge_sort str_le keys <> []).
  { intros E. pose proof (merge_sort_Permutation str_le keys) as Hperm. rewrite E in Hperm. by apply Permutation_nil_l in Hperm. }
  rewrite decide_False by done.
  destruct (lookup_records_ok r es blocks F (map ascii_bytes (merge_sort str_le keys)) initial_state) as (s2 & H2).
  { clear. induction (sorted_keys keys) as [|x l Hl IH Hx]; cbn; constructor; [done|]. apply list.Forall_forall.
    intros y (k & -> & Hy)%list_elem_of_fmap. rewrite list.Forall_forall in Hx. by apply Hx. }
  { apply list.Forall_forall. intros y (k & -> & Hy)%list_elem_of_fmap. rewrite merge_sort_Permutation in Hy.
    rewrite list.Forall_forall in Hk. by apply Hk. }
  rewrite H2. cbn [fst map_err res_map res_bind]. rewrite Hlog in H |- *. cbn [res_bind] in H |- *.
  replace (omap snd (map _ _)) with (List.filter (key_asked (merge_sort str_le keys)) (map record_of (flat blocks es))).
  2:{ rewrite map_map, omap_map_snd.
      rewrite (lookups_are_filtered r es blocks F Hu keys Hnd); [|apply (list.Forall_impl _ _ _ Hk); naive_solver].
      apply List.filter_ext. intros a. apply key_asked_sorted. }
  rewrite merge_for_keys_filtered by done.
  rewrite (merge_for_keys_is_restriction schema _ logs _ m); [|done| |exact H].
  - f_equal. apply map_filter_ext. intros k v _. cbn. by rewrite merge_sort_Permutation.
  - intros a t' Ha Ht. rewrite !merge_sort_Permutation. by apply (Hraw a).
Qed.
End reads.

(** * Samples *)
Module SampleSlice.
Import HFileWritten.SampleHFile.
Import MetadataRecords.SampleMetadataRecords.

(** Contents are one byte ([contents]). *)
Definition entry (k : string) (value : nat) : bytes * bytes := (hkey (ascii_bytes k) ++ [zero_byte], [ascii_of_nat value]).

Definition slice_parts : list DataPart :=
  [([entry "__all_partitions__" 3; entry "p=1" 0], hkey (ascii_bytes "__all_partitions__"));
   ([entry "p=2" 2], hkey (ascii_bytes "p=2"))].

Definition slice_pairs : list (bytes * bytes) :=
  [(ascii_bytes FILE_INFO_LAST_KEY, hkey (ascii_bytes "p=2")); (ascii_bytes FILE_INFO_SCHEMA, ascii_bytes "{}")].

#[export] Instance slice_protos : HFileProtos := {
  decode_trailer b := if decide (b = ascii_bytes "T") then Some (trailer_proto slice_parts) else None;
  decode_info b := if decide (b = ascii_bytes "I") then Some slice_pairs else None
}.

Definition object : bytes := write_file slice_parts (ascii_bytes "I") 0 (ascii_bytes "T").

Lemma slice_between l b r kv : slice_parts = l ++ b :: r -> kv ∈ b.1 ->
  bytes_le (part_sep b) (ck kv) /\ Forall (fun b' => bytes_le (ck kv) (part_sep b')) (take 1 r).
Proof.
  intros E Hkv.
  pose proof (each_block_at slice_parts (fun b r => forallb (fun kv => le_b (part_sep b) (ck kv) &&
    forallb (fun b' => le_b (ck kv) (part_sep b')) (take 1 r)) b.1) l b r ltac:(vm_compute; reflexivity) E) as H.
  cbn beta in H. rewrite forallb_forall in H. apply list_elem_of_In in Hkv. specialize (H kv Hkv).
  apply andb_prop in H as [H1 H2]. split; [by apply le_b_ok|]. rewrite forallb_forall in H2.
  apply list.Forall_forall. intros b' Hb'. apply le_b_ok, H2. by apply list_elem_of_In.
Qed.

Lemma slice_writable : writable slice_parts (ascii_bytes "I") slice_pairs 0 (ascii_bytes "T") (trailer_proto slice_parts).
Proof.
  split.
  - vm_compute. reflexivity.
  - vm_compute. intros [=].
  - lia.
  - vm_compute. reflexivity.
  - by right.
  - reflexivity.
  - reflexivity.
  - reflexivity.
  - reflexivity.
  - reflexivity.
  - vm_compute. reflexivity.
  - intros b Hb. assert (E : Some b = Some (hkey (ascii_bytes "p=2"))) by (rewrite <- Hb; vm_compute; reflexivity).
    injection E as ->. split; [vm_compute; reflexivity|]. repeat constructor; vm_compute; intros [=].
  - vm_compute. reflexivity.
  - repeat constructor; vm_compute; congruence.
  - repeat constructor; vm_compute; reflexivity.
  - exact slice_between.
  - repeat constructor; vm_compute; intros [=].
Qed.

#[export] Instance slice_storage : LogStorage := {| log_object := fun _ => Ok object; log_store := fun _ => store_of object |}.

#[export] Instance slice_schema_text : AvroSchemaText (AD := sample_datum) := fun _ => Some the_schema.

Definition files_slice : FileSlice.t :=
  FileSlice.new (BaseFile.mk "files-0000-0" "0-1-1" "00000000000000000" None "hfile" None) "files".

#[local] Existing Instances Civil.civil raw_batch raw_decoder.

Lemma slice_records : flat (blocks_of slice_parts) (index_entries slice_parts) = concat (map fst slice_parts).
Proof. vm_compute. reflexivity. Qed.

Lemma slice_keys : omap key_as_str (map record_of (concat (map fst slice_parts))) = ["__all_partitions__"; "p=1"; "p=2"].
Proof. vm_compute. reflexivity. Qed.

(** Two partitions in the base file, one of them asked for. *)
Lemma keyed_slice_read_witness : exists m,
  read_files_partition ∅ 4 files_slice [] = Ok m /\ dom m = {["__all_partitions__"; "p=1"; "p=2"]} /\
  read_files_partition ∅ 4 files_slice ["p=2"] = Ok (filter (fun kv => kv.1 ∈ normalise_partition <$> ["p=2"]) m).
Proof.
  destruct (written_file_opens _ _ _ _ _ _ slice_writable) as (r & Hr & _ & _ & F).
  eexists. split; [vm_ok|]. split; [vm_compute; reflexivity|].
  apply (keyed_slice_read ∅ 4 files_slice ["p=2"] "files/files-0000-0_0-1-1_00000000000000000.hfile" r
    (index_entries slice_parts) (blocks_of slice_parts) []).
  - vm_compute. reflexivity.
  - exact Hr.
  - exact F.
  - rewrite slice_records. apply (bool_decide_unpack _). vm_compute. exact I.
  - rewrite slice_records. cbn. lia.
  - done.
  - apply NoDup_singleton.
  - constructor; [|constructor]. split; [reflexivity|]. split; [vm_compute; reflexivity|]. right. vm_compute. reflexivity.
  - reflexivity.
  - intros a t Ha Ht. rewrite app_nil_r, slice_records in Ha.
    assert (Hin : t ∈ ["__all_partitions__"; "p=1"; "p=2"]).
    { rewrite <- slice_keys. apply list_elem_of_omap. exists a. split; [exact Ha|exact Ht]. }
    rewrite !elem_of_cons in Hin. destruct Hin as [->|[->|[->|Hin]]]; [by apply (bool_decide_unpack (_ -> _))..|by inversion Hin].
  - vm_ok.
Defined.
End SampleSlice.
